(* ===== verification/_CoqProject ===== *)
-Q . S2P
Prelude.v
Core.v
Queues.v
Text.v
Contracts.v
Ids.v
Backoff.v
Bus.v
Tables.v
Registry.v
Attachments.v
Invoices.v
Attribution.v
Range.v
Sweeps.v
RelayIntents.v
Verifications.v
Proof.v
ProofApi.v
LedgerExample.v
LedgerInv.v
ProofExample.v
ProofTheorems.v
LedgerNotes.v
RangeInv.v
LedgerRuns.v
IssuedProofs.v
RangeTheorems.v
SweepTheorems.v
RelayTheorems.v
VerificationTheorems.v
Withdrawals.v
WithdrawalTheorems.v
ChainFaults.v
Webhooks.v
WebhookTheorems.v
ApiError.v
Effects.v
Api.v
PayerIdentity.v
PayerPolicy.v
Chain.v
Relay.v
RelayPoller.v
PayerEmail.v
Notifications.v
Dispatcher.v
Amounts.v
Responses.v
PayerApi.v
PayerTheorems.v
RelayApi.v
Customers.v
Uploads.v
UploadTheorems.v
DepositApi.v
Placement.v
Accounts.v
AccountTheorems.v
Auth.v
AuthTheorems.v
NotificationTheorems.v
WebhookWorker.v
WorkerTheorems.v
Evidence.v
RelayPollerTheorems.v
InternalRpc.v
Indexer.v
IndexerTheorems.v
Authorizations.v
WithdrawalApi.v
WithdrawalApiTheorems.v
Orchestrator.v
OrchestratorTheorems.v
Execution.v
Executor.v
ExecutionInv.v
ExecutionTheorems.v
ExecutorTheorems.v
ServerEvents.v
