(* ===== verification/Prelude.v ===== *)
(** * Gum: a verification library for the deposit gateway

    Gum takes stablecoin deposits for merchants.  A request for payment (an
    "Invoice" or "request" in the code) has a deterministic address on every
    chain it may be paid on; the server issues requests, the indexer reports
    the finalized transfers to those addresses, the ledger credits them and
    decides when a request is funded, sweep jobs ask the signers to settle
    funded addresses on chain, and withdrawals move a merchant's settled
    balance out again.  The processes share one Postgres database and talk
    over a durable message bus stored in it.

    ** How the parts interact

    - gum-server issues and binds requests (gum-ledger [invoices.rs]),
      schedules sweeps and withdrawal steps, and consumes execution events;
    - gum-indexer reads the watch list and calls [apply_finalized_range] over
      the server's internal RPC, one finalized block range at a time, under a
      compare-and-set on the chain's cursor;
    - a payer may pay from another chain through a relay: the intent it leaves
      ([relay_intents.rs]) decides whether a transfer from a solver counts as
      the payer's, and the server's poller settles it from the origin chain's
      receipt (gum-server [relay_intents.rs]); a request with add-ons is
      completed by verified facts ([verifications.rs]);
    - for a settled request the server issues a signed proof of payment, which
      anyone can verify offline from the commitments behind the address
      (gum-core [proof.rs], [attribution.rs]);
    - scheduling publishes an [ExecutionCommand] on gum-bus in the transaction
      that opens the job or the step; gum-signers executes it and publishes an
      [ExecutionEvent], which the ledger applies (gum-ledger [sweeps.rs],
      [withdrawals.rs]);
    - the signers keep, in tables of their own, the jobs they accepted, one
      transaction lane per chain and signer, and the chains they must not
      broadcast on;
    - merchants and payers reach all this over the server's API: a merchant's
      key or session names an account, whose requests, customers, attachments
      and withdrawals the handlers read and write; a payer opens a request's
      page, proves a mailbox or a wallet, and is given the address to pay;
    - what changes in a request's row is reported to the merchant's webhook
      endpoints and by mail, from tables that the same transactions write;
    - a chain fault stops broadcasting on a chain until an operator clears it:
      [chain_faults.rs] publishes a [ChainControl] notice each way.

    ** Files

    - [Prelude]: results and their [let!] notation, machine integers
      ([u256_of_numeral], [as_i64], checked and saturating arithmetic), list,
      option and finite-map lemmas, the tactics and hint databases.
    - [Core]: gum-core [currency.rs], [invoice.rs], [expiration.rs]: currencies
      and the request status with their text forms, the expiration parser;
      decimal text is read back.
    - [Queues]: the first row of an ordered query, and pages after a cursor.
      [Text]: the standard library's string functions over UTF-8 bytes.
    - [Contracts]: gum-contracts [bus.rs], [rpc.rs]: commands, events and
      chain control; the class [BusMessage] is the trait of that name, with the
      topic, kind and deduplication key of each message; cursors and
      observations; RPC error codes.
    - [Backoff]: gum-bus [backoff.rs], the jittered exponential delay.
    - [Bus]: gum-bus [publisher.rs], [consumer.rs] and the [bus] tables and
      fan-out trigger of migration [0002_bus.sql].  The class [HasBus] says
      where a client's database keeps the bus, so that the consumer's loop is
      stated once for any handler and any database.
    - [Tables]: the application's rows and the database record [Db.t].
    - [Registry]: gum-core [chain.rs], the configured chains and tokens.
    - [Attachments]: gum-ledger [attachments.rs] and the commitment trigger.
    - [Invoices]: gum-ledger [invoices.rs], issuance, bindings, expiry,
      cancellation, release of an attention flag.
    - [Range]: [apply_finalized_range] of [invoices.rs] and [cursor.rs], one
      definition per phase of the function.
    - [Sweeps]: gum-ledger [sweeps.rs], eligibility, scheduling, evidence.
    - [RelayIntents]: gum-ledger [relay_intents.rs], quotes, reports, fills.
    - [Verifications]: gum-ledger [verifications.rs], sessions, codes, secrets.
    - [Attribution]: gum-core [attribution.rs], [deterministic_address.rs], [payer_attestation.rs] and
      the issuing and binding of [invoice.rs], over the class [Primitives] of
      hashes, signatures and encodings; [Lawful] states what is relied on.
    - [Proof]: gum-core [proof.rs]; [ProofApi]: gum-ledger [proofs.rs],
      gum-server [attestation.rs], [api/proof.rs]; [ProofExample]: a lawful
      instance one can evaluate and a request paid under it.
    - [Withdrawals]: gum-ledger [withdrawals.rs], withdrawals and their legs.
    - [ChainFaults]: gum-ledger [chain_faults.rs].
    - [Accounts]: gum-ledger [accounts.rs] over its three tables
      ([Directory.t]); [AccountTheorems]: histories of keys and identities.
    - [Auth]: gum-server [api/auth.rs], [api/accounts.rs]: who is calling, over
      the class [Jwt]; [AuthTheorems]: what a request is admitted on.
    - [Webhooks]: gum-ledger [webhooks.rs] and the triggers that write and fan
      out events; [WebhookWorker]: gum-server [webhook_worker.rs] and
      [api/webhooks.rs].
    - [Notifications]: gum-ledger [notifications.rs]; [PayerEmail],
      [Dispatcher]: gum-server [payer_email.rs], [dispatcher.rs].
    - [Ids], [Amounts], [Responses]: gum-core [ids.rs], [amount.rs], [dto.rs].
    - [ApiError], [Api]: gum-server [api/error.rs] and what handlers have in
      common: a handler is a computation over the shared database, and the
      class [Interference] says what it may rely on while others write.
    - [PayerPolicy]: the validation of a request's text and policy, of
      [api/deposit_requests.rs] and [attribution.rs]; [PayerIdentity]:
      gum-server [payer_identity.rs]; [PayerApi]: [api/payer.rs],
      [api/payer_verification.rs], [api/merchant_session.rs],
      [api/payer_wallet.rs], [api/verification.rs]; [RelayApi]:
      [api/relay.rs] and the chain list of [state.rs], with their properties.
    - [Customers]: [customers.rs] of the ledger and the API; [Uploads]:
      gum-server [attachments.rs], [api/attachments.rs]; [DepositApi]:
      [api/deposit_requests.rs]; [Placement]: where addresses come from.
    - [Authorizations]: gum-core [withdrawal_authorization.rs];
      [WithdrawalApi]: [api/withdrawals.rs] and [chain_reader.rs].
    - [Effects]: computations that keep their state when they fail, with the
      [let*] notation and the rules by which a relation on states is carried
      through a computation; and a server's computations over the ledger's
      database, with the other users of it between any two calls.
    - [Chain]: gum-chain [lib.rs] above the JSON-RPC transport: the record
      [Node.t] of what a node answers, receipts' logs, the finality boundary,
      fees and batch gas.
    - [Evidence]: gum-signers [step.rs], [sweep.rs]: step preconditions and the
      classification of a finalized batch.
    - [InternalRpc]: gum-server [internal_rpc.rs] and the indexer's client,
      gum-indexer [ledger.rs]; [Indexer]: gum-indexer [indexer.rs], a pass of a
      chain's worker and what follows it.
    - [Relay]: gum-relay [lib.rs]; [RelayPoller]: gum-server [relay_intents.rs].
    - [Orchestrator]: gum-server [withdrawal_orchestrator.rs], [iris.rs].
    - [Execution]: gum-signers [store.rs], [handlers.rs] over migration
      [0003_execution.sql]: jobs, transaction slots, attempts, halts.
    - [Executor]: gum-signers [executor.rs], one pass of a chain worker.
    - [ExecutionInv], [ExecutionTheorems], [ExecutorTheorems]: the relation
      [exec_step] of committed transactions, its invariants, and the executor's
      properties.
    - [ServerEvents]: gum-server [execution_events.rs], [sweep_scheduler.rs].
    - [LedgerInv], [RangeInv]: the ledger's invariant [ledger_ok] and its
      preservation by the operations that credit, schedule and collect.
    - [LedgerNotes]: what relay and verification writes leave unchanged, so
      that the ledger's histories include them.
    - [LedgerRuns], [RangeTheorems], [SweepTheorems], [RelayTheorems],
      [VerificationTheorems], [WithdrawalTheorems], [IndexerTheorems],
      [OrchestratorTheorems], [RelayPollerTheorems], [ProofTheorems],
      [IssuedProofs], [WebhookTheorems], [WorkerTheorems],
      [NotificationTheorems], [PayerTheorems], [UploadTheorems],
      [WithdrawalApiTheorems]: the properties of those components.  [LedgerExample] is a concrete
      history (issue, pay, schedule, settle) on which they are instantiated.

    ** How the code is modelled

    One database transaction is one function: it takes the state and returns
    [Ok (answer, new state)], or [Err e] when the transaction rolls back, so an
    error never carries a state.  Row locks and advisory locks make the
    transactions atomic, and interleavings are sequences of them ([run] in
    [LedgerRuns], [wd_step] in [WithdrawalTheorems]).  The transaction's [now()]
    (microseconds) and the fresh identifiers it draws are arguments.  Tables are
    finite maps keyed by their primary key; unique indexes, CHECK constraints
    and triggers that guard a modelled write appear as guards of that write.
    Amounts are 256-bit integers kept in [Z] with their checked or saturating
    operations; a decimal TEXT column holds the number it decodes to, and a u64
    written to a BIGINT column goes through [as_i64].  A status column is an
    enumeration.  The retry backoff of a sweep is computed as Postgres computes
    it in float8, overflow included.  Code outside the repository is a
    parameter: SHA-256 of a payload ([payload_hash]), address parsing
    ([parse_address]), hexadecimal printing and error rendering; the
    cryptography behind addresses and proofs is the class [Primitives].  Almost
    every recursion is structural on a list or a finite map.  Five loops carry
    fuel: the two searches of [Evidence] are given one step per block of the
    range (and per halving of the chunk), the coordinator of [Executor] one per
    queued job and free signer; each is proved to end within it
    ([search_settlement_ends], [search_authorization_ends],
    [total_coordinate]); the long poll of [DepositApi] is given four looks per
    second of its timeout and one more, which is enough ([long_poll_ends]).  The range loop of [Indexer] retries a range whose end
    block changed as often as the chain reorganises, so it has no bound in
    general; its fuel is an argument, the properties of a pass hold for every
    fuel, and [pass_terminates] gives the fuel that is enough when no block
    changes.  Every operation is a total function that evaluates.

    The executor's functions make several committed transactions and node
    calls; they are computations of [Effects] over the store and a counter of
    steps.  The node's answers, the clock and fresh identifiers depend on that
    counter and are otherwise arbitrary, so a chain may reorganise between any
    two calls, and the handlers' transactions ([Env.others]) run before each
    commit of a pass.  The indexer's pass and the orchestrator's round are written the
    same way over the ledger's database, with the other users of the database
    running between any two calls; the indexer's calls go over a [Wire] that
    may lose a request or its answer.  Concurrent starts take effect one at a time, in an order that
    is a parameter.

    ** What the theorems show

    - The ledger's money ([ledger_balances], [range_funds_exactly],
      [range_applies_once]): in every reachable state a request's received
      amount is the sum of its credited payments and its uncollected amount is
      what no collection has claimed; a range funds a request exactly when the
      credited total reaches the amount and expires it exactly when it is open
      past its deadline; a range is applied once.
    - Sweeps ([classification_follows_chain_order], [evidence_closes_job_once],
      [schedule_opens_job], [sweep_membership],
      [unknown_settlement_flagged_once],
      [scheduling_fails_after_1024_retries]): payments are classified by their
      position relative to the settlement and the deadline, each job is
      opened with its command and closed by one piece of evidence.
    - Request life cycle ([lifecycle_only_advances]).
    - Relay intents ([relay_attribution_grounded], [fill_settles_parked],
      [intents_only_advance]): a transfer counts as a payer's relay payment
      only through an intent whose payment was proved on the origin chain.
    - The relay poller ([attributed_transfers_paid], [due_intents_attended]):
      over histories of whole rounds of the poller and the ledger's other
      transactions, that proof is a receipt of the attested wallet's own
      transaction, Relay's word alone fills nothing; and no due intent among
      the first twenty is neglected.
    - Proofs of payment ([verify_proof_exact],
      [attestation_vouches_for_one_request], [issued_proof_verifies]): what
      verification accepts, that a signature vouches for one request, and that
      the path from issuance to the issued document ends in a proof that
      verifies, unless a verification is outstanding, when it is refused.
    - Verifications ([verification_completes_on_facts],
      [client_secret_spent_once], [codes_respect_cooldown]).
    - The indexer ([pass_misses_nothing], [pass_refines_ledger],
      [finality_violation_halts], [pass_terminates], [watch_list_exact]): no
      transfer to a watched address is lost, and a replaced final block stops
      the chain.
    - The orchestrator ([running_steps_commanded], [burn_message_exact],
      [orchestrator_refines_withdrawals]) and the registry
      ([registry_accepts_exactly], [registry_networks_canonical],
      [registry_tokens_roundtrip]).
    - Withdrawals ([withdrawal_ending_reflects_legs], [legs_follow_state_machine],
      [cancel_recalls_every_leg], [step_result_applied_once],
      [reverts_are_bounded], [relayable_legs_can_start],
      [one_withdrawal_in_progress]).
    - The bus ([bus_never_loses], [publish_exactly_once],
      [claim_leases_exclusively], [handle_one_atomic],
      [fail_parks_or_reschedules], [event_key_identifies],
      [backoff_delay_bounds]).
    - Addresses ([payment_addresses_as_committed]): a request is paid at the
      address its committed document determines, however handlers interleave.
    - The payer ([content_only_for_the_verified], [locked_view_reveals_nothing],
      [continuation_as_signed]): who sees a gated request, and what others see.
    - Paying from another chain ([quote_pins_the_payment],
      [chain_list_from_relay], [sent_steps]): amount, recipient and token are the
      request's own, whatever the page and Relay say.
    - Admission ([admitted_as_account_holder], [key_of_recent]): a request runs
      as an account only on a key that opens it or a session of its owner.
    - The merchant ([keys_open_as_issued], [rotations_serial],
      [customer_pages_cover], [overlapping_update_reverts],
      [uploads_admitted_as_inspected], [long_poll_ends],
      [filter_matches_reported]) and their withdrawals
      ([relayed_only_as_signed], [handlers_refine_withdrawals]).
    - What is told ([shown_facts_reported_once], [event_fans_out_exactly],
      [delivery_concluded_once], [claim_serves_earliest], [public_exact],
      [requests_public_and_signed], [iteration_records_outcome],
      [shown_secret_signs], [pages_show_own_deliveries],
      [payer_mail_only_while_open], [notice_settled_for_good],
      [iteration_attends_earliest], [html_markup_fixed]).
    - Text ([shown_amount_reads_back], [ids_roundtrip]).
    - Faults ([halt_and_resume]) and attachments ([attachment_commitment_final]).
    - The signers ([job_concluded_once], [one_open_slot_per_signer],
      [command_accepted_once], [halts_follow_notices], [pass_refines_store],
      [reconcile_concludes_on_evidence], [pass_always_reports]): one
      conclusion per job and one open slot per signer under every interleaving
      of committed transactions; a pass, with others committing between its
      own transactions, refines a specification that guards each of them
      (evidence in order, halts, free signers, agreeing nonces); conclusions
      only on final, canonical evidence.
    - Evidence ([decode_order_independent], [classification_reports_receipt],
      [settlement_search_exact], [authorization_check_exact]).
    - The server ([event_redelivery_changes_nothing],
      [unusable_evidence_parked], [batch_fits_gas_budget]).

    ** What is not modelled

    The bits of hashes, signatures and ABI encodings; JSON encodings; HTTP, RPC
    and mail transport; statistics for operators; surrogate ids of append-only
    tables; start-up, timers, shutdown and logging; the router and the OpenAPI
    document (tables of routes); the PDF rendering of a request; the JSON-RPC
    client of gum-chain and the WebSocket that wakes an indexer; the
    development identity provider.  Open as a theorem: that the evidence of
    a job's own command is always accepted by the ledger. *)

From stdpp Require Export base tactics numbers list gmap fin_maps strings option.
From Stdlib Require Export ZArith Lia.

#[global] Open Scope Z_scope.

(** ** Results

    Fallible operations of the code return [Result<T, E>]; a database
    transaction that returns an error is rolled back, so an operation on the
    state returns the new state only in its [Ok] branch. *)

Inductive result (E A : Type) : Type :=
| Ok (a : A)
| Err (e : E).

Arguments Ok {E A} a.
Arguments Err {E A} e.

Declare Scope gum_scope.
Delimit Scope gum_scope with gum.
#[global] Open Scope gum_scope.

Definition rbind {E A B} (r : result E A) (k : A -> result E B) : result E B :=
  match r with
  | Ok a => k a
  | Err e => Err e
  end.

Notation "'let!' x := c 'in' k" := (rbind c (fun x => k))
  (at level 10, x name, c at level 100, k at level 200) : gum_scope.
Notation "'let!' ' p := c 'in' k" := (rbind c (fun x => match x with p => k end))
  (at level 10, p strict pattern, c at level 100, k at level 200) : gum_scope.

(** [Option::ok_or]. *)
Definition ok_or {E A} (o : option A) (e : E) : result E A :=
  match o with
  | Some a => Ok a
  | None => Err e
  end.

(** A [for] loop over a slice whose body may return early with an error. *)
Fixpoint try_fold {E A S} (f : S -> A -> result E S) (s : S) (l : list A) : result E S :=
  match l with
  | [] => Ok s
  | x :: l' => let! s' := f s x in try_fold f s' l'
  end.

Definition is_ok {E A} (r : result E A) : bool :=
  match r with Ok _ => true | Err _ => false end.

Lemma rbind_ok {E A B} (r : result E A) (k : A -> result E B) b :
  rbind r k = Ok b -> exists a, r = Ok a /\ k a = Ok b.
Proof. destruct r; simpl; intros H; [eauto | discriminate]. Qed.

Lemma ok_or_ok {E A} (o : option A) (e : E) a : ok_or o e = Ok a <-> o = Some a.
Proof. destruct o; simpl; split; intros [=]; subst; done. Qed.

Lemma try_fold_ind {E A S} (f : S -> A -> result E S) (P : S -> Prop) (l : list A) :
  (forall s x s', x ∈ l -> P s -> f s x = Ok s' -> P s') ->
  forall s s', P s -> try_fold f s l = Ok s' -> P s'.
Proof.
  induction l as [|x l IH]; intros Hstep s s' HP; simpl.
  - intros [= <-]; done.
  - intros (s1 & Hf & Hrest)%rbind_ok.
    eapply IH; [| |exact Hrest].
    + intros; eapply Hstep; eauto. by right.
    + eapply Hstep; eauto. by left.
Qed.

(** Filtering keeps keys distinct. *)
Lemma NoDup_filter_key {A K} (key : A -> K) (p : A -> bool) (l : list A) :
  NoDup (key <$> l) -> NoDup (key <$> List.filter p l).
Proof.
  induction l as [|m l IH]; simpl; [done|]. intros [Hni Hnd]%list.NoDup_cons.
  destruct (p m); simpl; [|by auto]. apply list.NoDup_cons. split; [|by auto].
  contradict Hni. apply list_elem_of_fmap in Hni as (m' & -> & Hm').
  apply list_elem_of_In, filter_In in Hm' as [Hm' _]. by apply list_elem_of_fmap_2, list_elem_of_In.
Qed.

(** What one element establishes and the others keep. *)
Lemma try_fold_establishes {E A S} (f : S -> A -> result E S) (Q : S -> Prop) (l : list A) x :
  (forall s y s', y ∈ l -> Q s -> f s y = Ok s' -> Q s') ->
  x ∈ l -> (forall s s', f s x = Ok s' -> Q s') ->
  forall s s', try_fold f s l = Ok s' -> Q s'.
Proof.
  induction l as [|y l IH]; intros Hkeep Hin Hx s s'; simpl; [by apply not_elem_of_nil in Hin|].
  intros (s1 & Hf & Hrest)%rbind_ok. apply elem_of_cons in Hin as [->|Hin].
  - eapply try_fold_ind; [|by eapply Hx|exact Hrest]. intros t z t' Hz. apply Hkeep. by right.
  - eapply IH; [|done|done|exact Hrest]. intros t z t' Hz. apply Hkeep. by right.
Qed.

Lemma try_fold_app {E A S} (f : S -> A -> result E S) l1 l2 s :
  try_fold f s (l1 ++ l2) = rbind (try_fold f s l1) (fun s' => try_fold f s' l2).
Proof.
  revert s; induction l1 as [|x l1 IH]; intros s; simpl; [done|].
  destruct (f s x); simpl; auto.
Qed.

(** [iter().map(f).collect::<Result<Vec<_>, _>>()]. *)
Fixpoint map_result {E A B} (f : A -> result E B) (l : list A) : result E (list B) :=
  match l with
  | [] => Ok []
  | x :: l' => let! y := f x in let! ys := map_result f l' in Ok (y :: ys)
  end.

Lemma map_result_ok {E A B} (f : A -> result E B) l ys :
  map_result f l = Ok ys <-> Forall2 (fun x y => f x = Ok y) l ys.
Proof.
  revert ys. induction l as [|x l IH]; intros ys; simpl.
  - split; [by intros [= <-]|by intros ->%list.Forall2_nil_inv_l].
  - split.
    + intros (y & Hy & (zs & Hzs & [= <-])%rbind_ok)%rbind_ok. constructor; [done|by apply IH].
    + intros (y & zs & Hy & Hzs%IH & ->)%list.Forall2_cons_inv_l. by rewrite Hy, Hzs.
Qed.

(** ** Identifiers, bytes and machine integers

    A [Uuid] is a 128-bit number; [bytes] is a BYTEA column, an [Address]
    (20 bytes), a [B256] (32 bytes) or a [Bytes] value, as its list of octets. *)

Abbreviation Uuid := Z (only parsing).
Abbreviation bytes := (list Z) (only parsing).
Abbreviation Address := (list Z) (only parsing).
Abbreviation B256 := (list Z) (only parsing).
Abbreviation Timestamp := Z (only parsing).

Definition u256_max : Z := 2 ^ 256 - 1.
Definition u64_max : Z := 2 ^ 64 - 1.
Definition u32_max : Z := 2 ^ 32 - 1.

(** [x as i64] on a [u64], and [x as u64] on an [i64]: two's complement. *)
Definition as_i64 (x : Z) : Z := if x <? 2 ^ 63 then x else x - 2 ^ 64.
Definition as_u64 (x : Z) : Z := x mod 2 ^ 64.

(** [U256::from_str_radix(value, 10)] on a column that holds a decimal
    numeral: it fails exactly when the number does not fit 256 bits. *)
Definition u256_of_numeral (n : Z) : option Z :=
  if n <=? u256_max then Some n else None.

Definition u256_checked_add (a b : Z) : option Z :=
  if a + b <=? u256_max then Some (a + b) else None.

Definition u32_saturating_add (a b : Z) : Z := Z.min (a + b) u32_max.
Definition u64_saturating_add (a b : Z) : Z := Z.min (a + b) u64_max.
Definition u64_saturating_sub (a b : Z) : Z := Z.max (a - b) 0.
Definition u64_checked_add (a b : Z) : option Z :=
  if a + b <=? u64_max then Some (a + b) else None.

Lemma as_i64_small x : x < 2 ^ 63 -> as_i64 x = x.
Proof. unfold as_i64. destruct (Z.ltb_spec x (2 ^ 63)); lia. Qed.

Lemma as_i64_nonneg x : 0 <= x <= u64_max -> 0 <= as_i64 x -> x < 2 ^ 63.
Proof.
  unfold as_i64, u64_max. destruct (Z.ltb_spec x (2 ^ 63)); [done|].
  change (2 ^ 64) with 18446744073709551616. lia.
Qed.

Lemma as_u64_nonneg x : 0 <= x < 2 ^ 63 -> as_u64 x = x.
Proof.
  intros H. unfold as_u64. apply Z.mod_small.
  change (2 ^ 64) with (2 * 2 ^ 63). lia.
Qed.

(** ** Chain positions

    The tuple comparison [(block, transaction_index) < (block', index')] of
    Rust and of SQL: lexicographic. *)

Definition position : Type := Z * Z.

Definition position_lt (p q : position) : bool :=
  (fst p <? fst q) || ((fst p =? fst q) && (snd p <? snd q)).

Lemma position_lt_iff p q :
  position_lt p q = true <-> fst p < fst q \/ (fst p = fst q /\ snd p < snd q).
Proof.
  unfold position_lt.
  rewrite orb_true_iff, andb_true_iff, !Z.ltb_lt, Z.eqb_eq. done.
Qed.

Lemma position_lt_irrefl p : position_lt p p = false.
Proof. apply not_true_iff_false. rewrite position_lt_iff. lia. Qed.

Lemma position_lt_trans p q r :
  position_lt p q = true -> position_lt q r = true -> position_lt p r = true.
Proof. rewrite !position_lt_iff. lia. Qed.

(** The order of BYTEA values: by bytes, a prefix first. *)
Fixpoint bytes_leb (a b : bytes) : bool :=
  match a, b with
  | [], _ => true
  | _ :: _, [] => false
  | x :: a', y :: b' => (x <? y) || ((x =? y) && bytes_leb a' b')
  end.

Definition bytes_le (a b : bytes) : Prop := bytes_leb a b = true.

#[export] Instance bytes_le_dec : RelDecision bytes_le.
Proof. intros a b. unfold bytes_le. apply _. Defined.

(** [Option::zip]. *)
Definition option_zip {A B} (a : option A) (b : option B) : option (A * B) :=
  match a, b with
  | Some a, Some b => Some (a, b)
  | _, _ => None
  end.

Definition option_eqb {A} (eqb : A -> A -> bool) (x y : option A) : bool :=
  match x, y with
  | Some a, Some b => eqb a b
  | None, None => true
  | _, _ => false
  end.

Definition is_some {A} (o : option A) : bool :=
  match o with Some _ => true | None => false end.

(** SQL's [COALESCE] on two nullable values. *)
Definition coalesce {A} (a b : option A) : option A :=
  match a with Some _ => a | None => b end.

Lemma coalesce_some {A} (a b : option A) x : a = Some x -> coalesce a b = Some x.
Proof. by intros ->. Qed.

(** ** Aggregates over a table

    [SELECT sum(..)] and [SELECT count(..)] over the rows of a table. *)

Definition map_sum `{Countable K} {V} (f : V -> Z) (m : gmap K V) : Z :=
  map_fold (fun _ v acc => f v + acc) 0 m.

Definition row_count `{Countable K} {V} (p : V -> bool) (m : gmap K V) : Z :=
  map_sum (fun v => if p v then 1 else 0) m.

(** [UPDATE table SET .. WHERE ..]. *)
Definition update_where `{Countable K} {V} (p : V -> bool) (f : V -> V) (m : gmap K V) : gmap K V :=
  (fun v => if p v then f v else v) <$> m.

Section MapSum.
Context `{Countable K} {V : Type}.
Implicit Types (m : gmap K V) (f g : V -> Z).

Lemma map_sum_empty f : map_sum f (∅ : gmap K V) = 0.
Proof. apply map_fold_empty. Qed.

Lemma map_sum_insert f m k v :
  m !! k = None -> map_sum f (<[k := v]> m) = f v + map_sum f m.
Proof.
  intros Hk. unfold map_sum. rewrite map_fold_insert_L; [done| |done].
  intros; lia.
Qed.

Lemma map_sum_delete f m k v :
  m !! k = Some v -> map_sum f m = f v + map_sum f (delete k m).
Proof.
  intros Hk. rewrite <- (insert_delete_id m k v Hk) at 1.
  by rewrite map_sum_insert by apply lookup_delete_eq.
Qed.

Lemma map_sum_ext f g m :
  (forall k v, m !! k = Some v -> f v = g v) -> map_sum f m = map_sum g m.
Proof.
  induction m as [|k v m Hk IH] using map_ind; intros Hfg.
  - by rewrite !map_sum_empty.
  - rewrite !map_sum_insert by done. f_equal.
    + apply (Hfg k). apply lookup_insert_eq.
    + apply IH. intros k' v' Hv'. apply (Hfg k').
      rewrite lookup_insert_ne by congruence. done.
Qed.

Lemma map_sum_nonneg f m :
  (forall k v, m !! k = Some v -> 0 <= f v) -> 0 <= map_sum f m.
Proof.
  induction m as [|k v m Hk IH] using map_ind; intros Hf.
  - by rewrite map_sum_empty.
  - rewrite map_sum_insert by done.
    assert (0 <= f v) by (apply (Hf k); apply lookup_insert_eq).
    assert (0 <= map_sum f m); [|lia].
    apply IH. intros k' v' Hv'. apply (Hf k').
    rewrite lookup_insert_ne by congruence. done.
Qed.

Lemma map_sum_le f g m :
  (forall k v, m !! k = Some v -> f v <= g v) -> map_sum f m <= map_sum g m.
Proof.
  induction m as [|k v m Hk IH] using map_ind; intros Hf.
  - by rewrite !map_sum_empty.
  - rewrite !map_sum_insert by done.
    assert (f v <= g v) by (apply (Hf k); apply lookup_insert_eq).
    assert (map_sum f m <= map_sum g m); [|lia].
    apply IH. intros k' v' Hv'. apply (Hf k').
    rewrite lookup_insert_ne by congruence. done.
Qed.

Lemma map_sum_zero f m :
  (forall k v, m !! k = Some v -> f v = 0) -> map_sum f m = 0.
Proof.
  intros Hf. rewrite (map_sum_ext f (fun _ => 0)) by done. clear Hf.
  induction m as [|k v m Hk IH] using map_ind;
    [apply map_sum_empty | by rewrite map_sum_insert].
Qed.

Lemma row_count_nonneg p m : 0 <= row_count p m.
Proof. apply map_sum_nonneg. intros k v _. destruct (p v); lia. Qed.

Lemma row_count_zero p m :
  row_count p m = 0 <-> forall k v, m !! k = Some v -> p v = false.
Proof.
  split.
  - intros Hz k v Hk. unfold row_count in Hz. rewrite (map_sum_delete _ m k v Hk) in Hz.
    pose proof (row_count_nonneg p (delete k m)) as Hd. unfold row_count in Hd.
    destruct (p v); [lia | done].
  - intros Hall. apply map_sum_zero. intros k v Hk. by rewrite (Hall k v Hk).
Qed.

Lemma lookup_update_where p (f : V -> V) m k :
  update_where p f m !! k = (fun v => if p v then f v else v) <$> m !! k.
Proof. unfold update_where. apply lookup_fmap. Qed.

Lemma map_sum_update_where f p (h : V -> V) m :
  map_sum f (update_where p h m) = map_sum (fun v => f (if p v then h v else v)) m.
Proof.
  unfold update_where.
  induction m as [|k v m Hk IH] using map_ind.
  - by rewrite fmap_empty, !map_sum_empty.
  - rewrite fmap_insert, !map_sum_insert; [by rewrite IH | done |].
    by rewrite lookup_fmap, Hk.
Qed.

End MapSum.

(** Two tables related row by row have the same sums, if related rows count
    the same. *)
Lemma map_sum_related `{Countable K} {V W} (R : V -> W -> Prop) (f : V -> Z) (g : W -> Z)
    (m : gmap K V) (m' : gmap K W) :
  (forall k, option_Forall2 R (m !! k) (m' !! k)) -> (forall v w, R v w -> f v = g w) ->
  map_sum f m = map_sum g m'.
Proof.
  intros HR Hfg. revert m' HR. induction m as [|k v m Hk IH] using map_ind; intros m' HR.
  - assert (m' = ∅) as ->; [|by rewrite !map_sum_empty].
    apply map_empty. intros k. specialize (HR k). rewrite lookup_empty in HR. by inversion HR.
  - pose proof (HR k) as Hv. rewrite lookup_insert_eq in Hv. inversion Hv as [? w Hvw Hv' Hw|]; subst.
    rewrite map_sum_insert by done. rewrite (map_sum_delete g m' k w) by done.
    rewrite (Hfg v w Hvw). f_equal. apply IH. intros k'. destruct (decide (k' = k)) as [->|Hne].
    + rewrite Hk, lookup_delete_eq. constructor.
    + specialize (HR k'). rewrite lookup_insert_ne in HR by done. by rewrite lookup_delete_ne.
Qed.

(** ** Automation *)

(** Boolean tests of the code, turned into propositions. *)
Ltac bools :=
  repeat match goal with
  | H : _ && _ = true |- _ => apply andb_true_iff in H; destruct H
  | H : _ || _ = false |- _ => apply orb_false_iff in H; destruct H
  | H : negb _ = true |- _ => apply negb_true_iff in H
  | H : negb _ = false |- _ => apply negb_false_iff in H
  | H : (_ <? _) = true |- _ => apply Z.ltb_lt in H
  | H : (_ <? _) = false |- _ => apply Z.ltb_ge in H
  | H : (_ <=? _) = true |- _ => apply Z.leb_le in H
  | H : (_ <=? _) = false |- _ => apply Z.leb_gt in H
  | H : (_ =? _) = true |- _ => apply Z.eqb_eq in H
  | H : (_ =? _) = false |- _ => apply Z.eqb_neq in H
  | H : bool_decide _ = true |- _ => apply bool_decide_eq_true in H
  | H : bool_decide _ = false |- _ => apply bool_decide_eq_false in H
  end.

(** Take an [Ok] result of a chain of fallible steps apart. *)
Ltac inv_ok :=
  repeat match goal with
  | H : rbind _ _ = Ok _ |- _ =>
      let x := fresh "x" in let Hx := fresh "Hr" in let Hk := fresh "Hk" in
      apply rbind_ok in H as (x & Hx & Hk)
  | H : ok_or _ _ = Ok _ |- _ => apply ok_or_ok in H
  | H : Ok _ = Ok _ |- _ => injection H as H; try subst
  | H : Err _ = Ok _ |- _ => discriminate H
  | H : Ok _ = Err _ |- _ => discriminate H
  | H : (_, _) = (_, _) |- _ => injection H as ? ?; try subst
  | H : Some _ = Some _ |- _ => injection H as H; try subst
  | H : None = Some _ |- _ => discriminate H
  | H : Some _ = None |- _ => discriminate H
  end.

(** What a finite check shows of every number below a bound. *)
Lemma check_below (bound : Z) (P : Z -> Prop) (dec : forall n, Decision (P n)) :
  forallb (fun n => bool_decide (P n)) (seqZ 0 bound) = true -> forall n, 0 <= n < bound -> P n.
Proof.
  rewrite forallb_forall. intros H n Hn. eapply bool_decide_eq_true_1, H. apply list_elem_of_In, elem_of_seqZ. lia.
Qed.

Create HintDb gum.
#[export] Hint Resolve position_lt_irrefl row_count_nonneg : gum.
Create Rewrite HintDb gum_rw.
#[export] Hint Rewrite @map_sum_empty @map_sum_update_where @lookup_update_where : gum_rw.
