(* ===== verification/Core.v ===== *)
(** * gum-core: currencies, request statuses and expiries

    Models [crates/gum-core/src/currency.rs], the [InvoiceStatus] enum of
    [crates/gum-core/src/invoice.rs] and [crates/gum-core/src/expiration.rs].
    [parse_digits], the reading of [str::parse], is a left inverse of the decimal
    rendering of every number in range. *)

From stdpp Require Import pretty.
From S2P Require Import Prelude.

(** ** Currencies ([currency.rs]) *)

Inductive Currency := Usdc | Usdt.

Inductive CrossChainSettlement := Cctp.

#[export] Instance Currency_eq_dec : EqDecision Currency.
Proof. solve_decision. Defined.

Module Currency.

Definition ALL : list Currency := [Usdc; Usdt].

Definition code (c : Currency) : string :=
  match c with Usdc => "USDC" | Usdt => "USDT" end.

Definition decimals (c : Currency) : Z := match c with Usdc | Usdt => 6 end.

Definition issuer_name (c : Currency) : string :=
  match c with Usdc => "Circle" | Usdt => "Tether" end.

Definition symbol_on (c : Currency) (chain_id : Z) : string :=
  match c with
  | Usdt => if (chain_id =? 143) || (chain_id =? 42161) then "USDT0" else code c
  | Usdc => code c
  end.

Definition cross_chain_settlement (c : Currency) : option CrossChainSettlement :=
  match c with Usdc => Some Cctp | Usdt => None end.

Definition requires_pinned_chain (c : Currency) : bool :=
  negb (is_some (cross_chain_settlement c)).

(** The error carries the text that named no currency. *)
Definition from_str (value : string) : result string Currency :=
  ok_or (List.find (fun c => String.eqb (code c) value) ALL) value.

Lemma from_str_code c : from_str (code c) = Ok c.
Proof. by destruct c. Qed.

Lemma currency_from_str_ok value c : from_str value = Ok c -> value = code c.
Proof.
  intros [_ H]%ok_or_ok%List.find_some. symmetry. by apply String.eqb_eq.
Qed.

End Currency.

(** ** Request statuses ([invoice.rs]) *)

Inductive InvoiceStatus := Created | Funded | Fulfilled | Recovered | Expired.

#[export] Instance InvoiceStatus_eq_dec : EqDecision InvoiceStatus.
Proof. solve_decision. Defined.

Module InvoiceStatus.

Definition ALL : list InvoiceStatus := [Created; Funded; Fulfilled; Recovered; Expired].

Definition as_str (s : InvoiceStatus) : string :=
  match s with
  | Created => "created"
  | Funded => "funded"
  | Fulfilled => "fulfilled"
  | Recovered => "recovered"
  | Expired => "expired"
  end.

Definition is_terminal (s : InvoiceStatus) : bool :=
  match s with Fulfilled | Recovered => true | _ => false end.

Definition from_str (s : string) : result string InvoiceStatus :=
  ok_or (List.find (fun status => String.eqb (as_str status) s) ALL) s.

Definition eqb (a b : InvoiceStatus) : bool := bool_decide (a = b).

Lemma eqb_eq a b : eqb a b = true <-> a = b.
Proof. unfold eqb. by rewrite bool_decide_eq_true. Qed.

Lemma from_str_as_str s : from_str (as_str s) = Ok s.
Proof. by destruct s. Qed.

Lemma status_from_str_ok text s : from_str text = Ok s -> text = as_str s.
Proof.
  intros [_ H]%ok_or_ok%List.find_some. symmetry. by apply String.eqb_eq.
Qed.

End InvoiceStatus.

(** ** Expiries ([expiration.rs])

    [humantime::parse_duration] and chrono's RFC 3339 parser are third-party:
    they are the parameters [parse_duration] (whole seconds) and
    [parse_rfc3339] (a signed Unix time). *)

Definition MIN_EXPIRATION_LEAD_SECS : Z := 10 * 60.
Definition MAX_EXPIRATION_LEAD_SECS : Z := 366 * 24 * 60 * 60.
Definition DEFAULT_EXPIRATION_LEAD_SECS : Z := 24 * 60 * 60.

Inductive ExpirationError :=
| Conflicting | InvalidDuration | InvalidDateTime | InvalidTimestamp | TooSoon | TooFar.

Module ResolvedExpiration.
Record t := mk { timestamp : Z; intent : string }.
End ResolvedExpiration.

(** [str::parse::<u64>]: decimal digits, an optional leading [+], no
    overflow. *)
Definition digit_value (c : Ascii.ascii) : option Z :=
  let n := Z.of_N (Ascii.N_of_ascii c) - 48 in
  if (0 <=? n) && (n <=? 9) then Some n else None.

Fixpoint parse_digits (max acc : Z) (s : string) : option Z :=
  match s with
  | EmptyString => Some acc
  | String c s' =>
      match digit_value c with
      | None => None
      | Some d =>
          let acc' := acc * 10 + d in
          if acc' <=? max then parse_digits max acc' s' else None
      end
  end.

Definition plus_sign : Ascii.ascii := Ascii.ascii_of_nat 43.

Definition parse_u64 (s : string) : option Z :=
  match s with
  | EmptyString => None
  | String c s' =>
      if Ascii.eqb c plus_sign
      then match s' with EmptyString => None | _ => parse_digits u64_max 0 s' end
      else parse_digits u64_max 0 s
  end.

Section Expiration.
Context (parse_duration : string -> option Z) (parse_rfc3339 : string -> option Z).

Definition parse_expiration (expires_in expires_at expiration_timestamp : option string) (now : Z)
  : result ExpirationError ResolvedExpiration.t :=
  if (1 <? length (List.filter id
             [is_some expires_in; is_some expires_at; is_some expiration_timestamp]))%nat
  then Err Conflicting
  else
    match expires_in, expires_at, expiration_timestamp with
    | Some value, _, _ =>
        let! seconds := ok_or (parse_duration value) InvalidDuration in
        let! timestamp := ok_or (u64_checked_add now seconds) TooFar in
        Ok (ResolvedExpiration.mk timestamp ("in:" +:+ pretty seconds))
    | None, Some value, _ =>
        let! unix := ok_or (parse_rfc3339 value) InvalidDateTime in
        let! timestamp := ok_or (if 0 <=? unix then Some unix else None) TooSoon in
        Ok (ResolvedExpiration.mk timestamp ("at:" +:+ pretty timestamp))
    | None, None, Some value =>
        let! timestamp := ok_or (parse_u64 value) InvalidTimestamp in
        Ok (ResolvedExpiration.mk timestamp ("at:" +:+ pretty timestamp))
    | None, None, None =>
        Ok (ResolvedExpiration.mk (now + DEFAULT_EXPIRATION_LEAD_SECS)
              ("in:" +:+ pretty DEFAULT_EXPIRATION_LEAD_SECS))
    end.

Definition validate_expiration_window (expiration : ResolvedExpiration.t) (now : Z)
  : result ExpirationError unit :=
  if ResolvedExpiration.timestamp expiration <? u64_saturating_add now MIN_EXPIRATION_LEAD_SECS
  then Err TooSoon
  else if u64_saturating_add now MAX_EXPIRATION_LEAD_SECS <? ResolvedExpiration.timestamp expiration
  then Err TooFar
  else Ok tt.

Definition resolve_expiration (expires_in expires_at expiration_timestamp : option string) (now : Z)
  : result ExpirationError ResolvedExpiration.t :=
  let! expiration := parse_expiration expires_in expires_at expiration_timestamp now in
  let! _ := validate_expiration_window expiration now in
  Ok expiration.

End Expiration.

(** The exact window, away from the ends of [u64]. *)
Lemma validate_window_ok e now :
  0 <= now <= u64_max - MAX_EXPIRATION_LEAD_SECS ->
  validate_expiration_window e now = Ok tt <->
  now + MIN_EXPIRATION_LEAD_SECS <= ResolvedExpiration.timestamp e
    <= now + MAX_EXPIRATION_LEAD_SECS.
Proof.
  unfold validate_expiration_window, u64_saturating_add.
  assert (MIN_EXPIRATION_LEAD_SECS <= MAX_EXPIRATION_LEAD_SECS) by (vm_compute; discriminate).
  intros Hnow. rewrite !Z.min_l by lia.
  repeat case_match; bools; split; intros; try discriminate; try done; lia.
Qed.

Lemma digit_value_pretty (x : N) : (x < 10)%N -> digit_value (pretty_N_char x) = Some (Z.of_N x).
Proof.
  intros H. rewrite <- (N2Z.id x) at 1.
  apply (check_below 10 (fun z => digit_value (pretty_N_char (Z.to_N z)) = Some z) _); [done|lia].
Qed.

Lemma parse_digits_pretty_go max x : forall s, Z.of_N x <= max ->
  parse_digits max 0 (pretty_N_go x s) = parse_digits max (Z.of_N x) s.
Proof.
  induction (N.lt_wf_0 x) as [x _ IH]; intros s Hx.
  destruct (decide (x = 0)%N) as [->|]; [by rewrite pretty_N_go_0|].
  rewrite pretty_N_go_step by lia.
  pose proof (N.div_mod x 10 ltac:(done)) as Hd. pose proof (N.mod_lt x 10 ltac:(done)) as Hm.
  pose proof (N.div_lt x 10 ltac:(lia) ltac:(lia)) as Hl.
  rewrite IH by lia. simpl. rewrite digit_value_pretty by done.
  replace (Z.of_N (x / 10) * 10 + Z.of_N (x mod 10)) with (Z.of_N x) by lia. by rewrite (proj2 (Z.leb_le _ _) Hx).
Qed.

Lemma parse_digits_pretty max n : 0 <= n <= max -> parse_digits max 0 (pretty n) = Some n.
Proof.
  intros [H0 Hn]. destruct n as [|p|p]; [| |lia].
  - change (parse_digits max 0 (pretty 0)) with (if 0 <=? max then Some 0 else None).
    by rewrite (proj2 (Z.leb_le 0 max) Hn).
  - change (pretty (Zpos p)) with (pretty_N_go (Npos p) ""). by rewrite parse_digits_pretty_go.
Qed.

Lemma parse_digits_range max s : forall acc n, 0 <= acc <= max -> parse_digits max acc s = Some n -> 0 <= n <= max.
Proof.
  induction s as [|c s IH]; simpl; intros acc n Ha H; [by injection H as <-|].
  destruct (digit_value c) as [d|] eqn:Hd; [|done]. unfold digit_value in Hd. 
  destruct (_ && _) eqn:Hc; [|done]. injection Hd as <-. apply andb_true_iff in Hc as [Hc%Z.leb_le _].
  destruct (Z.leb_spec (acc * 10 + (Z.of_N (Ascii.N_of_ascii c) - 48)) max); [|done]. eapply IH; [|exact H]. lia.
Qed.

(** A nonempty text of digits is read the same with or without the test for a
    leading [+]. *)
Lemma parse_u64_digits s n : s <> ""%string -> parse_digits u64_max 0 s = Some n -> parse_u64 s = Some n.
Proof.
  destruct s as [|c s]; [done|]. intros _ H. unfold parse_u64.
  destruct (Ascii.eqb_spec c plus_sign) as [->|]; [by vm_compute in H|done].
Qed.

Lemma pretty_nonempty n : 0 <= n -> pretty n <> ""%string.
Proof.
  intros Hn E. pose proof (parse_digits_pretty n n ltac:(lia)) as H. rewrite E in H. simpl in H. injection H as <-. done.
Qed.

Lemma parse_u64_pretty n : 0 <= n <= u64_max -> parse_u64 (pretty n) = Some n.
Proof. intros H. apply parse_u64_digits; [apply pretty_nonempty; lia|by apply parse_digits_pretty]. Qed.

#[export] Hint Resolve parse_u64_pretty : decimal.
