(* ===== verification/Queues.v ===== *)
(** * Tables read in order

    The loops of the server read the first row of a table in some order
    ([first_row]).  The listings of the API read [ORDER BY created_at DESC, id
    DESC LIMIT n + 1] after a cursor row, show [n] rows and name the last one as
    the next cursor when there was one more; a client that follows the cursors
    over a table nobody changes sees every row once, in order ([walk_covers]). *)

From stdpp Require Import sorting.
From S2P Require Import Prelude.

Section Queues.
Context {V : Type} (R : relation (Z * V)) `{!RelDecision R} `{!Total R} `{!Transitive R} (p : V -> bool) (m : gmap Z V).

Definition first_row : option (Z * V) :=
  head (merge_sort R (List.filter (fun kv => p (snd kv)) (map_to_list m))).

Lemma elem_of_selected x :
  x ∈ merge_sort R (List.filter (fun kv => p (snd kv)) (map_to_list m)) <-> m !! fst x = Some (snd x) /\ p (snd x) = true.
Proof.
  destruct x as [i x]. by rewrite merge_sort_Permutation, list_elem_of_In, filter_In, <- list_elem_of_In, elem_of_map_to_list.
Qed.

Lemma first_row_some i x : first_row = Some (i, x) ->
  m !! i = Some x /\ p x = true /\
  forall j y, m !! j = Some y -> p y = true -> (j, y) = (i, x) \/ R (i, x) (j, y).
Proof.
  unfold first_row. intros Hh. pose proof elem_of_selected as Hel. set (l := List.filter _ _) in *.
  pose proof (Sorted_merge_sort R l) as Hs. apply Sorted_StronglySorted in Hs; [|done].
  destruct (merge_sort R l) as [|z rest]; [done|]. injection Hh as ->.
  destruct (proj1 (Hel (i, x)) (list_elem_of_here _ _)) as [Hi Hp]. split; [done|]. split; [done|]. intros j y Hj Hy.
  assert ((j, y) ∈ (i, x) :: rest) as Hin by (by apply Hel). apply list.elem_of_cons in Hin as [->|Hin]; [by left|].
  apply StronglySorted_inv in Hs as [_ Hall]. rewrite list.Forall_forall in Hall. right. exact (Hall _ Hin).
Qed.

Lemma first_row_none : first_row = None -> forall j y, m !! j = Some y -> p y = false.
Proof.
  unfold first_row. intros Hh j y Hj. destruct (p y) eqn:Hp; [|done]. pose proof (proj2 (elem_of_selected (j, y)) (conj Hj Hp)) as Hin.
  set (l := List.filter _ _) in *. destruct (merge_sort R l); [by apply list.elem_of_nil in Hin|done].
Qed.

End Queues.

Section Paging.
Context {V : Type} (created : V -> Timestamp).

(** [ORDER BY created_at DESC, id DESC]. *)
Definition newer (a b : Z * V) : Prop :=
  created (snd b) < created (snd a) \/ (created (snd a) = created (snd b) /\ fst b <= fst a).

#[global] Instance newer_dec : RelDecision newer.
Proof. intros a b. unfold newer. apply _. Defined.

#[global] Instance newer_total : Total newer.
Proof. intros a b. unfold newer. lia. Qed.

#[global] Instance newer_transitive : Transitive newer.
Proof. intros a b c. unfold newer. lia. Qed.

(** [(candidate.created_at, candidate.id) < (cursor.created_at, cursor.id)]. *)
Definition after_cursor (cursor row : Z * V) : bool :=
  (created (snd row) <? created (snd cursor))
  || ((created (snd row) =? created (snd cursor)) && (fst row <? fst cursor)).

Context (wanted : V -> bool) (own : V -> bool) (table : gmap Z V).

(** The rows wanted, after [starting_after] if there is one; a cursor that is
    not the account's matches nothing. *)
Definition page_rows (starting_after : option Z) (limit : nat) : list (Z * V) :=
  let candidates keep := List.filter (fun kv => wanted (snd kv) && keep kv) (map_to_list table) in
  take limit (merge_sort newer
    match starting_after with
    | None => candidates (fun _ => true)
    | Some id =>
        match table !! id with
        | Some c => if own c then candidates (after_cursor (id, c)) else []
        | None => []
        end
    end).

(** What is shown, and the next cursor. *)
Definition page (starting_after : option Z) (limit : nat) : list (Z * V) * option Z :=
  let rows := page_rows starting_after (S limit) in
  let shown := take limit rows in
  (shown, if Nat.ltb limit (length rows) then fst <$> list.last shown else None).

(** A client follows the cursors. *)
Fixpoint walk (fuel limit : nat) (starting_after : option Z) : list (Z * V) :=
  let '(shown, next) := page starting_after limit in
  match next, fuel with
  | Some id, S fuel => shown ++ walk fuel limit (Some id)
  | _, _ => shown
  end.

Definition everything : list (Z * V) := merge_sort newer (List.filter (fun kv => wanted (snd kv)) (map_to_list table)).

Lemma elem_of_everything kv : kv ∈ everything <-> table !! fst kv = Some (snd kv) /\ wanted (snd kv) = true.
Proof.
  unfold everything. destruct kv as [i x]. by rewrite merge_sort_Permutation, list_elem_of_In, filter_In, <- list_elem_of_In, elem_of_map_to_list.
Qed.

Lemma everything_nodup : NoDup everything.
Proof.
  unfold everything. rewrite merge_sort_Permutation. apply NoDup_ListNoDup, NoDup_filter, NoDup_ListNoDup, NoDup_map_to_list.
Qed.

(** Rows of one table with one position are one row. *)
Lemma newer_antisymm a b : a ∈ everything -> b ∈ everything -> newer a b -> newer b a -> a = b.
Proof.
  intros [Ha _]%elem_of_everything [Hb _]%elem_of_everything H1 H2. destruct a as [i x], b as [j y]. cbn in *.
  unfold newer in *. cbn in *. assert (i = j) as -> by lia. congruence.
Qed.

Lemma everything_sorted : StronglySorted newer everything.
Proof. apply Sorted_StronglySorted; [apply _|]. apply Sorted_merge_sort. apply _. Qed.

Lemma sorted_split {A} (R : relation A) l x l2 : StronglySorted R (l ++ x :: l2) ->
  Forall (fun y => R y x) l /\ Forall (R x) l2 /\ StronglySorted R l2.
Proof.
  induction l as [|y l IH]; cbn; intros [Hs Hf]%StronglySorted_inv.
  - split_and!; [constructor|done|done].
  - destruct (IH Hs) as (H1 & H2 & H3). split_and!; [|done|done]. constructor; [|done].
    apply list.Forall_app in Hf as [_ Hf]. by apply list.Forall_cons in Hf as [? _].
Qed.

(** After a row of the listing comes the rest of it. *)
Lemma rows_after l id c rest limit : everything = l ++ (id, c) :: rest -> own c = true ->
  page_rows (Some id) limit = take limit rest.
Proof.
  intros E Ho. pose proof everything_nodup as Hnd. pose proof everything_sorted as Hs. pose proof newer_antisymm as Hanti.
  assert (table !! id = Some c) as Hc by (apply (elem_of_everything (id, c)); rewrite E; set_solver).
  rewrite E in Hs, Hnd. destruct (sorted_split _ _ _ _ Hs) as (Hl & Hr & Hsr).
  unfold page_rows. rewrite Hc, Ho. f_equal.
  assert (Hin : forall y, y ∈ rest -> y ∈ everything) by (intros y Hy; rewrite E; set_solver).
  assert (List.filter (fun kv => wanted (snd kv) && after_cursor (id, c) kv) (map_to_list table) ≡ₚ rest) as Hp.
  { apply NoDup_Permutation.
    - apply NoDup_ListNoDup, NoDup_filter, NoDup_ListNoDup, NoDup_map_to_list.
    - apply list.NoDup_app in Hnd as (_ & _ & Hnd). by apply list.NoDup_cons in Hnd as [_ Hnd].
    - intros y. rewrite list_elem_of_In, filter_In, <- list_elem_of_In, andb_true_iff.
      destruct y as [i x]. rewrite elem_of_map_to_list. cbn [snd]. split.
      + intros (Hy & Hw & Ha). assert ((i, x) ∈ everything) as Hy' by (by apply elem_of_everything).
        rewrite E in Hy'. apply list.elem_of_app in Hy' as [Hy'|Hy'].
        * rewrite list.Forall_forall in Hl. specialize (Hl _ Hy'). unfold newer in Hl. unfold after_cursor in Ha. cbn in *. bools. lia.
        * apply list.elem_of_cons in Hy' as [[= -> ->]|Hy']; [|done]. unfold after_cursor in Ha. cbn in Ha. bools. lia.
      + intros Hy. destruct (proj1 (elem_of_everything (i, x)) (Hin _ Hy)) as [Hy1 Hy2]. split; [done|]. split; [done|].
        rewrite list.Forall_forall in Hr. pose proof (Hr _ Hy) as Hn. unfold newer in Hn. unfold after_cursor. cbn in *.
        apply list.NoDup_app in Hnd as (_ & _ & Hnd). apply list.NoDup_cons in Hnd as [Hnot _].
        assert (i <> id) as Hne by (intros ->; apply Hnot; congruence). bools. lia. }
  apply (StronglySorted_unique_strong newer).
  - intros y1 y2 H1 H2. rewrite merge_sort_Permutation, Hp in H1. apply Hanti; by apply Hin.
  - apply Sorted_StronglySorted; [apply _|]. apply Sorted_merge_sort. apply _.
  - done.
  - by rewrite merge_sort_Permutation.
Qed.

Lemma rows_first limit : page_rows None limit = take limit everything.
Proof.
  unfold page_rows, everything. do 2 f_equal. apply List.filter_ext. intros [i x]. by rewrite andb_true_r.
Qed.

Context (wanted_own : forall x, wanted x = true -> own x = true).

Lemma walk_rest limit : forall fuel before rest starting_after, (0 < limit)%nat -> (length rest < fuel)%nat ->
  everything = before ++ rest -> (forall k, page_rows starting_after k = take k rest) ->
  walk fuel limit starting_after = rest.
Proof.
  induction fuel as [|fuel IH]; intros before rest sa Hl Hf E Hrows; [lia|]. cbn [walk]. unfold page. rewrite Hrows.
  rewrite list.take_take, Nat.min_l by lia. rewrite list.length_take.
  destruct (Nat.ltb_spec limit (Nat.min (S limit) (length rest))) as [Hm|Hm].
  - assert (rest = take limit rest ++ drop limit rest) as Er by (by rewrite list.take_drop).
    destruct (list.last (take limit rest)) as [[id c]|] eqn:Hlast.
    + cbn. rewrite Er at 2. f_equal. apply list.last_Some in Hlast as [l0 Hl0].
      apply (IH (before ++ take limit rest)); [done|rewrite list.length_drop; lia|by rewrite <- app_assoc, <- Er|].
      intros k. apply (rows_after (before ++ l0) id c).
      * rewrite E. rewrite Er at 1. rewrite Hl0. by rewrite <- !app_assoc.
      * apply wanted_own. apply (elem_of_everything (id, c)). rewrite E, Er, Hl0. set_solver.
    + apply list.last_None in Hlast. assert (length (take limit rest) = 0%nat) as E0 by (by rewrite Hlast).
      rewrite list.length_take in E0. lia.
  - by rewrite list.take_ge by lia.
Qed.

(** Following the cursors shows everything once, newest first. *)
Lemma walk_covers limit : (0 < limit)%nat -> walk (S (length everything)) limit None = everything.
Proof. intros Hl. apply (walk_rest _ _ []); [done|lia|done|apply rows_first]. Qed.

End Paging.
