(* ===== verification/Text.v ===== *)
(** * Text: what the standard library does to strings

    Strings are the bytes of their UTF-8 encoding.  [trim] removes the
    characters with the White_Space property from both ends, as [str::trim]
    does; [strip_prefix] is [str::strip_prefix], [split_once] and
    [rsplit_once] split at a character. *)

From Stdlib Require Import Ascii String.
From S2P Require Import Prelude.

Definition byte_of (c : ascii) : Z := Z.of_N (N_of_ascii c).

(** A byte 10xxxxxx continues a character. *)
Definition continues (c : ascii) : bool := (128 <=? byte_of c) && (byte_of c <? 192).

(** The characters of a string, each as its bytes. *)
Fixpoint chars (s : string) : list string :=
  match s with
  | EmptyString => []
  | String c rest =>
      match chars rest with
      | (String d _ as next) :: more =>
          if continues d then String c next :: more else String c EmptyString :: next :: more
      | other => String c EmptyString :: other
      end
  end.

Definition char_bytes (s : string) : list Z := byte_of <$> list_ascii_of_string s.

(** [char::is_whitespace]. *)
Definition is_whitespace (s : string) : bool :=
  match char_bytes s with
  | [c] => ((9 <=? c) && (c <=? 13)) || (c =? 32)
  | [194; c] => (c =? 133) || (c =? 160)
  | [225; 154; 128] => true
  | [226; 128; c] => ((128 <=? c) && (c <=? 138)) || (c =? 168) || (c =? 169) || (c =? 175)
  | [226; 129; 159] => true
  | [227; 128; 128] => true
  | _ => false
  end.

Fixpoint drop_while {A} (p : A -> bool) (l : list A) : list A :=
  match l with
  | [] => []
  | x :: l' => if p x then drop_while p l' else l
  end.

Definition trim (s : string) : string :=
  String.concat "" (reverse (drop_while is_whitespace (reverse (drop_while is_whitespace (chars s))))).

Fixpoint strip_prefix (prefix s : string) : option string :=
  match prefix, s with
  | EmptyString, _ => Some s
  | String c p, String d s' => if Ascii.eqb c d then strip_prefix p s' else None
  | _, EmptyString => None
  end.

(** [str::split_once] and [str::rsplit_once] at a character. *)
Fixpoint split_once (sep : ascii) (s : string) : option (string * string) :=
  match s with
  | EmptyString => None
  | String c rest =>
      if Ascii.eqb c sep then Some (EmptyString, rest)
      else match split_once sep rest with
           | Some (head, tail) => Some (String c head, tail)
           | None => None
           end
  end.

Fixpoint rsplit_once (sep : ascii) (s : string) : option (string * string) :=
  match s with
  | EmptyString => None
  | String c rest =>
      match rsplit_once sep rest with
      | Some (head, tail) => Some (String c head, tail)
      | None => if Ascii.eqb c sep then Some (EmptyString, rest) else None
      end
  end.

Definition ascii_lower (c : ascii) : ascii :=
  if (65 <=? byte_of c) && (byte_of c <=? 90) then ascii_of_N (N_of_ascii c + 32) else c.

(** [str::to_ascii_lowercase]. *)
Fixpoint to_ascii_lowercase (s : string) : string :=
  match s with
  | EmptyString => EmptyString
  | String c rest => String (ascii_lower c) (to_ascii_lowercase rest)
  end.

Definition eq_ignore_ascii_case (a b : string) : bool := String.eqb (to_ascii_lowercase a) (to_ascii_lowercase b).

(** [u8::is_ascii_whitespace]: tab, line feed, form feed, carriage return, space. *)
Definition is_ascii_whitespace (c : ascii) : bool :=
  let n := byte_of c in (n =? 9) || (n =? 10) || (n =? 12) || (n =? 13) || (n =? 32).

(** [str::split_ascii_whitespace]; [word] is what was read of the present one. *)
Fixpoint ascii_words (word s : string) : list string :=
  match s with
  | EmptyString => if String.eqb word "" then [] else [word]
  | String c rest =>
      if is_ascii_whitespace c then (if String.eqb word "" then [] else [word]) ++ ascii_words "" rest
      else ascii_words (word +:+ String c EmptyString) rest
  end.

Definition split_ascii_whitespace (s : string) : list string := ascii_words "" s.

Definition has_prefix (prefix s : string) : bool := is_some (strip_prefix prefix s).

Abbreviation split_once_dot := (split_once "."%char).

Lemma strip_prefix_some prefix s rest : strip_prefix prefix s = Some rest <-> s = prefix +:+ rest.
Proof.
  revert s. induction prefix as [|c p IH]; intros s; cbn.
  - split; [by intros [= ->]|]. intros H. by rewrite H.
  - destruct s as [|d s]; [done|]. destruct (Ascii.eqb_spec c d) as [->|Hne].
    + rewrite IH. split; [by intros ->|]. by intros [= ->].
    + split; [done|]. by intros [= -> _].
Qed.

Example trim_both : trim "  0x12 " = "0x12"%string.
Proof. reflexivity. Qed.
