(* ===== verification/Contracts.v ===== *)
(** * gum-contracts: the messages the services exchange

    Models [crates/gum-contracts/src/bus.rs] (commands, events, chain
    controls and their deduplication keys) and the request and answer types
    of [crates/gum-contracts/src/rpc.rs]. *)

From stdpp Require Import pretty.
From S2P Require Import Prelude Core.

(** ** Commands: server to signers *)

Inductive SweepItemStatus := Open | Closed.

Module SweepItem.
Record t := mk {
  invoice_id : Uuid;
  payment_address : Address;
  currency : Currency;
  token : Address;
  amount : Z;
  receiver : Address;
  expiration_timestamp : Z;
  recovery : Address;
  salt : B256;
  status : SweepItemStatus;
  settlement_recorded : bool;
  first_observed_block : option Z;
}.
End SweepItem.

Module SweepBatchCommand.
Record t := mk {
  job_id : Uuid;
  chain_id : Z;
  items : list SweepItem.t;
}.
End SweepBatchCommand.

Inductive WithdrawalStepKind := Transfer | Burn | Mint.

#[export] Instance WithdrawalStepKind_eq_dec : EqDecision WithdrawalStepKind.
Proof. solve_decision. Defined.

Inductive StepPrecondition :=
| AuthorizationUnused (token authorizer : Address) (nonce : B256) (search_from_block : Z)
| MessageNonceUnused (message_transmitter : Address) (source_domain : Z) (nonce : B256).

Module WithdrawalStepCommand.
Record t := mk {
  job_id : Uuid;
  leg_id : Uuid;
  chain_id : Z;
  step : WithdrawalStepKind;
  to : Address;
  calldata : bytes;
  gas_limit : Z;
  precondition : option StepPrecondition;
  not_after : option Z;
}.
End WithdrawalStepCommand.

Inductive ExecutionCommand :=
| SweepBatch (command : SweepBatchCommand.t)
| WithdrawalStep (command : WithdrawalStepCommand.t).

(** ** Events: signers to server *)

Inductive SweepFailureCause :=
| TokenPaused | PaymentAddressBlacklisted | RecoveryBlacklisted | BeneficiaryBlacklisted
| BalanceBelowAmount | UnknownCause.

Definition failure_cause_as_str (c : SweepFailureCause) : string :=
  match c with
  | TokenPaused => "token_paused"
  | PaymentAddressBlacklisted => "payment_address_blacklisted"
  | RecoveryBlacklisted => "recovery_blacklisted"
  | BeneficiaryBlacklisted => "beneficiary_blacklisted"
  | BalanceBelowAmount => "balance_below_amount"
  | UnknownCause => "unknown"
  end.

Module SettlementEvidence.
Record t := mk {
  tx_hash : B256;
  block : Z;
  transaction_index : Z;
  block_timestamp : Z;
  settled : option Z;
  recovered : Z;
}.
End SettlementEvidence.

Inductive SweepItemOutcome :=
| Settled (overpayment_recovered : Z)
| Returned (amount : Z)
| LateCollected (amount : Z) (settlement : option SettlementEvidence.t)
| Failed (cause : SweepFailureCause).

Module SweepItemResult.
Record t := mk { invoice_id : Uuid; outcome : SweepItemOutcome }.
End SweepItemResult.

Inductive AbandonReason :=
| AbandonReverted (tx_hash : B256)
| NonceConsumed (signer : Address) (nonce : Z)
| AbandonRejected (reason : string).

Inductive StepResult :=
| Succeeded (tx_hash : B256) (block : Z) (block_hash : B256)
| ExecutedElsewhere (tx_hash : option B256)
| StepReverted (tx_hash : B256)
| StepExpired
| StepAbandoned (reason : AbandonReason).

Inductive ExecutionEvent :=
| SweepSubmitted (job_id : Uuid) (chain_id : Z) (signer : Address) (nonce : Z) (tx_hash : B256)
    (replacement : Z)
| SweepFinalized (job_id : Uuid) (chain_id : Z) (tx_hash : B256) (block : Z) (block_hash : B256)
    (block_timestamp : Z) (transaction_index : Z) (items : list SweepItemResult.t)
| SweepAbandoned (job_id : Uuid) (chain_id : Z) (reason : AbandonReason)
| WithdrawalStepFinalized (job_id leg_id : Uuid) (chain_id : Z) (step : WithdrawalStepKind)
    (result : StepResult)
| ExecutionStalled (job_id : Uuid) (chain_id : Z) (signer : Address) (submissions : Z)
| ExecutionRejected (job_id : Uuid) (chain_id : Z) (reason : string).

(** ** Chain control: server to signers *)

Inductive ChainControl :=
| Halted (fault_id : Uuid) (chain_id : Z) (reason : string)
| Resumed (fault_id : Uuid) (chain_id : Z).

(** ** Equality, as the [PartialEq] derives *)

#[export] Instance SweepItemStatus_eq_dec : EqDecision SweepItemStatus.
Proof. solve_decision. Defined.
#[export] Instance SweepItem_eq_dec : EqDecision SweepItem.t.
Proof. solve_decision. Defined.
#[export] Instance SweepBatchCommand_eq_dec : EqDecision SweepBatchCommand.t.
Proof. solve_decision. Defined.
#[export] Instance StepPrecondition_eq_dec : EqDecision StepPrecondition.
Proof. solve_decision. Defined.
#[export] Instance WithdrawalStepCommand_eq_dec : EqDecision WithdrawalStepCommand.t.
Proof. solve_decision. Defined.
#[export] Instance ExecutionCommand_eq_dec : EqDecision ExecutionCommand.
Proof. solve_decision. Defined.
#[export] Instance SweepFailureCause_eq_dec : EqDecision SweepFailureCause.
Proof. solve_decision. Defined.
#[export] Instance SettlementEvidence_eq_dec : EqDecision SettlementEvidence.t.
Proof. solve_decision. Defined.
#[export] Instance SweepItemOutcome_eq_dec : EqDecision SweepItemOutcome.
Proof. solve_decision. Defined.
#[export] Instance SweepItemResult_eq_dec : EqDecision SweepItemResult.t.
Proof. solve_decision. Defined.
#[export] Instance AbandonReason_eq_dec : EqDecision AbandonReason.
Proof. solve_decision. Defined.
#[export] Instance StepResult_eq_dec : EqDecision StepResult.
Proof. solve_decision. Defined.
#[export] Instance ExecutionEvent_eq_dec : EqDecision ExecutionEvent.
Proof. solve_decision. Defined.
#[export] Instance ChainControl_eq_dec : EqDecision ChainControl.
Proof. solve_decision. Defined.

(** ** Message identity *)

Definition EXECUTION_COMMANDS_TOPIC : string := "execution.commands".
Definition EXECUTION_EVENTS_TOPIC : string := "execution.events".
Definition CHAIN_CONTROL_TOPIC : string := "chain.control".

Module Command.

Definition job_id (c : ExecutionCommand) : Uuid :=
  match c with
  | SweepBatch command => SweepBatchCommand.job_id command
  | WithdrawalStep command => WithdrawalStepCommand.job_id command
  end.

Definition chain_id (c : ExecutionCommand) : Z :=
  match c with
  | SweepBatch command => SweepBatchCommand.chain_id command
  | WithdrawalStep command => WithdrawalStepCommand.chain_id command
  end.

Definition kind (c : ExecutionCommand) : string :=
  match c with
  | SweepBatch _ => "sweep_batch"
  | WithdrawalStep _ => "withdrawal_step"
  end.

(** A [Uuid] is rendered as its number: the rendering only has to be
    injective. *)
Definition deduplication_key (c : ExecutionCommand) : string := pretty (job_id c).

End Command.

Module Event.

Definition job_id (e : ExecutionEvent) : Uuid :=
  match e with
  | SweepSubmitted job_id _ _ _ _ _ => job_id
  | SweepFinalized job_id _ _ _ _ _ _ _ => job_id
  | SweepAbandoned job_id _ _ => job_id
  | WithdrawalStepFinalized job_id _ _ _ _ => job_id
  | ExecutionStalled job_id _ _ _ => job_id
  | ExecutionRejected job_id _ _ => job_id
  end.

Definition chain_id (e : ExecutionEvent) : Z :=
  match e with
  | SweepSubmitted _ chain_id _ _ _ _ => chain_id
  | SweepFinalized _ chain_id _ _ _ _ _ _ => chain_id
  | SweepAbandoned _ chain_id _ => chain_id
  | WithdrawalStepFinalized _ _ chain_id _ _ => chain_id
  | ExecutionStalled _ chain_id _ _ => chain_id
  | ExecutionRejected _ chain_id _ => chain_id
  end.

Definition kind (e : ExecutionEvent) : string :=
  match e with
  | SweepSubmitted _ _ _ _ _ _ => "sweep_submitted"
  | SweepFinalized _ _ _ _ _ _ _ _ => "sweep_finalized"
  | SweepAbandoned _ _ _ => "sweep_abandoned"
  | WithdrawalStepFinalized _ _ _ _ _ => "withdrawal_step_finalized"
  | ExecutionStalled _ _ _ _ => "execution_stalled"
  | ExecutionRejected _ _ _ => "execution_rejected"
  end.

Definition deduplication_key (e : ExecutionEvent) : string :=
  match e with
  | SweepSubmitted job_id _ _ _ _ replacement =>
      pretty job_id +:+ ":sweep_submitted:" +:+ pretty replacement
  | ExecutionStalled job_id _ _ submissions =>
      pretty job_id +:+ ":execution_stalled:" +:+ pretty submissions
  | other => pretty (job_id other) +:+ ":" +:+ kind other
  end.

End Event.

Module Control.

Definition kind (c : ChainControl) : string :=
  match c with
  | Halted _ _ _ => "halted"
  | Resumed _ _ => "resumed"
  end.

Definition deduplication_key (c : ChainControl) : string :=
  match c with
  | Halted fault_id chain_id _ => pretty chain_id +:+ ":halted:" +:+ pretty fault_id
  | Resumed fault_id chain_id => pretty chain_id +:+ ":resumed:" +:+ pretty fault_id
  end.

End Control.

(** ** A message of one of the three topics *)

Inductive Message :=
| MCommand (c : ExecutionCommand)
| MEvent (e : ExecutionEvent)
| MControl (c : ChainControl).

#[export] Instance Message_eq_dec : EqDecision Message.
Proof. solve_decision. Defined.

(** The [BusMessage] trait: what the bus needs of a message type. *)
Class BusMessage (M : Type) := {
  TOPIC : string;
  SCHEMA_VERSION : Z;
  msg_kind : M -> string;
  dedup_key : M -> string;
  to_message : M -> Message;
  of_message : Message -> option M;
  of_to_message : forall m, of_message (to_message m) = Some m;
}.

#[export] Instance BusMessage_command : BusMessage ExecutionCommand := {|
  TOPIC := EXECUTION_COMMANDS_TOPIC;
  SCHEMA_VERSION := 1;
  msg_kind := Command.kind;
  dedup_key := Command.deduplication_key;
  to_message := MCommand;
  of_message m := match m with MCommand c => Some c | _ => None end;
  of_to_message m := eq_refl;
|}.

#[export] Instance BusMessage_event : BusMessage ExecutionEvent := {|
  TOPIC := EXECUTION_EVENTS_TOPIC;
  SCHEMA_VERSION := 1;
  msg_kind := Event.kind;
  dedup_key := Event.deduplication_key;
  to_message := MEvent;
  of_message m := match m with MEvent e => Some e | _ => None end;
  of_to_message m := eq_refl;
|}.

#[export] Instance BusMessage_control : BusMessage ChainControl := {|
  TOPIC := CHAIN_CONTROL_TOPIC;
  SCHEMA_VERSION := 1;
  msg_kind := Control.kind;
  dedup_key := Control.deduplication_key;
  to_message := MControl;
  of_message m := match m with MControl c => Some c | _ => None end;
  of_to_message m := eq_refl;
|}.

(** ** The indexer's RPC ([rpc.rs]) *)

Module IndexerCursor.
Record t := mk { block : Z; block_hash : B256; block_timestamp : option Z }.
End IndexerCursor.

#[export] Instance IndexerCursor_eq_dec : EqDecision IndexerCursor.t.
Proof. solve_decision. Defined.

Module PaymentObservation.
Record t := mk {
  token : Address;
  block_number : Z;
  block_hash : B256;
  block_timestamp : Z;
  transaction_hash : B256;
  transaction_index : Z;
  log_index : Z;
  sender : Address;
  recipient : Address;
  amount : Z;
}.
End PaymentObservation.

Inductive RangeApplied :=
| Applied (funded expired : list Uuid) (cursor : IndexerCursor.t)
| AlreadyApplied (cursor : IndexerCursor.t)
| CursorMismatch (cursor : option IndexerCursor.t).

Inductive RpcErrorCode := Unauthorized | UnknownChain | InvalidRequest | Unavailable | Internal.

Definition rpc_is_retryable (code : RpcErrorCode) : bool :=
  match code with Unavailable | Internal => true | _ => false end.

Definition rpc_http_status (code : RpcErrorCode) : Z :=
  match code with
  | Unauthorized => 401
  | UnknownChain => 404
  | InvalidRequest => 400
  | Unavailable => 503
  | Internal => 500
  end.

(** ** Deduplication keys identify intents

    The rendering of a number holds no colon, so a key splits uniquely at
    its first one. *)

Fixpoint colon_free (s : string) : bool :=
  match s with
  | EmptyString => true
  | String c s' => negb (Ascii.eqb c (Ascii.ascii_of_nat 58)) && colon_free s'
  end.

Lemma append_colon_inj a b x y :
  colon_free a = true -> colon_free b = true ->
  a +:+ ":" +:+ x = b +:+ ":" +:+ y -> a = b /\ x = y.
Proof.
  revert b; induction a as [|c a IH]; intros [|d b]; simpl; intros Ha Hb Heq;
    simplify_eq; bools; try discriminate; [done|].
  destruct (IH b) as [-> ->]; done.
Qed.

Lemma colon_free_pretty_N_go x s : colon_free s = true -> colon_free (pretty_N_go x s) = true.
Proof.
  revert s; induction (N.lt_wf_0 x) as [x _ IH]; intros s Hs.
  destruct (decide (x = 0)%N) as [->|]; [by rewrite pretty_N_go_0|].
  rewrite pretty_N_go_step by lia. apply IH; [apply N.div_lt; lia|].
  simpl. rewrite Hs, andb_true_r. unfold pretty_N_char. by repeat case_match.
Qed.

Lemma colon_free_pretty_N (n : N) : colon_free (pretty n) = true.
Proof.
  unfold pretty, pretty_N. case_decide; [done|]. by apply colon_free_pretty_N_go.
Qed.

Lemma colon_free_pretty (z : Z) : colon_free (pretty z) = true.
Proof.
  destruct z as [|p|p]; [done|apply (colon_free_pretty_N (Npos p))|].
  change (pretty (Zneg p)) with ("-" +:+ pretty (Npos p)).
  simpl. apply colon_free_pretty_N.
Qed.

(** The sequence number that keeps repeated reports of one job apart. *)
Definition event_sequence (e : ExecutionEvent) : option Z :=
  match e with
  | SweepSubmitted _ _ _ _ _ replacement => Some replacement
  | ExecutionStalled _ _ _ submissions => Some submissions
  | _ => None
  end.

Definition event_suffix (e : ExecutionEvent) : string :=
  match event_sequence e with
  | Some n => Event.kind e +:+ ":" +:+ pretty n
  | None => Event.kind e
  end.

Lemma event_key_split e :
  Event.deduplication_key e = pretty (Event.job_id e) +:+ ":" +:+ event_suffix e.
Proof. by destruct e. Qed.

Lemma append_inv_head a x y : a +:+ x = a +:+ y -> x = y.
Proof. induction a; simpl; intros; simplify_eq; auto. Qed.

Lemma event_suffix_inj e1 e2 :
  event_suffix e1 = event_suffix e2 ->
  Event.kind e1 = Event.kind e2 /\ event_sequence e1 = event_sequence e2.
Proof.
  destruct e1, e2; cbn; intros Heq; simplify_eq; split; try done; f_equal; by apply (inj pretty).
Qed.

Lemma event_key_inj e1 e2 :
  Event.deduplication_key e1 = Event.deduplication_key e2 ->
  Event.job_id e1 = Event.job_id e2 /\ Event.kind e1 = Event.kind e2 /\
  event_sequence e1 = event_sequence e2.
Proof.
  rewrite !event_key_split. intros [Hj Hs]%append_colon_inj; [|apply colon_free_pretty..].
  apply (inj pretty) in Hj. by apply event_suffix_inj in Hs as [? ?].
Qed.

(** Two execution events are published under one deduplication key
    exactly when they are the same kind of report about the same job with the
    same sequence number: the key confuses no two distinct intents. *)
Lemma event_key_identifies e1 e2 :
  Event.deduplication_key e1 = Event.deduplication_key e2 <->
  Event.job_id e1 = Event.job_id e2 /\ Event.kind e1 = Event.kind e2 /\
  event_sequence e1 = event_sequence e2.
Proof.
  split; [apply event_key_inj|]. rewrite !event_key_split.
  intros (-> & Hk & Hs). unfold event_suffix. by rewrite Hk, Hs.
Qed.

Lemma command_key_inj c1 c2 :
  Command.deduplication_key c1 = Command.deduplication_key c2 ->
  Command.job_id c1 = Command.job_id c2.
Proof. unfold Command.deduplication_key. apply (inj pretty). Qed.
