(* ===== verification/Ids.v ===== *)
(** * gum-core: prefixed identifiers

    Models [crates/gum-core/src/ids.rs]: an identifier of the API is a UUID
    behind a prefix that says what it names.  The UUID's own text is the class
    [UuidText]; only the canonical text is accepted back. *)

From Stdlib Require Import Ascii String.
From S2P Require Import Prelude Text Core Contracts.

(** [Uuid::try_parse], which accepts several spellings, and the lowercase
    hyphenated form. *)
Class UuidText := {
  try_parse : string -> option Uuid;
  hyphenated : Uuid -> string;
}.

(** The canonical form is one of the spellings. *)
Class UuidLaws (U : UuidText) : Prop := hyphenated_parses : forall id, try_parse (hyphenated id) = Some id.

Inductive IdKind :=
| AccountId | CustomerId | AttachmentId | WebhookId | WebhookDeliveryId | WebhookEventId | VerificationAttemptId
| RecoveryId | WithdrawalId | WithdrawalLegId | RelayIntentId.

#[export] Instance IdKind_eq_dec : EqDecision IdKind.
Proof. solve_decision. Defined.

Definition PREFIX (k : IdKind) : string :=
  match k with
  | AccountId => "acct_" | CustomerId => "cus_" | AttachmentId => "att_" | WebhookId => "wh_"
  | WebhookDeliveryId => "whd_" | WebhookEventId => "evt_" | VerificationAttemptId => "va_"
  | RecoveryId => "rec_" | WithdrawalId => "wd_" | WithdrawalLegId => "wdl_" | RelayIntentId => "rli_"
  end.

Definition NOUN (k : IdKind) : string :=
  match k with
  | AccountId => "account" | CustomerId => "customer" | AttachmentId => "attachment" | WebhookId => "webhook endpoint"
  | WebhookDeliveryId => "webhook delivery" | WebhookEventId => "webhook event"
  | VerificationAttemptId => "verification attempt" | RecoveryId => "recovery" | WithdrawalId => "withdrawal"
  | WithdrawalLegId => "withdrawal leg" | RelayIntentId => "relay intent"
  end.

Definition EXAMPLE : string := "0198f80c-8d2f-7dc1-a369-90556a64f700".

Module InvalidId.
Record t := mk { noun : string; prefix : string }.
Definition display (e : t) : string := "expected a " +:+ noun e +:+ " id like " +:+ prefix e +:+ EXAMPLE.
End InvalidId.

Section Ids.
Context `{U : UuidText}.

Definition parse_prefixed (prefix value : string) : option Uuid :=
  suffix ← strip_prefix prefix value;
  uuid ← try_parse suffix;
  if String.eqb (hyphenated uuid) suffix then Some uuid else None.

Definition id_parse (k : IdKind) (value : string) : option Uuid := parse_prefixed (PREFIX k) value.

Definition id_display (k : IdKind) (id : Uuid) : string := PREFIX k +:+ hyphenated id.

Definition id_from_str (k : IdKind) (value : string) : result InvalidId.t Uuid :=
  ok_or (id_parse k value) (InvalidId.mk (NOUN k) (PREFIX k)).

Lemma parse_prefixed_some `{!UuidLaws U} prefix value id :
  parse_prefixed prefix value = Some id <-> value = prefix +:+ hyphenated id.
Proof.
  unfold parse_prefixed. split.
  - intros (suffix & ->%strip_prefix_some & (uuid & _ & H)%bind_Some)%bind_Some.
    destruct (String.eqb_spec (hyphenated uuid) suffix) as [<-|]; [by injection H as ->|done].
  - intros ->. apply bind_Some. exists (hyphenated id). split; [by apply strip_prefix_some|].
    apply bind_Some. exists id. split; [apply hyphenated_parses|]. by rewrite String.eqb_refl.
Qed.

(** No prefix begins another. *)
Lemma prefixes_apart k k' s s' : PREFIX k +:+ s = PREFIX k' +:+ s' -> k = k'.
Proof. destruct k, k'; cbn; try done; intros H; discriminate H. Qed.

(** The identifiers of the API are read back exactly: the text of an
    identifier parses to it, nothing else does, and no text is an identifier
    of two kinds. *)
Theorem ids_roundtrip `{!UuidLaws U} k value id :
  (id_parse k value = Some id <-> value = id_display k id) /\
  (forall k' id', id_parse k value = Some id -> id_parse k' value = Some id' -> k' = k /\ id' = id).
Proof.
  split; [apply parse_prefixed_some|]. intros k' id' H H'. pose proof H as Hv. pose proof H' as Hv'.
  apply parse_prefixed_some in Hv, Hv'. rewrite Hv in Hv'. apply prefixes_apart in Hv' as <-. split; [done|].
  rewrite H' in H. by injection H.
Qed.

End Ids.

(** A text of identifiers one can evaluate: their binary digits. *)
Module IdExample.

Fixpoint digits (p : positive) : string :=
  match p with xH => "1" | xO q => String "0" (digits q) | xI q => String "i" (digits q) end.

Fixpoint read (s : string) : option positive :=
  match s with
  | EmptyString => None
  | String c EmptyString => if Ascii.eqb c "1" then Some xH else None
  | String c rest =>
      if Ascii.eqb c "0" then xO <$> read rest else if Ascii.eqb c "i" then xI <$> read rest else None
  end.

Lemma read_digits p : read (digits p) = Some p.
Proof. induction p as [p IH|p IH|]; [| |done]; destruct p; try done; cbn in *; by rewrite IH. Qed.

Definition id_text (id : Uuid) : string :=
  match id with Z0 => "" | Zpos p => String "+" (digits p) | Zneg p => String "-" (digits p) end.

Definition id_read (s : string) : option Uuid :=
  match s with
  | EmptyString => Some 0
  | String c rest =>
      if Ascii.eqb c "+" then Zpos <$> read rest else if Ascii.eqb c "-" then Zneg <$> read rest else None
  end.

#[export] Instance binary : UuidText := {| try_parse := id_read; hyphenated := id_text |}.

#[export] Instance binary_laws : UuidLaws binary.
Proof. intros [|p|p]; cbn; [done| |]; by rewrite read_digits. Qed.

Lemma ids_roundtrip_witness : id_parse WithdrawalId "wd_+1" = Some 1 /\ id_parse WithdrawalLegId "wd_+1" = None.
Proof.
  destruct (ids_roundtrip WithdrawalId "wd_+1" 1) as [[_ H] _]. split; [apply H; reflexivity|reflexivity].
Defined.

End IdExample.
