(* ===== verification/Backoff.v ===== *)
(** * gum-bus: exponential backoff with jitter

    Models [crates/gum-bus/src/backoff.rs]. A [Duration] is its number of
    nanoseconds. The jitter sample is the [f64] [unit = k / 2^53] the random
    generator draws; the product with the half delay is rounded to 53
    significant bits, ties to even, as the hardware does. *)

From S2P Require Import Prelude.

Definition duration_max : Z := u64_max * 10 ^ 9 + 999999999.

(** [Duration::checked_mul]. *)
Definition duration_checked_mul (d : Z) (n : Z) : option Z :=
  if d * n <=? duration_max then Some (d * n) else None.

Definition as_millis (d : Z) : Z := d / 10 ^ 6.
Definition from_millis (ms : Z) : Z := ms * 10 ^ 6.

(** [p / 2^53] rounded to the nearest [f64], in units of [2^-53]. *)
Definition round_f64 (p : Z) : Z :=
  let s := Z.max 0 (Z.log2 p + 1 - 53) in
  let q := p / 2 ^ s in
  let r := p mod 2 ^ s in
  let q' := if (2 * r >? 2 ^ s) || ((2 * r =? 2 ^ s) && Z.odd q) then q + 1 else q in
  q' * 2 ^ s.

(** [(m as f64 * unit.clamp(0.0, 1.0)) as u64] for [unit = k / 2^53]. *)
Definition scale_by_unit (m k : Z) : Z :=
  round_f64 (m * Z.max 0 (Z.min k (2 ^ 53))) / 2 ^ 53.

Module BackoffPolicy.
Record t := mk { base : Z; cap : Z }.
End BackoffPolicy.

Definition backoff_delay (base cap attempt k : Z) : Z :=
  let exponent := Z.min (Z.max (attempt - 1) 0) 31 in
  let scaled :=
    Z.min (match duration_checked_mul base (2 ^ exponent) with Some d => d | None => cap end) cap in
  let half := scaled / 2 in
  let jitter_ms := scale_by_unit (as_millis half) k in
  from_millis (as_millis half + jitter_ms).

(** [BackoffPolicy::delay], with the generator's draw as an argument. *)
Definition delay (p : BackoffPolicy.t) (attempt k : Z) : Z :=
  backoff_delay (BackoffPolicy.base p) (BackoffPolicy.cap p) attempt k.

(** The tests of [backoff.rs]. *)
Example delay_doubles_and_caps :
  let sec n := n * 10 ^ 9 in
  backoff_delay (sec 2) (sec 60) 1 0 = sec 1 /\
  backoff_delay (sec 2) (sec 60) 1 (2 ^ 53) = sec 2 /\
  backoff_delay (sec 2) (sec 60) 3 (2 ^ 53) = sec 8 /\
  backoff_delay (sec 2) (sec 60) 10 (2 ^ 53) = sec 60 /\
  backoff_delay (sec 2) (sec 60) 40 0 = sec 30 /\
  backoff_delay (sec 4) (sec 60) 0 (2 ^ 53) = sec 4 /\
  backoff_delay (sec 2) (sec 60) 1 1111999986630788 = 1123 * 10 ^ 6.
Proof. vm_compute. repeat split. Qed.

Lemma round_f64_nonneg p : 0 <= p -> 0 <= round_f64 p.
Proof.
  intros Hp. unfold round_f64. set (s := Z.max 0 _).
  assert (0 < 2 ^ s) by (apply Z.pow_pos_nonneg; lia).
  pose proof (Z.div_pos p (2 ^ s)).
  destruct (_ || _); nia.
Qed.

(** Rounding never passes a representable bound. *)
Lemma round_f64_le p m : 0 <= m < 2 ^ 53 -> 0 <= p <= m * 2 ^ 53 -> round_f64 p <= m * 2 ^ 53.
Proof.
  intros Hm Hp. unfold round_f64. set (s := Z.max 0 _).
  assert (Hs : 0 <= s <= 53).
  { split; [lia|]. unfold s. destruct (decide (p = 0)) as [->|]; [simpl; lia|].
    assert (Z.log2 p < 106); [|lia]. apply Z.log2_lt_pow2; [lia|].
    change (2 ^ 106) with (2 ^ 53 * 2 ^ 53).
    apply Z.le_lt_trans with (m * 2 ^ 53); [lia|]. apply Z.mul_lt_mono_pos_r; lia. }
  assert (Hpow : 0 < 2 ^ s) by (apply Z.pow_pos_nonneg; lia).
  assert (Hmul : m * 2 ^ 53 = m * 2 ^ (53 - s) * 2 ^ s).
  { rewrite <- Z.mul_assoc, <- Z.pow_add_r by lia. do 2 f_equal. lia. }
  assert (Hdm : p = 2 ^ s * (p / 2 ^ s) + p mod 2 ^ s) by (apply Z.div_mod; lia).
  pose proof (Z.mod_pos_bound p (2 ^ s) Hpow) as Hmod.
  set (q := p / 2 ^ s) in *. set (r := p mod 2 ^ s) in *. set (X := m * 2 ^ (53 - s)) in *.
  rewrite Hmul in *. apply Z.mul_le_mono_nonneg_r; [lia|].
  destruct (_ || _) eqn:Hround.
  - assert (0 < r) by (apply orb_true_iff in Hround as [?%Z.gtb_lt|?]; bools; lia).
    assert (q * 2 ^ s < X * 2 ^ s) by lia. apply Z.mul_lt_mono_pos_r in H0; lia.
  - apply (Z.mul_le_mono_pos_r _ _ (2 ^ s)); lia.
Qed.

Lemma scale_by_unit_bounds m k : 0 <= m < 2 ^ 53 -> 0 <= scale_by_unit m k <= m.
Proof.
  intros Hm. unfold scale_by_unit.
  assert (0 <= m * Z.max 0 (Z.min k (2 ^ 53)) <= m * 2 ^ 53) as Hp by nia.
  split.
  - apply Z.div_pos; [apply round_f64_nonneg; lia|lia].
  - apply Z.div_le_upper_bound; [lia|]. rewrite (Z.mul_comm (2 ^ 53)). by apply round_f64_le.
Qed.

(** A product that is a whole number of milliseconds is not rounded. *)
Lemma round_f64_whole m : 0 <= m < 2 ^ 53 -> round_f64 (m * 2 ^ 53) = m * 2 ^ 53.
Proof.
  intros Hm. unfold round_f64. destruct (decide (m = 0)) as [->|]; [done|].
  rewrite Z.log2_mul_pow2 by lia. pose proof (Z.log2_lt_pow2 m 53 ltac:(lia)) as Hlog.
  pose proof (Z.log2_nonneg m). set (s := Z.max 0 _). assert (0 <= s <= 53) as Hs by lia.
  replace (m * 2 ^ 53) with (m * 2 ^ (53 - s) * 2 ^ s)
    by (rewrite <- Z.mul_assoc, <- Z.pow_add_r by lia; do 2 f_equal; lia).
  assert (0 < 2 ^ s) by (apply Z.pow_pos_nonneg; lia).
  rewrite Z.mod_mul, Z.div_mul by lia.
  destruct (_ || _) eqn:E; [|done]. apply orb_true_iff in E as [?%Z.gtb_lt|?]; bools; lia.
Qed.

Lemma scale_by_unit_ends m k : 0 <= m < 2 ^ 53 ->
  (k <= 0 -> scale_by_unit m k = 0) /\ (2 ^ 53 <= k -> scale_by_unit m k = m).
Proof.
  intros Hm. unfold scale_by_unit. split; intros Hk.
  - replace (Z.max 0 (Z.min k (2 ^ 53))) with 0 by lia. by rewrite Z.mul_0_r.
  - replace (Z.max 0 (Z.min k (2 ^ 53))) with (2 ^ 53) by lia.
    rewrite round_f64_whole by done. apply Z.div_mul. lia.
Qed.

Lemma as_millis_bounds d : 0 <= d -> 0 <= as_millis d /\ from_millis (as_millis d) <= d.
Proof.
  unfold as_millis, from_millis. intros Hd. split.
  - apply Z.div_pos; lia.
  - rewrite Z.mul_comm. apply Z.mul_div_le. lia.
Qed.

(** A product too large for a [Duration] is above every cap of the code, so
    that the checked multiplication and the cap are a plain minimum. *)
Lemma scaled_is_min base cap attempt :
  cap <= 2 ^ 53 * 10 ^ 6 ->
  Z.min (match duration_checked_mul base (2 ^ Z.min (Z.max (attempt - 1) 0) 31)
         with Some d => d | None => cap end) cap =
  Z.min (base * 2 ^ Z.min (Z.max (attempt - 1) 0) 31) cap.
Proof.
  intros Hc. unfold duration_checked_mul, duration_max. change u64_max with (2 ^ 64 - 1).
  destruct (Z.leb_spec (base * 2 ^ Z.min (Z.max (attempt - 1) 0) 31) ((2 ^ 64 - 1) * 10 ^ 9 + 999999999)); lia.
Qed.

(** The two summands of the delay: half of the capped exponential delay in
    milliseconds, and a jitter of at most as much again. *)
Lemma backoff_parts base cap attempt k :
  0 <= base -> 0 <= cap <= 2 ^ 53 * 10 ^ 6 ->
  let full := Z.min (base * 2 ^ Z.min (Z.max (attempt - 1) 0) 31) cap in
  let half := full / 2 / 10 ^ 6 in
  0 <= half < 2 ^ 53 /\ 2 * half * 10 ^ 6 <= full <= cap /\
  backoff_delay base cap attempt k = (half + scale_by_unit half k) * 10 ^ 6.
Proof.
  intros Hb Hc full half. unfold backoff_delay. rewrite scaled_is_min by lia. fold full.
  assert (0 <= full) as Hf by (apply Z.min_glb; [apply Z.mul_nonneg_nonneg; [done|apply Z.pow_nonneg]|]; lia).
  assert (full <= cap) by lia.
  destruct (as_millis_bounds (full / 2)) as [Hm0 Hm1]; [apply Z.div_pos; lia|].
  pose proof (Z.mul_div_le full 2 ltac:(lia)).
  unfold from_millis, as_millis in *. fold half in Hm0, Hm1 |- *.
  assert (half < 2 ^ 53) by (apply Z.div_lt_upper_bound; lia). split_and!; first [done|lia].
Qed.

Lemma delay_bounds p attempt k :
  0 <= BackoffPolicy.base p -> 0 <= BackoffPolicy.cap p <= 2 ^ 53 * 10 ^ 6 ->
  0 <= delay p attempt k <= BackoffPolicy.cap p.
Proof.
  intros Hb Hc. unfold delay. destruct (backoff_parts _ _ attempt k Hb Hc) as (Hh & ? & ->).
  pose proof (scale_by_unit_bounds _ k Hh). lia.
Qed.

(** C40. The delay before retry [attempt] doubles from [base] with each
    attempt, 31 times at most, up to [cap]; of that full delay half is fixed
    and the other half is jitter. For every draw of the generator and every
    attempt number, a [u32]'s extremes and a product too large for a
    [Duration] included, the delay is a whole number of milliseconds, at
    least half of the full delay and at most twice that half, hence never
    above the full delay nor the cap; a draw of 0 or less gives the half and
    a draw of 1 or more gives twice the half, in spite of the rounding of the
    floating-point product. Assumes a cap of at most 2^53 ms. *)
Theorem backoff_delay_bounds base cap attempt k :
  0 <= base -> 0 <= cap <= 2 ^ 53 * 10 ^ 6 ->
  let full := Z.min (base * 2 ^ Z.min (Z.max (attempt - 1) 0) 31) cap in
  let half := full / 2 / 10 ^ 6 in
  let d := backoff_delay base cap attempt k in
  half * 10 ^ 6 <= d <= 2 * half * 10 ^ 6 /\ 2 * half * 10 ^ 6 <= full <= cap /\
  d mod 10 ^ 6 = 0 /\
  (k <= 0 -> d = half * 10 ^ 6) /\ (2 ^ 53 <= k -> d = 2 * half * 10 ^ 6).
Proof.
  intros Hb Hc full half d. unfold d. clear d.
  destruct (backoff_parts base cap attempt k Hb Hc) as (Hh & Hf & ->). fold full in Hh, Hf |- *. fold half in Hh, Hf |- *.
  pose proof (scale_by_unit_bounds half k Hh). destruct (scale_by_unit_ends half k Hh) as [H0 H1].
  rewrite Z.mod_mul by lia. split_and!; lia.
Qed.

Lemma backoff_delay_bounds_witness :
  8 * 10 ^ 9 <= backoff_delay (2 * 10 ^ 9) (300 * 10 ^ 9) 4 12345 <= 16 * 10 ^ 9 /\
  backoff_delay (2 * 10 ^ 9) (300 * 10 ^ 9) 4294967295 (2 ^ 53) = 300 * 10 ^ 9.
Proof.
  split.
  - apply (backoff_delay_bounds (2 * 10 ^ 9) (300 * 10 ^ 9) 4 12345); lia.
  - apply (backoff_delay_bounds (2 * 10 ^ 9) (300 * 10 ^ 9) 4294967295 (2 ^ 53)); lia.
Defined.
