(* ===== verification/Bus.v ===== *)
(** * gum-bus: the durable message bus

    Models [crates/gum-bus/src/publisher.rs] and [consumer.rs] over the
    [bus.*] tables of [crates/gum-schema/migrations/0002_bus.sql].

    One transaction of the code is one function of the model: it reads the
    tables, and returns the new tables only when it commits. [now()] is the
    transaction's time, in microseconds; the fresh identifiers a transaction
    draws are arguments. *)

From stdpp Require Import sorting.
From S2P Require Import Prelude Core Contracts Backoff.

(** ** Tables *)

Module RawMessage.
Record t := mk {
  id : Uuid;
  topic : string;
  kind : string;
  schema_version : Z;
  payload : Message;
  payload_hash : B256;
  producer : string;
  deduplication_key : string;
  correlation_id : Uuid;
  causation_id : option Uuid;
  published_at : Timestamp;
}.
End RawMessage.

Inductive DeliveryState := Pending | Done | Dead.

#[export] Instance DeliveryState_eq_dec : EqDecision DeliveryState.
Proof. solve_decision. Defined.

Module DeliveryRow.
Record t := mk {
  state : DeliveryState;
  attempt_count : Z;
  available_at : Timestamp;
  lease_token : option Uuid;
  leased_until : option Timestamp;
  last_error : option string;
  last_attempt_at : option Timestamp;
  done_at : option Timestamp;
}.
(** The column defaults of a fresh delivery. *)
Definition fresh (now : Timestamp) : t := mk Pending 0 now None None None None None.
End DeliveryRow.

Module Bus.
Record t := mk {
  messages : gmap Uuid RawMessage.t;
  deliveries : gmap (Uuid * string) DeliveryRow.t;
}.
Definition empty : t := mk ∅ ∅.
End Bus.

(** The static rows of [bus.subscriptions]: (consumer, topic). *)
Definition subscriptions : list (string * string) :=
  [("gum-signers", EXECUTION_COMMANDS_TOPIC);
   ("gum-signers", CHAIN_CONTROL_TOPIC);
   ("gum-server", EXECUTION_EVENTS_TOPIC)].

Definition subscribers (topic : string) : list string :=
  fst <$> List.filter (fun s => String.eqb (snd s) topic) subscriptions.

(** ** Errors and outcomes *)

Inductive BusError :=
| BusDatabase (what : string)
| ConflictingPayload (message_id : Uuid) (expected actual : B256)
| LeaseLost (message_id : Uuid) (consumer : string)
| BusEncode (what : string).

Inductive PublishOutcome :=
| Published (id : Uuid)
| Duplicate (id : Uuid).

Definition outcome_message_id (o : PublishOutcome) : Uuid :=
  match o with Published id | Duplicate id => id end.

Inductive Disposition :=
| Retry (available_at : Timestamp)
| DispositionDead.

Inductive HandlerError :=
| Retryable (what : string)
| Permanent (what : string).

(** [impl From<BusError> for HandlerError]. *)
Definition handler_error_of_bus (e : BusError) : HandlerError :=
  match e with
  | ConflictingPayload _ _ _ => Permanent "conflicting payload"
  | BusEncode what => Permanent what
  | BusDatabase what => Retryable what
  | LeaseLost _ _ => Retryable "lease lost"
  end.

(** ** Publishing *)

(** The unique index on [(topic, deduplication_key)]. *)
Definition find_message (topic key : string) (messages : gmap Uuid RawMessage.t)
  : option RawMessage.t :=
  snd <$> List.find (fun kv => String.eqb (RawMessage.topic (snd kv)) topic
                            && String.eqb (RawMessage.deduplication_key (snd kv)) key)
            (map_to_list messages).

(** The trigger [bus.fan_out]: one delivery per subscribed consumer. *)
Definition fan_out (now : Timestamp) (id : Uuid) (topic : string)
    (deliveries : gmap (Uuid * string) DeliveryRow.t) : gmap (Uuid * string) DeliveryRow.t :=
  foldr (fun consumer ds => <[(id, consumer) := DeliveryRow.fresh now]> ds)
    deliveries (subscribers topic).

Section Publisher.
(** SHA-256 of the payload's JSON. *)
Context (payload_hash : Message -> B256).

Definition publish `{BusMessage M} (producer : string) (message : M) (correlation_id : Uuid)
    (causation_id : option Uuid) (id : Uuid) (now : Timestamp) (bus : Bus.t)
  : result BusError (PublishOutcome * Bus.t) :=
  let payload := to_message message in
  let key := dedup_key message in
  match find_message TOPIC key (Bus.messages bus) with
  | None =>
      if is_some (Bus.messages bus !! id) then Err (BusDatabase "bus.messages_pkey")
      else
        let row := RawMessage.mk id TOPIC (msg_kind message) SCHEMA_VERSION payload
                     (payload_hash payload) producer key correlation_id causation_id now in
        Ok (Published id,
            Bus.mk (<[id := row]> (Bus.messages bus)) (fan_out now id TOPIC (Bus.deliveries bus)))
  | Some existing =>
      if bool_decide (RawMessage.payload_hash existing = payload_hash payload)
      then Ok (Duplicate (RawMessage.id existing), bus)
      else Err (ConflictingPayload (RawMessage.id existing) (RawMessage.payload_hash existing)
                  (payload_hash payload))
  end.

End Publisher.

(** ** Consuming *)

Module ConsumerOptions.
Record t := mk {
  lease : Z;
  max_attempts : Z;
  backoff : BackoffPolicy.t;
  poll_interval : Z;
  batch_size : Z;
}.
Definition default : t :=
  mk (30 * 10 ^ 9) 20 (BackoffPolicy.mk (2 * 10 ^ 9) (300 * 10 ^ 9)) (1 * 10 ^ 9) 32.
End ConsumerOptions.

Module Consumer.
Record t := mk { name : string; options : ConsumerOptions.t }.
End Consumer.

Module Delivery.
Record t (M : Type) := mk {
  message_id : Uuid;
  message : M;
  kind : string;
  correlation_id : Uuid;
  causation_id : option Uuid;
  published_at : Timestamp;
  attempt : Z;
  lease_token : Uuid;
}.
Arguments mk {M}.
Arguments message_id {M}.
Arguments message {M}.
Arguments kind {M}.
Arguments correlation_id {M}.
Arguments causation_id {M}.
Arguments published_at {M}.
Arguments attempt {M}.
Arguments lease_token {M}.
End Delivery.

(** A [Duration] as Postgres stores it: whole microseconds. *)
Definition interval (duration : Z) : Z := duration / 1000.

(** The claim's [WHERE] clause. *)
Definition claimable (now : Timestamp) (row : DeliveryRow.t) : bool :=
  bool_decide (DeliveryRow.state row = Pending)
  && (DeliveryRow.available_at row <=? now)
  && match DeliveryRow.leased_until row with
     | None => true
     | Some until => until <? now
     end.

Definition published_before (a b : RawMessage.t) : Prop :=
  RawMessage.published_at a <= RawMessage.published_at b.

#[export] Instance published_before_dec a b : Decision (published_before a b).
Proof. unfold published_before. apply _. Defined.

#[export] Instance published_before_total : Total published_before.
Proof. intros a b. unfold published_before. lia. Qed.

(** [picked]: the oldest claimable deliveries of the topic, at most a batch. *)
Definition picked (c : Consumer.t) (topic : string) (now : Timestamp) (bus : Bus.t)
  : list RawMessage.t :=
  take (Z.to_nat (ConsumerOptions.batch_size (Consumer.options c)))
    (merge_sort published_before
      (List.filter (fun message =>
         String.eqb (RawMessage.topic message) topic
         && match Bus.deliveries bus !! (RawMessage.id message, Consumer.name c) with
            | Some row => claimable now row
            | None => false
            end) (map_to_list (Bus.messages bus)).*2)).

Definition lease_row (c : Consumer.t) (token : Uuid) (now : Timestamp) (row : DeliveryRow.t)
  : DeliveryRow.t :=
  {| row with
     DeliveryRow.lease_token := Some token;
     DeliveryRow.leased_until := Some (now + interval (ConsumerOptions.lease (Consumer.options c)));
     DeliveryRow.attempt_count := DeliveryRow.attempt_count row + 1;
     DeliveryRow.last_attempt_at := Some now |}.

(** [UPDATE .. WHERE message_id = .. AND consumer = .. AND lease_token = ..
    AND state = 'pending'], with the number of rows it changed. *)
Definition holds_lease (token : Uuid) (row : DeliveryRow.t) : bool :=
  bool_decide (DeliveryRow.lease_token row = Some token)
  && bool_decide (DeliveryRow.state row = Pending).

Definition update_leased (message_id : Uuid) (consumer : string) (token : Uuid)
    (f : DeliveryRow.t -> DeliveryRow.t) (bus : Bus.t) : bool * Bus.t :=
  match Bus.deliveries bus !! (message_id, consumer) with
  | Some row =>
      if holds_lease token row
      then (true, {| bus with Bus.deliveries := <[(message_id, consumer) := f row]> (Bus.deliveries bus) |})
      else (false, bus)
  | None => (false, bus)
  end.

Definition park_dead (c : Consumer.t) (message_id token : Uuid) (error : string) (bus : Bus.t) : Bus.t :=
  snd (update_leased message_id (Consumer.name c) token
         (fun row => {| row with
            DeliveryRow.state := Dead;
            DeliveryRow.lease_token := None;
            DeliveryRow.leased_until := None;
            DeliveryRow.last_error := Some error |}) bus).

(** [Consumer::claim]: lease the picked rows, then decode each message;
    a message this binary cannot decode is parked as dead. [tokens] are the
    database's random lease tokens. *)
Definition lease_picked (c : Consumer.t) (tokens : Uuid -> Uuid) (now : Timestamp)
    (rows : list RawMessage.t) (bus : Bus.t) : Bus.t :=
  {| bus with Bus.deliveries :=
       foldr (fun message ds =>
         alter (lease_row c (tokens (RawMessage.id message)) now)
           (RawMessage.id message, Consumer.name c) ds)
         (Bus.deliveries bus) rows |}.

Definition attempt_count_of (message_id : Uuid) (consumer : string) (bus : Bus.t) : Z :=
  match Bus.deliveries bus !! (message_id, consumer) with
  | Some row => DeliveryRow.attempt_count row
  | None => 0
  end.

Definition decode_one `{BusMessage M} (c : Consumer.t) (tokens : Uuid -> Uuid)
    (raw : RawMessage.t) (acc : list (Delivery.t M) * Bus.t) : list (Delivery.t M) * Bus.t :=
  let '(deliveries, bus) := acc in
  let id := RawMessage.id raw in
  let token := tokens id in
  if SCHEMA_VERSION <? RawMessage.schema_version raw
  then (deliveries, park_dead c id token "message schema version is newer" bus)
  else
    match of_message (RawMessage.payload raw) with
    | None => (deliveries, park_dead c id token "payload does not decode" bus)
    | Some message =>
        (Delivery.mk id message (RawMessage.kind raw) (RawMessage.correlation_id raw)
           (RawMessage.causation_id raw) (RawMessage.published_at raw)
           (attempt_count_of id (Consumer.name c) bus) token :: deliveries, bus)
    end.

Definition claim `{BusMessage M} (c : Consumer.t) (tokens : Uuid -> Uuid) (now : Timestamp)
    (bus : Bus.t) : list (Delivery.t M) * Bus.t :=
  let rows := picked c TOPIC now bus in
  foldr (decode_one c tokens) ([], lease_picked c tokens now rows bus) rows.

(** [Consumer::ack]. *)
Definition ack {M} (c : Consumer.t) (d : Delivery.t M) (now : Timestamp) (bus : Bus.t)
  : result BusError Bus.t :=
  let '(updated, bus') :=
    update_leased (Delivery.message_id d) (Consumer.name c) (Delivery.lease_token d)
      (fun row => {| row with
         DeliveryRow.state := Done;
         DeliveryRow.done_at := Some now;
         DeliveryRow.lease_token := None;
         DeliveryRow.leased_until := None;
         DeliveryRow.last_error := None |}) bus in
  if updated then Ok bus' else Err (LeaseLost (Delivery.message_id d) (Consumer.name c)).

Definition handler_error_text (e : HandlerError) : string :=
  match e with Retryable what | Permanent what => what end.

Definition is_permanent (e : HandlerError) : bool :=
  match e with Permanent _ => true | Retryable _ => false end.

(** [Consumer::fail]; [k] is the backoff's jitter draw. *)
Definition fail {M} (c : Consumer.t) (d : Delivery.t M) (error : HandlerError) (k : Z)
    (now : Timestamp) (bus : Bus.t) : Disposition * Bus.t :=
  let exhausted := ConsumerOptions.max_attempts (Consumer.options c) <=? Delivery.attempt d in
  let message := handler_error_text error in
  if is_permanent error || exhausted
  then (DispositionDead, park_dead c (Delivery.message_id d) (Delivery.lease_token d) message bus)
  else
    let wait := delay (ConsumerOptions.backoff (Consumer.options c)) (Delivery.attempt d) k in
    let available_at := now + interval wait in
    let '(updated, bus') :=
      update_leased (Delivery.message_id d) (Consumer.name c) (Delivery.lease_token d)
        (fun row => {| row with
           DeliveryRow.available_at := available_at;
           DeliveryRow.lease_token := None;
           DeliveryRow.leased_until := None;
           DeliveryRow.last_error := Some message |}) bus in
    (Retry (if updated then available_at else now), bus').

(** [Consumer::retry_dead]: an operator returns a dead delivery to the queue. *)
Definition retry_dead (c : Consumer.t) (message_id : Uuid) (now : Timestamp) (bus : Bus.t)
  : bool * Bus.t :=
  match Bus.deliveries bus !! (message_id, Consumer.name c) with
  | Some row =>
      if bool_decide (DeliveryRow.state row = Dead)
      then (true, {| bus with Bus.deliveries :=
             <[(message_id, Consumer.name c) :=
                {| row with
                   DeliveryRow.state := Pending;
                   DeliveryRow.attempt_count := 0;
                   DeliveryRow.available_at := now;
                   DeliveryRow.last_error := None |}]> (Bus.deliveries bus) |})
      else (false, bus)
  | None => (false, bus)
  end.

(** ** Handling: the inbox transaction

    A service's database holds the bus next to its own tables; [HasBus] is
    what the consumer loop needs of such a state. *)

Class HasBus (S : Type) := {
  bus_of : S -> Bus.t;
  set_bus : Bus.t -> S -> S;
  bus_of_set_bus : forall b s, bus_of (set_bus b s) = b;
  set_bus_bus_of : forall s, set_bus (bus_of s) s = s;
}.

#[export] Instance HasBus_self : HasBus Bus.t := {|
  bus_of := id;
  set_bus b _ := b;
  bus_of_set_bus b s := eq_refl;
  set_bus_bus_of s := eq_refl;
|}.

Inductive HandledDelivery :=
| HandledDone (message_id : Uuid)
| HandledFailed (message_id : Uuid) (error : string) (disposition : Disposition).

Section Handling.
Context {S : Type} `{HasBus S} {M : Type} `{BusMessage M}.
Implicit Types (c : Consumer.t) (d : Delivery.t M) (s : S).

(** [Handler::handle]: a transaction of the service at a given time. *)
Definition Handler : Type := Timestamp -> Delivery.t M -> S -> result HandlerError S.

(** The transaction of [handle_one]: the handler's writes and the
    acknowledgement, committed together or not at all. *)
Definition handle_and_ack c (handler : Handler) d (now : Timestamp) s : result HandlerError S :=
  let! s1 := handler now d s in
  match ack c d now (bus_of s1) with
  | Ok bus => Ok (set_bus bus s1)
  | Err e => Err (handler_error_of_bus e)
  end.

(** [handle_one]: on an error the transaction is rolled back and the
    failure recorded in one of its own. *)
Definition handle_one c (handler : Handler) d (k : Z) (now : Timestamp) s : HandledDelivery * S :=
  match handle_and_ack c handler d now s with
  | Ok s' => (HandledDone (Delivery.message_id d), s')
  | Err error =>
      let '(disposition, bus) := fail c d error k now (bus_of s) in
      (HandledFailed (Delivery.message_id d) (handler_error_text error) disposition, set_bus bus s)
  end.

(** [handle_batch]: claim, then each delivery in its own transaction.
    [clock] and [jitter] are the time and the backoff draw of each. *)
Definition handle_batch c (handler : Handler) (tokens : Uuid -> Uuid)
    (jitter : Uuid -> Z) (clock : Uuid -> Timestamp) (now : Timestamp) s
  : list HandledDelivery * S :=
  let '(batch, bus) := claim (M := M) c tokens now (bus_of s) in
  foldl (fun '(outcomes, s) d =>
           let '(outcome, s') :=
             handle_one c handler d (jitter (Delivery.message_id d))
               (clock (Delivery.message_id d)) s in
           (outcomes ++ [outcome], s'))
    ([], set_bus bus s) batch.

End Handling.

(** ** Laws of the bus

    [bus_wf] is what the schema and the fan-out promise: messages under
    their own id, one message per (topic, key), exactly the subscribers'
    deliveries, and rows whose lease is complete and released once settled. *)

Definition row_wf (row : DeliveryRow.t) : Prop :=
  is_some (DeliveryRow.lease_token row) = is_some (DeliveryRow.leased_until row) /\
  (DeliveryRow.state row <> Pending -> DeliveryRow.lease_token row = None) /\
  (DeliveryRow.state row = Done <-> is_some (DeliveryRow.done_at row) = true).

Record bus_wf (bus : Bus.t) : Prop := {
  wf_id : forall k m, Bus.messages bus !! k = Some m -> RawMessage.id m = k;
  wf_key : forall k1 k2 m1 m2,
    Bus.messages bus !! k1 = Some m1 -> Bus.messages bus !! k2 = Some m2 ->
    RawMessage.topic m1 = RawMessage.topic m2 ->
    RawMessage.deduplication_key m1 = RawMessage.deduplication_key m2 -> k1 = k2;
  wf_fan_out : forall k consumer,
    is_Some (Bus.deliveries bus !! (k, consumer)) <->
    exists m, Bus.messages bus !! k = Some m /\ consumer ∈ subscribers (RawMessage.topic m);
  wf_row : forall k row, Bus.deliveries bus !! k = Some row -> row_wf row;
}.

(** Rows of two bus states related one by one, on the same messages. *)
Definition rows_related (R : DeliveryRow.t -> DeliveryRow.t -> Prop) (bus bus' : Bus.t) : Prop :=
  Bus.messages bus' = Bus.messages bus /\
  forall k, option_Forall2 R (Bus.deliveries bus !! k) (Bus.deliveries bus' !! k).

(** How an operation of a consumer may move a row: a settled row stays. *)
Definition row_moves (row row' : DeliveryRow.t) : Prop :=
  (row_wf row -> row_wf row') /\ (DeliveryRow.state row = Done -> row' = row).

#[export] Instance row_moves_preorder : PreOrder row_moves.
Proof.
  split; [by split|].
  intros r1 r2 r3 [Ha Hb] [Hc Hd]. split; [auto|].
  intros HD. rewrite (Hb HD) in *. rewrite (Hd HD). done.
Qed.

#[export] Instance rows_related_preorder R : PreOrder R -> PreOrder (rows_related R).
Proof.
  intros HR. split.
  - intros bus. split; [done|]. intros k. destruct (Bus.deliveries bus !! k); constructor. reflexivity.
  - intros b1 b2 b3 [Hm1 Hr1] [Hm2 Hr2]. split; [congruence|].
    intros k. specialize (Hr1 k). specialize (Hr2 k).
    destruct Hr1; inversion Hr2; subst; constructor. etrans; eauto.
Qed.

Lemma rows_related_wf bus bus' : rows_related row_moves bus bus' -> bus_wf bus -> bus_wf bus'.
Proof.
  intros [Hm Hr] [Hid Hkey Hfan Hrow]. split; try (rewrite Hm; assumption).
  - intros k consumer. rewrite Hm, <- Hfan. specialize (Hr (k, consumer)).
    unfold is_Some. destruct Hr; naive_solver.
  - intros k row Hk. specialize (Hr k). rewrite Hk in Hr.
    inversion Hr as [r r' [Hwf _] Hr1 Hr2|]; subst. eauto.
Qed.

(** *** Row updates *)

Lemma update_leased_lookup message_id consumer token f bus k :
  Bus.deliveries (snd (update_leased message_id consumer token f bus)) !! k =
  (fun row => if bool_decide (k = (message_id, consumer)) && holds_lease token row
              then f row else row) <$> Bus.deliveries bus !! k.
Proof.
  unfold update_leased.
  destruct (Bus.deliveries bus !! (message_id, consumer)) as [row|] eqn:Hrow;
    [destruct (holds_lease token row) eqn:Hl; simpl|].
  1: destruct (decide (k = (message_id, consumer))) as [->|Hne].
  1: by rewrite lookup_insert_eq, Hrow; simpl; rewrite bool_decide_eq_true_2, Hl.
  1: rewrite lookup_insert_ne, bool_decide_eq_false_2 by done; simpl; by rewrite option_fmap_id.
  all: simpl; destruct (decide (k = (message_id, consumer))) as [->|Hne];
    [rewrite Hrow; simpl; try rewrite bool_decide_eq_true_2, Hl by done; done|].
  all: rewrite bool_decide_eq_false_2 by done; simpl; by rewrite option_fmap_id.
Qed.

Lemma update_leased_messages message_id consumer token f bus :
  Bus.messages (snd (update_leased message_id consumer token f bus)) = Bus.messages bus.
Proof. unfold update_leased. by repeat case_match. Qed.

Lemma update_leased_moves message_id consumer token f bus :
  (forall row, DeliveryRow.state row = Pending -> row_wf row -> row_wf (f row)) ->
  rows_related row_moves bus (snd (update_leased message_id consumer token f bus)).
Proof.
  intros Hf. split; [apply update_leased_messages|].
  intros k. rewrite update_leased_lookup.
  destruct (Bus.deliveries bus !! k) as [row|]; simpl; constructor.
  destruct (bool_decide _ && _) eqn:Hb; [|reflexivity].
  unfold holds_lease in Hb; bools. split; [by auto|congruence].
Qed.

Lemma update_leased_false message_id consumer token f bus :
  fst (update_leased message_id consumer token f bus) = false ->
  snd (update_leased message_id consumer token f bus) = bus.
Proof. unfold update_leased. by repeat case_match. Qed.

Lemma update_leased_fst message_id consumer token f bus :
  fst (update_leased message_id consumer token f bus) = true <->
  exists row, Bus.deliveries bus !! (message_id, consumer) = Some row /\ holds_lease token row = true.
Proof. unfold update_leased. repeat case_match; simpl; naive_solver. Qed.

Ltac row_wf_tac :=
  let row := fresh in let Hs := fresh in
  intros row Hs (? & ? & ?); destruct row; unfold row_wf in *; simpl in *; subst;
  repeat split; intros; simpl in *; naive_solver.

Lemma park_dead_moves c id token error bus :
  rows_related row_moves bus (park_dead c id token error bus).
Proof. apply update_leased_moves. row_wf_tac. Qed.

Lemma ack_moves {M} c (d : Delivery.t M) now bus bus' :
  ack c d now bus = Ok bus' -> rows_related row_moves bus bus'.
Proof.
  unfold ack. destruct (update_leased _ _ _ _ bus) as [updated b] eqn:Hu.
  destruct updated; [|discriminate]. intros [= <-].
  change b with (snd (true, b)). rewrite <- Hu.
  apply update_leased_moves. row_wf_tac.
Qed.

Lemma fail_moves {M} c (d : Delivery.t M) error k now bus :
  rows_related row_moves bus (snd (fail c d error k now bus)).
Proof.
  unfold fail. destruct (is_permanent error || _); simpl; [apply park_dead_moves|].
  destruct (update_leased _ _ _ _ bus) as [updated b] eqn:Hu; simpl.
  change b with (snd (updated, b)). rewrite <- Hu.
  apply update_leased_moves. row_wf_tac.
Qed.

Lemma retry_dead_moves c id now bus : rows_related row_moves bus (snd (retry_dead c id now bus)).
Proof.
  unfold retry_dead. destruct (Bus.deliveries bus !! _) as [row|] eqn:Hrow; [|reflexivity].
  case_bool_decide as Hd; [|reflexivity]. split; [done|]. intros k. simpl.
  destruct (decide (k = (id, Consumer.name c))) as [->|Hne].
  - rewrite lookup_insert_eq, Hrow. constructor. split; [|congruence].
    destruct row; unfold row_wf; simpl in *; subst. naive_solver.
  - rewrite lookup_insert_ne by done. destruct (Bus.deliveries bus !! k); constructor. reflexivity.
Qed.

(** *** Claims *)

Lemma lease_picked_lookup c tokens now rows bus k :
  Bus.deliveries (lease_picked c tokens now rows bus) !! k =
  foldr (fun message row =>
           if bool_decide (k = (RawMessage.id message, Consumer.name c))
           then lease_row c (tokens (RawMessage.id message)) now <$> row else row)
    (Bus.deliveries bus !! k) rows.
Proof.
  simpl. induction rows as [|m rows IH]; simpl; [done|].
  case_bool_decide as Hk; [subst k|].
  - by rewrite lookup_alter_eq, IH.
  - by rewrite lookup_alter_ne, IH.
Qed.

(** A row nobody picked is untouched by the lease. *)
Lemma lease_picked_other c tokens now rows bus k :
  (forall m, m ∈ rows -> k <> (RawMessage.id m, Consumer.name c)) ->
  Bus.deliveries (lease_picked c tokens now rows bus) !! k = Bus.deliveries bus !! k.
Proof.
  intros Hne. rewrite lease_picked_lookup.
  induction rows as [|m rows IH]; simpl; [done|].
  rewrite bool_decide_eq_false_2 by (apply Hne; by left).
  apply IH. intros m' Hm'. apply Hne. by right.
Qed.

Lemma picked_claimable c topic now bus m :
  m ∈ picked c topic now bus ->
  RawMessage.topic m = topic /\ (exists k, Bus.messages bus !! k = Some m) /\
  exists row, Bus.deliveries bus !! (RawMessage.id m, Consumer.name c) = Some row /\
              claimable now row = true.
Proof.
  unfold picked. intros Hm%elem_of_take. destruct Hm as (i & Hi%list_elem_of_lookup_2 & _).
  rewrite merge_sort_Permutation in Hi.
  apply list_elem_of_In, filter_In in Hi as [Hin Hp].
  apply list_elem_of_In, list_elem_of_fmap in Hin as ([k m'] & -> & Hkm%elem_of_map_to_list).
  simpl in *. bools.
  destruct (Bus.deliveries bus !! _) as [row|]; [|done].
  repeat split; eauto. by apply String.eqb_eq.
Qed.

Lemma decode_fold_moves `{BusMessage M} c tokens rows (acc : list (Delivery.t M) * Bus.t) :
  rows_related row_moves (snd acc) (snd (foldr (decode_one c tokens) acc rows)).
Proof.
  induction rows as [|raw rows IH]; simpl; [reflexivity|].
  etrans; [exact IH|]. destruct (foldr _ _ _) as [ds b]. simpl. unfold decode_one.
  repeat case_match; simpl; try apply park_dead_moves; reflexivity.
Qed.

Lemma lease_fold_row c tokens now (rows : list RawMessage.t) k row :
  (forall m, m ∈ rows -> k = (RawMessage.id m, Consumer.name c) -> DeliveryRow.state row = Pending) ->
  exists row', foldr (fun message r =>
      if bool_decide (k = (RawMessage.id message, Consumer.name c))
      then lease_row c (tokens (RawMessage.id message)) now <$> r else r) (Some row) rows = Some row' /\
    row_moves row row' /\ DeliveryRow.state row' = DeliveryRow.state row.
Proof.
  induction rows as [|m rows IH]; simpl; intros Hp.
  { exists row. split; [done|]. split; [reflexivity|done]. }
  destruct IH as (row' & -> & Hm & Hs); [intros m' ?; apply Hp; by right|].
  case_bool_decide as Hk; [|by exists row'].
  assert (DeliveryRow.state row = Pending) as Hpend by (eapply Hp; [by left|done]).
  exists (lease_row c (tokens (RawMessage.id m)) now row'). split; [done|]. split; [|done]. split; [|congruence].
  intros Hwf. destruct Hm as [Hm _]. specialize (Hm Hwf). rewrite Hpend in Hs.
  revert Hm. destruct row'; unfold row_wf, lease_row; simpl in *; subst. naive_solver.
Qed.

Lemma lease_picked_moves c topic tokens now bus :
  rows_related row_moves bus (lease_picked c tokens now (picked c topic now bus) bus).
Proof.
  split; [done|]. intros k. rewrite lease_picked_lookup.
  destruct (Bus.deliveries bus !! k) as [row|] eqn:Hk.
  - destruct (lease_fold_row c tokens now (picked c topic now bus) k row) as (row' & -> & Hm & _).
    + intros m (_ & _ & row' & Hr & Hc)%picked_claimable Heq. subst k. simplify_eq.
      unfold claimable in Hc. by bools.
    + by constructor.
  - assert (forall rows : list RawMessage.t, foldr (fun message r =>
      if bool_decide (k = (RawMessage.id message, Consumer.name c))
      then lease_row c (tokens (RawMessage.id message)) now <$> r else r) None rows = None) as Hn.
    { induction rows as [|m rows IH]; simpl; [done|]. by rewrite IH; case_bool_decide. }
    rewrite Hn. constructor.
Qed.

Lemma claim_moves `{BusMessage M} c tokens now bus :
  rows_related row_moves bus (snd (claim (M := M) c tokens now bus)).
Proof.
  unfold claim. etrans; [apply lease_picked_moves with (topic := TOPIC)|].
  apply (decode_fold_moves (M := M) c tokens _ ([], _)).
Qed.

(** *** What a claim hands out *)

Lemma message_ids bus : bus_wf bus ->
  RawMessage.id <$> (map_to_list (Bus.messages bus)).*2 = (map_to_list (Bus.messages bus)).*1.
Proof.
  intros Hwf. rewrite <- list_fmap_compose. apply list_fmap_ext.
  intros i [k m] Hkm%list_elem_of_lookup_2%elem_of_map_to_list. by apply (wf_id _ Hwf).
Qed.

Lemma picked_nodup c topic now bus :
  bus_wf bus -> NoDup (RawMessage.id <$> picked c topic now bus).
Proof.
  intros Hwf. unfold picked. rewrite fmap_take. eapply sublist_NoDup; [|apply sublist_take].
  rewrite merge_sort_Permutation. apply NoDup_filter_key.
  rewrite message_ids by done. apply NoDup_fst_map_to_list.
Qed.

Lemma lease_picked_one c tokens now rows bus m row :
  NoDup (RawMessage.id <$> rows) -> m ∈ rows ->
  Bus.deliveries bus !! (RawMessage.id m, Consumer.name c) = Some row ->
  Bus.deliveries (lease_picked c tokens now rows bus) !! (RawMessage.id m, Consumer.name c) =
  Some (lease_row c (tokens (RawMessage.id m)) now row).
Proof.
  intros Hnd Hm Hrow. rewrite lease_picked_lookup, Hrow.
  induction rows as [|m' rows IH]; [by apply not_elem_of_nil in Hm|].
  rewrite fmap_cons in Hnd. apply list.NoDup_cons in Hnd as [Hni Hnd]. simpl.
  apply elem_of_cons in Hm as [<-|Hm].
  - rewrite bool_decide_eq_true_2 by done.
    pose proof (lease_picked_other c tokens now rows bus (RawMessage.id m, Consumer.name c)) as Ho.
    rewrite lease_picked_lookup, Hrow in Ho. rewrite Ho; [done|].
    intros m' Hm' [= Heq]. apply Hni. apply list_elem_of_fmap. eauto.
  - rewrite bool_decide_eq_false_2; [by apply IH|].
    intros [= Heq]. apply Hni. apply list_elem_of_fmap. eauto.
Qed.

Lemma park_dead_other c id token error bus k :
  k <> (id, Consumer.name c) ->
  Bus.deliveries (park_dead c id token error bus) !! k = Bus.deliveries bus !! k.
Proof.
  intros Hne. unfold park_dead. rewrite update_leased_lookup.
  rewrite bool_decide_eq_false_2 by done. simpl. apply option_fmap_id.
Qed.

Lemma decode_fold_other `{BusMessage M} c tokens rows (acc : list (Delivery.t M) * Bus.t) k :
  (forall m, m ∈ rows -> k <> (RawMessage.id m, Consumer.name c)) ->
  Bus.deliveries (snd (foldr (decode_one c tokens) acc rows)) !! k = Bus.deliveries (snd acc) !! k.
Proof.
  induction rows as [|raw rows IH]; intros Hne; simpl; [done|].
  rewrite <- IH by (intros m Hm; apply Hne; by right).
  assert (k <> (RawMessage.id raw, Consumer.name c)) by (apply Hne; by left).
  destruct (foldr _ _ _) as [ds b]. simpl. unfold decode_one.
  repeat case_match; simpl; try done; by apply park_dead_other.
Qed.

(** Each delivery of a claim is one of the picked messages, and its row is
    the leased one. *)
Lemma decode_fold_delivers `{BusMessage M} c tokens rows bus0 (d : Delivery.t M) :
  NoDup (RawMessage.id <$> rows) ->
  d ∈ fst (foldr (decode_one c tokens) ([], bus0) rows) ->
  exists m, m ∈ rows /\ Delivery.message_id d = RawMessage.id m /\
    Delivery.lease_token d = tokens (RawMessage.id m) /\
    of_message (RawMessage.payload m) = Some (Delivery.message d) /\
    Delivery.attempt d = attempt_count_of (RawMessage.id m) (Consumer.name c) bus0 /\
    Bus.deliveries (snd (foldr (decode_one c tokens) ([] : list (Delivery.t M), bus0) rows))
      !! (RawMessage.id m, Consumer.name c) =
    Bus.deliveries bus0 !! (RawMessage.id m, Consumer.name c).
Proof.
  induction rows as [|raw rows IH]; simpl; intros Hnd Hd; [by apply not_elem_of_nil in Hd|].
  apply list.NoDup_cons in Hnd as [Hni Hnd].
  assert (Bus.deliveries (snd (foldr (decode_one c tokens) ([] : list (Delivery.t M), bus0) rows))
    !! (RawMessage.id raw, Consumer.name c) =
    Bus.deliveries bus0 !! (RawMessage.id raw, Consumer.name c)) as Hraw.
  { rewrite decode_fold_other; [done|]. intros m Hm [= Heq]. apply Hni, list_elem_of_fmap. eauto. }
  assert (forall m, m ∈ rows -> (RawMessage.id m, Consumer.name c) <> (RawMessage.id raw, Consumer.name c))
    as Hother. { intros m Hm [= Heq]. apply Hni, list_elem_of_fmap. eauto. }
  destruct (foldr (decode_one c tokens) _ rows) as [ds b]. simpl in *.
  unfold decode_one in *. destruct (_ <? _); simpl in *.
  - destruct IH as (m & Hm & ? & ? & ? & ? & Hrow); [done|done|].
    exists m. split_and!; [by right|done..|]. by rewrite park_dead_other by auto.
  - destruct (of_message (RawMessage.payload raw)) as [msg|] eqn:Hmsg; simpl in *.
    + apply elem_of_cons in Hd as [->|Hd].
      * exists raw. simpl. split_and!; try done; [by left|].
        unfold attempt_count_of. by rewrite Hraw.
      * destruct IH as (m & Hm & ? & ? & ? & ? & Hrow); [done|done|].
        exists m. split_and!; [by right|done..].
    + destruct IH as (m & Hm & ? & ? & ? & ? & Hrow); [done|done|].
      exists m. split_and!; [by right|done..|]. by rewrite park_dead_other by auto.
Qed.

(** *** Publication *)

Lemma find_message_some topic key messages m :
  find_message topic key messages = Some m ->
  (exists k, messages !! k = Some m) /\ RawMessage.topic m = topic /\
  RawMessage.deduplication_key m = key.
Proof.
  unfold find_message. intros ([k m'] & Hf & ->)%fmap_Some.
  apply find_some in Hf as [Hin Hp]. simpl in *. bools.
  apply list_elem_of_In, elem_of_map_to_list in Hin.
  repeat split; [eauto | by apply String.eqb_eq..].
Qed.

Lemma find_message_none topic key messages :
  find_message topic key messages = None ->
  forall k m, messages !! k = Some m -> RawMessage.topic m = topic ->
    RawMessage.deduplication_key m <> key.
Proof.
  unfold find_message. intros Hf%fmap_None k m Hk Ht Hkey.
  assert (In (k, m) (map_to_list messages)) as Hin by (by apply list_elem_of_In, elem_of_map_to_list).
  pose proof (find_none _ _ Hf _ Hin) as Hfalse. simpl in Hfalse.
  rewrite Ht, Hkey, !String.eqb_refl in Hfalse. done.
Qed.

Lemma fan_out_lookup now id topic ds k consumer :
  fan_out now id topic ds !! (k, consumer) =
  if bool_decide (k = id /\ consumer ∈ subscribers topic)
  then Some (DeliveryRow.fresh now) else ds !! (k, consumer).
Proof.
  unfold fan_out. induction (subscribers topic) as [|c cs IH]; simpl.
  - rewrite bool_decide_eq_false_2; [done|]. set_solver.
  - destruct (decide ((id, c) = (k, consumer))) as [[= -> ->]|Hne].
    + rewrite lookup_insert_eq, bool_decide_eq_true_2; [done|]. set_solver.
    + rewrite lookup_insert_ne, IH by done.
      repeat case_bool_decide; try done; exfalso; set_solver.
Qed.

Lemma publish_published `{BusMessage M} payload_hash producer message corr cause id now bus o bus' :
  publish (M := M) payload_hash producer message corr cause id now bus = Ok (o, bus') ->
  (exists k existing, o = Duplicate (RawMessage.id existing) /\ bus' = bus /\
     Bus.messages bus !! k = Some existing /\ RawMessage.topic existing = TOPIC /\
     RawMessage.deduplication_key existing = dedup_key message) \/
  (o = Published id /\ Bus.messages bus !! id = None /\
     find_message TOPIC (dedup_key message) (Bus.messages bus) = None /\
     Bus.messages bus' = <[id := RawMessage.mk id TOPIC (msg_kind message) SCHEMA_VERSION
       (to_message message) (payload_hash (to_message message)) producer (dedup_key message)
       corr cause now]> (Bus.messages bus) /\
     Bus.deliveries bus' = fan_out now id TOPIC (Bus.deliveries bus)).
Proof.
  unfold publish. destruct (find_message _ _ _) as [m|] eqn:Hf.
  - case_bool_decide; intros; inv_ok. left.
    apply find_message_some in Hf as ([k Hk] & ? & ?). naive_solver.
  - destruct (Bus.messages bus !! id) eqn:Hid; simpl; intros; inv_ok. right. done.
Qed.

Lemma publish_wf `{BusMessage M} payload_hash producer message corr cause id now bus o bus' :
  publish (M := M) payload_hash producer message corr cause id now bus = Ok (o, bus') ->
  bus_wf bus ->
  bus_wf bus' /\ Bus.messages bus ⊆ Bus.messages bus' /\
  forall k row, Bus.deliveries bus !! k = Some row -> Bus.deliveries bus' !! k = Some row.
Proof.
  intros Hp Hwf.
  destruct (publish_published _ _ _ _ _ _ _ _ _ _ Hp)
    as [(k & m & -> & -> & _)|(-> & Hid & Hf & Hm & Hd)]; [done|].
  assert (forall k row, Bus.deliveries bus !! k = Some row -> fst k <> id) as Hfresh.
  { intros [k consumer] row Hk. simpl. intros ->.
    destruct (proj1 (wf_fan_out _ Hwf id consumer)) as (m & Hm' & _); [eauto|congruence]. }
  split; [split; rewrite ?Hm, ?Hd|split].
  - intros k m. destruct (decide (k = id)) as [->|].
    + rewrite lookup_insert_eq. by intros [= <-].
    + rewrite lookup_insert_ne by done. apply (wf_id _ Hwf).
  - intros k1 k2 m1 m2 H1 H2 Ht Hk.
    apply lookup_insert_Some in H1 as [[<- <-]|[? H1]]; apply lookup_insert_Some in H2 as [[<- <-]|[? H2]];
      simpl in *; [done| | |by eapply (wf_key _ Hwf)].
    + by destruct (find_message_none _ _ _ Hf _ _ H2).
    + by destruct (find_message_none _ _ _ Hf _ _ H1).
  - intros k consumer. rewrite fan_out_lookup. case_bool_decide as Hc.
    + destruct Hc as [-> Hc]. rewrite lookup_insert_eq. naive_solver.
    + rewrite (wf_fan_out _ Hwf). destruct (decide (k = id)) as [->|].
      * rewrite lookup_insert_eq, Hid. naive_solver.
      * by rewrite lookup_insert_ne by done.
  - intros [k consumer] row. rewrite fan_out_lookup. case_bool_decide.
    + intros [= <-]. unfold row_wf. simpl. naive_solver.
    + apply (wf_row _ Hwf).
  - rewrite Hm. by apply insert_subseteq.
  - intros [k consumer] row Hk. rewrite Hd, fan_out_lookup, bool_decide_eq_false_2; [done|].
    intros [-> _]. by apply (Hfresh _ _ Hk).
Qed.

(** *** All runs of the bus *)

Section Runs.
Context (payload_hash : Message -> B256).

Inductive bus_step (bus : Bus.t) : Bus.t -> Prop :=
| step_publish M (BM : BusMessage M) producer message corr cause id now o bus' :
    publish (M := M) payload_hash producer message corr cause id now bus = Ok (o, bus') ->
    bus_step bus bus'
| step_claim M (BM : BusMessage M) c tokens now :
    bus_step bus (snd (claim (M := M) c tokens now bus))
| step_ack M c (d : Delivery.t M) now bus' : ack c d now bus = Ok bus' -> bus_step bus bus'
| step_fail M c (d : Delivery.t M) error k now : bus_step bus (snd (fail c d error k now bus))
| step_retry_dead c id now : bus_step bus (snd (retry_dead c id now bus)).

Lemma bus_step_kept bus bus' :
  bus_step bus bus' -> bus_wf bus ->
  bus_wf bus' /\ Bus.messages bus ⊆ Bus.messages bus' /\
  forall k row, Bus.deliveries bus !! k = Some row ->
    exists row', Bus.deliveries bus' !! k = Some row' /\ (DeliveryRow.state row = Done -> row' = row).
Proof.
  intros Hstep Hwf.
  assert (rows_related row_moves bus bus' ->
    bus_wf bus' /\ Bus.messages bus ⊆ Bus.messages bus' /\
    forall k row, Bus.deliveries bus !! k = Some row ->
      exists row', Bus.deliveries bus' !! k = Some row' /\ (DeliveryRow.state row = Done -> row' = row))
    as Hmoves.
  { intros Hr. split; [by eapply rows_related_wf|]. destruct Hr as [-> Hr]. split; [done|].
    intros k row Hk. specialize (Hr k). rewrite Hk in Hr.
    inversion Hr as [? row' [_ ?]|]; subst. eauto. }
  destruct Hstep as [M BM producer message corr cause id now o bus' Hp| | | | ].
  - apply publish_wf in Hp as (? & ? & Hrows); [|done]. split_and!; [done..|].
    intros k row Hk. exists row. auto.
  - apply Hmoves, claim_moves.
  - eapply Hmoves, ack_moves; eassumption.
  - apply Hmoves, fail_moves.
  - apply Hmoves, retry_dead_moves.
Qed.

Lemma bus_steps_kept bus bus' :
  rtc bus_step bus bus' -> bus_wf bus ->
  bus_wf bus' /\ Bus.messages bus ⊆ Bus.messages bus' /\
  forall k row, Bus.deliveries bus !! k = Some row ->
    exists row', Bus.deliveries bus' !! k = Some row' /\ (DeliveryRow.state row = Done -> row' = row).
Proof.
  induction 1 as [bus|b1 b2 b3 Hs Hr IH]; intros Hwf; [naive_solver|].
  destruct (bus_step_kept _ _ Hs Hwf) as (Hwf2 & Hsub & Hrows).
  destruct (IH Hwf2) as (Hwf3 & Hsub3 & Hrows3).
  split_and!; [done|by etrans|]. intros k row Hk.
  destruct (Hrows _ _ Hk) as (r2 & Hk2 & Hd2). destruct (Hrows3 _ _ Hk2) as (r3 & Hk3 & Hd3).
  exists r3. split; [done|]. intros HD. rewrite <- (Hd2 HD) in *. rewrite Hd3; [done|].
  by rewrite (Hd2 HD).
Qed.

Lemma bus_wf_empty : bus_wf Bus.empty.
Proof.
  split; simpl; intros; try (rewrite lookup_empty in *; done).
  rewrite lookup_empty. split; [by intros [? ?]|]. intros (m & Hm & _).
  by rewrite lookup_empty in Hm.
Qed.

End Runs.

(** ** Theorems *)

Section Theorems.
Context (payload_hash : Message -> B256).

(** C34. Over every history of publications, claims, acknowledgements,
    failures and operator retries, no message and no delivery is ever lost:
    each published message keeps exactly one delivery row per subscriber of
    its topic, and a delivery that was acknowledged is never touched again. *)
Theorem bus_never_loses bus bus' id m :
  rtc (bus_step payload_hash) Bus.empty bus -> rtc (bus_step payload_hash) bus bus' ->
  Bus.messages bus !! id = Some m ->
  Bus.messages bus' !! id = Some m /\
  (forall consumer, is_Some (Bus.deliveries bus' !! (id, consumer)) <->
     consumer ∈ subscribers (RawMessage.topic m)) /\
  (forall consumer row, Bus.deliveries bus !! (id, consumer) = Some row ->
     DeliveryRow.state row = Done -> Bus.deliveries bus' !! (id, consumer) = Some row).
Proof.
  intros Hr0 Hr Hm.
  destruct (bus_steps_kept _ _ _ Hr0 bus_wf_empty) as (Hwf & _).
  destruct (bus_steps_kept _ _ _ Hr Hwf) as (Hwf' & Hsub & Hrows).
  assert (Bus.messages bus' !! id = Some m) as Hm' by (by eapply lookup_weaken).
  split_and!; [done| |].
  - intros consumer. rewrite (wf_fan_out _ Hwf'), Hm'. naive_solver.
  - intros consumer row Hk HD. destruct (Hrows _ _ Hk) as (row' & Hk' & Heq). by rewrite <- (Heq HD).
Qed.

(** A publication under a fresh key creates one pending delivery
    for each subscriber and nothing else; publishing the same message again in
    any later state of the bus is a no-op that returns the first message's id,
    and a different payload under the same key is refused. *)
Theorem publish_exactly_once `{BusMessage M} producer message corr cause id now bus id' bus' :
  bus_wf bus ->
  publish (M := M) payload_hash producer message corr cause id now bus = Ok (Published id', bus') ->
  (forall k consumer, Bus.deliveries bus' !! (k, consumer) =
      if bool_decide (k = id /\ consumer ∈ subscribers TOPIC)
      then Some (DeliveryRow.fresh now) else Bus.deliveries bus !! (k, consumer)) /\
  forall bus2, rtc (bus_step payload_hash) bus' bus2 ->
    (forall producer2 corr2 cause2 id2 now2,
       publish payload_hash producer2 message corr2 cause2 id2 now2 bus2 = Ok (Duplicate id, bus2)) /\
    (forall message2 producer2 corr2 cause2 id2 now2,
       dedup_key message2 = dedup_key message ->
       payload_hash (to_message message2) <> payload_hash (to_message message) ->
       publish payload_hash producer2 message2 corr2 cause2 id2 now2 bus2 =
       Err (ConflictingPayload id (payload_hash (to_message message))
              (payload_hash (to_message message2)))).
Proof.
  intros Hwf Hp. pose proof (publish_wf _ _ _ _ _ _ _ _ _ _ Hp Hwf) as (Hwf' & _).
  destruct (publish_published _ _ _ _ _ _ _ _ _ _ Hp)
    as [(k & m & Hdup & _)|([= ->] & Hid & Hf & Hm & Hd)]; [discriminate|].
  split; [intros; rewrite Hd; apply fan_out_lookup|].
  intros bus2 Hr. destruct (bus_steps_kept _ _ _ Hr Hwf') as (Hwf2 & Hsub & _).
  set (row := RawMessage.mk _ _ _ _ _ _ _ _ _ _ _) in Hm.
  assert (Bus.messages bus2 !! id = Some row) as Hrow.
  { eapply lookup_weaken; [|exact Hsub]. rewrite Hm. apply lookup_insert_eq. }
  assert (find_message TOPIC (dedup_key message) (Bus.messages bus2) = Some row) as Hfind.
  { destruct (find_message TOPIC (dedup_key message) (Bus.messages bus2)) as [m|] eqn:Hm2.
    - apply find_message_some in Hm2 as ([k Hk] & Ht & Hkey).
      assert (k = id) as -> by (by eapply (wf_key _ Hwf2)). congruence.
    - by destruct (find_message_none _ _ _ Hm2 _ _ Hrow). }
  split.
  - intros. unfold publish. rewrite Hfind. simpl. by rewrite bool_decide_eq_true_2.
  - intros message2 ? ? ? ? ? Hkey Hne. unfold publish. rewrite Hkey, Hfind. simpl.
    by rewrite bool_decide_eq_false_2 by congruence.
Qed.

End Theorems.

Lemma live_lease_unclaimable until now row :
  DeliveryRow.leased_until row = Some until -> now <= until -> claimable now row = false.
Proof.
  unfold claimable. intros -> Hle. destruct (Z.ltb_spec until now); [lia|]. by rewrite andb_false_r.
Qed.

(** A row that is not claimable is neither leased nor returned by a claim. *)
Lemma claim_skips `{BusMessage M} c tokens now bus k row :
  bus_wf bus -> Bus.deliveries bus !! k = Some row -> claimable now row = false ->
  Bus.deliveries (snd (claim (M := M) c tokens now bus)) !! k = Some row /\
  forall d, d ∈ fst (claim (M := M) c tokens now bus) -> (Delivery.message_id d, Consumer.name c) <> k.
Proof.
  intros Hwf Hk Hc.
  assert (forall m, m ∈ picked c TOPIC now bus -> k <> (RawMessage.id m, Consumer.name c)) as Hne.
  { intros m (_ & _ & row' & Hr & Hc')%picked_claimable ->. congruence. }
  unfold claim. split.
  - rewrite decode_fold_other by done. simpl snd. by rewrite lease_picked_other.
  - intros d (m & Hm & -> & _)%decode_fold_delivers; [|by apply picked_nodup].
    intros Heq. by apply (Hne m).
Qed.

(** Every delivery a claim returns was pending, available and
    under no live lease; its row now carries the delivery's token until the
    lease ends, with one more attempt counted; and until that moment no claim
    by anyone touches the row or returns that delivery again. *)
Theorem claim_leases_exclusively `{BusMessage M} c tokens now bus (d : Delivery.t M) :
  bus_wf bus -> d ∈ fst (claim c tokens now bus) ->
  let until := now + interval (ConsumerOptions.lease (Consumer.options c)) in
  let key := (Delivery.message_id d, Consumer.name c) in
  exists row row',
    Bus.deliveries bus !! key = Some row /\ claimable now row = true /\
    Bus.deliveries (snd (claim (M := M) c tokens now bus)) !! key = Some row' /\
    holds_lease (Delivery.lease_token d) row' = true /\
    DeliveryRow.leased_until row' = Some until /\
    DeliveryRow.attempt_count row' = DeliveryRow.attempt_count row + 1 /\
    Delivery.attempt d = DeliveryRow.attempt_count row' /\
    forall (M2 : Type) (B2 : BusMessage M2) c2 tokens2 now2 bus2,
      bus_wf bus2 -> Bus.deliveries bus2 !! key = Some row' -> now2 <= until ->
      Bus.deliveries (snd (claim (M := M2) c2 tokens2 now2 bus2)) !! key = Some row' /\
      forall d2 : Delivery.t M2, d2 ∈ fst (claim c2 tokens2 now2 bus2) ->
        (Delivery.message_id d2, Consumer.name c2) <> key.
Proof.
  intros Hwf Hd until key. pose proof (picked_nodup c TOPIC now bus Hwf) as Hnd.
  unfold claim in Hd.
  apply decode_fold_delivers in Hd as (m & Hm & Hid & Htok & _ & Hatt & Hrow); [|done].
  destruct (picked_claimable _ _ _ _ _ Hm) as (_ & _ & row & Hrow0 & Hc).
  pose proof (lease_picked_one c tokens now _ bus m row Hnd Hm Hrow0) as Hl.
  assert (DeliveryRow.state row = Pending) as Hpend by (unfold claimable in Hc; by bools).
  unfold key. rewrite Hid.
  exists row, (lease_row c (tokens (RawMessage.id m)) now row).
  assert (holds_lease (tokens (RawMessage.id m)) (lease_row c (tokens (RawMessage.id m)) now row) = true)
    as Hlease by (unfold holds_lease, lease_row; simpl; by rewrite Hpend, !bool_decide_eq_true_2).
  split_and!; [done|done|by unfold claim; rewrite Hrow|by rewrite Htok|done|done| |].
  - rewrite Hatt. unfold attempt_count_of. by rewrite Hl.
  - intros M2 B2 c2 tokens2 now2 bus2 Hwf2 Hk2 Hle.
    apply claim_skips; [done|done|by eapply live_lease_unclaimable].
Qed.

Section HandlingTheorems.
Context {S : Type} `{HasBus S} {M : Type} `{BusMessage M}.

(** A handler writes its own tables and publishes; it does not touch rows of
    deliveries that exist. *)
Definition keeps_deliveries (handler : Handler (S := S) (M := M)) : Prop :=
  forall now d s s' k row, handler now d s = Ok s' ->
    Bus.deliveries (bus_of s) !! k = Some row -> Bus.deliveries (bus_of s') !! k = Some row.

Lemma fail_lost c (d : Delivery.t M) error k now bus :
  (forall row, Bus.deliveries bus !! (Delivery.message_id d, Consumer.name c) = Some row ->
     holds_lease (Delivery.lease_token d) row = false) ->
  snd (fail c d error k now bus) = bus.
Proof.
  intros Hno.
  assert (forall f, fst (update_leased (Delivery.message_id d) (Consumer.name c)
            (Delivery.lease_token d) f bus) = false) as Hf.
  { intros f. apply not_true_iff_false. rewrite update_leased_fst.
    intros (row & Hk & Hl). rewrite (Hno _ Hk) in Hl. done. }
  unfold fail. destruct (is_permanent error || _); simpl.
  - by apply update_leased_false.
  - match goal with |- context [update_leased ?a ?b ?t ?f bus] =>
      specialize (Hf f); pose proof (update_leased_false a b t f bus Hf) as Hb;
      destruct (update_leased a b t f bus) end. done.
Qed.

Lemma fail_other c (d : Delivery.t M) error k now bus k' :
  k' <> (Delivery.message_id d, Consumer.name c) ->
  Bus.deliveries (snd (fail c d error k now bus)) !! k' = Bus.deliveries bus !! k'.
Proof.
  intros Hne. unfold fail. destruct (is_permanent error || _); simpl; [by apply park_dead_other|].
  match goal with |- context [update_leased ?a ?b ?t ?f ?bu] =>
    pose proof (update_leased_lookup a b t f bu k') as Hlk; destruct (update_leased a b t f bu) end.
  simpl in *. rewrite Hlk, bool_decide_eq_false_2 by done. apply option_fmap_id.
Qed.

Lemma fail_rolls_back c (d : Delivery.t M) error k now (s : S) :
  let key := (Delivery.message_id d, Consumer.name c) in
  let s' := set_bus (snd (fail c d error k now (bus_of s))) s in
  s' = set_bus (bus_of s') s /\
  Bus.messages (bus_of s') = Bus.messages (bus_of s) /\
  (forall k', k' <> key -> Bus.deliveries (bus_of s') !! k' = Bus.deliveries (bus_of s) !! k') /\
  (~ (exists row, Bus.deliveries (bus_of s) !! key = Some row /\
       holds_lease (Delivery.lease_token d) row = true) -> s' = s).
Proof.
  intros key s'. unfold s'. rewrite !bus_of_set_bus. split_and!; [done| | |].
  - apply (fail_moves c d error k now (bus_of s)).
  - intros k' Hne. by apply fail_other.
  - intros Hno. rewrite fail_lost, set_bus_bus_of; [done|].
    intros row Hrow. apply not_true_iff_false. intros Hl. apply Hno. by exists row.
Qed.

Lemma ack_lookup c (d : Delivery.t M) now bus bus' :
  ack c d now bus = Ok bus' ->
  exists row, Bus.deliveries bus !! (Delivery.message_id d, Consumer.name c) = Some row /\
    holds_lease (Delivery.lease_token d) row = true /\
    Bus.deliveries bus' !! (Delivery.message_id d, Consumer.name c) =
    Some {| row with
       DeliveryRow.state := Done;
       DeliveryRow.done_at := Some now;
       DeliveryRow.lease_token := None;
       DeliveryRow.leased_until := None;
       DeliveryRow.last_error := None |}.
Proof.
  unfold ack. destruct (update_leased _ _ _ _ bus) as [[] b] eqn:Hu; [|discriminate].
  intros [= <-]. pose proof (f_equal fst Hu) as Hu1.
  apply update_leased_fst in Hu1 as (row & Hrow & Hl). exists row. split_and!; [done..|].
  change b with (snd (true, b)). rewrite <- Hu, update_leased_lookup, Hrow. simpl.
  by rewrite bool_decide_eq_true_2, Hl.
Qed.

(** Handling a delivery is atomic and happens at most once: it
    reports success exactly when the handler's writes and the acknowledgement
    are both in the new state, which needs the delivery's own live lease; in
    every other case none of the handler's writes is in the new state, and a
    delivery whose lease is gone (acknowledged, parked or re-leased) leaves the
    state entirely unchanged. *)
Theorem handle_one_atomic c (handler : Handler (S := S) (M := M)) d k now s :
  keeps_deliveries handler ->
  let key := (Delivery.message_id d, Consumer.name c) in
  let leased := exists row, Bus.deliveries (bus_of s) !! key = Some row /\
                            holds_lease (Delivery.lease_token d) row = true in
  match handle_one c handler d k now s with
  | (HandledDone _, s') =>
      exists s1 row', handler now d s = Ok s1 /\ s' = set_bus (bus_of s') s1 /\
        Bus.deliveries (bus_of s') !! key = Some row' /\ DeliveryRow.state row' = Done /\
        (is_Some (Bus.deliveries (bus_of s) !! key) -> leased)
  | (HandledFailed _ _ _, s') =>
      s' = set_bus (bus_of s') s /\
      Bus.messages (bus_of s') = Bus.messages (bus_of s) /\
      (forall k', k' <> key -> Bus.deliveries (bus_of s') !! k' = Bus.deliveries (bus_of s) !! k') /\
      (~ leased -> s' = s)
  end.
Proof.
  intros Hkeep key leased. unfold handle_one, handle_and_ack.
  destruct (handler now d s) as [s1|e] eqn:Hh; [simpl; destruct (ack c d now _) eqn:Hack|]; simpl.
  { apply ack_lookup in Hack as (row & Hrow & Hl & Hrow'). exists s1.
    rewrite bus_of_set_bus. eexists. split_and!; [done..|].
    intros [row0 Hrow0]. exists row0. split; [done|].
    apply (Hkeep _ _ _ _ _ _ Hh) in Hrow0. unfold key in Hrow0. congruence. }
  all: rewrite (surjective_pairing (fail _ _ _ _ _ _)); apply fail_rolls_back.
Qed.

End HandlingTheorems.

Section FailureTheorems.
Context {M : Type}.

Lemma fail_row c (d : Delivery.t M) error k now bus row :
  Bus.deliveries bus !! (Delivery.message_id d, Consumer.name c) = Some row ->
  holds_lease (Delivery.lease_token d) row = true ->
  let dead := is_permanent error ||
              (ConsumerOptions.max_attempts (Consumer.options c) <=? Delivery.attempt d) in
  let at_ := now + interval (delay (ConsumerOptions.backoff (Consumer.options c)) (Delivery.attempt d) k) in
  fst (fail c d error k now bus) = (if dead then DispositionDead else Retry at_) /\
  exists row', Bus.deliveries (snd (fail c d error k now bus)) !!
      (Delivery.message_id d, Consumer.name c) = Some row' /\
    DeliveryRow.state row' = (if dead then Dead else Pending) /\
    DeliveryRow.leased_until row' = None /\
    DeliveryRow.attempt_count row' = DeliveryRow.attempt_count row /\
    (dead = false -> DeliveryRow.available_at row' = at_).
Proof.
  intros Hrow Hl dead at_. unfold fail. fold dead. fold at_.
  assert (DeliveryRow.state row = Pending) by (unfold holds_lease in Hl; by bools).
  destruct dead; simpl; unfold park_dead;
    match goal with |- context [update_leased ?a ?b ?t ?f ?bu] =>
      pose proof (update_leased_lookup a b t f bu (a, b)) as Hlk;
      pose proof (proj2 (update_leased_fst a b t f bu) (ex_intro _ row (conj Hrow Hl))) as Hfst;
      destruct (update_leased a b t f bu) as [[] b'] end;
    simpl in *; try done; rewrite Hrow in Hlk; simpl in Hlk;
    rewrite bool_decide_eq_true_2, Hl in Hlk by done; simpl in Hlk; naive_solver.
Qed.

Lemma fail_answer_lost c (d : Delivery.t M) error k now bus :
  (forall row, Bus.deliveries bus !! (Delivery.message_id d, Consumer.name c) = Some row ->
     holds_lease (Delivery.lease_token d) row = false) ->
  fst (fail c d error k now bus) =
    if is_permanent error || (ConsumerOptions.max_attempts (Consumer.options c) <=? Delivery.attempt d)
    then DispositionDead else Retry now.
Proof.
  intros Hno. unfold fail. destruct (is_permanent error || _); [done|].
  match goal with |- context [update_leased ?a ?b ?t ?f bus] =>
    assert (fst (update_leased a b t f bus) = false) as Hf;
      [|destruct (update_leased a b t f bus) as [[] ?]; done] end.
  apply not_true_iff_false. rewrite update_leased_fst.
  intros (row & Hk & Hl). rewrite (Hno _ Hk) in Hl. done.
Qed.

(** What a row no longer under this delivery's lease looks like to [fail]. *)
Lemma lease_gone (token : Uuid) (row : DeliveryRow.t) :
  ~ (DeliveryRow.lease_token row = Some token /\ DeliveryRow.state row = Pending) <->
  holds_lease token row = false.
Proof.
  unfold holds_lease. rewrite <- not_true_iff_false, andb_true_iff, !bool_decide_eq_true. done.
Qed.

Lemma dead_requeued c id now bus row :
  Bus.deliveries bus !! (id, Consumer.name c) = Some row -> DeliveryRow.state row = Dead ->
  DeliveryRow.leased_until row = None ->
  fst (retry_dead c id now bus) = true /\
  exists row', Bus.deliveries (snd (retry_dead c id now bus)) !! (id, Consumer.name c) = Some row' /\
    claimable now row' = true.
Proof.
  intros Hrow Hd Hu. unfold retry_dead. rewrite Hrow, bool_decide_eq_true_2 by done. simpl.
  split; [done|]. rewrite lookup_insert_eq. eexists. split; [done|].
  unfold claimable. simpl. rewrite Z.leb_refl, Hu. done.
Qed.

(** C39. What becomes of a failed attempt. While the failing consumer holds
    the delivery's lease, a permanent error or an exhausted attempt budget
    parks the row as dead: no claim picks it up at any later time, until an
    operator requeues it, after which it is claimable at once. Any other
    failure releases the row for a retry no earlier than now and no later than
    the backoff cap from now, and it is claimable exactly from then on. A
    consumer whose lease is gone (expired and claimed again, acknowledged or
    parked) is told dead or retry now by the same rule, and changes nothing. *)
Theorem fail_parks_or_reschedules c (d : Delivery.t M) error k now bus :
  let id := Delivery.message_id d in
  let key := (id, Consumer.name c) in
  let policy := ConsumerOptions.backoff (Consumer.options c) in
  let leased row := DeliveryRow.lease_token row = Some (Delivery.lease_token d) /\
                    DeliveryRow.state row = Pending in
  let '(answer, bus') := fail c d error k now bus in
  0 <= BackoffPolicy.base policy -> 0 <= BackoffPolicy.cap policy <= 2 ^ 53 * 10 ^ 6 ->
  ((exists at_, answer = Retry at_) <->
     ~ (exists what, error = Permanent what) /\
     Delivery.attempt d < ConsumerOptions.max_attempts (Consumer.options c)) /\
  (forall row, Bus.deliveries bus !! key = Some row -> leased row ->
     exists row', Bus.deliveries bus' !! key = Some row' /\
     match answer with
     | DispositionDead =>
         DeliveryRow.state row' = Dead /\ (forall later, claimable later row' = false) /\
         forall later, fst (retry_dead c id later bus') = true /\
           exists row'', Bus.deliveries (snd (retry_dead c id later bus')) !! key = Some row'' /\
             claimable later row'' = true
     | Retry at_ =>
         DeliveryRow.state row' = Pending /\
         now <= at_ <= now + BackoffPolicy.cap policy / 1000 /\
         forall later, claimable later row' = true <-> at_ <= later
     end) /\
  ((forall row, Bus.deliveries bus !! key = Some row -> ~ leased row) ->
     bus' = bus /\ forall at_, answer = Retry at_ -> at_ = now).
Proof.
  intros id key policy leased. destruct (fail c d error k now bus) as [answer bus'] eqn:Hfail. intros Hb Hc.
  set (spent := is_permanent error || (ConsumerOptions.max_attempts (Consumer.options c) <=? Delivery.attempt d)).
  assert (Hspent : spent = false <-> ~ (exists what, error = Permanent what) /\
            Delivery.attempt d < ConsumerOptions.max_attempts (Consumer.options c)).
  { unfold spent. rewrite orb_false_iff, Z.leb_gt. destruct error; simpl; naive_solver. }
  split_and!.
  - rewrite <- Hspent. revert Hfail. unfold fail. fold spent. destruct spent; simpl.
    + intros [= <- <-]. naive_solver.
    + destruct (update_leased _ _ _ _ _). intros [= <- <-]. naive_solver.
  - intros row Hrow [Ht Hp].
    assert (holds_lease (Delivery.lease_token d) row = true) as Hl.
    { unfold holds_lease. by rewrite !bool_decide_eq_true_2. }
    destruct (fail_row c d error k now bus row Hrow Hl) as (Ha & row' & Hk & Hs & Hu & _ & Hat).
    rewrite Hfail in Ha, Hk. fold spent in Ha, Hs, Hat. simpl in Ha, Hk. exists row'. split; [done|].
    destruct spent; subst answer; unfold claimable at 1.
    + split_and!; [done|intros; by rewrite Hs|]. intros later. by apply (dead_requeued c id later bus' row').
    + rewrite Hs, Hu, (Hat eq_refl). fold policy.
      pose proof (delay_bounds policy (Delivery.attempt d) k Hb Hc) as Hdel. unfold interval.
      pose proof (Z.div_pos (delay policy (Delivery.attempt d) k) 1000).
      pose proof (Z.div_le_mono _ _ 1000 ltac:(lia) (proj2 Hdel)).
      split_and!; [done|lia|lia|]. intros later.
      rewrite bool_decide_eq_true_2, andb_true_r by done. apply Z.leb_le.
  - intros Hno.
    assert (forall row, Bus.deliveries bus !! key = Some row ->
              holds_lease (Delivery.lease_token d) row = false) as Hlost
      by (intros row Hrow; by apply lease_gone, Hno).
    pose proof (fail_lost c d error k now bus Hlost) as H1.
    pose proof (fail_answer_lost c d error k now bus Hlost) as H2.
    rewrite Hfail in H1, H2. simpl in H1, H2. split; [done|]. intros at_ ->.
    fold spent in H2. destruct spent; congruence.
Qed.

End FailureTheorems.

(** ** The theorems at work

    One command is published, claimed by [gum-signers] and handled. *)

Module BusExample.

Definition hash (m : Message) : B256 :=
  match m with
  | MCommand c => [Z.of_nat (length (match c with SweepBatch b => SweepBatchCommand.items b | _ => [] end))]
  | _ => []
  end.
Definition command : ExecutionCommand := SweepBatch (SweepBatchCommand.mk 7 1 []).
Definition signers : Consumer.t := Consumer.mk "gum-signers" ConsumerOptions.default.
Definition tokens (id : Uuid) : Uuid := id + 1000.

Definition published : Bus.t :=
  match publish hash "gum-server" command 5 None 100 0 Bus.empty with
  | Ok (_, bus) => bus
  | Err _ => Bus.empty
  end.

Definition leased : Bus.t := snd (claim (M := ExecutionCommand) signers tokens 10 published).

Definition delivery : Delivery.t ExecutionCommand :=
  Delivery.mk 100 command "sweep_batch" 5 None 0 1 1100.

Definition nothing_to_do (now : Timestamp) (d : Delivery.t ExecutionCommand) (bus : Bus.t)
  : result HandlerError Bus.t := Ok bus.

Lemma published_ok : publish hash "gum-server" command 5 None 100 0 Bus.empty = Ok (Published 100, published).
Proof. vm_compute. reflexivity. Qed.

Lemma published_run : rtc (bus_step hash) Bus.empty published.
Proof. eapply rtc_once, (step_publish hash Bus.empty ExecutionCommand), published_ok. Qed.

Lemma leased_run : rtc (bus_step hash) published leased.
Proof. apply rtc_once, (step_claim hash published ExecutionCommand). Qed.

Lemma leased_row : exists row, Bus.deliveries leased !! (100, "gum-signers") = Some row /\
  holds_lease 1100 row = true.
Proof. vm_compute. eauto. Qed.

End BusExample.

Lemma bus_never_loses_witness : exists m,
  Bus.messages BusExample.leased !! 100 = Some m /\
  (forall consumer, is_Some (Bus.deliveries BusExample.leased !! (100, consumer)) <->
     consumer ∈ subscribers (RawMessage.topic m)).
Proof.
  eexists.
  destruct (bus_never_loses BusExample.hash BusExample.published BusExample.leased 100 _
              BusExample.published_run BusExample.leased_run eq_refl) as (H1 & H2 & _).
  split; [exact H1 | exact H2].
Defined.

Lemma publish_exactly_once_witness :
  publish BusExample.hash "gum-server" BusExample.command 6 None 101 20 BusExample.leased =
    Ok (Duplicate 100, BusExample.leased) /\
  publish BusExample.hash "gum-server"
    (SweepBatch (SweepBatchCommand.mk 7 1
       [SweepItem.mk 1 [] Usdc [] 1 [] 0 [] [] Open false None])) 6 None 101 20 BusExample.leased =
    Err (ConflictingPayload 100 [0] [1]).
Proof.
  destruct (publish_exactly_once BusExample.hash "gum-server" BusExample.command 5 None 100 0 Bus.empty
              100 BusExample.published bus_wf_empty BusExample.published_ok) as [_ H].
  destruct (H BusExample.leased BusExample.leased_run) as [H1 H2].
  split; [apply H1 | apply H2; [reflexivity | discriminate]].
Defined.

Lemma claim_leases_exclusively_witness :
  exists row', Bus.deliveries BusExample.leased !! (100, "gum-signers") = Some row' /\
    Delivery.attempt BusExample.delivery = DeliveryRow.attempt_count row'.
Proof.
  destruct (bus_steps_kept _ _ _ BusExample.published_run bus_wf_empty) as (Hwf & _).
  destruct (claim_leases_exclusively BusExample.signers BusExample.tokens 10 BusExample.published
              BusExample.delivery Hwf) as (row & row' & _ & _ & H & _ & _ & _ & Ha & _).
  - vm_compute. left.
  - exists row'. split; [exact H | exact Ha].
Defined.

Lemma handle_one_atomic_witness :
  exists row', Bus.deliveries
      (snd (handle_one BusExample.signers BusExample.nothing_to_do BusExample.delivery 0 20
              BusExample.leased)) !! (100, "gum-signers") = Some row' /\
    DeliveryRow.state row' = Done.
Proof.
  pose proof (handle_one_atomic BusExample.signers BusExample.nothing_to_do BusExample.delivery 0 20
                BusExample.leased) as H.
  assert (keeps_deliveries BusExample.nothing_to_do) as Hk.
  { intros now d s s' k row [= <-] Hr. exact Hr. }
  specialize (H Hk). vm_compute in H. destruct H as (s1 & row' & _ & _ & H & Hd & _).
  vm_compute. eexists. split; [reflexivity|].
  injection H as <-. exact Hd.
Defined.

Lemma fail_parks_or_reschedules_witness :
  (exists row', Bus.deliveries (snd (fail BusExample.signers BusExample.delivery (Permanent "bad") 0 20
      BusExample.leased)) !! (100, "gum-signers") = Some row' /\ DeliveryRow.state row' = Dead) /\
  snd (fail BusExample.signers BusExample.delivery (Permanent "bad") 0 20 BusExample.published)
    = BusExample.published.
Proof.
  split.
  - pose proof (fail_parks_or_reschedules BusExample.signers BusExample.delivery (Permanent "bad") 0 20
                  BusExample.leased) as H.
    destruct BusExample.leased_row as (row & Hrow & Hl).
    cbn beta zeta in H. destruct (fail _ _ _ _ _ _) as [answer bus'] eqn:E in H.
    destruct H as (_ & H & _); [vm_compute; discriminate|vm_compute; split; discriminate|].
    destruct (H row Hrow) as (row' & Hk & Hd).
    + unfold holds_lease in Hl. bools. split; assumption.
    + vm_compute in E. injection E as <- <-. exists row'. split; [exact Hk|]. apply Hd.
  - pose proof (fail_parks_or_reschedules BusExample.signers BusExample.delivery (Permanent "bad") 0 20
                  BusExample.published) as H.
    cbn beta zeta in H. destruct (fail _ _ _ _ _ _) as [answer bus'] eqn:E in H.
    destruct H as (_ & _ & H); [vm_compute; discriminate|vm_compute; split; discriminate|].
    rewrite E. apply H. intros row Hrow. vm_compute in Hrow. injection Hrow as <-. intros [? _]. discriminate.
Defined.
