(* ===== verification/Tables.v ===== *)
(** * gum-ledger: the rows of the ledger's tables

    The row types of [crates/gum-ledger/src] and the state [Db.t] they live
    in: one finite map per table, keyed by the table's primary or unique key.
    A TEXT column that holds a decimal numeral is a number, a TEXT column
    under an enumerating CHECK is the enumeration, a TIMESTAMPTZ is its
    number of microseconds.

    The columns of [invoices] come in three groups, as the trigger
    [reject_invoice_issuance_mutation] treats them: the issuance columns, which
    no UPDATE may change; the binding columns, which are set once, together;
    and the lifecycle columns. *)

From S2P Require Import Prelude Core Contracts Bus.

(** ** The issuance snapshot ([gum-core], [attribution.rs]) *)

Module Party.
Record t := mk { name : string; email : option string; details : option string }.
End Party.

Module PayerVerification.
Record t := mk {
  email : option string;
  merchant_auth : option string;
  wallet_attestation : bool;
}.
Definition expected_email (v : t) : option string := email v.
Definition payer_reference (v : t) : option string := merchant_auth v.
End PayerVerification.

Module AttachmentCommitment.
Record t := mk { id : Uuid; byte_length : string; sha256 : string }.
End AttachmentCommitment.

Module SnapshotNetwork.
Record t := mk { chain_id : string; token_address : string; factory_address : string }.
End SnapshotNetwork.

Module Snapshot.
Record t := mk {
  schema : string;
  canonicalization : string;
  issuer : Party.t;
  bill_to : Party.t;
  currency : string;
  decimals : string;
  amount_base_units : string;
  notes : option string;
  heading : option string;
  reference : option string;
  expiration_timestamp : string;
  payer_verification : PayerVerification.t;
  attachment : option AttachmentCommitment.t;
  networks : list SnapshotNetwork.t;
  receiver_address : string;
  recovery_address : string;
}.
End Snapshot.

Module NetworkTerms.
Record t := mk { chain_id : Z; token : Address; factory : Address }.
End NetworkTerms.

#[export] Instance Party_eq_dec : EqDecision Party.t.
Proof. solve_decision. Defined.
#[export] Instance PayerVerification_eq_dec : EqDecision PayerVerification.t.
Proof. solve_decision. Defined.
#[export] Instance AttachmentCommitment_eq_dec : EqDecision AttachmentCommitment.t.
Proof. solve_decision. Defined.
#[export] Instance SnapshotNetwork_eq_dec : EqDecision SnapshotNetwork.t.
Proof. solve_decision. Defined.

(** A JSON value, by its canonical text. *)
Abbreviation Json := string (only parsing).

(** ** Invoices *)

(** The columns fixed at issuance. *)
Module Issuance.
Record t := mk {
  id : Uuid;
  account_id : Uuid;
  idempotency_key : string;
  currency : string;
  token_decimals : Z;
  beneficiary_address : Address;
  expiration_timestamp : Z;
  expires_in_secs : Z;
  expiration_intent : string;
  amount : Z;
  recovery_address : Address;
  created_at : Timestamp;
  reference : option string;
  metadata : Json;
  fee_amount : Z;
  net_amount : Z;
  customer_id : option Uuid;
  issuer_id : option string;
  issuer : option Party.t;
  bill_to : option Party.t;
  notes : option string;
  heading : option string;
  expected_email : option string;
  payer_reference : option string;
  wallet_attestation_required : bool;
  issuance_snapshot : Snapshot.t;
  attribution_version : Z;
  attribution_hash : B256;
  issuance_nonce : B256;
}.
End Issuance.

(** The columns of the payer's binding. *)
Module Binding.
Record t := mk {
  chain_id : option Z;
  factory_address : option Address;
  token_address : option Address;
  payer_wallet : option Address;
  payer_attestation : option Json;
  wallet_bound_at : option Timestamp;
  salt : option B256;
  payment_address : option Address;
  ready_at : option Timestamp;
}.
Definition unbound : t := mk None None None None None None None None None.
End Binding.

Module DbInvoice.
Record t := mk {
  issuance : Issuance.t;
  binding : Binding.t;
  status : InvoiceStatus;
  updated_at : Timestamp;
  funded_at_block : option Z;
  funded_at_block_hash : option B256;
  observed_amount : option Z;
  confirmed_received : Z;
  sweep_job_id : option Uuid;
  drained_at_block : option Z;
  drained_at_transaction_index : option Z;
  uncollected_count : Z;
  execute_tx_hash : option B256;
  resolved_at_block : option Z;
  settled_at : option Timestamp;
  sweep_attempts : Z;
  last_attempt_at : option Timestamp;
  attention_reason : option string;
  cancellation_requested_at : option Timestamp;
  paid_at : option Timestamp;
  expired_at : option Timestamp;
  settlement_tx_hash : option B256;
  settlement_transaction_index : option Z;
  verification_completed_at : option Timestamp;
  likely_unsolicited_at : option Timestamp;
}.

Definition id (r : t) : Uuid := Issuance.id (issuance r).
Definition account_id (r : t) : Uuid := Issuance.account_id (issuance r).
Definition amount (r : t) : Z := Issuance.amount (issuance r).
Definition expiration_timestamp (r : t) : Z := Issuance.expiration_timestamp (issuance r).
Definition chain_id (r : t) : option Z := Binding.chain_id (binding r).
Definition token_address (r : t) : option Address := Binding.token_address (binding r).
Definition payment_address (r : t) : option Address := Binding.payment_address (binding r).
Definition payer_wallet (r : t) : option Address := Binding.payer_wallet (binding r).

(** [row.drained_at_block.zip(row.drained_at_transaction_index)]. *)
Definition drained_at (r : t) : option position :=
  option_zip (drained_at_block r) (drained_at_transaction_index r).

(** [row.resolved_at_block.zip(row.settlement_transaction_index)]. *)
Definition settlement_at (r : t) : option position :=
  option_zip (resolved_at_block r) (settlement_transaction_index r).

(** The column defaults of a freshly issued row. *)
Definition fresh (iss : Issuance.t) (b : Binding.t) (now : Timestamp) : t :=
  mk iss b Created now None None None 0 None None None 0 None None None 0 None None None None
     None None None None None.
End DbInvoice.

(** ** Observations, jobs and the rest *)

Inductive TransferDisposition := Credited | Late | Error.

#[export] Instance TransferDisposition_eq_dec : EqDecision TransferDisposition.
Proof. solve_decision. Defined.

(** [PRIMARY KEY (chain_id, token_address, transaction_hash, log_index)]. *)
Abbreviation ObservationKey := (Z * list Z * list Z * Z)%type (only parsing).

Module Observation.
Record t := mk {
  invoice_id : Uuid;
  block_number : Z;
  block_hash : B256;
  block_timestamp : Z;
  transaction_index : Z;
  sender_address : Address;
  recipient_address : Address;
  amount : Z;
  disposition : TransferDisposition;
  disposition_reason : option string;
  collected_at : option position;
  relay_intent_id : option Uuid;
  relay_parked_at : option Timestamp;
  observed_at : Timestamp;
}.
Definition at_ (o : t) : position := (block_number o, transaction_index o).
Definition is_error (o : t) : bool := bool_decide (disposition o = Error).
Definition is_credited (o : t) : bool := bool_decide (disposition o = Credited).
End Observation.

(** The JSON kept on a job that closed without effect. *)
Inductive ResolutionDetail :=
| DetailAbandoned (reason : AbandonReason)
| DetailRejected (reason : string).

Module SweepJob.
Record t := mk {
  chain_id : Z;
  correlation_id : Uuid;
  created_at : Timestamp;
  submitted_tx_hash : option B256;
  submitted_at : option Timestamp;
  resolution : option string;
  resolved_at : option Timestamp;
  resolution_detail : option ResolutionDetail;
}.
Definition is_open (j : t) : bool := negb (is_some (resolved_at j)).
End SweepJob.

Module SweepJobItem.
Record t := mk {
  attempt : Z;
  outcome : option string;
  outcome_detail : option SweepItemOutcome;
}.
End SweepJobItem.

Module RecoveredRow.
Record t := mk {
  chain_id : option Z;
  token_address : option Address;
  block_number : Z;
  amount : Z;
  recovered_at : Timestamp;
}.
End RecoveredRow.

Module CursorRow.
Record t := mk { last_block : Z; last_block_hash : B256; last_block_timestamp : option Z; updated_at : Timestamp }.
End CursorRow.

Module StatusRow.
Record t := mk { finalized_block : Z; finalized_block_hash : B256; finalized_block_timestamp : Z }.
End StatusRow.

Module ChainFault.
Record t := mk {
  chain_id : Z;
  reason : string;
  block : option Z;
  raised_at : Timestamp;
  cleared_at : option Timestamp;
}.
Definition is_open_on (chain : Z) (f : t) : bool :=
  (chain_id f =? chain) && negb (is_some (cleared_at f)).
End ChainFault.

Inductive RelayStatus := Quoted | Sent | Filled | RelayFailed | Refunded | RelayExpired.

#[export] Instance RelayStatus_eq_dec : EqDecision RelayStatus.
Proof. solve_decision. Defined.

(** A cross-chain payment through Relay, one row per quote. *)
Module RelayIntent.
Record t := mk {
  invoice_id : Uuid;
  request_id : bytes;
  origin_chain_id : Z;
  destination_chain_id : Z;
  origin_currency : bytes;
  payer_wallet : bytes;
  quoted_in_amount : Z;
  quoted_out_amount : Z;
  status : RelayStatus;
  origin_tx_hash : option bytes;
  verified_origin_tx_hash : option bytes;
  fill_tx_hashes : list B256;
  relay_status : option string;
  attribution_source : option string;
  next_check_at : option Timestamp;
  created_at : Timestamp;
  sent_at : option Timestamp;
  resolved_at : option Timestamp;
  expires_at : Timestamp;
}.
End RelayIntent.

Module OutboxRow.
Record t := mk {
  account_id : Uuid;
  invoice_id : Uuid;
  recipient : string;
  reason : string;
  email : option string;
}.
End OutboxRow.

(** ** Attachments and payer sessions *)

Inductive AttachmentStatus := PendingUpload | Scanning | Ready | Rejected | Attached.

#[export] Instance AttachmentStatus_eq_dec : EqDecision AttachmentStatus.
Proof. solve_decision. Defined.

Module DbAttachment.
Record t := mk {
  id : Uuid;
  account_id : Uuid;
  invoice_id : option Uuid;
  object_key : string;
  original_filename : string;
  mime_type : string;
  byte_length : option Z;
  sha256 : option bytes;
  version_id : option string;
  status : AttachmentStatus;
  scan_result : option string;
  created_at : Timestamp;
  finalized_at : option Timestamp;
  attached_at : option Timestamp;
}.
End DbAttachment.

(** [payer_sessions.purpose]. *)
Inductive Purpose := ForPayer | MerchantPreview.

#[export] Instance Purpose_eq_dec : EqDecision Purpose.
Proof. solve_decision. Defined.

(** [payer_sessions]: of the bearer token only its hash is kept. *)
Module PayerSession.
Record t := mk {
  token_hash : B256;
  invoice_id : Uuid;
  purpose : Purpose;
  payer_ref : option B256;
  email_verified_at : option Timestamp;
  merchant_session_verified_at : option Timestamp;
  wallet_nonce : option B256;
  wallet_nonce_expires_at : option Timestamp;
  wallet_nonce_chain_id : option Z;
  created_at : Timestamp;
  expires_at : Timestamp;
}.

(** The challenge is spent. *)
Definition without_challenge (s : t) : t :=
  {| s with wallet_nonce := None; wallet_nonce_expires_at := None; wallet_nonce_chain_id := None |}.
End PayerSession.

(** The CHECKs on [payer_verifications.kind] and [.status]. *)
Inductive VerificationKind := KindEmail | KindWallet | KindMerchantSession.
Inductive VerificationStatus := VsPending | VsApproved | VsAbandoned.

#[export] Instance VerificationKind_eq_dec : EqDecision VerificationKind.
Proof. solve_decision. Defined.
#[export] Instance VerificationStatus_eq_dec : EqDecision VerificationStatus.
Proof. solve_decision. Defined.

Module PayerVerificationRow.
Record t := mk {
  invoice_id : Uuid;
  account_id : Uuid;
  payer_session_id : Uuid;
  kind : VerificationKind;
  status : VerificationStatus;
  provider : string;
  provider_event_id : option string;
  payer_ref : option B256;
  verified_at : option Timestamp;
  created_at : Timestamp;
}.
End PayerVerificationRow.

Module ClientSecret.
Record t := mk {
  invoice_id : Uuid;
  account_id : Uuid;
  secret_hash : B256;
  created_at : Timestamp;
  expires_at : Timestamp;
  used_at : option Timestamp;
  payer_session_id : option Uuid;
}.
End ClientSecret.

(** ** Withdrawals *)

Inductive LegKind := LegTransfer | LegBridge.

Inductive LegState :=
| AwaitingSignature | Authorized | Relaying | Burned | Attested | Minting
| Completed | LegFailed | LegExpired | Cancelled.

#[export] Instance LegKind_eq_dec : EqDecision LegKind.
Proof. solve_decision. Defined.
#[export] Instance LegState_eq_dec : EqDecision LegState.
Proof. solve_decision. Defined.

Module DbWithdrawal.
Record t := mk {
  account_id : Uuid;
  idempotency_key : string;
  wallet_address : string;
  currency : string;
  destination_chain_id : Z;
  destination_address : string;
  created_at : Timestamp;
  completed_at : option Timestamp;
  cancelled_at : option Timestamp;
  failed_at : option Timestamp;
}.
End DbWithdrawal.

(** The authorization of a leg: what the merchant signs. *)
Module LegTerms.
Record t := mk {
  withdrawal_id : Uuid;
  position : Z;
  kind : LegKind;
  source_chain_id : Z;
  destination_chain_id : Z;
  amount : Z;
  token_address : string;
  domain_name : string;
  domain_version : string;
  authorization_to : string;
  nonce : B256;
  salt : option B256;
  valid_before : Z;
  created_at : Timestamp;
}.
End LegTerms.

Module Leg.
Record t := mk {
  terms : LegTerms.t;
  state : LegState;
  signature : option bytes;
  authorized_at : option Timestamp;
  step_job_id : option Uuid;
  step_chain_id : option Z;
  step_reverts : Z;
  step_retry_at : option Timestamp;
  transfer_tx_hash : option B256;
  burn_tx_hash : option B256;
  mint_tx_hash : option B256;
  attestation_message : option bytes;
  attestation : option bytes;
  attestation_next_check_at : option Timestamp;
  failure_reason : option string;
  updated_at : Timestamp;
}.
Definition withdrawal_id (l : t) : Uuid := LegTerms.withdrawal_id (terms l).
Definition kind (l : t) : LegKind := LegTerms.kind (terms l).
End Leg.

(** ** Customers *)

Module DbCustomer.
Record t := mk {
  id : Uuid;
  account_id : Uuid;
  name : string;
  email : option string;
  details : option string;
  created_at : Timestamp;
  updated_at : Timestamp;
}.
End DbCustomer.

(** ** The database *)

Module Db.
Record t := mk {
  invoices : gmap Uuid DbInvoice.t;
  payment_observations : gmap ObservationKey Observation.t;
  sweep_jobs : gmap Uuid SweepJob.t;
  sweep_job_items : gmap (Uuid * Uuid) SweepJobItem.t;
  recovered_funds : gmap (Uuid * list Z * string) RecoveredRow.t;
  indexer_cursor : gmap Z CursorRow.t;
  indexer_status : gmap Z StatusRow.t;
  chain_faults : gmap Uuid ChainFault.t;
  relay_intents : gmap Uuid RelayIntent.t;
  accounts : gmap Uuid (option string);
  notification_outbox : list OutboxRow.t;
  invoice_attachments : gmap Uuid DbAttachment.t;
  payer_sessions : gmap Uuid PayerSession.t;
  payer_verifications : gmap Uuid PayerVerificationRow.t;
  payer_client_secrets : gmap Uuid ClientSecret.t;
  withdrawals : gmap Uuid DbWithdrawal.t;
  withdrawal_legs : gmap Uuid Leg.t;
  customers : gmap Uuid DbCustomer.t;
  bus : Bus.t;
}.
Definition empty : t := mk ∅ ∅ ∅ ∅ ∅ ∅ ∅ ∅ ∅ ∅ [] ∅ ∅ ∅ ∅ ∅ ∅ ∅ Bus.empty.
End Db.

#[export] Instance HasBus_Db : HasBus Db.t := {|
  bus_of := Db.bus;
  set_bus b db := {| db with Db.bus := b |};
  bus_of_set_bus b db := eq_refl;
  set_bus_bus_of db := match db with Db.mk _ _ _ _ _ _ _ _ _ _ _ _ _ _ _ _ _ _ _ => eq_refl end;
|}.

(** [sqlx::Error], by its cause. *)
Inductive DbError :=
| RowNotFound
| Decode (what : string)
| Constraint (what : string)
| NumericOutOfRange.
