(* ===== verification/Registry.v ===== *)
(** * gum-core: the supported networks

    Models [crates/gum-core/src/chain.rs]: a chain's configuration, the
    validation that turns a list of them into the registry both services read,
    and the registry's lookups. The JSON form of the list is not modelled. *)

From stdpp Require Import sorting pretty.
From S2P Require Import Prelude Core Contracts Bus Tables.

(** ** Data *)

Inductive FinalitySource := FinalizedTag | Latest.

(** [Address::into_word]: left-padded to 32 bytes. *)
Definition into_word (a : Address) : B256 := replicate 12 0 ++ a.

Module TokenConfig.
Record t := mk { currency : Currency; address : Address }.
End TokenConfig.

Module CctpConfig.
Record t := mk {
  domain : Z;
  token_messenger : Address;
  message_transmitter : Address;
  forwarder : Address;
  forwarder_code_hash : B256;
}.
End CctpConfig.

Module ChainConfig.
Record t := mk {
  chain_id : Z;
  tokens : list TokenConfig.t;
  factory : Address;
  batch_sweeper : Address;
  factory_code_hash : B256;
  batch_sweeper_code_hash : B256;
  start_block : Z;
  finality_source : FinalitySource;
  finality_confirmations : Z;
  block_time_ms : Z;
  log_range_size : Z;
  signer_low_balance_wei : option Z;
  explorer_base_url : option string;
  cctp : option CctpConfig.t;
  block_gas_limit : option Z;
  transaction_gas_limit : option Z;
  sweep_batch_size : option Z;
}.

Definition token (c : t) (currency : Currency) : option TokenConfig.t :=
  List.find (fun x => bool_decide (TokenConfig.currency x = currency)) (tokens c).

Definition currency_of (c : t) (address : Address) : option Currency :=
  TokenConfig.currency <$>
    List.find (fun x => bool_decide (TokenConfig.address x = address)) (tokens c).

Definition token_addresses (c : t) : list Address := TokenConfig.address <$> tokens c.

Definition network (c : t) (currency : Currency) : option NetworkTerms.t :=
  x ← token c currency;
  Some (NetworkTerms.mk (chain_id c) (TokenConfig.address x) (factory c)).

Definition rpc_url_var (c : t) : string := "GUM_RPC_URL_" +:+ pretty (chain_id c).
Definition rpc_ws_url_var (c : t) : string := "GUM_RPC_WS_URL_" +:+ pretty (chain_id c).

End ChainConfig.

Definition MAX_CCTP_BURN_PER_MESSAGE : Z := 10000000000000.

Inductive ChainRegistryError :=
| RegJson (message : string)
| RegEmpty
| RegDuplicate (chain_id : Z)
| RegNotPositive (chain_id : Z) (field : string)
| RegNoTokens (chain_id : Z)
| RegDuplicateCurrency (chain_id : Z) (currency : Currency)
| RegDuplicateToken (chain_id : Z) (address : Address)
| RegCctpWithoutUsdc (chain_id : Z)
| RegNoUsdc
| RegFactoryMismatch (chain_id first_chain_id : Z) (expected actual : Address).

(** ** Validation *)

(** A loop over a slice whose body sees the elements before its own. *)
Fixpoint for_each {A} (f : list A -> A -> result ChainRegistryError unit) (earlier l : list A)
  : result ChainRegistryError unit :=
  match l with
  | [] => Ok tt
  | x :: l' => let! _ := f earlier x in for_each f (earlier ++ [x]) l'
  end.

Definition guard_err {E} (bad : bool) (e : E) : result E unit := if bad then Err e else Ok tt.

Definition check_positive (chain_id : Z) (field : string * Z) : result ChainRegistryError unit :=
  guard_err (snd field =? 0) (RegNotPositive chain_id (fst field)).

Definition check_limit (chain_id : Z) (field : string * option Z) : result ChainRegistryError unit :=
  guard_err (bool_decide (snd field = Some 0)) (RegNotPositive chain_id (fst field)).

Definition check_token (chain_id : Z) (earlier : list TokenConfig.t) (x : TokenConfig.t)
  : result ChainRegistryError unit :=
  let! _ := guard_err
    (existsb (fun y => bool_decide (TokenConfig.currency y = TokenConfig.currency x)) earlier)
    (RegDuplicateCurrency chain_id (TokenConfig.currency x)) in
  guard_err
    (existsb (fun y => bool_decide (TokenConfig.address y = TokenConfig.address x)) earlier)
    (RegDuplicateToken chain_id (TokenConfig.address x)).

Definition check_chain (earlier : list ChainConfig.t) (c : ChainConfig.t)
  : result ChainRegistryError unit :=
  let id := ChainConfig.chain_id c in
  let! _ := guard_err (existsb (fun d => ChainConfig.chain_id d =? id) earlier) (RegDuplicate id) in
  let! _ := for_each (fun _ => check_positive id) []
    [("chain_id", id); ("block_time_ms", ChainConfig.block_time_ms c);
     ("log_range_size", ChainConfig.log_range_size c)] in
  let! _ := for_each (fun _ => check_limit id) []
    [("block_gas_limit", ChainConfig.block_gas_limit c);
     ("transaction_gas_limit", ChainConfig.transaction_gas_limit c)] in
  let! _ := check_limit id ("sweep_batch_size", ChainConfig.sweep_batch_size c) in
  let! _ := guard_err (Nat.eqb (length (ChainConfig.tokens c)) 0) (RegNoTokens id) in
  let! _ := for_each (check_token id) [] (ChainConfig.tokens c) in
  guard_err (is_some (ChainConfig.cctp c) && negb (is_some (ChainConfig.token c Usdc)))
    (RegCctpWithoutUsdc id).

Definition serves_usdc (c : ChainConfig.t) : bool := is_some (ChainConfig.token c Usdc).

Definition check_factory (first c : ChainConfig.t) : result ChainRegistryError unit :=
  guard_err (negb (bool_decide (ChainConfig.factory c = ChainConfig.factory first)))
    (RegFactoryMismatch (ChainConfig.chain_id c) (ChainConfig.chain_id first)
       (ChainConfig.factory first) (ChainConfig.factory c)).

(** A registry is its chains, in the order the checkout offers them. *)
Module ChainRegistry.
Record t := mk { chains : list ChainConfig.t }.

Definition new (chains : list ChainConfig.t) : result ChainRegistryError t :=
  match chains with
  | [] => Err RegEmpty
  | first :: rest =>
      let! _ := for_each check_chain [] chains in
      let! _ := guard_err (negb (existsb serves_usdc chains)) RegNoUsdc in
      let! _ := for_each (fun _ => check_factory first) [] rest in
      Ok (mk chains)
  end.

Definition get (r : t) (chain_id : Z) : option ChainConfig.t :=
  List.find (fun c => ChainConfig.chain_id c =? chain_id) (chains r).

(** [first] indexes the list; [None] is its panic. *)
Definition first (r : t) : option ChainConfig.t := head (chains r).

(** [None] is the panic of [expect]. *)
Fixpoint find_usdc (l : list ChainConfig.t) : option (ChainConfig.t * TokenConfig.t) :=
  match l with
  | [] => None
  | c :: l' =>
      match ChainConfig.token c Usdc with
      | Some x => Some (c, x)
      | None => find_usdc l'
      end
  end.

Definition first_usdc (r : t) : option (ChainConfig.t * TokenConfig.t) := find_usdc (chains r).

Definition terms_le (a b : NetworkTerms.t) : Prop := NetworkTerms.chain_id a <= NetworkTerms.chain_id b.

#[global] Instance terms_le_dec : RelDecision terms_le.
Proof. intros a b. unfold terms_le. apply _. Defined.

Definition networks (r : t) (currency : Currency) : list NetworkTerms.t :=
  merge_sort terms_le (omap (fun c => ChainConfig.network c currency) (chains r)).

Definition currencies (r : t) : list Currency :=
  List.filter (fun x => existsb (fun c => is_some (ChainConfig.token c x)) (chains r)) Currency.ALL.

Definition token (r : t) (chain_id : Z) (currency : Currency) : option TokenConfig.t :=
  c ← get r chain_id; ChainConfig.token c currency.

Definition currency_of (r : t) (chain_id : Z) (address : Address) : option Currency :=
  c ← get r chain_id; ChainConfig.currency_of c address.

Definition explorer_base_url (r : t) (chain_id : Z) : option string :=
  c ← get r chain_id; ChainConfig.explorer_base_url c.

Definition cctp (r : t) (chain_id : Z) : option CctpConfig.t :=
  c ← get r chain_id; ChainConfig.cctp c.

End ChainRegistry.

Definition chain_name (id : Z) : string :=
  if id =? 1 then "Ethereum"
  else if id =? 143 then "Monad"
  else if id =? 10143 then "Monad Testnet"
  else if id =? 8453 then "Base"
  else if id =? 84532 then "Base Sepolia"
  else if id =? 42161 then "Arbitrum One"
  else if id =? 421614 then "Arbitrum Sepolia"
  else if id =? 31337 then "Local"
  else if id =? 31338 then "Local 2"
  else "Unknown".

Definition native_symbol (id : Z) : string :=
  if (id =? 143) || (id =? 10143) then "MON" else "ETH".

(** ** What a registry promises *)

Definition chain_well_formed (c : ChainConfig.t) : Prop :=
  ChainConfig.chain_id c <> 0 /\ ChainConfig.block_time_ms c <> 0 /\ ChainConfig.log_range_size c <> 0 /\
  ChainConfig.block_gas_limit c <> Some 0 /\ ChainConfig.transaction_gas_limit c <> Some 0 /\
  ChainConfig.sweep_batch_size c <> Some 0 /\
  ChainConfig.tokens c <> [] /\
  NoDup (TokenConfig.currency <$> ChainConfig.tokens c) /\
  NoDup (TokenConfig.address <$> ChainConfig.tokens c) /\
  (is_Some (ChainConfig.cctp c) -> Usdc ∈ (TokenConfig.currency <$> ChainConfig.tokens c)).

Definition well_formed (chains : list ChainConfig.t) : Prop :=
  NoDup (ChainConfig.chain_id <$> chains) /\
  Forall chain_well_formed chains /\
  (exists c, c ∈ chains /\ Usdc ∈ (TokenConfig.currency <$> ChainConfig.tokens c)) /\
  (forall c d, c ∈ chains -> d ∈ chains -> ChainConfig.factory c = ChainConfig.factory d).

Lemma guard_err_ok {E} b (e : E) : guard_err b e = Ok tt <-> b = false.
Proof. unfold guard_err. by destruct b. Qed.

Lemma rbind_unit {E B} (r : result E unit) (k : unit -> result E B) b :
  rbind r k = Ok b <-> r = Ok tt /\ k tt = Ok b.
Proof.
  destruct r as [[]|e]; simpl; naive_solver.
Qed.

Lemma for_each_ok {A} (f : list A -> A -> result ChainRegistryError unit) l : forall earlier,
  for_each f earlier l = Ok tt <->
  forall l1 x l2, l = l1 ++ x :: l2 -> f (earlier ++ l1) x = Ok tt.
Proof.
  induction l as [|x l IH]; intros earlier; simpl.
  - split; [|done]. intros _ l1 y l2 H. by destruct l1.
  - rewrite rbind_unit, IH. split.
    + intros [Hx Hl] [|y l1] z l2; simpl; intros [= -> ->]; [by rewrite app_nil_r|].
      specialize (Hl l1 z l2 eq_refl). by rewrite <- app_assoc in Hl.
    + intros H. split; [specialize (H [] x l eq_refl); by rewrite app_nil_r in H|].
      intros l1 y l2 ->. specialize (H (x :: l1) y l2 eq_refl). by rewrite <- app_assoc.
Qed.

(** A loop that rejects an element whose key an earlier one has. *)
Lemma keys_distinct {A K} `{!EqDecision K} (key : A -> K) (l : list A) :
  (forall l1 x l2, l = l1 ++ x :: l2 ->
     existsb (fun y => bool_decide (key y = key x)) l1 = false) <-> NoDup (key <$> l).
Proof.
  induction l as [|x l IH] using rev_ind.
  - split; [constructor|]. intros _ l1 x l2 H. by destruct l1.
  - rewrite fmap_app, list.NoDup_app. simpl. split.
    + intros H. split_and!.
      * apply IH. intros l1 y l2 ->. apply (H l1 y (l2 ++ [x])). by rewrite <- app_assoc.
      * intros k Hk. specialize (H l x [] eq_refl). rewrite list_elem_of_singleton. intros ->.
        apply list_elem_of_fmap in Hk as (y & Hy & Hin). rewrite <- not_true_iff_false in H. apply H.
        apply existsb_exists. exists y. split; [by apply list_elem_of_In|]. by apply bool_decide_eq_true.
      * apply list.NoDup_singleton.
    + intros (Hnd & Hx & _) l1 y l2 Heq.
      destruct l2 as [|z l2 _] using rev_ind.
      * apply app_inj_tail in Heq as [-> ->]. apply not_true_iff_false.
        intros (z & Hz & Hk%bool_decide_eq_true)%existsb_exists.
        apply (Hx (key y)); [|by apply list_elem_of_singleton]. rewrite <- Hk.
        by apply list_elem_of_fmap_2, list_elem_of_In.
      * rewrite app_comm_cons, app_assoc in Heq. apply app_inj_tail in Heq as [-> ->].
        by apply (proj2 IH Hnd l1 y l2).
Qed.

Lemma token_is_some c x :
  is_some (ChainConfig.token c x) = true <-> x ∈ (TokenConfig.currency <$> ChainConfig.tokens c).
Proof.
  unfold ChainConfig.token. rewrite list_elem_of_fmap. split.
  - destruct (List.find _ _) as [y|] eqn:E; [|done]. intros _.
    apply find_some in E as [Hin Hy%bool_decide_eq_true]. exists y. by rewrite list_elem_of_In.
  - intros (y & -> & Hy). destruct (List.find _ _) eqn:E; [done|].
    apply list_elem_of_In in Hy. pose proof (find_none _ _ E y Hy) as H. by rewrite bool_decide_eq_false in H.
Qed.


Lemma limit_ok id field v : check_limit id (field, v) = Ok tt <-> v <> Some 0.
Proof. unfold check_limit. by rewrite guard_err_ok, bool_decide_eq_false. Qed.

Lemma positive_ok id field v : check_positive id (field, v) = Ok tt <-> v <> 0.
Proof. unfold check_positive. by rewrite guard_err_ok, Z.eqb_neq. Qed.

Lemma tokens_ok id l :
  for_each (check_token id) [] l = Ok tt <->
  NoDup (TokenConfig.currency <$> l) /\ NoDup (TokenConfig.address <$> l).
Proof.
  rewrite for_each_ok, <- !keys_distinct. unfold check_token.
  setoid_rewrite rbind_unit. setoid_rewrite guard_err_ok. simpl. naive_solver.
Qed.

Lemma check_chain_ok earlier c :
  check_chain earlier c = Ok tt <->
  existsb (fun d => bool_decide (ChainConfig.chain_id d = ChainConfig.chain_id c)) earlier = false /\
  chain_well_formed c.
Proof.
  unfold check_chain, chain_well_formed. cbn [for_each].
  rewrite !rbind_unit, !guard_err_ok, !positive_ok, !limit_ok, tokens_ok, Nat.eqb_neq, andb_false_iff,
    negb_false_iff, token_is_some.
  assert (existsb (fun d => ChainConfig.chain_id d =? ChainConfig.chain_id c) earlier =
    existsb (fun d => bool_decide (ChainConfig.chain_id d = ChainConfig.chain_id c)) earlier) as ->.
  { induction earlier as [|d l IH]; simpl; [done|]. rewrite IH. f_equal. by destruct (Z.eqb_spec (ChainConfig.chain_id d) (ChainConfig.chain_id c)); case_bool_decide. }
  assert (is_some (ChainConfig.cctp c) = false <-> ~ is_Some (ChainConfig.cctp c)) as ->.
  { destruct (ChainConfig.cctp c); simpl; split; try done. intros []; eauto. }
  assert (length (ChainConfig.tokens c) <> 0%nat <-> ChainConfig.tokens c <> []) as ->
    by (destruct (ChainConfig.tokens c); simpl; naive_solver lia).
  destruct (ChainConfig.cctp c); naive_solver.
Qed.

Lemma chains_ok chains :
  for_each check_chain [] chains = Ok tt <->
  NoDup (ChainConfig.chain_id <$> chains) /\ Forall chain_well_formed chains.
Proof.
  rewrite for_each_ok, <- keys_distinct, list.Forall_forall. setoid_rewrite check_chain_ok. simpl. split.
  - intros H. split; [intros l1 c l2 E; by destruct (H l1 c l2 E)|].
    intros c (l1 & l2 & ->)%list_elem_of_split. by destruct (H l1 c l2 eq_refl).
  - intros [Hd Hw] l1 c l2 ->. split; [by eapply Hd|]. apply Hw. set_solver.
Qed.

Lemma factories_ok first rest :
  for_each (fun _ => check_factory first) [] rest = Ok tt <->
  forall c d, c ∈ first :: rest -> d ∈ first :: rest -> ChainConfig.factory c = ChainConfig.factory d.
Proof.
  rewrite for_each_ok. unfold check_factory. setoid_rewrite guard_err_ok.
  setoid_rewrite negb_false_iff. setoid_rewrite bool_decide_eq_true. split.
  - intros H. assert (forall c, c ∈ first :: rest -> ChainConfig.factory c = ChainConfig.factory first) as Hf.
    { intros c [->|(l1 & l2 & ->)%list_elem_of_split]%elem_of_cons; [done|]. by eapply H. }
    intros c d Hc Hd. by rewrite (Hf c Hc), (Hf d Hd).
  - intros H l1 c l2 ->. apply H; set_solver.
Qed.

Lemma new_ok chains r :
  ChainRegistry.new chains = Ok r <-> chains <> [] /\ well_formed chains /\ ChainRegistry.chains r = chains.
Proof.
  unfold ChainRegistry.new. destruct chains as [|first rest]; [naive_solver|].
  rewrite !rbind_unit, chains_ok, factories_ok, guard_err_ok, negb_false_iff. unfold well_formed.
  assert (existsb serves_usdc (first :: rest) = true <->
    exists c, c ∈ first :: rest /\ Usdc ∈ (TokenConfig.currency <$> ChainConfig.tokens c)) as ->.
  { rewrite existsb_exists. unfold serves_usdc. setoid_rewrite token_is_some.
    by setoid_rewrite <- list_elem_of_In. }
  destruct r as [l]; simpl. naive_solver.
Qed.

Lemma find_key {A} (key : A -> Z) (l : list A) x :
  NoDup (key <$> l) -> x ∈ l -> List.find (fun y => key y =? key x) l = Some x.
Proof.
  induction l as [|y l IH]; simpl; [set_solver|]. intros [Hni Hnd]%list.NoDup_cons [->|Hx]%elem_of_cons.
  - by rewrite Z.eqb_refl.
  - destruct (Z.eqb_spec (key y) (key x)) as [E|]; [|by auto].
    destruct Hni. rewrite E. by apply list_elem_of_fmap_2.
Qed.

Lemma get_some r c id :
  NoDup (ChainConfig.chain_id <$> ChainRegistry.chains r) ->
  ChainRegistry.get r id = Some c <-> c ∈ ChainRegistry.chains r /\ ChainConfig.chain_id c = id.
Proof.
  intros Hnd. unfold ChainRegistry.get. split.
  - intros [Hin Heq%Z.eqb_eq]%find_some. by rewrite list_elem_of_In.
  - intros [Hin <-]. by apply find_key.
Qed.

Lemma network_chain c x terms :
  ChainConfig.network c x = Some terms -> NetworkTerms.chain_id terms = ChainConfig.chain_id c.
Proof. unfold ChainConfig.network. destruct (ChainConfig.token c x); simpl; [|done]. by intros [= <-]. Qed.

Lemma omap_keys_NoDup (l : list ChainConfig.t) x :
  NoDup (ChainConfig.chain_id <$> l) ->
  NoDup (NetworkTerms.chain_id <$> omap (fun c => ChainConfig.network c x) l).
Proof.
  induction l as [|c l IH]; simpl; [constructor|]. intros [Hni Hnd]%list.NoDup_cons.
  destruct (ChainConfig.network c x) as [terms|] eqn:E; [|by auto].
  simpl. apply list.NoDup_cons. split; [|by auto].
  intros (t' & Ht & (d & Hd & Hn)%list_elem_of_omap)%list_elem_of_fmap. apply Hni.
  apply list_elem_of_fmap. exists d. split; [|done].
  rewrite <- (network_chain _ _ _ E), <- (network_chain _ _ _ Hn). congruence.
Qed.

(** C38. The registry accepts exactly the well-formed configurations: at
    least one chain, distinct chain ids, positive limits, distinct currencies
    and contracts on each chain, CCTP only where USDC is served, USDC
    somewhere, and one factory address on all chains; it keeps the chains and
    their order. A registry that exists has a first chain and a first chain
    with USDC, so neither accessor panics. *)
Theorem registry_accepts_exactly chains r :
  (ChainRegistry.new chains = Ok r <-> chains <> [] /\ well_formed chains /\ ChainRegistry.chains r = chains) /\
  (ChainRegistry.new chains = Ok r ->
   is_Some (ChainRegistry.first r) /\ is_Some (ChainRegistry.first_usdc r)).
Proof.
  split; [apply new_ok|]. intros (Hne & (_ & _ & (c & Hc & Hu) & _) & <-)%new_ok. split.
  - unfold ChainRegistry.first. destruct (ChainRegistry.chains r); [done|]. by eexists.
  - unfold ChainRegistry.first_usdc. apply token_is_some in Hu. clear Hne.
    induction (ChainRegistry.chains r) as [|d l IH]; simpl; [set_solver|].
    destruct (ChainConfig.token d Usdc) eqn:E; [by eexists|].
    apply elem_of_cons in Hc as [->|Hc]; [by rewrite E in Hu|by apply IH].
Qed.

(** The networks a new request commits to are strictly ordered by chain
    id, one for each served chain that carries the currency and no other, each
    with that chain's contract and the common factory; so their order does not
    depend on the order of the configuration. *)
Theorem registry_networks_canonical chains r x :
  ChainRegistry.new chains = Ok r ->
  StronglySorted (fun a b => NetworkTerms.chain_id a < NetworkTerms.chain_id b) (ChainRegistry.networks r x) /\
  (forall terms, terms ∈ ChainRegistry.networks r x <->
     exists token, ChainRegistry.token r (NetworkTerms.chain_id terms) x = Some token /\
       NetworkTerms.token terms = TokenConfig.address token /\
       Some (NetworkTerms.factory terms) = ChainConfig.factory <$> ChainRegistry.first r).
Proof.
  intros Hnew. apply new_ok in Hnew as (Hne & (Hnd & _ & _ & Hfac) & <-).
  pose proof (merge_sort_Permutation ChainRegistry.terms_le
    (omap (fun c => ChainConfig.network c x) (ChainRegistry.chains r))) as Hperm. split.
  - unfold ChainRegistry.networks. set (l := merge_sort _ _) in *.
    assert (Sorted ChainRegistry.terms_le l) as Hs.
    { apply Sorted_merge_sort; intros ??; unfold ChainRegistry.terms_le; lia. }
    apply Sorted_StronglySorted in Hs; [|intros ???; unfold ChainRegistry.terms_le; lia].
    assert (NoDup (NetworkTerms.chain_id <$> l)) as Hl
      by (rewrite Hperm; by apply omap_keys_NoDup).
    clear Hperm. induction Hs as [|a l' Hs IH Ha]; constructor.
    + apply IH. by apply list.NoDup_cons in Hl as [_ ?].
    + apply list.NoDup_cons in Hl as [Hni _]. rewrite list.Forall_forall in *. intros b Hb.
      pose proof (Ha b Hb) as Hle. unfold ChainRegistry.terms_le in Hle.
      assert (NetworkTerms.chain_id a <> NetworkTerms.chain_id b); [|lia].
      intros E. apply Hni. rewrite E. by apply list_elem_of_fmap_2.
  - intros terms. unfold ChainRegistry.networks. rewrite Hperm, list_elem_of_omap.
    unfold ChainRegistry.token, ChainRegistry.first. split.
    + intros (c & Hc & Hn). pose proof (network_chain _ _ _ Hn) as Hid. unfold ChainConfig.network in Hn.
      destruct (ChainConfig.token c x) as [tk|] eqn:Htk; [|done]. injection Hn as <-. simpl in *.
      exists tk. rewrite (proj2 (get_some r c _ Hnd)) by done. simpl. split_and!; [done|done|].
      destruct (ChainRegistry.chains r) as [|f fs]; [done|]. simpl. f_equal. apply Hfac; [done|by left].
    + intros (tk & Htk & Haddr & Hf).
      destruct (ChainRegistry.get r (NetworkTerms.chain_id terms)) as [c|] eqn:Hg; [|done].
      apply get_some in Hg as [Hc Hid]; [|done]. simpl in Htk. exists c. split; [done|].
      unfold ChainConfig.network. rewrite Htk. simpl. destruct terms as [i t f]. simpl in *. subst.
      destruct (ChainRegistry.chains r) as [|f0 fs]; [done|]. simpl in Hf. injection Hf as ->.
      do 2 f_equal. symmetry. apply Hfac; [by left|done].
Qed.

(** On every served chain a currency and its contract determine each
    other: looking up the contract of a currency and then the currency of that
    contract gives the currency back, and conversely. *)
Theorem registry_tokens_roundtrip chains r id x a :
  ChainRegistry.new chains = Ok r ->
  TokenConfig.address <$> ChainRegistry.token r id x = Some a <-> ChainRegistry.currency_of r id a = Some x.
Proof.
  intros Hnew. apply new_ok in Hnew as (_ & (Hnd & Hwf & _) & <-).
  unfold ChainRegistry.token, ChainRegistry.currency_of.
  destruct (ChainRegistry.get r id) as [c|] eqn:Hg; simpl; [|done].
  apply get_some in Hg as [Hc _]; [|done]. rewrite list.Forall_forall in Hwf.
  destruct (Hwf c Hc) as (_ & _ & _ & _ & _ & _ & _ & Hcur & Haddr & _).
  unfold ChainConfig.token, ChainConfig.currency_of. clear Hc Hwf.
  induction (ChainConfig.tokens c) as [|t l IH]; simpl; [done|].
  simpl in *. apply list.NoDup_cons in Hcur as [Hc1 Hc2], Haddr as [Ha1 Ha2]. specialize (IH Hc2 Ha2).
  assert (forall y, List.find (fun z => bool_decide (TokenConfig.currency z = x)) l = Some y ->
    x ∈ (TokenConfig.currency <$> l)) as F1.
  { intros y [Hy <-%bool_decide_eq_true]%find_some. by apply list_elem_of_fmap_2, list_elem_of_In. }
  assert (forall y, List.find (fun z => bool_decide (TokenConfig.address z = a)) l = Some y ->
    a ∈ (TokenConfig.address <$> l)) as F2.
  { intros y [Hy <-%bool_decide_eq_true]%find_some. by apply list_elem_of_fmap_2, list_elem_of_In. }
  case_bool_decide as E1; case_bool_decide as E2; simpl; [| | |done].
  - split; intros _; by f_equal.
  - split; [intros [= ?]; done|]. intros H. apply IH in H. destruct (List.find _ l) as [y|] eqn:Ef; [|done].
    destruct Hc1. rewrite E1. by eapply (F1 y).
  - split; [|intros [= ?]; done]. intros H. apply IH in H.
    destruct (List.find (fun z => bool_decide (TokenConfig.address z = a)) l) as [y|] eqn:Ef; [|done].
    destruct Ha1. rewrite E2. by eapply (F2 y).
Qed.

(** ** A deployment on two chains *)

Module RegistryExample.

Definition usdc (a : Address) : TokenConfig.t := TokenConfig.mk Usdc a.

Definition base : ChainConfig.t :=
  ChainConfig.mk 8453 [usdc [10]] [2] [3] [4] [5] 100 Latest 20 2000 100 None None
    (Some (CctpConfig.mk 6 [20] [21] [22] [23])) None None None.

Definition monad : ChainConfig.t :=
  ChainConfig.mk 143 [usdc [11]; TokenConfig.mk Usdt [12]] [2] [3] [4] [5] 0 FinalizedTag 0 400 100 None None
    None (Some 150000000) (Some 30000000) None.

Definition registry : ChainRegistry.t := ChainRegistry.mk [base; monad].

Lemma registry_ok : ChainRegistry.new [base; monad] = Ok registry.
Proof. reflexivity. Qed.

Lemma registry_accepts_exactly_witness :
  ChainRegistry.new [base; monad] = Ok registry /\ well_formed [base; monad].
Proof.
  split; [exact registry_ok|].
  exact (proj1 (proj2 (proj1 (proj1 (registry_accepts_exactly [base; monad] registry)) registry_ok))).
Defined.

Lemma registry_networks_canonical_witness :
  (NetworkTerms.chain_id <$> ChainRegistry.networks registry Usdc) = [143; 8453] /\
  StronglySorted (fun a b => NetworkTerms.chain_id a < NetworkTerms.chain_id b)
    (ChainRegistry.networks registry Usdc).
Proof.
  split; [vm_compute; reflexivity|].
  exact (proj1 (registry_networks_canonical [base; monad] registry Usdc registry_ok)).
Defined.

Lemma registry_tokens_roundtrip_witness : ChainRegistry.currency_of registry 143 [12] = Some Usdt.
Proof.
  apply (proj1 (registry_tokens_roundtrip [base; monad] registry 143 Usdt [12] registry_ok)). reflexivity.
Defined.

End RegistryExample.
