(* ===== verification/Attachments.v ===== *)
(** * gum-ledger: PDF attachments

    Models [crates/gum-ledger/src/attachments.rs]: an upload is staged,
    finalized as ready or rejected, and bound to exactly one deposit request.
    The CHECK constraints of [invoice_attachments] are the guard
    [row_allowed]; its trigger is [commitment_kept]. *)

From stdpp Require Import pretty.
From S2P Require Import Prelude Core Contracts Bus Tables.

Definition EXPIRED_UPLOAD : string := "expired".
Definition PDF_MIME_TYPE : string := "application/pdf".
Definition CLEAN_SCAN : string := "NO_THREATS_FOUND".

Module Attachment.

Definition ALL : list AttachmentStatus := [PendingUpload; Scanning; Ready; Rejected; Attached].

Definition as_str (s : AttachmentStatus) : string :=
  match s with
  | PendingUpload => "pending_upload"
  | Scanning => "scanning"
  | Ready => "ready"
  | Rejected => "rejected"
  | Attached => "attached"
  end.

Definition from_str (s : string) : result string AttachmentStatus :=
  ok_or (List.find (fun status => String.eqb (as_str status) s) ALL) s.

Definition is_expired (a : DbAttachment.t) : bool :=
  bool_decide (DbAttachment.status a = Rejected)
  && bool_decide (DbAttachment.scan_result a = Some EXPIRED_UPLOAD).

(** [DbAttachment::commitment]; [hex] is the lowercase prefixed rendering. *)
Definition commitment (hex : bytes -> string) (a : DbAttachment.t) : option AttachmentCommitment.t :=
  match DbAttachment.byte_length a, DbAttachment.sha256 a with
  | Some n, Some h => Some (AttachmentCommitment.mk (DbAttachment.id a) (pretty n) (hex h))
  | _, _ => None
  end.

Inductive AttachInvoiceError :=
| NotFound | NotReady | AlreadyAttached | AttachDatabase (e : DbError).

(** The table's CHECK constraints. *)
Definition row_allowed (a : DbAttachment.t) : bool :=
  match DbAttachment.byte_length a with
  | None => true
  | Some n => (1 <=? n) && (n <=? 5242880)
  end
  && match DbAttachment.sha256 a with None => true | Some h => Nat.eqb (length h) 32 end
  && match DbAttachment.status a with
     | PendingUpload | Scanning =>
         negb (is_some (DbAttachment.byte_length a)) && negb (is_some (DbAttachment.sha256 a))
     | Ready | Attached =>
         is_some (DbAttachment.byte_length a) && is_some (DbAttachment.sha256 a)
         && bool_decide (DbAttachment.scan_result a = Some CLEAN_SCAN)
     | Rejected => true
     end.

(** [reject_attachment_commitment_mutation]. *)
Definition commitment_kept (old new : DbAttachment.t) : bool :=
  (negb (is_some (DbAttachment.invoice_id old))
   || bool_decide (DbAttachment.invoice_id new = DbAttachment.invoice_id old))
  && (negb (is_some (DbAttachment.sha256 old))
      || (bool_decide (DbAttachment.sha256 new = DbAttachment.sha256 old)
          && bool_decide (DbAttachment.byte_length new = DbAttachment.byte_length old)
          && bool_decide (DbAttachment.version_id new = DbAttachment.version_id old)
          && bool_decide (DbAttachment.object_key new = DbAttachment.object_key old))).

Definition unfinalized (s : AttachmentStatus) : bool :=
  match s with PendingUpload | Scanning => true | _ => false end.

(** [UPDATE .. WHERE account_id = .. AND id = .. AND p(status) RETURNING *]. *)
Definition update_upload (account id : Uuid) (p : AttachmentStatus -> bool)
    (f : DbAttachment.t -> DbAttachment.t) (db : Db.t)
  : result DbError (option DbAttachment.t * Db.t) :=
  match Db.invoice_attachments db !! id with
  | Some a =>
      if (DbAttachment.account_id a =? account) && p (DbAttachment.status a) then
        let a' := f a in
        if row_allowed a' && commitment_kept a a' then
          Ok (Some a', {| db with Db.invoice_attachments := <[id := a']> (Db.invoice_attachments db) |})
        else Err (Constraint "invoice_attachments_check")
      else Ok (None, db)
  | None => Ok (None, db)
  end.

Definition create_upload (id account : Uuid) (object_key original_filename : string)
    (now : Timestamp) (db : Db.t) : result DbError (DbAttachment.t * Db.t) :=
  let a := DbAttachment.mk id account None object_key original_filename PDF_MIME_TYPE None None None
             PendingUpload None now None None in
  if is_some (Db.invoice_attachments db !! id) then Err (Constraint "invoice_attachments_pkey")
  else if bool_decide (Exists (fun kv => DbAttachment.object_key (snd kv) = object_key)
                         (map_to_list (Db.invoice_attachments db)))
  then Err (Constraint "invoice_attachments_object_key_key")
  else if is_some (Db.accounts db !! account) then
    Ok (a, {| db with Db.invoice_attachments := <[id := a]> (Db.invoice_attachments db) |})
  else Err (Constraint "invoice_attachments_account_id_fkey").

Definition mark_ready (account id : Uuid) (byte_length : Z) (sha256 : B256)
    (version_id : option string) (scan_result : string) (now : Timestamp) (db : Db.t) :=
  update_upload account id unfinalized
    (fun a => {| a with
       DbAttachment.byte_length := Some (as_i64 byte_length);
       DbAttachment.sha256 := Some sha256;
       DbAttachment.version_id := version_id;
       DbAttachment.scan_result := Some scan_result;
       DbAttachment.status := Ready;
       DbAttachment.finalized_at := Some now |}) db.

Definition mark_expired (account id : Uuid) (db : Db.t) :=
  update_upload account id (fun s => bool_decide (s = Ready))
    (fun a => {| a with
       DbAttachment.scan_result := Some EXPIRED_UPLOAD;
       DbAttachment.status := Rejected |}) db.

Definition mark_rejected (account id : Uuid) (scan_result : string) (now : Timestamp) (db : Db.t) :=
  update_upload account id unfinalized
    (fun a => {| a with
       DbAttachment.scan_result := Some scan_result;
       DbAttachment.status := Rejected;
       DbAttachment.finalized_at := Some now |}) db.

Definition find_by_invoice (invoice_id : Uuid) (db : Db.t) : option DbAttachment.t :=
  snd <$> List.find (fun kv => bool_decide (DbAttachment.invoice_id (snd kv) = Some invoice_id))
            (map_to_list (Db.invoice_attachments db)).

(** [attach_in_transaction]. The column [invoice_id] is unique. *)
Definition attach_in_transaction (account attachment_id invoice_id : Uuid) (now : Timestamp) (db : Db.t)
  : result AttachInvoiceError (DbAttachment.t * Db.t) :=
  match Db.invoice_attachments db !! attachment_id with
  | Some locked =>
      if negb (DbAttachment.account_id locked =? account) then Err NotFound
      else
        match DbAttachment.status locked with
        | Ready =>
            if is_some (find_by_invoice invoice_id db)
            then Err (AttachDatabase (Constraint "invoice_attachments_invoice_id_key"))
            else
              match update_upload account attachment_id (fun s => bool_decide (s = Ready))
                      (fun a => {| a with
                         DbAttachment.invoice_id := Some invoice_id;
                         DbAttachment.status := Attached;
                         DbAttachment.attached_at := Some now |}) db with
              | Ok (Some a, db') => Ok (a, db')
              | Ok (None, _) => Err NotReady
              | Err e => Err (AttachDatabase e)
              end
        | Attached => Err AlreadyAttached
        | _ => Err NotReady
        end
  | None => Err NotFound
  end.

(** ** What finalization and binding promise *)

Inductive step (db : Db.t) : Db.t -> Prop :=
| step_create id account key name now a db' :
    create_upload id account key name now db = Ok (a, db') -> step db db'
| step_ready account id n h v scan now a db' :
    mark_ready account id n h v scan now db = Ok (a, db') -> step db db'
| step_expired account id a db' : mark_expired account id db = Ok (a, db') -> step db db'
| step_rejected account id scan now a db' :
    mark_rejected account id scan now db = Ok (a, db') -> step db db'
| step_attach account id invoice now a db' :
    attach_in_transaction account id invoice now db = Ok (a, db') -> step db db'.

(** What an attachment row may become: every row is allowed by the schema, a
    content commitment is final, an attached row is frozen. *)
Definition row_evolves (a a' : DbAttachment.t) : Prop :=
  (row_allowed a = true -> row_allowed a' = true) /\
  DbAttachment.account_id a' = DbAttachment.account_id a /\
  (is_some (DbAttachment.sha256 a) = true ->
     DbAttachment.sha256 a' = DbAttachment.sha256 a /\
     DbAttachment.byte_length a' = DbAttachment.byte_length a /\
     DbAttachment.version_id a' = DbAttachment.version_id a /\
     DbAttachment.object_key a' = DbAttachment.object_key a) /\
  (DbAttachment.status a = Attached -> a' = a).

#[export] Instance row_evolves_preorder : PreOrder row_evolves.
Proof.
  split; [by repeat split|].
  intros a b c (Ha1 & Ha2 & Ha3 & Ha4) (Hb1 & Hb2 & Hb3 & Hb4). split_and!; [by auto|congruence| |].
  - intros Hs. destruct (Ha3 Hs) as (E1 & E2 & E3 & E4).
    rewrite E1 in Hb3. destruct (Hb3 Hs) as (F1 & F2 & F3 & F4). split_and!; congruence.
  - intros Hs. rewrite (Ha4 Hs) in *. by apply Hb4.
Qed.

Lemma update_upload_evolves account id p f db a db' :
  (forall s, p s = true -> s <> Attached) ->
  (forall b, DbAttachment.account_id (f b) = DbAttachment.account_id b) ->
  update_upload account id p f db = Ok (a, db') ->
  forall k b, Db.invoice_attachments db !! k = Some b ->
    exists b', Db.invoice_attachments db' !! k = Some b' /\ row_evolves b b'.
Proof.
  intros Hp Hacc. unfold update_upload. intros Hu k b Hb.
  destruct (Db.invoice_attachments db !! id) as [b0|] eqn:Hid; [|inv_ok; exists b; by split].
  destruct ((_ =? account) && p _) eqn:Hg; [|inv_ok; exists b; by split].
  destruct (row_allowed (f b0) && commitment_kept b0 (f b0)) eqn:Hok; [|inv_ok].
  inv_ok. bools. simpl. destruct (decide (k = id)) as [->|Hne].
  - rewrite lookup_insert_eq. simplify_eq. exists (f b0). split; [done|].
    unfold commitment_kept in *. bools. split_and!; [done|done| |].
    + intros Hs. rewrite Hs in *. simpl in *. bools. done.
    + intros Hs. exfalso. eapply Hp; eassumption.
  - rewrite lookup_insert_ne by done. exists b. by split.
Qed.

Lemma attach_update account id invoice now db a db' :
  attach_in_transaction account id invoice now db = Ok (a, db') ->
  update_upload account id (fun s => bool_decide (s = Ready))
    (fun a => {| a with
       DbAttachment.invoice_id := Some invoice;
       DbAttachment.status := Attached;
       DbAttachment.attached_at := Some now |}) db = Ok (Some a, db').
Proof.
  unfold attach_in_transaction. intros H. repeat case_match; inv_ok; done.
Qed.

Lemma step_evolves db db' :
  step db db' -> forall k b, Db.invoice_attachments db !! k = Some b ->
    exists b', Db.invoice_attachments db' !! k = Some b' /\ row_evolves b b'.
Proof.
  intros Hs k b Hb. destruct Hs as [id account key name now a db' H| | | |].
  - unfold create_upload in H. repeat case_match; inv_ok. simpl. exists b. split; [|reflexivity].
    rewrite lookup_insert_ne; [done|]. intros ->. by rewrite Hb in *.
  - eapply update_upload_evolves; [| |eassumption|done]; [by intros []|done].
  - eapply update_upload_evolves; [| |eassumption|done]; [by intros []|done].
  - eapply update_upload_evolves; [| |eassumption|done]; [by intros []|done].
  - eapply update_upload_evolves; [| |eapply attach_update; eassumption|done]; [by intros []|done].
Qed.

(** Whatever happens to an upload after it was finalized, its content
    commitment (length, hash, bucket version, object) never changes, and once
    it is attached to a deposit request its row never changes at all: the
    document a request committed to is the document it keeps. *)
Theorem attachment_commitment_final db db' id a :
  rtc step db db' -> Db.invoice_attachments db !! id = Some a ->
  exists a', Db.invoice_attachments db' !! id = Some a' /\
    (is_some (DbAttachment.sha256 a) = true ->
       DbAttachment.sha256 a' = DbAttachment.sha256 a /\
       DbAttachment.byte_length a' = DbAttachment.byte_length a /\
       DbAttachment.version_id a' = DbAttachment.version_id a /\
       DbAttachment.object_key a' = DbAttachment.object_key a) /\
    (DbAttachment.status a = Attached -> a' = a).
Proof.
  intros Hr Ha.
  assert (exists a', Db.invoice_attachments db' !! id = Some a' /\ row_evolves a a') as (a' & Ha' & H).
  { revert a Ha. induction Hr as [|d1 d2 d3 Hs Hr IH]; intros a Ha; [exists a; by split|].
    destruct (step_evolves _ _ Hs _ _ Ha) as (b & Hb & He).
    destruct (IH b Hb) as (c & Hc & He'). exists c. split; [done|]. by etrans. }
  exists a'. destruct H as (_ & _ & ? & ?). done.
Qed.

End Attachment.

Module AttachmentExample.
Definition accounts_only : Db.t := {| Db.empty with Db.accounts := {[1 := None]} |}.
Definition after (r : result DbError (DbAttachment.t * Db.t)) : Db.t :=
  match r with Ok (_, db) => db | Err _ => Db.empty end.
Definition after_update (r : result DbError (option DbAttachment.t * Db.t)) : Db.t :=
  match r with Ok (_, db) => db | Err _ => Db.empty end.
Definition uploaded : Db.t := after (Attachment.create_upload 9 1 "key" "invoice.pdf" 0 accounts_only).
Definition ready : Db.t :=
  after_update (Attachment.mark_ready 1 9 1024 (repeat 7 32) None CLEAN_SCAN 5 uploaded).
Definition attached : Db.t :=
  match Attachment.attach_in_transaction 1 9 77 6 ready with Ok (_, db) => db | Err _ => Db.empty end.
End AttachmentExample.

Lemma attachment_commitment_final_witness : exists a',
  Db.invoice_attachments AttachmentExample.attached !! 9 = Some a' /\
  DbAttachment.sha256 a' = Some (repeat 7 32) /\ DbAttachment.byte_length a' = Some 1024.
Proof.
  destruct (Attachment.attachment_commitment_final AttachmentExample.ready AttachmentExample.attached 9
              (DbAttachment.mk 9 1 None "key" "invoice.pdf" PDF_MIME_TYPE (Some 1024)
                 (Some (repeat 7 32)) None Ready (Some CLEAN_SCAN) 0 (Some 5) None))
    as (a' & Ha & Hc & _).
  - eapply rtc_once, (Attachment.step_attach _ 1 9 77 6). reflexivity.
  - reflexivity.
  - exists a'. split; [exact Ha|]. destruct (Hc eq_refl) as (H1 & H2 & _). split; [exact H1 | exact H2].
Defined.
