(* ===== verification/Invoices.v ===== *)
(** * gum-ledger: issuing, binding and closing deposit requests

    Models the operations of [InvoiceRepository] in
    [crates/gum-ledger/src/invoices.rs] other than the application of a
    finalized range (file Range): issuance under an idempotency key, the two
    ways of binding an address, expiry of unbound requests, cancellation,
    the release of an attention flag, and the decoding of a row. *)

From stdpp Require Import sorting.
From S2P Require Import Prelude Core Contracts Bus Tables Attachments.

(** ** Decoding a row *)

Inductive DbInvoiceError :=
| InvalidAmount (id : Uuid)
| IncompleteBinding (id : Uuid) (field : string)
| InvalidSnapshot (id : Uuid) (field : string)
| WrongByteLength (id : Uuid) (field : string) (expected got : nat).

Module WalletEvidence.
Record t := mk { payer_wallet : Address; attestation : Json; bound_at : Timestamp }.
End WalletEvidence.

Module PaymentBinding.
Record t := mk {
  network : NetworkTerms.t;
  recovery : Address;
  salt : B256;
  payment_address : Address;
  ready_at : Timestamp;
  wallet : option WalletEvidence.t;
}.
End PaymentBinding.

Module Invoice.
Record t := mk {
  id : Uuid;
  networks : list NetworkTerms.t;
  beneficiary : Address;
  expiration_timestamp : Z;
  amount : Z;
  binding : option PaymentBinding.t;
  issuance_nonce : B256;
  status : InvoiceStatus;
  received : Z;
  execute_tx_hash : option B256;
  resolved_at_block : option Z;
  settled_at_timestamp : option Z;
  attention_reason : option string;
  cancellation_requested_at : option Timestamp;
  attribution_version : Z;
  attribution_hash : B256;
  issuance_snapshot : Snapshot.t;
}.

(** [Invoice::currency]: the snapshot's code, or USDC for an unknown one. *)
Definition currency (i : t) : Currency :=
  match Currency.from_str (Snapshot.currency (issuance_snapshot i)) with
  | Ok c => c
  | Err _ => Usdc
  end.
End Invoice.

Definition fixed_from_col (n : nat) (id : Uuid) (field : string) (value : bytes)
  : result DbInvoiceError bytes :=
  if Nat.eqb (length value) n then Ok value else Err (WrongByteLength id field n (length value)).

Definition address_from_col := fixed_from_col 20.
Definition word_from_col := fixed_from_col 32.

Definition units_from_col (id : Uuid) (value : Z) : result DbInvoiceError Z :=
  ok_or (u256_of_numeral value) (InvalidAmount id).

Fixpoint collect_options {A B} (f : A -> option B) (l : list A) : option (list B) :=
  match l with
  | [] => Some []
  | x :: l' =>
      match f x, collect_options f l' with
      | Some y, Some ys => Some (y :: ys)
      | _, _ => None
      end
  end.

Section Decoding.
(** [Address::from_str] of alloy: a hexadecimal address. *)
Context (parse_address : string -> option Address).

(** [SnapshotNetwork::terms]. *)
Definition network_terms (n : SnapshotNetwork.t) : option NetworkTerms.t :=
  match parse_u64 (SnapshotNetwork.chain_id n), parse_address (SnapshotNetwork.token_address n),
        parse_address (SnapshotNetwork.factory_address n) with
  | Some chain_id, Some token, Some factory => Some (NetworkTerms.mk chain_id token factory)
  | _, _, _ => None
  end.

Definition snapshot_networks (s : Snapshot.t) : option (list NetworkTerms.t) :=
  collect_options network_terms (Snapshot.networks s).

(** The wallet evidence of a bound row. *)
Definition wallet_of_row (row : DbInvoice.t) : result DbInvoiceError (option WalletEvidence.t) :=
  let b := DbInvoice.binding row in
  match Binding.payer_wallet b, Binding.payer_attestation b with
  | Some payer_wallet, Some attestation =>
      let! wallet := address_from_col (DbInvoice.id row) "payer_wallet" payer_wallet in
      let! bound_at := ok_or (Binding.wallet_bound_at b)
                         (IncompleteBinding (DbInvoice.id row) "wallet_bound_at") in
      Ok (Some (WalletEvidence.mk wallet attestation bound_at))
  | None, None => Ok None
  | _, _ => Err (IncompleteBinding (DbInvoice.id row) "payer_attestation")
  end.

Definition binding_of_row (row : DbInvoice.t) (payment_address : Address)
  : result DbInvoiceError PaymentBinding.t :=
  let id := DbInvoice.id row in
  let b := DbInvoice.binding row in
  let missing field := IncompleteBinding id field in
  let! chain_id := ok_or (Binding.chain_id b) (missing "chain_id") in
  let! token := ok_or (Binding.token_address b) (missing "token_address") in
  let! token := address_from_col id "token_address" token in
  let! factory := ok_or (Binding.factory_address b) (missing "factory_address") in
  let! factory := address_from_col id "factory_address" factory in
  let! wallet := wallet_of_row row in
  let! recovery :=
    address_from_col id "recovery_address" (Issuance.recovery_address (DbInvoice.issuance row)) in
  let! salt := ok_or (Binding.salt b) (missing "salt") in
  let! salt := word_from_col id "salt" salt in
  let! address := address_from_col id "payment_address" payment_address in
  let! ready_at := ok_or (Binding.ready_at b) (missing "ready_at") in
  Ok (PaymentBinding.mk (NetworkTerms.mk (as_u64 chain_id) token factory) recovery salt address
        ready_at wallet).

(** [impl TryFrom<&DbInvoice> for Invoice]. A timestamp keeps its
    microseconds; the status column is already the enumeration. *)
Definition invoice_try_from (row : DbInvoice.t) : result DbInvoiceError Invoice.t :=
  let id := DbInvoice.id row in
  let iss := DbInvoice.issuance row in
  let! binding :=
    match Binding.payment_address (DbInvoice.binding row) with
    | None => Ok None
    | Some payment_address =>
        let! b := binding_of_row row payment_address in Ok (Some b)
    end in
  let! networks := ok_or (snapshot_networks (Issuance.issuance_snapshot iss))
                     (InvalidSnapshot id "networks") in
  let! beneficiary := address_from_col id "beneficiary_address" (Issuance.beneficiary_address iss) in
  let! amount := units_from_col id (Issuance.amount iss) in
  let! nonce := word_from_col id "issuance_nonce" (Issuance.issuance_nonce iss) in
  let! received := units_from_col id (DbInvoice.confirmed_received row) in
  let! execute_tx_hash :=
    match DbInvoice.execute_tx_hash row with
    | None => Ok None
    | Some hash => let! h := word_from_col id "execute_tx_hash" hash in Ok (Some h)
    end in
  let! attribution_hash := word_from_col id "attribution_hash" (Issuance.attribution_hash iss) in
  Ok (Invoice.mk id networks beneficiary (as_u64 (Issuance.expiration_timestamp iss)) amount binding
        nonce (DbInvoice.status row) received execute_tx_hash
        (as_u64 <$> DbInvoice.resolved_at_block row)
        ((fun t => as_u64 (t / 10 ^ 6)) <$> DbInvoice.settled_at row)
        (DbInvoice.attention_reason row) (DbInvoice.cancellation_requested_at row)
        (Issuance.attribution_version iss mod 2 ^ 16) attribution_hash
        (Issuance.issuance_snapshot iss)).

End Decoding.

(** ** Issuance *)

Module IssuanceRequest.
Record t := mk {
  networks : list SnapshotNetwork.t;
  currency : string;
  token_decimals : Z;
  beneficiary : Address;
  amount : Z;
  expiration_intent : string;
  issuer : Party.t;
  bill_to : Party.t;
  notes : option string;
  heading : option string;
  reference : option string;
  metadata : Json;
  customer_id : option Uuid;
  issuer_id : option string;
  payer_verification : PayerVerification.t;
  attachment_id : option Uuid;
  attachment : option AttachmentCommitment.t;
}.
End IssuanceRequest.

Definition same_issuance (existing : DbInvoice.t) (request : IssuanceRequest.t) : bool :=
  let e := DbInvoice.issuance existing in
  let committed := Snapshot.attachment (Issuance.issuance_snapshot e) in
  bool_decide (Snapshot.networks (Issuance.issuance_snapshot e) = IssuanceRequest.networks request)
  && bool_decide (Issuance.currency e = IssuanceRequest.currency request)
  && bool_decide (Issuance.token_decimals e = IssuanceRequest.token_decimals request)
  && bool_decide (Issuance.beneficiary_address e = IssuanceRequest.beneficiary request)
  && bool_decide (Issuance.expiration_intent e = IssuanceRequest.expiration_intent request)
  && match u256_of_numeral (Issuance.amount e) with
     | Some amount => amount =? IssuanceRequest.amount request
     | None => false
     end
  && bool_decide (Issuance.reference e = IssuanceRequest.reference request)
  && bool_decide (Issuance.metadata e = IssuanceRequest.metadata request)
  && bool_decide (Issuance.customer_id e = IssuanceRequest.customer_id request)
  && bool_decide (Issuance.issuer_id e = IssuanceRequest.issuer_id request)
  && bool_decide (Issuance.issuer e = Some (IssuanceRequest.issuer request))
  && bool_decide (Issuance.bill_to e = Some (IssuanceRequest.bill_to request))
  && bool_decide (Issuance.notes e = IssuanceRequest.notes request)
  && bool_decide (Issuance.heading e = IssuanceRequest.heading request)
  && bool_decide (Issuance.wallet_attestation_required e =
                  PayerVerification.wallet_attestation (IssuanceRequest.payer_verification request))
  && bool_decide (Issuance.expected_email e =
                  PayerVerification.expected_email (IssuanceRequest.payer_verification request))
  && bool_decide (Issuance.payer_reference e =
                  PayerVerification.payer_reference (IssuanceRequest.payer_verification request))
  && bool_decide (AttachmentCommitment.id <$> committed = IssuanceRequest.attachment_id request)
  && bool_decide (committed = IssuanceRequest.attachment request).

Module CreateInvoiceInput.
Record t := mk {
  id : Uuid;
  account_id : Uuid;
  idempotency_key : string;
  customer_id : option Uuid;
  issuer_id : option string;
  issuer : Party.t;
  bill_to : Party.t;
  notes : option string;
  heading : option string;
  reference : option string;
  metadata : Json;
  payer_verification : PayerVerification.t;
  currency : string;
  token_decimals : Z;
  beneficiary_address : Address;
  expiration_timestamp : Z;
  expires_in_secs : Z;
  expiration_intent : string;
  amount : Z;
  issuance_snapshot : Snapshot.t;
  attribution_version : Z;
  attribution_hash : B256;
  issuance_nonce : B256;
  recovery_address : Address;
  initial_binding : option PaymentBinding.t;
  payer_notification_email : option string;
}.
End CreateInvoiceInput.

Module InsertIssuedInvoice.
Record t := mk { row : DbInvoice.t; attachment : option DbAttachment.t; replayed : bool }.
End InsertIssuedInvoice.

Inductive InsertIssuedInvoiceError :=
| IdempotencyConflict
| AttachmentNotReady
| AttachmentNotFound
| AttachmentAlreadyAttached
| InsertDatabase (e : DbError).

(** [impl From<AttachInvoiceError> for InsertIssuedInvoiceError]. *)
Definition insert_error_of_attach (e : Attachment.AttachInvoiceError) : InsertIssuedInvoiceError :=
  match e with
  | Attachment.NotFound => AttachmentNotFound
  | Attachment.NotReady => AttachmentNotReady
  | Attachment.AlreadyAttached => AttachmentAlreadyAttached
  | Attachment.AttachDatabase e => InsertDatabase e
  end.

(** [SELECT * FROM invoices WHERE account_id = .. AND idempotency_key = ..]. *)
Definition find_by_idempotency_key (account : Uuid) (key : string) (db : Db.t) : option DbInvoice.t :=
  snd <$> List.find (fun kv =>
            (DbInvoice.account_id (snd kv) =? account)
            && String.eqb (Issuance.idempotency_key (DbInvoice.issuance (snd kv))) key)
          (map_to_list (Db.invoices db)).

Definition columns_of_binding (b : PaymentBinding.t) (ready_at : Timestamp) : Binding.t :=
  Binding.mk (Some (as_i64 (NetworkTerms.chain_id (PaymentBinding.network b))))
    (Some (NetworkTerms.factory (PaymentBinding.network b)))
    (Some (NetworkTerms.token (PaymentBinding.network b)))
    None None None
    (Some (PaymentBinding.salt b)) (Some (PaymentBinding.payment_address b)) (Some ready_at).

(** The row the INSERT of [insert_issued] writes. *)
Definition issued_row (input : CreateInvoiceInput.t) (utc_now now : Timestamp) : DbInvoice.t :=
  let v := CreateInvoiceInput.payer_verification input in
  DbInvoice.fresh
    (Issuance.mk (CreateInvoiceInput.id input) (CreateInvoiceInput.account_id input)
       (CreateInvoiceInput.idempotency_key input) (CreateInvoiceInput.currency input)
       (CreateInvoiceInput.token_decimals input) (CreateInvoiceInput.beneficiary_address input)
       (as_i64 (CreateInvoiceInput.expiration_timestamp input))
       (as_i64 (CreateInvoiceInput.expires_in_secs input))
       (CreateInvoiceInput.expiration_intent input) (CreateInvoiceInput.amount input)
       (CreateInvoiceInput.recovery_address input) now (CreateInvoiceInput.reference input)
       (CreateInvoiceInput.metadata input) 0 (CreateInvoiceInput.amount input)
       (CreateInvoiceInput.customer_id input) (CreateInvoiceInput.issuer_id input)
       (Some (CreateInvoiceInput.issuer input)) (Some (CreateInvoiceInput.bill_to input))
       (CreateInvoiceInput.notes input) (CreateInvoiceInput.heading input)
       (PayerVerification.expected_email v) (PayerVerification.payer_reference v)
       (PayerVerification.wallet_attestation v) (CreateInvoiceInput.issuance_snapshot input)
       (CreateInvoiceInput.attribution_version input) (CreateInvoiceInput.attribution_hash input)
       (CreateInvoiceInput.issuance_nonce input))
    (match CreateInvoiceInput.initial_binding input with
     | Some b => columns_of_binding b utc_now
     | None => Binding.unbound
     end)
    now.

(** The unique index on (chain, token, payment address). *)
Definition address_taken (b : Binding.t) (id : Uuid) (invoices : gmap Uuid DbInvoice.t) : bool :=
  is_some (Binding.payment_address b)
  && bool_decide (Exists (fun kv =>
       fst kv <> id /\
       Binding.chain_id (DbInvoice.binding (snd kv)) = Binding.chain_id b /\
       Binding.token_address (DbInvoice.binding (snd kv)) = Binding.token_address b /\
       Binding.payment_address (DbInvoice.binding (snd kv)) = Binding.payment_address b)
       (map_to_list invoices)).

(** The numeric and binding CHECK constraints of [invoices]; the ones that
    bound the length of free text are not modelled. *)
Definition row_allowed (row : DbInvoice.t) : bool :=
  let iss := DbInvoice.issuance row in
  let b := DbInvoice.binding row in
  (0 <? Issuance.amount iss)
  && (0 <=? Issuance.expiration_timestamp iss)
  && (0 <? Issuance.expires_in_secs iss)
  && (0 <=? DbInvoice.confirmed_received row)
  && (0 <=? DbInvoice.uncollected_count row)
  && (0 <=? DbInvoice.sweep_attempts row)
  && bool_decide (is_some (Binding.payment_address b) = is_some (Binding.chain_id b))
  && bool_decide (is_some (Binding.payment_address b) = is_some (Binding.token_address b))
  && bool_decide (is_some (Binding.payment_address b) = is_some (Binding.salt b))
  && (negb (is_some (Binding.payer_wallet b)) || Issuance.wallet_attestation_required iss)
  && (negb (Issuance.wallet_attestation_required iss)
      || negb (is_some (Binding.payment_address b)) || is_some (Binding.payer_wallet b))
  && (is_some (Binding.payment_address b)
      || (match DbInvoice.status row with Created | Expired => true | _ => false end
          && (DbInvoice.confirmed_received row =? 0) && (DbInvoice.uncollected_count row =? 0))).

Section Issuing.
(** [hex::encode_prefixed]. *)
Context (hex : bytes -> string).

(** [CreateInvoiceInput::same_issuance]. *)
Definition input_same_issuance (input : CreateInvoiceInput.t) (existing : DbInvoice.t)
    (existing_attachment : option DbAttachment.t) (attachment_id : option Uuid) : bool :=
  same_issuance existing
    (IssuanceRequest.mk (Snapshot.networks (CreateInvoiceInput.issuance_snapshot input))
       (CreateInvoiceInput.currency input) (CreateInvoiceInput.token_decimals input)
       (CreateInvoiceInput.beneficiary_address input)
       (default 0 (u256_of_numeral (CreateInvoiceInput.amount input)))
       (CreateInvoiceInput.expiration_intent input) (CreateInvoiceInput.issuer input)
       (CreateInvoiceInput.bill_to input) (CreateInvoiceInput.notes input)
       (CreateInvoiceInput.heading input) (CreateInvoiceInput.reference input)
       (CreateInvoiceInput.metadata input) (CreateInvoiceInput.customer_id input)
       (CreateInvoiceInput.issuer_id input) (CreateInvoiceInput.payer_verification input)
       attachment_id (existing_attachment ≫= Attachment.commitment hex)).

Definition replay (input : CreateInvoiceInput.t) (attachment_id : option Uuid)
    (existing : DbInvoice.t) (db : Db.t)
  : result InsertIssuedInvoiceError InsertIssuedInvoice.t :=
  let attachment := Attachment.find_by_invoice (DbInvoice.id existing) db in
  if input_same_issuance input existing attachment attachment_id
  then Ok (InsertIssuedInvoice.mk existing attachment true)
  else Err IdempotencyConflict.

Definition PAYER_DEPOSIT_REQUEST_ISSUED : string := "deposit_request_issued".

(** [insert_issued]. *)
Definition insert_issued (input : CreateInvoiceInput.t) (attachment_id : option Uuid)
    (utc_now now : Timestamp) (db : Db.t)
  : result InsertIssuedInvoiceError (InsertIssuedInvoice.t * Db.t) :=
  let account := CreateInvoiceInput.account_id input in
  let id := CreateInvoiceInput.id input in
  match find_by_idempotency_key account (CreateInvoiceInput.idempotency_key input) db with
  | Some existing => let! r := replay input attachment_id existing db in Ok (r, db)
  | None =>
      let row := issued_row input utc_now now in
      if is_some (Db.invoices db !! id) then Err (InsertDatabase (Constraint "invoices_pkey"))
      else if negb (is_some (Db.accounts db !! account))
      then Err (InsertDatabase (Constraint "invoices_account_id_fkey"))
      else if negb (row_allowed row) then Err (InsertDatabase (Constraint "invoices_check"))
      else if address_taken (DbInvoice.binding row) id (Db.invoices db)
      then Err (InsertDatabase (Constraint "invoices_chain_token_payment_address_unique"))
      else
        let db1 := {| db with Db.invoices := <[id := row]> (Db.invoices db) |} in
        let! '(attachment, db2) :=
          match attachment_id with
          | Some attachment_id =>
              match Attachment.attach_in_transaction account attachment_id id now db1 with
              | Ok (a, db2) => Ok (Some a, db2)
              | Err e => Err (insert_error_of_attach e)
              end
          | None => Ok (None, db1)
          end in
        let db3 :=
          match CreateInvoiceInput.payer_notification_email input with
          | Some email =>
              {| db2 with Db.notification_outbox :=
                   OutboxRow.mk account id "payer" PAYER_DEPOSIT_REQUEST_ISSUED (Some email)
                   :: Db.notification_outbox db2 |}
          | None => db2
          end in
        Ok (InsertIssuedInvoice.mk row attachment false, db3)
  end.

End Issuing.

(** ** Binding *)

Inductive BindPayerWallet :=
| Bound (row : DbInvoice.t)
| AlreadyBound (row : DbInvoice.t)
| NotBindable (row : DbInvoice.t).

(** Write a row, under the constraints of the table. *)
Definition store_invoice (id : Uuid) (row : DbInvoice.t) (db : Db.t) : result DbError Db.t :=
  if negb (row_allowed row) then Err (Constraint "invoices_check")
  else if address_taken (DbInvoice.binding row) id (Db.invoices db)
  then Err (Constraint "invoices_chain_token_payment_address_unique")
  else Ok {| db with Db.invoices := <[id := row]> (Db.invoices db) |}.

(** [bind_payer_wallet]; [utc_now] is the caller's clock, [now] the
    transaction's, [attempt_id] the identifier it draws. *)
Definition bind_payer_wallet (invoice_id session_id attempt_id : Uuid) (binding : PaymentBinding.t)
    (utc_now now : Timestamp) (db : Db.t) : result DbError (BindPayerWallet * Db.t) :=
  let! row := ok_or (Db.invoices db !! invoice_id) RowNotFound in
  if is_some (DbInvoice.payment_address row) then Ok (AlreadyBound row, db)
  else if negb (InvoiceStatus.eqb (DbInvoice.status row) Created)
          || (DbInvoice.expiration_timestamp row <? utc_now / 10 ^ 6)
          || negb (Issuance.wallet_attestation_required (DbInvoice.issuance row))
  then Ok (NotBindable row, db)
  else
    let! wallet := ok_or (PaymentBinding.wallet binding) (Decode "attested binding") in
    let cols := columns_of_binding binding utc_now in
    let row' := {| row with
      DbInvoice.binding := {| cols with
        Binding.payer_wallet := Some (WalletEvidence.payer_wallet wallet);
        Binding.payer_attestation := Some (WalletEvidence.attestation wallet);
        Binding.wallet_bound_at := Some utc_now |};
      DbInvoice.updated_at := now |} in
    let! db1 := store_invoice invoice_id row' db in
    if negb (is_some (Db.payer_sessions db1 !! session_id))
    then Err (Constraint "payer_verifications_payer_session_id_fkey")
    else if is_some (Db.payer_verifications db1 !! attempt_id)
    then Err (Constraint "payer_verifications_pkey")
    else
      let verification := PayerVerificationRow.mk invoice_id (DbInvoice.account_id row') session_id
                            KindWallet VsApproved "gum" None None (Some utc_now) now in
      Ok (Bound row',
          {| db1 with
             Db.payer_verifications := <[attempt_id := verification]> (Db.payer_verifications db1);
             Db.payer_sessions :=
               alter PayerSession.without_challenge session_id (Db.payer_sessions db1) |}).

(** [bind_network]. *)
Definition bind_network (invoice_id : Uuid) (binding : PaymentBinding.t) (utc_now now : Timestamp)
    (db : Db.t) : result DbError (BindPayerWallet * Db.t) :=
  let! row := ok_or (Db.invoices db !! invoice_id) RowNotFound in
  if negb (is_some (DbInvoice.payment_address row))
     && InvoiceStatus.eqb (DbInvoice.status row) Created
     && negb (Issuance.wallet_attestation_required (DbInvoice.issuance row))
  then
    let b := DbInvoice.binding row in
    let cols := columns_of_binding binding utc_now in
    let row' := {| row with
      DbInvoice.binding := {| cols with
        Binding.payer_wallet := Binding.payer_wallet b;
        Binding.payer_attestation := Binding.payer_attestation b;
        Binding.wallet_bound_at := Binding.wallet_bound_at b |};
      DbInvoice.updated_at := now |} in
    let! db1 := store_invoice invoice_id row' db in
    Ok (Bound row', db1)
  else if is_some (DbInvoice.payment_address row) then Ok (AlreadyBound row, db)
  else Ok (NotBindable row, db).

(** ** Expiry, cancellation, release *)

(** [to_timestamp(seconds)]. *)
Definition to_timestamp (seconds : Z) : Timestamp := seconds * 10 ^ 6.

Definition expire_row (chain_time : Z) (now : Timestamp) (row : DbInvoice.t) : DbInvoice.t :=
  {| row with
     DbInvoice.status := Expired;
     DbInvoice.expired_at := Some (to_timestamp chain_time);
     DbInvoice.updated_at := now |}.

(** The ids of the rows a predicate selects. *)
Definition ids_where (p : DbInvoice.t -> bool) (db : Db.t) : list Uuid :=
  fst <$> List.filter (fun kv => p (snd kv)) (map_to_list (Db.invoices db)).

Definition unbound_overdue (chain_time : Z) (row : DbInvoice.t) : bool :=
  negb (is_some (DbInvoice.chain_id row))
  && InvoiceStatus.eqb (DbInvoice.status row) Created
  && (DbInvoice.expiration_timestamp row <? chain_time).

Definition expire_unbound (chain_time : Z) (now : Timestamp) (db : Db.t) : list Uuid * Db.t :=
  let t := as_i64 chain_time in
  (ids_where (unbound_overdue t) db,
   {| db with Db.invoices := update_where (unbound_overdue t) (expire_row t now) (Db.invoices db) |}).

Definition request_cancellation (account id : Uuid) (now : Timestamp) (db : Db.t)
  : option DbInvoice.t * Db.t :=
  match Db.invoices db !! id with
  | Some row =>
      if DbInvoice.account_id row =? account then
        let row' := {| row with
          DbInvoice.cancellation_requested_at :=
            coalesce (DbInvoice.cancellation_requested_at row) (Some now);
          DbInvoice.updated_at :=
            if is_some (DbInvoice.cancellation_requested_at row)
            then DbInvoice.updated_at row else now |} in
        (Some row', {| db with Db.invoices := <[id := row']> (Db.invoices db) |})
      else (None, db)
  | None => (None, db)
  end.

Inductive ReleasePaymentError := ReleaseNotFound | NotAttention.

Definition release_attention (id : Uuid) (now : Timestamp) (db : Db.t)
  : result ReleasePaymentError (DbInvoice.t * Db.t) :=
  match Db.invoices db !! id with
  | Some row =>
      if is_some (DbInvoice.attention_reason row) && negb (is_some (DbInvoice.sweep_job_id row)) then
        let row' := {| row with
          DbInvoice.attention_reason := None;
          DbInvoice.sweep_attempts := 0;
          DbInvoice.last_attempt_at := None;
          DbInvoice.updated_at := now |} in
        Ok (row', {| db with Db.invoices := <[id := row']> (Db.invoices db) |})
      else Err NotAttention
  | None => Err ReleaseNotFound
  end.

(** ** The indexer's watch list *)

Definition watched (chain_id : Z) (recent_since : Timestamp) (row : DbInvoice.t) : bool :=
  is_some (DbInvoice.payment_address row)
  && bool_decide (DbInvoice.chain_id row = Some (as_i64 chain_id))
  && (negb (InvoiceStatus.is_terminal (DbInvoice.status row))
      || (0 <? DbInvoice.uncollected_count row)
      || (recent_since <? DbInvoice.updated_at row)).

Definition watch_fingerprint (chain_id : Z) (recent_since : Timestamp) (db : Db.t)
  : Z * option Timestamp :=
  let rows := List.filter (watched chain_id recent_since) (map_to_list (Db.invoices db)).*2 in
  (Z.of_nat (length rows),
   foldr (fun row newest =>
            Some (match newest with
                  | Some t => Z.max t (DbInvoice.updated_at row)
                  | None => DbInvoice.updated_at row
                  end)) None rows).

(** [ORDER BY payment_address]; the column's CHECK keeps it at 20 bytes. *)
Definition watch_addresses (chain_id : Z) (recent_since : Timestamp) (db : Db.t) : list Address :=
  merge_sort bytes_le
    (omap DbInvoice.payment_address
       (List.filter (watched chain_id recent_since) (map_to_list (Db.invoices db)).*2)).

Definition first_observed_block (invoice_id : Uuid) (db : Db.t) : option Z :=
  foldr (fun kv lowest =>
    let o := snd kv in
    if (Observation.invoice_id o =? invoice_id) && negb (Observation.is_error o) then
      Some (match lowest with
            | Some b => Z.min b (Observation.block_number o)
            | None => Observation.block_number o
            end)
    else lowest) None (map_to_list (Db.payment_observations db)).
