(* ===== verification/Attribution.v ===== *)
(** * gum-core: the commitment behind a payment address

    Models the parts of [crates/gum-core/src] that derive an address:
    [attribution.rs] (the canonical snapshot, its hash and the salt),
    [deterministic_address.rs] (CREATE3), [payer_attestation.rs] (the payer's
    EIP-712 attestation) and [invoice.rs] (issuing a request and binding it to
    a network or a wallet).

    Hashes, signature recovery, canonical JSON, ABI and EIP-712 encoding and
    the text forms of addresses and words are the primitives of the class
    [Primitives]; [Lawful] states what the code relies on. *)

From stdpp Require Import pretty.
From S2P Require Import Prelude Core Contracts Bus Tables Attachments Invoices.

(** ** The payer's attestation: data *)

Module PayerAttestation.
Record t := mk {
  statement : string;
  attributionHash : B256;
  wallet : Address;
  nonce : B256;
  expiresAt : Z;
}.
End PayerAttestation.

Module Eip712Domain.
Record t := mk { name : string; version : string; chain_id : Z; verifying_contract : Address }.
End Eip712Domain.

Module TypedDataDomain.
Record t := mk { name : string; version : string; chain_id : Z; verifying_contract : string }.
End TypedDataDomain.

Module TypedDataField.
Record t := mk { name : string; kind : string }.
End TypedDataField.

Module TypedDataTypes.
Record t := mk { eip712_domain : list TypedDataField.t; payer_attestation : list TypedDataField.t }.
End TypedDataTypes.

Module PayerAttestationMessage.
Record t := mk {
  statement : string; attribution_hash : string; wallet : string; nonce : string; expires_at : Z;
}.
End PayerAttestationMessage.

Module PayerAttestationTypedData.
Record t := mk {
  domain : TypedDataDomain.t;
  primary_type : string;
  types : TypedDataTypes.t;
  message : PayerAttestationMessage.t;
}.
End PayerAttestationTypedData.

Module PayerWalletAttestation.
Record t := mk {
  address : string;
  typed_data : PayerAttestationTypedData.t;
  digest : string;
  signature : string;
  method : string;
}.
End PayerWalletAttestation.

Module PayerAttestationScope.
Record t := mk { chain_id : Z; factory : Address; attribution_hash : B256 }.
End PayerAttestationScope.

Module VerifiedPayerAttestation.
Record t := mk { wallet : Address; digest : B256; nonce : B256; expires_at : Z }.
End VerifiedPayerAttestation.

Inductive PayerAttestationError :=
| AttestationMalformed (field : string)
| UnsupportedMethod
| UnexpectedTypedData
| DomainMismatch
| AttestationHashMismatch
| DigestMismatch
| SignatureInvalid
| SignerMismatch.

(** ** Primitives *)

(** The terms [PaymentFactory.deploymentSalt] encodes. *)
Module DeploymentTerms.
Record t := mk {
  token : Address; amount : Z; receiver : Address; expiration_timestamp : Z; recovery : Address;
  salt : B256; chain_id : Z;
}.
End DeploymentTerms.

Class Primitives := {
  keccak256 : bytes -> B256;
  sha256 : bytes -> B256;
  (* [Signature::from_raw] and [recover_address_from_prehash] *)
  recover : bytes -> B256 -> option Address;
  parse_address : string -> option Address;
  to_checksum : Address -> string;
  parse_word : string -> option B256;
  word_string : B256 -> string;
  parse_u256 : string -> option Z;
  hex_decode : string -> option bytes;
  hex_encode_prefixed : bytes -> string;
  jcs_snapshot : Snapshot.t -> option bytes;
  eip712_signing_hash : Eip712Domain.t -> PayerAttestation.t -> B256;
  abi_encode_terms : DeploymentTerms.t -> bytes;
  attestation_to_json : PayerWalletAttestation.t -> Json;
  attestation_from_json : Json -> option PayerWalletAttestation.t;
}.

Definition octets (n : nat) (b : bytes) : Prop := length b = n /\ Forall (fun x => 0 <= x < 256) b.

(** The text forms are read back, hashes are words, decimals are numbers. *)
Class Lawful (P : Primitives) : Prop := {
  keccak_word b : octets 32 (keccak256 b);
  digest_word d m : octets 32 (eip712_signing_hash d m);
  address_roundtrip a : octets 20 a -> parse_address (to_checksum a) = Some a;
  word_roundtrip b : octets 32 b -> parse_word (word_string b) = Some b;
  hex_roundtrip n b : octets n b -> hex_decode (hex_encode_prefixed b) = Some b;
  u256_roundtrip n : 0 <= n <= u256_max -> parse_u256 (pretty n) = Some n;
  parse_address_octets s a : parse_address s = Some a -> octets 20 a;
  parse_word_octets s b : parse_word s = Some b -> octets 32 b;
  parse_u256_range s n : parse_u256 s = Some n -> 0 <= n <= u256_max;
}.

(** [b"..."]. *)
Fixpoint ascii_bytes (s : string) : bytes :=
  match s with
  | EmptyString => []
  | String c s' => Z.of_N (Ascii.N_of_ascii c) :: ascii_bytes s'
  end.

Definition ATTRIBUTION_VERSION : Z := 5.
Definition ATTRIBUTION_DOMAIN : bytes := ascii_bytes "GUM_ATTRIBUTION_V5".
Definition SALT_DOMAIN : bytes := ascii_bytes "GUM_SALT_V5".
Definition SNAPSHOT_SCHEMA : string := "gum.invoice.v5".
Definition CANONICALIZATION : string := "RFC8785".

Definition PAYER_ATTESTATION_DOMAIN_NAME : string := "Gum".
Definition PAYER_ATTESTATION_DOMAIN_VERSION : string := "2".
Definition PAYER_ATTESTATION_PRIMARY_TYPE : string := "PayerAttestation".
Definition PAYER_ATTESTATION_STATEMENT : string :=
  "I control this wallet and will pay this Gum deposit request from it. Only transfers from this wallet count toward the request.".
Definition PAYER_ATTESTATION_METHOD_ECDSA : string := "ecdsa".

(* 0x21c35dbe1b344a2488cf3321d6ce542f8e9f305544ff09e4993a62319a497c1f *)
Definition PROXY_INITCODE_HASH : B256 :=
  [33; 195; 93; 190; 27; 52; 74; 36; 136; 207; 51; 33; 214; 206; 84; 47;
   142; 159; 48; 85; 68; 255; 9; 228; 153; 58; 98; 49; 154; 73; 124; 31].

(** ** The snapshot *)

Inductive AttributionError :=
| Canonicalization
| SnapshotMismatch (field : string)
(* [expect("networks rendered from typed terms parse back")] *)
| NetworksPanic.

Inductive BindError :=
| UnsupportedChain (chain_id : Z)
| BindAttestation (e : PayerAttestationError)
| WalletAttestationNotAttached
(* [expect("a stored snapshot's recovery address parses")] *)
| RecoveryPanic.

Module AttributionMaterial.
Record t := mk { canonical_bytes : bytes; attribution_hash : B256 }.
End AttributionMaterial.

Definition is_gated (v : PayerVerification.t) : bool :=
  is_some (PayerVerification.email v) || is_some (PayerVerification.merchant_auth v).

Definition addons (v : PayerVerification.t) : list string :=
  (if is_some (PayerVerification.email v) then ["email"%string] else [])
  ++ (if is_some (PayerVerification.merchant_auth v) then ["merchant_auth"%string] else [])
  ++ (if PayerVerification.wallet_attestation v then ["wallet_attestation"%string] else []).

Definition is_default (v : PayerVerification.t) : bool :=
  match addons v with [] => true | _ => false end.

(** [sort_by_key(|network| network.chain_id)], which is stable. *)
Fixpoint insert_network (n : NetworkTerms.t) (l : list NetworkTerms.t) : list NetworkTerms.t :=
  match l with
  | [] => [n]
  | m :: l' => if NetworkTerms.chain_id n <=? NetworkTerms.chain_id m then n :: l else m :: insert_network n l'
  end.

Definition sort_networks (l : list NetworkTerms.t) : list NetworkTerms.t := foldr insert_network [] l.

Definition is_zero_address (a : Address) : bool := forallb (fun x => x =? 0) a.

Section Attribution.
Context `{P : Primitives}.

(** [SnapshotNetwork::from]. *)
Definition render_network (n : NetworkTerms.t) : SnapshotNetwork.t :=
  SnapshotNetwork.mk (pretty (NetworkTerms.chain_id n)) (to_checksum (NetworkTerms.token n))
    (to_checksum (NetworkTerms.factory n)).

(** [CanonicalIssuanceSnapshot::new]. *)
Definition snapshot_new (issuer bill_to : Party.t) (v : PayerVerification.t) (currency : Currency)
    (networks : list NetworkTerms.t) (receiver recovery : Address) (amount expiration_timestamp : Z) : Snapshot.t :=
  Snapshot.mk SNAPSHOT_SCHEMA CANONICALIZATION issuer bill_to (Currency.code currency)
    (pretty (Currency.decimals currency)) (pretty amount) None None None (pretty expiration_timestamp) v None
    (render_network <$> sort_networks networks) (to_checksum receiver) (to_checksum recovery).

Definition canonical_bytes (s : Snapshot.t) : result AttributionError bytes := ok_or (jcs_snapshot s) Canonicalization.

Definition attribution_hash (canonical : bytes) : B256 := keccak256 (ATTRIBUTION_DOMAIN ++ canonical).

Definition recompute_salt (nonce hash : B256) (digest : option B256) : B256 :=
  keccak256 (SALT_DOMAIN ++ nonce ++ hash ++ default [] digest).

(** [derive_attribution]. *)
Definition derive_attribution (s : Snapshot.t) : result AttributionError AttributionMaterial.t :=
  let! bytes := canonical_bytes s in
  Ok (AttributionMaterial.mk bytes (attribution_hash bytes)).

(** [SnapshotNetwork::terms] and [CanonicalIssuanceSnapshot::networks]. *)
Definition typed_networks (s : Snapshot.t) : option (list NetworkTerms.t) := snapshot_networks parse_address s.

(** ** The address *)

(** [Address::from_slice(&hash[12..])]. *)
Definition hash_address (hash : B256) : Address := drop 12 hash.

Definition predict_payment_address (factory token : Address) (amount : Z) (receiver : Address)
    (expiration_timestamp : Z) (recovery : Address) (salt : B256) (chain_id : Z) : Address :=
  let deployment_salt :=
    keccak256 (abi_encode_terms (DeploymentTerms.mk token amount receiver expiration_timestamp recovery salt chain_id)) in
  let proxy_hash := keccak256 ([255] ++ factory ++ deployment_salt ++ PROXY_INITCODE_HASH) in
  hash_address (keccak256 ([214; 148] ++ hash_address proxy_hash ++ [1])).

(** ** The payer's attestation *)

Definition eip712_domain (chain_id : Z) (factory : Address) : Eip712Domain.t :=
  Eip712Domain.mk PAYER_ATTESTATION_DOMAIN_NAME PAYER_ATTESTATION_DOMAIN_VERSION chain_id factory.

Definition attestation_new (hash : B256) (wallet : Address) (nonce : B256) (expires_at : Z) : PayerAttestation.t :=
  PayerAttestation.mk PAYER_ATTESTATION_STATEMENT hash wallet nonce expires_at.

Definition attestation_digest_on (m : PayerAttestation.t) (chain_id : Z) (factory : Address) : B256 :=
  eip712_signing_hash (eip712_domain chain_id factory) m.

Definition typed_data (m : PayerAttestation.t) (chain_id : Z) (factory : Address) : PayerAttestationTypedData.t :=
  PayerAttestationTypedData.mk
    (TypedDataDomain.mk PAYER_ATTESTATION_DOMAIN_NAME PAYER_ATTESTATION_DOMAIN_VERSION chain_id (to_checksum factory))
    PAYER_ATTESTATION_PRIMARY_TYPE
    (TypedDataTypes.mk
       [TypedDataField.mk "name" "string"; TypedDataField.mk "version" "string";
        TypedDataField.mk "chainId" "uint256"; TypedDataField.mk "verifyingContract" "address"]
       [TypedDataField.mk "statement" "string"; TypedDataField.mk "attributionHash" "bytes32";
        TypedDataField.mk "wallet" "address"; TypedDataField.mk "nonce" "bytes32";
        TypedDataField.mk "expiresAt" "uint256"])
    (PayerAttestationMessage.mk (PayerAttestation.statement m) (word_string (PayerAttestation.attributionHash m))
       (to_checksum (PayerAttestation.wallet m)) (word_string (PayerAttestation.nonce m))
       (PayerAttestation.expiresAt m)).

Definition payer_wallet_attestation (m : PayerAttestation.t) (chain_id : Z) (factory : Address) (signature : bytes)
  : PayerWalletAttestation.t :=
  PayerWalletAttestation.mk (to_checksum (PayerAttestation.wallet m)) (typed_data m chain_id factory)
    (word_string (attestation_digest_on m chain_id factory)) (hex_encode_prefixed signature)
    PAYER_ATTESTATION_METHOD_ECDSA.

Definition guard {E} (ok : bool) (e : E) : result E unit := if ok then Ok tt else Err e.

Definition verify_payer_attestation (a : PayerWalletAttestation.t) (scope : PayerAttestationScope.t)
  : result PayerAttestationError VerifiedPayerAttestation.t :=
  let! _ := guard (String.eqb (PayerWalletAttestation.method a) PAYER_ATTESTATION_METHOD_ECDSA) UnsupportedMethod in
  let typed := PayerWalletAttestation.typed_data a in
  let message := PayerAttestationTypedData.message typed in
  let domain := PayerAttestationTypedData.domain typed in
  let! _ := guard (String.eqb (PayerAttestationTypedData.primary_type typed) PAYER_ATTESTATION_PRIMARY_TYPE
                   && String.eqb (PayerAttestationMessage.statement message) PAYER_ATTESTATION_STATEMENT)
              UnexpectedTypedData in
  let! verifying_contract := ok_or (parse_address (TypedDataDomain.verifying_contract domain))
                               (AttestationMalformed "domain.verifyingContract") in
  let! _ := guard (String.eqb (TypedDataDomain.name domain) PAYER_ATTESTATION_DOMAIN_NAME
                   && String.eqb (TypedDataDomain.version domain) PAYER_ATTESTATION_DOMAIN_VERSION
                   && (TypedDataDomain.chain_id domain =? PayerAttestationScope.chain_id scope)
                   && bool_decide (verifying_contract = PayerAttestationScope.factory scope))
              DomainMismatch in
  let! hash := ok_or (parse_word (PayerAttestationMessage.attribution_hash message))
                 (AttestationMalformed "message.attributionHash") in
  let! _ := guard (bool_decide (hash = PayerAttestationScope.attribution_hash scope)) AttestationHashMismatch in
  let! wallet := ok_or (parse_address (PayerAttestationMessage.wallet message)) (AttestationMalformed "message.wallet") in
  let! stated := ok_or (parse_address (PayerWalletAttestation.address a)) (AttestationMalformed "address") in
  let! _ := guard (negb (is_zero_address wallet || negb (bool_decide (wallet = stated)))) SignerMismatch in
  let! nonce := ok_or (parse_word (PayerAttestationMessage.nonce message)) (AttestationMalformed "message.nonce") in
  let expires_at := PayerAttestationMessage.expires_at message in
  let digest := attestation_digest_on (attestation_new hash wallet nonce expires_at)
                  (PayerAttestationScope.chain_id scope) (PayerAttestationScope.factory scope) in
  let! stated_digest := ok_or (parse_word (PayerWalletAttestation.digest a)) (AttestationMalformed "digest") in
  let! _ := guard (bool_decide (digest = stated_digest)) DigestMismatch in
  let! signature := ok_or (hex_decode (PayerWalletAttestation.signature a)) SignatureInvalid in
  let! recovered := ok_or (recover signature digest) SignatureInvalid in
  let! _ := guard (bool_decide (recovered = wallet)) SignerMismatch in
  Ok (VerifiedPayerAttestation.mk wallet digest nonce expires_at).

(** ** Requests ([invoice.rs]) *)

Definition issue_checks (snapshot expected : Snapshot.t) : list (string * bool) :=
  [("schema", String.eqb (Snapshot.schema snapshot) SNAPSHOT_SCHEMA);
   ("canonicalization", String.eqb (Snapshot.canonicalization snapshot) CANONICALIZATION);
   ("currency", String.eqb (Snapshot.currency snapshot) (Snapshot.currency expected));
   ("decimals", String.eqb (Snapshot.decimals snapshot) (Snapshot.decimals expected));
   ("networks", bool_decide (Snapshot.networks snapshot = Snapshot.networks expected));
   ("receiver_address", String.eqb (Snapshot.receiver_address snapshot) (Snapshot.receiver_address expected));
   ("recovery_address", String.eqb (Snapshot.recovery_address snapshot) (Snapshot.recovery_address expected));
   ("amount_base_units", String.eqb (Snapshot.amount_base_units snapshot) (Snapshot.amount_base_units expected));
   ("expiration_timestamp",
    String.eqb (Snapshot.expiration_timestamp snapshot) (Snapshot.expiration_timestamp expected))]%string.

Fixpoint check_fields (checks : list (string * bool)) : result AttributionError unit :=
  match checks with
  | [] => Ok tt
  | (field, matches) :: rest => if matches then check_fields rest else Err (SnapshotMismatch field)
  end.

(** [Invoice::issue]; the id and the nonce it draws are arguments. *)
Definition issue (id : Uuid) (nonce : B256) (currency : Currency) (networks : list NetworkTerms.t)
    (beneficiary recovery : Address) (amount expiration_timestamp : Z) (snapshot : Snapshot.t)
  : result AttributionError Invoice.t :=
  let expected := snapshot_new (Snapshot.issuer snapshot) (Snapshot.bill_to snapshot)
                    (Snapshot.payer_verification snapshot) currency networks beneficiary recovery amount
                    expiration_timestamp in
  let! _ := check_fields (issue_checks snapshot expected) in
  let! _ := guard (negb (match networks with [] => true | _ => false end)) (SnapshotMismatch "networks") in
  let! material := derive_attribution snapshot in
  let! typed := ok_or (typed_networks expected) NetworksPanic in
  Ok (Invoice.mk id typed beneficiary expiration_timestamp amount None nonce Created 0 None None None None None
        ATTRIBUTION_VERSION (AttributionMaterial.attribution_hash material) snapshot).

Definition network_for (i : Invoice.t) (chain_id : Z) : option NetworkTerms.t :=
  List.find (fun n => NetworkTerms.chain_id n =? chain_id) (Invoice.networks i).

Definition network (i : Invoice.t) : option NetworkTerms.t := PaymentBinding.network <$> Invoice.binding i.

Definition wallet_attestation_required (i : Invoice.t) : bool :=
  PayerVerification.wallet_attestation (Snapshot.payer_verification (Invoice.issuance_snapshot i)).

(** The stored recovery term, parsed as an [Address]; [None] is the panic of
    [expect]. *)
Definition recovery (i : Invoice.t) : option Address :=
  parse_address (Snapshot.recovery_address (Invoice.issuance_snapshot i)).

Definition attestation_scope (i : Invoice.t) (chain_id : Z) : option PayerAttestationScope.t :=
  (fun n => PayerAttestationScope.mk (NetworkTerms.chain_id n) (NetworkTerms.factory n) (Invoice.attribution_hash i))
    <$> network_for i chain_id.

Definition address_of (i : Invoice.t) (n : NetworkTerms.t) (recovery : Address) (salt : B256) : Address :=
  predict_payment_address (NetworkTerms.factory n) (NetworkTerms.token n) (Invoice.amount i) (Invoice.beneficiary i)
    (Invoice.expiration_timestamp i) recovery salt (NetworkTerms.chain_id n).

Definition bind_to_network (i : Invoice.t) (chain_id : Z) (ready_at : Timestamp) : result BindError PaymentBinding.t :=
  if wallet_attestation_required i then Err WalletAttestationNotAttached
  else
    let! n := ok_or (network_for i chain_id) (UnsupportedChain chain_id) in
    let! r := ok_or (recovery i) RecoveryPanic in
    let salt := recompute_salt (Invoice.issuance_nonce i) (Invoice.attribution_hash i) None in
    Ok (PaymentBinding.mk n r salt (address_of i n r salt) ready_at None).

Definition bind_to_wallet (i : Invoice.t) (chain_id : Z) (a : PayerWalletAttestation.t) (bound_at : Timestamp)
  : result BindError PaymentBinding.t :=
  if negb (wallet_attestation_required i) then Err WalletAttestationNotAttached
  else
    let! n := ok_or (network_for i chain_id) (UnsupportedChain chain_id) in
    let! scope := ok_or (attestation_scope i chain_id) (UnsupportedChain chain_id) in
    let! verified := match verify_payer_attestation a scope with Ok v => Ok v | Err e => Err (BindAttestation e) end in
    let! r := ok_or (recovery i) RecoveryPanic in
    let salt := recompute_salt (Invoice.issuance_nonce i) (Invoice.attribution_hash i)
                  (Some (VerifiedPayerAttestation.digest verified)) in
    Ok (PaymentBinding.mk n r salt (address_of i n r salt) bound_at
          (Some (WalletEvidence.mk (VerifiedPayerAttestation.wallet verified) (attestation_to_json a) bound_at))).

Definition payment_address (i : Invoice.t) : option Address := PaymentBinding.payment_address <$> Invoice.binding i.

Definition address_matches_parameters (i : Invoice.t) : bool :=
  match Invoice.binding i with
  | None => true
  | Some b =>
      bool_decide (address_of i (PaymentBinding.network b) (PaymentBinding.recovery b) (PaymentBinding.salt b)
                   = PaymentBinding.payment_address b)
  end.

End Attribution.
