(* ===== verification/Range.v ===== *)
(** * gum-ledger: applying a finalized range

    Models [InvoiceRepository::apply_finalized_range] of
    [crates/gum-ledger/src/invoices.rs], cut at its own seams: the cursor's
    compare-and-set, the loading of one credit per watched address, the
    classification and attribution of one observation, the loop over the
    observations, the write-back of touched credits, expiry, and the new
    cursor. Also the cursor repository of [crates/gum-ledger/src/cursor.rs]. *)

From S2P Require Import Prelude Core Contracts Bus Tables Attachments Invoices.

(** ** The cursor ([cursor.rs]) *)

Definition cursor_of_row (row : CursorRow.t) : result DbError IndexerCursor.t :=
  if Nat.eqb (length (CursorRow.last_block_hash row)) 32
  then Ok (IndexerCursor.mk (as_u64 (CursorRow.last_block row)) (CursorRow.last_block_hash row)
             (as_u64 <$> CursorRow.last_block_timestamp row))
  else Err (Decode "invalid indexer cursor block hash length").

(** [CursorRepository::get], and the locked read of the compare-and-set. *)
Definition get_cursor (chain_id : Z) (db : Db.t) : result DbError (option IndexerCursor.t) :=
  match Db.indexer_cursor db !! as_i64 chain_id with
  | None => Ok None
  | Some row => let! c := cursor_of_row row in Ok (Some c)
  end.

Definition store_cursor (chain_id block : Z) (hash : B256) (timestamp : Z) (now : Timestamp) (db : Db.t)
  : result DbError Db.t :=
  if (0 <=? as_i64 block) && (0 <=? as_i64 timestamp)
  then Ok {| db with Db.indexer_cursor :=
         <[as_i64 chain_id := CursorRow.mk (as_i64 block) hash (Some (as_i64 timestamp)) now]>
           (Db.indexer_cursor db) |}
  else Err (Constraint "indexer_cursor_last_block_non_negative").

Definition record_finalized_head (chain_id block : Z) (hash : B256) (timestamp : Z) (db : Db.t)
  : result DbError Db.t :=
  if (0 <=? as_i64 block) && (0 <=? as_i64 timestamp)
  then Ok {| db with Db.indexer_status :=
         <[as_i64 chain_id := StatusRow.mk (as_i64 block) hash (as_i64 timestamp)]>
           (Db.indexer_status db) |}
  else Err (Constraint "indexer_status_finalized_block_check").

(** ** Credits *)

Inductive Attribution := AttrPayer | AttrRelay (intent : Uuid) | AttrParked | AttrForeign.

Module InvoiceCredit.
Record t := mk {
  id : Uuid;
  status : InvoiceStatus;
  expiration_timestamp : Z;
  required : Z;
  received : Z;
  drained_at : option position;
  settlement_at : option position;
  uncollected : Z;
  touched : bool;
  token_address : Address;
  payer_wallet : option Address;
  first_foreign_timestamp : option Z;
  crossing : option (Z * Z * B256 * Z);
  relay : list (Uuid * RelayIntent.t);
}.
End InvoiceCredit.

Abbreviation Credits := (gmap (list Z) InvoiceCredit.t) (only parsing).

(** The intents of the invoice that may explain a solver's transfer. *)
Definition relay_of (invoice_id : Uuid) (db : Db.t) : list (Uuid * RelayIntent.t) :=
  List.filter (fun kv =>
      (RelayIntent.invoice_id (snd kv) =? invoice_id)
      && match RelayIntent.status (snd kv) with Sent | Filled => true | _ => false end)
    (map_to_list (Db.relay_intents db)).

Definition load_credit (db : Db.t) (credits : Credits) (row : DbInvoice.t) : result DbError Credits :=
  let! required := ok_or (u256_of_numeral (DbInvoice.amount row)) (Decode "invalid invoice amount") in
  let! received := ok_or (u256_of_numeral (DbInvoice.confirmed_received row))
                     (Decode "invalid confirmed_received") in
  match DbInvoice.payment_address row, DbInvoice.token_address row with
  | Some payment_address, Some token_address =>
      Ok (<[payment_address :=
             InvoiceCredit.mk (DbInvoice.id row) (DbInvoice.status row)
               (as_u64 (DbInvoice.expiration_timestamp row)) required received
               (DbInvoice.drained_at row) (DbInvoice.settlement_at row)
               (DbInvoice.uncollected_count row) false token_address (DbInvoice.payer_wallet row)
               None None (relay_of (DbInvoice.id row) db)]> credits)
  | _, _ => Ok credits
  end.

(** The locked rows: the chain's invoices at a recipient's address. *)
Definition watched_rows (chain : Z) (recipients : list Address) (db : Db.t) : list DbInvoice.t :=
  List.filter (fun row =>
      bool_decide (DbInvoice.chain_id row = Some chain)
      && match DbInvoice.payment_address row with
         | Some a => bool_decide (a ∈ recipients)
         | None => false
         end) (map_to_list (Db.invoices db)).*2.

Definition load_credits (chain : Z) (observations : list PaymentObservation.t) (db : Db.t)
  : result DbError Credits :=
  try_fold (load_credit db) ∅
    (watched_rows chain (PaymentObservation.recipient <$> observations) db).

(** ** One observation *)

Definition position_of (o : PaymentObservation.t) : position :=
  (as_i64 (PaymentObservation.block_number o), as_i64 (PaymentObservation.transaction_index o)).

Definition is_open_status (s : InvoiceStatus) : bool :=
  match s with Created | Funded => true | _ => false end.

Definition accepting (credit : InvoiceCredit.t) (o : PaymentObservation.t) : bool :=
  let before_settlement :=
    match InvoiceCredit.settlement_at credit with
    | None => true
    | Some p => position_lt (position_of o) p
    end in
  before_settlement
  && (PaymentObservation.block_timestamp o <=? InvoiceCredit.expiration_timestamp credit)
  && (is_open_status (InvoiceCredit.status credit) || is_some (InvoiceCredit.settlement_at credit)).

Definition is_zero (o : PaymentObservation.t) : bool := PaymentObservation.amount o =? 0.

Definition classify (credit : InvoiceCredit.t) (o : PaymentObservation.t)
  : TransferDisposition * option string :=
  if is_zero o then (Error, Some "zero_amount")
  else if accepting credit o then (Credited, None)
  else if is_open_status (InvoiceCredit.status credit) then (Late, Some "invoice_expired")
  else (Late, Some ("invoice_" +:+ InvoiceStatus.as_str (InvoiceCredit.status credit))).

Definition collected_at (credit : InvoiceCredit.t) (o : PaymentObservation.t) : option position :=
  if is_zero o then None
  else match InvoiceCredit.drained_at credit with
       | Some p => if position_lt (position_of o) p then Some p else None
       | None => None
       end.

Definition quoted_for (o : PaymentObservation.t) (intent : RelayIntent.t) : bool :=
  match u256_of_numeral (RelayIntent.quoted_out_amount intent) with
  | Some quoted => quoted =? PaymentObservation.amount o
  | None => false
  end.

Definition find_fill (relay : list (Uuid * RelayIntent.t)) (o : PaymentObservation.t)
  : option (Uuid * RelayIntent.t) :=
  List.find (fun kv =>
      bool_decide (RelayIntent.status (snd kv) = Filled)
      && quoted_for o (snd kv)
      && bool_decide (PaymentObservation.transaction_hash o ∈ RelayIntent.fill_tx_hashes (snd kv)))
    relay.

Definition attribute (credit : InvoiceCredit.t) (o : PaymentObservation.t) : Attribution :=
  match InvoiceCredit.payer_wallet credit with
  | None =>
      if is_zero o then AttrForeign
      else match find_fill (InvoiceCredit.relay credit) o with
           | Some (id, _) => AttrRelay id
           | None => AttrPayer
           end
  | Some payer_wallet =>
      if bool_decide (PaymentObservation.sender o = payer_wallet) then AttrPayer
      else if is_zero o then AttrForeign
      else match find_fill (InvoiceCredit.relay credit) o with
           | Some (id, _) => AttrRelay id
           | None =>
               if existsb (fun kv => bool_decide (RelayIntent.status (snd kv) = Sent)
                                     && quoted_for o (snd kv)) (InvoiceCredit.relay credit)
               then AttrParked else AttrForeign
           end
  end.

Definition observation_key (chain : Z) (o : PaymentObservation.t) : Z * list Z * list Z * Z :=
  (chain, PaymentObservation.token o, PaymentObservation.transaction_hash o,
   as_i64 (PaymentObservation.log_index o)).

Definition observation_row (now : Timestamp) (credit : InvoiceCredit.t) (o : PaymentObservation.t)
  : Observation.t :=
  let '(disposition, reason) := classify credit o in
  let attribution := attribute credit o in
  Observation.mk (InvoiceCredit.id credit) (as_i64 (PaymentObservation.block_number o))
    (PaymentObservation.block_hash o) (as_i64 (PaymentObservation.block_timestamp o))
    (as_i64 (PaymentObservation.transaction_index o)) (PaymentObservation.sender o)
    (PaymentObservation.recipient o) (PaymentObservation.amount o) disposition reason
    (collected_at credit o)
    (match attribution with AttrRelay id => Some id | _ => None end)
    (match attribution with AttrParked => Some now | _ => None end) now.

(** The CHECK constraints on an inserted observation. *)
Definition observation_allowed (o : PaymentObservation.t) : bool :=
  (0 <=? as_i64 (PaymentObservation.block_number o))
  && (0 <=? as_i64 (PaymentObservation.transaction_index o))
  && (0 <=? as_i64 (PaymentObservation.log_index o))
  && (0 <=? as_i64 (PaymentObservation.block_timestamp o)).

(** What a newly inserted nonzero observation does to its credit. *)
Definition earlier (a : option Z) (b : Z) : option Z :=
  Some (match a with Some x => Z.min x b | None => b end).

Definition credit_observation (credit : InvoiceCredit.t) (o : PaymentObservation.t)
  : result DbError InvoiceCredit.t :=
  let credit1 := {| credit with
    InvoiceCredit.touched := true;
    InvoiceCredit.first_foreign_timestamp :=
      match attribute credit o with
      | AttrForeign => earlier (InvoiceCredit.first_foreign_timestamp credit)
                         (PaymentObservation.block_timestamp o)
      | _ => InvoiceCredit.first_foreign_timestamp credit
      end |} in
  let! uncollected :=
    if is_some (collected_at credit o) then Ok (InvoiceCredit.uncollected credit1)
    else if InvoiceCredit.uncollected credit1 + 1 <? 2 ^ 31
    then Ok (InvoiceCredit.uncollected credit1 + 1)
    else Err (Constraint "invoices_uncollected_count_non_negative") in
  let credit2 := {| credit1 with InvoiceCredit.uncollected := uncollected |} in
  match fst (classify credit o) with
  | Credited =>
      let! received := ok_or (u256_checked_add (InvoiceCredit.received credit2)
                                (PaymentObservation.amount o))
                         (Decode "observation total overflowed uint256") in
      Ok {| credit2 with
        InvoiceCredit.received := received;
        InvoiceCredit.crossing :=
          if InvoiceStatus.eqb (InvoiceCredit.status credit2) Created
             && negb (is_some (InvoiceCredit.crossing credit2))
             && (InvoiceCredit.required credit2 <=? received)
          then Some (received, PaymentObservation.block_number o, PaymentObservation.block_hash o,
                     PaymentObservation.block_timestamp o)
          else InvoiceCredit.crossing credit2 |}
  | _ => Ok credit2
  end.

(** The loop's state: the credits and the table [payment_observations]. *)
Definition step_observation (chain : Z) (now : Timestamp)
    (s : Credits * gmap (Z * list Z * list Z * Z) Observation.t) (o : PaymentObservation.t)
  : result DbError (Credits * gmap (Z * list Z * list Z * Z) Observation.t) :=
  let '(credits, table) := s in
  match credits !! PaymentObservation.recipient o with
  | None => Ok s
  | Some credit =>
      if negb (bool_decide (InvoiceCredit.token_address credit = PaymentObservation.token o))
      then Ok s
      else if negb (observation_allowed o) then Err (Constraint "payment_observations_check")
      else
        let key := observation_key chain o in
        if is_some (table !! key) then Ok s
        else
          let table' := <[key := observation_row now credit o]> table in
          if is_zero o then Ok (credits, table')
          else
            let! credit' := credit_observation credit o in
            Ok (<[PaymentObservation.recipient o := credit']> credits, table')
  end.

(** ** Writing back *)

Definition flag_unsolicited (first_foreign current : option Z) : option Z :=
  match first_foreign, current with
  | Some t, None => Some (to_timestamp t)
  | _, _ => current
  end.

(** The row the UPDATE of a touched credit writes; nothing when its
    [WHERE status = 'created'] does not match. *)
Definition credited_row (now : Timestamp) (credit : InvoiceCredit.t) (row : DbInvoice.t)
  : option DbInvoice.t :=
  let base := {| row with
    DbInvoice.confirmed_received := InvoiceCredit.received credit;
    DbInvoice.uncollected_count := InvoiceCredit.uncollected credit;
    DbInvoice.likely_unsolicited_at :=
      flag_unsolicited (InvoiceCredit.first_foreign_timestamp credit)
        (DbInvoice.likely_unsolicited_at row);
    DbInvoice.updated_at := now |} in
  match InvoiceCredit.crossing credit with
  | Some (observed, block, block_hash, block_timestamp) =>
      if InvoiceStatus.eqb (DbInvoice.status row) Created then
        Some {| base with
          DbInvoice.status := Funded;
          DbInvoice.observed_amount := Some observed;
          DbInvoice.funded_at_block := Some (as_i64 block);
          DbInvoice.funded_at_block_hash := Some block_hash;
          DbInvoice.paid_at := Some (to_timestamp block_timestamp) |}
      else None
  | None => Some base
  end.

(** The UPDATE of one credit, and whether it funded the request. *)
Definition apply_credit (now : Timestamp) (credit : InvoiceCredit.t)
    (s : gmap Uuid DbInvoice.t * list Uuid) : gmap Uuid DbInvoice.t * list Uuid :=
  let '(invoices, funded) := s in
  if negb (InvoiceCredit.touched credit) then s
  else
    match invoices !! InvoiceCredit.id credit ≫= credited_row now credit with
    | None => s
    | Some row' =>
        (<[InvoiceCredit.id credit := row']> invoices,
         if is_some (InvoiceCredit.crossing credit)
         then InvoiceCredit.id credit :: funded else funded)
    end.

Definition apply_credits (now : Timestamp) (credits : Credits) (invoices : gmap Uuid DbInvoice.t)
  : gmap Uuid DbInvoice.t * list Uuid :=
  foldr (apply_credit now) (invoices, []) (map_to_list credits).*2.

Definition bound_overdue (chain t : Z) (row : DbInvoice.t) : bool :=
  bool_decide (DbInvoice.chain_id row = Some chain)
  && is_open_status (DbInvoice.status row)
  && (DbInvoice.expiration_timestamp row <? t).

Definition expire_bound (chain t : Z) (now : Timestamp) (db : Db.t) : list Uuid * Db.t :=
  (ids_where (bound_overdue chain t) db,
   {| db with Db.invoices := update_where (bound_overdue chain t) (expire_row t now) (Db.invoices db) |}).

(** ** The whole transaction *)

Definition apply_range_body (chain_id end_block : Z) (end_block_hash : B256) (end_block_timestamp : Z)
    (observations : list PaymentObservation.t) (now : Timestamp) (db : Db.t)
  : result DbError (RangeApplied * Db.t) :=
  let chain := as_i64 chain_id in
  let! credits0 := load_credits chain observations db in
  let! '(credits, table) :=
    try_fold (step_observation chain now) (credits0, Db.payment_observations db) observations in
  let '(invoices, funded) := apply_credits now credits (Db.invoices db) in
  let db1 := {| db with Db.payment_observations := table; Db.invoices := invoices |} in
  let '(expired, db2) := expire_bound chain (as_i64 end_block_timestamp) now db1 in
  let! db3 := store_cursor chain_id end_block end_block_hash end_block_timestamp now db2 in
  Ok (Applied funded expired
        (IndexerCursor.mk end_block end_block_hash (Some end_block_timestamp)), db3).

Definition apply_finalized_range (chain_id : Z) (expected_cursor : option IndexerCursor.t)
    (end_block : Z) (end_block_hash : B256) (end_block_timestamp : Z)
    (observations : list PaymentObservation.t) (now : Timestamp) (db : Db.t)
  : result DbError (RangeApplied * Db.t) :=
  let! stored_cursor := get_cursor chain_id db in
  if bool_decide (stored_cursor = expected_cursor)
  then apply_range_body chain_id end_block end_block_hash end_block_timestamp observations now db
  else
    Ok (match stored_cursor with
        | Some cursor =>
            if end_block <=? IndexerCursor.block cursor then AlreadyApplied cursor
            else CursorMismatch stored_cursor
        | None => CursorMismatch None
        end, db).
