(* ===== verification/Sweeps.v ===== *)
(** * gum-ledger: sweep jobs

    Models [crates/gum-ledger/src/sweeps.rs]: the eligibility predicate, the
    scheduling of a job with its command on the bus, the policy [decide], and
    the application of the signers' evidence to requests and observations. *)

From stdpp Require Import sorting.
From S2P Require Import Prelude Core Contracts Bus Tables Attachments Invoices Range.

Definition SWEEPABLE_STATUSES : list InvoiceStatus := [Funded; Expired; Fulfilled; Recovered].
Definition RETRIES_EXHAUSTED : string := "retries_exhausted".
Definition SETTLEMENT_UNKNOWN : string := "settlement_unknown".

(** The policy's seconds are whole numbers, as every configuration has them. *)
Module SweepPolicy.
Record t := mk {
  batch_size : Z;
  backoff_base_secs : Z;
  backoff_cap_secs : Z;
  max_attempts : Z;
}.
Definition default : t := mk 20 30 3600 5.
End SweepPolicy.

Inductive SweepError :=
| SweepDatabase (e : DbError)
| SweepBus (e : BusError)
| Unbound (id : Uuid)
| SweepDecode (id : Uuid) (e : DbInvoiceError)
| NotOpen (job_id : Uuid)
| ForeignItem (job_id invoice_id : Uuid)
| MissingOutcomes (job_id : Uuid) (count : Z).

Module ScheduledSweepJob.
Record t := mk { job_id : Uuid; correlation_id : Uuid; invoice_ids : list Uuid }.
End ScheduledSweepJob.

Module AppliedSweep.
Record t := mk {
  settled : list Uuid;
  returned : list Uuid;
  collected : list Uuid;
  requeued : list Uuid;
  attention : list (Uuid * string);
}.
Definition empty : t := mk [] [] [] [] [].
End AppliedSweep.

Inductive RecoveryReason := Overpayment | RecoveryExpired | LateTransfer.

Definition recovery_reason_as_str (r : RecoveryReason) : string :=
  match r with
  | Overpayment => "overpayment"
  | RecoveryExpired => "expired"
  | LateTransfer => "late_transfer"
  end.

Module RecoveredFunds.
Record t := mk {
  amount : Z;
  reason : RecoveryReason;
  tx_hash : B256;
  block : Z;
  block_timestamp : Z;
}.
End RecoveredFunds.

Module FinalizedSweep.
Record t := mk {
  job_id : Uuid;
  tx_hash : B256;
  block : Z;
  block_hash : B256;
  block_timestamp : Z;
  transaction_index : Z;
  items : list SweepItemResult.t;
}.
End FinalizedSweep.

Module Drain.
Record t := mk {
  status : option InvoiceStatus;
  execute_tx : bool;
  settlement_tx_hash : B256;
  settlement_block : Z;
  settlement_transaction_index : Z;
  settlement_timestamp : Z;
  recoveries : list RecoveredFunds.t;
  attention : option string;
}.
End Drain.

Inductive ItemDecision :=
| Drained (d : Drain.t)
| DecideRetry
| Attention (reason : string).

(** ** Policy *)

Definition recovered (amount : Z) (reason : RecoveryReason) (tx_hash : B256) (block ts : Z)
  : list RecoveredFunds.t :=
  if amount =? 0 then [] else [RecoveredFunds.mk amount reason tx_hash block ts].

(** A drain by the job's own transaction. *)
Definition own_drain (receipt : FinalizedSweep.t) (status : option InvoiceStatus) (execute_tx : bool)
    (recoveries : list RecoveredFunds.t) (attention : option string) : ItemDecision :=
  Drained (Drain.mk status execute_tx (FinalizedSweep.tx_hash receipt) (FinalizedSweep.block receipt)
             (FinalizedSweep.transaction_index receipt) (FinalizedSweep.block_timestamp receipt)
             recoveries attention).

Definition decide_item (row : DbInvoice.t) (receipt : FinalizedSweep.t) (outcome : SweepItemOutcome)
    (policy : SweepPolicy.t) : ItemDecision :=
  let terminal := InvoiceStatus.is_terminal (DbInvoice.status row) in
  let own amount reason :=
    recovered amount reason (FinalizedSweep.tx_hash receipt) (FinalizedSweep.block receipt)
      (FinalizedSweep.block_timestamp receipt) in
  match outcome with
  | Settled overpayment_recovered =>
      own_drain receipt (Some Fulfilled) true (own overpayment_recovered Overpayment) None
  | Returned amount =>
      own_drain receipt (Some Recovered) true (own amount RecoveryExpired) None
  | LateCollected amount settlement =>
      let late := own amount LateTransfer in
      match settlement with
      | None =>
          if terminal || is_some (DbInvoice.settlement_tx_hash row)
          then own_drain receipt None false late None
          else own_drain receipt None false late (Some SETTLEMENT_UNKNOWN)
      | Some e =>
          let settled := is_some (SettlementEvidence.settled e) in
          let status :=
            if terminal then None else if settled then Some Fulfilled else Some Recovered in
          let reason := if settled then Overpayment else RecoveryExpired in
          let settlement_recovery :=
            if terminal then []
            else recovered (SettlementEvidence.recovered e) reason (SettlementEvidence.tx_hash e)
                   (SettlementEvidence.block e) (SettlementEvidence.block_timestamp e) in
          Drained (Drain.mk status false (SettlementEvidence.tx_hash e) (SettlementEvidence.block e)
                     (SettlementEvidence.transaction_index e) (SettlementEvidence.block_timestamp e)
                     (settlement_recovery ++ late) None)
      end
  | Failed cause =>
      match cause with
      | TokenPaused => DecideRetry
      | PaymentAddressBlacklisted | RecoveryBlacklisted | BeneficiaryBlacklisted
      | BalanceBelowAmount => Attention (failure_cause_as_str cause)
      | UnknownCause =>
          if SweepPolicy.max_attempts policy
             <=? u32_saturating_add (Z.max (DbInvoice.sweep_attempts row) 0) 1
          then Attention RETRIES_EXHAUSTED
          else DecideRetry
      end
  end.

(** ** Scheduling *)

Definition halted (chain : Z) (db : Db.t) : bool :=
  existsb (fun kv => ChainFault.is_open_on chain (snd kv)) (map_to_list (Db.chain_faults db)).

(** The chain's finalized clock, as the subquery of [ELIGIBLE] reads it. *)
Definition chain_clock (chain_id : option Z) (db : Db.t) : Z :=
  match chain_id with
  | None => 0
  | Some chain =>
      default 0 (Db.indexer_cursor db !! chain ≫= CursorRow.last_block_timestamp)
  end.

Definition eligible (db : Db.t) (row : DbInvoice.t) : bool :=
  (0 <? DbInvoice.uncollected_count row)
  && negb (is_some (DbInvoice.sweep_job_id row))
  && negb (is_some (DbInvoice.attention_reason row))
  && match DbInvoice.status row with
     | Expired | Fulfilled | Recovered => true
     | Funded =>
         ((negb (is_some (Issuance.expected_email (DbInvoice.issuance row)))
           && negb (is_some (Issuance.payer_reference (DbInvoice.issuance row))))
          || is_some (DbInvoice.verification_completed_at row))
         && (chain_clock (DbInvoice.chain_id row) db <=? DbInvoice.expiration_timestamp row)
     | Created => false
     end.

(** [LEAST(base * pow(2, attempts), cap)] in [float8]: out of range once the
    power or the product reaches 2^1024. *)
Definition backoff_secs (policy : SweepPolicy.t) (attempts : Z) : result DbError Z :=
  if (1024 <=? attempts) || (2 ^ 1024 <=? SweepPolicy.backoff_base_secs policy * 2 ^ attempts)
  then Err NumericOutOfRange
  else Ok (Z.min (SweepPolicy.backoff_base_secs policy * 2 ^ attempts)
                 (SweepPolicy.backoff_cap_secs policy)).

Definition due (policy : SweepPolicy.t) (now : Timestamp) (row : DbInvoice.t) : result DbError bool :=
  match DbInvoice.last_attempt_at row with
  | None => Ok true
  | Some last =>
      let! secs := backoff_secs policy (DbInvoice.sweep_attempts row) in
      Ok (last + secs * 10 ^ 6 <=? now)
  end.

(** The scan of the queue in id order, up to the batch size. *)
Fixpoint take_due (policy : SweepPolicy.t) (now : Timestamp) (n : nat) (rows : list DbInvoice.t)
  : result DbError (list DbInvoice.t) :=
  match n, rows with
  | O, _ | _, [] => Ok []
  | S n', row :: rows' =>
      let! d := due policy now row in
      if (d : bool)
      then let! rest := take_due policy now n' rows' in Ok (row :: rest)
      else take_due policy now n rows'
  end.

Definition id_before (a b : DbInvoice.t) : Prop := DbInvoice.id a <= DbInvoice.id b.

#[export] Instance id_before_dec a b : Decision (id_before a b).
Proof. unfold id_before. apply _. Defined.

#[export] Instance id_before_total : Total id_before.
Proof. intros a b. unfold id_before. lia. Qed.

Definition queue (chain : Z) (db : Db.t) : list DbInvoice.t :=
  merge_sort id_before
    (List.filter (fun row => bool_decide (DbInvoice.chain_id row = Some chain) && eligible db row)
       (map_to_list (Db.invoices db)).*2).

Definition claim_row (job_id : Uuid) (now : Timestamp) (row : DbInvoice.t) : DbInvoice.t :=
  {| row with
     DbInvoice.sweep_job_id := Some job_id;
     DbInvoice.last_attempt_at := Some now;
     DbInvoice.updated_at := now |}.

Definition claim_rows (job_id : Uuid) (now : Timestamp) (rows : list DbInvoice.t)
    (invoices : gmap Uuid DbInvoice.t) : gmap Uuid DbInvoice.t :=
  foldr (fun row m => alter (claim_row job_id now) (DbInvoice.id row) m) invoices rows.

Section Scheduling.
Context (payload_hash : Message -> B256) (parse_address : string -> option Address).

Definition sweep_item (row : DbInvoice.t) (first_observed_block : option Z)
  : result SweepError SweepItem.t :=
  match invoice_try_from parse_address row with
  | Err e => Err (SweepDecode (DbInvoice.id row) e)
  | Ok invoice =>
      let! binding := ok_or (Invoice.binding invoice) (Unbound (DbInvoice.id row)) in
      Ok (SweepItem.mk (DbInvoice.id row) (PaymentBinding.payment_address binding)
            (Invoice.currency invoice) (NetworkTerms.token (PaymentBinding.network binding))
            (Invoice.amount invoice) (Invoice.beneficiary invoice)
            (Invoice.expiration_timestamp invoice) (PaymentBinding.recovery binding)
            (PaymentBinding.salt binding)
            (if InvoiceStatus.is_terminal (Invoice.status invoice) then Closed else Open)
            (is_some (DbInvoice.settlement_tx_hash row)) first_observed_block)
  end.

Definition insert_items (job_id : Uuid) (rows : list DbInvoice.t)
    (items : gmap (Uuid * Uuid) SweepJobItem.t) : gmap (Uuid * Uuid) SweepJobItem.t :=
  foldr (fun row m =>
      <[(job_id, DbInvoice.id row) := SweepJobItem.mk (DbInvoice.sweep_attempts row) None None]> m)
    items rows.

Definition schedule_sweep_job (chain_id : Z) (policy : SweepPolicy.t) (producer : string)
    (job_id correlation_id message_id : Uuid) (now : Timestamp) (db : Db.t)
  : result SweepError (option ScheduledSweepJob.t * Db.t) :=
  let chain := as_i64 chain_id in
  if halted chain db then Ok (None, db)
  else if is_some (Db.sweep_jobs db !! job_id) then Err (SweepDatabase (Constraint "sweep_jobs_pkey"))
  else
    let! rows :=
      match take_due policy now (Z.to_nat (SweepPolicy.batch_size policy)) (queue chain db) with
      | Ok rows => Ok rows
      | Err e => Err (SweepDatabase e)
      end in
    match rows with
    | [] => Ok (None, db)
    | _ :: _ =>
        let claimed := claim_row job_id now <$> rows in
        let db1 := {| db with
          Db.sweep_jobs :=
            <[job_id := SweepJob.mk chain correlation_id now None None None None None]>
              (Db.sweep_jobs db);
          Db.invoices := claim_rows job_id now rows (Db.invoices db);
          Db.sweep_job_items := insert_items job_id claimed (Db.sweep_job_items db) |} in
        let! items :=
          map_result (fun row => sweep_item row (as_u64 <$> first_observed_block (DbInvoice.id row) db))
            claimed in
        match publish payload_hash producer
                (SweepBatch (SweepBatchCommand.mk job_id chain_id items))
                correlation_id None message_id now (Db.bus db1) with
        | Err e => Err (SweepBus e)
        | Ok (_, bus) =>
            Ok (Some (ScheduledSweepJob.mk job_id correlation_id (DbInvoice.id <$> claimed)),
                {| db1 with Db.bus := bus |})
        end
    end.

End Scheduling.

(** ** Applying evidence *)

Definition set_invoice (id : Uuid) (f : DbInvoice.t -> DbInvoice.t) (db : Db.t) : Db.t :=
  {| db with Db.invoices := alter f id (Db.invoices db) |}.

Definition requeue_row (now : Timestamp) (row : DbInvoice.t) : DbInvoice.t :=
  {| row with
     DbInvoice.sweep_job_id := None;
     DbInvoice.sweep_attempts := DbInvoice.sweep_attempts row + 1;
     DbInvoice.last_attempt_at := Some now;
     DbInvoice.updated_at := now |}.

Definition requeue (invoice_id : Uuid) (now : Timestamp) (db : Db.t) : Db.t :=
  set_invoice invoice_id (requeue_row now) db.

(** [flag_attention_in]: the flag and the merchant's email, once. *)
Definition flag_attention_in (id : Uuid) (reason : string) (now : Timestamp) (db : Db.t) : bool * Db.t :=
  match Db.invoices db !! id with
  | Some row =>
      if is_some (DbInvoice.attention_reason row) then (false, db)
      else
        let row' := {| row with
          DbInvoice.attention_reason := Some reason;
          DbInvoice.updated_at := now |} in
        let db1 := {| db with Db.invoices := <[id := row']> (Db.invoices db) |} in
        (true,
         match Db.accounts db !! DbInvoice.account_id row with
         | Some email =>
             {| db1 with Db.notification_outbox :=
                  OutboxRow.mk (DbInvoice.account_id row) id "merchant" reason email
                  :: Db.notification_outbox db1 |}
         | None => db1
         end)
  | None => (false, db)
  end.

Definition flag_attention := flag_attention_in.

Definition record_sweep_submission (job_id : Uuid) (tx_hash : B256) (now : Timestamp) (db : Db.t) : Db.t :=
  {| db with Db.sweep_jobs :=
       alter (fun job => if SweepJob.is_open job then
                {| job with
                   SweepJob.submitted_tx_hash := Some tx_hash;
                   SweepJob.submitted_at := Some now |}
              else job) job_id (Db.sweep_jobs db) |}.

(** [SELECT resolved_at IS NULL FROM sweep_jobs WHERE id = ..]. *)
Definition job_open (job_id : Uuid) (db : Db.t) : bool :=
  match Db.sweep_jobs db !! job_id with
  | Some job => SweepJob.is_open job
  | None => false
  end.

Definition resolve_job (job_id : Uuid) (resolution : string) (detail : option ResolutionDetail)
    (tx_hash : option B256) (now : Timestamp) (db : Db.t) : result SweepError Db.t :=
  match Db.sweep_jobs db !! job_id with
  | Some job =>
      if SweepJob.is_open job then
        Ok {| db with Db.sweep_jobs := <[job_id := {| job with
             SweepJob.resolution := Some resolution;
             SweepJob.resolved_at := Some now;
             SweepJob.resolution_detail := detail;
             SweepJob.submitted_tx_hash := coalesce tx_hash (SweepJob.submitted_tx_hash job) |}]>
             (Db.sweep_jobs db) |}
      else Err (NotOpen job_id)
  | None => Err (NotOpen job_id)
  end.

(** *** A drained item *)

Definition of_invoice (invoice_id : Uuid) (o : Observation.t) : bool :=
  Observation.invoice_id o =? invoice_id.

(** [SET collected_at = .. WHERE invoice_id = .. AND collected_at_block IS
    NULL AND disposition <> 'error' AND position < ..]. *)
Definition mark_collected (invoice_id : Uuid) (at_ : position)
    (table : gmap (Z * list Z * list Z * Z) Observation.t) :=
  update_where (fun o =>
      of_invoice invoice_id o && negb (is_some (Observation.collected_at o))
      && negb (Observation.is_error o) && position_lt (Observation.at_ o) at_)
    (fun o => {| o with Observation.collected_at := Some at_ |}) table.

(** The chain-order classification: credited exactly before the settlement
    and the deadline. *)
Definition reclassified (at_ : position) (expiration : Z) (reason : string) (o : Observation.t)
  : Observation.t :=
  let before := (Observation.block_timestamp o <=? expiration)
                && position_lt (Observation.at_ o) at_ in
  {| o with
     Observation.disposition := if before then Credited else Late;
     Observation.disposition_reason :=
       if before then None
       else if expiration <? Observation.block_timestamp o then Some "invoice_expired"
       else Some reason |}.

Definition reclassify (invoice_id : Uuid) (at_ : position) (expiration : Z) (reason : string)
    (table : gmap (Z * list Z * list Z * Z) Observation.t) :=
  update_where (fun o => of_invoice invoice_id o && negb (Observation.is_error o))
    (reclassified at_ expiration reason) table.

Definition uncollected_of (invoice_id : Uuid)
    (table : gmap (Z * list Z * list Z * Z) Observation.t) : Z :=
  row_count (fun o => of_invoice invoice_id o && negb (is_some (Observation.collected_at o))
                      && negb (Observation.is_error o)) table.

Definition credited_of (invoice_id : Uuid)
    (table : gmap (Z * list Z * list Z * Z) Observation.t) : Z :=
  map_sum (fun o => if of_invoice invoice_id o && Observation.is_credited o
                    then Observation.amount o else 0) table.

(** The columns the UPDATE of a drained invoice writes. *)
Definition drained_row (receipt : FinalizedSweep.t) (d : Drain.t)
    (table : gmap (Z * list Z * list Z * Z) Observation.t) (now : Timestamp) (row : DbInvoice.t)
  : DbInvoice.t :=
  let id := DbInvoice.id row in
  let resolving := is_some (Drain.status d) in
  {| row with
     DbInvoice.status := default (DbInvoice.status row) (Drain.status d);
     DbInvoice.execute_tx_hash :=
       if Drain.execute_tx d then Some (FinalizedSweep.tx_hash receipt) else DbInvoice.execute_tx_hash row;
     DbInvoice.settlement_tx_hash :=
       coalesce (DbInvoice.settlement_tx_hash row) (Some (Drain.settlement_tx_hash d));
     DbInvoice.settlement_transaction_index :=
       coalesce (DbInvoice.settlement_transaction_index row)
         (Some (as_i64 (Drain.settlement_transaction_index d)));
     DbInvoice.resolved_at_block :=
       if resolving then coalesce (DbInvoice.resolved_at_block row)
                           (Some (as_i64 (Drain.settlement_block d)))
       else DbInvoice.resolved_at_block row;
     DbInvoice.settled_at :=
       if resolving then coalesce (DbInvoice.settled_at row)
                           (Some (to_timestamp (Drain.settlement_timestamp d)))
       else DbInvoice.settled_at row;
     DbInvoice.drained_at_block := Some (as_i64 (FinalizedSweep.block receipt));
     DbInvoice.drained_at_transaction_index := Some (as_i64 (FinalizedSweep.transaction_index receipt));
     DbInvoice.uncollected_count := uncollected_of id table;
     DbInvoice.confirmed_received := credited_of id table;
     DbInvoice.sweep_job_id := None;
     DbInvoice.sweep_attempts := 0;
     DbInvoice.last_attempt_at := None;
     DbInvoice.updated_at := now |}.

(** The CHECK constraints that the evidence's numbers can break: positions
    are non-negative, in the request's row and in the recovery ledger. *)
Definition non_negative (x : option Z) : bool :=
  match x with Some n => 0 <=? n | None => true end.

Definition positions_allowed (row : DbInvoice.t) (recoveries : list RecoveredFunds.t) : bool :=
  non_negative (DbInvoice.drained_at_block row)
  && non_negative (DbInvoice.drained_at_transaction_index row)
  && non_negative (DbInvoice.resolved_at_block row)
  && non_negative (DbInvoice.settlement_transaction_index row)
  && forallb (fun r => 0 <=? as_i64 (RecoveredFunds.block r)) recoveries.

(** [INSERT INTO recovered_funds .. ON CONFLICT DO NOTHING]. *)
Definition insert_recovery (row : DbInvoice.t) (funds : gmap (Uuid * list Z * string) RecoveredRow.t)
    (r : RecoveredFunds.t) : gmap (Uuid * list Z * string) RecoveredRow.t :=
  let key := (DbInvoice.id row, RecoveredFunds.tx_hash r,
              recovery_reason_as_str (RecoveredFunds.reason r)) in
  match funds !! key with
  | Some _ => funds
  | None =>
      <[key := RecoveredRow.mk (DbInvoice.chain_id row) (DbInvoice.token_address row)
                 (as_i64 (RecoveredFunds.block r)) (RecoveredFunds.amount r)
                 (to_timestamp (RecoveredFunds.block_timestamp r))]> funds
  end.

Definition classification_position (row : DbInvoice.t) (d : Drain.t) : position :=
  default (as_i64 (Drain.settlement_block d), as_i64 (Drain.settlement_transaction_index d))
    (DbInvoice.settlement_at row).

Definition apply_drain (receipt : FinalizedSweep.t) (row : DbInvoice.t) (d : Drain.t)
    (now : Timestamp) (db : Db.t) : result SweepError Db.t :=
  let id := DbInvoice.id row in
  let at_ := (as_i64 (FinalizedSweep.block receipt), as_i64 (FinalizedSweep.transaction_index receipt)) in
  let reason := "invoice_" +:+ InvoiceStatus.as_str (default (DbInvoice.status row) (Drain.status d)) in
  let table := reclassify id (classification_position row d) (DbInvoice.expiration_timestamp row)
                 reason (mark_collected id at_ (Db.payment_observations db)) in
  if negb (positions_allowed (drained_row receipt d table now row) (Drain.recoveries d))
  then Err (SweepDatabase (Constraint "invoices_check"))
  else if negb (is_some (DbInvoice.chain_id row) && is_some (DbInvoice.token_address row))
          && negb (bool_decide (length (Drain.recoveries d) = O))
  then Err (SweepDatabase (Constraint "recovered_funds_chain_id_not_null"))
  else
    let db1 := {| db with
      Db.payment_observations := table;
      Db.invoices := alter (drained_row receipt d table now) id (Db.invoices db);
      Db.recovered_funds := foldl (insert_recovery row) (Db.recovered_funds db) (Drain.recoveries d) |} in
    Ok (match Drain.attention d with
        | Some reason => snd (flag_attention_in id reason now db1)
        | None => db1
        end).

(** *** One item, the whole receipt *)

Definition outcome_kind (o : SweepItemOutcome) : string :=
  match o with
  | Settled _ => "settled"
  | Returned _ => "returned"
  | LateCollected _ _ => "late_collected"
  | Failed _ => "failed"
  end.

Definition record_drain (id : Uuid) (d : Drain.t) (applied : AppliedSweep.t) : AppliedSweep.t :=
  let applied1 :=
    match Drain.attention d with
    | Some reason =>
        {| applied with AppliedSweep.attention := AppliedSweep.attention applied ++ [(id, reason)] |}
    | None => applied
    end in
  match Drain.status d with
  | Some Fulfilled => {| applied1 with AppliedSweep.settled := AppliedSweep.settled applied1 ++ [id] |}
  | Some Recovered => {| applied1 with AppliedSweep.returned := AppliedSweep.returned applied1 ++ [id] |}
  | _ => {| applied1 with AppliedSweep.collected := AppliedSweep.collected applied1 ++ [id] |}
  end.

Definition apply_item (receipt : FinalizedSweep.t) (policy : SweepPolicy.t) (now : Timestamp)
    (s : AppliedSweep.t * Db.t) (item : SweepItemResult.t)
  : result SweepError (AppliedSweep.t * Db.t) :=
  let '(applied, db) := s in
  let job_id := FinalizedSweep.job_id receipt in
  let invoice_id := SweepItemResult.invoice_id item in
  let outcome := SweepItemResult.outcome item in
  let! row := ok_or (Db.invoices db !! invoice_id) (ForeignItem job_id invoice_id) in
  if negb (bool_decide (DbInvoice.sweep_job_id row = Some job_id))
  then Err (ForeignItem job_id invoice_id)
  else
    let! '(applied', db') :=
      match decide_item row receipt outcome policy with
      | Drained d =>
          let! db1 := apply_drain receipt row d now db in
          Ok (record_drain invoice_id d applied, db1)
      | DecideRetry =>
          Ok ({| applied with AppliedSweep.requeued := AppliedSweep.requeued applied ++ [invoice_id] |},
              requeue invoice_id now db)
      | Attention reason =>
          Ok ({| applied with AppliedSweep.attention :=
                   AppliedSweep.attention applied ++ [(invoice_id, reason)] |},
              snd (flag_attention_in invoice_id reason now (requeue invoice_id now db)))
      end in
    Ok (applied',
        {| db' with Db.sweep_job_items :=
             alter (fun it => {| it with
                      SweepJobItem.outcome := Some (outcome_kind outcome);
                      SweepJobItem.outcome_detail := Some outcome |})
               (job_id, invoice_id) (Db.sweep_job_items db') |}).

Definition in_job (job_id : Uuid) (row : DbInvoice.t) : bool :=
  bool_decide (DbInvoice.sweep_job_id row = Some job_id).

Definition apply_sweep_finalized (receipt : FinalizedSweep.t) (policy : SweepPolicy.t)
    (now : Timestamp) (db : Db.t) : result SweepError (AppliedSweep.t * Db.t) :=
  let job_id := FinalizedSweep.job_id receipt in
  if negb (job_open job_id db) then Err (NotOpen job_id)
  else
    let! '(applied, db1) :=
      try_fold (apply_item receipt policy now) (AppliedSweep.empty, db) (FinalizedSweep.items receipt) in
    let orphaned := row_count (in_job job_id) (Db.invoices db1) in
    if negb (orphaned =? 0) then Err (MissingOutcomes job_id orphaned)
    else
      let! db2 := resolve_job job_id "finalized" None (Some (FinalizedSweep.tx_hash receipt)) now db1 in
      Ok (applied, db2).

(** *** Closing a job without effect *)

Definition close_without_effect (job_id : Uuid) (resolution : string) (detail : ResolutionDetail)
    (tx_hash : option B256) (now : Timestamp) (db : Db.t) : result SweepError (Z * Db.t) :=
  if negb (job_open job_id db) then Err (NotOpen job_id)
  else
    let requeued := row_count (in_job job_id) (Db.invoices db) in
    let db1 := {| db with
      Db.invoices := update_where (in_job job_id) (requeue_row now) (Db.invoices db);
      Db.sweep_job_items :=
        map_imap (fun k it => Some (if fst k =? job_id
                                    then {| it with SweepJobItem.outcome := Some resolution |} else it))
          (Db.sweep_job_items db) |} in
    let! db2 := resolve_job job_id resolution (Some detail) tx_hash now db1 in
    Ok (requeued, db2).

Definition apply_sweep_abandoned (job_id : Uuid) (reason : AbandonReason) (now : Timestamp) (db : Db.t)
  : result SweepError (Z * Db.t) :=
  close_without_effect job_id "abandoned" (DetailAbandoned reason)
    (match reason with AbandonReverted tx_hash => Some tx_hash | _ => None end) now db.

Definition apply_sweep_rejected (job_id : Uuid) (reason : string) (now : Timestamp) (db : Db.t)
  : result SweepError (Z * Db.t) :=
  close_without_effect job_id "rejected" (DetailRejected reason) None now db.
