(* ===== verification/RelayIntents.v ===== *)
(** * gum-ledger: cross-chain payments through Relay

    Models [crates/gum-ledger/src/relay_intents.rs]: an intent is inserted
    when a payment is quoted, marked sent when the page reports the origin
    transaction, and resolved by the poller.  Resolution attributes the
    transfers a fill made and hands the transfers parked by crediting
    ([Range.attribute]) back to the likely-unsolicited path.

    The constraints of [relay_intents] that can refuse a write are guards of
    the write: the primary key, the unique request id, the foreign key, the
    unique verified origin transaction and [relay_intents_verified_fill]. *)

From stdpp Require Import sorting.
From S2P Require Import Prelude Core Contracts Bus Tables Invoices Sweeps.

Module RelayIntentStatus.

Definition as_str (s : RelayStatus) : string :=
  match s with
  | Quoted => "quoted" | Sent => "sent" | Filled => "filled"
  | RelayFailed => "failed" | Refunded => "refunded" | RelayExpired => "expired"
  end.

Definition parse (value : string) : option RelayStatus :=
  if String.eqb value "quoted" then Some Quoted
  else if String.eqb value "sent" then Some Sent
  else if String.eqb value "filled" then Some Filled
  else if String.eqb value "failed" then Some RelayFailed
  else if String.eqb value "refunded" then Some Refunded
  else if String.eqb value "expired" then Some RelayExpired
  else None.

Lemma relay_status_round_trip s : parse (as_str s) = Some s.
Proof. by destruct s. Qed.

End RelayIntentStatus.

(** ** Reading a row *)

(** [B256::try_from(..).ok()] and [Address::try_from(..).ok()]. *)
Definition fixed_bytes (n : nat) (b : bytes) : option bytes :=
  if Nat.eqb (length b) n then Some b else None.

Definition request_id (i : RelayIntent.t) : option B256 := fixed_bytes 32 (RelayIntent.request_id i).
Definition payer_wallet (i : RelayIntent.t) : option Address := fixed_bytes 20 (RelayIntent.payer_wallet i).
Definition origin_tx_hash (i : RelayIntent.t) : option B256 :=
  RelayIntent.origin_tx_hash i ≫= fixed_bytes 32.
Definition verified_origin_tx_hash (i : RelayIntent.t) : option B256 :=
  RelayIntent.verified_origin_tx_hash i ≫= fixed_bytes 32.
Definition fill_tx_hashes (i : RelayIntent.t) : list B256 :=
  omap (fixed_bytes 32) (RelayIntent.fill_tx_hashes i).

Module NewRelayIntent.
Record t := mk {
  id : Uuid;
  invoice_id : Uuid;
  request_id : B256;
  origin_chain_id : Z;
  destination_chain_id : Z;
  origin_currency : Address;
  payer_wallet : Address;
  quoted_in_amount : Z;
  quoted_out_amount : Z;
  expires_at : Timestamp;
}.
End NewRelayIntent.

Inductive MarkSent := MsSent | MsHashConflict | MsNotFound.

#[export] Instance MarkSent_eq_dec : EqDecision MarkSent.
Proof. solve_decision. Defined.

Module Resolution.
Record t := mk { attributed : Z; unparked : Z }.
Definition default : t := mk 0 0.
End Resolution.

Inductive FillResolution := FrResolved (r : Resolution.t) | FrNotPending | FrOriginTransactionClaimed.

(** ** Writing a row *)

Definition set_intents (m : gmap Uuid RelayIntent.t) (db : Db.t) : Db.t :=
  {| db with Db.relay_intents := m |}.

(** [relay_intents_verified_fill]. *)
Definition verified_fill (i : RelayIntent.t) : bool :=
  if bool_decide (RelayIntent.status i = Filled)
  then bool_decide (RelayIntent.attribution_source i = Some "receipt")
       && is_some (RelayIntent.verified_origin_tx_hash i)
  else negb (is_some (RelayIntent.attribution_source i))
       && negb (is_some (RelayIntent.verified_origin_tx_hash i)).

(** Another row of the unique index [relay_intents_verified_origin_tx]. *)
Definition claims_origin (chain : Z) (hash : bytes) (i : RelayIntent.t) : bool :=
  (RelayIntent.origin_chain_id i =? chain)
  && bool_decide (RelayIntent.verified_origin_tx_hash i = Some hash).

Definition origin_claimed (id : Uuid) (chain : Z) (hash : bytes) (db : Db.t) : bool :=
  existsb (fun kv => negb (fst kv =? id) && claims_origin chain hash (snd kv))
    (map_to_list (Db.relay_intents db)).

Definition request_known (request : B256) (db : Db.t) : bool :=
  existsb (fun kv => bool_decide (RelayIntent.request_id (snd kv) = request))
    (map_to_list (Db.relay_intents db)).

Definition insert (new : NewRelayIntent.t) (now : Timestamp) (db : Db.t)
  : result DbError (RelayIntent.t * Db.t) :=
  if is_some (Db.relay_intents db !! NewRelayIntent.id new) then Err (Constraint "relay_intents_pkey")
  else if negb (is_some (Db.invoices db !! NewRelayIntent.invoice_id new))
  then Err (Constraint "relay_intents_invoice_id_fkey")
  else if request_known (NewRelayIntent.request_id new) db
  then Err (Constraint "relay_intents_request_id_unique")
  else
    let row := RelayIntent.mk (NewRelayIntent.invoice_id new) (NewRelayIntent.request_id new)
                 (as_i64 (NewRelayIntent.origin_chain_id new))
                 (as_i64 (NewRelayIntent.destination_chain_id new))
                 (NewRelayIntent.origin_currency new) (NewRelayIntent.payer_wallet new)
                 (NewRelayIntent.quoted_in_amount new) (NewRelayIntent.quoted_out_amount new)
                 Quoted None None [] None None None now None None (NewRelayIntent.expires_at new) in
    Ok (row, set_intents (<[NewRelayIntent.id new := row]> (Db.relay_intents db)) db).

Definition find (id : Uuid) (db : Db.t) : option RelayIntent.t := Db.relay_intents db !! id.

(** The intent the page follows: [ORDER BY .. LIMIT 1] as the greatest key. *)
Definition follow_key (kv : Uuid * RelayIntent.t) : Z * Z * Z * Z :=
  let i := snd kv in
  (Z.b2z (bool_decide (RelayIntent.status i = Sent)),
   Z.b2z (is_some (RelayIntent.sent_at i) || bool_decide (RelayIntent.status i = Filled)),
   default (RelayIntent.created_at i) (coalesce (RelayIntent.sent_at i) (RelayIntent.resolved_at i)),
   fst kv).

Definition key_lt (a b : Z * Z * Z * Z) : bool :=
  let '(a1, a2, a3, a4) := a in let '(b1, b2, b3, b4) := b in
  (a1 <? b1) || ((a1 =? b1) && ((a2 <? b2) || ((a2 =? b2) && ((a3 <? b3) || ((a3 =? b3) && (a4 <? b4)))))).

Definition later (best : option (Uuid * RelayIntent.t)) (kv : Uuid * RelayIntent.t) : option (Uuid * RelayIntent.t) :=
  match best with
  | Some b => if key_lt (follow_key b) (follow_key kv) then Some kv else best
  | None => Some kv
  end.

Definition latest_for_invoice (invoice_id : Uuid) (db : Db.t) : option (Uuid * RelayIntent.t) :=
  foldl later None
    (List.filter (fun kv => RelayIntent.invoice_id (snd kv) =? invoice_id) (map_to_list (Db.relay_intents db))).

(** ** The page's report *)

Definition reported (hash : B256) (i : RelayIntent.t) : RelayIntent.t :=
  {| i with RelayIntent.origin_tx_hash := Some hash |}.

Definition sent (hash : B256) (now : Timestamp) (i : RelayIntent.t) : RelayIntent.t :=
  {| i with RelayIntent.status := Sent; RelayIntent.origin_tx_hash := Some hash;
            RelayIntent.sent_at := Some now; RelayIntent.next_check_at := Some now;
            RelayIntent.resolved_at := None |}.

(** The outcome and the row after the [match]: a filled intent records the
    report of the transaction that filled it. *)
Definition report_outcome (hash : B256) (i : RelayIntent.t) : MarkSent * RelayIntent.t :=
  match origin_tx_hash i with
  | Some recorded => if bool_decide (recorded = hash) then (MsSent, i) else (MsHashConflict, i)
  | None =>
      if bool_decide (RelayIntent.status i = Filled) then
        if bool_decide (verified_origin_tx_hash i = Some hash) then (MsSent, reported hash i)
        else (MsHashConflict, i)
      else (MsSent, i)
  end.

Definition mark_sent (id invoice_id : Uuid) (wallet : Address) (hash : B256) (now : Timestamp) (db : Db.t)
  : result DbError (MarkSent * Db.t) :=
  match Db.relay_intents db !! id with
  | None => Ok (MsNotFound, db)
  | Some i =>
      if negb ((RelayIntent.invoice_id i =? invoice_id) && bool_decide (RelayIntent.payer_wallet i = wallet))
      then Ok (MsNotFound, db)
      else
        match report_outcome hash i with
        | (MsHashConflict, _) => Ok (MsHashConflict, db)
        | (outcome, i1) =>
            let i2 := match RelayIntent.status i1 with
                      | Quoted | RelayExpired => sent hash now i1
                      | _ => if is_some (RelayIntent.origin_tx_hash i1) then i1 else reported hash i1
                      end in
            if verified_fill i2
            then Ok (outcome, set_intents (<[id := i2]> (Db.relay_intents db)) db)
            else Err (Constraint "relay_intents_verified_fill")
        end
  end.

(** ** Polling *)

Definition pending_count (destination_chain_id : Z) (db : Db.t) : Z :=
  row_count (fun i => (RelayIntent.destination_chain_id i =? as_i64 destination_chain_id)
                      && bool_decide (RelayIntent.status i = Sent)) (Db.relay_intents db).

Definition check_at (i : RelayIntent.t) : Timestamp :=
  default (RelayIntent.created_at i) (RelayIntent.next_check_at i).

Definition DAY : Z := 86400 * 10 ^ 6.

(** What both the poll and the attribution require of a transfer: on the
    invoice's own chain, token and address, from somebody other than the
    quoted wallet, moved something, for the quoted amount exactly. *)
Definition solver_transfer (row : DbInvoice.t) (wallet : bytes) (quoted : Z)
    (kv : (Z * list Z * list Z * Z) * Observation.t) : bool :=
  let '((_, token, _, _), o) := kv in
  bool_decide (DbInvoice.token_address row = Some token)
  && bool_decide (DbInvoice.payment_address row = Some (Observation.recipient_address o))
  && negb (bool_decide (Observation.sender_address o = wallet))
  && negb (Observation.is_error o)
  && (0 <? Observation.amount o)
  && (Observation.amount o =? quoted).

(** An unattributed transfer for the intent's exact amount was observed. *)
Definition amount_observed (i : RelayIntent.t) (db : Db.t) : bool :=
  match Db.invoices db !! RelayIntent.invoice_id i with
  | None => false
  | Some row =>
      existsb (fun kv =>
          of_invoice (RelayIntent.invoice_id i) (snd kv)
          && negb (is_some (Observation.relay_intent_id (snd kv)))
          && (fst (fst (fst (fst kv))) =? RelayIntent.destination_chain_id i)
          && solver_transfer row (RelayIntent.payer_wallet i) (RelayIntent.quoted_out_amount i) kv)
        (map_to_list (Db.payment_observations db))
  end.

Definition is_due (chain : Z) (now : Timestamp) (db : Db.t) (i : RelayIntent.t) : bool :=
  (RelayIntent.destination_chain_id i =? chain)
  && (check_at i <=? now)
  && match RelayIntent.status i with
     | Sent => true
     | Quoted | RelayExpired => (now - DAY <=? RelayIntent.expires_at i) && amount_observed i db
     | _ => false
     end.

Definition due_before (a b : Uuid * RelayIntent.t) : Prop :=
  check_at (snd a) < check_at (snd b) \/ (check_at (snd a) = check_at (snd b) /\ fst a <= fst b).

#[export] Instance due_before_dec a b : Decision (due_before a b).
Proof. unfold due_before. apply _. Defined.

Definition due_for_poll (destination_chain_id : Z) (limit : nat) (now : Timestamp) (db : Db.t)
  : list (Uuid * RelayIntent.t) :=
  take limit (merge_sort due_before
    (List.filter (fun kv => is_due (as_i64 destination_chain_id) now db (snd kv))
       (map_to_list (Db.relay_intents db)))).

Definition is_unresolved (s : RelayStatus) : bool :=
  match s with Quoted | Sent | RelayExpired => true | _ => false end.

Definition deferred (next : Timestamp) (status : option string) (i : RelayIntent.t) : RelayIntent.t :=
  {| i with RelayIntent.next_check_at := Some next;
            RelayIntent.relay_status := coalesce status (RelayIntent.relay_status i) |}.

Definition defer (id : Uuid) (next : Timestamp) (status : option string) (db : Db.t) : Db.t :=
  match Db.relay_intents db !! id with
  | Some i =>
      if is_unresolved (RelayIntent.status i)
      then set_intents (<[id := deferred next status i]> (Db.relay_intents db)) db else db
  | None => db
  end.

Definition quote_overdue (chain : Z) (now : Timestamp) (i : RelayIntent.t) : bool :=
  (RelayIntent.destination_chain_id i =? chain)
  && bool_decide (RelayIntent.status i = Quoted) && (RelayIntent.expires_at i <? now).

Definition expired_quote (now : Timestamp) (i : RelayIntent.t) : RelayIntent.t :=
  {| i with RelayIntent.status := RelayExpired; RelayIntent.resolved_at := Some now |}.

Definition expire_quoted (destination_chain_id : Z) (now : Timestamp) (db : Db.t) : Z * Db.t :=
  let overdue := quote_overdue (as_i64 destination_chain_id) now in
  (row_count overdue (Db.relay_intents db),
   set_intents (update_where overdue (expired_quote now) (Db.relay_intents db)) db).

(** [cutoff] in microseconds. *)
Definition stale_sent (destination_chain_id cutoff : Z) (now : Timestamp) (db : Db.t)
  : list (Uuid * RelayIntent.t) :=
  List.filter (fun kv =>
      (RelayIntent.destination_chain_id (snd kv) =? as_i64 destination_chain_id)
      && bool_decide (RelayIntent.status (snd kv) = Sent)
      && match RelayIntent.sent_at (snd kv) with Some t => t <? now - cutoff | None => false end)
    (map_to_list (Db.relay_intents db)).

(** ** Resolution *)

(** [lock_intent]. *)
Definition lock_intent (id : Uuid) (db : Db.t) : option RelayIntent.t := Db.relay_intents db !! id.

Definition sent_for (invoice_id : Uuid) (i : RelayIntent.t) : bool :=
  (RelayIntent.invoice_id i =? invoice_id) && bool_decide (RelayIntent.status i = Sent).

Definition pending (invoice_id : Uuid) (db : Db.t) : bool :=
  existsb (fun kv => sent_for invoice_id (snd kv)) (map_to_list (Db.relay_intents db)).

Definition is_parked (invoice_id : Uuid) (o : Observation.t) : bool :=
  of_invoice invoice_id o && is_some (Observation.relay_parked_at o).

Definition unpark (o : Observation.t) : Observation.t := {| o with Observation.relay_parked_at := None |}.

(** [SELECT min(block_timestamp)] of the rows just unparked. *)
Definition earliest_parked (invoice_id : Uuid) (db : Db.t) : option Z :=
  map_fold (fun _ o acc =>
      if is_parked invoice_id o
      then Some (match acc with Some t => Z.min (Observation.block_timestamp o) t
                           | None => Observation.block_timestamp o end)
      else acc) None (Db.payment_observations db).

Definition flagged_row (t : Z) (now : Timestamp) (row : DbInvoice.t) : DbInvoice.t :=
  {| row with DbInvoice.likely_unsolicited_at :=
       coalesce (DbInvoice.likely_unsolicited_at row) (Some (to_timestamp t));
     DbInvoice.updated_at := now |}.

(** The count is the number of rows of [invoices] the last UPDATE touched. *)
Definition unpark_unless_pending (invoice_id : Uuid) (now : Timestamp) (db : Db.t) : Z * Db.t :=
  if pending invoice_id db then (0, db)
  else
    let db1 := {| db with Db.payment_observations :=
                    update_where (is_parked invoice_id) unpark (Db.payment_observations db) |} in
    match earliest_parked invoice_id db with
    | None => (0, db1)
    | Some t =>
        (if is_some (Db.invoices db !! invoice_id) then 1 else 0,
         {| db1 with Db.invoices := alter (flagged_row t now) invoice_id (Db.invoices db) |})
    end.

Definition filled (fills : list B256) (origin : B256) (status : string) (now : Timestamp) (i : RelayIntent.t)
  : RelayIntent.t :=
  {| i with RelayIntent.status := Filled; RelayIntent.fill_tx_hashes := fills;
            RelayIntent.verified_origin_tx_hash := Some origin; RelayIntent.relay_status := Some status;
            RelayIntent.attribution_source := Some "receipt"; RelayIntent.next_check_at := None;
            RelayIntent.resolved_at := Some now |}.

(** The transfers the fill made: unattributed, in one of its transactions,
    on the invoice's chain. *)
Definition made_by_fill (i : RelayIntent.t) (row : DbInvoice.t) (fills : list B256)
    (kv : (Z * list Z * list Z * Z) * Observation.t) : bool :=
  let '((chain, _, tx, _), o) := kv in
  of_invoice (RelayIntent.invoice_id i) o
  && negb (is_some (Observation.relay_intent_id o))
  && bool_decide (tx ∈ fills)
  && bool_decide (DbInvoice.chain_id row = Some chain)
  && solver_transfer row (RelayIntent.payer_wallet i) (RelayIntent.quoted_out_amount i) kv.

#[global] Arguments made_by_fill : simpl never.

Definition attributed_to (id : Uuid) (o : Observation.t) : Observation.t :=
  {| o with Observation.relay_intent_id := Some id; Observation.relay_parked_at := None |}.

(** [UPDATE payment_observations o .. FROM invoices i ..]. *)
Definition attribute_fill (id : Uuid) (i : RelayIntent.t) (fills : list B256) (db : Db.t) : Z * Db.t :=
  match Db.invoices db !! RelayIntent.invoice_id i with
  | None => (0, db)
  | Some row =>
      let hits := List.filter (made_by_fill i row fills) (map_to_list (Db.payment_observations db)) in
      (Z.of_nat (length hits),
       {| db with Db.payment_observations :=
            map_imap (fun k o => Some (if made_by_fill i row fills (k, o) then attributed_to id o else o))
              (Db.payment_observations db) |})
  end.

Definition resolve_filled (id : Uuid) (fills : list B256) (origin : B256) (status : string)
    (now : Timestamp) (db : Db.t) : result DbError (FillResolution * Db.t) :=
  match fills with
  | [] => Ok (FrNotPending, db)
  | _ =>
      match lock_intent id db with
      | None => Ok (FrNotPending, db)
      | Some i =>
          if negb (is_unresolved (RelayIntent.status i)) then Ok (FrNotPending, db)
          else if origin_claimed id (RelayIntent.origin_chain_id i) origin db
          then Ok (FrOriginTransactionClaimed, db)
          else
            let db1 := set_intents (<[id := filled fills origin status now i]> (Db.relay_intents db)) db in
            let '(attributed, db2) := attribute_fill id i fills db1 in
            let '(unparked, db3) := unpark_unless_pending (RelayIntent.invoice_id i) now db2 in
            Ok (FrResolved (Resolution.mk attributed unparked), db3)
      end
  end.

Definition unfilled (s : RelayStatus) (status : string) (now : Timestamp) (i : RelayIntent.t) : RelayIntent.t :=
  {| i with RelayIntent.status := s; RelayIntent.relay_status := Some status;
            RelayIntent.next_check_at := None; RelayIntent.resolved_at := Some now |}.

(** Callers pass [failed] or [refunded]; [filled] is refused by the table. *)
Definition resolve_failed (id : Uuid) (s : RelayStatus) (status : string) (now : Timestamp) (db : Db.t)
  : result DbError (Resolution.t * Db.t) :=
  match lock_intent id db with
  | None => Ok (Resolution.default, db)
  | Some i =>
      if negb (is_unresolved (RelayIntent.status i)) then Ok (Resolution.default, db)
      else
        let i' := unfilled s status now i in
        if negb (verified_fill i') then Err (Constraint "relay_intents_verified_fill")
        else
          let db1 := set_intents (<[id := i']> (Db.relay_intents db)) db in
          let '(unparked, db2) := unpark_unless_pending (RelayIntent.invoice_id i) now db1 in
          Ok (Resolution.mk 0 unparked, db2)
  end.

(** One committed write of the repository. *)
Inductive relay_step (db : Db.t) : Db.t -> Prop :=
| rs_insert new now r db' : insert new now db = Ok (r, db') -> relay_step db db'
| rs_mark_sent id invoice_id wallet hash now r db' :
    mark_sent id invoice_id wallet hash now db = Ok (r, db') -> relay_step db db'
| rs_defer id next status : relay_step db (defer id next status db)
| rs_expire chain now : relay_step db (snd (expire_quoted chain now db))
| rs_filled id fills origin status now r db' :
    resolve_filled id fills origin status now db = Ok (r, db') -> relay_step db db'
| rs_failed id s status now r db' :
    s = RelayFailed \/ s = Refunded ->
    resolve_failed id s status now db = Ok (r, db') -> relay_step db db'.
