(* ===== verification/Verifications.v ===== *)
(** * gum-ledger: payer sessions and verification

    Models [crates/gum-ledger/src/verifications.rs]: sessions scoped to one
    request, the wallet challenge they carry, email attempts, and the
    merchant's single-use client secrets; and [VerificationFacts] of
    [crates/gum-core/src/dto.rs].

    The hash under which a bearer token is stored is a parameter, and so are
    the random tokens and identifiers an operation draws.  Durations are in
    microseconds.  [now] is the database's clock, [utc] the process's. *)

From stdpp Require Import sorting.
From S2P Require Import Prelude Core Contracts Bus Tables Invoices.

Definition PAYER_SESSION_TTL : Z := 24 * 3600 * 10 ^ 6.
Definition CLIENT_SECRET_TTL : Z := 15 * 60 * 10 ^ 6.
Definition CLIENT_SECRET_PREFIX : string := "cs_".

Module VerificationFacts.
Record t := mk { email : bool; wallet : bool; merchant_session : bool }.
Definition ALL : t := mk true true true.
Definition satisfy (f : t) (v : PayerVerification.t) : bool :=
  (negb (is_some (PayerVerification.email v)) || email f)
  && (negb (is_some (PayerVerification.merchant_auth v)) || merchant_session f).
End VerificationFacts.

Definition facts (s : PayerSession.t) : VerificationFacts.t :=
  VerificationFacts.mk (is_some (PayerSession.email_verified_at s)) false
    (is_some (PayerSession.merchant_session_verified_at s)).

Definition satisfies (s : PayerSession.t) (v : PayerVerification.t) : bool :=
  VerificationFacts.satisfy (facts s) v.

Definition is_merchant_preview (s : PayerSession.t) : bool :=
  bool_decide (PayerSession.purpose s = MerchantPreview).

Module WalletChallenge.
Record t := mk { nonce : B256; expires_at : Timestamp; chain_id : Z }.
End WalletChallenge.

Definition wallet_challenge (s : PayerSession.t) (now : Timestamp) : option WalletChallenge.t :=
  match PayerSession.wallet_nonce s, PayerSession.wallet_nonce_expires_at s, PayerSession.wallet_nonce_chain_id s with
  | Some nonce, Some expires_at, Some chain =>
      if Nat.eqb (length nonce) 32 && (now <? expires_at)
      then Some (WalletChallenge.mk nonce expires_at (as_u64 chain)) else None
  | _, _, _ => None
  end.

Inductive ExchangeError := SecretUnknown | SecretUsed | SecretExpired | ExchangeDatabase (e : DbError).

Inductive StartEmailError := Cooldown (retry_after : Z) | StartDatabase (e : DbError).

Definition set_sessions (m : gmap Uuid PayerSession.t) (db : Db.t) : Db.t := {| db with Db.payer_sessions := m |}.
Definition set_attempts (m : gmap Uuid PayerVerificationRow.t) (db : Db.t) : Db.t :=
  {| db with Db.payer_verifications := m |}.

(** ** Sessions *)

(** The constraints on an inserted session. *)
Definition insert_session (id : Uuid) (s : PayerSession.t) (db : Db.t) : result DbError Db.t :=
  if is_some (Db.payer_sessions db !! id) then Err (Constraint "payer_sessions_pkey")
  else if existsb (fun kv => bool_decide (PayerSession.token_hash (snd kv) = PayerSession.token_hash s))
            (map_to_list (Db.payer_sessions db))
  then Err (Constraint "payer_sessions_token_hash_key")
  else if negb (is_some (Db.invoices db !! PayerSession.invoice_id s))
  then Err (Constraint "payer_sessions_invoice_id_fkey")
  else if PayerSession.expires_at s <=? PayerSession.created_at s
  then Err (Constraint "payer_sessions_check")
  else Ok (set_sessions (<[id := s]> (Db.payer_sessions db)) db).

(** [EXTRACT(EPOCH FROM t)::bigint] rounds to the nearest second, halves away
    from zero. *)
Definition epoch_bigint (t : Timestamp) : Z :=
  if 0 <=? t then (t + 500000) / 10 ^ 6 else - ((- t + 500000) / 10 ^ 6).

(** The guard both completing statements share: [wanted] is the request's own
    condition on its add-ons. *)
Definition completable (verified_at : Timestamp) (s : option PayerSession.t) (wanted : bool) (row : DbInvoice.t)
  : bool :=
  wanted
  && negb (is_some (DbInvoice.verification_completed_at row))
  && match DbInvoice.status row with Created | Funded => true | _ => false end
  && (epoch_bigint verified_at <=? DbInvoice.expiration_timestamp row)
  && match s with Some s => bool_decide (PayerSession.purpose s = ForPayer) | None => false end.

Definition completed_row (verified_at now : Timestamp) (row : DbInvoice.t) : DbInvoice.t :=
  {| row with DbInvoice.verification_completed_at := Some verified_at; DbInvoice.updated_at := now |}.

(** [UPDATE invoices SET verification_completed_at = .. RETURNING ..]. *)
Definition complete_invoice (invoice_id : Uuid) (verified_at : Timestamp) (s : option PayerSession.t)
    (wanted : DbInvoice.t -> bool) (now : Timestamp) (db : Db.t) : option Timestamp * Db.t :=
  match Db.invoices db !! invoice_id with
  | Some row =>
      if completable verified_at s (wanted row) row
      then (Some verified_at,
            {| db with Db.invoices := <[invoice_id := completed_row verified_at now row]> (Db.invoices db) |})
      else (None, db)
  | None => (None, db)
  end.

Definition email_proven (s : option PayerSession.t) : bool :=
  match s with Some s => is_some (PayerSession.email_verified_at s) | None => false end.
Definition merchant_proven (s : option PayerSession.t) : bool :=
  match s with Some s => is_some (PayerSession.merchant_session_verified_at s) | None => false end.

Definition wants_email (s : option PayerSession.t) (row : DbInvoice.t) : bool :=
  is_some (Issuance.expected_email (DbInvoice.issuance row))
  && (negb (is_some (Issuance.payer_reference (DbInvoice.issuance row))) || merchant_proven s).

Definition wants_merchant (s : option PayerSession.t) (row : DbInvoice.t) : bool :=
  is_some (Issuance.payer_reference (DbInvoice.issuance row))
  && (negb (is_some (Issuance.expected_email (DbInvoice.issuance row))) || email_proven s).

(** What approving an attempt, or exchanging a secret, came to. *)
Module Completion.
Record t := mk { session : PayerSession.t; invoice_completed_at : option Timestamp }.
End Completion.

Section Repository.
Context (token_hash : string -> B256).

Definition fresh_session (token : string) (invoice_id : Uuid) (purpose : Purpose)
    (email merchant : option Timestamp) (created expires : Timestamp) : PayerSession.t :=
  PayerSession.mk (token_hash token) invoice_id purpose None email merchant None None None created expires.

Definition create (id : Uuid) (token : string) (invoice_id : Uuid) (ttl : Z) (now : Timestamp) (db : Db.t)
  : result DbError (Timestamp * Db.t) :=
  let! db' := insert_session id (fresh_session token invoice_id ForPayer None None now (now + ttl)) db in
  Ok (now + ttl, db').

Definition create_merchant_preview (id : Uuid) (token : string) (invoice_id : Uuid) (ttl : Z) (now : Timestamp)
    (db : Db.t) : result DbError (Timestamp * Db.t) :=
  let! db' := insert_session id
                (fresh_session token invoice_id MerchantPreview (Some now) (Some now) now (now + ttl)) db in
  Ok (now + ttl, db').

Definition is_active (token : string) (invoice_id : Uuid) (now : Timestamp) (s : PayerSession.t) : bool :=
  bool_decide (PayerSession.token_hash s = token_hash token)
  && (PayerSession.invoice_id s =? invoice_id) && (now <? PayerSession.expires_at s).

Definition find_active (token : string) (invoice_id : Uuid) (now : Timestamp) (db : Db.t)
  : option (Uuid * PayerSession.t) :=
  List.find (fun kv => is_active token invoice_id now (snd kv)) (map_to_list (Db.payer_sessions db)).

Definition challenged (nonce : B256) (chain_id ttl : Z) (now : Timestamp) (s : PayerSession.t) : PayerSession.t :=
  {| s with PayerSession.wallet_nonce := Some nonce;
            PayerSession.wallet_nonce_expires_at := Some (Z.min (PayerSession.expires_at s) (now + ttl));
            PayerSession.wallet_nonce_chain_id := Some (as_i64 chain_id) |}.

Definition issue_wallet_challenge (session_id : Uuid) (nonce : B256) (chain_id ttl : Z) (now : Timestamp)
    (db : Db.t) : result DbError (WalletChallenge.t * Db.t) :=
  match Db.payer_sessions db !! session_id with
  | Some s =>
      if (now <? PayerSession.expires_at s) && bool_decide (PayerSession.purpose s = ForPayer)
      then Ok (WalletChallenge.mk nonce (Z.min (PayerSession.expires_at s) (now + ttl)) chain_id,
               set_sessions (<[session_id := challenged nonce chain_id ttl now s]> (Db.payer_sessions db)) db)
      else Err RowNotFound
  | None => Err RowNotFound
  end.

(** [DELETE], with the cascades of [payer_verifications] and of
    [payer_client_secrets]. *)
Definition delete_session (session_id : Uuid) (db : Db.t) : Db.t :=
  {| db with
     Db.payer_sessions := delete session_id (Db.payer_sessions db);
     Db.payer_verifications :=
       filter (fun kv => PayerVerificationRow.payer_session_id (snd kv) <> session_id) (Db.payer_verifications db);
     Db.payer_client_secrets :=
       update_where (fun c => bool_decide (ClientSecret.payer_session_id c = Some session_id))
         (fun c => {| c with ClientSecret.payer_session_id := None |}) (Db.payer_client_secrets db) |}.

(** ** Email attempts *)

Definition is_pending_email (session_id : Uuid) (a : PayerVerificationRow.t) : bool :=
  (PayerVerificationRow.payer_session_id a =? session_id)
  && bool_decide (PayerVerificationRow.kind a = KindEmail)
  && bool_decide (PayerVerificationRow.status a = VsPending).

Definition abandoned (a : PayerVerificationRow.t) : PayerVerificationRow.t :=
  {| a with PayerVerificationRow.status := VsAbandoned |}.

Definition abandon_email_verification (session_id : Uuid) (db : Db.t) : Db.t :=
  set_attempts (update_where (is_pending_email session_id) abandoned (Db.payer_verifications db)) db.

Definition counts_for_cooldown (invoice_id : Uuid) (a : PayerVerificationRow.t) : bool :=
  (PayerVerificationRow.invoice_id a =? invoice_id)
  && bool_decide (PayerVerificationRow.kind a = KindEmail)
  && match PayerVerificationRow.status a with VsPending | VsApproved => true | VsAbandoned => false end.

(** [SELECT max(created_at) ..]. *)
Definition latest_code (invoice_id : Uuid) (db : Db.t) : option Timestamp :=
  map_fold (fun _ a acc =>
      if counts_for_cooldown invoice_id a
      then Some (match acc with Some t => Z.max (PayerVerificationRow.created_at a) t
                           | None => PayerVerificationRow.created_at a end)
      else acc) None (Db.payer_verifications db).

Definition begin_email_verification (session_id attempt_id : Uuid) (cooldown : Z) (utc now : Timestamp)
    (db : Db.t) : result StartEmailError (Timestamp * Db.t) :=
  match Db.payer_sessions db !! session_id with
  | None => Err (StartDatabase RowNotFound)
  | Some s =>
      match Db.invoices db !! PayerSession.invoice_id s with
      | None => Err (StartDatabase RowNotFound)
      | Some row =>
          let elapsed t := Z.max 0 (utc - t) in
          let wait := match latest_code (DbInvoice.id row) db with
                      | Some t => if elapsed t <? cooldown then Some (cooldown - elapsed t) else None
                      | None => None
                      end in
          match wait with
          | Some w => Err (Cooldown w)
          | None =>
              let db1 := abandon_email_verification session_id db in
              if is_some (Db.payer_verifications db1 !! attempt_id)
              then Err (StartDatabase (Constraint "payer_verifications_pkey"))
              else
                let a := PayerVerificationRow.mk (DbInvoice.id row) (DbInvoice.account_id row) session_id
                           KindEmail VsPending "auth0" None None None now in
                Ok (now, set_attempts (<[attempt_id := a]> (Db.payer_verifications db1)) db1)
          end
      end
  end.

Definition created_before (a b : Uuid * PayerVerificationRow.t) : Prop :=
  PayerVerificationRow.created_at (snd a) < PayerVerificationRow.created_at (snd b) \/
  (PayerVerificationRow.created_at (snd a) = PayerVerificationRow.created_at (snd b) /\ fst a <= fst b).

#[local] Instance created_before_dec a b : Decision (created_before a b).
Proof. unfold created_before. apply _. Defined.

Definition attempts_for_invoice (account_id invoice_id : Uuid) (db : Db.t)
  : list (Uuid * PayerVerificationRow.t) :=
  merge_sort created_before
    (List.filter (fun kv => (PayerVerificationRow.account_id (snd kv) =? account_id)
                            && (PayerVerificationRow.invoice_id (snd kv) =? invoice_id))
       (map_to_list (Db.payer_verifications db))).

Definition has_pending_email_verification (session_id : Uuid) (db : Db.t) : bool :=
  existsb (fun kv => is_pending_email session_id (snd kv)) (map_to_list (Db.payer_verifications db)).

Definition approved (verified_at : Timestamp) (ref : B256) (event : string) (a : PayerVerificationRow.t)
  : PayerVerificationRow.t :=
  {| a with PayerVerificationRow.status := VsApproved;
            PayerVerificationRow.verified_at := Some verified_at;
            PayerVerificationRow.payer_ref := Some ref;
            PayerVerificationRow.provider_event_id := Some event |}.

Definition proves_email (ref : B256) (verified_at : Timestamp) (s : PayerSession.t) : PayerSession.t :=
  {| s with PayerSession.payer_ref := Some ref;
            PayerSession.email_verified_at := coalesce (PayerSession.email_verified_at s) (Some verified_at) |}.

(** An approval already recorded under the provider's event. *)
Definition approved_before (event : string) (db : Db.t) : option (Uuid * PayerVerificationRow.t) :=
  List.find (fun kv =>
      bool_decide (PayerVerificationRow.provider_event_id (snd kv) = Some event)
      && bool_decide (PayerVerificationRow.status (snd kv) = VsApproved)) (map_to_list (Db.payer_verifications db)).

Definition approve_email (session_id : Uuid) (ref : B256) (verified_at : Timestamp) (event : string)
    (now : Timestamp) (db : Db.t) : result DbError (Completion.t * Db.t) :=
  match approved_before event db with
  | Some (_, a) =>
      let! s := ok_or (Db.payer_sessions db !! PayerVerificationRow.payer_session_id a) RowNotFound in
      let! row := ok_or (Db.invoices db !! PayerSession.invoice_id s) RowNotFound in
      Ok (Completion.mk s (DbInvoice.verification_completed_at row), db)
  | None =>
      if negb (row_count (is_pending_email session_id) (Db.payer_verifications db) =? 1) then Err RowNotFound
      else
        let db1 := set_attempts (update_where (is_pending_email session_id) (approved verified_at ref event)
                                   (Db.payer_verifications db)) db in
        let! s := ok_or (Db.payer_sessions db1 !! session_id) RowNotFound in
        if PayerSession.expires_at s <=? verified_at then Err RowNotFound
        else
          let s' := proves_email ref verified_at s in
          let db2 := set_sessions (<[session_id := s']> (Db.payer_sessions db1)) db1 in
          let '(completed, db3) :=
            complete_invoice (PayerSession.invoice_id s') verified_at (Some s') (wants_email (Some s')) now db2 in
          Ok (Completion.mk s' completed, db3)
  end.

(** ** Client secrets *)

Definition create_client_secret (id : Uuid) (token : string) (invoice_id account_id : Uuid) (ttl : Z)
    (now : Timestamp) (db : Db.t) : result DbError (string * Timestamp * Db.t) :=
  let secret := (CLIENT_SECRET_PREFIX +:+ token)%string in
  if is_some (Db.payer_client_secrets db !! id) then Err (Constraint "payer_client_secrets_pkey")
  else if existsb (fun kv => bool_decide (ClientSecret.secret_hash (snd kv) = token_hash secret))
            (map_to_list (Db.payer_client_secrets db))
  then Err (Constraint "payer_client_secrets_secret_hash_key")
  else if negb (is_some (Db.invoices db !! invoice_id) && is_some (Db.accounts db !! account_id))
  then Err (Constraint "payer_client_secrets_fkey")
  else if ttl <=? 0 then Err (Constraint "payer_client_secrets_check")
  else
    let c := ClientSecret.mk invoice_id account_id (token_hash secret) now (now + ttl) None None in
    Ok (secret, now + ttl, {| db with Db.payer_client_secrets := <[id := c]> (Db.payer_client_secrets db) |}).

Definition find_secret (secret : string) (invoice_id : Uuid) (db : Db.t) : option (Uuid * ClientSecret.t) :=
  List.find (fun kv => bool_decide (ClientSecret.secret_hash (snd kv) = token_hash secret)
                       && (ClientSecret.invoice_id (snd kv) =? invoice_id))
    (map_to_list (Db.payer_client_secrets db)).

Definition spent (now : Timestamp) (session_id : Uuid) (c : ClientSecret.t) : ClientSecret.t :=
  {| c with ClientSecret.used_at := Some now; ClientSecret.payer_session_id := Some session_id |}.

Definition exchange_db {A} (r : result DbError A) : result ExchangeError A :=
  match r with Ok a => Ok a | Err e => Err (ExchangeDatabase e) end.

(** [utc] is [Utc::now()], read after the secret's row is locked. *)
Definition exchange_client_secret (secret : string) (invoice_id : Uuid) (session_ttl : Z)
    (token : string) (session_id attempt_id : Uuid) (utc now : Timestamp) (db : Db.t)
  : result ExchangeError (Completion.t * Db.t) :=
  match find_secret secret invoice_id db with
  | None => Err SecretUnknown
  | Some (secret_id, c) =>
      if is_some (ClientSecret.used_at c) then Err SecretUsed
      else if ClientSecret.expires_at c <=? utc then Err SecretExpired
      else
        let s := fresh_session token invoice_id ForPayer None (Some utc) now (utc + session_ttl) in
        let! db1 := exchange_db (insert_session session_id s db) in
        if utc <? ClientSecret.created_at c
        then Err (ExchangeDatabase (Constraint "payer_client_secrets_check1"))
        else
          let db2 := {| db1 with Db.payer_client_secrets :=
                          <[secret_id := spent utc session_id c]> (Db.payer_client_secrets db1) |} in
          if is_some (Db.payer_verifications db2 !! attempt_id)
          then Err (ExchangeDatabase (Constraint "payer_verifications_pkey"))
          else
            let a := PayerVerificationRow.mk invoice_id (ClientSecret.account_id c) session_id
                       KindMerchantSession VsApproved "merchant" None None (Some utc) now in
            let db3 := set_attempts (<[attempt_id := a]> (Db.payer_verifications db2)) db2 in
            let '(completed, db4) :=
              complete_invoice invoice_id utc (Some s) (wants_merchant (Some s)) now db3 in
            Ok (Completion.mk s completed, db4)
  end.

End Repository.

(** One committed write of the repository. *)
Inductive verification_step (db : Db.t) : Db.t -> Prop :=
| vs_create hash id token invoice ttl now r db' :
    create hash id token invoice ttl now db = Ok (r, db') -> verification_step db db'
| vs_preview hash id token invoice ttl now r db' :
    create_merchant_preview hash id token invoice ttl now db = Ok (r, db') -> verification_step db db'
| vs_challenge session nonce chain ttl now r db' :
    issue_wallet_challenge session nonce chain ttl now db = Ok (r, db') -> verification_step db db'
| vs_delete session : verification_step db (delete_session session db)
| vs_abandon session : verification_step db (abandon_email_verification session db)
| vs_begin session attempt cooldown utc now r db' :
    begin_email_verification session attempt cooldown utc now db = Ok (r, db') -> verification_step db db'
| vs_approve session ref verified event now r db' :
    approve_email session ref verified event now db = Ok (r, db') -> verification_step db db'
| vs_secret hash id token invoice account ttl now r db' :
    create_client_secret hash id token invoice account ttl now db = Ok (r, db') -> verification_step db db'
| vs_exchange hash secret invoice ttl token session attempt utc now r db' :
    exchange_client_secret hash secret invoice ttl token session attempt utc now db = Ok (r, db') ->
    verification_step db db'.
