(* ===== verification/Proof.v ===== *)
(** * Proofs of payment

    Models [crates/gum-core/src/proof.rs] (the document and its offline
    verification), [crates/gum-server/src/api/proof.rs] (how the server
    assembles one for a settled request), [crates/gum-server/src/attestation.rs]
    (its signature) and [crates/gum-ledger/src/proofs.rs] (the transfers it
    lists).  The primitives are those of [Attribution], plus the canonical JSON
    of the signed payload. *)

From stdpp Require Import sorting pretty.
From S2P Require Import Prelude Core Contracts Bus Tables Attachments Invoices Attribution Verifications.

Definition PROOF_VERSION : string := "gum.proof.v5".
Definition ATTESTATION_VERSION : string := "gum.attestation.v5".
Definition ATTESTATION_DOMAIN : bytes := ascii_bytes "GUM_VERIFICATION_ATTESTATION_V5".

Inductive ProofScope := Settlement | WalletAttributed.

#[export] Instance ProofScope_eq_dec : EqDecision ProofScope.
Proof. solve_decision. Defined.

Module RelayAttribution.
Record t := mk {
  request_id : string;
  origin_chain_id : string;
  origin_transaction_hash : string;
  origin_sender : string;
  attribution_source : string;
}.
End RelayAttribution.

#[export] Instance RelayAttribution_eq_dec : EqDecision RelayAttribution.t.
Proof. solve_decision. Defined.

Module ProofTransfer.
Record t := mk {
  transaction_hash : string;
  log_index : string;
  sender : string;
  recipient : string;
  amount_base_units : string;
  block_number : string;
  relay : option RelayAttribution.t;
}.
End ProofTransfer.

Module AttestedRelayFill.
Record t := mk { transaction_hash : string; log_index : string; relay : RelayAttribution.t }.
End AttestedRelayFill.

Module VerificationFact.
Record t := mk { kind : string; provider : string; at_ : string }.
End VerificationFact.

Module AttestationPayload.
Record t := mk {
  version : string;
  payment_id : string;
  scope : ProofScope;
  attribution_hash : string;
  issuance_nonce : string;
  chain_id : string;
  payment_address : string;
  payer_wallet : option string;
  wallet_nonce : option string;
  result_ : string;
  verified_at : option string;
  wallet_bound_at : option string;
  facts : list VerificationFact.t;
  relay_fills : list AttestedRelayFill.t;
}.
End AttestationPayload.

Module SignedAttestation.
Record t := mk { payload : AttestationPayload.t; signer : string; signature : string }.
End SignedAttestation.

Module ProofOfPayment.
Record t := mk {
  version : string;
  payment_id : string;
  scope : ProofScope;
  canonical_issuance_snapshot : Snapshot.t;
  canonicalization : string;
  attribution_hash : string;
  issuance_nonce : string;
  payer_wallet : option PayerWalletAttestation.t;
  salt : string;
  chain_id : string;
  factory_address : string;
  payment_address : string;
  token_address : string;
  recovery_address : string;
  settlement_transaction_hash : string;
  transfers : list ProofTransfer.t;
  verification : SignedAttestation.t;
}.
End ProofOfPayment.

Module ProofVerification.
Record t := mk {
  attribution_hash : B256;
  scope : ProofScope;
  payer_wallet : option Address;
  attestation_digest : option B256;
  salt : B256;
  payment_address : Address;
  attestation_signer : Address;
  attachment_verified : bool;
}.
End ProofVerification.

Inductive ProofError :=
| Unsupported (what : string)
| ProofMalformed (field : string)
| ProofCanonicalization (e : AttributionError)
| AttributionHashMismatch
| ProofPayerAttestation (e : PayerAttestationError)
| SaltMismatch
| ChainParametersMismatch
| ChainNotOffered
| ScopeMismatch
| RecoveryAddressMismatch
| PaymentAddressMismatch
| AttachmentNotCommitted
| AttachmentLengthMismatch
| AttachmentHashMismatch
| AttestationSignatureInvalid
| AttestationSignerMismatch
| UntrustedAttestor
| AttestationPaymentIdMismatch
| AttestationScopeMismatch
| AttestationNotPassed
| AttestationCommitmentMismatch
| AttestationWalletFactMissing
| TransferRecipientMismatch
| TransferSenderMismatch
| RelayFillNotAttested
| RelayOriginNotVerified
| TransfersBelowInvoiceAmount.

Section Proof.
Context `{P : Primitives}.
(* [serde_jcs::to_vec] of the payload *)
Context (jcs_payload : AttestationPayload.t -> option bytes).

(** ** Verification *)

Definition attestation_digest (p : AttestationPayload.t) : result AttributionError B256 :=
  let! canonical := ok_or (jcs_payload p) Canonicalization in
  Ok (keccak256 (ATTESTATION_DOMAIN ++ canonical)).

Definition word (field : string) (value : string) : result ProofError B256 :=
  ok_or (parse_word value) (ProofMalformed field).

Definition address (field : string) (value : string) : result ProofError Address :=
  ok_or (parse_address value) (ProofMalformed field).

Definition u64_field (field : string) (value : string) : result ProofError Z :=
  ok_or (parse_u64 value) (ProofMalformed field).

Definition from_attribution {A} (r : result AttributionError A) : result ProofError A :=
  match r with Ok a => Ok a | Err e => Err (ProofCanonicalization e) end.

Definition from_attestation {A} (r : result PayerAttestationError A) : result ProofError A :=
  match r with Ok a => Ok a | Err e => Err (ProofPayerAttestation e) end.

Definition required_scope (s : Snapshot.t) : ProofScope :=
  if PayerVerification.wallet_attestation (Snapshot.payer_verification s) then WalletAttributed else Settlement.

(** Step 2: the network the payer chose. *)
Definition chosen_network (proof : ProofOfPayment.t) (chain_id : Z) : result ProofError NetworkTerms.t :=
  let! networks := ok_or (typed_networks (ProofOfPayment.canonical_issuance_snapshot proof))
                     (ProofMalformed "networks") in
  let! network := ok_or (List.find (fun n => NetworkTerms.chain_id n =? chain_id) networks) ChainNotOffered in
  let! factory := address "factory_address" (ProofOfPayment.factory_address proof) in
  let! _ := guard (bool_decide (factory = NetworkTerms.factory network)) ChainParametersMismatch in
  let! token := address "token_address" (ProofOfPayment.token_address proof) in
  let! _ := guard (bool_decide (token = NetworkTerms.token network)) ChainParametersMismatch in
  Ok network.

(** Step 3: the wallet attestation. *)
Definition check_wallet (proof : ProofOfPayment.t) (scope : ProofScope) (chain_id : Z) (factory : Address) (hash : B256)
  : result ProofError (option VerifiedPayerAttestation.t) :=
  match scope, ProofOfPayment.payer_wallet proof with
  | WalletAttributed, Some a =>
      let! v := from_attestation (verify_payer_attestation a (PayerAttestationScope.mk chain_id factory hash)) in
      Ok (Some v)
  | WalletAttributed, None => Err (ProofMalformed "payer_wallet")
  | Settlement, None => Ok None
  | Settlement, Some _ => Err (ProofMalformed "payer_wallet")
  end.

(** Step 5: the CREATE3 address of the committed terms; with the amount. *)
Definition check_address (proof : ProofOfPayment.t) (network : NetworkTerms.t) (salt : B256)
  : result ProofError (Address * Z) :=
  let snapshot := ProofOfPayment.canonical_issuance_snapshot proof in
  let! recovery := address "recovery_address" (ProofOfPayment.recovery_address proof) in
  let! committed := address "recovery_address" (Snapshot.recovery_address snapshot) in
  let! _ := guard (bool_decide (recovery = committed)) RecoveryAddressMismatch in
  let! amount := ok_or (parse_u256 (Snapshot.amount_base_units snapshot)) (ProofMalformed "amount_base_units") in
  let! receiver := address "receiver_address" (Snapshot.receiver_address snapshot) in
  let! expiration := u64_field "expiration_timestamp" (Snapshot.expiration_timestamp snapshot) in
  let predicted := predict_payment_address (NetworkTerms.factory network) (NetworkTerms.token network) amount receiver
                     expiration recovery salt (NetworkTerms.chain_id network) in
  let! stated := address "payment_address" (ProofOfPayment.payment_address proof) in
  let! _ := guard (bool_decide (predicted = stated)) PaymentAddressMismatch in
  Ok (predicted, amount).

(** Step 6: the attachment. *)
Definition check_attachment (snapshot : Snapshot.t) (attachment : option bytes) : result ProofError bool :=
  match attachment with
  | None => Ok false
  | Some content =>
      let! commitment := ok_or (Snapshot.attachment snapshot) AttachmentNotCommitted in
      let! _ := guard (String.eqb (AttachmentCommitment.byte_length commitment) (pretty (Z.of_nat (length content))))
                  AttachmentLengthMismatch in
      let! committed := word "attachment sha256" (AttachmentCommitment.sha256 commitment) in
      let! _ := guard (bool_decide (sha256 content = committed)) AttachmentHashMismatch in
      Ok true
  end.

(** Step 7: who signed the attestation. *)
Definition check_signer (a : SignedAttestation.t) (trusted : list Address) : result ProofError Address :=
  let! digest := from_attribution (attestation_digest (SignedAttestation.payload a)) in
  let! signature := ok_or (hex_decode (SignedAttestation.signature a)) AttestationSignatureInvalid in
  let! recovered := ok_or (recover signature digest) AttestationSignatureInvalid in
  let! stated := address "verification.signer" (SignedAttestation.signer a) in
  let! _ := guard (bool_decide (recovered = stated)) AttestationSignerMismatch in
  let! _ := guard (match trusted with [] => true | _ => bool_decide (recovered ∈ trusted) end) UntrustedAttestor in
  Ok recovered.

(** The signed wallet must be the attested one. *)
Definition wallet_matches (p : AttestationPayload.t) (attested : option VerifiedPayerAttestation.t)
  : result ProofError bool :=
  match AttestationPayload.payer_wallet p, attested with
  | Some payload_wallet, Some v =>
      let! wallet := address "verification.payload.payer_wallet" payload_wallet in
      if negb (bool_decide (wallet = VerifiedPayerAttestation.wallet v)) then Ok false
      else
        let! text := ok_or (AttestationPayload.wallet_nonce p) AttestationCommitmentMismatch in
        let! nonce := word "verification.payload.wallet_nonce" text in
        Ok (bool_decide (nonce = VerifiedPayerAttestation.nonce v))
  | None, None => Ok true
  | _, _ => Err AttestationCommitmentMismatch
  end.

(** A chain of comparisons joined by [||]: the first that fails refuses the
    rest unread. *)
Definition check_commitment (proof : ProofOfPayment.t) (attested : option VerifiedPayerAttestation.t)
    (hash nonce : B256) (payment_address : Address) : result ProofError unit :=
  let p := SignedAttestation.payload (ProofOfPayment.verification proof) in
  let! matches := wallet_matches p attested in
  let! _ := guard matches AttestationCommitmentMismatch in
  let! h := word "verification.payload.attribution_hash" (AttestationPayload.attribution_hash p) in
  let! _ := guard (bool_decide (h = hash)) AttestationCommitmentMismatch in
  let! n := word "verification.payload.issuance_nonce" (AttestationPayload.issuance_nonce p) in
  let! _ := guard (bool_decide (n = nonce)) AttestationCommitmentMismatch in
  let! a := address "verification.payload.payment_address" (AttestationPayload.payment_address p) in
  let! _ := guard (bool_decide (a = payment_address)) AttestationCommitmentMismatch in
  guard (String.eqb (AttestationPayload.chain_id p) (ProofOfPayment.chain_id proof)) AttestationCommitmentMismatch.

Definition passed_result (s : Snapshot.t) : string :=
  if is_gated (Snapshot.payer_verification s) then "approved" else "not_required".

Definition check_payload (proof : ProofOfPayment.t) (scope : ProofScope)
    (attested : option VerifiedPayerAttestation.t) (hash nonce : B256) (payment_address : Address)
  : result ProofError unit :=
  let p := SignedAttestation.payload (ProofOfPayment.verification proof) in
  let! _ := guard (String.eqb (AttestationPayload.version p) ATTESTATION_VERSION) (Unsupported "attestation version") in
  let! _ := guard (String.eqb (AttestationPayload.payment_id p) (ProofOfPayment.payment_id proof))
              AttestationPaymentIdMismatch in
  let! _ := guard (bool_decide (AttestationPayload.scope p = scope)) AttestationScopeMismatch in
  let! _ := guard (String.eqb (AttestationPayload.result_ p)
                     (passed_result (ProofOfPayment.canonical_issuance_snapshot proof))) AttestationNotPassed in
  let! _ := check_commitment proof attested hash nonce payment_address in
  guard (negb (bool_decide (scope = WalletAttributed)
               && negb (existsb (fun f => String.eqb (VerificationFact.kind f) "wallet") (AttestationPayload.facts p))))
    AttestationWalletFactMissing.

(** ** Step 8: the transfers *)

(** The signed payload vouches for this transfer's origin, verbatim. *)
Definition vouched (p : AttestationPayload.t) (t : ProofTransfer.t) (relay : RelayAttribution.t) : bool :=
  existsb (fun fill => String.eqb (AttestedRelayFill.transaction_hash fill) (ProofTransfer.transaction_hash t)
                       && String.eqb (AttestedRelayFill.log_index fill) (ProofTransfer.log_index t)
                       && bool_decide (AttestedRelayFill.relay fill = relay))
    (AttestationPayload.relay_fills p).

(** A transfer of the wallet-attributed scope. *)
Definition check_attributed (p : AttestationPayload.t) (wallet : Address) (t : ProofTransfer.t) : result ProofError unit :=
  let! sender := address "transfer sender" (ProofTransfer.sender t) in
  if bool_decide (sender = wallet) then Ok tt
  else
    let! relay := ok_or (ProofTransfer.relay t) TransferSenderMismatch in
    let! _ := guard (String.eqb (RelayAttribution.attribution_source relay) "receipt") RelayOriginNotVerified in
    let! _ := word "transfer relay.request_id" (RelayAttribution.request_id relay) in
    let! _ := word "transfer relay.origin_transaction_hash" (RelayAttribution.origin_transaction_hash relay) in
    let! _ := u64_field "transfer relay.origin_chain_id" (RelayAttribution.origin_chain_id relay) in
    let! origin_sender := address "transfer relay.origin_sender" (RelayAttribution.origin_sender relay) in
    let! _ := guard (bool_decide (origin_sender = wallet)) TransferSenderMismatch in
    guard (vouched p t relay) RelayFillNotAttested.

(** A transfer of the settlement scope: only the shape of its provenance. *)
Definition check_provenance (t : ProofTransfer.t) : result ProofError unit :=
  match ProofTransfer.relay t with
  | None => Ok tt
  | Some relay =>
      let! _ := word "transfer relay.request_id" (RelayAttribution.request_id relay) in
      let! _ := word "transfer relay.origin_transaction_hash" (RelayAttribution.origin_transaction_hash relay) in
      let! _ := u64_field "transfer relay.origin_chain_id" (RelayAttribution.origin_chain_id relay) in
      let! _ := address "transfer relay.origin_sender" (RelayAttribution.origin_sender relay) in
      guard (negb (String.eqb (RelayAttribution.attribution_source relay) ""))
        (ProofMalformed "transfer relay.attribution_source")
  end.

(** The loop's state: the total, and the events already counted.  The scope is
    wallet-attributed exactly when a wallet was attested ([check_wallet]). *)
Definition count_transfer (p : AttestationPayload.t) (attested : option VerifiedPayerAttestation.t)
    (payment_address : Address) (state : Z * list (B256 * Z)) (t : ProofTransfer.t)
  : result ProofError (Z * list (B256 * Z)) :=
  let '(total, seen) := state in
  let! hash := word "transfer transaction_hash" (ProofTransfer.transaction_hash t) in
  let! log_index := u64_field "transfer log_index" (ProofTransfer.log_index t) in
  let! recipient := address "transfer recipient" (ProofTransfer.recipient t) in
  let! _ := guard (bool_decide (recipient = payment_address)) TransferRecipientMismatch in
  let! _ := match attested with
            | Some v => check_attributed p (VerifiedPayerAttestation.wallet v) t
            | None => check_provenance t
            end in
  let! credited := ok_or (parse_u256 (ProofTransfer.amount_base_units t))
                     (ProofMalformed "transfer amount_base_units") in
  let! _ := u64_field "transfer block_number" (ProofTransfer.block_number t) in
  if bool_decide ((hash, log_index) ∈ seen) then Ok (total, seen)
  else
    let! total' := ok_or (u256_checked_add total credited) (ProofMalformed "transfer amount_base_units") in
    Ok (total', (hash, log_index) :: seen).

Definition verify_proof (proof : ProofOfPayment.t) (attachment : option bytes) (trusted_attestors : list Address)
  : result ProofError ProofVerification.t :=
  let snapshot := ProofOfPayment.canonical_issuance_snapshot proof in
  let! _ := guard (String.eqb (ProofOfPayment.version proof) PROOF_VERSION) (Unsupported "proof version") in
  let! _ := guard (String.eqb (ProofOfPayment.canonicalization proof) CANONICALIZATION
                   && String.eqb (Snapshot.canonicalization snapshot) CANONICALIZATION)
              (Unsupported "canonicalization") in
  let! _ := guard (String.eqb (Snapshot.schema snapshot) SNAPSHOT_SCHEMA) (Unsupported "invoice schema") in
  let scope := required_scope snapshot in
  let! _ := guard (bool_decide (ProofOfPayment.scope proof = scope)) ScopeMismatch in
  let! canonical := from_attribution (canonical_bytes snapshot) in
  let hash := attribution_hash canonical in
  let! stated_hash := word "attribution_hash" (ProofOfPayment.attribution_hash proof) in
  let! _ := guard (bool_decide (hash = stated_hash)) AttributionHashMismatch in
  let! nonce := word "issuance_nonce" (ProofOfPayment.issuance_nonce proof) in
  let! chain_id := u64_field "chain_id" (ProofOfPayment.chain_id proof) in
  let! network := chosen_network proof chain_id in
  let! attested := check_wallet proof scope chain_id (NetworkTerms.factory network) hash in
  let salt := recompute_salt nonce hash (VerifiedPayerAttestation.digest <$> attested) in
  let! stated_salt := word "salt" (ProofOfPayment.salt proof) in
  let! _ := guard (bool_decide (salt = stated_salt)) SaltMismatch in
  let! '(payment_address, amount) := check_address proof network salt in
  let! attachment_verified := check_attachment snapshot attachment in
  let! recovered := check_signer (ProofOfPayment.verification proof) trusted_attestors in
  let! _ := check_payload proof scope attested hash nonce payment_address in
  let! _ := word "settlement_transaction_hash" (ProofOfPayment.settlement_transaction_hash proof) in
  let! '(total, _) := try_fold (count_transfer (SignedAttestation.payload (ProofOfPayment.verification proof))
                                  attested payment_address) (0, []) (ProofOfPayment.transfers proof) in
  let! _ := guard (negb (total <? amount)) TransfersBelowInvoiceAmount in
  Ok (ProofVerification.mk hash scope (VerifiedPayerAttestation.wallet <$> attested)
        (VerifiedPayerAttestation.digest <$> attested) salt payment_address recovered attachment_verified).

End Proof.
