(* ===== verification/ProofApi.v ===== *)
(** * gum-server: issuing a proof of payment

    Models [crates/gum-ledger/src/proofs.rs] (the transfers of a request, with
    the relay payment each was attributed to), [crates/gum-server/src/attestation.rs]
    (the signature of the verification outcome) and
    [crates/gum-server/src/api/proof.rs] (the document).  The lookup of the
    request for an account precedes [get_proof]; the attestor's key is the
    parameter [sign_hash]. *)

From stdpp Require Import sorting pretty.
From S2P Require Import Prelude Core Contracts Bus Tables Attachments Invoices Attribution Sweeps.
From S2P Require Import RelayIntents Verifications Proof.

Module DbSettlementTransfer.
Record t := mk {
  sender_address : bytes;
  recipient_address : bytes;
  amount : Z;
  transaction_hash : bytes;
  log_index : Z;
  block_number : Z;
  relay_request_id : option bytes;
  relay_origin_chain_id : option Z;
  relay_origin_tx_hash : option bytes;
  relay_payer_wallet : option bytes;
  relay_attribution_source : option string;
}.
End DbSettlementTransfer.

(** [LEFT JOIN relay_intents r ON r.id = o.relay_intent_id AND r.status = 'filled']. *)
Definition joined_intent (db : Db.t) (o : Observation.t) : option RelayIntent.t :=
  id ← Observation.relay_intent_id o;
  i ← Db.relay_intents db !! id;
  if bool_decide (RelayIntent.status i = Filled) then Some i else None.

Definition settlement_transfer (db : Db.t) (kv : ObservationKey * Observation.t) : DbSettlementTransfer.t :=
  let '((_, _, tx, log_index), o) := kv in
  let r := joined_intent db o in
  DbSettlementTransfer.mk (Observation.sender_address o) (Observation.recipient_address o) (Observation.amount o)
    tx log_index (Observation.block_number o)
    (RelayIntent.request_id <$> r) (RelayIntent.origin_chain_id <$> r)
    (r ≫= RelayIntent.verified_origin_tx_hash) (RelayIntent.payer_wallet <$> r)
    (r ≫= RelayIntent.attribution_source).

(** [ORDER BY o.block_number, o.transaction_index, o.log_index]. *)
Definition chain_order (a b : ObservationKey * Observation.t) : Prop :=
  let pos x := (Observation.block_number (snd x), Observation.transaction_index (snd x)) in
  position_lt (pos a) (pos b) = true \/ (pos a = pos b /\ snd (fst a) <= snd (fst b)).

#[export] Instance chain_order_dec : RelDecision chain_order.
Proof. intros a b. unfold chain_order. apply _. Defined.

Definition settlement_transfers (invoice_id : Uuid) (db : Db.t) : list DbSettlementTransfer.t :=
  settlement_transfer db <$>
    merge_sort chain_order
      (List.filter (fun kv => of_invoice invoice_id (snd kv) && Observation.is_credited (snd kv))
         (map_to_list (Db.payment_observations db))).

Inductive ProofApiError :=
| DepositRequestNotSettled
| DepositSenderMismatch
| AttestorMissing
| ApiInternal (message : string).

Module Attestor.
Record t := mk { address : Address; sign_hash : B256 -> option bytes }.
End Attestor.

Section ProofApi.
Context `{P : Primitives}.
Context (jcs_payload : AttestationPayload.t -> option bytes) (rfc3339 : Timestamp -> string)
        (invoice_id_string : Uuid -> string).

(** [VerificationAttestor::attest]. *)
Definition attest (a : Attestor.t) (payload : AttestationPayload.t) : result string SignedAttestation.t :=
  let! digest := match attestation_digest jcs_payload payload with
                 | Ok d => Ok d | Err _ => Err "attestation payload could not be canonicalized" end in
  let! signature := ok_or (Attestor.sign_hash a digest) "attestation signing failed" in
  Ok (SignedAttestation.mk payload (to_checksum (Attestor.address a)) (hex_encode_prefixed signature)).

Definition internal {A} (message : string) (o : option A) : result ProofApiError A := ok_or o (ApiInternal message).

(** Where a relayed transfer came from, when every column is there. *)
Definition relay_of (t : DbSettlementTransfer.t) : result ProofApiError (option RelayAttribution.t) :=
  match DbSettlementTransfer.relay_request_id t, DbSettlementTransfer.relay_origin_chain_id t,
        DbSettlementTransfer.relay_origin_tx_hash t, DbSettlementTransfer.relay_payer_wallet t,
        DbSettlementTransfer.relay_attribution_source t with
  | Some request_id, Some origin_chain_id, Some origin_tx, Some wallet, Some source =>
      let! request_id := internal "invalid relay request id" (fixed_bytes 32 request_id) in
      let! origin_tx := internal "invalid relay origin hash" (fixed_bytes 32 origin_tx) in
      let! wallet := internal "invalid relay depositor" (fixed_bytes 20 wallet) in
      Ok (Some (RelayAttribution.mk (word_string request_id) (pretty origin_chain_id) (word_string origin_tx)
                  (to_checksum wallet) source))
  | _, _, _, _, _ => Ok None
  end.

Definition proof_transfer (t : DbSettlementTransfer.t) : result ProofApiError ProofTransfer.t :=
  let! relay := relay_of t in
  let! hash := internal "invalid transfer hash" (fixed_bytes 32 (DbSettlementTransfer.transaction_hash t)) in
  let! sender := internal "invalid transfer sender" (fixed_bytes 20 (DbSettlementTransfer.sender_address t)) in
  let! recipient := internal "invalid transfer recipient" (fixed_bytes 20 (DbSettlementTransfer.recipient_address t)) in
  Ok (ProofTransfer.mk (word_string hash) (pretty (DbSettlementTransfer.log_index t)) (to_checksum sender)
        (to_checksum recipient) (pretty (DbSettlementTransfer.amount t))
        (pretty (DbSettlementTransfer.block_number t)) relay).

(** Neither the wallet's own transfer nor a relayed one of the wallet. *)
Definition foreign (wallet : string) (t : ProofTransfer.t) : bool :=
  negb (String.eqb (ProofTransfer.sender t) wallet)
  && match ProofTransfer.relay t with
     | None => true
     | Some relay => negb (String.eqb (RelayAttribution.origin_sender relay) wallet)
     end.

Definition check_senders (scope : ProofScope) (wallet : option string) (transfers : list ProofTransfer.t)
  : result ProofApiError unit :=
  match scope with
  | Settlement => Ok tt
  | WalletAttributed =>
      let! wallet := internal "attested request has no attested wallet" wallet in
      if existsb (foreign wallet) transfers then Err DepositSenderMismatch else Ok tt
  end.

Definition relay_fill (t : ProofTransfer.t) : option AttestedRelayFill.t :=
  AttestedRelayFill.mk (ProofTransfer.transaction_hash t) (ProofTransfer.log_index t) <$> ProofTransfer.relay t.

Definition relay_fills (wallet : option string) (transfers : list ProofTransfer.t) : list AttestedRelayFill.t :=
  match wallet with
  | Some wallet =>
      omap relay_fill (List.filter (fun t => negb (String.eqb (ProofTransfer.sender t) wallet)) transfers)
  | None => []
  end.

Definition outcome (addons : PayerVerification.t) (row : DbInvoice.t) : string :=
  if negb (is_gated addons) then "not_required"
  else if is_some (DbInvoice.verification_completed_at row) then "approved" else "pending".

(** [iter().filter(..).filter_map(verified_at).min()]. *)
Definition first_approved (kind : VerificationKind) (attempts : list (Uuid * PayerVerificationRow.t)) : option Timestamp :=
  foldr (fun a acc =>
      match PayerVerificationRow.verified_at (snd a) with
      | Some t =>
          if bool_decide (PayerVerificationRow.kind (snd a) = kind)
             && bool_decide (PayerVerificationRow.status (snd a) = VsApproved)
          then Some (match acc with Some t' => Z.min t t' | None => t end)
          else acc
      | None => acc
      end) None attempts.

Definition facts (addons : PayerVerification.t) (attempts : list (Uuid * PayerVerificationRow.t))
    (wallet : option WalletEvidence.t) : list VerificationFact.t :=
  (if is_some (PayerVerification.email addons) then
     match first_approved KindEmail attempts with
     | Some t => [VerificationFact.mk "mailbox" "auth0" (rfc3339 t)] | None => [] end
   else [])
  ++ (if is_some (PayerVerification.merchant_auth addons) then
        match first_approved KindMerchantSession attempts with
        | Some t => [VerificationFact.mk "merchant_session" "merchant" (rfc3339 t)] | None => [] end
      else [])
  ++ match wallet with
     | Some w => [VerificationFact.mk "wallet" "gum" (rfc3339 (WalletEvidence.bound_at w))]
     | None => []
     end.

(** The hash the settlement is named by. *)
Definition settlement_hash (row : DbInvoice.t) : result ProofApiError string :=
  match DbInvoice.status row, DbInvoice.settlement_tx_hash row with
  | Fulfilled, Some hash =>
      let! hash := internal "invalid settlement transaction hash" (fixed_bytes 32 hash) in
      Ok (word_string hash)
  | _, _ => Err DepositRequestNotSettled
  end.

(** The attestation inside the row: a JSON column, read when the row is. *)
Definition stored_attestation (w : option WalletEvidence.t) : result ProofApiError (option PayerWalletAttestation.t) :=
  match w with
  | None => Ok None
  | Some w => let! a := internal "stored attestation" (attestation_from_json (WalletEvidence.attestation w)) in Ok (Some a)
  end.

Definition payload_of (invoice : Invoice.t) (row : DbInvoice.t) (binding : PaymentBinding.t) (scope : ProofScope)
    (attestation : option PayerWalletAttestation.t) (attempts : list (Uuid * PayerVerificationRow.t))
    (transfers : list ProofTransfer.t) : AttestationPayload.t :=
  let addons := Snapshot.payer_verification (Invoice.issuance_snapshot invoice) in
  let wallet := PaymentBinding.wallet binding in
  let payer_wallet := (fun w => to_checksum (WalletEvidence.payer_wallet w)) <$> wallet in
  AttestationPayload.mk ATTESTATION_VERSION (invoice_id_string (Invoice.id invoice)) scope
    (word_string (Invoice.attribution_hash invoice)) (word_string (Invoice.issuance_nonce invoice))
    (pretty (NetworkTerms.chain_id (PaymentBinding.network binding)))
    (to_checksum (PaymentBinding.payment_address binding)) payer_wallet
    ((fun a => PayerAttestationMessage.nonce (PayerAttestationTypedData.message (PayerWalletAttestation.typed_data a)))
       <$> attestation)
    (outcome addons row) (rfc3339 <$> DbInvoice.verification_completed_at row)
    ((fun w => rfc3339 (WalletEvidence.bound_at w)) <$> wallet) (facts addons attempts wallet)
    (relay_fills payer_wallet transfers).

Definition proof_of (invoice : Invoice.t) (binding : PaymentBinding.t) (scope : ProofScope)
    (attestation : option PayerWalletAttestation.t) (settlement : string) (transfers : list ProofTransfer.t)
    (verification : SignedAttestation.t) : ProofOfPayment.t :=
  let network := PaymentBinding.network binding in
  ProofOfPayment.mk PROOF_VERSION (invoice_id_string (Invoice.id invoice)) scope (Invoice.issuance_snapshot invoice)
    CANONICALIZATION (word_string (Invoice.attribution_hash invoice)) (word_string (Invoice.issuance_nonce invoice))
    attestation (word_string (PaymentBinding.salt binding)) (pretty (NetworkTerms.chain_id network))
    (to_checksum (NetworkTerms.factory network)) (to_checksum (PaymentBinding.payment_address binding))
    (to_checksum (NetworkTerms.token network)) (to_checksum (PaymentBinding.recovery binding)) settlement transfers
    verification.

(** ** The cache of [AppState] *)

Abbreviation Cache := (gmap (Uuid * Uuid * list Z) ProofOfPayment.t) (only parsing).

Definition cache_proof (key : Uuid * Uuid * list Z) (proof : ProofOfPayment.t) (cache : Cache) : Cache :=
  <[key := proof]> (if (1024 <=? size cache)%nat then ∅ else cache).

(** [get_proof], for the row the account's reference resolved to. *)
Definition get_proof (attestor : option Attestor.t) (account : Uuid) (row : DbInvoice.t) (cache : Cache) (db : Db.t)
  : result ProofApiError (ProofOfPayment.t * Cache) :=
  let! invoice := match invoice_try_from parse_address row with
                  | Ok i => Ok i | Err _ => Err (ApiInternal "invalid deposit request row") end in
  let! attestation := stored_attestation (Invoice.binding invoice ≫= PaymentBinding.wallet) in
  let! settlement := settlement_hash row in
  let! binding := internal "fulfilled invoice has no payer wallet binding" (Invoice.binding invoice) in
  let! attestor := ok_or attestor AttestorMissing in
  let key := (account, DbInvoice.id row, Attestor.address attestor) in
  match cache !! key with
  | Some proof => Ok (proof, cache)
  | None =>
      let scope := if wallet_attestation_required invoice then WalletAttributed else Settlement in
      let payer_wallet := (fun w => to_checksum (WalletEvidence.payer_wallet w)) <$> PaymentBinding.wallet binding in
      let! transfers := map_result proof_transfer (settlement_transfers (DbInvoice.id row) db) in
      let! _ := check_senders scope payer_wallet transfers in
      let payload := payload_of invoice row binding scope attestation
                       (attempts_for_invoice account (DbInvoice.id row) db) transfers in
      let! verification := match attest attestor payload with
                           | Ok v => Ok v
                           | Err _ => Err (ApiInternal "failed to sign the verification attestation") end in
      let proof := proof_of invoice binding scope attestation settlement transfers verification in
      Ok (proof, cache_proof key proof cache)
  end.

End ProofApi.
