(* ===== verification/LedgerExample.v ===== *)
(** * gum-ledger: one request's life, evaluated

    A concrete history the witnesses of the ledger's theorems run on: a
    request of 100 units is issued and bound, a finalized range pays it, a
    sweep job is scheduled for it, and the job's receipt settles it. *)

From S2P Require Import Prelude Core Contracts Bus Tables Attachments Invoices Range Sweeps.

Module LedgerExample.

Definition hash (_ : Message) : B256 := replicate 32 0.
Definition parse (_ : string) : option Address := Some (replicate 20 9).
Definition hex (_ : bytes) : string := "0x".

Definition chain : Z := 8453.
Definition token : Address := replicate 20 1.
Definition address : Address := replicate 20 2.
Definition block_hash : B256 := replicate 32 5.
Definition sweep_tx : B256 := replicate 32 6.
Definition start : Db.t := {| Db.empty with Db.accounts := {[ 7 := Some "merchant@example.com" ]} |}.

Definition snapshot : Snapshot.t :=
  Snapshot.mk "gum.invoice" "jcs" (Party.mk "Issuer" None None) (Party.mk "Payer" None None) "USDC" "6"
    "100" None None None "2000000000" (PayerVerification.mk None None false) None
    [SnapshotNetwork.mk "8453" "0x01" "0x02"] "0x03" "0x04".

Definition input (id : Uuid) (key : string) (a : Address) : CreateInvoiceInput.t :=
  CreateInvoiceInput.mk id 7 key None None (Party.mk "Issuer" None None) (Party.mk "Payer" None None)
    None None None "{}" (PayerVerification.mk None None false) "USDC" 6 (replicate 20 3) 2000000000 86400
    "in:86400" 100 snapshot 1 (replicate 32 4) (replicate 32 8) (replicate 20 4)
    (Some (PaymentBinding.mk (NetworkTerms.mk chain token (replicate 20 9)) (replicate 20 4)
             (replicate 32 7) a 0 None)) None.

Definition state_of {E A} (r : result E (A * Db.t)) : Db.t :=
  match r with Ok (_, db) => db | Err _ => start end.
Definition value_of {E A} (r : result E (A * Db.t)) : option A :=
  match r with Ok (a, _) => Some a | Err _ => None end.

Definition issue := insert_issued hex (input 1 "order-1" address) None 1000 1000 start.
Definition issued : Db.t := Eval vm_compute in state_of issue.

(** A short stand-in for the transaction's hash keeps the table's keys small. *)
Definition transfer (amount log block ts : Z) : PaymentObservation.t :=
  PaymentObservation.mk token block block_hash ts [3] 4 log (replicate 20 8) address amount.

Definition pay := apply_finalized_range chain None 110 block_hash 1900000000
  [transfer 60 0 100 1800000000; transfer 0 1 100 1800000000; transfer 50 2 105 1800000500] 2000 issued.
Definition paid : Db.t := Eval vm_compute in state_of pay.

Definition schedule := schedule_sweep_job hash parse chain SweepPolicy.default "gum-server" 50 51 52 3000 paid.
Definition scheduled : Db.t := Eval vm_compute in state_of schedule.

Definition receipt : FinalizedSweep.t :=
  FinalizedSweep.mk 50 sweep_tx 200 block_hash 1900000100 3 [SweepItemResult.mk 1 (Settled 10)].
Definition finalize := apply_sweep_finalized receipt SweepPolicy.default 4000 scheduled.
Definition swept : Db.t := Eval vm_compute in state_of finalize.

Definition row_of (db : Db.t) : DbInvoice.t :=
  default (issued_row (input 1 "order-1" address) 0 0) (Db.invoices db !! 1).

Example example_issue : is_ok issue = true.
Proof. vm_compute. reflexivity. Qed.
Example example_pay :
  value_of pay = Some (Applied [1] [] (IndexerCursor.mk 110 block_hash (Some 1900000000))).
Proof. vm_compute. reflexivity. Qed.
Example example_schedule : ScheduledSweepJob.invoice_ids <$> (mjoin (value_of schedule)) = Some [1].
Proof. vm_compute. reflexivity. Qed.
Example example_finalize : value_of finalize = Some (AppliedSweep.mk [1] [] [] [] []).
Proof. vm_compute. reflexivity. Qed.
Example example_settled :
  (DbInvoice.status (row_of swept), DbInvoice.confirmed_received (row_of swept)) = (Fulfilled, 110).
Proof. vm_compute. reflexivity. Qed.

End LedgerExample.
