(* ===== verification/LedgerInv.v ===== *)
(** * gum-ledger: the ledger's books balance

    The invariant [ledger_ok] ties the aggregates kept on every deposit
    request to the table of observations they summarise, the queue to the
    drains, and sweep membership to open jobs; every operation of Invoices,
    Range and Sweeps preserves it. *)

From S2P Require Import Prelude Core Contracts Bus Tables Attachments Invoices Range Sweeps.

Abbreviation ObsTable := (gmap (Z * list Z * list Z * Z) Observation.t) (only parsing).

Implicit Types (id : Uuid) (table : ObsTable) (k : ObservationKey) (o : Observation.t).
Implicit Types (row : DbInvoice.t) (db : Db.t) (now : Timestamp).

(** ** The invariant *)

(** An observation is an error exactly when it moved nothing. *)
Definition observation_ok (o : Observation.t) : Prop :=
  0 <= Observation.amount o /\
  (Observation.disposition o = Error <-> Observation.amount o = 0).

(** What a request's row says about its observations. *)
Record row_ok (table : ObsTable) (id : Uuid) (row : DbInvoice.t) : Prop := {
  ro_id : DbInvoice.id row = id;
  ro_amount : 0 < DbInvoice.amount row;
  ro_received : DbInvoice.confirmed_received row = credited_of id table;
  ro_uncollected : DbInvoice.uncollected_count row = uncollected_of id table;
  ro_created : DbInvoice.status row = Created ->
    DbInvoice.confirmed_received row < DbInvoice.amount row;
  ro_job : DbInvoice.status row = Created -> DbInvoice.sweep_job_id row = None;
  ro_drained : forall k o p, table !! k = Some o -> Observation.invoice_id o = id ->
    Observation.is_error o = false -> DbInvoice.drained_at row = Some p ->
    position_lt (Observation.at_ o) p = true -> is_some (Observation.collected_at o) = true;
}.

Record ledger_ok (db : Db.t) : Prop := {
  lo_row : forall id row, Db.invoices db !! id = Some row ->
    row_ok (Db.payment_observations db) id row;
  lo_observation : forall k o, Db.payment_observations db !! k = Some o ->
    is_Some (Db.invoices db !! Observation.invoice_id o) /\ observation_ok o;
  lo_job : forall id row j, Db.invoices db !! id = Some row ->
    DbInvoice.sweep_job_id row = Some j -> job_open j db = true;
}.

(** ** Aggregates under updates *)

Lemma credited_of_insert id table k o :
  table !! k = None ->
  credited_of id (<[k := o]> table) =
  (if of_invoice id o && Observation.is_credited o then Observation.amount o else 0)
  + credited_of id table.
Proof. intros Hk. unfold credited_of. by rewrite map_sum_insert. Qed.

Lemma uncollected_of_insert id table k o :
  table !! k = None ->
  uncollected_of id (<[k := o]> table) =
  (if of_invoice id o && negb (is_some (Observation.collected_at o)) && negb (Observation.is_error o)
   then 1 else 0) + uncollected_of id table.
Proof. intros Hk. unfold uncollected_of, row_count. by rewrite map_sum_insert. Qed.

Lemma credited_of_nonneg id table :
  (forall k o, table !! k = Some o -> 0 <= Observation.amount o) -> 0 <= credited_of id table.
Proof.
  intros H. apply map_sum_nonneg. intros k o Hk. destruct (_ && _); [by eapply H|done].
Qed.

Lemma no_observations id table :
  (forall k o, table !! k = Some o -> Observation.invoice_id o <> id) ->
  credited_of id table = 0 /\ uncollected_of id table = 0.
Proof.
  intros H. split; apply map_sum_zero; intros k o Hk; unfold of_invoice;
    destruct (Z.eqb_spec (Observation.invoice_id o) id); try done; by destruct (H k o Hk).
Qed.

(** An UPDATE of one invoice's observations leaves the other aggregates. *)
Section OtherInvoice.
Context (id id' : Uuid) (p : Observation.t -> bool) (f : Observation.t -> Observation.t).
Context (Hne : id <> id').
Context (Hp : forall o, p o = true -> of_invoice id' o = true).
Context (Hf : forall o, Observation.invoice_id (f o) = Observation.invoice_id o).

Lemma of_invoice_update o : p o = true -> of_invoice id (f o) = false /\ of_invoice id o = false.
Proof.
  intros H%Hp. unfold of_invoice in *. rewrite Hf. apply Z.eqb_eq in H.
  by split; apply Z.eqb_neq; congruence.
Qed.

Lemma credited_of_update_other table :
  credited_of id (update_where p f table) = credited_of id table.
Proof.
  unfold credited_of. rewrite map_sum_update_where. apply map_sum_ext. intros k o _.
  destruct (p o) eqn:E; [|done]. by destruct (of_invoice_update o E) as [-> ->].
Qed.

Lemma uncollected_of_update_other table :
  uncollected_of id (update_where p f table) = uncollected_of id table.
Proof.
  unfold uncollected_of, row_count. rewrite map_sum_update_where. apply map_sum_ext. intros k o _.
  destruct (p o) eqn:E; [|done]. by destruct (of_invoice_update o E) as [-> ->].
Qed.
End OtherInvoice.

(** ** Operations that leave observations and drains alone *)

(** How such an operation may change a row. *)
Record row_kept (row row' : DbInvoice.t) : Prop := {
  rk_issuance : DbInvoice.issuance row' = DbInvoice.issuance row;
  rk_received : DbInvoice.confirmed_received row' = DbInvoice.confirmed_received row;
  rk_uncollected : DbInvoice.uncollected_count row' = DbInvoice.uncollected_count row;
  rk_drained : DbInvoice.drained_at row' = DbInvoice.drained_at row;
  rk_status : DbInvoice.status row' = Created -> DbInvoice.status row = Created;
  rk_job : DbInvoice.sweep_job_id row' = None \/
           DbInvoice.sweep_job_id row' = DbInvoice.sweep_job_id row;
}.

#[export] Instance row_kept_refl : Reflexive row_kept.
Proof. intros row. split; auto. Qed.

Lemma row_kept_ok table id row row' : row_kept row row' -> row_ok table id row -> row_ok table id row'.
Proof.
  intros [Hi Hr Hu Hd Hs Hj] [Ho1 Ho2 Ho3 Ho4 Ho5 Ho6 Ho7].
  assert (DbInvoice.amount row' = DbInvoice.amount row) as Ha by (unfold DbInvoice.amount; congruence).
  split; try congruence.
  - unfold DbInvoice.id in *. congruence.
  - intros H. rewrite Hr, Ha. auto.
  - intros H. destruct Hj as [->| ->]; auto.
  - intros k o p H1 H2 H3 H4. rewrite Hd in H4. eauto.
Qed.

(** Rows of two states related one by one. *)
Definition invoices_related (R : DbInvoice.t -> DbInvoice.t -> Prop) (db db' : Db.t) : Prop :=
  forall id, option_Forall2 R (Db.invoices db !! id) (Db.invoices db' !! id).

Lemma invoices_related_ok db db' :
  invoices_related row_kept db db' ->
  Db.payment_observations db' = Db.payment_observations db ->
  (forall j, job_open j db = true -> job_open j db' = true) ->
  ledger_ok db -> ledger_ok db'.
Proof.
  intros Hrel Hobs Hjobs [Hrow Hob Hjob].
  assert (forall id row', Db.invoices db' !! id = Some row' ->
    exists row, Db.invoices db !! id = Some row /\ row_kept row row') as Hback.
  { intros id row' H. specialize (Hrel id). rewrite H in Hrel. inversion Hrel; eauto. }
  split.
  - intros id row' H. destruct (Hback id row' H) as (row & Hr & Hk).
    rewrite Hobs. by eapply row_kept_ok; eauto.
  - intros k o. rewrite Hobs. intros Hk. destruct (Hob k o Hk) as [[row Hr] ?]. split; [|done].
    specialize (Hrel (Observation.invoice_id o)). rewrite Hr in Hrel. inversion Hrel. eauto.
  - intros id row' j H Hj. destruct (Hback id row' H) as (row & Hr & Hk).
    apply Hjobs. destruct (rk_job _ _ Hk) as [E|E]; [congruence|]. eapply Hjob; [done|congruence].
Qed.

Lemma related_update_where db db' p f :
  Db.invoices db' = update_where p f (Db.invoices db) ->
  (forall row, p row = true -> row_kept row (f row)) ->
  invoices_related row_kept db db'.
Proof.
  intros Heq Hf id. rewrite Heq, lookup_update_where.
  destruct (Db.invoices db !! id) as [row|]; simpl; constructor.
  destruct (p row) eqn:E; [by auto|reflexivity].
Qed.

Lemma related_insert db db' id row row' :
  Db.invoices db' = <[id := row']> (Db.invoices db) ->
  Db.invoices db !! id = Some row -> row_kept row row' ->
  invoices_related row_kept db db'.
Proof.
  intros Heq Hid Hk id'. rewrite Heq. destruct (decide (id' = id)) as [->|].
  - rewrite lookup_insert_eq, Hid. by constructor.
  - rewrite lookup_insert_ne by done. destruct (Db.invoices db !! id'); constructor. reflexivity.
Qed.

Lemma related_alter db db' id f :
  Db.invoices db' = alter f id (Db.invoices db) ->
  (forall row, Db.invoices db !! id = Some row -> row_kept row (f row)) ->
  invoices_related row_kept db db'.
Proof.
  intros Heq Hf id'. rewrite Heq. destruct (decide (id' = id)) as [->|].
  - rewrite lookup_alter_eq. destruct (Db.invoices db !! id) eqn:E; simpl; constructor. by auto.
  - rewrite lookup_alter_ne by done. destruct (Db.invoices db !! id'); constructor. reflexivity.
Qed.

(** *** Binding, expiry, cancellation, release *)

Ltac kept := split; simpl; auto; try discriminate.

Lemma ledger_ok_same db db' :
  Db.invoices db' = Db.invoices db -> Db.payment_observations db' = Db.payment_observations db ->
  Db.sweep_jobs db' = Db.sweep_jobs db -> ledger_ok db -> ledger_ok db'.
Proof.
  intros Hi Ho Hj. apply invoices_related_ok; [|done|unfold job_open; by rewrite Hj].
  intros id. rewrite Hi. destruct (Db.invoices db !! id); constructor. reflexivity.
Qed.

Lemma store_invoice_ok db id row row' db' :
  Db.invoices db !! id = Some row -> row_kept row row' ->
  store_invoice id row' db = Ok db' -> ledger_ok db -> ledger_ok db'.
Proof.
  unfold store_invoice. intros Hid Hk Hs Hok. repeat case_match; inv_ok.
  eapply invoices_related_ok; [by eapply (related_insert db)|done..].
Qed.

Lemma bind_payer_wallet_ok id session attempt b utc now db r db' :
  bind_payer_wallet id session attempt b utc now db = Ok (r, db') -> ledger_ok db -> ledger_ok db'.
Proof.
  unfold bind_payer_wallet. intros H Hok. apply rbind_ok in H as (row & Hid%ok_or_ok & H).
  repeat case_match; inv_ok; try done.
  repeat case_match; inv_ok.
  match goal with H : store_invoice _ _ _ = Ok ?db1 |- _ =>
    apply (ledger_ok_same db1); [done..|] end.
  eapply store_invoice_ok; [done| |eassumption|done]. kept.
Qed.

Lemma bind_network_ok id b utc now db r db' :
  bind_network id b utc now db = Ok (r, db') -> ledger_ok db -> ledger_ok db'.
Proof.
  unfold bind_network. intros H Hok. apply rbind_ok in H as (row & Hid%ok_or_ok & H).
  repeat case_match; inv_ok; try done.
  eapply store_invoice_ok; [done| |done|done]. kept.
Qed.

Lemma expire_unbound_ok t now db : ledger_ok db -> ledger_ok (snd (expire_unbound t now db)).
Proof.
  apply invoices_related_ok; [eapply related_update_where; [done|intros; kept]|done..].
Qed.

Lemma expire_bound_ok chain t now db : ledger_ok db -> ledger_ok (snd (expire_bound chain t now db)).
Proof.
  apply invoices_related_ok; [eapply related_update_where; [done|intros; kept]|done..].
Qed.

Lemma request_cancellation_ok account id now db :
  ledger_ok db -> ledger_ok (snd (request_cancellation account id now db)).
Proof.
  unfold request_cancellation. intros Hok.
  destruct (Db.invoices db !! id) as [row|] eqn:Hid; [|done].
  destruct (DbInvoice.account_id row =? account); [|done]. cbn [snd].
  eapply invoices_related_ok; [eapply (related_insert db); [done|eassumption|kept]|done..].
Qed.

Lemma release_attention_ok id now db r db' :
  release_attention id now db = Ok (r, db') -> ledger_ok db -> ledger_ok db'.
Proof.
  unfold release_attention. intros H Hok. repeat case_match; inv_ok.
  eapply invoices_related_ok; [eapply (related_insert db); [done|eassumption|kept]|done..].
Qed.

(** *** Issuance *)

Lemma attach_invoices account a id now db r db' :
  Attachment.attach_in_transaction account a id now db = Ok (r, db') ->
  Db.invoices db' = Db.invoices db /\ Db.payment_observations db' = Db.payment_observations db /\
  Db.sweep_jobs db' = Db.sweep_jobs db.
Proof.
  intros H%Attachment.attach_update. unfold Attachment.update_upload in H.
  repeat case_match; inv_ok; done.
Qed.

Lemma issue_row_ok db id row :
  ledger_ok db -> Db.invoices db !! id = None -> DbInvoice.id row = id -> 0 < DbInvoice.amount row ->
  DbInvoice.confirmed_received row = 0 -> DbInvoice.uncollected_count row = 0 ->
  DbInvoice.sweep_job_id row = None -> DbInvoice.drained_at row = None ->
  ledger_ok {| db with Db.invoices := <[id := row]> (Db.invoices db) |}.
Proof.
  intros [Hrow Hob Hjob] Hnone Hid Ha Hr Hu Hj Hd.
  assert (credited_of id (Db.payment_observations db) = 0 /\
          uncollected_of id (Db.payment_observations db) = 0) as [Hc0 Hu0].
  { apply no_observations. intros k o Hk Heq. destruct (Hob k o Hk) as [[? Hx] _]. congruence. }
  split; simpl.
  - intros id' row' [[<- <-]|[Hne H]]%lookup_insert_Some; [|by apply Hrow].
    split; try congruence; lia.
  - intros k o Hk. destruct (Hob k o Hk) as [[? Hx] ?]. split; [|done].
    apply lookup_insert_is_Some. destruct (decide (id = Observation.invoice_id o)); eauto.
  - intros id' row' j [[<- <-]|[Hne H]]%lookup_insert_Some; [congruence|]. by eapply Hjob.
Qed.

Lemma insert_issued_ok hex input a utc now db r db' :
  insert_issued hex input a utc now db = Ok (r, db') -> ledger_ok db -> ledger_ok db'.
Proof.
  unfold insert_issued. intros H Hok.
  destruct (find_by_idempotency_key _ _ _); [inv_ok; done|].
  destruct (Db.invoices db !! _) eqn:Hnone; [discriminate|]. simpl in H.
  destruct (Db.accounts db !! _); [|discriminate]. simpl in H.
  destruct (row_allowed _) eqn:Hall; [|discriminate].
  destruct (address_taken _ _ _); [discriminate|]. cbn [negb] in H.
  apply rbind_ok in H as ([att db2] & Hatt & H).
  set (db1 := {| db with Db.invoices := _ |}) in Hatt.
  assert (ledger_ok db1) as Hok1.
  { apply issue_row_ok; try done. unfold row_allowed in Hall. by bools. }
  assert (ledger_ok db2) as Hok2.
  { destruct a; [|inv_ok; done]. destruct (Attachment.attach_in_transaction _ _ _ _ _) as [[? ?]|] eqn:E;
      inv_ok. apply attach_invoices in E as (? & ? & ?). by eapply ledger_ok_same. }
  inv_ok. destruct (CreateInvoiceInput.payer_notification_email input); [|done].
  by eapply ledger_ok_same; [..|exact Hok2].
Qed.

(** *** Jobs that close, flags and requeues *)

Lemma flag_attention_ok id reason now db :
  ledger_ok db -> ledger_ok (snd (flag_attention_in id reason now db)).
Proof.
  unfold flag_attention_in. intros Hok.
  destruct (Db.invoices db !! id) as [row|] eqn:Hid; [|done].
  destruct (is_some (DbInvoice.attention_reason row)); [done|]. cbn [snd].
  destruct (Db.accounts db !! _);
    (eapply (invoices_related_ok db); [|done|done|done]);
    (eapply (related_insert db); [done|exact Hid|kept]).
Qed.

Lemma requeue_ok id now db : ledger_ok db -> ledger_ok (requeue id now db).
Proof. apply invoices_related_ok; [eapply related_alter; [done|intros; kept]|done..]. Qed.

Lemma record_submission_ok job tx now db :
  ledger_ok db -> ledger_ok (record_sweep_submission job tx now db).
Proof.
  apply invoices_related_ok; [|done|].
  - intros id. simpl. destruct (Db.invoices db !! id); constructor. reflexivity.
  - intros j. unfold job_open. simpl. destruct (decide (j = job)) as [->|].
    + rewrite lookup_alter_eq. destruct (Db.sweep_jobs db !! job) as [job'|]; simpl; [|done].
      destruct (SweepJob.is_open job') eqn:E; simpl; [|congruence]. intros _.
      unfold SweepJob.is_open in *. done.
    + by rewrite lookup_alter_ne.
Qed.

Lemma resolve_job_ok job res detail tx now db db' :
  resolve_job job res detail tx now db = Ok db' -> ledger_ok db ->
  (forall id row, Db.invoices db !! id = Some row -> DbInvoice.sweep_job_id row <> Some job) ->
  ledger_ok db'.
Proof.
  unfold resolve_job. intros H [Hrow Hob Hjob] Hnone.
  destruct (Db.sweep_jobs db !! job) as [job'|] eqn:Hj; [|discriminate].
  destruct (SweepJob.is_open job'); [|discriminate]. inv_ok. split; simpl; try done.
  intros id row j Hid Hs. unfold job_open. simpl.
  rewrite lookup_insert_ne; [by apply (Hjob id row j)|]. intros ->. by apply (Hnone id row).
Qed.

Lemma close_without_effect_ok job res detail tx now db n db' :
  close_without_effect job res detail tx now db = Ok (n, db') -> ledger_ok db -> ledger_ok db'.
Proof.
  unfold close_without_effect. intros H Hok.
  destruct (job_open job db); [|discriminate]. simpl in H.
  apply rbind_ok in H as (db2 & Hres & [= <- <-]). eapply resolve_job_ok; [exact Hres| |].
  - eapply (invoices_related_ok db); [|done|done|done].
    eapply (related_update_where db); [done|intros; kept].
  - simpl. intros id row. rewrite lookup_update_where.
    destruct (Db.invoices db !! id) as [row0|]; simpl; [|discriminate]. intros [= <-].
    destruct (in_job job row0) eqn:E; simpl; [done|]. unfold in_job in E. by bools.
Qed.

(** *** Drains *)

(** What a drain does to one observation of the invoice. *)
Section DrainTable.
Context (id : Uuid) (at_ cat : position) (expiration : Z) (reason : string).

Definition drain_table (table : ObsTable) : ObsTable :=
  reclassify id cat expiration reason (mark_collected id at_ table).

Lemma drain_table_lookup table k o' :
  drain_table table !! k = Some o' ->
  exists o, table !! k = Some o /\
    Observation.invoice_id o' = Observation.invoice_id o /\
    Observation.amount o' = Observation.amount o /\
    Observation.at_ o' = Observation.at_ o /\
    Observation.is_error o' = Observation.is_error o /\
    (Observation.invoice_id o <> id -> o' = o) /\
    (is_some (Observation.collected_at o) = true -> Observation.collected_at o' = Observation.collected_at o) /\
    (Observation.invoice_id o = id -> Observation.is_error o = false ->
       position_lt (Observation.at_ o) at_ = true -> is_some (Observation.collected_at o') = true) /\
    (Observation.invoice_id o = id -> Observation.is_error o = false ->
       Observation.is_credited o' =
       (Observation.block_timestamp o <=? expiration) && position_lt (Observation.at_ o) cat).
Proof.
  unfold drain_table, reclassify, mark_collected. rewrite !lookup_update_where.
  destruct (table !! k) as [o|]; [|discriminate]. simpl. intros [= <-]. exists o. split; [done|].
  unfold of_invoice. destruct (Z.eqb_spec (Observation.invoice_id o) id) as [Hid|Hid]; simpl.
  2: { apply Z.eqb_neq in Hid. rewrite !Hid. simpl. apply Z.eqb_neq in Hid.
       split_and!; done. }
  destruct o as [i b bh bt ti sd rc am di dr co ri rp ob].
  unfold Observation.is_error, Observation.is_credited, Observation.at_ in *; simpl in *.
  subst i. destruct co; simpl; rewrite ?Z.eqb_refl; simpl;
    destruct di; simpl; rewrite ?Z.eqb_refl; simpl;
    destruct (position_lt (b, ti) at_) eqn:Hp; simpl; rewrite ?Z.eqb_refl; simpl;
    split_and!; try done; intros; try done; by destruct (_ && _).
Qed.

Lemma drain_table_some table k o :
  table !! k = Some o -> exists o', drain_table table !! k = Some o'.
Proof.
  unfold drain_table, reclassify, mark_collected. rewrite !lookup_update_where.
  intros ->. simpl. eauto.
Qed.

Lemma drain_table_other table id' :
  id' <> id -> credited_of id' (drain_table table) = credited_of id' table /\
               uncollected_of id' (drain_table table) = uncollected_of id' table.
Proof.
  intros Hne. unfold drain_table, reclassify, mark_collected.
  split; [rewrite !credited_of_update_other with (id' := id)|
          rewrite !uncollected_of_update_other with (id' := id)]; try done;
    intros o Ho; bools; done.
Qed.

Lemma drain_table_observation table k o' :
  (forall k o, table !! k = Some o -> observation_ok o) ->
  drain_table table !! k = Some o' -> observation_ok o'.
Proof.
  intros Hall H. destruct (drain_table_lookup _ _ _ H) as (o & Ho & _ & Ha & _ & He & _).
  destruct (Hall k o Ho) as [H1 H2]. unfold observation_ok, Observation.is_error in *. rewrite Ha.
  split; [done|]. rewrite <- H2. rewrite <- (bool_decide_eq_true (_ o' = Error)), He.
  apply bool_decide_eq_true.
Qed.
End DrainTable.

(** The state a drain writes before any flag. *)
Lemma drained_state_ok receipt row d now db db1 :
  let id := DbInvoice.id row in
  let at_ := (as_i64 (FinalizedSweep.block receipt), as_i64 (FinalizedSweep.transaction_index receipt)) in
  let table := drain_table id at_ (classification_position row d) (DbInvoice.expiration_timestamp row)
    ("invoice_" +:+ InvoiceStatus.as_str (default (DbInvoice.status row) (Drain.status d)))
    (Db.payment_observations db) in
  ledger_ok db -> Db.invoices db !! id = Some row -> DbInvoice.sweep_job_id row <> None ->
  Drain.status d <> Some Created ->
  Db.payment_observations db1 = table ->
  Db.invoices db1 = alter (drained_row receipt d table now) id (Db.invoices db) ->
  Db.sweep_jobs db1 = Db.sweep_jobs db ->
  ledger_ok db1.
Proof.
  intros id at_ table [Hrow Hob Hjob] Hid Hj Hd Hobs Hinv Hjobs.
  assert (forall id' row', Db.invoices db1 !! id' = Some row' ->
    (id' = id /\ row' = drained_row receipt d table now row) \/
    (id' <> id /\ Db.invoices db !! id' = Some row')) as Hcase.
  { intros id' row'. rewrite Hinv. destruct (decide (id' = id)) as [->|].
    - rewrite lookup_alter_eq, Hid. simpl. intros [= <-]. by left.
    - rewrite lookup_alter_ne by done. by right. }
  split.
  - intros id' row' H. rewrite Hobs. destruct (Hcase _ _ H) as [[-> ->]|[Hne H']].
    + pose proof (Hrow _ _ Hid) as [R1 R2 R3 R4 R5 R6 R7]. split; try done.
      * simpl. intros Hs. destruct (Drain.status d) as [s|]; simpl in Hs; [congruence|]. by destruct Hj; auto.
      * intros k o' p Ho' Hi He [= <-] Hlt.
        destruct (drain_table_lookup _ _ _ _ _ _ _ _ Ho') as (o & Ho & E1 & _ & E3 & E4 & _ & _ & E7 & _).
        apply E7; [by rewrite <- E1|by rewrite <- E4|by rewrite <- E3].
    + pose proof (Hrow _ _ H') as [R1 R2 R3 R4 R5 R6 R7].
      destruct (drain_table_other id at_ (classification_position row d)
        (DbInvoice.expiration_timestamp row)
        ("invoice_" +:+ InvoiceStatus.as_str (default (DbInvoice.status row) (Drain.status d)))
        (Db.payment_observations db) id' Hne) as [Ec Eu].
      split; try done; [unfold table; by rewrite Ec|unfold table; by rewrite Eu|].
      intros k o' p Ho' Hi He Hdr Hlt.
      destruct (drain_table_lookup _ _ _ _ _ _ _ _ Ho') as (o & Ho & E1 & _ & _ & _ & E5 & _).
      assert (o' = o) as -> by (apply E5; by rewrite <- E1, Hi). exact (R7 k o p Ho Hi He Hdr Hlt).
  - intros k o' Ho'. rewrite Hobs in Ho'.
    assert (observation_ok o') as Hok'.
    { eapply drain_table_observation; [|exact Ho']. intros k' o Ho. by apply (Hob k' o). }
    destruct (drain_table_lookup _ _ _ _ _ _ _ _ Ho') as (o & Ho & E1 & _).
    split; [|done]. rewrite E1, Hinv. destruct (Hob k o Ho) as [Hs _].
    by apply lookup_alter_is_Some.
  - intros id' row' j H Hsj. unfold job_open. rewrite Hjobs.
    destruct (Hcase _ _ H) as [[-> ->]|[Hne H']]; [discriminate|]. by apply (Hjob id' row' j).
Qed.

Lemma apply_drain_ok receipt row d now db db' :
  apply_drain receipt row d now db = Ok db' -> ledger_ok db ->
  Db.invoices db !! DbInvoice.id row = Some row -> DbInvoice.sweep_job_id row <> None ->
  Drain.status d <> Some Created -> ledger_ok db'.
Proof.
  unfold apply_drain. intros H Hok Hid Hj Hd.
  destruct (negb (positions_allowed _ _)); [discriminate|].
  destruct (_ && negb (bool_decide _)); [discriminate|]. injection H as <-.
  destruct (Drain.attention d); [apply flag_attention_ok|];
    (eapply (drained_state_ok receipt row d now db); [done..]).
Qed.

Lemma decide_not_created row receipt outcome policy d :
  decide_item row receipt outcome policy = Drained d -> Drain.status d <> Some Created.
Proof.
  unfold decide_item, own_drain. intros H. repeat case_match; simplify_eq; done.
Qed.

Lemma apply_item_ok receipt policy now s item s' :
  apply_item receipt policy now s item = Ok s' -> ledger_ok (snd s) -> ledger_ok (snd s').
Proof.
  destruct s as [applied db]. unfold apply_item. intros H Hok. simpl in Hok.
  apply rbind_ok in H as (row & Hid%ok_or_ok & H).
  destruct (bool_decide _) eqn:Hj; [|discriminate]. simpl in H. bools.
  apply rbind_ok in H as ([applied' db'] & Hdec & [= <-]). simpl.
  apply (ledger_ok_same db'); [done..|].
  pose proof (ro_id _ _ _ (lo_row _ Hok _ _ Hid)) as Hrid.
  destruct (decide_item row receipt (SweepItemResult.outcome item) policy) as [d| |reason] eqn:Ed.
  - apply rbind_ok in Hdec as (db1 & Hdr & [= <- <-]).
    eapply apply_drain_ok; [exact Hdr|done|by rewrite Hrid|congruence|by eapply decide_not_created].
  - injection Hdec as <- <-. by apply requeue_ok.
  - injection Hdec as <- <-. by apply flag_attention_ok, requeue_ok.
Qed.

Lemma apply_sweep_finalized_ok receipt policy now db r db' :
  apply_sweep_finalized receipt policy now db = Ok (r, db') -> ledger_ok db -> ledger_ok db'.
Proof.
  unfold apply_sweep_finalized. intros H Hok.
  destruct (job_open _ db); [|discriminate]. simpl in H.
  apply rbind_ok in H as ([applied db1] & Hf & H).
  assert (ledger_ok db1) as Hok1.
  { change (ledger_ok (snd (applied, db1))).
    eapply (try_fold_ind _ (fun s => ledger_ok (snd s))); [|exact (Hok : ledger_ok (snd (AppliedSweep.empty, db)))|exact Hf].
    intros s x s' _ Hs Hx. by eapply apply_item_ok. }
  destruct (Z.eqb_spec (row_count (in_job (FinalizedSweep.job_id receipt)) (Db.invoices db1)) 0)
    as [Hz|]; [|discriminate]. simpl in H.
  apply rbind_ok in H as (db2 & Hres & [= <- <-]).
  eapply resolve_job_ok; [exact Hres|done|].
  intros id row Hid Hj. rewrite row_count_zero in Hz. specialize (Hz id row Hid).
  unfold in_job in Hz. by bools.
Qed.

(** *** Scheduling *)

Lemma claim_rows_lookup job now (rows : list DbInvoice.t) (m : gmap Uuid DbInvoice.t) (id : Uuid) :
  claim_rows job now rows m !! id =
  if bool_decide (id ∈ DbInvoice.id <$> rows) then claim_row job now <$> m !! id else m !! id.
Proof.
  induction rows as [|r rows IH]; simpl; [done|].
  destruct (decide (id = DbInvoice.id r)) as [->|Hne].
  - rewrite lookup_alter_eq, IH, (bool_decide_eq_true_2 (_ ∈ _ :: _)) by (by left).
    case_bool_decide; [|done]. by destruct (m !! DbInvoice.id r).
  - rewrite lookup_alter_ne, IH by done.
    apply (f_equal (fun b : bool => if b then _ else _)), bool_decide_ext.
    rewrite elem_of_cons. naive_solver.
Qed.

(** What the scan of the queue returns: due rows, each eligible. *)
Lemma take_due_subset policy now n rows out :
  take_due policy now n rows = Ok out -> forall row, row ∈ out -> row ∈ rows.
Proof.
  revert n out. induction rows as [|r rows IH]; intros [|n] out; simpl;
    try (intros [= <-] row Hin; by apply not_elem_of_nil in Hin).
  intros H. apply rbind_ok in H as ([] & Hd & H).
  - apply rbind_ok in H as (rest & Hrest & [= <-]). intros row [->|Hin]%elem_of_cons; [by left|].
    right. by eapply IH.
  - intros row Hin. right. by eapply IH.
Qed.

Lemma queue_elem chain db row :
  row ∈ queue chain db <->
  (exists id, Db.invoices db !! id = Some row) /\
  DbInvoice.chain_id row = Some chain /\ eligible db row = true.
Proof.
  unfold queue. rewrite sorting.merge_sort_Permutation, list_elem_of_In, filter_In, <- list_elem_of_In,
    andb_true_iff, bool_decide_eq_true, list_elem_of_fmap. split.
  - intros [([k r] & -> & Hk%elem_of_map_to_list) [Hc He]]. simpl in *. eauto.
  - intros ([id Hid] & Hc & He). split; [|done]. exists (id, row). split; [done|].
    by apply elem_of_map_to_list.
Qed.

Lemma schedule_ok hash parse chain policy producer job corr msg now db r db' :
  schedule_sweep_job hash parse chain policy producer job corr msg now db = Ok (r, db') ->
  ledger_ok db -> ledger_ok db'.
Proof.
  unfold schedule_sweep_job. intros H Hok.
  destruct (halted _ db); [inv_ok; done|].
  destruct (Db.sweep_jobs db !! job) eqn:Hjob; [discriminate|]. simpl in H.
  apply rbind_ok in H as (rows & Hrows & H).
  destruct (take_due _ _ _ _) as [rows'|] eqn:Htd; [|discriminate]. injection Hrows as ->.
  destruct rows as [|r0 rows0]; [inv_ok; done|]. remember (r0 :: rows0) as rows eqn:Er; clear Er.
  apply rbind_ok in H as (items & _ & H).
  destruct (publish _ _ _ _ _ _ _ _) as [[outcome bus]|]; [|discriminate].
  injection H as <- <-.
  assert (forall id row, Db.invoices db !! id = Some row -> id ∈ DbInvoice.id <$> rows ->
    eligible db row = true) as Hel.
  { intros id row Hid (row' & -> & Hin)%list_elem_of_fmap.
    eapply take_due_subset in Hin; [|exact Htd].
    apply queue_elem in Hin as ([id' Hid'] & _ & He).
    pose proof (ro_id _ _ _ (lo_row _ Hok _ _ Hid')). congruence. }
  destruct Hok as [Hrow Hob Hjb]. split; simpl.
  - intros id row'. rewrite claim_rows_lookup.
    case_bool_decide as Hin; [|apply Hrow].
    destruct (Db.invoices db !! id) as [row|] eqn:Hid; [|discriminate]. intros [= <-].
    pose proof (Hel id row Hid Hin) as He. destruct (Hrow id row Hid) as [R1 R2 R3 R4 R5 R6 R7].
    split; try done. simpl. intros Hs. unfold eligible in He. rewrite Hs in He.
    by rewrite andb_false_r in He.
  - intros k o Hk. destruct (Hob k o Hk) as [[row Hr] ?]. split; [|done].
    rewrite claim_rows_lookup, Hr. case_bool_decide; eauto.
  - intros id row' j. rewrite claim_rows_lookup. unfold job_open. simpl. intros Hl Hj.
    destruct (decide (j = job)) as [->|]; [by rewrite lookup_insert_eq|rewrite lookup_insert_ne by done].
    destruct (Db.invoices db !! id) as [row|] eqn:Hid; [|by case_bool_decide].
    case_bool_decide; simpl in Hl; injection Hl as <-; [simpl in Hj; congruence|]. by apply (Hjb id row j).
Qed.
