(* ===== verification/ProofExample.v ===== *)
(** * Primitives one can evaluate, and a request paid under them

    A small instance of [Attribution.Primitives] that is [Lawful] (a byte is
    written as one character, the digest is a checksum, a signature is its
    signer's address), and the life of one wallet-attributed request under it:
    issued, bound to the payer's wallet, paid directly and swept.  The
    witnesses of the theorems on proofs evaluate it. *)

From stdpp Require Import sorting pretty.
From S2P Require Import Prelude Core Contracts Bus Tables Attachments Invoices Attribution Range Sweeps.
From S2P Require Import RelayIntents Verifications Proof ProofApi.

Module Toy.

Fixpoint text (b : bytes) : string :=
  match b with
  | [] => EmptyString
  | x :: b' => String (Ascii.ascii_of_N (Z.to_N x)) (text b')
  end.

Definition untext (n : nat) (s : string) : option bytes :=
  let b := ascii_bytes s in if Nat.eqb (length b) n then Some b else None.

Definition checksum (b : bytes) : B256 := replicate 31 7 ++ [foldl (fun acc x => acc * 31 + x) 0 b mod 256].

Definition decimal (s : string) : option Z :=
  match s with EmptyString => None | _ => parse_digits u256_max 0 s end.

Definition field_bytes (s : Snapshot.t) : bytes :=
  ascii_bytes (Snapshot.schema s +:+ Snapshot.currency s +:+ Snapshot.amount_base_units s
    +:+ Snapshot.receiver_address s +:+ Snapshot.recovery_address s +:+ Snapshot.expiration_timestamp s).

Definition terms_bytes (t : DeploymentTerms.t) : bytes :=
  DeploymentTerms.token t ++ DeploymentTerms.receiver t ++ DeploymentTerms.recovery t ++ DeploymentTerms.salt t
  ++ [DeploymentTerms.amount t; DeploymentTerms.expiration_timestamp t; DeploymentTerms.chain_id t].

Definition wallet : Address := replicate 20 21.
Definition factory : Address := replicate 20 9.
Definition token : Address := replicate 20 1.
Definition chain : Z := 8453.

(** The one attestation the example's column holds. *)
Section Attestation.
Context (attestation : PayerWalletAttestation.t).
Definition primitives : Primitives := {|
  keccak256 := checksum;
  sha256 := checksum;
  recover signature _ := if Nat.eqb (length signature) 20 then Some signature else None;
  parse_address := untext 20;
  to_checksum := text;
  parse_word := untext 32;
  word_string := text;
  parse_u256 := decimal;
  hex_decode s := Some (ascii_bytes s);
  hex_encode_prefixed := text;
  jcs_snapshot s := Some (field_bytes s);
  eip712_signing_hash d m := checksum (PayerAttestation.wallet m ++ PayerAttestation.attributionHash m
    ++ PayerAttestation.nonce m ++ [PayerAttestation.expiresAt m; Eip712Domain.chain_id d]);
  abi_encode_terms := terms_bytes;
  attestation_to_json _ := "{}"%string;
  attestation_from_json _ := Some attestation;
|}.
End Attestation.

Lemma ascii_bytes_text b : Forall (fun x => 0 <= x < 256) b -> ascii_bytes (text b) = b.
Proof.
  induction 1 as [|x b Hx _ IH]; simpl; [done|]. rewrite IH, Ascii.N_ascii_embedding by lia. f_equal. lia.
Qed.

Lemma ascii_bytes_range s : Forall (fun x => 0 <= x < 256) (ascii_bytes s).
Proof. induction s as [|c s IH]; simpl; constructor; [|done]. pose proof (Ascii.N_ascii_bounded c). lia. Qed.

Lemma untext_text n b : octets n b -> untext n (text b) = Some b.
Proof. intros [Hl Hb]. unfold untext. by rewrite ascii_bytes_text, Hl, Nat.eqb_refl by done. Qed.

Lemma untext_octets n s b : untext n s = Some b -> octets n b.
Proof.
  unfold untext. destruct (Nat.eqb_spec (length (ascii_bytes s)) n); [|done]. intros [= <-].
  split; [done|apply ascii_bytes_range].
Qed.

Lemma checksum_octets b : octets 32 (checksum b).
Proof.
  split; [done|]. unfold checksum. apply list.Forall_app. split; [by apply list.Forall_replicate|].
  apply list.Forall_singleton. apply Z.mod_pos_bound. lia.
Qed.

Lemma lawful a : Lawful (primitives a).
Proof.
  split; simpl.
  - apply checksum_octets.
  - intros. apply checksum_octets.
  - intros. by apply untext_text.
  - intros. by apply untext_text.
  - intros n b [_ Hb]. by rewrite ascii_bytes_text.
  - intros n Hn. unfold decimal. pose proof (pretty_nonempty n ltac:(lia)).
    pose proof (parse_digits_pretty u256_max n Hn). by destruct (pretty n).
  - apply untext_octets.
  - apply untext_octets.
  - intros s n. unfold decimal. destruct s; [done|]. by apply parse_digits_range.
Qed.

(** ** One request *)

Definition nonce : B256 := replicate 32 4.
Definition beneficiary : Address := replicate 20 3.
Definition recovery_address : Address := replicate 20 5.
Definition expiration : Z := 2000000000.
Definition networks : list NetworkTerms.t := [NetworkTerms.mk chain token factory; NetworkTerms.mk 10 token factory].
Definition verification : PayerVerification.t := PayerVerification.mk None None true.

(** The terms do not depend on the attestation the column will hold. *)
Definition no_attestation : PayerWalletAttestation.t :=
  PayerWalletAttestation.mk "" (PayerAttestationTypedData.mk (TypedDataDomain.mk "" "" 0 "") "" (TypedDataTypes.mk [] [])
    (PayerAttestationMessage.mk "" "" "" "" 0)) "" "" "".

Definition snapshot : Snapshot.t :=
  @snapshot_new (primitives no_attestation) (Party.mk "Issuer" None None) (Party.mk "Payer" None None) verification Usdc
    networks beneficiary recovery_address 100 expiration.

Definition request_hash : B256 := Eval vm_compute in checksum (ATTRIBUTION_DOMAIN ++ field_bytes snapshot).

Definition attestation : PayerWalletAttestation.t := Eval vm_compute in
  @payer_wallet_attestation (primitives no_attestation)
    (attestation_new request_hash wallet (replicate 32 6) 1990000000) chain factory wallet.

#[export] Instance toy : Primitives := primitives attestation.

Definition invoice_result : result AttributionError Invoice.t :=
  issue 1 nonce Usdc networks beneficiary recovery_address 100 expiration snapshot.

Definition no_invoice : Invoice.t :=
  Invoice.mk 0 [] [] 0 0 None [] Created 0 None None None None None 0 [] snapshot.

Definition invoice : Invoice.t := Eval vm_compute in match invoice_result with Ok i => i | Err _ => no_invoice end.

Definition binding_result : result BindError PaymentBinding.t := bind_to_wallet invoice chain attestation 1000000.

Definition binding : PaymentBinding.t := Eval vm_compute in
  match binding_result with
  | Ok b => b
  | Err _ => PaymentBinding.mk (NetworkTerms.mk 0 [] []) [] [] [] 0 None
  end.

(** ** Its life in the ledger *)

Definition hash (_ : Message) : B256 := replicate 32 0.
Definition block_hash : B256 := replicate 32 5.

Definition start : Db.t :=
  {| Db.empty with Db.accounts := {[ 7 := Some "merchant@example.com" ]};
     Db.payer_sessions := {[ 8 := PayerSession.mk (replicate 32 1) 1 ForPayer None None None None None None 0 9000000000000000 ]} |}.

Definition input : CreateInvoiceInput.t :=
  CreateInvoiceInput.mk 1 7 "order-1" None None (Party.mk "Issuer" None None) (Party.mk "Payer" None None)
    None None None "{}" verification "USDC" 6 beneficiary expiration 86400 "in:86400" 100 snapshot
    ATTRIBUTION_VERSION (Invoice.attribution_hash invoice) nonce recovery_address None None.

Definition state_of {E A} (r : result E (A * Db.t)) : Db.t := match r with Ok (_, db) => db | Err _ => start end.

Definition issued : Db.t := Eval vm_compute in state_of (insert_issued text input None 1000000 1000000 start).
Definition bound : Db.t := Eval vm_compute in state_of (bind_payer_wallet 1 8 9 binding 1000000 1000000 issued).

Definition transfer (log amount : Z) : PaymentObservation.t :=
  PaymentObservation.mk token 100 block_hash 1800000000 (replicate 32 2) 4 log wallet
    (PaymentBinding.payment_address binding) amount.
Definition paid : Db.t := Eval vm_compute in
  state_of (apply_finalized_range chain None 110 block_hash 1900000000 [transfer 0 60; transfer 1 50] 2000000 bound).
Definition scheduled : Db.t := Eval vm_compute in
  state_of (schedule_sweep_job hash parse_address chain SweepPolicy.default "gum-server" 50 51 52 3000000 paid).
Definition receipt : FinalizedSweep.t :=
  FinalizedSweep.mk 50 (replicate 32 8) 200 block_hash 1900000100 3 [SweepItemResult.mk 1 (Settled 10)].
Definition swept : Db.t := Eval vm_compute in
  state_of (apply_sweep_finalized receipt SweepPolicy.default 4000000 scheduled).

Definition row : DbInvoice.t := default (issued_row input 0 0) (Db.invoices swept !! 1).

(** ** Its proof *)

Definition jcs (p : AttestationPayload.t) : option bytes :=
  Some (ascii_bytes (AttestationPayload.attribution_hash p +:+ AttestationPayload.payment_address p)).
Definition rfc3339 (t : Timestamp) : string := pretty t.
Definition id_string (id : Uuid) : string := pretty id.
Definition attestor : Attestor.t := Attestor.mk (replicate 20 77) (fun _ => Some (replicate 20 77)).

Definition issued_proof : result ProofApiError (ProofOfPayment.t * gmap (Uuid * Uuid * list Z) ProofOfPayment.t) :=
  get_proof jcs rfc3339 id_string (Some attestor) 7 row ∅ swept.

Definition no_proof : ProofOfPayment.t :=
  proof_of id_string no_invoice binding Settlement None "" [] (SignedAttestation.mk
    (payload_of rfc3339 id_string no_invoice row binding Settlement None [] []) "" "").

Definition proof : ProofOfPayment.t := Eval vm_compute in
  match issued_proof with Ok (p, _) => p | Err _ => no_proof end.

Definition verdict : ProofVerification.t := Eval vm_compute in
  match verify_proof jcs proof None [Attestor.address attestor] with
  | Ok v => v
  | Err _ => ProofVerification.mk [] Settlement None None [] [] [] false
  end.

(** The same attestation over a document that lists its transfers twice. *)
Definition padded_proof : ProofOfPayment.t :=
  {| proof with ProofOfPayment.transfers := ProofOfPayment.transfers proof ++ ProofOfPayment.transfers proof |}.

End Toy.
