(* ===== verification/ProofTheorems.v ===== *)
(** * Properties of proofs of payment

    Verification accepts exactly the proofs whose every link holds
    ([verify_proof_exact]); a signed attestation vouches for one request only,
    up to a collision of the hash ([attestation_vouches_for_one_request]); and
    the proof the server issues for a settled request verifies
    ([issued_proof_verifies]). *)

From stdpp Require Import sorting pretty.
From S2P Require Import Prelude Core Contracts Bus Tables Attachments Invoices Attribution Range Sweeps.
From S2P Require Import RelayIntents Verifications Proof ProofApi ProofExample.

(** ** Sequential checks *)

Lemma guard_bind {E B} b (e : E) (k : unit -> result E B) r :
  rbind (guard b e) k = Ok r <-> b = true /\ k tt = Ok r.
Proof. unfold guard. destruct b; simpl; naive_solver. Qed.

Lemma guard_ok {E} b (e : E) u : guard b e = Ok u <-> b = true.
Proof. unfold guard. destruct u, b; naive_solver. Qed.

Lemma ok_or_bind {E A B} (o : option A) (e : E) (k : A -> result E B) r :
  rbind (ok_or o e) k = Ok r <-> exists a, o = Some a /\ k a = Ok r.
Proof. destruct o; simpl; naive_solver. Qed.

Lemma rbind_iff {E A B} (c : result E A) (k : A -> result E B) r :
  rbind c k = Ok r <-> exists a, c = Ok a /\ k a = Ok r.
Proof. destruct c; simpl; naive_solver. Qed.

(** Take a sequence of checks that succeeded apart, and establish one. *)
Ltac peel H :=
  repeat match type of H with
  | rbind (guard _ _) _ = Ok _ => apply guard_bind in H; destruct H as [? H]
  | rbind (ok_or _ _) _ = Ok _ => apply ok_or_bind in H; destruct H as (? & ? & H)
  | guard _ _ = Ok _ => apply guard_ok in H
  end.

Ltac establish :=
  repeat match goal with
  | |- rbind (guard _ _) _ = Ok _ => apply guard_bind; split
  | |- rbind (ok_or _ _) _ = Ok _ => apply ok_or_bind; eexists; split; [eassumption|]
  | |- guard _ _ = Ok _ => apply guard_ok
  end.

(** ** What verification establishes *)

Section Spec.
Context `{P : Primitives} `{!Lawful P}.
Context (jcs_payload : AttestationPayload.t -> option bytes).

(** The transfer is the wallet's own, or a relayed one whose origin is the
    wallet, vouched for in the signed payload as read from a receipt. *)
Definition from_wallet (p : AttestationPayload.t) (wallet : Address) (t : ProofTransfer.t) : Prop :=
  parse_address (ProofTransfer.sender t) = Some wallet \/
  is_Some (parse_address (ProofTransfer.sender t)) /\
  exists relay, ProofTransfer.relay t = Some relay /\
    RelayAttribution.attribution_source relay = "receipt"%string /\
    is_Some (parse_word (RelayAttribution.request_id relay)) /\
    is_Some (parse_word (RelayAttribution.origin_transaction_hash relay)) /\
    is_Some (parse_u64 (RelayAttribution.origin_chain_id relay)) /\
    parse_address (RelayAttribution.origin_sender relay) = Some wallet /\
    vouched p t relay = true.

(** The shape of a settlement proof's provenance. *)
Definition provenance_shaped (t : ProofTransfer.t) : Prop :=
  forall relay, ProofTransfer.relay t = Some relay ->
    is_Some (parse_word (RelayAttribution.request_id relay)) /\
    is_Some (parse_word (RelayAttribution.origin_transaction_hash relay)) /\
    is_Some (parse_u64 (RelayAttribution.origin_chain_id relay)) /\
    is_Some (parse_address (RelayAttribution.origin_sender relay)) /\
    RelayAttribution.attribution_source relay <> ""%string.

(** The transfer is the event [(hash, log_index)] that moved [amount] to the
    payment address. *)
Record pays (p : AttestationPayload.t) (attested : option VerifiedPayerAttestation.t) (to : Address)
    (t : ProofTransfer.t) (event : B256 * Z * Z) : Prop := {
  pa_hash : parse_word (ProofTransfer.transaction_hash t) = Some (fst (fst event));
  pa_log : parse_u64 (ProofTransfer.log_index t) = Some (snd (fst event));
  pa_amount : parse_u256 (ProofTransfer.amount_base_units t) = Some (snd event);
  pa_recipient : parse_address (ProofTransfer.recipient t) = Some to;
  pa_block : is_Some (parse_u64 (ProofTransfer.block_number t));
  pa_origin : match attested with
              | Some v => from_wallet p (VerifiedPayerAttestation.wallet v) t
              | None => provenance_shaped t
              end;
}.

(** The amounts of the events, each counted once. *)
Fixpoint distinct_total (seen : list (B256 * Z)) (events : list (B256 * Z * Z)) : Z :=
  match events with
  | [] => 0
  | (key, amount) :: rest =>
      if bool_decide (key ∈ seen) then distinct_total seen rest else amount + distinct_total (key :: seen) rest
  end.

Lemma check_attributed_ok p wallet t : check_attributed p wallet t = Ok tt <-> from_wallet p wallet t.
Proof.
  unfold check_attributed, from_wallet, address, word, u64_field. split.
  - intros H. peel H. case_bool_decide as E; [left; congruence|right]. split; [by eexists|].
    peel H. bools. subst. eexists. split; [eassumption|]. split; [by apply String.eqb_eq|].
    split_and!; solve [done|by eexists].
  - intros [Hs|([sender Hs] & relay & Hr & H1 & [? H2] & [? H3] & [? H4] & H5 & H6)]; establish.
    + by rewrite bool_decide_true.
    + case_bool_decide; [done|]. establish; [by apply String.eqb_eq|by apply bool_decide_eq_true|done].
Qed.

Lemma check_provenance_ok t : check_provenance t = Ok tt <-> provenance_shaped t.
Proof.
  unfold check_provenance, provenance_shaped, word, address, u64_field.
  destruct (ProofTransfer.relay t) as [relay|]; [|naive_solver]. split.
  - intros H r [= <-]. peel H. bools. split_and!; try by eexists. by apply String.eqb_neq.
  - intros H. destruct (H relay eq_refl) as ([? H1] & [? H2] & [? H3] & [? H4] & H5). establish.
    apply negb_true_iff. by apply String.eqb_neq.
Qed.

Lemma origin_ok p attested t :
  match attested with
  | Some v => check_attributed p (VerifiedPayerAttestation.wallet v) t
  | None => check_provenance t
  end = Ok tt <->
  match attested with
  | Some v => from_wallet p (VerifiedPayerAttestation.wallet v) t
  | None => provenance_shaped t
  end.
Proof. destruct attested; [apply check_attributed_ok|apply check_provenance_ok]. Qed.

(** One transfer: an event that was counted before adds nothing. *)
Lemma count_transfer_ok p attested to total seen t state :
  count_transfer p attested to (total, seen) t = Ok state <->
  exists key amount, pays p attested to t (key, amount) /\
    if bool_decide (key ∈ seen) then state = (total, seen)
    else total + amount <= u256_max /\ state = (total + amount, key :: seen).
Proof.
  unfold count_transfer, word, address, u64_field. split.
  - intros (h & Hh & (l & Hl & (r & Hr & [Hto H]%guard_bind)%ok_or_bind)%ok_or_bind)%ok_or_bind.
    apply rbind_ok in H as ([] & Ho%origin_ok & (amount & Ha & (block & Hb & H)%ok_or_bind)%ok_or_bind). bools. subst.
    exists (h, l), amount. split; [by split|]. case_bool_decide; [by injection H as <-|].
    peel H. injection H as <-. unfold u256_checked_add in *. case_match; simplify_eq. bools. done.
  - intros ([h l] & amount & [H1 H2 H3 H4 [? H5] H6] & Hst).
    cbn [fst snd] in *. establish; [by apply bool_decide_eq_true|].
    apply (proj2 (origin_ok p attested t)) in H6. rewrite H6. cbn [rbind]. establish.
    destruct (bool_decide ((h, l) ∈ seen)); [by subst|]. destruct Hst as [Hle ->]. unfold u256_checked_add.
    by rewrite (proj2 (Z.leb_le _ _) Hle).
Qed.

Lemma distinct_total_nonneg events : forall seen,
  Forall (fun e => 0 <= snd e) events -> 0 <= distinct_total seen events.
Proof.
  induction events as [|[key amount] rest IH]; intros seen Hall; simpl; [lia|].
  apply list.Forall_cons in Hall as [Ha Hr]. simpl in Ha. case_bool_decide; [by apply IH|].
  specialize (IH (key :: seen) Hr). lia.
Qed.

Lemma pays_nonneg p attested to ts events :
  Forall2 (pays p attested to) ts events -> Forall (fun e => 0 <= snd e) events.
Proof.
  induction 1 as [|t e ts events [_ _ H _ _ _] _ IH]; constructor; [|done]. by apply parse_u256_range in H as [? _].
Qed.

(** The loop over the transfers counts each event once. *)
Lemma count_transfers_ok p attested to ts : forall total seen total',
  total <= u256_max ->
  (exists seen', try_fold (count_transfer p attested to) (total, seen) ts = Ok (total', seen')) <->
  (exists events, Forall2 (pays p attested to) ts events /\
    total' = total + distinct_total seen events /\ total' <= u256_max).
Proof.
  induction ts as [|t ts IH]; intros total seen total' Hmax; simpl.
  - split.
    + intros [seen' [= <- <-]]. exists []. simpl. split_and!; [constructor|lia|done].
    + intros (events & ->%list.Forall2_nil_inv_l & -> & _). exists seen. simpl. by rewrite Z.add_0_r.
  - split.
    + intros [seen' ([total1 seen1] & (key & amount & Hp & Hst)%count_transfer_ok & H)%rbind_ok].
      case_bool_decide as Hin.
      * injection Hst as -> ->. destruct (proj1 (IH total seen total' Hmax) (ex_intro _ seen' H)) as (events & He & -> & Hle).
        exists ((key, amount) :: events). split; [by constructor|]. simpl. by rewrite bool_decide_true.
      * destruct Hst as [Hm [= -> ->]]. destruct (proj1 (IH _ _ total' Hm) (ex_intro _ seen' H)) as (events & He & -> & Hle).
        exists ((key, amount) :: events). split; [by constructor|]. simpl. rewrite bool_decide_false by done. split; [lia|done].
    + intros (events & ([key amount] & rest & Hp & Hr & ->)%list.Forall2_cons_inv_l & -> & Hle). simpl in *.
      pose proof (distinct_total_nonneg rest (key :: seen) (pays_nonneg _ _ _ _ _ Hr)) as Hn.
      case_bool_decide as Hin.
      * destruct (proj2 (IH total seen (total + distinct_total seen rest) Hmax)) as [seen' H]; [eauto|].
        exists seen'. apply rbind_iff. exists (total, seen). split; [|exact H].
        apply count_transfer_ok. exists key, amount. by rewrite bool_decide_true.
      * destruct (proj2 (IH (total + amount) (key :: seen) (total + amount + distinct_total (key :: seen) rest) ltac:(lia)))
          as [seen' H]; [exists rest; split_and!; [done|done|lia]|].
        exists seen'. apply rbind_iff. exists (total + amount, key :: seen). split; [|by rewrite Z.add_assoc].
        apply count_transfer_ok. exists key, amount. rewrite bool_decide_false by done. split_and!; [done|lia|done].
Qed.

(** ** The whole document *)

(** What step 3 reads: in the wallet-attributed scope, and only there, an
    attestation of the payer's wallet for this request on that network. *)
Definition wallet_attested (proof : ProofOfPayment.t) (scope : ProofScope) (chain : Z) (factory : Address) (hash : B256)
    (attested : option VerifiedPayerAttestation.t) : Prop :=
  match scope with
  | WalletAttributed => exists a v, ProofOfPayment.payer_wallet proof = Some a /\ attested = Some v /\
      verify_payer_attestation a (PayerAttestationScope.mk chain factory hash) = Ok v
  | Settlement => ProofOfPayment.payer_wallet proof = None /\ attested = None
  end.

(** The signed wallet is the attested one. *)
Definition wallet_signed (p : AttestationPayload.t) (attested : option VerifiedPayerAttestation.t) : Prop :=
  match attested with
  | Some v => exists text nonce, AttestationPayload.payer_wallet p = Some text /\
      parse_address text = Some (VerifiedPayerAttestation.wallet v) /\
      AttestationPayload.wallet_nonce p = Some nonce /\ parse_word nonce = Some (VerifiedPayerAttestation.nonce v)
  | None => AttestationPayload.payer_wallet p = None
  end.

Record document (proof : ProofOfPayment.t) (hash nonce : B256) (chain : Z) (network : NetworkTerms.t)
    (attested : option VerifiedPayerAttestation.t) : Prop := {
  do_version : ProofOfPayment.version proof = PROOF_VERSION;
  do_canonicalization : ProofOfPayment.canonicalization proof = CANONICALIZATION /\
    Snapshot.canonicalization (ProofOfPayment.canonical_issuance_snapshot proof) = CANONICALIZATION;
  do_schema : Snapshot.schema (ProofOfPayment.canonical_issuance_snapshot proof) = SNAPSHOT_SCHEMA;
  do_scope : ProofOfPayment.scope proof = required_scope (ProofOfPayment.canonical_issuance_snapshot proof);
  do_hash : exists canonical, jcs_snapshot (ProofOfPayment.canonical_issuance_snapshot proof) = Some canonical /\
    hash = attribution_hash canonical;
  do_stated_hash : parse_word (ProofOfPayment.attribution_hash proof) = Some hash;
  do_nonce : parse_word (ProofOfPayment.issuance_nonce proof) = Some nonce;
  do_chain : parse_u64 (ProofOfPayment.chain_id proof) = Some chain;
  do_network : exists networks, typed_networks (ProofOfPayment.canonical_issuance_snapshot proof) = Some networks /\
    List.find (fun n => NetworkTerms.chain_id n =? chain) networks = Some network;
  do_factory : parse_address (ProofOfPayment.factory_address proof) = Some (NetworkTerms.factory network);
  do_token : parse_address (ProofOfPayment.token_address proof) = Some (NetworkTerms.token network);
  do_wallet : wallet_attested proof (required_scope (ProofOfPayment.canonical_issuance_snapshot proof)) chain
    (NetworkTerms.factory network) hash attested;
  do_salt : parse_word (ProofOfPayment.salt proof) =
    Some (recompute_salt nonce hash (VerifiedPayerAttestation.digest <$> attested));
}.

(** The committed terms, and the address they derive. *)
Record derives (proof : ProofOfPayment.t) (network : NetworkTerms.t) (salt : B256) (to : Address) (amount : Z) : Prop := {
  de_terms : exists recovery receiver expiration,
    parse_address (ProofOfPayment.recovery_address proof) = Some recovery /\
    parse_address (Snapshot.recovery_address (ProofOfPayment.canonical_issuance_snapshot proof)) = Some recovery /\
    parse_address (Snapshot.receiver_address (ProofOfPayment.canonical_issuance_snapshot proof)) = Some receiver /\
    parse_u64 (Snapshot.expiration_timestamp (ProofOfPayment.canonical_issuance_snapshot proof)) = Some expiration /\
    to = predict_payment_address (NetworkTerms.factory network) (NetworkTerms.token network) amount receiver expiration
           recovery salt (NetworkTerms.chain_id network);
  de_amount : parse_u256 (Snapshot.amount_base_units (ProofOfPayment.canonical_issuance_snapshot proof)) = Some amount;
  de_stated : parse_address (ProofOfPayment.payment_address proof) = Some to;
}.

(** Gum's signature, and what it is over. *)
Record signed (proof : ProofOfPayment.t) (trusted : list Address) (signer : Address) : Prop := {
  si_recovers : exists canonical signature,
    jcs_payload (SignedAttestation.payload (ProofOfPayment.verification proof)) = Some canonical /\
    hex_decode (SignedAttestation.signature (ProofOfPayment.verification proof)) = Some signature /\
    recover signature (keccak256 (ATTESTATION_DOMAIN ++ canonical)) = Some signer;
  si_stated : parse_address (SignedAttestation.signer (ProofOfPayment.verification proof)) = Some signer;
  si_trusted : trusted = [] \/ signer ∈ trusted;
}.

Record vouches (p : AttestationPayload.t) (proof : ProofOfPayment.t) (hash nonce : B256) (to : Address)
    (attested : option VerifiedPayerAttestation.t) : Prop := {
  vo_version : AttestationPayload.version p = ATTESTATION_VERSION;
  vo_payment : AttestationPayload.payment_id p = ProofOfPayment.payment_id proof;
  vo_scope : AttestationPayload.scope p = required_scope (ProofOfPayment.canonical_issuance_snapshot proof);
  vo_result : AttestationPayload.result_ p = passed_result (ProofOfPayment.canonical_issuance_snapshot proof);
  vo_wallet : wallet_signed p attested;
  vo_hash : parse_word (AttestationPayload.attribution_hash p) = Some hash;
  vo_nonce : parse_word (AttestationPayload.issuance_nonce p) = Some nonce;
  vo_address : parse_address (AttestationPayload.payment_address p) = Some to;
  vo_chain : AttestationPayload.chain_id p = ProofOfPayment.chain_id proof;
  vo_fact : required_scope (ProofOfPayment.canonical_issuance_snapshot proof) = WalletAttributed ->
    exists f, f ∈ AttestationPayload.facts p /\ VerificationFact.kind f = "wallet"%string;
}.

Lemma check_wallet_ok proof scope chain factory hash attested :
  check_wallet proof scope chain factory hash = Ok attested <-> wallet_attested proof scope chain factory hash attested.
Proof.
  unfold check_wallet, wallet_attested. destruct scope, (ProofOfPayment.payer_wallet proof) as [a|].
  - split; [discriminate|by intros [? _]].
  - split; [by intros [= <-]|by intros [_ ->]].
  - rewrite rbind_iff. unfold from_attestation. split.
    + intros (v & Hv & [= <-]). exists a, v. destruct (verify_payer_attestation _ _); naive_solver.
    + intros (a' & v & [= <-] & -> & ->). eauto.
  - split; [discriminate|by intros (? & ? & ? & _)].
Qed.

Lemma chosen_network_ok proof chain network :
  chosen_network proof chain = Ok network <->
  (exists networks, typed_networks (ProofOfPayment.canonical_issuance_snapshot proof) = Some networks /\
     List.find (fun n => NetworkTerms.chain_id n =? chain) networks = Some network) /\
  parse_address (ProofOfPayment.factory_address proof) = Some (NetworkTerms.factory network) /\
  parse_address (ProofOfPayment.token_address proof) = Some (NetworkTerms.token network).
Proof.
  unfold chosen_network, address. split.
  - intros H. peel H. injection H as <-. bools. subst. eauto.
  - intros ([networks [H1 H2]] & H3 & H4). establish; [by apply bool_decide_eq_true..|done].
Qed.

Lemma check_address_ok proof network salt to amount :
  check_address proof network salt = Ok (to, amount) <-> derives proof network salt to amount.
Proof.
  unfold check_address, address, u64_field. split.
  - intros H. peel H. injection H as <- <-. bools. subst. split; [|eassumption..]. eauto 10.
  - intros [(r & receiver & e & H1 & H2 & H3 & H4 & ->) Ha Hs]. establish; [by apply bool_decide_eq_true..|done].
Qed.

Lemma check_signer_ok proof trusted signer :
  check_signer jcs_payload (ProofOfPayment.verification proof) trusted = Ok signer <-> signed proof trusted signer.
Proof.
  unfold check_signer, attestation_digest, from_attribution, address.
  destruct (jcs_payload _) as [canonical|] eqn:Hj; simpl; [|split; [discriminate|intros [(? & ? & ? & _) _ _]; congruence]]. split.
  - intros H. peel H. injection H as <-. bools. subst. split; [eauto|done|].
    destruct trusted; [by left|right]. by bools.
  - intros [(c & sig & Hc & H1 & H2) H3 H4]. rewrite Hj in Hc. injection Hc as <-.
    establish; [by apply bool_decide_eq_true| |done].
    destruct trusted; [done|]. destruct H4 as [?|H4]; [done|]. by apply bool_decide_eq_true.
Qed.

Lemma wallet_matches_ok p attested : wallet_matches p attested = Ok true <-> wallet_signed p attested.
Proof.
  unfold wallet_matches, wallet_signed, address, word.
  destruct (AttestationPayload.payer_wallet p) as [text|], attested as [v|].
  - split.
    + intros H. peel H. case_bool_decide as E; simpl in H; [|done]. peel H. injection H as H. bools. subst. eauto 10.
    + intros (text' & nonce & [= <-] & H1 & H2 & H3). establish. rewrite bool_decide_true by done. simpl. establish.
      by rewrite bool_decide_true.
  - split; discriminate.
  - split; [discriminate|by intros (? & ? & ? & _)].
  - done.
Qed.

Lemma check_commitment_ok proof attested hash nonce to :
  check_commitment proof attested hash nonce to = Ok tt <->
  let p := SignedAttestation.payload (ProofOfPayment.verification proof) in
  wallet_signed p attested /\ parse_word (AttestationPayload.attribution_hash p) = Some hash /\
  parse_word (AttestationPayload.issuance_nonce p) = Some nonce /\
  parse_address (AttestationPayload.payment_address p) = Some to /\
  AttestationPayload.chain_id p = ProofOfPayment.chain_id proof.
Proof.
  unfold check_commitment, address, word. cbv zeta. split.
  - intros (m & Hm & H)%rbind_ok. peel H. bools. subst. apply wallet_matches_ok in Hm.
    split_and!; [done..|]. by apply String.eqb_eq.
  - intros (Hw%wallet_matches_ok & H1 & H2 & H3 & H4). apply rbind_iff. eexists. split; [exact Hw|].
    establish; [done|by apply bool_decide_eq_true..|]. by apply String.eqb_eq.
Qed.

Lemma wallet_fact_ok (fs : list VerificationFact.t) scope :
  negb (bool_decide (scope = WalletAttributed)
        && negb (existsb (fun f => String.eqb (VerificationFact.kind f) "wallet") fs)) = true <->
  (scope = WalletAttributed -> exists f, f ∈ fs /\ VerificationFact.kind f = "wallet"%string).
Proof.
  case_bool_decide as E; simpl; [|naive_solver]. rewrite negb_involutive, existsb_exists. split.
  - intros (f & Hf & Hk) _. exists f. split; [by apply list_elem_of_In|by apply String.eqb_eq].
  - intros H. destruct (H E) as (f & Hf & Hk). exists f. split; [by apply list_elem_of_In|by apply String.eqb_eq].
Qed.

Lemma check_payload_ok proof attested hash nonce to :
  check_payload proof (required_scope (ProofOfPayment.canonical_issuance_snapshot proof)) attested hash nonce to = Ok tt <->
  vouches (SignedAttestation.payload (ProofOfPayment.verification proof)) proof hash nonce to attested.
Proof.
  unfold check_payload. split.
  - intros H. peel H. apply rbind_ok in H as ([] & (Hc1 & Hc2 & Hc3 & Hc4 & Hc5)%check_commitment_ok & Hf).
    apply guard_ok in Hf. pose proof (proj1 (wallet_fact_ok _ _) Hf). clear Hf. bools. split; try done; by apply String.eqb_eq.
  - intros [H1 H2 H3 H4 H5 H6 H7 H8 H9 H10]. establish; [by apply String.eqb_eq..|by apply bool_decide_eq_true|by apply String.eqb_eq|].
    apply rbind_iff. exists tt. split; [by apply check_commitment_ok|]. by apply guard_ok, wallet_fact_ok.
Qed.

(** The file, when one is given, is the one the request committed to. *)
Definition attachment_committed (s : Snapshot.t) (attachment : option bytes) (verified : bool) : Prop :=
  match attachment with
  | None => verified = false
  | Some content => verified = true /\ exists c, Snapshot.attachment s = Some c /\
      AttachmentCommitment.byte_length c = pretty (Z.of_nat (length content)) /\
      parse_word (AttachmentCommitment.sha256 c) = Some (sha256 content)
  end.

Lemma check_attachment_ok s attachment verified :
  check_attachment s attachment = Ok verified <-> attachment_committed s attachment verified.
Proof.
  unfold check_attachment, attachment_committed, word. destruct attachment as [content|]; [|naive_solver]. split.
  - intros H. peel H. injection H as <-. bools. split; [done|]. eexists. split; [eassumption|].
    split; [by apply String.eqb_eq|congruence].
  - intros (-> & c & H1 & H2 & H3). establish; [by apply String.eqb_eq|by apply bool_decide_eq_true|done].
Qed.

(** The events the transfers name cover the amount. *)
Definition covers (p : AttestationPayload.t) (attested : option VerifiedPayerAttestation.t) (to : Address)
    (transfers : list ProofTransfer.t) (amount : Z) : Prop :=
  exists events, Forall2 (pays p attested to) transfers events /\ amount <= distinct_total [] events <= u256_max.

(** Every link of an accepted proof. *)
Record accepted (proof : ProofOfPayment.t) (attachment : option bytes) (trusted : list Address)
    (v : ProofVerification.t) (nonce : B256) (chain : Z) (network : NetworkTerms.t)
    (attested : option VerifiedPayerAttestation.t) (amount : Z) : Prop := {
  ac_document : document proof (ProofVerification.attribution_hash v) nonce chain network attested;
  ac_derives : derives proof network (ProofVerification.salt v) (ProofVerification.payment_address v) amount;
  ac_attachment : attachment_committed (ProofOfPayment.canonical_issuance_snapshot proof) attachment
    (ProofVerification.attachment_verified v);
  ac_signed : signed proof trusted (ProofVerification.attestation_signer v);
  ac_vouches : vouches (SignedAttestation.payload (ProofOfPayment.verification proof)) proof
    (ProofVerification.attribution_hash v) nonce (ProofVerification.payment_address v) attested;
  ac_settlement : is_Some (parse_word (ProofOfPayment.settlement_transaction_hash proof));
  ac_covers : covers (SignedAttestation.payload (ProofOfPayment.verification proof)) attested
    (ProofVerification.payment_address v) (ProofOfPayment.transfers proof) amount;
  ac_scope : ProofVerification.scope v = required_scope (ProofOfPayment.canonical_issuance_snapshot proof);
  ac_wallet : ProofVerification.payer_wallet v = VerifiedPayerAttestation.wallet <$> attested;
  ac_digest : ProofVerification.attestation_digest v = VerifiedPayerAttestation.digest <$> attested;
  ac_salt : ProofVerification.salt v =
    recompute_salt nonce (ProofVerification.attribution_hash v) (VerifiedPayerAttestation.digest <$> attested);
}.

Lemma transfers_cover_ok p attested to ts amount :
  (exists total seen, try_fold (count_transfer p attested to) (0, []) ts = Ok (total, seen) /\ negb (total <? amount) = true)
  <-> covers p attested to ts amount.
Proof.
  split.
  - intros (total & seen & H & Hle). destruct (proj1 (count_transfers_ok p attested to ts 0 [] total ltac:(done))) as (events & He & -> & Hm);
      [eauto|]. exists events. bools. split; [done|lia].
  - intros (events & He & Hle & Hm). destruct (proj2 (count_transfers_ok p attested to ts 0 [] (distinct_total [] events) ltac:(done))) as [seen H];
      [exists events; split_and!; [done|lia|done]|].
    exists (distinct_total [] events), seen. split; [done|]. apply negb_true_iff, Z.ltb_ge. lia.
Qed.

Lemma from_attribution_ok {A} (r : result AttributionError A) a : from_attribution r = Ok a <-> r = Ok a.
Proof. destruct r; simpl; naive_solver. Qed.

Lemma verify_proof_sound proof attachment trusted v :
  verify_proof jcs_payload proof attachment trusted = Ok v ->
  exists nonce chain network attested amount, accepted proof attachment trusted v nonce chain network attested amount.
Proof.
  unfold verify_proof, word, u64_field. cbv zeta. intros H. peel H.
  apply rbind_ok in H as (canonical & Hc%from_attribution_ok & H). unfold canonical_bytes in Hc. apply ok_or_ok in Hc.
  peel H. apply rbind_ok in H as (network & (Hn & Hf & Ht)%chosen_network_ok & H).
  apply rbind_ok in H as (attested & Hw%check_wallet_ok & H). peel H.
  apply rbind_ok in H as ([to amount] & Ha%check_address_ok & H).
  apply rbind_ok in H as (verified & Hat%check_attachment_ok & H).
  apply rbind_ok in H as (signer & Hs%check_signer_ok & H).
  apply rbind_ok in H as ([] & Hv%check_payload_ok & H). peel H.
  apply rbind_ok in H as ([total seen] & Hts & H). peel H. injection H as <-.
  assert (covers (SignedAttestation.payload (ProofOfPayment.verification proof)) attested to
            (ProofOfPayment.transfers proof) amount) by (apply transfers_cover_ok; eauto).
  bools. subst. eexists _, _, network, attested, amount. split; simpl; try done.
  split; try eassumption; try split; try by apply String.eqb_eq. eauto.
Qed.

Lemma verify_proof_complete proof attachment trusted v nonce chain network attested amount :
  accepted proof attachment trusted v nonce chain network attested amount ->
  verify_proof jcs_payload proof attachment trusted = Ok v.
Proof.
  intros [[Hv [Hc1 Hc2] Hsch Hsc (canonical & Hj & Hh) Hsh Hn Hch Hnet Hf Ht Hw Hsalt] Hd Ha Hs Hvo [? Hst] Hcov Rs Rw Rd Rsalt].
  unfold verify_proof, word, u64_field. cbv zeta.
  establish; [by apply String.eqb_eq|by rewrite Hc1, Hc2|by apply String.eqb_eq|by apply bool_decide_eq_true|].
  apply rbind_iff. exists canonical. split; [unfold canonical_bytes; by rewrite Hj|]. rewrite <- Hh.
  establish; [by apply bool_decide_eq_true|].
  apply rbind_iff. exists network. split; [by apply chosen_network_ok|].
  apply rbind_iff. exists attested. split; [by apply check_wallet_ok|]. rewrite <- Rsalt in *.
  establish; [by apply bool_decide_eq_true|].
  apply rbind_iff. eexists (_, amount). split; [by apply check_address_ok|].
  apply rbind_iff. eexists. split; [by apply check_attachment_ok|].
  apply rbind_iff. eexists. split; [by apply check_signer_ok|].
  apply rbind_iff. exists tt. split; [by apply check_payload_ok|]. establish.
  apply transfers_cover_ok in Hcov as (total & seen & Hts & Hle).
  apply rbind_iff. exists (total, seen). split; [done|]. establish; [done|].
  destruct v. simpl in *. congruence.
Qed.

End Spec.

(** C15. Offline verification accepts exactly the proofs whose every link holds:
    the document's version and scope, the hash of the committed request, the
    network and the payer's signed wallet attestation, the address those terms
    derive, the file, Gum's signature over matching facts, and transfers to
    that address, from that wallet when it was attested, whose distinct events
    cover the amount; the result states those links and nothing else. *)
Theorem verify_proof_exact `{P : Primitives} `{!Lawful P} (jcs_payload : AttestationPayload.t -> option bytes)
    (proof : ProofOfPayment.t) (attachment : option bytes) (trusted : list Address) (v : ProofVerification.t) :
  verify_proof jcs_payload proof attachment trusted = Ok v <->
  exists nonce chain network attested amount,
    accepted jcs_payload proof attachment trusted v nonce chain network attested amount.
Proof.
  split; [apply verify_proof_sound|]. intros (nonce & chain & network & attested & amount & H).
  by eapply verify_proof_complete.
Qed.

(** Gum's signature over an attestation vouches for one request: two
    accepted proofs that carry the same signed payload state the same request
    identifier, network, payment address, scope and payer wallet, and commit to
    the same canonical request, unless two different byte strings with the same
    hash are exhibited. *)
Theorem attestation_vouches_for_one_request `{P : Primitives} `{!Lawful P}
    (jcs_payload : AttestationPayload.t -> option bytes) (proof proof' : ProofOfPayment.t)
    (file file' : option bytes) (trusted trusted' : list Address) (v v' : ProofVerification.t) :
  verify_proof jcs_payload proof file trusted = Ok v ->
  verify_proof jcs_payload proof' file' trusted' = Ok v' ->
  SignedAttestation.payload (ProofOfPayment.verification proof) =
    SignedAttestation.payload (ProofOfPayment.verification proof') ->
  ProofOfPayment.payment_id proof = ProofOfPayment.payment_id proof' /\
  ProofOfPayment.chain_id proof = ProofOfPayment.chain_id proof' /\
  ProofVerification.payment_address v = ProofVerification.payment_address v' /\
  ProofVerification.scope v = ProofVerification.scope v' /\
  ProofVerification.payer_wallet v = ProofVerification.payer_wallet v' /\
  ((exists a b, a <> b /\ keccak256 a = keccak256 b) \/
   exists canonical, canonical_bytes (ProofOfPayment.canonical_issuance_snapshot proof) = Ok canonical /\
     canonical_bytes (ProofOfPayment.canonical_issuance_snapshot proof') = Ok canonical).
Proof.
  intros (nonce & chain & network & attested & amount & H)%verify_proof_sound
         (nonce' & chain' & network' & attested' & amount' & H')%verify_proof_sound E.
  destruct (ac_vouches _ _ _ _ _ _ _ _ _ _ H) as [_ Hp Hs _ Hw Hh Hn Ha Hc _].
  destruct (ac_vouches _ _ _ _ _ _ _ _ _ _ H') as [_ Hp' Hs' _ Hw' Hh' Hn' Ha' Hc' _]. rewrite <- E in *.
  split_and!; try congruence.
  - by rewrite (ac_scope _ _ _ _ _ _ _ _ _ _ H), (ac_scope _ _ _ _ _ _ _ _ _ _ H'), <- Hs.
  - rewrite (ac_wallet _ _ _ _ _ _ _ _ _ _ H), (ac_wallet _ _ _ _ _ _ _ _ _ _ H').
    unfold wallet_signed in *. destruct attested, attested'; simpl; [|naive_solver..]. naive_solver congruence.
  - destruct (ac_document _ _ _ _ _ _ _ _ _ _ H) as [_ _ _ _ (c & Hj & Hc1) _ _ _ _ _ _ _ _].
    destruct (ac_document _ _ _ _ _ _ _ _ _ _ H') as [_ _ _ _ (c' & Hj' & Hc1') _ _ _ _ _ _ _ _].
    unfold attribution_hash in *. destruct (decide (c = c')) as [->|Hne].
    + right. exists c'. unfold canonical_bytes. by rewrite Hj, Hj'.
    + left. exists (ATTRIBUTION_DOMAIN ++ c), (ATTRIBUTION_DOMAIN ++ c'). split; [by intros ?%(inj _)|congruence].
Qed.

(** ** Witnesses *)

Module ProofWitnesses.
Import Toy.

Lemma verify_proof_exact_witness :
  exists nonce chain network attested amount,
    accepted jcs proof None [Attestor.address attestor] verdict nonce chain network attested amount.
Proof.
  apply (@verify_proof_exact toy (lawful attestation) jcs). vm_compute. reflexivity.
Defined.

Lemma attestation_vouches_for_one_request_witness :
  ProofOfPayment.payment_id proof = ProofOfPayment.payment_id padded_proof /\
  (exists canonical, canonical_bytes (ProofOfPayment.canonical_issuance_snapshot proof) = Ok canonical /\
     canonical_bytes (ProofOfPayment.canonical_issuance_snapshot padded_proof) = Ok canonical \/
     exists a b, a <> b /\ keccak256 a = keccak256 b).
Proof.
  destruct (@attestation_vouches_for_one_request toy (lawful attestation) jcs proof padded_proof None None
    [Attestor.address attestor] [] verdict verdict) as (H & _ & _ & _ & _ & [Hc|[c Hc]]).
  - vm_compute. reflexivity.
  - vm_compute. reflexivity.
  - reflexivity.
  - split; [exact H|]. exists []. right. exact Hc.
  - split; [exact H|]. exists c. left. exact Hc.
Defined.

End ProofWitnesses.
