(* ===== verification/LedgerNotes.v ===== *)
(** * gum-ledger: operations that annotate the books

    Relay attribution and payer verification write beside the books, not in
    them: they change who a transfer is attributed to, whether a request is
    flagged or its payer verified, and tables of their own.  The preorder
    [noted] says so, and every such operation satisfies it. *)

From S2P Require Import Prelude Core Contracts Bus Tables Invoices Range Sweeps.
From S2P Require Import RelayIntents Verifications LedgerInv.

(** Once set, a column keeps its value. *)
Definition set_once {A} (a b : option A) : Prop := forall x, a = Some x -> b = Some x.

#[export] Instance set_once_preorder {A} : PreOrder (@set_once A).
Proof. split; [by intros a x|]. intros a b c Hab Hbc x Ha. auto. Qed.

Definition row_noted (row row' : DbInvoice.t) : Prop :=
  exists flagged verified updated,
    row' = {| row with DbInvoice.likely_unsolicited_at := flagged;
                       DbInvoice.verification_completed_at := verified;
                       DbInvoice.updated_at := updated |} /\
    set_once (DbInvoice.likely_unsolicited_at row) flagged /\
    set_once (DbInvoice.verification_completed_at row) verified.

Definition observation_noted (o o' : Observation.t) : Prop :=
  exists intent parked, o' =
    {| o with Observation.relay_intent_id := intent; Observation.relay_parked_at := parked |}.

#[export] Instance row_noted_preorder : PreOrder row_noted.
Proof.
  split.
  - intros row. exists (DbInvoice.likely_unsolicited_at row), (DbInvoice.verification_completed_at row),
      (DbInvoice.updated_at row). split_and!; [by destruct row|reflexivity|reflexivity].
  - intros a b c (f & v & u & -> & F & V) (f' & v' & u' & -> & F' & V'). exists f', v', u'. simpl in *.
    split_and!; [done|by etrans|by etrans].
Qed.

#[export] Instance observation_noted_preorder : PreOrder observation_noted.
Proof.
  split.
  - intros []. by do 2 eexists.
  - intros a b c (f & v & ->) (f' & v' & ->). by exists f', v'.
Qed.

Record noted (db db' : Db.t) : Prop := {
  nt_row : forall id, option_Forall2 row_noted (Db.invoices db !! id) (Db.invoices db' !! id);
  nt_observation : forall k, option_Forall2 observation_noted
    (Db.payment_observations db !! k) (Db.payment_observations db' !! k);
  nt_jobs : Db.sweep_jobs db' = Db.sweep_jobs db;
  nt_recovered : Db.recovered_funds db' = Db.recovered_funds db;
}.

Lemma option_Forall2_refl_of {A} (R : A -> A -> Prop) `{!Reflexive R} o : option_Forall2 R o o.
Proof. destruct o; by constructor. Qed.

Lemma option_Forall2_trans_of {A} (R : A -> A -> Prop) `{!Transitive R} a b c :
  option_Forall2 R a b -> option_Forall2 R b c -> option_Forall2 R a c.
Proof. intros [x y Hxy|] H; inversion H; subst; constructor. by etrans. Qed.

#[export] Instance noted_preorder : PreOrder noted.
Proof.
  split.
  - intros db. split; [intros; apply option_Forall2_refl_of, _..|done|done].
  - intros a b c [A1 A2 A3 A4] [B1 B2 B3 B4]. split; [| |congruence|congruence].
    + intros id. eapply option_Forall2_trans_of; [apply _|apply A1|apply B1].
    + intros k. eapply option_Forall2_trans_of; [apply _|apply A2|apply B2].
Qed.

(** ** The books under a note *)

Lemma credited_of_noted id db db' :
  noted db db' -> credited_of id (Db.payment_observations db') = credited_of id (Db.payment_observations db).
Proof.
  intros H. symmetry. eapply map_sum_related; [apply (nt_observation _ _ H)|].
  by intros o o' (i & p & ->).
Qed.

Lemma uncollected_of_noted id db db' :
  noted db db' -> uncollected_of id (Db.payment_observations db') = uncollected_of id (Db.payment_observations db).
Proof.
  intros H. symmetry. eapply map_sum_related; [apply (nt_observation _ _ H)|].
  by intros o o' (i & p & ->).
Qed.

Lemma noted_row_back db db' id row' :
  noted db db' -> Db.invoices db' !! id = Some row' ->
  exists row, Db.invoices db !! id = Some row /\ row_noted row row'.
Proof. intros H Hr. pose proof (nt_row _ _ H id) as Hf. rewrite Hr in Hf. inversion Hf; subst; eauto. Qed.

Lemma noted_row_forth db db' id row :
  noted db db' -> Db.invoices db !! id = Some row ->
  exists row', Db.invoices db' !! id = Some row' /\ row_noted row row'.
Proof. intros H Hr. pose proof (nt_row _ _ H id) as Hf. rewrite Hr in Hf. inversion Hf; subst; eauto. Qed.

Lemma noted_observation_back db db' k o' :
  noted db db' -> Db.payment_observations db' !! k = Some o' ->
  exists o, Db.payment_observations db !! k = Some o /\ observation_noted o o'.
Proof. intros H Hr. pose proof (nt_observation _ _ H k) as Hf. rewrite Hr in Hf. inversion Hf; subst; eauto. Qed.

Lemma noted_ok db db' : noted db db' -> ledger_ok db -> ledger_ok db'.
Proof.
  intros H Hok. split.
  - intros id row' Hr. destruct (noted_row_back _ _ _ _ H Hr) as (row & Hrow & f & v & u & -> & _).
    destruct (lo_row _ Hok _ _ Hrow) as [R1 R2 R3 R4 R5 R6 R7].
    split; simpl; try done; [by rewrite (credited_of_noted _ _ _ H)|by rewrite (uncollected_of_noted _ _ _ H)|].
    intros k o' p Hk Hi He Hd Hp. destruct (noted_observation_back _ _ _ _ H Hk) as (o & Ho & i & q & ->).
    by apply (R7 k o p).
  - intros k o' Hk. destruct (noted_observation_back _ _ _ _ H Hk) as (o & Ho & i & q & ->).
    destruct (lo_observation _ Hok k o Ho) as [[row Hrow] Hobs]. split; [|done].
    destruct (noted_row_forth _ _ _ _ H Hrow) as (row' & Hr' & _). by exists row'.
  - intros id row' j Hr Hj. destruct (noted_row_back _ _ _ _ H Hr) as (row & Hrow & f & v & u & -> & _).
    unfold job_open. rewrite (nt_jobs _ _ H). by apply (lo_job _ Hok id row).
Qed.

(** ** The shapes of a note *)

Lemma noted_beside db db' :
  Db.invoices db' = Db.invoices db -> Db.payment_observations db' = Db.payment_observations db ->
  Db.sweep_jobs db' = Db.sweep_jobs db -> Db.recovered_funds db' = Db.recovered_funds db -> noted db db'.
Proof. intros Hi Ho Hj Hr. split; [rewrite Hi|rewrite Ho|..]; try done; intros; apply option_Forall2_refl_of, _. Qed.

Lemma noted_invoice db id f :
  (forall row, row_noted row (f row)) -> noted db {| db with Db.invoices := alter f id (Db.invoices db) |}.
Proof.
  intros Hf. split; [|intros; apply option_Forall2_refl_of, _|done|done]. intros id'. simpl.
  destruct (decide (id' = id)) as [->|Hne].
  - rewrite lookup_alter_eq. destruct (Db.invoices db !! id); constructor. apply Hf.
  - rewrite lookup_alter_ne by done. apply option_Forall2_refl_of, _.
Qed.

Lemma noted_observations db (f : (Z * list Z * list Z * Z) -> Observation.t -> Observation.t) :
  (forall k o, observation_noted o (f k o)) ->
  noted db {| db with Db.payment_observations := map_imap (fun k o => Some (f k o)) (Db.payment_observations db) |}.
Proof.
  intros Hf. split; [intros; apply option_Forall2_refl_of, _| |done|done]. intros k. simpl.
  rewrite map_lookup_imap. destruct (Db.payment_observations db !! k); constructor. apply Hf.
Qed.

Lemma noted_update db p f :
  (forall o, observation_noted o (f o)) ->
  noted db {| db with Db.payment_observations := update_where p f (Db.payment_observations db) |}.
Proof.
  intros Hf. split; [intros; apply option_Forall2_refl_of, _| |done|done]. intros k. simpl.
  rewrite lookup_update_where. destruct (Db.payment_observations db !! k) as [o|]; constructor.
  destruct (p o); [apply Hf|reflexivity].
Qed.

(** ** Relay *)

Lemma unpark_noted id now db : noted db (snd (unpark_unless_pending id now db)).
Proof.
  unfold unpark_unless_pending. destruct (pending id db); [reflexivity|].
  pose proof (noted_update db (is_parked id) unpark) as Hu.
  assert (forall o, observation_noted o (unpark o)) as Hf by (intros o; by exists (Observation.relay_intent_id o), None).
  destruct (earliest_parked id db) as [t|]; [|by apply Hu].
  etrans; [by apply Hu|]. cbn [snd].
  apply (noted_invoice {| db with Db.payment_observations := _ |} id (flagged_row t now)). intros row.
  exists (coalesce (DbInvoice.likely_unsolicited_at row) (Some (to_timestamp t))),
    (DbInvoice.verification_completed_at row), now. split_and!; [done| |reflexivity]. by intros x ->.
Qed.

Lemma attribute_noted id i fills db : noted db (snd (attribute_fill id i fills db)).
Proof.
  unfold attribute_fill. destruct (Db.invoices db !! _) as [row|]; [|reflexivity]. cbn [snd].
  apply (noted_observations db (fun k o => if made_by_fill i row fills (k, o) then attributed_to id o else o)).
  intros k o. destruct (made_by_fill i row fills (k, o)); [by exists (Some id), None|reflexivity].
Qed.

Lemma set_intents_noted m db : noted db (set_intents m db).
Proof. by apply noted_beside. Qed.

Lemma relay_step_noted db db' : relay_step db db' -> noted db db'.
Proof.
  intros [].
  - unfold insert in *. repeat case_match; inv_ok. apply set_intents_noted.
  - unfold mark_sent in *. repeat case_match; inv_ok; try reflexivity; apply set_intents_noted.
  - unfold defer. repeat case_match; try reflexivity. apply set_intents_noted.
  - apply set_intents_noted.
  - unfold resolve_filled in *. repeat case_match; inv_ok; try reflexivity.
    match goal with H : attribute_fill ?a ?b ?c ?d = _ |- _ => pose proof (attribute_noted a b c d) as Ha; rewrite H in Ha end.
    match goal with H : unpark_unless_pending ?a ?b ?c = _ |- _ => pose proof (unpark_noted a b c) as Hp; rewrite H in Hp end.
    etrans; [|etrans; [exact Ha|exact Hp]]. apply set_intents_noted.
  - unfold resolve_failed in *. repeat case_match; inv_ok; try reflexivity.
    match goal with H : unpark_unless_pending ?a ?b ?c = _ |- _ => pose proof (unpark_noted a b c) as Hp; rewrite H in Hp end.
    etrans; [|exact Hp]. apply set_intents_noted.
Qed.

(** ** Verification *)

Lemma complete_noted id t s wanted now db : noted db (snd (complete_invoice id t s wanted now db)).
Proof.
  unfold complete_invoice. destruct (Db.invoices db !! id) as [row|] eqn:Hid; [|reflexivity].
  destruct (completable _ _ _ _) eqn:Hc; [|reflexivity]. simpl.
  split; [|intros; apply option_Forall2_refl_of, _|done|done]. intros id'. simpl.
  destruct (decide (id' = id)) as [->|Hne].
  - rewrite lookup_insert_eq, Hid. constructor.
    exists (DbInvoice.likely_unsolicited_at row), (Some t), now. split_and!; [done|reflexivity|].
    unfold completable in Hc. bools. intros x Hx. by rewrite Hx in *.
  - rewrite lookup_insert_ne by done. apply option_Forall2_refl_of, _.
Qed.

Lemma insert_session_noted id s db db' : insert_session id s db = Ok db' -> noted db db'.
Proof. unfold insert_session. intros H. repeat case_match; inv_ok. by apply noted_beside. Qed.

Lemma verification_step_noted db db' : verification_step db db' -> noted db db'.
Proof.
  intros [].
  - unfold create in *. inv_ok. by eapply insert_session_noted.
  - unfold create_merchant_preview in *. inv_ok. by eapply insert_session_noted.
  - unfold issue_wallet_challenge in *. repeat case_match; inv_ok. by apply noted_beside.
  - by apply noted_beside.
  - by apply noted_beside.
  - unfold begin_email_verification in *. repeat case_match; inv_ok; by apply noted_beside.
  - unfold approve_email in *. destruct (approved_before _ _) as [[? ?]|]; [inv_ok; reflexivity|].
    destruct (negb _); [discriminate|]. inv_ok. destruct (_ <=? _); [discriminate|].
    match goal with H : (let '(_, _) := complete_invoice ?a ?b ?c ?d ?e ?f in _) = _ |- _ =>
      pose proof (complete_noted a b c d e f) as Hc; destruct (complete_invoice a b c d e f) end.
    inv_ok. etrans; [|exact Hc]. by apply noted_beside.
  - unfold create_client_secret in *. repeat case_match; inv_ok. by apply noted_beside.
  - unfold exchange_client_secret in *. destruct (find_secret _ _ _ _) as [[? ?]|]; [|discriminate].
    destruct (is_some _); [discriminate|]. destruct (_ <=? _); [discriminate|]. inv_ok.
    destruct (_ <? _); [discriminate|]. destruct (is_some _); [discriminate|].
    match goal with H : (let '(_, _) := complete_invoice ?a ?b ?c ?d ?e ?f in _) = _ |- _ =>
      pose proof (complete_noted a b c d e f) as Hc; destruct (complete_invoice a b c d e f) end.
    inv_ok. match goal with H : exchange_db ?r = Ok ?db1 |- _ => destruct r as [x'|] eqn:Hins; [|discriminate]; simpl in H; inv_ok end.
    etrans; [by eapply insert_session_noted|]. etrans; [|exact Hc]. by apply noted_beside.
Qed.
