(* ===== verification/RangeInv.v ===== *)
(** * gum-ledger: a finalized range keeps the books balanced

    The loop of [apply_finalized_range] works on credits it loaded once; the
    invariant [loop_ok] says that each credit still agrees with the table of
    observations it is writing, so that the final write-back restores
    [ledger_ok]. *)

From S2P Require Import Prelude Core Contracts Bus Tables Attachments Invoices Range Sweeps LedgerInv.

Implicit Types (id : Uuid) (table : ObsTable) (k : ObservationKey).
Implicit Types (row : DbInvoice.t) (db : Db.t) (now : Timestamp) (c : InvoiceCredit.t).
Implicit Types (o : PaymentObservation.t) (addr : list Z).

(** ** The loop's invariant *)

(** A credit agrees with its row where it does not change, and with the
    table where it does. *)
Record credit_fits (db : Db.t) (table : ObsTable) (addr : list Z) (c : InvoiceCredit.t)
    (row : DbInvoice.t) : Prop := {
  cf_row : Db.invoices db !! InvoiceCredit.id c = Some row;
  cf_address : DbInvoice.payment_address row = Some addr;
  cf_status : InvoiceCredit.status c = DbInvoice.status row;
  cf_required : InvoiceCredit.required c = DbInvoice.amount row;
  cf_drained : InvoiceCredit.drained_at c = DbInvoice.drained_at row;
  cf_received : InvoiceCredit.received c = credited_of (InvoiceCredit.id c) table;
  cf_uncollected : InvoiceCredit.uncollected c = uncollected_of (InvoiceCredit.id c) table;
  cf_untouched : InvoiceCredit.touched c = false ->
    InvoiceCredit.received c = DbInvoice.confirmed_received row /\
    InvoiceCredit.uncollected c = DbInvoice.uncollected_count row;
  cf_below : InvoiceCredit.status c = Created -> InvoiceCredit.crossing c = None ->
    InvoiceCredit.received c < InvoiceCredit.required c;
  cf_crossing : InvoiceCredit.crossing c <> None ->
    InvoiceCredit.status c = Created /\ InvoiceCredit.touched c = true;
  cf_above : InvoiceCredit.crossing c <> None ->
    InvoiceCredit.required c <= InvoiceCredit.received c;
}.

Record loop_ok (db : Db.t) (s : gmap (list Z) InvoiceCredit.t * ObsTable) : Prop := {
  lk_credit : forall addr c, fst s !! addr = Some c -> exists row, credit_fits db (snd s) addr c row;
  lk_other : forall id row, Db.invoices db !! id = Some row ->
    (forall addr c, fst s !! addr = Some c -> InvoiceCredit.id c <> id) ->
    DbInvoice.confirmed_received row = credited_of id (snd s) /\
    DbInvoice.uncollected_count row = uncollected_of id (snd s);
  lk_observation : forall k ob, snd s !! k = Some ob ->
    is_Some (Db.invoices db !! Observation.invoice_id ob) /\ observation_ok ob;
  lk_drained : forall k ob row p, snd s !! k = Some ob ->
    Db.invoices db !! Observation.invoice_id ob = Some row -> Observation.is_error ob = false ->
    DbInvoice.drained_at row = Some p -> position_lt (Observation.at_ ob) p = true ->
    is_some (Observation.collected_at ob) = true;
}.

(** ** Loading *)

Lemma load_credits_from chain obs db credits :
  load_credits chain obs db = Ok credits -> ledger_ok db ->
  forall addr c, credits !! addr = Some c ->
    exists row, credit_fits db (Db.payment_observations db) addr c row /\
      InvoiceCredit.crossing c = None.
Proof.
  unfold load_credits. intros H Hok.
  eapply (try_fold_ind _ (fun credits => forall addr c, credits !! addr = Some c ->
    exists row, credit_fits db (Db.payment_observations db) addr c row /\
      InvoiceCredit.crossing c = None)); [| |exact H].
  - intros cs row cs' Hin IH Hload addr c Hc. unfold load_credit in Hload.
    apply rbind_ok in Hload as (required & Hreq%ok_or_ok & Hload).
    apply rbind_ok in Hload as (received & Hrec%ok_or_ok & Hload).
    destruct (DbInvoice.payment_address row) as [pa|] eqn:Hpa; [|injection Hload as <-; by apply IH].
    destruct (DbInvoice.token_address row) as [ta|] eqn:Hta; [|injection Hload as <-; by apply IH].
    injection Hload as <-. apply lookup_insert_Some in Hc as [[<- <-]|[_ Hc]]; [|by apply IH].
    exists row. split; [|done].
    unfold watched_rows in Hin. apply list_elem_of_In, filter_In in Hin as [Hin _].
    apply list_elem_of_In, list_elem_of_fmap in Hin as ([id r] & -> & Hid%elem_of_map_to_list).
    simpl in *. pose proof (lo_row _ Hok _ _ Hid) as [R1 R2 R3 R4 R5 R6 R7].
    unfold u256_of_numeral in *. repeat case_match; simplify_eq.
    split; simpl; try done. by auto.
  - intros addr c Hc. by rewrite lookup_empty in Hc.
Qed.

Lemma load_credits_ok chain obs db credits :
  load_credits chain obs db = Ok credits -> ledger_ok db ->
  loop_ok db (credits, Db.payment_observations db).
Proof.
  intros H Hok. split; simpl.
  - intros addr c Hc. destruct (load_credits_from _ _ _ _ H Hok addr c Hc) as (row & Hf & _). eauto.
  - intros id row Hid _. by destruct (lo_row _ Hok _ _ Hid).
  - apply (lo_observation _ Hok).
  - intros k ob row p Hk Hid He Hd Hlt.
    by eapply (ro_drained _ _ _ (lo_row _ Hok _ _ Hid)).
Qed.

(** ** One observation *)

(** Two credits at different addresses belong to different requests. *)
Lemma credit_ids_differ db s addr addr' c c' :
  loop_ok db s -> fst s !! addr = Some c -> fst s !! addr' = Some c' -> addr <> addr' ->
  InvoiceCredit.id c <> InvoiceCredit.id c'.
Proof.
  intros Hok Hc Hc' Hne Heq.
  destruct (lk_credit _ _ Hok _ _ Hc) as (row & Hf), (lk_credit _ _ Hok _ _ Hc') as (row' & Hf').
  pose proof (cf_row _ _ _ _ _ Hf) as E1. pose proof (cf_row _ _ _ _ _ Hf') as E2.
  rewrite Heq, E2 in E1. injection E1 as ->.
  pose proof (cf_address _ _ _ _ _ Hf). pose proof (cf_address _ _ _ _ _ Hf'). congruence.
Qed.

Lemma observation_row_fields now c o :
  let ob := observation_row now c o in
  Observation.invoice_id ob = InvoiceCredit.id c /\ Observation.amount ob = PaymentObservation.amount o /\
  Observation.disposition ob = fst (classify c o) /\ Observation.collected_at ob = collected_at c o /\
  Observation.at_ ob = position_of o.
Proof. unfold observation_row. by destruct (classify c o). Qed.

Lemma classify_error c o : fst (classify c o) = Error <-> PaymentObservation.amount o = 0.
Proof.
  unfold classify, is_zero. destruct (Z.eqb_spec (PaymentObservation.amount o) 0) as [->|Hne]; [done|].
  repeat case_match; simpl; split; intros; done.
Qed.

Lemma observation_row_ok now c o :
  0 <= PaymentObservation.amount o -> observation_ok (observation_row now c o).
Proof.
  intros Ha. destruct (observation_row_fields now c o) as (_ & E2 & E3 & _).
  unfold observation_ok. rewrite E2, E3. split; [done|]. apply classify_error.
Qed.

(** What the insertion of an observation does to the two aggregates. *)
Lemma insert_sums now c o table key id :
  table !! key = None ->
  credited_of id (<[key := observation_row now c o]> table) =
    (if (InvoiceCredit.id c =? id) && bool_decide (fst (classify c o) = Credited)
     then PaymentObservation.amount o else 0) + credited_of id table /\
  uncollected_of id (<[key := observation_row now c o]> table) =
    (if (InvoiceCredit.id c =? id) && negb (is_some (collected_at c o))
        && negb (bool_decide (fst (classify c o) = Error)) then 1 else 0) + uncollected_of id table.
Proof.
  intros Hk. rewrite credited_of_insert, uncollected_of_insert by done.
  unfold of_invoice, Observation.is_credited, Observation.is_error.
  destruct (observation_row_fields now c o) as (-> & -> & -> & -> & _). done.
Qed.

(** What a nonzero observation does to its credit. *)
Lemma credit_observation_spec c o c' :
  credit_observation c o = Ok c' ->
  InvoiceCredit.id c' = InvoiceCredit.id c /\ InvoiceCredit.status c' = InvoiceCredit.status c /\
  InvoiceCredit.required c' = InvoiceCredit.required c /\
  InvoiceCredit.drained_at c' = InvoiceCredit.drained_at c /\
  InvoiceCredit.touched c' = true /\
  InvoiceCredit.received c' =
    InvoiceCredit.received c +
    (if bool_decide (fst (classify c o) = Credited) then PaymentObservation.amount o else 0) /\
  InvoiceCredit.uncollected c' =
    InvoiceCredit.uncollected c + (if is_some (collected_at c o) then 0 else 1) /\
  (InvoiceCredit.status c = Created -> InvoiceCredit.crossing c' = None ->
     (InvoiceCredit.crossing c = None -> InvoiceCredit.received c < InvoiceCredit.required c) ->
     InvoiceCredit.received c' < InvoiceCredit.required c) /\
  (InvoiceCredit.crossing c' <> None -> InvoiceCredit.crossing c <> None \/
     (InvoiceCredit.status c = Created /\ InvoiceCredit.required c <= InvoiceCredit.received c')).
Proof.
  unfold credit_observation. intros H.
  apply rbind_ok in H as (u & Hu & H). cbn [InvoiceCredit.uncollected] in Hu.
  assert (u = InvoiceCredit.uncollected c + (if is_some (collected_at c o) then 0 else 1)) as ->.
  { destruct (is_some (collected_at c o)); [injection Hu as <-; lia|].
    destruct (_ <? 2 ^ 31); [by injection Hu as <-|discriminate]. }
  destruct (classify c o) as [d r]. cbn [fst] in *.
  destruct d; cbn [bool_decide decide_rel] in *.
  - apply rbind_ok in H as (rec & Hrec%ok_or_ok & H).
    cbn [InvoiceCredit.received InvoiceCredit.status InvoiceCredit.crossing InvoiceCredit.required] in *.
    unfold u256_checked_add in Hrec. destruct (_ <=? u256_max); [|discriminate].
    injection Hrec as <-. injection H as <-. simpl. split_and!; try done.
    + intros Hs Hx _. rewrite Hs in Hx. change (InvoiceStatus.eqb Created Created) with true in Hx.
      destruct (InvoiceCredit.crossing c) as [x|]; [discriminate|]. simpl in Hx.
      destruct (Z.leb_spec (InvoiceCredit.required c)
                  (InvoiceCredit.received c + PaymentObservation.amount o)); [discriminate|done].
    + destruct (_ && _ && _) eqn:E; [|by left]. intros _. bools.
      match goal with H : InvoiceStatus.eqb _ _ = true |- _ => apply InvoiceStatus.eqb_eq in H end.
      by right.
  - injection H as <-. simpl. rewrite Z.add_0_r. split_and!; try done; auto.
  - injection H as <-. simpl. rewrite Z.add_0_r. split_and!; try done; auto.
Qed.

Lemma collected_if_drained db table addr c row now o p :
  credit_fits db table addr c row -> fst (classify c o) <> Error ->
  DbInvoice.drained_at row = Some p -> position_lt (position_of o) p = true ->
  is_some (collected_at c o) = true.
Proof.
  intros Hf Hne Hd Hlt. unfold collected_at. rewrite (cf_drained _ _ _ _ _ Hf), Hd, Hlt.
  rewrite classify_error in Hne. unfold is_zero. by destruct (Z.eqb_spec (PaymentObservation.amount o) 0).
Qed.

(** The parts of [loop_ok] about the table alone, after an insertion. *)
Lemma insert_observation_table db credits table addr c row key now o :
  loop_ok db (credits, table) -> credit_fits db table addr c row ->
  0 <= PaymentObservation.amount o ->
  let table' := <[key := observation_row now c o]> table in
  (forall k ob, table' !! k = Some ob ->
     is_Some (Db.invoices db !! Observation.invoice_id ob) /\ observation_ok ob) /\
  (forall k ob row p, table' !! k = Some ob ->
     Db.invoices db !! Observation.invoice_id ob = Some row -> Observation.is_error ob = false ->
     DbInvoice.drained_at row = Some p -> position_lt (Observation.at_ ob) p = true ->
     is_some (Observation.collected_at ob) = true).
Proof.
  intros Hok Hf Ha table'. destruct (observation_row_fields now c o) as (E1 & _ & E3 & E4 & E5). split.
  - intros k ob [[<- <-]|[_ Hk]]%lookup_insert_Some; [|by apply (lk_observation _ _ Hok k)].
    rewrite E1, (cf_row _ _ _ _ _ Hf). split; [eauto|by apply observation_row_ok].
  - intros k ob row' p [[<- <-]|[_ Hk]]%lookup_insert_Some; [|by apply (lk_drained _ _ Hok k)].
    rewrite E1, E4, E5, (cf_row _ _ _ _ _ Hf). intros [= <-] He Hd Hlt.
    unfold Observation.is_error in He. bools. rewrite E3 in He. by eapply collected_if_drained.
Qed.

Lemma credit_fits_table db table table' addr c row :
  credited_of (InvoiceCredit.id c) table' = credited_of (InvoiceCredit.id c) table ->
  uncollected_of (InvoiceCredit.id c) table' = uncollected_of (InvoiceCredit.id c) table ->
  credit_fits db table addr c row -> credit_fits db table' addr c row.
Proof. intros Hc Hu []. split; try done; congruence. Qed.

Lemma step_zero_ok db credits table c key now o :
  loop_ok db (credits, table) -> credits !! PaymentObservation.recipient o = Some c ->
  table !! key = None -> PaymentObservation.amount o = 0 ->
  loop_ok db (credits, <[key := observation_row now c o]> table).
Proof.
  intros Hok Hc Hk Hz. destruct (lk_credit _ _ Hok _ _ Hc) as (row & Hf).
  destruct (insert_observation_table db credits table _ c row key now o Hok Hf) as [H1 H2]; [lia|].
  assert (fst (classify c o) = Error) as He by (by apply classify_error).
  assert (forall id, credited_of id (<[key := observation_row now c o]> table) = credited_of id table /\
    uncollected_of id (<[key := observation_row now c o]> table) = uncollected_of id table) as Hsame.
  { intros id. destruct (insert_sums now c o table key id Hk) as [-> ->]. rewrite He. simpl.
    by rewrite !andb_false_r. }
  split; [| |exact H1|exact H2]; simpl.
  - intros addr c' Hc'. destruct (lk_credit _ _ Hok _ _ Hc') as (row' & Hf'). exists row'.
    by eapply credit_fits_table; [apply Hsame..|].
  - intros id row' Hid Hno. destruct (Hsame id) as [-> ->]. by apply (lk_other _ _ Hok).
Qed.

Lemma step_credit_ok db credits table c c' key now o :
  loop_ok db (credits, table) -> credits !! PaymentObservation.recipient o = Some c ->
  table !! key = None -> 0 < PaymentObservation.amount o -> credit_observation c o = Ok c' ->
  loop_ok db (<[PaymentObservation.recipient o := c']> credits,
              <[key := observation_row now c o]> table).
Proof.
  intros Hok Hc Hk Hz Hco. destruct (lk_credit _ _ Hok _ _ Hc) as (row & Hf).
  destruct (insert_observation_table db credits table _ c row key now o Hok Hf) as [H1 H2]; [lia|].
  destruct (credit_observation_spec c o c' Hco) as (E1 & E2 & E3 & E4 & E5 & E6 & E7 & E8 & E9).
  assert (fst (classify c o) <> Error) as He by (rewrite classify_error; lia).
  split; [| |exact H1|exact H2]; simpl.
  - intros addr d [[<- <-]|[Hne Hd]]%lookup_insert_Some.
    + exists row. destruct (insert_sums now c o table key (InvoiceCredit.id c) Hk) as [Sc Su].
      rewrite Z.eqb_refl, (bool_decide_eq_false_2 _ He), andb_true_r in Su. rewrite Z.eqb_refl in Sc.
      destruct Hf as [F1 F2 F3 F4 F5 F6 F7 F8 F9 F10 F11].
      split; rewrite ?E1, ?E2, ?E3, ?E4, ?E5; try done.
      * rewrite E6, F6, Sc. simpl. lia.
      * rewrite E7, F7, Su. simpl. destruct (is_some (collected_at c o)); simpl; lia.
      * intros Hs Hx. apply E8; auto.
      * intros Hx. split; [|done]. destruct (E9 Hx) as [H|[H _]]; [by apply F10|done].
      * intros Hx. destruct (E9 Hx) as [H|[_ H]]; [|done]. specialize (F11 H). rewrite E6.
        destruct (bool_decide _); lia.
    + destruct (lk_credit _ _ Hok _ _ Hd) as (row' & Hf'). exists row'.
      pose proof (credit_ids_differ db _ _ _ _ _ Hok Hc Hd Hne) as Hids.
      destruct (insert_sums now c o table key (InvoiceCredit.id d) Hk) as [Sc Su].
      apply Z.eqb_neq in Hids. rewrite Hids in Sc, Su.
      by eapply credit_fits_table; [| |exact Hf'].
  - intros id row' Hid Hno.
    assert (InvoiceCredit.id c <> id) as Hids.
    { rewrite <- E1. apply (Hno (PaymentObservation.recipient o) c'). apply lookup_insert_eq. }
    destruct (insert_sums now c o table key id Hk) as [Sc Su].
    apply Z.eqb_neq in Hids. rewrite Hids in Sc, Su. rewrite Sc, Su. simpl.
    apply (lk_other _ _ Hok _ _ Hid). intros addr d Hd. simpl in Hd.
    destruct (decide (addr = PaymentObservation.recipient o)) as [->|Hne].
    + apply Z.eqb_neq. congruence.
    + apply (Hno addr d). by rewrite lookup_insert_ne.
Qed.

Lemma step_observation_ok chain now db s o s' :
  step_observation chain now s o = Ok s' -> 0 <= PaymentObservation.amount o ->
  loop_ok db s -> loop_ok db s'.
Proof.
  destruct s as [credits table]. unfold step_observation. intros H Ha Hok.
  destruct (credits !! PaymentObservation.recipient o) as [c|] eqn:Hc; [|by injection H as <-].
  destruct (negb (bool_decide _)); [by injection H as <-|].
  destruct (negb (observation_allowed o)); [discriminate|].
  destruct (table !! observation_key chain o) as [ob|] eqn:Hk; [by injection H as <-|]. simpl in H.
  unfold is_zero in H. destruct (Z.eqb_spec (PaymentObservation.amount o) 0) as [Hz|Hz].
  - injection H as <-. by eapply step_zero_ok.
  - apply rbind_ok in H as (c' & Hco & [= <-]). eapply step_credit_ok; [done..|lia|done].
Qed.

(** ** Writing back *)

(** The row a credit leaves behind. *)
Definition row_after (now : Timestamp) (c : InvoiceCredit.t) (row : DbInvoice.t) : DbInvoice.t :=
  if InvoiceCredit.touched c then default row (credited_row now c row) else row.

Lemma apply_credit_lookup now c (m : gmap Uuid DbInvoice.t) f (id : Uuid) :
  fst (apply_credit now c (m, f)) !! id =
  if bool_decide (id = InvoiceCredit.id c) then row_after now c <$> m !! id else m !! id.
Proof.
  unfold row_after, apply_credit. destruct (InvoiceCredit.touched c); simpl.
  2: { case_bool_decide; [|done]. by rewrite option_fmap_id. }
  case_bool_decide as Hid; [subst id|].
  - destruct (m !! InvoiceCredit.id c) as [row|] eqn:Hm; simpl; [|done].
    destruct (credited_row now c row) eqn:E; simpl; [by rewrite lookup_insert_eq|done].
  - destruct (m !! InvoiceCredit.id c ≫= _); simpl; [by rewrite lookup_insert_ne|done].
Qed.

Lemma fold_credits_lookup now (cs : list InvoiceCredit.t) (m : gmap Uuid DbInvoice.t) :
  NoDup (InvoiceCredit.id <$> cs) ->
  (forall c, c ∈ cs ->
     fst (foldr (apply_credit now) (m, []) cs) !! InvoiceCredit.id c =
     row_after now c <$> m !! InvoiceCredit.id c) /\
  (forall id, id ∉ InvoiceCredit.id <$> cs ->
     fst (foldr (apply_credit now) (m, []) cs) !! id = m !! id).
Proof.
  induction cs as [|d cs IH]; simpl.
  { intros _. split; [intros c Hc; by apply not_elem_of_nil in Hc|done]. }
  intros [Hni Hnd]%list.NoDup_cons. destruct (IH Hnd) as [IH1 IH2]. clear IH.
  destruct (foldr (apply_credit now) (m, []) cs) as [m' f']. cbn [fst] in IH1, IH2. split.
  - intros c [->|Hc]%elem_of_cons.
    + rewrite apply_credit_lookup, bool_decide_eq_true_2 by done. by rewrite IH2.
    + rewrite apply_credit_lookup, bool_decide_eq_false_2; [by apply IH1|].
      intros Heq. apply Hni. rewrite <- Heq. apply list_elem_of_fmap. eauto.
  - intros id Hid. rewrite apply_credit_lookup, bool_decide_eq_false_2.
    + apply IH2. contradict Hid. by right.
    + intros ->. apply Hid. by left.
Qed.

Lemma nodup_credit_ids db credits table :
  loop_ok db (credits, table) -> NoDup (InvoiceCredit.id <$> (map_to_list credits).*2).
Proof.
  intros Hok. rewrite <- list_fmap_compose. apply NoDup_fmap_2_strong; [|apply NoDup_map_to_list].
  intros [a c] [a' c'] Hc%elem_of_map_to_list Hc'%elem_of_map_to_list Heq. simpl in Heq.
  destruct (decide (a = a')) as [->|Hne]; [congruence|].
  by destruct (credit_ids_differ db (credits, table) a a' c c' Hok Hc Hc' Hne).
Qed.

Lemma apply_credits_total db credits table now id :
  loop_ok db (credits, table) ->
  fst (apply_credits now credits (Db.invoices db)) !! id = None -> Db.invoices db !! id = None.
Proof.
  intros Hok. pose proof (nodup_credit_ids _ _ _ Hok) as Hnd.
  destruct (fold_credits_lookup now _ (Db.invoices db) Hnd) as [H1 H2]. unfold apply_credits.
  destruct (decide (id ∈ InvoiceCredit.id <$> (map_to_list credits).*2)) as [Hin|Hni].
  - apply list_elem_of_fmap in Hin as (c & -> & Hc). rewrite (H1 c Hc). by intros H%fmap_None.
  - by rewrite H2.
Qed.

(** Every row of the result is an untouched one or a credited one. *)
Lemma apply_credits_lookup db credits table now id row' :
  loop_ok db (credits, table) ->
  fst (apply_credits now credits (Db.invoices db)) !! id = Some row' ->
  (exists addr c row, credits !! addr = Some c /\ InvoiceCredit.id c = id /\
     credit_fits db table addr c row /\ row' = row_after now c row) \/
  (Db.invoices db !! id = Some row' /\
   forall addr c, credits !! addr = Some c -> InvoiceCredit.id c <> id).
Proof.
  intros Hok H. pose proof (nodup_credit_ids _ _ _ Hok) as Hnd.
  destruct (fold_credits_lookup now _ (Db.invoices db) Hnd) as [H1 H2].
  unfold apply_credits in H.
  destruct (decide (id ∈ InvoiceCredit.id <$> (map_to_list credits).*2)) as [Hin|Hni].
  - left. apply list_elem_of_fmap in Hin as (c & -> & Hc). specialize (H1 c Hc).
    apply list_elem_of_fmap in Hc as ([addr c'] & -> & Hc%elem_of_map_to_list). simpl in *.
    destruct (lk_credit _ _ Hok _ _ Hc) as (row & Hf).
    rewrite H1, (cf_row _ _ _ _ _ Hf) in H. injection H as <-. exists addr, c', row. done.
  - right. rewrite H2 in H by done. split; [done|]. intros addr c Hc Heq. apply Hni.
    apply list_elem_of_fmap. exists c. split; [done|]. apply list_elem_of_fmap. exists (addr, c).
    split; [done|]. by apply elem_of_map_to_list.
Qed.

Lemma row_after_fields now c row :
  let row' := row_after now c row in
  DbInvoice.issuance row' = DbInvoice.issuance row /\
  DbInvoice.binding row' = DbInvoice.binding row /\
  DbInvoice.sweep_job_id row' = DbInvoice.sweep_job_id row /\
  DbInvoice.drained_at row' = DbInvoice.drained_at row /\
  (DbInvoice.status row' = DbInvoice.status row \/
   DbInvoice.status row = Created /\ DbInvoice.status row' = Funded).
Proof.
  unfold row_after, credited_row. destruct (InvoiceCredit.touched c); [|split_and!; by auto].
  destruct (InvoiceCredit.crossing c) as [[[[? ?] ?] ?]|]; simpl; [|split_and!; by auto].
  destruct (InvoiceStatus.eqb (DbInvoice.status row) Created) eqn:E; simpl; [|split_and!; by auto].
  apply InvoiceStatus.eqb_eq in E. split_and!; by auto.
Qed.

Lemma row_after_values db table addr c row now :
  credit_fits db table addr c row ->
  let row' := row_after now c row in
  DbInvoice.confirmed_received row' = credited_of (InvoiceCredit.id c) table /\
  DbInvoice.uncollected_count row' = uncollected_of (InvoiceCredit.id c) table /\
  (DbInvoice.status row' = Created ->
     DbInvoice.confirmed_received row' < DbInvoice.amount row).
Proof.
  intros [F1 F2 F3 F4 F5 F6 F7 F8 F9 F10 F11]. unfold row_after, credited_row.
  destruct (InvoiceCredit.crossing c) as [[[[ob b] bh] bt]|] eqn:Hx.
  - destruct F10 as [Hs ->]; [done|]. rewrite <- F3, Hs.
    change (InvoiceStatus.eqb Created Created) with true. simpl. split_and!; done.
  - destruct (InvoiceCredit.touched c); simpl.
    + split_and!; [done..|]. rewrite <- F3, <- F4. auto.
    + destruct (F8 eq_refl) as [<- <-]. split_and!; [done..|]. rewrite <- F3, <- F4. auto.
Qed.

(** The written-back state, before expiry and the cursor. *)
Lemma write_back_ok db credits table now db1 :
  ledger_ok db -> loop_ok db (credits, table) ->
  Db.payment_observations db1 = table ->
  Db.invoices db1 = fst (apply_credits now credits (Db.invoices db)) ->
  Db.sweep_jobs db1 = Db.sweep_jobs db -> ledger_ok db1.
Proof.
  intros Hok Hl Hobs Hinv Hjobs. split.
  - intros id row'. rewrite Hinv, Hobs. intros H.
    assert (forall row, Db.invoices db !! id = Some row ->
      forall k ob p, table !! k = Some ob -> Observation.invoice_id ob = id ->
        Observation.is_error ob = false -> DbInvoice.drained_at row = Some p ->
        position_lt (Observation.at_ ob) p = true -> is_some (Observation.collected_at ob) = true) as Hdr.
    { intros row Hrow k ob p Hk Hi. rewrite <- Hi in Hrow. by apply (lk_drained _ _ Hl k ob row p). }
    destruct (apply_credits_lookup db credits table now id row' Hl H)
      as [(addr & c & row & Hc & <- & Hf & ->)|[Hrow Hno]].
    + destruct (row_after_fields now c row) as (E1 & E2 & E3 & E4 & E5).
      destruct (row_after_values _ _ _ _ _ now Hf) as (V1 & V2 & V3).
      pose proof (lo_row _ Hok _ _ (cf_row _ _ _ _ _ Hf)) as [R1 R2 R3 R4 R5 R6 R7].
      assert (DbInvoice.amount (row_after now c row) = DbInvoice.amount row) as Ea
        by (unfold DbInvoice.amount; congruence).
      split; rewrite ?Ea, ?E3, ?E4; try done.
      * unfold DbInvoice.id in *. by rewrite E1.
      * intros Hs. destruct E5 as [E5|[_ E5]]; [|congruence]. apply R6. congruence.
      * apply Hdr, (cf_row _ _ _ _ _ Hf).
    + destruct (lk_other _ _ Hl id row' Hrow Hno) as [V1 V2]. simpl in V1, V2.
      destruct (lo_row _ Hok _ _ Hrow) as [R1 R2 R3 R4 R5 R6 R7].
      split; try done. by apply Hdr.
  - intros k ob. rewrite Hobs. intros Hk. destruct (lk_observation _ _ Hl k ob Hk) as [[row Hrow] ?].
    split; [|done]. rewrite Hinv. apply not_eq_None_Some. intros Hnone.
    apply (apply_credits_total db credits table now (Observation.invoice_id ob) Hl) in Hnone. congruence.
  - intros id row' j. rewrite Hinv. intros H Hj. unfold job_open. rewrite Hjobs.
    destruct (apply_credits_lookup db credits table now id row' Hl H)
      as [(addr & c & row & Hc & <- & Hf & ->)|[Hrow Hno]]; [|by apply (lo_job _ Hok id row' j)].
    destruct (row_after_fields now c row) as (_ & _ & E3 & _).
    apply (lo_job _ Hok (InvoiceCredit.id c) row j); [apply (cf_row _ _ _ _ _ Hf)|congruence].
Qed.

(** A committed range: the loop's result, the written-back state [db1], and
    what expiry and the cursor add to it. *)
Lemma range_body_parts chain block hash ts obs now db r db' :
  apply_range_body chain block hash ts obs now db = Ok (r, db') ->
  Forall (fun o => 0 <= PaymentObservation.amount o) obs -> ledger_ok db ->
  exists credits table db1,
    loop_ok db (credits, table) /\
    Db.invoices db1 = fst (apply_credits now credits (Db.invoices db)) /\
    Db.payment_observations db1 = table /\
    Db.recovered_funds db1 = Db.recovered_funds db /\
    ledger_ok db1 /\
    Db.invoices db' = update_where (bound_overdue (as_i64 chain) (as_i64 ts))
                        (expire_row (as_i64 ts) now) (Db.invoices db1) /\
    Db.recovered_funds db' = Db.recovered_funds db1 /\
    Db.payment_observations db' = table /\ ledger_ok db' /\
    r = Applied (snd (apply_credits now credits (Db.invoices db)))
          (ids_where (bound_overdue (as_i64 chain) (as_i64 ts)) db1) (IndexerCursor.mk block hash (Some ts)).
Proof.
  unfold apply_range_body. intros H Hobs Hok.
  apply rbind_ok in H as (credits0 & Hload & H).
  apply rbind_ok in H as ([credits table] & Hloop & H).
  destruct (apply_credits now credits (Db.invoices db)) as [invoices funded] eqn:Hac.
  set (db1 := {| db with Db.payment_observations := table; Db.invoices := invoices |}) in H.
  destruct (expire_bound _ _ _ _) as [expired db2] eqn:Hex.
  apply rbind_ok in H as (db3 & Hcur & [= <- <-]).
  assert (loop_ok db (credits, table)) as Hl.
  { eapply (try_fold_ind _ (loop_ok db)); [|by eapply load_credits_ok|exact Hloop].
    intros s o s' Ho Hs Hstep. eapply step_observation_ok; [exact Hstep| |done].
    rewrite List.Forall_forall in Hobs. by apply Hobs, list_elem_of_In. }
  assert (ledger_ok db1) as Hok1.
  { eapply (write_back_ok db credits table now); try done. by rewrite Hac. }
  exists credits, table, db1. rewrite Hac.
  unfold store_cursor in Hcur. destruct (_ && _); [|discriminate]. injection Hcur as <-.
  pose proof (expire_bound_ok (as_i64 chain) (as_i64 ts) now db1 Hok1) as Hok2.
  rewrite Hex in Hok2. injection Hex as <- <-. split_and!; try done.
  by eapply ledger_ok_same; [..|exact Hok2].
Qed.

Lemma apply_finalized_range_ok chain expected block hash ts obs now db r db' :
  apply_finalized_range chain expected block hash ts obs now db = Ok (r, db') ->
  Forall (fun o => 0 <= PaymentObservation.amount o) obs -> ledger_ok db -> ledger_ok db'.
Proof.
  unfold apply_finalized_range. intros H Hobs Hok. apply rbind_ok in H as (cursor & _ & H).
  case_bool_decide.
  { by destruct (range_body_parts _ _ _ _ _ _ _ _ _ H Hobs Hok) as (? & ? & ? & _ & _ & _ & _ & _ & _ & _ & _ & ? & _). } by injection H as <- <-.
Qed.
