(* ===== verification/LedgerRuns.v ===== *)
(** * gum-ledger: all histories of the ledger

    [ledger_step] is one committed transaction of the ledger: an issuance, a
    binding, an expiry, an applied range, a scheduled job, the evidence about
    one, an operator's action. The theorems here hold in every state such
    transactions reach from an empty ledger.  Of all the transactions only issuing
    a request and binding it write the columns of its terms and its address
    ([other_steps_keep]). *)

From S2P Require Import Prelude Core Contracts Bus Tables Attachments Invoices Range Sweeps.
From S2P Require Import RelayIntents Verifications LedgerExample LedgerInv LedgerNotes RangeInv.

Implicit Types (id : Uuid) (row : DbInvoice.t) (db : Db.t) (now : Timestamp).

Section Runs.
Context (payload_hash : Message -> B256) (parse_address : string -> option Address)
  (hex : bytes -> string).

Inductive ledger_step (db : Db.t) : Db.t -> Prop :=
| step_issue input a utc now r db' :
    insert_issued hex input a utc now db = Ok (r, db') -> ledger_step db db'
| step_bind_wallet id session attempt b utc now r db' :
    bind_payer_wallet id session attempt b utc now db = Ok (r, db') -> ledger_step db db'
| step_bind_network id b utc now r db' :
    bind_network id b utc now db = Ok (r, db') -> ledger_step db db'
| step_expire_unbound t now : ledger_step db (snd (expire_unbound t now db))
| step_cancel account id now : ledger_step db (snd (request_cancellation account id now db))
| step_release id now r db' : release_attention id now db = Ok (r, db') -> ledger_step db db'
| step_range chain expected block hash ts obs now r db' :
    Forall (fun o => 0 <= PaymentObservation.amount o) obs ->
    apply_finalized_range chain expected block hash ts obs now db = Ok (r, db') -> ledger_step db db'
| step_schedule chain policy producer job corr msg now r db' :
    schedule_sweep_job payload_hash parse_address chain policy producer job corr msg now db = Ok (r, db') ->
    ledger_step db db'
| step_flag id reason now : ledger_step db (snd (flag_attention id reason now db))
| step_submission job tx now : ledger_step db (record_sweep_submission job tx now db)
| step_finalized receipt policy now r db' :
    apply_sweep_finalized receipt policy now db = Ok (r, db') -> ledger_step db db'
| step_abandoned job reason now n db' :
    apply_sweep_abandoned job reason now db = Ok (n, db') -> ledger_step db db'
| step_rejected job reason now n db' :
    apply_sweep_rejected job reason now db = Ok (n, db') -> ledger_step db db'
| step_relay db' : relay_step db db' -> ledger_step db db'
| step_verification db' : verification_step db db' -> ledger_step db db'.

(** A ledger before its first request. *)
Definition no_requests (db : Db.t) : Prop :=
  Db.invoices db = ∅ /\ Db.payment_observations db = ∅.

Lemma no_requests_ok db : no_requests db -> ledger_ok db.
Proof.
  intros [Hi Ho]. split.
  - intros id row. by rewrite Hi.
  - intros k o. by rewrite Ho.
  - intros id row j. by rewrite Hi.
Qed.

Lemma ledger_step_ok db db' : ledger_step db db' -> ledger_ok db -> ledger_ok db'.
Proof.
  intros []; eauto using insert_issued_ok, bind_payer_wallet_ok, bind_network_ok, expire_unbound_ok,
    request_cancellation_ok, release_attention_ok, apply_finalized_range_ok, schedule_ok,
    flag_attention_ok, record_submission_ok, apply_sweep_finalized_ok.
  - by eapply close_without_effect_ok.
  - by eapply close_without_effect_ok.
  - by apply noted_ok, relay_step_noted.
  - by apply noted_ok, verification_step_noted.
Qed.

Lemma ledger_steps_ok db db' : rtc ledger_step db db' -> ledger_ok db -> ledger_ok db'.
Proof. induction 1; eauto using ledger_step_ok. Qed.

(** C1. In every state the ledger reaches, the books balance: a
    request's received amount is the sum of its credited observations, its
    queue count is the number of its nonzero observations no drain has
    collected, an open unpaid request has received less than it asks for, and
    an observation before the request's last drain is never queued again. *)
Theorem ledger_balances db0 db id row :
  no_requests db0 -> rtc ledger_step db0 db -> Db.invoices db !! id = Some row ->
  DbInvoice.confirmed_received row = credited_of id (Db.payment_observations db) /\
  DbInvoice.uncollected_count row = uncollected_of id (Db.payment_observations db) /\
  (DbInvoice.status row = Created -> DbInvoice.confirmed_received row < DbInvoice.amount row) /\
  (forall k o p, Db.payment_observations db !! k = Some o -> Observation.invoice_id o = id ->
     Observation.is_error o = false -> DbInvoice.drained_at row = Some p ->
     position_lt (Observation.at_ o) p = true -> is_some (Observation.collected_at o) = true).
Proof.
  intros H0 Hr Hrow. pose proof (ledger_steps_ok _ _ Hr (no_requests_ok _ H0)) as Hok.
  destruct (lo_row _ Hok _ _ Hrow) as [R1 R2 R3 R4 R5 R6 R7]. split_and!; try done.
Qed.

(** A request is in a sweep job only while that job is open, and
    never while the request is still waiting for its deposit. *)
Theorem sweep_membership db0 db id row job :
  no_requests db0 -> rtc ledger_step db0 db -> Db.invoices db !! id = Some row ->
  DbInvoice.sweep_job_id row = Some job ->
  job_open job db = true /\ DbInvoice.status row <> Created.
Proof.
  intros H0 Hr Hrow Hj. pose proof (ledger_steps_ok _ _ Hr (no_requests_ok _ H0)) as Hok.
  split; [by apply (lo_job _ Hok id row job)|]. intros Hs.
  pose proof (ro_job _ _ _ (lo_row _ Hok _ _ Hrow) Hs). congruence.
Qed.

(** ** The lifecycle

    [created < funded < expired < (fulfilled | recovered)]. *)

Definition rank (s : InvoiceStatus) : Z :=
  match s with Created => 0 | Funded => 1 | Expired => 2 | Fulfilled | Recovered => 3 end.

Definition row_lives (row row' : DbInvoice.t) : Prop :=
  DbInvoice.issuance row' = DbInvoice.issuance row /\
  (is_some (DbInvoice.payment_address row) = true -> DbInvoice.binding row' = DbInvoice.binding row) /\
  rank (DbInvoice.status row) <= rank (DbInvoice.status row').

#[local] Instance row_lives_preorder : PreOrder row_lives.
Proof.
  split; [by repeat split|]. intros a b c (H1 & H2 & H3) (K1 & K2 & K3). split_and!; [congruence| |lia].
  intros Hb. rewrite K2; [by apply H2|]. unfold DbInvoice.payment_address. by rewrite H2.
Qed.

Definition ledger_lives (db db' : Db.t) : Prop :=
  (forall id row, Db.invoices db !! id = Some row ->
     exists row', Db.invoices db' !! id = Some row' /\ row_lives row row') /\
  Db.recovered_funds db ⊆ Db.recovered_funds db'.

#[local] Instance ledger_lives_preorder : PreOrder ledger_lives.
Proof.
  split.
  - intros db. split; [|done]. intros id row H. exists row. by split.
  - intros a b c [H1 H2] [K1 K2]. split; [|by etrans]. intros id row H.
    destruct (H1 id row H) as (r & Hr & L1). destruct (K1 id r Hr) as (r' & Hr' & L2).
    exists r'. split; [done|]. by etrans.
Qed.

(** Three shapes of UPDATE. *)
Lemma lives_insert db db' id row row' :
  Db.invoices db !! id = Some row -> row_lives row row' ->
  Db.invoices db' = <[id := row']> (Db.invoices db) ->
  Db.recovered_funds db' = Db.recovered_funds db -> ledger_lives db db'.
Proof.
  intros Hid Hl Hi Hf. split; [|by rewrite Hf]. intros id' r Hr. rewrite Hi.
  destruct (decide (id' = id)) as [->|Hne].
  - rewrite lookup_insert_eq. exists row'. split; [done|]. congruence.
  - rewrite lookup_insert_ne by done. exists r. by split.
Qed.

Lemma lives_where db db' p f :
  (forall row, p row = true -> row_lives row (f row)) ->
  Db.invoices db' = update_where p f (Db.invoices db) ->
  Db.recovered_funds db' = Db.recovered_funds db -> ledger_lives db db'.
Proof.
  intros Hl Hi Hf. split; [|by rewrite Hf]. intros id r Hr. rewrite Hi, lookup_update_where, Hr. simpl.
  eexists. split; [done|]. destruct (p r) eqn:E; [by auto|reflexivity].
Qed.

Lemma lives_same db db' :
  Db.invoices db' = Db.invoices db -> Db.recovered_funds db' = Db.recovered_funds db ->
  ledger_lives db db'.
Proof. intros Hi Hf. split; [|by rewrite Hf]. intros id r. rewrite Hi. exists r. by split. Qed.

Ltac lives := unfold row_lives; simpl; split_and!; try done; try lia.

Lemma expire_row_lives chain t now row : bound_overdue chain t row = true -> row_lives row (expire_row t now row).
Proof. unfold bound_overdue. intros H. bools. lives. destruct (DbInvoice.status row); simpl in *; lia || done. Qed.

Lemma range_lives chain expected block hash ts obs now db r db' :
  Forall (fun o => 0 <= PaymentObservation.amount o) obs ->
  apply_finalized_range chain expected block hash ts obs now db = Ok (r, db') ->
  ledger_ok db -> ledger_lives db db'.
Proof.
  intros Hobs H Hok. unfold apply_finalized_range in H. apply rbind_ok in H as (cur & _ & H).
  case_bool_decide; [|injection H as <- <-; reflexivity].
  destruct (range_body_parts _ _ _ _ _ _ _ _ _ H Hobs Hok) as (credits & table & db1 & Hl & Hi & _ & Hf & _ & Hi' & Hf' & _).
  assert (ledger_lives db db1) as L1.
  { split; [|by rewrite Hf]. intros id row Hrow.
    destruct (Db.invoices db1 !! id) as [row'|] eqn:Hr; rewrite Hi in Hr.
    - exists row'. split; [done|].
      destruct (apply_credits_lookup _ _ _ _ _ _ Hl Hr) as [(addr & c & r0 & Hc & <- & Hfit & ->)|[Hr0 _]].
      + pose proof (cf_row _ _ _ _ _ Hfit). assert (r0 = row) as -> by congruence.
        destruct (row_after_fields now c row) as (E1 & E2 & _ & _ & E5). split_and!; [done|done|].
        destruct E5 as [->|[-> ->]]; simpl; lia.
      + assert (row' = row) as -> by congruence. reflexivity.
    - apply (apply_credits_total _ _ _ _ _ Hl) in Hr. congruence. }
  etrans; [exact L1|]. eapply lives_where; [|exact Hi'|exact Hf'].
  intros row. apply expire_row_lives.
Qed.

Lemma claim_lives hash parse chain policy producer job corr msg now db r db' :
  schedule_sweep_job hash parse chain policy producer job corr msg now db = Ok (r, db') ->
  ledger_lives db db'.
Proof.
  unfold schedule_sweep_job. intros H.
  destruct (halted _ db); [injection H as <- <-; reflexivity|].
  destruct (is_some _); [discriminate|]. apply rbind_ok in H as (rows & _ & H).
  destruct rows as [|r0 rows0]; [injection H as <- <-; reflexivity|].
  remember (r0 :: rows0) as rows eqn:Er; clear Er.
  apply rbind_ok in H as (items & _ & H). destruct (publish _ _ _ _ _ _ _ _) as [[? ?]|]; [|discriminate].
  injection H as <- <-. split; [|done]. intros id row Hrow. simpl.
  rewrite claim_rows_lookup, Hrow. case_bool_decide; eexists; (split; [done|]); [lives|reflexivity].
Qed.

Lemma insert_recoveries_grow row rs funds : funds ⊆ foldl (insert_recovery row) funds rs.
Proof.
  revert funds. induction rs as [|r rs IH]; intros funds; simpl; [done|].
  etrans; [|apply IH]. unfold insert_recovery. case_match eqn:E; [done|]. by apply insert_subseteq.
Qed.

Lemma flag_lives id reason now db : ledger_lives db (snd (flag_attention_in id reason now db)).
Proof.
  unfold flag_attention_in. destruct (Db.invoices db !! id) as [row|] eqn:Hid; [|reflexivity].
  destruct (is_some _); [reflexivity|]. cbn [snd].
  destruct (Db.accounts db !! _); (eapply lives_insert; [exact Hid| |done|done]); lives.
Qed.

Lemma lives_alter db db' id row f :
  Db.invoices db !! id = Some row -> row_lives row (f row) ->
  Db.invoices db' = alter f id (Db.invoices db) ->
  Db.recovered_funds db ⊆ Db.recovered_funds db' -> ledger_lives db db'.
Proof.
  intros Hid Hl Hi Hf. split; [|done]. intros id' r Hr. rewrite Hi.
  destruct (decide (id' = id)) as [->|Hne].
  - rewrite lookup_alter_eq, Hid. exists (f row). split; [done|]. congruence.
  - rewrite lookup_alter_ne by done. exists r. by split.
Qed.

Lemma drain_lives receipt row d now db db' :
  apply_drain receipt row d now db = Ok db' -> Db.invoices db !! DbInvoice.id row = Some row ->
  (forall s, Drain.status d = Some s -> s = Fulfilled \/ s = Recovered) -> ledger_lives db db'.
Proof.
  unfold apply_drain. intros H Hid Hs. destruct (negb (positions_allowed _ _)); [discriminate|].
  destruct (_ && negb (bool_decide _)); [discriminate|]. injection H as <-.
  match goal with |- ledger_lives db (match _ with Some _ => snd (flag_attention_in _ _ _ ?m) | _ => _ end) =>
    assert (ledger_lives db m) as L end.
  { eapply lives_alter; [exact Hid| |done|apply insert_recoveries_grow]. lives.
    destruct (Drain.status d) as [s|]; simpl; [|lia].
    destruct (Hs s eq_refl) as [-> | ->]; destruct (DbInvoice.status row); simpl; lia. }
  destruct (Drain.attention d); [|exact L]. etrans; [exact L|apply flag_lives].
Qed.

Lemma decide_resolves row receipt outcome policy d s :
  decide_item row receipt outcome policy = Drained d -> Drain.status d = Some s ->
  s = Fulfilled \/ s = Recovered.
Proof. unfold decide_item, own_drain. intros H. repeat case_match; simplify_eq; simpl; naive_solver. Qed.

Lemma requeue_lives id row now db : Db.invoices db !! id = Some row -> ledger_lives db (requeue id now db).
Proof. intros H. eapply lives_alter; [exact H| |done|done]. lives. Qed.

Lemma item_lives receipt policy now s item s' :
  apply_item receipt policy now s item = Ok s' -> ledger_ok (snd s) -> ledger_lives (snd s) (snd s').
Proof.
  destruct s as [applied db]. unfold apply_item. intros H Hok. simpl in *.
  apply rbind_ok in H as (row & Hid%ok_or_ok & H).
  destruct (bool_decide _); [|discriminate]. simpl in H.
  apply rbind_ok in H as ([applied' db'] & Hdec & [= <-]). simpl.
  trans db'; [|by apply lives_same].
  pose proof (ro_id _ _ _ (lo_row _ Hok _ _ Hid)) as Hrid.
  destruct (decide_item row receipt (SweepItemResult.outcome item) policy) as [d| |reason] eqn:Ed.
  - apply rbind_ok in Hdec as (db1 & Hdr & [= <- <-]).
    eapply drain_lives; [exact Hdr|by rewrite Hrid|]. intros s. by eapply decide_resolves.
  - injection Hdec as <- <-. by eapply requeue_lives.
  - injection Hdec as <- <-. etrans; [by eapply requeue_lives|apply flag_lives].
Qed.

Lemma resolve_lives job res detail tx now db db' :
  resolve_job job res detail tx now db = Ok db' -> ledger_lives db db'.
Proof. unfold resolve_job. intros H. repeat case_match; inv_ok. by apply lives_same. Qed.

Lemma finalized_lives receipt policy now db r db' :
  apply_sweep_finalized receipt policy now db = Ok (r, db') -> ledger_ok db -> ledger_lives db db'.
Proof.
  unfold apply_sweep_finalized. intros H Hok. destruct (job_open _ db); [|discriminate]. simpl in H.
  apply rbind_ok in H as ([applied db1] & Hf & H). destruct (negb (_ =? 0)); [discriminate|].
  apply rbind_ok in H as (db2 & Hres & [= <- <-]).
  assert (ledger_ok db1 /\ ledger_lives db db1) as [_ L].
  { change db1 with (snd (applied, db1)).
    eapply (try_fold_ind _ (fun s => ledger_ok (snd s) /\ ledger_lives db (snd s))); [| |exact Hf].
    - intros s x s' _ [Hs L] Hx. split; [by eapply apply_item_ok|]. etrans; [exact L|]. by eapply item_lives.
    - split; [exact Hok|reflexivity]. }
  etrans; [exact L|]. by eapply resolve_lives.
Qed.

Lemma close_lives job res detail tx now db n db' :
  close_without_effect job res detail tx now db = Ok (n, db') -> ledger_lives db db'.
Proof.
  unfold close_without_effect. intros H. destruct (job_open job db); [|discriminate]. simpl in H.
  apply rbind_ok in H as (db2 & Hres & [= <- <-]). etrans; [|eapply resolve_lives; exact Hres].
  eapply lives_where; [|done|done]. intros. lives.
Qed.

Lemma store_lives db id row row' db' :
  Db.invoices db !! id = Some row -> store_invoice id row' db = Ok db' -> row_lives row row' ->
  ledger_lives db db'.
Proof.
  unfold store_invoice. intros Hid H Hl. repeat case_match; inv_ok. by eapply lives_insert.
Qed.

Lemma bind_lives id session attempt b utc now db r db' :
  bind_payer_wallet id session attempt b utc now db = Ok (r, db') -> ledger_lives db db'.
Proof.
  unfold bind_payer_wallet. intros H. apply rbind_ok in H as (row & Hid%ok_or_ok & H).
  destruct (is_some (DbInvoice.payment_address row)) eqn:Hp; [inv_ok; reflexivity|].
  destruct (_ || _ || _); [inv_ok; reflexivity|].
  apply rbind_ok in H as (w & _ & H). apply rbind_ok in H as (db1 & Hst & H).
  destruct (negb _); [discriminate|]. destruct (is_some (Db.payer_verifications _ !! _)); [discriminate|]. injection H as <- <-.
  etrans; [eapply store_lives; [exact Hid|exact Hst|lives; congruence]|by apply lives_same].
Qed.

Lemma bind_network_lives id b utc now db r db' :
  bind_network id b utc now db = Ok (r, db') -> ledger_lives db db'.
Proof.
  unfold bind_network. intros H. apply rbind_ok in H as (row & Hid%ok_or_ok & H).
  destruct (is_some (DbInvoice.payment_address row)) eqn:Hp; simpl in H; [inv_ok; reflexivity|].
  destruct (_ && _); [|inv_ok; reflexivity]. apply rbind_ok in H as (db1 & Hst & [= <- <-]).
  eapply store_lives; [exact Hid|exact Hst|lives; congruence].
Qed.

Lemma issue_lives input a utc now db r db' :
  insert_issued hex input a utc now db = Ok (r, db') -> ledger_lives db db'.
Proof.
  unfold insert_issued. intros H. destruct (find_by_idempotency_key _ _ _); [inv_ok; reflexivity|].
  destruct (Db.invoices db !! CreateInvoiceInput.id input) eqn:Hnone; [discriminate|].
  repeat (destruct (negb _) in H; [discriminate|]). simpl in H.
  destruct (address_taken _ _ _); [discriminate|].
  apply rbind_ok in H as ([att db2] & Hatt & H).
  assert (Db.invoices db2 = <[CreateInvoiceInput.id input := issued_row input utc now]> (Db.invoices db) /\
    Db.recovered_funds db2 = Db.recovered_funds db) as [Hi Hf].
  { destruct a; [|inv_ok; done].
    destruct (Attachment.attach_in_transaction _ _ _ _ _) as [[? ?]|] eqn:E; [|discriminate].
    apply Attachment.attach_update in E. unfold Attachment.update_upload in E.
    repeat case_match; inv_ok; done. }
  injection H as <- <-.
  assert (ledger_lives db db2) as L.
  { split; [|by rewrite Hf]. intros id row Hrow. rewrite Hi, lookup_insert_ne by congruence. exists row. by split. }
  destruct (CreateInvoiceInput.payer_notification_email input); [|exact L].
  etrans; [exact L|by apply lives_same].
Qed.

Lemma noted_lives db db' : noted db db' -> ledger_lives db db'.
Proof.
  intros H. split; [|by rewrite (nt_recovered _ _ H)]. intros id row Hrow.
  destruct (noted_row_forth _ _ _ _ H Hrow) as (row' & Hr & f & v & u & -> & _). eexists. split; [done|]. lives.
Qed.

Lemma ledger_step_lives db db' : ledger_step db db' -> ledger_ok db -> ledger_lives db db'.
Proof.
  intros [] Hok; eauto using issue_lives, bind_lives, bind_network_lives, range_lives, claim_lives,
    flag_lives, finalized_lives, noted_lives, relay_step_noted, verification_step_noted; try by eapply close_lives.
  - eapply lives_where; [|done|done]. intros row. unfold unbound_overdue. intros Hu. bools. lives.
    destruct (DbInvoice.status row); simpl; lia || done.
  - unfold request_cancellation. destruct (Db.invoices db !! id) as [row|] eqn:Hid; [|reflexivity].
    destruct (_ =? account); [|reflexivity]. eapply lives_insert; [exact Hid| |done|done]. lives.
  - match goal with H : release_attention _ _ _ = _ |- _ => unfold release_attention in H end.
    destruct (Db.invoices db !! id) as [row|] eqn:Hid; [|discriminate].
    destruct (_ && _); [|discriminate]. inv_ok. eapply lives_insert; [exact Hid| |done|done]. lives.
  - by apply lives_same.
Qed.

Lemma ledger_steps_live db db' : rtc ledger_step db db' -> ledger_ok db -> ledger_lives db db'.
Proof.
  induction 1 as [|a b c Hs _ IH]; intros Hok; [reflexivity|].
  etrans; [by eapply ledger_step_lives|]. eauto using ledger_step_ok.
Qed.

(** C18. However a request's history goes on, its issued terms never
    change, its payment binding never changes once made, its status only moves
    forward (created, funded, expired, then settled or returned, which is never
    left), and no entry of the recovery ledger is lost or rewritten. *)
Theorem lifecycle_only_advances db0 db db' id row :
  no_requests db0 -> rtc ledger_step db0 db -> rtc ledger_step db db' ->
  Db.invoices db !! id = Some row ->
  Db.recovered_funds db ⊆ Db.recovered_funds db' /\
  exists row', Db.invoices db' !! id = Some row' /\
    DbInvoice.issuance row' = DbInvoice.issuance row /\
    (is_some (DbInvoice.payment_address row) = true -> DbInvoice.binding row' = DbInvoice.binding row) /\
    rank (DbInvoice.status row) <= rank (DbInvoice.status row').
Proof.
  intros H0 Hr0 Hr Hrow. pose proof (ledger_steps_ok _ _ Hr0 (no_requests_ok _ H0)) as Hok.
  destruct (ledger_steps_live _ _ Hr Hok) as [Hrows Hf]. split; [done|]. by apply Hrows.
Qed.

End Runs.

(** ** The example history is a run *)

Module RunExample.
Import LedgerExample.

Abbreviation run := (rtc (ledger_step hash parse hex)).

Lemma fresh_start : no_requests start.
Proof. by split. Qed.

Lemma run_issued : run start issued.
Proof.
  eapply rtc_once, (step_issue _ _ _ start (input 1 "order-1" address) None 1000 1000).
  vm_compute. reflexivity.
Qed.

Lemma run_paid : run start paid.
Proof.
  eapply rtc_r; [exact run_issued|].
  eapply (step_range _ _ _ issued chain None 110 block_hash 1900000000
    [transfer 60 0 100 1800000000; transfer 0 1 100 1800000000; transfer 50 2 105 1800000500] 2000).
  - by repeat constructor.
  - vm_compute. reflexivity.
Qed.

Lemma step_scheduled : ledger_step hash parse hex paid scheduled.
Proof.
  eapply (step_schedule _ _ _ paid chain SweepPolicy.default "gum-server" 50 51 52 3000).
  vm_compute. reflexivity.
Qed.

Lemma run_scheduled : run start scheduled.
Proof. eapply rtc_r; [exact run_paid|exact step_scheduled]. Qed.

Lemma step_swept : ledger_step hash parse hex scheduled swept.
Proof.
  eapply (step_finalized _ _ _ scheduled receipt SweepPolicy.default 4000). vm_compute. reflexivity.
Qed.

Lemma run_swept : run start swept.
Proof. eapply rtc_r; [exact run_scheduled|exact step_swept]. Qed.

Lemma ledger_balances_witness :
  DbInvoice.confirmed_received (row_of swept) = credited_of 1 (Db.payment_observations swept) /\
  DbInvoice.uncollected_count (row_of swept) = uncollected_of 1 (Db.payment_observations swept).
Proof.
  destruct (ledger_balances hash parse hex start swept 1 (row_of swept) fresh_start run_swept)
    as (H1 & H2 & _); [vm_compute; reflexivity|]. exact (conj H1 H2).
Defined.

Lemma sweep_membership_witness :
  DbInvoice.sweep_job_id (row_of scheduled) = Some 50 /\ job_open 50 scheduled = true.
Proof.
  split; [vm_compute; reflexivity|].
  exact (proj1 (sweep_membership hash parse hex start scheduled 1 (row_of scheduled) 50 fresh_start
    run_scheduled ltac:(vm_compute; reflexivity) ltac:(vm_compute; reflexivity))).
Defined.

Lemma lifecycle_only_advances_witness :
  Db.recovered_funds paid ⊆ Db.recovered_funds swept /\
  exists row', Db.invoices swept !! 1 = Some row' /\
    rank (DbInvoice.status (row_of paid)) <= rank (DbInvoice.status row').
Proof.
  destruct (lifecycle_only_advances hash parse hex start paid swept 1 (row_of paid) fresh_start run_paid)
    as (Hf & row' & Hr & _ & _ & Hk).
  - eapply rtc_l; [exact step_scheduled|]. apply rtc_once. exact step_swept.
  - vm_compute. reflexivity.
  - split; [exact Hf|]. exists row'. split; [exact Hr|exact Hk].
Defined.

End RunExample.

Definition terms_columns (row : DbInvoice.t) : Issuance.t * Binding.t := (DbInvoice.issuance row, DbInvoice.binding row).

Definition keeps_terms (db db' : Db.t) : Prop :=
  forall id, terms_columns <$> Db.invoices db' !! id = terms_columns <$> Db.invoices db !! id.

#[export] Instance keeps_terms_preorder : PreOrder keeps_terms.
Proof. split; [by intros db id|]. intros a b c H1 H2 id. by rewrite H2, H1. Qed.

Lemma same_invoices_keep db db' : Db.invoices db' = Db.invoices db -> keeps_terms db db'.
Proof. intros E id. by rewrite E. Qed.

(** The shapes of UPDATE. *)
Lemma insert_keeps id row row' db db' : Db.invoices db !! id = Some row -> terms_columns row' = terms_columns row ->
  Db.invoices db' = <[id := row']> (Db.invoices db) -> keeps_terms db db'.
Proof.
  intros Hrow E Hi k. rewrite Hi. destruct (decide (k = id)) as [->|Hne]; [|by rewrite lookup_insert_ne].
  by rewrite lookup_insert_eq, Hrow; cbn; rewrite E.
Qed.

Lemma where_keeps p f db db' : (forall row, terms_columns (f row) = terms_columns row) ->
  Db.invoices db' = update_where p f (Db.invoices db) -> keeps_terms db db'.
Proof.
  intros Hf Hi k. rewrite Hi, lookup_update_where. destruct (Db.invoices db !! k) as [row|]; [|done]. cbn. f_equal. by destruct (p row).
Qed.

Lemma alter_keeps id f db db' : (forall row, terms_columns (f row) = terms_columns row) ->
  Db.invoices db' = alter f id (Db.invoices db) -> keeps_terms db db'.
Proof.
  intros Hf Hi k. rewrite Hi. destruct (decide (k = id)) as [->|Hne]; [|by rewrite lookup_alter_ne].
  rewrite lookup_alter_eq. destruct (Db.invoices db !! id) as [row|]; [|done]. cbn. by rewrite Hf.
Qed.

Lemma noted_keeps db db' : noted db db' -> keeps_terms db db'.
Proof.
  intros [Hn _ _ _] id. specialize (Hn id).
  destruct (Db.invoices db !! id) as [row|], (Db.invoices db' !! id) as [row'|]; inversion Hn as [? ? Hr|]; [|done].
  by destruct Hr as (f & v & u & -> & _ & _).
Qed.

Lemma flag_keeps id reason now db : keeps_terms db (snd (flag_attention_in id reason now db)).
Proof.
  unfold flag_attention_in. destruct (Db.invoices db !! id) as [row|] eqn:Hid; [|reflexivity].
  destruct (is_some _); [reflexivity|]. cbn [snd].
  destruct (Db.accounts db !! _); (eapply insert_keeps; [exact Hid| |done]); done.
Qed.

Lemma range_keeps chain expected block hash ts obs now db r db' :
  Forall (fun o => 0 <= PaymentObservation.amount o) obs ->
  apply_finalized_range chain expected block hash ts obs now db = Ok (r, db') -> ledger_ok db -> keeps_terms db db'.
Proof.
  intros Hobs H Hok. unfold apply_finalized_range in H. apply rbind_ok in H as (cur & _ & H).
  case_bool_decide; [|injection H as <- <-; reflexivity].
  destruct (range_body_parts _ _ _ _ _ _ _ _ _ H Hobs Hok) as (credits & table & db1 & Hl & Hi & _ & _ & _ & Hi' & _).
  trans db1; [|by eapply where_keeps; [|exact Hi']]. intros id. destruct (Db.invoices db1 !! id) as [row'|] eqn:Hr; rewrite Hi in Hr.
  - destruct (apply_credits_lookup _ _ _ _ _ _ Hl Hr) as [(addr & c & r0 & Hc & <- & Hfit & ->)|[Hr0 _]]; [|by rewrite Hr0].
    rewrite (cf_row _ _ _ _ _ Hfit). destruct (row_after_fields now c r0) as (E1 & E2 & _). cbn. unfold terms_columns. by rewrite E1, E2.
  - by rewrite (apply_credits_total _ _ _ _ _ Hl Hr).
Qed.

Lemma schedule_keeps hash parse chain policy producer job corr msg now db r db' :
  schedule_sweep_job hash parse chain policy producer job corr msg now db = Ok (r, db') -> keeps_terms db db'.
Proof.
  unfold schedule_sweep_job. intros H. destruct (halted _ db); [injection H as <- <-; reflexivity|].
  destruct (is_some _); [discriminate|]. apply rbind_ok in H as (rows & _ & H).
  destruct rows as [|r0 rows0]; [injection H as <- <-; reflexivity|]. remember (r0 :: rows0) as rows eqn:Er; clear Er.
  apply rbind_ok in H as (items & _ & H). destruct (publish _ _ _ _ _ _ _ _) as [[? ?]|]; [|discriminate].
  injection H as <- <-. intros id. simpl. rewrite claim_rows_lookup. case_bool_decide; [|done]. by destruct (Db.invoices db !! id).
Qed.

Lemma drain_keeps receipt row d now db db' : apply_drain receipt row d now db = Ok db' -> keeps_terms db db'.
Proof.
  unfold apply_drain. intros H. destruct (negb (positions_allowed _ _)); [discriminate|].
  destruct (_ && negb (bool_decide _)); [discriminate|]. injection H as <-.
  match goal with |- keeps_terms db (match _ with Some _ => snd (flag_attention_in _ _ _ ?m) | _ => _ end) =>
    assert (keeps_terms db m) as L by (eapply alter_keeps; [|reflexivity]; reflexivity) end.
  destruct (Drain.attention d); [|exact L]. etrans; [exact L|apply flag_keeps].
Qed.

Lemma item_keeps receipt policy now s item s' : apply_item receipt policy now s item = Ok s' -> keeps_terms (snd s) (snd s').
Proof.
  destruct s as [applied db]. unfold apply_item. intros H. simpl in *. apply rbind_ok in H as (row & _ & H).
  destruct (bool_decide _); [|discriminate]. simpl in H. apply rbind_ok in H as ([applied' db'] & Hdec & [= <-]). simpl.
  trans db'; [|by apply same_invoices_keep].
  assert (forall id, keeps_terms db (requeue id now db)) as Hq by (intros id; eapply alter_keeps; [|reflexivity]; reflexivity).
  destruct (decide_item _ _ _ _) as [dr| |reason].
  - apply rbind_ok in Hdec as (db1 & Hdr & [= <- <-]). by eapply drain_keeps.
  - by injection Hdec as <- <-.
  - injection Hdec as <- <-. etrans; [apply Hq|apply flag_keeps].
Qed.

Lemma resolve_keeps job res detail tx now db db' : resolve_job job res detail tx now db = Ok db' -> keeps_terms db db'.
Proof. unfold resolve_job. intros H. repeat case_match; inv_ok. by apply same_invoices_keep. Qed.

Lemma finalized_keeps receipt policy now db r db' : apply_sweep_finalized receipt policy now db = Ok (r, db') -> keeps_terms db db'.
Proof.
  unfold apply_sweep_finalized. intros H. destruct (job_open _ db); [|discriminate]. simpl in H.
  apply rbind_ok in H as ([applied db1] & Hf & H). destruct (negb (_ =? 0)); [discriminate|].
  apply rbind_ok in H as (db2 & Hres & [= <- <-]). trans db1; [|by eapply resolve_keeps]. change db1 with (snd (applied, db1)).
  eapply (try_fold_ind _ (fun s => keeps_terms db (snd s))); [| |exact Hf]; [|reflexivity].
  intros s x s' _ L Hx. etrans; [exact L|]. by eapply item_keeps.
Qed.

Lemma close_keeps job res detail tx now db n db' : close_without_effect job res detail tx now db = Ok (n, db') -> keeps_terms db db'.
Proof.
  unfold close_without_effect. intros H. destruct (job_open job db); [|discriminate]. simpl in H.
  apply rbind_ok in H as (db2 & Hres & [= <- <-]). etrans; [|eapply resolve_keeps; exact Hres].
  eapply where_keeps; [|reflexivity]; reflexivity.
Qed.

(** A transaction of the ledger either writes a request's terms or its address,
    or keeps those of all. *)
Lemma other_steps_keep hash parse hex db db' : ledger_step hash parse hex db db' -> ledger_ok db ->
  keeps_terms db db' \/
  (exists input a utc now r, insert_issued hex input a utc now db = Ok (r, db')) \/
  (exists id session attempt b utc now r, bind_payer_wallet id session attempt b utc now db = Ok (r, db')) \/
  (exists id b utc now r, bind_network id b utc now db = Ok (r, db')).
Proof.
  intros [] Hok.
  - right; left. by do 5 eexists.
  - right; right; left. by do 7 eexists.
  - right; right; right. by do 5 eexists.
  - left. eapply where_keeps; [|reflexivity]; reflexivity.
  - left. unfold request_cancellation. destruct (Db.invoices db !! id) as [row|] eqn:Hid; [|reflexivity].
    destruct (_ =? _); [|reflexivity]. eapply insert_keeps; [exact Hid| |reflexivity]. done.
  - left. unfold release_attention in *. destruct (Db.invoices db !! id) as [row|] eqn:Hid; [|done].
    destruct (_ && _); [|done]. inv_ok. eapply insert_keeps; [exact Hid| |reflexivity]. done.
  - left. by eapply range_keeps.
  - left. by eapply schedule_keeps.
  - left. apply flag_keeps.
  - left. by apply same_invoices_keep.
  - left. by eapply finalized_keeps.
  - left. by eapply close_keeps.
  - left. by eapply close_keeps.
  - left. by apply noted_keeps, relay_step_noted.
  - left. by apply noted_keeps, verification_step_noted.
Qed.
