(* ===== verification/IssuedProofs.v ===== *)
(** * The proof the server issues verifies

    The whole path of a request, from [Invoice::issue] through the binding of
    its address, the row it is stored in, the transfers credited to it and the
    document [get_proof] assembles, ends in a proof that offline verification
    accepts ([issued_proof_verifies]). *)

From stdpp Require Import sorting pretty.
From S2P Require Import Prelude Core Contracts Bus Tables Attachments Invoices Attribution Range Sweeps.
From S2P Require Import RelayIntents Verifications Proof ProofApi LedgerInv LedgerRuns ProofExample ProofTheorems.

Section Issued.
Context `{P : Primitives} `{!Lawful P}.
Context (jcs_payload : AttestationPayload.t -> option bytes) (rfc3339 : Timestamp -> string)
        (invoice_id_string : Uuid -> string).

(** ** Issuance *)

(** What the stored snapshot commits to, read back. *)
Record committed (i : Invoice.t) (recovery : Address) : Prop := {
  co_schema : Snapshot.schema (Invoice.issuance_snapshot i) = SNAPSHOT_SCHEMA;
  co_canonicalization : Snapshot.canonicalization (Invoice.issuance_snapshot i) = CANONICALIZATION;
  co_hash : exists canonical, jcs_snapshot (Invoice.issuance_snapshot i) = Some canonical /\
    Invoice.attribution_hash i = attribution_hash canonical;
  co_networks : typed_networks (Invoice.issuance_snapshot i) = Some (Invoice.networks i);
  co_receiver : parse_address (Snapshot.receiver_address (Invoice.issuance_snapshot i)) = Some (Invoice.beneficiary i);
  co_recovery : parse_address (Snapshot.recovery_address (Invoice.issuance_snapshot i)) = Some recovery;
  co_amount : parse_u256 (Snapshot.amount_base_units (Invoice.issuance_snapshot i)) = Some (Invoice.amount i);
  co_expiration :
    parse_u64 (Snapshot.expiration_timestamp (Invoice.issuance_snapshot i)) = Some (Invoice.expiration_timestamp i);
}.

Lemma check_fields_ok checks : check_fields checks = Ok tt <-> Forall (fun c => snd c = true) checks.
Proof.
  induction checks as [|[f m] rest IH]; simpl; [by split|]. rewrite list.Forall_cons, <- IH. destruct m; simpl; naive_solver.
Qed.

Lemma issue_committed id nonce currency networks beneficiary recovery amount expiration snapshot i :
  issue id nonce currency networks beneficiary recovery amount expiration snapshot = Ok i ->
  octets 20 beneficiary -> octets 20 recovery -> 0 <= amount <= u256_max -> 0 <= expiration <= u64_max ->
  committed i recovery /\ Invoice.issuance_nonce i = nonce /\ Invoice.amount i = amount.
Proof.
  unfold issue. cbv zeta. intros ([] & Hf%check_fields_ok & H)%rbind_ok Hb Hr Ha He. peel H.
  apply rbind_ok in H as (material & Hm & H). peel H. injection H as <-.
  unfold issue_checks in Hf. repeat (apply list.Forall_cons in Hf as [? Hf]). clear Hf. cbn [snd] in *.
  unfold derive_attribution, canonical_bytes in Hm. peel Hm. injection Hm as <-.
  repeat match goal with H : String.eqb _ _ = true |- _ => apply String.eqb_eq in H end. bools.
  split; [|done]. split; cbn in *; try done.
  - by eexists.
  - unfold typed_networks, snapshot_networks in *. congruence.
  - match goal with H : Snapshot.receiver_address _ = _ |- _ => rewrite H end. by apply address_roundtrip.
  - match goal with H : Snapshot.recovery_address _ = _ |- _ => rewrite H end. by apply address_roundtrip.
  - match goal with H : Snapshot.amount_base_units _ = _ |- _ => rewrite H end. by apply u256_roundtrip.
  - match goal with H : Snapshot.expiration_timestamp _ = _ |- _ => rewrite H end. by apply parse_u64_pretty.
Qed.

Lemma issue_snapshot id nonce currency networks beneficiary recovery amount expiration snapshot i :
  issue id nonce currency networks beneficiary recovery amount expiration snapshot = Ok i ->
  Invoice.issuance_snapshot i = snapshot.
Proof.
  unfold issue. cbv zeta. intros ([] & _ & H)%rbind_ok. peel H. apply rbind_ok in H as (? & _ & H). peel H. by injection H as <-.
Qed.

(** ** Binding *)

(** The address is allotted to the network alone, or to an attested wallet. *)
Definition bind_request (i : Invoice.t) (chain_id : Z) (a : option PayerWalletAttestation.t) (at_ : Timestamp)
  : result BindError PaymentBinding.t :=
  match a with
  | None => bind_to_network i chain_id at_
  | Some a => bind_to_wallet i chain_id a at_
  end.

Record bound (i : Invoice.t) (b : PaymentBinding.t) (a : option PayerWalletAttestation.t)
    (attested : option VerifiedPayerAttestation.t) : Prop := {
  bo_network : network_for i (NetworkTerms.chain_id (PaymentBinding.network b)) = Some (PaymentBinding.network b);
  bo_recovery : recovery i = Some (PaymentBinding.recovery b);
  bo_salt : PaymentBinding.salt b = recompute_salt (Invoice.issuance_nonce i) (Invoice.attribution_hash i)
    (VerifiedPayerAttestation.digest <$> attested);
  bo_address : PaymentBinding.payment_address b =
    address_of i (PaymentBinding.network b) (PaymentBinding.recovery b) (PaymentBinding.salt b);
  bo_required : wallet_attestation_required i = is_some attested;
  bo_verified : option_Forall2 (fun a v => verify_payer_attestation a
    (PayerAttestationScope.mk (NetworkTerms.chain_id (PaymentBinding.network b))
       (NetworkTerms.factory (PaymentBinding.network b)) (Invoice.attribution_hash i)) = Ok v) a attested;
  bo_wallet : (fun w => (WalletEvidence.payer_wallet w, WalletEvidence.attestation w)) <$> PaymentBinding.wallet b =
    a ≫= fun a => attested ≫= fun v => Some (VerifiedPayerAttestation.wallet v, attestation_to_json a);
}.

Lemma network_for_chain i chain n : network_for i chain = Some n -> NetworkTerms.chain_id n = chain.
Proof. unfold network_for. by intros [_ H%Z.eqb_eq]%List.find_some. Qed.

Lemma bind_request_bound i chain a at_ b : bind_request i chain a at_ = Ok b -> exists attested, bound i b a attested.
Proof.
  destruct a as [a|]; simpl; unfold bind_to_wallet, bind_to_network.
  - destruct (wallet_attestation_required i) eqn:Hq; simpl; [|done]. intros H. peel H.
    pose proof (network_for_chain _ _ _ ltac:(eassumption)) as <-. unfold attestation_scope in *.
    match goal with H : _ <$> ?o = Some _, H' : ?o = Some _ |- _ => pose proof H' as Hn; rewrite H' in H; injection H as <- end.
    destruct (verify_payer_attestation _ _) as [v|] eqn:Hv; simpl in H; [|done]. peel H. injection H as <-.
    exists (Some v). split; cbn; try done. by constructor.
  - destruct (wallet_attestation_required i) eqn:Hq; simpl; [done|]. intros H. peel H. injection H as <-.
    pose proof (network_for_chain _ _ _ ltac:(eassumption)) as <-.
    exists None. split; cbn; try done. constructor.
Qed.

(** What an accepted wallet attestation pins down. *)
Lemma verify_payer_attestation_pins a scope v : verify_payer_attestation a scope = Ok v ->
  octets 20 (VerifiedPayerAttestation.wallet v) /\ octets 32 (VerifiedPayerAttestation.digest v) /\
  parse_word (PayerAttestationMessage.nonce (PayerAttestationTypedData.message (PayerWalletAttestation.typed_data a)))
    = Some (VerifiedPayerAttestation.nonce v).
Proof.
  unfold verify_payer_attestation. cbv zeta. intros H. peel H. injection H as <-. simpl.
  split; [by eapply parse_address_octets|split; [apply digest_word|done]].
Qed.

Lemma parse_u64_range s n : parse_u64 s = Some n -> 0 <= n <= u64_max.
Proof.
  unfold parse_u64. destruct s as [|c s]; [done|]. destruct (Ascii.eqb c plus_sign); [destruct s; [done|]|];
    by apply parse_digits_range.
Qed.

(** The networks a snapshot names have well-formed terms. *)
Lemma typed_network_terms l : forall ns n, collect_options (network_terms parse_address) l = Some ns -> n ∈ ns ->
  0 <= NetworkTerms.chain_id n <= u64_max /\ octets 20 (NetworkTerms.token n) /\ octets 20 (NetworkTerms.factory n).
Proof.
  induction l as [|x l IH]; simpl; intros ns n H Hn; [injection H as <-; by apply list.not_elem_of_nil in Hn|].
  destruct (network_terms parse_address x) as [y|] eqn:Hy; [|done]. case_match; [|done]. injection H as <-.
  apply list.elem_of_cons in Hn as [->|Hn]; [|by eapply IH]. unfold network_terms in Hy.
  destruct (parse_u64 _) eqn:H1; [|done]. destruct (parse_address (SnapshotNetwork.token_address x)) eqn:H2; [|done].
  destruct (parse_address (SnapshotNetwork.factory_address x)) eqn:H3; [|done]. injection Hy as <-.
  split; [by eapply parse_u64_range|split; by eapply parse_address_octets].
Qed.

Lemma bound_network_terms i r b a attested : committed i r -> bound i b a attested ->
  let n := PaymentBinding.network b in
  0 <= NetworkTerms.chain_id n <= u64_max /\ octets 20 (NetworkTerms.token n) /\ octets 20 (NetworkTerms.factory n).
Proof.
  intros Hc Hb n. pose proof (co_networks _ _ Hc) as Hn. pose proof (bo_network _ _ _ _ Hb) as Hf. unfold network_for in Hf.
  apply List.find_some in Hf as [Hin _]. eapply typed_network_terms; [exact Hn|by apply list_elem_of_In].
Qed.

Lemma predicted_octets f t n rc e r s c : octets 20 (predict_payment_address f t n rc e r s c).
Proof.
  unfold predict_payment_address, hash_address. cbv zeta. destruct (keccak_word ([214; 148] ++
    drop 12 (keccak256 ([255] ++ f ++ keccak256 (abi_encode_terms (DeploymentTerms.mk t n rc e r s c)) ++ PROXY_INITCODE_HASH))
    ++ [1])) as [Hl Hb]. split; [by rewrite list.length_drop, Hl|by apply list.Forall_drop].
Qed.

Lemma committed_recovery i r b a attested : committed i r -> bound i b a attested -> PaymentBinding.recovery b = r.
Proof.
  intros Hc Hb. pose proof (bo_recovery _ _ _ _ Hb) as H. unfold recovery in H. rewrite (co_recovery _ _ Hc) in H. congruence.
Qed.

(** ** The credited transfers *)

(** The columns of a relayed payment's intent. *)
Record intent_columns (r : RelayIntent.t) : Prop := {
  ic_request : octets 32 (RelayIntent.request_id r);
  ic_chain : 0 <= RelayIntent.origin_chain_id r <= u64_max;
  ic_origin : forall h, RelayIntent.verified_origin_tx_hash r = Some h -> octets 32 h;
  ic_wallet : octets 20 (RelayIntent.payer_wallet r);
  (* the table's CHECK on how a fill was verified *)
  ic_verified : verified_fill r = true;
}.

Lemma verified_source r s : verified_fill r = true -> RelayIntent.attribution_source r = Some s -> s = "receipt"%string.
Proof. unfold verified_fill. intros H E. rewrite E in H. destruct (bool_decide _); bools; [congruence|done]. Qed.

(** A credited transfer is of the binding's token on its chain, to its address. *)
Record creditable (db : Db.t) (b : PaymentBinding.t) (kv : ObservationKey * Observation.t) : Prop := {
  cr_key : exists tx log, fst kv =
    (NetworkTerms.chain_id (PaymentBinding.network b), NetworkTerms.token (PaymentBinding.network b), tx, log) /\
    octets 32 tx /\ 0 <= log <= u64_max;
  cr_sender : octets 20 (Observation.sender_address (snd kv));
  cr_recipient : Observation.recipient_address (snd kv) = PaymentBinding.payment_address b;
  cr_block : 0 <= Observation.block_number (snd kv) <= u64_max;
  cr_amount : 0 <= Observation.amount (snd kv) <= u256_max;
  cr_relay : forall r, joined_intent db (snd kv) = Some r -> intent_columns r;
}.

Lemma fixed_bytes_octets n b : octets n b -> fixed_bytes n b = Some b.
Proof. intros [Hl _]. unfold fixed_bytes. by rewrite Hl, Nat.eqb_refl. Qed.

Lemma relay_of_ok db b kv relay :
  creditable db b kv -> relay_of (settlement_transfer db kv) = Ok (Some relay) ->
  is_Some (parse_word (RelayAttribution.request_id relay)) /\
  is_Some (parse_word (RelayAttribution.origin_transaction_hash relay)) /\
  is_Some (parse_u64 (RelayAttribution.origin_chain_id relay)) /\
  (exists w, octets 20 w /\ RelayAttribution.origin_sender relay = to_checksum w) /\
  RelayAttribution.attribution_source relay = "receipt"%string.
Proof.
  intros Hcr. destruct kv as [[[[c t] tx] log] o]. unfold relay_of, settlement_transfer. cbn.
  destruct (joined_intent db o) as [r|] eqn:Hj; cbn; [|done]. destruct (cr_relay _ _ _ Hcr r Hj) as [H1 H2 H3 H4 H5].
  destruct (RelayIntent.verified_origin_tx_hash r) as [h|]; cbn; [|done].
  destruct (RelayIntent.attribution_source r) as [source|] eqn:Es; cbn; [|done]. specialize (H3 h eq_refl). pose proof (verified_source r source H5 Es) as ->.
  unfold internal. rewrite !fixed_bytes_octets by done. cbn. intros [= <-]. cbn.
  rewrite !word_roundtrip, parse_u64_pretty by done. split_and!; [by eexists..|by eauto|done].
Qed.

Lemma proof_transfer_fields db b kv t :
  creditable db b kv -> proof_transfer (settlement_transfer db kv) = Ok t ->
  relay_of (settlement_transfer db kv) = Ok (ProofTransfer.relay t) /\
  ProofTransfer.transaction_hash t = word_string (snd (fst (fst kv))) /\
  ProofTransfer.log_index t = pretty (snd (fst kv)) /\
  ProofTransfer.sender t = to_checksum (Observation.sender_address (snd kv)) /\
  ProofTransfer.recipient t = to_checksum (Observation.recipient_address (snd kv)) /\
  ProofTransfer.amount_base_units t = pretty (Observation.amount (snd kv)) /\
  ProofTransfer.block_number t = pretty (Observation.block_number (snd kv)).
Proof.
  intros Hcr. unfold proof_transfer. intros (relay & Hr & H)%rbind_ok. unfold internal in H. peel H. injection H as <-.
  destruct kv as [[[[c t'] tx] log] o]. cbn in *.
  repeat match goal with H : fixed_bytes _ _ = Some _ |- _ => unfold fixed_bytes in H; case_match; [|done]; injection H as <- end.
  by split_and!.
Qed.

(** The scope's rule on senders, and what the payload then vouches for. *)
Definition attributable (p : AttestationPayload.t) (attested : option VerifiedPayerAttestation.t) (t : ProofTransfer.t) : Prop :=
  forall v, attested = Some v -> octets 20 (VerifiedPayerAttestation.wallet v) /\
    foreign (to_checksum (VerifiedPayerAttestation.wallet v)) t = false /\
    forall relay, ProofTransfer.relay t = Some relay ->
      ProofTransfer.sender t <> to_checksum (VerifiedPayerAttestation.wallet v) -> vouched p t relay = true.

Lemma checksum_inj a a' : octets 20 a -> octets 20 a' -> to_checksum a = to_checksum a' -> a = a'.
Proof. intros H H' E. pose proof (address_roundtrip a H) as R. rewrite E, address_roundtrip in R by done. congruence. Qed.

Lemma credited_origin db scope b kv t p attested :
  creditable db b kv -> proof_transfer (settlement_transfer db kv) = Ok t ->
  scope = (if is_some attested then WalletAttributed else Settlement) -> attributable p attested t ->
  match attested with
  | Some v => from_wallet p (VerifiedPayerAttestation.wallet v) t
  | None => provenance_shaped t
  end.
Proof.
  intros Hcr Ht Hsc Hat. destruct (proof_transfer_fields _ _ _ _ Hcr Ht) as (Hr & _ & _ & Hs & _).
  destruct attested as [v|]; simpl in Hsc; subst scope.
  - destruct (Hat v eq_refl) as (Hw & Hf & Hv). unfold from_wallet. pose proof (cr_sender _ _ _ Hcr) as Hso.
    unfold foreign in Hf. destruct (String.eqb_spec (ProofTransfer.sender t) (to_checksum (VerifiedPayerAttestation.wallet v))) as [E|E].
    + left. rewrite E. by apply address_roundtrip.
    + right. split; [rewrite Hs, address_roundtrip by done; by eexists|]. simpl in Hf.
      destruct (ProofTransfer.relay t) as [relay|]; [|done]. exists relay. split; [done|].
      destruct (relay_of_ok _ _ _ _ Hcr Hr) as (H1 & H2 & H3 & (w & Hw' & Hw2) & H5).
      apply negb_false_iff, String.eqb_eq in Hf. split_and!; try done; [|by apply Hv].
      rewrite Hf. by apply address_roundtrip.
  - intros relay Hrel. rewrite Hrel in Hr. destruct (relay_of_ok _ _ _ _ Hcr Hr) as (H1 & H2 & H3 & (w & Hw & E) & H5).
    split_and!; try done; [rewrite E, address_roundtrip by done; by eexists|by rewrite H5].
Qed.

(** The event of an observation. *)
Definition event_of (kv : ObservationKey * Observation.t) : B256 * Z * Z :=
  (snd (fst (fst kv)), snd (fst kv), Observation.amount (snd kv)).

Lemma credited_pays db scope b kv t p attested :
  creditable db b kv -> proof_transfer (settlement_transfer db kv) = Ok t ->
  scope = (if is_some attested then WalletAttributed else Settlement) -> attributable p attested t ->
  octets 20 (PaymentBinding.payment_address b) ->
  pays p attested (PaymentBinding.payment_address b) t (event_of kv).
Proof.
  intros Hcr Ht Hsc Hat Hb. pose proof (credited_origin _ _ _ _ _ _ _ Hcr Ht Hsc Hat) as Ho.
  destruct (proof_transfer_fields _ _ _ _ Hcr Ht) as (_ & H1 & H2 & H3 & H4 & H5 & H6).
  destruct (cr_key _ _ _ Hcr) as (tx & log & Hk & Htx & Hlog). pose proof (cr_recipient _ _ _ Hcr) as Hr.
  pose proof (cr_amount _ _ _ Hcr) as Ha. pose proof (cr_block _ _ _ Hcr) as Hbl. clear Hcr Ht.
  destruct kv as [k o]. cbn in *. subst k. cbn in *.
  split; cbn; [rewrite H1; by apply word_roundtrip|rewrite H2; by apply parse_u64_pretty
    |rewrite H5; by apply u256_roundtrip
    |rewrite H4, Hr; by apply address_roundtrip
    |rewrite H6, parse_u64_pretty by done; by eexists|exact Ho].
Qed.

(** ** Their total *)

Definition list_total (l : list Z) : Z := foldr Z.add 0 l.

Lemma list_total_perm l l' : l ≡ₚ l' -> list_total l = list_total l'.
Proof. unfold list_total. induction 1; simpl; lia. Qed.

Lemma distinct_total_nodup events : forall seen,
  NoDup (fst <$> events) -> (forall e, e ∈ events -> fst e ∉ seen) -> distinct_total seen events = list_total (snd <$> events).
Proof.
  induction events as [|[key amount] rest IH]; intros seen Hnd Hdj; [done|]. cbn. apply list.NoDup_cons in Hnd as [Hk Hnd].
  rewrite bool_decide_false by (apply (Hdj (key, amount)), list_elem_of_here). unfold list_total in *. cbn. f_equal.
  apply IH; [done|]. intros e He [E|E]%list.elem_of_cons; [|by apply (Hdj e); [by apply list_elem_of_further|]].
  apply Hk. rewrite <- E. exact (list.list_elem_of_fmap_2 fst _ _ He).
Qed.

Definition credited_rows (id : Uuid) (db : Db.t) : list (ObservationKey * Observation.t) :=
  merge_sort chain_order (List.filter (fun kv => of_invoice id (snd kv) && Observation.is_credited (snd kv))
    (map_to_list (Db.payment_observations db))).

Lemma credited_rows_total id db :
  list_total (snd <$> (event_of <$> credited_rows id db)) = credited_of id (Db.payment_observations db).
Proof.
  unfold credited_rows. rewrite (list_total_perm _ (snd <$> (event_of <$> List.filter
    (fun kv => of_invoice id (snd kv) && Observation.is_credited (snd kv)) (map_to_list (Db.payment_observations db)))))
    by (by rewrite merge_sort_Permutation).
  unfold credited_of, map_sum. rewrite map_fold_foldr. generalize (map_to_list (Db.payment_observations db)). intros l.
  induction l as [|[k o] l IH]; [done|]. cbn [List.filter foldr uncurry snd].
  destruct (of_invoice id o && Observation.is_credited o); cbn; unfold list_total in *; rewrite <- IH; cbn; lia.
Qed.

Lemma credited_rows_elem id db kv : kv ∈ credited_rows id db <->
  Db.payment_observations db !! (fst kv) = Some (snd kv) /\ of_invoice id (snd kv) && Observation.is_credited (snd kv) = true.
Proof.
  unfold credited_rows. rewrite merge_sort_Permutation, list_elem_of_In, filter_In, <- list_elem_of_In.
  destruct kv as [k o]. by rewrite elem_of_map_to_list.
Qed.

Lemma nodup_filter {A B} (f : A * B -> bool) l : NoDup (fst <$> l) -> NoDup (fst <$> List.filter f l).
Proof.
  induction l as [|x l IH]; cbn; [done|]. intros [Hx Hl]%list.NoDup_cons. destruct (f x); [|by apply IH].
  cbn. constructor; [|by apply IH]. intros (y & E & Hy)%list.list_elem_of_fmap. apply Hx. rewrite E.
  apply list.list_elem_of_fmap_2. apply list_elem_of_In in Hy. apply filter_In in Hy as [Hy _]. by apply list_elem_of_In.
Qed.

(** One chain and one token: the events of different rows are different. *)
Lemma credited_rows_nodup id db b :
  (forall kv, kv ∈ credited_rows id db -> creditable db b kv) ->
  NoDup (fst <$> (event_of <$> credited_rows id db)).
Proof.
  intros Hall. assert (NoDup (fst <$> credited_rows id db)) as Hnd.
  { unfold credited_rows. rewrite merge_sort_Permutation.
    apply nodup_filter, NoDup_fst_map_to_list. }
  revert Hnd Hall. generalize (credited_rows id db). intros l. induction l as [|kv l IH]; cbn; intros Hnd Hall; [constructor|].
  apply list.NoDup_cons in Hnd as [Hk Hnd].
  constructor; [|apply IH; [done|]; intros; apply Hall; by apply list_elem_of_further].
  intros (e & He & (kv' & -> & Hkv')%list.list_elem_of_fmap)%list.list_elem_of_fmap. apply Hk.
  destruct (cr_key _ _ _ (Hall kv (list_elem_of_here _ _))) as (tx & log & E & _).
  destruct (cr_key _ _ _ (Hall kv' (list_elem_of_further _ _ _ Hkv'))) as (tx' & log' & E' & _).
  apply list.list_elem_of_fmap. exists kv'. split; [|done]. unfold event_of in He. rewrite E, E' in *. cbn in He. congruence.
Qed.

(** ** The stored request *)

(** The row holds the request's commitments and its binding; the clock that
    stored the binding is its own. *)
Record restored (i : Invoice.t) (b : PaymentBinding.t) (i' : Invoice.t) (b' : PaymentBinding.t) : Prop := {
  re_snapshot : Invoice.issuance_snapshot i' = Invoice.issuance_snapshot i;
  re_hash : Invoice.attribution_hash i' = Invoice.attribution_hash i;
  re_nonce : Invoice.issuance_nonce i' = Invoice.issuance_nonce i;
  re_binding : Invoice.binding i' = Some b';
  re_network : PaymentBinding.network b' = PaymentBinding.network b;
  re_recovery : PaymentBinding.recovery b' = PaymentBinding.recovery b;
  re_salt : PaymentBinding.salt b' = PaymentBinding.salt b;
  re_address : PaymentBinding.payment_address b' = PaymentBinding.payment_address b;
  re_wallet : (fun w => (WalletEvidence.payer_wallet w, WalletEvidence.attestation w)) <$> PaymentBinding.wallet b' =
    (fun w => (WalletEvidence.payer_wallet w, WalletEvidence.attestation w)) <$> PaymentBinding.wallet b;
}.

Section Document.
Context (i i' : Invoice.t) (r : Address) (b b' : PaymentBinding.t) (a : option PayerWalletAttestation.t)
        (attested : option VerifiedPayerAttestation.t).
Context (Hc : committed i r) (Hb : bound i b a attested) (Hr : restored i b i' b')
        (Hnonce : octets 32 (Invoice.issuance_nonce i))
        (Hjson : forall a0, a = Some a0 -> attestation_from_json (attestation_to_json a0) = Some a0).

Lemma hash_octets : octets 32 (Invoice.attribution_hash i).
Proof. destruct (co_hash _ _ Hc) as (c & _ & ->). apply keccak_word. Qed.

Lemma address_octets : octets 20 (PaymentBinding.payment_address b).
Proof. rewrite (bo_address _ _ _ _ Hb). apply predicted_octets. Qed.

Lemma scope_required :
  (if wallet_attestation_required i' then WalletAttributed else Settlement) =
    required_scope (Invoice.issuance_snapshot i') /\
  required_scope (Invoice.issuance_snapshot i') = if is_some attested then WalletAttributed else Settlement.
Proof.
  unfold required_scope, wallet_attestation_required. split; [done|]. rewrite (re_snapshot _ _ _ _ Hr).
  pose proof (bo_required _ _ _ _ Hb) as H. unfold wallet_attestation_required in H. by rewrite H.
Qed.

(** The wallet the row names is the attested one, with its attestation. *)
Lemma stored_wallet :
  stored_attestation (PaymentBinding.wallet b') = Ok a /\
  (fun w => to_checksum (WalletEvidence.payer_wallet w)) <$> PaymentBinding.wallet b' =
    (fun v => to_checksum (VerifiedPayerAttestation.wallet v)) <$> attested.
Proof.
  pose proof (re_wallet _ _ _ _ Hr) as Hw. rewrite (bo_wallet _ _ _ _ Hb) in Hw.
  pose proof (bo_verified _ _ _ _ Hb) as Hv.
  destruct Hv as [a0 v Hv|]; destruct (PaymentBinding.wallet b') as [w|]; try done; cbn in *.
  injection Hw as Hw1 Hw2. unfold internal. rewrite Hw2, (Hjson a0 eq_refl), Hw1. done.
Qed.

Lemma proof_document settlement transfers verification :
  document (proof_of invoice_id_string i' b' (required_scope (Invoice.issuance_snapshot i')) a settlement transfers verification)
    (Invoice.attribution_hash i) (Invoice.issuance_nonce i) (NetworkTerms.chain_id (PaymentBinding.network b))
    (PaymentBinding.network b) attested.
Proof.
  destruct (bound_network_terms _ _ _ _ _ Hc Hb) as (Hch & Ht & Hf).
  split; cbn; rewrite ?(re_snapshot _ _ _ _ Hr), ?(re_hash _ _ _ _ Hr), ?(re_nonce _ _ _ _ Hr), ?(re_network _ _ _ _ Hr),
    ?(re_salt _ _ _ _ Hr); try done.
  - by split; [|apply (co_canonicalization _ _ Hc)].
  - apply (co_schema _ _ Hc).
  - apply (co_hash _ _ Hc).
  - apply word_roundtrip, hash_octets.
  - by apply word_roundtrip.
  - by apply parse_u64_pretty.
  - exists (Invoice.networks i). split; [apply (co_networks _ _ Hc)|apply (bo_network _ _ _ _ Hb)].
  - by apply address_roundtrip.
  - by apply address_roundtrip.
  - rewrite <- (re_snapshot _ _ _ _ Hr). rewrite (proj2 scope_required). unfold wallet_attested.
    destruct (bo_verified _ _ _ _ Hb) as [a0 v Hv|]; cbn; [|done]. by exists a0, v.
  - rewrite (bo_salt _ _ _ _ Hb). apply word_roundtrip, keccak_word.
Qed.

Lemma proof_derives settlement transfers verification :
  derives (proof_of invoice_id_string i' b' (required_scope (Invoice.issuance_snapshot i')) a settlement transfers verification)
    (PaymentBinding.network b) (PaymentBinding.salt b) (PaymentBinding.payment_address b) (Invoice.amount i).
Proof.
  split; cbn; rewrite ?(re_snapshot _ _ _ _ Hr), ?(re_recovery _ _ _ _ Hr), ?(re_address _ _ _ _ Hr).
  - pose proof (committed_recovery _ _ _ _ _ Hc Hb) as E.
    exists (PaymentBinding.recovery b), (Invoice.beneficiary i), (Invoice.expiration_timestamp i).
    rewrite E. rewrite (address_roundtrip r) by (eapply parse_address_octets, (co_recovery _ _ Hc)).
    split_and!; [done|apply (co_recovery _ _ Hc)|apply (co_receiver _ _ Hc)|apply (co_expiration _ _ Hc)|].
    rewrite (bo_address _ _ _ _ Hb), E. done.
  - apply (co_amount _ _ Hc).
  - apply address_roundtrip, address_octets.
Qed.

Lemma outcome_passed row :
  (is_gated (Snapshot.payer_verification (Invoice.issuance_snapshot i')) = true ->
     is_some (DbInvoice.verification_completed_at row) = true) ->
  outcome (Snapshot.payer_verification (Invoice.issuance_snapshot i')) row = passed_result (Invoice.issuance_snapshot i').
Proof.
  intros H. unfold outcome, passed_result. destruct (is_gated _); cbn; [|done]. by rewrite H.
Qed.

Lemma proof_vouches row settlement attempts transfers verification :
  (is_gated (Snapshot.payer_verification (Invoice.issuance_snapshot i')) = true ->
     is_some (DbInvoice.verification_completed_at row) = true) ->
  vouches (payload_of rfc3339 invoice_id_string i' row b' (required_scope (Invoice.issuance_snapshot i')) a attempts transfers)
    (proof_of invoice_id_string i' b' (required_scope (Invoice.issuance_snapshot i')) a settlement transfers verification)
    (Invoice.attribution_hash i) (Invoice.issuance_nonce i) (PaymentBinding.payment_address b) attested.
Proof.
  intros Hg. pose proof (proj2 stored_wallet) as Hw. split; cbn; try done.
  - by apply outcome_passed.
  - unfold wallet_signed. cbn. rewrite Hw. destruct (bo_verified _ _ _ _ Hb) as [a0 v Hv|]; cbn; [|done].
    destruct (verify_payer_attestation_pins _ _ _ Hv) as (H1 & H2 & H3).
    eexists _, _. split_and!; [done|by apply address_roundtrip|done|exact H3].
  - rewrite (re_hash _ _ _ _ Hr). apply word_roundtrip, hash_octets.
  - rewrite (re_nonce _ _ _ _ Hr). by apply word_roundtrip.
  - rewrite (re_address _ _ _ _ Hr). apply address_roundtrip, address_octets.
  - rewrite (proj2 scope_required). destruct attested as [v|]; [|done]. intros _.
    destruct (PaymentBinding.wallet b') as [w|]; [|done]. eexists (VerificationFact.mk "wallet" "gum" _).
    split; [|done]. unfold facts. rewrite !list.elem_of_app. right. right. apply list_elem_of_here.
Qed.

End Document.

(** ** The signature and the transfers *)

(** The attestor's signatures recover to its address. *)
Definition signs (attestor : Attestor.t) : Prop :=
  octets 20 (Attestor.address attestor) /\
  forall digest signature, Attestor.sign_hash attestor digest = Some signature ->
    recover signature digest = Some (Attestor.address attestor) /\ exists n, octets n signature.

Lemma attest_signed attestor payload signed_payload proof :
  signs attestor -> attest jcs_payload attestor payload = Ok signed_payload ->
  ProofOfPayment.verification proof = signed_payload ->
  SignedAttestation.payload signed_payload = payload /\
  signed jcs_payload proof [Attestor.address attestor] (Attestor.address attestor).
Proof.
  intros [Ha Hs] H E. unfold attest, attestation_digest in H. destruct (jcs_payload payload) as [c|] eqn:Hj; cbn in H; [|done].
  peel H. injection H as H. rewrite <- H in *. split; [done|].
  match goal with H : Attestor.sign_hash _ _ = Some _ |- _ => apply Hs in H as [Hrec [n Hn]] end.
  split; rewrite ?E; cbn.
  - eexists c, _. split_and!; [done|by eapply hex_roundtrip|done].
  - by apply address_roundtrip.
  - right. apply list_elem_of_here.
Qed.

Lemma vouched_fill p wallet transfers t relay :
  AttestationPayload.relay_fills p = relay_fills (Some wallet) transfers -> t ∈ transfers ->
  ProofTransfer.relay t = Some relay -> ProofTransfer.sender t <> wallet -> vouched p t relay = true.
Proof.
  intros Hp Ht Hr Hs. unfold vouched. rewrite Hp. apply existsb_exists.
  exists (AttestedRelayFill.mk (ProofTransfer.transaction_hash t) (ProofTransfer.log_index t) relay).
  cbn. rewrite !String.eqb_refl, bool_decide_true by done. split; [|done]. apply list_elem_of_In, list.list_elem_of_omap.
  exists t. unfold relay_fill. rewrite Hr. split; [|done]. apply list_elem_of_In, filter_In. split; [by apply list_elem_of_In|].
  apply negb_true_iff. by apply String.eqb_neq.
Qed.

Lemma senders_attributable scope attested p transfers :
  scope = (if is_some attested then WalletAttributed else Settlement) ->
  (forall v, attested = Some v -> octets 20 (VerifiedPayerAttestation.wallet v)) ->
  let wallet := (fun v => to_checksum (VerifiedPayerAttestation.wallet v)) <$> attested in
  check_senders scope wallet transfers = Ok tt -> AttestationPayload.relay_fills p = relay_fills wallet transfers ->
  forall t, t ∈ transfers -> attributable p attested t.
Proof.
  intros -> Hoct wallet Hs Hp t Ht v ->. cbn in *. unfold check_senders in Hs. cbn in Hs.
  destruct (existsb _ _) eqn:Hex; [done|]. split; [by apply Hoct|]. split.
  - destruct (foreign _ t) eqn:Hf; [|done]. rewrite <- Hex. symmetry. apply existsb_exists. exists t.
    split; [by apply list_elem_of_In|done].
  - intros relay Hr Hne. by eapply vouched_fill.
Qed.

Lemma Forall2_image {A B C} (R : A -> B -> Prop) (Q : B -> C -> Prop) (f : A -> C) l k :
  Forall2 R l k -> (forall x y, x ∈ l -> y ∈ k -> R x y -> Q y (f x)) -> Forall2 Q k (f <$> l).
Proof.
  induction 1 as [|x y l k Hxy _ IH]; intros H; [constructor|]. cbn. constructor.
  - apply H; [apply list_elem_of_here..|done].
  - apply IH. intros. apply H; [by apply list_elem_of_further..|done].
Qed.

(** The credited rows of a request cover what the row says it received. *)
Lemma issued_covers db row id scope b attested p transfers amount :
  ledger_ok db -> Db.invoices db !! id = Some row -> amount <= DbInvoice.confirmed_received row <= u256_max ->
  (forall kv, kv ∈ credited_rows id db -> creditable db b kv) ->
  scope = (if is_some attested then WalletAttributed else Settlement) ->
  octets 20 (PaymentBinding.payment_address b) ->
  map_result proof_transfer (settlement_transfers id db) = Ok transfers ->
  (forall t, t ∈ transfers -> attributable p attested t) ->
  covers p attested (PaymentBinding.payment_address b) transfers amount.
Proof.
  intros Hok Hrow Hle Hcr Hsc Hoct Hts Hat. exists (event_of <$> credited_rows id db). split.
  - apply map_result_ok in Hts. unfold settlement_transfers in Hts. fold (credited_rows id db) in Hts.
    apply list.Forall2_fmap_l in Hts. eapply Forall2_image; [exact Hts|]. intros kv t Hkv Ht E.
    eapply credited_pays; [by apply Hcr|exact E|done|by apply Hat|done].
  - rewrite distinct_total_nodup; [|by eapply credited_rows_nodup|by intros e _ ?%list.elem_of_nil].
    rewrite credited_rows_total, <- (ro_received _ _ _ (lo_row _ Hok _ _ Hrow)). done.
Qed.

Lemma decoded_received row i : invoice_try_from parse_address row = Ok i -> DbInvoice.confirmed_received row <= u256_max.
Proof.
  unfold invoice_try_from. cbv zeta. intros H. apply rbind_ok in H as (binding & _ & H). peel H.
  apply rbind_ok in H as (? & _ & H). apply rbind_ok in H as (? & _ & H). apply rbind_ok in H as (? & _ & H).
  apply rbind_ok in H as (received & Hr & _). unfold units_from_col, u256_of_numeral in Hr.
  destruct (Z.leb_spec (DbInvoice.confirmed_received row) u256_max); [done|discriminate].
Qed.

Lemma settlement_hash_ok row settlement :
  settlement_hash row = Ok settlement -> (forall h, DbInvoice.settlement_tx_hash row = Some h -> octets 32 h) ->
  is_Some (parse_word settlement).
Proof.
  unfold settlement_hash. destruct (DbInvoice.status row); try done. destruct (DbInvoice.settlement_tx_hash row) as [h|]; [|done].
  intros H Hh. unfold internal in H. rewrite (fixed_bytes_octets 32 h) in H by auto. cbn in H. injection H as <-.
  rewrite word_roundtrip by auto. by eexists.
Qed.

(** A fresh proof, taken apart. *)
Lemma get_proof_fresh attestor account row db i b proof cache :
  invoice_try_from parse_address row = Ok i -> Invoice.binding i = Some b ->
  get_proof jcs_payload rfc3339 invoice_id_string (Some attestor) account row ∅ db = Ok (proof, cache) ->
  let scope := if wallet_attestation_required i then WalletAttributed else Settlement in
  let wallet := (fun w => to_checksum (WalletEvidence.payer_wallet w)) <$> PaymentBinding.wallet b in
  exists settlement attestation transfers verification,
    settlement_hash row = Ok settlement /\ stored_attestation (PaymentBinding.wallet b) = Ok attestation /\
    map_result proof_transfer (settlement_transfers (DbInvoice.id row) db) = Ok transfers /\
    check_senders scope wallet transfers = Ok tt /\
    attest jcs_payload attestor (payload_of rfc3339 invoice_id_string i row b scope attestation
      (attempts_for_invoice account (DbInvoice.id row) db) transfers) = Ok verification /\
    proof = proof_of invoice_id_string i b scope attestation settlement transfers verification.
Proof.
  intros Hi Hb. unfold get_proof. rewrite Hi. cbn [rbind]. rewrite Hb. change (Some b ≫= PaymentBinding.wallet) with (PaymentBinding.wallet b).
  intros (attestation & Ha & (settlement & Hs & H)%rbind_ok)%rbind_ok. cbn [internal ok_or rbind] in H. cbv zeta in *.
  rewrite lookup_empty in H. apply rbind_ok in H as (transfers & Ht & H). apply rbind_ok in H as ([] & Hc & H).
  apply rbind_ok in H as (verification & Hv & H). injection H as <- _.
  exists settlement, attestation, transfers, verification. split_and!; try done. destruct (attest _ _ _); congruence.
Qed.

End Issued.

(** C6. The proof of a paid request verifies exactly when its verification is not
    outstanding: take a request that was issued, bound to a network or to the
    payer's attested wallet and stored, whose credited transfers are of its own
    token, chain and address and cover its amount.  If it is gated and its
    verification was not completed, the document the server issues for its row is
    refused (it says "pending"); otherwise that document is accepted offline by a
    verifier who trusts the attestor, for the address the request was bound to and
    the wallet it was bound for.  Columns are of the widths the schema gives them,
    and relay intents satisfy the table's CHECK on verified fills. *)
Theorem issued_proof_verifies `{P : Primitives} `{!Lawful P} (jcs_payload : AttestationPayload.t -> option bytes)
    (rfc3339 : Timestamp -> string) (invoice_id_string : Uuid -> string)
    (id : Uuid) (nonce : B256) (currency : Currency) (networks : list NetworkTerms.t) (beneficiary recovery : Address)
    (amount expiration : Z) (snapshot : Snapshot.t) (i i' : Invoice.t) (chain : Z)
    (a : option PayerWalletAttestation.t) (at_ : Timestamp) (b b' : PaymentBinding.t) (attestor : Attestor.t)
    (account : Uuid) (row : DbInvoice.t) (db : Db.t) (proof : ProofOfPayment.t)
    (cache : gmap (Uuid * Uuid * list Z) ProofOfPayment.t) :
  issue id nonce currency networks beneficiary recovery amount expiration snapshot = Ok i ->
  octets 32 nonce -> octets 20 beneficiary -> octets 20 recovery ->
  0 <= amount <= u256_max -> 0 <= expiration <= u64_max ->
  bind_request i chain a at_ = Ok b ->
  (forall a0, a = Some a0 -> attestation_from_json (attestation_to_json a0) = Some a0) ->
  ledger_ok db -> Db.invoices db !! DbInvoice.id row = Some row ->
  invoice_try_from parse_address row = Ok i' -> restored i b i' b' ->
  (forall h, DbInvoice.settlement_tx_hash row = Some h -> octets 32 h) ->
  amount <= DbInvoice.confirmed_received row ->
  (forall kv, kv ∈ credited_rows (DbInvoice.id row) db -> creditable db b kv) ->
  signs attestor ->
  get_proof jcs_payload rfc3339 invoice_id_string (Some attestor) account row ∅ db = Ok (proof, cache) ->
  if is_gated (Snapshot.payer_verification snapshot) && negb (is_some (DbInvoice.verification_completed_at row))
  then forall v, verify_proof jcs_payload proof None [Attestor.address attestor] <> Ok v
  else exists v, verify_proof jcs_payload proof None [Attestor.address attestor] = Ok v /\
    ProofVerification.payment_address v = PaymentBinding.payment_address b /\
    ProofVerification.payer_wallet v = WalletEvidence.payer_wallet <$> PaymentBinding.wallet b.
Proof.
  intros Hi Hno Hbo Hro Hao Heo Hbind Hjson Hok Hrow Hdec Hre Hset Hle Hcr Hsig Hget.
  destruct (issue_committed _ _ _ _ _ _ _ _ _ _ Hi Hbo Hro Hao Heo) as (Hc & Hnonce & Ham).
  destruct (bind_request_bound _ _ _ _ _ Hbind) as [attested Hb].
  assert (octets 32 (Invoice.issuance_nonce i)) as Hno' by congruence.
  pose proof (issue_snapshot _ _ _ _ _ _ _ _ _ _ Hi) as Hsn.
  destruct (get_proof_fresh _ _ _ _ _ _ _ _ _ _ _ Hdec (re_binding _ _ _ _ Hre) Hget)
    as (settlement & attestation & transfers & verification & Hs & Hatt & Hts & Hsend & Hv & ->).
  destruct (scope_required _ _ _ _ _ _ Hb Hre) as [Hsc1 Hsc2]. rewrite Hsc1 in *.
  destruct (stored_wallet _ _ _ _ _ _ Hb Hre Hjson) as [Hsa Hsw].
  rewrite Hsa in Hatt. injection Hatt as <-. rewrite Hsw in Hsend.
  destruct (attest_signed _ _ _ _ (proof_of invoice_id_string i' b' (required_scope (Invoice.issuance_snapshot i')) a
    settlement transfers verification) Hsig Hv eq_refl) as [Hpay Hsigned].
  destruct (is_gated (Snapshot.payer_verification snapshot) && negb (is_some (DbInvoice.verification_completed_at row))) eqn:Hgate.
  { intros v (nonce' & chain' & network' & attested' & amount' & Hacc)%verify_proof_sound. apply andb_true_iff in Hgate as [Hg1 Hg2].
    pose proof (vo_result _ _ _ _ _ _ (ac_vouches _ _ _ _ _ _ _ _ _ _ Hacc)) as Hres. cbn [ProofOfPayment.verification proof_of] in Hres.
    rewrite Hpay in Hres. unfold passed_result, payload_of, outcome, proof_of in Hres. cbn in Hres.
    apply negb_true_iff in Hg2. rewrite (re_snapshot _ _ _ _ Hre), Hsn, Hg1, Hg2 in Hres. discriminate. }
  assert (is_gated (Snapshot.payer_verification snapshot) = true -> is_some (DbInvoice.verification_completed_at row) = true) as Hg
    by (intros Hg1; rewrite Hg1 in Hgate; by apply negb_false_iff in Hgate).
  assert (forall v, attested = Some v -> octets 20 (VerifiedPayerAttestation.wallet v)) as Hwo.
  { intros v ->. pose proof (bo_verified _ _ _ _ Hb) as Hver. inversion Hver as [a0 v' Hv'|]. subst.
    by apply verify_payer_attestation_pins in Hv' as [? _]. }
  eexists (ProofVerification.mk (Invoice.attribution_hash i) (required_scope (Invoice.issuance_snapshot i'))
    (VerifiedPayerAttestation.wallet <$> attested) (VerifiedPayerAttestation.digest <$> attested)
    (PaymentBinding.salt b) (PaymentBinding.payment_address b) (Attestor.address attestor) false).
  split; [|split; [done|]].
  - eapply verify_proof_complete. split; cbn -[proof_of payload_of]; try done.
    + by eapply proof_document.
    + by eapply proof_derives.
    + cbn. rewrite Hpay. eapply proof_vouches; try done. rewrite (re_snapshot _ _ _ _ Hre), Hsn. done.
    + by eapply settlement_hash_ok.
    + cbn. rewrite Hpay. eapply issued_covers; [done|exact Hrow| | |exact Hsc2|by eapply address_octets|exact Hts|].
      * rewrite Ham. split; [done|]. by eapply decoded_received.
      * exact Hcr.
      * eapply senders_attributable; [exact Hsc2|exact Hwo|exact Hsend|]. cbn. by rewrite Hsw.
    + apply (bo_salt _ _ _ _ Hb).
  - cbn. pose proof (bo_wallet _ _ _ _ Hb) as Hw. pose proof (bo_verified _ _ _ _ Hb) as Hver.
    destruct Hver; destruct (PaymentBinding.wallet b); cbn in *; congruence.
Qed.

(** ** Witness *)

Module IssuedWitness.
Import Toy.

Lemma proof_run_swept : rtc (ledger_step hash parse_address text) start swept.
Proof.
  eapply rtc_l; [eapply (step_issue _ _ _ start input None 1000000 1000000 _ issued); vm_compute; reflexivity|].
  eapply rtc_l; [eapply (step_bind_wallet _ _ _ issued 1 8 9 binding 1000000 1000000 _ bound); vm_compute; reflexivity|].
  eapply rtc_l; [eapply (step_range _ _ _ bound chain None 110 block_hash 1900000000 [transfer 0 60; transfer 1 50] 2000000 _ paid);
    [by repeat constructor|vm_compute; reflexivity]|].
  eapply rtc_l; [eapply (step_schedule _ _ _ paid chain SweepPolicy.default "gum-server" 50 51 52 3000000 _ scheduled);
    vm_compute; reflexivity|].
  eapply rtc_once, (step_finalized _ _ _ scheduled receipt SweepPolicy.default 4000000 _ swept). vm_compute. reflexivity.
Qed.

Lemma swept_ok : ledger_ok swept.
Proof. eapply ledger_steps_ok; [exact proof_run_swept|]. by apply no_requests_ok. Qed.

(** The row as the ledger decodes it. *)
Definition decoded : Invoice.t := Eval vm_compute in
  match invoice_try_from parse_address row with Ok i => i | Err _ => no_invoice end.
Definition decoded_binding : PaymentBinding.t := Eval vm_compute in
  match Invoice.binding decoded with Some b => b | None => binding end.

Definition octetsb (n : nat) (b : bytes) : bool := Nat.eqb (length b) n && forallb (fun x => (0 <=? x) && (x <? 256)) b.

Lemma octetsb_ok n b : octetsb n b = true -> octets n b.
Proof.
  unfold octetsb. intros [Hl%Nat.eqb_eq Hb]%andb_true_iff. split; [done|].
  apply list.Forall_forall. intros x Hx. rewrite forallb_forall in Hb. specialize (Hb x (proj1 (list_elem_of_In _ _) Hx)). bools. lia.
Qed.

Definition creditableb (kv : ObservationKey * Observation.t) : bool :=
  let '((c, t, tx, log), o) := kv in
  (c =? NetworkTerms.chain_id (PaymentBinding.network binding))
  && bool_decide (t = NetworkTerms.token (PaymentBinding.network binding)) && octetsb 32 tx && (0 <=? log) && (log <=? u64_max)
  && octetsb 20 (Observation.sender_address o)
  && bool_decide (Observation.recipient_address o = PaymentBinding.payment_address binding)
  && (0 <=? Observation.block_number o) && (Observation.block_number o <=? u64_max)
  && (0 <=? Observation.amount o) && (Observation.amount o <=? u256_max) && negb (is_some (joined_intent swept o)).

Lemma creditableb_ok kv : creditableb kv = true -> creditable swept binding kv.
Proof.
  destruct kv as [[[[c t] tx] log] o]. unfold creditableb. rewrite !andb_true_iff. intros H. destruct_and! H. bools.
  split; cbn; try (by apply octetsb_ok); try done.
  - exists tx, log. subst. split; [done|]. split; [by apply octetsb_ok|done].
  - intros r Hr. by rewrite Hr in *.
Qed.

Lemma forallb_elem {A} (f : A -> bool) l : forallb f l = true -> forall x, x ∈ l -> f x = true.
Proof. rewrite forallb_forall. intros H x Hx. by apply H, list_elem_of_In. Qed.

Lemma issued_proof_verifies_witness :
  exists v, verify_proof jcs proof None [Attestor.address attestor] = Ok v /\
    ProofVerification.payment_address v = PaymentBinding.payment_address binding /\
    ProofVerification.payer_wallet v = WalletEvidence.payer_wallet <$> PaymentBinding.wallet binding.
Proof.
  refine (@issued_proof_verifies toy (lawful attestation) jcs rfc3339 id_string 1 nonce Usdc networks beneficiary
    recovery_address 100 expiration snapshot invoice decoded chain (Some attestation) 1000000 binding decoded_binding attestor
    7 row swept proof _ _ _ _ _ _ _ _ _ _ _ _ _ _ _ _ _ _).
  - vm_compute. reflexivity.
  - by apply octetsb_ok.
  - by apply octetsb_ok.
  - by apply octetsb_ok.
  - done.
  - done.
  - vm_compute. reflexivity.
  - by intros a0 [= <-].
  - exact swept_ok.
  - vm_compute. reflexivity.
  - vm_compute. reflexivity.
  - split; vm_compute; reflexivity.
  - intros h Hh. apply octetsb_ok. vm_compute in Hh. injection Hh as <-. vm_compute. reflexivity.
  - vm_compute. discriminate.
  - intros kv Hkv. apply creditableb_ok. revert kv Hkv. apply forallb_elem. vm_compute. reflexivity.
  - split; [by apply octetsb_ok|]. intros d s [= <-]. split; [done|]. exists 20%nat. by apply octetsb_ok.
  - vm_compute. reflexivity.
Defined.

End IssuedWitness.
