(* ===== verification/RangeTheorems.v ===== *)
(** * gum-ledger: what a finalized range promises

    A range is applied once, whoever retries it, and it funds exactly the
    requests whose credited transfers reach their amount. *)

From S2P Require Import Prelude Core Contracts Bus Tables Attachments Invoices Range Sweeps.
From S2P Require Import LedgerExample LedgerInv RangeInv LedgerRuns.

Implicit Types (id : Uuid) (row : DbInvoice.t) (db : Db.t) (now : Timestamp).

Lemma store_cursor_get chain block hash ts now db db' :
  store_cursor chain block hash ts now db = Ok db' -> length hash = 32%nat ->
  0 <= block <= u64_max -> 0 <= ts <= u64_max ->
  get_cursor chain db' = Ok (Some (IndexerCursor.mk block hash (Some ts))).
Proof.
  unfold store_cursor, get_cursor. intros H Hlen Hb Ht.
  destruct (_ && _) eqn:Hok; [|discriminate]. injection H as <-. bools. simpl.
  rewrite lookup_insert_eq. unfold cursor_of_row. simpl. rewrite Hlen. simpl.
  pose proof (as_i64_nonneg block Hb). pose proof (as_i64_nonneg ts Ht).
  by rewrite !as_i64_small, !as_u64_nonneg by lia.
Qed.

Lemma applied_stores chain expected block hash ts obs now db funded expired cursor db' :
  apply_finalized_range chain expected block hash ts obs now db = Ok (Applied funded expired cursor, db') ->
  cursor = IndexerCursor.mk block hash (Some ts) /\
  exists db2, store_cursor chain block hash ts now db2 = Ok db'.
Proof.
  unfold apply_finalized_range. intros H. apply rbind_ok in H as (stored & _ & H).
  case_bool_decide; [|repeat case_match; discriminate].
  unfold apply_range_body in H. apply rbind_ok in H as (credits0 & _ & H).
  apply rbind_ok in H as ([credits table] & _ & H).
  destruct (apply_credits now credits (Db.invoices db)) as [invoices fs].
  destruct (expire_bound _ _ _ _) as [es db2]. apply rbind_ok in H as (db3 & Hc & [= <- <- <- <-]). eauto.
Qed.

(** C14. A range the ledger committed is never applied again: the
    cursor it leaves is the range's end block, and a retry of the same request
    (whatever observations it now carries) is answered [AlreadyApplied] with
    that cursor and leaves every table as it was. *)
Theorem range_applies_once chain expected block hash ts obs now db funded expired cursor db' :
  apply_finalized_range chain expected block hash ts obs now db = Ok (Applied funded expired cursor, db') ->
  length hash = 32%nat -> 0 <= block <= u64_max -> 0 <= ts <= u64_max ->
  (forall c, expected = Some c -> IndexerCursor.block c < block) ->
  cursor = IndexerCursor.mk block hash (Some ts) /\
  forall obs2 now2,
    apply_finalized_range chain expected block hash ts obs2 now2 db' = Ok (AlreadyApplied cursor, db').
Proof.
  intros H Hlen Hb Ht Hexp. destruct (applied_stores _ _ _ _ _ _ _ _ _ _ _ _ H) as [-> [db2 Hst]].
  split; [done|]. intros obs2 now2. unfold apply_finalized_range.
  rewrite (store_cursor_get _ _ _ _ _ _ _ Hst Hlen Hb Ht). simpl.
  rewrite bool_decide_eq_false_2; [by rewrite Z.leb_refl|].
  intros <-. specialize (Hexp _ eq_refl). simpl in Hexp. lia.
Qed.

(** ** Funding *)

Lemma fold_funded now (cs : list InvoiceCredit.t) (m : gmap Uuid DbInvoice.t) (id : Uuid) :
  NoDup (InvoiceCredit.id <$> cs) ->
  (forall c, c ∈ cs -> exists row, m !! InvoiceCredit.id c = Some row /\
     (InvoiceCredit.crossing c <> None -> DbInvoice.status row = Created)) ->
  id ∈ snd (foldr (apply_credit now) (m, []) cs) <->
  exists c, c ∈ cs /\ InvoiceCredit.id c = id /\ InvoiceCredit.touched c = true /\
    InvoiceCredit.crossing c <> None.
Proof.
  induction cs as [|d cs IH]; intros Hnd Hrows.
  { simpl. split; [intros H; by apply not_elem_of_nil in H|].
    intros (c & Hc & _). by apply not_elem_of_nil in Hc. }
  rewrite fmap_cons in Hnd. apply list.NoDup_cons in Hnd as [Hni Hnd].
  destruct (Hrows d) as (row & Hrow & Hst); [by left|].
  pose proof (proj2 (fold_credits_lookup now cs m Hnd) (InvoiceCredit.id d) Hni) as Hlk.
  specialize (IH Hnd ltac:(intros c Hc; apply Hrows; by right)).
  simpl. destruct (foldr (apply_credit now) (m, []) cs) as [m' f']. cbn [fst snd] in *.
  assert (snd (apply_credit now d (m', f')) =
    if InvoiceCredit.touched d && is_some (InvoiceCredit.crossing d)
    then InvoiceCredit.id d :: f' else f') as ->.
  { unfold apply_credit. destruct (InvoiceCredit.touched d); simpl; [|done].
    rewrite Hlk, Hrow. simpl. unfold credited_row.
    destruct (InvoiceCredit.crossing d) as [[[[? ?] ?] ?]|]; simpl; [|done]. by rewrite Hst. }
  split.
  - intros H. destruct (InvoiceCredit.touched d && is_some (InvoiceCredit.crossing d)) eqn:E.
    + apply elem_of_cons in H as [->|H].
      * bools. exists d. split_and!; [by left|done|done|]. by destruct (InvoiceCredit.crossing d).
      * apply IH in H as (c & Hc & ?). exists c. split; [by right|done].
    + apply IH in H as (c & Hc & ?). exists c. split; [by right|done].
  - intros (c & [->|Hc]%elem_of_cons & <- & Ht & Hx).
    + rewrite Ht. destruct (InvoiceCredit.crossing d); [|done]. simpl. by left.
    + assert (InvoiceCredit.id c ∈ f') by (apply IH; eauto). destruct (_ && _); [by right|done].
Qed.

Lemma classic_credit (credits : gmap (list Z) InvoiceCredit.t) (id : Uuid) :
  (exists addr c, credits !! addr = Some c /\ InvoiceCredit.id c = id) \/
  (forall addr c, credits !! addr = Some c -> InvoiceCredit.id c <> id).
Proof.
  destruct (decide (Exists (fun kv => InvoiceCredit.id (snd kv) = id) (map_to_list credits))) as [H|H].
  - left. apply List.Exists_exists in H as ([addr c] & Hin%list_elem_of_In & Hid).
    apply elem_of_map_to_list in Hin. eauto.
  - right. intros addr c Hc Hid. apply H, List.Exists_exists. exists (addr, c). split; [|done].
    by apply list_elem_of_In, elem_of_map_to_list.
Qed.

Lemma funded_credit db credits table now id row :
  ledger_ok db -> loop_ok db (credits, table) -> Db.invoices db !! id = Some row ->
  id ∈ snd (apply_credits now credits (Db.invoices db)) <->
  DbInvoice.status row = Created /\ DbInvoice.amount row <= credited_of id table.
Proof.
  intros Hok Hl Hrow. unfold apply_credits.
  rewrite fold_funded; [|by eapply nodup_credit_ids|].
  2: { intros c (kv & -> & Hkv)%list_elem_of_fmap. destruct kv as [addr c].
       apply elem_of_map_to_list in Hkv. destruct (lk_credit _ _ Hl _ _ Hkv) as (r & Hf).
       exists r. split; [apply (cf_row _ _ _ _ _ Hf)|]. intros Hx.
       rewrite <- (cf_status _ _ _ _ _ Hf). by apply (cf_crossing _ _ _ _ _ Hf). }
  assert (forall c, c ∈ (map_to_list credits).*2 <-> exists addr, credits !! addr = Some c) as Hin.
  { intros c. rewrite list_elem_of_fmap. split.
    - intros ([addr c'] & -> & H%elem_of_map_to_list). eauto.
    - intros [addr H]. exists (addr, c). split; [done|]. by apply elem_of_map_to_list. }
  split.
  - intros (c & [addr Hc]%Hin & <- & Ht & Hx). destruct (lk_credit _ _ Hl _ _ Hc) as (r & Hf).
    pose proof (cf_row _ _ _ _ _ Hf) as Hr. assert (r = row) as -> by congruence.
    simpl in Hf. rewrite <- (cf_status _ _ _ _ _ Hf), <- (cf_received _ _ _ _ _ Hf),
      <- (cf_required _ _ _ _ _ Hf).
    split; [by apply (cf_crossing _ _ _ _ _ Hf)|by apply (cf_above _ _ _ _ _ Hf)].
  - intros [Hs Hge].
    destruct (classic_credit credits id) as [(addr & c & Hc & Hid)|Hno].
    + destruct (lk_credit _ _ Hl _ _ Hc) as (r & Hf). subst id.
      pose proof (cf_row _ _ _ _ _ Hf) as Hr. assert (r = row) as -> by congruence. simpl in Hf.
      assert (InvoiceCredit.crossing c <> None) as Hx.
      { intros Hx. pose proof (cf_below _ _ _ _ _ Hf) as Hb. rewrite (cf_status _ _ _ _ _ Hf) in Hb.
        specialize (Hb Hs Hx). rewrite (cf_received _ _ _ _ _ Hf), (cf_required _ _ _ _ _ Hf) in Hb. lia. }
      exists c. split_and!; [apply Hin; eauto|done|by apply (cf_crossing _ _ _ _ _ Hf)|done].
    + destruct (lk_other _ _ Hl id row Hrow Hno) as [E _]. simpl in E.
      pose proof (ro_created _ _ _ (lo_row _ Hok _ _ Hrow) Hs). lia.
Qed.

(** Only requests of the range's chain are loaded, so only they are funded. *)
Lemma loaded_on_chain chain obs db credits : load_credits chain obs db = Ok credits -> ledger_ok db ->
  forall addr c, credits !! addr = Some c ->
    exists row, Db.invoices db !! InvoiceCredit.id c = Some row /\ DbInvoice.chain_id row = Some chain.
Proof.
  unfold load_credits. intros H Hok.
  eapply (try_fold_ind _ (fun cs : Credits => forall addr c, cs !! addr = Some c ->
    exists row, Db.invoices db !! InvoiceCredit.id c = Some row /\ DbInvoice.chain_id row = Some chain)); [| |exact H].
  - intros cs row cs' Hin IH Hload addr c Hc. unfold load_credit in Hload.
    apply rbind_ok in Hload as (required & _ & Hload). apply rbind_ok in Hload as (received & _ & Hload).
    destruct (DbInvoice.payment_address row); [|injection Hload as <-; by eapply IH].
    destruct (DbInvoice.token_address row); [|injection Hload as <-; by eapply IH].
    injection Hload as <-. apply lookup_insert_Some in Hc as [[<- <-]|[_ Hc]]; [|by eapply IH]. cbn.
    unfold watched_rows in Hin. apply list_elem_of_In, filter_In in Hin as [Hin Hp].
    apply list_elem_of_In, list_elem_of_fmap in Hin as ([id r] & -> & Hid%elem_of_map_to_list). bools.
    exists r. cbn. rewrite (ro_id _ _ _ (lo_row _ Hok _ _ Hid)). by split.
  - intros addr c Hc. by rewrite lookup_empty in Hc.
Qed.

Lemma credit_observation_id c o c' : credit_observation c o = Ok c' -> InvoiceCredit.id c' = InvoiceCredit.id c.
Proof. unfold credit_observation. intros H. repeat case_match; inv_ok; try done; repeat case_match; by inv_ok. Qed.

Lemma fold_funded_credit now cs m id :
  id ∈ snd (foldr (apply_credit now) (m, []) cs) -> exists c, c ∈ cs /\ InvoiceCredit.id c = id.
Proof.
  induction cs as [|d cs IH]; cbn; [by intros ?%not_elem_of_nil|]. destruct (foldr _ _ cs) as [m' f']. cbn in IH. unfold apply_credit.
  destruct (negb _); [intros (c & ? & ?)%IH; exists c; split; [by right|done]|].
  destruct (_ ≫= _); [|intros (c & ? & ?)%IH; exists c; split; [by right|done]]. cbn.
  destruct (is_some _); [|intros (c & ? & ?)%IH; exists c; split; [by right|done]].
  intros [->|(c & ? & ?)%IH]%elem_of_cons; [exists d; split; [by left|done]|exists c; split; [by right|done]].
Qed.

Lemma funded_on_chain chain block hash ts obs now db funded expired cursor db' id row :
  apply_range_body chain block hash ts obs now db = Ok (Applied funded expired cursor, db') -> ledger_ok db ->
  Db.invoices db !! id = Some row -> id ∈ funded -> DbInvoice.chain_id row = Some (as_i64 chain).
Proof.
  unfold apply_range_body. intros H Hok Hrow Hf. apply rbind_ok in H as (credits0 & Hload & H).
  apply rbind_ok in H as ([credits table] & Hloop & H).
  destruct (apply_credits now credits (Db.invoices db)) as [invoices fs] eqn:Hac. destruct (expire_bound _ _ _ _) as [es db2].
  apply rbind_ok in H as (db3 & _ & [= -> _ _ _]). change funded with (snd (invoices, funded)) in Hf. rewrite <- Hac in Hf.
  apply fold_funded_credit in Hf as (c & ([addr c'] & -> & Hc%elem_of_map_to_list)%list_elem_of_fmap & <-). cbn in *.
  set (here (s : Credits * ObsTable) := forall addr c, fst s !! addr = Some c -> exists row,
    Db.invoices db !! InvoiceCredit.id c = Some row /\ DbInvoice.chain_id row = Some (as_i64 chain)).
  assert (here (credits, table)) as Hhere; [|destruct (Hhere addr c' Hc) as (r & Hr & Hch); congruence].
  assert (here (credits0, Db.payment_observations db)) as Hstart by (intros a x Hx; by eapply loaded_on_chain).
  revert Hstart Hloop. apply try_fold_ind.
  - intros [cs t] o [cs' t'] _ IH Hs a x. unfold step_observation in Hs. cbn in *.
    destruct (cs !! PaymentObservation.recipient o) as [d|] eqn:Hd; [|injection Hs as <- <-; by apply IH].
    destruct (negb _); [injection Hs as <- <-; by apply IH|]. destruct (negb _); [done|].
    destruct (is_some _); [injection Hs as <- <-; by apply IH|]. destruct (is_zero o); [injection Hs as <- _; by apply IH|].
    apply rbind_ok in Hs as (d' & Hd' & [= <- _]). intros [[<- <-]|[_ Hx]]%lookup_insert_Some; [|by eapply IH].
    rewrite (credit_observation_id _ _ _ Hd'). by eapply IH.
Qed.

(** A credit that has not crossed leaves the status of its request. *)
Lemma uncrossed_status now c row : InvoiceCredit.crossing c = None -> DbInvoice.status (row_after now c row) = DbInvoice.status row.
Proof. intros Hx. unfold row_after, credited_row. rewrite Hx. by destruct (InvoiceCredit.touched c). Qed.

Lemma elem_of_ids_where p db id : id ∈ ids_where p db <-> exists row, Db.invoices db !! id = Some row /\ p row = true.
Proof.
  unfold ids_where. rewrite list_elem_of_fmap. split.
  - intros ([i row] & -> & [Hin Hp]%list_elem_of_In%filter_In). apply list_elem_of_In, elem_of_map_to_list in Hin. by exists row.
  - intros (row & Hrow & Hp). exists (id, row). split; [done|]. apply list_elem_of_In, filter_In. split; [|done].
    by apply list_elem_of_In, elem_of_map_to_list.
Qed.

(** What the credits of a range make of one request, before expiry. *)
Lemma credited_request db credits table db1 now id row :
  ledger_ok db -> ledger_ok db1 -> loop_ok db (credits, table) -> Db.payment_observations db1 = table ->
  Db.invoices db1 = fst (apply_credits now credits (Db.invoices db)) -> Db.invoices db !! id = Some row ->
  exists row1, Db.invoices db1 !! id = Some row1 /\ DbInvoice.issuance row1 = DbInvoice.issuance row /\
    DbInvoice.binding row1 = DbInvoice.binding row /\
    DbInvoice.status row1 = if decide (id ∈ snd (apply_credits now credits (Db.invoices db))) then Funded else DbInvoice.status row.
Proof.
  intros Hok Hok1 Hl Ho1 Hi1 Hrow. destruct (Db.invoices db1 !! id) as [row1|] eqn:Hr1.
  2: { rewrite Hi1 in Hr1. apply (apply_credits_total db credits table now id Hl) in Hr1. congruence. }
  exists row1. split; [done|]. pose proof (ro_created _ _ _ (lo_row _ Hok1 _ _ Hr1)) as Hc1.
  rewrite (ro_received _ _ _ (lo_row _ Hok1 _ _ Hr1)), Ho1 in Hc1. pose proof (funded_credit db credits table now id row Hok Hl Hrow) as Hfc.
  rewrite Hi1 in Hr1. destruct (apply_credits_lookup _ _ _ _ _ _ Hl Hr1) as [(addr & c & r & Hc & <- & Hf & ->)|[Hr2 _]].
  - pose proof (cf_row _ _ _ _ _ Hf). assert (r = row) as -> by congruence.
    destruct (row_after_fields now c row) as (E1 & E2 & _ & _ & E5). split_and!; [done..|].
    assert (DbInvoice.amount (row_after now c row) = DbInvoice.amount row) as Ea by (unfold DbInvoice.amount; congruence). rewrite Ea in Hc1.
    destruct (decide _) as [[Hs Hge]%Hfc|Hnf].
    + destruct E5 as [E|[_ E]]; [|done]. rewrite E, Hs in Hc1. specialize (Hc1 eq_refl). lia.
    + destruct (InvoiceCredit.crossing c) eqn:Hx; [|by apply uncrossed_status]. destruct Hnf. apply Hfc.
      rewrite <- (cf_status _ _ _ _ _ Hf), <- (cf_received _ _ _ _ _ Hf), <- (cf_required _ _ _ _ _ Hf).
      split; [apply (cf_crossing _ _ _ _ _ Hf)|apply (cf_above _ _ _ _ _ Hf)]; by rewrite Hx.
  - assert (row1 = row) as -> by congruence. split_and!; [done..|]. destruct (decide _) as [[Hs Hge]%Hfc|]; [|done]. specialize (Hc1 Hs). lia.
Qed.

(** C5. A committed range funds and expires exactly what it should: it reports a
    request as funded exactly when the request was waiting for its deposit and its
    credited transfers, the range's included, now reach its amount, which only a
    request of the range's chain does; it reports a request as expired exactly when
    it is bound to that chain, still open, and its deadline is before the range's
    end; an expired request leaves the range expired, whether or not it was also
    funded, a funded one that is not expired leaves it funded, and every other
    keeps its status. *)
Theorem range_funds_exactly hash0 parse hex db0 chain expected block hash ts obs now db funded expired
    cursor db' id row :
  no_requests db0 -> rtc (ledger_step hash0 parse hex) db0 db ->
  Forall (fun o => 0 <= PaymentObservation.amount o) obs ->
  apply_finalized_range chain expected block hash ts obs now db = Ok (Applied funded expired cursor, db') ->
  Db.invoices db !! id = Some row ->
  exists row', Db.invoices db' !! id = Some row' /\
    (id ∈ funded <-> DbInvoice.status row = Created /\
                     DbInvoice.amount row <= DbInvoice.confirmed_received row') /\
    (id ∈ funded -> DbInvoice.chain_id row = Some (as_i64 chain)) /\
    (id ∈ expired <-> DbInvoice.chain_id row = Some (as_i64 chain) /\
                      (DbInvoice.status row = Created \/ DbInvoice.status row = Funded) /\
                      DbInvoice.expiration_timestamp row < as_i64 ts) /\
    DbInvoice.status row' =
      if decide (id ∈ expired) then Expired else if decide (id ∈ funded) then Funded else DbInvoice.status row.
Proof.
  intros H0 Hr Hobs H Hrow. pose proof (ledger_steps_ok _ _ _ _ _ Hr (no_requests_ok _ H0)) as Hok.
  unfold apply_finalized_range in H. apply rbind_ok in H as (stored & _ & H).
  case_bool_decide; [|repeat case_match; discriminate].
  pose proof (fun Hf => funded_on_chain _ _ _ _ _ _ _ _ _ _ _ _ _ H Hok Hrow Hf) as Hchain.
  destruct (range_body_parts _ _ _ _ _ _ _ _ _ H Hobs Hok)
    as (credits & table & db1 & Hl & Hi1 & Ho1 & _ & Hok1 & Hi' & _ & Ho' & Hok' & [= -> -> _]).
  destruct (credited_request _ _ _ _ now id row Hok Hok1 Hl Ho1 Hi1 Hrow) as (row1 & Hr1 & Eiss & Ebind & Est).
  pose proof (lookup_update_where (bound_overdue (as_i64 chain) (as_i64 ts)) (expire_row (as_i64 ts) now) (Db.invoices db1) id) as Hrow'.
  rewrite <- Hi', Hr1 in Hrow'. cbn in Hrow'. eexists. split; [exact Hrow'|].
  rewrite (ro_received _ _ _ (lo_row _ Hok' _ _ Hrow')), Ho'. split; [by apply funded_credit|]. split; [exact Hchain|].
  assert (id ∈ ids_where (bound_overdue (as_i64 chain) (as_i64 ts)) db1 <-> bound_overdue (as_i64 chain) (as_i64 ts) row1 = true) as Hids.
  { rewrite elem_of_ids_where. split; [intros (r & Hr2 & Hp); congruence|by exists row1]. }
  assert (is_open_status (DbInvoice.status row1) = true <-> DbInvoice.status row = Created \/ DbInvoice.status row = Funded) as Hopen.
  { rewrite Est. destruct (decide _) as [Hf|]; [|destruct (DbInvoice.status row); cbn; naive_solver].
    apply (funded_credit db credits table now id row Hok Hl Hrow) in Hf as [-> _]. naive_solver. }
  split.
  - rewrite Hids. unfold bound_overdue, DbInvoice.chain_id, DbInvoice.expiration_timestamp.
    rewrite Eiss, Ebind, !andb_true_iff, bool_decide_eq_true, Hopen, Z.ltb_lt. tauto.
  - destruct (decide (id ∈ ids_where _ _)) as [Hin|Hin]; [by rewrite (proj1 Hids Hin)|].
    destruct (bound_overdue _ _ row1); [by destruct Hin; apply Hids|]. exact Est.
Qed.

Module RangeExample.
Import LedgerExample RunExample.

Definition payments : list PaymentObservation.t :=
  [transfer 60 0 100 1800000000; transfer 0 1 100 1800000000; transfer 50 2 105 1800000500].
Definition end_cursor : IndexerCursor.t := IndexerCursor.mk 110 block_hash (Some 1900000000).

Lemma pay_applies :
  apply_finalized_range chain None 110 block_hash 1900000000 payments 2000 issued
  = Ok (Applied [1] [] end_cursor, paid).
Proof. vm_compute. reflexivity. Qed.

Lemma range_applies_once_witness :
  apply_finalized_range chain None 110 block_hash 1900000000 [] 9000 paid
  = Ok (AlreadyApplied end_cursor, paid).
Proof.
  apply (range_applies_once chain None 110 block_hash 1900000000 payments 2000 issued [1] [] end_cursor paid
    pay_applies); [reflexivity|unfold u64_max; lia|unfold u64_max; lia|discriminate].
Defined.

Lemma range_funds_exactly_witness :
  exists row', Db.invoices paid !! 1 = Some row' /\ DbInvoice.status row' = Funded.
Proof.
  destruct (range_funds_exactly hash parse hex start chain None 110 block_hash 1900000000 payments 2000 issued
    [1] [] end_cursor paid 1 (row_of issued) fresh_start run_issued ltac:(by repeat constructor) pay_applies
    ltac:(vm_compute; reflexivity)) as (row' & Hr & _ & _ & _ & Hst).
  exists row'. split; [exact Hr|]. rewrite Hst. reflexivity.
Defined.

End RangeExample.
