(* ===== verification/SweepTheorems.v ===== *)
(** * gum-ledger: what sweep jobs promise

    Scheduling claims eligible requests and publishes their command in one
    step; evidence closes a job exactly once; classification follows chain
    order, whichever of the observation and the evidence arrives first. *)

From S2P Require Import Prelude Core Contracts Bus Tables Attachments Invoices Range Sweeps.
From S2P Require Import RelayIntents Verifications LedgerExample LedgerInv LedgerNotes RangeInv LedgerRuns.

Implicit Types (id : Uuid) (row : DbInvoice.t) (db : Db.t) (now : Timestamp).

(** ** Scheduling *)

Lemma sublist_map {A B} (f : A -> B) (l k : list A) : sublist l k -> sublist (f <$> l) (f <$> k).
Proof. induction 1; simpl; by constructor. Qed.

Lemma take_due_spec policy now n rows out :
  take_due policy now n rows = Ok out ->
  sublist out rows /\ (length out <= n)%nat /\ forall row, row ∈ out -> due policy now row = Ok true.
Proof.
  revert n out. induction rows as [|r rows IH]; intros [|n] out; simpl;
    try (intros [= <-]; split_and!; [apply sublist_nil_l|simpl; lia|]; intros ? Hin;
         by apply not_elem_of_nil in Hin).
  intros H. apply rbind_ok in H as ([] & Hd & H).
  - apply rbind_ok in H as (rest & Hrest & [= <-]). destruct (IH n rest Hrest) as (Hs & Hl & Hdue).
    split_and!; [by apply sublist_skip|simpl; lia|]. intros row [->|Hin]%elem_of_cons; auto.
  - destruct (IH (S n) out H) as (Hs & Hl & Hdue). split_and!; [by apply sublist_cons|done|done].
Qed.

Lemma queue_ids_nodup chain db : ledger_ok db -> NoDup (DbInvoice.id <$> queue chain db).
Proof.
  intros Hok. unfold queue. rewrite sorting.merge_sort_Permutation.
  assert (DbInvoice.id <$> (map_to_list (Db.invoices db)).*2 = (map_to_list (Db.invoices db)).*1) as Hids.
  { rewrite <- list_fmap_compose. apply list_fmap_ext.
    intros i [k r] Hk%list_elem_of_lookup_2%elem_of_map_to_list.
    apply (ro_id _ _ _ (lo_row _ Hok _ _ Hk)). }
  assert (NoDup (DbInvoice.id <$> (map_to_list (Db.invoices db)).*2)) as Hnd
    by (rewrite Hids; apply NoDup_fst_map_to_list).
  revert Hnd. generalize ((map_to_list (Db.invoices db)).*2) as l.
  induction l as [|r l IH]; simpl; [done|]. intros [Hni Hnd]%list.NoDup_cons.
  destruct (_ && _); simpl; [|by auto]. apply list.NoDup_cons. split; [|by auto].
  contradict Hni. apply list_elem_of_fmap in Hni as (r' & -> & Hr').
  apply list_elem_of_In, filter_In in Hr' as [Hr' _]. apply list_elem_of_fmap.
  exists r'. split; [done|]. by apply list_elem_of_In.
Qed.

Lemma eligible_idle db row :
  eligible db row = true ->
  DbInvoice.sweep_job_id row = None /\ DbInvoice.attention_reason row = None /\ DbInvoice.status row <> Created.
Proof.
  unfold eligible. intros H. bools.
  destruct (DbInvoice.sweep_job_id row), (DbInvoice.attention_reason row), (DbInvoice.status row); done.
Qed.

Lemma sweep_item_id parse row b item :
  sweep_item parse row b = Ok item -> SweepItem.invoice_id item = DbInvoice.id row.
Proof. unfold sweep_item. intros H. repeat case_match; inv_ok; done. Qed.

Lemma map_result_ids parse f (rows : list DbInvoice.t) items :
  map_result (fun row => sweep_item parse row (f row)) rows = Ok items ->
  SweepItem.invoice_id <$> items = DbInvoice.id <$> rows.
Proof.
  revert items. induction rows as [|r rows IH]; intros items; simpl; [by intros [= <-]|].
  intros H. apply rbind_ok in H as (it & Hit & H). apply rbind_ok in H as (its & Hits & [= <-]).
  simpl. f_equal; [by eapply sweep_item_id|by apply IH].
Qed.

Section Schedule.
Context (payload_hash : Message -> B256) (parse_address : string -> option Address) (hex : bytes -> string).

(** Scheduling either changes nothing, or opens one job: its
    requests are distinct, at most a batch, each on the chain, eligible (so
    paid, in no job and not set aside for attention) and past its backoff; they, and no other request, join the job; and the
    [SweepBatch] command that names exactly them is on the bus in the same
    state, with one pending delivery for the signers. A halted chain schedules
    nothing. *)
Theorem schedule_opens_job db0 chain policy producer job corr msg now db r db' :
  no_requests db0 -> rtc (ledger_step payload_hash parse_address hex) db0 db ->
  schedule_sweep_job payload_hash parse_address chain policy producer job corr msg now db = Ok (r, db') ->
  match r with
  | None => db' = db
  | Some s =>
      let ids := ScheduledSweepJob.invoice_ids s in
      halted (as_i64 chain) db = false /\ ids <> [] /\ NoDup ids /\
      (length ids <= Z.to_nat (SweepPolicy.batch_size policy))%nat /\
      (forall id, id ∈ ids -> exists row, Db.invoices db !! id = Some row /\
         DbInvoice.chain_id row = Some (as_i64 chain) /\ eligible db row = true /\
         DbInvoice.sweep_job_id row = None /\ DbInvoice.attention_reason row = None /\
         DbInvoice.status row <> Created /\
         due policy now row = Ok true /\ Db.invoices db' !! id = Some (claim_row job now row)) /\
      (forall id, id ∉ ids -> Db.invoices db' !! id = Db.invoices db !! id) /\
      job_open job db' = true /\ ScheduledSweepJob.job_id s = job /\
      (find_message EXECUTION_COMMANDS_TOPIC (Contracts.Command.deduplication_key
          (SweepBatch (SweepBatchCommand.mk job chain []))) (Bus.messages (Db.bus db)) = None ->
       exists m items, Bus.messages (Db.bus db') !! msg = Some m /\
         RawMessage.payload m = MCommand (SweepBatch (SweepBatchCommand.mk job chain items)) /\
         SweepItem.invoice_id <$> items = ids /\
         Bus.deliveries (Db.bus db') !! (msg, "gum-signers") = Some (DeliveryRow.fresh now))
  end.
Proof.
  intros H0 Hr H. pose proof (ledger_steps_ok _ _ _ _ _ Hr (no_requests_ok _ H0)) as Hok.
  unfold schedule_sweep_job in H. destruct (halted _ db) eqn:Hh; [by injection H as <- <-|].
  destruct (is_some (Db.sweep_jobs db !! job)) eqn:Hj; [discriminate|].
  apply rbind_ok in H as (rows & Hrows & H).
  destruct (take_due _ _ _ _) as [rows'|] eqn:Htd; [|discriminate]. injection Hrows as ->.
  destruct rows as [|r0 rows0]; [by injection H as <- <-|].
  assert (r0 :: rows0 <> []) as Hne by done.
  remember (r0 :: rows0) as rows eqn:Er; clear Er r0 rows0.
  destruct (take_due_spec _ _ _ _ _ Htd) as (Hsub & Hlen & Hdue).
  apply rbind_ok in H as (items & Hitems & H). apply map_result_ids in Hitems.
  destruct (publish _ _ _ _ _ _ _ _) as [[outcome bus]|] eqn:Hpub; [|discriminate].
  injection H as <- <-. cbn [ScheduledSweepJob.invoice_ids ScheduledSweepJob.job_id Db.invoices Db.bus].
  assert (DbInvoice.id <$> (claim_row job now <$> rows) = DbInvoice.id <$> rows) as Eids
    by (by rewrite <- list_fmap_compose).
  rewrite Eids in *. split_and!; try done.
  - intros Hnil. apply fmap_nil_inv in Hnil. done.
  - eapply sublist_NoDup; [apply (queue_ids_nodup (as_i64 chain) db Hok)|]. by apply sublist_map.
  - by rewrite length_fmap.
  - intros id Hin. pose proof Hin as (row & -> & Hrow)%list_elem_of_fmap.
    assert (row ∈ queue (as_i64 chain) db) as Hq by (by eapply elem_of_sublist).
    apply queue_elem in Hq as ([id Hid] & Hc & He).
    pose proof (ro_id _ _ _ (lo_row _ Hok _ _ Hid)) as Hrid. rewrite Hrid in *. exists row.
    destruct (eligible_idle _ _ He) as (I1 & I2 & I3).
    split_and!; [done|done|done|done|done|done|by apply Hdue|]. rewrite claim_rows_lookup, bool_decide_eq_true_2, Hid by done.
    done.
  - intros id Hni. by rewrite claim_rows_lookup, bool_decide_eq_false_2.
  - unfold job_open. simpl. by rewrite lookup_insert_eq.
  - intros Hfresh. destruct (publish_published _ _ _ _ _ _ _ _ _ _ Hpub)
      as [(k & m & _ & _ & Hk & Ht & Hkey)|(_ & _ & _ & Hm & Hd)].
    + exfalso. by apply (find_message_none _ _ _ Hfresh k m Hk Ht).
    + rewrite Hm, Hd. eexists _, items. rewrite lookup_insert_eq, fan_out_lookup.
      split_and!; [done|done|done|]. rewrite bool_decide_eq_true_2; [done|]. split; [done|by left].
Qed.

End Schedule.

(** ** A job closes once *)

Definition closed_jobs_kept (db db' : Db.t) : Prop :=
  forall j job, Db.sweep_jobs db !! j = Some job -> SweepJob.is_open job = false ->
    Db.sweep_jobs db' !! j = Some job.

#[local] Instance closed_jobs_kept_preorder : PreOrder closed_jobs_kept.
Proof. split; [by intros db j job|]. intros a b c H K j job Hj Hc. eauto. Qed.

Lemma kept_same db db' : Db.sweep_jobs db' = Db.sweep_jobs db -> closed_jobs_kept db db'.
Proof. intros E j job. by rewrite E. Qed.

Lemma kept_open db db' j job' :
  Db.sweep_jobs db' = <[j := job']> (Db.sweep_jobs db) ->
  (forall job, Db.sweep_jobs db !! j = Some job -> SweepJob.is_open job = true) ->
  closed_jobs_kept db db'.
Proof.
  intros E Ho i job Hi Hc. rewrite E. rewrite lookup_insert_ne; [done|]. intros ->.
  specialize (Ho _ Hi). congruence.
Qed.

Lemma flag_jobs id reason now db :
  Db.sweep_jobs (snd (flag_attention_in id reason now db)) = Db.sweep_jobs db.
Proof. unfold flag_attention_in. repeat case_match; done. Qed.

Lemma apply_drain_jobs receipt row d now db db' :
  apply_drain receipt row d now db = Ok db' -> Db.sweep_jobs db' = Db.sweep_jobs db.
Proof.
  unfold apply_drain. intros H. repeat case_match; inv_ok; [|done]. by rewrite flag_jobs.
Qed.

Lemma apply_item_jobs receipt policy now s item s' :
  apply_item receipt policy now s item = Ok s' -> Db.sweep_jobs (snd s') = Db.sweep_jobs (snd s).
Proof.
  destruct s as [applied db]. unfold apply_item. intros H.
  apply rbind_ok in H as (row & _ & H). destruct (negb _); [discriminate|].
  apply rbind_ok in H as ([applied' db'] & Hdec & [= <-]). simpl.
  destruct (decide_item _ _ _ _); [|injection Hdec as <- <-; done|].
  - apply rbind_ok in Hdec as (db1 & Hdr & [= <- <-]). by eapply apply_drain_jobs.
  - injection Hdec as <- <-. by rewrite flag_jobs.
Qed.

Lemma apply_items_jobs receipt policy now s items s' :
  try_fold (apply_item receipt policy now) s items = Ok s' -> Db.sweep_jobs (snd s') = Db.sweep_jobs (snd s).
Proof.
  apply (try_fold_ind _ (fun t => Db.sweep_jobs (snd t) = Db.sweep_jobs (snd s))); [|done].
  intros t item t' _ E H. by rewrite <- E; eapply apply_item_jobs.
Qed.

Lemma resolve_job_parts job res detail tx now db db' :
  resolve_job job res detail tx now db = Ok db' ->
  exists j j', Db.sweep_jobs db !! job = Some j /\ SweepJob.is_open j = true /\
    SweepJob.is_open j' = false /\ SweepJob.resolution j' = Some res /\
    Db.sweep_jobs db' = <[job := j']> (Db.sweep_jobs db) /\ Db.invoices db' = Db.invoices db.
Proof.
  unfold resolve_job. intros H. destruct (Db.sweep_jobs db !! job) as [j|]; [|discriminate].
  destruct (SweepJob.is_open j) eqn:Ho; [|discriminate]. injection H as <-.
  eexists j, _. split_and!; try done. all: by simpl.
Qed.

Lemma finalized_parts receipt policy now db applied db' :
  apply_sweep_finalized receipt policy now db = Ok (applied, db') ->
  exists db1, try_fold (apply_item receipt policy now) (AppliedSweep.empty, db)
      (FinalizedSweep.items receipt) = Ok (applied, db1) /\
    job_open (FinalizedSweep.job_id receipt) db = true /\
    row_count (in_job (FinalizedSweep.job_id receipt)) (Db.invoices db1) = 0 /\
    resolve_job (FinalizedSweep.job_id receipt) "finalized" None
      (Some (FinalizedSweep.tx_hash receipt)) now db1 = Ok db'.
Proof.
  unfold apply_sweep_finalized. intros H. destruct (job_open _ db) eqn:Ho; [|discriminate]. simpl in H.
  apply rbind_ok in H as ([applied1 db1] & Hf & H).
  destruct (Z.eqb_spec (row_count (in_job (FinalizedSweep.job_id receipt)) (Db.invoices db1)) 0);
    [|discriminate]. apply rbind_ok in H as (db2 & Hres & [= <- <-]). eauto.
Qed.

Lemma resolve_job_kept job res detail tx now db db' :
  resolve_job job res detail tx now db = Ok db' -> closed_jobs_kept db db'.
Proof.
  intros (j & j' & Hj & Ho & _ & _ & E & _)%resolve_job_parts. eapply kept_open; [exact E|]. congruence.
Qed.

Lemma close_kept job res detail tx now db n db' :
  close_without_effect job res detail tx now db = Ok (n, db') -> closed_jobs_kept db db'.
Proof.
  unfold close_without_effect. intros H. destruct (negb _); [discriminate|].
  apply rbind_ok in H as (db2 & Hres & [= <- <-]). by apply resolve_job_kept in Hres.
Qed.

Section JobRuns.
Context (payload_hash : Message -> B256) (parse_address : string -> option Address) (hex : bytes -> string).

Lemma range_jobs chain expected block hash ts obs now db r db' :
  apply_finalized_range chain expected block hash ts obs now db = Ok (r, db') ->
  Db.sweep_jobs db' = Db.sweep_jobs db.
Proof.
  unfold apply_finalized_range. intros H. apply rbind_ok in H as (stored & _ & H).
  case_bool_decide; [|by inv_ok].
  unfold apply_range_body in H. apply rbind_ok in H as (credits0 & _ & H).
  apply rbind_ok in H as ([credits table] & _ & H).
  destruct (apply_credits now credits (Db.invoices db)) as [invoices fs].
  unfold expire_bound in H. apply rbind_ok in H as (db3 & Hc & [= <- <-]).
  unfold store_cursor in Hc. destruct (_ && _); [|discriminate]. by injection Hc as <-.
Qed.

Lemma issue_jobs input a utc now db r db' :
  insert_issued hex input a utc now db = Ok (r, db') -> Db.sweep_jobs db' = Db.sweep_jobs db.
Proof.
  unfold insert_issued. intros H. destruct (find_by_idempotency_key _ _ _); [by inv_ok|].
  repeat (match type of H with (if _ then Err _ else _) = _ => case_match; [discriminate|] end).
  apply rbind_ok in H as ([att db2] & Hatt & H).
  assert (Db.sweep_jobs db2 = Db.sweep_jobs db) as E.
  { destruct a; [|by inv_ok].
    destruct (Attachment.attach_in_transaction _ _ _ _ _) as [[? ?]|] eqn:Ea; [|discriminate].
    apply Attachment.attach_update in Ea. unfold Attachment.update_upload in Ea.
    repeat case_match; by inv_ok. }
  injection H as <- <-. by destruct (CreateInvoiceInput.payer_notification_email input).
Qed.

Lemma store_jobs id row db db' : store_invoice id row db = Ok db' -> Db.sweep_jobs db' = Db.sweep_jobs db.
Proof. unfold store_invoice. intros H. repeat case_match; by inv_ok. Qed.

Lemma bind_jobs id session attempt b utc now db r db' :
  bind_payer_wallet id session attempt b utc now db = Ok (r, db') -> Db.sweep_jobs db' = Db.sweep_jobs db.
Proof.
  unfold bind_payer_wallet. intros H. apply rbind_ok in H as (row & _ & H).
  destruct (is_some _); [by inv_ok|]. destruct (_ || _ || _); [by inv_ok|].
  apply rbind_ok in H as (w & _ & H). apply rbind_ok in H as (db1 & Hst%store_jobs & H).
  destruct (negb _); [discriminate|]. destruct (is_some (Db.payer_verifications _ !! _)); [discriminate|].
  by injection H as <- <-.
Qed.

Lemma bind_network_jobs id b utc now db r db' :
  bind_network id b utc now db = Ok (r, db') -> Db.sweep_jobs db' = Db.sweep_jobs db.
Proof.
  unfold bind_network. intros H. apply rbind_ok in H as (row & _ & H).
  destruct (_ && _); [|destruct (is_some _); by inv_ok].
  by apply rbind_ok in H as (db1 & Hst%store_jobs & [= <- <-]).
Qed.

Lemma schedule_kept chain policy producer job corr msg now db r db' :
  schedule_sweep_job payload_hash parse_address chain policy producer job corr msg now db = Ok (r, db') ->
  closed_jobs_kept db db'.
Proof.
  unfold schedule_sweep_job. intros H. destruct (halted _ db); [by inv_ok|].
  destruct (Db.sweep_jobs db !! job) eqn:Hj; [discriminate|]. simpl in H.
  apply rbind_ok in H as (rows & _ & H). destruct rows as [|r0 rows0]; [by inv_ok|].
  apply rbind_ok in H as (items & _ & H). destruct (publish _ _ _ _ _ _ _ _) as [[? ?]|]; [|discriminate].
  injection H as <- <-. eapply kept_open; [done|]. congruence.
Qed.

Lemma submission_kept job tx now db : closed_jobs_kept db (record_sweep_submission job tx now db).
Proof.
  intros j r Hj Hc. unfold record_sweep_submission. simpl. destruct (decide (job = j)) as [->|Hne].
  - rewrite lookup_alter_eq, Hj. simpl. by rewrite Hc.
  - by rewrite lookup_alter_ne.
Qed.

Lemma ledger_step_kept db db' : ledger_step payload_hash parse_address hex db db' -> closed_jobs_kept db db'.
Proof.
  intros [].
  - apply kept_same. by eapply issue_jobs.
  - apply kept_same. by eapply bind_jobs.
  - apply kept_same. by eapply bind_network_jobs.
  - by apply kept_same.
  - apply kept_same. unfold request_cancellation. by repeat case_match.
  - apply kept_same. unfold release_attention in *. repeat case_match; by inv_ok.
  - apply kept_same. by eapply range_jobs.
  - by eapply schedule_kept.
  - apply kept_same, flag_jobs.
  - by apply submission_kept.
  - match goal with H : apply_sweep_finalized _ _ _ _ = _ |- _ =>
      apply finalized_parts in H as (db1 & Hf & _ & _ & Hres) end.
    trans db1; [|by eapply resolve_job_kept]. apply kept_same. by apply apply_items_jobs in Hf.
  - by eapply close_kept.
  - by eapply close_kept.
  - apply kept_same. by apply nt_jobs, relay_step_noted.
  - apply kept_same. by apply nt_jobs, verification_step_noted.
Qed.

Lemma ledger_steps_kept db db' :
  rtc (ledger_step payload_hash parse_address hex) db db' -> closed_jobs_kept db db'.
Proof. induction 1; [done|]. etrans; [by eapply ledger_step_kept|done]. Qed.

Lemma closed_rejects job db j :
  Db.sweep_jobs db !! job = Some j -> SweepJob.is_open j = false ->
  (forall receipt policy now, FinalizedSweep.job_id receipt = job ->
     apply_sweep_finalized receipt policy now db = Err (NotOpen job)) /\
  (forall reason now, apply_sweep_abandoned job reason now db = Err (NotOpen job)) /\
  (forall reason now, apply_sweep_rejected job reason now db = Err (NotOpen job)).
Proof.
  intros Hj Hc. assert (job_open job db = false) as Ho by (unfold job_open; by rewrite Hj).
  split_and!; intros *; unfold apply_sweep_finalized, apply_sweep_abandoned, apply_sweep_rejected,
    close_without_effect; [intros ->|..]; by rewrite Ho.
Qed.

Lemma apply_item_members receipt policy now s item s' job id row :
  apply_item receipt policy now s item = Ok s' -> SweepItemResult.invoice_id item <> id ->
  ledger_ok (snd s) -> Db.invoices (snd s) !! id = Some row -> DbInvoice.sweep_job_id row = Some job ->
  exists row', Db.invoices (snd s') !! id = Some row' /\ DbInvoice.sweep_job_id row' = Some job.
Proof.
  destruct s as [applied db]. unfold apply_item. intros H Hne Hok Hid Hj. cbn [snd] in *.
  apply rbind_ok in H as (r & Hr%ok_or_ok & H). destruct (negb _); [discriminate|].
  apply rbind_ok in H as ([applied' db'] & Hdec & [= <-]). cbn [snd Db.invoices].
  pose proof (ro_id _ _ _ (lo_row _ Hok _ _ Hr)) as Hrid.
  assert (Db.invoices db' !! id = Some row); [|by eauto].
  assert (forall reason db2, Db.invoices db2 !! id = Some row ->
    Db.invoices (snd (flag_attention_in (SweepItemResult.invoice_id item) reason now db2)) !! id = Some row)
    as Hflag.
  { intros reason db2 H2. unfold flag_attention_in. repeat case_match; simpl; try done;
      by rewrite lookup_insert_ne. }
  destruct (decide_item _ _ _ _) as [d| |reason].
  - apply rbind_ok in Hdec as (db1 & Hdr & [= <- <-]). unfold apply_drain in Hdr.
    rewrite Hrid in Hdr. repeat (case_match; try discriminate); inv_ok; [apply Hflag|];
      simpl; by rewrite lookup_alter_ne.
  - injection Hdec as <- <-. unfold requeue, set_invoice. simpl. by rewrite lookup_alter_ne.
  - injection Hdec as <- <-. apply Hflag. unfold requeue, set_invoice. simpl. by rewrite lookup_alter_ne.
Qed.

Lemma apply_items_members receipt policy now s items s' job id row :
  try_fold (apply_item receipt policy now) s items = Ok s' ->
  id ∉ SweepItemResult.invoice_id <$> items -> ledger_ok (snd s) ->
  Db.invoices (snd s) !! id = Some row -> DbInvoice.sweep_job_id row = Some job ->
  exists row', Db.invoices (snd s') !! id = Some row' /\ DbInvoice.sweep_job_id row' = Some job.
Proof.
  revert s row. induction items as [|item items IH]; intros s row; simpl.
  - intros [= <-] _ _ Hid Hj. eauto.
  - intros (s1 & H1 & H)%rbind_ok [Hne Hni]%not_elem_of_cons Hok Hid Hj.
    destruct (apply_item_members _ _ _ _ _ _ job id row H1) as (row1 & Hid1 & Hj1); try done.
    eapply IH; [exact H|done|by eapply apply_item_ok|done|done].
Qed.

(** C17. A job's evidence is applied at most once and to the whole job:
    when a receipt commits, it named every request the job held, none is left in
    the job, the job is closed as finalized, and in every later state any
    further evidence for that job (a redelivered receipt, an abandonment, a
    rejection) is refused with [NotOpen]. *)
Theorem evidence_closes_job_once db0 db receipt policy now applied db' db'' :
  no_requests db0 -> rtc (ledger_step payload_hash parse_address hex) db0 db ->
  apply_sweep_finalized receipt policy now db = Ok (applied, db') ->
  rtc (ledger_step payload_hash parse_address hex) db' db'' ->
  let job := FinalizedSweep.job_id receipt in
  (forall id row, Db.invoices db !! id = Some row -> DbInvoice.sweep_job_id row = Some job ->
     id ∈ SweepItemResult.invoice_id <$> FinalizedSweep.items receipt) /\
  (forall id row, Db.invoices db' !! id = Some row -> DbInvoice.sweep_job_id row <> Some job) /\
  (exists j, Db.sweep_jobs db'' !! job = Some j /\ SweepJob.resolution j = Some "finalized") /\
  (forall receipt2 policy2 now2, FinalizedSweep.job_id receipt2 = job ->
     apply_sweep_finalized receipt2 policy2 now2 db'' = Err (NotOpen job)) /\
  (forall reason now2, apply_sweep_abandoned job reason now2 db'' = Err (NotOpen job)) /\
  (forall reason now2, apply_sweep_rejected job reason now2 db'' = Err (NotOpen job)).
Proof.
  intros H0 Hr H Hr' job. pose proof (ledger_steps_ok _ _ _ _ _ Hr (no_requests_ok _ H0)) as Hok.
  apply finalized_parts in H as (db1 & Hf & _ & Hz & Hres). rewrite row_count_zero in Hz.
  destruct (resolve_job_parts _ _ _ _ _ _ _ Hres) as (j & j' & _ & _ & Hc & Hrs & E & Ei).
  assert (Db.sweep_jobs db'' !! job = Some j') as Hj''.
  { eapply ledger_steps_kept; [exact Hr'|by rewrite E, lookup_insert_eq|done]. }
  assert (forall id row, Db.invoices db1 !! id = Some row -> DbInvoice.sweep_job_id row <> Some job) as Hout.
  { intros id row Hid Hj. specialize (Hz id row Hid). unfold in_job in Hz. by bools. }
  split_and!; [|by rewrite Ei|by eauto|by apply (closed_rejects job db'' j')..].
  intros id row Hid Hj. destruct (decide (id ∈ SweepItemResult.invoice_id <$> FinalizedSweep.items receipt))
    as [|Hni]; [done|].
  destruct (apply_items_members _ _ _ _ _ _ job id row Hf Hni Hok Hid Hj) as (row' & Hid' & Hj').
  by destruct (Hout id row').
Qed.

End JobRuns.

(** ** Classification follows chain order *)

Definition receipt_at (receipt : FinalizedSweep.t) : position :=
  (as_i64 (FinalizedSweep.block receipt), as_i64 (FinalizedSweep.transaction_index receipt)).

Definition drained_table (receipt : FinalizedSweep.t) (row : DbInvoice.t) (d : Drain.t) (table : ObsTable) :=
  reclassify (DbInvoice.id row) (classification_position row d) (DbInvoice.expiration_timestamp row)
    ("invoice_" +:+ InvoiceStatus.as_str (default (DbInvoice.status row) (Drain.status d)))
    (mark_collected (DbInvoice.id row) (receipt_at receipt) table).

(** The settlement a drain leaves is the position it classified by. *)
Definition settles (row : DbInvoice.t) (d : Drain.t) : Prop :=
  DbInvoice.settlement_at row <> None \/
  (Drain.status d <> None /\ DbInvoice.resolved_at_block row = None /\
   DbInvoice.settlement_transaction_index row = None).

Lemma drained_settlement receipt d table now row :
  settles row d ->
  DbInvoice.settlement_at (drained_row receipt d table now row) = Some (classification_position row d).
Proof.
  unfold settles, classification_position, DbInvoice.settlement_at, drained_row. simpl.
  destruct (DbInvoice.resolved_at_block row), (DbInvoice.settlement_transaction_index row),
    (Drain.status d); simpl; naive_solver.
Qed.

Lemma apply_drain_row receipt row d now db db' :
  apply_drain receipt row d now db = Ok db' -> Db.invoices db !! DbInvoice.id row = Some row ->
  Db.payment_observations db' = drained_table receipt row d (Db.payment_observations db) /\
  exists row' table, Db.invoices db' !! DbInvoice.id row = Some row' /\
    DbInvoice.issuance row' = DbInvoice.issuance row /\
    DbInvoice.drained_at row' = Some (receipt_at receipt) /\
    DbInvoice.settlement_at row' = DbInvoice.settlement_at (drained_row receipt d table now row).
Proof.
  unfold apply_drain. intros H Hid. fold (receipt_at receipt) in H.
  destruct (negb (positions_allowed _ _)); [discriminate|].
  destruct (_ && negb (bool_decide _)); [discriminate|]. injection H as <-.
  set (tbl := reclassify _ _ _ _ _). fold (drained_table receipt row d (Db.payment_observations db)) in tbl.
  destruct (Drain.attention d) as [reason|].
  - unfold flag_attention_in. simpl. rewrite lookup_alter_eq, Hid. simpl.
    destruct (is_some (DbInvoice.attention_reason row)); simpl; [|destruct (Db.accounts db !! _); simpl];
      (split; [done|]); rewrite ?lookup_alter_eq, ?lookup_insert_eq, ?Hid; by eexists _, tbl.
  - simpl. split; [done|]. rewrite lookup_alter_eq, Hid. by eexists _, tbl.
Qed.

(** One nonzero observation of the request, as each order leaves it. *)
Lemma early_observation receipt row d o :
  Observation.invoice_id o = DbInvoice.id row -> Observation.is_error o = false ->
  exists o', (forall table k, drained_table receipt row d (<[k := o]> table) =
      <[k := o']> (drained_table receipt row d table)) /\
    Observation.invoice_id o' = DbInvoice.id row /\ Observation.amount o' = Observation.amount o /\
    Observation.disposition o' =
      (if (Observation.block_timestamp o <=? DbInvoice.expiration_timestamp row)
          && position_lt (Observation.at_ o) (classification_position row d) then Credited else Late) /\
    is_some (Observation.collected_at o') =
      is_some (Observation.collected_at o) || position_lt (Observation.at_ o) (receipt_at receipt).
Proof.
  intros Hinv He.
  assert (of_invoice (DbInvoice.id row) o = true) as Hof by (by apply Z.eqb_eq).
  eexists. split; [intros table k; unfold drained_table, reclassify, mark_collected, update_where;
    rewrite !fmap_insert; done|].
  unfold of_invoice, Observation.is_error in *. rewrite Hof, He. simpl.
  destruct (Observation.collected_at o) eqn:Hc; simpl.
  - rewrite Hof, He. simpl. by rewrite Hc.
  - destruct (position_lt (Observation.at_ o) (receipt_at receipt)) eqn:Hp; simpl;
      rewrite Hof, He; simpl; by rewrite ?Hc.
Qed.

Lemma load_credit_fields db row addr credit credits :
  load_credit db ∅ row = Ok credits -> credits !! addr = Some credit ->
  InvoiceCredit.id credit = DbInvoice.id row /\
  InvoiceCredit.expiration_timestamp credit = as_u64 (DbInvoice.expiration_timestamp row) /\
  InvoiceCredit.drained_at credit = DbInvoice.drained_at row /\
  InvoiceCredit.settlement_at credit = DbInvoice.settlement_at row.
Proof.
  unfold load_credit. intros H Hc. apply rbind_ok in H as (? & _ & H). apply rbind_ok in H as (? & _ & H).
  destruct (DbInvoice.payment_address row), (DbInvoice.token_address row); inv_ok;
    try (rewrite lookup_empty in Hc; discriminate).
  apply lookup_insert_Some in Hc as [[_ <-]|[_ Hc]]; [done|]. by rewrite lookup_empty in Hc.
Qed.

Lemma observation_row_timestamp now c o :
  Observation.block_timestamp (observation_row now c o) = as_i64 (PaymentObservation.block_timestamp o).
Proof. unfold observation_row. by destruct (classify c o). Qed.

Lemma late_classify c o p :
  is_zero o = false -> InvoiceCredit.settlement_at c = Some p ->
  fst (classify c o) =
  if position_lt (position_of o) p
     && (PaymentObservation.block_timestamp o <=? InvoiceCredit.expiration_timestamp c)
  then Credited else Late.
Proof.
  intros Hz Hs. unfold classify, accepting. rewrite Hz, Hs. simpl. rewrite orb_true_r, andb_true_r.
  by repeat case_match.
Qed.

(** C4. Classification is a function of chain order. Take a transfer to
    a request and a sweep that settles the request (or collects after its
    settlement), drains arriving in chain order. Whether the transfer is
    observed before the sweep's evidence is applied or after it, every request
    ends with the same credited total and the same number of transfers still to
    collect. *)
Theorem classification_follows_chain_order (receipt : FinalizedSweep.t) row (rowB : DbInvoice.t) (d : Drain.t)
    (o : PaymentObservation.t) (key : ObservationKey) now (t1 t2 : Timestamp) (db dbA dbB : Db.t)
    (creditsA creditsB : gmap (list Z) InvoiceCredit.t) (creditA creditB : InvoiceCredit.t) :
  Db.invoices db !! DbInvoice.id row = Some row -> settles row d ->
  (forall p, DbInvoice.drained_at row = Some p -> position_lt (receipt_at receipt) p = false) ->
  0 <= DbInvoice.expiration_timestamp row < 2 ^ 63 ->
  0 < PaymentObservation.amount o -> 0 <= PaymentObservation.block_timestamp o < 2 ^ 63 ->
  Db.payment_observations db !! key = None ->
  load_credit db ∅ row = Ok creditsA -> creditsA !! PaymentObservation.recipient o = Some creditA ->
  apply_drain receipt row d now {| db with Db.payment_observations :=
    <[key := observation_row t1 creditA o]> (Db.payment_observations db) |} = Ok dbA ->
  apply_drain receipt row d now db = Ok dbB ->
  Db.invoices dbB !! DbInvoice.id row = Some rowB ->
  load_credit dbB ∅ rowB = Ok creditsB -> creditsB !! PaymentObservation.recipient o = Some creditB ->
  let tableA := Db.payment_observations dbA in
  let tableB := <[key := observation_row t2 creditB o]> (Db.payment_observations dbB) in
  forall id, credited_of id tableA = credited_of id tableB /\
             uncollected_of id tableA = uncollected_of id tableB.
Proof.
  intros Hid Hset Hmono Hexp Ham Hts Hkey HlA HcA HA HB HrB HlB HcB tableA tableB id.
  destruct (load_credit_fields _ _ _ _ _ HlA HcA) as (IA & _ & DA & _).
  destruct (load_credit_fields _ _ _ _ _ HlB HcB) as (IB & XB & DB & SB).
  apply apply_drain_row in HA as [TA _]; [|exact Hid].
  apply apply_drain_row in HB as [TB (rowB' & tb & Hr & Hiss & Hdr & Hse)]; [|exact Hid].
  assert (rowB' = rowB) as -> by congruence.
  rewrite (drained_settlement _ _ _ _ _ Hset) in Hse. rewrite Hse in SB. rewrite Hdr in DB.
  assert (is_zero o = false) as Hz by (unfold is_zero; lia).
  destruct (observation_row_fields t1 creditA o) as (A1 & A2 & A3 & A4 & A5).
  destruct (observation_row_fields t2 creditB o) as (B1 & B2 & B3 & B4 & B5).
  destruct (early_observation receipt row d (observation_row t1 creditA o)) as (oA & TI & E1 & E2 & E3 & E4).
  { congruence. }
  { unfold Observation.is_error. rewrite A3. apply bool_decide_eq_false_2. rewrite classify_error. lia. }
  subst tableA tableB. rewrite TA, TB. simpl. rewrite TI.
  assert (drained_table receipt row d (Db.payment_observations db) !! key = None) as Hk.
  { unfold drained_table, reclassify, mark_collected. by rewrite !lookup_update_where, Hkey. }
  rewrite !credited_of_insert, !uncollected_of_insert by done.
  assert (Observation.disposition (observation_row t2 creditB o) = Observation.disposition oA) as Ed.
  { rewrite E3, B3, A5, (late_classify creditB o (classification_position row d)) by done.
    rewrite observation_row_timestamp, as_i64_small, XB by lia.
    unfold DbInvoice.expiration_timestamp in *. rewrite Hiss, as_u64_nonneg by lia.
    by rewrite andb_comm. }
  assert (is_some (Observation.collected_at (observation_row t2 creditB o)) =
          is_some (Observation.collected_at oA)) as Ec.
  { rewrite E4, A4, B4, A5. unfold collected_at. rewrite Hz, DA, DB.
    destruct (position_lt (position_of o) (receipt_at receipt)) eqn:Hp; simpl; [by rewrite orb_true_r|].
    destruct (DbInvoice.drained_at row) as [p|]; [|done].
    destruct (position_lt (position_of o) p) eqn:Hp'; [|done].
    exfalso. specialize (Hmono p eq_refl). apply not_true_iff_false in Hp, Hmono.
    rewrite position_lt_iff in *. lia. }
  unfold of_invoice, Observation.is_credited, Observation.is_error. rewrite Ed, Ec, E1, B1, IB, E2, A2, B2.
  unfold DbInvoice.id. by rewrite Hiss.
Qed.

(** ** Two ways the settlement and the queue go wrong *)

(** A request that is still open when the signers cannot tell how
    its contract settled is flagged [settlement_unknown]; but the drain also
    stamps the collecting transaction as the request's settlement transaction,
    so the next collection of the same open request, just as unexplained, is
    applied without any flag. *)
Theorem unknown_settlement_flagged_once row receipt1 receipt2 amount1 amount2 policy table now :
  InvoiceStatus.is_terminal (DbInvoice.status row) = false -> DbInvoice.settlement_tx_hash row = None ->
  exists d1 d2,
    decide_item row receipt1 (LateCollected amount1 None) policy = Drained d1 /\
    Drain.status d1 = None /\ Drain.attention d1 = Some SETTLEMENT_UNKNOWN /\
    let row' := drained_row receipt1 d1 table now row in
    DbInvoice.status row' = DbInvoice.status row /\
    DbInvoice.resolved_at_block row' = DbInvoice.resolved_at_block row /\
    DbInvoice.settlement_tx_hash row' = Some (FinalizedSweep.tx_hash receipt1) /\
    decide_item row' receipt2 (LateCollected amount2 None) policy = Drained d2 /\
    Drain.status d2 = None /\ Drain.attention d2 = None.
Proof.
  intros Ht Hs. unfold decide_item at 1, own_drain at 1. rewrite Ht, Hs. simpl.
  eexists _, _. split; [reflexivity|]. split; [reflexivity|]. split; [reflexivity|].
  cbn [drained_row DbInvoice.status DbInvoice.resolved_at_block DbInvoice.settlement_tx_hash Drain.status
       Drain.settlement_tx_hash is_some default]. rewrite Hs. unfold decide_item.
  split; [reflexivity|]. split; [reflexivity|]. split; [reflexivity|].
  cbn [DbInvoice.status DbInvoice.settlement_tx_hash]. rewrite Ht. simpl.
  split; [reflexivity|]. split; reflexivity.
Qed.

(** The backoff of the queue is computed in double precision
    before it is capped: a request that has been retried 1024 times (a paused
    token is retried without bound) makes the scheduling query itself fail, so
    nothing on its chain is scheduled any more. *)
Theorem scheduling_fails_after_1024_retries hash parse chain policy producer job corr msg now db row rest last :
  halted (as_i64 chain) db = false -> Db.sweep_jobs db !! job = None ->
  1 <= SweepPolicy.batch_size policy -> queue (as_i64 chain) db = row :: rest ->
  DbInvoice.last_attempt_at row = Some last -> 1024 <= DbInvoice.sweep_attempts row ->
  schedule_sweep_job hash parse chain policy producer job corr msg now db
  = Err (SweepDatabase NumericOutOfRange).
Proof.
  intros Hh Hj Hb Hq Hl Ha. unfold schedule_sweep_job. rewrite Hh, Hj, Hq. simpl.
  destruct (Z.to_nat (SweepPolicy.batch_size policy)) as [|n] eqn:En; [lia|]. simpl.
  unfold due, backoff_secs. rewrite Hl. apply Z.leb_le in Ha. by rewrite Ha.
Qed.

Module SweepExample.
Import LedgerExample RunExample.

Lemma schedule_opens_job_witness :
  halted chain paid = false /\ NoDup [1] /\ job_open 50 scheduled = true.
Proof.
  destruct (schedule_opens_job hash parse hex start chain SweepPolicy.default "gum-server" 50 51 52 3000 paid
    (Some (ScheduledSweepJob.mk 50 51 [1])) scheduled fresh_start run_paid ltac:(vm_compute; reflexivity))
    as (H1 & _ & H2 & _ & _ & _ & H3 & _). exact (conj H1 (conj H2 H3)).
Defined.

Lemma evidence_closes_job_once_witness :
  apply_sweep_finalized receipt SweepPolicy.default 5000 swept = Err (NotOpen 50) /\
  apply_sweep_rejected 50 "late" 5000 swept = Err (NotOpen 50).
Proof.
  destruct (evidence_closes_job_once hash parse hex start scheduled receipt SweepPolicy.default 4000
    (AppliedSweep.mk [1] [] [] [] []) swept swept fresh_start run_scheduled ltac:(vm_compute; reflexivity)
    (rtc_refl _ _)) as (_ & _ & _ & H1 & _ & H2).
  exact (conj (H1 receipt SweepPolicy.default 5000 eq_refl) (H2 "late" 5000)).
Defined.

(** A transfer mined before the sweep but indexed around its evidence. *)
Definition straggler : PaymentObservation.t := transfer 5 7 150 1800000900.
Definition straggler_key : ObservationKey := observation_key chain straggler.
Definition drain : Drain.t :=
  Drain.mk (Some Fulfilled) true sweep_tx 200 3 1900000100 [] None.
Definition credit_in (db : Db.t) : InvoiceCredit.t :=
  match load_credit db ∅ (row_of db) with
  | Ok cs => default (InvoiceCredit.mk 0 Created 0 0 0 None None 0 false [] None None None []) (cs !! address)
  | Err _ => InvoiceCredit.mk 0 Created 0 0 0 None None 0 false [] None None None []
  end.
Definition early : Db.t := {| scheduled with Db.payment_observations :=
  <[straggler_key := observation_row 3500 (credit_in scheduled) straggler]>
    (Db.payment_observations scheduled) |}.
Definition drained_from (db : Db.t) : Db.t :=
  match apply_drain receipt (row_of scheduled) drain 4000 db with Ok db' => db' | Err _ => db end.

Lemma classification_follows_chain_order_witness :
  credited_of 1 (Db.payment_observations (drained_from early)) =
  credited_of 1 (<[straggler_key := observation_row 4500 (credit_in (drained_from scheduled)) straggler]>
    (Db.payment_observations (drained_from scheduled))).
Proof.
  refine (proj1 (classification_follows_chain_order receipt (row_of scheduled)
    (row_of (drained_from scheduled)) drain straggler straggler_key 4000 3500 4500 scheduled
    (drained_from early) (drained_from scheduled)
    {[ address := credit_in scheduled ]} {[ address := credit_in (drained_from scheduled) ]}
    (credit_in scheduled) (credit_in (drained_from scheduled)) _ _ _ _ _ _ _ _ _ _ _ _ _ _ 1)).
  all: try (vm_compute; reflexivity).
  - right. split; [discriminate|]. split; reflexivity.
  - discriminate.
  - vm_compute. split; [discriminate|reflexivity].
  - vm_compute. split; [discriminate|reflexivity].
Defined.

Lemma unknown_settlement_flagged_once_witness :
  exists d1 d2, decide_item (row_of scheduled) receipt (LateCollected 5 None) SweepPolicy.default = Drained d1 /\
    Drain.attention d1 = Some SETTLEMENT_UNKNOWN /\ Drain.attention d2 = None.
Proof.
  destruct (unknown_settlement_flagged_once (row_of scheduled) receipt receipt 5 6 SweepPolicy.default ∅ 4000
    eq_refl eq_refl) as (d1 & d2 & H1 & _ & H2 & _ & _ & _ & _ & _ & H3).
  exists d1, d2. exact (conj H1 (conj H2 H3)).
Defined.

Definition retried : DbInvoice.t := let row := row_of paid in {| row with
  DbInvoice.sweep_attempts := 1024; DbInvoice.last_attempt_at := Some 2500 |}.
Definition stuck : Db.t := {| paid with Db.invoices := {[ 1 := retried ]} |}.

Lemma scheduling_fails_after_1024_retries_witness :
  schedule_sweep_job hash parse chain SweepPolicy.default "gum-server" 50 51 52 3000 stuck
  = Err (SweepDatabase NumericOutOfRange).
Proof.
  apply (scheduling_fails_after_1024_retries hash parse chain SweepPolicy.default "gum-server" 50 51 52 3000
    stuck retried [] 2500); try (vm_compute; reflexivity); vm_compute; discriminate.
Defined.

End SweepExample.
