(* ===== verification/RelayTheorems.v ===== *)
(** * gum-ledger: what relay attribution guarantees

    The invariant [relay_ok] of every reachable ledger: a transfer is parked
    only while a sent intent of its request may explain it, a transfer is
    attributed only to an intent that a receipt filled, for exactly the quoted
    amount, and one origin transaction fills one intent.  It spans crediting
    ([Range]), which parks and attributes, and the repository of intents,
    which resolves. *)

From S2P Require Import Prelude Core Contracts Bus Tables Attachments Invoices Range Sweeps.
From S2P Require Import RelayIntents Verifications LedgerExample LedgerInv LedgerNotes RangeInv LedgerRuns.

Implicit Types (id : Uuid) (db : Db.t) (o : Observation.t) (i : RelayIntent.t) (now : Timestamp).

(** ** The invariant *)

(** The intent an attributed transfer names. *)
Definition explained (tx : list Z) (o : Observation.t) (i : RelayIntent.t) : Prop :=
  RelayIntent.status i = Filled /\ RelayIntent.invoice_id i = Observation.invoice_id o /\
  RelayIntent.quoted_out_amount i = Observation.amount o /\ tx ∈ RelayIntent.fill_tx_hashes i.

Record observation_relayed (intents : gmap Uuid RelayIntent.t) (k : ObservationKey) (o : Observation.t) : Prop := {
  or_parked : is_some (Observation.relay_parked_at o) = true ->
    exists id i, intents !! id = Some i /\ sent_for (Observation.invoice_id o) i = true;
  or_attributed : forall id, Observation.relay_intent_id o = Some id ->
    Observation.relay_parked_at o = None /\ exists i, intents !! id = Some i /\ explained (snd (fst k)) o i;
}.

Record relay_ok (db : Db.t) : Prop := {
  rl_observation : forall k o, Db.payment_observations db !! k = Some o ->
    observation_relayed (Db.relay_intents db) k o;
  rl_verified : forall id i, Db.relay_intents db !! id = Some i -> verified_fill i = true;
  rl_claimed : forall id id' i i' hash, Db.relay_intents db !! id = Some i -> Db.relay_intents db !! id' = Some i' ->
    RelayIntent.origin_chain_id i = RelayIntent.origin_chain_id i' ->
    RelayIntent.verified_origin_tx_hash i = Some hash -> RelayIntent.verified_origin_tx_hash i' = Some hash -> id = id';
}.

(** ** Transactions that leave relay alone *)

Definition same_relay (o o' : Observation.t) : Prop :=
  Observation.invoice_id o' = Observation.invoice_id o /\ Observation.amount o' = Observation.amount o /\
  Observation.relay_intent_id o' = Observation.relay_intent_id o /\
  Observation.relay_parked_at o' = Observation.relay_parked_at o.

#[local] Instance same_relay_preorder : PreOrder same_relay.
Proof. split; [by intros o|]. intros a b c (?&?&?&?) (?&?&?&?). split_and!; congruence. Qed.

Record relay_kept (db db' : Db.t) : Prop := {
  rk_intents : Db.relay_intents db' = Db.relay_intents db;
  rk_observation : forall k, option_Forall2 same_relay (Db.payment_observations db !! k) (Db.payment_observations db' !! k);
}.

#[local] Instance relay_kept_preorder : PreOrder relay_kept.
Proof.
  split.
  - intros db. split; [done|]. intros k. apply option_Forall2_refl_of, _.
  - intros a b c [A1 A2] [B1 B2]. split; [congruence|]. intros k. eapply option_Forall2_trans_of; [apply _|apply A2|apply B2].
Qed.

Lemma relay_kept_same db db' :
  Db.relay_intents db' = Db.relay_intents db -> Db.payment_observations db' = Db.payment_observations db ->
  relay_kept db db'.
Proof. intros Hi Ho. split; [done|]. intros k. rewrite Ho. apply option_Forall2_refl_of, _. Qed.

Lemma same_relay_relayed intents k o o' :
  same_relay o o' -> observation_relayed intents k o -> observation_relayed intents k o'.
Proof.
  intros (E1 & E2 & E3 & E4) [P A]. split; rewrite ?E4.
  - intros Hp. rewrite E1. auto.
  - intros id. rewrite E3. intros [Hn (i & Hi & X1 & X2 & X3 & X4)]%A. split; [done|].
    exists i. split; [done|]. split_and!; congruence.
Qed.

Lemma relay_kept_ok db db' : relay_kept db db' -> relay_ok db -> relay_ok db'.
Proof.
  intros [Hi Ho] [R1 R2 R3]. split; rewrite Hi; try done.
  intros k o' Hk. specialize (Ho k). rewrite Hk in Ho. inversion Ho as [o o'' Hs Hk'|]; subst.
  by eapply same_relay_relayed, R1.
Qed.

Lemma update_where_kept (table : ObsTable) p f k :
  (forall o, same_relay o (f o)) -> option_Forall2 same_relay (table !! k) (update_where p f table !! k).
Proof.
  intros Hf. rewrite lookup_update_where. destruct (table !! k) as [o|]; constructor.
  destruct (p o); [apply Hf|reflexivity].
Qed.

Lemma flag_relay id reason now db : relay_kept db (snd (flag_attention_in id reason now db)).
Proof. apply relay_kept_same; unfold flag_attention_in; by repeat case_match. Qed.

Lemma drain_relay receipt row d now db db' : apply_drain receipt row d now db = Ok db' -> relay_kept db db'.
Proof.
  unfold apply_drain. intros H. destruct (negb (positions_allowed _ _)); [discriminate|].
  destruct (_ && negb (bool_decide _)); [discriminate|]. injection H as <-.
  match goal with |- relay_kept db (match _ with Some _ => snd (flag_attention_in _ _ _ ?m) | _ => _ end) =>
    assert (relay_kept db m) as L end.
  { split; [done|]. intros k. simpl. unfold reclassify.
    eapply option_Forall2_trans_of; [apply _| |by apply update_where_kept; intros o].
    unfold mark_collected. by apply update_where_kept; intros o. }
  destruct (Drain.attention d); [|exact L]. etrans; [exact L|apply flag_relay].
Qed.

Lemma item_relay receipt policy now s item s' :
  apply_item receipt policy now s item = Ok s' -> relay_kept (snd s) (snd s').
Proof.
  destruct s as [applied db]. unfold apply_item. intros H. simpl in *.
  apply rbind_ok in H as (row & _ & H). destruct (bool_decide _); [|discriminate]. simpl in H.
  apply rbind_ok in H as ([applied' db'] & Hdec & [= <-]). simpl.
  trans db'; [|by apply relay_kept_same].
  destruct (decide_item _ _ _ _).
  - apply rbind_ok in Hdec as (db1 & Hd & [= <- <-]). by eapply drain_relay.
  - injection Hdec as <- <-. by apply relay_kept_same.
  - injection Hdec as <- <-. etrans; [|apply flag_relay]. by apply relay_kept_same.
Qed.

Lemma finalized_relay receipt policy now db r db' :
  apply_sweep_finalized receipt policy now db = Ok (r, db') -> relay_kept db db'.
Proof.
  unfold apply_sweep_finalized. intros H. destruct (job_open _ db); [|discriminate]. simpl in H.
  apply rbind_ok in H as ([applied db1] & Hf & H). destruct (negb (_ =? 0)); [discriminate|].
  apply rbind_ok in H as (db2 & Hres & [= <- <-]). trans db1.
  - change db1 with (snd (applied, db1)).
    eapply (try_fold_ind _ (fun s => relay_kept db (snd s))); [| |exact Hf]; [|reflexivity].
    intros s x s' _ Hs Hx. etrans; [exact Hs|]. by eapply item_relay.
  - unfold resolve_job in Hres. repeat case_match; inv_ok. by apply relay_kept_same.
Qed.

Lemma close_relay job res detail tx now db n db' :
  close_without_effect job res detail tx now db = Ok (n, db') -> relay_kept db db'.
Proof.
  unfold close_without_effect, resolve_job. intros H. destruct (job_open job db); [|discriminate]. simpl in H.
  apply rbind_ok in H as (db2 & Hres & [= <- <-]). repeat case_match; inv_ok. by apply relay_kept_same.
Qed.

Lemma schedule_relay hash parse chain policy producer job corr msg now db r db' :
  schedule_sweep_job hash parse chain policy producer job corr msg now db = Ok (r, db') -> relay_kept db db'.
Proof.
  unfold schedule_sweep_job. intros H. destruct (halted _ db); [inv_ok; reflexivity|].
  destruct (is_some _); [discriminate|]. apply rbind_ok in H as (rows & _ & H).
  destruct rows as [|r0 rows0]; [inv_ok; reflexivity|].
  apply rbind_ok in H as (items & _ & H). destruct (publish _ _ _ _ _ _ _ _) as [[? ?]|]; [|discriminate].
  injection H as <- <-. by apply relay_kept_same.
Qed.

Lemma verification_relay db db' : verification_step db db' -> relay_kept db db'.
Proof.
  assert (forall id t s w now d, relay_kept d (snd (complete_invoice id t s w now d))) as Hc.
  { intros. unfold complete_invoice. repeat case_match; by apply relay_kept_same. }
  assert (forall id s d d', insert_session id s d = Ok d' -> relay_kept d d') as Hi.
  { intros id s d d' H. unfold insert_session in H. repeat case_match; inv_ok. by apply relay_kept_same. }
  intros []; try (by apply relay_kept_same).
  - unfold create in *. inv_ok. by eapply Hi.
  - unfold create_merchant_preview in *. inv_ok. by eapply Hi.
  - unfold issue_wallet_challenge in *. repeat case_match; inv_ok. by apply relay_kept_same.
  - unfold begin_email_verification in *. repeat case_match; inv_ok; by apply relay_kept_same.
  - unfold approve_email in *. destruct (approved_before _ _) as [[? ?]|]; [inv_ok; reflexivity|].
    destruct (negb _); [discriminate|]. inv_ok. destruct (_ <=? _); [discriminate|].
    match goal with H : (let '(_, _) := complete_invoice ?a ?b ?c ?d ?e ?f in _) = _ |- _ =>
      pose proof (Hc a b c d e f) as HC; destruct (complete_invoice a b c d e f) end.
    inv_ok. etrans; [|exact HC]. by apply relay_kept_same.
  - unfold create_client_secret in *. repeat case_match; inv_ok. by apply relay_kept_same.
  - unfold exchange_client_secret in *. destruct (find_secret _ _ _ _) as [[? ?]|]; [|discriminate].
    destruct (is_some _); [discriminate|]. destruct (_ <=? _); [discriminate|]. inv_ok.
    destruct (_ <? _); [discriminate|]. destruct (is_some _); [discriminate|].
    match goal with H : (let '(_, _) := complete_invoice ?a ?b ?c ?d ?e ?f in _) = _ |- _ =>
      pose proof (Hc a b c d e f) as HC; destruct (complete_invoice a b c d e f) end.
    inv_ok. match goal with H : exchange_db ?r = Ok ?db1 |- _ => destruct r as [x'|] eqn:Hins; [|discriminate]; simpl in H; inv_ok end.
    etrans; [by eapply Hi|]. etrans; [|exact HC]. by apply relay_kept_same.
Qed.

(** ** Crediting *)

Lemma relay_of_elem id db kv :
  kv ∈ relay_of id db -> Db.relay_intents db !! fst kv = Some (snd kv) /\ RelayIntent.invoice_id (snd kv) = id.
Proof.
  destruct kv as [id' i]. unfold relay_of. rewrite list_elem_of_In, filter_In, <- list_elem_of_In, elem_of_map_to_list.
  intros [Hi Hp]. bools. by split.
Qed.

Lemma quoted_for_amount (o : PaymentObservation.t) i : quoted_for o i = true -> RelayIntent.quoted_out_amount i = PaymentObservation.amount o.
Proof.
  unfold quoted_for, u256_of_numeral. destruct (_ <=? u256_max); [|done]. intros H. by apply Z.eqb_eq in H.
Qed.

Lemma find_fill_explains relay (o : PaymentObservation.t) kv :
  find_fill relay o = Some kv ->
  kv ∈ relay /\ RelayIntent.status (snd kv) = Filled /\ quoted_for o (snd kv) = true /\
  PaymentObservation.transaction_hash o ∈ RelayIntent.fill_tx_hashes (snd kv).
Proof. intros [Hin Hp]%find_some. rewrite <- list_elem_of_In in Hin. bools. by split_and!. Qed.

Lemma attribute_relayed db c (o : PaymentObservation.t) now chain :
  InvoiceCredit.relay c = relay_of (InvoiceCredit.id c) db ->
  observation_relayed (Db.relay_intents db) (observation_key chain o) (observation_row now c o).
Proof.
  intros Hrel.
  assert (forall id i, find_fill (InvoiceCredit.relay c) o = Some (id, i) ->
    Db.relay_intents db !! id = Some i /\
    explained (PaymentObservation.transaction_hash o) (observation_row now c o) i) as Hfill.
  { intros id i (Hin & Hs & Hq & Ht)%find_fill_explains. rewrite Hrel in Hin.
    apply relay_of_elem in Hin as [Hi Hinv]. split; [done|].
    destruct (observation_row_fields now c o) as (E1 & E2 & _). unfold explained. rewrite E1, E2.
    split_and!; [done|done|by apply quoted_for_amount|done]. }
  assert (Observation.relay_intent_id (observation_row now c o) =
    match attribute c o with AttrRelay id => Some id | _ => None end) as Hid
    by (unfold observation_row; by destruct (classify c o)).
  assert (Observation.relay_parked_at (observation_row now c o) =
    match attribute c o with AttrParked => Some now | _ => None end) as Hpk
    by (unfold observation_row; by destruct (classify c o)).
  split.
  - rewrite Hpk. unfold attribute.
    destruct (InvoiceCredit.payer_wallet c); [|by repeat case_match].
    destruct (bool_decide _); [done|]. destruct (is_zero o); [done|].
    destruct (find_fill _ _) as [[? ?]|]; [done|]. destruct (existsb _ _) eqn:He; [|done]. intros _.
    apply existsb_exists in He as ([id i] & Hin & Hp). rewrite <- list_elem_of_In, Hrel in Hin.
    apply relay_of_elem in Hin as [Hi Hinv]. bools. exists id, i. split; [done|].
    destruct (observation_row_fields now c o) as (E1 & _). unfold sent_for. simpl in *. rewrite E1, Hinv, Z.eqb_refl.
    by apply bool_decide_eq_true.
  - intros id. rewrite Hid, Hpk. destruct (attribute c o) as [|id'| |] eqn:Ha; [done| |done|done].
    intros [= ->]. split; [done|]. simpl.
    assert (exists i, find_fill (InvoiceCredit.relay c) o = Some (id, i)) as [i Hf].
    { unfold attribute in Ha. repeat case_match; simplify_eq; eauto. }
    exists i. by apply Hfill.
Qed.

Definition loop_relayed (db : Db.t) (s : gmap (list Z) InvoiceCredit.t * ObsTable) : Prop :=
  (forall addr c, fst s !! addr = Some c -> InvoiceCredit.relay c = relay_of (InvoiceCredit.id c) db) /\
  (forall k o, snd s !! k = Some o -> observation_relayed (Db.relay_intents db) k o).

Lemma load_credits_relayed chain obs db credits :
  load_credits chain obs db = Ok credits -> relay_ok db -> loop_relayed db (credits, Db.payment_observations db).
Proof.
  intros H Hok. split; [|apply (rl_observation _ Hok)]. simpl. unfold load_credits in H.
  eapply (try_fold_ind _ (fun credits => forall addr c, credits !! addr = Some c ->
    InvoiceCredit.relay c = relay_of (InvoiceCredit.id c) db)); [| |exact H]; [|done].
  intros cs row cs' _ Hcs Hl. unfold load_credit in Hl. inv_ok. repeat case_match; inv_ok; [|done..].
  intros addr c. destruct (decide (addr = l)) as [->|Hne].
  - rewrite lookup_insert_eq. by intros [= <-].
  - rewrite lookup_insert_ne by done. apply Hcs.
Qed.

Lemma credit_observation_relay c (o : PaymentObservation.t) c' :
  credit_observation c o = Ok c' -> InvoiceCredit.relay c' = InvoiceCredit.relay c /\ InvoiceCredit.id c' = InvoiceCredit.id c.
Proof. unfold credit_observation. intros H. inv_ok. repeat case_match; inv_ok; done. Qed.

Lemma step_observation_relayed chain now db s (o : PaymentObservation.t) s' :
  step_observation chain now s o = Ok s' -> loop_relayed db s -> loop_relayed db s'.
Proof.
  destruct s as [credits table]. unfold step_observation. intros H [Hc Ht]. simpl in *.
  destruct (credits !! PaymentObservation.recipient o) as [c|] eqn:Hr; [|by injection H as <-].
  destruct (negb (bool_decide _)); [by injection H as <-|].
  destruct (negb (observation_allowed o)); [discriminate|].
  destruct (is_some _); [by injection H as <-|].
  assert (forall k ob, <[observation_key chain o := observation_row now c o]> table !! k = Some ob ->
    observation_relayed (Db.relay_intents db) k ob) as Ht'.
  { intros k ob. destruct (decide (k = observation_key chain o)) as [->|Hne].
    - rewrite lookup_insert_eq. intros [= <-]. by apply attribute_relayed, (Hc (PaymentObservation.recipient o)).
    - rewrite lookup_insert_ne by done. apply Ht. }
  destruct (is_zero o); [injection H as <-; by split|].
  apply rbind_ok in H as (c' & Hco & [= <-]). split; [|done]. simpl. intros addr d.
  destruct (decide (addr = PaymentObservation.recipient o)) as [->|Hne].
  - rewrite lookup_insert_eq. intros [= <-]. apply credit_observation_relay in Hco as [-> ->].
    by apply (Hc (PaymentObservation.recipient o)).
  - rewrite lookup_insert_ne by done. apply Hc.
Qed.

Lemma range_relay_ok chain expected block hash ts obs now db r db' :
  apply_finalized_range chain expected block hash ts obs now db = Ok (r, db') -> relay_ok db -> relay_ok db'.
Proof.
  unfold apply_finalized_range. intros H Hok. apply rbind_ok in H as (cur & _ & H).
  case_bool_decide; [|by injection H as <- <-]. unfold apply_range_body in H.
  apply rbind_ok in H as (credits0 & Hl & H). apply rbind_ok in H as ([credits table] & Hf & H).
  destruct (apply_credits now credits (Db.invoices db)) as [invoices funded].
  destruct (expire_bound _ _ _ _) as [expired db2] eqn:He. apply rbind_ok in H as (db3 & Hs & [= <- <-]).
  assert (Db.relay_intents db3 = Db.relay_intents db /\ Db.payment_observations db3 = table) as [Hi Ho].
  { unfold store_cursor in Hs. case_match; inv_ok. unfold expire_bound in He. by injection He as <- <-. }
  assert (loop_relayed db (credits, table)) as [_ Ht].
  { eapply (try_fold_ind _ (loop_relayed db)); [| |exact Hf]; [|by eapply load_credits_relayed].
    intros s x s' _ Hs' Hx. by eapply step_observation_relayed. }
  destruct Hok as [_ R2 R3]. split; rewrite ?Hi; [|done|done]. rewrite Ho. exact Ht.
Qed.

(** ** The life of an intent *)

Definition terms (i : RelayIntent.t) :=
  (RelayIntent.invoice_id i, RelayIntent.request_id i, RelayIntent.origin_chain_id i,
   RelayIntent.destination_chain_id i, RelayIntent.origin_currency i, RelayIntent.payer_wallet i,
   RelayIntent.quoted_in_amount i, RelayIntent.quoted_out_amount i, RelayIntent.created_at i, RelayIntent.expires_at i).

Definition relay_rank (s : RelayStatus) : Z :=
  match s with Quoted => 0 | RelayExpired => 1 | Sent => 2 | Filled | RelayFailed | Refunded => 3 end.

Record intent_lives (i i' : RelayIntent.t) : Prop := {
  il_terms : terms i' = terms i;
  il_rank : relay_rank (RelayIntent.status i) <= relay_rank (RelayIntent.status i');
  il_final : is_unresolved (RelayIntent.status i) = false ->
    RelayIntent.status i' = RelayIntent.status i /\
    RelayIntent.verified_origin_tx_hash i' = RelayIntent.verified_origin_tx_hash i /\
    RelayIntent.fill_tx_hashes i' = RelayIntent.fill_tx_hashes i;
  il_report : forall h, origin_tx_hash i = Some h -> origin_tx_hash i' = Some h;
}.

#[export] Instance intent_lives_preorder : PreOrder intent_lives.
Proof.
  split.
  - intros i. split; auto. lia.
  - intros a b c [A1 A2 A3 A4] [B1 B2 B3 B4]. split; [congruence|lia| |auto].
    intros Ha. destruct (A3 Ha) as (E1 & E2 & E3). rewrite <- E1 in Ha.
    destruct (B3 Ha) as (F1 & F2 & F3). split_and!; congruence.
Qed.

Definition intents_live (db db' : Db.t) : Prop :=
  (forall id i, Db.relay_intents db !! id = Some i ->
     exists i', Db.relay_intents db' !! id = Some i' /\ intent_lives i i') /\
  (forall k o id, Db.payment_observations db !! k = Some o -> Observation.relay_intent_id o = Some id ->
     exists o', Db.payment_observations db' !! k = Some o' /\ Observation.relay_intent_id o' = Some id).

#[export] Instance intents_live_preorder : PreOrder intents_live.
Proof.
  split.
  - intros db. split; eauto. intros id i Hi. exists i. split; [done|reflexivity].
  - intros a b c [A1 A2] [B1 B2]. split.
    + intros id i Hi. destruct (A1 id i Hi) as (i1 & H1 & L1). destruct (B1 id i1 H1) as (i2 & H2 & L2).
      exists i2. split; [done|]. by etrans.
    + intros k o id Hk Hid. destruct (A2 k o id Hk Hid) as (o1 & H1 & E1). eauto.
Qed.

Lemma relay_kept_lives db db' : relay_kept db db' -> intents_live db db'.
Proof.
  intros [Hi Ho]. split.
  - intros id i H. rewrite Hi. exists i. split; [done|reflexivity].
  - intros k o id Hk Hid. specialize (Ho k). rewrite Hk in Ho. inversion Ho as [? o' (E1 & E2 & E3 & E4) Hk'|]; subst.
    exists o'. split; [done|congruence].
Qed.

(** One row of the intents replaced. *)
Lemma intents_insert_live db db' id i i' :
  Db.relay_intents db !! id = Some i -> intent_lives i i' ->
  Db.relay_intents db' = <[id := i']> (Db.relay_intents db) ->
  Db.payment_observations db' = Db.payment_observations db -> intents_live db db'.
Proof.
  intros Hid Hl Hi Ho. split; [|rewrite Ho; eauto]. intros id' j Hj. rewrite Hi.
  destruct (decide (id' = id)) as [->|Hne].
  - rewrite lookup_insert_eq. exists i'. split; [done|]. congruence.
  - rewrite lookup_insert_ne by done. exists j. split; [done|reflexivity].
Qed.

Lemma unpark_live id now db : intents_live db (snd (unpark_unless_pending id now db)).
Proof.
  unfold unpark_unless_pending. destruct (pending id db); [reflexivity|].
  assert (forall d, Db.relay_intents d = Db.relay_intents db ->
    Db.payment_observations d = update_where (is_parked id) unpark (Db.payment_observations db) -> intents_live db d) as Hd.
  { intros d Hi Ho. split; [rewrite Hi; intros ? i ?; exists i; split; [done|reflexivity]|].
    intros k o id' Hk Hid. rewrite Ho, lookup_update_where, Hk. simpl. eexists. split; [done|]. by destruct (is_parked id o). }
  destruct (earliest_parked id db); by apply Hd.
Qed.

Lemma attribute_live id i fills db : intents_live db (snd (attribute_fill id i fills db)).
Proof.
  unfold attribute_fill. destruct (Db.invoices db !! _) as [row|]; [|reflexivity]. cbn [snd].
  split; [intros ? j ?; exists j; split; [done|reflexivity]|]. intros k o id' Hk Hid. cbn [Db.payment_observations].
  rewrite map_lookup_imap, Hk. cbn [mbind option_bind]. eexists. split; [done|].
  destruct (made_by_fill i row fills (k, o)) eqn:Hm; [|done]. unfold made_by_fill in Hm.
  destruct k as [[[? ?] ?] ?]. bools. by rewrite Hid in *.
Qed.

Ltac live_intent := split; simpl; auto; try lia; try discriminate.

Lemma mark_sent_lives i hash now i1 outcome :
  report_outcome hash i = (outcome, i1) -> outcome <> MsHashConflict ->
  intent_lives i (match RelayIntent.status i1 with
                  | Quoted | RelayExpired => sent hash now i1
                  | _ => if is_some (RelayIntent.origin_tx_hash i1) then i1 else reported hash i1
                  end).
Proof.
  unfold report_outcome. intros H Hne. assert (intent_lives i i1) as L1.
  { repeat case_match; simplify_eq; try reflexivity. split; try done; simpl; congruence. }
  etrans; [exact L1|]. assert (forall h, origin_tx_hash i1 = Some h -> h = hash) as Hrec.
  { repeat case_match; simplify_eq; bools; subst; try (intros h ?; congruence).
    intros h. unfold origin_tx_hash, reported, fixed_bytes. simpl. case_match; by intros [= <-]. }
  destruct (RelayIntent.status i1) eqn:Hs.
  all: try (destruct (is_some (RelayIntent.origin_tx_hash i1)) eqn:Hn; [reflexivity|]).
  all: split; simpl; rewrite ?Hs; auto; try lia; try discriminate.
  all: intros h Hh; pose proof (Hrec h Hh) as ->; unfold origin_tx_hash in *; simpl.
  all: destruct (RelayIntent.origin_tx_hash i1) as [b|] eqn:Hb; simpl in *; try discriminate.
  all: unfold fixed_bytes in *; destruct (Nat.eqb (length b) 32) eqn:Hl; simplify_eq; by rewrite Hl.
Qed.

Lemma resolved_lives i i' :
  is_unresolved (RelayIntent.status i) = true -> terms i' = terms i ->
  relay_rank (RelayIntent.status i') = 3 -> RelayIntent.origin_tx_hash i' = RelayIntent.origin_tx_hash i ->
  intent_lives i i'.
Proof.
  intros Hu Ht Hr Ho. split; [done| |congruence|unfold origin_tx_hash; by rewrite Ho].
  rewrite Hr. destruct (RelayIntent.status i); simpl; lia.
Qed.

Lemma relay_step_lives db db' : relay_step db db' -> intents_live db db'.
Proof.
  intros [].
  - unfold insert in *. repeat case_match; inv_ok. split; [|eauto]. intros id i Hi. simpl.
    rewrite lookup_insert_ne; [exists i; split; [done|reflexivity]|]. intros <-.
    by destruct (Db.relay_intents db !! NewRelayIntent.id new).
  - unfold mark_sent in *. destruct (Db.relay_intents db !! id) as [i|] eqn:Hi; [|inv_ok; reflexivity].
    destruct (negb _); [inv_ok; reflexivity|]. destruct (report_outcome hash i) as [outcome i1] eqn:Ho.
    destruct outcome; [| inv_ok; reflexivity |].
    all: match goal with H : (if verified_fill ?x then _ else _) = _ |- _ => destruct (verified_fill x); inv_ok end.
    all: eapply intents_insert_live; [exact Hi|by eapply mark_sent_lives|done|done].
  - unfold defer. destruct (Db.relay_intents db !! id) as [i|] eqn:Hi; [|reflexivity].
    destruct (is_unresolved _) eqn:Hu; [|reflexivity].
    eapply intents_insert_live; [exact Hi| |done|done]. split; simpl; auto; try lia. 
  - split; [|eauto]. intros id i Hi. simpl. rewrite lookup_update_where, Hi. simpl. eexists. split; [done|].
    destruct (quote_overdue _ _ i) eqn:Hq; [|reflexivity]. unfold quote_overdue in Hq.
    apply andb_true_iff in Hq as [[_ Hs]%andb_true_iff _]. apply bool_decide_eq_true in Hs.
    split; simpl; auto; rewrite Hs; simpl; lia || done.
  - unfold resolve_filled in *. destruct fills as [|f fs]; [inv_ok; reflexivity|]. unfold lock_intent in *.
    destruct (Db.relay_intents db !! id) as [i|] eqn:Hi; [|inv_ok; reflexivity].
    destruct (is_unresolved (RelayIntent.status i)) eqn:Hu; simpl in H; [|inv_ok; reflexivity].
    destruct (origin_claimed _ _ _ _); [inv_ok; reflexivity|].
    destruct (attribute_fill _ _ _ _) as [n db2] eqn:Ha. destruct (unpark_unless_pending _ _ _) as [m db3] eqn:Hp.
    inv_ok. pose proof (attribute_live id i (f :: fs) (set_intents (<[id:=filled (f :: fs) origin status now i]> (Db.relay_intents db)) db)) as L2.
    rewrite Ha in L2. pose proof (unpark_live (RelayIntent.invoice_id i) now db2) as L3. rewrite Hp in L3.
    etrans; [|etrans; [exact L2|exact L3]]. eapply intents_insert_live; [exact Hi| |done|done]. by apply resolved_lives.
  - unfold resolve_failed, lock_intent in *. destruct (Db.relay_intents db !! id) as [i|] eqn:Hi; [|inv_ok; reflexivity].
    destruct (is_unresolved (RelayIntent.status i)) eqn:Hu; simpl in *; [|inv_ok; reflexivity].
    destruct (verified_fill _); [|discriminate]. simpl in *.
    destruct (unpark_unless_pending _ _ _) as [m db3] eqn:Hp. inv_ok.
    match type of Hp with unpark_unless_pending ?a ?b ?c = _ => pose proof (unpark_live a b c) as L3; rewrite Hp in L3 end.
    etrans; [|exact L3]. eapply intents_insert_live; [exact Hi| |done|done]. apply resolved_lives; try done.
    by destruct H as [-> | ->].
Qed.

(** ** Relay steps keep the invariant *)

(** A write of intents that resolves nothing. *)
Definition intent_kept (i i' : RelayIntent.t) : Prop :=
  RelayIntent.invoice_id i' = RelayIntent.invoice_id i /\
  RelayIntent.origin_chain_id i' = RelayIntent.origin_chain_id i /\
  RelayIntent.quoted_out_amount i' = RelayIntent.quoted_out_amount i /\
  RelayIntent.verified_origin_tx_hash i' = RelayIntent.verified_origin_tx_hash i /\
  RelayIntent.fill_tx_hashes i' = RelayIntent.fill_tx_hashes i /\
  (RelayIntent.status i = Sent -> RelayIntent.status i' = Sent) /\
  (RelayIntent.status i = Filled <-> RelayIntent.status i' = Filled) /\
  RelayIntent.attribution_source i' = RelayIntent.attribution_source i.

Lemma intent_kept_verified i i' : intent_kept i i' -> verified_fill i = verified_fill i'.
Proof.
  intros (_ & _ & _ & Hv & _ & _ & Hf & Ha). unfold verified_fill. rewrite Hv, Ha.
  by rewrite (bool_decide_ext (RelayIntent.status i = Filled) (RelayIntent.status i' = Filled) Hf).
Qed.

Lemma intents_moved_ok db db' :
  Db.payment_observations db' = Db.payment_observations db ->
  (forall id i, Db.relay_intents db !! id = Some i -> exists i', Db.relay_intents db' !! id = Some i' /\ intent_kept i i') ->
  (forall id i', Db.relay_intents db' !! id = Some i' ->
     is_Some (Db.relay_intents db !! id) \/
     (verified_fill i' = true /\ RelayIntent.verified_origin_tx_hash i' = None)) ->
  relay_ok db -> relay_ok db'.
Proof.
  intros Ho Hk Hn [R1 R2 R3].
  assert (forall id i', Db.relay_intents db' !! id = Some i' ->
    (exists i, Db.relay_intents db !! id = Some i /\ intent_kept i i') \/
    (verified_fill i' = true /\ RelayIntent.verified_origin_tx_hash i' = None)) as Hback.
  { intros id i' Hi'. destruct (Hn id i' Hi') as [[i Hi]|H]; [left|by right].
    destruct (Hk id i Hi) as (i2 & H2 & K). exists i. split; [done|congruence]. }
  split.
  - rewrite Ho. intros k o Hobs. destruct (R1 k o Hobs) as [P A]. split.
    + intros (id & i & Hi & Hs)%P. destruct (Hk id i Hi) as (i' & Hi' & E1 & _ & _ & _ & _ & E6 & _).
      exists id, i'. split; [done|]. unfold sent_for in *. bools. rewrite E1. apply andb_true_iff.
      split; [by apply Z.eqb_eq|]. apply bool_decide_eq_true. auto.
    + intros id [Hnp (i & Hi & X1 & X2 & X3 & X4)]%A. split; [done|].
      destruct (Hk id i Hi) as (i' & Hi' & E1 & _ & E3 & _ & E5 & _ & E7 & _). exists i'. split; [done|].
      split_and!; try congruence. by apply E7.
  - intros id i' Hi'. destruct (Hback id i' Hi') as [(i & Hi & K)|[H _]]; [|done].
    rewrite <- (intent_kept_verified _ _ K). eauto.
  - intros a b i i' hash Ha Hb Hc Hh Hh'.
    destruct (Hback a i Ha) as [(j & Hj & _ & K2 & _ & K4 & _)|[_ H]]; [|congruence].
    destruct (Hback b i' Hb) as [(j' & Hj' & _ & L2 & _ & L4 & _)|[_ H]]; [|congruence].
    apply (R3 a b j j' hash); congruence.
Qed.

Lemma intents_insert_ok db db' id i i' :
  Db.relay_intents db !! id = Some i -> intent_kept i i' ->
  Db.relay_intents db' = <[id := i']> (Db.relay_intents db) ->
  Db.payment_observations db' = Db.payment_observations db -> relay_ok db -> relay_ok db'.
Proof.
  intros Hi Hk He Ho. apply intents_moved_ok; [done| |]; rewrite He; intros a j.
  - intros Hj. destruct (decide (a = id)) as [->|Hne].
    + rewrite lookup_insert_eq. exists i'. split; [done|congruence].
    + rewrite lookup_insert_ne by done. exists j. by repeat split.
  - intros Hj. left. destruct (decide (a = id)) as [->|Hne]; [by exists i|].
    rewrite lookup_insert_ne in Hj by done. by exists j.
Qed.

(** How a resolution of intent [id] may leave a transfer. *)
Record transfer_resolved (id : Uuid) (i' : RelayIntent.t) (still : bool) (k : ObservationKey)
    (o o' : Observation.t) : Prop := {
  tr_invoice : Observation.invoice_id o' = Observation.invoice_id o;
  tr_amount : Observation.amount o' = Observation.amount o;
  tr_parked : is_some (Observation.relay_parked_at o') = true ->
    is_some (Observation.relay_parked_at o) = true /\
    (Observation.invoice_id o <> RelayIntent.invoice_id i' \/ still = true);
  tr_attributed : forall x, Observation.relay_intent_id o' = Some x ->
    (Observation.relay_intent_id o = Some x) \/
    (x = id /\ Observation.relay_parked_at o' = None /\ explained (snd (fst k)) o' i');
}.

Lemma pending_exists invoice db :
  pending invoice db = true -> exists id i, Db.relay_intents db !! id = Some i /\ sent_for invoice i = true.
Proof.
  unfold pending. intros ([id i] & Hin & Hs)%existsb_exists. rewrite <- list_elem_of_In, elem_of_map_to_list in Hin.
  by exists id, i.
Qed.

Lemma resolution_ok db db' id i i' :
  Db.relay_intents db !! id = Some i -> is_unresolved (RelayIntent.status i) = true ->
  RelayIntent.invoice_id i' = RelayIntent.invoice_id i -> verified_fill i' = true ->
  Db.relay_intents db' = <[id := i']> (Db.relay_intents db) ->
  (forall hash, RelayIntent.verified_origin_tx_hash i' = Some hash ->
     origin_claimed id (RelayIntent.origin_chain_id i') hash db = false) ->
  (forall k o', Db.payment_observations db' !! k = Some o' -> exists o, Db.payment_observations db !! k = Some o /\
     transfer_resolved id i' (pending (RelayIntent.invoice_id i) db') k o o') ->
  relay_ok db -> relay_ok db'.
Proof.
  intros Hi Hu Hinv Hv He Hc Ho [R1 R2 R3]. rewrite <- Hinv in Ho.
  assert (forall a j, Db.relay_intents db !! a = Some j -> a <> id -> Db.relay_intents db' !! a = Some j) as Hkeep.
  { intros a j Hj Hne. by rewrite He, lookup_insert_ne. }
  assert (forall a j, Db.relay_intents db' !! a = Some j -> (a = id /\ j = i') \/ (a <> id /\ Db.relay_intents db !! a = Some j)) as Hback.
  { intros a j. rewrite He. destruct (decide (a = id)) as [->|Hne].
    - rewrite lookup_insert_eq. intros [= <-]. by left.
    - rewrite lookup_insert_ne by done. by right. }
  assert (forall a j hash, Db.relay_intents db !! a = Some j -> a <> id ->
    RelayIntent.origin_chain_id j = RelayIntent.origin_chain_id i' ->
    RelayIntent.verified_origin_tx_hash j = Some hash -> RelayIntent.verified_origin_tx_hash i' = Some hash -> False) as Hclaim.
  { intros a j hash Hj Hne Hch Hh Hh'. specialize (Hc hash Hh'). unfold origin_claimed in Hc.
    assert (existsb (fun kv => negb (fst kv =? id) && claims_origin (RelayIntent.origin_chain_id i') hash (snd kv))
      (map_to_list (Db.relay_intents db)) = true) as Hx; [|congruence].
    apply existsb_exists. exists (a, j). rewrite <- list_elem_of_In, elem_of_map_to_list. split; [done|]. simpl.
    apply andb_true_iff. split; [apply negb_true_iff; by apply Z.eqb_neq|]. unfold claims_origin.
    apply andb_true_iff. split; [by apply Z.eqb_eq|by apply bool_decide_eq_true]. }
  split.
  - intros k o' Hk'. destruct (Ho k o' Hk') as (o & Hk & [T1 T2 T3 T4]). destruct (R1 k o Hk) as [P A]. split.
    + intros [Hp Hwhy]%T3. rewrite T1.
      destruct (decide (Observation.invoice_id o = RelayIntent.invoice_id i')) as [E|Hne].
      * destruct Hwhy as [?|Hst]; [done|]. rewrite E. by apply pending_exists.
      * destruct (P Hp) as (a & j & Hj & Hs). exists a, j. split; [|done]. apply Hkeep; [done|].
        intros ->. assert (j = i) as -> by congruence. unfold sent_for in Hs. bools. congruence.
    + intros x [Hx|(-> & Hn & Hex)]%T4.
      * destruct (A x Hx) as [Hn (j & Hj & X1 & X2 & X3 & X4)]. split.
        -- destruct (Observation.relay_parked_at o') eqn:Hp; [|done]. destruct (T3 eq_refl) as [Hp' _]. by rewrite Hn in Hp'.
        -- exists j. split; [|split_and!; congruence]. apply Hkeep; [done|]. intros ->.
           assert (j = i) as -> by congruence. by rewrite X1 in Hu.
      * split; [done|]. exists i'. split; [|done]. by rewrite He, lookup_insert_eq.
  - intros a j [[-> ->]|[_ Hj]]%Hback; [done|eauto].
  - intros a b j j' hash [[-> ->]|[Hna Hj]]%Hback [[-> ->]|[Hnb Hj']]%Hback Hch Hh Hh'; [done|..].
    + exfalso. by eapply (Hclaim b j').
    + exfalso. by eapply (Hclaim a j).
    + by eapply R3.
Qed.

Lemma unpark_intents id now db : Db.relay_intents (snd (unpark_unless_pending id now db)) = Db.relay_intents db.
Proof. unfold unpark_unless_pending. by repeat case_match. Qed.

(** What unparking leaves of a transfer. *)
Lemma unpark_observation id now db k o' :
  Db.payment_observations (snd (unpark_unless_pending id now db)) !! k = Some o' ->
  exists o, Db.payment_observations db !! k = Some o /\
    Observation.invoice_id o' = Observation.invoice_id o /\ Observation.amount o' = Observation.amount o /\
    Observation.relay_intent_id o' = Observation.relay_intent_id o /\
    (is_some (Observation.relay_parked_at o') = true ->
      Observation.relay_parked_at o' = Observation.relay_parked_at o /\
      (Observation.invoice_id o <> id \/ pending id db = true)) /\
    (Observation.relay_parked_at o = None -> Observation.relay_parked_at o' = None).
Proof.
  unfold unpark_unless_pending. destruct (pending id db) eqn:Hp.
  { intros Hk. exists o'. split_and!; auto. }
  assert (update_where (is_parked id) unpark (Db.payment_observations db) !! k = Some o' ->
    exists o, Db.payment_observations db !! k = Some o /\
    Observation.invoice_id o' = Observation.invoice_id o /\ Observation.amount o' = Observation.amount o /\
    Observation.relay_intent_id o' = Observation.relay_intent_id o /\
    (is_some (Observation.relay_parked_at o') = true ->
      Observation.relay_parked_at o' = Observation.relay_parked_at o /\
      (Observation.invoice_id o <> id \/ false = true)) /\
    (Observation.relay_parked_at o = None -> Observation.relay_parked_at o' = None)) as Hu.
  { rewrite lookup_update_where. destruct (Db.payment_observations db !! k) as [o|]; [|done]. simpl. intros [= <-].
    exists o. split; [done|]. unfold is_parked, of_invoice.
    destruct (Z.eqb_spec (Observation.invoice_id o) id) as [E|Hne]; simpl;
      destruct (Observation.relay_parked_at o) eqn:Ho; simpl; rewrite ?Ho; simpl; split_and!; auto; done. }
  destruct (earliest_parked id db); exact Hu.
Qed.

Lemma attribute_observation id i fills db k o' :
  Db.payment_observations (snd (attribute_fill id i fills db)) !! k = Some o' ->
  exists o, Db.payment_observations db !! k = Some o /\
    (o' = o \/
     o' = attributed_to id o /\ Observation.relay_intent_id o = None /\
     snd (fst k) ∈ fills /\ Observation.invoice_id o = RelayIntent.invoice_id i /\
     Observation.amount o = RelayIntent.quoted_out_amount i).
Proof.
  unfold attribute_fill. destruct (Db.invoices db !! _) as [row|]; [|cbn [snd]; eauto]. cbn [snd Db.payment_observations].
  rewrite map_lookup_imap. destruct (Db.payment_observations db !! k) as [o|]; [|done]. cbn [mbind option_bind].
  destruct (made_by_fill i row fills (k, o)) eqn:Hm; intros [= <-]; exists o; (split; [done|]); [right|by left].
  destruct k as [[[chain token] tx] log]. unfold made_by_fill, solver_transfer, of_invoice in Hm. bools.
  destruct (Observation.relay_intent_id o); [done|]. by split_and!.
Qed.

Lemma resolve_filled_ok id fills origin status now db r db' :
  resolve_filled id fills origin status now db = Ok (r, db') -> relay_ok db -> relay_ok db'.
Proof.
  unfold resolve_filled, lock_intent. intros H Hok. destruct fills as [|f fs]; [by inv_ok|].
  destruct (Db.relay_intents db !! id) as [i|] eqn:Hi; [|by inv_ok].
  destruct (is_unresolved (RelayIntent.status i)) eqn:Hu; simpl in H; [|by inv_ok].
  destruct (origin_claimed _ _ _ _) eqn:Hc; [by inv_ok|].
  set (i' := filled (f :: fs) origin status now i) in H.
  set (db1 := set_intents (<[id := i']> (Db.relay_intents db)) db) in H.
  destruct (attribute_fill _ _ _ _) as [n db2] eqn:Ha. destruct (unpark_unless_pending _ _ _) as [m db3] eqn:Hp. inv_ok.
  assert (Db.relay_intents db' = Db.relay_intents db2) as E3.
  { change db' with (snd (m, db')). rewrite <- Hp. apply unpark_intents. }
  assert (Db.relay_intents db2 = <[id := i']> (Db.relay_intents db)) as E2.
  { change db2 with (snd (n, db2)). rewrite <- Ha. unfold attribute_fill. by case_match. }
  eapply (resolution_ok db db' id i i'); [done|done|done|done|congruence| | |done].
  - simpl. intros hash [= <-]. exact Hc.
  - intros k o3 Hk3. change db' with (snd (m, db')) in Hk3. rewrite <- Hp in Hk3.
    apply unpark_observation in Hk3 as (o2 & Hk2 & U1 & U2 & U3 & U4 & U5).
    change db2 with (snd (n, db2)) in Hk2. rewrite <- Ha in Hk2.
    apply attribute_observation in Hk2 as (o & Hk & Hcase). exists o. split; [done|].
    assert (pending (RelayIntent.invoice_id i) db' = pending (RelayIntent.invoice_id i) db2) as Ep
      by (unfold pending; by rewrite E3).
    destruct Hcase as [->|(-> & Hn & Ht & Hinv & Ham)]; split; rewrite ?Ep; auto; try congruence.
    + intros Hpk. destruct (U4 Hpk) as [<- Hw]. by split.
    + intros x. rewrite U3. by left.
    + intros Hpk. by rewrite U5 in Hpk.
    + intros x. rewrite U3. simpl. intros [= <-]. right. split_and!; [done|by apply U5|].
      unfold explained. rewrite U1, U2. simpl. by split_and!.
Qed.

Lemma resolve_failed_ok id s status now db r db' :
  (s = RelayFailed \/ s = Refunded) ->
  resolve_failed id s status now db = Ok (r, db') -> relay_ok db -> relay_ok db'.
Proof.
  unfold resolve_failed, lock_intent. intros Hs H Hok.
  destruct (Db.relay_intents db !! id) as [i|] eqn:Hi; [|by inv_ok].
  destruct (is_unresolved (RelayIntent.status i)) eqn:Hu; simpl in H; [|by inv_ok].
  destruct (verified_fill _) eqn:Hv; [|discriminate]. simpl in H.
  destruct (unpark_unless_pending _ _ _) as [m db3] eqn:Hp. inv_ok.
  set (db1 := set_intents (<[id := unfilled s status now i]> (Db.relay_intents db)) db) in Hp.
  assert (Db.relay_intents db' = Db.relay_intents db1) as E3.
  { change db' with (snd (m, db')). rewrite <- Hp. apply unpark_intents. }
  eapply (resolution_ok db db' id i (unfilled s status now i)); [done|done|done|done|exact E3| | |done].
  - intros hash. unfold verified_fill in Hv. rewrite bool_decide_false in Hv by (by destruct Hs as [-> | ->]).
    bools. simpl in *. intros E. by rewrite E in *.
  - intros k o3 Hk3. change db' with (snd (m, db')) in Hk3. rewrite <- Hp in Hk3.
    apply unpark_observation in Hk3 as (o2 & Hk2 & U1 & U2 & U3 & U4 & U5). exists o2. split; [done|].
    assert (pending (RelayIntent.invoice_id i) db' = pending (RelayIntent.invoice_id i) db1) as Ep
      by (unfold pending; by rewrite E3).
    split; rewrite ?Ep; auto.
    + intros Hpk. destruct (U4 Hpk) as [<- Hw]. by split.
    + intros x. rewrite U3. by left.
Qed.

Lemma mark_sent_kept i hash now i1 outcome :
  report_outcome hash i = (outcome, i1) ->
  intent_kept i (match RelayIntent.status i1 with
                 | Quoted | RelayExpired => sent hash now i1
                 | _ => if is_some (RelayIntent.origin_tx_hash i1) then i1 else reported hash i1
                 end).
Proof.
  unfold report_outcome. intros H.
  assert (i1 = i \/ i1 = reported hash i) as [-> | ->] by (repeat case_match; simplify_eq; auto);
  simpl; destruct (RelayIntent.status i) eqn:Hs; try destruct (is_some (RelayIntent.origin_tx_hash i));
  repeat split; simpl; congruence.
Qed.

Lemma relay_step_ok db db' : relay_step db db' -> relay_ok db -> relay_ok db'.
Proof.
  intros [] Hok; eauto using resolve_filled_ok, resolve_failed_ok.
  - unfold insert in *. repeat case_match; inv_ok. eapply (intents_moved_ok db); [done| | |exact Hok]; simpl; intros id i Hi.
    + exists i. split; [|by repeat split]. rewrite lookup_insert_ne; [done|]. intros <-.
      by destruct (Db.relay_intents db !! NewRelayIntent.id new).
    + destruct (decide (id = NewRelayIntent.id new)) as [->|Hne].
      * rewrite lookup_insert_eq in Hi. injection Hi as <-. by right.
      * rewrite lookup_insert_ne in Hi by done. left. by exists i.
  - unfold mark_sent in *. destruct (Db.relay_intents db !! id) as [i|] eqn:Hi; [|by inv_ok].
    destruct (negb _); [by inv_ok|]. destruct (report_outcome hash i) as [outcome i1] eqn:Ho.
    destruct outcome; [| by inv_ok |].
    all: match goal with H : (if verified_fill ?x then _ else _) = _ |- _ => destruct (verified_fill x); inv_ok end.
    all: eapply (intents_insert_ok db); [exact Hi|by eapply mark_sent_kept|done|done|exact Hok].
  - unfold defer. destruct (Db.relay_intents db !! id) as [i|] eqn:Hi; [|done].
    destruct (is_unresolved _); [|done].
    apply (intents_insert_ok db _ id i (deferred next status i)); [exact Hi|unfold intent_kept; simpl; tauto|done|done|exact Hok].
  - eapply (intents_moved_ok db); [done| | |exact Hok]; simpl; intros id i Hi.
    + rewrite lookup_update_where, Hi. simpl. eexists. split; [done|].
      destruct (quote_overdue _ _ i) eqn:Hq; [|by repeat split]. unfold quote_overdue in Hq.
      apply andb_true_iff in Hq as [[_ Hs]%andb_true_iff _]. apply bool_decide_eq_true in Hs.
      unfold intent_kept; simpl; rewrite Hs; by split_and!.
    + left. rewrite lookup_update_where in Hi. destruct (Db.relay_intents db !! id); [by eexists|done].
Qed.

(** ** What a resolution does to the parked transfers *)

(** The earliest parked transfer, if there is one. *)
Lemma earliest_parked_spec id db :
  match earliest_parked id db with
  | None => forall k o, Db.payment_observations db !! k = Some o -> is_parked id o = false
  | Some t =>
      (exists k o, Db.payment_observations db !! k = Some o /\ is_parked id o = true /\ Observation.block_timestamp o = t) /\
      (forall k o, Db.payment_observations db !! k = Some o -> is_parked id o = true -> t <= Observation.block_timestamp o)
  end.
Proof.
  unfold earliest_parked.
  apply (map_fold_weak_ind (fun acc (m : ObsTable) =>
    match acc with
    | None => forall k o, m !! k = Some o -> is_parked id o = false
    | Some t =>
        (exists k o, m !! k = Some o /\ is_parked id o = true /\ Observation.block_timestamp o = t) /\
        (forall k o, m !! k = Some o -> is_parked id o = true -> t <= Observation.block_timestamp o)
    end)); [by intros k o|].
  intros k o m acc Hk IH. destruct (is_parked id o) eqn:Ho; destruct acc as [t|].
  - destruct IH as [(k1 & o1 & H1 & P1 & T1) IH]. split.
    + destruct (Z.min_spec (Observation.block_timestamp o) t) as [[? ->]|[? ->]].
      * exists k, o. by rewrite lookup_insert_eq.
      * exists k1, o1. rewrite lookup_insert_ne by congruence. done.
    + intros k2 o2 [[<- <-]|[Hne H2]]%lookup_insert_Some Hp; [lia|]. specialize (IH k2 o2 H2 Hp). lia.
  - split; [exists k, o; by rewrite lookup_insert_eq|].
    intros k2 o2 [[<- <-]|[Hne H2]]%lookup_insert_Some Hp; [lia|]. specialize (IH k2 o2 H2). congruence.
  - destruct IH as [(k1 & o1 & H1 & P1 & T1) IH]. split.
    + exists k1, o1. rewrite lookup_insert_ne by congruence. done.
    + intros k2 o2 [[<- <-]|[Hne H2]]%lookup_insert_Some Hp; [congruence|eauto].
  - intros k2 o2 [[<- <-]|[Hne H2]]%lookup_insert_Some; eauto.
Qed.

(** Unparking when nothing else is pending: no transfer of the request stays
    parked, and the request is flagged from the earliest one that was. *)
Lemma unpark_spec invoice now db n db' row :
  unpark_unless_pending invoice now db = (n, db') -> pending invoice db = false ->
  Db.invoices db !! invoice = Some row ->
  (forall k o', Db.payment_observations db' !! k = Some o' -> Observation.invoice_id o' = invoice ->
     Observation.relay_parked_at o' = None) /\
  match earliest_parked invoice db with
  | None => Db.invoices db' = Db.invoices db
  | Some t => Db.invoices db' !! invoice = Some (flagged_row t now row)
  end.
Proof.
  intros H Hp Hrow. split.
  - intros k o' Hk Hi. change db' with (snd (n, db')) in Hk. rewrite <- H in Hk.
    apply unpark_observation in Hk as (o & _ & E1 & _ & _ & Hw & _).
    destruct (Observation.relay_parked_at o'); [|done]. destruct (Hw eq_refl) as [_ [Hne|Hx]]; congruence.
  - unfold unpark_unless_pending in H. rewrite Hp in H. destruct (earliest_parked invoice db); injection H as <- <-; [|done].
    simpl. by rewrite lookup_alter_eq, Hrow.
Qed.

(** Filling the last pending intent of a request settles every parked
    transfer of it: those the fill made are attributed to the intent, none
    stays parked, and the request is flagged as likely unsolicited, from the
    chain time of the earliest one, exactly when some parked transfer is not
    the fill's; a request that was already flagged keeps its first flag. *)
Theorem fill_settles_parked id fills origin status now db res db' i row :
  resolve_filled id fills origin status now db = Ok (FrResolved res, db') ->
  Db.relay_intents db !! id = Some i -> Db.invoices db !! RelayIntent.invoice_id i = Some row ->
  pending (RelayIntent.invoice_id i) db' = false ->
  let foreign k o := is_parked (RelayIntent.invoice_id i) o && negb (made_by_fill i row fills (k, o)) in
  (forall k o', Db.payment_observations db' !! k = Some o' -> Observation.invoice_id o' = RelayIntent.invoice_id i ->
     Observation.relay_parked_at o' = None) /\
  (forall k o, Db.payment_observations db !! k = Some o -> made_by_fill i row fills (k, o) = true ->
     exists o', Db.payment_observations db' !! k = Some o' /\ Observation.relay_intent_id o' = Some id) /\
  ((forall k o, Db.payment_observations db !! k = Some o -> foreign k o = false) /\ Db.invoices db' = Db.invoices db \/
   exists k o, Db.payment_observations db !! k = Some o /\ foreign k o = true /\
     (forall k' o', Db.payment_observations db !! k' = Some o' -> foreign k' o' = true ->
        Observation.block_timestamp o <= Observation.block_timestamp o') /\
     Db.invoices db' !! RelayIntent.invoice_id i = Some (flagged_row (Observation.block_timestamp o) now row)).
Proof.
  intros H Hi Hrow Hpend foreign. unfold resolve_filled, lock_intent in H. destruct fills as [|f fs]; [discriminate|].
  rewrite Hi in H. destruct (is_unresolved _); [|discriminate]. simpl in H. destruct (origin_claimed _ _ _ _); [discriminate|].
  destruct (attribute_fill _ _ _ _) as [n db2] eqn:Ha. destruct (unpark_unless_pending _ _ _) as [m db3] eqn:Hp.
  injection H as _ ->. pose proof (unpark_intents (RelayIntent.invoice_id i) now db2) as E3. rewrite Hp in E3. simpl in E3.
  assert (pending (RelayIntent.invoice_id i) db2 = false) as Hp2 by (unfold pending in *; by rewrite <- E3).
  unfold attribute_fill in Ha. simpl in Ha. rewrite Hrow in Ha. injection Ha as _ Ha.
  assert (forall k, Db.payment_observations db2 !! k =
    (fun o => if made_by_fill i row (f :: fs) (k, o) then attributed_to id o else o) <$> Db.payment_observations db !! k) as E2.
  { intros k. rewrite <- Ha. cbn [Db.payment_observations]. rewrite map_lookup_imap. by destruct (_ !! k). }
  assert (Db.invoices db2 = Db.invoices db) as Ei by (by rewrite <- Ha).
  destruct (unpark_spec _ _ _ _ _ row Hp Hp2) as [U1 U2]; [by rewrite Ei|].
  assert (forall k o, Db.payment_observations db !! k = Some o -> exists o2, Db.payment_observations db2 !! k = Some o2 /\
    is_parked (RelayIntent.invoice_id i) o2 = foreign k o /\ Observation.block_timestamp o2 = Observation.block_timestamp o) as Hfor.
  { intros k o Hk. rewrite E2, Hk. simpl. eexists. split; [done|]. unfold foreign.
    destruct (made_by_fill i row (f :: fs) (k, o)) ; [|by rewrite andb_true_r].
    unfold is_parked, of_invoice. simpl. by rewrite !andb_false_r. }
  assert (forall k o2, Db.payment_observations db2 !! k = Some o2 -> exists o, Db.payment_observations db !! k = Some o) as Hback.
  { intros k o2. rewrite E2. destruct (Db.payment_observations db !! k); [eauto|done]. }
  split_and!; [done| |].
  - intros k o Hk Hm. pose proof (unpark_live (RelayIntent.invoice_id i) now db2) as [_ L]. rewrite Hp in L.
    apply (L k (attributed_to id o) id); [|done]. by rewrite E2, Hk; simpl; rewrite Hm.
  - pose proof (earliest_parked_spec (RelayIntent.invoice_id i) db2) as Hsp. destruct (earliest_parked _ _) as [t|].
    + right. destruct Hsp as [(k & o2 & Hk2 & Hpk & <-) Hmin]. destruct (Hback k o2 Hk2) as (o & Hk).
      destruct (Hfor k o Hk) as (o2' & Hk2' & Hf & Ht). assert (o2' = o2) as -> by congruence.
      exists k, o. split_and!; [done|congruence| |by rewrite <- Ht].
      intros k' o' Hk' Hf'. destruct (Hfor k' o' Hk') as (o3 & Hk3 & Hf3 & Ht3). rewrite <- Ht, <- Ht3.
      apply (Hmin k'); congruence.
    + left. split; [|congruence]. intros k o Hk. destruct (Hfor k o Hk) as (o2 & Hk2 & <- & _). eauto.
Qed.

(** ** All histories *)

Section Runs.
Context (payload_hash : Message -> B256) (parse_address : string -> option Address) (hex : bytes -> string).
#[local] Abbreviation step := (ledger_step payload_hash parse_address hex).

(** Every transaction but the crediting of a range and the repository's own
    leaves the intents and the attribution of transfers alone. *)
Lemma ledger_step_relay db db' :
  step db db' ->
  relay_kept db db' \/ relay_step db db' \/
  exists chain expected block hash ts obs now r,
    apply_finalized_range chain expected block hash ts obs now db = Ok (r, db').
Proof.
  intros []; try (by left; apply relay_kept_same).
  - left. unfold insert_issued in *. repeat case_match; inv_ok; try reflexivity.
    all: repeat case_match; inv_ok; try discriminate.
    all: try match goal with H : Attachment.attach_in_transaction _ _ _ _ _ = _ |- _ =>
      apply Attachment.attach_update in H; unfold Attachment.update_upload in H; repeat case_match; inv_ok end.
    all: by apply relay_kept_same.
  - left. unfold bind_payer_wallet, store_invoice in *. inv_ok. repeat case_match; inv_ok; try reflexivity.
    all: repeat case_match; inv_ok; by apply relay_kept_same.
  - left. unfold bind_network, store_invoice in *. inv_ok. repeat case_match; inv_ok; try reflexivity.
    all: repeat case_match; inv_ok; by apply relay_kept_same.
  - left. unfold request_cancellation. repeat case_match; by apply relay_kept_same.
  - left. unfold release_attention in *. repeat case_match; inv_ok. by apply relay_kept_same.
  - right. right. by do 8 eexists.
  - left. by eapply schedule_relay.
  - left. apply flag_relay.
  - left. by eapply finalized_relay.
  - left. by eapply close_relay.
  - left. by eapply close_relay.
  - right. by left.
  - left. by apply verification_relay.
Qed.

Lemma ledger_step_relay_ok db db' : step db db' -> relay_ok db -> relay_ok db'.
Proof.
  intros [H|[H|(?&?&?&?&?&?&?&?&H)]]%ledger_step_relay;
    eauto using relay_kept_ok, relay_step_ok, range_relay_ok.
Qed.

Lemma range_intents chain expected block hash ts obs now db r db' :
  apply_finalized_range chain expected block hash ts obs now db = Ok (r, db') -> Db.relay_intents db' = Db.relay_intents db.
Proof.
  unfold apply_finalized_range. intros H. apply rbind_ok in H as (cur & _ & H).
  case_bool_decide; [|by injection H as <- <-]. unfold apply_range_body in H.
  apply rbind_ok in H as (credits0 & Hl & H). apply rbind_ok in H as ([credits table] & Hf & H).
  destruct (apply_credits now credits (Db.invoices db)) as [invoices funded].
  destruct (expire_bound _ _ _ _) as [expired db2] eqn:He. apply rbind_ok in H as (db3 & Hs & [= <- <-]).
  unfold store_cursor in Hs. case_match; inv_ok. unfold expire_bound in He. by injection He as <- <-.
Qed.

Lemma range_lives_relay chain expected block hash ts obs now db r db' :
  apply_finalized_range chain expected block hash ts obs now db = Ok (r, db') -> intents_live db db'.
Proof.
  unfold apply_finalized_range. intros H. apply rbind_ok in H as (cur & _ & H).
  case_bool_decide; [|injection H as <- <-; reflexivity]. unfold apply_range_body in H.
  apply rbind_ok in H as (credits0 & Hl & H). apply rbind_ok in H as ([credits table] & Hf & H).
  destruct (apply_credits now credits (Db.invoices db)) as [invoices funded].
  destruct (expire_bound _ _ _ _) as [expired db2] eqn:He. apply rbind_ok in H as (db3 & Hs & [= <- <-]).
  assert (Db.relay_intents db3 = Db.relay_intents db /\ Db.payment_observations db3 = table) as [Hi Ho].
  { unfold store_cursor in Hs. case_match; inv_ok. unfold expire_bound in He. by injection He as <- <-. }
  assert (Db.payment_observations db ⊆ table) as Hsub.
  { change table with (snd (credits, table)).
    eapply (try_fold_ind _ (fun s => Db.payment_observations db ⊆ snd s)); [| |exact Hf]; [|done].
    intros [cs t] o [cs' t'] _ Hs' Hx. unfold step_observation in Hx. simpl in *.
    repeat case_match; inv_ok; try done.
    all: etrans; [exact Hs'|apply insert_subseteq]; by destruct (t !! _). }
  split.
  - rewrite Hi. intros id i Hid. exists i. split; [done|reflexivity].
  - rewrite Ho. intros k o id Hk Hid. exists o. split; [|done]. by eapply lookup_weaken.
Qed.

Lemma ledger_step_intents_live db db' : step db db' -> intents_live db db'.
Proof.
  intros [H|[H|(?&?&?&?&?&?&?&?&H)]]%ledger_step_relay;
    eauto using relay_kept_lives, relay_step_lives, range_lives_relay.
Qed.

(** A ledger before its first request and its first quote. *)
Definition no_relay (db : Db.t) : Prop := Db.payment_observations db = ∅ /\ Db.relay_intents db = ∅.

Lemma no_relay_ok db : no_relay db -> relay_ok db.
Proof.
  intros [Ho Hi]. split; rewrite ?Ho, ?Hi; [intros k o|intros id i|intros id id' i i' hash]; by rewrite lookup_empty.
Qed.

Lemma ledger_steps_relay_ok db db' : rtc step db db' -> relay_ok db -> relay_ok db'.
Proof. induction 1; eauto using ledger_step_relay_ok. Qed.

(** In every state the ledger reaches, relay attribution is grounded: a
    parked transfer's request has an intent whose payment is reported as sent;
    a transfer attributed to an intent is not parked, and the intent was
    filled on the origin chain's receipt, for the same request, for exactly
    the transferred amount, in the transfer's own transaction; and one origin
    transaction of a chain fills at most one intent. *)
Theorem relay_attribution_grounded db0 db k o :
  no_relay db0 -> rtc step db0 db -> Db.payment_observations db !! k = Some o ->
  (is_some (Observation.relay_parked_at o) = true ->
     exists id i, Db.relay_intents db !! id = Some i /\
       RelayIntent.invoice_id i = Observation.invoice_id o /\ RelayIntent.status i = Sent) /\
  (forall id, Observation.relay_intent_id o = Some id ->
     Observation.relay_parked_at o = None /\
     exists i hash, Db.relay_intents db !! id = Some i /\ RelayIntent.status i = Filled /\
       RelayIntent.invoice_id i = Observation.invoice_id o /\
       RelayIntent.quoted_out_amount i = Observation.amount o /\
       snd (fst k) ∈ RelayIntent.fill_tx_hashes i /\
       RelayIntent.attribution_source i = Some "receipt"%string /\
       RelayIntent.verified_origin_tx_hash i = Some hash /\
       forall id' i', Db.relay_intents db !! id' = Some i' ->
         RelayIntent.origin_chain_id i' = RelayIntent.origin_chain_id i ->
         RelayIntent.verified_origin_tx_hash i' = Some hash -> id' = id).
Proof.
  intros H0 Hr Hk. pose proof (ledger_steps_relay_ok _ _ Hr (no_relay_ok _ H0)) as [R1 R2 R3].
  destruct (R1 k o Hk) as [P A]. split.
  - intros (id & i & Hi & Hs)%P. exists id, i. unfold sent_for in Hs. bools. by split_and!.
  - intros id [Hn (i & Hi & X1 & X2 & X3 & X4)]%A. split; [done|]. pose proof (R2 id i Hi) as Hv.
    unfold verified_fill in Hv. rewrite bool_decide_true in Hv by done. bools.
    destruct (RelayIntent.verified_origin_tx_hash i) as [hash|] eqn:Hh; [|done].
    exists i, hash. split_and!; try done. intros id' i' Hi' Hc Hh'. by eapply R3.
Qed.

(** However the ledger's history goes on, an intent's quoted terms never
    change, its status only advances (quoted, expired, sent, then one of
    filled, failed and refunded, which is never left), the origin transaction
    it was reported with and the one it was verified with are never replaced,
    and a transfer attributed to it stays attributed to it. *)
Theorem intents_only_advance db db' id i :
  rtc step db db' -> Db.relay_intents db !! id = Some i ->
  (exists i', Db.relay_intents db' !! id = Some i' /\ terms i' = terms i /\
     relay_rank (RelayIntent.status i) <= relay_rank (RelayIntent.status i') /\
     (is_unresolved (RelayIntent.status i) = false -> RelayIntent.status i' = RelayIntent.status i /\
        RelayIntent.verified_origin_tx_hash i' = RelayIntent.verified_origin_tx_hash i /\
        RelayIntent.fill_tx_hashes i' = RelayIntent.fill_tx_hashes i) /\
     (forall h, origin_tx_hash i = Some h -> origin_tx_hash i' = Some h)) /\
  (forall k o, Db.payment_observations db !! k = Some o -> Observation.relay_intent_id o = Some id ->
     exists o', Db.payment_observations db' !! k = Some o' /\ Observation.relay_intent_id o' = Some id).
Proof.
  intros Hr Hi. assert (intents_live db db') as [L1 L2].
  { clear Hi. induction Hr as [|a b c Hs _ IH]; [reflexivity|]. etrans; [by apply ledger_step_intents_live|done]. }
  split; [|eauto]. destruct (L1 id i Hi) as (i' & Hi' & [T R F O]). exists i'. by split_and!.
Qed.

End Runs.

(** ** An attested request paid across chains *)

Module RelayExample.
Import LedgerExample.

Definition wallet : Address := replicate 20 11.
Definition solver : Address := replicate 20 12.
Definition origin_tx : B256 := replicate 32 13.
(** Short stand-ins for the byte strings that key the table of transfers. *)
Definition fill_tx : B256 := [14].
Definition coin : Address := [1].
Definition token_hash (s : string) : B256 := replicate 32 (Z.of_nat (String.length s)).

Definition attested : CreateInvoiceInput.t := {| (input 2 "order-2" address) with
  CreateInvoiceInput.payer_verification := PayerVerification.mk None None true;
  CreateInvoiceInput.initial_binding := None |}.
Definition binding : PaymentBinding.t :=
  PaymentBinding.mk (NetworkTerms.mk chain coin (replicate 20 9)) (replicate 20 4) (replicate 32 7) address 0
    (Some (WalletEvidence.mk wallet "{}" 0)).
Definition quote : NewRelayIntent.t :=
  NewRelayIntent.mk 40 2 (replicate 32 15) 10 chain (replicate 20 16) wallet 61 60 (5000 * 10 ^ 6).
Definition solver_pays (tx : B256) (block : Z) : PaymentObservation.t :=
  PaymentObservation.mk coin block block_hash (1800000000 + block) tx 4 0 solver address 60.

Definition r1 := insert_issued hex attested None 1000 1000 start.
Definition s1 : Db.t := Eval vm_compute in state_of r1.
Definition r2 := create token_hash 30 "token" 2 PAYER_SESSION_TTL 1100 s1.
Definition s2 : Db.t := Eval vm_compute in state_of r2.
Definition r3 := bind_payer_wallet 2 30 31 binding 1200 1200 s2.
Definition s3 : Db.t := Eval vm_compute in state_of r3.
Definition r4 := insert quote 1300 s3.
Definition s4 : Db.t := Eval vm_compute in state_of r4.
Definition r5 := mark_sent 40 2 wallet origin_tx 1400 s4.
Definition s5 : Db.t := Eval vm_compute in state_of r5.
Definition r6 := apply_finalized_range chain None 110 block_hash 1900000000
  [solver_pays fill_tx 100; solver_pays [17] 102; solver_pays [18] 101] 2000 s5.
Definition parked : Db.t := Eval vm_compute in state_of r6.
Definition r7 := resolve_filled 40 [fill_tx] origin_tx "success" 2100 parked.
Definition filled_state : Db.t := Eval vm_compute in state_of r7.

Definition fill_key : ObservationKey := (chain, coin, fill_tx, 0).
Definition foreign_key : ObservationKey := (chain, coin, [18], 0).
Definition observation_at (k : ObservationKey) (db : Db.t) : Observation.t :=
  default (Observation.mk 0 0 [] 0 0 [] [] 0 Error None None None None 0) (Db.payment_observations db !! k).
Definition intent_in (db : Db.t) : RelayIntent.t :=
  default (RelayIntent.mk 0 [] 0 0 [] [] 0 0 Quoted None None [] None None None 0 None None 0) (Db.relay_intents db !! 40).

#[local] Abbreviation run := (rtc (ledger_step hash parse hex)).

Lemma start_fresh : no_relay start.
Proof. by split. Qed.

Lemma run_parked : run start parked.
Proof.
  eapply rtc_l; [eapply (step_issue _ _ _ start attested None 1000 1000); vm_compute; reflexivity|].
  eapply rtc_l; [apply step_verification; eapply (vs_create _ token_hash 30 "token" 2 PAYER_SESSION_TTL 1100); vm_compute; reflexivity|].
  eapply rtc_l; [eapply (step_bind_wallet _ _ _ _ 2 30 31 binding 1200 1200); vm_compute; reflexivity|].
  eapply rtc_l; [apply step_relay; eapply (rs_insert _ quote 1300); vm_compute; reflexivity|].
  eapply rtc_l; [apply step_relay; eapply (rs_mark_sent _ 40 2 wallet origin_tx 1400); vm_compute; reflexivity|].
  eapply rtc_once, (step_range _ _ _ _ chain None 110 block_hash 1900000000
    [solver_pays fill_tx 100; solver_pays [17] 102; solver_pays [18] 101] 2000);
    [by repeat constructor|vm_compute; reflexivity].
Qed.

Lemma step_filled : ledger_step hash parse hex parked filled_state.
Proof. apply step_relay. eapply (rs_filled _ 40 [fill_tx] origin_tx "success" 2100). vm_compute. reflexivity. Qed.

(** Two parked transfers are handed back, one is reported: the count is of
    requests, not of transfers. *)
Example unparked_counts_requests : value_of r7 = Some (FrResolved (Resolution.mk 1 1)).
Proof. vm_compute. reflexivity. Qed.

Lemma relay_attribution_grounded_witness :
  (exists id i, Db.relay_intents parked !! id = Some i /\ RelayIntent.invoice_id i = 2 /\ RelayIntent.status i = Sent) /\
  (exists i hash, Db.relay_intents filled_state !! 40 = Some i /\ RelayIntent.status i = Filled /\
     RelayIntent.verified_origin_tx_hash i = Some hash).
Proof.
  split.
  - apply (proj1 (relay_attribution_grounded hash parse hex start parked fill_key (observation_at fill_key parked)
      start_fresh run_parked ltac:(vm_compute; reflexivity)) ltac:(vm_compute; reflexivity)).
  - destruct (proj2 (relay_attribution_grounded hash parse hex start filled_state fill_key (observation_at fill_key filled_state)
      start_fresh (rtc_r _ _ _ run_parked step_filled) ltac:(vm_compute; reflexivity)) 40 ltac:(vm_compute; reflexivity))
      as (_ & i & h & Hi & Hs & _ & _ & _ & _ & Hh & _).
    exists i, h. exact (conj Hi (conj Hs Hh)).
Defined.

Lemma intents_only_advance_witness :
  exists i', Db.relay_intents filled_state !! 40 = Some i' /\ terms i' = terms (intent_in parked) /\
    origin_tx_hash i' = Some origin_tx.
Proof.
  destruct (intents_only_advance hash parse hex parked filled_state 40 (intent_in parked) (rtc_once _ _ step_filled)
    ltac:(vm_compute; reflexivity)) as ((i' & Hi & Ht & _ & _ & Ho) & _).
  exists i'. split; [exact Hi|]. split; [exact Ht|]. apply Ho. vm_compute. reflexivity.
Defined.

Lemma fill_settles_parked_witness :
  Db.invoices filled_state !! 2 = Some (flagged_row 1800000101 2100 (default (issued_row attested 0 0) (Db.invoices parked !! 2))).
Proof.
  destruct (fill_settles_parked 40 [fill_tx] origin_tx "success" 2100 parked (Resolution.mk 1 1) filled_state (intent_in parked)
    (default (issued_row attested 0 0) (Db.invoices parked !! 2)) ltac:(vm_compute; reflexivity) ltac:(vm_compute; reflexivity)
    ltac:(vm_compute; reflexivity) ltac:(vm_compute; reflexivity)) as (_ & _ & [[Hno _]|(k & o & Hk & Hf & Hmin & Hr)]).
  - specialize (Hno foreign_key (observation_at foreign_key parked) ltac:(vm_compute; reflexivity)). vm_compute in Hno. discriminate.
  - vm_compute. reflexivity.
Defined.

End RelayExample.
