(* ===== verification/VerificationTheorems.v ===== *)
(** * gum-ledger: what payer verification guarantees

    A client secret opens one session and never a second; a request's
    verification completes only through a payer's own session that carries
    every fact the request asks for, while the request is live; and a code is
    sent for a request at most once per cooldown. *)

From S2P Require Import Prelude Core Contracts Bus Tables Attachments Invoices Range Sweeps.
From S2P Require Import RelayIntents Verifications LedgerExample LedgerInv LedgerNotes RangeInv LedgerRuns.

Implicit Types (id : Uuid) (db : Db.t) (now utc : Timestamp).

(** ** Completion *)

(** The identity add-ons of a request, as its row keeps them. *)
Definition policy_of (row : DbInvoice.t) : PayerVerification.t :=
  PayerVerification.mk (Issuance.expected_email (DbInvoice.issuance row))
    (Issuance.payer_reference (DbInvoice.issuance row))
    (Issuance.wallet_attestation_required (DbInvoice.issuance row)).

Lemma complete_invoice_sets invoice t s wanted now db r db' id row row' at_ :
  complete_invoice invoice t (Some s) wanted now db = (r, db') ->
  Db.invoices db !! id = Some row -> Db.invoices db' !! id = Some row' ->
  DbInvoice.verification_completed_at row = None -> DbInvoice.verification_completed_at row' = Some at_ ->
  id = invoice /\ at_ = t /\ r = Some t /\ wanted row = true /\
  PayerSession.purpose s = ForPayer /\ epoch_bigint t <= DbInvoice.expiration_timestamp row /\
  (DbInvoice.status row = Created \/ DbInvoice.status row = Funded) /\
  DbInvoice.issuance row' = DbInvoice.issuance row.
Proof.
  unfold complete_invoice. intros H Hid Hid' Hn Hs.
  destruct (Db.invoices db !! invoice) as [row0|] eqn:Hi; [|injection H as <- <-; congruence].
  destruct (completable _ _ _ _) eqn:Hc; injection H as <- <-; [|congruence].
  simpl in Hid'. destruct (decide (id = invoice)) as [->|Hne]; [|rewrite lookup_insert_ne in Hid' by done; congruence].
  rewrite lookup_insert_eq in Hid'. injection Hid' as <-. assert (row0 = row) as -> by congruence. simpl in Hs.
  unfold completable in Hc. bools. split_and!; try congruence; try done.
  destruct (DbInvoice.status row); auto; done.
Qed.

Lemma insert_session_invoices id s db db' :
  insert_session id s db = Ok db' -> Db.invoices db' = Db.invoices db /\ Db.payer_sessions db' !! id = Some s.
Proof. unfold insert_session. intros H. repeat case_match; inv_ok. split; [done|]. apply lookup_insert_eq. Qed.

(** What a completion rests on. *)
Definition completion_grounded (id : Uuid) (at_ : Timestamp) (row : DbInvoice.t) (db' : Db.t) : Prop :=
  exists session_id s, Db.payer_sessions db' !! session_id = Some s /\
    PayerSession.invoice_id s = id /\ PayerSession.purpose s = ForPayer /\
    satisfies s (policy_of row) = true /\
    epoch_bigint at_ <= DbInvoice.expiration_timestamp row /\
    (DbInvoice.status row = Created \/ DbInvoice.status row = Funded).

Lemma approve_email_grounded session ref verified event now db r db' id row row' at_ :
  approve_email session ref verified event now db = Ok (r, db') ->
  Db.invoices db !! id = Some row -> Db.invoices db' !! id = Some row' ->
  DbInvoice.verification_completed_at row = None -> DbInvoice.verification_completed_at row' = Some at_ ->
  completion_grounded id at_ row db'.
Proof.
  unfold approve_email. intros H Hid Hid' Hn Hs.
  destruct (approved_before event db) as [[? a]|]; [inv_ok; congruence|].
  destruct (negb _); [discriminate|]. apply rbind_ok in H as (s & Hss%ok_or_ok & H).
  destruct (PayerSession.expires_at s <=? verified) eqn:He; [discriminate|].
  set (s' := proves_email ref verified s) in H. destruct (complete_invoice _ _ _ _ _ _) as [c db3] eqn:Hc. inv_ok.
  pose proof (complete_invoice_sets _ _ _ _ _ _ _ _ id row row' at_ Hc Hid Hid' Hn Hs) as (E1 & -> & _ & Hw & Hp & Hexp & Hst & _).
  bools. exists session, s'. split_and!; try done.
  - assert (Db.payer_sessions db' = <[session := s']> (Db.payer_sessions db)) as ->; [|apply lookup_insert_eq].
    unfold complete_invoice in Hc. repeat case_match; by injection Hc as <- <-.
  - unfold satisfies, VerificationFacts.satisfy, facts. simpl. unfold wants_email, merchant_proven in Hw. bools.
    assert (is_some (coalesce (PayerSession.email_verified_at s) (Some verified)) = true) as Hem
      by (by destruct (PayerSession.email_verified_at s)).
    rewrite Hem, orb_true_r. done.
Qed.

Lemma exchange_grounded hash secret invoice ttl token session attempt utc now db r db' id row row' at_ :
  exchange_client_secret hash secret invoice ttl token session attempt utc now db = Ok (r, db') ->
  Db.invoices db !! id = Some row -> Db.invoices db' !! id = Some row' ->
  DbInvoice.verification_completed_at row = None -> DbInvoice.verification_completed_at row' = Some at_ ->
  completion_grounded id at_ row db'.
Proof.
  unfold exchange_client_secret. intros H Hid Hid' Hn Hs.
  destruct (find_secret _ _ _ _) as [[sid c]|]; [|discriminate].
  destruct (is_some _); [discriminate|]. destruct (_ <=? _); [discriminate|].
  set (s := fresh_session _ _ _ _ _ _ _ _) in H. apply rbind_ok in H as (db1 & Hins & H).
  unfold exchange_db in Hins. destruct (insert_session session s db) as [d|] eqn:Hi; [|discriminate]. inv_ok.
  apply insert_session_invoices in Hi as [Ei Es].
  destruct (_ <? _); [discriminate|]. destruct (is_some _); [discriminate|].
  destruct (complete_invoice _ _ _ _ _ _) as [cc db4] eqn:Hc. inv_ok.
  rewrite <- Ei in Hid.
  pose proof (complete_invoice_sets _ _ _ _ _ _ _ _ id row row' at_ Hc Hid Hid' Hn Hs) as (E1 & -> & _ & Hw & Hp & Hexp & Hst & _).
  exists session, s. split_and!; try done.
  - assert (Db.payer_sessions db' = Db.payer_sessions db1) as ->; [|done].
    unfold complete_invoice in Hc. repeat case_match; by injection Hc as <- <-.
  - unfold satisfies, VerificationFacts.satisfy, facts. simpl. unfold wants_merchant, email_proven in Hw.
    simpl in Hw. bools. rewrite orb_true_r, andb_true_r. by rewrite orb_false_r in *.
Qed.

(** C27. A request's verification is completed only on grounds: the write
    that completes it leaves a payer's own session of that request, not a
    merchant's preview, which carries every identity fact the
    request's add-ons ask for, and the request was still live and before its
    deadline; a completed verification keeps its time. *)
Theorem verification_completes_on_facts db db' id row row' :
  verification_step db db' -> Db.invoices db !! id = Some row -> Db.invoices db' !! id = Some row' ->
  (forall at_, DbInvoice.verification_completed_at row = Some at_ -> DbInvoice.verification_completed_at row' = Some at_) /\
  (forall at_, DbInvoice.verification_completed_at row = None -> DbInvoice.verification_completed_at row' = Some at_ ->
     completion_grounded id at_ row db').
Proof.
  intros Hstep Hid Hid'. split.
  - intros at_ Hat. destruct (noted_row_forth _ _ _ _ (verification_step_noted _ _ Hstep) Hid)
      as (r2 & Hr2 & f & v & u & -> & _ & Hv). rewrite Hr2 in Hid'. injection Hid' as <-. by apply Hv.
  - intros at_ Hn Hs.
    destruct Hstep; eauto using approve_email_grounded, exchange_grounded.
    all: exfalso.
    all: try (unfold create, create_merchant_preview in *; inv_ok;
      match goal with H : insert_session _ _ _ = Ok _ |- _ => apply insert_session_invoices in H as [E _] end; congruence).
    + unfold issue_wallet_challenge in *. repeat case_match; inv_ok; simpl in *; congruence.
    + simpl in *. congruence.
    + simpl in *. congruence.
    + unfold begin_email_verification in *. repeat case_match; inv_ok; simpl in *; congruence.
    + unfold create_client_secret in *. repeat case_match; inv_ok; simpl in *; congruence.
Qed.

(** ** Client secrets *)

Definition secret_lives (c c' : ClientSecret.t) : Prop :=
  ClientSecret.secret_hash c' = ClientSecret.secret_hash c /\
  ClientSecret.invoice_id c' = ClientSecret.invoice_id c /\
  set_once (ClientSecret.used_at c) (ClientSecret.used_at c').

#[local] Instance secret_lives_preorder : PreOrder secret_lives.
Proof.
  split; [by intros c|]. intros a b c (?&?&?) (?&?&?). split_and!; [congruence|congruence|by etrans].
Qed.

(** Secrets are never forgotten, and their hashes stay distinct. *)
Record secrets_live (db db' : Db.t) : Prop := {
  sl_lives : forall id c, Db.payer_client_secrets db !! id = Some c ->
    exists c', Db.payer_client_secrets db' !! id = Some c' /\ secret_lives c c';
  sl_unique :
    (forall id id' c c', Db.payer_client_secrets db !! id = Some c -> Db.payer_client_secrets db !! id' = Some c' ->
       ClientSecret.secret_hash c = ClientSecret.secret_hash c' -> id = id') ->
    (forall id id' c c', Db.payer_client_secrets db' !! id = Some c -> Db.payer_client_secrets db' !! id' = Some c' ->
       ClientSecret.secret_hash c = ClientSecret.secret_hash c' -> id = id');
}.

#[local] Instance secrets_live_preorder : PreOrder secrets_live.
Proof.
  split.
  - intros db. split; [|auto]. intros id c H. exists c. split; [done|reflexivity].
  - intros a b c [A1 A2] [B1 B2]. split; [|exact (fun H => B2 (A2 H))]. intros id x Hx.
    destruct (A1 id x Hx) as (y & Hy & L1). destruct (B1 id y Hy) as (z & Hz & L2). exists z. split; [done|by etrans].
Qed.

Lemma secrets_same db db' : Db.payer_client_secrets db' = Db.payer_client_secrets db -> secrets_live db db'.
Proof. intros E. split; rewrite E; [|auto]. intros id c H. exists c. split; [done|reflexivity]. Qed.

(** Rows rewritten in place. *)
Lemma secrets_rewritten db db' (f : Uuid -> ClientSecret.t -> ClientSecret.t) :
  (forall id c, Db.payer_client_secrets db !! id = Some c -> secret_lives c (f id c)) ->
  (forall id, Db.payer_client_secrets db' !! id = f id <$> Db.payer_client_secrets db !! id) -> secrets_live db db'.
Proof.
  intros Hf He. split.
  - intros id c Hc. rewrite He, Hc. simpl. eauto.
  - intros Hu id id' c c'. rewrite !He. intros (d & Hd & ->)%fmap_Some (d' & Hd' & ->)%fmap_Some Hh.
    destruct (Hf id d Hd) as (E & _), (Hf id' d' Hd') as (E' & _). apply (Hu id id' d d'); congruence.
Qed.

Lemma complete_secrets invoice t s w now db :
  Db.payer_client_secrets (snd (complete_invoice invoice t s w now db)) = Db.payer_client_secrets db.
Proof. unfold complete_invoice. by repeat case_match. Qed.

Lemma insert_session_secrets id s db db' :
  insert_session id s db = Ok db' -> Db.payer_client_secrets db' = Db.payer_client_secrets db.
Proof. unfold insert_session. intros H. repeat case_match; by inv_ok. Qed.

Lemma find_secret_spec hash secret invoice db id c :
  find_secret hash secret invoice db = Some (id, c) ->
  Db.payer_client_secrets db !! id = Some c /\ ClientSecret.secret_hash c = hash secret /\ ClientSecret.invoice_id c = invoice.
Proof.
  intros [Hin Hp]%find_some. rewrite <- list_elem_of_In, elem_of_map_to_list in Hin. bools. by split_and!.
Qed.

(** An exchange spends exactly its secret. *)
Lemma exchange_spends hash secret invoice ttl token session attempt utc now db r db' :
  exchange_client_secret hash secret invoice ttl token session attempt utc now db = Ok (r, db') ->
  exists id c, Db.payer_client_secrets db !! id = Some c /\
    ClientSecret.secret_hash c = hash secret /\ ClientSecret.invoice_id c = invoice /\
    ClientSecret.used_at c = None /\ utc < ClientSecret.expires_at c /\
    Db.payer_client_secrets db' = <[id := spent utc session c]> (Db.payer_client_secrets db).
Proof.
  unfold exchange_client_secret. intros H.
  destruct (find_secret hash secret invoice db) as [[id c]|] eqn:Hf; [|discriminate].
  apply find_secret_spec in Hf as (Hc & Hh & Hi).
  destruct (ClientSecret.used_at c) eqn:Hu; [discriminate|]. simpl in H.
  destruct (ClientSecret.expires_at c <=? utc) eqn:He; [discriminate|]. bools.
  apply rbind_ok in H as (db1 & Hins & H). unfold exchange_db in Hins.
  destruct (insert_session _ _ db) as [d|] eqn:Hs; [|discriminate]. inv_ok. apply insert_session_secrets in Hs.
  destruct (_ <? _); [discriminate|]. destruct (is_some _); [discriminate|].
  match type of H with (let '(_, _) := ?x in _) = _ => destruct x as [cc db4] eqn:Hx end. inv_ok.
  exists id, c. split_and!; try done. change db' with (snd (cc, db')). rewrite <- Hx, complete_secrets. simpl. by rewrite Hs.
Qed.

Lemma verification_secrets db db' : verification_step db db' -> secrets_live db db'.
Proof.
  intros [].
  - unfold create in *. inv_ok. apply secrets_same. by eapply insert_session_secrets.
  - unfold create_merchant_preview in *. inv_ok. apply secrets_same. by eapply insert_session_secrets.
  - unfold issue_wallet_challenge in *. repeat case_match; inv_ok. by apply secrets_same.
  - eapply secrets_rewritten; [|intros id; simpl; by rewrite lookup_update_where].
    intros id c _. simpl. by case_bool_decide.
  - by apply secrets_same.
  - unfold begin_email_verification in *. repeat case_match; inv_ok; by apply secrets_same.
  - unfold approve_email in *. destruct (approved_before _ _) as [[? ?]|]; [inv_ok; reflexivity|].
    destruct (negb _); [discriminate|]. inv_ok. destruct (_ <=? _); [discriminate|].
    match goal with H : (let '(_, _) := complete_invoice ?a ?b ?c ?d ?e ?f in _) = _ |- _ =>
      pose proof (complete_secrets a b c d e f) as Hc; destruct (complete_invoice a b c d e f) end.
    inv_ok. apply secrets_same. exact Hc.
  - unfold create_client_secret in *.
    destruct (Db.payer_client_secrets db !! id) eqn:Hid; [discriminate|]. simpl in H.
    destruct (existsb _ _) eqn:Hex; [discriminate|]. repeat case_match; inv_ok.
    assert (forall a c, Db.payer_client_secrets db !! a = Some c ->
      ClientSecret.secret_hash c <> hash (CLIENT_SECRET_PREFIX +:+ token)%string) as Hfresh.
    { intros a c Ha Hh. apply not_true_iff_false in Hex. apply Hex, existsb_exists. exists (a, c).
      rewrite <- list_elem_of_In, elem_of_map_to_list. split; [done|]. by apply bool_decide_eq_true. }
    split; simpl.
    + intros a c Ha. rewrite lookup_insert_ne by congruence. exists c. split; [done|reflexivity].
    + intros Hu a b c c' [[<- <-]|[Hna Ha]]%lookup_insert_Some [[<- <-]|[Hnb Hb]]%lookup_insert_Some Hh; try done.
      * by destruct (Hfresh b c' Hb).
      * by destruct (Hfresh a c Ha).
      * by eapply Hu.
  - match goal with H : exchange_client_secret _ _ _ _ _ _ _ _ _ _ = _ |- _ =>
      apply exchange_spends in H as (id & c & Hc & _ & _ & Hn & _ & He) end.
    apply (secrets_rewritten _ _ (fun a x => if bool_decide (a = id) then spent utc session c else x)).
    + intros a x Ha. case_bool_decide; [|reflexivity]. subst. assert (x = c) as -> by congruence.
      split_and!; try done. rewrite Hn. by intros y.
    + intros a. rewrite He. case_bool_decide; [subst; by rewrite lookup_insert_eq, Hc|].
      rewrite lookup_insert_ne by done. by destruct (_ !! a).
Qed.

(** ** Transactions that leave the payers' tables alone *)

Definition payers (db : Db.t) :=
  (Db.payer_sessions db, Db.payer_verifications db, Db.payer_client_secrets db).

Lemma flag_payers id reason now db : payers (snd (flag_attention_in id reason now db)) = payers db.
Proof. unfold flag_attention_in. by repeat case_match. Qed.

Lemma range_payers chain expected block hash ts obs now db r db' :
  apply_finalized_range chain expected block hash ts obs now db = Ok (r, db') -> payers db' = payers db.
Proof.
  unfold apply_finalized_range, apply_range_body. intros H. apply rbind_ok in H as (cur & _ & H).
  case_bool_decide; [|by injection H as <- <-].
  apply rbind_ok in H as (credits0 & Hl & H). apply rbind_ok in H as ([credits table] & Hf & H).
  destruct (apply_credits now credits (Db.invoices db)) as [invoices funded]. simpl in H.
  apply rbind_ok in H as (db3 & Hs & [= <- <-]). unfold store_cursor in Hs. case_match; by inv_ok.
Qed.

Lemma schedule_payers hash parse chain policy producer job corr msg now db r db' :
  schedule_sweep_job hash parse chain policy producer job corr msg now db = Ok (r, db') -> payers db' = payers db.
Proof.
  unfold schedule_sweep_job. intros H. destruct (halted _ db); [by inv_ok|].
  destruct (is_some _); [discriminate|]. apply rbind_ok in H as (rows & _ & H).
  destruct rows as [|r0 rows0]; [by inv_ok|].
  apply rbind_ok in H as (items & _ & H). destruct (publish _ _ _ _ _ _ _ _) as [[? ?]|]; [|discriminate].
  by injection H as <- <-.
Qed.

Lemma resolve_payers job res detail tx now db db' : resolve_job job res detail tx now db = Ok db' -> payers db' = payers db.
Proof. unfold resolve_job. intros H. repeat case_match; by inv_ok. Qed.

Lemma close_payers job res detail tx now db n db' :
  close_without_effect job res detail tx now db = Ok (n, db') -> payers db' = payers db.
Proof.
  unfold close_without_effect. intros H. destruct (job_open job db); [|discriminate]. simpl in H.
  by apply rbind_ok in H as (db2 & Hres%resolve_payers & [= <- <-]).
Qed.

Lemma drain_payers receipt row d now db db' : apply_drain receipt row d now db = Ok db' -> payers db' = payers db.
Proof.
  unfold apply_drain. intros H. destruct (negb (positions_allowed _ _)); [discriminate|].
  destruct (_ && negb (bool_decide _)); [discriminate|]. injection H as <-.
  destruct (Drain.attention d); [by rewrite flag_payers|done].
Qed.

Lemma finalized_payers receipt policy now db r db' :
  apply_sweep_finalized receipt policy now db = Ok (r, db') -> payers db' = payers db.
Proof.
  unfold apply_sweep_finalized. intros H. destruct (job_open _ db); [|discriminate]. simpl in H.
  apply rbind_ok in H as ([applied db1] & Hf & H). destruct (negb (_ =? 0)); [discriminate|].
  apply rbind_ok in H as (db2 & Hres%resolve_payers & [= <- <-]). rewrite Hres. change db1 with (snd (applied, db1)).
  eapply (try_fold_ind _ (fun s => payers (snd s) = payers db)); [| |exact Hf]; [|done].
  intros [ap d] item [ap' d'] _ Hs Hx. unfold apply_item in Hx. simpl in *.
  apply rbind_ok in Hx as (row & _ & Hx). destruct (bool_decide _); [|discriminate]. simpl in Hx.
  apply rbind_ok in Hx as ([ap2 d2] & Hdec & [= <- <-]). simpl. rewrite <- Hs. clear Hs.
  trans (payers d2); [done|]. destruct (decide_item _ _ _ _).
  - by apply rbind_ok in Hdec as (d1 & Hd%drain_payers & [= <- <-]).
  - by injection Hdec as <- <-.
  - injection Hdec as <- <-. by rewrite flag_payers.
Qed.

Lemma relay_payers db db' : relay_step db db' -> payers db' = payers db.
Proof.
  assert (forall id now d, payers (snd (unpark_unless_pending id now d)) = payers d) as Hu.
  { intros. unfold unpark_unless_pending. by repeat case_match. }
  assert (forall id i fills d, payers (snd (attribute_fill id i fills d)) = payers d) as Ha.
  { intros. unfold attribute_fill. by repeat case_match. }
  intros [].
  - unfold insert in *. repeat case_match; by inv_ok.
  - unfold mark_sent in *. repeat case_match; by inv_ok.
  - unfold defer. by repeat case_match.
  - done.
  - unfold resolve_filled in *. repeat case_match; inv_ok; try done.
    match goal with H : attribute_fill ?a ?b ?c ?d = _ |- _ => pose proof (Ha a b c d) as E1; rewrite H in E1 end.
    match goal with H : unpark_unless_pending ?a ?b ?c = _ |- _ => pose proof (Hu a b c) as E2; rewrite H in E2 end.
    simpl in *. by rewrite E2, E1.
  - unfold resolve_failed in *. repeat case_match; inv_ok; try done.
    match goal with H : unpark_unless_pending ?a ?b ?c = _ |- _ => pose proof (Hu a b c) as E2; rewrite H in E2 end.
    simpl in *. by rewrite E2.
Qed.

Section Runs.
Context (payload_hash : Message -> B256) (parse_address : string -> option Address) (hex : bytes -> string).
#[local] Abbreviation step := (ledger_step payload_hash parse_address hex).

Lemma payers_secrets db db' : payers db' = payers db -> secrets_live db db'.
Proof. intros [= _ _ E]. by apply secrets_same. Qed.

Lemma ledger_step_secrets db db' : step db db' -> secrets_live db db'.
Proof.
  intros []; try (by apply secrets_same).
  - apply secrets_same. unfold insert_issued in *. repeat case_match; inv_ok; try done.
    all: repeat case_match; inv_ok; try discriminate; try done.
    all: match goal with H : Attachment.attach_in_transaction _ _ _ _ _ = _ |- _ =>
      apply Attachment.attach_update in H; unfold Attachment.update_upload in H; repeat case_match; by inv_ok end.
  - apply secrets_same. unfold bind_payer_wallet, store_invoice in *. inv_ok. repeat case_match; inv_ok; try done.
    all: repeat case_match; by inv_ok.
  - apply secrets_same. unfold bind_network, store_invoice in *. inv_ok. repeat case_match; inv_ok; try done.
    all: repeat case_match; by inv_ok.
  - apply secrets_same. unfold request_cancellation. by repeat case_match.
  - apply secrets_same. unfold release_attention in *. repeat case_match; by inv_ok.
  - apply payers_secrets. by eapply range_payers.
  - apply payers_secrets. by eapply schedule_payers.
  - apply payers_secrets, flag_payers.
  - apply payers_secrets. by eapply finalized_payers.
  - apply payers_secrets. by eapply close_payers.
  - apply payers_secrets. by eapply close_payers.
  - by apply payers_secrets, relay_payers.
  - by apply verification_secrets.
Qed.

Lemma ledger_steps_secrets db db' : rtc step db db' -> secrets_live db db'.
Proof. induction 1 as [|a b c Hs _ IH]; [reflexivity|]. etrans; [by apply ledger_step_secrets|done]. Qed.

(** A client secret opens one session: it is exchanged only for the
    request it was minted for, before it expires, and while unused; in every
    later state of the ledger another exchange of it is refused as used, and
    for any other request it is unknown. *)
Theorem client_secret_spent_once db0 db hash secret invoice ttl token session attempt utc now r db' db'' :
  Db.payer_client_secrets db0 = ∅ -> rtc step db0 db ->
  exchange_client_secret hash secret invoice ttl token session attempt utc now db = Ok (r, db') ->
  rtc step db' db'' ->
  (exists id c, Db.payer_client_secrets db !! id = Some c /\ ClientSecret.secret_hash c = hash secret /\
     ClientSecret.invoice_id c = invoice /\ ClientSecret.used_at c = None /\ utc < ClientSecret.expires_at c) /\
  (forall ttl' token' session' attempt' utc' now',
     exchange_client_secret hash secret invoice ttl' token' session' attempt' utc' now' db'' = Err SecretUsed) /\
  (forall other ttl' token' session' attempt' utc' now', other <> invoice ->
     exchange_client_secret hash secret other ttl' token' session' attempt' utc' now' db'' = Err SecretUnknown).
Proof.
  intros H0 Hr Hx Hr'. pose proof (step_verification payload_hash parse_address hex db db' (vs_exchange _ _ _ _ _ _ _ _ _ _ _ _ Hx)) as Hs.
  destruct (exchange_spends _ _ _ _ _ _ _ _ _ _ _ _ Hx) as (id & c & Hc & Hh & Hi & Hn & He & Hdb').
  split; [by exists id, c|].
  assert (forall a b x y, Db.payer_client_secrets db'' !! a = Some x -> Db.payer_client_secrets db'' !! b = Some y ->
    ClientSecret.secret_hash x = ClientSecret.secret_hash y -> a = b) as Hu.
  { apply (sl_unique db0 db''); [|by rewrite H0; intros a b x y]. apply ledger_steps_secrets.
    etrans; [exact Hr|]. by eapply rtc_l. }
  destruct (sl_lives _ _ (ledger_steps_secrets _ _ Hr') id (spent utc session c)) as (c' & Hc' & E1 & E2 & E3);
    [by rewrite Hdb', lookup_insert_eq|]. simpl in *.
  assert (forall inv a x, find_secret hash secret inv db'' = Some (a, x) -> a = id /\ x = c' /\ inv = invoice) as Hfind.
  { intros inv a x (Ha & Hha & Hia)%find_secret_spec. assert (a = id) as -> by (apply (Hu a id x c'); congruence).
    assert (x = c') as -> by congruence. split_and!; congruence. }
  split; intros; unfold exchange_client_secret.
  - destruct (find_secret hash secret invoice db'') as [[a x]|] eqn:Hf.
    + destruct (Hfind _ _ _ Hf) as (_ & -> & _). by rewrite (E3 utc eq_refl).
    + exfalso. unfold find_secret in Hf.
      pose proof (find_none _ _ Hf (id, c')) as Hnone. rewrite <- list_elem_of_In, elem_of_map_to_list in Hnone.
      specialize (Hnone Hc'). simpl in Hnone. rewrite bool_decide_true in Hnone by congruence.
      rewrite E2, Hi, Z.eqb_refl in Hnone. done.
  - destruct (find_secret hash secret other db'') as [[a x]|] eqn:Hf; [|done].
    by destruct (Hfind _ _ _ Hf) as (_ & _ & ->).
Qed.

End Runs.

(** ** The cooldown of email codes *)

Lemma latest_code_spec invoice db a v :
  Db.payer_verifications db !! a = Some v -> counts_for_cooldown invoice v = true ->
  exists t, latest_code invoice db = Some t /\ PayerVerificationRow.created_at v <= t.
Proof.
  unfold latest_code. revert a v.
  apply (map_fold_weak_ind (fun acc (m : gmap Uuid PayerVerificationRow.t) =>
    forall a v, m !! a = Some v -> counts_for_cooldown invoice v = true ->
    exists t, acc = Some t /\ PayerVerificationRow.created_at v <= t)); [by intros a v|].
  intros a x m acc Ha IH b v [[<- <-]|[Hne Hb]]%lookup_insert_Some Hv.
  - rewrite Hv. eexists. split; [done|]. destruct acc; lia.
  - destruct (IH b v Hb Hv) as (t & -> & Ht). destruct (counts_for_cooldown invoice x); eexists; split; try done. lia.
Qed.

(** The newest code that counts was created by a row of the table. *)
Lemma latest_code_row invoice db t :
  latest_code invoice db = Some t ->
  exists a v, Db.payer_verifications db !! a = Some v /\ counts_for_cooldown invoice v = true /\
    PayerVerificationRow.created_at v = t.
Proof.
  unfold latest_code. revert t.
  apply (map_fold_weak_ind (fun acc (m : gmap Uuid PayerVerificationRow.t) =>
    forall t, acc = Some t -> exists a v, m !! a = Some v /\ counts_for_cooldown invoice v = true /\
      PayerVerificationRow.created_at v = t)); [done|].
  intros a x m acc Ha IH t. destruct (counts_for_cooldown invoice x) eqn:Hx.
  - destruct acc as [t0|]; intros [= <-].
    + destruct (Z.max_spec (PayerVerificationRow.created_at x) t0) as [[_ ->]|[_ ->]].
      * destruct (IH t0 eq_refl) as (b & v & Hb & Hv & Ht). exists b, v. rewrite lookup_insert_ne by congruence. done.
      * exists a, x. by rewrite lookup_insert_eq.
    + exists a, x. by rewrite lookup_insert_eq.
  - intros Ht. destruct (IH t Ht) as (b & v & Hb & Hv & Hc). exists b, v. rewrite lookup_insert_ne by congruence. done.
Qed.

(** A code is sent for a request only when the last one that was not
    abandoned is a full cooldown old; and while a sent code counts, whatever
    session of the request asks within its cooldown is refused, and told to
    wait no longer than the cooldown. *)
Theorem codes_respect_cooldown session attempt cooldown utc now db t db' s row :
  begin_email_verification session attempt cooldown utc now db = Ok (t, db') ->
  Db.payer_sessions db !! session = Some s -> Db.invoices db !! PayerSession.invoice_id s = Some row ->
  0 < cooldown ->
  (forall a v, Db.payer_verifications db !! a = Some v -> counts_for_cooldown (DbInvoice.id row) v = true ->
     PayerVerificationRow.created_at v + cooldown <= utc) /\
  (exists v, Db.payer_verifications db' !! attempt = Some v /\ counts_for_cooldown (DbInvoice.id row) v = true /\
     PayerVerificationRow.created_at v = now) /\
  (forall db'' v session'' s'' row'' attempt'' utc'' now'',
     Db.payer_verifications db'' !! attempt = Some v -> counts_for_cooldown (DbInvoice.id row) v = true ->
     PayerVerificationRow.created_at v = now ->
     Db.payer_sessions db'' !! session'' = Some s'' -> Db.invoices db'' !! PayerSession.invoice_id s'' = Some row'' ->
     DbInvoice.id row'' = DbInvoice.id row -> utc'' < now + cooldown ->
     exists wait, begin_email_verification session'' attempt'' cooldown utc'' now'' db'' = Err (Cooldown wait) /\
       0 < wait <= cooldown).
Proof.
  intros H Hs Hrow Hc. unfold begin_email_verification in H. rewrite Hs, Hrow in H.
  match type of H with match ?w with Some _ => _ | None => _ end = _ => destruct w eqn:Hw; [discriminate|] end.
  destruct (is_some _); [discriminate|]. injection H as <- <-. split_and!.
  - intros a v Ha Hv. destruct (latest_code_spec _ _ _ _ Ha Hv) as (t & Ht & Hle). rewrite Ht in Hw.
    destruct (Z.ltb_spec (Z.max 0 (utc - t)) cooldown); [discriminate|]. lia.
  - eexists. split; [simpl; apply lookup_insert_eq|]. unfold counts_for_cooldown. simpl. by rewrite Z.eqb_refl.
  - intros db'' v session'' s'' row'' attempt'' utc'' now'' Ha Hv Hnow Hs'' Hrow'' Hid Hlt.
    destruct (latest_code_spec _ _ _ _ Ha Hv) as (t & Ht & Hle).
    unfold begin_email_verification. rewrite Hs'', Hrow'', Hid, Ht.
    destruct (Z.ltb_spec (Z.max 0 (utc'' - t)) cooldown); [|lia].
    eexists. split; [done|]. lia.
Qed.

(** ** Witnesses *)

Module VerificationExample.
Import LedgerExample.

(** A request that wants both the payer's mailbox and the merchant's word. *)
Definition both : CreateInvoiceInput.t := {| (input 3 "order-3" address) with
  CreateInvoiceInput.payer_verification := PayerVerification.mk (Some "payer@example.com") (Some "cust-1") false |}.
Definition token_hash (s : string) : B256 := replicate 32 (Z.of_nat (String.length s)).

Definition r1 := insert_issued hex both None 1000 1000 start.
Definition s1 : Db.t := Eval vm_compute in state_of r1.
Definition s2 : Db.t := Eval vm_compute in
  match create_client_secret token_hash 60 "tok" 3 7 CLIENT_SECRET_TTL 1100 s1 with Ok (_, _, db) => db | Err _ => start end.
Definition exchange := exchange_client_secret token_hash "cs_tok" 3 PAYER_SESSION_TTL "session-token" 61 62 1200 1200 s2.
Definition s3 : Db.t := Eval vm_compute in state_of exchange.
Definition begin := begin_email_verification 61 63 60000000 1300 1300 s3.
Definition s4 : Db.t := Eval vm_compute in state_of begin.
Definition approve := approve_email 61 (replicate 32 5) 1400 "event" 1400 s4.
Definition s5 : Db.t := Eval vm_compute in state_of approve.
Definition row_in (db : Db.t) : DbInvoice.t := default (issued_row both 0 0) (Db.invoices db !! 3).
Definition session_in (db : Db.t) : PayerSession.t :=
  default (fresh_session token_hash "" 0 ForPayer None None 0 0) (Db.payer_sessions db !! 61).

#[local] Abbreviation run := (rtc (ledger_step hash parse hex)).

Lemma run_secret : run start s2.
Proof.
  eapply rtc_l; [eapply (step_issue _ _ _ start both None 1000 1000); vm_compute; reflexivity|].
  eapply rtc_once, step_verification, (vs_secret _ token_hash 60 "tok" 3 7 CLIENT_SECRET_TTL 1100). vm_compute. reflexivity.
Qed.

Lemma run_completed : run s3 s5.
Proof.
  eapply rtc_l; [apply step_verification; eapply (vs_begin _ 61 63 60000000 1300 1300); vm_compute; reflexivity|].
  eapply rtc_once, step_verification, (vs_approve _ 61 (replicate 32 5) 1400 "event" 1400). vm_compute. reflexivity.
Qed.

Lemma client_secret_spent_once_witness :
  exchange_client_secret token_hash "cs_tok" 3 PAYER_SESSION_TTL "again" 70 71 1500 1500 s5 = Err SecretUsed /\
  exchange_client_secret token_hash "cs_tok" 4 PAYER_SESSION_TTL "again" 70 71 1500 1500 s5 = Err SecretUnknown.
Proof.
  destruct (client_secret_spent_once hash parse hex start s2 token_hash "cs_tok" 3 PAYER_SESSION_TTL "session-token" 61 62 1200 1200
    (Completion.mk (session_in s3) None) s3 s5 ltac:(vm_compute; reflexivity) run_secret ltac:(vm_compute; reflexivity) run_completed)
    as (_ & H1 & H2).
  split; [apply H1|apply H2; lia].
Defined.

Lemma verification_completes_on_facts_witness :
  completion_grounded 3 1400 (row_in s4) s5.
Proof.
  apply (proj2 (verification_completes_on_facts s4 s5 3 (row_in s4) (row_in s5)
    (vs_approve s4 61 (replicate 32 5) 1400 "event" 1400 (Completion.mk (session_in s5) (Some 1400)) s5
       ltac:(vm_compute; reflexivity))
    ltac:(vm_compute; reflexivity) ltac:(vm_compute; reflexivity)) 1400); vm_compute; reflexivity.
Defined.

Lemma codes_respect_cooldown_witness :
  exists wait, begin_email_verification 61 64 60000000 2000 2000 s4 = Err (Cooldown wait) /\ 0 < wait <= 60000000.
Proof.
  destruct (codes_respect_cooldown 61 63 60000000 1300 1300 s3 1300 s4 (session_in s3) (row_in s3)
    ltac:(vm_compute; reflexivity) ltac:(vm_compute; reflexivity) ltac:(vm_compute; reflexivity) ltac:(lia)) as (_ & (v & Hv & Hc & Ht) & H).
  apply (H s4 v 61 (session_in s4) (row_in s4) 64 2000 2000 Hv Hc Ht); [vm_compute; reflexivity..|vm_compute; reflexivity].
Defined.

End VerificationExample.
