(* ===== verification/Withdrawals.v ===== *)
(** * gum-ledger: withdrawals and their legs

    Models [crates/gum-ledger/src/withdrawals.rs]: a merchant's withdrawal is
    split into legs, one per chain, each driven through its own state machine
    by signed steps. The operations here are the whole of
    [WithdrawalRepository]'s writes; the CHECK constraints and unique indexes
    of the two tables are guards of the writes, and a transaction that breaks
    one is rolled back. *)

From stdpp Require Import sorting.
From Stdlib Require Import Ascii.
From S2P Require Import Prelude Core Contracts Bus Tables.

Module Withdrawal.

(** ** Data *)

Definition is_terminal (s : LegState) : bool :=
  match s with Completed | LegFailed | LegExpired | Cancelled => true | _ => false end.

Definition state_as_str (s : LegState) : string :=
  match s with
  | AwaitingSignature => "awaiting_signature"
  | Authorized => "authorized"
  | Relaying => "relaying"
  | Burned => "burned"
  | Attested => "attested"
  | Minting => "minting"
  | Completed => "completed"
  | LegFailed => "failed"
  | LegExpired => "expired"
  | Cancelled => "cancelled"
  end.

Definition state_parse (value : string) : option LegState :=
  List.find (fun s => String.eqb (state_as_str s) value)
    [AwaitingSignature; Authorized; Relaying; Burned; Attested; Minting; Completed; LegFailed; LegExpired;
     Cancelled].

(** [DbWithdrawalLeg::step_kind]. *)
Definition step_kind (l : Leg.t) : option WithdrawalStepKind :=
  match Leg.state l, Leg.kind l with
  | Attested, _ | Minting, _ => Some Mint
  | Authorized, LegTransfer | Relaying, LegTransfer => Some Transfer
  | Authorized, LegBridge | Relaying, LegBridge => Some Burn
  | _, _ => None
  end.

Module NewLeg.
Record t := mk {
  id : Uuid;
  position : Z;
  kind : LegKind;
  source_chain_id : Z;
  amount : Z;
  token_address : string;
  domain_name : string;
  domain_version : string;
  authorization_to : string;
  nonce : B256;
  salt : option B256;
  valid_before : Z;
}.
End NewLeg.

Module NewWithdrawal.
Record t := mk {
  id : Uuid;
  account_id : Uuid;
  idempotency_key : string;
  wallet_address : string;
  currency : string;
  destination_chain_id : Z;
  destination_address : string;
  legs : list NewLeg.t;
}.
End NewWithdrawal.

Inductive CreateWithdrawalError :=
| InProgress
| IdempotencyKeyReused
| CreateDatabase (e : DbError).

Inductive AuthorizeOutcome := OutAuthorized | Unchanged | NotAwaitingSignature | AuthorizeNotFound.

Inductive CancelOutcome := OutCancelled | AlreadyCancelled | Finished | CancelInProgress | CancelNotFound.

(** Durations in microseconds, the backoff in whole seconds. *)
Module StepPolicy.
Record t := mk { revert_backoff_secs : Z; max_reverts : Z; attestation_poll : Z }.
Definition default : t := mk 30 5 (20 * 10 ^ 6).
End StepPolicy.

Inductive StepApplied :=
| Advanced (leg_id : Uuid) (state : LegState)
| Retried (leg_id : Uuid) (reverts : Z)
| StepFailed (leg_id : Uuid)
| Released (leg_id : Uuid).

Inductive StepError :=
| StepDatabase (e : DbError)
| StepNotOpen (job_id : Uuid)
| Mismatch (job_id : Uuid) (expected reported : WithdrawalStepKind).

(** ** Constraints *)

Definition is_hex (c : Ascii.ascii) : bool :=
  let n := Ascii.nat_of_ascii c in
  ((48 <=? n) && (n <=? 57) || (65 <=? n) && (n <=? 70) || (97 <=? n) && (n <=? 102))%nat.

(** [~ '^0x[0-9a-fA-F]{40}$']. *)
Definition address_shape (s : string) : bool :=
  match s with
  | String z (String x rest) =>
      Ascii.eqb z "0"%char && Ascii.eqb x "x"%char && Nat.eqb (String.length rest) 40
      && forallb is_hex (String.list_ascii_of_string rest)
  | _ => false
  end.

Definition length_is (n : nat) (b : option bytes) : bool :=
  match b with Some x => Nat.eqb (length x) n | None => true end.

(** The CHECK constraints on [withdrawal_legs] that an UPDATE can meet. *)
Definition leg_allowed (l : Leg.t) : bool :=
  Bool.eqb (is_some (Leg.signature l)) (is_some (Leg.authorized_at l))
  && length_is 65 (Leg.signature l)
  && (match Leg.state l with AwaitingSignature | LegExpired | Cancelled => true | _ => false end
      || is_some (Leg.signature l))
  && Bool.eqb (is_some (Leg.step_job_id l)) (is_some (Leg.step_chain_id l))
  && (negb (is_some (Leg.step_job_id l))
      || match Leg.state l with Relaying | Minting => true | _ => false end)
  && length_is 32 (Leg.transfer_tx_hash l) && length_is 32 (Leg.burn_tx_hash l)
  && length_is 32 (Leg.mint_tx_hash l)
  && Bool.eqb (is_some (Leg.attestation_message l)) (is_some (Leg.attestation l))
  && Bool.eqb (is_some (Leg.failure_reason l)) (bool_decide (Leg.state l = LegFailed)).

(** The CHECK constraints on a new leg's terms. *)
Definition terms_allowed (t : LegTerms.t) : bool :=
  Bool.eqb (bool_decide (LegTerms.kind t = LegTransfer))
           (LegTerms.source_chain_id t =? LegTerms.destination_chain_id t)
  && (0 <? LegTerms.amount t)
  && address_shape (LegTerms.token_address t) && address_shape (LegTerms.authorization_to t)
  && Nat.eqb (length (LegTerms.nonce t)) 32
  && Bool.eqb (negb (is_some (LegTerms.salt t))) (bool_decide (LegTerms.kind t = LegTransfer))
  && length_is 32 (LegTerms.salt t).

(** The partial unique index on [step_job_id]. *)
Definition step_taken (id : Uuid) (job : option Uuid) (legs : gmap Uuid Leg.t) : bool :=
  is_some job
  && existsb (fun kv => negb (fst kv =? id) && bool_decide (Leg.step_job_id (snd kv) = job))
       (map_to_list legs).

(** [UPDATE withdrawal_legs .. WHERE id = ..]. *)
Definition store_leg (id : Uuid) (l : Leg.t) (db : Db.t) : result DbError Db.t :=
  if negb (leg_allowed l) then Err (Constraint "withdrawal_legs_check")
  else if step_taken id (Leg.step_job_id l) (Db.withdrawal_legs db)
  then Err (Constraint "withdrawal_legs_step_job")
  else Ok {| db with Db.withdrawal_legs := <[id := l]> (Db.withdrawal_legs db) |}.

(** [UPDATE withdrawal_legs .. WHERE p], of rows that hold no step. *)
Definition update_legs (p : Leg.t -> bool) (f : Leg.t -> Leg.t) (db : Db.t) : result DbError Db.t :=
  if forallb (fun kv => negb (p (snd kv)) || leg_allowed (f (snd kv))) (map_to_list (Db.withdrawal_legs db))
  then Ok {| db with Db.withdrawal_legs := update_where p f (Db.withdrawal_legs db) |}
  else Err (Constraint "withdrawal_legs_check").

Definition is_open (w : DbWithdrawal.t) : bool :=
  negb (is_some (DbWithdrawal.completed_at w)) && negb (is_some (DbWithdrawal.cancelled_at w))
  && negb (is_some (DbWithdrawal.failed_at w)).

Definition of_withdrawal (id : Uuid) (l : Leg.t) : bool := Leg.withdrawal_id l =? id.

(** [NOT EXISTS (SELECT 1 FROM withdrawal_legs WHERE withdrawal_id = id AND NOT p)]. *)
Definition all_legs (p : LegState -> bool) (id : Uuid) (legs : gmap Uuid Leg.t) : bool :=
  forallb (fun kv => negb (of_withdrawal id (snd kv)) || p (Leg.state (snd kv))) (map_to_list legs).

Definition is_completed (s : LegState) : bool := match s with Completed => true | _ => false end.

(** [settle_in]: the withdrawal ends once every leg is terminal. *)
Definition settle_in (id : Uuid) (now : Timestamp) (db : Db.t) : Db.t :=
  match Db.withdrawals db !! id with
  | Some w =>
      if is_open w && all_legs is_terminal id (Db.withdrawal_legs db) then
        let completed := all_legs is_completed id (Db.withdrawal_legs db) in
        {| db with Db.withdrawals := <[id := {| w with
             DbWithdrawal.completed_at := (if completed then Some now else None);
             DbWithdrawal.failed_at := (if completed then None else Some now) |}]>
             (Db.withdrawals db) |}
      else db
  | None => db
  end.

(** ** Creation *)

Definition find_open (account : Uuid) (db : Db.t) : bool :=
  existsb (fun kv => (DbWithdrawal.account_id (snd kv) =? account) && is_open (snd kv))
    (map_to_list (Db.withdrawals db)).

Definition find_by_idempotency_key (account : Uuid) (key : string) (db : Db.t) : bool :=
  existsb (fun kv => (DbWithdrawal.account_id (snd kv) =? account)
                     && String.eqb (DbWithdrawal.idempotency_key (snd kv)) key)
    (map_to_list (Db.withdrawals db)).

Definition new_leg (w : NewWithdrawal.t) (now : Timestamp) (n : NewLeg.t) : Leg.t :=
  Leg.mk
    (LegTerms.mk (NewWithdrawal.id w) (NewLeg.position n) (NewLeg.kind n)
       (as_i64 (NewLeg.source_chain_id n)) (as_i64 (NewWithdrawal.destination_chain_id w))
       (NewLeg.amount n) (NewLeg.token_address n) (NewLeg.domain_name n) (NewLeg.domain_version n)
       (NewLeg.authorization_to n) (NewLeg.nonce n) (NewLeg.salt n) (as_i64 (NewLeg.valid_before n)) now)
    AwaitingSignature None None None None 0 None None None None None None None None now.

Definition insert_leg (w : NewWithdrawal.t) (now : Timestamp) (db : Db.t) (n : NewLeg.t)
  : result CreateWithdrawalError Db.t :=
  let l := new_leg w now n in
  let legs := Db.withdrawal_legs db in
  if negb (terms_allowed (Leg.terms l)) then Err (CreateDatabase (Constraint "withdrawal_legs_check"))
  else if is_some (legs !! NewLeg.id n) then Err (CreateDatabase (Constraint "withdrawal_legs_pkey"))
  else if existsb (fun kv => of_withdrawal (NewWithdrawal.id w) (snd kv)
                             && (LegTerms.position (Leg.terms (snd kv)) =? NewLeg.position n))
            (map_to_list legs)
  then Err (CreateDatabase (Constraint "withdrawal_legs_position"))
  else Ok {| db with Db.withdrawal_legs := <[NewLeg.id n := l]> legs |}.

Definition create (w : NewWithdrawal.t) (now : Timestamp) (db : Db.t)
  : result CreateWithdrawalError Db.t :=
  let id := NewWithdrawal.id w in
  let account := NewWithdrawal.account_id w in
  if negb (address_shape (NewWithdrawal.wallet_address w)
           && address_shape (NewWithdrawal.destination_address w)
           && is_ok (Currency.from_str (NewWithdrawal.currency w)))
  then Err (CreateDatabase (Constraint "withdrawals_check"))
  else if is_some (Db.withdrawals db !! id) then Err (CreateDatabase (Constraint "withdrawals_pkey"))
  else if find_by_idempotency_key account (NewWithdrawal.idempotency_key w) db
  then Err IdempotencyKeyReused
  else if find_open account db then Err InProgress
  else if negb (is_some (Db.accounts db !! account))
  then Err (CreateDatabase (Constraint "withdrawals_account_id_fkey"))
  else
    let row := DbWithdrawal.mk account (NewWithdrawal.idempotency_key w) (NewWithdrawal.wallet_address w)
                 (NewWithdrawal.currency w) (as_i64 (NewWithdrawal.destination_chain_id w))
                 (NewWithdrawal.destination_address w) now None None None in
    try_fold (insert_leg w now) {| db with Db.withdrawals := <[id := row]> (Db.withdrawals db) |}
      (NewWithdrawal.legs w).

(** ** The merchant's side *)

Definition authorize (account withdrawal_id leg_id : Uuid) (signature : bytes) (now : Timestamp) (db : Db.t)
  : result DbError (AuthorizeOutcome * Db.t) :=
  match Db.withdrawal_legs db !! leg_id, Db.withdrawals db !! withdrawal_id with
  | Some l, Some w =>
      if negb ((Leg.withdrawal_id l =? withdrawal_id) && (DbWithdrawal.account_id w =? account)
               && negb (is_some (DbWithdrawal.cancelled_at w)))
      then Ok (AuthorizeNotFound, db)
      else
        match Leg.state l with
        | AwaitingSignature =>
            let! db' := store_leg leg_id {| l with
              Leg.state := Authorized;
              Leg.signature := Some signature;
              Leg.authorized_at := Some now;
              Leg.updated_at := now |} db in
            Ok (OutAuthorized, db')
        | _ =>
            if bool_decide (Leg.signature l = Some signature) then Ok (Unchanged, db)
            else Ok (NotAwaitingSignature, db)
        end
  | _, _ => Ok (AuthorizeNotFound, db)
  end.

(** Not yet relayed: [state IN ('awaiting_signature', 'authorized')]. *)
Definition unsent (s : LegState) : bool :=
  match s with AwaitingSignature | Authorized => true | _ => false end.

Definition cancellable (s : LegState) : bool :=
  match s with AwaitingSignature | Authorized | LegExpired => true | _ => false end.

Definition cancel (account withdrawal_id : Uuid) (now : Timestamp) (db : Db.t)
  : result DbError (CancelOutcome * Db.t) :=
  match Db.withdrawals db !! withdrawal_id with
  | None => Ok (CancelNotFound, db)
  | Some w =>
      if negb (DbWithdrawal.account_id w =? account) then Ok (CancelNotFound, db)
      else if is_some (DbWithdrawal.cancelled_at w) then Ok (AlreadyCancelled, db)
      else if is_some (DbWithdrawal.completed_at w) || is_some (DbWithdrawal.failed_at w)
      then Ok (Finished, db)
      else if negb (all_legs cancellable withdrawal_id (Db.withdrawal_legs db))
      then Ok (CancelInProgress, db)
      else
        let! db1 := update_legs (fun l => of_withdrawal withdrawal_id l && unsent (Leg.state l))
                      (fun l => {| l with Leg.state := Cancelled; Leg.updated_at := now |}) db in
        Ok (OutCancelled, {| db1 with Db.withdrawals :=
              <[withdrawal_id := {| w with DbWithdrawal.cancelled_at := Some now |}]>
                (Db.withdrawals db1) |})
  end.

(** ** Execution *)

(** [relayable]: the candidates of a chain, attested legs first. *)
Definition is_relayable (chain : Z) (min_validity : Z) (now : Timestamp) (db : Db.t) (l : Leg.t) : bool :=
  match Db.withdrawals db !! Leg.withdrawal_id l with
  | Some w => negb (is_some (DbWithdrawal.cancelled_at w))
  | None => false
  end
  && negb (is_some (Leg.step_job_id l))
  && match Leg.step_retry_at l with Some t => t <=? now | None => true end
  && match Leg.state l with
     | Attested => LegTerms.destination_chain_id (Leg.terms l) =? chain
     | Authorized => (LegTerms.source_chain_id (Leg.terms l) =? chain)
                     && (now + min_validity <? LegTerms.valid_before (Leg.terms l) * 10 ^ 6)
     | _ => false
     end.

Definition relay_rank (l : Leg.t) : Z := match Leg.state l with Attested => 0 | _ => 1 end.

Definition relay_before (a b : Uuid * Leg.t) : Prop :=
  relay_rank (snd a) < relay_rank (snd b) \/
  relay_rank (snd a) = relay_rank (snd b) /\
  (LegTerms.created_at (Leg.terms (snd a)) < LegTerms.created_at (Leg.terms (snd b)) \/
   LegTerms.created_at (Leg.terms (snd a)) = LegTerms.created_at (Leg.terms (snd b)) /\
   LegTerms.position (Leg.terms (snd a)) <= LegTerms.position (Leg.terms (snd b))).

#[export] Instance relay_before_dec a b : Decision (relay_before a b).
Proof. unfold relay_before. apply _. Defined.

Definition relayable (chain_id : Z) (min_validity : Z) (limit : nat) (now : Timestamp) (db : Db.t)
  : list (Uuid * Leg.t) :=
  take limit (merge_sort relay_before
    (List.filter (fun kv => is_relayable (as_i64 chain_id) min_validity now db (snd kv))
       (map_to_list (Db.withdrawal_legs db)))).

Definition begin_step (leg_id job_id chain_id : Z) (now : Timestamp) (db : Db.t)
  : result DbError (bool * Db.t) :=
  match Db.withdrawal_legs db !! leg_id with
  | None => Ok (false, db)
  | Some l =>
      match Db.withdrawals db !! Leg.withdrawal_id l with
      | None => Ok (false, db)
      | Some w =>
          if is_some (DbWithdrawal.cancelled_at w) then Ok (false, db)
          else if is_some (Leg.step_job_id l) then Ok (false, db)
          else
            match Leg.state l with
            | Authorized | Attested =>
                let! db' := store_leg leg_id {| l with
                  Leg.state := match Leg.state l with Authorized => Relaying | _ => Minting end;
                  Leg.step_job_id := Some job_id;
                  Leg.step_chain_id := Some (as_i64 chain_id);
                  Leg.updated_at := now |} db in
                Ok (true, db')
            | _ => Ok (false, db)
            end
      end
  end.

(** The leg that runs a job, with its withdrawal. *)
Definition leg_of_job (job_id : Uuid) (db : Db.t) : option (Uuid * Leg.t) :=
  List.find (fun kv => bool_decide (Leg.step_job_id (snd kv) = Some job_id)
                       && is_some (Db.withdrawals db !! Leg.withdrawal_id (snd kv)))
    (map_to_list (Db.withdrawal_legs db)).

(** [DbWithdrawalLeg::try_from]: the numeral and the hash lengths. The result
    keeps the row, which the UPDATEs that follow leave where they do not write. *)
Definition leg_try_from (l : Leg.t) : result DbError Leg.t :=
  let! _ := ok_or (u256_of_numeral (LegTerms.amount (Leg.terms l))) (Decode "invalid withdrawal leg amount") in
  if Nat.eqb (length (LegTerms.nonce (Leg.terms l))) 32 && length_is 32 (LegTerms.salt (Leg.terms l))
     && length_is 32 (Leg.transfer_tx_hash l) && length_is 32 (Leg.burn_tx_hash l)
     && length_is 32 (Leg.mint_tx_hash l)
  then Ok l
  else Err (Decode "invalid length in withdrawal leg").

Definition step_db {A} (r : result DbError A) : result StepError A :=
  match r with Ok a => Ok a | Err e => Err (StepDatabase e) end.

Definition clear_step (now : Timestamp) (s : LegState) (l : Leg.t) : Leg.t :=
  {| l with
     Leg.state := s; Leg.step_job_id := None; Leg.step_chain_id := None; Leg.updated_at := now |}.

(** [CASE state WHEN 'relaying' THEN 'authorized' ELSE 'attested' END]. *)
Definition queue_state (s : LegState) : LegState :=
  match s with Relaying => Authorized | _ => Attested end.

Definition advanced_leg (step : WithdrawalStepKind) (tx_hash : option B256) (next_check_at now : Timestamp)
    (l : Leg.t) : Leg.t :=
  let state := match step with Burn => Burned | Transfer | Mint => Completed end in
  let cleared := clear_step now state l in
  {| cleared with
     Leg.transfer_tx_hash := match step with Transfer => tx_hash | _ => Leg.transfer_tx_hash l end;
     Leg.burn_tx_hash := match step with Burn => tx_hash | _ => Leg.burn_tx_hash l end;
     Leg.mint_tx_hash := match step with Mint => tx_hash | _ => Leg.mint_tx_hash l end;
     Leg.attestation_next_check_at := match step with Burn => Some next_check_at | _ => None end;
     Leg.step_reverts := 0;
     Leg.step_retry_at := None |}.

Definition advance (leg_id : Uuid) (row : Leg.t) (step : WithdrawalStepKind) (tx_hash : option B256)
    (next_check_at now : Timestamp) (db : Db.t) : result StepError (StepApplied * Db.t) :=
  let l := advanced_leg step tx_hash next_check_at now row in
  let! db1 := step_db (store_leg leg_id l db) in
  Ok (Advanced leg_id (Leg.state l), settle_in (Leg.withdrawal_id row) now db1).

Definition failed_leg (reason : string) (now : Timestamp) (l : Leg.t) : Leg.t :=
  let cleared := clear_step now LegFailed l in
  {| cleared with Leg.failure_reason := Some reason; Leg.step_retry_at := None |}.

Definition fail (leg_id : Uuid) (row : Leg.t) (reason : string) (now : Timestamp) (db : Db.t)
  : result StepError (StepApplied * Db.t) :=
  let! db1 := step_db (store_leg leg_id (failed_leg reason now row) db) in
  Ok (StepFailed leg_id, settle_in (Leg.withdrawal_id row) now db1).

(** The row's count of reverts, as [step_reverts.max(0) as u16]. *)
Definition reverts_of (row : Leg.t) : Z := Z.max (Leg.step_reverts row) 0.

(** A count that passes the column's width wraps ([as i16]), and the power of
    the backoff underflows on the wrapped value. *)
Definition retry_or_fail (leg_id : Uuid) (row : Leg.t) (policy : StepPolicy.t) (reason : string)
    (now : Timestamp) (db : Db.t) : result StepError (StepApplied * Db.t) :=
  let reverts := reverts_of row + 1 in
  if StepPolicy.max_reverts policy <=? reverts then fail leg_id row reason now db
  else if 2 ^ 15 <=? reverts then Err (StepDatabase NumericOutOfRange)
  else
    let cleared := clear_step now (queue_state (Leg.state row)) row in
    let l := {| cleared with
      Leg.step_reverts := reverts;
      Leg.step_retry_at :=
        Some (now + StepPolicy.revert_backoff_secs policy * 2 ^ Z.min (reverts - 1) 6 * 10 ^ 6) |} in
    let! db1 := step_db (store_leg leg_id l db) in
    Ok (Retried leg_id reverts, db1).

Definition revert_reason (step : WithdrawalStepKind) : string :=
  match step with
  | Transfer => "the transfer transaction reverted"
  | Burn => "the burn transaction reverted"
  | Mint => "the mint transaction reverted"
  end.

Section Steps.
(** The text of an abandonment: [describe_abandon] prints hashes. *)
Context (describe_abandon : AbandonReason -> string).

Definition apply_step_result (job_id : Uuid) (reported : WithdrawalStepKind) (res : StepResult)
    (policy : StepPolicy.t) (utc_now now : Timestamp) (db : Db.t)
  : result StepError (StepApplied * Db.t) :=
  let! found := ok_or (leg_of_job job_id db) (StepNotOpen job_id) in
  let leg_id := fst found in
  let! row := step_db (leg_try_from (snd found)) in
  let! expected := ok_or (step_kind row) (StepNotOpen job_id) in
  if negb (bool_decide (expected = reported)) then Err (Mismatch job_id expected reported)
  else
    let next_check_at := utc_now + StepPolicy.attestation_poll policy in
    match res with
    | Succeeded tx_hash _ _ => advance leg_id row expected (Some tx_hash) next_check_at now db
    | ExecutedElsewhere tx_hash =>
        match expected, tx_hash with
        | Mint, _ => advance leg_id row expected None next_check_at now db
        | Transfer, hash => advance leg_id row expected hash next_check_at now db
        | Burn, Some hash => advance leg_id row expected (Some hash) next_check_at now db
        | Burn, None =>
            fail leg_id row
              "the authorization was consumed by a transaction outside the searched history; the burn cannot be attested"
              now db
        end
    | StepReverted _ => retry_or_fail leg_id row policy (revert_reason expected) now db
    | StepAbandoned reason =>
        retry_or_fail leg_id row policy
          ("the step could not be executed: " +:+ describe_abandon reason) now db
    | StepExpired =>
        let! db1 := step_db (store_leg leg_id (clear_step now (queue_state (Leg.state row)) row) db) in
        Ok (Released leg_id, db1)
    end.

End Steps.

Definition reject_step (job_id : Uuid) (reason : string) (now : Timestamp) (db : Db.t)
  : result StepError (bool * Db.t) :=
  match leg_of_job job_id db with
  | None => Ok (false, db)
  | Some (leg_id, found) =>
      let! row := step_db (leg_try_from found) in
      let! '(_, db') := fail leg_id row ("the signers rejected the step: " +:+ reason) now db in
      Ok (true, db')
  end.

Definition fail_leg (leg_id : Uuid) (reason : string) (now : Timestamp) (db : Db.t)
  : result DbError (bool * Db.t) :=
  match Db.withdrawal_legs db !! leg_id with
  | None => Ok (false, db)
  | Some l =>
      if is_terminal (Leg.state l) then Ok (false, db)
      else
        let! db1 := store_leg leg_id (failed_leg reason now l) db in
        Ok (true, settle_in (Leg.withdrawal_id l) now db1)
  end.

Definition is_stale (margin : Z) (now : Timestamp) (l : Leg.t) : bool :=
  unsent (Leg.state l) && (LegTerms.valid_before (Leg.terms l) * 10 ^ 6 <=? now + margin).

Definition stale_withdrawals (margin : Z) (now : Timestamp) (db : Db.t) : list Uuid :=
  remove_dups (merge_sort Z.le (Leg.withdrawal_id <$>
    List.filter (is_stale margin now) (map_to_list (Db.withdrawal_legs db)).*2)).

Definition expire_stale (margin : Z) (now : Timestamp) (db : Db.t) : result DbError (Z * Db.t) :=
  let! db1 := update_legs (is_stale margin now)
                (fun l => {| l with Leg.state := LegExpired; Leg.updated_at := now |}) db in
  Ok (row_count (is_stale margin now) (Db.withdrawal_legs db),
      foldl (fun s id => settle_in id now s) db1 (stale_withdrawals margin now db)).

(** ** Attestations *)

Definition awaits_attestation (chain : Z) (now : Timestamp) (l : Leg.t) : bool :=
  bool_decide (Leg.state l = Burned) && (LegTerms.source_chain_id (Leg.terms l) =? chain)
  && match Leg.attestation_next_check_at l with Some t => t <=? now | None => true end.

Definition created_before (a b : Uuid * Leg.t) : Prop :=
  LegTerms.created_at (Leg.terms (snd a)) < LegTerms.created_at (Leg.terms (snd b)) \/
  LegTerms.created_at (Leg.terms (snd a)) = LegTerms.created_at (Leg.terms (snd b)) /\
  LegTerms.position (Leg.terms (snd a)) <= LegTerms.position (Leg.terms (snd b)).

#[export] Instance created_before_dec a b : Decision (created_before a b).
Proof. unfold created_before. apply _. Defined.

(** The rows of the SELECT; [leg_try_from] decodes each. *)
Definition legs_awaiting_attestation (chain_id : Z) (now : Timestamp) (db : Db.t) : list (Uuid * Leg.t) :=
  merge_sort created_before
    (List.filter (fun kv => awaits_attestation (as_i64 chain_id) now (snd kv))
       (map_to_list (Db.withdrawal_legs db))).

Definition record_attestation (leg_id : Uuid) (message attestation : bytes) (now : Timestamp) (db : Db.t)
  : result DbError (bool * Db.t) :=
  match Db.withdrawal_legs db !! leg_id with
  | Some l =>
      if bool_decide (Leg.state l = Burned) then
        let! db' := store_leg leg_id {| l with
          Leg.state := Attested;
          Leg.attestation_message := Some message;
          Leg.attestation := Some attestation;
          Leg.attestation_next_check_at := None;
          Leg.updated_at := now |} db in
        Ok (true, db')
      else Ok (false, db)
  | None => Ok (false, db)
  end.

Definition defer_attestation (leg_id : Uuid) (next_check_at now : Timestamp) (db : Db.t)
  : result DbError (bool * Db.t) :=
  match Db.withdrawal_legs db !! leg_id with
  | Some l =>
      if bool_decide (Leg.state l = Burned) then
        let! db' := store_leg leg_id {| l with
          Leg.attestation_next_check_at := Some next_check_at; Leg.updated_at := now |} db in
        Ok (true, db')
      else Ok (false, db)
  | None => Ok (false, db)
  end.

End Withdrawal.
