(* ===== verification/WithdrawalTheorems.v ===== *)
(** * gum-ledger: what withdrawals promise

    The invariant [wd_ok] ties a withdrawal's ending to the states of its
    legs; every write of the repository preserves it and moves each leg along
    its state machine. *)

From S2P Require Import Prelude Core Contracts Bus Tables Withdrawals.
Import Withdrawal.

Implicit Types (id leg_id job : Uuid) (l : Leg.t) (w : DbWithdrawal.t) (db : Db.t) (now : Timestamp).

(** ** The invariant *)

Definition in_flight (s : LegState) : bool := match s with Relaying | Minting => true | _ => false end.

(** States only a bridged leg visits. *)
Definition bridging (s : LegState) : bool :=
  match s with Burned | Attested | Minting => true | _ => false end.

Record leg_ok (l : Leg.t) : Prop := {
  lk_step : is_some (Leg.step_job_id l) = in_flight (Leg.state l);
  lk_kind : Leg.kind l = LegTransfer -> bridging (Leg.state l) = false;
  lk_unsigned : Leg.state l = AwaitingSignature -> Leg.signature l = None;
  lk_signed : Leg.state l = AwaitingSignature \/ Leg.state l = LegExpired \/ Leg.state l = Cancelled \/
              is_some (Leg.signature l) = true;
}.

(** How a withdrawal stands, against the states of its legs. *)
Definition ending_ok (id : Uuid) (w : DbWithdrawal.t) (legs : gmap Uuid Leg.t) : Prop :=
  match DbWithdrawal.completed_at w, DbWithdrawal.failed_at w, DbWithdrawal.cancelled_at w with
  | None, None, None => True
  | Some _, None, None =>
      forall k l, legs !! k = Some l -> Leg.withdrawal_id l = id -> Leg.state l = Completed
  | None, Some _, None =>
      (forall k l, legs !! k = Some l -> Leg.withdrawal_id l = id -> is_terminal (Leg.state l) = true) /\
      exists k l, legs !! k = Some l /\ Leg.withdrawal_id l = id /\ Leg.state l <> Completed
  | None, None, Some _ =>
      forall k l, legs !! k = Some l -> Leg.withdrawal_id l = id ->
        Leg.state l = Cancelled \/ Leg.state l = LegExpired
  | _, _, _ => False
  end.

(** An open withdrawal still has a leg to drive. *)
Definition undecided (id : Uuid) (legs : gmap Uuid Leg.t) : Prop :=
  (forall k l, legs !! k = Some l -> Leg.withdrawal_id l <> id) \/
  exists k l, legs !! k = Some l /\ Leg.withdrawal_id l = id /\ is_terminal (Leg.state l) = false.

(** The invariant, but for withdrawals in [X] that are still to be settled. *)
Record wd_ok_but (X : Uuid -> Prop) (db : Db.t) : Prop := {
  wd_leg : forall k l, Db.withdrawal_legs db !! k = Some l ->
    leg_ok l /\ is_Some (Db.withdrawals db !! Leg.withdrawal_id l);
  wd_ending : forall id w, Db.withdrawals db !! id = Some w -> ending_ok id w (Db.withdrawal_legs db);
  wd_open : forall id w, Db.withdrawals db !! id = Some w -> is_open w = true -> ~ X id ->
    undecided id (Db.withdrawal_legs db);
  wd_alone : forall id1 id2 w1 w2, Db.withdrawals db !! id1 = Some w1 -> Db.withdrawals db !! id2 = Some w2 ->
    is_open w1 = true -> is_open w2 = true -> DbWithdrawal.account_id w1 = DbWithdrawal.account_id w2 ->
    id1 = id2;
}.

Definition wd_ok : Db.t -> Prop := wd_ok_but (fun _ => False).

Lemma wd_ok_weaken (X Y : Uuid -> Prop) db : (forall id, X id -> Y id) -> wd_ok_but X db -> wd_ok_but Y db.
Proof. intros H [H1 H2 H3 H4]. split; eauto. Qed.

Lemma wd_ok_same X db db' :
  Db.withdrawal_legs db' = Db.withdrawal_legs db -> Db.withdrawals db' = Db.withdrawals db ->
  wd_ok_but X db -> wd_ok_but X db'.
Proof. intros El Ew [H1 H2 H3 H4]. split; rewrite ?El, ?Ew; done. Qed.

Lemma all_legs_spec p id (legs : gmap Uuid Leg.t) :
  all_legs p id legs = true <->
  forall k l, legs !! k = Some l -> Leg.withdrawal_id l = id -> p (Leg.state l) = true.
Proof.
  unfold all_legs, of_withdrawal. rewrite forallb_forall. split.
  - intros H k l Hk Hid. specialize (H (k, l)). simpl in H. rewrite Hid, Z.eqb_refl in H.
    apply H. by apply list_elem_of_In, elem_of_map_to_list.
  - intros H [k l] Hin%list_elem_of_In%elem_of_map_to_list. simpl.
    destruct (Z.eqb_spec (Leg.withdrawal_id l) id); [|done]. simpl. by eapply H.
Qed.

Lemma forallb_false_exists {A} (p : A -> bool) (xs : list A) :
  forallb p xs = false -> exists x, In x xs /\ p x = false.
Proof.
  induction xs as [|x xs IH]; simpl; [done|]. destruct (p x) eqn:E; [|by eauto].
  intros (y & Hy & Hp)%IH. eauto.
Qed.

Lemma all_legs_false p id (legs : gmap Uuid Leg.t) :
  all_legs p id legs = false ->
  exists k l, legs !! k = Some l /\ Leg.withdrawal_id l = id /\ p (Leg.state l) = false.
Proof.
  intros H. unfold all_legs, of_withdrawal in H.
  destruct (forallb_false_exists _ _ H) as ([k l] & Hin & Hf). simpl in Hf. bools.
  exists k, l. split; [by apply elem_of_map_to_list, list_elem_of_In|done].
Qed.

(** An open withdrawal has not ended: its closed clauses do not apply. *)
Lemma open_ending id w legs : is_open w = true -> ending_ok id w legs.
Proof.
  unfold is_open, ending_ok. intros H.
  destruct (DbWithdrawal.completed_at w), (DbWithdrawal.failed_at w), (DbWithdrawal.cancelled_at w);
    try discriminate H; done.
Qed.

(** A leg that is not terminal belongs to an open withdrawal. *)
Lemma live_leg_open X db k l :
  wd_ok_but X db -> Db.withdrawal_legs db !! k = Some l -> is_terminal (Leg.state l) = false ->
  exists w, Db.withdrawals db !! Leg.withdrawal_id l = Some w /\ is_open w = true.
Proof.
  intros [H1 H2 _ _] Hk Ht. destruct (H1 k l Hk) as [_ [w Hw]]. exists w. split; [done|].
  specialize (H2 _ _ Hw). unfold ending_ok, is_open in *.
  destruct (DbWithdrawal.completed_at w), (DbWithdrawal.failed_at w), (DbWithdrawal.cancelled_at w);
    try done; exfalso.
  - rewrite (H2 k l Hk eq_refl) in Ht. done.
  - destruct H2 as [H2 _]. rewrite (H2 k l Hk eq_refl) in Ht. done.
  - destruct (H2 k l Hk eq_refl) as [E|E]; rewrite E in Ht; done.
Qed.

(** ** Changing legs *)

(** The states of the legs move; no leg is added, none changes its terms. *)
Definition legs_moved (R : Leg.t -> Leg.t -> Prop) (legs legs' : gmap Uuid Leg.t) : Prop :=
  forall k, option_Forall2 R (legs !! k) (legs' !! k).

(** A leg as it was, or a live leg moved with its terms. *)
Definition live_move (l l' : Leg.t) : Prop :=
  l' = l \/ (is_terminal (Leg.state l) = false /\ Leg.terms l' = Leg.terms l /\ leg_ok l').

Lemma moved_legs_ok X db db' :
  wd_ok_but X db -> legs_moved live_move (Db.withdrawal_legs db) (Db.withdrawal_legs db') ->
  Db.withdrawals db' = Db.withdrawals db ->
  wd_ok_but (fun id => X id \/ exists k l', Db.withdrawal_legs db' !! k = Some l' /\
               Leg.withdrawal_id l' = id /\ is_terminal (Leg.state l') = true /\
               Db.withdrawal_legs db !! k <> Some l') db'.
Proof.
  intros Hok Hm Ew.
  assert (forall k l', Db.withdrawal_legs db' !! k = Some l' -> exists l,
    Db.withdrawal_legs db !! k = Some l /\ live_move l l' /\ Leg.withdrawal_id l' = Leg.withdrawal_id l) as Hback.
  { intros k l' Hk. specialize (Hm k). rewrite Hk in Hm. inversion Hm as [l ? HR Hl|]; subst.
    exists l. split_and!; [done|done|]. destruct HR as [->|(_ & E & _)]; [done|].
    unfold Leg.withdrawal_id. by rewrite E. }
  assert (forall k l, Db.withdrawal_legs db !! k = Some l -> exists l',
    Db.withdrawal_legs db' !! k = Some l' /\ live_move l l' /\ Leg.withdrawal_id l' = Leg.withdrawal_id l) as Hfwd.
  { intros k l Hk. specialize (Hm k). rewrite Hk in Hm. inversion Hm as [? l' HR|]; subst.
    exists l'. split_and!; [done|done|]. destruct HR as [->|(_ & E & _)]; [done|].
    unfold Leg.withdrawal_id. by rewrite E. }
  split; rewrite ?Ew.
  - intros k l' Hk. destruct (Hback k l' Hk) as (l & Hl & HR & Eid). rewrite Eid.
    destruct (wd_leg _ _ Hok k l Hl) as [Hlk Hw]. split; [|done].
    by destruct HR as [->|(_ & _ & ?)].
  - intros id w Hw. pose proof (wd_ending _ _ Hok id w Hw) as He.
    destruct (is_open w) eqn:Ho; [by apply open_ending|].
    assert (forall k l', Db.withdrawal_legs db' !! k = Some l' -> Leg.withdrawal_id l' = id ->
      Db.withdrawal_legs db !! k = Some l') as Hsame.
    { intros k l' Hk Hid. destruct (Hback k l' Hk) as (l & Hl & [->|(Ht & _)] & Eid); [done|].
      destruct (live_leg_open _ _ _ _ Hok Hl Ht) as (w' & Hw' & Ho'). rewrite <- Eid, Hid in Hw'. congruence. }
    assert (forall k l, Db.withdrawal_legs db !! k = Some l -> Leg.withdrawal_id l = id ->
      Db.withdrawal_legs db' !! k = Some l) as Hsame'.
    { intros k l Hk Hid. destruct (Hfwd k l Hk) as (l' & Hl' & _ & Eid).
      rewrite (Hsame k l' Hl') in Hk by congruence. congruence. }
    unfold ending_ok in *.
    destruct (DbWithdrawal.completed_at w), (DbWithdrawal.failed_at w), (DbWithdrawal.cancelled_at w); try done.
    + intros k l' Hk Hid. by apply (He k l' (Hsame k l' Hk Hid)).
    + destruct He as [H1 (k & l & Hk & Hid & Hs)]. split; [|by eauto 6].
      intros k' l' Hk' Hid'. by apply (H1 k' l' (Hsame k' l' Hk' Hid')).
    + intros k l' Hk Hid. by apply (He k l' (Hsame k l' Hk Hid)).
  - intros id w Hw Ho HX. destruct (wd_open _ _ Hok id w Hw Ho) as [Hno|(k & l & Hk & Hid & Ht)].
    { intros Hx. apply HX. by left. }
    + left. intros k l' Hk Hid. destruct (Hback k l' Hk) as (l & Hl & _ & Eid). apply (Hno k l Hl). congruence.
    + right. destruct (Hfwd k l Hk) as (l' & Hl' & _ & Eid). exists k, l'. split_and!; [done|congruence|].
      apply not_true_iff_false. intros Ht'. apply HX. right. exists k, l'. split_and!; [done|congruence|done|].
      rewrite Hk. intros [= ->]. congruence.
  - apply (wd_alone _ _ Hok).
Qed.

Lemma store_leg_parts id l db db' :
  store_leg id l db = Ok db' ->
  leg_allowed l = true /\ Db.withdrawal_legs db' = <[id := l]> (Db.withdrawal_legs db) /\
  Db.withdrawals db' = Db.withdrawals db.
Proof. unfold store_leg. intros H. repeat case_match; inv_ok. bools. done. Qed.

Lemma insert_moved (R : Leg.t -> Leg.t -> Prop) (legs : gmap Uuid Leg.t) (id : Uuid) l l' :
  legs !! id = Some l -> R l l' -> (forall x, R x x) -> legs_moved R legs (<[id := l']> legs).
Proof.
  intros Hl HR Hrefl k. destruct (decide (k = id)) as [->|Hne].
  - rewrite lookup_insert_eq, Hl. by constructor.
  - rewrite lookup_insert_ne by done. destruct (legs !! k); by constructor.
Qed.

(** One live leg rewritten, the withdrawal still to be settled if it ended. *)
Lemma store_leg_ok db id l l' db' :
  wd_ok db -> store_leg id l' db = Ok db' -> Db.withdrawal_legs db !! id = Some l ->
  is_terminal (Leg.state l) = false -> Leg.terms l' = Leg.terms l -> leg_ok l' ->
  wd_ok_but (fun i => i = Leg.withdrawal_id l /\ is_terminal (Leg.state l') = true) db'.
Proof.
  intros Hok H Hl Ht Et Hlk. apply store_leg_parts in H as (_ & El & Ew).
  assert (legs_moved live_move (Db.withdrawal_legs db) (Db.withdrawal_legs db')) as Hm.
  { rewrite El. apply (insert_moved _ _ _ l); [done|by right|by left]. }
  eapply wd_ok_weaken; [|apply (moved_legs_ok _ _ _ Hok Hm Ew)].
  intros i [[]|(k & x & Hk & <- & Hx & Hne)]. rewrite El in Hk.
  apply lookup_insert_Some in Hk as [[_ <-]|[_ Hk]]; [|by destruct Hne].
  split; [|done]. unfold Leg.withdrawal_id. by rewrite Et.
Qed.

Lemma store_live_ok db id l l' db' :
  wd_ok db -> store_leg id l' db = Ok db' -> Db.withdrawal_legs db !! id = Some l ->
  is_terminal (Leg.state l) = false -> Leg.terms l' = Leg.terms l -> leg_ok l' ->
  is_terminal (Leg.state l') = false -> wd_ok db'.
Proof.
  intros Hok H Hl Ht Et Hlk Ht'. eapply wd_ok_weaken; [|by eapply store_leg_ok].
  intros i [_ Hx]. congruence.
Qed.

(** ** Ending a withdrawal *)

Lemma is_open_none w :
  is_open w = true ->
  DbWithdrawal.completed_at w = None /\ DbWithdrawal.cancelled_at w = None /\ DbWithdrawal.failed_at w = None.
Proof.
  unfold is_open.
  destruct (DbWithdrawal.completed_at w), (DbWithdrawal.cancelled_at w), (DbWithdrawal.failed_at w); done.
Qed.

(** Closing one open withdrawal, consistently with its legs. *)
Lemma end_withdrawal_ok X db db' id w w' :
  wd_ok_but X db -> Db.withdrawals db !! id = Some w -> is_open w = true -> is_open w' = false ->
  ending_ok id w' (Db.withdrawal_legs db) -> Db.withdrawal_legs db' = Db.withdrawal_legs db ->
  Db.withdrawals db' = <[id := w']> (Db.withdrawals db) ->
  wd_ok_but (fun i => X i /\ i <> id) db'.
Proof.
  intros [H1 H2 H3 H4] Hw Ho Hc He El Ew. split; rewrite ?El, ?Ew.
  - intros k l Hk. destruct (H1 k l Hk) as [Hl Hx]. split; [done|].
    destruct (decide (Leg.withdrawal_id l = id)) as [->|Hne]; [rewrite lookup_insert_eq; by eexists|].
    by rewrite lookup_insert_ne.
  - intros i x [[<- <-]|[Hne Hi]]%lookup_insert_Some; [done|by apply H2].
  - intros i x [[<- <-]|[Hne Hi]]%lookup_insert_Some Hox HX; [congruence|].
    apply (H3 i x Hi Hox). intros Hx. apply HX. by split.
  - intros i j x y [[<- <-]|[Hn1 Hi]]%lookup_insert_Some [[<- <-]|[Hn2 Hj]]%lookup_insert_Some Ox Oy;
      try congruence. by apply H4.
Qed.

Lemma settle_in_ok X db id now : wd_ok_but X db -> wd_ok_but (fun i => X i /\ i <> id) (settle_in id now db).
Proof.
  intros Hok. unfold settle_in. destruct (Db.withdrawals db !! id) as [w|] eqn:Hw.
  2: { destruct Hok as [H1 H2 H3 H4]. split; try done. intros i x Hi Hox HX. apply (H3 i x Hi Hox).
       intros Hx. apply HX. split; [done|congruence]. }
  assert (is_open w = false \/ undecided id (Db.withdrawal_legs db) -> wd_ok_but (fun i => X i /\ i <> id) db)
    as Hkeep.
  { intros Hc. destruct Hok as [H1 H2 H3 H4]. split; try done. intros i x Hi Hox HX.
    destruct (decide (i = id)) as [->|Hne].
    - destruct Hc as [Hc|Hc]; [congruence|done].
    - apply (H3 i x Hi Hox). intros Hx. by apply HX. }
  destruct (is_open w) eqn:Ho; [|by apply Hkeep; left].
  destruct (all_legs is_terminal id (Db.withdrawal_legs db)) eqn:Hall; simpl.
  2: { apply Hkeep. right. right. by apply all_legs_false in Hall. }
  destruct (is_open_none w Ho) as (E1 & E2 & E3). rewrite all_legs_spec in Hall.
  eapply end_withdrawal_ok; [exact Hok|exact Hw|exact Ho| | |reflexivity|reflexivity].
  - unfold is_open. simpl. rewrite E2. by destruct (all_legs is_completed _ _).
  - unfold ending_ok. simpl. rewrite E2.
    destruct (all_legs is_completed id (Db.withdrawal_legs db)) eqn:Hc.
    + rewrite all_legs_spec in Hc. intros k l Hk Hid. specialize (Hc k l Hk Hid).
      by destruct (Leg.state l).
    + split; [done|]. apply all_legs_false in Hc as (k & l & Hk & Hid & Hs).
      exists k, l. split_and!; [done|done|]. intros E. by rewrite E in Hs.
Qed.

Lemma settle_in_legs id now db : Db.withdrawal_legs (settle_in id now db) = Db.withdrawal_legs db.
Proof. unfold settle_in. by repeat case_match. Qed.

(** A live leg stored and its withdrawal settled. *)
Lemma store_settle_ok db id l l' now db' :
  wd_ok db -> store_leg id l' db = Ok db' -> Db.withdrawal_legs db !! id = Some l ->
  is_terminal (Leg.state l) = false -> Leg.terms l' = Leg.terms l -> leg_ok l' ->
  wd_ok (settle_in (Leg.withdrawal_id l) now db').
Proof.
  intros Hok H Hl Ht Et Hlk. eapply wd_ok_weaken; [|apply settle_in_ok; by eapply store_leg_ok].
  simpl. naive_solver.
Qed.

(** ** The state machine of a leg *)

Definition leg_edge (k : LegKind) (s s' : LegState) : bool :=
  match s, s' with
  | AwaitingSignature, (Authorized | LegExpired | Cancelled) => true
  | Authorized, (Relaying | LegExpired | Cancelled | LegFailed) => true
  | Relaying, (Authorized | LegFailed) => true
  | Relaying, Completed => bool_decide (k = LegTransfer)
  | Relaying, Burned => bool_decide (k = LegBridge)
  | Burned, (Attested | LegFailed) => true
  | Attested, (Minting | LegFailed) => true
  | Minting, (Attested | Completed | LegFailed) => true
  | _, _ => false
  end.

(** How one write may change a leg. *)
Definition leg_step (l l' : Leg.t) : Prop :=
  l' = l \/
  (Leg.terms l' = Leg.terms l /\
   (Leg.state l' = Leg.state l /\ Leg.state l = Burned \/
    leg_edge (Leg.kind l) (Leg.state l) (Leg.state l') = true) /\
   (is_some (Leg.signature l) = true -> Leg.signature l' = Leg.signature l)).

Lemma leg_step_live l l' : leg_step l l' -> leg_ok l' -> live_move l l'.
Proof.
  intros [->|(Ht & Hs & _)] Hlk; [by left|]. right. split_and!; [|done|done].
  destruct Hs as [[_ ->]|Hs]; [done|]. by destruct (Leg.state l).
Qed.

(** What was ordered, which no write changes. *)
Definition order_of (w : DbWithdrawal.t) :=
  (DbWithdrawal.account_id w, DbWithdrawal.wallet_address w, DbWithdrawal.currency w,
   DbWithdrawal.destination_chain_id w, DbWithdrawal.destination_address w).

(** How one write may change the two tables. *)
Definition wd_moves (db db' : Db.t) : Prop :=
  (forall k l, Db.withdrawal_legs db !! k = Some l ->
     exists l', Db.withdrawal_legs db' !! k = Some l' /\ leg_step l l') /\
  (forall id w, Db.withdrawals db !! id = Some w ->
     exists w', Db.withdrawals db' !! id = Some w' /\
       order_of w' = order_of w /\ (is_open w = false -> w' = w)).

#[local] Instance wd_moves_refl : Reflexive wd_moves.
Proof. intros db. split; [intros k l H; exists l|intros id w H; exists w]; split_and?; try done. by left. Qed.

Lemma stored_moves db id l l' db' :
  store_leg id l' db = Ok db' -> Db.withdrawal_legs db !! id = Some l -> leg_step l l' -> wd_moves db db'.
Proof.
  intros (_ & El & Ew)%store_leg_parts Hl Hs. split; rewrite ?El, ?Ew.
  - intros k x Hk. destruct (decide (k = id)) as [->|Hne].
    + rewrite lookup_insert_eq. exists l'. split; [done|]. congruence.
    + rewrite lookup_insert_ne by done. exists x. split; [done|by left].
  - intros i w Hw. by exists w.
Qed.

Lemma settle_moves db db1 id now : wd_moves db db1 -> wd_moves db (settle_in id now db1).
Proof.
  intros [Hl Hw]. split; [by rewrite settle_in_legs|]. intros i w Hi.
  destruct (Hw i w Hi) as (w1 & H1 & Ea & Hc). unfold settle_in.
  destruct (Db.withdrawals db1 !! id) as [x|] eqn:Hx; [|by eauto].
  destruct (is_open x && _) eqn:Ho; [|by eauto]. simpl. bools.
  destruct (decide (i = id)) as [->|Hne]; [|rewrite lookup_insert_ne by done; by eauto].
  rewrite lookup_insert_eq. eexists. split_and!; [done| |].
  - rewrite H1 in Hx. injection Hx as <-. exact Ea.
  - intros Hco. specialize (Hc Hco). congruence.
Qed.

(** What the code reads before it applies a result. *)
Lemma leg_of_job_some job db k l :
  leg_of_job job db = Some (k, l) -> Db.withdrawal_legs db !! k = Some l /\ Leg.step_job_id l = Some job.
Proof.
  unfold leg_of_job. intros [Hin Hp]%find_some. simpl in Hp. bools.
  split; [|done]. by apply elem_of_map_to_list, list_elem_of_In.
Qed.

Lemma leg_of_job_none job db :
  wd_ok db -> leg_of_job job db = None <->
  forall k l, Db.withdrawal_legs db !! k = Some l -> Leg.step_job_id l <> Some job.
Proof.
  intros Hok. unfold leg_of_job. split.
  - intros Hn k l Hk Hj. assert (In (k, l) (map_to_list (Db.withdrawal_legs db))) as Hin
      by (by apply list_elem_of_In, elem_of_map_to_list).
    pose proof (find_none _ _ Hn _ Hin) as Hf. simpl in Hf.
    rewrite bool_decide_eq_true_2 in Hf by done. destruct (wd_leg _ _ Hok k l Hk) as [_ [w Hw]].
    by rewrite Hw in Hf.
  - intros Hno. destruct (List.find _ _) as [[k l]|] eqn:E; [|done].
    apply find_some in E as [Hin Hp]. simpl in Hp. bools.
    by destruct (Hno k l (proj1 (elem_of_map_to_list _ _ _) (proj2 (list_elem_of_In _ _) Hin))).
Qed.

Lemma running_leg db k l job :
  wd_ok db -> Db.withdrawal_legs db !! k = Some l -> Leg.step_job_id l = Some job ->
  (Leg.state l = Relaying \/ Leg.state l = Minting) /\ is_some (Leg.signature l) = true /\ leg_ok l.
Proof.
  intros Hok Hk Hj. destruct (wd_leg _ _ Hok k l Hk) as [Hlk _].
  pose proof (lk_step _ Hlk) as H1. pose proof (lk_signed _ Hlk) as H4. rewrite Hj in H1. simpl in H1.
  split_and!; [destruct (Leg.state l); try done; auto| |done].
  destruct (Leg.state l); try done; naive_solver.
Qed.

Ltac edge := unfold leg_step, leg_edge; right; split_and!; try done.

Lemma try_from_same l l' : leg_try_from l = Ok l' -> l' = l.
Proof. unfold leg_try_from. intros H. apply rbind_ok in H as (? & _ & H). case_match; by inv_ok. Qed.

Lemma step_db_ok {A} (r : result DbError A) a : step_db r = Ok a -> r = Ok a.
Proof. unfold step_db. destruct r; [|discriminate]. by intros [= ->]. Qed.

(** Failing a running leg, or putting it back, is an edge; so is advancing. *)
Lemma failed_leg_fits l reason now :
  is_some (Leg.signature l) = true -> is_terminal (Leg.state l) = false -> Leg.state l <> AwaitingSignature ->
  leg_step l (failed_leg reason now l) /\ leg_ok (failed_leg reason now l).
Proof.
  intros Hs Ht Ha. split; [edge; right; by destruct (Leg.state l)|].
  split; simpl; try done. by right; right; right.
Qed.

Lemma queued_leg_fits l now f :
  Leg.state l = Relaying \/ Leg.state l = Minting -> is_some (Leg.signature l) = true -> leg_ok l ->
  (forall x, Leg.terms (f x) = Leg.terms x /\ Leg.state (f x) = Leg.state x /\
     Leg.signature (f x) = Leg.signature x /\ Leg.step_job_id (f x) = Leg.step_job_id x) ->
  let l' := f (clear_step now (queue_state (Leg.state l)) l) in
  leg_step l l' /\ leg_ok l' /\ is_terminal (Leg.state l') = false.
Proof.
  intros Hs Hsig [_ Hkind _ _] Hf l'. destruct (Hf (clear_step now (queue_state (Leg.state l)) l))
    as (E1 & E2 & E3 & E4). unfold l' in *. simpl in *.
  split_and!; [edge|split|]; unfold Leg.kind in *; rewrite ?E1, ?E2, ?E3, ?E4; simpl;
    destruct Hs as [Es|Es]; rewrite ?Es in *; simpl in *; try done; auto.
Qed.

Lemma advanced_leg_fits l step hash next now :
  Leg.state l = Relaying \/ Leg.state l = Minting -> is_some (Leg.signature l) = true -> leg_ok l ->
  step_kind l = Some step ->
  leg_step l (advanced_leg step hash next now l) /\ leg_ok (advanced_leg step hash next now l).
Proof.
  intros Hs Hsig [_ Hkind _ _] Hk. unfold step_kind in Hk.
  split; [edge|split]; unfold advanced_leg in *; simpl in *; unfold Leg.kind in *;
    destruct Hs as [Es|Es]; rewrite ?Es in *; simpl in *;
    destruct (LegTerms.kind (Leg.terms l)); simplify_eq; simpl; try done; auto.
Qed.

(** ** Every write *)

Definition good_step (db db' : Db.t) : Prop := wd_ok db' /\ wd_moves db db'.

Lemma good_refl db : wd_ok db -> good_step db db.
Proof. by split. Qed.

Lemma good_store db id l l' db' :
  wd_ok db -> store_leg id l' db = Ok db' -> Db.withdrawal_legs db !! id = Some l ->
  leg_step l l' -> leg_ok l' -> is_terminal (Leg.state l) = false -> is_terminal (Leg.state l') = false ->
  good_step db db'.
Proof.
  intros Hok H Hl Hs Hlk Ht Ht'. split; [|by eapply stored_moves].
  eapply store_live_ok; [done..| |done|done]. by destruct Hs as [->|(? & _)].
Qed.

Lemma good_store_settle db id l l' now db' :
  wd_ok db -> store_leg id l' db = Ok db' -> Db.withdrawal_legs db !! id = Some l ->
  leg_step l l' -> leg_ok l' -> is_terminal (Leg.state l) = false ->
  good_step db (settle_in (Leg.withdrawal_id l) now db').
Proof.
  intros Hok H Hl Hs Hlk Ht. split; [|by eapply settle_moves, stored_moves].
  eapply store_settle_ok; [done..| |done]. by destruct Hs as [->|(? & _)].
Qed.

(** The result of a step, on the leg that runs it. *)
Section RunningLeg.
Context (db : Db.t) (k : Uuid) (l : Leg.t) (job : Uuid).
Context (Hok : wd_ok db) (Hk : Db.withdrawal_legs db !! k = Some l) (Hj : Leg.step_job_id l = Some job).

Lemma running_live : is_terminal (Leg.state l) = false.
Proof. by destruct (running_leg _ _ _ _ Hok Hk Hj) as [[-> | ->] _]. Qed.

Lemma good_fail reason now r db' : fail k l reason now db = Ok (r, db') -> good_step db db'.
Proof.
  unfold fail. intros H. apply rbind_ok in H as (db1 & Hst%step_db_ok & [= <- <-]).
  destruct (running_leg _ _ _ _ Hok Hk Hj) as (Hs & Hsig & Hlk).
  destruct (failed_leg_fits l reason now Hsig running_live) as [F1 F2]; [by destruct Hs as [-> | ->]|].
  eapply good_store_settle; [done..|apply running_live].
Qed.

Lemma good_advance step hash next now r db' :
  step_kind l = Some step -> advance k l step hash next now db = Ok (r, db') -> good_step db db'.
Proof.
  unfold advance. intros Hst H. apply rbind_ok in H as (db1 & Hdb%step_db_ok & [= <- <-]).
  destruct (running_leg _ _ _ _ Hok Hk Hj) as (Hs & Hsig & Hlk).
  destruct (advanced_leg_fits l step hash next now Hs Hsig Hlk Hst) as [F1 F2].
  eapply good_store_settle; [done..|apply running_live].
Qed.

Lemma good_queue f now db' :
  (forall x, Leg.terms (f x) = Leg.terms x /\ Leg.state (f x) = Leg.state x /\
     Leg.signature (f x) = Leg.signature x /\ Leg.step_job_id (f x) = Leg.step_job_id x) ->
  store_leg k (f (clear_step now (queue_state (Leg.state l)) l)) db = Ok db' -> good_step db db'.
Proof.
  intros Hf H. destruct (running_leg _ _ _ _ Hok Hk Hj) as (Hs & Hsig & Hlk).
  destruct (queued_leg_fits l now f Hs Hsig Hlk Hf) as (F1 & F2 & F3).
  eapply good_store; [done..|apply running_live|done].
Qed.

Lemma good_retry policy reason now r db' :
  retry_or_fail k l policy reason now db = Ok (r, db') -> good_step db db'.
Proof.
  unfold retry_or_fail. destruct (_ <=? _); [apply good_fail|]. destruct (_ <=? _); [discriminate|].
  intros H. apply rbind_ok in H as (db1 & Hdb%step_db_ok & [= <- <-]).
  eapply (good_queue (fun x => {| x with Leg.step_reverts := reverts_of l + 1;
    Leg.step_retry_at := Some (now + StepPolicy.revert_backoff_secs policy
      * 2 ^ Z.min (reverts_of l + 1 - 1) 6 * 10 ^ 6) |})); [done|exact Hdb].
Qed.
End RunningLeg.

Section WithdrawalRuns.
Context (describe_abandon : AbandonReason -> string).

Abbreviation apply_step_result := (apply_step_result describe_abandon).

Lemma good_result job reported res policy utc now db r db' :
  wd_ok db -> apply_step_result job reported res policy utc now db = Ok (r, db') -> good_step db db'.
Proof.
  unfold Withdrawal.apply_step_result. intros Hok H. apply rbind_ok in H as ([k l] & Hf%ok_or_ok & H).
  apply leg_of_job_some in Hf as [Hk Hj]. simpl in H.
  apply rbind_ok in H as (row & ->%step_db_ok%try_from_same & H).
  apply rbind_ok in H as (expected & Hst%ok_or_ok & H). destruct (negb _); [discriminate|].
  destruct res as [h ? ?|o|h| |reason]; [by eapply good_advance| |by eapply good_retry| |by eapply good_retry].
  - destruct expected, o; try (by eapply good_fail); by eapply good_advance.
  - apply rbind_ok in H as (db1 & Hdb%step_db_ok & [= <- <-]).
    eapply (good_queue db k l job Hok Hk Hj (fun x => x)); [done|exact Hdb].
Qed.

Lemma good_reject job reason now db b db' :
  wd_ok db -> reject_step job reason now db = Ok (b, db') -> good_step db db'.
Proof.
  unfold reject_step. intros Hok H. destruct (leg_of_job job db) as [[k l]|] eqn:Hf.
  2: { injection H as <- <-. by apply good_refl. }
  apply leg_of_job_some in Hf as [Hk Hj]. apply rbind_ok in H as (row & ->%step_db_ok%try_from_same & H).
  apply rbind_ok in H as ([a d] & Hfail & [= <- <-]). by eapply good_fail.
Qed.

Lemma good_fail_leg leg reason now db b db' :
  wd_ok db -> fail_leg leg reason now db = Ok (b, db') -> good_step db db'.
Proof.
  unfold fail_leg. intros Hok H. destruct (Db.withdrawal_legs db !! leg) as [l|] eqn:Hl.
  2: { injection H as <- <-. by apply good_refl. }
  destruct (is_terminal (Leg.state l)) eqn:Ht; [injection H as <- <-; by apply good_refl|].
  apply rbind_ok in H as (db1 & Hdb & [= <- <-]).
  pose proof (store_leg_parts _ _ _ _ Hdb) as [Ha _].
  assert (is_some (Leg.signature l) = true) as Hsig.
  { unfold leg_allowed in Ha. simpl in Ha. destruct (is_some (Leg.signature l)); [done|].
    rewrite !andb_false_r in Ha. simpl in Ha. by rewrite ?andb_false_r in Ha. }
  destruct (wd_leg _ _ Hok leg l Hl) as [Hlk _].
  destruct (failed_leg_fits l reason now Hsig Ht) as [F1 F2].
  { intros Hs. rewrite (lk_unsigned _ Hlk Hs) in Hsig. done. }
  by eapply good_store_settle.
Qed.

Lemma good_attest leg m a now db b db' :
  wd_ok db -> record_attestation leg m a now db = Ok (b, db') -> good_step db db'.
Proof.
  unfold record_attestation. intros Hok H. destruct (Db.withdrawal_legs db !! leg) as [l|] eqn:Hl.
  2: { injection H as <- <-. by apply good_refl. }
  case_bool_decide as Hs; [|injection H as <- <-; by apply good_refl].
  apply rbind_ok in H as (db1 & Hdb & [= <- <-]). destruct (wd_leg _ _ Hok leg l Hl) as [[H1 H2 H3 H4] _].
  rewrite Hs in *. eapply good_store; [done..| | | |done].
  - edge. right. by rewrite Hs.
  - split; simpl; try done. right; right; right. naive_solver.
  - by rewrite Hs.
Qed.

Lemma good_defer leg next now db b db' :
  wd_ok db -> defer_attestation leg next now db = Ok (b, db') -> good_step db db'.
Proof.
  unfold defer_attestation. intros Hok H. destruct (Db.withdrawal_legs db !! leg) as [l|] eqn:Hl.
  2: { injection H as <- <-. by apply good_refl. }
  case_bool_decide as Hs; [|injection H as <- <-; by apply good_refl].
  apply rbind_ok in H as (db1 & Hdb & [= <- <-]). destruct (wd_leg _ _ Hok leg l Hl) as [[H1 H2 H3 H4] _].
  eapply good_store; [done..| | | |]; simpl; try (by rewrite Hs); [edge; by left|by split].
Qed.

Lemma good_begin leg job chain now db b db' :
  wd_ok db -> begin_step leg job chain now db = Ok (b, db') -> good_step db db'.
Proof.
  unfold begin_step. intros Hok H. destruct (Db.withdrawal_legs db !! leg) as [l|] eqn:Hl.
  2: { injection H as <- <-. by apply good_refl. }
  destruct (Db.withdrawals db !! Leg.withdrawal_id l) as [w|]; [|injection H as <- <-; by apply good_refl].
  destruct (is_some (DbWithdrawal.cancelled_at w)); [injection H as <- <-; by apply good_refl|].
  destruct (is_some (Leg.step_job_id l)); [injection H as <- <-; by apply good_refl|].
  destruct (wd_leg _ _ Hok leg l Hl) as [[H1 H2 H3 H4] _].
  destruct (Leg.state l) eqn:Hs; try (injection H as <- <-; by apply good_refl);
    apply rbind_ok in H as (db1 & Hdb & [= <- <-]);
    (eapply good_store; [done..| | | |]; simpl; try (by rewrite ?Hs);
     [edge; right; by rewrite Hs|split; simpl; try done; naive_solver]).
Qed.

Lemma good_authorize account wid leg s now db o db' :
  wd_ok db -> authorize account wid leg s now db = Ok (o, db') -> good_step db db'.
Proof.
  unfold authorize. intros Hok H. destruct (Db.withdrawal_legs db !! leg) as [l|] eqn:Hl.
  2: { injection H as <- <-. by apply good_refl. }
  destruct (Db.withdrawals db !! wid) as [w|]; [|injection H as <- <-; by apply good_refl].
  destruct (negb _); [injection H as <- <-; by apply good_refl|].
  destruct (wd_leg _ _ Hok leg l Hl) as [[H1 H2 H3 H4] _].
  destruct (Leg.state l) eqn:Hs; try (destruct (bool_decide _); injection H as <- <-; by apply good_refl).
  apply rbind_ok in H as (db1 & Hdb & [= <- <-]).
  eapply good_store; [done..| | | |]; simpl; try (by rewrite ?Hs).
  - edge; [right; by rewrite Hs|]. intros Hx. rewrite H3 in Hx; done.
  - split; simpl; try done. by right; right; right.
Qed.

(** *** Writes of many rows *)

Lemma update_legs_parts p f db db' :
  update_legs p f db = Ok db' ->
  Db.withdrawal_legs db' = update_where p f (Db.withdrawal_legs db) /\ Db.withdrawals db' = Db.withdrawals db.
Proof. unfold update_legs. intros H. case_match; inv_ok. done. Qed.

(** Closing unsent legs in place. *)
Lemma close_unsent p s now db db' :
  wd_ok db -> s = Cancelled \/ s = LegExpired -> (forall l, p l = true -> unsent (Leg.state l) = true) ->
  update_legs p (fun l => {| l with Leg.state := s; Leg.updated_at := now |}) db = Ok db' ->
  wd_ok_but (fun id => exists k l, Db.withdrawal_legs db !! k = Some l /\ Leg.withdrawal_id l = id /\ p l = true)
    db' /\ wd_moves db db'.
Proof.
  intros Hok Hs Hp H. apply update_legs_parts in H as [El Ew].
  assert (forall k l, Db.withdrawal_legs db !! k = Some l -> p l = true ->
    is_terminal (Leg.state l) = false /\
    leg_step l {| l with Leg.state := s; Leg.updated_at := now |} /\
    leg_ok {| l with Leg.state := s; Leg.updated_at := now |}) as Hmove.
  { intros k l Hk Hpl. specialize (Hp l Hpl). destruct (wd_leg _ _ Hok k l Hk) as [[H1 H2 H3 H4] _].
    split_and!; [by destruct (Leg.state l)| |].
    - edge. right. simpl. destruct (Leg.state l), Hs as [-> | ->]; done.
    - split; simpl; try (destruct Hs as [-> | ->]; done); [|naive_solver].
      rewrite H1. destruct (Leg.state l), Hs as [-> | ->]; done. }
  assert (legs_moved live_move (Db.withdrawal_legs db) (Db.withdrawal_legs db')) as Hm.
  { intros k. rewrite El, lookup_update_where. destruct (Db.withdrawal_legs db !! k) as [l|] eqn:Hk; simpl;
      constructor. destruct (p l) eqn:Hpl; [|by left]. destruct (Hmove k l Hk Hpl) as (? & ? & ?). by right. }
  split.
  - eapply wd_ok_weaken; [|apply (moved_legs_ok _ _ _ Hok Hm Ew)].
    intros i [[]|(k & l' & Hk & <- & _ & Hne)]. rewrite El, lookup_update_where in Hk.
    destruct (Db.withdrawal_legs db !! k) as [l|] eqn:Hl; [|discriminate]. simpl in Hk. injection Hk as <-.
    exists k, l. destruct (p l); [done|]. by destruct Hne.
  - split; rewrite ?Ew; [|by intros i w Hw; exists w].
    intros k l Hk. rewrite El, lookup_update_where, Hk. simpl. eexists. split; [done|].
    destruct (p l) eqn:Hpl; [by apply (Hmove k l)|by left].
Qed.

Lemma good_cancel account wid now db o db' :
  wd_ok db -> cancel account wid now db = Ok (o, db') -> good_step db db'.
Proof.
  unfold cancel. intros Hok H. destruct (Db.withdrawals db !! wid) as [w|] eqn:Hw.
  2: { injection H as <- <-. by apply good_refl. }
  destruct (negb (_ =? account)); [injection H as <- <-; by apply good_refl|].
  destruct (is_some (DbWithdrawal.cancelled_at w)) eqn:Hc; [injection H as <- <-; by apply good_refl|].
  destruct (is_some (DbWithdrawal.completed_at w) || is_some (DbWithdrawal.failed_at w)) eqn:Hf;
    [injection H as <- <-; by apply good_refl|]. bools.
  destruct (all_legs cancellable wid (Db.withdrawal_legs db)) eqn:Hall;
    [|injection H as <- <-; by apply good_refl]. simpl in H.
  apply rbind_ok in H as (db1 & Hup & [= <- <-]). rewrite all_legs_spec in Hall.
  pose proof (update_legs_parts _ _ _ _ Hup) as [El Ew].
  assert (is_open w = true) as Ho.
  { unfold is_open. rewrite Hc. bools.
    by destruct (DbWithdrawal.completed_at w), (DbWithdrawal.failed_at w). }
  destruct (is_open_none w Ho) as (E1 & E2 & E3).
  destruct (close_unsent (fun l => of_withdrawal wid l && unsent (Leg.state l)) _ _ _ _ Hok
    (or_introl eq_refl) ltac:(intros l Hl; cbv beta in Hl; bools; done) Hup) as [Hok1 [Ml Mw]].
  split.
  - eapply wd_ok_weaken; [|eapply (end_withdrawal_ok _ db1 _ wid w
      {| w with DbWithdrawal.cancelled_at := Some now |} Hok1); [by rewrite Ew|done| | |reflexivity|reflexivity]].
    + simpl. intros i [(k & l & _ & <- & Hp) Hne]. bools. apply Hne.
      match goal with H : of_withdrawal _ _ = true |- _ => by apply Z.eqb_eq in H end.
    + unfold is_open. simpl. by rewrite andb_false_r.
    + unfold ending_ok. simpl. rewrite E1, E3, El. intros k l'. rewrite lookup_update_where.
      destruct (Db.withdrawal_legs db !! k) as [l|] eqn:Hk; [|discriminate]. simpl. intros [= <-] Hid.
      assert (Leg.withdrawal_id l = wid) as Hid0 by (revert Hid; by destruct (_ && _)).
      specialize (Hall k l Hk Hid0). unfold of_withdrawal. apply Z.eqb_eq in Hid0. rewrite Hid0. simpl.
      destruct (Leg.state l) eqn:Es; simpl in *; try done; auto.
  - split; simpl; [done|]. intros i x Hi. rewrite Ew. destruct (decide (i = wid)) as [->|Hne].
    + rewrite lookup_insert_eq. assert (x = w) as -> by congruence. eexists. split_and!; [done|done|congruence].
    + rewrite lookup_insert_ne by done. by exists x.
Qed.

Lemma settle_all_ok X db ids now :
  wd_ok_but X db -> wd_ok_but (fun i => X i /\ i ∉ ids) (foldl (fun s id => settle_in id now s) db ids).
Proof.
  revert X db. induction ids as [|a ids IH]; intros X db Hok; simpl.
  - eapply wd_ok_weaken; [|exact Hok]. intros i Hi. split; [done|]. apply not_elem_of_nil.
  - eapply wd_ok_weaken; [|by apply IH, settle_in_ok]. simpl. set_solver.
Qed.

Lemma settle_all_moves db db1 ids now :
  wd_moves db db1 -> wd_moves db (foldl (fun s id => settle_in id now s) db1 ids).
Proof. revert db1. induction ids as [|a ids IH]; intros db1 H; simpl; [done|]. by apply IH, settle_moves. Qed.

Lemma good_expire margin now db n db' :
  wd_ok db -> expire_stale margin now db = Ok (n, db') -> good_step db db'.
Proof.
  unfold expire_stale. intros Hok H. apply rbind_ok in H as (db1 & Hup & [= <- <-]).
  destruct (close_unsent (is_stale margin now) _ _ _ _ Hok (or_intror eq_refl)
    ltac:(intros l Hl; unfold is_stale in Hl; bools; done) Hup) as [Hok1 Hm].
  split; [|by apply settle_all_moves]. eapply wd_ok_weaken; [|by apply settle_all_ok].
  intros i [(k & l & Hk & Hid & Hp) Hni]. apply Hni. unfold stale_withdrawals.
  rewrite elem_of_remove_dups, sorting.merge_sort_Permutation. apply list_elem_of_fmap. exists l.
  split; [done|]. apply list_elem_of_In, filter_In. split; [|done].
  apply list_elem_of_In, list_elem_of_fmap. exists (k, l). split; [done|]. by apply elem_of_map_to_list.
Qed.
(** *** Creation *)

Lemma existsb_false_forall {A} (p : A -> bool) (xs : list A) :
  existsb p xs = false -> forall x, In x xs -> p x = false.
Proof.
  intros H x Hin. apply not_true_iff_false. intros Hp.
  assert (existsb p xs = true) by (apply existsb_exists; eauto). congruence.
Qed.

Lemma insert_leg_ok nw now w db n db' :
  wd_ok db -> Db.withdrawals db !! NewWithdrawal.id nw = Some w -> is_open w = true ->
  insert_leg nw now db n = Ok db' ->
  wd_ok db' /\ Db.withdrawals db' = Db.withdrawals db /\ Db.withdrawal_legs db ⊆ Db.withdrawal_legs db'.
Proof.
  unfold insert_leg. intros Hok Hw Ho H. destruct (negb _); [discriminate|].
  destruct (Db.withdrawal_legs db !! NewLeg.id n) eqn:Hn; [discriminate|]. simpl in H.
  destruct (existsb _ _); [discriminate|]. injection H as <-. simpl.
  split_and!; [|done|by apply insert_subseteq].
  assert (Leg.withdrawal_id (new_leg nw now n) = NewWithdrawal.id nw) as Enew by done.
  destruct Hok as [H1 H2 H3 H4]. split; cbn [Db.withdrawal_legs Db.withdrawals].
  - intros k l [[<- <-]|[_ Hk]]%lookup_insert_Some; [|by apply H1 in Hk].
    split; [|simpl; by eexists]. split; simpl; auto; try done.
  - intros id x Hx. destruct (decide (id = NewWithdrawal.id nw)) as [->|Hne].
    { apply open_ending. congruence. }
    specialize (H2 id x Hx). unfold ending_ok in *.
    destruct (DbWithdrawal.completed_at x), (DbWithdrawal.failed_at x), (DbWithdrawal.cancelled_at x); try done.
    + intros k l [[<- <-]|[_ Hk]]%lookup_insert_Some Hid; [congruence|by eapply H2].
    + destruct H2 as [Ha (k & l & Hk & Hid & Hs)]. split.
      * intros k' l' [[<- <-]|[_ Hk']]%lookup_insert_Some Hid'; [congruence|by eapply Ha].
      * exists k, l. split; [|done]. rewrite lookup_insert_ne; [done|congruence].
    + intros k l [[<- <-]|[_ Hk]]%lookup_insert_Some Hid; [congruence|by eapply H2].
  - intros id x Hx Hox _. destruct (decide (id = NewWithdrawal.id nw)) as [->|Hne].
    { right. exists (NewLeg.id n), (new_leg nw now n). by rewrite lookup_insert_eq. }
    destruct (H3 id x Hx Hox) as [Hno|(k & l & Hk & Hid & Ht)]; [by intros []| |].
    + left. intros k l [[<- <-]|[_ Hk]]%lookup_insert_Some; [congruence|by eapply Hno].
    + right. exists k, l. rewrite lookup_insert_ne; [done|congruence].
  - done.
Qed.

Lemma good_create nw now db db' : wd_ok db -> create nw now db = Ok db' -> good_step db db'.
Proof.
  unfold create. intros Hok H. destruct (negb _); [discriminate|].
  destruct (Db.withdrawals db !! NewWithdrawal.id nw) eqn:Hnone; [discriminate|]. simpl in H.
  destruct (find_by_idempotency_key _ _ _); [discriminate|].
  destruct (find_open _ _) eqn:Hopen; [discriminate|]. destruct (negb _); [discriminate|].
  set (row := DbWithdrawal.mk _ _ _ _ _ _ _ _ _ _) in H.
  set (db0 := {| db with Db.withdrawals := _ |}) in H.
  assert (wd_ok db0) as Hok0.
  { destruct Hok as [H1 H2 H3 H4]. split; simpl.
    - intros k l Hk. destruct (H1 k l Hk) as [Hl [w Hw]]. split; [done|].
      rewrite lookup_insert_ne by congruence. by eexists.
    - intros id w [[<- <-]|[_ Hw]]%lookup_insert_Some; [by apply open_ending|by apply H2].
    - intros id w [[<- <-]|[_ Hw]]%lookup_insert_Some Ho _; [|by eapply H3; eauto].
      left. intros k l Hk Hid. destruct (H1 k l Hk) as [_ [w Hw]]. congruence.
    - assert (forall id w, Db.withdrawals db !! id = Some w -> is_open w = true ->
        DbWithdrawal.account_id w <> NewWithdrawal.account_id nw) as Hno.
      { intros id w Hw Ho Ha. pose proof (existsb_false_forall _ _ Hopen (id, w)) as Hf. simpl in Hf.
        rewrite Ha, Z.eqb_refl, Ho in Hf. discriminate Hf.
        by apply list_elem_of_In, elem_of_map_to_list. }
      intros i j x y [[<- <-]|[_ Hi]]%lookup_insert_Some [[<- <-]|[_ Hj]]%lookup_insert_Some Ox Oy E;
        [done| | |by eapply H4]; simpl in E; [by destruct (Hno j y Hj Oy)|by destruct (Hno i x Hi Ox)]. }
  assert (wd_ok db' /\ Db.withdrawals db' = Db.withdrawals db0 /\
          Db.withdrawal_legs db ⊆ Db.withdrawal_legs db') as (K1 & K2 & K3).
  { revert H. apply (try_fold_ind _ (fun s => wd_ok s /\ Db.withdrawals s = Db.withdrawals db0 /\
      Db.withdrawal_legs db ⊆ Db.withdrawal_legs s)); [|done].
    intros s n s' _ (S1 & S2 & S3) Hs.
    destruct (insert_leg_ok nw now row s n s') as (T1 & T2 & T3); [done| |done|done|].
    - rewrite S2. simpl. by rewrite lookup_insert_eq.
    - split_and!; [done|congruence|by etrans]. }
  split; [done|]. split.
  - intros k l Hk. exists l. split; [by eapply lookup_weaken|by left].
  - intros id w Hw. exists w. rewrite K2. simpl. rewrite lookup_insert_ne by congruence. done.
Qed.

(** ** All histories of the withdrawals *)

Inductive wd_step (db : Db.t) : Db.t -> Prop :=
| wd_create nw now db' : create nw now db = Ok db' -> wd_step db db'
| wd_authorize account wid leg s now o db' :
    authorize account wid leg s now db = Ok (o, db') -> wd_step db db'
| wd_cancel account wid now o db' : cancel account wid now db = Ok (o, db') -> wd_step db db'
| wd_begin leg job chain now b db' : begin_step leg job chain now db = Ok (b, db') -> wd_step db db'
| wd_result job reported res policy utc now r db' :
    apply_step_result job reported res policy utc now db = Ok (r, db') -> wd_step db db'
| wd_reject job reason now b db' : reject_step job reason now db = Ok (b, db') -> wd_step db db'
| wd_fail_leg leg reason now b db' : fail_leg leg reason now db = Ok (b, db') -> wd_step db db'
| wd_expire margin now n db' : expire_stale margin now db = Ok (n, db') -> wd_step db db'
| wd_attest leg m a now b db' : record_attestation leg m a now db = Ok (b, db') -> wd_step db db'
| wd_defer leg next now b db' : defer_attestation leg next now db = Ok (b, db') -> wd_step db db'.

Definition no_withdrawals (db : Db.t) : Prop := Db.withdrawals db = ∅ /\ Db.withdrawal_legs db = ∅.

Lemma no_withdrawals_ok db : no_withdrawals db -> wd_ok db.
Proof.
  intros [Ew El]. split; rewrite ?Ew, ?El; intros *; rewrite ?lookup_empty; try done.
Qed.

Lemma wd_step_good db db' : wd_step db db' -> wd_ok db -> good_step db db'.
Proof.
  intros [] Hok; eauto using good_create, good_authorize, good_cancel, good_begin, good_result, good_reject,
    good_fail_leg, good_expire, good_attest, good_defer.
Qed.

Lemma wd_steps_ok db db' : rtc wd_step db db' -> wd_ok db -> wd_ok db'.
Proof. induction 1; [done|]. intros Hok. by apply IHrtc, (wd_step_good _ _ H Hok). Qed.

Lemma wd_runs_ok db0 db : no_withdrawals db0 -> rtc wd_step db0 db -> wd_ok db.
Proof. intros H0 Hr. by eapply wd_steps_ok, no_withdrawals_ok. Qed.
(** ** The constraints of the table hold of every row *)

Record rows_ok (db : Db.t) : Prop := {
  row_checked : forall k l, Db.withdrawal_legs db !! k = Some l -> leg_allowed l = true;
  row_job : forall k1 k2 l1 l2 j, Db.withdrawal_legs db !! k1 = Some l1 -> Db.withdrawal_legs db !! k2 = Some l2 ->
    Leg.step_job_id l1 = Some j -> Leg.step_job_id l2 = Some j -> k1 = k2;
}.

Lemma rows_same db db' : Db.withdrawal_legs db' = Db.withdrawal_legs db -> rows_ok db -> rows_ok db'.
Proof. intros E [H1 H2]. split; rewrite E; done. Qed.

Lemma rows_insert db db' id l :
  Db.withdrawal_legs db' = <[id := l]> (Db.withdrawal_legs db) -> leg_allowed l = true ->
  step_taken id (Leg.step_job_id l) (Db.withdrawal_legs db) = false -> rows_ok db -> rows_ok db'.
Proof.
  intros E Ha Hfree [H1 H2].
  assert (forall k x j, k <> id -> Db.withdrawal_legs db !! k = Some x -> Leg.step_job_id l = Some j ->
    Leg.step_job_id x = Some j -> False) as Hno.
  { intros k x j Hne Hk Hl Hx. unfold step_taken in Hfree. rewrite Hl in Hfree. simpl in Hfree.
    pose proof (existsb_false_forall _ _ Hfree (k, x)) as Hf. simpl in Hf.
    rewrite (proj2 (Z.eqb_neq _ _) Hne), bool_decide_eq_true_2 in Hf by done.
    discriminate Hf. by apply list_elem_of_In, elem_of_map_to_list. }
  split; rewrite E.
  - intros k x [[<- <-]|[_ Hk]]%lookup_insert_Some; [done|by eapply H1].
  - intros k1 k2 x1 x2 j [[<- <-]|[N1 K1]]%lookup_insert_Some [[<- <-]|[N2 K2]]%lookup_insert_Some J1 J2;
      [done|by destruct (Hno k2 x2 j)|by destruct (Hno k1 x1 j)|by eapply H2].
Qed.

Lemma rows_store id l db db' : store_leg id l db = Ok db' -> rows_ok db -> rows_ok db'.
Proof.
  unfold store_leg. intros H. destruct (leg_allowed l) eqn:Ha; [|discriminate]. simpl in H.
  destruct (step_taken id _ _) eqn:Ht; [discriminate|]. injection H as <-. by eapply rows_insert.
Qed.

Lemma rows_update p f db db' :
  update_legs p f db = Ok db' -> (forall l, Leg.step_job_id (f l) = Leg.step_job_id l) ->
  rows_ok db -> rows_ok db'.
Proof.
  unfold update_legs. intros H Hf [H1 H2]. destruct (forallb _ _) eqn:Ha; [|discriminate].
  injection H as <-. rewrite forallb_forall in Ha.
  assert (forall k l', update_where p f (Db.withdrawal_legs db) !! k = Some l' -> exists l,
    Db.withdrawal_legs db !! k = Some l /\ Leg.step_job_id l' = Leg.step_job_id l /\ leg_allowed l' = true) as Hb.
  { intros k l'. rewrite lookup_update_where. destruct (Db.withdrawal_legs db !! k) as [l|] eqn:Hk;
      [|discriminate]. simpl. intros [= <-]. exists l. split; [done|].
    destruct (p l) eqn:Hp; [|by eauto]. split; [done|].
    specialize (Ha (k, l) ltac:(by apply list_elem_of_In, elem_of_map_to_list)). simpl in Ha.
    by rewrite Hp in Ha. }
  split; simpl.
  - intros k l' (l & _ & _ & Hx)%Hb. done.
  - intros k1 k2 x1 x2 j (y1 & Y1 & E1 & _)%Hb (y2 & Y2 & E2 & _)%Hb J1 J2. apply (H2 k1 k2 y1 y2 j); congruence.
Qed.

Lemma rows_settle id now db : rows_ok db -> rows_ok (settle_in id now db).
Proof. apply rows_same, settle_in_legs. Qed.

Lemma rows_settle_all ids now db :
  rows_ok db -> rows_ok (foldl (fun s id => settle_in id now s) db ids).
Proof. revert db. induction ids as [|a ids IH]; intros db H; simpl; [done|]. by apply IH, rows_settle. Qed.

Lemma rows_fail k l reason now db r db' : fail k l reason now db = Ok (r, db') -> rows_ok db -> rows_ok db'.
Proof.
  unfold fail. intros H Hr. apply rbind_ok in H as (db1 & Hst%step_db_ok & [= <- <-]).
  by eapply rows_settle, rows_store.
Qed.

Lemma rows_advance k l step hash next now db r db' :
  advance k l step hash next now db = Ok (r, db') -> rows_ok db -> rows_ok db'.
Proof.
  unfold advance. intros H Hr. apply rbind_ok in H as (db1 & Hst%step_db_ok & [= <- <-]).
  by eapply rows_settle, rows_store.
Qed.

Lemma rows_retry k l policy reason now db r db' :
  retry_or_fail k l policy reason now db = Ok (r, db') -> rows_ok db -> rows_ok db'.
Proof.
  unfold retry_or_fail. destruct (_ <=? _); [apply rows_fail|]. destruct (_ <=? _); [discriminate|].
  intros H Hr. apply rbind_ok in H as (db1 & Hst%step_db_ok & [= <- <-]). by eapply rows_store.
Qed.

Lemma rows_result job reported res policy utc now db r db' :
  apply_step_result job reported res policy utc now db = Ok (r, db') -> rows_ok db -> rows_ok db'.
Proof.
  unfold Withdrawal.apply_step_result. intros H Hr. apply rbind_ok in H as ([k l] & _ & H).
  apply rbind_ok in H as (row & _ & H). apply rbind_ok in H as (expected & _ & H).
  destruct (negb _); [discriminate|]. simpl in H.
  destruct res as [h ? ?|o|h| |reason];
    [by eapply rows_advance| |by eapply rows_retry| |by eapply rows_retry].
  - destruct expected, o; try (by eapply rows_fail); by eapply rows_advance.
  - apply rbind_ok in H as (db1 & Hst%step_db_ok & [= <- <-]). by eapply rows_store.
Qed.

Lemma rows_insert_leg nw now db n db' : insert_leg nw now db n = Ok db' -> rows_ok db -> rows_ok db'.
Proof.
  unfold insert_leg. intros H. repeat (destruct (negb _); [discriminate|]).
  repeat (match type of H with (if ?b then Err _ else _) = _ => destruct b; [discriminate|] end).
  injection H as <-. by eapply rows_insert.
Qed.

Lemma rows_create nw now db db' : create nw now db = Ok db' -> rows_ok db -> rows_ok db'.
Proof.
  unfold create. intros H Hr. destruct (negb _); [discriminate|]. destruct (is_some _); [discriminate|].
  destruct (find_by_idempotency_key _ _ _); [discriminate|]. destruct (find_open _ _); [discriminate|].
  destruct (negb _); [discriminate|].
  refine (try_fold_ind (insert_leg nw now) rows_ok _ _ _ _ _ H); [|by apply (rows_same db)].
  intros s n s' _ Hs Hi. by eapply rows_insert_leg.
Qed.

Lemma wd_step_rows db db' : wd_step db db' -> rows_ok db -> rows_ok db'.
Proof.
  intros [] Hr.
  - by eapply rows_create.
  - unfold authorize in *. repeat case_match; inv_ok; try done. by eapply rows_store.
  - unfold cancel in *. repeat case_match; inv_ok; try done. eapply (rows_same x); [done|]. by eapply rows_update.
  - unfold begin_step in *. repeat case_match; inv_ok; try done; by eapply rows_store.
  - by eapply rows_result.
  - unfold reject_step in *. repeat case_match; inv_ok; try done. match goal with x : (StepApplied * Db.t)%type |- _ => destruct x end.
    inv_ok. by eapply rows_fail.
  - unfold fail_leg in *. repeat case_match; inv_ok; try done. by eapply rows_settle, rows_store.
  - unfold expire_stale in *. inv_ok. by eapply rows_settle_all, rows_update.
  - unfold record_attestation in *. repeat case_match; inv_ok; try done. by eapply rows_store.
  - unfold defer_attestation in *. repeat case_match; inv_ok; try done. by eapply rows_store.
Qed.

Lemma wd_runs_rows db0 db : no_withdrawals db0 -> rtc wd_step db0 db -> rows_ok db.
Proof.
  intros [_ El] Hr. assert (rows_ok db0) as H0.
  { split; rewrite El; intros *; rewrite ?lookup_empty; try done. }
  clear El. induction Hr; eauto using wd_step_rows.
Qed.
(** ** The properties *)

(** C19. A withdrawal ends at most one way, and its ending says exactly
    what its legs did: completed when every leg completed; failed when every leg
    is terminal and one did not complete; cancelled when no leg was ever sent.
    While it is open (and has legs) one of them is still to be driven. *)
Theorem withdrawal_ending_reflects_legs db0 db id w :
  no_withdrawals db0 -> rtc wd_step db0 db -> Db.withdrawals db !! id = Some w ->
  let legs_are (P : LegState -> Prop) := forall k l,
    Db.withdrawal_legs db !! k = Some l -> Leg.withdrawal_id l = id -> P (Leg.state l) in
  let has_leg (P : LegState -> Prop) := exists k l,
    Db.withdrawal_legs db !! k = Some l /\ Leg.withdrawal_id l = id /\ P (Leg.state l) in
  match DbWithdrawal.completed_at w, DbWithdrawal.failed_at w, DbWithdrawal.cancelled_at w with
  | Some _, None, None => legs_are (eq Completed)
  | None, Some _, None => legs_are (fun s => is_terminal s = true) /\ has_leg (fun s => s <> Completed)
  | None, None, Some _ => legs_are (fun s => s = Cancelled \/ s = LegExpired)
  | None, None, None => ~ has_leg (fun _ => True) \/ has_leg (fun s => is_terminal s = false)
  | _, _, _ => False
  end.
Proof.
  intros H0 Hr Hw. pose proof (wd_runs_ok _ _ H0 Hr) as Hok. pose proof (wd_ending _ _ Hok id w Hw) as He.
  pose proof (wd_open _ _ Hok id w Hw) as Ho. unfold ending_ok, is_open, undecided in *. cbv zeta.
  destruct (DbWithdrawal.completed_at w), (DbWithdrawal.failed_at w), (DbWithdrawal.cancelled_at w); try done.
  - intros k l Hk Hid. symmetry. by eapply He.
  - destruct (Ho eq_refl) as [Hno|Hlive]; [by intros []| |by right].
    left. intros (k & l & Hk & Hid & _). by apply (Hno k l).
Qed.

(** An account never has two withdrawals in progress: no two open
    withdrawals ever snapshot the same balance. *)
Theorem one_withdrawal_in_progress db0 db id1 id2 w1 w2 :
  no_withdrawals db0 -> rtc wd_step db0 db ->
  Db.withdrawals db !! id1 = Some w1 -> Db.withdrawals db !! id2 = Some w2 ->
  is_open w1 = true -> is_open w2 = true ->
  DbWithdrawal.account_id w1 = DbWithdrawal.account_id w2 -> id1 = id2.
Proof. intros H0 Hr. apply (wd_alone _ _ (wd_runs_ok _ _ H0 Hr)). Qed.

(** C20. Every write leaves each leg where it was or moves it along one
    edge of its state machine, with its signed terms and its signature as they
    were; terminal states have no edges, only a bridge leg burns and mints, a
    leg runs a step exactly while it is relaying or minting, and a withdrawal
    that has ended is never written again. *)
Theorem legs_follow_state_machine db0 db db' :
  no_withdrawals db0 -> rtc wd_step db0 db -> wd_step db db' ->
  (forall k l, Db.withdrawal_legs db !! k = Some l ->
     exists l', Db.withdrawal_legs db' !! k = Some l' /\ Leg.terms l' = Leg.terms l /\
       (Leg.state l' = Leg.state l \/ leg_edge (Leg.kind l) (Leg.state l) (Leg.state l') = true) /\
       (is_some (Leg.signature l) = true -> Leg.signature l' = Leg.signature l) /\
       is_some (Leg.step_job_id l') = in_flight (Leg.state l')) /\
  (forall id w, Db.withdrawals db !! id = Some w -> is_open w = false -> Db.withdrawals db' !! id = Some w).
Proof.
  intros H0 Hr Hs. pose proof (wd_runs_ok _ _ H0 Hr) as Hok.
  destruct (wd_step_good _ _ Hs Hok) as [Hok' [Hl Hw]]. split.
  - intros k l Hk. destruct (Hl k l Hk) as (l' & Hk' & Hst). exists l'.
    pose proof (lk_step _ (proj1 (wd_leg _ _ Hok' k l' Hk'))) as Hj.
    destruct Hst as [->|(Et & Hs' & Hg)]; [by auto|]. split_and!; [done|done| |done|done].
    destruct Hs' as [[E _]|E]; auto.
  - intros id w Hid Hc. destruct (Hw id w Hid) as (w' & Hw' & _ & E). rewrite Hw', (E Hc). done.
Qed.

Lemma closed_stays db db' id w :
  rtc wd_step db db' -> wd_ok db -> Db.withdrawals db !! id = Some w -> is_open w = false ->
  Db.withdrawals db' !! id = Some w.
Proof.
  induction 1 as [|a b c Hs _ IH]; intros Hok Hid Hc; [done|].
  destruct (wd_step_good _ _ Hs Hok) as [Hok' [_ Hw]]. destruct (Hw id w Hid) as (w' & Hw' & _ & E).
  rewrite (E Hc) in Hw'. by apply IH.
Qed.

(** A cancellation that succeeds recalls everything: before it no
    leg had been sent, and in every later state each leg of the withdrawal is
    cancelled or expired, runs no step, and can begin none. *)
Theorem cancel_recalls_every_leg db0 db account id now db' db'' :
  no_withdrawals db0 -> rtc wd_step db0 db -> cancel account id now db = Ok (OutCancelled, db') ->
  rtc wd_step db' db'' ->
  (forall k l, Db.withdrawal_legs db !! k = Some l -> Leg.withdrawal_id l = id ->
     cancellable (Leg.state l) = true) /\
  (forall k l, Db.withdrawal_legs db'' !! k = Some l -> Leg.withdrawal_id l = id ->
     (Leg.state l = Cancelled \/ Leg.state l = LegExpired) /\ Leg.step_job_id l = None /\
     forall job chain t, begin_step k job chain t db'' = Ok (false, db'')).
Proof.
  intros H0 Hr H Hr'. pose proof (wd_runs_ok _ _ H0 Hr) as Hok.
  pose proof (good_cancel _ _ _ _ _ _ Hok H) as [Hok' _]. pose proof (wd_steps_ok _ _ Hr' Hok') as Hok''.
  unfold cancel in H. destruct (Db.withdrawals db !! id) as [w|] eqn:Hw; [|discriminate].
  destruct (negb (_ =? account)); [discriminate|].
  destruct (is_some (DbWithdrawal.cancelled_at w)); [discriminate|].
  destruct (is_some (DbWithdrawal.completed_at w) || _) eqn:Hcf; [discriminate|]. bools.
  destruct (all_legs cancellable id _) eqn:Hall; [|discriminate]. simpl in H.
  apply rbind_ok in H as (db1 & Hup & [= <-]). rewrite all_legs_spec in Hall. split; [done|].
  pose proof (closed_stays _ _ id {| w with DbWithdrawal.cancelled_at := Some now |} Hr' Hok') as Hstay.
  simpl in Hstay. rewrite lookup_insert_eq in Hstay. specialize (Hstay eq_refl).
  assert (is_open {| w with DbWithdrawal.cancelled_at := Some now |} = false) as Hc
    by (unfold is_open; simpl; by rewrite andb_false_r).
  specialize (Hstay Hc). pose proof (wd_ending _ _ Hok'' _ _ Hstay) as He.
  intros k l Hk Hid. destruct (wd_leg _ _ Hok'' k l Hk) as [Hlk _].
  assert (Leg.state l = Cancelled \/ Leg.state l = LegExpired) as Hst.
  { unfold ending_ok in He. simpl in He.
    destruct (DbWithdrawal.completed_at w), (DbWithdrawal.failed_at w); try done. by eapply He. }
  split_and!; [done| |].
  - pose proof (lk_step _ Hlk) as Hj. destruct (Leg.step_job_id l); [|done].
    by destruct Hst as [E|E]; rewrite E in Hj.
  - intros job chain t. unfold begin_step. by rewrite Hk, Hid, Hstay.
Qed.
Lemma settled_leg db1 id now k l :
  Db.withdrawal_legs db1 !! k = Some l -> Db.withdrawal_legs (settle_in id now db1) !! k = Some l.
Proof. by rewrite settle_in_legs. Qed.

(** What a step's result leaves of the leg that ran it. *)
Lemma result_clears_step job reported res policy utc now db r db' :
  apply_step_result job reported res policy utc now db = Ok (r, db') ->
  exists k l l', leg_of_job job db = Some (k, l) /\ Db.withdrawal_legs db' = <[k := l']> (Db.withdrawal_legs db) /\
    Leg.step_job_id l' = None.
Proof.
  unfold Withdrawal.apply_step_result. intros H. apply rbind_ok in H as ([k l] & Hf%ok_or_ok & H). simpl in H.
  apply rbind_ok in H as (row & ->%step_db_ok%try_from_same & H).
  apply rbind_ok in H as (expected & _ & H). destruct (negb _); [discriminate|]. exists k, l.
  assert (forall reason r db', fail k l reason now db = Ok (r, db') -> exists l',
    leg_of_job job db = Some (k, l) /\ Db.withdrawal_legs db' = <[k := l']> (Db.withdrawal_legs db) /\
    Leg.step_job_id l' = None) as Cfail.
  { intros reason r0 d H1. unfold fail in H1. apply rbind_ok in H1 as (d1 & Hst%step_db_ok & [= <- <-]).
    apply store_leg_parts in Hst as (_ & El & _). rewrite settle_in_legs, El. by eexists. }
  assert (forall hash next r db', advance k l expected hash next now db = Ok (r, db') -> exists l',
    leg_of_job job db = Some (k, l) /\ Db.withdrawal_legs db' = <[k := l']> (Db.withdrawal_legs db) /\
    Leg.step_job_id l' = None) as Cadv.
  { intros hash next r0 d H1. unfold advance in H1. apply rbind_ok in H1 as (d1 & Hst%step_db_ok & [= <- <-]).
    apply store_leg_parts in Hst as (_ & El & _). rewrite settle_in_legs, El. by eexists. }
  assert (forall reason r db', retry_or_fail k l policy reason now db = Ok (r, db') -> exists l',
    leg_of_job job db = Some (k, l) /\ Db.withdrawal_legs db' = <[k := l']> (Db.withdrawal_legs db) /\
    Leg.step_job_id l' = None) as Cretry.
  { intros reason r0 d. unfold retry_or_fail. destruct (_ <=? _); [apply Cfail|].
    destruct (_ <=? _); [discriminate|]. intros H1. apply rbind_ok in H1 as (d1 & Hst%step_db_ok & [= <- <-]).
    apply store_leg_parts in Hst as (_ & El & _). rewrite El. by eexists. }
  destruct res as [h ? ?|o|h| |reason]; [by eapply Cadv| |by eapply Cretry| |by eapply Cretry].
  - destruct expected, o; try (by eapply Cfail); by eapply Cadv.
  - apply rbind_ok in H as (d1 & Hst%step_db_ok & [= <- <-]).
    apply store_leg_parts in Hst as (_ & El & _). rewrite El. by eexists.
Qed.

(** The result of a step is applied once: afterwards no leg runs
    the job, so a redelivered result is refused with [StepNotOpen] and a
    rejection of the same job changes nothing. *)
Theorem step_result_applied_once db0 db job reported res policy utc now r db' :
  no_withdrawals db0 -> rtc wd_step db0 db ->
  apply_step_result job reported res policy utc now db = Ok (r, db') ->
  (forall k l, Db.withdrawal_legs db' !! k = Some l -> Leg.step_job_id l <> Some job) /\
  (forall reported2 res2 policy2 utc2 now2,
     apply_step_result job reported2 res2 policy2 utc2 now2 db' = Err (StepNotOpen job)) /\
  (forall reason now2, reject_step job reason now2 db' = Ok (false, db')).
Proof.
  intros H0 Hr H. pose proof (wd_runs_ok _ _ H0 Hr) as Hok. pose proof (wd_runs_rows _ _ H0 Hr) as Hrows.
  pose proof (good_result _ _ _ _ _ _ _ _ _ Hok H) as [Hok' _].
  destruct (result_clears_step _ _ _ _ _ _ _ _ _ H) as (k & l & l' & Hf & El & Hn).
  apply leg_of_job_some in Hf as [Hk Hj].
  assert (forall k l, Db.withdrawal_legs db' !! k = Some l -> Leg.step_job_id l <> Some job) as Hfree.
  { intros k2 l2. rewrite El. intros [[<- <-]|[Hne Hk2]]%lookup_insert_Some; [congruence|].
    intros Hj2. apply Hne. by eapply (row_job _ Hrows k k2 l l2 job). }
  pose proof (proj2 (leg_of_job_none job db' Hok') Hfree) as Hnone.
  split_and!; [done| |]; intros *.
  - unfold Withdrawal.apply_step_result. by rewrite Hnone.
  - unfold reject_step. by rewrite Hnone.
Qed.

(** A reverted step is retried a bounded number of times behind a
    doubling backoff: with [n] consecutive reverts before it, the leg either
    returns to its queue with [n + 1] of them, below the policy's bound, and
    cannot be relayed before the backoff is over; or the bound is reached and
    the leg fails for good with the reason. *)
Theorem reverts_are_bounded db0 db job reported tx policy utc now r db' k l :
  no_withdrawals db0 -> rtc wd_step db0 db -> leg_of_job job db = Some (k, l) ->
  apply_step_result job reported (StepReverted tx) policy utc now db = Ok (r, db') ->
  exists l', Db.withdrawal_legs db' !! k = Some l' /\
    let n := reverts_of l in
    let retry_at := now + StepPolicy.revert_backoff_secs policy * 2 ^ Z.min n 6 * 10 ^ 6 in
    (n + 1 < StepPolicy.max_reverts policy /\ r = Retried k (n + 1) /\
     Leg.state l' = queue_state (Leg.state l) /\ Leg.step_job_id l' = None /\ Leg.step_reverts l' = n + 1 /\
     forall chain validity t, t < retry_at -> is_relayable chain validity t db' l' = false) \/
    (StepPolicy.max_reverts policy <= n + 1 /\ r = StepFailed k /\
     Leg.state l' = LegFailed /\ Leg.failure_reason l' = Some (revert_reason reported)).
Proof.
  intros H0 Hr Hf H. unfold Withdrawal.apply_step_result in H. rewrite Hf in H. simpl in H.
  apply rbind_ok in H as (row & ->%step_db_ok%try_from_same & H).
  apply rbind_ok in H as (expected & _ & H). case_bool_decide as He; [|discriminate]. simpl in H. subst reported.
  unfold retry_or_fail in H. destruct (Z.leb_spec (StepPolicy.max_reverts policy) (reverts_of l + 1)) as [Hle|Hlt].
  - unfold fail in H. apply rbind_ok in H as (d1 & Hst%step_db_ok & [= <- <-]).
    apply store_leg_parts in Hst as (_ & El & _). exists (failed_leg (revert_reason expected) now l).
    rewrite settle_in_legs, El, lookup_insert_eq. split; [done|]. right. done.
  - destruct (_ <=? _); [discriminate|]. apply rbind_ok in H as (d1 & Hst%step_db_ok & [= <- <-]).
    apply store_leg_parts in Hst as (_ & El & _). eexists. rewrite El, lookup_insert_eq. split; [done|]. left.
    split_and!; try done; try lia. intros chain validity t Ht. unfold is_relayable. simpl.
    replace (reverts_of l + 1 - 1) with (reverts_of l) by lia.
    apply Z.leb_gt in Ht. rewrite Ht, andb_false_r. done.
Qed.

(** The orchestrator can act on every leg the ledger offers it: a
    leg listed as relayable starts its step under any unused job id, and from
    then on is running exactly that job on that chain. *)
Theorem relayable_legs_can_start db0 db chain validity limit now k l job step_chain now2 :
  no_withdrawals db0 -> rtc wd_step db0 db -> (k, l) ∈ relayable chain validity limit now db ->
  (forall k2 l2, Db.withdrawal_legs db !! k2 = Some l2 -> Leg.step_job_id l2 <> Some job) ->
  exists db' l', begin_step k job step_chain now2 db = Ok (true, db') /\
    Db.withdrawal_legs db' !! k = Some l' /\ Leg.step_job_id l' = Some job /\
    in_flight (Leg.state l') = true /\ step_kind l' = step_kind l /\ leg_of_job job db' = Some (k, l').
Proof.
  intros H0 Hr Hin Hfree. pose proof (wd_runs_ok _ _ H0 Hr) as Hok. pose proof (wd_runs_rows _ _ H0 Hr) as Hrows.
  unfold relayable in Hin. apply elem_of_take in Hin as (i & Hi & _). apply list_elem_of_lookup_2 in Hi.
  rewrite sorting.merge_sort_Permutation in Hi. apply list_elem_of_In, filter_In in Hi as [Hi Hrel].
  apply list_elem_of_In, elem_of_map_to_list in Hi. simpl in Hrel. unfold is_relayable in Hrel.
  destruct (Db.withdrawals db !! Leg.withdrawal_id l) as [w|] eqn:Hw; [|done]. bools.
  pose proof (row_checked _ Hrows k l Hi) as Hal.
  set (l' := {| l with Leg.state := match Leg.state l with Authorized => Relaying | _ => Minting end;
    Leg.step_job_id := Some job; Leg.step_chain_id := Some (as_i64 step_chain); Leg.updated_at := now2 |}).
  assert (store_leg k l' db = Ok {| db with Db.withdrawal_legs := <[k := l']> (Db.withdrawal_legs db) |}) as Hst.
  { unfold store_leg. assert (leg_allowed l' = true) as ->.
    { unfold leg_allowed in *. simpl in *. bools. destruct (Leg.state l); try discriminate; simpl in *;
        destruct (is_some (Leg.failure_reason l)), (is_some (Leg.authorized_at l)),
          (is_some (Leg.signature l)); try discriminate;
        repeat match goal with H : _ = true |- _ => rewrite H end; done. }
    destruct (step_taken _ _ _) eqn:Ex; [|done]. exfalso. unfold step_taken in Ex. simpl in Ex.
    apply existsb_exists in Ex as ([k2 l2] & Hin2 & Hp). simpl in Hp. bools.
    apply list_elem_of_In, elem_of_map_to_list in Hin2. by destruct (Hfree k2 l2 Hin2). }
  assert (begin_step k job step_chain now2 db =
    Ok (true, {| db with Db.withdrawal_legs := <[k := l']> (Db.withdrawal_legs db) |})) as Hb.
  { unfold begin_step. rewrite Hi, Hw. repeat match goal with H : is_some _ = false |- _ => rewrite H end.
    subst l'. destruct (Leg.state l); try discriminate; simpl; by rewrite Hst. }
  pose proof (good_begin _ _ _ _ _ _ _ Hok Hb) as [Hok' _].
  eexists _, l'. split; [exact Hb|]. cbn [Db.withdrawal_legs]. rewrite lookup_insert_eq.
  split_and!; [done|done| | |].
  - unfold l'. simpl. by destruct (Leg.state l).
  - unfold l', step_kind, Leg.kind. simpl. by destruct (Leg.state l).
  - destruct (leg_of_job job _) as [[k2 l2]|] eqn:Hf.
    + apply leg_of_job_some in Hf as [Hk2 Hj2]. simpl in Hk2.
      apply lookup_insert_Some in Hk2 as [[<- <-]|[_ Hk2]]; [done|]. by destruct (Hfree k2 l2).
    + exfalso. apply (proj1 (leg_of_job_none job _ Hok') Hf k l'); [|done]. simpl. by rewrite lookup_insert_eq.
Qed.

End WithdrawalRuns.

(** ** A withdrawal, evaluated *)

Module WithdrawalExample.

Definition describe (_ : AbandonReason) : string := "abandoned".
Definition wallet : string := "0x1111111111111111111111111111111111111111".
Definition hash32 (b : Z) : B256 := replicate 32 b.

Definition transfer_leg : NewLeg.t :=
  NewLeg.mk 11 0 LegTransfer 8453 1000000 wallet "USDC" "2" wallet (hash32 1) None 4000000000.
Definition bridge_leg : NewLeg.t :=
  NewLeg.mk 12 1 LegBridge 143 5000000 wallet "USDC" "2" wallet (hash32 2) (Some (hash32 85)) 4000000000.
Definition request : NewWithdrawal.t :=
  NewWithdrawal.mk 1 7 "payout-1" wallet "USDC" 8453 wallet [transfer_leg; bridge_leg].

Definition start : Db.t := {| Db.empty with Db.accounts := {[ 7 := None ]} |}.
Definition state_of {E A} (r : result E (A * Db.t)) : Db.t :=
  match r with Ok (_, db) => db | Err _ => start end.

Definition created : Db.t :=
  Eval vm_compute in match create request 100 start with Ok db => db | Err _ => start end.
Definition signed : Db.t := Eval vm_compute in state_of (authorize 7 1 11 (replicate 65 3) 200 created).
Definition relaying : Db.t := Eval vm_compute in state_of (begin_step 11 90 8453 300 signed).
Definition reverted : Db.t := Eval vm_compute in
  state_of (apply_step_result describe 90 Transfer (StepReverted (hash32 9)) StepPolicy.default 400 400 relaying).
Definition cancelled : Db.t := Eval vm_compute in state_of (cancel 7 1 500 signed).

Definition leg_in (k : Uuid) (db : Db.t) : Leg.t := default (new_leg request 0 transfer_leg) (Db.withdrawal_legs db !! k).
Definition withdrawal_in (db : Db.t) : DbWithdrawal.t :=
  default (DbWithdrawal.mk 0 "" "" "" 0 "" 0 None None None) (Db.withdrawals db !! 1).

Lemma fresh_withdrawals : no_withdrawals start.
Proof. by split. Qed.

Lemma step_created : wd_step describe start created.
Proof. apply (wd_create _ _ request 100). vm_compute. reflexivity. Qed.
Lemma step_signed : wd_step describe created signed.
Proof. eapply (wd_authorize _ _ 7 1 11 (replicate 65 3) 200). vm_compute. reflexivity. Qed.
Lemma step_relaying : wd_step describe signed relaying.
Proof. eapply (wd_begin _ _ 11 90 8453 300). vm_compute. reflexivity. Qed.

Lemma run_signed : rtc (wd_step describe) start signed.
Proof. eapply rtc_l; [exact step_created|]. apply rtc_once, step_signed. Qed.
Lemma run_relaying : rtc (wd_step describe) start relaying.
Proof. eapply rtc_r; [exact run_signed|exact step_relaying]. Qed.

Lemma withdrawal_ending_reflects_legs_witness :
  ~ (exists k l, Db.withdrawal_legs relaying !! k = Some l /\ Leg.withdrawal_id l = 1 /\ True) \/
  (exists k l, Db.withdrawal_legs relaying !! k = Some l /\ Leg.withdrawal_id l = 1 /\
     is_terminal (Leg.state l) = false).
Proof.
  exact (withdrawal_ending_reflects_legs describe start relaying 1 (withdrawal_in relaying) fresh_withdrawals
    run_relaying ltac:(vm_compute; reflexivity)).
Defined.

Lemma one_withdrawal_in_progress_witness :
  is_open (withdrawal_in signed) = true /\
  (forall id w, Db.withdrawals signed !! id = Some w -> is_open w = true ->
     7 = DbWithdrawal.account_id w -> 1 = id).
Proof.
  split; [vm_compute; reflexivity|]. intros id w Hw Ho Ha.
  exact (one_withdrawal_in_progress describe start signed 1 id (withdrawal_in signed) w fresh_withdrawals
    run_signed ltac:(vm_compute; reflexivity) Hw ltac:(vm_compute; reflexivity) Ho Ha).
Defined.

Lemma legs_follow_state_machine_witness :
  exists l', Db.withdrawal_legs relaying !! 11 = Some l' /\ Leg.terms l' = Leg.terms (leg_in 11 signed).
Proof.
  destruct (legs_follow_state_machine describe start signed relaying fresh_withdrawals run_signed step_relaying)
    as [H _].
  destruct (H 11 (leg_in 11 signed)) as (l' & H1 & H2 & _); [vm_compute; reflexivity|].
  exists l'. exact (conj H1 H2).
Defined.

Lemma cancel_recalls_every_leg_witness :
  begin_step 11 92 8453 600 cancelled = Ok (false, cancelled).
Proof.
  destruct (cancel_recalls_every_leg describe start signed 7 1 500 cancelled cancelled fresh_withdrawals run_signed
    ltac:(vm_compute; reflexivity) (rtc_refl _ _)) as [_ H].
  apply (H 11 (leg_in 11 cancelled)); vm_compute; reflexivity.
Defined.

Lemma step_result_applied_once_witness :
  apply_step_result describe 90 Transfer (Succeeded (hash32 9) 1 (hash32 8)) StepPolicy.default 500 500 reverted
  = Err (StepNotOpen 90).
Proof.
  apply (step_result_applied_once describe start relaying 90 Transfer (StepReverted (hash32 9))
    StepPolicy.default 400 400 (Retried 11 1) reverted fresh_withdrawals run_relaying).
  vm_compute. reflexivity.
Defined.

Lemma reverts_are_bounded_witness :
  exists l', Db.withdrawal_legs reverted !! 11 = Some l'.
Proof.
  destruct (reverts_are_bounded describe start relaying 90 Transfer (hash32 9) StepPolicy.default 400 400
    (Retried 11 1) reverted 11 (leg_in 11 relaying) fresh_withdrawals run_relaying) as (l' & H & _);
    [vm_compute; reflexivity|vm_compute; reflexivity|]. exists l'. exact H.
Defined.

Lemma relayable_legs_can_start_witness :
  exists db' l', begin_step 11 91 8453 300 signed = Ok (true, db') /\ leg_of_job 91 db' = Some (11, l').
Proof.
  destruct (relayable_legs_can_start describe start signed 8453 60000000 10 250 11 (leg_in 11 signed) 91 8453 300
    fresh_withdrawals run_signed) as (db' & l' & H1 & _ & _ & _ & _ & H2).
  - vm_compute. left.
  - intros k l Hk. vm_compute in Hk.
    assert (Db.withdrawal_legs signed = {[11 := leg_in 11 signed; 12 := leg_in 12 signed]}) as E
      by (vm_compute; reflexivity).
    change (Db.withdrawal_legs signed !! k = Some l) in Hk. rewrite E in Hk.
    apply lookup_insert_Some in Hk as [[_ <-]|[_ Hk]]; [vm_compute; discriminate|].
    apply lookup_singleton_Some in Hk as [_ <-]. vm_compute. discriminate.
  - exists db', l'. exact (conj H1 H2).
Defined.

End WithdrawalExample.
