(* ===== verification/ChainFaults.v ===== *)
(** * gum-ledger: chains the system has stopped trusting

    Models [crates/gum-ledger/src/chain_faults.rs]: a fault raised by the
    indexer halts a chain, an operator clears it, and each publishes its
    [ChainControl] notice in the same transaction. *)

From S2P Require Import Prelude Core Contracts Bus Tables Attachments Invoices Range Sweeps.
From S2P Require Import LedgerExample.

Implicit Types (id : Uuid) (db : Db.t) (now : Timestamp).

Inductive ChainFaultError := FaultDatabase (e : DbError) | FaultBus (e : BusError).

Inductive RaiseOutcome := Raised (id : Uuid) | AlreadyOpen (id : Uuid).

(** [SELECT id FROM chain_faults WHERE chain_id = .. AND cleared_at IS NULL]. *)
Definition open_fault (chain : Z) (db : Db.t) : option (Uuid * ChainFault.t) :=
  List.find (fun kv => ChainFault.is_open_on chain (snd kv)) (map_to_list (Db.chain_faults db)).

Section Faults.
Context (payload_hash : Message -> B256).

Definition raise (chain_id : Z) (reason : string) (block : option Z) (correlation_id : Uuid)
    (producer : string) (fault_id message_id : Uuid) (now : Timestamp) (db : Db.t)
  : result ChainFaultError (RaiseOutcome * Db.t) :=
  match open_fault (as_i64 chain_id) db with
  | Some (id, _) => Ok (AlreadyOpen id, db)
  | None =>
      if is_some (Db.chain_faults db !! fault_id)
      then Err (FaultDatabase (Constraint "chain_faults_pkey"))
      else
        let fault := ChainFault.mk (as_i64 chain_id) reason (as_i64 <$> block) now None in
        let db1 := {| db with Db.chain_faults := <[fault_id := fault]> (Db.chain_faults db) |} in
        match publish payload_hash producer (Halted fault_id chain_id reason) correlation_id None message_id
                now (Db.bus db1) with
        | Err e => Err (FaultBus e)
        | Ok (_, bus) => Ok (Raised fault_id, {| db1 with Db.bus := bus |})
        end
  end.

Definition clear_row (now : Timestamp) (f : ChainFault.t) : ChainFault.t :=
  {| f with ChainFault.cleared_at := Some now |}.

Definition clear (chain_id : Z) (correlation_id : Uuid) (producer : string) (message_id : Uuid)
    (now : Timestamp) (db : Db.t) : result ChainFaultError (option Uuid * Db.t) :=
  let chain := as_i64 chain_id in
  match open_fault chain db with
  | None => Ok (None, db)
  | Some (fault_id, _) =>
      let db1 := {| db with Db.chain_faults :=
        update_where (ChainFault.is_open_on chain) (clear_row now) (Db.chain_faults db) |} in
      match publish payload_hash producer (Resumed fault_id chain_id) correlation_id None message_id now
              (Db.bus db1) with
      | Err e => Err (FaultBus e)
      | Ok (_, bus) => Ok (Some fault_id, {| db1 with Db.bus := bus |})
      end
  end.

(** ** Properties *)

Lemma open_fault_halted chain db : halted chain db = is_some (open_fault chain db).
Proof.
  unfold halted, open_fault. induction (map_to_list (Db.chain_faults db)) as [|x xs IH]; simpl; [done|].
  by destruct (ChainFault.is_open_on chain (snd x)).
Qed.

Lemma open_fault_some chain db id f :
  open_fault chain db = Some (id, f) ->
  Db.chain_faults db !! id = Some f /\ ChainFault.is_open_on chain f = true.
Proof.
  unfold open_fault. intros [Hin Hp]%find_some. split; [|done].
  by apply elem_of_map_to_list, list_elem_of_In.
Qed.

Lemma open_fault_none chain db :
  open_fault chain db = None <->
  forall id f, Db.chain_faults db !! id = Some f -> ChainFault.is_open_on chain f = false.
Proof.
  unfold open_fault. split.
  - intros Hn id f Hf. apply (find_none _ _ Hn (id, f)). by apply list_elem_of_In, elem_of_map_to_list.
  - intros Hno. destruct (List.find _ _) as [[id f]|] eqn:E; [|done].
    apply find_some in E as [Hin Hp]. apply list_elem_of_In, elem_of_map_to_list in Hin.
    specialize (Hno id f Hin). simpl in Hp. congruence.
Qed.

(** No chain has two open faults: the partial unique index. *)
Definition faults_ok (db : Db.t) : Prop :=
  forall id1 id2 f1 f2, Db.chain_faults db !! id1 = Some f1 -> Db.chain_faults db !! id2 = Some f2 ->
    ChainFault.cleared_at f1 = None -> ChainFault.cleared_at f2 = None ->
    ChainFault.chain_id f1 = ChainFault.chain_id f2 -> id1 = id2.

Inductive fault_step (db : Db.t) : Db.t -> Prop :=
| fault_raise chain reason block corr producer fault msg now o db' :
    raise chain reason block corr producer fault msg now db = Ok (o, db') -> fault_step db db'
| fault_clear chain corr producer msg now o db' :
    clear chain corr producer msg now db = Ok (o, db') -> fault_step db db'.

Lemma open_on_iff chain f :
  ChainFault.is_open_on chain f = true <-> ChainFault.chain_id f = chain /\ ChainFault.cleared_at f = None.
Proof.
  unfold ChainFault.is_open_on. rewrite andb_true_iff, Z.eqb_eq, negb_true_iff.
  destruct (ChainFault.cleared_at f); simpl; naive_solver.
Qed.

Lemma fault_step_ok db db' : fault_step db db' -> faults_ok db -> faults_ok db'.
Proof.
  intros [chain reason block corr producer fault msg now o db1 H|chain corr producer msg now o db1 H] Hok.
  - unfold raise in H. destruct (open_fault (as_i64 chain) db) as [[id f]|] eqn:Ho; [by injection H as <- <-|].
    destruct (is_some _); [discriminate|]. destruct (publish _ _ _ _ _ _ _ _) as [[? ?]|]; [|discriminate].
    injection H as <- <-. rewrite open_fault_none in Ho.
    assert (forall id f, Db.chain_faults db !! id = Some f -> ChainFault.cleared_at f = None ->
      ChainFault.chain_id f <> as_i64 chain) as Hno.
    { intros id f Hf Hc He. specialize (Ho id f Hf). apply not_true_iff_false in Ho. rewrite open_on_iff in Ho. auto. }
    intros i1 i2 f1 f2. cbn [Db.chain_faults].
    intros [[<- <-]|[_ H1]]%lookup_insert_Some [[<- <-]|[_ H2]]%lookup_insert_Some C1 C2 E;
      simpl in *; [done| | |by eapply Hok]; exfalso; [by apply (Hno i2 f2)|by apply (Hno i1 f1)].
  - unfold clear in H. destruct (open_fault (as_i64 chain) db) as [[id f]|]; [|by injection H as <- <-].
    destruct (publish _ _ _ _ _ _ _ _) as [[? ?]|]; [|discriminate]. injection H as <- <-.
    assert (forall id f', update_where (ChainFault.is_open_on (as_i64 chain)) (clear_row now) (Db.chain_faults db)
      !! id = Some f' -> ChainFault.cleared_at f' = None -> Db.chain_faults db !! id = Some f') as Hback.
    { intros i f'. rewrite lookup_update_where. destruct (Db.chain_faults db !! i) as [g|]; [|discriminate].
      simpl. intros [= <-]. by destruct (ChainFault.is_open_on _ g). }
    intros i1 i2 f1 f2 H1 H2 C1 C2. apply Hok; eauto.
Qed.

Lemma fault_steps_ok db db' : rtc fault_step db db' -> faults_ok db -> faults_ok db'.
Proof. induction 1; eauto using fault_step_ok. Qed.

(** A committed publication is on the bus under its key. *)
Lemma published_key `{BusMessage M} producer (m : M) corr cause id now bus o bus' :
  publish payload_hash producer m corr cause id now bus = Ok (o, bus') ->
  find_message TOPIC (dedup_key m) (Bus.messages bus') <> None.
Proof.
  intros H0 Hn. destruct (publish_published _ _ _ _ _ _ _ _ _ _ H0)
    as [(k & e & _ & -> & Hk & Ht & Hkey)|(_ & _ & _ & Hm & _)].
  - by apply (find_message_none _ _ _ Hn k e).
  - apply (find_message_none _ _ _ Hn id (RawMessage.mk id TOPIC (msg_kind m) SCHEMA_VERSION
      (to_message m) (payload_hash (to_message m)) producer (dedup_key m) corr cause now)); [|done|done].
    by rewrite Hm, lookup_insert_eq.
Qed.

Definition announced (c : ChainControl) (db : Db.t) : Prop :=
  find_message CHAIN_CONTROL_TOPIC (Contracts.Control.deduplication_key c) (Bus.messages (Db.bus db)) <> None.

Lemma raise_spec chain reason block corr producer fault msg now db o db1 :
  faults_ok db -> raise chain reason block corr producer fault msg now db = Ok (o, db1) ->
  match o with
  | AlreadyOpen id => db1 = db /\ exists f, open_fault (as_i64 chain) db = Some (id, f)
  | Raised id => open_fault (as_i64 chain) db = None /\ announced (Halted id chain reason) db1 /\
      exists f, open_fault (as_i64 chain) db1 = Some (id, f) /\ ChainFault.reason f = reason
  end.
Proof.
  intros Hok H. assert (faults_ok db1) as Hok1 by (eapply fault_step_ok; [by eapply fault_raise|done]).
  unfold raise in H. destruct (open_fault (as_i64 chain) db) as [[id f]|] eqn:Ho.
  { injection H as <- <-. eauto. }
  destruct (is_some _); [discriminate|]. destruct (publish _ _ _ _ _ _ _ _) as [[? bus]|] eqn:Hp; [|discriminate].
  injection H as <- <-. split; [done|]. split; [by apply published_key in Hp|].
  set (f := ChainFault.mk (as_i64 chain) reason (as_i64 <$> block) now None) in *.
  set (db1 := {| db with Db.chain_faults := _; Db.bus := bus |}) in *.
  assert (Db.chain_faults db1 !! fault = Some f) as Hf by apply lookup_insert_eq.
  destruct (open_fault (as_i64 chain) db1) as [[i g]|] eqn:Hg.
  - apply open_fault_some in Hg as [Hi Hopen]. apply open_on_iff in Hopen as [Hc Hn].
    assert (i = fault) as -> by (by eapply (Hok1 i fault g f)). exists f. split; [|done].
    f_equal. f_equal. congruence.
  - exfalso. rewrite open_fault_none in Hg. specialize (Hg fault f Hf). apply not_true_iff_false in Hg.
    rewrite open_on_iff in Hg. by apply Hg.
Qed.

Lemma clear_spec chain corr producer msg now db c db' :
  clear chain corr producer msg now db = Ok (c, db') ->
  halted (as_i64 chain) db' = false /\ c = fst <$> open_fault (as_i64 chain) db /\
  (forall id, c = Some id -> announced (Resumed id chain) db').
Proof.
  unfold clear. intros H. destruct (open_fault (as_i64 chain) db) as [[id f]|] eqn:Ho.
  2: { injection H as <- <-. rewrite open_fault_halted, Ho. done. }
  destruct (publish _ _ _ _ _ _ _ _) as [[? bus]|] eqn:Hp; [|discriminate]. injection H as <- <-.
  split_and!; [|done|].
  - clear Ho. rewrite open_fault_halted. destruct (open_fault _ _) as [[i g]|] eqn:Hg; [|done].
    apply open_fault_some in Hg as [Hi Hopen]. cbn [Db.chain_faults] in Hi.
    rewrite lookup_update_where in Hi.
    destruct (Db.chain_faults db !! i) as [g0|]; [|discriminate]. simpl in Hi. injection Hi as <-.
    destruct (ChainFault.is_open_on (as_i64 chain) g0) eqn:E; [|congruence].
    apply open_on_iff in Hopen as [_ Hn]. done.
  - intros i [= <-]. by apply published_key in Hp.
Qed.

(** Halting a chain: the ledger records the fault and announces it to
    the signers in one step, or the chain was halted already and nothing
    changes. While it is halted no sweep job is scheduled on it. Clearing the
    fault announces the resumption of that very fault and leaves the chain
    open. *)
Theorem halt_and_resume db0 db chain reason block corr producer fault msg now o db1 :
  Db.chain_faults db0 = ∅ -> rtc fault_step db0 db ->
  raise chain reason block corr producer fault msg now db = Ok (o, db1) ->
  let id := match o with Raised id | AlreadyOpen id => id end in
  match o with
  | Raised _ => halted (as_i64 chain) db = false /\ announced (Halted id chain reason) db1
  | AlreadyOpen _ => halted (as_i64 chain) db = true /\ db1 = db
  end /\
  halted (as_i64 chain) db1 = true /\
  (forall parse policy job corr2 msg2 t,
     schedule_sweep_job payload_hash parse chain policy producer job corr2 msg2 t db1 = Ok (None, db1)) /\
  (forall corr2 msg2 t c db2, clear chain corr2 producer msg2 t db1 = Ok (c, db2) ->
     c = Some id /\ halted (as_i64 chain) db2 = false /\ announced (Resumed id chain) db2).
Proof.
  intros H0 Hr H id. assert (faults_ok db) as Hok.
  { eapply fault_steps_ok; [exact Hr|]. intros i1 i2 f1 f2. by rewrite H0. }
  pose proof (raise_spec _ _ _ _ _ _ _ _ _ _ _ Hok H) as Hspec.
  assert (exists f, open_fault (as_i64 chain) db1 = Some (id, f)) as [f Hf].
  { destruct o; naive_solver. }
  assert (halted (as_i64 chain) db1 = true) as Hh by (by rewrite open_fault_halted, Hf).
  split_and!; [|done| |].
  - destruct o as [i|i]; rewrite open_fault_halted.
    + destruct Hspec as (-> & Ha & _). done.
    + destruct Hspec as [-> [g Hg]]. by rewrite Hg.
  - intros *. unfold schedule_sweep_job. by rewrite Hh.
  - intros corr2 msg2 t c db2 Hc. apply clear_spec in Hc as (C1 & C2 & C3). rewrite Hf in C2. simpl in C2.
    split_and!; [done|done|by apply C3].
Qed.

End Faults.

Lemma halt_and_resume_witness :
  halted 8453 (LedgerExample.state_of
    (raise LedgerExample.hash 8453 "reorg" None 1 "gum-server" 60 61 100 LedgerExample.paid)) = true.
Proof.
  apply (halt_and_resume LedgerExample.hash LedgerExample.paid LedgerExample.paid 8453 "reorg" None 1 "gum-server"
    60 61 100 (Raised 60)); [vm_compute; reflexivity|apply rtc_refl|vm_compute; reflexivity].
Defined.
