(* ===== verification/Webhooks.v ===== *)
(** * gum-ledger: webhooks

    Models [crates/gum-ledger/src/webhooks.rs] and the triggers of migration
    [0001_application.sql] that feed it: an UPDATE of a request's row or a new
    recovery enqueues events, an event fans out to the account's active
    endpoints, and a delivery is leased, attempted and recorded.

    A trigger runs once per written row, in the writing transaction; it is a
    function of the row before and after.  An event's payload is kept as the
    data it renders.  [gen_random_uuid()] draws an identifier no row has. *)

From stdpp Require Import sorting.
From S2P Require Import Prelude Core Contracts Bus Tables.

Definition MAX_ATTEMPTS : Z := 12.

Inductive EventType :=
| Deposited | RequestSettled | RequestExpired | RequestReturned | NeedsAttention
| LikelyUnsolicited | RecoveredFundsEvent | Ready | VerificationApproved | WebhookTest.

#[export] Instance EventType_eq_dec : EqDecision EventType.
Proof. solve_decision. Defined.

Inductive DeliveryState := DPending | DDelivered | DFailed.

#[export] Instance DeliveryState_eq_dec : EqDecision DeliveryState.
Proof. solve_decision. Defined.

Module WebhookEndpoint.
Record t := mk {
  account_id : Uuid;
  url : string;
  secret_hash : B256;
  secret_ciphertext : bytes;
  secret_cipher_version : Z;
  secret_key_id : string;
  created_at : Timestamp;
  disabled_at : option Timestamp;
}.
Definition active (e : t) : bool := negb (is_some (disabled_at e)).
End WebhookEndpoint.

(** What [data] is built from. *)
Inductive EventData :=
| RequestData (row : DbInvoice.t) (attention : option string)
| RecoveryData (row : DbInvoice.t) (reason : string) (transaction_hash : B256) (funds : RecoveredRow.t)
| TestData.

Module WebhookEvent.
Record t := mk {
  account_id : Uuid;
  invoice_id : option Uuid;
  event_type : EventType;
  occurred_at : Timestamp;
  data : EventData;
  fanout : bool;
  created_at : Timestamp;
}.
End WebhookEvent.

Module WebhookDelivery.
Record t := mk {
  event_id : Uuid;
  endpoint_id : Uuid;
  attempt_count : Z;
  next_attempt_at : Timestamp;
  lease_until : option Timestamp;
  lease_token : option Uuid;
  state : DeliveryState;
  delivered_at : option Timestamp;
  created_at : Timestamp;
}.
(** The column defaults of a fresh row. *)
Definition fresh_row (event endpoint : Uuid) (now : Timestamp) : t := mk event endpoint 0 now None None DPending None now.
End WebhookDelivery.

Module WebhookAttempt.
Record t := mk { attempted_at : Timestamp; duration_ms : Z; status : option Z; error : option string }.
End WebhookAttempt.

Module DeliveryClaim.
Record t := mk {
  delivery_id : Uuid;
  attempt_number : Z;
  lease_token : Uuid;
  url : string;
  secret_ciphertext : bytes;
  secret_cipher_version : Z;
  event_id : Uuid;
  event_type : EventType;
  occurred_at : Timestamp;
  payload : EventData;
}.
End DeliveryClaim.

(** The four tables; attempts by their unique key. *)
Module Hooks.
Record t := mk {
  endpoints : gmap Uuid WebhookEndpoint.t;
  events : gmap Uuid WebhookEvent.t;
  deliveries : gmap Uuid WebhookDelivery.t;
  attempts : gmap (Uuid * Z) WebhookAttempt.t;
}.
Definition empty : t := mk ∅ ∅ ∅ ∅.
End Hooks.

Definition table_any `{Countable K} {V} (p : V -> bool) (m : gmap K V) : bool :=
  existsb (fun kv => p (snd kv)) (map_to_list m).

(** ** Events *)

(** [fanout_webhook_event]. *)
Definition fan_out_to (event : Uuid) (now : Timestamp) (deliveries : gmap Uuid WebhookDelivery.t) (endpoint : Uuid)
  : gmap Uuid WebhookDelivery.t :=
  <[fresh (dom deliveries) := WebhookDelivery.fresh_row event endpoint now]> deliveries.

Definition active_endpoints (account : Uuid) (endpoints : gmap Uuid WebhookEndpoint.t) : list Uuid :=
  fst <$> List.filter (fun kv => (WebhookEndpoint.account_id (snd kv) =? account) && WebhookEndpoint.active (snd kv))
            (map_to_list endpoints).

Definition fan_out (event : Uuid) (e : WebhookEvent.t) (now : Timestamp) (h : Hooks.t) : Hooks.t :=
  if WebhookEvent.fanout e then
    {| h with Hooks.deliveries :=
         foldl (fan_out_to event now) (Hooks.deliveries h)
           (active_endpoints (WebhookEvent.account_id e) (Hooks.endpoints h)) |}
  else h.

(** The slot of [webhook_lifecycle_event_once]. *)
Definition same_slot (invoice : Uuid) (kind : EventType) (e : WebhookEvent.t) : bool :=
  bool_decide (WebhookEvent.invoice_id e = Some invoice) && WebhookEvent.fanout e
  && bool_decide (WebhookEvent.event_type e = kind) && negb (bool_decide (kind = RecoveredFundsEvent)).

Definition enqueue (account invoice : Uuid) (kind : EventType) (occurred : option Timestamp) (data : EventData)
    (now : Timestamp) (h : Hooks.t) : Hooks.t :=
  if table_any (same_slot invoice kind) (Hooks.events h) then h
  else
    let id := fresh (dom (Hooks.events h)) in
    let e := WebhookEvent.mk account (Some invoice) kind (default now occurred) data true now in
    fan_out id e now {| h with Hooks.events := <[id := e]> (Hooks.events h) |}.

(** The event of a status. *)
Definition status_event (s : InvoiceStatus) : option EventType :=
  match s with
  | Created => None
  | Funded => Some Deposited
  | Fulfilled => Some RequestSettled
  | Expired => Some RequestExpired
  | Recovered => Some RequestReturned
  end.

Definition occurred_of (row : DbInvoice.t) : option Timestamp :=
  match DbInvoice.status row with
  | Created => None
  | Funded => DbInvoice.paid_at row
  | Expired => DbInvoice.expired_at row
  | Fulfilled | Recovered => DbInvoice.settled_at row
  end.

(** A column is set that was not; a row that is inserted had none. *)
Definition newly {A} (f : DbInvoice.t -> option A) (old : option DbInvoice.t) (new : DbInvoice.t) : bool :=
  is_some (f new) && negb (is_some (old ≫= f)).

Definition status_changed (old : option DbInvoice.t) (new : DbInvoice.t) : bool :=
  negb (bool_decide (DbInvoice.status <$> old = Some (DbInvoice.status new))).

(** [enqueue_payment_webhook]. *)
Definition on_invoice (old : option DbInvoice.t) (new : DbInvoice.t) (now : Timestamp) (h : Hooks.t) : Hooks.t :=
  let send kind occurred attention :=
    enqueue (DbInvoice.account_id new) (DbInvoice.id new) kind occurred (RequestData new attention) now in
  let attention := newly DbInvoice.attention_reason old new in
  let h1 :=
    if status_changed old new || attention then
      match (if attention then Some NeedsAttention else status_event (DbInvoice.status new)) with
      | Some kind =>
          send kind (occurred_of new) (if attention then DbInvoice.attention_reason new else None) h
      | None => h
      end
    else h in
  let h2 :=
    if newly DbInvoice.verification_completed_at old new
    then send VerificationApproved (DbInvoice.verification_completed_at new) None h1 else h1 in
  let h3 :=
    if newly (fun r => Binding.ready_at (DbInvoice.binding r)) old new
    then send Ready (Binding.ready_at (DbInvoice.binding new)) None h2 else h2 in
  if newly DbInvoice.likely_unsolicited_at old new
  then send LikelyUnsolicited (DbInvoice.likely_unsolicited_at new) None h3 else h3.

(** [enqueue_recovered_funds_webhook]. *)
Definition on_recovered (row : DbInvoice.t) (reason : string) (transaction_hash : B256) (funds : RecoveredRow.t)
    (now : Timestamp) (h : Hooks.t) : Hooks.t :=
  enqueue (DbInvoice.account_id row) (DbInvoice.id row) RecoveredFundsEvent (Some (RecoveredRow.recovered_at funds))
    (RecoveryData row reason transaction_hash funds) now h.

(** ** Endpoints *)

(** [add]; [known] is the reference to the account. *)
Definition add (id account : Uuid) (known : bool) (url : string) (secret_hash : B256) (ciphertext : bytes)
    (now : Timestamp) (h : Hooks.t) : result DbError (WebhookEndpoint.t * Hooks.t) :=
  if is_some (Hooks.endpoints h !! id) then Err (Constraint "webhook_endpoints_pkey")
  else if negb known then Err (Constraint "webhook_endpoints_account_id_fkey")
  else if table_any (fun e => (WebhookEndpoint.account_id e =? account) && String.eqb (WebhookEndpoint.url e) url
                              && WebhookEndpoint.active e) (Hooks.endpoints h)
  then Err (Constraint "webhook_active_endpoint_url_once")
  else
    let e := WebhookEndpoint.mk account url secret_hash ciphertext 1 "primary" now None in
    Ok (e, {| h with Hooks.endpoints := <[id := e]> (Hooks.endpoints h) |}).

Definition by_id {V} : relation (Uuid * V) := fun a b => fst a <= fst b.

#[export] Instance by_id_dec V : RelDecision (@by_id V).
Proof. intros a b. unfold by_id. apply _. Defined.

(** [list]. *)
Definition list_endpoints (account : Uuid) (h : Hooks.t) : list (Uuid * WebhookEndpoint.t) :=
  merge_sort by_id (List.filter (fun kv => (WebhookEndpoint.account_id (snd kv) =? account)
                                          && WebhookEndpoint.active (snd kv)) (map_to_list (Hooks.endpoints h))).

Definition get (account id : Uuid) (h : Hooks.t) : option WebhookEndpoint.t :=
  e ← Hooks.endpoints h !! id;
  if WebhookEndpoint.account_id e =? account then Some e else None.

Definition disable (account id : Uuid) (now : Timestamp) (h : Hooks.t) : bool * Hooks.t :=
  match get account id h with
  | Some e =>
      (true, {| h with Hooks.endpoints :=
                  <[id := {| e with WebhookEndpoint.disabled_at :=
                               coalesce (WebhookEndpoint.disabled_at e) (Some now) |}]> (Hooks.endpoints h) |})
  | None => (false, h)
  end.

(** [test_event]; [event] and [delivery] are the identifiers it draws. *)
Definition test_event (account endpoint event delivery : Uuid) (utc_now now : Timestamp) (h : Hooks.t)
  : result DbError (option Uuid * Hooks.t) :=
  match get account endpoint h with
  | Some e =>
      if negb (WebhookEndpoint.active e) then Ok (None, h)
      else if is_some (Hooks.events h !! event) then Err (Constraint "webhook_events_pkey")
      else if is_some (Hooks.deliveries h !! delivery) then Err (Constraint "webhook_deliveries_pkey")
      else
        let ev := WebhookEvent.mk account None WebhookTest utc_now TestData false now in
        Ok (Some delivery,
            {| h with Hooks.events := <[event := ev]> (Hooks.events h);
               Hooks.deliveries :=
                 <[delivery := WebhookDelivery.fresh_row event endpoint now]> (Hooks.deliveries h) |})
  | None => Ok (None, h)
  end.

(** ** Reads *)

(** The join on the endpoint's account. *)
Definition owned (account : Uuid) (h : Hooks.t) (d : WebhookDelivery.t) : bool :=
  is_some (get account (WebhookDelivery.endpoint_id d) h).

Definition delivery (account id : Uuid) (h : Hooks.t) : option WebhookDelivery.t :=
  d ← Hooks.deliveries h !! id;
  if owned account h d then Some d else None.

Definition newest_first {V} : relation (Uuid * V) := fun a b => fst b <= fst a.

#[export] Instance newest_first_dec V : RelDecision (@newest_first V).
Proof. intros a b. unfold newest_first. apply _. Defined.

Definition deliveries (account : Uuid) (endpoint starting_after : option Uuid) (limit : nat) (h : Hooks.t)
  : list (Uuid * WebhookDelivery.t) :=
  take (S limit)
    (merge_sort newest_first
       (List.filter (fun kv =>
            owned account h (snd kv)
            && match endpoint with Some e => WebhookDelivery.endpoint_id (snd kv) =? e | None => true end
            && match starting_after with Some a => fst kv <? a | None => true end)
          (map_to_list (Hooks.deliveries h)))).

Definition by_number : relation ((Uuid * Z) * WebhookAttempt.t) := fun a b => snd (fst a) <= snd (fst b).

#[export] Instance by_number_dec : RelDecision by_number.
Proof. intros a b. unfold by_number. apply _. Defined.

Definition attempts (id : Uuid) (h : Hooks.t) : list ((Uuid * Z) * WebhookAttempt.t) :=
  merge_sort by_number (List.filter (fun kv => fst (fst kv) =? id) (map_to_list (Hooks.attempts h))).

Definition by_delivery : relation ((Uuid * Z) * WebhookAttempt.t) := fun a b =>
  fst (fst a) < fst (fst b) \/ fst (fst a) = fst (fst b) /\ snd (fst a) <= snd (fst b).

#[export] Instance by_delivery_dec : RelDecision by_delivery.
Proof. intros a b. unfold by_delivery. apply _. Defined.

Definition attempts_for (ids : list Uuid) (h : Hooks.t) : list ((Uuid * Z) * WebhookAttempt.t) :=
  merge_sort by_delivery (List.filter (fun kv => bool_decide (fst (fst kv) ∈ ids)) (map_to_list (Hooks.attempts h))).

(** ** Deliveries *)

Definition SECOND : Z := 10 ^ 6.

Definition claimable (now : Timestamp) (h : Hooks.t) (d : WebhookDelivery.t) : bool :=
  bool_decide (WebhookDelivery.state d = DPending)
  && (WebhookDelivery.next_attempt_at d <=? now)
  && match WebhookDelivery.lease_until d with None => true | Some t => t <? now end
  && match Hooks.endpoints h !! WebhookDelivery.endpoint_id d with
     | Some e => WebhookEndpoint.active e
     | None => false
     end.

Definition due_before : relation (Uuid * WebhookDelivery.t) :=
  fun a b => WebhookDelivery.next_attempt_at (snd a) <= WebhookDelivery.next_attempt_at (snd b).

#[export] Instance due_before_dec : RelDecision due_before.
Proof. intros a b. unfold due_before. apply _. Defined.

(** [ORDER BY d.next_attempt_at LIMIT 1]. *)
Definition next_due (now : Timestamp) (h : Hooks.t) : option (Uuid * WebhookDelivery.t) :=
  head (merge_sort due_before (List.filter (fun kv => claimable now h (snd kv)) (map_to_list (Hooks.deliveries h)))).

Definition leased (token : Uuid) (now : Timestamp) (d : WebhookDelivery.t) : WebhookDelivery.t :=
  {| d with WebhookDelivery.attempt_count := WebhookDelivery.attempt_count d + 1;
     WebhookDelivery.lease_until := Some (now + 60 * SECOND);
     WebhookDelivery.lease_token := Some token |}.

(** [claim]; [token] is the lease it draws. *)
Definition claim (token : Uuid) (now : Timestamp) (h : Hooks.t) : option DeliveryClaim.t * Hooks.t :=
  match next_due now h with
  | Some (id, d) =>
      match Hooks.endpoints h !! WebhookDelivery.endpoint_id d, Hooks.events h !! WebhookDelivery.event_id d with
      | Some ep, Some ev =>
          (Some (DeliveryClaim.mk id (WebhookDelivery.attempt_count d + 1) token (WebhookEndpoint.url ep)
                   (WebhookEndpoint.secret_ciphertext ep) (WebhookEndpoint.secret_cipher_version ep)
                   (WebhookDelivery.event_id d) (WebhookEvent.event_type ev) (WebhookEvent.occurred_at ev)
                   (WebhookEvent.data ev)),
           {| h with Hooks.deliveries := <[id := leased token now d]> (Hooks.deliveries h) |})
      | _, _ => (None, h)
      end
  | None => (None, h)
  end.

(** [&x[..x.len().min(500)]]: slicing inside a character panics. *)
Definition continuation_byte (c : Ascii.ascii) : bool :=
  let n := Z.of_N (Ascii.N_of_ascii c) in (128 <=? n) && (n <? 192).

Definition truncated (error : string) : option string :=
  match String.get 500 error with
  | None => Some error
  | Some c => if continuation_byte c then None else Some (String.substring 0 500 error)
  end.

Inductive CompleteError :=
| CompleteDatabase (e : DbError)
| CompletePanic.

Definition succeeded (status : option Z) : bool :=
  match status with Some s => (200 <=? s) && (s <? 300) | None => false end.

(** [LEAST(3600, pow(2, attempt_count)::int)] seconds. *)
Definition retry_delay (attempts : Z) : Z := Z.min 3600 (2 ^ attempts) * SECOND.

Definition concluded (success terminal : bool) (now : Timestamp) (d : WebhookDelivery.t) : WebhookDelivery.t :=
  {| d with
     WebhookDelivery.state := if success then DDelivered else if terminal then DFailed else DPending;
     WebhookDelivery.delivered_at := if success then Some now else WebhookDelivery.delivered_at d;
     WebhookDelivery.next_attempt_at :=
       if negb success && negb terminal then now + retry_delay (WebhookDelivery.attempt_count d)
       else WebhookDelivery.next_attempt_at d;
     WebhookDelivery.lease_until := None;
     WebhookDelivery.lease_token := None |}.

(** The row the claim still holds. *)
Definition holds (c : DeliveryClaim.t) (d : WebhookDelivery.t) : bool :=
  bool_decide (WebhookDelivery.lease_token d = Some (DeliveryClaim.lease_token c))
  && bool_decide (WebhookDelivery.state d = DPending).

Definition record_attempt (key : Uuid * Z) (a : WebhookAttempt.t) (h : Hooks.t) : Hooks.t :=
  match Hooks.attempts h !! key with
  | Some _ => h
  | None => {| h with Hooks.attempts := <[key := a]> (Hooks.attempts h) |}
  end.

Definition complete (c : DeliveryClaim.t) (attempted_at : Timestamp) (duration_ms : Z) (status : option Z)
    (error : option string) (now : Timestamp) (h : Hooks.t) : result CompleteError Hooks.t :=
  let success := succeeded status in
  let terminal := negb success && (MAX_ATTEMPTS <=? DeliveryClaim.attempt_number c) in
  let id := DeliveryClaim.delivery_id c in
  let! error :=
    match error with
    | None => Ok None
    | Some e => let! t := ok_or (truncated e) CompletePanic in Ok (Some t)
    end in
  if duration_ms <? 0 then Err (CompleteDatabase (Constraint "webhook_delivery_attempts_duration_ms_check"))
  else
    match Hooks.deliveries h !! id with
    | None => Err (CompleteDatabase (Constraint "webhook_delivery_attempts_delivery_id_fkey"))
    | Some d =>
        let h1 := record_attempt (id, DeliveryClaim.attempt_number c)
                    (WebhookAttempt.mk attempted_at duration_ms status error) h in
        Ok (if holds c d then
              {| h1 with Hooks.deliveries := <[id := concluded success terminal now d]> (Hooks.deliveries h1) |}
            else h1)
    end.
