(* ===== verification/WebhookTheorems.v ===== *)
(** * Properties of webhooks

    Over every history of row writes, recoveries, endpoint changes, claims and
    completions: a status a request reached has been reported once
    ([shown_facts_reported_once]), an event reaches exactly the endpoints that were
    active when it was written ([event_fans_out_exactly]), a delivery is
    concluded once and only on a recorded attempt ([delivery_concluded_once]),
    and a claim serves the earliest delivery that is due
    ([claim_serves_earliest]). *)

From stdpp Require Import sorting.
From S2P Require Import Prelude Core Queues Contracts Bus Tables Attachments Invoices Range Sweeps.
From S2P Require Import RelayIntents Verifications LedgerExample Webhooks.

(** ** Tables *)

Lemma table_any_true `{Countable K} {V} (p : V -> bool) (m : gmap K V) :
  table_any p m = true <-> exists k v, m !! k = Some v /\ p v = true.
Proof.
  unfold table_any. rewrite existsb_exists. split.
  - intros ([k v] & Hin & Hp). exists k, v. apply list_elem_of_In, elem_of_map_to_list in Hin. done.
  - intros (k & v & Hk & Hp). exists (k, v). split; [|done]. by apply list_elem_of_In, elem_of_map_to_list.
Qed.

Lemma table_any_false `{Countable K} {V} (p : V -> bool) (m : gmap K V) :
  table_any p m = false <-> forall k v, m !! k = Some v -> p v = false.
Proof.
  split.
  - intros Hf k v Hk. destruct (p v) eqn:Hp; [|done]. rewrite <- Hf. symmetry. apply table_any_true. eauto.
  - intros Hall. destruct (table_any p m) eqn:Ht; [|done]. apply table_any_true in Ht as (k & v & Hk & Hp).
    by rewrite (Hall k v Hk) in Hp.
Qed.

Lemma fresh_id {V} (m : gmap Uuid V) : m !! fresh (dom m) = None.
Proof. apply not_elem_of_dom, is_fresh. Qed.

(** ** Fan-out *)

(** The deliveries of an event, by endpoint. *)
Definition delivered_to (event endpoint : Uuid) (ds : gmap Uuid WebhookDelivery.t) : Prop :=
  exists id d, ds !! id = Some d /\ WebhookDelivery.event_id d = event /\ WebhookDelivery.endpoint_id d = endpoint.

Lemma active_endpoints_elem account endpoints e :
  e ∈ active_endpoints account endpoints <->
  exists row, endpoints !! e = Some row /\ WebhookEndpoint.account_id row = account /\ WebhookEndpoint.active row = true.
Proof.
  unfold active_endpoints. rewrite list.list_elem_of_fmap. split.
  - intros ([k row] & -> & Hin). apply list_elem_of_In, filter_In in Hin as [Hin Hp]. bools.
    apply list_elem_of_In, elem_of_map_to_list in Hin. simpl in *. eauto.
  - intros (row & He & Ha & Hact). exists (e, row). split; [done|]. apply list_elem_of_In, filter_In. simpl.
    rewrite Hact, Ha, Z.eqb_refl. split; [by apply list_elem_of_In, elem_of_map_to_list|done].
Qed.

Lemma active_endpoints_nodup account endpoints : NoDup (active_endpoints account endpoints).
Proof.
  unfold active_endpoints. pose proof (NoDup_fst_map_to_list endpoints) as Hnd. revert Hnd.
  generalize (map_to_list endpoints). intros l. induction l as [|x l IH]; cbn; [done|].
  intros [Hx Hl]%list.NoDup_cons. destruct (_ && _); [|by apply IH]. cbn. constructor; [|by apply IH].
  intros (y & E & Hy)%list.list_elem_of_fmap. apply Hx. rewrite E. apply list.list_elem_of_fmap_2.
  apply list_elem_of_In in Hy. apply filter_In in Hy as [Hy _]. by apply list_elem_of_In.
Qed.

(** A fan-out keeps the rows there are, and adds a fresh one per endpoint. *)
Lemma fan_out_keeps event now l : forall ds i d,
  ds !! i = Some d -> foldl (fan_out_to event now) ds l !! i = Some d.
Proof.
  induction l as [|e l IH]; intros ds i d Hi; cbn; [done|]. apply IH. unfold fan_out_to.
  rewrite lookup_insert_ne; [done|]. intros E. rewrite <- E, fresh_id in Hi. done.
Qed.

Lemma fan_out_adds event now l : forall ds i d,
  foldl (fan_out_to event now) ds l !! i = Some d ->
  ds !! i = Some d \/ ds !! i = None /\ exists e, e ∈ l /\ d = WebhookDelivery.fresh_row event e now.
Proof.
  induction l as [|e l IH]; intros ds i d Hi; cbn in *; [by left|].
  destruct (IH _ _ _ Hi) as [Hd|(Hn & e' & He' & ->)]; unfold fan_out_to in *.
  - apply lookup_insert_Some in Hd as [[<- <-]|[_ Hd]]; [right|by left]. split; [apply fresh_id|].
    exists e. split; [apply list_elem_of_here|done].
  - apply lookup_insert_None in Hn as [Hn _]. right. split; [done|]. exists e'. split; [by apply list_elem_of_further|done].
Qed.

Lemma fan_out_once event now l : NoDup l -> forall ds e, e ∈ l ->
  exists i, ds !! i = None /\ foldl (fan_out_to event now) ds l !! i = Some (WebhookDelivery.fresh_row event e now) /\
    forall j d, ds !! j = None -> foldl (fan_out_to event now) ds l !! j = Some d ->
      WebhookDelivery.endpoint_id d = e -> j = i.
Proof.
  induction 1 as [|x l Hx Hnd IH]; intros ds e He; [by apply list.elem_of_nil in He|]. cbn.
  assert (forall j d, ds !! j = None -> foldl (fan_out_to event now) (fan_out_to event now ds x) l !! j = Some d ->
    j = fresh (dom ds) /\ WebhookDelivery.endpoint_id d = x \/
    fan_out_to event now ds x !! j = None /\ WebhookDelivery.endpoint_id d ∈ l) as Hnew.
  { intros j d Hj Hd. destruct (fan_out_adds _ _ _ _ _ _ Hd) as [H|(H & e' & He' & ->)]; [|by right]. left.
    unfold fan_out_to in H. apply lookup_insert_Some in H as [[<- <-]|[_ H]]; [done|congruence]. }
  apply list.elem_of_cons in He as [->|He].
  - exists (fresh (dom ds)). split; [apply fresh_id|]. split; [apply fan_out_keeps, lookup_insert_eq|].
    intros j d Hj Hd E. destruct (Hnew j d Hj Hd) as [[? _]|[_ H]]; [done|]. by rewrite E in H.
  - destruct (IH (fan_out_to event now ds x) e He) as (i & Hi & Hd & Hu). exists i.
    split; [unfold fan_out_to in Hi; by apply lookup_insert_None in Hi as [? _]|]. split; [done|]. intros j d Hj Hdj E.
    destruct (Hnew j d Hj Hdj) as [[_ H]|[H _]]; [|by eapply Hu]. rewrite <- H, E in Hx. done.
Qed.

(** What a new event is. *)
Definition new_event (account invoice : Uuid) (kind : EventType) (occurred : option Timestamp) (data : EventData)
    (now : Timestamp) : WebhookEvent.t :=
  WebhookEvent.mk account (Some invoice) kind (default now occurred) data true now.

Lemma enqueue_cases account invoice kind occurred data now h :
  (exists id e, Hooks.events h !! id = Some e /\ same_slot invoice kind e = true) /\
    enqueue account invoice kind occurred data now h = h \/
  (forall id e, Hooks.events h !! id = Some e -> same_slot invoice kind e = false) /\
    exists id, Hooks.events h !! id = None /\
      enqueue account invoice kind occurred data now h =
        {| h with Hooks.events := <[id := new_event account invoice kind occurred data now]> (Hooks.events h);
           Hooks.deliveries := foldl (fan_out_to id now) (Hooks.deliveries h)
             (active_endpoints account (Hooks.endpoints h)) |}.
Proof.
  unfold enqueue. destruct (table_any _ _) eqn:Ht.
  - left. by apply table_any_true in Ht.
  - right. split; [by apply table_any_false|]. eexists. split; [apply fresh_id|]. done.
Qed.

(** An event that is written reaches exactly the endpoints of the account
    that are active then: each gets one pending delivery, due at once and never
    attempted, no other delivery appears or changes, and an event whose slot is
    taken writes nothing. *)
Theorem event_fans_out_exactly account invoice kind occurred data now h :
  let h' := enqueue account invoice kind occurred data now h in
  Hooks.endpoints h' = Hooks.endpoints h /\ Hooks.attempts h' = Hooks.attempts h /\
  (forall i d, Hooks.deliveries h !! i = Some d -> Hooks.deliveries h' !! i = Some d) /\
  if table_any (same_slot invoice kind) (Hooks.events h) then h' = h
  else exists id, Hooks.events h !! id = None /\
    Hooks.events h' = <[id := new_event account invoice kind occurred data now]> (Hooks.events h) /\
    (forall i d, Hooks.deliveries h !! i = None -> Hooks.deliveries h' !! i = Some d ->
       exists e, e ∈ active_endpoints account (Hooks.endpoints h) /\ d = WebhookDelivery.fresh_row id e now) /\
    (forall e, e ∈ active_endpoints account (Hooks.endpoints h) -> exists i, Hooks.deliveries h !! i = None /\
       Hooks.deliveries h' !! i = Some (WebhookDelivery.fresh_row id e now) /\
       forall j d, Hooks.deliveries h !! j = None -> Hooks.deliveries h' !! j = Some d ->
         WebhookDelivery.endpoint_id d = e -> j = i).
Proof.
  intros h'. unfold h', enqueue. destruct (table_any _ _); [done|]. cbn.
  split; [done|]. split; [done|]. split; [intros i d; apply fan_out_keeps|].
  eexists. split; [apply fresh_id|]. split; [done|]. split.
  - intros i d Hn Hd. destruct (fan_out_adds _ _ _ _ _ _ Hd) as [H|(_ & e & He & ->)]; [congruence|eauto].
  - intros e He. apply fan_out_once; [apply active_endpoints_nodup|done].
Qed.

(** ** Histories *)

(** The writes of a request's row in the ledger, one constructor per statement
    that touches a column the trigger reads. *)
Inductive row_write : option DbInvoice.t -> DbInvoice.t -> Prop :=
| write_issue input utc now : row_write None (issued_row input utc now)
| write_binding row b now :
    row_write (Some row) {| row with DbInvoice.binding := b; DbInvoice.updated_at := now |}
| write_credit now credit row row' : credited_row now credit row = Some row' -> row_write (Some row) row'
| write_expiry t now row : row_write (Some row) (expire_row t now row)
| write_drain receipt d table now row : row_write (Some row) (drained_row receipt d table now row)
| write_attention row reason now : DbInvoice.attention_reason row = None ->
    row_write (Some row) {| row with DbInvoice.attention_reason := Some reason; DbInvoice.updated_at := now |}
| write_release row now :
    row_write (Some row) {| row with DbInvoice.attention_reason := None; DbInvoice.sweep_attempts := 0;
                                     DbInvoice.last_attempt_at := None; DbInvoice.updated_at := now |}
| write_unsolicited t now row : row_write (Some row) (flagged_row t now row)
| write_verified verified_at now row : row_write (Some row) (completed_row verified_at now row).

(** No statement flags a request and moves its status at once. *)
Lemma row_write_plain old new :
  row_write old new -> status_changed old new = true -> newly DbInvoice.attention_reason old new = false.
Proof.
  unfold status_changed, newly. destruct 1; cbn; intros Hs; try done;
    try (by destruct (DbInvoice.attention_reason row)); try (by rewrite bool_decide_true in Hs).
  unfold credited_row in *. destruct (InvoiceCredit.crossing credit) as [[[[? ?] ?] ?]|];
    [destruct (InvoiceStatus.eqb _ _); [|done]|]; simplify_eq; cbn in *; by destruct (DbInvoice.attention_reason row).
Qed.

Module HookWorld.
Record t := mk {
  rows : gmap Uuid DbInvoice.t;
  hooks : Hooks.t;
  (* the claims handed out so far *)
  claims : list DeliveryClaim.t;
}.
Definition start : t := mk ∅ Hooks.empty [].
End HookWorld.

Inductive hook_step (w : HookWorld.t) : HookWorld.t -> Prop :=
| hook_write id old new now : HookWorld.rows w !! id = old -> DbInvoice.id new = id -> row_write old new ->
    hook_step w {| w with HookWorld.rows := <[id := new]> (HookWorld.rows w);
                   HookWorld.hooks := on_invoice old new now (HookWorld.hooks w) |}
| hook_recovered id row reason tx funds now : HookWorld.rows w !! id = Some row ->
    hook_step w {| w with HookWorld.hooks := on_recovered row reason tx funds now (HookWorld.hooks w) |}
| hook_add id account known url secret cipher now e h' :
    add id account known url secret cipher now (HookWorld.hooks w) = Ok (e, h') ->
    hook_step w {| w with HookWorld.hooks := h' |}
| hook_disable account id now :
    hook_step w {| w with HookWorld.hooks := snd (disable account id now (HookWorld.hooks w)) |}
| hook_test account endpoint event did utc now r h' :
    test_event account endpoint event did utc now (HookWorld.hooks w) = Ok (r, h') ->
    hook_step w {| w with HookWorld.hooks := h' |}
| hook_claim token now : token ∉ (DeliveryClaim.lease_token <$> HookWorld.claims w) ->
    hook_step w {| w with HookWorld.hooks := snd (claim token now (HookWorld.hooks w));
                   HookWorld.claims := option_list (fst (claim token now (HookWorld.hooks w))) ++ HookWorld.claims w |}
| hook_complete c attempted duration status error now h' : c ∈ HookWorld.claims w ->
    complete c attempted duration status error now (HookWorld.hooks w) = Ok h' ->
    hook_step w {| w with HookWorld.hooks := h' |}.

(** ** Events *)

Definition events_unique (h : Hooks.t) : Prop :=
  forall i j e e' invoice kind, Hooks.events h !! i = Some e -> Hooks.events h !! j = Some e' ->
    same_slot invoice kind e = true -> same_slot invoice kind e' = true -> i = j.

Definition reported (h : Hooks.t) (id : Uuid) (kind : EventType) : Prop :=
  exists i e, Hooks.events h !! i = Some e /\ same_slot id kind e = true.

Lemma new_event_slot account invoice kind occurred data now :
  kind <> RecoveredFundsEvent -> same_slot invoice kind (new_event account invoice kind occurred data now) = true.
Proof. intros Hk. unfold same_slot. cbn. by rewrite !bool_decide_true, bool_decide_false by done. Qed.

Lemma slot_of account invoice kind occurred data now i k :
  same_slot i k (new_event account invoice kind occurred data now) = true -> i = invoice /\ k = kind.
Proof. unfold same_slot. cbn. intros H. bools. simplify_eq. done. Qed.

Lemma enqueue_reports account invoice kind occurred data now h :
  kind <> RecoveredFundsEvent -> reported (enqueue account invoice kind occurred data now h) invoice kind.
Proof.
  intros Hk. destruct (enqueue_cases account invoice kind occurred data now h) as [[H ->]|[_ (id & _ & ->)]]; [done|].
  exists id. eexists. cbn. rewrite lookup_insert_eq. split; [done|by apply new_event_slot].
Qed.

Lemma enqueue_events account invoice kind occurred data now h i e :
  Hooks.events h !! i = Some e -> Hooks.events (enqueue account invoice kind occurred data now h) !! i = Some e.
Proof.
  intros Hi. destruct (enqueue_cases account invoice kind occurred data now h) as [[_ ->]|[_ (id & Hn & ->)]]; [done|].
  cbn. rewrite lookup_insert_ne; [done|]. congruence.
Qed.

Lemma enqueue_keeps_reports account invoice kind occurred data now h id k :
  reported h id k -> reported (enqueue account invoice kind occurred data now h) id k.
Proof. intros (i & e & Hi & Hs). exists i, e. split; [by apply enqueue_events|done]. Qed.

Lemma enqueue_unique account invoice kind occurred data now h :
  events_unique h -> events_unique (enqueue account invoice kind occurred data now h).
Proof.
  intros Hu. destruct (enqueue_cases account invoice kind occurred data now h) as [[_ ->]|[Hno (id & Hn & ->)]]; [done|].
  intros i j e e' inv k. cbn. rewrite !lookup_insert_Some.
  intros [[<- <-]|[Hi He]] [[<- <-]|[Hj He']] Hs Hs'; [done|exfalso..|by eapply Hu].
  - apply slot_of in Hs as [-> ->]. by rewrite (Hno _ _ He') in Hs'.
  - apply slot_of in Hs' as [-> ->]. by rewrite (Hno _ _ He) in Hs.
Qed.

(** What a row shows that the merchant is told of. *)
Definition shows (row : DbInvoice.t) (kind : EventType) : Prop :=
  status_event (DbInvoice.status row) = Some kind \/
  is_some (DbInvoice.attention_reason row) = true /\ kind = NeedsAttention \/
  is_some (DbInvoice.verification_completed_at row) = true /\ kind = VerificationApproved \/
  is_some (Binding.ready_at (DbInvoice.binding row)) = true /\ kind = Ready \/
  is_some (DbInvoice.likely_unsolicited_at row) = true /\ kind = LikelyUnsolicited.

Lemma shows_not_recovered row kind : shows row kind -> kind <> RecoveredFundsEvent.
Proof. unfold shows. destruct (DbInvoice.status row); naive_solver. Qed.

(** The trigger is a sequence of enqueues for the row's request. *)
Lemma on_invoice_ind (P : Hooks.t -> Prop) old new now h :
  (forall kind occurred data h, P h -> P (enqueue (DbInvoice.account_id new) (DbInvoice.id new) kind occurred data now h)) ->
  P h -> P (on_invoice old new now h).
Proof. intros Hq Hh. unfold on_invoice. cbv zeta. repeat case_match; eauto 10. Qed.

Lemma send_reports (b : bool) account invoice kind occurred data now h id k :
  kind <> RecoveredFundsEvent ->
  reported h id k \/ b = true /\ id = invoice /\ k = kind ->
  reported (if b then enqueue account invoice kind occurred data now h else h) id k.
Proof.
  intros Hk [H|(-> & -> & ->)]; [destruct b; [by apply enqueue_keeps_reports|done]|by apply enqueue_reports].
Qed.

Definition newly_shows (old : option DbInvoice.t) (new : DbInvoice.t) (kind : EventType) : Prop :=
  status_changed old new = true /\ status_event (DbInvoice.status new) = Some kind \/
  newly DbInvoice.attention_reason old new = true /\ kind = NeedsAttention \/
  newly DbInvoice.verification_completed_at old new = true /\ kind = VerificationApproved \/
  newly (fun r => Binding.ready_at (DbInvoice.binding r)) old new = true /\ kind = Ready \/
  newly DbInvoice.likely_unsolicited_at old new = true /\ kind = LikelyUnsolicited.

Lemma on_invoice_reports old new now h kind :
  row_write old new -> newly_shows old new kind -> reported (on_invoice old new now h) (DbInvoice.id new) kind.
Proof.
  intros Hw Hn. pose proof (row_write_plain _ _ Hw) as Hplain. unfold on_invoice. cbv zeta.
  destruct Hn as [[Hs Hk]|[[Ha ->]|[[Hv ->]|[[Hr ->]|[Hl ->]]]]].
  - rewrite (Hplain Hs), Hs, Hk. cbn [orb]. do 3 (apply send_reports; [done|left]). apply enqueue_reports.
    intros ->. by destruct (DbInvoice.status new).
  - rewrite Ha, orb_true_r. do 3 (apply send_reports; [done|left]). by apply enqueue_reports.
  - do 2 (apply send_reports; [done|left]). apply send_reports; [done|by right].
  - apply send_reports; [done|left]. apply send_reports; [done|by right].
  - apply send_reports; [done|by right].
Qed.

Lemma shows_before_or_now old new kind :
  shows new kind -> newly_shows old new kind \/ exists row, old = Some row /\ shows row kind.
Proof.
  unfold shows, newly_shows, status_changed, newly. destruct old as [row|]; cbn.
  - intros [Hs|[[Ha ->]|[[Hv ->]|[[Hr ->]|[Hl ->]]]]].
    + case_bool_decide as E; cbn; [right|by left; left]. injection E as E. exists row. rewrite E. naive_solver.
    + destruct (DbInvoice.attention_reason row) eqn:E; [right; exists row; rewrite E; naive_solver|rewrite Ha; naive_solver].
    + destruct (DbInvoice.verification_completed_at row) eqn:E; [right; exists row; rewrite E; naive_solver|rewrite Hv; naive_solver].
    + destruct (Binding.ready_at (DbInvoice.binding row)) eqn:E; [right; exists row; rewrite E; naive_solver|rewrite Hr; naive_solver].
    + destruct (DbInvoice.likely_unsolicited_at row) eqn:E; [right; exists row; rewrite E; naive_solver|rewrite Hl; naive_solver].
  - rewrite !andb_true_r. naive_solver.
Qed.

(** The other operations write no event with a slot. *)
Definition slots_kept (h h' : Hooks.t) : Prop :=
  forall i e, Hooks.events h' !! i = Some e -> Hooks.events h !! i = Some e \/
    Hooks.events h !! i = None /\ WebhookEvent.fanout e = false.

Lemma slots_kept_unique h h' : slots_kept h h' -> events_unique h -> events_unique h'.
Proof.
  intros Hk Hu i j e e' inv k Hi Hj Hs Hs'.
  destruct (Hk i e Hi) as [Hi'|[_ Hf]]; [|unfold same_slot in Hs; rewrite Hf, andb_false_r in Hs; done].
  destruct (Hk j e' Hj) as [Hj'|[_ Hf]]; [|unfold same_slot in Hs'; rewrite Hf, andb_false_r in Hs'; done].
  by eapply Hu.
Qed.

Lemma add_inv id account known url secret cipher now h e h' :
  add id account known url secret cipher now h = Ok (e, h') ->
  Hooks.endpoints h !! id = None /\ h' = {| h with Hooks.endpoints := <[id := e]> (Hooks.endpoints h) |} /\
  WebhookEndpoint.account_id e = account.
Proof.
  unfold add. destruct (Hooks.endpoints h !! id); cbn; [done|]. destruct known; cbn; [|done].
  destruct (table_any _ _); [done|]. by intros [= <- <-].
Qed.

Lemma disable_inv account id now h :
  snd (disable account id now h) = h \/
  exists e t, Hooks.endpoints h !! id = Some e /\
    snd (disable account id now h) = {| h with Hooks.endpoints :=
      <[id := {| e with WebhookEndpoint.disabled_at := Some t |}]> (Hooks.endpoints h) |}.
Proof.
  unfold disable, get. destruct (Hooks.endpoints h !! id) as [e|] eqn:He; cbn; [|by left].
  destruct (_ =? _); cbn; [|by left]. right. exists e. unfold coalesce.
  destruct (WebhookEndpoint.disabled_at e) as [t|]; eauto.
Qed.

Lemma test_event_inv account endpoint event did utc now h r h' :
  test_event account endpoint event did utc now h = Ok (r, h') ->
  h' = h \/ exists e, Hooks.endpoints h !! endpoint = Some e /\ WebhookEndpoint.account_id e = account /\
    Hooks.events h !! event = None /\ Hooks.deliveries h !! did = None /\
    h' = {| h with Hooks.events := <[event := WebhookEvent.mk account None WebhookTest utc TestData false now]> (Hooks.events h);
            Hooks.deliveries := <[did := WebhookDelivery.fresh_row event endpoint now]> (Hooks.deliveries h) |}.
Proof.
  unfold test_event, get. destruct (Hooks.endpoints h !! endpoint) as [e|]; cbn; [|intros [= _ <-]; by left].
  destruct (Z.eqb_spec (WebhookEndpoint.account_id e) account) as [Ha|]; cbn; [|intros [= _ <-]; by left].
  destruct (WebhookEndpoint.active e); cbn; [|intros [= _ <-]; by left].
  destruct (Hooks.events h !! event); cbn; [done|]. destruct (Hooks.deliveries h !! did); cbn; [done|].
  intros [= _ <-]. right. eauto 10.
Qed.

Lemma claim_inv token now h :
  claim token now h = (None, h) \/
  exists id d ep ev, next_due now h = Some (id, d) /\
    Hooks.endpoints h !! WebhookDelivery.endpoint_id d = Some ep /\ Hooks.events h !! WebhookDelivery.event_id d = Some ev /\
    claim token now h =
      (Some (DeliveryClaim.mk id (WebhookDelivery.attempt_count d + 1) token (WebhookEndpoint.url ep)
               (WebhookEndpoint.secret_ciphertext ep) (WebhookEndpoint.secret_cipher_version ep)
               (WebhookDelivery.event_id d) (WebhookEvent.event_type ev) (WebhookEvent.occurred_at ev) (WebhookEvent.data ev)),
       {| h with Hooks.deliveries := <[id := leased token now d]> (Hooks.deliveries h) |}).
Proof.
  unfold claim. destruct (next_due now h) as [[id d]|]; [|by left].
  destruct (Hooks.endpoints h !! _) as [ep|] eqn:Hep; [|by left]. destruct (Hooks.events h !! _) as [ev|] eqn:Hev; [|by left].
  right. by exists id, d, ep, ev.
Qed.

Lemma complete_inv c attempted duration status error now h h' :
  complete c attempted duration status error now h = Ok h' ->
  let id := DeliveryClaim.delivery_id c in
  let success := succeeded status in
  let terminal := negb success && (MAX_ATTEMPTS <=? DeliveryClaim.attempt_number c) in
  exists d error', Hooks.deliveries h !! id = Some d /\ 0 <= duration /\
    let h1 := record_attempt (id, DeliveryClaim.attempt_number c) (WebhookAttempt.mk attempted duration status error') h in
    h' = if holds c d then {| h1 with Hooks.deliveries := <[id := concluded success terminal now d]> (Hooks.deliveries h1) |}
         else h1.
Proof.
  unfold complete. cbv zeta. intros (error' & _ & H)%rbind_ok. destruct (Z.ltb_spec duration 0); [done|].
  destruct (Hooks.deliveries h !! _) as [d|] eqn:Hd; [|done]. injection H as <-. exists d, error'. done.
Qed.

Lemma record_attempt_frame key a h :
  Hooks.endpoints (record_attempt key a h) = Hooks.endpoints h /\ Hooks.events (record_attempt key a h) = Hooks.events h /\
  Hooks.deliveries (record_attempt key a h) = Hooks.deliveries h.
Proof. unfold record_attempt. by destruct (Hooks.attempts h !! key). Qed.

(** Every step but a row's write keeps the events, and adds none with a slot. *)
Definition events_grow (h h' : Hooks.t) : Prop :=
  (forall i e, Hooks.events h !! i = Some e -> Hooks.events h' !! i = Some e) /\ slots_kept h h'.

Lemma same_events h h' : Hooks.events h' = Hooks.events h -> events_grow h h'.
Proof. intros E. split; [by rewrite E|]. intros i e. rewrite E. by left. Qed.

Lemma claim_events token now h : Hooks.events (snd (claim token now h)) = Hooks.events h.
Proof. by destruct (claim_inv token now h) as [->|(id & d & ep & ev & _ & _ & _ & ->)]. Qed.

Lemma complete_events c attempted duration status error now h h' :
  complete c attempted duration status error now h = Ok h' -> Hooks.events h' = Hooks.events h.
Proof.
  intros (d & e & _ & _ & ->)%complete_inv. destruct (record_attempt_frame (DeliveryClaim.delivery_id c, DeliveryClaim.attempt_number c)
    (WebhookAttempt.mk attempted duration status e) h) as (_ & E & _). by destruct (holds c d).
Qed.

Lemma test_events account endpoint event did utc now h r h' :
  test_event account endpoint event did utc now h = Ok (r, h') -> events_grow h h'.
Proof.
  intros [->|(e & _ & _ & Hn & _ & ->)]%test_event_inv; [by apply same_events|]. split; cbn.
  - intros i e' Hi. rewrite lookup_insert_ne; congruence.
  - intros i e'. cbn. rewrite lookup_insert_Some. intros [[<- <-]|[_ Hi]]; [by right|by left].
Qed.

Record events_ok (w : HookWorld.t) : Prop := {
  eo_unique : events_unique (HookWorld.hooks w);
  eo_reported : forall id row kind, HookWorld.rows w !! id = Some row -> shows row kind -> reported (HookWorld.hooks w) id kind;
}.

Lemma events_grow_ok w w' :
  HookWorld.rows w' = HookWorld.rows w -> events_grow (HookWorld.hooks w) (HookWorld.hooks w') -> events_ok w -> events_ok w'.
Proof.
  intros Er [Hg Hs] [Hu Hr]. split; [by eapply slots_kept_unique|]. intros id row kind. rewrite Er. intros Hrow Hsh.
  destruct (Hr id row kind Hrow Hsh) as (i & e & Hi & He). exists i, e. split; [by apply Hg|done].
Qed.

Lemma hook_step_events w w' : hook_step w w' -> events_ok w -> events_ok w'.
Proof.
  intros [id old new now Hold Hid Hw|id row reason tx funds now Hrow|id account known url secret cipher now e h' H
         |account id now|account endpoint event did utc now r h' H|token now Ht|c attempted duration status error now h' Hc H] Hok.
  - destruct Hok as [Hu Hr]. split; cbn.
    + apply on_invoice_ind; [intros; by apply enqueue_unique|done].
    + intros id' row kind Hrow Hsh. apply lookup_insert_Some in Hrow as [[<- <-]|[_ Hrow]].
      * destruct (shows_before_or_now old new kind Hsh) as [Hn|(row & -> & Hsh')].
        -- rewrite <- Hid. by apply on_invoice_reports.
        -- apply on_invoice_ind; [intros; by apply enqueue_keeps_reports|by eapply Hr].
      * apply on_invoice_ind; [intros; by apply enqueue_keeps_reports|by eapply Hr].
  - destruct Hok as [Hu Hr]. split; cbn; unfold on_recovered; [by apply enqueue_unique|].
    intros id' row' kind Hrow' Hsh. apply enqueue_keeps_reports. by eapply Hr.
  - apply add_inv in H as (_ & -> & _). eapply events_grow_ok; [..|exact Hok]; [done|by apply same_events].
  - eapply events_grow_ok; [..|exact Hok]; [done|]. apply same_events. cbn.
    by destruct (disable_inv account id now (HookWorld.hooks w)) as [->|(e & t & _ & ->)].
  - eapply events_grow_ok; [..|exact Hok]; [done|by eapply test_events].
  - eapply events_grow_ok; [..|exact Hok]; [done|apply same_events, claim_events].
  - eapply events_grow_ok; [..|exact Hok]; [done|]. apply same_events. by eapply complete_events.
Qed.

Lemma hook_runs_events w : rtc hook_step HookWorld.start w -> events_ok w.
Proof.
  intros Hr. assert (events_ok HookWorld.start) as H0.
  { split; [by intros i j e e' inv k|]. by intros id row kind Hrow. }
  induction Hr; eauto using hook_step_events.
Qed.

(** C29. Whatever a request's row shows (a status it reached, a flag, a
    completed verification, an address, unsolicited funds) has been reported:
    in every history there is one event of that kind for the request, and
    never two. *)
Theorem shown_facts_reported_once w id row kind :
  rtc hook_step HookWorld.start w -> HookWorld.rows w !! id = Some row -> shows row kind ->
  exists i e, Hooks.events (HookWorld.hooks w) !! i = Some e /\ WebhookEvent.invoice_id e = Some id /\
    WebhookEvent.event_type e = kind /\ WebhookEvent.fanout e = true /\
    forall j e', Hooks.events (HookWorld.hooks w) !! j = Some e' -> WebhookEvent.invoice_id e' = Some id ->
      WebhookEvent.event_type e' = kind -> WebhookEvent.fanout e' = true -> j = i.
Proof.
  intros Hrun Hrow Hsh. destruct (hook_runs_events w Hrun) as [Hu Hr].
  destruct (Hr id row kind Hrow Hsh) as (i & e & Hi & Hs). exists i, e. pose proof Hs as Hs2. unfold same_slot in Hs2. bools.
  split_and!; try done. intros j e' Hj Hinv Hty Hfan. eapply Hu; [exact Hj|exact Hi| |exact Hs].
  unfold same_slot. rewrite Hinv, Hty, Hfan, !bool_decide_true by done. cbn. by rewrite bool_decide_false.
Qed.

(** ** Deliveries *)

(** Why a concluded delivery was concluded. *)
Definition grounded (h : Hooks.t) (id : Uuid) (d : WebhookDelivery.t) : Prop :=
  match WebhookDelivery.state d with
  | DPending => True
  | DDelivered => exists n a, Hooks.attempts h !! (id, n) = Some a /\ succeeded (WebhookAttempt.status a) = true
  | DFailed => exists n a, Hooks.attempts h !! (id, n) = Some a /\ MAX_ATTEMPTS <= n /\
      succeeded (WebhookAttempt.status a) = false
  end.

Definition numbered (d : WebhookDelivery.t) (n : Z) : Prop := 1 <= n <= WebhookDelivery.attempt_count d.

Record deliveries_ok (h : Hooks.t) (claims : list DeliveryClaim.t) : Prop := {
  dl_refs : forall id d, Hooks.deliveries h !! id = Some d ->
    is_Some (Hooks.events h !! WebhookDelivery.event_id d) /\ is_Some (Hooks.endpoints h !! WebhookDelivery.endpoint_id d);
  dl_once : forall i j d d', Hooks.deliveries h !! i = Some d -> Hooks.deliveries h !! j = Some d' ->
    WebhookDelivery.event_id d = WebhookDelivery.event_id d' ->
    WebhookDelivery.endpoint_id d = WebhookDelivery.endpoint_id d' -> i = j;
  dl_grounded : forall id d, Hooks.deliveries h !! id = Some d -> grounded h id d;
  dl_unleased : forall id d, Hooks.deliveries h !! id = Some d -> WebhookDelivery.state d <> DPending ->
    WebhookDelivery.lease_token d = None;
  dl_count : forall id d, Hooks.deliveries h !! id = Some d -> 0 <= WebhookDelivery.attempt_count d;
  dl_attempts : forall id n a, Hooks.attempts h !! (id, n) = Some a ->
    exists d, Hooks.deliveries h !! id = Some d /\ numbered d n;
  dl_claims : forall c, c ∈ claims -> exists d, Hooks.deliveries h !! DeliveryClaim.delivery_id c = Some d /\
    numbered d (DeliveryClaim.attempt_number c) /\
    (WebhookDelivery.lease_token d = Some (DeliveryClaim.lease_token c) ->
       DeliveryClaim.attempt_number c = WebhookDelivery.attempt_count d /\
       Hooks.attempts h !! (DeliveryClaim.delivery_id c, DeliveryClaim.attempt_number c) = None);
  dl_leases : forall id d t, Hooks.deliveries h !! id = Some d -> WebhookDelivery.lease_token d = Some t ->
    exists c, c ∈ claims /\ DeliveryClaim.lease_token c = t;
  dl_numbers : forall c c', c ∈ claims -> c' ∈ claims -> DeliveryClaim.delivery_id c = DeliveryClaim.delivery_id c' ->
    DeliveryClaim.attempt_number c = DeliveryClaim.attempt_number c' ->
    DeliveryClaim.lease_token c = DeliveryClaim.lease_token c';
}.

(** Tables that only gain rows nobody claimed. *)
Record rows_added (h h' : Hooks.t) : Prop := {
  ra_endpoints : forall e, is_Some (Hooks.endpoints h !! e) -> is_Some (Hooks.endpoints h' !! e);
  ra_events : forall e, is_Some (Hooks.events h !! e) -> is_Some (Hooks.events h' !! e);
  ra_attempts : Hooks.attempts h' = Hooks.attempts h;
  ra_kept : forall id d, Hooks.deliveries h !! id = Some d -> Hooks.deliveries h' !! id = Some d;
  ra_new : forall id d, Hooks.deliveries h' !! id = Some d -> Hooks.deliveries h !! id = Some d \/
    exists event endpoint now, d = WebhookDelivery.fresh_row event endpoint now /\ Hooks.events h !! event = None /\
      is_Some (Hooks.events h' !! event) /\ is_Some (Hooks.endpoints h' !! endpoint);
  ra_once : forall i j d d', Hooks.deliveries h' !! i = Some d -> Hooks.deliveries h' !! j = Some d' ->
    Hooks.events h !! WebhookDelivery.event_id d = None -> WebhookDelivery.event_id d = WebhookDelivery.event_id d' ->
    WebhookDelivery.endpoint_id d = WebhookDelivery.endpoint_id d' -> i = j;
}.

Lemma rows_added_ok h h' claims : rows_added h h' -> deliveries_ok h claims -> deliveries_ok h' claims.
Proof.
  intros [A1 A2 A3 A4 A5 A6] [D1 D2 D3 D4 D5 D6 D7 D8 D9]. split.
  - intros id d [Hd|(ev & ep & now & -> & _ & Hev & Hep)]%A5; [|done]. destruct (D1 _ _ Hd). auto.
  - intros i j d d' Hi Hj E E'. destruct (A5 _ _ Hi) as [Hi'|(ev & ep & now & -> & Hn & _)]; [|by eapply (A6 i j)].
    destruct (A5 _ _ Hj) as [Hj'|(ev & ep & now & -> & Hn & _)]; [by eapply D2|]. symmetry. by eapply (A6 j i).
  - intros id d [Hd|(ev & ep & now & -> & _)]%A5; [|done]. specialize (D3 _ _ Hd). unfold grounded in *. by rewrite A3.
  - intros id d [Hd|(ev & ep & now & -> & _)]%A5; [by eapply D4|done].
  - intros id d [Hd|(ev & ep & now & -> & _)]%A5; [by eapply D5|done].
  - intros id n a. rewrite A3. intros (d & Hd & Hn)%D6. eauto.
  - intros c (d & Hd & Hn & Hl)%D7. rewrite A3. eauto.
  - intros id d t [Hd|(ev & ep & now & -> & _)]%A5; [by eapply D8|done].
  - done.
Qed.

Lemma enqueue_adds account invoice kind occurred data now h claims : deliveries_ok h claims ->
  rows_added h (enqueue account invoice kind occurred data now h).
Proof.
  intros Hok. destruct (enqueue_cases account invoice kind occurred data now h) as [[_ ->]|[_ (id & Hn & ->)]].
  - split; try done; [by left|]. intros i j d d' Hi Hj Hno. by destruct (dl_refs _ _ Hok _ _ Hi) as [[? ?] _]; simplify_eq.
  - assert (forall i d, foldl (fan_out_to id now) (Hooks.deliveries h) (active_endpoints account (Hooks.endpoints h)) !! i = Some d ->
      Hooks.deliveries h !! i = Some d /\ WebhookDelivery.event_id d <> id \/ Hooks.deliveries h !! i = None /\
      exists e, e ∈ active_endpoints account (Hooks.endpoints h) /\ d = WebhookDelivery.fresh_row id e now) as Hcase.
    { intros i d [Hd|H]%fan_out_adds; [left|by right]. split; [done|]. intros <-.
      by destruct (dl_refs _ _ Hok _ _ Hd) as [[? ?] _]; simplify_eq. }
    split; cbn; try done.
    + intros e [x He]. destruct (decide (e = id)) as [->|]; [by rewrite lookup_insert_eq|rewrite lookup_insert_ne by done; by exists x].
    + intros i d. apply fan_out_keeps.
    + intros i d [[Hd _]|(_ & e & He & ->)]%Hcase; [by left|right]. exists id, e, now. split; [done|]. split; [done|].
      rewrite lookup_insert_eq. split; [done|]. apply active_endpoints_elem in He as (row & -> & _). by eexists.
    + intros i j d d' Hi Hj Hno E E'. destruct (Hcase _ _ Hi) as [[Hd _]|(Hi0 & e & He & ->)].
      { by destruct (dl_refs _ _ Hok _ _ Hd) as [[? ?] _]; simplify_eq. }
      destruct (Hcase _ _ Hj) as [[_ Hne]|(Hj0 & e' & He' & ->)]; [by cbn in E|]. cbn in E'. subst e'.
      destruct (fan_out_once id now _ (active_endpoints_nodup account (Hooks.endpoints h)) (Hooks.deliveries h) e He)
        as (k & _ & _ & Hu). rewrite (Hu i _ Hi0 Hi), (Hu j _ Hj0 Hj); done.
Qed.

Lemma enqueue_ok account invoice kind occurred data now h claims :
  deliveries_ok h claims -> deliveries_ok (enqueue account invoice kind occurred data now h) claims.
Proof. intros Hok. eapply rows_added_ok; [by eapply enqueue_adds|done]. Qed.

(** A change of the endpoints alone that loses none. *)
Lemma endpoints_added h endpoints claims :
  deliveries_ok h claims -> (forall e, is_Some (Hooks.endpoints h !! e) -> is_Some (endpoints !! e)) ->
  deliveries_ok {| h with Hooks.endpoints := endpoints |} claims.
Proof.
  intros Hok He. eapply rows_added_ok; [|exact Hok]. split; cbn; try done; [by left|].
  intros i j d d' Hi Hj Hno. by destruct (dl_refs _ _ Hok _ _ Hi) as [[? ?] _]; simplify_eq.
Qed.

Lemma is_Some_insert {V} (m : gmap Uuid V) k v e : is_Some (m !! e) -> is_Some (<[k := v]> m !! e).
Proof. rewrite lookup_insert_is_Some'. by right. Qed.

Lemma test_event_ok account endpoint event did utc now h r h' claims :
  test_event account endpoint event did utc now h = Ok (r, h') -> deliveries_ok h claims -> deliveries_ok h' claims.
Proof.
  intros [->|(e & He & _ & Hev & Hd & ->)]%test_event_inv Hok; [done|]. eapply rows_added_ok; [|exact Hok].
  assert (forall i d, Hooks.deliveries h !! i = Some d -> WebhookDelivery.event_id d <> event) as Hne.
  { intros i d Hi E. by destruct (dl_refs _ _ Hok _ _ Hi) as [[? ?] _]; simplify_eq. }
  split; cbn; try done.
  - intros x. apply is_Some_insert.
  - intros i d Hi. rewrite lookup_insert_ne; congruence.
  - intros i d. rewrite lookup_insert_Some. intros [[<- <-]|[_ Hi]]; [right|by left]. exists event, endpoint, now.
    split; [done|]. split; [done|]. rewrite lookup_insert_eq. split; [done|by rewrite He].
  - intros i j d d'. rewrite !lookup_insert_Some. intros [[<- <-]|[_ Hi]] [[<- <-]|[_ Hj]] Hno E _; [done|..].
    + by destruct (Hne _ _ Hj).
    + by destruct (Hne _ _ Hi).
    + by destruct (dl_refs _ _ Hok _ _ Hi) as [[? ?] _]; simplify_eq.
Qed.

#[local] Instance due_before_total : Total due_before.
Proof. intros a b. unfold due_before. lia. Qed.

#[local] Instance due_before_transitive : Transitive due_before.
Proof. intros a b c. unfold due_before. lia. Qed.

Lemma next_due_some now h id d : next_due now h = Some (id, d) ->
  Hooks.deliveries h !! id = Some d /\ claimable now h d = true /\
  forall i d', Hooks.deliveries h !! i = Some d' -> claimable now h d' = true ->
    WebhookDelivery.next_attempt_at d <= WebhookDelivery.next_attempt_at d'.
Proof.
  intros H. destruct (first_row_some due_before (claimable now h) (Hooks.deliveries h) id d H) as (Hd & Hc & Hmin).
  split; [done|]. split; [done|]. intros i d' Hi Hci. by destruct (Hmin i d' Hi Hci) as [[= -> ->]|?].
Qed.

Lemma next_due_none now h : next_due now h = None ->
  forall i d, Hooks.deliveries h !! i = Some d -> claimable now h d = false.
Proof. exact (first_row_none due_before (claimable now h) (Hooks.deliveries h)). Qed.

Lemma claim_ok token now h claims :
  token ∉ (DeliveryClaim.lease_token <$> claims) -> deliveries_ok h claims ->
  deliveries_ok (snd (claim token now h)) (option_list (fst (claim token now h)) ++ claims).
Proof.
  intros Htok Hok. destruct (claim_inv token now h) as [->|(id & d & ep & ev & Hnd & Hep & Hev & ->)]; [done|].
  apply next_due_some in Hnd as (Hd & Hc & _). unfold claimable in Hc. bools. cbn [fst snd option_list app].
  destruct Hok as [D1 D2 D3 D4 D5 D6 D7 D8 D9].
  assert (forall c, c ∈ claims -> DeliveryClaim.lease_token c <> token) as Hfresh.
  { intros c Hc' <-. apply Htok. by apply list.list_elem_of_fmap_2. }
  split; cbn.
  - intros i x. rewrite lookup_insert_Some. intros [[<- <-]|[_ Hi]]; [by apply (D1 id d)|by eapply D1].
  - intros i j x y. rewrite !lookup_insert_Some. intros [[<- <-]|[_ Hi]] [[<- <-]|[_ Hj]] E E'; [done|..|by eapply D2].
    + by eapply (D2 id j d y).
    + by eapply (D2 i id x d).
  - intros i x. rewrite lookup_insert_Some. intros [[<- <-]|[_ Hi]]; [by apply (D3 id d)|by apply D3].
  - intros i x. rewrite lookup_insert_Some. intros [[<- <-]|[_ Hi]]; [done|by eapply D4].
  - intros i x. rewrite lookup_insert_Some. intros [[<- <-]|[_ Hi]]; [cbn; pose proof (D5 id d Hd); lia|by eapply D5].
  - intros i n a Ha. destruct (D6 i n a Ha) as (x & Hx & Hn). destruct (decide (i = id)) as [->|].
    + rewrite lookup_insert_eq. eexists. split; [done|]. simplify_eq. unfold numbered in *. cbn. lia.
    + rewrite lookup_insert_ne by done. eauto.
  - intros c [->|Hc']%list.elem_of_cons.
    + cbn. rewrite lookup_insert_eq. eexists. split; [done|]. pose proof (D5 id d Hd). split; [unfold numbered; cbn; lia|].
      intros _. split; [done|]. destruct (Hooks.attempts h !! (id, _)) as [a|] eqn:Ha; [|done].
      destruct (D6 _ _ _ Ha) as (x & Hx & Hn). simplify_eq. unfold numbered in Hn. lia.
    + destruct (D7 c Hc') as (x & Hx & Hn & Hl). destruct (decide (DeliveryClaim.delivery_id c = id)) as [E|].
      * rewrite E in *. rewrite lookup_insert_eq. eexists. split; [done|]. simplify_eq. split; [unfold numbered in *; cbn; lia|].
        cbn. intros [= Et]. by destruct (Hfresh c Hc').
      * rewrite lookup_insert_ne by done. eauto.
  - intros i x t. rewrite lookup_insert_Some. intros [[<- <-]|[_ Hi]] Ht.
    + cbn in Ht. injection Ht as <-. eexists. split; [apply list_elem_of_here|done].
    + destruct (D8 _ _ _ Hi Ht) as (c & Hcin & E). exists c. split; [by apply list_elem_of_further|done].
  - assert (forall c, c ∈ claims -> DeliveryClaim.delivery_id c = id ->
      DeliveryClaim.attempt_number c < WebhookDelivery.attempt_count d + 1) as Hlow.
    { intros c Hc' E. destruct (D7 c Hc') as (x & Hx & [_ Hn] & _). rewrite E in Hx. simplify_eq. lia. }
    intros c c' [->|Hc1]%list.elem_of_cons [->|Hc2]%list.elem_of_cons E En; [done|..|by eapply D9]; cbn in *.
    + specialize (Hlow c' Hc2 (eq_sym E)). lia.
    + specialize (Hlow c Hc1 E). lia.
Qed.

Lemma record_attempt_lookup key a h k x :
  Hooks.attempts (record_attempt key a h) !! k = Some x <->
  Hooks.attempts h !! k = Some x \/ Hooks.attempts h !! key = None /\ k = key /\ x = a.
Proof.
  unfold record_attempt. destruct (Hooks.attempts h !! key) as [y|] eqn:Hy; cbn; [naive_solver|].
  rewrite lookup_insert_Some. destruct (decide (key = k)) as [<-|]; naive_solver.
Qed.

(** The attempt is logged; the delivery is untouched. *)
Lemma record_attempt_ok c a h claims d :
  c ∈ claims -> Hooks.deliveries h !! DeliveryClaim.delivery_id c = Some d -> holds c d = false ->
  deliveries_ok h claims ->
  deliveries_ok (record_attempt (DeliveryClaim.delivery_id c, DeliveryClaim.attempt_number c) a h) claims.
Proof.
  intros Hc Hd Hnh [D1 D2 D3 D4 D5 D6 D7 D8 D9].
  destruct (record_attempt_frame (DeliveryClaim.delivery_id c, DeliveryClaim.attempt_number c) a h) as (E1 & E2 & E3).
  destruct (D7 c Hc) as (x & Hx & Hn & Hl). simplify_eq.
  split; rewrite ?E1, ?E2, ?E3; try done.
  - intros id y Hy. specialize (D3 _ _ Hy). unfold grounded in *. destruct (WebhookDelivery.state y); try done.
    + destruct D3 as (n & b & Hb & Hs). exists n, b. split; [|done]. apply record_attempt_lookup. by left.
    + destruct D3 as (n & b & Hb & Hs). exists n, b. split; [|done]. apply record_attempt_lookup. by left.
  - intros id n b [Hb|(_ & [= -> ->] & ->)]%record_attempt_lookup; [by eapply D6|eauto].
  - intros c' Hc'. destruct (D7 c' Hc') as (y & Hy & Hn' & Hl'). exists y. split; [done|]. split; [done|]. intros Ht.
    destruct (Hl' Ht) as [En Ea]. split; [done|]. destruct (Hooks.attempts (record_attempt _ _ _) !! _) as [b|] eqn:Hb; [|done].
    apply record_attempt_lookup in Hb as [Hb|(_ & [= E E'] & _)]; [congruence|]. exfalso.
    rewrite E in Hy. simplify_eq. unfold holds in Hnh. rewrite Ht, (D9 c' c Hc' Hc E E') in Hnh.
    rewrite bool_decide_true in Hnh by done. cbn in Hnh. bools. by rewrite (D4 _ _ Hd Hnh) in Ht.
Qed.

(** The holder of the lease concludes or reschedules. *)
Lemma conclude_ok c attempted duration status error now h claims d :
  let success := succeeded status in
  let terminal := negb success && (MAX_ATTEMPTS <=? DeliveryClaim.attempt_number c) in
  let h1 := record_attempt (DeliveryClaim.delivery_id c, DeliveryClaim.attempt_number c)
              (WebhookAttempt.mk attempted duration status error) h in
  c ∈ claims -> Hooks.deliveries h !! DeliveryClaim.delivery_id c = Some d -> holds c d = true ->
  deliveries_ok h claims ->
  deliveries_ok {| h1 with Hooks.deliveries := <[DeliveryClaim.delivery_id c := concluded success terminal now d]> (Hooks.deliveries h1) |} claims.
Proof.
  intros success terminal h1 Hc Hd Hh [D1 D2 D3 D4 D5 D6 D7 D8 D9]. unfold holds in Hh. bools.
  destruct (record_attempt_frame (DeliveryClaim.delivery_id c, DeliveryClaim.attempt_number c)
    (WebhookAttempt.mk attempted duration status error) h) as (E1 & E2 & E3). fold h1 in E1, E2, E3.
  destruct (D7 c Hc) as (x & Hx & Hn & Hl). simplify_eq. destruct Hl as [Hcount Hnone]; [done|].
  assert (Hooks.attempts h1 !! (DeliveryClaim.delivery_id c, DeliveryClaim.attempt_number c) =
    Some (WebhookAttempt.mk attempted duration status error)) as Hrec by (apply record_attempt_lookup; by right).
  assert (forall k b, Hooks.attempts h !! k = Some b -> Hooks.attempts h1 !! k = Some b) as Hkept
    by (intros k b Hb; apply record_attempt_lookup; by left).
  split; cbn; rewrite ?E1, ?E2, ?E3.
  - intros i y. rewrite lookup_insert_Some. intros [[<- <-]|[_ Hi]]; [exact (D1 _ _ Hd)|by eapply D1].
  - intros i j y z. rewrite !lookup_insert_Some. intros [[<- <-]|[_ Hi]] [[<- <-]|[_ Hj]] E E'; [done|..|by eapply D2].
    + exact (D2 _ _ _ _ Hd Hj E E').
    + exact (D2 _ _ _ _ Hi Hd E E').
  - intros i y. rewrite lookup_insert_Some. intros [[<- <-]|[_ Hi]].
    + unfold grounded, concluded, terminal. cbn. destruct success eqn:Hs; cbn; [by eauto|].
      destruct (Z.leb_spec MAX_ATTEMPTS (DeliveryClaim.attempt_number c)); [by eauto 6|done].
    + specialize (D3 _ _ Hi). unfold grounded in *. cbn. destruct (WebhookDelivery.state y); naive_solver.
  - intros i y. rewrite lookup_insert_Some. intros [[<- <-]|[_ Hi]]; [done|by eapply D4].
  - intros i y. rewrite lookup_insert_Some. intros [[<- <-]|[_ Hi]]; [exact (D5 _ _ Hd)|by eapply D5].
  - intros i n b Hb. assert (exists y, Hooks.deliveries h !! i = Some y /\ numbered y n) as (y & Hy & Hyn).
    { apply record_attempt_lookup in Hb as [Hb|(_ & [= -> ->] & _)]; [by eapply D6|by eauto]. }
    destruct (decide (i = DeliveryClaim.delivery_id c)) as [->|].
    + rewrite lookup_insert_eq. eexists. split; [done|]. by simplify_eq.
    + rewrite lookup_insert_ne by done. eauto.
  - intros c' Hc'. destruct (D7 c' Hc') as (y & Hy & Hn' & Hl').
    destruct (decide (DeliveryClaim.delivery_id c' = DeliveryClaim.delivery_id c)) as [E|Hne].
    + rewrite E in *. rewrite lookup_insert_eq. eexists. split; [done|]. simplify_eq. by split.
    + rewrite lookup_insert_ne by done. exists y. split; [done|]. split; [done|]. intros Ht. destruct (Hl' Ht) as [? Ha].
      split; [done|].
      destruct (Hooks.attempts h1 !! (DeliveryClaim.delivery_id c', DeliveryClaim.attempt_number c')) eqn:Hb; [|done].
      apply record_attempt_lookup in Hb as [Hb|(_ & E & _)]; congruence.
  - intros i y t. rewrite lookup_insert_Some. intros [[<- <-]|[_ Hi]] Ht; [done|by eapply D8].
  - done.
Qed.

Lemma hook_step_deliveries w w' :
  hook_step w w' -> deliveries_ok (HookWorld.hooks w) (HookWorld.claims w) ->
  deliveries_ok (HookWorld.hooks w') (HookWorld.claims w').
Proof.
  intros [id old new now Hold Hid Hw|id row reason tx funds now Hrow|id account known url secret cipher now e h' H
         |account id now|account endpoint event did utc now r h' H|token now Ht|c attempted duration status error now h' Hc H] Hok; cbn.
  - apply (on_invoice_ind (fun h => deliveries_ok h (HookWorld.claims w))); [intros; by apply enqueue_ok|done].
  - by apply enqueue_ok.
  - apply add_inv in H as (Hn & -> & _). apply endpoints_added; [done|]. intros x. apply is_Some_insert.
  - destruct (disable_inv account id now (HookWorld.hooks w)) as [->|(e & t & He & ->)]; [done|].
    apply endpoints_added; [done|]. intros x. apply is_Some_insert.
  - by eapply test_event_ok.
  - by apply claim_ok.
  - apply complete_inv in H as (d & error' & Hd & _ & ->). destruct (holds c d) eqn:Hh; [by apply conclude_ok|].
    by eapply record_attempt_ok.
Qed.

Lemma hook_runs_deliveries w w' :
  rtc hook_step w w' -> deliveries_ok (HookWorld.hooks w) (HookWorld.claims w) ->
  deliveries_ok (HookWorld.hooks w') (HookWorld.claims w').
Proof. induction 1; eauto using hook_step_deliveries. Qed.

Lemma no_deliveries_ok : deliveries_ok Hooks.empty [].
Proof. split; try done; intros; by rewrite ?list.elem_of_nil in *. Qed.

(** A concluded row, and every logged attempt, stays as it is. *)
Definition conclusions_kept (h h' : Hooks.t) : Prop :=
  (forall id d, Hooks.deliveries h !! id = Some d -> WebhookDelivery.state d <> DPending ->
     Hooks.deliveries h' !! id = Some d) /\
  Hooks.attempts h ⊆ Hooks.attempts h'.

#[local] Instance conclusions_kept_preorder : PreOrder conclusions_kept.
Proof. split; [by split|]. intros a b c [H1 H2] [K1 K2]. split; [eauto|by etrans]. Qed.

Lemma rows_added_kept h h' : rows_added h h' -> conclusions_kept h h'.
Proof. intros [_ _ A3 A4 _ _]. split; [eauto|by rewrite A3]. Qed.

Lemma enqueue_kept account invoice kind occurred data now h :
  conclusions_kept h (enqueue account invoice kind occurred data now h).
Proof.
  destruct (enqueue_cases account invoice kind occurred data now h) as [[_ ->]|[_ (id & _ & ->)]]; [done|].
  split; [|done]. intros i d Hd _. by apply fan_out_keeps.
Qed.

Lemma claim_kept token now h : conclusions_kept h (snd (claim token now h)).
Proof.
  destruct (claim_inv token now h) as [->|(id & d & ep & ev & Hnd & _ & _ & ->)]; [done|]. split; [|done]. cbn.
  apply next_due_some in Hnd as (Hd & Hc & _). unfold claimable in Hc. bools. intros i x Hi Hs.
  rewrite lookup_insert_ne; [done|]. intros <-. congruence.
Qed.

Lemma complete_kept c attempted duration status error now h h' :
  complete c attempted duration status error now h = Ok h' -> conclusions_kept h h'.
Proof.
  intros (d & e & Hd & _ & ->)%complete_inv.
  set (key := (DeliveryClaim.delivery_id c, DeliveryClaim.attempt_number c)). set (a := WebhookAttempt.mk _ _ _ _).
  destruct (record_attempt_frame key a h) as (_ & _ & E).
  assert (Hooks.attempts h ⊆ Hooks.attempts (record_attempt key a h)) as Hsub.
  { apply map_subseteq_spec. intros k b Hb. apply record_attempt_lookup. by left. }
  destruct (holds c d) eqn:Hh; (split; [|done]); cbn; rewrite E; [|done]. intros i x Hi Hs.
  rewrite lookup_insert_ne; [done|]. intros <-. unfold holds in Hh. bools. congruence.
Qed.

Lemma hook_step_kept w w' : hook_step w w' -> conclusions_kept (HookWorld.hooks w) (HookWorld.hooks w').
Proof.
  intros [id old new now Hold Hid Hw|id row reason tx funds now Hrow|id account known url secret cipher now e h' H
         |account id now|account endpoint event did utc now r h' H|token now Ht|c attempted duration status error now h' Hc H]; cbn.
  - apply (on_invoice_ind (conclusions_kept (HookWorld.hooks w))); [|done]. intros. etrans; [done|apply enqueue_kept].
  - apply enqueue_kept.
  - by apply add_inv in H as (_ & -> & _).
  - by destruct (disable_inv account id now (HookWorld.hooks w)) as [->|(e & t & He & ->)].
  - apply test_event_inv in H as [->|(e & _ & _ & _ & Hd & ->)]; [done|]. split; [|done]. cbn. intros i x Hi _.
    rewrite lookup_insert_ne; congruence.
  - apply claim_kept.
  - by eapply complete_kept.
Qed.

(** C30. A delivery is concluded once, on a recorded attempt: in every history a
    delivery that is delivered or failed stays exactly as it is, delivered
    means an attempt that was answered 2xx is logged for it and failed that one
    numbered at least the twelfth was not, attempts are never rewritten, and
    an event has one delivery per endpoint. *)
Theorem delivery_concluded_once w w' id d :
  rtc hook_step HookWorld.start w -> rtc hook_step w w' ->
  Hooks.deliveries (HookWorld.hooks w) !! id = Some d -> WebhookDelivery.state d <> DPending ->
  Hooks.deliveries (HookWorld.hooks w') !! id = Some d /\ grounded (HookWorld.hooks w) id d /\
  Hooks.attempts (HookWorld.hooks w) ⊆ Hooks.attempts (HookWorld.hooks w') /\
  forall j d', Hooks.deliveries (HookWorld.hooks w') !! j = Some d' ->
    WebhookDelivery.event_id d' = WebhookDelivery.event_id d ->
    WebhookDelivery.endpoint_id d' = WebhookDelivery.endpoint_id d -> j = id.
Proof.
  intros H0 Hr Hd Hs. pose proof (hook_runs_deliveries _ _ H0 no_deliveries_ok) as Hok.
  pose proof (hook_runs_deliveries _ _ Hr Hok) as Hok'.
  assert (conclusions_kept (HookWorld.hooks w) (HookWorld.hooks w')) as [K1 K2].
  { clear -Hr. induction Hr as [|a b c Hab _ IH]; [done|]. etrans; [by apply hook_step_kept|exact IH]. }
  split; [by apply K1|]. split; [by apply (dl_grounded _ _ Hok)|]. split; [done|].
  intros j d' Hj E E'. by eapply (dl_once _ _ Hok'); [|apply K1|..].
Qed.

(** A claim serves the delivery that has waited longest: it takes a pending
    delivery of an active endpoint that is due and not leased, no such delivery
    is due earlier, only that row changes, by one attempt and a lease of sixty
    seconds; and in every history there is none to take only when no delivery
    is due. *)
Theorem claim_serves_earliest w token now :
  rtc hook_step HookWorld.start w ->
  let h := HookWorld.hooks w in
  match claim token now h with
  | (Some c, h') => exists d, Hooks.deliveries h !! DeliveryClaim.delivery_id c = Some d /\ claimable now h d = true /\
      (forall i d', Hooks.deliveries h !! i = Some d' -> claimable now h d' = true ->
         WebhookDelivery.next_attempt_at d <= WebhookDelivery.next_attempt_at d') /\
      h' = {| h with Hooks.deliveries := <[DeliveryClaim.delivery_id c := leased token now d]> (Hooks.deliveries h) |} /\
      (forall later, claimable later h' (leased token now d) = true -> now + 60 * SECOND < later)
  | (None, h') => h' = h /\ forall i d, Hooks.deliveries h !! i = Some d -> claimable now h d = false
  end.
Proof.
  intros Hr h. pose proof (hook_runs_deliveries _ _ Hr no_deliveries_ok) as Hok. fold h in Hok.
  unfold claim. destruct (next_due now h) as [[id d]|] eqn:Hnd; [|split; [done|by apply next_due_none]].
  pose proof (next_due_some _ _ _ _ Hnd) as (Hd & Hc & Hmin).
  destruct (dl_refs _ _ Hok _ _ Hd) as [[ev ->] [ep ->]]. exists d. cbn. split_and!; try done.
  intros later Hl. unfold claimable in Hl. cbn in Hl. bools. done.
Qed.

(** ** An example: a request expires, its endpoint answers on the second attempt *)

Module HookExample.

Definition endpoint_result := add 90 7 true "https://merchant.example/hooks" (replicate 32 0) (replicate 40 1) 10 Hooks.empty.
Definition hooks0 : Hooks.t := Eval vm_compute in match endpoint_result with Ok (_, h) => h | Err _ => Hooks.empty end.
Definition endpoint : WebhookEndpoint.t := Eval vm_compute in
  match endpoint_result with Ok (e, _) => e | Err _ => WebhookEndpoint.mk 0 "" [] [] 0 "" 0 None end.

Definition row0 : DbInvoice.t := Eval vm_compute in
  issued_row (LedgerExample.input 1 "order-1" LedgerExample.address) 1000 1000.
Definition row1 : DbInvoice.t := Eval vm_compute in expire_row 2000000001 3000 row0.

Definition w0 : HookWorld.t := HookWorld.mk ∅ hooks0 [].
Definition w1 : HookWorld.t := Eval vm_compute in HookWorld.mk {[ 1 := row0 ]} (on_invoice None row0 1000 hooks0) [].
Definition w2 : HookWorld.t := Eval vm_compute in
  HookWorld.mk {[ 1 := row1 ]} (on_invoice (Some row0) row1 3000 (HookWorld.hooks w1)) [].

Definition claim1 := claim 501 4000 (HookWorld.hooks w2).
Definition w3 : HookWorld.t := Eval vm_compute in HookWorld.mk (HookWorld.rows w2) (snd claim1) (option_list (fst claim1)).
Definition complete1 : result CompleteError Hooks.t :=
  match HookWorld.claims w3 with
  | c :: _ => complete c 4100 20 (Some 200) None 4200 (HookWorld.hooks w3)
  | [] => Err CompletePanic
  end.
Definition w4 : HookWorld.t := Eval vm_compute in
  HookWorld.mk (HookWorld.rows w3) (match complete1 with Ok h => h | Err _ => Hooks.empty end) (HookWorld.claims w3).

Lemma hook_run_expired : rtc hook_step HookWorld.start w2.
Proof.
  eapply rtc_l; [apply (hook_add HookWorld.start 90 7 true "https://merchant.example/hooks" (replicate 32 0) (replicate 40 1) 10
    endpoint hooks0); vm_compute; reflexivity|].
  eapply rtc_l; [apply (hook_write _ 1 None row0 1000);
    [reflexivity|reflexivity|exact (write_issue (LedgerExample.input 1 "order-1" LedgerExample.address) 1000 1000)]|].
  eapply rtc_l; [apply (hook_write _ 1 (Some row0) row1 3000);
    [vm_compute; reflexivity|reflexivity|exact (write_expiry 2000000001 3000 row0)]|].
  vm_compute. apply rtc_refl.
Qed.

Lemma hook_run_claimed : rtc hook_step HookWorld.start w3.
Proof.
  eapply rtc_r; [exact hook_run_expired|].
  assert (w3 = {| w2 with HookWorld.hooks := snd (claim 501 4000 (HookWorld.hooks w2));
                 HookWorld.claims := option_list (fst (claim 501 4000 (HookWorld.hooks w2))) ++ HookWorld.claims w2 |}) as ->
    by (vm_compute; reflexivity).
  apply hook_claim. by intros ?%list.elem_of_nil.
Qed.

Lemma hook_run_delivered : rtc hook_step HookWorld.start w4.
Proof.
  eapply rtc_r; [exact hook_run_claimed|]. destruct (HookWorld.claims w3) as [|c rest] eqn:Hc; [discriminate|].
  apply (hook_complete w3 c 4100 20 (Some 200) None 4200); [rewrite Hc; apply list_elem_of_here|].
  vm_compute in Hc. injection Hc as <- <-. vm_compute. reflexivity.
Qed.

Lemma shown_facts_reported_once_witness :
  exists i e, Hooks.events (HookWorld.hooks w2) !! i = Some e /\ WebhookEvent.event_type e = RequestExpired.
Proof.
  destruct (shown_facts_reported_once w2 1 row1 RequestExpired hook_run_expired) as (i & e & Hi & _ & Ht & _);
    [reflexivity|left; reflexivity|]. exists i, e. split; assumption.
Defined.

(** The delivery the attempt concluded. *)
Definition done_id : Uuid := Eval vm_compute in
  match HookWorld.claims w3 with c :: _ => DeliveryClaim.delivery_id c | [] => 0 end.
Definition done_row : WebhookDelivery.t := Eval vm_compute in
  default (WebhookDelivery.fresh_row 0 0 0) (Hooks.deliveries (HookWorld.hooks w4) !! done_id).

Lemma delivery_concluded_once_witness :
  WebhookDelivery.state done_row = DDelivered /\ grounded (HookWorld.hooks w4) done_id done_row.
Proof.
  split; [reflexivity|]. destruct (delivery_concluded_once w4 w4 done_id done_row) as (_ & H & _);
    [exact hook_run_delivered|apply rtc_refl|reflexivity|discriminate|exact H].
Defined.

Lemma claim_serves_earliest_witness :
  exists d, Hooks.deliveries (HookWorld.hooks w2) !! done_id = Some d /\ claimable 4000 (HookWorld.hooks w2) d = true.
Proof.
  pose proof (claim_serves_earliest w2 501 4000 hook_run_expired) as H.
  destruct H as (d & Hd & Hc & _). exists d. split; [exact Hd|exact Hc].
Defined.

End HookExample.
