(* ===== verification/ApiError.v ===== *)
(** * gum-server: the API's errors

    Models [crates/gum-server/src/api/error.rs]: an error is an HTTP status, a
    stable code and a message; one definition per constructor. *)

From stdpp Require Import pretty.
From S2P Require Import Prelude Core Contracts Bus Tables Invoices.

Module ApiError.
Record t := mk { status : Z; code : string; message : string }.

Definition unauthorized : t :=
  mk 401 "unauthorized" "A valid bearer API key or dashboard session token is required".

Definition identity_unauthorized : t :=
  mk 401 "identity_unauthorized" "A valid dashboard session (Privy identity token) is required".

Definition admin_unauthorized : t :=
  mk 401 "admin_unauthorized" "A valid operator bearer credential is required".

Definition deposit_request_not_blocked : t :=
  mk 409 "deposit_request_not_blocked" "Deposit request is not blocked".

Definition payer_unauthorized : t :=
  mk 401 "invalid_deposit_link" "This deposit link is invalid or expired".

Definition identity_unavailable : t :=
  mk 503 "identity_unavailable" "Account authentication is temporarily unavailable".

Definition authentication_event_already_used : t :=
  mk 409 "authentication_event_already_used" "This authentication event was already used; authenticate again".

Definition account_contact_required : t :=
  mk 409 "account_contact_required" "A verified merchant email is required before creating a deposit request; sign in to the dashboard again".

Definition api_key_generation_conflict : t :=
  mk 409 "api_key_generation_conflict" "The API key changed after confirmation; authenticate and try again".

Definition account_disabled : t :=
  mk 403 "account_disabled" "This account is disabled".

Definition missing_idempotency_key : t :=
  mk 400 "missing_idempotency_key" "Idempotency-Key header is required".

Definition invalid_request (msg : string) : t :=
  mk 400 "invalid_request" msg.

Definition invalid_amount (msg : string) : t :=
  mk 400 "invalid_amount" msg.

Definition unsupported_currency (currency : Currency) : t :=
  mk 422 "unsupported_currency" (Currency.code currency +:+ " is not served on any of this deployment's networks").

Definition unsupported_chain : t :=
  mk 422 "unsupported_chain" "This deposit request cannot be paid on that chain; choose one of its networks".

Definition idempotency_conflict : t :=
  mk 409 "idempotency_conflict" "Idempotency-Key already used with different request parameters".

Definition deposit_request_not_found : t :=
  mk 404 "deposit_request_not_found" "Deposit request not found".

Definition invalid_deposit_reference : t :=
  invalid_request "reference must be a complete deposit request ID (dr_…) or deposit address (0x…)".

Definition deposit_request_not_payable : t :=
  mk 410 "deposit_request_not_payable" "This deposit request is no longer accepting funds".

Definition database_unavailable (msg : string) : t :=
  mk 503 "database_unavailable" msg.

Definition internal (msg : string) : t :=
  mk 500 "internal_error" msg.

Definition customer_not_found : t :=
  mk 404 "customer_not_found" "Customer not found".

Definition attachment_not_found : t :=
  mk 404 "attachment_not_found" "Attachment not found".

Definition attachment_scan_pending : t :=
  mk 409 "attachment_scan_pending" "The malware scan has not reported yet; retry finalize with backoff".

Definition attachment_rejected (reason : string) : t :=
  mk 422 "attachment_rejected" ("The upload was rejected (" +:+ reason +:+ "); upload a new file").

Definition attachment_not_ready : t :=
  mk 409 "attachment_not_ready" "Finalize the upload before attaching it to a deposit request".

Definition attachment_expired : t :=
  mk 409 "attachment_not_ready" "The upload expired before it was attached; upload the PDF again".

Definition attachment_not_uploaded : t :=
  mk 409 "attachment_not_ready" "Upload the PDF to upload_url before finalizing".

Definition attachment_already_attached : t :=
  mk 409 "attachment_already_attached" "This attachment already belongs to an issued deposit request".

Definition deposit_request_not_settled : t :=
  mk 409 "deposit_request_not_settled" "Proof of Payment is available once the deposit has settled".

Definition deposit_sender_mismatch : t :=
  mk 409 "deposit_sender_mismatch" "Credited transfers came from a wallet other than the payer's attested wallet; no Proof of Payment can be issued".

Definition wallet_required : t :=
  mk 409 "wallet_required" "The deposit address exists once the payer has attested their wallet".

Definition wallet_already_bound (wallet : string) : t :=
  mk 409 "wallet_already_bound" ("This deposit request is already bound to wallet " +:+ wallet).

Definition wallet_challenge_required : t :=
  mk 409 "wallet_challenge_required" "Request a wallet challenge first; the previous one was used or expired".

Definition wallet_signature_invalid : t :=
  mk 401 "wallet_signature_invalid" "The signature does not recover to the stated wallet. Sign the challenge with that wallet; smart-contract wallets are not supported yet".

Definition verification_required : t :=
  mk 401 "verification_required" "Complete verification to view this deposit request's details".

Definition verification_unavailable : t :=
  mk 503 "verification_unavailable" "Email verification is not available on this deployment".

Definition identity_provider_unavailable : t :=
  mk 502 "identity_provider_unavailable" "The verification provider did not respond; try again shortly".

Definition verification_not_required : t :=
  mk 409 "verification_not_required" "This deposit request does not require verification".

Definition verification_method_not_applicable (message : string) : t :=
  mk 409 "verification_method_not_applicable" message.

Definition wallet_attestation_not_required : t :=
  mk 409 "wallet_attestation_not_required" "This deposit request did not attach the wallet-attestation add-on; pay from any wallet once its address exists".

Definition wallet_attestation_required : t :=
  mk 409 "wallet_attestation_required" "This deposit request requires wallet attestation; attest a wallet instead of choosing a network".

Definition network_already_chosen : t :=
  mk 409 "network_already_chosen" "The payment network is already set for this deposit request".

Definition network_conflict : t :=
  mk 409 "network_conflict" "That network is not one this deposit request may be paid on".

Definition client_secret_invalid : t :=
  mk 401 "client_secret_invalid" "The client secret is not valid for this deposit request; return to the app that opened it".

Definition client_secret_used : t :=
  mk 409 "client_secret_used" "This link was already opened; return to the app and open the deposit request again".

Definition payer_session_invalid : t :=
  mk 401 "payer_session_invalid" "The payer session is missing, invalid, or expired; start verification again".

Definition otp_resend_cooldown (retry_after_secs : Z) : t :=
  mk 429 "otp_resend_cooldown" ("A code was sent recently; request another in " +:+ pretty retry_after_secs +:+ " seconds").

Definition otp_invalid : t :=
  mk 401 "otp_invalid" "The code was not accepted; check it or request a new one".

Definition verification_not_started : t :=
  mk 409 "verification_not_started" "Request a code before confirming one".

Definition wallet_pregeneration_unavailable : t :=
  mk 503 "wallet_pregeneration_unavailable" "Wallet pregeneration is not available on this deployment".

Definition webhook_not_found : t :=
  mk 404 "webhook_not_found" "Webhook endpoint not found".

Definition webhooks_unavailable : t :=
  mk 503 "webhooks_unavailable" "Webhooks are not available on this deployment".

Definition rate_limited : t :=
  mk 429 "rate_limited" "Per-account request limit exceeded".

Definition withdrawal_not_found : t :=
  mk 404 "withdrawal_not_found" "Withdrawal not found".

Definition relay_unavailable : t :=
  mk 404 "relay_unavailable" "Paying from another network is not available here".

Definition relay_quote_failed (message : string) : t :=
  mk 502 "relay_quote_failed" message.

Definition relay_unsupported_origin : t :=
  mk 422 "relay_unsupported_origin" "This request cannot be paid from that network with that token; choose one of the offered ones".

Definition relay_intent_not_found : t :=
  mk 404 "relay_intent_not_found" "That quote does not belong to this deposit request".

Definition relay_report_conflict : t :=
  mk 409 "relay_report_conflict" "This quote already recorded a different origin transaction".

Definition withdrawal_leg_not_found (leg : string) : t :=
  mk 404 "withdrawal_leg_not_found" (leg +:+ " is not a leg of this withdrawal").

Definition wallet_not_ready : t :=
  mk 409 "wallet_not_ready" "The account's Gum wallet is not known yet; sign in to the dashboard once".

Definition withdrawal_in_progress : t :=
  mk 409 "withdrawal_in_progress" "This account already has a withdrawal in progress; let it finish or cancel it first".

Definition nothing_to_withdraw (currency : Currency) (elsewhere : list string) : t :=
  let code := Currency.code currency in
  mk 409 "nothing_to_withdraw"
    match elsewhere with
    | [] => "The Gum wallet holds no " +:+ code +:+ " on any network serving it"
    | _ => "The Gum wallet holds no " +:+ code +:+ " on the destination network. " +:+ code +:+
           " does not bridge; its balance on " +:+ String.concat ", " elsewhere +:+
           " is withdrawn to an address on that network"
    end.

Definition withdrawal_exceeds_bridge_limit (chain : string) (amount : string) : t :=
  mk 422 "withdrawal_exceeds_bridge_limit" ("Bridging " +:+ amount +:+ " USDC from " +:+ chain +:+ " is above Circle's 10,000,000 USDC limit for one bridge transaction. Withdraw that network's balance to an address on " +:+ chain +:+ " instead.").

Definition withdrawals_unavailable (message : string) : t :=
  mk 503 "withdrawals_unavailable" message.

Definition withdrawal_signature_invalid (leg : string) (reason : string) : t :=
  mk 400 "signature_invalid" (leg +:+ ": " +:+ reason).

Definition withdrawal_leg_not_signable (leg : string) : t :=
  mk 409 "leg_not_awaiting_signature" (leg +:+ " is not awaiting a signature").

Definition withdrawal_authorization_expired (leg : string) : t :=
  mk 409 "authorization_expired" (leg +:+ ": the authorization window has passed; create a new withdrawal").

Definition withdrawal_not_cancellable : t :=
  mk 409 "withdrawal_not_cancellable" "A leg of this withdrawal has already been relayed; it will run to completion".

Definition withdrawal_finished : t :=
  mk 409 "withdrawal_finished" "This withdrawal has already completed or failed".

(** [into_response]: the body carries code and message, and an unauthorized
    answer names the scheme that is wanted. *)
Definition into_response (e : t) : Z * option string * (string * string) :=
  (status e, (if status e =? 401 then Some "Bearer" else None), (code e, message e)).

Definition of_db_error (_ : DbError) : t := database_unavailable "database error".
Definition of_row_error (_ : DbInvoiceError) : t := internal "failed to decode stored invoice".

End ApiError.
