(* ===== verification/Effects.v ===== *)
(** * Effects: computations that keep their state when they fail

    A function of the signers' executor makes several committed database
    transactions and several calls to a chain node; when it returns an error
    what it committed before stays.  [eff E S A] is such a computation over a
    state [S]; [let*] is the code's [?] operator.

    A service of the server is such a computation over the shared database
    ([World.t]), which also carries a counter of steps: each statement is its own
    transaction, with calls to services outside the database in between, and the
    clocks, the answers of services and what the other users of the database
    commit between two steps depend on that counter and are otherwise arbitrary. *)

From S2P Require Import Prelude Tables.

Definition eff (E S A : Type) : Type := S -> result E A * S.

Section Eff.
Context {E S : Type}.

Definition ret {A} (a : A) : eff E S A := fun s => (Ok a, s).
Definition throw {A} (e : E) : eff E S A := fun s => (Err e, s).

Definition bind {A B} (c : eff E S A) (k : A -> eff E S B) : eff E S B :=
  fun s => match c s with
           | (Ok a, s') => k a s'
           | (Err e, s') => (Err e, s')
           end.

(** The outcome as a value: [match c { Ok(..) .. Err(..) .. }]. *)
Definition attempt {A} (c : eff E S A) : eff E S (result E A) :=
  fun s => let '(r, s') := c s in (Ok r, s').

Definition get : eff E S S := fun s => (Ok s, s).

(** A database transaction: its writes are kept only when it commits. *)
Definition transaction {A} (f : S -> result E (A * S)) : eff E S A :=
  fun s => match f s with
           | Ok (a, s') => (Ok a, s')
           | Err e => (Err e, s)
           end.

End Eff.

Notation "'let*' x := c 'in' k" := (bind c (fun x => k))
  (at level 10, x name, c at level 100, k at level 200) : gum_scope.
Notation "'let*' ' p := c 'in' k" := (bind c (fun x => match x with p => k end))
  (at level 10, p strict pattern, c at level 100, k at level 200) : gum_scope.

(** The [for] loop whose body may return early: the first [Some] wins. *)
Fixpoint find_first {E S A B} (f : A -> eff E S (option B)) (l : list A) : eff E S (option B) :=
  match l with
  | [] => ret None
  | x :: l' =>
      let* o := f x in
      match o with
      | Some b => ret (Some b)
      | None => find_first f l'
      end
  end.

(** [for item in items { results.push(f(item)?) }]. *)
Fixpoint traverse {E S A B} (f : A -> eff E S B) (l : list A) : eff E S (list B) :=
  match l with
  | [] => ret []
  | x :: l' =>
      let* b := f x in
      let* bs := traverse f l' in
      ret (b :: bs)
  end.

(** ** Laws *)

Section Laws.
Context {E S : Type}.
Implicit Types (s : S).

Lemma bind_ok {A B} (c : eff E S A) (k : A -> eff E S B) s b s' :
  bind c k s = (Ok b, s') <-> exists a s1, c s = (Ok a, s1) /\ k a s1 = (Ok b, s').
Proof.
  unfold bind. destruct (c s) as [[a|e] s1] eqn:Hc; split.
  - eauto.
  - intros (a' & s2 & Heq & Hk). by simplify_eq.
  - intros [=].
  - intros (a' & s2 & Heq & Hk). by simplify_eq.
Qed.

(** What holds of the states a computation moves between: reflexive and
    transitive relations that every primitive step satisfies. *)
Definition moves (R : S -> S -> Prop) {A} (c : eff E S A) : Prop := forall s, R s (snd (c s)).

Context (R : S -> S -> Prop) `{!PreOrder R}.

Lemma moves_ret {A} (a : A) : moves R (ret a : eff E S A).
Proof. intros s. simpl. reflexivity. Qed.

Lemma moves_throw {A} (e : E) : moves R (throw e : eff E S A).
Proof. intros s. simpl. reflexivity. Qed.

Lemma moves_get : moves R (get : eff E S S).
Proof. intros s. simpl. reflexivity. Qed.

Lemma moves_bind {A B} (c : eff E S A) (k : A -> eff E S B) :
  moves R c -> (forall a, moves R (k a)) -> moves R (bind c k).
Proof.
  intros Hc Hk s. specialize (Hc s). unfold bind. destruct (c s) as [[a|e] s1]; [|done].
  etrans; [exact Hc|apply Hk].
Qed.

Lemma moves_attempt {A} (c : eff E S A) : moves R c -> moves R (attempt c).
Proof. intros Hc s. specialize (Hc s). unfold attempt. by destruct (c s). Qed.

Lemma moves_transaction {A} (f : S -> result E (A * S)) :
  (forall s a s', f s = Ok (a, s') -> R s s') -> moves R (transaction f).
Proof.
  intros Hf s. unfold transaction. destruct (f s) as [[a s']|e] eqn:Hs; simpl; [eauto|reflexivity].
Qed.

Lemma moves_find_first {A B} (f : A -> eff E S (option B)) l :
  (forall x, moves R (f x)) -> moves R (find_first f l).
Proof.
  intros Hf. induction l as [|x l IH]; simpl; [apply moves_ret|].
  apply moves_bind; [done|]. intros [b|]; [apply moves_ret|done].
Qed.

Lemma moves_traverse {A B} (f : A -> eff E S B) l :
  (forall x, moves R (f x)) -> moves R (traverse f l).
Proof.
  intros Hf. induction l as [|x l IH]; simpl; [apply moves_ret|].
  apply moves_bind; [done|]. intros b. apply moves_bind; [done|]. intros. apply moves_ret.
Qed.

End Laws.

Create HintDb moves.
#[export] Hint Resolve moves_ret moves_throw moves_get moves_bind moves_attempt moves_find_first
  moves_traverse : moves.

Lemma traverse_ok {E S A B} (P : A -> B -> Prop) (f : A -> eff E S B) l s bs s' :
  (forall x b s s', x ∈ l -> f x s = (Ok b, s') -> P x b) ->
  traverse f l s = (Ok bs, s') -> Forall2 P l bs.
Proof.
  revert s bs s'. induction l as [|x l IH]; intros s bs s' HP; simpl.
  - intros [= <- <-]. constructor.
  - intros (b & s1 & Hb & (bs' & s2 & Hbs & [= <- <-])%bind_ok)%bind_ok.
    constructor; [eapply HP; [by left|done]|]. eapply IH; [|done].
    intros y c s3 s4 Hy. apply HP. by right.
Qed.

(** ** Triples

    [triple P c Q X]: from a state in [P], [c] ends with a value in [Q] or an
    error in [X], in either case with the state it left. *)

Section Triples.
Context {E S : Type}.

Definition triple (P : S -> Prop) {A} (c : eff E S A) (Q : A -> S -> Prop) (X : E -> S -> Prop) : Prop :=
  forall s, P s -> match c s with (Ok a, s') => Q a s' | (Err e, s') => X e s' end.

Implicit Types (P : S -> Prop) (X : E -> S -> Prop).

Lemma triple_ret P {A} (a : A) (Q : A -> S -> Prop) X : (forall s, P s -> Q a s) -> triple P (ret a) Q X.
Proof. intros H s HP. simpl. auto. Qed.

Lemma triple_throw P {A} e (Q : A -> S -> Prop) X : (forall s, P s -> X e s) -> triple P (throw e) Q X.
Proof. intros H s HP. simpl. auto. Qed.

Lemma triple_get P (Q : S -> S -> Prop) X : (forall s, P s -> Q s s) -> triple P get Q X.
Proof. intros H s HP. simpl. auto. Qed.

Lemma triple_bind P {A B} (c : eff E S A) (k : A -> eff E S B) (M : A -> S -> Prop) (Q : B -> S -> Prop) X :
  triple P c M X -> (forall a, triple (M a) (k a) Q X) -> triple P (bind c k) Q X.
Proof.
  intros Hc Hk s HP. specialize (Hc s HP). unfold bind. destruct (c s) as [[a|e] s1]; [|done]. by apply Hk.
Qed.

Lemma triple_attempt P {A} (c : eff E S A) (M : A -> S -> Prop) (X0 X : E -> S -> Prop)
    (Q : result E A -> S -> Prop) :
  triple P c M X0 -> (forall a s, M a s -> Q (Ok a) s) -> (forall e s, X0 e s -> Q (Err e) s) ->
  triple P (attempt c) Q X.
Proof.
  intros Hc HM HX s HP. specialize (Hc s HP). unfold attempt. destruct (c s) as [[a|e] s1]; auto.
Qed.

Lemma triple_weaken P {A} (c : eff E S A) (Q Q' : A -> S -> Prop) (X X' : E -> S -> Prop) P' :
  triple P' c Q' X' -> (forall s, P s -> P' s) -> (forall a s, Q' a s -> Q a s) ->
  (forall e s, X' e s -> X e s) -> triple P c Q X.
Proof. intros Hc HP HQ HX s Hs. specialize (Hc s (HP s Hs)). destruct (c s) as [[a|e] s1]; auto. Qed.

(** A computation that keeps [P] and whose value, or whose outcome, is
    dropped. *)
Lemma triple_drop P {A B} (c : eff E S A) (b : B) X :
  triple P c (fun _ => P) X -> triple P (bind c (fun _ => ret b)) (fun _ => P) X.
Proof. intros Hc. eapply triple_bind; [exact Hc|]. intros a. by apply triple_ret. Qed.

Lemma triple_try P {A} (c : eff E S A) X :
  triple P c (fun _ => P) (fun _ => P) -> triple P (attempt c) (fun _ => P) X.
Proof. intros Hc. by eapply triple_attempt; [exact Hc| |]. Qed.

(** What a computation moves along, a triple keeps. *)
Lemma triple_moves (R : S -> S -> Prop) P {A} (c : eff E S A) :
  moves R c -> (forall s s', R s s' -> P s -> P s') -> triple P c (fun _ => P) (fun _ => P).
Proof. intros Hc HP s Hs. specialize (Hc s). destruct (c s) as [[a|e] s1]; eauto. Qed.

End Triples.

(** ** Services *)

Module World.
Record t := mk { db : Db.t; tick : nat }.
End World.

Section Service.
Context {E : Type} (of_error : DbError -> E) (others : nat -> Db.t -> Db.t) (database_now : nat -> Timestamp).

Abbreviation service := (eff E World.t) (only parsing).

(** A transaction of its own; the other users run before it. *)
Definition transact {A} (f : nat -> Db.t -> result E (A * Db.t)) : service A :=
  fun w =>
    let n := World.tick w in
    let db := others n (World.db w) in
    match f n db with
    | Ok (a, db') => (Ok a, World.mk db' (S n))
    | Err e => (Err e, World.mk db (S n))
    end.

Definition db_result {A} (r : result DbError A) : result E A :=
  match r with Ok a => Ok a | Err e => Err (of_error e) end.

Definition query {A} (f : nat -> Db.t -> result DbError A) : service A :=
  transact (fun n db => let! a := db_result (f n db) in Ok (a, db)).

Definition update {A} (f : Timestamp -> Db.t -> result DbError (A * Db.t)) : service A :=
  transact (fun n db => db_result (f (database_now n) db)).

(** A call to a service outside the database. *)
Definition outside {A} (f : nat -> A) : service A :=
  fun w => (Ok (f (World.tick w)), {| w with World.tick := S (World.tick w) |}).

(** A clock that is read without a step of its own. *)
Definition clock (utc_now : nat -> Timestamp) : service Timestamp :=
  fun w => (Ok (utc_now (World.tick w)), w).

(** [r?] on a value that is at hand. *)
Definition lift {A} (r : result E A) : service A := fun w => (r, w).

(** ** Laws: what the other users and each transaction keep is kept *)

Context (P : Db.t -> Prop) (others_keep : forall n db, P db -> P (others n db)).

Abbreviation kept := (fun w => P (World.db w)) (only parsing).

Lemma triple_transact {A} (f : nat -> Db.t -> result E (A * Db.t)) (Q : A -> World.t -> Prop) :
  (forall n db a db', P db -> f n db = Ok (a, db') -> Q a (World.mk db' (S n))) ->
  triple kept (transact f) Q (fun _ => kept).
Proof.
  intros Hf w HP. unfold transact. apply (others_keep (World.tick w)) in HP.
  destruct (f _ _) as [[a db']|e] eqn:Hr; [by eapply Hf|exact HP].
Qed.

Lemma triple_query {A} (f : nat -> Db.t -> result DbError A) :
  triple kept (query f)
    (fun a w => P (World.db w) /\ exists n db, P db /\ World.db w = db /\ f n db = Ok a) (fun _ => kept).
Proof.
  apply triple_transact. intros n db a db' HP. destruct (f n db) as [x|] eqn:Hf; [|discriminate].
  intros [= -> <-]. split; [done|]. by exists n, db.
Qed.

Lemma triple_update {A} (f : Timestamp -> Db.t -> result DbError (A * Db.t)) :
  (forall now db a db', P db -> f now db = Ok (a, db') -> P db') ->
  triple kept (update f) (fun _ => kept) (fun _ => kept).
Proof.
  intros Hf. apply triple_transact. intros n db a db' HP. unfold db_result.
  destruct (f _ db) as [[x d]|] eqn:Hr; [|discriminate]. intros [= -> ->]. simpl. by eapply Hf.
Qed.

Lemma triple_outside {A} (f : nat -> A) (X : E -> World.t -> Prop) :
  triple kept (outside f) (fun a w => P (World.db w) /\ exists n, a = f n) X.
Proof. intros w HP. split; [exact HP|]. by exists (World.tick w). Qed.

Lemma triple_clock utc_now (X : E -> World.t -> Prop) :
  triple kept (clock utc_now) (fun t w => P (World.db w) /\ exists n, t = utc_now n) X.
Proof. intros w HP. split; [exact HP|]. by exists (World.tick w). Qed.

Lemma triple_lift {A} (r : result E A) (X : E -> World.t -> Prop) :
  (forall e w, P (World.db w) -> X e w) ->
  triple kept (lift r) (fun a w => P (World.db w) /\ r = Ok a) X.
Proof. intros HX w HP. unfold lift. destruct r; [by split|by apply HX]. Qed.

End Service.
