(* ===== verification/Api.v ===== *)
(** * gum-server: handlers

    What the handlers of [crates/gum-server/src/api] have in common: a handler
    is a computation over the shared database ([Effects]) that ends with an
    answer or an [ApiError].  [ready] and the triples below are how the theorems
    about handlers are proved: between any two statements of a handler the other
    users of the database make steps of their own, so a handler may rely on what
    it read only as far as those steps keep it ([stable]). *)

From S2P Require Import Prelude Core Contracts Bus Tables Invoices ApiError Effects.

Abbreviation api := (eff ApiError.t World.t) (only parsing).

(** The other users of the database run between the statements of a handler
    that started in [db0]: they make steps, and steps keep [ok]. *)
Class Interference (others : nat -> Db.t -> Db.t) (step : Db.t -> Db.t -> Prop) (ok : Db.t -> Prop) (db0 : Db.t) : Prop := {
  step_keeps db db' : step db db' -> ok db -> ok db';
  ok_before : ok db0;
  others_run n db : rtc step db (others n db);
}.

Section Handlers.
Context (others : nat -> Db.t -> Db.t).

(** A read, [?]. *)
Definition fetch {A} (f : nat -> Db.t -> result DbError A) : api A := query ApiError.of_db_error others f.

Definition refuse_unless {A} (o : option A) (e : ApiError.t) : api A := lift (ok_or o e).

Definition guarded (bad : bool) (e : ApiError.t) : api unit := lift (if bad then Err e else Ok tt).

(** A call outside the database whose failure is the handler's. *)
Definition ask {A} (f : nat -> result ApiError.t A) : api A :=
  let* r := outside f in lift r.

(** [Invoice::try_from(&row)?]. *)
Definition decode {A} (r : result DbInvoiceError A) : api A :=
  lift match r with Ok a => Ok a | Err e => Err (ApiError.of_row_error e) end.

(** ** Reasoning *)

Context {step : Db.t -> Db.t -> Prop} {ok : Db.t -> Prop}.

(** What every step keeps. *)
Definition stable (F : Db.t -> Prop) : Prop := forall db db', step db db' -> ok db -> F db -> F db'.

Lemma stable_and F G : stable F -> stable G -> stable (fun db => F db /\ G db).
Proof. intros HF HG db db' Hs Hok [H1 H2]. split; [by eapply HF|by eapply HG]. Qed.

Lemma stable_forall {A} (F : A -> Db.t -> Prop) l : (forall a, stable (F a)) -> stable (fun db => Forall (fun a => F a db) l).
Proof. intros HF db db' Hs Hok Hl. eapply list.Forall_impl; [exact Hl|]. intros a. by apply HF. Qed.

Lemma stable_true : stable (fun _ => True).
Proof. by intros ? ? ? ?. Qed.

Lemma stable_option {A} (F : A -> Db.t -> Prop) (o : option A) :
  (forall a, stable (F a)) -> stable (fun db => forall a, o = Some a -> F a db).
Proof. intros HF db db' Hs Hok H a Ha. by eapply HF; [..|apply H]. Qed.

Context {db0 : Db.t} {H : Interference others step ok db0}.

Lemma steps_ok db db' : rtc step db db' -> ok db -> ok db'.
Proof. intros Hr. induction Hr as [|a b c Hs _ IH]; [done|]. intros Ha. apply IH. by eapply (step_keeps (Interference := H)). Qed.

(** The handler is somewhere in a history of [db0], and knows [F]. *)
Definition ready (F : Db.t -> Prop) (db : Db.t) : Prop := rtc step db0 db /\ F db.

Lemma ready_run F db db' : stable F -> rtc step db db' -> ready F db -> ready F db'.
Proof.
  intros HF Hr [R0 HFdb]. split; [by etrans|]. pose proof (steps_ok _ _ R0 ok_before) as Hok. clear R0.
  induction Hr as [|a b c Hs _ IH]; [done|]. apply IH; [by eapply HF|by eapply step_keeps].
Qed.

Lemma ready_others F n db : stable F -> ready F db -> ready F (others n db).
Proof. intros HF. apply ready_run; [done|apply others_run]. Qed.

Abbreviation at_ F := (fun w => ready F (World.db w)) (only parsing).
Abbreviation somewhere := (fun _ => at_ (fun _ => True)) (only parsing).

Lemma fetch_triple {A} F (f : nat -> Db.t -> result DbError A) : stable F ->
  triple (at_ F) (fetch f) (fun a w => ready F (World.db w) /\ exists n, f n (World.db w) = Ok a) somewhere.
Proof.
  intros HF. eapply triple_weaken; [apply (triple_query _ _ (ready F)); intros n db; by apply ready_others|done| |].
  - intros a w [HR (n & db & _ & E & Hf)]. split; [exact HR|]. exists n. by rewrite E.
  - intros e w [Hr _]. by split.
Qed.

Lemma lift_triple {A} F (r : result ApiError.t A) :
  triple (at_ F) (lift r) (fun a w => ready F (World.db w) /\ r = Ok a) somewhere.
Proof. apply triple_lift. intros e w [Hr _]. by split. Qed.

Lemma refuse_triple {A} F (o : option A) e :
  triple (at_ F) (refuse_unless o e) (fun a w => ready F (World.db w) /\ o = Some a) somewhere.
Proof. eapply triple_weaken; [apply (lift_triple F)|done| |done]. intros a w [HR Ho%ok_or_ok]. by split. Qed.

Lemma guarded_triple F bad e :
  triple (at_ F) (guarded bad e) (fun a w => ready F (World.db w) /\ bad = false) somewhere.
Proof. eapply triple_weaken; [apply (lift_triple F)|done| |done]. intros a w [HR Hb]. split; [done|]. by destruct bad. Qed.

Lemma decode_triple {A} F (r : result DbInvoiceError A) :
  triple (at_ F) (decode r) (fun a w => ready F (World.db w) /\ r = Ok a) somewhere.
Proof.
  eapply triple_weaken; [apply (lift_triple F)|done| |done]. intros a w [HR Hr]. split; [done|]. destruct r; [by injection Hr as ->|done].
Qed.

Lemma outside_triple {A} F (f : nat -> A) :
  triple (at_ F) (outside (E := ApiError.t) f) (fun a w => ready F (World.db w) /\ exists n, a = f n) somewhere.
Proof. intros w HR. split; [exact HR|]. by exists (World.tick w). Qed.

Lemma clock_triple F utc :
  triple (at_ F) (clock (E := ApiError.t) utc) (fun a w => ready F (World.db w) /\ exists n, a = utc n) somewhere.
Proof. intros w HR. split; [exact HR|]. by exists (World.tick w). Qed.

Lemma ask_triple {A} F (f : nat -> result ApiError.t A) :
  triple (at_ F) (ask f) (fun a w => ready F (World.db w) /\ exists n, f n = Ok a) somewhere.
Proof.
  eapply triple_bind; [apply outside_triple|]. intros r w [HR (n & ->)].
  pose proof (lift_triple F (f n) w HR) as T. destruct (lift (f n) w) as [[a|e] w']; [|done].
  destruct T as [HR' Ha]. split; [done|]. by exists n.
Qed.

Lemma transact_triple {A} F (f : nat -> Db.t -> result ApiError.t (A * Db.t)) : stable F ->
  (forall n db a db', ok db -> F db -> f n db = Ok (a, db') -> rtc step db db') ->
  triple (at_ F) (transact others f) (fun _ => at_ F) somewhere.
Proof.
  intros HF Hf. eapply triple_weaken; [apply (triple_transact _ (ready F)); [intros n db; by apply ready_others|]|done| |].
  - intros n db a db' HR Hr. instantiate (1 := fun _ w => ready F (World.db w)). cbn. eapply ready_run; [done| |exact HR].
    destruct HR as [R0 HFd]. eapply Hf; [exact (steps_ok _ _ R0 ok_before)|exact HFd|exact Hr].
  - done.
  - intros e w [Hr _]. by split.
Qed.

(** A transaction that teaches the handler something of what it wrote. *)
Lemma write_triple {A} F G (f : nat -> Db.t -> result ApiError.t (A * Db.t)) : stable F ->
  (forall n db a db', ok db -> F db -> f n db = Ok (a, db') -> rtc step db db' /\ G a db') ->
  triple (at_ F) (transact others f) (fun a => at_ (fun db => F db /\ G a db)) somewhere.
Proof.
  intros HF Hf. eapply triple_weaken; [apply (triple_transact _ (ready F)); [intros n db; by apply ready_others|]|done| |].
  - intros n db a db' HR Hr. instantiate (1 := fun a w => ready (fun db => F db /\ G a db) (World.db w)). cbn.
    pose proof HR as [R0 HFd]. destruct (Hf n db a db') as [Hs HG]; [exact (steps_ok _ _ R0 ok_before)|exact HFd|exact Hr|].
    destruct (ready_run F db db' HF Hs HR) as [R1 HF1]. by split.
  - done.
  - intros e w [Hr _]. by split.
Qed.

(** The value of a step is dropped, or known, and the handler goes on. *)
Lemma then_triple {A B} F (c : api A) (Q : A -> Prop) (k : A -> api B) G :
  triple (at_ F) c (fun a w => ready F (World.db w) /\ Q a) somewhere ->
  (forall a, Q a -> triple (at_ F) (k a) (fun b => at_ (G b)) somewhere) ->
  triple (at_ F) (bind c k) (fun b => at_ (G b)) somewhere.
Proof. intros Hc Hk. eapply triple_bind; [exact Hc|]. intros a w [HR HQ]. by apply Hk. Qed.

(** What a read says of the rows becomes part of what is known. *)
Lemma learn_triple {A B} F G (f : nat -> Db.t -> result DbError A) (k : A -> api B) K : stable F ->
  (forall n db a, F db -> f n db = Ok a -> G a db) ->
  (forall a, triple (at_ (G a)) (k a) (fun b => at_ (K b)) somewhere) ->
  triple (at_ F) (bind (fetch f) k) (fun b => at_ (K b)) somewhere.
Proof.
  intros HF HG Hk. eapply triple_bind; [by apply fetch_triple|]. intros a w [[HR HFw] (n & Hf)]. apply Hk. split; [done|]. by eapply HG.
Qed.

Lemma forget_triple {A} F (c : api A) G :
  triple (at_ F) c (fun b => at_ (G b)) somewhere -> triple (at_ F) c somewhere somewhere.
Proof. intros Hc. eapply triple_weaken; [exact Hc|done| |done]. intros a w [Hr _]. by split. Qed.

Lemma ignore_triple {A} F G (c : api A) Q :
  triple (at_ F) c Q somewhere -> (forall db, G db -> F db) -> triple (at_ G) c Q somewhere.
Proof. intros Hc HG w [Hr Hg]. apply Hc. split; [done|by apply HG]. Qed.

End Handlers.

Arguments stable step ok F : clear implicits.
Arguments ready step db0 F db : clear implicits.
