(* ===== verification/PayerIdentity.v ===== *)
(** * gum-server: the payer's proof of a mailbox

    Models [crates/gum-server/src/payer_identity.rs]: sending a one-time code,
    exchanging it for a token of the payer audience and checking the mailbox it
    proves, and the signed continuation a payer gets when their proof could not
    be stored.  The provider's endpoints, the verifier of its tokens, the MAC,
    base64 and the JSON of the claims are parameters. *)

From Stdlib Require Import Ascii String.
From S2P Require Import Prelude Text Core Contracts Bus Tables Invoices ApiError Attribution.

Definition CONTINUATION_TTL_SECS : Z := 5 * 60.
Definition CONTINUATION_DOMAIN : bytes := ascii_bytes "GUM_PAYER_EMAIL_CONTINUATION_V1".

Module EmailContinuation.
Record t := mk {
  session_id : Uuid;
  invoice_id : Uuid;
  payer_ref : B256;
  verified_at : Z;
  event_id : string;
  exp : Z;
}.
End EmailContinuation.

Inductive OtpError := OtpRejected | OtpUnavailable (reason : string).

(** [Identity] of the token verifier. *)
Module Identity.
Record t := mk { email : string; authentication_event_id : string }.
End Identity.

(** The trait [PayerOtpProvider], the verifier, the key's MAC, and encodings. *)
Class PayerKeys := {
  mac : bytes -> bytes;
  base64 : bytes -> string;
  unbase64 : string -> option bytes;
  claims_json : EmailContinuation.t -> bytes;
  claims_of_json : bytes -> option EmailContinuation.t;
  payer_ref_of : Uuid -> string -> B256;
  (* Unicode's lower case *)
  lowercase : string -> string;
}.

Module Otp.
Record t := mk {
  start : string -> result OtpError unit;
  exchange : string -> string -> result OtpError string;
  verify : string -> result ApiError.t Identity.t;
}.
End Otp.

Section PayerIdentity.
Context `{K : PayerKeys}.

Definition normalize_email (email : string) : string := lowercase (trim email).

Definition send_code (otp : Otp.t) (expected_email : string) : result ApiError.t unit :=
  match Otp.start otp expected_email with
  | Ok _ => Ok tt
  | Err _ => Err ApiError.identity_provider_unavailable
  end.

Definition confirm_code (otp : Otp.t) (expected_email code : string) : result ApiError.t Identity.t :=
  let! token := match Otp.exchange otp expected_email code with
                | Ok t => Ok t
                | Err OtpRejected => Err ApiError.otp_invalid
                | Err (OtpUnavailable _) => Err ApiError.identity_provider_unavailable
                end in
  let! identity := match Otp.verify otp token with
                   | Ok i => Ok i
                   | Err e => Err (if ApiError.status e =? 503 then e else ApiError.otp_invalid)
                   end in
  if String.eqb (normalize_email (Identity.email identity)) expected_email then Ok identity
  else Err ApiError.otp_invalid.

Definition continuation_mac (payload : string) : bytes := mac (CONTINUATION_DOMAIN ++ ascii_bytes payload).

Definition encode_continuation (claims : EmailContinuation.t) : string :=
  let encoded := base64 (claims_json claims) in
  encoded +:+ "." +:+ base64 (continuation_mac encoded).

Definition decode_continuation (now : Z) (token : string) : option EmailContinuation.t :=
  '(payload, signature) ← split_once_dot token;
  signature ← unbase64 signature;
  if bool_decide (signature = continuation_mac payload) then
    claims ← unbase64 payload ≫= claims_of_json;
    if now <? EmailContinuation.exp claims then Some claims else None
  else None.

Definition continuation (now : Z) (claims : EmailContinuation.t) : string :=
  encode_continuation {| claims with EmailContinuation.exp := u64_saturating_add now CONTINUATION_TTL_SECS |}.

(** ** A continuation is accepted for its five minutes, and only as signed *)

(** The encodings are read back; base64 has no point. *)
Class PayerKeysLaws : Prop := {
  base64_roundtrip b : unbase64 (base64 b) = Some b;
  base64_undotted b : split_once_dot (base64 b) = None;
  claims_roundtrip c : claims_of_json (claims_json c) = Some c;
}.

Lemma split_first_dot a b : split_once_dot a = None -> split_once_dot (a +:+ "." +:+ b) = Some (a, b).
Proof.
  induction a as [|c a IH]; simpl; [done|]. destruct (Ascii.eqb c "."%char); [done|].
  destruct (split_once_dot a) as [[? ?]|]; [done|]. intros _. by rewrite IH.
Qed.

Lemma decode_encoded `{!PayerKeysLaws} now claims :
  decode_continuation now (encode_continuation claims) =
  if now <? EmailContinuation.exp claims then Some claims else None.
Proof.
  unfold decode_continuation, encode_continuation. cbv zeta. rewrite split_first_dot by apply base64_undotted. cbn.
  rewrite !base64_roundtrip. cbn. rewrite bool_decide_true by done. by rewrite claims_roundtrip.
Qed.

(** A continuation is what was signed and nothing else: the one minted for
    some claims is read back as those claims for five minutes and not after,
    and any text that is read as claims carries the MAC of its payload. *)
Theorem continuation_as_signed `{!PayerKeysLaws} now later claims token :
  0 <= now <= u64_max - CONTINUATION_TTL_SECS ->
  (decode_continuation later (continuation now claims) =
     if later <? now + CONTINUATION_TTL_SECS
     then Some {| claims with EmailContinuation.exp := now + CONTINUATION_TTL_SECS |} else None) /\
  (forall c, decode_continuation later token = Some c -> later < EmailContinuation.exp c /\
     exists payload signature, split_once_dot token = Some (payload, signature) /\
       unbase64 signature = Some (continuation_mac payload) /\ unbase64 payload ≫= claims_of_json = Some c).
Proof.
  intros Hn. split.
  - unfold continuation. rewrite decode_encoded. cbn. unfold u64_saturating_add. by rewrite Z.min_l by lia.
  - intros c. unfold decode_continuation. intros ([payload signature] & Hs & Hd)%bind_Some.
    apply bind_Some in Hd as (sg & Hsg & Hd). case_bool_decide as Hm; [|done]. subst sg.
    apply bind_Some in Hd as (c' & Hc & Hd). destruct (Z.ltb_spec later (EmailContinuation.exp c')); [|done].
    injection Hd as <-. split; [done|]. by exists payload, signature.
Qed.

(** A code proves only the mailbox the merchant named: whatever the
    provider and the token say, confirmation succeeds only with an identity
    whose normalized address is the expected one. *)
Lemma confirmed_mailbox otp expected code identity :
  confirm_code otp expected code = Ok identity -> normalize_email (Identity.email identity) = expected.
Proof.
  unfold confirm_code. intros (token & _ & (i & _ & H)%rbind_ok)%rbind_ok.
  destruct (String.eqb_spec (normalize_email (Identity.email i)) expected); [by injection H as <-|done].
Qed.

End PayerIdentity.

(** Encodings one can evaluate: an integer is a sign and its binary digits, a
    list of integers those texts, each with its end. *)
Module IdentityExample.

Fixpoint bits (p : positive) : string :=
  match p with xH => "1" | xO q => String "0" (bits q) | xI q => String "i" (bits q) end.

Definition number (n : Z) : string :=
  match n with Z0 => "z" | Zpos p => String "+" (bits p) | Zneg p => String "-" (bits p) end.

Fixpoint write (b : bytes) : string :=
  match b with [] => "" | x :: rest => number x +:+ String ";" (write rest) end.

Fixpoint read_bits (s : string) (k : positive -> positive) : option (positive * string) :=
  match s with
  | String c rest =>
      if Ascii.eqb c "0" then read_bits rest (fun p => k (xO p))
      else if Ascii.eqb c "i" then read_bits rest (fun p => k (xI p))
      else if Ascii.eqb c "1" then Some (k xH, rest) else None
  | EmptyString => None
  end.

Definition read_number (s : string) : option (Z * string) :=
  match s with
  | String c rest =>
      if Ascii.eqb c "z" then Some (0, rest)
      else if Ascii.eqb c "+" then '(p, r) ← read_bits rest id; Some (Zpos p, r)
      else if Ascii.eqb c "-" then '(p, r) ← read_bits rest id; Some (Zneg p, r)
      else None
  | EmptyString => None
  end.

Fixpoint read (fuel : nat) (s : string) : option bytes :=
  match fuel, s with
  | _, EmptyString => Some []
  | S fuel, _ =>
      match read_number s with
      | Some (n, String c rest) => if Ascii.eqb c ";" then cons n <$> read fuel rest else None
      | _ => None
      end
  | O, _ => None
  end.

Lemma read_bits_written p : forall k rest, read_bits (bits p +:+ rest) k = Some (k p, rest).
Proof. induction p as [p IH|p IH|]; intros k rest; simpl; [apply IH..|done]. Qed.

Lemma read_number_written n rest : read_number (number n +:+ rest) = Some (n, rest).
Proof. destruct n as [|p|p]; simpl; [done|by rewrite read_bits_written..]. Qed.

Lemma read_written b : read (String.length (write b)) (write b) = Some b.
Proof.
  assert (forall fuel, (length b <= fuel)%nat -> read fuel (write b) = Some b) as H.
  { induction b as [|x b IH]; intros fuel Hf; [by destruct fuel|]. cbn [length] in Hf. destruct fuel as [|fuel]; [lia|].
    change (write (x :: b)) with (number x +:+ String ";" (write b)). unfold read; fold read.
    destruct (number x +:+ String ";" (write b)) eqn:E; [by destruct x|]. rewrite <- E, read_number_written.
    cbn. rewrite IH by lia. done. }
  apply H. clear H. induction b as [|x b IH]; [done|].
  change (write (x :: b)) with (number x +:+ String ";" (write b)).
  assert (forall a c, (String.length c <= String.length (a +:+ c))%nat) as Hl.
  { induction a as [|d a IHa]; intros c; simpl; [done|]. specialize (IHa c). lia. }
  etrans; [|apply Hl]. exact (le_n_S _ _ IH).
Qed.

Lemma undotted b : split_once_dot (write b) = None.
Proof.
  assert (forall p rest, split_once_dot (bits p +:+ rest) = None <-> split_once_dot rest = None) as Hb.
  { induction p as [p IH|p IH|]; intros rest; simpl; [specialize (IH rest)..|]; destruct (split_once_dot _) as [[? ?]|]; naive_solver. }
  induction b as [|x b IH]; [done|]. change (write (x :: b)) with (number x +:+ String ";" (write b)).
  assert (split_once_dot (String ";" (write b)) = None) as H by (simpl; by rewrite IH).
  destruct x as [|p|p]; simpl; rewrite ?(proj2 (Hb _ _) H); [by rewrite IH|done..].
Qed.

Definition claims_bytes (c : EmailContinuation.t) : bytes :=
  [EmailContinuation.session_id c; EmailContinuation.invoice_id c; EmailContinuation.verified_at c; EmailContinuation.exp c;
   Z.of_nat (length (EmailContinuation.payer_ref c))]
  ++ EmailContinuation.payer_ref c ++ ascii_bytes (EmailContinuation.event_id c).

Definition text_of (b : bytes) : string := string_of_list_ascii ((fun x => ascii_of_N (Z.to_N x)) <$> b).

Definition bytes_claims (b : bytes) : option EmailContinuation.t :=
  match b with
  | s :: i :: v :: e :: n :: rest =>
      Some (EmailContinuation.mk s i (take (Z.to_nat n) rest) v (text_of (drop (Z.to_nat n) rest)) e)
  | _ => None
  end.

#[export] Instance keys : PayerKeys := {|
  mac b := [foldr Z.add 7 b];
  base64 := write;
  unbase64 s := read (String.length s) s;
  claims_json := claims_bytes;
  claims_of_json := bytes_claims;
  payer_ref_of account email := account :: ascii_bytes email;
  lowercase := id;
|}.

Lemma text_of_bytes s : text_of (ascii_bytes s) = s.
Proof.
  induction s as [|c s IH]; [done|]. unfold text_of in *. cbn. rewrite N2Z.id, ascii_N_embedding. f_equal. exact IH.
Qed.

#[export] Instance keys_laws : PayerKeysLaws (K := keys).
Proof.
  split; [exact read_written|exact undotted|]. intros [s i r v e x]. cbn. rewrite Nat2Z.id, take_app_length, drop_app_length.
  by rewrite text_of_bytes.
Qed.

Definition claim : EmailContinuation.t := EmailContinuation.mk 5 6 [1; 2] 1700000000 "event" 0.

Lemma continuation_as_signed_witness :
  decode_continuation 1299 (continuation 1000 claim) = Some {| claim with EmailContinuation.exp := 1300 |} /\
  decode_continuation 1300 (continuation 1000 claim) = None.
Proof.
  destruct (continuation_as_signed 1000 1299 claim "" ltac:(vm_compute; split; discriminate)) as [H1 _].
  destruct (continuation_as_signed 1000 1300 claim "" ltac:(vm_compute; split; discriminate)) as [H2 _].
  split; [exact H1|exact H2].
Defined.

End IdentityExample.
