(* ===== verification/PayerPolicy.v ===== *)
(** * Validation of a request's text

    Models the rules on free text of [crates/gum-server/src/api/deposit_requests.rs]
    (parties, notes, headings, references, metadata) and on the verification
    add-ons of [crates/gum-core/src/attribution.rs].  A JSON value is [Value];
    its serialized text is a parameter, and so is Unicode's lower case. *)

From Stdlib Require Import Ascii String.
From stdpp Require Import pretty.
From S2P Require Import Prelude Text Core Contracts Bus Tables Invoices ApiError.

Definition MAX_PARTY_NAME_BYTES : nat := 255.
Definition MIN_PARTY_EMAIL_BYTES : nat := 3.
Definition MAX_PARTY_EMAIL_BYTES : nat := 254.
Definition MAX_PARTY_DETAILS_BYTES : nat := 4000.
Definition MAX_NOTES_BYTES : nat := 4000.
Definition MAX_HEADING_BYTES : nat := 200.
Definition MAX_REFERENCE_CHARS : nat := 128.
Definition MAX_ISSUER_ID_BYTES : nat := 255.
Definition MAX_PAYER_REFERENCE_BYTES : nat := 128.

(** [char::is_control]: the category Cc. *)
Definition is_control (c : string) : bool :=
  match char_bytes c with
  | [b] => (b <? 32) || (b =? 127)
  | [194; b] => (128 <=? b) && (b <=? 159)
  | _ => false
  end.

Fixpoint contains_char (x : ascii) (s : string) : bool :=
  match s with
  | EmptyString => false
  | String c rest => Ascii.eqb c x || contains_char x rest
  end.

Definition starts_with (x : ascii) (s : string) : bool :=
  match s with String c _ => Ascii.eqb c x | EmptyString => false end.

Fixpoint ends_with (x : ascii) (s : string) : bool :=
  match s with
  | EmptyString => false
  | String c EmptyString => Ascii.eqb c x
  | String _ rest => ends_with x rest
  end.

(** ** The add-ons *)

Inductive PayerPolicyError := InvalidExpectedEmail | InvalidPayerReference.

Definition policy_error_text (e : PayerPolicyError) : string :=
  match e with
  | InvalidExpectedEmail => "expected_email must be a valid email address of at most 254 bytes"
  | InvalidPayerReference =>
      "payer_reference must be 1 to 128 bytes of printable text with no whitespace or control characters"
  end.

Definition valid_email (value : string) : bool :=
  Nat.leb (String.length value) 254
  && negb (existsb is_whitespace (chars value))
  && match split_once "@"%char value with
     | Some (local, domain) =>
         negb (String.eqb local "") && contains_char "."%char domain
         && negb (starts_with "."%char domain) && negb (ends_with "."%char domain)
     | None => false
     end.

Definition valid_payer_reference (value : string) : bool :=
  negb (String.eqb value "") && Nat.leb (String.length value) MAX_PAYER_REFERENCE_BYTES
  && negb (existsb (fun c => is_whitespace c || is_control c) (chars value)).

Definition validate_policy (v : PayerVerification.t) : result PayerPolicyError unit :=
  if match PayerVerification.expected_email v with Some e => negb (valid_email e) | None => false end
  then Err InvalidExpectedEmail
  else if match PayerVerification.payer_reference v with Some r => negb (valid_payer_reference r) | None => false end
  then Err InvalidPayerReference
  else Ok tt.

Definition normalized (lowercase : string -> string) (v : PayerVerification.t) : PayerVerification.t :=
  PayerVerification.mk ((fun e => lowercase (trim e)) <$> PayerVerification.email v)
    (trim <$> PayerVerification.merchant_auth v) (PayerVerification.wallet_attestation v).

(** ** Free text *)

Inductive TextKind := SingleLine | MultiLine.

Definition line_break (c : string) : bool :=
  match char_bytes c with [b] => (b =? 10) || (b =? 13) || (b =? 9) | _ => false end.

Definition forbidden (kind : TextKind) (c : string) : bool :=
  is_control c && negb (match kind with MultiLine => line_break c | SingleLine => false end).

Definition reject_control_characters (field value : string) (kind : TextKind) : result ApiError.t unit :=
  if existsb (forbidden kind) (chars value) then
    Err (ApiError.invalid_request
           match kind with
           | SingleLine => field +:+ " must not contain control characters"
           | MultiLine => field +:+ " must not contain control characters other than line breaks and tabs"
           end)
  else Ok tt.

(** [if let Some(value) = .. { reject_control_characters(..)? }]. *)
Definition reject_controls (field : string) (value : option string) (kind : TextKind) : result ApiError.t unit :=
  match value with Some v => reject_control_characters field v kind | None => Ok tt end.

(** [value.is_some_and(|v| v.len() > max)]. *)
Definition longer_than (max : nat) (value : option string) : bool :=
  match value with Some v => Nat.ltb max (String.length v) | None => false end.

Definition refuse (bad : bool) (message : string) : result ApiError.t unit :=
  if bad then Err (ApiError.invalid_request message) else Ok tt.

Definition number (n : nat) : string := pretty (Z.of_nat n).

Definition validate_party_fields (prefix name : string) (email details : option string) : result ApiError.t unit :=
  let! _ := refuse (String.eqb (trim name) "" || Nat.ltb MAX_PARTY_NAME_BYTES (String.length name))
              (prefix +:+ "name must be 1 to " +:+ number MAX_PARTY_NAME_BYTES +:+ " bytes and not blank") in
  let! _ := reject_control_characters (prefix +:+ "name") name SingleLine in
  let! _ := refuse (match email with
                    | Some e => negb (Nat.leb MIN_PARTY_EMAIL_BYTES (String.length e)
                                      && Nat.leb (String.length e) MAX_PARTY_EMAIL_BYTES)
                    | None => false
                    end)
              (prefix +:+ "email must be " +:+ number MIN_PARTY_EMAIL_BYTES +:+ " to " +:+ number MAX_PARTY_EMAIL_BYTES
                 +:+ " bytes") in
  let! _ := reject_controls (prefix +:+ "email") email SingleLine in
  let! _ := refuse (longer_than MAX_PARTY_DETAILS_BYTES details)
              (prefix +:+ "details must be at most " +:+ number MAX_PARTY_DETAILS_BYTES +:+ " bytes") in
  reject_controls (prefix +:+ "details") details MultiLine.

Definition validate_party (field : string) (p : Party.t) : result ApiError.t unit :=
  validate_party_fields (field +:+ ".") (Party.name p) (Party.email p) (Party.details p).

Definition NUL : ascii := ascii_of_N 0.

Definition validate_issuer_id (issuer_id : string) : result ApiError.t unit :=
  let! _ := refuse (String.eqb issuer_id "" || Nat.ltb MAX_ISSUER_ID_BYTES (String.length issuer_id))
              ("issuer_id must be 1 to " +:+ number MAX_ISSUER_ID_BYTES +:+ " bytes when present") in
  refuse (contains_char NUL issuer_id) "issuer_id must not contain NUL".

(** ** Metadata *)

(** [serde_json::Value]; a number by its text. *)
Inductive Value :=
| VNull
| VBool (b : bool)
| VNumber (text : string)
| VString (text : string)
| VArray (items : list Value)
| VObject (entries : list (string * Value)).

Fixpoint contains_nul (v : Value) : bool :=
  match v with
  | VString text => contains_char NUL text
  | VArray items => existsb contains_nul items
  | VObject entries => existsb (fun kv => contains_char NUL (fst kv) || contains_nul (snd kv)) entries
  | _ => false
  end.

Definition reject_nul_in_json (field : string) (v : Value) : result ApiError.t unit :=
  refuse (contains_nul v) (field +:+ " must not contain U+0000").

(** [to_vec(..)] of a value that is already JSON does not fail. *)
Definition validate_metadata (json_text : Value -> string) (metadata : Value) : result ApiError.t unit :=
  let! _ := reject_nul_in_json "metadata" metadata in
  match metadata with
  | VObject entries =>
      let! _ := refuse (Nat.ltb 16 (length entries)) "metadata must contain at most 16 keys" in
      refuse (existsb (fun kv => Nat.ltb 512 (String.length (json_text (snd kv)))) entries)
        "each metadata value must be at most 512 bytes"
  | _ => Err (ApiError.invalid_request "metadata must be a JSON object")
  end.

Definition validate_document (json_text : Value -> string) (issuer payer : Party.t) (notes heading reference : option string)
    (metadata : Value) : result ApiError.t unit :=
  let! _ := validate_party "issuer" issuer in
  let! _ := validate_party "payer" payer in
  let! _ := refuse (longer_than MAX_NOTES_BYTES notes) ("notes must be at most " +:+ number MAX_NOTES_BYTES +:+ " bytes") in
  let! _ := reject_controls "notes" notes MultiLine in
  let! _ := refuse (longer_than MAX_HEADING_BYTES heading)
              ("heading must be at most " +:+ number MAX_HEADING_BYTES +:+ " bytes") in
  let! _ := reject_controls "heading" heading SingleLine in
  let! _ := refuse (match reference with Some r => Nat.ltb MAX_REFERENCE_CHARS (length (chars r)) | None => false end)
              ("reference must contain at most " +:+ number MAX_REFERENCE_CHARS +:+ " characters") in
  let! _ := reject_controls "reference" reference SingleLine in
  validate_metadata json_text metadata.
