(* ===== verification/Chain.v ===== *)
(** * gum-chain: what a chain node answers

    Models [crates/gum-chain/src/lib.rs] up to the JSON-RPC transport: headers,
    fees, errors, the decoding of a batch receipt's logs, the finality
    boundary and the gas of a sweep batch.

    The node is a parameter.  The record [Node.t] holds one function per
    method of the traits [ChainReader] and [ChainExecutor] that the services
    call; its first argument is the number of the call, so that a node may
    answer the same question differently later. *)

From S2P Require Import Prelude Core Contracts Bus Tables Registry Effects.

(** ** Answers *)

Module BlockHeader.
Record t := mk { number : Z; hash : B256; timestamp : Z }.
End BlockHeader.

Module FeeEstimate.
Record t := mk { max_fee_per_gas : Z; max_priority_fee_per_gas : Z }.

(** A 12.5% bump, in wrapping [u128] arithmetic. *)
Definition bump (fee : Z) : Z := (fee + fee / 8 + 1) mod 2 ^ 128.

Definition bumped (f : t) : t :=
  mk (bump (max_fee_per_gas f)) (bump (max_priority_fee_per_gas f)).

Definition max (f g : t) : t :=
  mk (Z.max (max_fee_per_gas f) (max_fee_per_gas g))
     (Z.max (max_priority_fee_per_gas f) (max_priority_fee_per_gas g)).
End FeeEstimate.

Inductive ChainError :=
| Rpc (operation message : string) (retryable : bool)
| LogRangeTooLarge (message : string)
| FinalityViolation (message : string)
| Transient (message : string)
| ReadOnly.

Definition chain_error_is_retryable (e : ChainError) : bool :=
  match e with
  | Transient _ | LogRangeTooLarge _ => true
  | Rpc _ _ retryable => retryable
  | _ => false
  end.

Module SweepRequest.
Record t := mk {
  token : Address;
  amount : Z;
  receiver : Address;
  expiration_timestamp : Z;
  recovery : Address;
  salt : B256;
  chain_id : Z;
}.
End SweepRequest.

Inductive SweepOutcome :=
| SoSettled (amount recovered_amount : Z)
| SoRecovered (amount : Z)
| SoCollected (amount : Z)
| SoFailed (revert_data : bytes).

Module SweepReceipt.
Record t := mk {
  succeeded : bool;
  block : Z;
  block_hash : B256;
  transaction_index : Z;
  outcomes : gmap Address SweepOutcome;
}.
End SweepReceipt.

Module TransactionOutcome.
Record t := mk { succeeded : bool; block : Z; block_hash : B256 }.
End TransactionOutcome.

Module Prepared.
Record t := mk { hash : B256; raw : bytes }.
End Prepared.

Module FailureProbe.
Record t := mk {
  code_present : bool;
  paused : option bool;
  payment_blacklisted : option bool;
  receiver_blacklisted : option bool;
  recovery_blacklisted : option bool;
  balance : option Z;
}.
End FailureProbe.

Module SettlementEvent.
Record t := mk {
  transaction_hash : B256;
  block_number : Z;
  block_hash : B256;
  transaction_index : Z;
  settled : option Z;
  recovered : Z;
}.
End SettlementEvent.

(** A Transfer log to one of the recipients a scan asked for. *)
Module WatchedTransfer.
Record t := mk {
  token : Address;
  block_number : Z;
  block_hash : B256;
  block_timestamp : Z;
  transaction_hash : B256;
  transaction_index : Z;
  log_index : Z;
  sender : Address;
  recipient : Address;
  amount : Z;
}.
End WatchedTransfer.

Module TokenTransfer.
Record t := mk { log_index : Z; sender : Address; recipient : Address; amount : Z }.
End TokenTransfer.

Module TokenPaymentReceipt.
Record t := mk {
  transaction_hash : B256;
  sender : Address;
  outcome : TransactionOutcome.t;
  transfers : list TokenTransfer.t;
}.
End TokenPaymentReceipt.

(** ** The node *)

Module Node.
Record t := mk {
  latest_block_number : nat -> result ChainError Z;
  finalized_header : nat -> result ChainError BlockHeader.t;
  block_header : nat -> Z -> result ChainError BlockHeader.t;
  token_transfers : nat -> list Address -> Z -> Z -> list Address ->
    result ChainError (list WatchedTransfer.t);
  token_payment_receipt : nat -> B256 -> Address ->
    result ChainError (option TokenPaymentReceipt.t);
  sweep_receipt : nat -> B256 -> Address -> result ChainError (option SweepReceipt.t);
  transaction_receipt : nat -> B256 -> result ChainError (option TransactionOutcome.t);
  (* [finalized_view_call] of [usedNonces], with its ABI encoding and decoding *)
  used_nonces : nat -> Address -> B256 -> result ChainError Z;
  authorization_state : nat -> Address -> Address -> B256 -> Z -> result ChainError bool;
  authorization_used_tx : nat -> Address -> Address -> B256 -> Z -> Z ->
    result ChainError (option (B256 * TransactionOutcome.t));
  payment_settlement_tx : nat -> Address -> Address -> Z -> Z ->
    result ChainError (option SettlementEvent.t);
  probe_failure : nat -> Currency -> Address -> Address -> Address -> Address -> Z ->
    result ChainError FailureProbe.t;
  signers : list Address;
  signer_nonce : nat -> Address -> bool -> result ChainError Z;
  signer_balance : nat -> Address -> result ChainError Z;
  estimate_fees : nat -> result ChainError FeeEstimate.t;
  prepare_sweep_batch : nat -> Address -> Address -> list SweepRequest.t -> Z -> Z ->
    FeeEstimate.t -> result ChainError Prepared.t;
  prepare_call : nat -> Address -> Address -> bytes -> Z -> Z -> FeeEstimate.t ->
    result ChainError Prepared.t;
  broadcast_sweep_transaction : nat -> Prepared.t -> result ChainError unit;
}.
End Node.

(** A computation that only calls the node: its state counts the calls. *)
Abbreviation rpc := (eff ChainError nat) (only parsing).

Definition call {A} (answer : nat -> result ChainError A) : rpc A :=
  fun n => (answer n, S n).

Definition finality_boundary (chain : Node.t) (source : FinalitySource) (confirmations : Z)
  : rpc BlockHeader.t :=
  match source with
  | Latest =>
      let* latest := call (Node.latest_block_number chain) in
      call (fun n => Node.block_header chain n (u64_saturating_sub latest confirmations))
  | FinalizedTag =>
      let* anchor := call (Node.finalized_header chain) in
      if confirmations =? 0 then ret anchor
      else call (fun n => Node.block_header chain n
                   (u64_saturating_sub (BlockHeader.number anchor) confirmations))
  end.

(** ** Gas of a sweep batch *)

Definition SWEEP_BATCH_BASE_GAS : Z := 100000.
Definition SWEEP_GAS_PER_ITEM : Z := 400000.

Definition u64_saturating_mul (a b : Z) : Z := Z.min (a * b) u64_max.

Definition sweep_batch_gas_limit (sweep_count : Z) : Z :=
  u64_saturating_add SWEEP_BATCH_BASE_GAS
    (u64_saturating_mul SWEEP_GAS_PER_ITEM (Z.min sweep_count u64_max)).

Definition sweep_batch_capacity (gas_budget : Z) : Z :=
  u64_saturating_sub gas_budget SWEEP_BATCH_BASE_GAS / SWEEP_GAS_PER_ITEM.

(** ** Folds whose steps commute *)

Lemma try_fold_perm {E A S} (f : S -> A -> result E S) :
  (forall s x y s', rbind (f s x) (fun s1 => f s1 y) = Ok s' ->
                    rbind (f s y) (fun s1 => f s1 x) = Ok s') ->
  forall l l', l ≡ₚ l' -> forall s s', try_fold f s l = Ok s' -> try_fold f s l' = Ok s'.
Proof.
  intros Hcomm l l'. induction 1 as [|x l l' _ IH|x y l|l1 l2 l3 _ IH1 _ IH2]; intros s s'; simpl.
  - done.
  - intros (s1 & Hf & Hl)%rbind_ok. rewrite Hf. simpl. eauto.
  - intros (s1 & Hy & (s2 & Hx & Hl)%rbind_ok)%rbind_ok.
    assert (rbind (f s x) (fun s1 => f s1 y) = Ok s2) as (s3 & Hx3 & Hy3)%rbind_ok.
    { apply Hcomm. by rewrite Hy. }
    rewrite Hx3. simpl. by rewrite Hy3.
  - eauto.
Qed.

(** ** Decoding a batch receipt

    A log is its emitter, topics and data; the event signatures and the ABI
    decoders are parameters. *)

Module Log.
Record t := mk { address : Address; topics : list B256; data : bytes }.
End Log.

Module PendingOutcome.
Record t := mk { settled : option Z; recovered : option Z; sweeper : option SweepOutcome }.
Definition default : t := mk None None None.
End PendingOutcome.

(** What one log says about one payment address. *)
Inductive LogEvent := EvSweeper (outcome : SweepOutcome) | EvSettled (amount : Z) | EvRecovered (amount : Z).

Section Decode.
Context (SweepFailed_HASH SweepRecovered_HASH Settled_HASH Recovered_HASH : B256).
Context (decode_SweepFailed : Log.t -> option (Address * bytes)).
Context (decode_SweepRecovered : Log.t -> option (Address * Z)).
Context (decode_Settled decode_Recovered : Log.t -> option Z).

Definition malformed (event : string) : ChainError := Transient ("malformed event: " +:+ event).
Definition duplicate (event : string) : ChainError := Transient ("duplicate event: " +:+ event).
Definition conflict (detail : string) : ChainError := Transient ("malformed sweep receipt: " +:+ detail).

(** The branches of the loop body; [None] is its [continue]. *)
Definition log_event (batch_sweeper : Address) (log : Log.t)
  : result ChainError (option (Address * LogEvent)) :=
  match Log.topics log with
  | [] => Ok None
  | topic :: _ =>
      if bool_decide (Log.address log = batch_sweeper) then
        if bool_decide (topic = SweepFailed_HASH) then
          let! '(payment, revert_data) := ok_or (decode_SweepFailed log) (malformed "SweepFailed") in
          Ok (Some (payment, EvSweeper (SoFailed revert_data)))
        else if bool_decide (topic = SweepRecovered_HASH) then
          let! '(payment, amount) := ok_or (decode_SweepRecovered log) (malformed "SweepRecovered") in
          Ok (Some (payment, EvSweeper (SoCollected amount)))
        else Ok None
      else if bool_decide (topic = Settled_HASH) then
        let! amount := ok_or (decode_Settled log) (malformed "Settled") in
        Ok (Some (Log.address log, EvSettled amount))
      else if bool_decide (topic = Recovered_HASH) then
        let! amount := ok_or (decode_Recovered log) (malformed "Recovered") in
        Ok (Some (Log.address log, EvRecovered amount))
      else Ok None
  end.

Definition record_event (entry : PendingOutcome.t) (e : LogEvent) : result ChainError PendingOutcome.t :=
  match e with
  | EvSweeper outcome =>
      if is_some (PendingOutcome.sweeper entry) then Err (duplicate "BatchSweeper")
      else Ok {| entry with PendingOutcome.sweeper := Some outcome |}
  | EvSettled amount =>
      if is_some (PendingOutcome.settled entry) then Err (duplicate "Settled")
      else Ok {| entry with PendingOutcome.settled := Some amount |}
  | EvRecovered amount =>
      if is_some (PendingOutcome.recovered entry) then Err (duplicate "Recovered")
      else Ok {| entry with PendingOutcome.recovered := Some amount |}
  end.

Definition decode_log (batch_sweeper : Address) (pending : gmap Address PendingOutcome.t) (log : Log.t)
  : result ChainError (gmap Address PendingOutcome.t) :=
  let! event := log_event batch_sweeper log in
  match event with
  | None => Ok pending
  | Some (payment, e) =>
      let! entry := record_event (default PendingOutcome.default (pending !! payment)) e in
      Ok (<[payment := entry]> pending)
  end.

(** The outcome of one address. The last case is the code's
    [unreachable!]: an entry is only created by an event. *)
Definition conclude (entry : PendingOutcome.t) : result ChainError SweepOutcome :=
  match PendingOutcome.sweeper entry, PendingOutcome.settled entry, PendingOutcome.recovered entry with
  | Some _, Some _, _ => Err (conflict "both settled and reported by BatchSweeper")
  | Some (SoFailed _), None, Some _ => Err (conflict "both recovered and reported failed by BatchSweeper")
  | Some sweeper, None, _ => Ok sweeper
  | None, Some amount, recovered => Ok (SoSettled amount (default 0 recovered))
  | None, None, Some amount => Ok (SoRecovered amount)
  | None, None, None => Err (Transient "unreachable: an entry is only created by an event")
  end.

Definition decode_sweep_outcomes (logs : list Log.t) (batch_sweeper : Address)
  : result ChainError (gmap Address SweepOutcome) :=
  let! pending := try_fold (decode_log batch_sweeper) ∅ logs in
  try_fold (fun outcomes '(address, entry) =>
      let! outcome := conclude entry in
      Ok (<[address := outcome]> outcomes))
    ∅ (map_to_list pending).

(** *** The order of the logs does not matter *)

Lemma record_event_comm entry e1 e2 entry' :
  rbind (record_event entry e1) (fun x => record_event x e2) = Ok entry' ->
  rbind (record_event entry e2) (fun x => record_event x e1) = Ok entry'.
Proof.
  destruct entry as [[|] [|] [|]], e1, e2; simpl; intros; simplify_eq; done.
Qed.

Lemma decode_log_comm sweeper pending x y pending' :
  rbind (decode_log sweeper pending x) (fun p => decode_log sweeper p y) = Ok pending' ->
  rbind (decode_log sweeper pending y) (fun p => decode_log sweeper p x) = Ok pending'.
Proof.
  unfold decode_log.
  destruct (log_event sweeper x) as [[[a1 e1]|]|]; [| |by intros [=]];
  destruct (log_event sweeper y) as [[[a2 e2]|]|]; cbn [rbind];
    try (destruct (record_event _ _); simpl; done); try done.
  destruct (decide (a1 = a2)) as [<-|Hne].
  - intros (p1 & (x1 & Hx1 & [= <-])%rbind_ok & (x2 & Hx2 & [= <-])%rbind_ok)%rbind_ok.
    rewrite lookup_insert_eq in Hx2. simpl in Hx2.
    destruct (rbind_ok (record_event (default PendingOutcome.default (pending !! a1)) e2)
      (fun x => record_event x e1) x2) as (x3 & Hx3 & Hx4).
    { apply record_event_comm. by rewrite Hx1. }
    rewrite Hx3. cbn [rbind]. rewrite lookup_insert_eq. cbn [from_option id]. rewrite Hx4. cbn [rbind].
    by rewrite !insert_insert_eq.
  - intros (p1 & (x1 & Hx1 & [= <-])%rbind_ok & (x2 & Hx2 & [= <-])%rbind_ok)%rbind_ok.
    rewrite lookup_insert_ne in Hx2 by done. rewrite Hx2. cbn [rbind].
    rewrite lookup_insert_ne by done. rewrite Hx1. cbn [rbind]. by rewrite insert_insert_ne.
Qed.

(** The outcomes decoded from a batch receipt do not depend on the order
    in which the node returned its logs: two orders of the same logs decode
    to the same outcomes, or are both refused. *)
Theorem decode_order_independent logs logs' sweeper outcomes :
  logs ≡ₚ logs' ->
  decode_sweep_outcomes logs sweeper = Ok outcomes <-> decode_sweep_outcomes logs' sweeper = Ok outcomes.
Proof.
  assert (forall l l', l ≡ₚ l' -> decode_sweep_outcomes l sweeper = Ok outcomes ->
    decode_sweep_outcomes l' sweeper = Ok outcomes) as Hone.
  { intros l l' Hp. unfold decode_sweep_outcomes. intros (p & Hp1 & Hc)%rbind_ok.
    rewrite (try_fold_perm _ (decode_log_comm sweeper) _ _ Hp _ _ Hp1). done. }
  intros Hp. split; apply Hone; [done|by symmetry].
Qed.

End Decode.
