(* ===== verification/Relay.v ===== *)
(** * gum-relay: reading Relay's answers

    Models [crates/gum-relay/src/lib.rs]: the chains, quotes, statuses and
    request records of Relay's API and the functions that read them out of a
    JSON document.  [Value] is the document ([serde_json::Value]); the parsing
    of the text, of hexadecimal and of decimal amounts are parameters, as is the
    HTTP client behind the trait [RelayApi]. *)

From stdpp Require Import pretty.
From S2P Require Import Prelude Core.

(** ** JSON documents *)

Module Json.

Inductive Number := PosInt (n : Z) | NegInt (n : Z) | Float (repr : string).

Inductive Value :=
| VNull
| VBool (b : bool)
| VNumber (n : Number)
| VString (s : string)
| VArray (l : list Value)
| VObject (fields : list (string * Value)).

Definition get (key : string) (v : Value) : option Value :=
  match v with
  | VObject fields => snd <$> List.find (fun kv => String.eqb (fst kv) key) fields
  | _ => None
  end.

(** [value[key]]: null where there is no such field. *)
Definition index (v : Value) (key : string) : Value := default VNull (get key v).

Definition as_str (v : Value) : option string := match v with VString s => Some s | _ => None end.
Definition as_array (v : Value) : option (list Value) := match v with VArray l => Some l | _ => None end.
Definition number_as_u64 (n : Number) : option Z := match n with PosInt n => Some n | _ => None end.
Definition is_null (v : Value) : bool := match v with VNull => true | _ => false end.

End Json.

Declare Scope json_scope.
Notation "v .[ key ]" := (Json.index v key) (at level 2, left associativity, format "v .[ key ]") : json_scope.

(** ** Data *)

Inductive RelayError :=
| RelayTransport (message : string)
| RelayHttpStatus (status : Z) (code : option string) (message : string)
| RelayMalformed (message : string).

Module RelayCurrency.
Record t := mk { symbol : string; address : Address; decimals : Z }.
End RelayCurrency.

Module RelayChain.
Record t := mk {
  id : Z;
  name : string;
  display_name : string;
  explorer_url : option string;
  icon_url : option string;
  http_rpc_url : option string;
  vm_type : string;
  deposit_enabled : bool;
  disabled : bool;
  native_symbol : option string;
  solver_currencies : list RelayCurrency.t;
}.

Definition accepts_deposits (c : t) : bool :=
  String.eqb (vm_type c) "evm" && deposit_enabled c && negb (disabled c).

Definition currency (sym : string) (c : t) : option RelayCurrency.t :=
  if negb (accepts_deposits c) then None
  else List.find (fun x => String.eqb (RelayCurrency.symbol x) sym) (solver_currencies c).

Definition usdc : t -> option RelayCurrency.t := currency "USDC".
End RelayChain.

Module QuoteRequest.
Record t := mk {
  user : Address;
  recipient : Address;
  origin_chain_id : Z;
  destination_chain_id : Z;
  origin_currency : Address;
  destination_currency : Address;
  amount : Z;
}.
End QuoteRequest.

Module StepTransaction.
Record t := mk {
  chain_id : Z; from : Address; to : Address; data : bytes; value : Z; gas : option Z;
}.
End StepTransaction.

Module QuoteStep.
Record t := mk { id : string; kind : string; transactions : list StepTransaction.t }.
End QuoteStep.

Module Quote.
Record t := mk {
  request_id : B256;
  amount_in : Z;
  amount_out : Z;
  relayer_fee_usd : option string;
  time_estimate_secs : Z;
  steps : list QuoteStep.t;
}.
End Quote.

Inductive IntentState := Waiting | IntentPending | IntentSuccess | IntentRefund | IntentFailure.

#[export] Instance IntentState_eq_dec : EqDecision IntentState.
Proof. solve_decision. Defined.

Definition parse_state (status : string) : IntentState :=
  if String.eqb status "success" then IntentSuccess
  else if String.eqb status "refund" then IntentRefund
  else if String.eqb status "failure" then IntentFailure
  else if String.eqb status "waiting" || String.eqb status "unknown" then Waiting
  else IntentPending.

Module IntentStatus.
Record t := mk {
  state : IntentState;
  raw : string;
  in_tx_hashes : list B256;
  tx_hashes : list B256;
}.
End IntentStatus.

Module RelayRequest.
Record t := mk { status : string; in_txs : list (Z * B256); out_txs : list (Z * B256) }.
End RelayRequest.

(** [trait RelayApi]; an answer may differ from call to call. *)
Module RelayApi.
Record t := mk {
  chains : nat -> result RelayError (list RelayChain.t);
  quote : nat -> QuoteRequest.t -> result RelayError Quote.t;
  status : nat -> B256 -> result RelayError IntentStatus.t;
  request : nat -> B256 -> result RelayError (option RelayRequest.t);
}.
End RelayApi.

(** ** [GET /chains], after the decoding of its records *)

Module CurrencyRecord.
Record t := mk { symbol : string; address : option string; decimals : option Z }.
End CurrencyRecord.

Module ChainRecord.
Record t := mk {
  id : Z;
  name : string;
  display_name : option string;
  explorer_url : option string;
  icon_url : option string;
  http_rpc_url : option string;
  vm_type : option string;
  deposit_enabled : bool;
  disabled : bool;
  currency : option CurrencyRecord.t;
  solver_currencies : list CurrencyRecord.t;
}.
End ChainRecord.

Definition nonempty (o : option string) : option string :=
  match o with Some s => if String.eqb s "" then None else Some s | None => None end.

Module RelayClient.

Import Json.

Section Parsers.
#[local] Open Scope json_scope.
Context (from_str : string -> result string Value)
        (parse_b256 : string -> option B256) (parse_address : string -> option Address)
        (parse_u256 : string -> option Z) (hex_decode : string -> option bytes)
        (hex : B256 -> string).

Definition solver_currency (c : CurrencyRecord.t) : option RelayCurrency.t :=
  text ← CurrencyRecord.address c;
  address ← parse_address text;
  decimals ← CurrencyRecord.decimals c;
  Some (RelayCurrency.mk (CurrencyRecord.symbol c) address decimals).

Definition parse_chains (records : list ChainRecord.t) : list RelayChain.t :=
  (fun r => RelayChain.mk (ChainRecord.id r) (ChainRecord.name r)
     (default (ChainRecord.name r) (ChainRecord.display_name r))
     (nonempty (ChainRecord.explorer_url r)) (nonempty (ChainRecord.icon_url r))
     (nonempty (ChainRecord.http_rpc_url r)) (default "" (ChainRecord.vm_type r))
     (ChainRecord.deposit_enabled r) (ChainRecord.disabled r)
     (CurrencyRecord.symbol <$> ChainRecord.currency r)
     (omap solver_currency (ChainRecord.solver_currencies r))) <$> records.

(** ** Fields *)

Definition word (field : string) (v : Value) : result RelayError B256 :=
  ok_or (as_str v ≫= parse_b256) (RelayMalformed (field +:+ " is not a 32-byte hex word")).

Definition address (field : string) (v : Value) : result RelayError Address :=
  ok_or (as_str v ≫= parse_address) (RelayMalformed (field +:+ " is not an address")).

Definition uint (field : string) (v : Value) : result RelayError Z :=
  ok_or (match v with
         | VString text => parse_u256 text
         | VNumber n => number_as_u64 n
         | _ => None
         end) (RelayMalformed (field +:+ " is not a decimal amount")).

Definition u64_of (field : string) (v : Value) : result RelayError Z :=
  ok_or (match v with
         | VString text => parse_u64 text
         | VNumber n => number_as_u64 n
         | _ => None
         end) (RelayMalformed (field +:+ " is not an integer")).

(** [Option<Result<..>>::transpose] with the [?] after it. *)
Definition transpose {A} (o : option (result RelayError A)) : result RelayError (option A) :=
  match o with
  | None => Ok None
  | Some (Ok a) => Ok (Some a)
  | Some (Err e) => Err e
  end.

(** ** [POST /quote/v2] *)

Definition parse_item (item : Value) : result RelayError StepTransaction.t :=
  let data := item.["data"] in
  let! calldata :=
    match as_str (data.["data"]) with
    | None => Ok []
    | Some text => ok_or (hex_decode text) (RelayMalformed "step data is not hex")
    end in
  let! chain_id := u64_of "step chainId" (data.["chainId"]) in
  let! from := address "step from" (data.["from"]) in
  let! to := address "step to" (data.["to"]) in
  let! value :=
    match get "value" data with
    | Some v => if is_null v then Ok 0 else uint "step value" v
    | None => Ok 0
    end in
  let! gas :=
    transpose (match get "gas" data with
               | Some v => if is_null v then None else Some (u64_of "step gas" v)
               | None => None
               end) in
  Ok (StepTransaction.mk chain_id from to calldata value gas).

Definition parse_step (step : Value) : result RelayError QuoteStep.t :=
  let! id := ok_or (as_str (step.["id"])) (RelayMalformed "step without id") in
  let! kind := ok_or (as_str (step.["kind"])) (RelayMalformed "step without kind") in
  let! items := ok_or (as_array (step.["items"])) (RelayMalformed "step items is not an array") in
  let! transactions := map_result parse_item items in
  Ok (QuoteStep.mk id kind transactions).

Definition document (body : string) : result RelayError Value :=
  match from_str body with Ok v => Ok v | Err message => Err (RelayMalformed message) end.

Definition parse_quote (body : string) : result RelayError Quote.t :=
  let! value := document body in
  let! request_id := word "requestId" (value.["requestId"]) in
  let details := value.["details"] in
  let! amount_in := uint "details.currencyIn.amount" (details.["currencyIn"].["amount"]) in
  let! amount_out := uint "details.currencyOut.amount" (details.["currencyOut"].["amount"]) in
  let! estimate := transpose (u64_of "details.timeEstimate" <$> get "timeEstimate" details) in
  let relayer_fee_usd := as_str (value.["fees"].["relayer"].["amountUsd"]) in
  let! steps := ok_or (as_array (value.["steps"])) (RelayMalformed "steps is not an array") in
  let! parsed_steps := map_result parse_step steps in
  Ok (Quote.mk request_id amount_in amount_out relayer_fee_usd (default 0 estimate) parsed_steps).

(** ** [GET /intents/status/v3] *)

Definition hashes (value : Value) (field : string) : result RelayError (list B256) :=
  match as_array (value.[field]) with
  | Some l => map_result (word field) l
  | None => Ok []
  end.

Definition parse_status (body : string) : result RelayError IntentStatus.t :=
  let! value := document body in
  let! raw := ok_or (as_str (value.["status"])) (RelayMalformed "status missing") in
  let! in_tx_hashes := hashes value "inTxHashes" in
  let! tx_hashes := hashes value "txHashes" in
  Ok (IntentStatus.mk (parse_state raw) raw in_tx_hashes tx_hashes).

(** ** [GET /requests/v3] *)

(** A transaction without a status, or with [success]. *)
Definition tx_succeeded (tx : Value) : bool :=
  match as_str (tx.["status"]) with None => true | Some status => String.eqb status "success" end.

Definition parse_tx (field : string) (tx : Value) : result RelayError (Z * B256) :=
  let! hash := ok_or (match as_str (tx.["txHash"]) with Some h => Some h | None => as_str (tx.["hash"]) end)
                 (RelayMalformed (field +:+ " entry has no hash")) in
  let! chain_id := u64_of "chainId" (tx.["chainId"]) in
  let! parsed := ok_or (parse_b256 hash) (RelayMalformed (field +:+ " hash is not a 32-byte hex word")) in
  Ok (chain_id, parsed).

Definition txs (record : Value) (field : string) : result RelayError (list (Z * B256)) :=
  match as_array (record.["data"].[field]) with
  | Some l => map_result (parse_tx field) (List.filter tx_succeeded l)
  | None => Ok []
  end.

Definition names_request (wanted : string) (record : Value) : bool :=
  bool_decide (as_str (record.["id"]) = Some wanted).

Definition parse_request (body : string) (expected_request_id : B256)
  : result RelayError (option RelayRequest.t) :=
  let! value := document body in
  let! requests := ok_or (as_array (value.["requests"])) (RelayMalformed "requests is not an array") in
  match requests with
  | [] => Ok None
  | _ :: _ =>
      let wanted := hex expected_request_id in
      match List.filter (names_request wanted) requests with
      | [record] =>
          let status := default "" (as_str (record.["status"])) in
          let! in_txs := txs record "inTxs" in
          let! out_txs := txs record "outTxs" in
          Ok (Some (RelayRequest.mk status in_txs out_txs))
      | _ => Err (RelayMalformed ("request record is not exactly " +:+ wanted))
      end
  end.

(** ** What the record says *)

(** A transaction of the record, as the document lists it. *)
Definition lists_tx (record : Value) (field : string) (chain : Z) (hash : B256) : Prop :=
  exists l tx text, as_array (record.["data"].[field]) = Some l /\ tx ∈ l /\ tx_succeeded tx = true /\
    (as_str (tx.["txHash"]) = Some text \/ as_str (tx.["txHash"]) = None /\ as_str (tx.["hash"]) = Some text) /\
    parse_b256 text = Some hash /\ u64_of "chainId" (tx.["chainId"]) = Ok chain.

Lemma parse_tx_ok field tx chain hash :
  parse_tx field tx = Ok (chain, hash) <->
  exists text,
    (as_str (tx.["txHash"]) = Some text \/ as_str (tx.["txHash"]) = None /\ as_str (tx.["hash"]) = Some text) /\
    parse_b256 text = Some hash /\ u64_of "chainId" (tx.["chainId"]) = Ok chain.
Proof.
  unfold parse_tx. split.
  - intros (text & Ht%ok_or_ok & (c & Hc & (h & Hh%ok_or_ok & [= -> ->])%rbind_ok)%rbind_ok)%rbind_ok.
    exists text. split; [|done]. destruct (as_str _) eqn:E; [left; congruence|by right].
  - intros (text & Ht & Hh & Hc).
    assert (match as_str (tx.["txHash"]) with Some h => Some h | None => as_str (tx.["hash"]) end = Some text) as ->
      by (destruct Ht as [->|[-> ->]]; done).
    simpl. rewrite Hc. simpl. by rewrite Hh.
Qed.

Lemma txs_ok record field l chain hash :
  txs record field = Ok l -> (chain, hash) ∈ l <-> lists_tx record field chain hash.
Proof.
  unfold txs, lists_tx. destruct (as_array _) as [entries|] eqn:E.
  - rewrite map_result_ok. intros Hl. split.
    + intros (i & Hi)%list_elem_of_lookup_1.
      destruct (Forall2_lookup_r _ _ _ _ _ Hl Hi) as (tx & Htx & Hp). apply list_elem_of_lookup_2 in Htx.
      apply list_elem_of_In, filter_In in Htx as [Hin Hs].
      apply parse_tx_ok in Hp as (text & H1 & H2 & H3).
      exists entries, tx, text. split_and!; [done|by apply list_elem_of_In|done..].
    + intros (l' & tx & text & [= <-] & Hin & Hs & H1 & H2 & H3).
      assert (tx ∈ List.filter tx_succeeded entries) as Hf by (apply list_elem_of_In, filter_In; rewrite <- list_elem_of_In; done).
      apply list_elem_of_lookup_1 in Hf as (i & Hi).
      destruct (Forall2_lookup_l _ _ _ _ _ Hl Hi) as ([c h] & Hy & Hp).
      assert (parse_tx field tx = Ok (chain, hash)) as Hp' by (apply parse_tx_ok; eauto).
      assert ((c, h) = (chain, hash)) as <- by congruence. by eapply list_elem_of_lookup_2.
  - intros [= <-]. split; [by intros ?%not_elem_of_nil|]. by intros (? & ? & ? & ? & _).
Qed.

(** The record of a request is the one record of the document that names it;
    a document that names it twice, or names only others, is refused; its
    transactions are exactly the successful ones the record lists. *)
Theorem request_record_exact body id answer :
  parse_request body id = Ok answer ->
  exists doc requests, from_str body = Ok doc /\ as_array (doc.["requests"]) = Some requests /\
    match answer with
    | None => requests = []
    | Some r =>
        exists record, record ∈ requests /\ as_str (record.["id"]) = Some (hex id) /\
          (forall other, other ∈ requests -> as_str (other.["id"]) = Some (hex id) -> other = record) /\
          (forall chain hash, (chain, hash) ∈ RelayRequest.in_txs r <-> lists_tx record "inTxs" chain hash) /\
          (forall chain hash, (chain, hash) ∈ RelayRequest.out_txs r <-> lists_tx record "outTxs" chain hash)
    end.
Proof.
  unfold parse_request, document. intros (doc & Hdoc & (requests & Hreq%ok_or_ok & H)%rbind_ok)%rbind_ok.
  exists doc, requests. split; [by destruct (from_str body); simplify_eq|]. split; [done|].
  destruct requests as [|q qs]; [by injection H as <-|].
  destruct (List.filter _ _) as [|record [|]] eqn:Hf; [discriminate| |discriminate].
  apply rbind_ok in H as (ins & Hins & (outs & Houts & [= <-])%rbind_ok). exists record.
  assert (forall v, v ∈ [record] <-> v ∈ q :: qs /\ as_str (v.["id"]) = Some (hex id)) as Hr.
  { intros v. rewrite <- Hf, list_elem_of_In, filter_In, <- list_elem_of_In. unfold names_request.
    by rewrite bool_decide_eq_true. }
  destruct (proj1 (Hr record) ltac:(by left)) as [Hin Hid]. split_and!; [done|done| | |].
  - intros other Ho Hoid. apply list_elem_of_singleton. by apply Hr.
  - intros chain hash. by apply txs_ok.
  - intros chain hash. by apply txs_ok.
Qed.

End Parsers.

End RelayClient.
