(* ===== verification/RelayPoller.v ===== *)
(** * gum-server: following payments made through Relay

    Models [crates/gum-server/src/relay_intents.rs]: the pass that expires
    quotes, fails intents that stayed unresolved for a day, and asks Relay and
    the origin chain about every intent that is due.

    Parameters: Relay's API, the chains' nodes, the clocks and the other users
    of the database ([Poller.t]). *)

From stdpp Require Import sorting.
From S2P Require Import Prelude Contracts Tables Registry RelayIntents Effects Chain Relay.

(* durations in microseconds *)
Definition RELAY_POLL : Z := 3 * 10 ^ 6.
Definition RELAY_ERROR_BACKOFF : Z := 15 * 10 ^ 6.
Definition RELAY_UNSERVED_BACKOFF : Z := 300 * 10 ^ 6.
Definition RELAY_SENT_CUTOFF : Z := 24 * 3600 * 10 ^ 6.
Definition RELAY_POLL_BATCH : nat := 20.

Module Poller.
Record t := mk {
  relay : option RelayApi.t;
  chains : Z -> option Node.t;
  registry : ChainRegistry.t;
  others : nat -> Db.t -> Db.t;
  database_now : nat -> Timestamp;
  utc_now : nat -> Timestamp;
}.
End Poller.

Inductive PollError :=
| PollRelay (e : RelayError)
| PollChain (e : ChainError)
| PollDatabase (e : DbError)
| PollMalformed (what : string).

(** [Vec::dedup]: runs of equal elements are kept once. *)
Fixpoint dedup (l : list B256) : list B256 :=
  match l with
  | x :: ((y :: _) as rest) => if bool_decide (x = y) then dedup rest else x :: dedup rest
  | _ => l
  end.

(** The hashes of the transactions on one chain. *)
Definition on_chain (chain : Z) (txs : list (Z * B256)) : list B256 :=
  snd <$> List.filter (fun tx => fst tx =? chain) txs.

(** What the origin chain's receipts say of the candidates. *)
Inductive Verdict :=
| Unmined
| Verified (origin_tx : B256)
| Unproven (successful conclusive_foreign : Z).

Section Poller.
Context (self : Poller.t).

Abbreviation poller := (eff PollError World.t) (only parsing).

Definition write {A} (f : Timestamp -> Db.t -> result DbError (A * Db.t)) : poller A :=
  update PollDatabase (Poller.others self) (Poller.database_now self) f.

Definition select {A} (f : Timestamp -> Db.t -> A) : poller A :=
  query PollDatabase (Poller.others self) (fun n db => Ok (f (Poller.database_now self n) db)).

Definition relay_call {A} (f : nat -> result RelayError A) : poller A :=
  let* r := outside f in
  lift (match r with Ok a => Ok a | Err e => Err (PollRelay e) end).

Definition chain_call {A} (f : nat -> result ChainError A) : poller A :=
  let* r := outside f in
  lift (match r with Ok a => Ok a | Err e => Err (PollChain e) end).

Definition defer_until (id : Uuid) (next : Timestamp) (status : option string) : poller unit :=
  write (fun _ db => Ok (tt, defer id next status db)).

(** [defer]: an error of it is only logged. *)
Definition defer_for (id : Uuid) (backoff : Z) (status : option string) : poller unit :=
  let* t := clock (Poller.utc_now self) in
  let* _ := attempt (defer_until id (t + backoff) status) in
  ret tt.

(** The wallet spent exactly the quoted amount. *)
Definition debits (wallet : Address) (quoted_in : Z) (transfer : TokenTransfer.t) : bool :=
  bool_decide (TokenTransfer.sender transfer = wallet) && (TokenTransfer.amount transfer =? quoted_in).

Fixpoint examine (origin : Node.t) (currency wallet : Address) (quoted_in : Z) (candidates : list B256)
    (successful conclusive_foreign : Z) : poller Verdict :=
  match candidates with
  | [] => ret (Unproven successful conclusive_foreign)
  | candidate :: rest =>
      let* receipt := chain_call (fun n => Node.token_payment_receipt origin n candidate currency) in
      match receipt with
      | None => ret Unmined
      | Some receipt =>
          if negb (TransactionOutcome.succeeded (TokenPaymentReceipt.outcome receipt))
          then examine origin currency wallet quoted_in rest successful conclusive_foreign
          else if negb (bool_decide (TokenPaymentReceipt.sender receipt = wallet))
          then examine origin currency wallet quoted_in rest (successful + 1) (conclusive_foreign + 1)
          else if existsb (debits wallet quoted_in) (TokenPaymentReceipt.transfers receipt)
          then ret (Verified candidate)
          else examine origin currency wallet quoted_in rest (successful + 1) conclusive_foreign
      end
  end.

Definition fail_intent (id : Uuid) (outcome : RelayStatus) (status : string) : poller Resolution.t :=
  write (resolve_failed id outcome status).

(** The [Success] arm of [poll], once the record is at hand. *)
Definition resolve (id : Uuid) (i : RelayIntent.t) (origin : Node.t) (currency wallet : Address)
    (quoted_in : Z) (later : Timestamp) (raw : string) (record : RelayRequest.t) : poller unit :=
  let wait := defer_until id later (Some raw) in
  let fills := on_chain (as_u64 (RelayIntent.destination_chain_id i)) (RelayRequest.out_txs record) in
  let candidates :=
    dedup (merge_sort bytes_le (on_chain (as_u64 (RelayIntent.origin_chain_id i)) (RelayRequest.in_txs record))) in
  if negb (String.eqb (RelayRequest.status record) "success")
     || match fills with [] => true | _ => false end
     || match candidates with [] => true | _ => false end
  then wait
  else
    let* verdict := examine origin currency wallet quoted_in candidates 0 0 in
    match verdict with
    | Unmined => wait
    | Verified origin_tx =>
        let* filled := write (resolve_filled id fills origin_tx raw) in
        match filled with
        | FrResolved _ => ret tt
        | FrOriginTransactionClaimed =>
            let* _ := fail_intent id RelayFailed "origin_transaction_claimed" in ret tt
        | FrNotPending => ret tt
        end
    | Unproven successful conclusive_foreign =>
        if (0 <? successful) && (conclusive_foreign =? successful)
        then let* _ := fail_intent id RelayFailed "depositor_mismatch" in ret tt
        else wait
    end.

Definition poll (relay : RelayApi.t) (intent : Uuid * RelayIntent.t) : poller unit :=
  let '(id, i) := intent in
  let* request := lift (ok_or (request_id i) (PollMalformed "request id")) in
  let* wallet := lift (ok_or (payer_wallet i) (PollMalformed "payer wallet")) in
  let* currency := lift (ok_or (fixed_bytes 20 (RelayIntent.origin_currency i)) (PollMalformed "origin currency")) in
  let* quoted_in := lift (ok_or (u256_of_numeral (RelayIntent.quoted_in_amount i))
                            (PollMalformed "quoted input amount")) in
  match Poller.chains self (as_u64 (RelayIntent.origin_chain_id i)) with
  | None => defer_for id RELAY_UNSERVED_BACKOFF None
  | Some origin =>
      let* status := relay_call (fun n => RelayApi.status relay n request) in
      let raw := IntentStatus.raw status in
      let* t := clock (Poller.utc_now self) in
      let later := t + RELAY_POLL in
      match IntentStatus.state status with
      | Waiting | IntentPending => defer_until id later (Some raw)
      | IntentRefund => let* _ := fail_intent id Refunded raw in ret tt
      | IntentFailure => let* _ := fail_intent id RelayFailed raw in ret tt
      | IntentSuccess =>
          let* record := relay_call (fun n => RelayApi.request relay n request) in
          match record with
          | None => defer_until id later (Some raw)
          | Some record => resolve id i origin currency wallet quoted_in later raw record
          end
      end
  end.

(** One intent that is due: an error defers it. *)
Definition poll_or_defer (relay : RelayApi.t) (intent : Uuid * RelayIntent.t) : poller unit :=
  let* polled := attempt (poll relay intent) in
  match polled with
  | Ok _ => ret tt
  | Err _ => defer_for (fst intent) RELAY_ERROR_BACKOFF None
  end.

(** A stale intent; an error of its resolution is only logged. *)
Definition fail_stale (intent : Uuid * RelayIntent.t) : poller unit :=
  let* _ := attempt (fail_intent (fst intent) RelayFailed "unresolved") in
  ret tt.

Fixpoint for_each (body : Uuid * RelayIntent.t -> poller unit) (intents : list (Uuid * RelayIntent.t)) : poller unit :=
  match intents with
  | [] => ret tt
  | intent :: rest => let* _ := body intent in for_each body rest
  end.

(** Read rows and work through them; an error of the read is only logged. *)
Definition work_through (read : poller (list (Uuid * RelayIntent.t))) (body : Uuid * RelayIntent.t -> poller unit)
  : poller unit :=
  let* rows := attempt read in
  match rows with
  | Ok rows => for_each body rows
  | Err _ => ret tt
  end.

Definition pass (destination_chain_id : Z) : poller unit :=
  let* _ := attempt (write (fun now db => Ok (expire_quoted destination_chain_id now db))) in
  let* _ := work_through (select (stale_sent destination_chain_id RELAY_SENT_CUTOFF)) fail_stale in
  match Poller.relay self with
  | None => ret tt
  | Some relay =>
      work_through (select (due_for_poll destination_chain_id RELAY_POLL_BATCH)) (poll_or_defer relay)
  end.

(** What [run] does between two sleeps. *)
Definition round : poller unit :=
  (fix go (chains : list ChainConfig.t) : poller unit :=
     match chains with
     | [] => ret tt
     | chain :: rest => let* _ := pass (ChainConfig.chain_id chain) in go rest
     end) (ChainRegistry.chains (Poller.registry self)).

End Poller.
