(* ===== verification/PayerEmail.v ===== *)
(** * gum-server: the email to a payer

    Models [crates/gum-server/src/payer_email.rs]: the subject, the text and
    the HTML of the message, the escaping of merchant-supplied text, and the
    mail provider's client.  The double quotes of the HTML are written as
    backquotes and put back by [quoted].  The rendering of a date and of an HTTP
    status, JSON and the HTTP client are parameters. *)

From Stdlib Require Import Ascii String.
From stdpp Require Import pretty.
From S2P Require Import Prelude Core.

(** ** Text *)

Definition nl : string := String "010"%char EmptyString.

(** Written with backquotes, read with double quotes. *)
Fixpoint quoted (s : string) : string :=
  match s with
  | EmptyString => EmptyString
  | String c rest => String (if Ascii.eqb c "`"%char then "034"%char else c) (quoted rest)
  end.

Definition escape_char (c : Ascii.ascii) : string :=
  if Ascii.eqb c "&"%char then "&amp;"
  else if Ascii.eqb c "<"%char then "&lt;"
  else if Ascii.eqb c ">"%char then "&gt;"
  else if Ascii.eqb c "034"%char then "&quot;"
  else if Ascii.eqb c "'"%char then "&#39;"
  else String c EmptyString.

Fixpoint escape (value : string) : string :=
  match value with
  | EmptyString => EmptyString
  | String c rest => escape_char c +:+ escape rest
  end.

Definition CONTACT_ADDRESS : string := "contact@gum.money".
Definition DEFAULT_FROM : string := "Gum <contact@gum.money>".

(** ** The message *)

Module DepositRequestEmail.
Record t := mk {
  issuer_name : string;
  payer_name : string;
  amount : string;
  currency : string;
  heading : option string;
  reference : option string;
  expires_at : Z;
  deposit_url : string;
}.
End DepositRequestEmail.

Definition detail_row (label value : string) (mono : bool) : string :=
  let font := if mono then "font-family:ui-monospace,SFMono-Regular,Menlo,Consolas,monospace;font-size:13px;"
              else "font-size:14px;" in
  quoted "<tr><td style=`padding:12px 0;border-bottom:1px solid #232420;font-size:13px;color:#8b8a84;`>" +:+ label +:+
  quoted "</td><td align=`right` style=`padding:12px 0;border-bottom:1px solid #232420;" +:+ font +:+
  quoted "color:#f6f2ea;`>" +:+ value +:+ "</td></tr>" +:+ nl.

Section Message.
(** [format("%-d %B %Y, %H:%M UTC")] of a time. *)
Context (format_date : Z -> string).

Definition expires_at_text (e : DepositRequestEmail.t) : string := format_date (DepositRequestEmail.expires_at e).

Definition subject (e : DepositRequestEmail.t) : string :=
  match DepositRequestEmail.heading e with
  | Some heading =>
      DepositRequestEmail.issuer_name e +:+ " sent you a deposit request: " +:+ heading +:+ " (" +:+
      DepositRequestEmail.amount e +:+ " " +:+ DepositRequestEmail.currency e +:+ ")"
  | None =>
      DepositRequestEmail.issuer_name e +:+ " sent you a deposit request for " +:+
      DepositRequestEmail.amount e +:+ " " +:+ DepositRequestEmail.currency e
  end.

Definition text (e : DepositRequestEmail.t) : string :=
  String.concat nl
    (["Hi " +:+ DepositRequestEmail.payer_name e +:+ ",";
      "";
      DepositRequestEmail.issuer_name e +:+ " has issued you a deposit request through Gum for " +:+
      DepositRequestEmail.amount e +:+ " " +:+ DepositRequestEmail.currency e +:+ ".";
      ""]
     ++ match DepositRequestEmail.heading e with Some heading => ["For: " +:+ heading] | None => [] end
     ++ match DepositRequestEmail.reference e with Some reference => ["Reference: " +:+ reference] | None => [] end
     ++ ["Amount: " +:+ DepositRequestEmail.amount e +:+ " " +:+ DepositRequestEmail.currency e;
         "Expires: " +:+ expires_at_text e;
         "";
         "Open the deposit request to review the details and pay from your wallet:";
         DepositRequestEmail.deposit_url e;
         "";
         "The request is issued by the sender named above; Gum only provides the deposit page and settlement. If you were not expecting it, you can simply ignore this email.";
         "";
         "Questions? Email us at " +:+ CONTACT_ADDRESS +:+ " and quote the request link.";
         "";
         "— Gum"]).

(** The rows of the details table. *)
Definition detail_rows (e : DepositRequestEmail.t) : string :=
  match DepositRequestEmail.heading e with Some heading => detail_row "For" (escape heading) false | None => "" end +:+
  match DepositRequestEmail.reference e with Some reference => detail_row "Reference" (escape reference) true | None => "" end +:+
  detail_row "Amount" (escape (DepositRequestEmail.amount e) +:+ " " +:+ escape (DepositRequestEmail.currency e)) false +:+
  detail_row "Expires" (escape (expires_at_text e)) false.

(** The page around the escaped texts. *)
Definition page (subject preheader issuer payer amount currency rows url contact : string) : string :=
    quoted "<!DOCTYPE html>" +:+ nl +:+
    quoted "<html lang=`en`>" +:+ nl +:+
    quoted "<head>" +:+ nl +:+
    quoted "<meta charset=`utf-8`>" +:+ nl +:+
    quoted "<meta name=`viewport` content=`width=device-width, initial-scale=1`>" +:+ nl +:+
    quoted "<meta name=`color-scheme` content=`dark`>" +:+ nl +:+
    quoted "<meta name=`supported-color-schemes` content=`dark`>" +:+ nl +:+
    quoted "<title>" +:+ subject +:+ quoted "</title>" +:+ nl +:+
    quoted "</head>" +:+ nl +:+
    quoted "<body style=`margin:0;padding:0;background-color:#070707;color:#f6f2ea;font-family:'Albert Sans',-apple-system,BlinkMacSystemFont,'Segoe UI',Helvetica,Arial,sans-serif;`>" +:+ nl +:+
    quoted "<div style=`display:none;max-height:0;overflow:hidden;opacity:0;color:transparent;`>" +:+ preheader +:+ quoted "</div>" +:+ nl +:+
    quoted "<table role=`presentation` width=`100%` cellpadding=`0` cellspacing=`0` border=`0` style=`background-color:#070707;`>" +:+ nl +:+
    quoted "<tr><td align=`center` style=`padding:32px 16px 48px;`>" +:+ nl +:+
    quoted "<table role=`presentation` width=`100%` cellpadding=`0` cellspacing=`0` border=`0` style=`max-width:480px;`>" +:+ nl +:+
    quoted "<tr><td style=`padding:0 4px 20px;`>" +:+ nl +:+
    quoted "<span style=`font-size:22px;font-weight:700;letter-spacing:-0.02em;color:#f6f2ea;`>Gum</span>" +:+ nl +:+
    quoted "</td></tr>" +:+ nl +:+
    quoted "<tr><td style=`background-color:#121311;border:1px solid #232420;border-radius:16px;padding:32px 28px;`>" +:+ nl +:+
    quoted "<p style=`margin:0 0 8px;font-size:13px;letter-spacing:0.04em;text-transform:uppercase;color:#8b8a84;`>Deposit request</p>" +:+ nl +:+
    quoted "<h1 style=`margin:0 0 20px;font-size:22px;line-height:1.3;font-weight:600;color:#f6f2ea;`>" +:+ issuer +:+ quoted " has sent you a deposit request</h1>" +:+ nl +:+
    quoted "<p style=`margin:0 0 20px;font-size:15px;line-height:1.6;color:#b0afa9;`>Hi " +:+ payer +:+ quoted ", <span style=`color:#f6f2ea;`>" +:+ issuer +:+ quoted "</span> is requesting <span style=`color:#f6f2ea;`>" +:+ amount +:+ quoted " " +:+ currency +:+ quoted "</span> through Gum. Open the request to review the details and pay from your wallet.</p>" +:+ nl +:+
    quoted "<table role=`presentation` width=`100%` cellpadding=`0` cellspacing=`0` border=`0` style=`margin:0 0 24px;border-top:1px solid #232420;`>" +:+ nl +:+
    rows +:+ quoted "</table>" +:+ nl +:+
    quoted "<table role=`presentation` cellpadding=`0` cellspacing=`0` border=`0` style=`margin:0 0 24px;`>" +:+ nl +:+
    quoted "<tr><td style=`background-color:#a3d277;border-radius:10px;`>" +:+ nl +:+
    quoted "<a href=`" +:+ url +:+ quoted "` style=`display:inline-block;padding:14px 22px;font-size:15px;font-weight:600;color:#0f0f0e;text-decoration:none;`>Open deposit request</a>" +:+ nl +:+
    quoted "</td></tr>" +:+ nl +:+
    quoted "</table>" +:+ nl +:+
    quoted "<p style=`margin:0 0 12px;font-size:13px;line-height:1.6;color:#8b8a84;`>Or paste this link into your browser:<br><a href=`" +:+ url +:+ quoted "` style=`color:#a3d277;text-decoration:none;word-break:break-all;`>" +:+ url +:+ quoted "</a></p>" +:+ nl +:+
    quoted "<p style=`margin:0;font-size:13px;line-height:1.6;color:#8b8a84;`>The request is issued by " +:+ issuer +:+ quoted "; Gum provides the deposit page and settlement. If you were not expecting it, you can simply ignore this email.</p>" +:+ nl +:+
    quoted "</td></tr>" +:+ nl +:+
    quoted "<tr><td style=`padding:20px 4px 0;font-size:12px;line-height:1.6;color:#8b8a84;`>" +:+ nl +:+
    quoted "Questions? Email <a href=`mailto:" +:+ contact +:+ quoted "` style=`color:#b0afa9;text-decoration:underline;`>" +:+ contact +:+ quoted "</a> and quote the request link." +:+ nl +:+
    quoted "</td></tr>" +:+ nl +:+
    quoted "</table>" +:+ nl +:+
    quoted "</td></tr>" +:+ nl +:+
    quoted "</table>" +:+ nl +:+
    quoted "</body>" +:+ nl +:+
    quoted "</html>" +:+ nl.

Definition html (e : DepositRequestEmail.t) : string :=
  page (escape (subject e))
    (escape (DepositRequestEmail.issuer_name e +:+ " is requesting " +:+ DepositRequestEmail.amount e +:+ " " +:+
             DepositRequestEmail.currency e +:+ ". Review and pay from your wallet."))
    (escape (DepositRequestEmail.issuer_name e)) (escape (DepositRequestEmail.payer_name e))
    (escape (DepositRequestEmail.amount e)) (escape (DepositRequestEmail.currency e))
    (detail_rows e) (escape (DepositRequestEmail.deposit_url e)) CONTACT_ADDRESS.

End Message.

(** ** The provider's client *)

Inductive SendError :=
| SendRejected (status : Z) (message : string)
| SendTransient (message : string).

Module SendRequest.
Record t := mk {
  idempotency_key : string;
  from : string;
  to : string;
  reply_to : string;
  subject : string;
  html : string;
  text : string;
}.
End SendRequest.

(** What the client is given by its libraries. *)
Module Mailer.
Record t := mk {
  (* the HTTP exchange: status and body, or a network fault *)
  post : SendRequest.t -> result string (Z * string);
  (* the [message] string of a JSON body *)
  json_message : string -> option string;
  (* [StatusCode]'s rendering *)
  status_text : Z -> string;
}.
End Mailer.

(** [body.chars().take(n)]: a byte of the form 10xxxxxx continues a character. *)
Fixpoint take_chars (n : nat) (s : string) : string :=
  match s with
  | EmptyString => EmptyString
  | String c rest =>
      let code := Z.of_N (Ascii.N_of_ascii c) in
      if (128 <=? code) && (code <? 192) then String c (take_chars n rest)
      else match n with O => EmptyString | S n' => String c (take_chars n' rest) end
  end.

Section Client.
Context (mailer : Mailer.t).

Definition send_error_text (e : SendError) : string :=
  match e with
  | SendRejected status message => "resend rejected the email (" +:+ Mailer.status_text mailer status +:+ "): " +:+ message
  | SendTransient message => "resend send failed: " +:+ message
  end.

Definition send (from key to subject html text : string) : result SendError unit :=
  match Mailer.post mailer (SendRequest.mk key from to CONTACT_ADDRESS subject html text) with
  | Err e => Err (SendTransient e)
  | Ok (status, body) =>
      if (200 <=? status) && (status <? 300) then Ok tt
      else
        let message := default (take_chars 200 body) (Mailer.json_message mailer body) in
        if (status =? 429) || ((500 <=? status) && (status <? 600))
        then Err (SendTransient (Mailer.status_text mailer status +:+ ": " +:+ message))
        else Err (SendRejected status message)
  end.

End Client.
