(* ===== verification/Notifications.v ===== *)
(** * gum-ledger: the notification outbox

    Models [crates/gum-ledger/src/notifications.rs] over the table
    [notification_outbox]: a row is queued by the transaction that issues a
    request or sets one aside ([Invoices.insert_issued], [Sweeps.flag_attention]),
    leased by a dispatcher, and delivered, abandoned, reported or deferred.  The
    list [Db.notification_outbox] holds what was queued; the table here adds the
    identifiers and the columns of delivery. *)

From stdpp Require Import sorting.
From S2P Require Import Prelude Core Contracts Bus Tables.

Inductive NotificationRecipient := Merchant | Payer.

#[export] Instance NotificationRecipient_eq_dec : EqDecision NotificationRecipient.
Proof. solve_decision. Defined.

Definition recipient_as_str (r : NotificationRecipient) : string :=
  match r with Merchant => "merchant" | Payer => "payer" end.

Module NotificationRow.
Record t := mk {
  queued : OutboxRow.t;
  next_attempt_at : Timestamp;
  attempts : Z;
  delivered_at : option Timestamp;
  missing_email_reported_at : option Timestamp;
  abandoned_at : option Timestamp;
  leased_until : option Timestamp;
  last_error : option string;
}.
(** The column defaults. *)
Definition fresh_row (queued : OutboxRow.t) (now : Timestamp) : t := mk queued now 0 None None None None None.
Definition email (r : t) : option string := OutboxRow.email (queued r).
Definition recipient (r : t) : string := OutboxRow.recipient (queued r).
End NotificationRow.

Module NotificationEvent.
Record t := mk {
  id : Uuid;
  invoice_id : Uuid;
  recipient : string;
  reason : string;
  email : option string;
  attempts : Z;
  currency : string;
}.
End NotificationEvent.

Abbreviation Outbox := (gmap Uuid NotificationRow.t).

(** The insertions of a transaction. *)
Definition queue (now : Timestamp) (o : Outbox) (row : OutboxRow.t) : Outbox :=
  <[fresh (dom o) := NotificationRow.fresh_row row now]> o.

(** ** Claiming *)

Definition MICROS : Z := 10 ^ 6.

Definition pending (r : NotificationRow.t) : bool :=
  negb (is_some (NotificationRow.abandoned_at r))
  && match NotificationRow.email r with
     | Some _ => negb (is_some (NotificationRow.delivered_at r))
     | None => negb (is_some (NotificationRow.missing_email_reported_at r))
     end.

Definition notice_due (recipients : list NotificationRecipient) (now : Timestamp) (r : NotificationRow.t) : bool :=
  (NotificationRow.next_attempt_at r <=? now)
  && bool_decide (NotificationRow.recipient r ∈ recipient_as_str <$> recipients)
  && match NotificationRow.leased_until r with None => true | Some t => t <? now end
  && pending r.

Definition notice_before : relation (Uuid * NotificationRow.t) :=
  fun a b => NotificationRow.next_attempt_at (snd a) <= NotificationRow.next_attempt_at (snd b).

#[export] Instance notice_before_dec : RelDecision notice_before.
Proof. intros a b. unfold notice_before. apply _. Defined.

(** [ORDER BY next_attempt_at LIMIT 1]. *)
Definition next_notice (recipients : list NotificationRecipient) (now : Timestamp) (o : Outbox)
  : option (Uuid * NotificationRow.t) :=
  head (merge_sort notice_before (List.filter (fun kv => notice_due recipients now (snd kv)) (map_to_list o))).

Definition notice_leased (now : Timestamp) (r : NotificationRow.t) : NotificationRow.t :=
  {| r with NotificationRow.leased_until := Some (now + 60 * MICROS);
     NotificationRow.attempts := NotificationRow.attempts r + 1 |}.

Definition event_of (id : Uuid) (r : NotificationRow.t) (currency : string) : NotificationEvent.t :=
  let q := NotificationRow.queued r in
  NotificationEvent.mk id (OutboxRow.invoice_id q) (OutboxRow.recipient q) (OutboxRow.reason q) (OutboxRow.email q)
    (NotificationRow.attempts r) currency.

(** [claim].  The request's currency is read with the row; a row without its
    request cannot be decoded, after the lease was taken. *)
Definition claim_notice (recipients : list NotificationRecipient) (now : Timestamp) (db : Db.t) (o : Outbox)
  : result DbError (option NotificationEvent.t) * Outbox :=
  match next_notice recipients now o with
  | None => (Ok None, o)
  | Some (id, r) =>
      let r' := notice_leased now r in
      (match Db.invoices db !! OutboxRow.invoice_id (NotificationRow.queued r) with
       | Some row => Ok (Some (event_of id r' (Issuance.currency (DbInvoice.issuance row))))
       | None => Err (Decode "currency")
       end, <[id := r']> o)
  end.

(** ** Concluding *)

(** [UPDATE notification_outbox SET .. WHERE id=$1]. *)
Definition update_notice (id : Uuid) (f : NotificationRow.t -> NotificationRow.t) (o : Outbox) : Outbox :=
  match o !! id with Some r => <[id := f r]> o | None => o end.

Definition reported_row (now : Timestamp) (r : NotificationRow.t) : NotificationRow.t :=
  {| r with NotificationRow.missing_email_reported_at := Some now; NotificationRow.leased_until := None |}.

Definition report_missing_email (id : Uuid) (now : Timestamp) (o : Outbox) : bool * Outbox :=
  match o !! id with
  | Some r =>
      if is_some (NotificationRow.missing_email_reported_at r) then (false, o)
      else (true, <[id := reported_row now r]> o)
  | None => (false, o)
  end.

Definition delivered_row (now : Timestamp) (r : NotificationRow.t) : NotificationRow.t :=
  {| r with NotificationRow.delivered_at := Some (default now (NotificationRow.delivered_at r));
     NotificationRow.leased_until := None; NotificationRow.last_error := None |}.

Definition complete_notice (id : Uuid) (now : Timestamp) : Outbox -> Outbox := update_notice id (delivered_row now).

Definition abandoned_row (error : string) (now : Timestamp) (r : NotificationRow.t) : NotificationRow.t :=
  {| r with NotificationRow.abandoned_at := Some (default now (NotificationRow.abandoned_at r));
     NotificationRow.leased_until := None; NotificationRow.last_error := Some error |}.

Definition abandon_notice (id : Uuid) (error : string) (now : Timestamp) : Outbox -> Outbox :=
  update_notice id (abandoned_row error now).

(** [2_i64.pow(attempts.clamp(1, 10)).min(900)] seconds. *)
Definition notice_delay (attempts : Z) : Z := Z.min (2 ^ Z.max 1 (Z.min 10 attempts)) 900.

Definition deferred_row (attempts : Z) (error : string) (now : Timestamp) (r : NotificationRow.t) : NotificationRow.t :=
  {| r with NotificationRow.leased_until := None;
     NotificationRow.next_attempt_at := now + notice_delay attempts * MICROS;
     NotificationRow.last_error := Some error |}.

Definition retry_notice (id : Uuid) (attempts : Z) (error : string) (now : Timestamp) : Outbox -> Outbox :=
  update_notice id (deferred_row attempts error now).
