(* ===== verification/Dispatcher.v ===== *)
(** * gum-server: the notification dispatcher

    Models [crates/gum-server/src/dispatcher.rs]: what becomes of a claimed
    outbox row.  A delivery reads the request, may send a message and ends in one
    write to the row ([Conclusion]).  The mail providers, the rendering of
    amounts, dates, identifiers and decoding errors are parameters. *)

From Stdlib Require Import Ascii String.
From stdpp Require Import pretty.
From S2P Require Import Prelude Text Core Contracts Bus Tables Invoices PayerEmail Notifications.

(** ** Amounts in prose *)

(** [trim_end_matches('0')]. *)
Fixpoint trim_end_zeros (s : string) : string :=
  match s with
  | EmptyString => EmptyString
  | String c rest =>
      match trim_end_zeros rest with
      | EmptyString => if Ascii.eqb c "0"%char then EmptyString else String c EmptyString
      | t => String c t
      end
  end.

Definition trimmed_amount (value : string) : string :=
  match split_once_dot value with
  | Some (whole, fraction) =>
      let fraction := trim_end_zeros fraction in
      if String.eqb fraction "" then whole else whole +:+ "." +:+ fraction
  | None => value
  end.

(** ** Guidance to a merchant *)

Definition guidance (code : string) (currency : Currency) : string * string :=
  let issuer := Currency.issuer_name currency in
  let named := issuer +:+ ", the " +:+ Currency.code currency +:+ " issuer." in
  if String.eqb code "beneficiary_blacklisted" then
    ("The payout address is restricted by " +:+ named,
     "Contact Gum support to agree on recovery after the deposit request expires.")
  else if String.eqb code "recovery_blacklisted" then
    ("The payer's wallet, where excess funds return, is restricted by " +:+ named,
     "Contact Gum support with the deposit request ID; the payer may need to be contacted.")
  else if String.eqb code "payment_address_blacklisted" then
    ("The deposit address is restricted by " +:+ named,
     "Contact Gum support for a compliance escalation.")
  else if String.eqb code "balance_below_amount" then
    ("The finalized deposit record does not match the on-chain balance.",
     "No action is needed from the payer; Gum support is investigating.")
  else if String.eqb code "parameters_mismatch" || String.eqb code "corrupt_row" then
    ("The stored deposit request details require manual review.",
     "Contact Gum support to review the deposit request before payout resumes.")
  else if String.eqb code "retries_exhausted" then
    ("Automatic payout attempts were unsuccessful.",
     "No action is needed from the payer; Gum support will inspect and retry the payout.")
  else
    ("Automatic payout requires a manual review.",
     "Contact Gum support and provide the deposit request ID.").

(** ** Deliveries *)

(** Why the payer should no longer be pointed at a request; [now] in
    microseconds. *)
Definition superseded (invoice : Invoice.t) (now : Timestamp) : option string :=
  if is_some (Invoice.cancellation_requested_at invoice) then Some "the deposit request was cancelled"
  else if Invoice.expiration_timestamp invoice <=? Z.max (now / 10 ^ 6) 0 then Some "the deposit request has expired"
  else if negb (bool_decide (Invoice.status invoice = Created)) then Some "the deposit request is already funded"
  else None.

(** The write that ends a delivery. *)
Inductive Conclusion :=
| Complete (id : Uuid)
| Abandon (id : Uuid) (error : string)
| Retry (id : Uuid) (attempts : Z) (error : string)
| ReportMissing (id : Uuid).

Definition conclude (c : Conclusion) (now : Timestamp) (o : Outbox) : Outbox :=
  match c with
  | Complete id => complete_notice id now o
  | Abandon id error => abandon_notice id error now o
  | Retry id attempts error => retry_notice id attempts error now o
  | ReportMissing id => snd (report_missing_email id now o)
  end.

(** A message that was handed to a provider. *)
Inductive Mail :=
| PayerMail (row : Uuid) (to subject html text : string) (invoice : Invoice.t)
| MerchantMail (row : Uuid) (to text : string) (invoice : Uuid).

Module Post.
(** What the dispatcher is given by its configuration and libraries. *)
Record t := mk {
  merchant : option string;          (* the address merchant mail comes from *)
  payer : option string;             (* the address payer mail comes from *)
  mailer : Mailer.t;
  (* SES: from, to, text *)
  ses : string -> string -> string -> result string unit;
  public_base_url : string;
  (* [format_units] of an amount with that many decimals; [unwrap_or_default] *)
  format_units : Z -> Z -> string;
  format_date : Z -> string;
  uuid_text : Uuid -> string;
  invoice_id_text : Uuid -> string;
  db_error_text : DbError -> string;
  row_error_text : DbInvoiceError -> string;
}.

Definition recipients (p : t) : list NotificationRecipient :=
  (if is_some (merchant p) then [Merchant] else []) ++ (if is_some (payer p) then [Payer] else []).
End Post.

Section Dispatcher.
Context (post : Post.t) (parse_address : string -> option Address).

Definition checkout_url (id : Uuid) : string :=
  Post.public_base_url post +:+ "/pay/" +:+ Post.invoice_id_text post id.

Definition compose_email (invoice : Invoice.t) : DepositRequestEmail.t :=
  let snapshot := Invoice.issuance_snapshot invoice in
  let currency := Invoice.currency invoice in
  DepositRequestEmail.mk (Party.name (Snapshot.issuer snapshot)) (Party.name (Snapshot.bill_to snapshot))
    (trimmed_amount (Post.format_units post (Invoice.amount invoice) (Currency.decimals currency)))
    (Currency.code currency) (Snapshot.heading snapshot) (Snapshot.reference snapshot)
    (Invoice.expiration_timestamp invoice) (checkout_url (Invoice.id invoice)).

(** [deliver_payer]: the message sent, if any, and the write that follows.
    [read] is the answer of [find_by_id], [now] the clock when it is checked. *)
Definition deliver_payer (from : string) (read : result DbError (option DbInvoice.t)) (now : Timestamp)
    (event : NotificationEvent.t) : option Mail * Conclusion :=
  let id := NotificationEvent.id event in
  match NotificationEvent.email event with
  | None => (None, Abandon id "payer row has no email")
  | Some to =>
      match read with
      | Ok (Some row) =>
          match invoice_try_from parse_address row with
          | Err e => (None, Abandon id ("deposit request row is unreadable: " +:+ Post.row_error_text post e))
          | Ok invoice =>
              match superseded invoice now with
              | Some reason => (None, Abandon id ("not sent: " +:+ reason))
              | None =>
                  let email := compose_email invoice in
                  let subject := subject email in
                  let html := html (Post.format_date post) email in
                  let text := text (Post.format_date post) email in
                  (Some (PayerMail id to subject html text invoice),
                   match send (Post.mailer post) from (Post.uuid_text post id) to subject html text with
                   | Ok _ => Complete id
                   | Err (SendRejected _ _ as e) => Abandon id (send_error_text (Post.mailer post) e)
                   | Err e => Retry id (NotificationEvent.attempts event) (send_error_text (Post.mailer post) e)
                   end)
              end
          end
      | Ok None => (None, Abandon id "deposit request no longer exists")
      | Err e => (None, Retry id (NotificationEvent.attempts event) (Post.db_error_text post e))
      end
  end.

Definition deliver_merchant (from : string) (event : NotificationEvent.t) : option Mail * Conclusion :=
  let id := NotificationEvent.id event in
  match NotificationEvent.email event with
  | None => (None, ReportMissing id)
  | Some to =>
      let currency := match Currency.from_str (NotificationEvent.currency event) with Ok c => c | Err _ => Usdc end in
      let '(reason, action) := guidance (NotificationEvent.reason event) currency in
      let text := "Payout for deposit request " +:+ Post.uuid_text post (NotificationEvent.invoice_id event)
                  +:+ " needs attention." +:+ nl +:+ nl +:+ "Reason: " +:+ reason +:+ nl +:+ "Action: " +:+ action
                  +:+ nl +:+ nl +:+ "The funds remain safe while payout is paused." in
      (Some (MerchantMail id to text (NotificationEvent.invoice_id event)),
       match Post.ses post from to text with
       | Ok _ => Complete id
       | Err e => Retry id (NotificationEvent.attempts event) e
       end)
  end.

(** The dispatch of [run] on a claimed row; nothing happens when the sender is
    not configured. *)
Definition dispatch (read : Uuid -> result DbError (option DbInvoice.t)) (now : Timestamp) (event : NotificationEvent.t)
  : option Mail * option Conclusion :=
  if String.eqb (NotificationEvent.recipient event) "payer" then
    match Post.payer post with
    | Some from =>
        let '(mail, c) := deliver_payer from (read (NotificationEvent.invoice_id event)) now event in (mail, Some c)
    | None => (None, None)
    end
  else
    match Post.merchant post with
    | Some from => let '(mail, c) := deliver_merchant from event in (mail, Some c)
    | None => (None, None)
    end.

(** An iteration of [run] that nothing interrupts. *)
Definition dispatch_iteration (db : Db.t) (claimed_at read_at written_at : Timestamp) (o : Outbox)
  : option Mail * Outbox :=
  match claim_notice (Post.recipients post) claimed_at db o with
  | (Ok (Some event), o1) =>
      let '(mail, c) := dispatch (fun id => Ok (Db.invoices db !! id)) read_at event in
      (mail, match c with Some c => conclude c written_at o1 | None => o1 end)
  | (_, o1) => (None, o1)
  end.

End Dispatcher.
