(* ===== verification/Amounts.v ===== *)
(** * gum-core: amounts as text

    Models [crates/gum-core/src/amount.rs]: the reading of a decimal amount
    into base units, over alloy's [parse_units], which is a parameter; and
    alloy's [format_units], by which the API and the mail show an amount. *)

From Stdlib Require Import Ascii String.
From stdpp Require Import pretty.
From S2P Require Import Prelude Text Core Contracts Bus Tables Invoices PayerEmail Notifications Dispatcher.

Inductive AmountParseError := InvalidFormat | TooManyDecimalUnits | UnitsFailed.

(** [part.bytes().all(|byte| byte.is_ascii_digit())]. *)
Fixpoint is_digits (s : string) : bool :=
  match s with
  | EmptyString => true
  | String c rest => is_some (digit_value c) && is_digits rest
  end.

(** [amount_string.contains('.')]. *)
Fixpoint contains_dot (s : string) : bool :=
  match s with
  | EmptyString => false
  | String c rest => Ascii.eqb c "."%char || contains_dot rest
  end.

(** alloy's [parse_units] and [format_units]. *)
Class Units := {
  parse_units : string -> Z -> option Z;
  format_units : Z -> Z -> option string;
}.

Definition from_decimal_str `{Units} (amount_string : string) (decimals : Z) : result AmountParseError Z :=
  let '(whole, fraction) := default (amount_string, EmptyString) (split_once_dot amount_string) in
  if String.eqb whole "" || negb (is_digits whole) || negb (is_digits fraction)
     || (contains_dot amount_string && String.eqb fraction "")
  then Err InvalidFormat
  else if decimals <? Z.of_nat (String.length fraction) then Err TooManyDecimalUnits
  else ok_or (parse_units amount_string decimals) UnitsFailed.

(** ** Decimal text *)

Fixpoint value_from (acc : Z) (s : string) : Z :=
  match s with
  | EmptyString => acc
  | String c rest => value_from (acc * 10 + default 0 (digit_value c)) rest
  end.

(** The number a text of digits denotes. *)
Definition value (s : string) : Z := value_from 0 s.

Definition len (s : string) : Z := Z.of_nat (String.length s).

(** [n] in exactly [k] digits, zeros first. *)
Fixpoint padded (k : nat) (n : Z) : string :=
  match k with
  | O => EmptyString
  | S k' => padded k' (n / 10) +:+ String (ascii_of_N (Z.to_N (48 + n mod 10))) EmptyString
  end.

(** The units a whole and a fractional part denote. *)
Definition units_of (whole fraction : string) (decimals : Z) : Z :=
  value whole * 10 ^ decimals + value fraction * 10 ^ (decimals - len fraction).

Definition dotted (whole fraction : string) : string :=
  if String.eqb fraction "" then whole else whole +:+ "." +:+ fraction.

(** A decimal number: digits, or digits, a point and digits. *)
Definition decimal_text (s whole fraction : string) : Prop :=
  s = dotted whole fraction /\ whole <> ""%string /\ is_digits whole = true /\ is_digits fraction = true.

(** What the code relies on, for the 77 decimals alloy's [Unit] admits: a
    decimal number whose units fit in 256 bits is read exactly, and
    [format_units] writes the point and every decimal. Nothing is assumed of
    more decimals or of units past 256 bits. *)
Class UnitsLaws `(U : Units) : Prop := {
  parse_units_exact s whole fraction d :
    decimal_text s whole fraction -> len fraction <= d <= 77 -> units_of whole fraction d <= u256_max ->
    parse_units s d = Some (units_of whole fraction d);
  format_units_exact n d :
    0 <= n <= u256_max -> 0 < d <= 77 ->
    format_units n d = Some (pretty (n / 10 ^ d) +:+ "." +:+ padded (Z.to_nat d) (n mod 10 ^ d));
}.

Lemma digit_value_not_dot c : is_some (digit_value c) = true -> Ascii.eqb c "."%char = false.
Proof. intros H. destruct (Ascii.eqb_spec c "."%char) as [->|]; [by vm_compute in H|done]. Qed.

Lemma digits_app a b : is_digits (a +:+ b) = is_digits a && is_digits b.
Proof. induction a as [|c a IH]; [done|]. simpl. by rewrite IH, andb_assoc. Qed.

Lemma length_app_string a b : String.length (a +:+ b) = (String.length a + String.length b)%nat.
Proof. induction a as [|c a IH]; [done|]. simpl. by rewrite IH. Qed.

Lemma value_from_split s : forall acc, value_from acc s = acc * 10 ^ len s + value s.
Proof.
  unfold value, len. induction s as [|c s IH]; intros acc; cbn [value_from String.length]; [cbn; lia|].
  rewrite IH, (IH (0 * 10 + _)). rewrite Nat2Z.inj_succ, Z.pow_succ_r by lia. ring.
Qed.

Lemma value_app a b : value (a +:+ b) = value a * 10 ^ len b + value b.
Proof.
  assert (forall acc, value_from acc (a +:+ b) = value_from (value_from acc a) b) as H.
  { induction a as [|c a IH]; intros acc; simpl; [done|]. apply IH. }
  unfold value at 1. rewrite H. apply value_from_split.
Qed.

Lemma digits_undotted s : is_digits s = true -> split_once_dot s = None /\ contains_dot s = false.
Proof.
  induction s as [|c s IH]; cbn; [done|]. intros [Hc Hs]%andb_true_iff. rewrite (digit_value_not_dot _ Hc).
  destruct (IH Hs) as [-> ->]. done.
Qed.

Lemma split_dotted w f : is_digits w = true -> split_once_dot (w +:+ "." +:+ f) = Some (w, f) /\ contains_dot (w +:+ "." +:+ f) = true.
Proof.
  induction w as [|c w IH]; simpl; [done|]. intros [Hc Hw]%andb_true_iff. rewrite (digit_value_not_dot _ Hc).
  destruct (IH Hw) as [-> ->]. done.
Qed.

Lemma split_once_some s : forall w f, split_once_dot s = Some (w, f) -> s = w +:+ "." +:+ f.
Proof.
  induction s as [|c s IH]; intros w f; cbn; [done|]. destruct (Ascii.eqb_spec c "."%char) as [->|]; [by intros [= <- <-]|].
  destruct (split_once_dot s) as [[w' f']|]; [|done]. intros [= <- <-]. rewrite (IH _ _ eq_refl) at 1. done.
Qed.

Lemma split_once_none s : split_once_dot s = None -> contains_dot s = false.
Proof.
  induction s as [|c s IH]; cbn; [done|]. destruct (Ascii.eqb_spec c "."%char); [done|].
  destruct (split_once_dot s) as [[? ?]|]; [done|]. intros _. by apply IH.
Qed.

Lemma parse_digits_value max s : forall acc v, parse_digits max acc s = Some v -> is_digits s = true /\ v = value_from acc s.
Proof.
  induction s as [|c s IH]; intros acc v; cbn; [by intros [= ->]|]. destruct (digit_value c) as [x|]; [|done]. cbn.
  destruct (_ <=? max); [|done]. intros [-> ->]%IH. done.
Qed.

Lemma value_pretty n : 0 <= n -> is_digits (pretty n) = true /\ value (pretty n) = n /\ pretty n <> ""%string.
Proof.
  intros Hn. destruct (parse_digits_value n (pretty n) 0 n) as [H1 H2]; [apply parse_digits_pretty; lia|].
  split; [done|]. split; [by symmetry|by apply pretty_nonempty].
Qed.

Lemma digit_char n : 0 <= n < 10 -> digit_value (ascii_of_N (Z.to_N (48 + n))) = Some n.
Proof.
  revert n. by apply (check_below 10 (fun n => digit_value (ascii_of_N (Z.to_N (48 + n))) = Some n) _).
Qed.

Lemma padded_spec k : forall n, 0 <= n < 10 ^ Z.of_nat k ->
  is_digits (padded k n) = true /\ value (padded k n) = n /\ String.length (padded k n) = k.
Proof.
  induction k as [|k IH]; intros n Hn; cbn [padded]; [cbn in *; split_and!; [done|unfold value; cbn; lia|done]|].
  rewrite Nat2Z.inj_succ, Z.pow_succ_r in Hn by lia. pose proof (Z.div_mod n 10 ltac:(lia)) as Hd.
  pose proof (Z.mod_pos_bound n 10 ltac:(lia)) as Hm.
  destruct (IH (n / 10)) as (H1 & H2 & H3).
  { split; [apply Z.div_pos; lia|]. apply Z.div_lt_upper_bound; lia. }
  rewrite digits_app, value_app, length_app_string, H1, H2, H3. cbn [is_digits]. rewrite (digit_char _ Hm). split_and!; [done| |cbn; lia].
  unfold value, len. cbn [value_from String.length]. rewrite (digit_char _ Hm). cbn. lia.
Qed.

(** Dropping trailing zeros keeps the digits and their weight. *)
Lemma trim_end_zeros_spec s : is_digits s = true -> 
  is_digits (trim_end_zeros s) = true /\ len (trim_end_zeros s) <= len s /\
  value s = value (trim_end_zeros s) * 10 ^ (len s - len (trim_end_zeros s)).
Proof.
  induction s as [|c s IH]; intros H; [by vm_compute|]. cbn [is_digits] in H. apply andb_true_iff in H as [Hc Hs].
  destruct (IH Hs) as (H1 & H2 & H3).
  assert (value (String c s) = default 0 (digit_value c) * 10 ^ len s + value s) as E by (unfold value; cbn; apply value_from_split).
  assert (len (String c s) = len s + 1) as El by (unfold len; cbn; lia). rewrite E, El. cbn [trim_end_zeros].
  destruct (trim_end_zeros s) as [|d t] eqn:Ht.
  - assert (value s = 0) as E0 by (rewrite H3; unfold value; cbn; lia). rewrite E0. assert (0 <= len s) by (unfold len; lia).
    destruct (Ascii.eqb_spec c "0"%char) as [->|]; cbn [is_digits].
    + split_and!; [done|unfold len; cbn; lia|]. replace (default 0 (digit_value "0"%char)) with 0 by reflexivity.
      unfold value, len. cbn. lia.
    + rewrite Hc. split_and!; [done|unfold len in *; cbn; lia|]. unfold value, len. cbn [value_from String.length].
      replace (Z.of_nat (String.length s) + 1 - Z.of_nat 1) with (Z.of_nat (String.length s)) by lia. lia.
  - assert (len (String c (String d t)) = len (String d t) + 1) as El' by (unfold len; cbn; lia).
    split_and!; [cbn [is_digits] in *; by rewrite Hc|rewrite El'; lia|].
    rewrite El'. replace (len s + 1 - (len (String d t) + 1)) with (len s - len (String d t)) by lia.
    assert (value (String c (String d t)) = default 0 (digit_value c) * 10 ^ len (String d t) + value (String d t)) as ->
      by (unfold value; cbn; apply (value_from_split (String d t))).
    rewrite Z.mul_add_distr_r, <- Z.mul_assoc, <- Z.pow_add_r by (unfold len in *; lia).
    rewrite Zplus_minus. lia.
Qed.

Section Amounts.
Context `{U : Units} `{!UnitsLaws U}.

Lemma dotted_split whole fraction : is_digits whole = true -> is_digits fraction = true ->
  default (dotted whole fraction, EmptyString) (split_once_dot (dotted whole fraction)) = (whole, fraction) /\
  contains_dot (dotted whole fraction) && String.eqb fraction "" = false.
Proof.
  intros Hw Hf. unfold dotted. destruct (String.eqb_spec fraction "") as [->|Hne].
  - by destruct (digits_undotted _ Hw) as [-> ->].
  - destruct (split_dotted whole fraction Hw) as [-> ->]. done.
Qed.

(** What the checks before [parse_units] let through. *)
Lemma from_decimal_str_cases s d :
  match from_decimal_str s d with
  | Err InvalidFormat => forall whole fraction, ~ decimal_text s whole fraction
  | Err TooManyDecimalUnits => exists whole fraction, decimal_text s whole fraction /\ d < len fraction
  | r => exists whole fraction, decimal_text s whole fraction /\ len fraction <= d /\ r = ok_or (parse_units s d) UnitsFailed
  end.
Proof.
  unfold from_decimal_str. destruct (default _ _) as [whole fraction] eqn:Hsplit. destruct (_ || _) eqn:Hbad.
  - intros w f (-> & Hne & Hw & Hf). destruct (dotted_split w f Hw Hf) as [E1 E2]. rewrite E1 in Hsplit. injection Hsplit as <- <-.
    rewrite Hw, Hf, E2 in Hbad. by destruct (String.eqb_spec w "").
  - apply orb_false_iff in Hbad as [Hbad Hdot]. apply orb_false_iff in Hbad as [Hbad Hf%negb_false_iff].
    apply orb_false_iff in Hbad as [Hbad Hw%negb_false_iff].
    assert (decimal_text s whole fraction) as Hd.
    { split; [|by destruct (String.eqb_spec whole "")]. unfold dotted. destruct (split_once_dot s) as [[w f]|] eqn:Hs; cbn in Hsplit; injection Hsplit as <- <-.
      - rewrite (split_once_some _ _ _ Hs) in Hdot |- *. destruct (String.eqb_spec f ""); [|done].
        by destruct (split_dotted w f Hw) as [_ E]; rewrite E in Hdot.
      - done. }
    destruct (Z.ltb_spec d (Z.of_nat (String.length fraction))); [by exists whole, fraction|].
    destruct (parse_units s d); cbn; by exists whole, fraction.
Qed.

Lemma read_decimal whole fraction d n :
  whole <> ""%string -> is_digits whole = true -> is_digits fraction = true -> len fraction <= d <= 77 ->
  units_of whole fraction d = n -> n <= u256_max -> from_decimal_str (dotted whole fraction) d = Ok n.
Proof.
  intros Hne Hw Hf Hl <- Hu. unfold from_decimal_str. destruct (dotted_split whole fraction Hw Hf) as [E1 E2].
  rewrite E1, Hw, Hf, E2. destruct (String.eqb_spec whole ""); [done|]. cbn [orb negb].
  destruct (Z.ltb_spec d (Z.of_nat (String.length fraction))) as [Hlt|]; [unfold len in Hl; lia|].
  by rewrite (parse_units_exact _ whole fraction d).
Qed.

Lemma trimmed_dotted whole fraction : is_digits whole = true -> is_digits fraction = true -> fraction <> ""%string ->
  trimmed_amount (whole +:+ "." +:+ fraction) = dotted whole (trim_end_zeros fraction).
Proof. intros Hw Hf Hne. unfold trimmed_amount. destruct (split_dotted whole fraction Hw) as [-> _]. done. Qed.

(** The amount a person is shown is the amount that is owed: what
    [format_units] writes for an amount, and what the mail to a payer makes of
    it, both read back as exactly that amount. *)
Theorem shown_amount_reads_back n d : 0 <= n <= u256_max -> 0 < d <= 77 ->
  exists text, format_units n d = Some text /\ from_decimal_str text d = Ok n /\
    from_decimal_str (trimmed_amount text) d = Ok n.
Proof.
  intros Hn Hd. rewrite (format_units_exact n d Hn Hd). eexists. split; [done|].
  assert (0 < 10 ^ d) as Hp by (apply Z.pow_pos_nonneg; lia). pose proof (Z.mod_pos_bound n (10 ^ d) Hp) as Hm.
  destruct (value_pretty (n / 10 ^ d) (Z.div_pos n (10 ^ d) ltac:(lia) ltac:(lia))) as (W1 & W2 & W3).
  destruct (padded_spec (Z.to_nat d) (n mod 10 ^ d)) as (F1 & F2 & F3); [by rewrite Z2Nat.id by lia|].
  set (whole := pretty (n / 10 ^ d)) in *. set (fraction := padded (Z.to_nat d) (n mod 10 ^ d)) in *.
  assert (len fraction = d) as Hlen by (unfold len; rewrite F3; lia).
  assert (fraction <> ""%string) as Hne by (intros E; rewrite E in Hlen; unfold len in Hlen; simpl in Hlen; lia).
  assert (units_of whole fraction d = n) as Hunits.
  { unfold units_of. rewrite W2, F2, Hlen, Z.sub_diag. pose proof (Z.div_mod n (10 ^ d) ltac:(lia)). lia. }
  split.
  - replace (whole +:+ "." +:+ fraction) with (dotted whole fraction) by (unfold dotted; by destruct (String.eqb_spec fraction "")).
    apply read_decimal; try done; lia.
  - rewrite trimmed_dotted by done. destruct (trim_end_zeros_spec fraction F1) as (T1 & T2 & T3).
    apply read_decimal; try done; [lia| |lia]. rewrite <- Hunits. unfold units_of. rewrite T3, <- Z.mul_assoc, <- Z.pow_add_r by lia.
    do 3 f_equal. lia.
Qed.

End Amounts.

(** Units one can evaluate. *)
Module AmountExample.
Definition read_units (s : string) (d : Z) : option Z :=
  let '(whole, fraction) := default (s, EmptyString) (split_once_dot s) in
  Some (units_of whole fraction d).

#[export] Instance units : Units := {|
  parse_units := read_units;
  format_units n d := Some (pretty (n / 10 ^ d) +:+ "." +:+ padded (Z.to_nat d) (n mod 10 ^ d));
|}.

#[export] Instance units_laws : UnitsLaws units.
Proof.
  split; [|done]. intros s w f d (-> & _ & Hw & Hf) _ _. change (parse_units (dotted w f) d) with (read_units (dotted w f) d).
  unfold read_units. by destruct (dotted_split w f Hw Hf) as [-> _].
Qed.

Lemma shown_amount_reads_back_witness :
  exists text, format_units 1250500000 6 = Some text /\ from_decimal_str (trimmed_amount text) 6 = Ok 1250500000 /\
    trimmed_amount text = "1250.5"%string.
Proof.
  destruct (shown_amount_reads_back 1250500000 6 ltac:(vm_compute; split; discriminate) ltac:(lia)) as (text & H1 & _ & H2).
  exists text. split; [exact H1|]. split; [exact H2|]. injection H1 as <-. vm_compute. reflexivity.
Defined.

Example read_negative : from_decimal_str "-1.5" 6 = Err InvalidFormat.
Proof. reflexivity. Qed.
End AmountExample.
