(* ===== verification/Responses.v ===== *)
(** * gum-core: what the API answers

    Models [crates/gum-core/src/dto.rs]: the projection of a request onto the
    merchant's view, its public status, the explanation of an attention flag,
    the hint at an expected mailbox and the verification facts.  Dates are
    rendered by a parameter ([Dates]); an instant is in microseconds. *)

From Stdlib Require Import Ascii String.
From stdpp Require Import pretty.
From S2P Require Import Prelude Text Core Contracts Ids Bus Tables Registry Attachments Invoices Attribution Verifications.
From S2P Require Import PayerEmail Notifications Dispatcher Amounts.

(** chrono: the instant of a number of seconds, and its rendering. *)
Class Dates := {
  from_timestamp : Z -> option Timestamp;
  rfc3339 : Timestamp -> string;
}.

(** ** Types *)

Module ChainDto.
Record t := mk { id : string; name : string; native_symbol : string }.
End ChainDto.

Module TokenDto.
Record t := mk { symbol : string; address : string; decimals : Z }.
End TokenDto.

Module NetworkDto.
Record t := mk { chain : ChainDto.t; token : TokenDto.t }.
End NetworkDto.

Module TransferRelayDto.
Record t := mk { request_id : string; origin_chain_id : string; origin_transaction_hash : option string }.
End TransferRelayDto.

Module TransferDto.
Record t := mk {
  timestamp : string;
  amount : string;
  amount_base_units : string;
  sender : string;
  transaction_hash : string;
  explorer_url : option string;
  block : string;
  disposition : string;
  collected : bool;
  relay : option TransferRelayDto.t;
}.
End TransferDto.

Module IndexerFreshnessDto.
Record t := mk {
  last_indexed_block : option string;
  last_finalized_block : option string;
  cursor_updated_at : option string;
}.
End IndexerFreshnessDto.

Module AsOfDto.
Record t := mk { block : string; at_ : string }.
End AsOfDto.

Module AttachmentDescriptor.
Record t := mk {
  id : Uuid;
  filename : string;
  mime_type : string;
  byte_length : string;
  sha256 : string;
  download_url : option string;
}.
End AttachmentDescriptor.

Module AttributionDto.
Record t := mk { version : Z; hash : string }.
End AttributionDto.

Module SelfSettlementDto.
Record t := mk { chain_id : string; factory : string; salt : string }.
End SelfSettlementDto.

Module AttentionDto.
Record t := mk { code : string; message : string; action : string }.
End AttentionDto.

Inductive DepositRequestStatus :=
| AwaitingDeposit | PartiallyDeposited | Deposited | Settled | StExpired | Returned | NeedsAttention.

#[export] Instance DepositRequestStatus_eq_dec : EqDecision DepositRequestStatus.
Proof. solve_decision. Defined.

Module DepositRequestStatus.
Definition as_str (s : DepositRequestStatus) : string :=
  match s with
  | AwaitingDeposit => "awaiting_deposit"
  | PartiallyDeposited => "partially_deposited"
  | Deposited => "deposited"
  | Settled => "settled"
  | StExpired => "expired"
  | Returned => "returned"
  | NeedsAttention => "needs_attention"
  end.

Definition ALL : list DepositRequestStatus :=
  [AwaitingDeposit; PartiallyDeposited; Deposited; Settled; StExpired; Returned; NeedsAttention].

Definition from_str (value : string) : option DepositRequestStatus :=
  List.find (fun s => String.eqb (as_str s) value) ALL.
End DepositRequestStatus.

Module DepositRequestResponse.
Record t := mk {
  id : string;
  deposit_url : string;
  address : option string;
  address_explorer_url : option string;
  payout_address : string;
  payer_wallet : option string;
  recovery_address : option string;
  wallet_bound_at : option string;
  ready_at : option string;
  expires_at : string;
  expires_in : option Z;
  amount : string;
  amount_base_units : string;
  received : string;
  received_base_units : string;
  remaining : string;
  remaining_base_units : string;
  currency : string;
  fee_amount : string;
  fee_amount_base_units : string;
  net_amount : string;
  net_amount_base_units : string;
  status : DepositRequestStatus;
  networks : list NetworkDto.t;
  token : option TokenDto.t;
  chain : option ChainDto.t;
  settlement_tx_hash : option string;
  settlement_explorer_url : option string;
  settled_at : option string;
  settled_block : option string;
  self_settlement : option SelfSettlementDto.t;
  attention : option AttentionDto.t;
  issuer : Party.t;
  payer : Party.t;
  notes : option string;
  heading : option string;
  reference : option string;
  customer_id : option string;
  issuer_id : option string;
  verification : PayerVerification.t;
  attachment : option AttachmentDescriptor.t;
  verification_completed_at : option string;
  likely_unsolicited_at : option string;
  client_secret : option string;
  client_secret_expires_at : option string;
  attribution : AttributionDto.t;
  metadata : Json;
  created_at : string;
  updated_at : string;
  deposited_at : option string;
  deposited_at_block : option string;
  expired_at : option string;
  cancellation_requested_at : option string;
  transfers : list TransferDto.t;
  indexer_freshness : IndexerFreshnessDto.t;
  as_of : option AsOfDto.t;
}.
End DepositRequestResponse.

(** ** Verification facts *)

Inductive VerificationFactStatus := FactNotRequired | FactPending | FactApproved | FactDeclined.

Definition fact_as_str (s : VerificationFactStatus) : string :=
  match s with
  | FactNotRequired => "not_required"
  | FactPending => "pending"
  | FactApproved => "approved"
  | FactDeclined => "declined"
  end.

Module VerificationRequirementsResponse.
Record t := mk {
  email : VerificationFactStatus;
  wallet : VerificationFactStatus;
  merchant_session : VerificationFactStatus;
  complete : bool;
}.

Definition fact_status (needed established : bool) : VerificationFactStatus :=
  if needed then if established then FactApproved else FactPending else FactNotRequired.

Definition from_facts (v : PayerVerification.t) (facts : VerificationFacts.t) : t :=
  mk (fact_status (is_some (PayerVerification.email v)) (VerificationFacts.email facts))
     (fact_status (PayerVerification.wallet_attestation v) (VerificationFacts.wallet facts))
     (fact_status (is_some (PayerVerification.merchant_auth v)) (VerificationFacts.merchant_session facts))
     (VerificationFacts.satisfy facts v).

Definition for_verification (v : PayerVerification.t) (completed wallet_bound : bool) : t :=
  from_facts v (VerificationFacts.mk completed wallet_bound completed).
End VerificationRequirementsResponse.

Module VerificationAttemptResponse.
Record t := mk {
  id : string;
  kind : string;
  status : string;
  verified_at : option string;
  created_at : string;
}.
End VerificationAttemptResponse.

Module VerificationDetailResponse.
Record t := mk {
  verification : PayerVerification.t;
  verification_completed_at : option string;
  likely_unsolicited_at : option string;
  facts : VerificationRequirementsResponse.t;
  attempts : list VerificationAttemptResponse.t;
}.
End VerificationDetailResponse.

(** ** Hints and explanations *)

Definition first_char (part : string) : string :=
  match chars part with c :: _ => c | [] => EmptyString end.

(** [head.split('.').next()]. *)
Definition first_label (s : string) : string :=
  match split_once_dot s with Some (label, _) => label | None => s end.

Definition masked_email (value : string) : string :=
  let '(local, domain) := default (value, EmptyString) (split_once "@"%char value) in
  let '(label, tld) :=
    match rsplit_once "."%char domain with
    | Some (head, tld) => (first_label head, Some tld)
    | None => (domain, None)
    end in
  let masked := first_char local +:+ "****@" +:+ first_char label +:+ "***" in
  match tld with Some tld => masked +:+ "." +:+ tld | None => masked end.

Definition attention_of (code : string) (currency : Currency) : AttentionDto.t :=
  let issuer := Currency.issuer_name currency in
  let '(message, action) :=
    if String.eqb code "beneficiary_blacklisted" then
      (issuer +:+ " has blacklisted the payout address.",
       "Contact support to provide a compliant payout address.")
    else if String.eqb code "recovery_blacklisted" then
      ("The payer's wallet, where excess funds return, is restricted by " +:+ issuer +:+ ", the "
         +:+ Currency.code currency +:+ " issuer.",
       "Contact Gum support with the deposit request ID; the payer may need to be contacted.")
    else if String.eqb code "payment_address_blacklisted" then
      (issuer +:+ " has blacklisted the deposit address.",
       "Contact support; do not send additional funds.")
    else if String.eqb code "balance_below_amount" then
      ("The deposit address balance is lower than the confirmed amount.",
       "Contact support so Gum can investigate safely.")
    else
      ("Automatic settlement has paused.",
       "Funds remain safe at the deposit address; contact support.") in
  AttentionDto.mk code message action.

(** ** The projection of a request *)

Definition payment_status (i : Invoice.t) : DepositRequestStatus :=
  if is_some (Invoice.attention_reason i) then NeedsAttention
  else match Invoice.status i with
       | Created => if Invoice.received i =? 0 then AwaitingDeposit else PartiallyDeposited
       | Funded => Deposited
       | Fulfilled => Settled
       | Expired => StExpired
       | Recovered => Returned
       end.

Section Projection.
Context `{P : Primitives} `{U : UuidText} `{N : Units} `{D : Dates}.

(** [impl Display for InvoiceId] and [deposit_request_id]. *)
Definition invoice_id_string (id : Uuid) : string := "dr_" +:+ hyphenated id.
Definition deposit_request_id (value : string) : option Uuid := parse_prefixed "dr_" value.

Definition from_terms (network : NetworkTerms.t) (currency : Currency) : NetworkDto.t :=
  let chain := NetworkTerms.chain_id network in
  NetworkDto.mk (ChainDto.mk (pretty chain) (chain_name chain) (native_symbol chain))
    (TokenDto.mk (Currency.symbol_on currency chain) (to_checksum (NetworkTerms.token network)) (Currency.decimals currency)).

(** [DbAttachment::descriptor]. *)
Definition descriptor (a : DbAttachment.t) : option AttachmentDescriptor.t :=
  (fun c => AttachmentDescriptor.mk (DbAttachment.id a) (DbAttachment.original_filename a) (DbAttachment.mime_type a)
              (AttachmentCommitment.byte_length c) (AttachmentCommitment.sha256 c) None)
    <$> Attachment.commitment hex_encode_prefixed a.

(** [amount.saturating_sub(received)]. *)
Definition remaining_units (i : Invoice.t) : Z := Z.max (Invoice.amount i - Invoice.received i) 0.

(** The network a request is on: the bound one, or the only one offered. *)
Definition chosen_network (i : Invoice.t) : option NetworkDto.t :=
  let currency := Invoice.currency i in
  match Invoice.binding i with
  | Some b => Some (from_terms (PaymentBinding.network b) currency)
  | None => match Invoice.networks i with [only] => Some (from_terms only currency) | _ => None end
  end.

Definition human (currency : Currency) (units : Z) : string :=
  default EmptyString (format_units units (Currency.decimals currency)).

(** [DepositRequestResponse::from_invoice]; the deadline was validated at
    issuance, so it is an instant. *)
Definition from_invoice (i : Invoice.t) (expires_in : option Z) : DepositRequestResponse.t :=
  let currency := Invoice.currency i in
  let human := human currency in
  let remaining := remaining_units i in
  let snapshot := Invoice.issuance_snapshot i in
  let binding := Invoice.binding i in
  let wallet := binding ≫= PaymentBinding.wallet in
  DepositRequestResponse.mk
    (invoice_id_string (Invoice.id i)) ""
    (to_checksum ∘ PaymentBinding.payment_address <$> binding) None
    (to_checksum (Invoice.beneficiary i))
    (to_checksum ∘ WalletEvidence.payer_wallet <$> wallet)
    (Some (Snapshot.recovery_address snapshot))
    (rfc3339 ∘ WalletEvidence.bound_at <$> wallet)
    (rfc3339 ∘ PaymentBinding.ready_at <$> binding)
    (rfc3339 (as_i64 (Invoice.expiration_timestamp i) * 10 ^ 6)) expires_in
    (human (Invoice.amount i)) (pretty (Invoice.amount i))
    (human (Invoice.received i)) (pretty (Invoice.received i))
    (human remaining) (pretty remaining)
    (Currency.code currency) "0" "0"
    (human (Invoice.amount i)) (pretty (Invoice.amount i))
    (payment_status i)
    ((fun n => from_terms n currency) <$> Invoice.networks i)
    (NetworkDto.token <$> chosen_network i) (NetworkDto.chain <$> chosen_network i)
    (word_string <$> Invoice.execute_tx_hash i) None
    (Invoice.settled_at_timestamp i ≫= fun t => rfc3339 <$> from_timestamp (as_i64 t))
    (pretty <$> Invoice.resolved_at_block i)
    ((fun b => SelfSettlementDto.mk (pretty (NetworkTerms.chain_id (PaymentBinding.network b)))
                 (to_checksum (NetworkTerms.factory (PaymentBinding.network b))) (word_string (PaymentBinding.salt b)))
       <$> binding)
    ((fun code => attention_of code currency) <$> Invoice.attention_reason i)
    (Snapshot.issuer snapshot) (Snapshot.bill_to snapshot) (Snapshot.notes snapshot) (Snapshot.heading snapshot)
    (Snapshot.reference snapshot) None None (Snapshot.payer_verification snapshot) None None None None None
    (AttributionDto.mk (Invoice.attribution_version i) (word_string (Invoice.attribution_hash i)))
    "{}" "" "" None None None (rfc3339 <$> Invoice.cancellation_requested_at i) []
    (IndexerFreshnessDto.mk None None None) None.

End Projection.
