(* ===== verification/PayerApi.v ===== *)
(** * gum-server: the payer's side of the API

    Models [crates/gum-server/src/api/payer.rs] (what a payer may see of a
    request), [payer_verification.rs] (proving a mailbox), [merchant_session.rs]
    (opening a checkout with the merchant's secret), [payer_wallet.rs] (choosing a
    network, attesting a wallet) and [verification.rs] (the merchant's view of it),
    all in [crates/gum-server/src/api].  A handler reads the database in several
    statements; the others run in between ([Effects]).

    The deployment is [Gateway.t]: clocks, random values, the identity provider
    and what the other users of the database commit are parameters, by step; [GatewayExample] is one
    that is alone on its database, with clocks that stand still. *)

From Stdlib Require Import Ascii String.
From stdpp Require Import sorting pretty strings.
From S2P Require Import Prelude Text Core Contracts Ids Bus Tables Registry Attachments Invoices Attribution RelayIntents.
From S2P Require Import Verifications PayerEmail Notifications Dispatcher Amounts Responses.
From S2P Require Import ProofExample ApiError Effects Api PayerIdentity.

(** ** The deployment *)

Module PayerAccess.
Record t := mk { public_base_url : string; explorers : Z -> option string }.

Definition address_url (p : t) (chain_id : Z) (address : string) : option string :=
  (fun base => base +:+ "/address/" +:+ address) <$> explorers p chain_id.

Definition transaction_url (p : t) (chain_id : Z) (hash : string) : option string :=
  (fun base => base +:+ "/tx/" +:+ hash) <$> explorers p chain_id.
End PayerAccess.

Module Gateway.
Record t := mk {
  payer : PayerAccess.t;
  networks : ChainRegistry.t;
  recovery_address : Address;
  (* [state.relay.is_some()] *)
  relay : bool;
  (* the payer audience: its provider, as it answers at each step *)
  payer_verification : option (nat -> Otp.t);
  token_hash : string -> B256;
  (* [Signature::from_raw], and the bytes it is written as *)
  signature_from_raw : bytes -> option bytes;
  others : nat -> Db.t -> Db.t;
  database_now : nat -> Timestamp;
  utc_now : nat -> Timestamp;
  fresh : nat -> nat -> Uuid;
  random_word : nat -> B256;
  random_token : nat -> string;
}.
End Gateway.

(** [SystemTime::now()] in seconds. *)
Definition unix_seconds (utc : Timestamp) : Z := Z.max (utc / 10 ^ 6) 0.

(** ** Answers *)

Module PayerRelayIntentDto.
Record t := mk {
  id : string;
  status : string;
  origin_chain_id : string;
  origin_transaction_hash : option string;
  fill_transaction_hash : option string;
  created_at : string;
}.
End PayerRelayIntentDto.

Module PayerDepositRequestDetails.
Record t := mk {
  amount : string;
  amount_base_units : string;
  payer : Party.t;
  notes : option string;
  reference : option string;
  attachment : option AttachmentDescriptor.t;
}.
End PayerDepositRequestDetails.

Module PayerDepositRequestResponse.
Record t := mk {
  id : string;
  issuer_name : string;
  heading : option string;
  expected_email_hint : option string;
  requirements : VerificationRequirementsResponse.t;
  status : DepositRequestStatus;
  payable : bool;
  expires_at : string;
  server_timestamp : string;
  settlement_tx_hash : option string;
  settlement_explorer_url : option string;
  payer_message : option string;
  content_unlocked : bool;
  currency : option string;
  networks : option (list NetworkDto.t);
  chain : option ChainDto.t;
  token : option TokenDto.t;
  amount : option string;
  amount_base_units : option string;
  received : option string;
  received_base_units : option string;
  remaining : option string;
  remaining_base_units : option string;
  payer_wallet : option string;
  address : option string;
  address_explorer_url : option string;
  deposit_uri : option string;
  details : option PayerDepositRequestDetails.t;
  relay_available : bool;
  relay : option PayerRelayIntentDto.t;
}.
End PayerDepositRequestResponse.

Module ChallengeResponse.
Record t := mk {
  payer_session : string;
  expires_at : string;
  chain : ChainDto.t;
  typed_data : PayerAttestationTypedData.t;
}.
End ChallengeResponse.

Module PayerInvoiceAccess.
Record t := mk {
  invoice : Invoice.t;
  settlement_tx_hash : option string;
  requirements : VerificationRequirementsResponse.t;
  content_unlocked : bool;
  attachment : option DbAttachment.t;
  relay_intent : option (Uuid * RelayIntent.t);
}.
End PayerInvoiceAccess.

Definition PAYER_MESSAGE : string :=
  "Payout is paused, but your funds remain safe. The merchant and Gum support are resolving settlement; do not send a second transfer.".

(** The texts of the binding's errors; the last stands for a panic. *)
Definition attestation_error_text (e : PayerAttestationError) : string :=
  match e with
  | AttestationMalformed field => "payer attestation " +:+ field +:+ " is malformed"
  | UnsupportedMethod => "payer attestation method is not supported"
  | UnexpectedTypedData => "payer attestation typed data is not the Gum attestation type"
  | DomainMismatch => "payer attestation domain does not match this deployment"
  | AttestationHashMismatch => "payer attestation does not name this deposit request"
  | DigestMismatch => "payer attestation digest does not match its typed data"
  | SignatureInvalid => "payer attestation signature is invalid"
  | SignerMismatch => "payer attestation signature was not made by the stated wallet"
  end.

Definition bind_error_text (e : BindError) : string :=
  match e with
  | UnsupportedChain chain => "chain " +:+ pretty chain +:+ " is not one of the request's networks"
  | BindAttestation e => attestation_error_text e
  | WalletAttestationNotAttached => "this request does not attach wallet attestation"
  | RecoveryPanic => "a stored snapshot's recovery address parses"
  end.

(** ** Headers and identifiers *)

Definition MAX_SESSION_TOKEN_LEN : nat := 128.

(** The [gum-payer-session] header. *)
Definition session_token (header : option string) : option string :=
  token ← trim <$> header;
  if negb (String.eqb token "") && Nat.leb (String.length token) MAX_SESSION_TOKEN_LEN then Some token else None.

(** What is still due, and whether it may still be paid; [now] in seconds. *)
Definition payment_state (i : Invoice.t) (now : Z) : Z * bool :=
  let remaining := remaining_units i in
  (remaining, bool_decide (Invoice.status i = Created) && (now <=? Invoice.expiration_timestamp i) && negb (remaining =? 0)).

(** [x.filter(|_| unlocked)], [unlocked.then_some(x)]. *)
Definition only_if {A} (unlocked : bool) (x : option A) : option A := if unlocked then x else None.

Section Payers.
Context `{P : Primitives} `{U : UuidText} `{N : Units} `{D : Dates} `{K : PayerKeys} (g : Gateway.t).

Abbreviation fetch := (Api.fetch (Gateway.others g)) (only parsing).
Abbreviation write := (update ApiError.of_db_error (Gateway.others g) (Gateway.database_now g)) (only parsing).
Abbreviation find_active := (find_active (Gateway.token_hash g)) (only parsing).

(** ** What one payer may see ([payer.rs]) *)

Definition deposit_uri (b : PaymentBinding.t) (amount : Z) : string :=
  "ethereum:" +:+ to_checksum (NetworkTerms.token (PaymentBinding.network b)) +:+ "@"
  +:+ pretty (NetworkTerms.chain_id (PaymentBinding.network b)) +:+ "/transfer?address="
  +:+ to_checksum (PaymentBinding.payment_address b) +:+ "&uint256=" +:+ pretty amount.

Definition relay_dto (kv : Uuid * RelayIntent.t) : PayerRelayIntentDto.t :=
  let '(id, intent) := kv in
  PayerRelayIntentDto.mk (id_display RelayIntentId id) (RelayIntentStatus.as_str (RelayIntent.status intent))
    (pretty (RelayIntent.origin_chain_id intent))
    (word_string <$> origin_tx_hash intent) (word_string <$> head (fill_tx_hashes intent))
    (rfc3339 (RelayIntent.created_at intent)).

(** [payer_response]; [now] in seconds. *)
Definition payer_response (now : Z) (a : PayerInvoiceAccess.t) : PayerDepositRequestResponse.t :=
  let invoice := PayerInvoiceAccess.invoice a in
  let unlocked := PayerInvoiceAccess.content_unlocked a in
  let '(remaining, payable) := payment_state invoice now in
  let relay_available := Gateway.relay g && unlocked && payable && is_some (Invoice.binding invoice)
                         && negb (wallet_attestation_required invoice) in
  let chain_id := NetworkTerms.chain_id <$> network invoice in
  let currency := Invoice.currency invoice in
  let response := from_invoice invoice None in
  let settlement := only_if unlocked (PayerInvoiceAccess.settlement_tx_hash a) in
  let gated (s : string) := only_if unlocked (Some s) in
  PayerDepositRequestResponse.mk
    (DepositRequestResponse.id response)
    (Party.name (DepositRequestResponse.issuer response))
    (DepositRequestResponse.heading response)
    (masked_email <$> PayerVerification.expected_email (Snapshot.payer_verification (Invoice.issuance_snapshot invoice)))
    (PayerInvoiceAccess.requirements a)
    (DepositRequestResponse.status response)
    payable
    (DepositRequestResponse.expires_at response)
    (pretty now)
    settlement
    (hc ← option_zip settlement chain_id; PayerAccess.transaction_url (Gateway.payer g) (snd hc) (fst hc))
    ((fun _ => PAYER_MESSAGE) <$> Invoice.attention_reason invoice)
    unlocked
    (gated (Currency.code currency))
    (only_if unlocked (Some ((fun n => from_terms n currency) <$> Invoice.networks invoice)))
    (only_if unlocked (DepositRequestResponse.chain response))
    (only_if unlocked (DepositRequestResponse.token response))
    (gated (DepositRequestResponse.amount response))
    (gated (DepositRequestResponse.amount_base_units response))
    (gated (DepositRequestResponse.received response))
    (gated (DepositRequestResponse.received_base_units response))
    (gated (DepositRequestResponse.remaining response))
    (gated (pretty remaining))
    (only_if unlocked (DepositRequestResponse.payer_wallet response))
    (only_if unlocked (DepositRequestResponse.address response))
    (ac ← option_zip (only_if unlocked (DepositRequestResponse.address response)) chain_id;
     PayerAccess.address_url (Gateway.payer g) (snd ac) (fst ac))
    ((fun b => deposit_uri b remaining) <$> only_if (unlocked && payable) (Invoice.binding invoice))
    (only_if unlocked (Some (PayerDepositRequestDetails.mk
       (DepositRequestResponse.amount response) (DepositRequestResponse.amount_base_units response)
       (DepositRequestResponse.payer response) (DepositRequestResponse.notes response)
       (DepositRequestResponse.reference response) (PayerInvoiceAccess.attachment a ≫= descriptor))))
    relay_available
    (relay_dto <$> only_if unlocked (PayerInvoiceAccess.relay_intent a)).

Definition parse_invoice_id (id : string) : api Uuid :=
  refuse_unless (deposit_request_id id) ApiError.payer_unauthorized.

(** [find_by_id(uuid).await?.ok_or_else(payer_unauthorized)?]. *)
Definition invoice_row (id : Uuid) : api DbInvoice.t :=
  let* row := fetch (fun _ db => Ok (Db.invoices db !! id)) in
  refuse_unless row ApiError.payer_unauthorized.

Definition hash_text (hash : option bytes) : result ApiError.t (option string) :=
  match hash with
  | None => Ok None
  | Some h => if Nat.eqb (length h) 32 then Ok (Some (word_string h))
              else Err (ApiError.internal "invalid settlement transaction hash")
  end.

(** The session's own facts and the request's wallet. *)
Definition session_requirements (v : PayerVerification.t) (session : PayerSession.t) (wallet_bound : bool)
  : VerificationRequirementsResponse.t :=
  let own := facts session in
  VerificationRequirementsResponse.from_facts v {| own with VerificationFacts.wallet := wallet_bound |}.

Definition active_session (token : string) (id : Uuid) : api (option (Uuid * PayerSession.t)) :=
  fetch (fun n db => Ok (find_active token id (Gateway.database_now g n) db)).

Definition authorized_invoice (id : string) (token : option string) : api PayerInvoiceAccess.t :=
  let* uuid := parse_invoice_id id in
  let* row := invoice_row uuid in
  let* settlement := lift (hash_text (DbInvoice.settlement_tx_hash row)) in
  let* invoice := decode (invoice_try_from parse_address row) in
  let v := Snapshot.payer_verification (Invoice.issuance_snapshot invoice) in
  let* session := match token with
                  | Some token => if is_gated v then active_session token (DbInvoice.id row) else ret None
                  | None => ret None
                  end in
  let wallet_bound := is_some (DbInvoice.payment_address row) in
  let requirements := match session with
                      | Some (_, s) => session_requirements v s wallet_bound
                      | None => VerificationRequirementsResponse.for_verification v false wallet_bound
                      end in
  let unlocked := negb (is_gated v) || match session with Some (_, s) => satisfies s v | None => false end in
  let* attachment :=
    if unlocked && is_some (Snapshot.attachment (Invoice.issuance_snapshot invoice))
    then fetch (fun _ db => Ok (Attachment.find_by_invoice (DbInvoice.id row) db)) else ret None in
  let* intent :=
    if unlocked && wallet_bound
    then fetch (fun _ db => Ok (latest_for_invoice (DbInvoice.id row) db)) else ret None in
  ret (PayerInvoiceAccess.mk invoice settlement requirements unlocked attachment intent).

(** [payer_response] reads the clock itself. *)
Definition respond (a : PayerInvoiceAccess.t) : api PayerDepositRequestResponse.t :=
  let* utc := outside (Gateway.utc_now g) in
  ret (payer_response (unix_seconds utc) a).

Definition payer_get (id : string) (header : option string) : api PayerDepositRequestResponse.t :=
  let* access := authorized_invoice id (session_token header) in
  respond access.

(** What the payment QR encodes. *)
Definition payer_qr (id : string) (header : option string) : api string :=
  let* access := authorized_invoice id (session_token header) in
  let* _ := guarded (negb (PayerInvoiceAccess.content_unlocked access)) ApiError.verification_required in
  let* binding := refuse_unless (Invoice.binding (PayerInvoiceAccess.invoice access)) ApiError.wallet_required in
  let* utc := outside (Gateway.utc_now g) in
  let '(remaining, payable) := payment_state (PayerInvoiceAccess.invoice access) (unix_seconds utc) in
  let* _ := guarded (negb payable) ApiError.deposit_request_not_payable in
  ret (deposit_uri binding remaining).

(** ** Proving a mailbox ([payer_verification.rs]) *)

(** The email-gated request behind [id], still open to verification. *)
Definition gated_invoice (id : string) : api (DbInvoice.t * Invoice.t) :=
  let* uuid := parse_invoice_id id in
  let* row := invoice_row uuid in
  let* invoice := decode (invoice_try_from parse_address row) in
  let v := Snapshot.payer_verification (Invoice.issuance_snapshot invoice) in
  let* _ := guarded (negb (is_some (PayerVerification.email v)))
              (if is_some (PayerVerification.merchant_auth v)
               then ApiError.verification_method_not_applicable
                      "This deposit request is opened by the issuer's application; it does not send email codes"
               else ApiError.verification_not_required) in
  let* utc := outside (Gateway.utc_now g) in
  let open := match Invoice.status invoice with Created | Funded => true | _ => false end in
  let receipt_reauth := negb open && is_some (DbInvoice.verification_completed_at row) in
  let* _ := guarded ((negb open && negb receipt_reauth)
                     || (open && (Invoice.expiration_timestamp invoice <? unix_seconds utc)))
              ApiError.deposit_request_not_payable in
  ret (row, invoice).

(** [expected_email]: an email-gated request names one. *)
Definition expected_mailbox (invoice : Invoice.t) : string :=
  normalize_email (default EmptyString
    (PayerVerification.expected_email (Snapshot.payer_verification (Invoice.issuance_snapshot invoice)))).

(** Sent, or refused for so many seconds. *)
Inductive StartEmailAnswer :=
| EmailStarted (payer_session : string) (expires_at : string)
| EmailCooldown (retry_after : Z).

(** A statement whose failure the handler looks at. *)
Definition tried {E A} (f : nat -> Db.t -> result E (A * Db.t)) : api (result E A) :=
  transact (Gateway.others g) (fun n db =>
    match f n db with Ok (a, db') => Ok (Ok a, db') | Err e => Ok (Err e, db) end).

Definition RESEND_COOLDOWN : Z := 60 * 10 ^ 6.

(** [payer_sessions.create]: the session's id, its token and its end. *)
Definition create_session (invoice_id : Uuid) : api (Uuid * string * Timestamp) :=
  transact (Gateway.others g) (fun n db =>
    let id := Gateway.fresh g n 0 in
    let token := Gateway.random_token g n in
    let! '(expires_at, db') := db_result ApiError.of_db_error
      (create (Gateway.token_hash g) id token invoice_id PAYER_SESSION_TTL (Gateway.database_now g n) db) in
    Ok ((id, token, expires_at), db')).

Definition drop_session (id : Uuid) : api unit := write (fun _ db => Ok (tt, delete_session id db)).

Definition start_email (id : string) (header : option string) : api StartEmailAnswer :=
  let* otp := refuse_unless (Gateway.payer_verification g) ApiError.verification_unavailable in
  let* '(row, invoice) := gated_invoice id in
  let* existing := match session_token header with
                   | Some token =>
                       let* s := active_session token (DbInvoice.id row) in
                       ret ((fun kv => (fst kv, token, PayerSession.expires_at (snd kv))) <$> s)
                   | None => ret None
                   end in
  let* '(session_id, token, expires_at, created) :=
    match existing with
    | Some (i, t, e) => ret (i, t, e, false)
    | None => let* '(i, t, e) := create_session (DbInvoice.id row) in ret (i, t, e, true)
    end in
  let* begun := tried (fun n db => begin_email_verification session_id (Gateway.fresh g n 1) RESEND_COOLDOWN
                                     (Gateway.utc_now g n) (Gateway.database_now g n) db) in
  match begun with
  | Err (Cooldown retry_after) =>
      let* _ := if created then drop_session session_id else ret tt in
      ret (EmailCooldown (Z.max (retry_after / 10 ^ 6) 1))
  | Err (StartDatabase e) =>
      let* _ := if created then drop_session session_id else ret tt in
      throw (ApiError.of_db_error e)
  | Ok _ =>
      let* sent := outside (fun n => send_code (otp n) (expected_mailbox invoice)) in
      match sent with
      | Err e =>
          let* _ := if created then drop_session session_id
                    else write (fun _ db => Ok (tt, abandon_email_verification session_id db)) in
          throw e
      | Ok _ => ret (EmailStarted token (rfc3339 expires_at))
      end
  end.

Definition MAX_OTP_LEN : nat := 16.

(** [c.is_alphanumeric()] over the characters of a code; Unicode's table is a
    parameter. *)
Definition valid_otp (alphanumeric : string -> bool) (otp : string) : bool :=
  negb (String.eqb otp "") && Nat.leb (String.length otp) MAX_OTP_LEN && forallb alphanumeric (chars otp).

Inductive ConfirmEmailAnswer :=
| EmailConfirmed (requirements : VerificationRequirementsResponse.t)
(* 503: the proof was accepted but not stored *)
| EmailContinue (continuation : string).

(** One approval and, when it fails, up to [again] more. *)
Fixpoint approve_retrying (again : nat) (session_id : Uuid) (ref : B256) (verified_at : Timestamp) (event : string)
  : api (result DbError Completion.t) :=
  let* r := tried (fun n db => approve_email session_id ref verified_at event (Gateway.database_now g n) db) in
  match r, again with
  | Err _, S again => approve_retrying again session_id ref verified_at event
  | _, _ => ret r
  end.

(** Exactly one of a code and a continuation, the code well formed. *)
Definition confirm_request (alphanumeric : string -> bool) (otp continuation : option string)
  : result ApiError.t (option string) :=
  if bool_decide (is_some otp = is_some continuation) then
    Err (ApiError.invalid_request "provide exactly one of otp or continuation")
  else
    let otp := trim <$> otp in
    if match otp with Some otp => negb (valid_otp alphanumeric otp) | None => false end then
      Err (ApiError.invalid_request "otp must be the code from the verification email")
    else Ok otp.

(** What the code, or the continuation, proves: the reference, when, and the
    provider's event. *)
Definition email_proof (otp : nat -> Otp.t) (row : DbInvoice.t) (invoice : Invoice.t) (session_id : Uuid)
    (code continuation : option string) : api (B256 * Timestamp * string) :=
  match code with
  | Some code =>
      let* pending := fetch (fun _ db => Ok (has_pending_email_verification session_id db)) in
      let* _ := guarded (negb pending) ApiError.verification_not_started in
      let* identity := ask (fun n => confirm_code (otp n) (expected_mailbox invoice) code) in
      let* utc := outside (Gateway.utc_now g) in
      ret (payer_ref_of (DbInvoice.account_id row) (expected_mailbox invoice), utc,
           Identity.authentication_event_id identity)
  | None =>
      let* utc := outside (Gateway.utc_now g) in
      let* claims := refuse_unless
        (claims ← continuation ≫= decode_continuation (unix_seconds utc);
         if (EmailContinuation.session_id claims =? session_id)
            && (EmailContinuation.invoice_id claims =? DbInvoice.id row)
         then Some claims else None) ApiError.otp_invalid in
      let* verified_at := refuse_unless (from_timestamp (EmailContinuation.verified_at claims)) ApiError.otp_invalid in
      ret (EmailContinuation.payer_ref claims, verified_at, EmailContinuation.event_id claims)
  end.

Definition confirm_email (alphanumeric : string -> bool) (id : string) (header otp continuation_token : option string)
  : api ConfirmEmailAnswer :=
  let* provider := refuse_unless (Gateway.payer_verification g) ApiError.verification_unavailable in
  let* code := lift (confirm_request alphanumeric otp continuation_token) in
  let* '(row, invoice) := gated_invoice id in
  let* token := refuse_unless (session_token header) ApiError.payer_session_invalid in
  let* session := active_session token (DbInvoice.id row) in
  let* '(session_id, _) := refuse_unless session ApiError.payer_session_invalid in
  let* '(ref, verified_at, event) := email_proof provider row invoice session_id code continuation_token in
  let* approval := approve_retrying 2 session_id ref verified_at event in
  match approval with
  | Ok completion =>
      ret (EmailConfirmed (session_requirements (Snapshot.payer_verification (Invoice.issuance_snapshot invoice))
             (Completion.session completion) (is_some (Invoice.binding invoice))))
  | Err _ =>
      let* utc := outside (Gateway.utc_now g) in
      ret (EmailContinue (continuation (unix_seconds utc)
             (EmailContinuation.mk session_id (DbInvoice.id row) ref (verified_at / 10 ^ 6) event 0)))
  end.

Definition verification_status (id : string) (header : option string) : api VerificationRequirementsResponse.t :=
  let* uuid := parse_invoice_id id in
  let* row := invoice_row uuid in
  let* invoice := decode (invoice_try_from parse_address row) in
  let v := Snapshot.payer_verification (Invoice.issuance_snapshot invoice) in
  let wallet_bound := is_some (DbInvoice.payment_address row) in
  match session_token header with
  | Some token =>
      let* session := active_session token (DbInvoice.id row) in
      let* '(_, s) := refuse_unless session ApiError.payer_session_invalid in
      ret (session_requirements v s wallet_bound)
  | None => ret (VerificationRequirementsResponse.for_verification v false wallet_bound)
  end.

(** ** Opening a checkout with a secret ([merchant_session.rs]) *)

(** A request of one of the account's, by id or by payment address. *)
Definition find_by_id_for_account (account id : Uuid) (db : Db.t) : option DbInvoice.t :=
  row ← Db.invoices db !! id;
  if DbInvoice.account_id row =? account then Some row else None.

Definition find_by_payment_address_for_account (account : Uuid) (address : Address) (db : Db.t) : option DbInvoice.t :=
  snd <$> List.find (fun kv => (DbInvoice.account_id (snd kv) =? account)
                               && bool_decide (DbInvoice.payment_address (snd kv) = Some address))
            (map_to_list (Db.invoices db)).

Definition resolve_deposit_request (account : Uuid) (reference : string) : api DbInvoice.t :=
  match deposit_request_id reference with
  | Some uuid =>
      let* row := fetch (fun _ db => Ok (find_by_id_for_account account uuid db)) in
      refuse_unless row ApiError.deposit_request_not_found
  | None =>
      match parse_address reference with
      | Some address =>
          let* row := fetch (fun _ db => Ok (find_by_payment_address_for_account account address db)) in
          refuse_unless row ApiError.deposit_request_not_found
      | None => throw ApiError.invalid_deposit_reference
      end
  end.

(** Live, or a receipt of what was verified; [now] in seconds. *)
Definition openable (row : DbInvoice.t) (invoice : Invoice.t) (now : Z) : bool :=
  let open := match Invoice.status invoice with Created | Funded => true | _ => false end in
  let receipt := negb open && is_some (DbInvoice.verification_completed_at row) in
  (open && (now <=? Invoice.expiration_timestamp invoice)) || receipt.

Definition merchant_session_only (invoice : Invoice.t) : result ApiError.t unit :=
  let v := Snapshot.payer_verification (Invoice.issuance_snapshot invoice) in
  if is_some (PayerVerification.merchant_auth v) then Ok tt
  else if is_some (PayerVerification.email v) then
    Err (ApiError.verification_method_not_applicable
           "This deposit request verifies the payer by email; client secrets apply to deposit requests with the merchant-auth add-on")
  else Err ApiError.verification_not_required.

Definition check_openable (row : DbInvoice.t) (invoice : Invoice.t) : api unit :=
  let* utc := outside (Gateway.utc_now g) in
  guarded (negb (openable row invoice (unix_seconds utc))) ApiError.deposit_request_not_payable.

(** A fresh secret of the request, and when it ends. *)
Definition mint_secret (invoice_id account : Uuid) : api (string * Timestamp) :=
  transact (Gateway.others g) (fun n db =>
    db_result ApiError.of_db_error
      (create_client_secret (Gateway.token_hash g) (Gateway.fresh g n 0) (Gateway.random_token g n) invoice_id account
         CLIENT_SECRET_TTL (Gateway.database_now g n) db)).

Definition mint (account : Uuid) (reference : string) : api (string * string) :=
  let* row := resolve_deposit_request account reference in
  let* invoice := decode (invoice_try_from parse_address row) in
  let* _ := lift (merchant_session_only invoice) in
  let* _ := check_openable row invoice in
  let* '(secret, expires_at) := mint_secret (DbInvoice.id row) account in
  ret (secret, rfc3339 expires_at).

Definition CLIENT_SECRET_LEN : nat := (String.length CLIENT_SECRET_PREFIX + 43)%nat.

(** [byte.is_ascii_alphanumeric() || byte == b'-' || byte == b'_']. *)
Definition base64url_byte (c : ascii) : bool :=
  let n := byte_of c in
  ((48 <=? n) && (n <=? 57)) || ((65 <=? n) && (n <=? 90)) || ((97 <=? n) && (n <=? 122)) || (n =? 45) || (n =? 95).

Definition valid_secret (secret : string) : bool :=
  Nat.eqb (String.length secret) CLIENT_SECRET_LEN
  && match strip_prefix CLIENT_SECRET_PREFIX secret with
     | Some rest => forallb base64url_byte (list_ascii_of_string rest)
     | None => false
     end.

Definition exchange_secret (id secret : string) : api (string * string * VerificationRequirementsResponse.t) :=
  let secret := trim secret in
  let* _ := guarded (negb (valid_secret secret)) ApiError.client_secret_invalid in
  let* uuid := parse_invoice_id id in
  let* row := invoice_row uuid in
  let* invoice := decode (invoice_try_from parse_address row) in
  let* _ := lift (merchant_session_only invoice) in
  let* _ := check_openable row invoice in
  let* '(token, completion) := transact (Gateway.others g) (fun n db =>
    let token := Gateway.random_token g n in
    match exchange_client_secret (Gateway.token_hash g) secret (DbInvoice.id row) PAYER_SESSION_TTL token
            (Gateway.fresh g n 0) (Gateway.fresh g n 1) (Gateway.utc_now g n) (Gateway.database_now g n) db with
    | Ok (c, db') => Ok ((token, c), db')
    | Err SecretUsed => Err ApiError.client_secret_used
    | Err (SecretUnknown | SecretExpired) => Err ApiError.client_secret_invalid
    | Err (ExchangeDatabase e) => Err (ApiError.of_db_error e)
    end) in
  ret (token, rfc3339 (PayerSession.expires_at (Completion.session completion)),
       VerificationRequirementsResponse.from_facts (Snapshot.payer_verification (Invoice.issuance_snapshot invoice))
         (facts (Completion.session completion))).

(** [preview_session] of [deposit_requests.rs]. *)
Definition preview_session (account : Uuid) (reference : string) : api (string * string) :=
  let* row := resolve_deposit_request account reference in
  let* invoice := decode (invoice_try_from parse_address row) in
  let* _ := check_openable row invoice in
  let* '(token, expires_at) := transact (Gateway.others g) (fun n db =>
    let token := Gateway.random_token g n in
    let! '(expires_at, db') := db_result ApiError.of_db_error
      (create_merchant_preview (Gateway.token_hash g) (Gateway.fresh g n 0) token (DbInvoice.id row) PAYER_SESSION_TTL
         (Gateway.database_now g n) db) in
    Ok ((token, expires_at), db')) in
  ret (token, rfc3339 expires_at).

(** ** The wallet and the network ([payer_wallet.rs]) *)

Definition WALLET_CHALLENGE_TTL : Z := 10 * 60 * 10 ^ 6.

Definition parse_chain (invoice : Invoice.t) (value : string) : result ApiError.t Z :=
  let! chain := ok_or (parse_u64 (trim value)) (ApiError.invalid_request "chain_id must be a decimal chain id string") in
  let! n := ok_or (network_for invoice chain) ApiError.unsupported_chain in
  Ok (NetworkTerms.chain_id n).

Definition parse_wallet (value : string) : result ApiError.t Address :=
  let! wallet := ok_or (parse_address (trim value)) (ApiError.invalid_request "wallet must be a 20-byte EVM address") in
  if is_zero_address wallet then Err (ApiError.invalid_request "wallet must not be the zero address") else Ok wallet.

Definition open_invoice (id : string) : api (DbInvoice.t * Invoice.t) :=
  let* uuid := parse_invoice_id id in
  let* row := invoice_row uuid in
  let* invoice := decode (invoice_try_from parse_address row) in
  let* utc := outside (Gateway.utc_now g) in
  let* _ := guarded (negb (bool_decide (Invoice.status invoice = Created))
                     || (as_i64 (Invoice.expiration_timestamp invoice) <? utc / 10 ^ 6))
              ApiError.deposit_request_not_payable in
  ret (row, invoice).

Definition policy_satisfied (invoice : Invoice.t) (s : PayerSession.t) : bool :=
  let v := Snapshot.payer_verification (Invoice.issuance_snapshot invoice) in
  negb (is_gated v) || satisfies s v.

(** A gated request is bound only for a payer's session that satisfies it. *)
Definition check_select_session (row : DbInvoice.t) (invoice : Invoice.t) (header : option string) : api unit :=
  let v := Snapshot.payer_verification (Invoice.issuance_snapshot invoice) in
  if is_gated v then
    let* token := refuse_unless (session_token header) ApiError.payer_session_invalid in
    let* session := active_session token (DbInvoice.id row) in
    let* '(_, s) := refuse_unless session ApiError.payer_session_invalid in
    let* _ := guarded (is_merchant_preview s) ApiError.payer_session_invalid in
    guarded (negb (satisfies s v)) ApiError.verification_required
  else ret tt.

Definition select_network (id : string) (header : option string) (chain_id : string) : api PayerDepositRequestResponse.t :=
  let* '(row, invoice) := open_invoice id in
  let* _ := guarded (wallet_attestation_required invoice) ApiError.wallet_attestation_required in
  let* chain := lift (parse_chain invoice chain_id) in
  let* _ := check_select_session row invoice header in
  match Invoice.binding invoice with
  | Some binding =>
      if NetworkTerms.chain_id (PaymentBinding.network binding) =? chain then
        let* access := authorized_invoice id (session_token header) in
        respond access
      else throw ApiError.network_already_chosen
  | None =>
      let* now := outside (Gateway.utc_now g) in
      let* binding := lift match bind_to_network invoice chain now with
                           | Ok b => Ok b
                           | Err (UnsupportedChain _) => Err ApiError.network_conflict
                           | Err e => Err (ApiError.internal (bind_error_text e))
                           end in
      let* outcome := write (bind_network (DbInvoice.id row) binding now) in
      let* _ := lift match outcome with
                     | Bound _ => Ok tt
                     | AlreadyBound bound =>
                         if bool_decide (DbInvoice.chain_id bound = Some (as_i64 chain)) then Ok tt
                         else Err ApiError.network_already_chosen
                     | NotBindable _ => Err ApiError.deposit_request_not_payable
                     end in
      let* access := authorized_invoice id (session_token header) in
      respond access
  end.

(** The session a challenge is issued to; an open request starts one. *)
Definition challenge_session (row : DbInvoice.t) (gated : bool) (header : option string)
  : api (Uuid * PayerSession.t * string) :=
  match session_token header with
  | Some token =>
      let* session := active_session token (DbInvoice.id row) in
      let* '(id, s) := refuse_unless session ApiError.payer_session_invalid in
      ret (id, s, token)
  | None =>
      if gated then throw ApiError.payer_session_invalid
      else
        let* '(_, token, _) := create_session (DbInvoice.id row) in
        let* session := active_session token (DbInvoice.id row) in
        let* '(id, s) := refuse_unless session (ApiError.internal "fresh payer session not found") in
        ret (id, s, token)
  end.

(** [expires_at.timestamp().max(0) as u64]. *)
Definition challenge_expiry (c : WalletChallenge.t) : Z := Z.max (WalletChallenge.expires_at c / 10 ^ 6) 0.

(** The document the wallet is asked to sign. *)
Definition challenge_message (invoice : Invoice.t) (wallet : Address) (c : WalletChallenge.t) : PayerAttestation.t :=
  attestation_new (Invoice.attribution_hash invoice) wallet (WalletChallenge.nonce c) (challenge_expiry c).

(** The checksummed wallet of a bound request. *)
Definition bound_wallet_text (wallet : option Address) : string :=
  default EmptyString (to_checksum <$> wallet).

Definition challenge (id : string) (header : option string) (wallet chain_id : string) : api ChallengeResponse.t :=
  let* wallet := lift (parse_wallet wallet) in
  let* '(row, invoice) := open_invoice id in
  let* _ := guarded (negb (wallet_attestation_required invoice)) ApiError.wallet_attestation_not_required in
  let* _ := match Invoice.binding invoice with
            | Some b => throw (ApiError.wallet_already_bound
                                 (bound_wallet_text (WalletEvidence.payer_wallet <$> PaymentBinding.wallet b)))
            | None => ret tt
            end in
  let* chain := lift (parse_chain invoice chain_id) in
  (* [expect("parse_chain checked")] *)
  let* n := refuse_unless (network_for invoice chain) (ApiError.internal "parse_chain checked") in
  let gated := is_gated (Snapshot.payer_verification (Invoice.issuance_snapshot invoice)) in
  let* '(session_id, session, token) := challenge_session row gated header in
  let* _ := guarded (negb (policy_satisfied invoice session)) ApiError.verification_required in
  let* c := transact (Gateway.others g) (fun n db =>
    db_result ApiError.of_db_error
      (issue_wallet_challenge session_id (Gateway.random_word g n) chain WALLET_CHALLENGE_TTL (Gateway.database_now g n) db)) in
  ret (ChallengeResponse.mk token (rfc3339 (WalletChallenge.expires_at c))
         (NetworkDto.chain (from_terms n (Invoice.currency invoice)))
         (typed_data (challenge_message invoice wallet c) (NetworkTerms.chain_id n) (NetworkTerms.factory n))).

Definition parse_signature (signature : string) : result ApiError.t bytes :=
  ok_or (b ← hex_decode (trim signature);
         if Nat.eqb (length b) 65 then Gateway.signature_from_raw g b else None) ApiError.wallet_signature_invalid.

(** What a failed binding answers. *)
Definition attest_error (e : BindError) : ApiError.t :=
  match e with
  | BindAttestation (SignatureInvalid | SignerMismatch) => ApiError.wallet_signature_invalid
  | _ => ApiError.internal "failed to verify the wallet attestation"
  end.

Definition attest (id : string) (header : option string) (wallet signature : string)
  : api PayerDepositRequestResponse.t :=
  let* wallet := lift (parse_wallet wallet) in
  let* signature := lift (parse_signature signature) in
  let* '(row, invoice) := open_invoice id in
  let* token := refuse_unless (session_token header) ApiError.payer_session_invalid in
  let* session := active_session token (DbInvoice.id row) in
  let* '(session_id, session) := refuse_unless session ApiError.payer_session_invalid in
  let* _ := guarded (negb (policy_satisfied invoice session)) ApiError.verification_required in
  let* now := outside (Gateway.utc_now g) in
  let* c := refuse_unless (wallet_challenge session now) ApiError.wallet_challenge_required in
  let chain := WalletChallenge.chain_id c in
  let* n := refuse_unless (network_for invoice chain) ApiError.unsupported_chain in
  let attestation := payer_wallet_attestation (challenge_message invoice wallet c)
                       (NetworkTerms.chain_id n) (NetworkTerms.factory n) signature in
  let* binding := lift match bind_to_wallet invoice chain attestation now with
                       | Ok b => Ok b
                       | Err e => Err (attest_error e)
                       end in
  let* outcome := transact (Gateway.others g) (fun n db =>
    db_result ApiError.of_db_error
      (bind_payer_wallet (DbInvoice.id row) session_id (Gateway.fresh g n 0) binding now (Gateway.database_now g n) db)) in
  let* _ := lift match outcome with
                 | Bound _ => Ok tt
                 | AlreadyBound existing =>
                     if bool_decide (DbInvoice.payer_wallet existing = Some wallet) then Ok tt
                     else Err (ApiError.wallet_already_bound
                                 (bound_wallet_text (DbInvoice.payer_wallet existing ≫= fixed_bytes 20)))
                 | NotBindable _ => Err ApiError.deposit_request_not_payable
                 end in
  let* access := authorized_invoice id (Some token) in
  respond access.

(** ** The merchant's view of a verification ([verification.rs]) *)

Definition kind_str (k : VerificationKind) : string :=
  match k with KindEmail => "email" | KindWallet => "wallet" | KindMerchantSession => "merchant_session" end.

Definition verification_status_str (s : VerificationStatus) : string :=
  match s with VsPending => "pending" | VsApproved => "approved" | VsAbandoned => "abandoned" end.

Definition attempt_response (kv : Uuid * PayerVerificationRow.t) : VerificationAttemptResponse.t :=
  VerificationAttemptResponse.mk (id_display VerificationAttemptId (fst kv))
    (kind_str (PayerVerificationRow.kind (snd kv))) (verification_status_str (PayerVerificationRow.status (snd kv)))
    (rfc3339 <$> PayerVerificationRow.verified_at (snd kv)) (rfc3339 (PayerVerificationRow.created_at (snd kv))).

Definition merchant_detail (account : Uuid) (reference : string) : api VerificationDetailResponse.t :=
  let* row := resolve_deposit_request account reference in
  let* invoice := decode (invoice_try_from parse_address row) in
  let v := Snapshot.payer_verification (Invoice.issuance_snapshot invoice) in
  let* attempts := fetch (fun _ db => Ok (attempts_for_invoice account (DbInvoice.id row) db)) in
  let wallet := is_some (DbInvoice.payment_address row) in
  let approved kind := existsb (fun kv : Uuid * PayerVerificationRow.t =>
      bool_decide (PayerVerificationRow.kind (snd kv) = kind)
      && bool_decide (PayerVerificationRow.status (snd kv) = VsApproved)) attempts in
  let facts :=
    if is_some (DbInvoice.verification_completed_at row)
    then VerificationRequirementsResponse.for_verification v true wallet
    else VerificationRequirementsResponse.from_facts v
           (VerificationFacts.mk (approved KindEmail) wallet (approved KindMerchantSession)) in
  ret (VerificationDetailResponse.mk v (rfc3339 <$> DbInvoice.verification_completed_at row)
         (rfc3339 <$> DbInvoice.likely_unsolicited_at row) facts (attempt_response <$> attempts)).

End Payers.

Module GatewayExample.

#[export] Instance dates : Dates := {| from_timestamp t := Some (t * 10 ^ 6); rfc3339 t := pretty t |}.

Definition token_hash (s : string) : B256 := replicate 32 (Z.of_nat (String.length s)).

Definition registry : ChainRegistry.t := ChainRegistry.mk [].

(** Alone: nobody else writes. *)
Definition gateway (now : Timestamp) : Gateway.t := {|
  Gateway.payer := PayerAccess.mk "https://gum.example" (fun _ => None);
  Gateway.networks := registry;
  Gateway.recovery_address := replicate 20 8;
  Gateway.relay := false;
  Gateway.payer_verification := None;
  Gateway.token_hash := token_hash;
  Gateway.signature_from_raw := Some;
  Gateway.others _ db := db;
  Gateway.database_now _ := now;
  Gateway.utc_now _ := now;
  Gateway.fresh n k := 1000 + Z.of_nat n * 10 + Z.of_nat k;
  Gateway.random_word n := replicate 32 (Z.of_nat n);
  Gateway.random_token n := "token-" +:+ pretty (Z.of_nat n);
|}.

Lemma alone step ok db0 now : (forall db db', step db db' -> ok db -> ok db') -> ok db0 ->
  Interference (Gateway.others (gateway now)) step ok db0.
Proof. intros Hk H0. split; [exact Hk|exact H0|]. intros n db. apply rtc_refl. Qed.

End GatewayExample.
