(* ===== verification/PayerTheorems.v ===== *)
(** * What a payer may see, and who proved what

    A locked view depends only on a request's public part
    ([locked_view_reveals_nothing]), and the content of a gated request is shown
    only to the bearer of a session that proved what the request asks for
    ([content_only_for_the_verified]). *)

From Stdlib Require Import Ascii String.
From stdpp Require Import sorting pretty strings.
From S2P Require Import Prelude Text Core Contracts Ids Bus Tables Registry Attachments Invoices Attribution Range Sweeps.
From S2P Require Import RelayIntents Verifications LedgerExample LedgerInv LedgerRuns VerificationTheorems.
From S2P Require Import ProofExample Amounts Responses ApiError Effects Api PayerIdentity PayerApi.

(** ** The locked view *)

(** What a request shows to anyone who has its link. *)
Definition public_part `{P : Primitives} `{U : UuidText} `{N : Units} `{D : Dates} (now : Z) (a : PayerInvoiceAccess.t) :=
  let i := PayerInvoiceAccess.invoice a in
  let s := Invoice.issuance_snapshot i in
  (Invoice.id i, Party.name (Snapshot.issuer s), Snapshot.heading s,
   masked_email <$> PayerVerification.expected_email (Snapshot.payer_verification s),
   PayerInvoiceAccess.requirements a,
   (payment_status i, snd (payment_state i now), Invoice.expiration_timestamp i, is_some (Invoice.attention_reason i))).

(** C26. A payer whose session does not satisfy the request's policy learns
    only its public part: who issued it, its heading, the masked mailbox a code
    would go to, which proofs are asked for and given, its status, deadline and
    whether it can still be paid.  Two requests that agree on these are answered
    alike, whatever their amounts, parties, notes, networks, addresses, wallets,
    receipts, documents and relay payments. *)
Theorem locked_view_reveals_nothing `{P : Primitives} `{U : UuidText} `{N : Units} `{D : Dates} (g : Gateway.t) now a a' :
  PayerInvoiceAccess.content_unlocked a = false -> PayerInvoiceAccess.content_unlocked a' = false ->
  public_part now a = public_part now a' -> payer_response g now a = payer_response g now a'.
Proof.
  unfold public_part, payer_response. intros -> -> [= Hid Hn Hh Hm Hr Hs Hp He Ha].
  unfold payment_state. cbn in *. rewrite ?andb_false_r, Hp, Hid, Hn, Hh, Hm, Hr, Hs, He. cbn.
  assert ((fun _ : string => PAYER_MESSAGE) <$> Invoice.attention_reason (PayerInvoiceAccess.invoice a) =
          (fun _ => PAYER_MESSAGE) <$> Invoice.attention_reason (PayerInvoiceAccess.invoice a')) as ->
    by (by destruct (Invoice.attention_reason _), (Invoice.attention_reason _)).
  by destruct (Gateway.relay g).
Qed.

(** ** What sessions have proved *)

Definition email_proof (sid : Uuid) (db : Db.t) : Prop :=
  exists aid a, Db.payer_verifications db !! aid = Some a /\ PayerVerificationRow.payer_session_id a = sid /\
    PayerVerificationRow.kind a = KindEmail /\ PayerVerificationRow.status a = VsApproved.

Definition secret_proof (sid invoice : Uuid) (db : Db.t) : Prop :=
  exists cid c, Db.payer_client_secrets db !! cid = Some c /\ is_some (ClientSecret.used_at c) = true /\
    ClientSecret.payer_session_id c = Some sid /\ ClientSecret.invoice_id c = invoice.

Definition grounded_session (db : Db.t) (sid : Uuid) (s : PayerSession.t) : Prop :=
  PayerSession.purpose s = ForPayer ->
  (is_some (PayerSession.email_verified_at s) = true -> email_proof sid db) /\
  (is_some (PayerSession.merchant_session_verified_at s) = true -> secret_proof sid (PayerSession.invoice_id s) db).

(** Every fact of a payer's session has its record. *)
Definition grounded (db : Db.t) : Prop := map_Forall (grounded_session db) (Db.payer_sessions db).

(** What a write does to the records of one session. *)
Definition proofs_kept (sid : Uuid) (db db' : Db.t) : Prop :=
  (email_proof sid db -> email_proof sid db') /\ (forall i, secret_proof sid i db -> secret_proof sid i db').

Lemma grounded_kept db db' :
  (forall sid s', Db.payer_sessions db' !! sid = Some s' ->
     proofs_kept sid db db' /\ (grounded_session db' sid s' \/
       exists s, Db.payer_sessions db !! sid = Some s /\ PayerSession.purpose s = PayerSession.purpose s' /\
         PayerSession.invoice_id s = PayerSession.invoice_id s' /\
         PayerSession.email_verified_at s = PayerSession.email_verified_at s' /\
         PayerSession.merchant_session_verified_at s = PayerSession.merchant_session_verified_at s')) ->
  grounded db -> grounded db'.
Proof.
  intros H Hg sid s' Hs'. destruct (H sid s' Hs') as [[K1 K2] [Hnew|(s & Hs & E1 & E2 & E3 & E4)]]; [done|].
  intros Hp. rewrite <- E1 in Hp. destruct (Hg sid s Hs Hp) as [G1 G2].
  rewrite <- E2, <- E3, <- E4. split; [intros; by apply K1, G1|intros; by apply K2, G2].
Qed.

Lemma proofs_same sid db db' : Db.payer_verifications db' = Db.payer_verifications db ->
  Db.payer_client_secrets db' = Db.payer_client_secrets db -> proofs_kept sid db db'.
Proof. intros E1 E2. unfold proofs_kept, email_proof, secret_proof. by rewrite E1, E2. Qed.

(** An attempt under a fresh id. *)
Lemma proofs_attempt sid db db' aid a : Db.payer_verifications db !! aid = None ->
  Db.payer_verifications db' = <[aid := a]> (Db.payer_verifications db) ->
  Db.payer_client_secrets db' = Db.payer_client_secrets db -> proofs_kept sid db db'.
Proof.
  intros Hn E1 E2. unfold proofs_kept, email_proof, secret_proof. rewrite E1, E2. split; [|done].
  intros (i & x & Hx & ?). exists i, x. split; [|done]. rewrite lookup_insert_ne by congruence. done.
Qed.

Lemma insert_session_spec id s db db' : insert_session id s db = Ok db' ->
  Db.payer_sessions db !! id = None /\ db' = set_sessions (<[id := s]> (Db.payer_sessions db)) db.
Proof.
  unfold insert_session. intros H. destruct (Db.payer_sessions db !! id) eqn:E; [done|]. cbn in H. repeat case_match; by inv_ok.
Qed.

(** Sessions added or rewritten, records untouched. *)
Lemma grounded_insert id s db : (grounded_session db id s \/
    exists s0, Db.payer_sessions db !! id = Some s0 /\ PayerSession.purpose s0 = PayerSession.purpose s /\
      PayerSession.invoice_id s0 = PayerSession.invoice_id s /\ PayerSession.email_verified_at s0 = PayerSession.email_verified_at s /\
      PayerSession.merchant_session_verified_at s0 = PayerSession.merchant_session_verified_at s) ->
  grounded db -> grounded (set_sessions (<[id := s]> (Db.payer_sessions db)) db).
Proof.
  intros Hs. apply grounded_kept. intros sid s' Hs'. cbn in Hs'. split; [by apply proofs_same|].
  apply lookup_insert_Some in Hs' as [[<- <-]|[Hne Hs']]; [exact Hs|].
  right. exists s'. by split_and!.
Qed.

Lemma complete_payers invoice t s w now db : payers (snd (complete_invoice invoice t s w now db)) = payers db.
Proof. unfold complete_invoice. by repeat case_match. Qed.

Lemma grounded_payers db db' : payers db' = payers db -> grounded db -> grounded db'.
Proof.
  intros [= E1 E2 E3]. apply grounded_kept. intros sid s'. rewrite E1. intros Hs. split; [by apply proofs_same|]. right.
  exists s'. by split_and!.
Qed.

Lemma delete_grounded session db : grounded db -> grounded (delete_session session db).
Proof.
  apply grounded_kept. intros sid s' Hs'. cbn in Hs'. apply lookup_delete_Some in Hs' as [Hne Hs']. split; [|right; exists s'; by split_and!]. split.
  - intros (aid & a & Ha & <- & Hk). exists aid, a. split; [|done]. apply map_lookup_filter_Some. by split.
  - intros i (cid & c & Hc & Hu & Hs & Hi). exists cid, c. split; [|done]. cbn. rewrite lookup_update_where, Hc. cbn.
    by rewrite bool_decide_false by congruence.
Qed.

Lemma abandon_proofs sid session db : proofs_kept sid db (abandon_email_verification session db).
Proof.
  split; [|done]. intros (aid & a & Ha & Hs & Hk & Hst). exists aid, a. split; [|done]. cbn. rewrite lookup_update_where, Ha. cbn.
  unfold is_pending_email. by rewrite Hst, (bool_decide_false (VsApproved = VsPending)), andb_false_r.
Qed.

Lemma kept_grounded db db' : Db.payer_sessions db' = Db.payer_sessions db -> (forall sid, proofs_kept sid db db') ->
  grounded db -> grounded db'.
Proof. intros E H. apply grounded_kept. intros sid s'. rewrite E. intros Hs. split; [done|]. right. exists s'. by split_and!. Qed.

Lemma begin_grounded session attempt cooldown utc now db t db' :
  begin_email_verification session attempt cooldown utc now db = Ok (t, db') -> grounded db -> grounded db'.
Proof.
  unfold begin_email_verification. intros H. destruct (Db.payer_sessions db !! session) as [s|]; [|done].
  destruct (Db.invoices db !! _) as [row|]; [|done]. destruct (match latest_code _ _ with Some _ => _ | None => _ end); [done|].
  cbv zeta in H. destruct (Db.payer_verifications (abandon_email_verification session db) !! attempt) eqn:Ha; [done|]. cbn [is_some] in H. injection H as <- <-.
  intros Hg. apply (kept_grounded (abandon_email_verification session db)); [done|intros sid; by eapply proofs_attempt|].
  apply (kept_grounded db); [done|intros sid; apply abandon_proofs|done].
Qed.

Lemma approve_grounded session ref verified event now db c db' :
  approve_email session ref verified event now db = Ok (c, db') -> grounded db -> grounded db'.
Proof.
  unfold approve_email. intros H Hg. destruct (approved_before _ _) as [[i a]|].
  { apply rbind_ok in H as (s & _ & H). apply rbind_ok in H as (row & _ & H). by inv_ok. }
  destruct (negb _) eqn:Hc; [done|]. apply negb_false_iff, Z.eqb_eq in Hc. apply rbind_ok in H as (s & Hs & H).
  destruct (_ <=? _); [done|].
  match type of H with (let '(_, _) := ?x in _) = _ => destruct x as [done_ db3] eqn:Hx end. inv_ok.
  pose proof (complete_payers (PayerSession.invoice_id (proves_email ref verified s)) verified (Some (proves_email ref verified s))
    (wants_email (Some (proves_email ref verified s))) now) as Hp. eapply grounded_payers; [change db' with (snd (done_, db')); rewrite <- Hx; apply Hp|].
  clear Hx Hp. set (m := update_where _ _ _).
  assert (forall sid, proofs_kept sid db (set_attempts m db)) as Hk.
  { intros sid. split; [|done]. intros (aid & a & Ha & Hs' & Hkind & Hst). exists aid, a. split; [|done]. cbn. unfold m.
    rewrite lookup_update_where, Ha. cbn. unfold is_pending_email. by rewrite Hst, (bool_decide_false (VsApproved = VsPending)), andb_false_r. }
  cbn in Hs.
  assert (email_proof session (set_attempts m db)) as He.
  { destruct (decide (map_Exists (fun _ v => is_pending_email session v = true) (Db.payer_verifications db))) as [(k & v & Hv & Hpend)|Hno].
    - exists k, (approved verified ref event v). cbn. unfold m. rewrite lookup_update_where, Hv. cbn. rewrite Hpend. split; [done|].
      unfold is_pending_email in Hpend. bools. by split_and!.
    - exfalso. assert (row_count (is_pending_email session) (Db.payer_verifications db) = 0) as E; [|lia]. apply row_count_zero.
      intros k v Hv. apply not_true_iff_false. intros Ht. apply Hno. by exists k, v. }
  apply (grounded_insert session (proves_email ref verified s) (set_attempts m db)).
  - left. intros Hpur. split; [done|]. cbn. intros Hm. destruct (Hg session s Hs Hpur) as [_ G2]. by apply Hk, G2.
  - by eapply kept_grounded; [..|exact Hg].
Qed.

Lemma secret_grounded hash id token invoice account ttl now db r db' :
  create_client_secret hash id token invoice account ttl now db = Ok (r, db') -> grounded db -> grounded db'.
Proof.
  unfold create_client_secret. intros H. destruct (Db.payer_client_secrets db !! id) eqn:E; [done|]. cbn in H. repeat case_match; inv_ok.
  apply kept_grounded; [done|]. intros sid. split; [done|]. intros i (cid & c & Hc & ?). exists cid, c. split; [|done]. cbn.
  by rewrite lookup_insert_ne by congruence.
Qed.

Lemma exchange_grounded_facts hash secret invoice ttl token session attempt utc now db r db' :
  exchange_client_secret hash secret invoice ttl token session attempt utc now db = Ok (r, db') -> grounded db -> grounded db'.
Proof.
  unfold exchange_client_secret. intros H Hg. destruct (find_secret hash secret invoice db) as [[id c]|] eqn:Hf; [|done].
  apply find_secret_spec in Hf as (Hc & _ & Hi). destruct (ClientSecret.used_at c) eqn:Hu; [done|]. cbn in H. destruct (_ <=? _); [done|].
  apply rbind_ok in H as (db1 & Hins & H). unfold exchange_db in Hins. destruct (insert_session _ _ db) as [d1|] eqn:Hs; [|done]. inv_ok.
  apply insert_session_spec in Hs as [Hfresh ->]. destruct (_ <? _); [done|].
  destruct (Db.payer_verifications db !! attempt) eqn:Ha; cbn in H; rewrite Ha in H; [done|]. cbn in H.
  match type of H with (let '(_, _) := ?x in _) = _ => destruct x as [done_ db4] eqn:Hx end. inv_ok.
  eapply grounded_payers; [change db' with (snd (done_, db')); rewrite <- Hx; apply complete_payers|]. clear Hx.
  apply (grounded_kept db); [|exact Hg]. intros sid s'. cbn. intros Hs'. split; [split|].
  - intros (aid & a & Hat & Hrest). exists aid, a. split; [|done]. cbn. by rewrite lookup_insert_ne by congruence.
  - intros i (cid & x & Hx & Hux & Hrest). exists cid, x. split; [|done]. cbn. rewrite lookup_insert_ne; [done|].
    intros <-. assert (x = c) as -> by congruence. by rewrite Hu in Hux.
  - apply lookup_insert_Some in Hs' as [[<- <-]|[Hne Hs']]; [|right; exists s'; by split_and!]. left. intros _. split; [done|]. intros _.
    exists id, (spent utc session c). cbn. by rewrite lookup_insert_eq.
Qed.

Lemma verification_grounded db db' : verification_step db db' -> grounded db -> grounded db'.
Proof.
  intros [hash id token invoice ttl now r d H|hash id token invoice ttl now r d H|session nonce chain ttl now r d H|session|session
    |session attempt cooldown utc now r d H|session ref verified event now r d H|hash id token invoice account ttl now r d H
    |hash secret invoice ttl token session attempt utc now r d H] Hg.
  - unfold create in H. inv_ok. match goal with H : insert_session _ _ _ = _ |- _ => apply insert_session_spec in H as [_ ->] end.
    apply grounded_insert; [by left; intros _|done].
  - unfold create_merchant_preview in H. inv_ok. match goal with H : insert_session _ _ _ = _ |- _ => apply insert_session_spec in H as [_ ->] end.
    apply grounded_insert; [by left; intros [=]|done].
  - unfold issue_wallet_challenge in H. destruct (Db.payer_sessions db !! session) as [s|] eqn:Hs; [|done]. case_match; inv_ok.
    apply grounded_insert; [right; exists s; by split_and!|done].
  - by apply delete_grounded.
  - by eapply kept_grounded; [|intros sid; apply abandon_proofs|].
  - by eapply begin_grounded.
  - by eapply approve_grounded.
  - by eapply secret_grounded.
  - by eapply exchange_grounded_facts.
Qed.

Lemma bind_wallet_grounded id session attempt b utc now db r db' :
  bind_payer_wallet id session attempt b utc now db = Ok (r, db') -> grounded db -> grounded db'.
Proof.
  unfold bind_payer_wallet. intros H Hg. apply rbind_ok in H as (row & _ & H). destruct (is_some _); [by inv_ok|].
  destruct (_ || _); [by inv_ok|]. apply rbind_ok in H as (wallet & _ & H). cbv zeta in H. apply rbind_ok in H as (db1 & Hst & H).
  assert (payers db1 = payers db) as E by (unfold store_invoice in Hst; repeat case_match; by inv_ok).
  pose proof (grounded_payers _ _ E Hg) as Hg1. clear Hg E Hst. destruct (Db.payer_sessions db1 !! session) as [s|] eqn:Hs; [|done]. cbn in H.
  destruct (Db.payer_verifications db1 !! attempt) eqn:Ha; [done|]. cbn in H. injection H as <- <-.
  apply (grounded_kept db1); [|exact Hg1]. intros sid s'. cbn. intros Hs'. split; [by eapply proofs_attempt|]. right.
  destruct (decide (sid = session)) as [->|Hne].
  - rewrite lookup_alter_eq, Hs in Hs'. cbn in Hs'. injection Hs' as <-. exists s. by split_and!.
  - rewrite lookup_alter_ne in Hs' by done. exists s'. by split_and!.
Qed.

Section Runs.
Context (payload_hash : Message -> B256) (parse_address_ : string -> option Address) (hex : bytes -> string).
#[local] Abbreviation step := (ledger_step payload_hash parse_address_ hex).

Lemma issue_payers input a utc now db r db' : insert_issued hex input a utc now db = Ok (r, db') -> payers db' = payers db.
Proof.
  unfold insert_issued. intros H. repeat case_match; inv_ok; try done. all: repeat case_match; inv_ok; try discriminate; try done.
  all: match goal with H : Attachment.attach_in_transaction _ _ _ _ _ = _ |- _ =>
    apply Attachment.attach_update in H; unfold Attachment.update_upload in H; repeat case_match; by inv_ok end.
Qed.

Lemma bind_network_payers id b utc now db r db' : bind_network id b utc now db = Ok (r, db') -> payers db' = payers db.
Proof. unfold bind_network, store_invoice. intros H. inv_ok. repeat case_match; inv_ok; try done. all: repeat case_match; by inv_ok. Qed.

Lemma step_grounded db db' : step db db' -> grounded db -> grounded db'.
Proof.
  intros []; try (by eapply bind_wallet_grounded); try (by apply verification_grounded); apply grounded_payers; try done.
  - by eapply issue_payers.
  - by eapply bind_network_payers.
  - unfold request_cancellation. by repeat case_match.
  - unfold release_attention in *. repeat case_match; by inv_ok.
  - by eapply range_payers.
  - by eapply schedule_payers.
  - apply flag_payers.
  - by eapply finalized_payers.
  - by eapply close_payers.
  - by eapply close_payers.
  - by apply relay_payers.
Qed.

(** A session that is found by its token is one of the request's, alive. *)
Lemma find_active_spec hash token invoice now db sid s : find_active hash token invoice now db = Some (sid, s) ->
  Db.payer_sessions db !! sid = Some s /\ PayerSession.token_hash s = hash token /\ PayerSession.invoice_id s = invoice /\
  now < PayerSession.expires_at s.
Proof.
  unfold find_active. intros [Hin Hp]%find_some. rewrite <- list_elem_of_In, elem_of_map_to_list in Hin. unfold is_active in Hp. bools.
  by split_and!.
Qed.

Context `{P : Primitives} `{U : UuidText} `{N : Units} `{D : Dates} `{K : PayerKeys} (g : Gateway.t) (n0 : nat) (db0 : Db.t).

(** The handler began at step [n0] with [db0]: its first statement reads the
    request from [row_state], and its second reads the session from
    [session_state], each after the other users of the database had their turn. *)
Definition row_state : Db.t := Gateway.others g n0 db0.
Definition session_state : Db.t := Gateway.others g (S n0) row_state.

(** Someone who may see the content of a gated request: the bearer of a session
    of this request, alive when it was read, that its own merchant opened or
    that proved each thing the request asks for. *)
Definition admitted (id : Uuid) (v : PayerVerification.t) (token : option string) : Prop :=
  exists t sid s, token = Some t /\ Db.payer_sessions session_state !! sid = Some s /\
    PayerSession.token_hash s = Gateway.token_hash g t /\ PayerSession.invoice_id s = id /\
    Gateway.database_now g (S n0) < PayerSession.expires_at s /\
    (PayerSession.purpose s = MerchantPreview \/
     (is_some (PayerVerification.email v) = true -> email_proof sid session_state) /\
     (is_some (PayerVerification.merchant_auth v) = true -> secret_proof sid id session_state)).

(** The request that the path names, as its row showed it. *)
Definition of_path (id : string) (i : Invoice.t) : Prop :=
  exists uuid row, deposit_request_id id = Some uuid /\ Db.invoices row_state !! uuid = Some row /\
    invoice_try_from parse_address row = Ok i.

(** What [authorized_invoice] answers. *)
Definition access_sound (id : string) (token : option string) (a : PayerInvoiceAccess.t) : Prop :=
  let v := Snapshot.payer_verification (Invoice.issuance_snapshot (PayerInvoiceAccess.invoice a)) in
  of_path id (PayerInvoiceAccess.invoice a) /\
  (PayerInvoiceAccess.content_unlocked a = true -> is_gated v = true -> admitted (Invoice.id (PayerInvoiceAccess.invoice a)) v token).

Lemma decoded_id row i : invoice_try_from parse_address row = Ok i -> Invoice.id i = DbInvoice.id row.
Proof.
  unfold invoice_try_from. intros H. repeat (apply rbind_ok in H as (? & _ & H)). by injection H as <-.
Qed.

(** A read that is answered, and what it leaves behind. *)
Lemma fetch_ok {A} (f : nat -> Db.t -> result DbError A) db n a w :
  fetch (Gateway.others g) f (World.mk db n) = (Ok a, w) ->
  f n (Gateway.others g n db) = Ok a /\ w = World.mk (Gateway.others g n db) (S n).
Proof. unfold fetch, query, transact, db_result. cbn. destruct (f _ _); [|done]. by intros [= -> <-]. Qed.

Context {Others : Interference (Gateway.others g) step grounded db0}.

Lemma session_grounded : grounded session_state.
Proof.
  eapply (steps_ok (ok := grounded) (Gateway.others g)); [|exact ok_before].
  etrans; apply (others_run (Interference := Others)).
Qed.

Lemma satisfied_admitted t sid s v : find_active (Gateway.token_hash g) t (PayerSession.invoice_id s)
    (Gateway.database_now g (S n0)) session_state = Some (sid, s) -> satisfies s v = true ->
  admitted (PayerSession.invoice_id s) v (Some t).
Proof.
  intros (Hs & Hh & _ & He)%find_active_spec Hv. exists t, sid, s. split_and!; try done.
  destruct (PayerSession.purpose s) eqn:Hp; [right|by left]. destruct (session_grounded sid s Hs Hp) as [G1 G2].
  unfold satisfies, VerificationFacts.satisfy, facts in Hv. cbn in Hv. bools.
  split; intros Hw; rewrite Hw in *; cbn in *; by auto.
Qed.

(** The row behind the path, and what it decodes to. *)
Lemma invoice_row_ok uuid row w : invoice_row g uuid (World.mk db0 n0) = (Ok row, w) ->
  Db.invoices row_state !! uuid = Some row /\ w = World.mk row_state (S n0).
Proof.
  unfold invoice_row. intros (o & w1 & [[= Ho] ->]%fetch_ok & H)%bind_ok. unfold refuse_unless, lift in H.
  injection H as Hr%ok_or_ok <-. subst o. by split.
Qed.

Lemma authorized_sound id token a w : authorized_invoice g id token (World.mk db0 n0) = (Ok a, w) -> access_sound id token a.
Proof.
  unfold authorized_invoice, parse_invoice_id. intros (uuid & w1 & Hid & H)%bind_ok. unfold refuse_unless, lift in Hid.
  injection Hid as Hid%ok_or_ok <-. apply bind_ok in H as (row & w2 & [Hrow ->]%invoice_row_ok & H).
  apply bind_ok in H as (settlement & w3 & [= _ <-] & H). apply bind_ok in H as (i & w4 & Hi & H). unfold decode, lift in Hi.
  assert (invoice_try_from parse_address row = Ok i) as Hd by (by destruct (invoice_try_from _ row); [injection Hi as -> _|]).
  injection Hi as _ <-. cbv zeta in H. apply bind_ok in H as (session & w5 & Hs & H).
  apply bind_ok in H as (attachment & w6 & _ & H). apply bind_ok in H as (intent & w7 & _ & [= <- _]).
  split; cbn; [by exists uuid, row|]. intros Hu Hg. rewrite Hg in Hs, Hu. cbn in Hu. destruct session as [[sid s]|]; [|done].
  destruct token as [t|]; [|done]. apply fetch_ok in Hs as [[= Ho] _]. rewrite (decoded_id _ _ Hd).
  destruct (find_active_spec _ _ _ _ _ _ _ Ho) as (_ & _ & E & _). rewrite <- E in Ho |- *. by eapply satisfied_admitted.
Qed.

End Runs.

(** C8. The content of a gated request is shown only to a bearer who may
    see it.  Whatever the other users of the database commit in the meantime,
    when the payer's page or its payment code is answered, the request is the one
    the path names, as its row stood when the handler read it; and if it is
    answered with the content unlocked, the token that came with the request is that
    of a session of this very request that the database held when the handler
    looked for it and that had not ended then, and either the merchant opened it as
    a preview of their own, or the database then held an approved email attempt of
    that session if the request asks for a mailbox and a spent client secret of
    this request, spent for that session, if it asks for the merchant's word.  The
    payment code is always such content. *)
Theorem content_only_for_the_verified (payload_hash : Message -> B256) (parse_address_ : string -> option Address)
    (hex : bytes -> string) `{P : Primitives} `{U : UuidText} `{N : Units} `{D : Dates} `{K : PayerKeys} (g : Gateway.t)
    db0 n id header :
  Interference (Gateway.others g) (ledger_step payload_hash parse_address_ hex) grounded db0 ->
  (forall r w', payer_get g id header (World.mk db0 n) = (Ok r, w') ->
     exists a now, r = payer_response g now a /\ access_sound g n db0 id (session_token header) a) /\
  (forall uri w', payer_qr g id header (World.mk db0 n) = (Ok uri, w') ->
     exists i b, of_path g n db0 id i /\
       (let v := Snapshot.payer_verification (Invoice.issuance_snapshot i) in
        is_gated v = true -> admitted g n db0 (Invoice.id i) v (session_token header)) /\
       Invoice.binding i = Some b /\ uri = deposit_uri b (remaining_units i)).
Proof.
  intros HI. pose proof (authorized_sound payload_hash parse_address_ hex g n db0 id (session_token header)) as T. split.
  - intros r w' (a & w1 & Ha & Hr)%bind_ok. apply T in Ha. unfold respond in Hr.
    apply bind_ok in Hr as (t & w2 & [= <- <-] & [= <- <-]). by eexists a, _.
  - intros uri w' (a & w1 & Ha & Hr)%bind_ok. apply T in Ha as [Hp Ha].
    apply bind_ok in Hr as ([] & w2 & Hg & Hr). unfold guarded, lift in Hg.
    destruct (PayerInvoiceAccess.content_unlocked a) eqn:Hu; [|done]. injection Hg as <-.
    apply bind_ok in Hr as (b & w3 & Hb & Hr). unfold refuse_unless, lift in Hb. injection Hb as Hb%ok_or_ok <-.
    apply bind_ok in Hr as (t & w4 & [= <- <-] & Hr). unfold payment_state in Hr. apply bind_ok in Hr as ([] & w5 & _ & [= <- _]).
    exists (PayerInvoiceAccess.invoice a), b. split_and!; [done|exact (Ha eq_refl)|done..].
Qed.

Module PayerExample.
Import GatewayExample Toy IdExample IdentityExample AmountExample.

(** A request payable on two networks that is opened by the merchant's app. *)
Definition policy : PayerVerification.t := PayerVerification.mk None (Some "cust-1") false.
Definition document : Snapshot.t := {| snapshot with Snapshot.payer_verification := policy |}.
Definition gated_input : CreateInvoiceInput.t := {| input with
  CreateInvoiceInput.payer_verification := policy; CreateInvoiceInput.issuance_snapshot := document |}.
Definition base : Db.t := {| Db.empty with Db.accounts := {[ 7 := Some "merchant@example.com" ]} |}.
Definition issued : Db.t := Eval vm_compute in state_of (insert_issued text gated_input None 1000000 1000000 base).
Definition server := gateway 2000000.
Definition request_id : string := invoice_id_string 1.
Definition secret : string := "cs_" +:+ "0123456789012345678901234567890123456789012".
Definition with_secret : Db.t := Eval vm_compute in
  match create_client_secret token_hash 60 "0123456789012345678901234567890123456789012" 1 7 CLIENT_SECRET_TTL 1500000 issued with
  | Ok (_, _, db) => db | Err _ => issued end.
Definition opened := exchange_secret server request_id secret (World.mk with_secret 3).
Definition session : string := match fst opened with Ok (token, _, _) => token | Err _ => "" end.
Definition unlocked (r : result ApiError.t PayerDepositRequestResponse.t) : bool :=
  match r with Ok r => PayerDepositRequestResponse.content_unlocked r | Err _ => false end.

Lemma opened_grounded : grounded (World.db (snd opened)).
Proof.
  assert (Db.payer_sessions with_secret = ∅) as E by reflexivity.
  assert (grounded with_secret) as H by (unfold grounded; rewrite E; apply map_Forall_empty).
  refine (exchange_grounded_facts token_hash secret 1 PAYER_SESSION_TTL "token-5" 1050 1051 2000000 2000000 with_secret _ _ _ H).
  vm_compute. reflexivity.
Qed.

Lemma content_only_for_the_verified_witness :
  unlocked (fst (payer_get server request_id None (snd opened))) = false /\
  unlocked (fst (payer_get server request_id (Some session) (snd opened))) = true /\
  exists a now, fst (payer_get server request_id (Some session) (snd opened)) = Ok (payer_response server now a) /\
    access_sound server (World.tick (snd opened)) (World.db (snd opened)) request_id (session_token (Some session)) a.
Proof.
  split; [vm_compute; reflexivity|]. split; [vm_compute; reflexivity|].
  destruct (content_only_for_the_verified hash parse_address text server (World.db (snd opened)) (World.tick (snd opened))
    request_id (Some session)) as [H _].
  { apply alone; [apply step_grounded|apply opened_grounded]. }
  destruct (payer_get server request_id (Some session) (World.mk (World.db (snd opened)) (World.tick (snd opened)))) as [[r|e] w'] eqn:E;
    [|vm_compute in E; discriminate].
  destruct (H r w' eq_refl) as (a & now & -> & Hs). exists a, now. split; [|exact Hs].
  change (snd opened) with (World.mk (World.db (snd opened)) (World.tick (snd opened))). by rewrite E.
Defined.

(** Two locked requests of one issuer, one dear and one cheap. *)
Definition access_of (amount : Z) (notes : option string) : PayerInvoiceAccess.t :=
  PayerInvoiceAccess.mk {| invoice with Invoice.amount := amount;
      Invoice.issuance_snapshot := {| document with Snapshot.notes := notes |} |}
    None (VerificationRequirementsResponse.for_verification policy false false) false None None.

Lemma locked_view_reveals_nothing_witness :
  payer_response server 5 (access_of 100 (Some "secret")) = payer_response server 5 (access_of 7000 None) /\
  payer_response server 5 {| (access_of 100 None) with PayerInvoiceAccess.content_unlocked := true |} <>
  payer_response server 5 {| (access_of 7000 None) with PayerInvoiceAccess.content_unlocked := true |}.
Proof.
  split; [by apply (locked_view_reveals_nothing server 5 (access_of 100 (Some "secret")) (access_of 7000 None))|].
  intros E%(f_equal PayerDepositRequestResponse.amount_base_units). vm_compute in E. discriminate.
Defined.
End PayerExample.
