(* ===== verification/RelayApi.v ===== *)
(** * gum-server: paying from another chain

    Models [crates/gum-server/src/api/relay.rs], the routes by which a payer asks
    for a quote of Relay's and reports the transaction it sent, and the cached
    chain list of [RelayService] in [crates/gum-server/src/state.rs].  The amount,
    the recipient and the token that arrives are the request's own
    ([quote_pins_the_payment]), whatever the page asks for.

    Relay is [RelayService.t]: what the chain list and a quote are answered with, by
    step. *)

From Stdlib Require Import Ascii String.
From stdpp Require Import sorting pretty strings.
From S2P Require Import Prelude Text Core Contracts Ids Bus Tables Registry Attachments Invoices Attribution Range Sweeps.
From S2P Require Import RelayIntents Verifications LedgerExample LedgerInv LedgerRuns VerificationTheorems.
From S2P Require Import ProofExample Amounts Responses ApiError Effects Api Relay PayerIdentity PayerApi PayerTheorems.

(** ** The chain list *)

(** nanoseconds *)
Definition RELAY_CHAINS_TTL : Z := 3600 * 10 ^ 9.

(** [RelayService::chains], at [now], with what Relay answers if it is asked and
    the instant after that. *)
Definition service_chains (now : Z) (answer : result RelayError (list RelayChain.t)) (after : Z)
    (cached : option (Z * list RelayChain.t))
  : result RelayError (list RelayChain.t) * option (Z * list RelayChain.t) :=
  match cached with
  | Some (read_at, chains) =>
      if Z.max 0 (now - read_at) <? RELAY_CHAINS_TTL then (Ok chains, cached)
      else match answer with
           | Ok chains' => (Ok chains', Some (after, chains'))
           | Err _ => (Ok chains, cached)
           end
  | None => match answer with
            | Ok chains => (Ok chains, Some (after, chains))
            | Err e => (Err e, None)
            end
  end.

(** Everything Relay answered so far, and the cache. *)
Inductive chain_list_run : list (list RelayChain.t) -> option (Z * list RelayChain.t) -> Prop :=
| chain_list_start : chain_list_run [] None
| chain_list_call given now answer after cached r cached' :
    chain_list_run given cached -> service_chains now answer after cached = (r, cached') ->
    chain_list_run (match answer with Ok l => l :: given | Err _ => given end) cached'.

(** The list is always one of Relay's, and once there is one the routes keep it. *)
Lemma chain_list_from_relay given cached now answer after r cached' :
  chain_list_run given cached -> service_chains now answer after cached = (r, cached') ->
  match r with
  | Ok l => In l given \/ answer = Ok l
  | Err e => cached = None /\ answer = Err e
  end /\ (is_some cached = true -> is_some cached' = true).
Proof.
  intros Hr. assert (forall t l, cached = Some (t, l) -> In l given) as Hin.
  { clear -Hr. induction Hr as [|given now answer after cached r cached' _ IH Hs]; [done|]. intros t l ->.
    unfold service_chains in Hs. destruct cached as [[t0 l0]|].
    - specialize (IH _ _ eq_refl). destruct (_ <? _); [injection Hs as <- <- <-; destruct answer; [by right|done]|].
      destruct answer; injection Hs as <- <- <-; [by left|done].
    - destruct answer; [injection Hs as <- <- <-; by left|done]. }
  unfold service_chains. destruct cached as [[t0 l0]|].
  - specialize (Hin _ _ eq_refl). destruct (_ <? _); [intros [= <- <-]; by split; [left|]|].
    destruct answer; intros [= <- <-]; by split; [auto|].
  - destruct answer; intros [= <- <-]; by split; [auto|].
Qed.

Module RelayService.
Record t := mk {
  chains : nat -> result RelayError (list RelayChain.t);
  quote : nat -> QuoteRequest.t -> result RelayError Quote.t;
}.
End RelayService.

(** ** Documents *)

Module QuoteBody.
Record t := mk { origin_chain_id : string; origin_token : option string; payer_wallet : string }.
End QuoteBody.

Module RelayOriginTokenDto.
Record t := mk { currency : string; symbol : string; address : string; decimals : Z }.
End RelayOriginTokenDto.

Module RelayOriginChainDto.
Record t := mk {
  chain_id : string;
  name : string;
  native_symbol : option string;
  tokens : list RelayOriginTokenDto.t;
  explorer_url : option string;
  icon_url : option string;
  rpc_url : option string;
}.
End RelayOriginChainDto.

Module RelayTransactionDto.
Record t := mk { chain_id : string; to : string; data : string; value : string; gas : option string }.
End RelayTransactionDto.

Module RelayQuoteStepDto.
Record t := mk { id : string; transaction : RelayTransactionDto.t }.
End RelayQuoteStepDto.

Module RelayQuoteResponse.
Record t := mk {
  id : string;
  request_id : string;
  origin : RelayOriginChainDto.t;
  origin_token : RelayOriginTokenDto.t;
  amount_in : string;
  amount_in_base_units : string;
  amount_out : string;
  amount_out_base_units : string;
  relayer_fee_usd : option string;
  time_estimate_seconds : Z;
  expires_at : string;
  steps : list RelayQuoteStepDto.t;
}.
End RelayQuoteResponse.

(** ** The routes *)

(** microseconds *)
Definition QUOTE_VALIDITY : Z := 15 * 60 * 10 ^ 6.

Definition relay_error (e : RelayError) : ApiError.t :=
  match e with
  | RelayHttpStatus _ _ message => ApiError.relay_quote_failed ("Relay could not quote this payment: " +:+ message)
  | RelayTransport _ | RelayMalformed _ => ApiError.relay_quote_failed "Relay is not answering; try again shortly"
  end.

(** [map_err(relay_error)]. *)
Definition relayed {A} (r : result RelayError A) : result ApiError.t A :=
  match r with Ok a => Ok a | Err e => Err (relay_error e) end.

Lemma relayed_ok {A} (r : result RelayError A) a : relayed r = Ok a -> r = Ok a.
Proof. destruct r; cbn; [by intros [= ->]|done]. Qed.

Section Relay.
Context `{P : Primitives} `{U : UuidText} `{N : Units} `{D : Dates} `{K : PayerKeys} (g : Gateway.t) (relay : option RelayService.t).

Definition payer_wallet_value (value : string) : result ApiError.t Address :=
  let! wallet := ok_or (parse_address (trim value)) (ApiError.invalid_request "payer_wallet must be a 20-byte EVM address") in
  if is_zero_address wallet then Err (ApiError.invalid_request "payer_wallet must not be the zero address") else Ok wallet.

(** The request, unlocked and bound, with its binding. *)
Definition unlocked_bound (id : string) (header : option string) : api (Invoice.t * PaymentBinding.t) :=
  let* access := authorized_invoice g id (session_token header) in
  let* _ := guarded (negb (PayerInvoiceAccess.content_unlocked access)) ApiError.verification_required in
  let* binding := refuse_unless (Invoice.binding (PayerInvoiceAccess.invoice access)) ApiError.wallet_required in
  ret (PayerInvoiceAccess.invoice access, binding).

Definition payable (id : string) (header : option string) : api (Invoice.t * PaymentBinding.t * Z) :=
  let* '(invoice, binding) := unlocked_bound id header in
  let* utc := outside (Gateway.utc_now g) in
  let '(remaining, is_payable) := payment_state invoice (unix_seconds utc) in
  let* _ := guarded (negb is_payable || (remaining =? 0)) ApiError.deposit_request_not_payable in
  ret (invoice, binding, remaining).

(** A currency of this build that Relay takes on the chain, at the registry's
    address where it has one. *)
Definition offered_token (registry : ChainRegistry.t) (chain : RelayChain.t) (currency : Currency)
  : option (Currency * RelayCurrency.t) :=
  listed ← RelayChain.currency (Currency.code currency) chain;
  match ChainRegistry.token registry (RelayChain.id chain) currency with
  | Some ours => if bool_decide (TokenConfig.address ours = RelayCurrency.address listed) then Some (currency, listed) else None
  | None => Some (currency, listed)
  end.

Definition origin_tokens (registry : ChainRegistry.t) (chain : RelayChain.t) : list (Currency * RelayCurrency.t) :=
  omap (offered_token registry chain) Currency.ALL.

Definition origin_token_dto (t : Currency * RelayCurrency.t) : RelayOriginTokenDto.t :=
  RelayOriginTokenDto.mk (Currency.code (fst t)) (RelayCurrency.symbol (snd t)) (to_checksum (RelayCurrency.address (snd t)))
    (RelayCurrency.decimals (snd t)).

Definition origin_dto (registry : ChainRegistry.t) (chain : RelayChain.t) : option RelayOriginChainDto.t :=
  _ ← ChainRegistry.get registry (RelayChain.id chain);
  match origin_tokens registry chain with
  | [] => None
  | tokens => Some (RelayOriginChainDto.mk (pretty (RelayChain.id chain)) (RelayChain.display_name chain)
                      (RelayChain.native_symbol chain) (origin_token_dto <$> tokens) (RelayChain.explorer_url chain)
                      (RelayChain.icon_url chain) (RelayChain.http_rpc_url chain))
  end.

(** [GET /chains]. *)
Definition relay_chains (id : string) (header : option string) : api (list RelayOriginChainDto.t) :=
  let* relay := refuse_unless relay ApiError.relay_unavailable in
  let* '(_, binding) := unlocked_bound id header in
  let destination := NetworkTerms.chain_id (PaymentBinding.network binding) in
  let* chains := ask (fun n => relayed (RelayService.chains relay n)) in
  ret (omap (origin_dto (Gateway.networks g)) (List.filter (fun c => negb (RelayChain.id c =? destination)) chains)).

(** The token the payer sends: the one asked for, or the chain's USDC. *)
Definition chosen_token (offered : list (Currency * RelayCurrency.t)) (wanted : option string)
  : result ApiError.t (Currency * RelayCurrency.t) :=
  let usdc := ok_or (List.find (fun t => bool_decide (fst t = Usdc)) offered) ApiError.relay_unsupported_origin in
  match trim <$> wanted with
  | None => usdc
  | Some text =>
      if String.eqb text "" then usdc
      else
        let! wanted := ok_or (parse_address text) (ApiError.invalid_request "origin_token must be an address") in
        ok_or (List.find (fun t => bool_decide (RelayCurrency.address (snd t) = wanted)) offered) ApiError.relay_unsupported_origin
  end.

Definition step_dto (origin_chain_id : Z) (step : QuoteStep.t) (t : StepTransaction.t) : result ApiError.t RelayQuoteStepDto.t :=
  if negb (StepTransaction.chain_id t =? origin_chain_id)
  then Err (ApiError.relay_quote_failed "Relay's route leaves the chosen origin chain")
  else Ok (RelayQuoteStepDto.mk (QuoteStep.id step)
             (RelayTransactionDto.mk (pretty (StepTransaction.chain_id t)) (to_checksum (StepTransaction.to t))
                (hex_encode_prefixed (StepTransaction.data t)) (pretty (StepTransaction.value t)) (pretty <$> StepTransaction.gas t))).

Definition step_dtos (origin_chain_id : Z) (step : QuoteStep.t) : result ApiError.t (list RelayQuoteStepDto.t) :=
  if negb (String.eqb (QuoteStep.kind step) "transaction")
  then Err (ApiError.relay_quote_failed
              ("Relay's route needs a " +:+ QuoteStep.kind step +:+ " step this checkout cannot perform"))
  else map_result (step_dto origin_chain_id step) (QuoteStep.transactions step).

(** A quote is what was asked for, all of it on the origin chain. *)
Definition accepted_steps (origin_chain_id remaining : Z) (quote : Quote.t) : result ApiError.t (list RelayQuoteStepDto.t) :=
  if negb (Quote.amount_out quote =? remaining)
  then Err (ApiError.relay_quote_failed "Relay did not quote the exact amount due")
  else
    let! steps := map_result (step_dtos origin_chain_id) (Quote.steps quote) in
    match concat steps with
    | [] => Err (ApiError.relay_quote_failed "Relay's route has no transaction")
    | steps => Ok steps
    end.

Definition human (units decimals : Z) : string := default EmptyString (format_units units decimals).

(** The chosen chain, as Relay lists it, and what it is shown as. *)
Definition chosen_origin (origin_chain_id : Z) (chains : list RelayChain.t)
  : result ApiError.t (RelayChain.t * RelayOriginChainDto.t) :=
  ok_or (chain ← List.find (fun c => RelayChain.id c =? origin_chain_id) chains;
         dto ← origin_dto (Gateway.networks g) chain; Some (chain, dto)) ApiError.relay_unsupported_origin.

Definition new_intent (id : Uuid) (invoice : Invoice.t) (origin_chain_id : Z) (destination : NetworkTerms.t)
    (origin_currency payer_wallet : Address) (quote : Quote.t) (expires_at : Timestamp) : NewRelayIntent.t :=
  NewRelayIntent.mk id (Invoice.id invoice) (Quote.request_id quote) origin_chain_id (NetworkTerms.chain_id destination)
    origin_currency payer_wallet (Quote.amount_in quote) (Quote.amount_out quote) expires_at.

(** [POST /quotes]. *)
Definition relay_quote (id : string) (header : option string) (body : QuoteBody.t) : api RelayQuoteResponse.t :=
  let* relay := refuse_unless relay ApiError.relay_unavailable in
  let* '(invoice, binding, remaining) := payable id header in
  let* _ := guarded (wallet_attestation_required invoice) ApiError.wallet_attestation_required in
  let* origin_chain_id := refuse_unless (parse_u64 (trim (QuoteBody.origin_chain_id body)))
    (ApiError.invalid_request "origin_chain_id must be a decimal chain id string") in
  let* payer_wallet := lift (payer_wallet_value (QuoteBody.payer_wallet body)) in
  let destination := PaymentBinding.network binding in
  let* _ := guarded (origin_chain_id =? NetworkTerms.chain_id destination) ApiError.relay_unsupported_origin in
  let* chains := ask (fun n => relayed (RelayService.chains relay n)) in
  let* '(origin_chain, origin) := lift (chosen_origin origin_chain_id chains) in
  let* token := lift (chosen_token (origin_tokens (Gateway.networks g) origin_chain) (QuoteBody.origin_token body)) in
  let* quote := ask (fun n => relayed (RelayService.quote relay n
    (QuoteRequest.mk payer_wallet (PaymentBinding.payment_address binding) origin_chain_id (NetworkTerms.chain_id destination)
       (RelayCurrency.address (snd token)) (NetworkTerms.token destination) remaining))) in
  let* steps := lift (accepted_steps origin_chain_id remaining quote) in
  let* utc := outside (Gateway.utc_now g) in
  let expires_at := utc + QUOTE_VALIDITY in
  let* intent := transact (Gateway.others g) (fun n db =>
    let id := Gateway.fresh g n 0 in
    let! '(_, db') := db_result ApiError.of_db_error
      (insert (new_intent id invoice origin_chain_id destination (RelayCurrency.address (snd token)) payer_wallet quote expires_at)
         (Gateway.database_now g n) db) in
    Ok (id, db')) in
  ret (RelayQuoteResponse.mk (id_display RelayIntentId intent) (word_string (Quote.request_id quote)) origin
         (origin_token_dto token) (human (Quote.amount_in quote) (RelayCurrency.decimals (snd token))) (pretty (Quote.amount_in quote))
         (human (Quote.amount_out quote) (Currency.decimals (Invoice.currency invoice))) (pretty (Quote.amount_out quote))
         (Quote.relayer_fee_usd quote) (Quote.time_estimate_secs quote) (rfc3339 expires_at) steps).

(** [POST /quotes/{rli}/sent]. *)
Definition relay_sent (id intent : string) (header : option string) (transaction_hash : string)
  : api PayerDepositRequestResponse.t :=
  let* '(invoice, _) := unlocked_bound id header in
  let* intent_id := refuse_unless (id_parse RelayIntentId intent) ApiError.relay_intent_not_found in
  let* hash := refuse_unless (parse_word (trim transaction_hash))
    (ApiError.invalid_request "transaction_hash must be a 32-byte hex hash") in
  let* row := Api.fetch (Gateway.others g) (fun _ db => Ok (RelayIntents.find intent_id db)) in
  let* row := refuse_unless (row ← row; if RelayIntent.invoice_id row =? Invoice.id invoice then Some row else None)
    ApiError.relay_intent_not_found in
  let* wallet := refuse_unless (payer_wallet row) (ApiError.internal "relay intent has an invalid payer wallet") in
  let* outcome := update ApiError.of_db_error (Gateway.others g) (Gateway.database_now g)
    (fun now db => mark_sent intent_id (Invoice.id invoice) wallet hash now db) in
  let* _ := lift match outcome with
                 | MsSent => Ok tt
                 | MsHashConflict => Err ApiError.relay_report_conflict
                 | MsNotFound => Err ApiError.relay_intent_not_found
                 end in
  let* access := authorized_invoice g id (session_token header) in
  respond g access.

End Relay.

(** ** What the routes do *)

Section Routes.
Context (payload_hash : Message -> B256) (parse_address_ : string -> option Address) (hex : bytes -> string).
#[local] Abbreviation step := (ledger_step payload_hash parse_address_ hex).
Context `{P : Primitives} `{U : UuidText} `{N : Units} `{D : Dates} `{K : PayerKeys} (g : Gateway.t) (db0 : Db.t)
  {Others : Interference (Gateway.others g) step grounded db0}.

Abbreviation here := (fun w => ready step db0 (fun _ => True) (World.db w)) (only parsing).
Abbreviation anywhere := (fun _ w => ready step db0 (fun _ => True) (World.db w)) (only parsing).

(** Reading a request leaves a state of the history. *)
Lemma read_here {A} (f : nat -> Db.t -> result DbError A) : triple here (Api.fetch (Gateway.others g) f) anywhere anywhere.
Proof.
  eapply triple_weaken; [by apply (fetch_triple (ok := grounded) (Gateway.others g) (fun _ => True))|done|by intros a w [HR _]|done].
Qed.

Lemma value_here {A} (r : result ApiError.t A) : triple here (lift r) anywhere anywhere.
Proof. intros w HR. unfold lift. by destruct r. Qed.

Lemma authorized_here id token : triple here (authorized_invoice g id token) anywhere anywhere.
Proof.
  unfold authorized_invoice. eapply triple_bind; [apply value_here|]. intros uuid. unfold invoice_row.
  eapply triple_bind; [eapply triple_bind; [apply read_here|intros o; apply value_here]|]. intros row.
  eapply triple_bind; [apply value_here|]. intros settlement. eapply triple_bind; [apply value_here|]. intros i. cbv zeta.
  eapply triple_bind with (M := anywhere); [repeat case_match; first [apply read_here|by apply triple_ret]|]. intros session.
  eapply triple_bind with (M := anywhere); [repeat case_match; first [apply read_here|by apply triple_ret]|]. intros attachment.
  eapply triple_bind with (M := anywhere); [repeat case_match; first [apply read_here|by apply triple_ret]|]. intros intent.
  by apply triple_ret.
Qed.

Lemma unlocked_here id header : triple here (unlocked_bound g id header) anywhere anywhere.
Proof.
  unfold unlocked_bound. eapply triple_bind; [apply authorized_here|]. intros a. eapply triple_bind; [apply value_here|]. intros [].
  eapply triple_bind; [apply value_here|]. intros b. by apply triple_ret.
Qed.

Lemma payable_here id header : triple here (payable g id header) anywhere anywhere.
Proof.
  unfold payable. eapply triple_bind; [apply unlocked_here|]. intros [i b]. eapply triple_bind with (M := anywhere); [by intros w HR|].
  intros utc. destruct (payment_state i _). eapply triple_bind; [apply value_here|]. intros []. by apply triple_ret.
Qed.

(** Unlocked for the token that came with the request, which arrived at step [n]. *)
Definition may_pay (n : nat) (header : option string) (i : Invoice.t) : Prop :=
  let v := Snapshot.payer_verification (Invoice.issuance_snapshot i) in
  is_gated v = true -> admitted g n db0 (Invoice.id i) v (session_token header).

Lemma unlocked_sound n id header i b w : unlocked_bound g id header (World.mk db0 n) = (Ok (i, b), w) ->
  of_path g n db0 id i /\ may_pay n header i /\ Invoice.binding i = Some b.
Proof.
  unfold unlocked_bound. intros (a & w1 & Hs & H)%bind_ok. destruct (authorized_sound payload_hash parse_address_ hex g n db0 _ _ _ _ Hs) as [Hp Ha].
  apply bind_ok in H as ([] & w2 & Hg & H). unfold guarded, lift in Hg.
  destruct (PayerInvoiceAccess.content_unlocked a) eqn:Hu; [|done]. injection Hg as <-.
  apply bind_ok in H as (b' & w3 & Hb & [= <- <- _]). injection Hb as Hb%ok_or_ok _. split_and!; [done|exact (Ha eq_refl)|done].
Qed.

Lemma payable_sound n id header i b remaining w : payable g id header (World.mk db0 n) = (Ok (i, b, remaining), w) ->
  (of_path g n db0 id i /\ may_pay n header i /\ Invoice.binding i = Some b) /\
  remaining = remaining_units i /\ 0 < remaining /\ Invoice.status i = Created.
Proof.
  unfold payable. intros ([i' b'] & w1 & Hu%unlocked_sound & H)%bind_ok. apply bind_ok in H as (utc & w2 & _ & H).
  destruct (payment_state i' _) as [r pays] eqn:Hp. apply bind_ok in H as ([] & w3 & Hg & [= -> -> -> _]). unfold guarded, lift in Hg.
  destruct (negb pays || (remaining =? 0)) eqn:Hb; [done|]. unfold payment_state in Hp. injection Hp as <- <-.
  apply orb_false_iff in Hb as [Hb Hz]. apply negb_false_iff in Hb. bools. pose proof (Z.le_max_r (Invoice.amount i - Invoice.received i) 0).
  split_and!; try apply Hu; try done. unfold remaining_units in *. lia.
Qed.

Lemma inserted_row new now db r db' : insert new now db = Ok (r, db') ->
  Db.relay_intents db' !! NewRelayIntent.id new = Some r /\ RelayIntent.invoice_id r = NewRelayIntent.invoice_id new /\
  RelayIntent.request_id r = NewRelayIntent.request_id new /\ RelayIntent.payer_wallet r = NewRelayIntent.payer_wallet new /\
  RelayIntent.quoted_out_amount r = NewRelayIntent.quoted_out_amount new /\ RelayIntent.status r = Quoted.
Proof.
  unfold insert. destruct (is_some _); [done|]. destruct (negb _); [done|]. destruct (request_known _ _); [done|]. intros [= <- <-].
  split; [apply lookup_insert_eq|done].
Qed.

(** The intent is recorded as one of the ledger's own steps. *)
Lemma intent_recorded (new : Uuid -> NewRelayIntent.t) : (forall id, NewRelayIntent.id (new id) = id) ->
  triple here (transact (Gateway.others g) (fun n db =>
      let id := Gateway.fresh g n 0 in
      let! '(_, db') := db_result ApiError.of_db_error (insert (new id) (Gateway.database_now g n) db) in Ok (id, db')))
    (fun id w => here w /\ exists row, Db.relay_intents (World.db w) !! id = Some row /\
       RelayIntent.invoice_id row = NewRelayIntent.invoice_id (new id) /\
       RelayIntent.request_id row = NewRelayIntent.request_id (new id) /\ RelayIntent.payer_wallet row = NewRelayIntent.payer_wallet (new id) /\
       RelayIntent.quoted_out_amount row = NewRelayIntent.quoted_out_amount (new id) /\ RelayIntent.status row = Quoted) anywhere.
Proof.
  intros Hid. eapply triple_weaken; [eapply (write_triple (ok := grounded) (Gateway.others g) (fun _ => True) (fun id db =>
      exists row, Db.relay_intents db !! id = Some row /\
       RelayIntent.invoice_id row = NewRelayIntent.invoice_id (new id) /\
       RelayIntent.request_id row = NewRelayIntent.request_id (new id) /\ RelayIntent.payer_wallet row = NewRelayIntent.payer_wallet (new id) /\
       RelayIntent.quoted_out_amount row = NewRelayIntent.quoted_out_amount (new id) /\ RelayIntent.status row = Quoted)
       _ (stable_true (step := step)))|done| |done].
  - intros n db id db' _ _. cbn. destruct (insert _ _ db) as [[r d]|e] eqn:Hi; [|done]. cbn. intros [= <- <-]. split.
    + apply rtc_once, step_relay. by eapply rs_insert.
    + exists r. pose proof (inserted_row _ _ _ _ _ Hi) as Hr. by rewrite Hid in Hr.
  - intros id w [Hr [_ Hx]]. split; [by split|done].
Qed.

Lemma step_dto_origin origin step t d : step_dto origin step t = Ok d -> RelayTransactionDto.chain_id (RelayQuoteStepDto.transaction d) = pretty origin.
Proof. unfold step_dto. destruct (Z.eqb_spec (StepTransaction.chain_id t) origin) as [->|]; cbn; [|done]. by intros [= <-]. Qed.

Lemma step_dtos_origin origin step ds : step_dtos origin step = Ok ds ->
  Forall (fun d => RelayTransactionDto.chain_id (RelayQuoteStepDto.transaction d) = pretty origin) ds.
Proof.
  unfold step_dtos. destruct (negb _); [done|]. intros H%map_result_ok.
  induction H as [|t d l ds Ht _ IH]; constructor; [by eapply step_dto_origin|done].
Qed.

(** Every transaction a payer is handed is for the origin chain, and there is one. *)
Lemma accepted_steps_ok origin remaining q steps : accepted_steps origin remaining q = Ok steps ->
  Quote.amount_out q = remaining /\ steps <> [] /\
  Forall (fun d => RelayTransactionDto.chain_id (RelayQuoteStepDto.transaction d) = pretty origin) steps.
Proof.
  unfold accepted_steps. destruct (Z.eqb_spec (Quote.amount_out q) remaining) as [E|]; cbn; [|done].
  intros (l & Hl & H)%rbind_ok. assert (Forall (fun d => RelayTransactionDto.chain_id (RelayQuoteStepDto.transaction d) = pretty origin) (concat l)) as Hf.
  { apply map_result_ok in Hl. clear H. induction Hl as [|s ds ss l Hs _ IH]; cbn; [constructor|].
    apply list.Forall_app. split; [by eapply step_dtos_origin|done]. }
  destruct (concat l); [done|]. by injection H as <-.
Qed.

(** A token the payer may send: Relay lists it, and it is the registry's own
    where that has the currency. *)
Definition offered (chain : RelayChain.t) (t : Currency * RelayCurrency.t) : Prop :=
  RelayChain.accepts_deposits chain = true /\ In (snd t) (RelayChain.solver_currencies chain) /\
  RelayCurrency.symbol (snd t) = Currency.code (fst t) /\ is_some (ChainRegistry.get (Gateway.networks g) (RelayChain.id chain)) = true /\
  forall ours, ChainRegistry.token (Gateway.networks g) (RelayChain.id chain) (fst t) = Some ours ->
    TokenConfig.address ours = RelayCurrency.address (snd t).

Lemma origin_tokens_offered chain t : is_some (ChainRegistry.get (Gateway.networks g) (RelayChain.id chain)) = true ->
  In t (origin_tokens (Gateway.networks g) chain) -> offered chain t.
Proof.
  unfold origin_tokens. intros Hg (c & _ & (listed & Hl & Ht)%bind_Some)%list_elem_of_In%list_elem_of_omap. unfold RelayChain.currency in Hl.
  destruct (RelayChain.accepts_deposits chain) eqn:Ha; cbn in Hl; [|done]. apply find_some in Hl as [Hin Hs%String.eqb_eq].
  assert (t = (c, listed)) as -> by (repeat case_match; congruence). unfold offered. cbn. split_and!; try done. intros ours Ho.
  rewrite Ho in Ht. by case_bool_decide.
Qed.

Lemma chosen_token_in l wanted t : chosen_token l wanted = Ok t -> In t l.
Proof.
  assert (forall p, ok_or (List.find p l) ApiError.relay_unsupported_origin = Ok t -> In t l) as Hf
    by (intros p H%ok_or_ok; by apply find_some in H as [H _]).
  unfold chosen_token. destruct (trim <$> wanted) as [text|]; [|apply Hf]. destruct (String.eqb _ _); [apply Hf|].
  intros (a & _ & H)%rbind_ok. by eapply Hf.
Qed.

Lemma chosen_origin_ok origin chains chain dto : chosen_origin g origin chains = Ok (chain, dto) ->
  In chain chains /\ RelayChain.id chain = origin /\ is_some (ChainRegistry.get (Gateway.networks g) (RelayChain.id chain)) = true.
Proof.
  unfold chosen_origin. intros (c & [Hin Hc%Z.eqb_eq]%find_some & (d & Hd & [= -> _])%bind_Some)%ok_or_ok%bind_Some. split_and!; [done..|].
  unfold origin_dto in Hd. by destruct (ChainRegistry.get _ _).
Qed.

(** A report that is answered, or refused, made steps of the ledger only. *)
Lemma sent_steps id intent header hash : triple here (relay_sent g id intent header hash) anywhere anywhere.
Proof.
  unfold relay_sent. eapply triple_bind; [apply unlocked_here|]. intros [i b].
  apply (then_triple (fun _ => True) _ (fun a => id_parse RelayIntentId intent = Some a) _ (fun _ _ => True)); [apply refuse_triple|].
  intros intent_id _. apply (then_triple (fun _ => True) _ (fun a => parse_word (trim hash) = Some a) _ (fun _ _ => True)); [apply refuse_triple|].
  intros h _. apply (then_triple (fun _ => True) _ (fun _ => True) _ (fun _ _ => True)).
  { eapply triple_weaken; [by apply (fetch_triple (ok := grounded) (Gateway.others g) (fun _ => True))|done|by intros a w [HR _]|done]. }
  intros o _. eapply then_triple; [apply refuse_triple|]. intros row _. eapply then_triple; [apply refuse_triple|]. intros wallet _.
  eapply (then_triple _ _ (fun _ => True) _ (fun _ _ => True)).
  { eapply triple_weaken; [apply (transact_triple (ok := grounded) (Gateway.others g) (fun _ => True)); [apply stable_true|]|done|by intros a w HR|done].
    intros n db a db' _ _. destruct (mark_sent _ _ _ _ _ db) as [[r d]|] eqn:Hm; [|done]. cbn. intros [= <- <-].
    apply rtc_once, step_relay. by eapply rs_mark_sent. }
  intros outcome _. eapply then_triple; [apply lift_triple|]. intros [] _.
  eapply triple_bind; [apply authorized_here|]. intros a w HR. unfold respond, bind, outside, ret. cbn. exact HR.
Qed.

End Routes.

(** What a quote promises of the request [i], which the payer may pay: it is
    still due something, Relay was asked to deliver exactly that, in the
    request's own token, to the request's payment address, and quoted it; the
    payer sends an offered token from another chain the deployment serves, in
    transactions of that chain only; and the intent is recorded as such. *)
Definition pinned `{P : Primitives} `{U : UuidText} (g : Gateway.t) (service : RelayService.t) (i : Invoice.t)
    (r : RelayQuoteResponse.t) (db : Db.t) : Prop :=
  exists b chain token wallet q m intent row,
    let network := PaymentBinding.network b in
    (Invoice.binding i = Some b /\ Invoice.status i = Created /\ 0 < remaining_units i /\ wallet_attestation_required i = false) /\
    (RelayService.quote service m (QuoteRequest.mk wallet (PaymentBinding.payment_address b) (RelayChain.id chain)
        (NetworkTerms.chain_id network) (RelayCurrency.address (snd token)) (NetworkTerms.token network) (remaining_units i)) = Ok q /\
      Quote.amount_out q = remaining_units i) /\
    (RelayChain.id chain <> NetworkTerms.chain_id network /\ offered g chain token /\ is_zero_address wallet = false) /\
    (RelayQuoteResponse.steps r <> [] /\
      Forall (fun d => RelayTransactionDto.chain_id (RelayQuoteStepDto.transaction d) = pretty (RelayChain.id chain))
        (RelayQuoteResponse.steps r)) /\
    (RelayQuoteResponse.id r = id_display RelayIntentId intent /\ Db.relay_intents db !! intent = Some row /\
      RelayIntent.invoice_id row = Invoice.id i /\ RelayIntent.request_id row = Quote.request_id q /\
      RelayIntent.payer_wallet row = wallet /\ RelayIntent.quoted_out_amount row = remaining_units i /\
      RelayIntent.status row = Quoted).

(** C10. A quote pins the payment.  Whatever the payer's page asks for, whatever
    Relay answers and whatever the other users of the database commit in the
    meantime, a quote is only answered for the request its path names, as its row
    stood when the handler read it, and one the payer may see: if it is gated, the
    token that came with the call is that of a live session of this request which
    the database held when the handler looked and which gave the proofs it asks
    for.  The request is open, bound, not reserved for an attested wallet and still due something; and
    then Relay was asked to deliver exactly what is due, in the request's token, to
    the request's own payment address, and promised that amount; the payer sends a
    token that Relay takes and that is the deployment's own where it serves the
    currency, from another chain it serves, only in transactions of that chain; and
    the intent is recorded for that request, wallet and amount, as a step of the
    ledger. *)
Theorem quote_pins_the_payment (payload_hash : Message -> B256) (parse_address_ : string -> option Address)
    (hex : bytes -> string) `{P : Primitives} `{U : UuidText} `{N : Units} `{D : Dates} `{K : PayerKeys} (g : Gateway.t)
    service db0 n id header body r w' :
  Interference (Gateway.others g) (ledger_step payload_hash parse_address_ hex) grounded db0 ->
  relay_quote g (Some service) id header body (World.mk db0 n) = (Ok r, w') ->
  rtc (ledger_step payload_hash parse_address_ hex) db0 (World.db w') /\
  exists i, of_path g n db0 id i /\ may_pay g db0 n header i /\
    pinned g service i r (World.db w').
Proof.
  intros HI. unfold relay_quote. intros (relay & w1 & [= <- <-] & H)%bind_ok. apply bind_ok in H as ([[i b] remaining] & w2 & Hp & H).
  pose proof (payable_here payload_hash parse_address_ hex g db0 id header (World.mk db0 n) (conj (rtc_refl _ _) I)) as HR.
  rewrite Hp in HR. destruct (payable_sound payload_hash parse_address_ hex g db0 _ _ _ _ _ _ _ Hp) as ((Hl & Hm & Hb) & -> & Hpos & Hst).
  apply bind_ok in H as ([] & w3 & Hw & H). unfold guarded, lift in Hw. destruct (wallet_attestation_required i) eqn:Hwa; [done|].
  injection Hw as <-. apply bind_ok in H as (origin & w4 & Ho & H). injection Ho as _ <-.
  apply bind_ok in H as (wallet & w5 & Hv & H). injection Hv as Hv <-. cbv zeta in H. apply bind_ok in H as ([] & w6 & Hd & H).
  unfold guarded, lift in Hd. destruct (Z.eqb_spec origin (NetworkTerms.chain_id (PaymentBinding.network b))) as [|Hne]; [done|]. injection Hd as <-.
  apply bind_ok in H as (chains & w7 & Hc & H). apply bind_ok in H as ([chain dto] & w8 & Hch & H). injection Hch as Hch <-.
  apply chosen_origin_ok in Hch as (_ & <- & Hg). apply bind_ok in H as (token & w9 & Ht & H). injection Ht as Ht <-.
  apply chosen_token_in, origin_tokens_offered in Ht; [|done].
  apply bind_ok in H as (q & w10 & Hq & H). apply bind_ok in H as (steps & w11 & Hs & H). injection Hs as Hs <-.
  apply accepted_steps_ok in Hs as (Hout & Hsne & Hsf). apply bind_ok in H as (utc & w12 & [= Hu <-] & H).
  apply bind_ok in H as (intent & w13 & Hi & [= <- <-]).
  assert (World.db w7 = World.db w2) as E7 by (apply bind_ok in Hc as (? & ? & [= _ <-] & Hc); by injection Hc as _ <-).
  assert (exists m, relayed (RelayService.quote service m (QuoteRequest.mk wallet (PaymentBinding.payment_address b) (RelayChain.id chain)
        (NetworkTerms.chain_id (PaymentBinding.network b)) (RelayCurrency.address (snd token))
        (NetworkTerms.token (PaymentBinding.network b)) (remaining_units i))) = Ok q /\ World.db w10 = World.db w7) as (m & Hqm & E10).
  { apply bind_ok in Hq as (? & ? & [= <- <-] & Hq). injection Hq as Hq <-. by eexists. }
  pose proof (intent_recorded payload_hash parse_address_ hex g db0 (fun id => new_intent id i (RelayChain.id chain) (PaymentBinding.network b)
    (RelayCurrency.address (snd token)) wallet q (utc + QUOTE_VALIDITY)) (fun _ => eq_refl)
    {| w10 with World.tick := S (World.tick w10) |}) as T.
  cbn [World.db] in T. rewrite <- E7, <- E10 in HR. specialize (T HR). cbv beta zeta in T. rewrite Hi in T. destruct T as [[Hrtc _] (row & Hrow & R1 & R2 & R3 & R4 & R5)]. split; [done|]. exists i. split_and!; [done..|].
  exists b, chain, token, wallet, q, m, intent, row. cbn in *. split_and!; try done.
  - by apply relayed_ok.
  - unfold payer_wallet_value in Hv. apply rbind_ok in Hv as (a & _ & Hv). destruct (is_zero_address a) eqn:Hz; [done|]. by injection Hv as <-.
  - by rewrite R4.
Qed.

(** ** A payer on another chain *)
Module RelayExample.
Import GatewayExample Toy IdExample IdentityExample AmountExample.

Definition open_policy : PayerVerification.t := PayerVerification.mk None None false.
Definition open_document : Snapshot.t := {| snapshot with Snapshot.payer_verification := open_policy |}.
Definition open_input : CreateInvoiceInput.t := {| input with
  CreateInvoiceInput.payer_verification := open_policy; CreateInvoiceInput.issuance_snapshot := open_document |}.
Definition issued : Db.t := Eval vm_compute in state_of (insert_issued text open_input None 1000000 1000000 PayerExample.base).

Definition optimism : Z := 10.
Definition usdc_there : Address := replicate 20 52.
Definition payers_wallet : Address := replicate 20 66.

(** The deployment serves Optimism, with its USDC. *)
Definition server : Gateway.t := let base := gateway 2000000 in
  {| base with Gateway.networks := ChainRegistry.mk
       [ChainConfig.mk optimism [TokenConfig.mk Usdc usdc_there] factory [3] [4] [5] 100 Latest 20 2000 100 None None None None None None] |}.

Definition bound : World.t := Eval vm_compute in
  snd (select_network server PayerExample.request_id None (pretty chain) (World.mk issued 0)).

(** Relay also lists a look-alike under USDT, which the deployment does not serve. *)
Definition optimism_chain : RelayChain.t := RelayChain.mk optimism "optimism" "Optimism" None None None "evm" true false None
  [RelayCurrency.mk "USDC" usdc_there 6; RelayCurrency.mk "USDT" (replicate 20 53) 6].

Definition quote_for (out : Z) (q : QuoteRequest.t) : Quote.t :=
  Quote.mk (replicate 32 5) (QuoteRequest.amount q + 2) out None 12
    [QuoteStep.mk "deposit" "transaction" [StepTransaction.mk optimism (QuoteRequest.user q) (replicate 20 54) [1; 2] 0 None]].

Definition service (less : Z) : RelayService.t :=
  RelayService.mk (fun _ => Ok [optimism_chain]) (fun _ q => Ok (quote_for (QuoteRequest.amount q - less) q)).

Definition wanted : QuoteBody.t := QuoteBody.mk " 10 " None (text payers_wallet).

Definition answer (less : Z) := relay_quote server (Some (service less)) PayerExample.request_id None wanted bound.

Example quotes : is_ok (fst (answer 0)) = true /\ is_ok (fst (answer 1)) = false.
Proof. vm_compute. done. Qed.

Lemma bound_grounded : grounded (World.db bound).
Proof. assert (Db.payer_sessions (World.db bound) = ∅) as E by reflexivity. unfold grounded. rewrite E. apply map_Forall_empty. Qed.

Lemma quote_pins_the_payment_witness :
  exists r w' i, answer 0 = (Ok r, w') /\ of_path server (World.tick bound) (World.db bound) PayerExample.request_id i /\
    pinned server (service 0) i r (World.db w').
Proof.
  destruct (answer 0) as [[r|e] w'] eqn:E; [|vm_compute in E; discriminate].
  destruct (quote_pins_the_payment hash parse_address text server (service 0) (World.db bound) (World.tick bound) PayerExample.request_id None
    wanted r w') as [_ (i & Hi & _ & Hp)].
  - split; [apply step_grounded|apply bound_grounded|intros n db; apply rtc_refl].
  - exact E.
  - by exists r, w', i.
Defined.

End RelayExample.
