(* ===== verification/Customers.v ===== *)
(** * Customers

    Models [crates/gum-ledger/src/customers.rs] and
    [crates/gum-server/src/api/customers.rs]: a merchant's saved payers, their
    listing, and what each has been asked for and has paid
    ([customer_stats] of [crates/gum-ledger/src/invoices.rs]). *)

From Stdlib Require Import Ascii String.
From stdpp Require Import sorting pretty strings.
From S2P Require Import Prelude Queues Text Core Contracts Ids Bus Tables Registry Attachments Invoices Attribution.
From S2P Require Import ProofExample Verifications Amounts Responses ApiError Effects Api PayerIdentity PayerPolicy.
From S2P Require Import PayerApi.

(** ** The repository *)

Module Customer.

Definition set_customers (m : gmap Uuid DbCustomer.t) (db : Db.t) : Db.t := {| db with Db.customers := m |}.

(** The CHECK constraints on the columns. *)
Definition row_allowed (c : DbCustomer.t) : bool :=
  let len := String.length (DbCustomer.name c) in
  (Nat.leb 1 len && Nat.leb len 255)
  && match DbCustomer.email c with
     | Some e => Nat.leb 3 (String.length e) && Nat.leb (String.length e) 254
     | None => true
     end
  && match DbCustomer.details c with Some d => Nat.leb (String.length d) 4000 | None => true end.

Definition create (id account : Uuid) (name : string) (email details : option string) (now : Timestamp) (db : Db.t)
  : result DbError (DbCustomer.t * Db.t) :=
  let c := DbCustomer.mk id account name email details now now in
  if is_some (Db.customers db !! id) then Err (Constraint "customers_pkey")
  else if negb (is_some (Db.accounts db !! account)) then Err (Constraint "customers_account_id_fkey")
  else if row_allowed c then Ok (c, set_customers (<[id := c]> (Db.customers db)) db)
  else Err (Constraint "customers_check").

Definition get_for_account (account id : Uuid) (db : Db.t) : option DbCustomer.t :=
  c ← Db.customers db !! id;
  if DbCustomer.account_id c =? account then Some c else None.

Definition of_account (account : Uuid) (c : DbCustomer.t) : bool := DbCustomer.account_id c =? account.

Definition list_for_account (account : Uuid) (limit : nat) (starting_after : option Uuid) (db : Db.t)
  : list (Uuid * DbCustomer.t) :=
  page_rows DbCustomer.created_at (of_account account) (of_account account) (Db.customers db) starting_after (S limit).

Definition update (account id : Uuid) (name : string) (email details : option string) (now : Timestamp) (db : Db.t)
  : result DbError (option DbCustomer.t * Db.t) :=
  match get_for_account account id db with
  | None => Ok (None, db)
  | Some c =>
      let c' := {| c with DbCustomer.name := name; DbCustomer.email := email; DbCustomer.details := details;
                          DbCustomer.updated_at := now |} in
      if row_allowed c' then Ok (Some c', set_customers (<[id := c']> (Db.customers db)) db)
      else Err (Constraint "customers_check")
  end.

End Customer.

(** [customer_stats]: one total per currency. *)
Module CustomerCurrencyStats.
Record t := mk { request_count : Z; collected : Z; pending : Z }.
Definition none : t := mk 0 0 0.

Definition add (row : DbInvoice.t) (s : t) : t :=
  mk (request_count s + 1) (collected s + DbInvoice.confirmed_received row)
     (pending s + match DbInvoice.status row with
                  | Created => DbInvoice.amount row - DbInvoice.confirmed_received row
                  | _ => 0
                  end).
End CustomerCurrencyStats.

Definition billed_to (account customer : Uuid) (row : DbInvoice.t) : bool :=
  (DbInvoice.account_id row =? account)
  && bool_decide (Issuance.customer_id (DbInvoice.issuance row) = Some customer).

Definition currency_before (a b : string * CustomerCurrencyStats.t) : Prop := String.leb (fst a) (fst b) = true.
#[local] Instance currency_before_dec : RelDecision currency_before.
Proof. intros a b. unfold currency_before. apply _. Defined.

(** [GROUP BY currency ORDER BY currency]. *)
Definition customer_stats (account customer : Uuid) (db : Db.t) : list (string * CustomerCurrencyStats.t) :=
  let groups : gmap string CustomerCurrencyStats.t :=
    map_fold (fun _ row acc =>
      if billed_to account customer row
      then let key := Issuance.currency (DbInvoice.issuance row) in
           <[key := CustomerCurrencyStats.add row (default CustomerCurrencyStats.none (acc !! key))]> acc
      else acc) ∅ (Db.invoices db) in
  merge_sort currency_before (map_to_list groups).

(** ** The routes *)

Module CustomerResponse.
Record t := mk {
  id : string;
  name : string;
  email : option string;
  details : option string;
  created_at : string;
  updated_at : string;
}.
End CustomerResponse.

Module CustomerCurrencyTotal.
Record t := mk { currency : string; request_count : Z; collected_base_units : string; pending_base_units : string }.
End CustomerCurrencyTotal.

Module CustomerStats.
Record t := mk { request_count : Z; totals : list CustomerCurrencyTotal.t }.

Definition from_rows (rows : list (string * CustomerCurrencyStats.t)) : t :=
  mk (foldr Z.add 0 ((fun kv => CustomerCurrencyStats.request_count (snd kv)) <$> rows))
     ((fun kv : string * CustomerCurrencyStats.t =>
         CustomerCurrencyTotal.mk (fst kv) (CustomerCurrencyStats.request_count (snd kv))
           (pretty (CustomerCurrencyStats.collected (snd kv))) (pretty (CustomerCurrencyStats.pending (snd kv)))) <$> rows).
End CustomerStats.

(** A partial update: a field left out, cleared, or set. *)
Module UpdateCustomerRequest.
Record t := mk { name : option string; email : option (option string); details : option (option string) }.
End UpdateCustomerRequest.

Section Customers.
Context `{U : UuidText} `{D : Dates} (g : Gateway.t).

Abbreviation fetch := (Api.fetch (Gateway.others g)) (only parsing).

Definition customer_response (c : DbCustomer.t) : CustomerResponse.t :=
  CustomerResponse.mk (id_display CustomerId (DbCustomer.id c)) (DbCustomer.name c) (DbCustomer.email c)
    (DbCustomer.details c) (rfc3339 (DbCustomer.created_at c)) (rfc3339 (DbCustomer.updated_at c)).

Definition customer_id (value : string) : api Uuid :=
  refuse_unless (id_parse CustomerId value) ApiError.customer_not_found.

Definition create_customer (account : Uuid) (name : string) (email details : option string) : api CustomerResponse.t :=
  let* _ := lift (validate_party_fields "" name email details) in
  let* c := transact (Gateway.others g) (fun n db =>
    db_result ApiError.of_db_error
      (Customer.create (Gateway.fresh g n 0) account name email details (Gateway.database_now g n) db)) in
  ret (customer_response c).

Definition find_customer (account id : Uuid) : api (option DbCustomer.t) :=
  fetch (fun _ db => Ok (Customer.get_for_account account id db)).

Definition get_customer (account : Uuid) (id : string) : api (CustomerResponse.t * CustomerStats.t) :=
  let* id := customer_id id in
  let* row := find_customer account id in
  let* c := refuse_unless row ApiError.customer_not_found in
  let* stats := fetch (fun _ db => Ok (customer_stats account id db)) in
  ret (customer_response c, CustomerStats.from_rows stats).

(** [query.limit.unwrap_or(20)], between 1 and 100. *)
Definition page_limit (limit : option Z) : result ApiError.t nat :=
  let limit := default 20 limit in
  if (1 <=? limit) && (limit <=? 100) then Ok (Z.to_nat limit)
  else Err (ApiError.invalid_request "limit must be between 1 and 100").

(** What of the rows read is shown, and the next cursor. *)
Definition shown_page {V} (limit : nat) (rows : list (Uuid * V)) : list (Uuid * V) * option Uuid :=
  let shown := take limit rows in
  (shown, if Nat.ltb limit (length rows) then fst <$> list.last shown else None).

Definition list_customers (account : Uuid) (limit : option Z) (starting_after : option Uuid)
  : api (list CustomerResponse.t * option Uuid) :=
  let* limit := lift (page_limit limit) in
  let* _ := match starting_after with
            | Some cursor =>
                let* row := find_customer account cursor in
                guarded (negb (is_some row))
                  (ApiError.invalid_request "starting_after does not identify one of your customers")
            | None => ret tt
            end in
  let* rows := fetch (fun _ db => Ok (Customer.list_for_account account limit starting_after db)) in
  let '(shown, next) := shown_page limit rows in
  ret ((fun kv => customer_response (snd kv)) <$> shown, next).

Definition update_customer (account : Uuid) (id : string) (request : UpdateCustomerRequest.t) : api CustomerResponse.t :=
  let* id := customer_id id in
  let* row := find_customer account id in
  let* current := refuse_unless row ApiError.customer_not_found in
  let name := default (DbCustomer.name current) (UpdateCustomerRequest.name request) in
  let email := default (DbCustomer.email current) (UpdateCustomerRequest.email request) in
  let details := default (DbCustomer.details current) (UpdateCustomerRequest.details request) in
  let* _ := lift (validate_party_fields "" name email details) in
  let* row := update ApiError.of_db_error (Gateway.others g) (Gateway.database_now g)
                (Customer.update account id name email details) in
  let* c := refuse_unless row ApiError.customer_not_found in
  ret (customer_response c).

(** ** What the routes promise *)

(** A client that follows the cursors of the listing. *)
Fixpoint follow (fuel : nat) (account : Uuid) (limit : Z) (cursor : option Uuid) (w : World.t) : list CustomerResponse.t :=
  match list_customers account (Some limit) cursor w with
  | (Ok (shown, next), w') =>
      match next, fuel with
      | Some id, S fuel => shown ++ follow fuel account limit (Some id) w'
      | _, _ => shown
      end
  | (Err _, _) => []
  end.

Context (table : gmap Uuid DbCustomer.t).
Hypothesis unchanged : forall n db, Db.customers db = table -> Db.customers (Gateway.others g n db) = table.

Abbreviation own account := (Customer.of_account account) (only parsing).

(** The listing is a page of the table. *)
Lemma list_customers_page account limit cursor w :
  Db.customers (World.db w) = table -> 1 <= limit <= 100 ->
  (forall id, cursor = Some id -> exists c, table !! id = Some c /\ own account c = true) ->
  exists w', list_customers account (Some limit) cursor w =
    (Ok ((fun kv => customer_response (snd kv)) <$> fst (page DbCustomer.created_at (own account) (own account) table cursor (Z.to_nat limit)),
         snd (page DbCustomer.created_at (own account) (own account) table cursor (Z.to_nat limit))), w') /\
    Db.customers (World.db w') = table.
Proof.
  intros Hw Hl Hc.
  assert (forall db, Db.customers db = table ->
    page DbCustomer.created_at (own account) (own account) table cursor (Z.to_nat limit) =
    shown_page (Z.to_nat limit) (Customer.list_for_account account (Z.to_nat limit) cursor db)) as Hpg by (by intros db <-).
  revert Hpg. generalize (page DbCustomer.created_at (own account) (own account) table cursor (Z.to_nat limit)). intros pg Hpg.
  unfold list_customers. unfold bind at 1, lift, page_limit. cbn [default from_option id]. unfold id.
  rewrite (proj2 (Z.leb_le 1 limit)), (proj2 (Z.leb_le limit 100)) by lia. cbn [andb]. destruct cursor as [id|].
  - destruct (Hc id eq_refl) as (c & Hid & Ho). unfold Customer.of_account in Ho. unfold bind at 1.
    unfold bind at 1, find_customer, fetch, query, transact. cbn -[Customer.list_for_account shown_page].
    unfold Customer.get_for_account. rewrite (unchanged _ _ Hw), Hid. cbn -[Customer.list_for_account shown_page].
    rewrite Ho. cbn -[Customer.list_for_account shown_page].
    unfold bind, transact. cbn -[Customer.list_for_account shown_page].
    rewrite <- Hpg by (by apply unchanged, unchanged). destruct pg. eexists. split; [reflexivity|].
    cbn. by apply unchanged, unchanged.
  - unfold bind at 1. cbn [ret].
    unfold bind, fetch, query, transact. cbn -[Customer.list_for_account shown_page].
    rewrite <- Hpg by (by apply unchanged). destruct pg. eexists. split; [reflexivity|]. cbn. by apply unchanged.
Qed.

Lemma page_cursor_own account cursor limit id :
  snd (page DbCustomer.created_at (own account) (own account) table cursor limit) = Some id ->
  exists c, table !! id = Some c /\ own account c = true.
Proof.
  unfold page. cbn [snd]. destruct (Nat.ltb _ _); [|done]. intros H.
  destruct (list.last (take limit _)) as [[i c]|] eqn:Hlast; [|done]. injection H as <-.
  apply list.last_Some_elem_of in Hlast. apply list.elem_of_take in Hlast as (k & Hk & _).
  apply list_elem_of_lookup_2 in Hk. unfold page_rows in Hk. apply list.elem_of_take in Hk as (k' & Hk & _).
  apply list_elem_of_lookup_2 in Hk. rewrite merge_sort_Permutation in Hk.
  assert (forall keep, (i, c) ∈ List.filter (fun kv : Uuid * DbCustomer.t => own account (snd kv) && keep kv) (map_to_list table) ->
    exists c, table !! i = Some c /\ own account c = true) as Hf.
  { intros keep. rewrite list_elem_of_In, filter_In, <- list_elem_of_In, elem_of_map_to_list, andb_true_iff. naive_solver. }
  destruct cursor as [cur|]; [|by eapply (Hf (fun _ => true))].
  destruct (table !! cur) as [c0|]; [|by apply list.not_elem_of_nil in Hk].
  destruct (Customer.of_account account c0); [by eapply Hf|by apply list.not_elem_of_nil in Hk].
Qed.

Lemma follow_walks account limit : forall fuel cursor w, Db.customers (World.db w) = table -> 1 <= limit <= 100 ->
  (forall id, cursor = Some id -> exists c, table !! id = Some c /\ own account c = true) ->
  follow fuel account limit cursor w =
  (fun kv => customer_response (snd kv)) <$> walk DbCustomer.created_at (own account) (own account) table fuel (Z.to_nat limit) cursor.
Proof.
  induction fuel as [|fuel IH]; intros cursor w Hw Hl Hc; cbn [follow walk];
    destruct (list_customers_page account limit cursor w Hw Hl Hc) as (w' & -> & Hw');
    pose proof (page_cursor_own account cursor (Z.to_nat limit)) as Hown; destruct (page _ _ _ _ _ _) as [shown [id|]]; cbn in *; try done.
  rewrite IH; [|done|done|by intros ? [= <-]; apply Hown]. by rewrite fmap_app.
Qed.

End Customers.

(** A merchant who follows the cursors of the customer listing, with
    any page size the route accepts, sees each of their own customers exactly
    once, newest first, and nobody else's, as long as no customer is saved in
    between; one request per customer is enough. *)
Theorem customer_pages_cover `{U : UuidText} `{D : Dates} (g : Gateway.t) (table : gmap Uuid DbCustomer.t) account limit w :
  (forall n db, Db.customers db = table -> Db.customers (Gateway.others g n db) = table) ->
  Db.customers (World.db w) = table -> 1 <= limit <= 100 ->
  exists listed,
    follow g (S (length listed)) account limit None w = (fun kv => customer_response (snd kv)) <$> listed /\
    NoDup listed /\ StronglySorted (newer DbCustomer.created_at) listed /\
    forall id c, (id, c) ∈ listed <-> table !! id = Some c /\ DbCustomer.account_id c = account.
Proof.
  intros Hu Hw Hl. exists (everything DbCustomer.created_at (Customer.of_account account) table). split_and!.
  - rewrite (follow_walks g table Hu account limit) by (done || by intros ? [=]). f_equal. by apply walk_covers; [|lia].
  - apply everything_nodup.
  - apply everything_sorted.
  - intros id c. rewrite elem_of_everything. cbn. unfold Customer.of_account. by rewrite Z.eqb_eq.
Qed.

Module CustomerExample.
Import GatewayExample Toy IdExample.

Definition server := gateway 5.
Definition saved (w : World.t) (name : string) : World.t := snd (create_customer server 1 name None None w).
Definition three : World.t :=
  saved (saved (saved (World.mk AttachmentExample.accounts_only 0) "Acme") "Globex") "Initech".
Definition names (l : list CustomerResponse.t) : list string := CustomerResponse.name <$> l.

Lemma customer_pages_cover_witness :
  names (follow server 4 1 1 None three) = ["Initech"; "Globex"; "Acme"]%string /\
  exists listed, follow server (S (length listed)) 1 2 None three = (fun kv => customer_response (snd kv)) <$> listed /\
    NoDup listed /\ StronglySorted (newer DbCustomer.created_at) listed /\
    forall id c, (id, c) ∈ listed <-> Db.customers (World.db three) !! id = Some c /\ DbCustomer.account_id c = 1.
Proof.
  split; [vm_compute; reflexivity|].
  apply (customer_pages_cover server (Db.customers (World.db three)) 1 2 three); [by intros n db|done|lia].
Defined.

(** The record is read, merged and written in two statements: of two partial
    updates that overlap, the second writes back the fields it did not name as
    they were before the first.  Here another request renames the customer
    while this one, which names only the details, is under way. *)
Definition acme : World.t := saved (World.mk AttachmentExample.accounts_only 0) "Acme".
Definition renaming (n : nat) (db : Db.t) : Db.t :=
  match n with
  | 2%nat => match Customer.update 1 1000 "Acme Ltd" None None 6 db with Ok (_, db') => db' | Err _ => db end
  | _ => db
  end.
Definition busy : Gateway.t := let base := server in {| base with Gateway.others := renaming |}.

Example overlapping_update_reverts :
  CustomerResponse.name <$> match fst (update_customer busy 1 (id_display CustomerId 1000)
    (UpdateCustomerRequest.mk None None (Some (Some "Net 45"))) acme) with Ok r => Some r | Err _ => None end = Some "Acme"%string /\
  (DbCustomer.name <$> Db.customers (renaming 2 (World.db acme)) !! 1000) = Some "Acme Ltd"%string.
Proof. split; vm_compute; reflexivity. Qed.
End CustomerExample.
