(* ===== verification/Uploads.v ===== *)
(** * gum-server: attachments

    Models [crates/gum-server/src/attachments.rs] (what the bucket must hold
    for an upload to become an attachment) and
    [crates/gum-server/src/api/attachments.rs] (reserving a slot, finalizing,
    downloading).

    The bucket is a parameter: [Storage.t] is what it answers at one step, with
    the SDK's errors already told apart ([missing_or_backend]).  An object's
    body arrives in chunks and may break off with an error. *)

From Stdlib Require Import Ascii String.
From stdpp Require Import pretty strings.
From S2P Require Import Prelude Text Core Contracts Ids Bus Tables Attachments Invoices Attribution.
From S2P Require Import Verifications Amounts Responses ApiError Effects Api PayerIdentity PayerPolicy PayerApi.

Definition MAX_ATTACHMENT_BYTES : Z := 5 * 1024 * 1024.
Definition SCAN_STATUS_TAG : string := "GuardDutyMalwareScanStatus".
Definition UPLOAD_STATE_TAG : string := "gum-upload".
Definition UPLOAD_PENDING : string := "pending".
Definition UPLOAD_ATTACHED : string := "attached".
(** The bytes of [%PDF-]. *)
Definition PDF_MAGIC : bytes := [37; 80; 68; 70; 45].
Definition UPLOAD_TTL : Z := 15 * 60 * 10 ^ 6.
Definition MAX_FILENAME_BYTES : nat := 255.

Module ObjectHead.
Record t := mk { content_type : option string; content_length : option Z; version_id : option string }.
End ObjectHead.

Module PresignedRequest.
Record t := mk { url : string; headers : gmap string string }.
End PresignedRequest.

Inductive StorageError := ObjectNotFound | TooLarge (limit : Z) | Backend (message : string).

Inductive AttachmentError :=
| NotUploaded | ScanPending | UploadRejected (reason : string) | StorageFailed (e : StorageError).

(** A body: the chunks that arrive, and the error it breaks off with. *)
Module Body.
Record t := mk { chunks : list bytes; failure : option string }.
End Body.

Module Storage.
Record t := mk {
  head : string -> option string -> result StorageError ObjectHead.t;
  tags : string -> option string -> result StorageError (gmap string string);
  get_object : string -> option string -> result StorageError Body.t;
  put_tags : string -> option string -> gmap string string -> result StorageError unit;
  delete : string -> result StorageError unit;
  presign_put : string -> string -> string -> Z -> result StorageError PresignedRequest.t;
  presign_get : string -> option string -> string -> Z -> result StorageError string;
}.
End Storage.

(** The handlers' deployment: the payers' [Gateway] and the bucket. *)
Module Bucket.
Record t := mk { storage : nat -> Storage.t; download_ttl : Z }.
End Bucket.

Module InspectedPdf.
Record t := mk { byte_length : Z; sha256 : B256; version_id : option string }.
End InspectedPdf.

Module PresignedUpload.
Record t := mk { attachment_id : Uuid; upload_url : string; headers : gmap string string; expires_at : Timestamp }.
End PresignedUpload.

(** ** Names *)

Definition safe_char (c : string) : bool :=
  match c with
  | String a EmptyString =>
      let n := byte_of a in
      ((97 <=? n) && (n <=? 122)) || ((65 <=? n) && (n <=? 90)) || ((48 <=? n) && (n <=? 57))
      || (n =? 46) || (n =? 45) || (n =? 95) || (n =? 32)
  | _ => false
  end.

Definition QUOTE : string := String (ascii_of_N 34) EmptyString.

Definition content_disposition (filename : string) : string :=
  let safe := trim (String.concat "" ((fun c => if safe_char c then c else "_") <$> chars filename)) in
  let name := if String.eqb safe "" then "attachment.pdf" else safe in
  "attachment; filename=" +:+ QUOTE +:+ name +:+ QUOTE.

(** [value.split(';').next()]. *)
Definition before_semicolon (s : string) : string :=
  match split_once ";"%char s with Some (head, _) => head | None => s end.

Definition media_type (value : string) : string := to_ascii_lowercase (trim (before_semicolon value)).

(** ** Reading an object *)

(** The loop of [inspect_bytes]; the running SHA-256 is of the bytes so far. *)
Fixpoint inspect_chunks (sha256 : bytes -> B256) (limit : Z) (chunks : list bytes) (failure : option string)
    (length_ : Z) (prefix digest : bytes) : result StorageError (Z * bool * B256) :=
  match chunks with
  | [] =>
      match failure with
      | Some e => Err (Backend e)
      | None => Ok (length_, bool_decide (prefix = PDF_MAGIC), sha256 digest)
      end
  | chunk :: rest =>
      let length_ := u64_saturating_add length_ (Z.of_nat (length chunk)) in
      if limit <? length_ then Err (TooLarge limit)
      else
        let prefix := if Nat.ltb (length prefix) (length PDF_MAGIC)
                      then prefix ++ take (Nat.min (length chunk) (length PDF_MAGIC - length prefix)) chunk
                      else prefix in
        inspect_chunks sha256 limit rest failure length_ prefix (digest ++ chunk)
  end.

Section Uploads.
Context `{P : Primitives} `{U : UuidText} `{D : Dates} (g : Gateway.t) (store : option Bucket.t).

Definition inspect_bytes (s : Storage.t) (key : string) (version : option string) (limit : Z)
  : result StorageError (Z * bool * B256) :=
  let! body := Storage.get_object s key version in
  inspect_chunks sha256 limit (Body.chunks body) (Body.failure body) 0 [] [].

(** One call of the bucket, [?]. *)
Definition called {A} (b : Bucket.t) (f : Storage.t -> result StorageError A) : eff AttachmentError World.t A :=
  let* r := outside (fun n => f (Bucket.storage b n)) in
  lift match r with Ok a => Ok a | Err e => Err (StorageFailed e) end.

(** [state.attachment_store()?]. *)
Definition attachment_store : api Bucket.t :=
  refuse_unless store (ApiError.internal "attachment storage is not configured").

(** The outcome of a call to the store, as a value. *)
Definition outcome {E A} (c : eff E World.t A) : api (result E A) := fun w => let '(r, w') := c w in (Ok r, w').

Definition object_key (account attachment_id : Uuid) : string :=
  "uploads/" +:+ hyphenated account +:+ "/" +:+ hyphenated attachment_id +:+ ".pdf".

Definition presign_upload (b : Bucket.t) (account attachment_id : Uuid) : eff AttachmentError World.t PresignedUpload.t :=
  let* utc := outside (Gateway.utc_now g) in
  let* request := called b (fun s => Storage.presign_put s (object_key account attachment_id) PDF_MIME_TYPE
                                       (UPLOAD_STATE_TAG +:+ "=" +:+ UPLOAD_PENDING) UPLOAD_TTL) in
  ret (PresignedUpload.mk attachment_id (PresignedRequest.url request) (PresignedRequest.headers request) (utc + UPLOAD_TTL)).

(** What the head says, checked before anything is read. *)
Definition check_head (head : ObjectHead.t) : result AttachmentError unit :=
  if negb (bool_decide (media_type <$> ObjectHead.content_type head = Some PDF_MIME_TYPE))
  then Err (UploadRejected "content_type_not_pdf")
  else if match ObjectHead.content_length head with
          | Some n => (1 <=? n) && (n <=? MAX_ATTACHMENT_BYTES)
          | None => false
          end
  then Ok tt
  else Err (UploadRejected "size_out_of_range").

Definition check_verdict (tags : gmap string string) : result AttachmentError unit :=
  match tags !! SCAN_STATUS_TAG with
  | None => Err ScanPending
  | Some verdict => if String.eqb verdict CLEAN_SCAN then Ok tt else Err (UploadRejected verdict)
  end.

(** What reading the object came to. *)
Definition check_bytes (r : result StorageError (Z * bool * B256)) : result AttachmentError (Z * B256) :=
  match r with
  | Err (TooLarge _) => Err (UploadRejected "size_out_of_range")
  | Err ObjectNotFound => Err NotUploaded
  | Err e => Err (StorageFailed e)
  | Ok (n, is_pdf, digest) =>
      if n =? 0 then Err (UploadRejected "size_out_of_range")
      else if is_pdf then Ok (n, digest) else Err (UploadRejected "not_a_pdf")
  end.

Definition inspect_and_hash (b : Bucket.t) (key : string) : eff AttachmentError World.t InspectedPdf.t :=
  let* head := outside (fun n => Storage.head (Bucket.storage b n) key None) in
  let* head := lift match head with
                    | Ok head => Ok head
                    | Err ObjectNotFound => Err NotUploaded
                    | Err e => Err (StorageFailed e)
                    end in
  let* _ := lift (check_head head) in
  let version := ObjectHead.version_id head in
  let* tags := called b (fun s => Storage.tags s key version) in
  let* _ := lift (check_verdict tags) in
  let* read := outside (fun n => inspect_bytes (Bucket.storage b n) key version MAX_ATTACHMENT_BYTES) in
  let* '(n, digest) := lift (check_bytes read) in
  ret (InspectedPdf.mk n digest version).

Definition is_present (b : Bucket.t) (key : string) (version : option string) : eff AttachmentError World.t bool :=
  let* head := outside (fun n => Storage.head (Bucket.storage b n) key version) in
  lift match head with
       | Ok _ => Ok true
       | Err ObjectNotFound => Ok false
       | Err e => Err (StorageFailed e)
       end.

Definition presign_download (b : Bucket.t) (key : string) (version : option string) (filename : string)
  : eff AttachmentError World.t string :=
  called b (fun s => Storage.presign_get s key version filename (Bucket.download_ttl b)).

Definition set_upload_state (b : Bucket.t) (key : string) (version : option string) (state : string)
  : eff AttachmentError World.t unit :=
  let* tags := called b (fun s => Storage.tags s key version) in
  called b (fun s => Storage.put_tags s key version (<[UPLOAD_STATE_TAG := state]> tags)).

Definition mark_attached b key version := set_upload_state b key version UPLOAD_ATTACHED.
Definition restore_pending b key version := set_upload_state b key version UPLOAD_PENDING.

(** ** The routes *)

Abbreviation fetch := (Api.fetch (Gateway.others g)) (only parsing).
Abbreviation write := (update ApiError.of_db_error (Gateway.others g) (Gateway.database_now g)) (only parsing).

Definition storage_failed (_ : AttachmentError) : ApiError.t := ApiError.internal "Attachment storage is unavailable".

(** A call whose failure is an internal error. *)
Definition stored {A} (c : eff AttachmentError World.t A) : api A :=
  let* r := outcome c in
  lift match r with Ok a => Ok a | Err e => Err (storage_failed e) end.

Definition get_attachment (account id : Uuid) (db : Db.t) : option DbAttachment.t :=
  a ← Db.invoice_attachments db !! id;
  if DbAttachment.account_id a =? account then Some a else None.

Definition validate_filename (filename : string) : result ApiError.t unit :=
  if String.eqb (trim filename) "" || Nat.ltb MAX_FILENAME_BYTES (String.length filename) then
    Err (ApiError.invalid_request ("filename must be 1 to " +:+ number MAX_FILENAME_BYTES +:+ " bytes and not blank"))
  else if existsb is_control (chars filename) then
    Err (ApiError.invalid_request "filename must not contain control characters")
  else Ok tt.

Definition create_attachment (account : Uuid) (filename : string)
  : api (string * string * gmap string string * string) :=
  let* _ := lift (validate_filename filename) in
  let* b := attachment_store in
  let* row := transact (Gateway.others g) (fun n db =>
    let id := Gateway.fresh g n 0 in
    db_result ApiError.of_db_error
      (Attachment.create_upload id account (object_key account id) filename (Gateway.database_now g n) db)) in
  let* upload := stored (presign_upload b account (DbAttachment.id row)) in
  ret (id_display AttachmentId (PresignedUpload.attachment_id upload), PresignedUpload.upload_url upload,
       PresignedUpload.headers upload, rfc3339 (PresignedUpload.expires_at upload)).

(** The descriptor of a decided upload. *)
Definition finalized (a : DbAttachment.t) : result ApiError.t AttachmentDescriptor.t :=
  if Attachment.is_expired a then Err ApiError.attachment_expired
  else if bool_decide (DbAttachment.status a = Rejected) then
    Err (ApiError.attachment_rejected (default "rejected" (DbAttachment.scan_result a)))
  else ok_or (descriptor a) (ApiError.internal "attachment is not finalized").

Definition expire (account : Uuid) (a : DbAttachment.t) : api unit :=
  let* _ := write (fun _ => Attachment.mark_expired account (DbAttachment.id a)) in
  ret tt.

Definition finalize (account : Uuid) (id : string) : api AttachmentDescriptor.t :=
  let* id := refuse_unless (id_parse AttachmentId id) ApiError.attachment_not_found in
  let* row := fetch (fun _ db => Ok (get_attachment account id db)) in
  let* a := refuse_unless row ApiError.attachment_not_found in
  let* b := attachment_store in
  match DbAttachment.status a with
  | Ready =>
      let* present := stored (is_present b (DbAttachment.object_key a) (DbAttachment.version_id a)) in
      if present then lift (finalized a)
      else
        let* _ := expire account a in
        throw ApiError.attachment_expired
  | PendingUpload | Scanning =>
      let* inspected := outcome (inspect_and_hash b (DbAttachment.object_key a)) in
      match inspected with
      | Ok pdf =>
          let* row := write (Attachment.mark_ready account id (InspectedPdf.byte_length pdf) (InspectedPdf.sha256 pdf)
                               (InspectedPdf.version_id pdf) CLEAN_SCAN) in
          let* row := match row with
                      | Some row => ret row
                      | None =>
                          let* again := fetch (fun _ db => Ok (get_attachment account id db)) in
                          refuse_unless again ApiError.attachment_not_found
                      end in
          lift (finalized row)
      | Err NotUploaded => throw ApiError.attachment_not_uploaded
      | Err ScanPending => throw ApiError.attachment_scan_pending
      | Err (UploadRejected reason) =>
          let* _ := write (Attachment.mark_rejected account id reason) in
          (* the object's removal is best effort *)
          let* _ := outcome (called b (fun s => Storage.delete s (DbAttachment.object_key a))) in
          throw (ApiError.attachment_rejected reason)
      | Err e => throw (storage_failed e)
      end
  | _ => lift (finalized a)
  end.

Definition signed_descriptor (a : DbAttachment.t) : api AttachmentDescriptor.t :=
  let* d := lift (finalized a) in
  let* b := attachment_store in
  let* url := stored (presign_download b (DbAttachment.object_key a) (DbAttachment.version_id a)
                        (DbAttachment.original_filename a)) in
  ret {| d with AttachmentDescriptor.download_url := Some url |}.

Definition deposit_request_attachment (account : Uuid) (reference : string) : api AttachmentDescriptor.t :=
  let* row := resolve_deposit_request g account reference in
  let* a := fetch (fun _ db => Ok (Attachment.find_by_invoice (DbInvoice.id row) db)) in
  let* a := refuse_unless a ApiError.attachment_not_found in
  signed_descriptor a.

(** The payer's download, [attachment] of [payer.rs]. *)
Definition payer_attachment `{N : Units} (id : string) (header : option string) : api AttachmentDescriptor.t :=
  let* access := authorized_invoice g id (session_token header) in
  let* _ := guarded (negb (PayerInvoiceAccess.content_unlocked access)) ApiError.verification_required in
  let* a := refuse_unless (PayerInvoiceAccess.attachment access) ApiError.attachment_not_found in
  signed_descriptor a.

End Uploads.
