(* ===== verification/UploadTheorems.v ===== *)
(** * Attachments: only clean PDFs are admitted

    [upload_step] is what the upload handlers may do to a row; an upload is
    admitted only with the length, the hash and the version that an inspection
    of its own object found.  The handlers make only such steps
    ([uploads_admitted_as_inspected]). *)

From Stdlib Require Import Ascii String.
From stdpp Require Import pretty strings.
From S2P Require Import Prelude Text Core Contracts Ids Bus Tables Attachments Invoices Attribution.
From S2P Require Import Verifications Amounts Responses ApiError Effects Api PayerIdentity PayerPolicy PayerApi.
From S2P Require Import ProofExample PayerApi Uploads.

(** ** The object is read as a whole *)

Definition size (b : bytes) : Z := Z.of_nat (length b).

Lemma prefix_grows (prefix chunk : bytes) (read : bytes) :
  prefix = take (length PDF_MAGIC) read ->
  (if Nat.ltb (length prefix) (length PDF_MAGIC)
   then prefix ++ take (Nat.min (length chunk) (length PDF_MAGIC - length prefix)) chunk
   else prefix) = take (length PDF_MAGIC) (read ++ chunk).
Proof.
  intros ->. generalize (length PDF_MAGIC) as k. intros k. rewrite list.length_take.
  destruct (Nat.ltb_spec (Nat.min k (length read)) k) as [Hlt|Hge].
  - rewrite list.take_ge by lia. rewrite list.take_app_ge by lia.
    replace (Nat.min k (length read)) with (length read) by lia. f_equal.
    destruct (Nat.le_gt_cases (length chunk) (k - length read)).
    + by rewrite !list.take_ge by lia.
    + by rewrite Nat.min_r by lia.
  - by rewrite list.take_app_le by lia.
Qed.

(** The loop over the chunks decides as one look at the whole object would. *)
Lemma inspect_chunks_whole sha256 limit chunks : forall read,
  0 <= limit < u64_max -> size read <= limit ->
  inspect_chunks sha256 limit chunks None (size read) (take (length PDF_MAGIC) read) read =
  let whole := read ++ concat chunks in
  if limit <? size whole then Err (TooLarge limit)
  else Ok (size whole, bool_decide (take (length PDF_MAGIC) whole = PDF_MAGIC), sha256 whole).
Proof.
  induction chunks as [|chunk rest IH]; intros read Hl Hr.
  - cbn [concat inspect_chunks]. rewrite app_nil_r. cbv zeta. by rewrite (proj2 (Z.ltb_ge _ _)) by lia.
  - cbn [concat inspect_chunks]. cbv zeta. rewrite (prefix_grows _ chunk read) by done.
    assert (size (read ++ chunk) = size read + size chunk) as E by (unfold size; rewrite length_app; lia).
    assert (size (read ++ chunk ++ concat rest) = size (read ++ chunk) + size (concat rest)) as E2
      by (unfold size; rewrite !length_app; lia).
    assert (0 <= size (concat rest)) by (unfold size; lia). fold (size chunk). unfold u64_saturating_add.
    destruct (Z.ltb_spec limit (Z.min (size read + size chunk) u64_max)) as [Hb|Hb].
    + by rewrite (proj2 (Z.ltb_lt _ _)) by lia.
    + replace (Z.min (size read + size chunk) u64_max) with (size (read ++ chunk)) by lia.
      rewrite IH by lia. cbv zeta. by rewrite <- app_assoc.
Qed.

Section Theorems.
Context `{P : Primitives} `{U : UuidText} `{D : Dates} `{N : Units} (g : Gateway.t) (store : option Bucket.t) (b : Bucket.t).

(** What an admitted object was found to be: of the PDF type, clean by the
    scanner's verdict, within the size limit, beginning as a PDF, and hashed as a
    whole, all of one version. *)
Definition clean_pdf (key : string) (pdf : InspectedPdf.t) : Prop :=
  exists n1 n2 n3 head tags body,
    Storage.head (Bucket.storage b n1) key None = Ok head /\
    media_type <$> ObjectHead.content_type head = Some PDF_MIME_TYPE /\
    InspectedPdf.version_id pdf = ObjectHead.version_id head /\
    Storage.tags (Bucket.storage b n2) key (InspectedPdf.version_id pdf) = Ok tags /\
    tags !! SCAN_STATUS_TAG = Some CLEAN_SCAN /\
    Storage.get_object (Bucket.storage b n3) key (InspectedPdf.version_id pdf) = Ok body /\
    Body.failure body = None /\
    let whole := concat (Body.chunks body) in
    InspectedPdf.byte_length pdf = size whole /\ 1 <= size whole <= MAX_ATTACHMENT_BYTES /\
    take (length PDF_MAGIC) whole = PDF_MAGIC /\ InspectedPdf.sha256 pdf = sha256 whole.

Lemma inspect_failure sha limit chunks e : forall n prefix digest r,
  inspect_chunks sha limit chunks (Some e) n prefix digest <> Ok r.
Proof.
  induction chunks as [|c l IH]; intros n prefix digest r; cbn; [done|]. destruct (limit <? _); [done|]. apply IH.
Qed.

Lemma inspect_bytes_ok s key version n digest :
  check_bytes (inspect_bytes s key version MAX_ATTACHMENT_BYTES) = Ok (n, digest) ->
  exists body, Storage.get_object s key version = Ok body /\ Body.failure body = None /\
    let whole := concat (Body.chunks body) in
    n = size whole /\ 1 <= size whole <= MAX_ATTACHMENT_BYTES /\ take (length PDF_MAGIC) whole = PDF_MAGIC /\
    digest = sha256 whole.
Proof.
  unfold inspect_bytes. destruct (Storage.get_object s key version) as [body|e]; cbn [rbind]; [|by destruct e].
  destruct (Body.failure body) as [e|] eqn:Hf.
  { destruct (inspect_chunks _ _ _ _ _ _ _) as [r|[]] eqn:Hi; [|done..]. by apply inspect_failure in Hi. }
  pose proof (inspect_chunks_whole sha256 MAX_ATTACHMENT_BYTES (Body.chunks body) []) as W. cbv zeta in W. cbn [app] in W.
  change (take (length PDF_MAGIC) []) with (@nil Z) in W. change (size []) with 0 in W. rewrite W by (unfold MAX_ATTACHMENT_BYTES, u64_max; lia).
  destruct (Z.ltb_spec MAX_ATTACHMENT_BYTES (size (concat (Body.chunks body)))); [done|]. unfold check_bytes.
  destruct (Z.eqb_spec (size (concat (Body.chunks body))) 0); [done|].
  destruct (bool_decide (take (length PDF_MAGIC) (concat (Body.chunks body)) = PDF_MAGIC)) eqn:Hd; [|done].
  apply bool_decide_eq_true in Hd. intros [= <- <-].
  exists body. split_and!; try done. unfold size in *. lia.
Qed.

Lemma inspect_clean key w pdf w' :
  inspect_and_hash b key w = (Ok pdf, w') -> clean_pdf key pdf /\ World.db w' = World.db w.
Proof.
  unfold inspect_and_hash. intros (h & w1 & [= <- <-] & H)%bind_ok.
  apply bind_ok in H as (head & w2 & Hh & H). unfold lift in Hh. injection Hh as Hh <-.
  assert (Storage.head (Bucket.storage b (World.tick w)) key None = Ok head) as Hhead
    by (destruct (Storage.head _ _ _) as [|[]]; [by injection Hh as ->|done..]). clear Hh.
  apply bind_ok in H as ([] & w3 & Hc & H). injection Hc as Hc <-. apply bind_ok in H as (tags & w4 & Ht & H).
  unfold called in Ht. apply bind_ok in Ht as (t & w5 & [= <- <-] & Ht). unfold lift in Ht. injection Ht as Ht <-.
  apply bind_ok in H as ([] & w6 & Hv & H). injection Hv as Hv <-.
  apply bind_ok in H as (read & w7 & [= <- <-] & H). apply bind_ok in H as ([n digest] & w8 & Hr & H).
  unfold lift in Hr. injection Hr as Hr <-. injection H as <- <-. split; [|done].
  apply inspect_bytes_ok in Hr as (body & Hb & Hf & Hw). unfold check_head in Hc. case_bool_decide as Hm; [|done].
  unfold check_verdict in Hv. destruct (tags !! SCAN_STATUS_TAG) as [v|] eqn:Hs; [|done]. destruct (String.eqb_spec v CLEAN_SCAN) as [->|]; [|done].
  eexists _, _, _, head, tags, body. split; [exact Hhead|]. split; [exact Hm|]. split; [reflexivity|].
  split; [destruct (Storage.tags _ _ _) as [x|] eqn:E; [injection Ht as ->; exact E|done]|].
  split; [done|]. split; [exact Hb|]. by split.
Qed.

(** ** What may happen to an upload *)

Inductive upload_step (db : Db.t) : Db.t -> Prop :=
| upload_reserved id account name now a db' :
    Attachment.create_upload id account (object_key account id) name now db = Ok (a, db') -> upload_step db db'
| upload_admitted account id pdf now r db' :
    (forall a, Db.invoice_attachments db !! id = Some a -> clean_pdf (DbAttachment.object_key a) pdf) ->
    Attachment.mark_ready account id (InspectedPdf.byte_length pdf) (InspectedPdf.sha256 pdf)
      (InspectedPdf.version_id pdf) CLEAN_SCAN now db = Ok (r, db') -> upload_step db db'
| upload_rejected account id reason now r db' :
    Attachment.mark_rejected account id reason now db = Ok (r, db') -> upload_step db db'
| upload_lapsed account id r db' : Attachment.mark_expired account id db = Ok (r, db') -> upload_step db db'
| upload_attached account id invoice now r db' :
    Attachment.attach_in_transaction account id invoice now db = Ok (r, db') -> upload_step db db'
(* everything else the server does *)
| upload_elsewhere db' : Db.invoice_attachments db' = Db.invoice_attachments db -> upload_step db db'.

(** A finalized row is backed by a clean PDF under its own key. *)
Definition backed (a : DbAttachment.t) : Prop :=
  forall h, DbAttachment.sha256 a = Some h -> exists pdf, clean_pdf (DbAttachment.object_key a) pdf /\
    h = InspectedPdf.sha256 pdf /\ DbAttachment.byte_length a = Some (InspectedPdf.byte_length pdf) /\
    DbAttachment.version_id a = InspectedPdf.version_id pdf.

Definition all_backed (db : Db.t) : Prop := map_Forall (fun _ => backed) (Db.invoice_attachments db).

Lemma update_backed account id p f db r db' :
  Attachment.update_upload account id p f db = Ok (r, db') ->
  (forall a, Db.invoice_attachments db !! id = Some a -> backed a -> backed (f a)) -> all_backed db -> all_backed db'.
Proof.
  unfold Attachment.update_upload. intros Hu Hf Hb. destruct (Db.invoice_attachments db !! id) as [a|] eqn:Ha; [|by inv_ok].
  destruct (_ && _); [|by inv_ok]. destruct (_ && _); [|done]. inv_ok. apply map_Forall_insert_2; [|exact Hb].
  apply Hf; [done|]. by apply (Hb id).
Qed.

Lemma clean_size key pdf : clean_pdf key pdf -> as_i64 (InspectedPdf.byte_length pdf) = InspectedPdf.byte_length pdf.
Proof.
  intros (? & ? & ? & ? & ? & body & _ & _ & _ & _ & _ & _ & _ & Hw). cbv zeta in Hw. destruct Hw as (-> & H & _).
  generalize dependent (size (concat (Body.chunks body))). intros n H. unfold MAX_ATTACHMENT_BYTES in H.
  apply as_i64_small. lia.
Qed.

Lemma upload_step_backed db db' : upload_step db db' -> all_backed db -> all_backed db'.
Proof.
  intros [id account name now a d H|account id pdf now r d Hp H|account id reason now r d H|account id r d H
    |account id invoice now r d H|d H] Hb.
  - unfold Attachment.create_upload in H. repeat case_match; inv_ok. apply map_Forall_insert_2; [done|exact Hb].
  - eapply update_backed; [exact H| |exact Hb]. intros a Ha _ h [= <-]. exists pdf. pose proof (Hp a Ha) as Hc.
    split_and!; [exact Hc|done| |done]. cbn. f_equal. by eapply clean_size.
  - by eapply update_backed; [exact H| |exact Hb].
  - by eapply update_backed; [exact H| |exact Hb].
  - apply Attachment.attach_update in H. by eapply update_backed; [exact H| |exact Hb].
  - unfold all_backed. by rewrite H.
Qed.

(** ** The handlers *)

Context (db0 : Db.t) {Others : Interference (Gateway.others g) upload_step all_backed db0} (configured : store = Some b).

Abbreviation at_ F := (fun w => ready upload_step db0 F (World.db w)) (only parsing).
Abbreviation somewhere := (fun _ => at_ (fun _ => True)) (only parsing).

(** A call to the bucket leaves the database alone. *)
Definition quiet {E A} (c : eff E World.t A) : Prop := forall w, World.db (snd (c w)) = World.db w.

Lemma quiet_bind {E A B} (c : eff E World.t A) (k : A -> eff E World.t B) : quiet c -> (forall a, quiet (k a)) -> quiet (bind c k).
Proof. intros Hc Hk w. specialize (Hc w). unfold bind. destruct (c w) as [[a|e] w1]; cbn in *; [by rewrite Hk|done]. Qed.

Lemma quiet_lift {E A} (r : result E A) : quiet (lift r).
Proof. done. Qed.

Lemma quiet_outside {E A} (f : nat -> A) : quiet (outside (E := E) f).
Proof. done. Qed.

Lemma quiet_called {A} (f : Storage.t -> result StorageError A) : quiet (called b f).
Proof. apply quiet_bind; [apply quiet_outside|intros; apply quiet_lift]. Qed.

Lemma outcome_triple {E A} F (c : eff E World.t A) (Q : result E A -> Prop) : quiet c -> (forall w, Q (fst (c w))) ->
  triple (at_ F) (outcome c) (fun r w => ready upload_step db0 F (World.db w) /\ Q r) somewhere.
Proof.
  intros Hq HQ w HR. specialize (Hq w). specialize (HQ w). unfold outcome. destruct (c w) as [r w']. cbn in *. rewrite Hq. by split.
Qed.

Lemma stored_triple {A} F (c : eff AttachmentError World.t A) : quiet c ->
  triple (at_ F) (stored c) (fun a w => ready upload_step db0 F (World.db w) /\ True) somewhere.
Proof.
  intros Hq. eapply triple_bind; [apply (outcome_triple F c (fun _ => True) Hq); done|]. intros r.
  eapply triple_weaken; [apply (lift_triple (step := upload_step) (db0 := db0) F)|by intros w [? _]| |done]. by intros a w [? _].
Qed.

(** The object of an upload is its object for good. *)
Definition keyed (id : Uuid) (key : string) (db : Db.t) : Prop :=
  forall a, Db.invoice_attachments db !! id = Some a -> DbAttachment.object_key a = key.

Lemma update_keyed account id p f db r db' i key :
  Attachment.update_upload account id p f db = Ok (r, db') -> (forall a, DbAttachment.object_key (f a) = DbAttachment.object_key a) ->
  is_Some (Db.invoice_attachments db !! i) -> keyed i key db -> is_Some (Db.invoice_attachments db' !! i) /\ keyed i key db'.
Proof.
  unfold Attachment.update_upload. intros Hu Hf Hi Hk. destruct (Db.invoice_attachments db !! id) as [a|] eqn:Ha; [|by inv_ok].
  destruct (_ && _); [|by inv_ok]. destruct (_ && _); [|done]. inv_ok. unfold keyed. cbn.
  destruct (decide (i = id)) as [->|Hne]; [|by rewrite lookup_insert_ne].
  rewrite lookup_insert_eq. split; [done|]. intros a' [= <-]. rewrite Hf. by apply Hk.
Qed.

Definition known (id : Uuid) (key : string) (db : Db.t) : Prop :=
  is_Some (Db.invoice_attachments db !! id) /\ keyed id key db.

Lemma reserved_stable id key : stable upload_step all_backed (known id key).
Proof.
  intros db db' Hs _ [Hi Hk]. unfold known.
  destruct Hs as [i account name now a d H|account i pdf now r d Hp H|account i reason now r d H|account i r d H
    |account i invoice now r d H|d H].
  - unfold Attachment.create_upload in H. repeat case_match; inv_ok. unfold keyed. cbn.
    rewrite lookup_insert_ne; [done|]. intros ->. destruct Hi as [a Ha]. by rewrite Ha in *.
  - by eapply update_keyed; [exact H| | |].
  - by eapply update_keyed; [exact H| | |].
  - by eapply update_keyed; [exact H| | |].
  - apply Attachment.attach_update in H. by eapply update_keyed; [exact H| | |].
  - unfold keyed. by rewrite H.
Qed.

(** A statement that is one step of the relation. *)
Lemma upload_triple {A} F (f : nat -> Db.t -> result ApiError.t (A * Db.t)) : stable upload_step all_backed F ->
  (forall n db a db', F db -> f n db = Ok (a, db') -> upload_step db db') ->
  triple (at_ F) (transact (Gateway.others g) f) (fun a w => ready upload_step db0 F (World.db w) /\ True) somewhere.
Proof.
  intros HF Hf. eapply triple_weaken; [eapply (transact_triple (ok := all_backed) (Gateway.others g) F f HF)|done| |done]; [|by intros a w H].
  intros n db a db' _ HFd Hr. apply rtc_once. by eapply Hf.
Qed.

Lemma db_result_ok {A} (r : result DbError A) a : db_result ApiError.of_db_error r = Ok a -> r = Ok a.
Proof. destruct r; [by intros [= ->]|done]. Qed.

Lemma create_refines account filename : triple (at_ (fun _ => True)) (create_attachment g store account filename) somewhere somewhere.
Proof.
  unfold create_attachment. eapply then_triple; [apply lift_triple|]. intros [] _.
  eapply then_triple; [apply refuse_triple|]. intros b' Hb. assert (b' = b) as -> by congruence.
  eapply then_triple; [apply upload_triple; [apply stable_true|]|].
  { intros n db a db' _ H%db_result_ok. by eapply upload_reserved. }
  intros row _. eapply then_triple; [apply stored_triple|].
  { apply quiet_bind; [apply quiet_outside|]. intros utc. apply quiet_bind; [apply quiet_called|]. done. }
  intros u _. by apply triple_ret.
Qed.

Lemma expire_refines F account a : stable upload_step all_backed F ->
  triple (at_ F) (expire g account a) (fun _ => at_ F) somewhere.
Proof.
  intros HF. eapply then_triple; [apply upload_triple; [done|]|].
  { intros n db r db' _ H%db_result_ok. by eapply upload_lapsed. }
  intros r _. by apply triple_ret.
Qed.

Lemma lift_end {A} F (r : result ApiError.t A) : triple (at_ F) (lift r) somewhere somewhere.
Proof. eapply triple_weaken; [apply (lift_triple (step := upload_step) (db0 := db0) F)|done| |intros e w H; exact H]. intros a w [[Hr _] _]. by split. Qed.

Lemma throw_end {A} F e : triple (at_ F) (throw e : api A) somewhere somewhere.
Proof. apply triple_throw. intros w [Hr _]. by split. Qed.

(** What finalizing an undecided upload does. *)
Lemma decide_refines account id key :
  triple (at_ (known id key))
    (let* inspected := outcome (inspect_and_hash b key) in
     match inspected with
     | Ok pdf =>
         let* row := update ApiError.of_db_error (Gateway.others g) (Gateway.database_now g)
                       (Attachment.mark_ready account id (InspectedPdf.byte_length pdf) (InspectedPdf.sha256 pdf)
                          (InspectedPdf.version_id pdf) CLEAN_SCAN) in
         let* row := match row with
                     | Some row => ret row
                     | None =>
                         let* again := fetch (Gateway.others g) (fun _ db => Ok (get_attachment account id db)) in
                         refuse_unless again ApiError.attachment_not_found
                     end in
         lift (finalized row)
     | Err NotUploaded => throw ApiError.attachment_not_uploaded
     | Err ScanPending => throw ApiError.attachment_scan_pending
     | Err (UploadRejected reason) =>
         let* _ := update ApiError.of_db_error (Gateway.others g) (Gateway.database_now g)
                     (Attachment.mark_rejected account id reason) in
         let* _ := outcome (called b (fun s => Storage.delete s key)) in
         throw (ApiError.attachment_rejected reason)
     | Err e => throw (storage_failed e)
     end) somewhere somewhere.
Proof.
  eapply then_triple; [apply (outcome_triple _ _ (fun r => forall pdf, r = Ok pdf -> clean_pdf key pdf))|].
  - unfold inspect_and_hash. repeat (apply quiet_bind; [first [apply quiet_outside|apply quiet_lift|apply quiet_called]|intros ?]).
    by case_match.
  - intros w pdf. destruct (inspect_and_hash b key w) as [r w'] eqn:E. cbn. intros ->. by eapply inspect_clean.
  - intros [pdf|[]] HQ; try apply throw_end.
    + eapply then_triple; [apply upload_triple; [apply reserved_stable|]|].
      { intros n db r db' [_ Hk] H%db_result_ok. eapply upload_admitted; [|exact H].
        intros a Ha. rewrite (Hk a Ha). by apply HQ. }
      intros row _. eapply (then_triple _ _ (fun _ => True)); [|intros r _; apply lift_end].
      destruct row as [row|]; [by apply triple_ret|].
      eapply triple_bind; [apply (fetch_triple (ok := all_backed) (Gateway.others g)), reserved_stable|]. intros again.
      eapply triple_weaken; [apply (refuse_triple (step := upload_step) (db0 := db0) (known id key))|by intros w [? _]| |done]. by intros a w [? _].
    + eapply then_triple; [apply upload_triple; [apply reserved_stable|]|].
      { intros n db r db' _ H%db_result_ok. by eapply upload_rejected. }
      intros r _. eapply then_triple; [apply (outcome_triple _ _ (fun _ => True)); [apply quiet_called|done]|]. intros o _. apply throw_end.
Qed.

Lemma finalize_refines account id : triple (at_ (fun _ => True)) (finalize g store account id) somewhere somewhere.
Proof.
  unfold finalize. eapply then_triple; [apply refuse_triple|]. intros uuid _.
  eapply (learn_triple _ _ (fun row db => forall a, row = Some a -> known uuid (DbAttachment.object_key a) db)); [apply stable_true| |].
  { intros n db row _ [= <-] a Ha. unfold get_attachment in Ha. destruct (Db.invoice_attachments db !! uuid) as [a0|] eqn:E; cbn in Ha; [|done].
    case_match; [|done]. injection Ha as ->. split; [by eexists|]. intros a' Ha'. congruence. }
  intros row. destruct row as [a|]; [|apply triple_bind with (M := fun _ _ => False); [apply triple_throw; by intros w [? _]|by intros x w []]].
  eapply ignore_triple with (F := known uuid (DbAttachment.object_key a)); [|by intros db H; apply H].
  eapply then_triple; [apply refuse_triple|]. intros a' [= <-]. eapply then_triple; [apply refuse_triple|].
  intros b' Hb. assert (b' = b) as -> by congruence.
  destruct (DbAttachment.status a); try apply decide_refines; try apply lift_end.
  eapply then_triple; [apply stored_triple; apply quiet_bind; [apply quiet_outside|done]|]. intros [] _; [apply lift_end|].
  eapply triple_bind; [apply expire_refines, reserved_stable|]. intros u. apply throw_end.
Qed.

End Theorems.

(** C28. Only clean PDFs become attachments: whatever the other users of
    the database do between the statements of reserving and finalizing an
    upload, a row that has a content hash is backed by an object that was
    inspected under the row's own key, in one version, and found to be of the
    PDF type, passed by the scanner, within the size limit and beginning as a
    PDF; and the row's length, hash and version are those of the whole
    object inspected. *)
Theorem uploads_admitted_as_inspected `{P : Primitives} `{U : UuidText} `{D : Dates} (g : Gateway.t) (b : Bucket.t) db0 n
    account filename id :
  Interference (Gateway.others g) (upload_step b) (all_backed b) db0 ->
  all_backed b (World.db (snd (create_attachment g (Some b) account filename (World.mk db0 n)))) /\
  all_backed b (World.db (snd (finalize g (Some b) account id (World.mk db0 n)))).
Proof.
  intros HI. assert (forall A (c : api A), triple (fun w => ready (upload_step b) db0 (fun _ => True) (World.db w)) c
    (fun _ w => ready (upload_step b) db0 (fun _ => True) (World.db w)) (fun _ w => ready (upload_step b) db0 (fun _ => True) (World.db w)) ->
    all_backed b (World.db (snd (c (World.mk db0 n))))) as Hend.
  { intros A c Hc. specialize (Hc (World.mk db0 n) (conj (rtc_refl _ _) I)).
    destruct (c _) as [[a|e] w]; destruct Hc as [Hr _]; cbn; by eapply (steps_ok (Gateway.others g)); [exact Hr|apply ok_before]. }
  split; apply Hend; [by apply create_refines|by apply finalize_refines].
Qed.

Module UploadExample.
Import GatewayExample Toy IdExample.

Definition document : bytes := PDF_MAGIC ++ [49; 46; 55; 10].
Definition storage : Storage.t := {|
  Storage.head _ _ := Ok (ObjectHead.mk (Some "Application/PDF; charset=binary") (Some 9) (Some "v1"));
  Storage.tags _ _ := Ok {[SCAN_STATUS_TAG := CLEAN_SCAN]};
  Storage.get_object _ _ := Ok (Body.mk [take 3 document; drop 3 document] None);
  Storage.put_tags _ _ _ := Ok tt;
  Storage.delete _ := Ok tt;
  Storage.presign_put _ _ _ _ := Ok (PresignedRequest.mk "https://bucket/put" ∅);
  Storage.presign_get _ _ _ _ := Ok "https://bucket/get";
|}.
Definition bucket : Bucket.t := Bucket.mk (fun _ => storage) 300.
Definition server := gateway 5.
Definition reserved : Db.t := World.db (snd (create_attachment server (Some bucket) 1 "invoice.pdf"
  (World.mk AttachmentExample.accounts_only 0))).
Definition upload_id : Uuid := 1000.
Definition admitted := finalize server (Some bucket) 1 (id_display AttachmentId upload_id) (World.mk reserved 7).

Lemma uploads_admitted_as_inspected_witness :
  (exists a, Db.invoice_attachments (World.db (snd admitted)) !! upload_id = Some a /\
     DbAttachment.status a = Ready /\ DbAttachment.sha256 a = Some (sha256 document) /\ DbAttachment.byte_length a = Some 9) /\
  all_backed bucket (World.db (snd admitted)).
Proof.
  split; [eexists; split; [vm_compute; reflexivity|repeat split; vm_compute; reflexivity]|].
  apply (uploads_admitted_as_inspected server bucket reserved 7 1 "invoice.pdf" (id_display AttachmentId upload_id)).
  apply alone; [apply upload_step_backed|]. intros k a Ha. vm_compute in Ha. intros h Hh.
  assert (a = DbAttachment.mk 1000 1 None (DbAttachment.object_key a) "invoice.pdf" PDF_MIME_TYPE None None None
    PendingUpload None 5 None None) as Ea by (destruct k; try done; repeat (case_match; try done); by injection Ha as <-).
  by rewrite Ea in Hh.
Defined.
End UploadExample.
