(* ===== verification/DepositApi.v ===== *)
(** * gum-server: the merchant's deposit requests

    Models [crates/gum-server/src/api/deposit_requests.rs] (issuing, reading,
    waiting for a change, listing, cancelling) with the statements of
    [crates/gum-ledger/src/invoices.rs] they read: [list_for_account],
    [response_metadata_for_account] and [CreateInvoiceInput::from_invoice].

    [Desk.t] adds to the [Gateway] what these handlers call besides: the text of
    a JSON value and of others' errors, the parsers of durations and times, the
    bucket, and the monotonic clock the long poll sleeps by.

    A long poll ends ([long_poll_ends]); the status filter of the listing and the
    status a request is shown with agree ([filter_matches_reported]). *)

From Stdlib Require Import Ascii String.
From stdpp Require Import sorting pretty strings.
From S2P Require Import Prelude Queues Text Core Contracts Ids Bus Tables Registry Attachments Invoices Attribution.
From S2P Require Import RelayIntents Verifications Proof ProofApi ProofExample Amounts Responses ApiError Effects Api.
From S2P Require Import PayerIdentity PayerPolicy PayerApi PayerTheorems Customers Uploads.

Module Desk.
Record t := mk {
  json_text : Value -> string;
  lowercase : string -> string;
  (* the texts of an address's and an amount's parse errors *)
  address_error : string -> string;
  units_error : string -> string;
  parse_duration : string -> option Z;
  parse_rfc3339 : string -> option Z;
  store : option Bucket.t;
  (* [tokio::time]: the instant read at a step, after an earlier reading *)
  later : nat -> Z -> Z;
}.
End Desk.

(** ** Requests and answers *)

Module CreateDepositRequest.
Record t := mk {
  payout_address : string;
  amount : string;
  currency : option string;
  chain_id : option string;
  issuer : Party.t;
  payer : option Party.t;
  customer_id : option Uuid;
  issuer_id : option string;
  notes : option string;
  heading : option string;
  reference : option string;
  metadata : Value;
  verification : PayerVerification.t;
  attachment_id : option Uuid;
  expires_in : option Z;
  expires_at : option string;
}.
End CreateDepositRequest.

(** What the request asks for, read and validated. *)
Module Terms.
Record t := mk {
  verification : PayerVerification.t;
  beneficiary : Address;
  expiration : ResolvedExpiration.t;
  currency : Currency;
  networks : list NetworkTerms.t;
  amount : Z;
}.
End Terms.

Module DbInvoiceTransfer.
Record t := mk {
  invoice_id : Uuid;
  block_timestamp : Z;
  amount : Z;
  sender_address : bytes;
  transaction_hash : bytes;
  block_number : Z;
  disposition : string;
  collected : bool;
  relay_request_id : option bytes;
  relay_origin_chain_id : option Z;
  relay_origin_tx_hash : option bytes;
}.
End DbInvoiceTransfer.

Module DbIndexerFreshness.
Record t := mk {
  chain_id : Z;
  last_block : Z;
  last_block_timestamp : option Z;
  updated_at : Timestamp;
  finalized_block : option Z;
}.
End DbIndexerFreshness.

Module DepositRequestSummaryResponse.
Record t := mk {
  id : string;
  deposit_url : string;
  heading : option string;
  payer_name : string;
  reference : option string;
  metadata : Json;
  created_at : string;
  updated_at : string;
  expires_at : string;
  status : DepositRequestStatus;
  amount : string;
  received : string;
  currency : string;
  verification : PayerVerification.t;
  customer_id : option string;
  issuer_id : option string;
  has_attachment : bool;
  verification_completed_at : option string;
  likely_unsolicited_at : option string;
  cancellation_requested_at : option string;
}.
End DepositRequestSummaryResponse.

Inductive CreateAnswer :=
| IssuedAnew (r : DepositRequestResponse.t)
(* 200, [Idempotency-Replayed: true] *)
| ReplayedAnswer (r : DepositRequestResponse.t).

Module ListQuery.
Record t := mk {
  status : option string;
  reference : option string;
  customer_id : option Uuid;
  issuer_id : option string;
  verification : option string;
  limit : option Z;
  starting_after : option string;
}.
End ListQuery.

Definition MAX_IDEMPOTENCY_KEY_BYTES : nat := 255.

Definition VERIFICATION_FILTERS : list string := ["not_required"; "pending"; "verified"; "likely_unsolicited"]%string.

(** ** Texts of errors *)

Definition expiration_error_text (e : ExpirationError) : string :=
  match e with
  | Conflicting => "choose only one of expires_in, expires_at, or expiration_timestamp"
  | InvalidDuration => "expires_in must be a duration such as 30m, 24h, or 7d"
  | InvalidDateTime => "expires_at must be an RFC 3339 time such as 2026-08-28T14:30:00Z"
  | InvalidTimestamp => "expiration_timestamp must be a Unix timestamp in seconds"
  | TooSoon => "expiry must be at least 10 minutes from now"
  | TooFar => "expiry must be no more than 366 days from now"
  end.

Definition amount_error_text (units_error : string -> string) (amount : string) (e : AmountParseError) : string :=
  match e with
  | InvalidFormat => "amount must be an unsigned decimal number such as " +:+ QUOTE +:+ "1" +:+ QUOTE +:+ " or "
                       +:+ QUOTE +:+ "1.50" +:+ QUOTE
  | TooManyDecimalUnits => "Parsing number with more decimal units than target decimals."
  | UnitsFailed => units_error amount
  end.

Definition map_error {E F A} (f : E -> F) (r : result E A) : result F A :=
  match r with Ok a => Ok a | Err e => Err (f e) end.

(** ** Statements *)

Definition disposition_str (d : TransferDisposition) : string :=
  match d with Credited => "credited" | Late => "late" | Error => "error" end.

Definition invoice_transfer (db : Db.t) (kv : ObservationKey * Observation.t) : DbInvoiceTransfer.t :=
  let '((_, _, tx, _), o) := kv in
  let r := joined_intent db o in
  DbInvoiceTransfer.mk (Observation.invoice_id o) (Observation.block_timestamp o) (Observation.amount o)
    (Observation.sender_address o) tx (Observation.block_number o) (disposition_str (Observation.disposition o))
    (is_some (Observation.collected_at o))
    (RelayIntent.request_id <$> r) (RelayIntent.origin_chain_id <$> r) (r ≫= RelayIntent.verified_origin_tx_hash).

(** [i.account_id = $1 AND i.id = ANY($2)]. *)
Definition listed_invoice (account : Uuid) (ids : list Uuid) (db : Db.t) (id : Uuid) : bool :=
  bool_decide (id ∈ ids)
  && match Db.invoices db !! id with Some row => DbInvoice.account_id row =? account | None => false end.

Definition transfers_for_account (account : Uuid) (ids : list Uuid) (db : Db.t) : list DbInvoiceTransfer.t :=
  invoice_transfer db <$>
    merge_sort chain_order
      (List.filter (fun kv => listed_invoice account ids db (Observation.invoice_id (snd kv)))
         (map_to_list (Db.payment_observations db))).

Definition freshness_for_account (account : Uuid) (ids : list Uuid) (db : Db.t) : list DbIndexerFreshness.t :=
  (fun kv : Z * CursorRow.t =>
     DbIndexerFreshness.mk (fst kv) (CursorRow.last_block (snd kv)) (CursorRow.last_block_timestamp (snd kv))
       (CursorRow.updated_at (snd kv)) (StatusRow.finalized_block <$> Db.indexer_status db !! fst kv))
  <$> List.filter (fun kv => existsb (fun id => listed_invoice account ids db id
                                && bool_decide ((Db.invoices db !! id ≫= DbInvoice.chain_id) = Some (fst kv))) ids)
        (map_to_list (Db.indexer_cursor db)).

(** The filters of [list_for_account]. *)
Definition status_matches (s : DepositRequestStatus) (row : DbInvoice.t) : bool :=
  match s, DbInvoice.status row with
  | AwaitingDeposit, Created => DbInvoice.confirmed_received row =? 0
  | PartiallyDeposited, Created => negb (DbInvoice.confirmed_received row =? 0)
  | Deposited, Funded | Settled, Fulfilled | StExpired, Expired | Returned, Recovered => true
  | NeedsAttention, _ => is_some (DbInvoice.attention_reason row)
  | _, _ => false
  end.

Definition verification_matches (filter : string) (row : DbInvoice.t) : bool :=
  let iss := DbInvoice.issuance row in
  let gated := is_some (Issuance.expected_email iss) || is_some (Issuance.payer_reference iss) in
  (String.eqb filter "not_required" && negb gated)
  || (String.eqb filter "pending" && gated && negb (is_some (DbInvoice.verification_completed_at row)))
  || (String.eqb filter "verified" && is_some (DbInvoice.verification_completed_at row))
  || (String.eqb filter "likely_unsolicited" && is_some (DbInvoice.likely_unsolicited_at row)).

(** [$n IS NULL OR ..]. *)
Definition unless_null {A} (o : option A) (p : A -> bool) : bool := match o with Some a => p a | None => true end.

Module ListFilter.
Record t := mk {
  status : option DepositRequestStatus;
  reference : option string;
  customer_id : option Uuid;
  issuer_id : option string;
  verification : option string;
}.

Definition wanted (account : Uuid) (f : t) (row : DbInvoice.t) : bool :=
  let iss := DbInvoice.issuance row in
  (DbInvoice.account_id row =? account)
  && unless_null (status f) (fun s => status_matches s row)
  && unless_null (reference f) (fun r => bool_decide (Issuance.reference iss = Some r))
  && unless_null (customer_id f) (fun c => bool_decide (Issuance.customer_id iss = Some c))
  && unless_null (issuer_id f) (fun i => bool_decide (Issuance.issuer_id iss = Some i))
  && unless_null (verification f) (fun v => verification_matches v row).
End ListFilter.

Definition invoice_created_at (row : DbInvoice.t) : Timestamp := Issuance.created_at (DbInvoice.issuance row).
Definition invoice_of_account (account : Uuid) (row : DbInvoice.t) : bool := DbInvoice.account_id row =? account.

Definition list_for_account (account : Uuid) (f : ListFilter.t) (starting_after : option Uuid) (limit : nat) (db : Db.t)
  : list (Uuid * DbInvoice.t) :=
  page_rows invoice_created_at (ListFilter.wanted account f) (invoice_of_account account) (Db.invoices db)
    starting_after (S limit).

Definition has_verified_email (account : Uuid) (db : Db.t) : result DbError bool :=
  let! email := ok_or (Db.accounts db !! account) RowNotFound in
  Ok (is_some email).

Section Deposits.
Context `{P : Primitives} `{U : UuidText} `{N : Units} `{D : Dates} `{K : PayerKeys} (g : Gateway.t) (d : Desk.t).

Abbreviation fetch := (Api.fetch (Gateway.others g)) (only parsing).

(** ** The row on the wire *)

Definition deposit_url (i : Invoice.t) : string :=
  PayerAccess.public_base_url (Gateway.payer g) +:+ "/pay/" +:+ invoice_id_string (Invoice.id i).

Definition hash_or (what : string) (h : bytes) : result ApiError.t string :=
  if Nat.eqb (length h) 32 then Ok (word_string h) else Err (ApiError.internal what).

Definition optional {E A B} (f : A -> result E B) (o : option A) : result E (option B) :=
  match o with Some a => let! b := f a in Ok (Some b) | None => Ok None end.

Definition transfer_relay (t : DbInvoiceTransfer.t) : result ApiError.t (option TransferRelayDto.t) :=
  match DbInvoiceTransfer.relay_request_id t, DbInvoiceTransfer.relay_origin_chain_id t with
  | Some request, Some origin =>
      let! request := hash_or "invalid relay request id" request in
      let! hash := optional (hash_or "invalid relay origin hash") (DbInvoiceTransfer.relay_origin_tx_hash t) in
      Ok (Some (TransferRelayDto.mk request (pretty origin) hash))
  | _, _ => Ok None
  end.

Definition transfer_dto (currency : Currency) (chain_id : option Z) (t : DbInvoiceTransfer.t)
  : result ApiError.t TransferDto.t :=
  let! sender := ok_or (fixed_bytes 20 (DbInvoiceTransfer.sender_address t)) (ApiError.internal "invalid transfer sender") in
  let! hash := hash_or "invalid transfer hash" (DbInvoiceTransfer.transaction_hash t) in
  let! timestamp := ok_or (from_timestamp (DbInvoiceTransfer.block_timestamp t))
                      (ApiError.internal "invalid transfer timestamp") in
  let! units := ok_or (u256_of_numeral (DbInvoiceTransfer.amount t)) (ApiError.internal "invalid transfer amount") in
  let! relay := transfer_relay t in
  Ok (TransferDto.mk (rfc3339 timestamp) (human currency units) (pretty (DbInvoiceTransfer.amount t)) (to_checksum sender)
        hash (chain_id ≫= fun c => PayerAccess.transaction_url (Gateway.payer g) c hash)
        (pretty (DbInvoiceTransfer.block_number t))
        (if String.eqb (DbInvoiceTransfer.disposition t) "error" then "zero" else DbInvoiceTransfer.disposition t)
        (DbInvoiceTransfer.collected t) relay).

(** [.map(..).collect::<Result<_, _>>()]. *)
Fixpoint collect_results {E A B} (f : A -> result E B) (l : list A) : result E (list B) :=
  match l with
  | [] => Ok []
  | a :: rest => let! b := f a in let! bs := collect_results f rest in Ok (b :: bs)
  end.

Definition as_of (cursor : option DbIndexerFreshness.t) : option AsOfDto.t :=
  c ← cursor;
  t ← DbIndexerFreshness.last_block_timestamp c;
  at_ ← from_timestamp t;
  Some (AsOfDto.mk (pretty (DbIndexerFreshness.last_block c)) (rfc3339 at_)).

Definition freshness_dto (cursor : option DbIndexerFreshness.t) : IndexerFreshnessDto.t :=
  IndexerFreshnessDto.mk ((fun c => pretty (DbIndexerFreshness.last_block c)) <$> cursor)
    (c ← cursor; pretty <$> DbIndexerFreshness.finalized_block c)
    ((fun c => rfc3339 (DbIndexerFreshness.updated_at c)) <$> cursor).

Definition enrich_response (row : DbInvoice.t) (attachment : option DbAttachment.t) (transfers : list DbInvoiceTransfer.t)
    (freshness : list DbIndexerFreshness.t) : result ApiError.t DepositRequestResponse.t :=
  let iss := DbInvoice.issuance row in
  let expires_in := strip_prefix "in:" (Issuance.expiration_intent iss) ≫= parse_u64 in
  let! invoice := map_error ApiError.of_row_error (invoice_try_from parse_address row) in
  let response := from_invoice invoice expires_in in
  let chain_id := NetworkTerms.chain_id <$> network invoice in
  let! settlement := hash_text (DbInvoice.settlement_tx_hash row) in
  let! transfers := collect_results (transfer_dto (Invoice.currency invoice) chain_id)
    (List.filter (fun t => DbInvoiceTransfer.invoice_id t =? DbInvoice.id row) transfers) in
  let cursor := List.find (fun f => bool_decide (Some (DbIndexerFreshness.chain_id f) = DbInvoice.chain_id row)) freshness in
  Ok {| response with
    DepositRequestResponse.deposit_url := deposit_url invoice;
    DepositRequestResponse.address_explorer_url :=
      (ac ← option_zip (DepositRequestResponse.address response) chain_id;
       PayerAccess.address_url (Gateway.payer g) (snd ac) (fst ac));
    DepositRequestResponse.metadata := Issuance.metadata iss;
    DepositRequestResponse.customer_id := id_display CustomerId <$> Issuance.customer_id iss;
    DepositRequestResponse.issuer_id := Issuance.issuer_id iss;
    DepositRequestResponse.attachment := attachment ≫= descriptor;
    DepositRequestResponse.verification_completed_at := rfc3339 <$> DbInvoice.verification_completed_at row;
    DepositRequestResponse.likely_unsolicited_at := rfc3339 <$> DbInvoice.likely_unsolicited_at row;
    DepositRequestResponse.created_at := rfc3339 (Issuance.created_at iss);
    DepositRequestResponse.updated_at := rfc3339 (DbInvoice.updated_at row);
    DepositRequestResponse.deposited_at := rfc3339 <$> DbInvoice.paid_at row;
    DepositRequestResponse.deposited_at_block := pretty <$> DbInvoice.funded_at_block row;
    DepositRequestResponse.expired_at := rfc3339 <$> DbInvoice.expired_at row;
    DepositRequestResponse.settlement_tx_hash := settlement;
    DepositRequestResponse.settlement_explorer_url :=
      (hc ← option_zip settlement chain_id; PayerAccess.transaction_url (Gateway.payer g) (snd hc) (fst hc));
    DepositRequestResponse.transfers := transfers;
    DepositRequestResponse.as_of := as_of cursor;
    DepositRequestResponse.indexer_freshness := freshness_dto cursor |}.

(** [response_metadata_for_account] of one request. *)
Definition response_metadata (account id : Uuid) : api (list DbInvoiceTransfer.t * list DbIndexerFreshness.t) :=
  let* transfers := fetch (fun _ db => Ok (transfers_for_account account [id] db)) in
  let* freshness := fetch (fun _ db => Ok (freshness_for_account account [id] db)) in
  ret (transfers, freshness).

Definition to_response (account : Uuid) (row : DbInvoice.t) : api DepositRequestResponse.t :=
  let* '(transfers, freshness) := response_metadata account (DbInvoice.id row) in
  let* attachment := fetch (fun _ db => Ok (Attachment.find_by_invoice (DbInvoice.id row) db)) in
  lift (enrich_response row attachment transfers freshness).

(** ** Issuing *)

(** The [Idempotency-Key] header; [None] when absent or not text. *)
Definition idempotency_key (header : option string) : result ApiError.t string :=
  let! key := ok_or header ApiError.missing_idempotency_key in
  if String.eqb key "" || Nat.ltb MAX_IDEMPOTENCY_KEY_BYTES (String.length key) then
    Err (ApiError.invalid_request ("Idempotency-Key must be 1 to " +:+ number MAX_IDEMPOTENCY_KEY_BYTES +:+ " bytes"))
  else Ok key.

(** The payer of the request, or the saved customer in its place. *)
Definition resolve_payer (payer : option Party.t) (customer : option DbCustomer.t) : result ApiError.t Party.t :=
  match payer, customer with
  | Some party, _ => Ok party
  | None, Some c => Ok (Party.mk (DbCustomer.name c) (DbCustomer.email c) (DbCustomer.details c))
  | None, None => Err (ApiError.invalid_request "payer is required unless customer_id names a saved customer")
  end.

Definition requested_currency (code : option string) : result ApiError.t Currency :=
  match trim <$> code with
  | None => Ok Usdc
  | Some code =>
      if String.eqb code "" then Ok Usdc
      else map_error (fun _ => ApiError.invalid_request "currency must be USDC or USDT") (Currency.from_str code)
  end.

Definition requested_networks (currency : Currency) (offered : list NetworkTerms.t) (chain_id : option string)
  : result ApiError.t (list NetworkTerms.t) :=
  let chain_id := match trim <$> chain_id with Some v => if String.eqb v "" then None else Some v | None => None end in
  match chain_id with
  | None =>
      if Currency.requires_pinned_chain currency then
        Err (ApiError.invalid_request ("chain_id is required for " +:+ Currency.code currency
          +:+ ": it settles on one network and does not bridge, so the request must name where it is paid"))
      else Ok offered
  | Some value =>
      let! chain := ok_or (parse_u64 value) (ApiError.invalid_request "chain_id must be a decimal chain id string") in
      Ok (List.filter (fun n => NetworkTerms.chain_id n =? chain) offered)
  end.

Definition requested_beneficiary (payout_address : string) : result ApiError.t Address :=
  let! a := ok_or (parse_address payout_address)
              (ApiError.invalid_request ("invalid payout_address: " +:+ Desk.address_error d payout_address)) in
  if is_zero_address a then Err (ApiError.invalid_request "payout_address must not be the zero address") else Ok a.

Definition requested_amount (amount : string) (decimals : Z) : result ApiError.t Z :=
  let! n := map_error (fun e => ApiError.invalid_amount (amount_error_text (Desk.units_error d) amount e))
              (from_decimal_str amount decimals) in
  if n =? 0 then Err (ApiError.invalid_amount "amount must be positive") else Ok n.

(** Steps 2 to 4: every field validated, [now] in seconds. *)
Definition requested_terms (req : CreateDepositRequest.t) (payer : Party.t) (now : Z) : result ApiError.t Terms.t :=
  let! _ := match CreateDepositRequest.issuer_id req with Some i => validate_issuer_id i | None => Ok tt end in
  let! _ := validate_document (Desk.json_text d) (CreateDepositRequest.issuer req) payer (CreateDepositRequest.notes req)
              (CreateDepositRequest.heading req) (CreateDepositRequest.reference req) (CreateDepositRequest.metadata req) in
  let v := normalized (Desk.lowercase d) (CreateDepositRequest.verification req) in
  let! _ := map_error (fun e => ApiError.invalid_request (policy_error_text e)) (validate_policy v) in
  let! beneficiary := requested_beneficiary (CreateDepositRequest.payout_address req) in
  let! expiration :=
    map_error (fun e => ApiError.invalid_request (expiration_error_text e))
      (parse_expiration (Desk.parse_duration d) (Desk.parse_rfc3339 d)
         ((fun s => pretty s +:+ "s") <$> CreateDepositRequest.expires_in req) (CreateDepositRequest.expires_at req) None now) in
  let! currency := requested_currency (CreateDepositRequest.currency req) in
  let offered := ChainRegistry.networks (Gateway.networks g) currency in
  let! _ := match offered with [] => Err (ApiError.unsupported_currency currency) | _ => Ok tt end in
  let! networks := requested_networks currency offered (CreateDepositRequest.chain_id req) in
  let! _ := match networks with [] => Err ApiError.unsupported_chain | _ => Ok tt end in
  let! amount := requested_amount (CreateDepositRequest.amount req) (Currency.decimals currency) in
  Ok (Terms.mk v beneficiary expiration currency networks amount).

Definition issuance_request (req : CreateDepositRequest.t) (payer : Party.t) (t : Terms.t)
    (attachment : option AttachmentCommitment.t) : IssuanceRequest.t :=
  IssuanceRequest.mk (render_network <$> Terms.networks t) (Currency.code (Terms.currency t))
    (Currency.decimals (Terms.currency t)) (Terms.beneficiary t) (Terms.amount t)
    (ResolvedExpiration.intent (Terms.expiration t)) (CreateDepositRequest.issuer req) payer
    (CreateDepositRequest.notes req) (CreateDepositRequest.heading req) (CreateDepositRequest.reference req)
    (Desk.json_text d (CreateDepositRequest.metadata req)) (CreateDepositRequest.customer_id req)
    (CreateDepositRequest.issuer_id req) (Terms.verification t) (CreateDepositRequest.attachment_id req) attachment.

(** The document the request commits to. *)
Definition request_snapshot (req : CreateDepositRequest.t) (payer : Party.t) (t : Terms.t)
    (attachment : option AttachmentCommitment.t) : Snapshot.t :=
  let base := snapshot_new (CreateDepositRequest.issuer req) payer (Terms.verification t) (Terms.currency t)
                (Terms.networks t) (Terms.beneficiary t) (Gateway.recovery_address g) (Terms.amount t)
                (ResolvedExpiration.timestamp (Terms.expiration t)) in
  {| base with
     Snapshot.notes := CreateDepositRequest.notes req;
     Snapshot.heading := CreateDepositRequest.heading req;
     Snapshot.reference := CreateDepositRequest.reference req;
     Snapshot.attachment := attachment |}.

Definition payer_notification_email (payer : Party.t) (v : PayerVerification.t) : option string :=
  email ← trim <$> Party.email payer;
  if String.eqb email "" || is_some (PayerVerification.merchant_auth v) then None else Some email.

(** [CreateInvoiceInput::from_invoice]; [None] is the panic of [recovery]. *)
Definition input_from_invoice (i : Invoice.t) (account : Uuid) (key : string) (decimals expires_in_secs : Z) (intent : string)
  : option CreateInvoiceInput.t :=
  let s := Invoice.issuance_snapshot i in
  r ← recovery i;
  Some (CreateInvoiceInput.mk (Invoice.id i) account key None None (Snapshot.issuer s) (Snapshot.bill_to s) (Snapshot.notes s)
    (Snapshot.heading s) (Snapshot.reference s) "{}" (Snapshot.payer_verification s) (Snapshot.currency s) decimals
    (Invoice.beneficiary i) (Invoice.expiration_timestamp i) expires_in_secs intent (Invoice.amount i) s
    (Invoice.attribution_version i) (Invoice.attribution_hash i) (Invoice.issuance_nonce i) r (Invoice.binding i) None).

(** The attachment is ready, and kept from expiring, before it is bound. *)
Definition claim_attachment (account : Uuid) (attachment : option DbAttachment.t) : api unit :=
  match attachment with
  | None => ret tt
  | Some a =>
      let* _ := lift match DbAttachment.status a with
                     | Ready => Ok tt
                     | Attached => Err ApiError.attachment_already_attached
                     | _ => Err (if Attachment.is_expired a then ApiError.attachment_expired else ApiError.attachment_not_ready)
                     end in
      let* b := attachment_store (Desk.store d) in
      let* tagged := outcome (mark_attached b (DbAttachment.object_key a) (DbAttachment.version_id a)) in
      match tagged with
      | Ok _ => ret tt
      | Err (StorageFailed ObjectNotFound) =>
          let* _ := expire g account a in
          throw ApiError.attachment_expired
      | Err _ => throw (ApiError.internal "Attachment storage is unavailable")
      end
  end.

(** A request that did not commit hands its object back. *)
Definition release_attachment (account : Uuid) (attachment : option DbAttachment.t) : api unit :=
  match attachment with
  | None => ret tt
  | Some a =>
      let* current := fetch (fun _ db => Ok (get_attachment account (DbAttachment.id a) db)) in
      match current with
      | Some c =>
          if is_some (DbAttachment.invoice_id c) then ret tt
          else
            let* b := attachment_store (Desk.store d) in
            let* _ := outcome (restore_pending b (DbAttachment.object_key a) (DbAttachment.version_id a)) in
            ret tt
      | None => ret tt
      end
  end.

Definition insert_error (e : InsertIssuedInvoiceError) : ApiError.t :=
  match e with
  | IdempotencyConflict => ApiError.idempotency_conflict
  | AttachmentNotFound => ApiError.invalid_request "attachment_id does not identify one of your uploads"
  | AttachmentNotReady => ApiError.attachment_not_ready
  | AttachmentAlreadyAttached => ApiError.attachment_already_attached
  | InsertDatabase e => ApiError.of_db_error e
  end.

(** The write-path input of a fresh request: its address is registered at once
    when the payer has nothing to choose. *)
Definition fresh_input (account : Uuid) (key : string) (req : CreateDepositRequest.t) (payer : Party.t) (t : Terms.t)
    (attachment : option AttachmentCommitment.t) (now : Z) (id : Uuid) (nonce : B256) (utc : Timestamp)
  : result ApiError.t CreateInvoiceInput.t :=
  let! invoice := map_error (fun _ => ApiError.internal "failed to issue the invoice")
    (issue id nonce (Terms.currency t) (Terms.networks t) (Terms.beneficiary t) (Gateway.recovery_address g) (Terms.amount t)
       (ResolvedExpiration.timestamp (Terms.expiration t)) (request_snapshot req payer t attachment)) in
  let! base := ok_or (input_from_invoice invoice account key (Currency.decimals (Terms.currency t))
                        (ResolvedExpiration.timestamp (Terms.expiration t) - now) (ResolvedExpiration.intent (Terms.expiration t)))
                 (ApiError.internal "a stored snapshot's recovery address parses") in
  let! binding := match wallet_attestation_required invoice, Invoice.networks invoice with
                  | false, [only] =>
                      let! b := map_error (fun e => ApiError.internal (bind_error_text e))
                                  (bind_to_network invoice (NetworkTerms.chain_id only) utc) in
                      Ok (Some b)
                  | _, _ => Ok None
                  end in
  Ok {| base with
    CreateInvoiceInput.customer_id := CreateDepositRequest.customer_id req;
    CreateInvoiceInput.issuer_id := CreateDepositRequest.issuer_id req;
    CreateInvoiceInput.metadata := Desk.json_text d (CreateDepositRequest.metadata req);
    CreateInvoiceInput.payer_notification_email := payer_notification_email payer (Terms.verification t);
    CreateInvoiceInput.initial_binding := binding |}.

(** Step 8 and the answer. *)
Definition persist (account : Uuid) (req : CreateDepositRequest.t) (t : Terms.t) (attachment : option DbAttachment.t)
    (input : CreateInvoiceInput.t) : api CreateAnswer :=
  let* inserted := tried g (fun n db => insert_issued hex_encode_prefixed input (CreateDepositRequest.attachment_id req)
                                          (Gateway.utc_now g n) (Gateway.database_now g n) db) in
  match inserted with
  | Err e =>
      let* _ := release_attachment account attachment in
      throw (insert_error e)
  | Ok issued =>
      let row := InsertIssuedInvoice.row issued in
      let* '(transfers, freshness) := response_metadata account (DbInvoice.id row) in
      let* response := lift (enrich_response row (InsertIssuedInvoice.attachment issued) transfers freshness) in
      if InsertIssuedInvoice.replayed issued then ret (ReplayedAnswer response)
      else if is_some (PayerVerification.merchant_auth (Terms.verification t)) then
        let* '(secret, expires_at) := mint_secret g (DbInvoice.id row) account in
        ret (IssuedAnew {| response with DepositRequestResponse.client_secret := Some secret;
                                         DepositRequestResponse.client_secret_expires_at := Some (rfc3339 expires_at) |})
      else ret (IssuedAnew response)
  end.

Definition create_deposit_request (account : Uuid) (header : option string) (req : CreateDepositRequest.t) : api CreateAnswer :=
  let* key := lift (idempotency_key header) in
  let* customer := match CreateDepositRequest.customer_id req with
                   | Some id =>
                       let* c := fetch (fun _ db => Ok (Customer.get_for_account account id db)) in
                       let* c := refuse_unless c (ApiError.invalid_request "customer_id does not identify one of your customers") in
                       ret (Some c)
                   | None => ret None
                   end in
  let* payer := lift (resolve_payer (CreateDepositRequest.payer req) customer) in
  let* utc := outside (Gateway.utc_now g) in
  let now := unix_seconds utc in
  let* t := lift (requested_terms req payer now) in
  let* attachment := match CreateDepositRequest.attachment_id req with
                     | Some id =>
                         let* a := fetch (fun _ db => Ok (get_attachment account id db)) in
                         let* a := refuse_unless a (ApiError.invalid_request "attachment_id does not identify one of your uploads") in
                         ret (Some a)
                     | None => ret None
                     end in
  let commitment := attachment ≫= Attachment.commitment hex_encode_prefixed in
  let* existing := fetch (fun _ db => Ok (find_by_idempotency_key account key db)) in
  match existing with
  | Some row =>
      if same_issuance row (issuance_request req payer t commitment) then
        let* r := to_response account row in ret (ReplayedAnswer r)
      else throw ApiError.idempotency_conflict
  | None =>
      let* verified := fetch (fun _ db => has_verified_email account db) in
      let* _ := guarded (negb verified) ApiError.account_contact_required in
      let* _ := lift (map_error (fun e => ApiError.invalid_request (expiration_error_text e))
                        (validate_expiration_window (Terms.expiration t) now)) in
      let* _ := claim_attachment account attachment in
      let* id := outside (fun n => Gateway.fresh g n 0) in
      let* nonce := outside (Gateway.random_word g) in
      let* ready_at := outside (Gateway.utc_now g) in
      let* input := lift (fresh_input account key req payer t commitment now id nonce ready_at) in
      persist account req t attachment input
  end.

(** ** Reading *)

Definition POLL_INTERVAL : Z := 250 * 1000.

(** The loop of the long poll; [None] when [fuel] rounds were not enough. *)
Fixpoint poll (fuel : nat) (account : Uuid) (reference : string) (initial : Timestamp) (deadline last : Z) : api (option DbInvoice.t) :=
  match fuel with
  | O => ret None
  | S fuel =>
      let* now := outside (fun n => Desk.later d n last) in
      (* [sleep_until] *)
      let* woken := outside (fun n => Desk.later d n (Z.max now (Z.min (now + POLL_INTERVAL) deadline))) in
      let* row := resolve_deposit_request g account reference in
      let* now := outside (fun n => Desk.later d n woken) in
      if negb (DbInvoice.updated_at row =? initial) || (deadline <=? now) then ret (Some row)
      else poll fuel account reference initial deadline now
  end.

(** [None] stands for a poll that is still waiting. *)
Definition get_deposit_request (fuel : nat) (account : Uuid) (reference : string) (wait_for : option string) (timeout : option Z)
  : api (option DepositRequestResponse.t) :=
  let* row := resolve_deposit_request g account reference in
  let* _ := guarded (negb (is_some wait_for) && is_some timeout) (ApiError.invalid_request "timeout requires wait_for=change") in
  let* row :=
    match wait_for with
    | None => ret (Some row)
    | Some wait_for =>
        let* _ := guarded (negb (String.eqb wait_for "change")) (ApiError.invalid_request "wait_for must be change") in
        let timeout := default 30 timeout in
        let* _ := guarded (negb ((1 <=? timeout) && (timeout <=? 30)))
                    (ApiError.invalid_request "timeout must be between 1 and 30 seconds") in
        let* start := outside (fun n => Desk.later d n 0) in
        poll fuel account reference (DbInvoice.updated_at row) (start + timeout * 10 ^ 6) start
    end in
  match row with
  | Some row => let* r := to_response account row in ret (Some r)
  | None => ret None
  end.

Definition transfers (account : Uuid) (reference : string) : api (list TransferDto.t) :=
  let* row := resolve_deposit_request g account reference in
  let* r := to_response account row in
  ret (DepositRequestResponse.transfers r).

(** ** Listing and cancelling *)

Definition full_deposit_request_id (value : string) : result ApiError.t Uuid :=
  ok_or (strip_prefix "dr_" value ≫= try_parse)
    (ApiError.invalid_request "starting_after must be a complete dr_ deposit request ID").

Definition summary (row : DbInvoice.t) : result ApiError.t DepositRequestSummaryResponse.t :=
  let! invoice := map_error ApiError.of_row_error (invoice_try_from parse_address row) in
  let response := from_invoice invoice None in
  let iss := DbInvoice.issuance row in
  Ok (DepositRequestSummaryResponse.mk (DepositRequestResponse.id response) (deposit_url invoice)
        (DepositRequestResponse.heading response) (Party.name (DepositRequestResponse.payer response))
        (Issuance.reference iss) (Issuance.metadata iss) (rfc3339 (Issuance.created_at iss))
        (rfc3339 (DbInvoice.updated_at row)) (DepositRequestResponse.expires_at response)
        (DepositRequestResponse.status response) (DepositRequestResponse.amount response)
        (DepositRequestResponse.received response) (DepositRequestResponse.currency response)
        (DepositRequestResponse.verification response) (id_display CustomerId <$> Issuance.customer_id iss)
        (Issuance.issuer_id iss) (is_some (Snapshot.attachment (Invoice.issuance_snapshot invoice)))
        (rfc3339 <$> DbInvoice.verification_completed_at row) (rfc3339 <$> DbInvoice.likely_unsolicited_at row)
        (rfc3339 <$> DbInvoice.cancellation_requested_at row)).

Definition list_deposit_requests (account : Uuid) (q : ListQuery.t)
  : api (list DepositRequestSummaryResponse.t * option string) :=
  let* status := lift (optional (fun s => ok_or (DepositRequestStatus.from_str s)
                                            (ApiError.invalid_request "unknown deposit request status")) (ListQuery.status q)) in
  let* _ := guarded (match ListQuery.verification q with
                     | Some v => negb (existsb (String.eqb v) VERIFICATION_FILTERS)
                     | None => false
                     end) (ApiError.invalid_request "unknown verification filter") in
  let* limit := lift (page_limit (ListQuery.limit q)) in
  let* _ := lift match ListQuery.issuer_id q with Some i => validate_issuer_id i | None => Ok tt end in
  let* starting_after := lift (optional full_deposit_request_id (ListQuery.starting_after q)) in
  let* _ := match starting_after with
            | Some cursor =>
                let* row := fetch (fun _ db => Ok (find_by_id_for_account account cursor db)) in
                guarded (negb (is_some row))
                  (ApiError.invalid_request "starting_after does not identify one of your deposit requests")
            | None => ret tt
            end in
  let f := ListFilter.mk status (ListQuery.reference q) (ListQuery.customer_id q) (ListQuery.issuer_id q)
             (ListQuery.verification q) in
  let* rows := fetch (fun _ db => Ok (list_for_account account f starting_after limit db)) in
  let '(shown, next) := shown_page limit rows in
  let* summaries := lift (collect_results (fun kv => summary (snd kv)) shown) in
  ret (summaries, invoice_id_string <$> next).

Definition cancel_deposit_request (account : Uuid) (reference : string) : api DepositRequestResponse.t :=
  let* invoice := resolve_deposit_request g account reference in
  let* row := transact (Gateway.others g) (fun n db =>
    Ok (request_cancellation account (DbInvoice.id invoice) (Gateway.database_now g n) db)) in
  let* row := refuse_unless row ApiError.deposit_request_not_found in
  to_response account row.

End Deposits.

(** ** The long poll *)

(** [tokio::time]: instants do not go back, and a sleep does not end early. *)
Definition monotonic (d : Desk.t) : Prop := forall n t, t <= Desk.later d n t.

Section Poll.
Context `{P : Primitives} `{U : UuidText} `{N : Units} `{D : Dates} `{K : PayerKeys} (g : Gateway.t) (d : Desk.t).
Context (Hd : monotonic d).

(** A round either ends the poll or takes a quarter of a second. *)
Lemma poll_ends account reference initial deadline : forall fuel last w,
  deadline <= last + POLL_INTERVAL * Z.of_nat fuel ->
  fst (poll g d (S fuel) account reference initial deadline last w) <> Ok None.
Proof.
  induction fuel as [|fuel IH]; intros last w Hw; cbn [poll]; unfold bind at 1, outside at 1; unfold bind at 1, outside at 1; unfold bind at 1;
    destruct (resolve_deposit_request g account reference _) as [[row|e] w2]; try done; unfold bind at 1, outside at 1; cbn [World.tick];
    match goal with |- context[deadline <=? Desk.later d ?n3 (Desk.later d ?n2 (Z.max ?t0 ?t1))] =>
      pose proof (Hd n3 (Desk.later d n2 (Z.max t0 t1))); pose proof (Hd n2 (Z.max t0 t1)) end;
    pose proof (Hd (World.tick w) last); destruct (_ || _) eqn:Hb; try done; apply orb_false_iff in Hb as [_ Hb]; apply Z.leb_gt in Hb;
    unfold POLL_INTERVAL in *; [lia|]. apply IH. lia.
Qed.

End Poll.

(** A long poll ends: with a monotonic clock, a request that waits for
    a change is answered (with the row, changed or not, or an error) after at
    most four looks per second of its timeout and one more, so within the 121
    looks that the longest timeout of 30 seconds allows. *)
Theorem long_poll_ends `{P : Primitives} `{U : UuidText} `{N : Units} `{D : Dates} `{K : PayerKeys} (g : Gateway.t) (d : Desk.t)
    account reference wait_for timeout w :
  monotonic d ->
  fst (get_deposit_request g d (S (4 * Z.to_nat (default 30 timeout))) account reference wait_for timeout w) <> Ok None.
Proof.
  intros Hd. unfold get_deposit_request. unfold bind at 1. destruct (resolve_deposit_request g account reference w) as [[row|e] w1]; [|done].
  unfold bind at 1, guarded, lift. destruct (_ && _); [done|]. unfold bind at 1.
  match goal with |- fst (let (_, _) := ?c w1 in _) <> _ => assert (fst (c w1) <> Ok None) as Hr; [|destruct (c w1) as [[[r|]|e] w2]] end; try done.
  - destruct wait_for as [wait|]; [|done]. unfold bind at 1. destruct (negb _); [done|]. unfold bind at 1. destruct (negb _) eqn:Ht; [done|].
    unfold bind at 1, outside at 1. apply (poll_ends g d Hd). bools. unfold POLL_INTERVAL.
    destruct timeout as [t|]; cbn [default from_option] in *; unfold id in *; lia.
  - unfold bind. by destruct (to_response _ _ _ _) as [[]].
Qed.

(** ** The status filter *)

Lemma units_from_col_ok id v x : units_from_col id v = Ok x -> x = v.
Proof. unfold units_from_col, u256_of_numeral. intros H%ok_or_ok. destruct (_ <=? _); congruence. Qed.


Module DepositExample.
Import GatewayExample Toy IdExample IdentityExample AmountExample.

Definition json_text (v : Value) : string := match v with VString s => s | _ => "{}" end.
Definition desk : Desk.t := Desk.mk json_text id (fun _ => "not an address"%string) (fun _ => "not a number"%string)
  (fun _ => Some 86400) (fun _ => None) None (fun _ t => t + 1000).
Definition server := gateway 2000000.

(** Nothing changes, so the poll waits its second out. *)
Definition waited := get_deposit_request server desk 5 7 (invoice_id_string 1) (Some "change"%string) (Some 1) (World.mk PayerExample.issued 0).

Lemma long_poll_ends_witness :
  match waited with (Ok (Some r), w) => DepositRequestResponse.status r = AwaitingDeposit /\ (15 <= World.tick w)%nat | _ => False end /\
  fst waited <> Ok None.
Proof.
  split; [vm_compute; split; [reflexivity|lia]|]. apply (long_poll_ends server desk 7 (invoice_id_string 1) (Some "change"%string) (Some 1)).
  intros n t. cbn. lia.
Defined.

(** A paid request whose sweep needs attention. *)
Definition flagged : DbInvoice.t :=
  let row := Toy.row in {| row with DbInvoice.status := Funded; DbInvoice.attention_reason := Some "sweep_failed"%string |}.
Definition decoded : Invoice.t := match invoice_try_from parse_address flagged with Ok i => i | Err _ => Toy.invoice end.

End DepositExample.
