(* ===== verification/Placement.v ===== *)
(** * Every payment address is derived from its request

    From the handlers that allot an address ([create_deposit_request],
    [select_network], [attest]) to the row it is stored in and the request it is
    decoded into: the address is the one that the committed terms, the network
    and the salt (with the verified wallet attestation where the request asks
    for one) determine ([payment_addresses_as_committed]). *)

From Stdlib Require Import Ascii String.
From stdpp Require Import sorting pretty strings.
From S2P Require Import Prelude Queues Text Core Contracts Ids Bus Tables Registry Attachments Invoices Attribution.
From S2P Require Import Range Sweeps RelayIntents Verifications Proof ProofApi LedgerExample LedgerInv LedgerNotes LedgerRuns.
From S2P Require Import ProofExample ProofTheorems IssuedProofs.
From S2P Require Import Amounts Responses ApiError Effects Api PayerIdentity PayerPolicy PayerApi.
From S2P Require Import PayerTheorems Customers Uploads DepositApi.

Section Placement.
Context `{P : Primitives} `{!Lawful P} `{U : UuidText} `{N : Units} `{D : Dates} `{K : PayerKeys} (g : Gateway.t) (d : Desk.t).

(** ** A stored request *)

(** The request a row's issuance stands for. *)
Record terms_of (iss : Issuance.t) (i : Invoice.t) : Prop := {
  te_networks : snapshot_networks parse_address (Issuance.issuance_snapshot iss) = Some (Invoice.networks i);
  te_beneficiary : Invoice.beneficiary i = Issuance.beneficiary_address iss;
  te_expiration : Invoice.expiration_timestamp i = as_u64 (Issuance.expiration_timestamp iss);
  te_amount : Invoice.amount i = Issuance.amount iss;
  te_nonce : Invoice.issuance_nonce i = Issuance.issuance_nonce iss;
  te_hash : Invoice.attribution_hash i = Issuance.attribution_hash iss;
  te_snapshot : Invoice.issuance_snapshot i = Issuance.issuance_snapshot iss;
}.

Lemma fixed_from_col_ok n id f v x : fixed_from_col n id f v = Ok x -> x = v.
Proof. unfold fixed_from_col. case_match; congruence. Qed.

Ltac columns :=
  repeat match goal with
  | H : address_from_col _ _ _ = Ok _ |- _ => apply fixed_from_col_ok in H as ->
  | H : word_from_col _ _ _ = Ok _ |- _ => apply fixed_from_col_ok in H as ->
  | H : units_from_col _ _ = Ok _ |- _ => apply units_from_col_ok in H as ->
  | H : ok_or _ _ = Ok _ |- _ => apply ok_or_ok in H
  end.

Lemma decoded_terms row i : invoice_try_from parse_address row = Ok i -> terms_of (DbInvoice.issuance row) i.
Proof.
  unfold invoice_try_from. intros H. repeat (apply rbind_ok in H as (? & ? & H)). injection H as <-. columns. by split.
Qed.

Lemma same_terms iss i i' : terms_of iss i -> terms_of iss i' ->
  Invoice.networks i' = Invoice.networks i /\ Invoice.beneficiary i' = Invoice.beneficiary i /\
  Invoice.expiration_timestamp i' = Invoice.expiration_timestamp i /\ Invoice.amount i' = Invoice.amount i /\
  Invoice.issuance_nonce i' = Invoice.issuance_nonce i /\ Invoice.attribution_hash i' = Invoice.attribution_hash i /\
  Invoice.issuance_snapshot i' = Invoice.issuance_snapshot i.
Proof. intros [] []. split_and!; congruence. Qed.

(** A binding is one of the terms, whichever request was read from them. *)
Lemma bound_terms iss i i' b a v : terms_of iss i -> terms_of iss i' -> bound i b a v -> bound i' b a v.
Proof.
  intros H H' [B1 B2 B3 B4 B5 B6 B7]. destruct (same_terms _ _ _ H H') as (E1 & E2 & E3 & E4 & E5 & E6 & E7).
  unfold network_for, recovery, address_of, wallet_attestation_required in *.
  split; unfold network_for, recovery, address_of, wallet_attestation_required; rewrite ?E1, ?E2, ?E3, ?E4, ?E5, ?E6, ?E7; done.
Qed.

Definition evidence (b : PaymentBinding.t) : option (Address * Json) :=
  (fun w => (WalletEvidence.payer_wallet w, WalletEvidence.attestation w)) <$> PaymentBinding.wallet b.

Record columns_hold (c : Binding.t) (b : PaymentBinding.t) : Prop := {
  ch_chain : Binding.chain_id c = Some (as_i64 (NetworkTerms.chain_id (PaymentBinding.network b)));
  ch_factory : Binding.factory_address c = Some (NetworkTerms.factory (PaymentBinding.network b));
  ch_token : Binding.token_address c = Some (NetworkTerms.token (PaymentBinding.network b));
  ch_salt : Binding.salt c = Some (PaymentBinding.salt b);
  ch_address : Binding.payment_address c = Some (PaymentBinding.payment_address b);
  ch_wallet : Binding.payer_wallet c = fst <$> evidence b;
  ch_attestation : Binding.payer_attestation c = snd <$> evidence b;
}.

(** The recovery column is the snapshot's recovery address, and a row's address,
    once it has one, is bound to the row's own terms. *)
Record placed (row : DbInvoice.t) : Prop := {
  pl_recovery : forall i, terms_of (DbInvoice.issuance row) i -> recovery i = Some (Issuance.recovery_address (DbInvoice.issuance row));
  pl_bound : match Binding.payment_address (DbInvoice.binding row) with
             | None => Binding.payer_wallet (DbInvoice.binding row) = None /\ Binding.payer_attestation (DbInvoice.binding row) = None
             | Some _ => exists i b a v, terms_of (DbInvoice.issuance row) i /\ bound i b a v /\ columns_hold (DbInvoice.binding row) b
             end;
}.

Lemma i64_roundtrip n : 0 <= n <= u64_max -> as_u64 (as_i64 n) = n.
Proof.
  unfold as_u64, as_i64, u64_max. intros H. destruct (Z.ltb_spec n (2 ^ 63)); [by apply Z.mod_small; lia|].
  rewrite <- (Z_mod_plus_full _ 1). rewrite Z.mod_small; lia.
Qed.

Lemma bound_chain iss i b a v : terms_of iss i -> bound i b a v -> 0 <= NetworkTerms.chain_id (PaymentBinding.network b) <= u64_max.
Proof.
  intros Ht Hb. pose proof (bo_network _ _ _ _ Hb) as Hf. unfold network_for in Hf. apply List.find_some in Hf as [Hin _].
  eapply typed_network_terms; [exact (te_networks _ _ Ht)|by apply list_elem_of_In].
Qed.

Lemma wallet_of_row_evidence row o c : wallet_of_row row = Ok o -> Binding.payer_wallet (DbInvoice.binding row) = fst <$> c ->
  Binding.payer_attestation (DbInvoice.binding row) = snd <$> c ->
  (fun w => (WalletEvidence.payer_wallet w, WalletEvidence.attestation w)) <$> o = c.
Proof.
  unfold wallet_of_row. intros H E1 E2. rewrite E1, E2 in H. destruct c as [[wallet att]|]; cbn in H; [|by injection H as <-].
  apply rbind_ok in H as (? & ? & H). apply rbind_ok in H as (? & _ & H). columns. by injection H as <-.
Qed.

(** The request read back from a placed row has an address of its terms. *)
Lemma placed_decoded row i b : placed row -> invoice_try_from parse_address row = Ok i -> Invoice.binding i = Some b ->
  exists a v, bound i b a v.
Proof.
  intros [Hrec Hpl] Hi Hb. pose proof (decoded_terms _ _ Hi) as Ht. unfold invoice_try_from in Hi.
  apply rbind_ok in Hi as (o & Ho & Hi). assert (o = Some b) as ->.
  { repeat (apply rbind_ok in Hi as (? & ? & Hi)). injection Hi as <-. exact Hb. }
  clear Hi. destruct (Binding.payment_address (DbInvoice.binding row)) as [addr|] eqn:Ha; [|done].
  destruct Hpl as (i0 & b0 & a & v & Ht0 & Hb0 & Hc). apply rbind_ok in Ho as (b1 & Ho & [= ->]).
  pose proof (bound_terms _ _ _ _ _ _ Ht0 Ht Hb0) as Hbi. pose proof (bound_chain _ _ _ _ _ Ht Hbi) as Hch. exists a, v.
  specialize (Hrec i Ht). unfold binding_of_row in Ho. cbv zeta in Ho. destruct Hc as [C1 C2 C3 C4 C5 C6 C7].
  rewrite C1, C2, C3, C4 in Ho. cbn in Ho.
  repeat (apply rbind_ok in Ho as (? & ? & Ho)). columns. injection Ho as <-.
  destruct Hbi as [B1 B2 B3 B4 B5 B6 B7]. rewrite Ha in C5. injection C5 as ->.
  assert (NetworkTerms.mk (as_u64 (as_i64 (NetworkTerms.chain_id (PaymentBinding.network b0))))
    (NetworkTerms.token (PaymentBinding.network b0)) (NetworkTerms.factory (PaymentBinding.network b0)) = PaymentBinding.network b0) as En
    by (rewrite i64_roundtrip by done; by destruct (PaymentBinding.network b0)).
  assert (PaymentBinding.recovery b0 = Issuance.recovery_address (DbInvoice.issuance row)) as Er by congruence.
  split; cbn; rewrite ?En, <- ?Er, ?i64_roundtrip by done; try done.
  rewrite (wallet_of_row_evidence _ _ _ ltac:(eassumption) C6 C7). exact B7.
Qed.

(** ** What may happen to a request *)

(** An input that [create_deposit_request] builds. *)
Definition built (input : CreateInvoiceInput.t) : Prop :=
  exists account key req payer t commitment now id nonce utc,
    0 <= now /\ validate_expiration_window (Terms.expiration t) now = Ok tt /\
    fresh_input g d account key req payer t commitment now id nonce utc = Ok input.

Inductive gum_step (db : Db.t) : Db.t -> Prop :=
| gum_issue input a utc now r db' : built input ->
    insert_issued hex_encode_prefixed input a utc now db = Ok (r, db') -> gum_step db db'
| gum_network id row i chain at_ b utc now r db' :
    Db.invoices db !! id = Some row -> terms_of (DbInvoice.issuance row) i -> bind_to_network i chain at_ = Ok b ->
    bind_network id b utc now db = Ok (r, db') -> gum_step db db'
| gum_wallet id row i chain a at_ b session attempt utc now r db' :
    Db.invoices db !! id = Some row -> terms_of (DbInvoice.issuance row) i -> bind_to_wallet i chain a at_ = Ok b ->
    bind_payer_wallet id session attempt b utc now db = Ok (r, db') -> gum_step db db'
| gum_elsewhere db' : keeps_terms db db' -> gum_step db db'.

Definition addresses_ok (db : Db.t) : Prop :=
  forall id row, Db.invoices db !! id = Some row -> DbInvoice.id row = id /\ placed row.

Lemma kept_addresses db db' : keeps_terms db db' -> addresses_ok db -> addresses_ok db'.
Proof.
  intros Hk Hok id row' Hrow'. specialize (Hk id). rewrite Hrow' in Hk. destruct (Db.invoices db !! id) as [row|] eqn:Hrow; [|done].
  injection Hk as E1 E2. destruct (Hok id row Hrow) as [Hid [H1 H2]]. unfold DbInvoice.id in *. rewrite E1. split; [done|]. split; rewrite ?E1, ?E2; done.
Qed.

Lemma insert_addresses id row db db' : Db.invoices db' = <[id := row]> (Db.invoices db) -> DbInvoice.id row = id -> placed row ->
  addresses_ok db -> addresses_ok db'.
Proof. intros E Hid Hp Hok k r. rewrite E. intros [[<- <-]|[Hne Hr]]%lookup_insert_Some; [done|by apply Hok]. Qed.

(** The parts of an issued input. *)
Lemma built_terms input : built input -> exists i,
  terms_of (DbInvoice.issuance (issued_row input 0 0)) i /\ recovery i = Some (CreateInvoiceInput.recovery_address input) /\
  match CreateInvoiceInput.initial_binding input with
  | None => True
  | Some b => exists chain at_, bind_to_network i chain at_ = Ok b
  end.
Proof.
  intros (account & key & req & payer & t & commitment & now & id & nonce & utc & Hnow & Hwin & H).
  unfold fresh_input in H. apply rbind_ok in H as (i & Hi & H). unfold map_error in Hi.
  destruct (issue _ _ _ _ _ _ _ _ _) as [i0|] eqn:Hiss; [injection Hi as ->|done].
  apply rbind_ok in H as (base & Hbase & H). apply ok_or_ok in Hbase. unfold input_from_invoice in Hbase.
  apply bind_Some in Hbase as (r & Hr & [= <-]). apply rbind_ok in H as (b & Hb & H). injection H as <-. exists i.
  unfold issue in Hiss. cbv zeta in Hiss. apply rbind_ok in Hiss as ([] & Hf%check_fields_ok & Hiss).
  apply rbind_ok in Hiss as ([] & _ & Hiss). apply rbind_ok in Hiss as (material & _ & Hiss).
  apply rbind_ok in Hiss as (typed & Ht & Hiss). apply ok_or_ok in Ht. injection Hiss as <-.
  unfold issue_checks in Hf. repeat (apply list.Forall_cons in Hf as [? Hf]). clear Hf. cbn [snd] in *. bools.
  split_and!; [|exact Hr|].
  - split; try reflexivity; [|].
    + change (snapshot_networks parse_address (request_snapshot g req payer t commitment) = Some typed).
      unfold typed_networks, snapshot_networks in *. match goal with H : Snapshot.networks _ = _ |- _ => rewrite H end. exact Ht.
    + cbn. rewrite i64_roundtrip; [done|]. unfold validate_expiration_window, u64_saturating_add in Hwin.
      assert (0 <= MIN_EXPIRATION_LEAD_SECS) by (by vm_compute). repeat case_match; bools; try done; unfold u64_max in *; lia.
  - cbn. destruct b as [b|]; [|done]. case_match; [done|]. repeat case_match; try done.
    apply rbind_ok in Hb as (b1 & Hb & [= ->]). destruct (bind_to_network _ _ _) eqn:E; [injection Hb as ->|done]. by eauto.
Qed.

Lemma network_columns b ready : PaymentBinding.wallet b = None -> columns_hold (columns_of_binding b ready) b.
Proof. intros Hw. split; try done; unfold evidence; by rewrite Hw. Qed.

Lemma network_unattested i chain at_ b : bind_to_network i chain at_ = Ok b -> PaymentBinding.wallet b = None.
Proof.
  unfold bind_to_network. destruct (wallet_attestation_required i); [done|]. intros (n & _ & H)%rbind_ok. apply rbind_ok in H as (r & _ & H). by injection H as <-.
Qed.

Lemma issued_placed input utc now : built input -> placed (issued_row input utc now).
Proof.
  intros (i & Ht & Hr & Hb)%built_terms.
  assert (terms_of (DbInvoice.issuance (issued_row input utc now)) i) as Ht' by (destruct Ht; by split).
  split.
  - intros i' Hi'. destruct (same_terms _ _ _ Ht' Hi') as (_ & _ & _ & _ & _ & _ & E). unfold recovery in *. rewrite E. exact Hr.
  - cbn. destruct (CreateInvoiceInput.initial_binding input) as [b|]; cbn; [|done]. destruct Hb as (chain & at_ & Hb).
    destruct (bind_request_bound i chain None at_ b Hb) as [v Hv]. exists i, b, None, v. split_and!; [done|done|].
    by eapply network_columns, network_unattested.
Qed.

Lemma issue_addresses input a utc now db r db' : built input ->
  insert_issued hex_encode_prefixed input a utc now db = Ok (r, db') -> addresses_ok db -> addresses_ok db'.
Proof.
  intros Hb H Hok. unfold insert_issued in H. destruct (find_by_idempotency_key _ _ _); [by inv_ok|].
  repeat (case_match; try discriminate).
  all: try (apply rbind_ok in H as ([att db2] & Ha & H)).
  all: injection H as <- <-; repeat case_match; inv_ok; try discriminate.
  all: try match goal with H : Attachment.attach_in_transaction _ _ _ _ _ = _ |- _ =>
    apply Attachment.attach_update in H; unfold Attachment.update_upload in H; repeat case_match; inv_ok end.
  all: by eapply insert_addresses; [|..|exact Hok]; [reflexivity|reflexivity|by apply issued_placed].
Qed.

Lemma bind_network_addresses id row i chain at_ b utc now db r db' :
  Db.invoices db !! id = Some row -> terms_of (DbInvoice.issuance row) i -> bind_to_network i chain at_ = Ok b ->
  bind_network id b utc now db = Ok (r, db') -> addresses_ok db -> addresses_ok db'.
Proof.
  intros Hrow Ht Hb H Hok. unfold bind_network in H. rewrite Hrow in H. cbn [ok_or rbind] in H.
  destruct (_ && _) eqn:Hg; [|case_match; by injection H as <- <-]. cbv zeta in H. apply rbind_ok in H as (db1 & Hst & [= <- <-]).
  unfold store_invoice in Hst. repeat case_match; try discriminate. injection Hst as <-. destruct (Hok id row Hrow) as [Hid [Hrec Hpl]].
  unfold DbInvoice.payment_address in Hg. bools. destruct (Binding.payment_address (DbInvoice.binding row)); [done|]. destruct Hpl as [Hw Ha].
  eapply insert_addresses; [reflexivity|exact Hid| |exact Hok]. split; [exact Hrec|]. cbn.
  destruct (bind_request_bound i chain None at_ b Hb) as [v Hv]. exists i, b, None, v. split_and!; [done|done|].
  apply network_unattested in Hb. split; cbn; try done; unfold evidence; by rewrite Hb.
Qed.

Lemma bind_wallet_addresses id row i chain a at_ b session attempt utc now db r db' :
  Db.invoices db !! id = Some row -> terms_of (DbInvoice.issuance row) i -> bind_to_wallet i chain a at_ = Ok b ->
  bind_payer_wallet id session attempt b utc now db = Ok (r, db') -> addresses_ok db -> addresses_ok db'.
Proof.
  intros Hrow Ht Hb H Hok. unfold bind_payer_wallet in H. rewrite Hrow in H. cbn [ok_or rbind] in H.
  destruct (is_some _); [by injection H as <- <-|]. destruct (_ || _); [by injection H as <- <-|].
  apply rbind_ok in H as (wallet & Hw%ok_or_ok & H). cbv zeta in H. apply rbind_ok in H as (db1 & Hst & H).
  unfold store_invoice in Hst. repeat case_match; try discriminate. injection Hst as <-. injection H as <- <-.
  destruct (Hok id row Hrow) as [Hid [Hrec _]]. eapply insert_addresses; [reflexivity|exact Hid| |exact Hok]. split; [exact Hrec|]. cbn.
  destruct (bind_request_bound i chain (Some a) at_ b Hb) as [v Hv]. exists i, b, (Some a), v. split_and!; [done|done|].
  split; cbn; try done; unfold evidence; by rewrite Hw.
Qed.

Lemma gum_step_addresses db db' : gum_step db db' -> addresses_ok db -> addresses_ok db'.
Proof.
  intros []; eauto using issue_addresses, bind_network_addresses, bind_wallet_addresses, kept_addresses.
Qed.

(** Every other transaction of the ledger is one of these steps. *)
Lemma ledger_step_gum hash parse hex db db' : ledger_step hash parse hex db db' -> ledger_ok db ->
  gum_step db db' \/
  (exists input a utc now r, insert_issued hex input a utc now db = Ok (r, db')) \/
  (exists id session attempt b utc now r, bind_payer_wallet id session attempt b utc now db = Ok (r, db')) \/
  (exists id b utc now r, bind_network id b utc now db = Ok (r, db')).
Proof. intros Hs Hok. destruct (other_steps_keep _ _ _ _ _ Hs Hok) as [H|H]; [left; by apply gum_elsewhere|by right]. Qed.

(** ** Handlers *)

Context (db0 : Db.t) {Others : Interference (Gateway.others g) gum_step addresses_ok db0}.

Abbreviation at_ F := (fun w => ready gum_step db0 F (World.db w)) (only parsing).
Abbreviation somewhere := (fun _ => at_ (fun _ => True)) (only parsing).

(** Computations that only read: the others run in between. *)
Definition reads {E A} (c : eff E World.t A) : Prop := moves (fun w w' => rtc gum_step (World.db w) (World.db w')) c.

#[local] Instance run_preorder : PreOrder (fun w w' : World.t => rtc gum_step (World.db w) (World.db w')).
Proof. split; [by intros w|]. intros a b c H1 H2. by etrans. Qed.

Lemma reads_fetch {A} (f : nat -> Db.t -> result DbError A) : reads (fetch (Gateway.others g) f).
Proof.
  intros w. unfold fetch, query, transact. destruct (f _ _); cbn; apply (others_run (Interference := Others)).
Qed.

Lemma reads_lift {E A} (r : result E A) : reads (lift r).
Proof. intros w. cbn. reflexivity. Qed.

Lemma reads_outside {E A} (f : nat -> A) : reads (outside (E := E) f).
Proof. intros w. cbn. reflexivity. Qed.

Lemma reads_bind {E A B} (c : eff E World.t A) (k : A -> eff E World.t B) : reads c -> (forall a, reads (k a)) -> reads (bind c k).
Proof. intros. apply moves_bind; [apply _|done|done]. Qed.

Lemma reads_ret {E A} (a : A) : reads (ret a : eff E World.t A).
Proof. intros w. cbn. reflexivity. Qed.

Lemma reads_throw {E A} (e : E) : reads (throw e : eff E World.t A).
Proof. intros w. cbn. reflexivity. Qed.

Lemma reads_outcome {E A} (c : eff E World.t A) : reads c -> reads (outcome c).
Proof. intros H w. specialize (H w). unfold outcome. by destruct (c w). Qed.

Ltac reading := repeat first
  [apply reads_bind; [|intros ?]|apply reads_fetch|apply reads_lift|apply reads_outside|apply reads_ret|apply reads_throw
  |apply reads_outcome|case_match].

Lemma authorized_reads id token : reads (authorized_invoice g id token).
Proof. unfold authorized_invoice, parse_invoice_id, invoice_row, active_session, refuse_unless, decode. reading. Qed.

Lemma answer_reads id token : reads (let* access := authorized_invoice g id token in respond g access).
Proof. apply reads_bind; [apply authorized_reads|intros a]. unfold respond. reading. Qed.

Lemma to_response_reads account row : reads (to_response g account row).
Proof. unfold to_response, response_metadata. reading. Qed.

Lemma reads_triple {A} F (c : api A) : stable gum_step addresses_ok F -> reads c ->
  triple (at_ F) c (fun _ w => ready gum_step db0 F (World.db w) /\ True) somewhere.
Proof.
  intros HF Hc w HR. specialize (Hc w). pose proof (ready_run (Gateway.others g) (ok := addresses_ok) F _ _ HF Hc HR) as HR'.
  destruct (c w) as [[a|e] w']; cbn in *; [done|]. destruct HR'. by split.
Qed.

Lemma reads_end {A} F (c : api A) : stable gum_step addresses_ok F -> reads c -> triple (at_ F) c somewhere somewhere.
Proof.
  intros HF Hc. eapply triple_weaken; [apply (reads_triple F c HF Hc)|done| |done]. intros a w [[Hr _] _]. by split.
Qed.

(** A request keeps its terms for good. *)
Definition known (id : Uuid) (iss : Issuance.t) (db : Db.t) : Prop :=
  exists row, Db.invoices db !! id = Some row /\ DbInvoice.issuance row = iss.

Lemma known_insert id iss k row' db db' : Db.invoices db' = <[k := row']> (Db.invoices db) ->
  (forall row, Db.invoices db !! k = Some row -> DbInvoice.issuance row' = DbInvoice.issuance row) -> known id iss db -> known id iss db'.
Proof.
  intros E Hk (row & Hrow & Hiss). unfold known. rewrite E. destruct (decide (k = id)) as [->|Hne].
  - rewrite lookup_insert_eq. exists row'. split; [done|]. by rewrite (Hk row Hrow).
  - rewrite lookup_insert_ne by done. by exists row.
Qed.

Lemma issue_invoices input a utc now db r db' : insert_issued hex_encode_prefixed input a utc now db = Ok (r, db') ->
  Db.invoices db' = Db.invoices db \/ exists row, Db.invoices db !! CreateInvoiceInput.id input = None /\
    Db.invoices db' = <[CreateInvoiceInput.id input := row]> (Db.invoices db).
Proof.
  unfold insert_issued. intros H. destruct (find_by_idempotency_key _ _ _); [left; by inv_ok|].
  destruct (Db.invoices db !! CreateInvoiceInput.id input) eqn:E; [done|]. right. repeat (case_match; try discriminate).
  all: try (apply rbind_ok in H as ([att db2] & Ha & H)).
  all: injection H as <- <-; repeat case_match; inv_ok; try discriminate.
  all: try match goal with H : Attachment.attach_in_transaction _ _ _ _ _ = _ |- _ =>
    apply Attachment.attach_update in H; unfold Attachment.update_upload in H; repeat case_match; inv_ok end.
  all: by eexists.
Qed.

Lemma bind_network_invoices id b utc now db r db' : bind_network id b utc now db = Ok (r, db') ->
  Db.invoices db' = Db.invoices db \/ exists row row', Db.invoices db !! id = Some row /\
    Db.invoices db' = <[id := row']> (Db.invoices db) /\ DbInvoice.issuance row' = DbInvoice.issuance row.
Proof.
  unfold bind_network. intros (row & Hrow%ok_or_ok & H)%rbind_ok. destruct (_ && _); [|left; case_match; by injection H as <- <-].
  apply rbind_ok in H as (db1 & Hst & [= <- <-]). unfold store_invoice in Hst. repeat case_match; try discriminate. injection Hst as <-.
  right. by eexists row, _.
Qed.

Lemma bind_wallet_invoices id session attempt b utc now db r db' : bind_payer_wallet id session attempt b utc now db = Ok (r, db') ->
  Db.invoices db' = Db.invoices db \/ exists row row', Db.invoices db !! id = Some row /\
    Db.invoices db' = <[id := row']> (Db.invoices db) /\ DbInvoice.issuance row' = DbInvoice.issuance row.
Proof.
  unfold bind_payer_wallet. intros (row & Hrow%ok_or_ok & H)%rbind_ok. destruct (is_some _); [left; by injection H as <- <-|].
  destruct (_ || _); [left; by injection H as <- <-|].
  apply rbind_ok in H as (wallet & _ & H). cbv zeta in H. apply rbind_ok in H as (db1 & Hst & H).
  unfold store_invoice in Hst. repeat case_match; try discriminate. injection Hst as <-. injection H as <- <-.
  right. by eexists row, _.
Qed.

Lemma known_stable id iss : stable gum_step addresses_ok (known id iss).
Proof.
  intros db db' Hs _ Hk. assert (Db.invoices db' = Db.invoices db -> known id iss db') as Hsame by (intros E; unfold known; by rewrite E).
  destruct Hs as [input a utc now r d' _ H|k row i chain at_ b utc now r d' _ _ _ H|k row i chain a at_ b s t utc now r d' _ _ _ H|d' H].
  - apply issue_invoices in H as [E|(row & Hn & E)]; [by apply Hsame|]. eapply known_insert; [exact E| |exact Hk]. intros row0. by rewrite Hn.
  - apply bind_network_invoices in H as [E|(r0 & r1 & Hr & E & Ei)]; [by apply Hsame|]. eapply known_insert; [exact E| |exact Hk]. intros r2. congruence.
  - apply bind_wallet_invoices in H as [E|(r0 & r1 & Hr & E & Ei)]; [by apply Hsame|]. eapply known_insert; [exact E| |exact Hk]. intros r2. congruence.
  - destruct Hk as (row & Hrow & Hiss). specialize (H id). rewrite Hrow in H. unfold known.
    destruct (Db.invoices d' !! id) as [row'|]; [|done]. injection H as E1 _. exists row'. split; [done|congruence].
Qed.

Lemma step_triple {A} F (f : nat -> Db.t -> result ApiError.t (A * Db.t)) : stable gum_step addresses_ok F ->
  (forall n db a db', F db -> f n db = Ok (a, db') -> gum_step db db') ->
  triple (at_ F) (transact (Gateway.others g) f) (fun a w => ready gum_step db0 F (World.db w) /\ True) somewhere.
Proof.
  intros HF Hf. eapply triple_weaken; [eapply (transact_triple (ok := addresses_ok) (Gateway.others g) F f HF)|done| |done]; [|by intros a w H].
  intros n db a db' _ HFd Hr. apply rtc_once. by eapply Hf.
Qed.

(** The open request a payer chooses a network or attests a wallet for. *)
Lemma open_invoice_triple id :
  triple (at_ (fun _ => True)) (open_invoice g id)
    (fun ri w => ready gum_step db0 (known (DbInvoice.id (fst ri)) (DbInvoice.issuance (fst ri))) (World.db w) /\
       invoice_try_from parse_address (fst ri) = Ok (snd ri)) somewhere.
Proof.
  unfold open_invoice. eapply triple_bind; [apply refuse_triple|]. intros uuid.
  eapply triple_weaken with (P' := at_ (fun _ => True)); [|by intros w [H _]|intros ? ? H; exact H|intros ? ? H; exact H].
  unfold invoice_row. eapply triple_bind with (M := fun row => at_ (known (DbInvoice.id row) (DbInvoice.issuance row))).
  { eapply triple_bind; [apply (fetch_triple (ok := addresses_ok) (Gateway.others g)), stable_true|]. intros o w [[Hr _] (n & [= Ho])].
    unfold refuse_unless, lift. destruct o as [row|]; cbn; [|by split]. split; [done|]. exists row. split; [|done].
    by destruct (steps_ok (ok := addresses_ok) (Gateway.others g) _ _ Hr ok_before uuid row Ho) as [-> _]. }
  intros row. eapply triple_bind; [apply decode_triple|]. intros i.
  eapply triple_bind with (M := fun _ w => ready gum_step db0 (known (DbInvoice.id row) (DbInvoice.issuance row)) (World.db w) /\
    invoice_try_from parse_address row = Ok i).
  { intros w H. exact H. }
  intros utc. eapply triple_bind with (M := fun _ w => ready gum_step db0 (known (DbInvoice.id row) (DbInvoice.issuance row)) (World.db w) /\
    invoice_try_from parse_address row = Ok i).
  { intros w [HR Hi]. unfold guarded, lift. destruct (_ || _); [|by split]. destruct HR. by split. }
  intros []. by apply triple_ret.
Qed.

Lemma opened_triple {A} id (k : DbInvoice.t * Invoice.t -> api A) :
  (forall row i, invoice_try_from parse_address row = Ok i ->
     triple (at_ (known (DbInvoice.id row) (DbInvoice.issuance row))) (k (row, i)) somewhere somewhere) ->
  triple (at_ (fun _ => True)) (bind (open_invoice g id) k) somewhere somewhere.
Proof. intros Hk. eapply triple_bind; [apply open_invoice_triple|]. intros [row i] w [HR Hi]. by apply Hk. Qed.

Lemma known_terms id row i db : known id (DbInvoice.issuance row) db -> invoice_try_from parse_address row = Ok i ->
  exists r, Db.invoices db !! id = Some r /\ terms_of (DbInvoice.issuance r) i.
Proof. intros (r & Hr & E) Hi. exists r. split; [done|]. rewrite E. by apply decoded_terms. Qed.

Lemma select_refines id header chain_id :
  triple (at_ (fun _ => True)) (select_network g id header chain_id) somewhere somewhere.
Proof.
  unfold select_network. apply opened_triple. intros row i Hi. set (F := known (DbInvoice.id row) (DbInvoice.issuance row)).
  assert (stable gum_step addresses_ok F) as HF by apply known_stable.
  eapply then_triple; [apply guarded_triple|]. intros [] _. eapply then_triple; [apply lift_triple|]. intros chain _.
  eapply then_triple; [apply reads_triple; [done|]|].
  { unfold check_select_session, active_session, refuse_unless, guarded. reading. }
  intros [] _. destruct (Invoice.binding i) as [binding|].
  { case_match; [apply reads_end; [done|apply answer_reads]|apply triple_throw; intros w [Hr _]; by split]. }
  eapply then_triple; [apply reads_triple; [done|apply reads_outside]|]. intros now _.
  eapply then_triple; [apply lift_triple|]. intros b Hb. eapply then_triple; [apply step_triple; [done|]|].
  { intros n db out db' HFd H. destruct (bind_network _ _ _ _ _) as [[out' db1]|] eqn:E; [|done]. injection H as <- <-.
    destruct (known_terms _ _ _ _ HFd Hi) as (r & Hr & Ht). destruct (bind_to_network i chain now) as [b0|e] eqn:Eb; [|by destruct e].
    injection Hb as ->. by eapply gum_network. }
  intros out _. eapply then_triple; [apply lift_triple|]. intros [] _. apply reads_end; [done|apply answer_reads].
Qed.

Lemma attest_refines id header wallet signature :
  triple (at_ (fun _ => True)) (attest g id header wallet signature) somewhere somewhere.
Proof.
  unfold attest. eapply then_triple; [apply lift_triple|]. intros wallet_ _. eapply then_triple; [apply lift_triple|]. intros sig _.
  apply opened_triple. intros row i Hi. set (F := known (DbInvoice.id row) (DbInvoice.issuance row)).
  assert (stable gum_step addresses_ok F) as HF by apply known_stable.
  eapply then_triple; [apply refuse_triple|]. intros token _.
  eapply then_triple; [apply reads_triple; [done|unfold active_session; reading]|]. intros session _.
  eapply then_triple; [apply refuse_triple|]. intros [session_id s] _. eapply then_triple; [apply guarded_triple|]. intros [] _.
  eapply then_triple; [apply reads_triple; [done|apply reads_outside]|]. intros now _.
  eapply then_triple; [apply refuse_triple|]. intros c _. cbv zeta. eapply then_triple; [apply refuse_triple|]. intros n _.
  eapply then_triple; [apply lift_triple|]. intros b Hb. eapply then_triple; [apply step_triple; [done|]|].
  { intros k db out db' HFd H. destruct (bind_payer_wallet _ _ _ _ _ _ _) as [[out' db1]|] eqn:E; [|done]. injection H as <- <-.
    destruct (known_terms _ _ _ _ HFd Hi) as (r & Hr & Ht). destruct (bind_to_wallet _ _ _ _) as [b0|e] eqn:Eb; [|done].
    injection Hb as ->. by eapply gum_wallet. }
  intros out _. eapply then_triple; [apply lift_triple|]. intros [] _. apply reads_end; [done|apply answer_reads].
Qed.

(** Statements that do not touch the requests. *)
Lemma expire_elsewhere account a : triple (at_ (fun _ => True)) (expire g account a) (fun _ w => ready gum_step db0 (fun _ => True) (World.db w) /\ True) somewhere.
Proof.
  unfold expire. eapply triple_bind; [apply step_triple; [apply stable_true|]|by intros r; apply triple_ret].
  intros n db r db' _ H. apply gum_elsewhere, same_invoices_keep. unfold update, db_result, Attachment.mark_expired, Attachment.update_upload in H.
  repeat case_match; try discriminate; simplify_eq; by inv_ok.
Qed.

Lemma mint_elsewhere id account : triple (at_ (fun _ => True)) (mint_secret g id account) (fun _ w => ready gum_step db0 (fun _ => True) (World.db w) /\ True) somewhere.
Proof.
  apply step_triple; [apply stable_true|]. intros n db r db' _ H. apply gum_elsewhere, same_invoices_keep.
  unfold db_result, create_client_secret in H. repeat case_match; try discriminate; simplify_eq; by inv_ok.
Qed.

Lemma called_reads {A} b (f : Storage.t -> result StorageError A) : reads (called b f).
Proof. unfold called. reading. Qed.

Lemma tagged_reads b key version state : reads (set_upload_state b key version state).
Proof. unfold set_upload_state. apply reads_bind; [apply called_reads|intros; apply called_reads]. Qed.

Lemma claim_elsewhere account a : triple (at_ (fun _ => True)) (claim_attachment g d account a)
  (fun _ w => ready gum_step db0 (fun _ => True) (World.db w) /\ True) somewhere.
Proof.
  unfold claim_attachment. destruct a as [a|]; [|by apply triple_ret].
  eapply triple_bind; [apply lift_triple|]. intros []. eapply triple_weaken with (P' := at_ (fun _ => True)); [|by intros w [H _]|intros ? ? H; exact H|intros ? ? H; exact H].
  eapply triple_bind; [apply refuse_triple|]. intros b. eapply triple_weaken with (P' := at_ (fun _ => True)); [|by intros w [H _]|intros ? ? H; exact H|intros ? ? H; exact H].
  eapply triple_bind; [apply (reads_triple (fun _ => True)); [apply stable_true|apply reads_outcome, tagged_reads]|]. intros r.
  eapply triple_weaken with (P' := at_ (fun _ => True)); [|by intros w [H _]|intros ? ? H; exact H|intros ? ? H; exact H].
  assert (forall e, triple (at_ (fun _ => True)) (throw e : api unit) (fun _ w => ready gum_step db0 (fun _ => True) (World.db w) /\ True) somewhere) as Hthrow
    by (intros e; by apply triple_throw).
  destruct r as [[]|e]; [by apply triple_ret|]. repeat case_match; try apply Hthrow. subst.
  eapply triple_bind; [apply expire_elsewhere|]. intros u. eapply triple_weaken; [apply Hthrow|by intros w [H _]|done|done].
Qed.

Lemma release_reads account a : reads (release_attachment g d account a).
Proof.
  unfold release_attachment, attachment_store, refuse_unless. destruct a as [a|]; [|apply reads_ret]. apply reads_bind; [apply reads_fetch|].
  intros c. repeat case_match; try apply reads_ret. apply reads_bind; [apply reads_lift|]. intros b.
  apply reads_bind; [apply reads_outcome, tagged_reads|intros; apply reads_ret].
Qed.

Lemma persist_refines account req t a input : built input -> triple (at_ (fun _ => True)) (persist g d account req t a input) somewhere somewhere.
Proof.
  intros Hb. pose proof (stable_true (step := gum_step) (ok := addresses_ok)) as HT. unfold persist.
  eapply then_triple; [apply step_triple; [done|]|].
  { intros n db out db' _ H. destruct (insert_issued _ _ _ _ _ _) as [[r db1]|e] eqn:E; [|by injection H as <- <-; apply gum_elsewhere, same_invoices_keep].
    injection H as <- <-. by eapply gum_issue. }
  intros [issued|e] _.
  - eapply then_triple; [apply reads_triple; [done|unfold response_metadata; reading]|]. intros [transfers freshness] _.
    eapply then_triple; [apply lift_triple|]. intros response _. case_match; [by apply triple_ret|]. case_match; [|by apply triple_ret].
    eapply then_triple; [apply mint_elsewhere|]. intros [secret ex] _. by apply triple_ret.
  - eapply then_triple; [apply reads_triple; [done|apply release_reads]|]. intros [] _. apply triple_throw. intros w H. exact H.
Qed.

Lemma create_deposit_refines account header req :
  triple (at_ (fun _ => True)) (create_deposit_request g d account header req) somewhere somewhere.
Proof.
  pose proof (stable_true (step := gum_step) (ok := addresses_ok)) as HT. unfold create_deposit_request.
  eapply then_triple; [apply lift_triple|]. intros key _.
  eapply then_triple; [apply reads_triple; [done|unfold refuse_unless; reading]|]. intros customer _.
  eapply then_triple; [apply lift_triple|]. intros payer _. eapply then_triple; [apply reads_triple; [done|apply reads_outside]|]. intros utc _.
  cbv zeta. eapply then_triple; [apply lift_triple|]. intros t _.
  eapply then_triple; [apply reads_triple; [done|unfold refuse_unless; reading]|]. intros a _.
  eapply then_triple; [apply reads_triple; [done|apply reads_fetch]|]. intros [row|] _.
  { case_match; [|by apply triple_throw]. apply reads_end; [done|]. apply reads_bind; [apply to_response_reads|intros; apply reads_ret]. }
  eapply then_triple; [apply reads_triple; [done|apply reads_fetch]|]. intros verified _.
  eapply then_triple; [apply guarded_triple|]. intros [] _. eapply then_triple; [apply lift_triple|]. intros [] Hwin.
  eapply then_triple; [apply claim_elsewhere|]. intros [] _.
  eapply then_triple; [apply reads_triple; [done|apply reads_outside]|]. intros id _.
  eapply then_triple; [apply reads_triple; [done|apply reads_outside]|]. intros nonce _.
  eapply then_triple; [apply reads_triple; [done|apply reads_outside]|]. intros ready_at _.
  eapply then_triple; [apply lift_triple|]. intros input Hin. apply persist_refines.
  exists account, key, req, payer, t, (a ≫= Attachment.commitment hex_encode_prefixed), (unix_seconds utc), id, nonce, ready_at.
  split_and!; [unfold unix_seconds; lia| |done]. unfold map_error in Hwin. destruct (validate_expiration_window _ _) as [[]|]; [done|done].
Qed.

End Placement.

(** C2. Funds go where the request says.  However the handlers that issue a
    request, choose its network and attest its payer's wallet interleave with
    each other and with the rest of the server, they make only the steps of
    [gum_step], and in the state they leave every request that has a payment
    address has one that its own committed terms determine: it is derived from the
    factory and token of one of the networks the issued document lists, the
    amount, the merchant's receiver, the deadline and the recovery address of that
    document, and a salt recomputed from the request's nonce and document hash,
    and from the digest of a verified attestation of the payer's wallet exactly
    when the request asks for one. *)
Theorem payment_addresses_as_committed `{P : Primitives} `{!Lawful P} `{U : UuidText} `{N : Units} `{D : Dates} `{K : PayerKeys}
    (g : Gateway.t) (d : Desk.t) db0 n account key req id header chain_id wallet signature :
  Interference (Gateway.others g) (gum_step g d) addresses_ok db0 ->
  let placed_by (db : Db.t) := rtc (gum_step g d) db0 db /\
    forall id row i b, Db.invoices db !! id = Some row -> invoice_try_from parse_address row = Ok i -> Invoice.binding i = Some b ->
      exists a attested, bound i b a attested in
  placed_by (World.db (snd (create_deposit_request g d account key req (World.mk db0 n)))) /\
  placed_by (World.db (snd (select_network g id header chain_id (World.mk db0 n)))) /\
  placed_by (World.db (snd (attest g id header wallet signature (World.mk db0 n)))).
Proof.
  intros HI placed_by.
  assert (forall A (c : api A), triple (fun w => ready (gum_step g d) db0 (fun _ => True) (World.db w)) c
    (fun _ w => ready (gum_step g d) db0 (fun _ => True) (World.db w)) (fun _ w => ready (gum_step g d) db0 (fun _ => True) (World.db w)) ->
    placed_by (World.db (snd (c (World.mk db0 n))))) as Hend.
  { intros A c Hc. specialize (Hc (World.mk db0 n) (conj (rtc_refl _ _) I)). assert (rtc (gum_step g d) db0 (World.db (snd (c (World.mk db0 n))))) as Hr
      by (destruct (c _) as [[a|e] w]; by destruct Hc). split; [exact Hr|]. intros k row i b Hrow.
    destruct (steps_ok (ok := addresses_ok) (Gateway.others g) _ _ Hr ok_before k row Hrow) as [_ Hp]. by apply placed_decoded. }
  split_and!; apply Hend; [by apply create_deposit_refines|by apply select_refines|by apply attest_refines].
Qed.

Module PlacementExample.
Import GatewayExample Toy IdExample IdentityExample AmountExample.

Definition chain_config (id : Z) : ChainConfig.t :=
  ChainConfig.mk id [TokenConfig.mk Usdc token] factory [3] [4] [5] 100 Latest 20 2000 100 None None None None None None.
Definition server : Gateway.t := let base := gateway 2000000 in
  {| base with Gateway.networks := ChainRegistry.mk [chain_config 8453; chain_config 10] |}.
Definition desk := DepositExample.desk.

(** 1.50 USDC on whichever of the two networks the payer picks. *)
Definition wanted (chain_id : option string) : CreateDepositRequest.t :=
  CreateDepositRequest.mk (text (replicate 20 65)) "1.50" None chain_id (Party.mk "Issuer" None None)
    (Some (Party.mk "Payer" None None)) None None None None None (VObject []) (PayerVerification.mk None None false) None None None.
Definition made (chain_id : option string) :=
  create_deposit_request server desk 7 (Some "order-1"%string) (wanted chain_id) (World.mk PayerExample.base 0).
Definition address_in (r : result ApiError.t CreateAnswer) : option string :=
  match r with Ok (IssuedAnew r) => DepositRequestResponse.address r | _ => None end.
Definition open_request : string :=
  match fst (made None) with Ok (IssuedAnew r) => DepositRequestResponse.id r | _ => "" end.
Definition chosen := select_network server open_request None "10" (snd (made None)).

Lemma no_requests_placed : addresses_ok (World.db (World.mk PayerExample.base 0)).
Proof. intros id row H. change ((∅ : gmap Uuid DbInvoice.t) !! id = Some row) in H. by rewrite lookup_empty in H. Qed.

Lemma payment_addresses_as_committed_witness :
  is_some (address_in (fst (made (Some "8453"%string)))) = true /\ address_in (fst (made None)) = None /\
  is_some (match fst chosen with Ok r => PayerDepositRequestResponse.address r | Err _ => None end) = true /\
  (forall id row i b, Db.invoices (World.db (snd (made (Some "8453"%string)))) !! id = Some row ->
     invoice_try_from parse_address row = Ok i -> Invoice.binding i = Some b -> exists a attested, IssuedProofs.bound i b a attested).
Proof.
  split; [vm_compute; reflexivity|]. split; [vm_compute; reflexivity|]. split; [vm_compute; reflexivity|].
  assert (Interference (Gateway.others server) (gum_step server desk) addresses_ok PayerExample.base) as HI.
  { split; [intros db db'; apply gum_step_addresses|exact no_requests_placed|intros n db; apply rtc_refl]. }
  destruct (payment_addresses_as_committed (P := toy) (Lawful0 := lawful attestation) server desk PayerExample.base 0 7 (Some "order-1"%string)
    (wanted (Some "8453"%string)) "" None "" "" "" HI) as [[_ H] _].
  unfold made. exact H.
Defined.
End PlacementExample.
