(* ===== verification/Accounts.v ===== *)
(** * gum-ledger: accounts and their keys

    [crates/gum-ledger/src/accounts.rs]: the merchants' accounts, the identities
    that own them and the API keys they hand to their servers.  The [Directory]
    holds the three tables of the migration; a key is stored as the SHA-256 of
    its text.  An account has one key, and for 24 hours after a rotation also the
    key before it. *)

From Stdlib Require Import Ascii String.
From S2P Require Import Prelude Text Core Contracts Bus Tables.

Definition API_KEY_GRACE_HOURS : Z := 24.

(** An hour of database time. *)
Definition HOUR : Z := 3600 * 10 ^ 6.

(** A row of [accounts], under its id. *)
Module Account.
Record t := mk {
  api_key_hash : option B256;
  api_key_hint : option string;
  api_key_generation : Z;
  key_created_at : Timestamp;
  key_rotated_at : option Timestamp;
  disabled_at : option Timestamp;
  created_at : Timestamp;
  previous_api_key_hash : option B256;
  previous_api_key_expires_at : option Timestamp;
  key_revoked_at : option Timestamp;
  email : option string;
  wallet_address : option string;
}.
End Account.

(** [accounts], [account_identities] and [account_key_authentication_events]. *)
Module Directory.
Record t := mk {
  accounts : gmap Uuid Account.t;
  identities : gmap (string * string) Uuid;
  events : gset (Uuid * string);
}.
Definition empty : t := mk ∅ ∅ ∅.

(** The column the rest of the ledger reads. *)
Definition emails (d : t) : gmap Uuid (option string) := Account.email <$> accounts d.
End Directory.

Module ApiKeyMetadata.
Record t := mk {
  account_id : Uuid;
  hint : option string;
  generation : Z;
  created_at : Timestamp;
  rotated_at : option Timestamp;
  previous_key_expires_at : option Timestamp;
  revoked_at : option Timestamp;
  email : option string;
  wallet_address : option string;
}.
End ApiKeyMetadata.

Module IssuedApiKey.
Record t := mk { account_id : Uuid; generation : Z; replaced_previous_key : bool }.
End IssuedApiKey.

Inductive IssueApiKeyError :=
| AuthenticationEventAlreadyUsed
| GenerationConflict
| IssueAccountDisabled
| IssueDatabase (e : DbError).

Inductive ProvisionAccountError :=
| ProvisionAccountDisabled
| ProvisionDatabase (e : DbError).

(** ** The constraints of the tables *)

Definition hex_digit (c : ascii) : bool :=
  let n := byte_of c in
  ((48 <=? n) && (n <=? 57)) || ((97 <=? n) && (n <=? 102)) || ((65 <=? n) && (n <=? 70)).

(** The pattern of a wallet: 0x and forty hexadecimal digits. *)
Definition wallet_shape (s : string) : bool :=
  match strip_prefix "0x" s with
  | Some digits => Nat.eqb (String.length digits) 40 && forallb hex_digit (list_ascii_of_string digits)
  | None => false
  end.

Definition octets_between (lo hi : nat) (s : string) : bool :=
  Nat.leb lo (String.length s) && Nat.leb (String.length s) hi.

Definition if_present {A} (p : A -> bool) (o : option A) : bool := match o with Some a => p a | None => true end.

Definition account_allowed (a : Account.t) : bool :=
  if_present (fun h => Nat.eqb (length h) 32) (Account.api_key_hash a)
  && (0 <? Account.api_key_generation a)
  && if_present (octets_between 1 32) (Account.api_key_hint a)
  && if_present (fun h => Nat.eqb (length h) 32) (Account.previous_api_key_hash a)
  && Bool.eqb (is_some (Account.previous_api_key_hash a)) (is_some (Account.previous_api_key_expires_at a))
  && Bool.eqb (is_some (Account.api_key_hash a)) (is_some (Account.api_key_hint a))
  && (negb (is_some (Account.key_revoked_at a)) || negb (is_some (Account.api_key_hash a)))
  && if_present (octets_between 3 254) (Account.email a)
  && if_present wallet_shape (Account.wallet_address a).

(** Another row holds the same value in a UNIQUE column; NULLs never clash. *)
Definition clashes (column : Account.t -> option B256) (id : Uuid) (a : Account.t) (rows : gmap Uuid Account.t) : bool :=
  existsb (fun kv => negb (fst kv =? id) && is_some (column a) && bool_decide (column (snd kv) = column a)) (map_to_list rows).

(** An UPDATE of one row; an INSERT besides needs a fresh id. *)
Definition write_account (id : Uuid) (a : Account.t) (d : Directory.t) : result DbError Directory.t :=
  if negb (account_allowed a) then Err (Constraint "accounts_check")
  else if clashes Account.api_key_hash id a (Directory.accounts d) then Err (Constraint "accounts_api_key_hash_key")
  else if clashes Account.previous_api_key_hash id a (Directory.accounts d)
  then Err (Constraint "accounts_previous_api_key_hash_key")
  else Ok {| d with Directory.accounts := <[id := a]> (Directory.accounts d) |}.

Definition insert_account (id : Uuid) (a : Account.t) (d : Directory.t) : result DbError Directory.t :=
  if is_some (Directory.accounts d !! id) then Err (Constraint "accounts_pkey") else write_account id a d.

Definition insert_identity (issuer subject : string) (account : Uuid) (d : Directory.t) : result DbError Directory.t :=
  if negb (octets_between 1 2048 issuer && octets_between 1 255 subject) then Err (Constraint "account_identities_check")
  else if is_some (Directory.identities d !! (issuer, subject)) then Err (Constraint "account_identities_pkey")
  else Ok {| d with Directory.identities := <[(issuer, subject) := account]> (Directory.identities d) |}.

(** Whether the event was new, and the table with it. *)
Definition insert_event (account : Uuid) (event : string) (d : Directory.t) : result DbError (bool * Directory.t) :=
  if negb (octets_between 1 255 event) then Err (Constraint "account_key_authentication_events_event_id_length")
  else if bool_decide ((account, event) ∈ Directory.events d) then Ok (false, d)
  else Ok (true, {| d with Directory.events := {[(account, event)]} ∪ Directory.events d |}).

(** The last six characters, after an ellipsis (three bytes of UTF-8). *)
Definition ELLIPSIS : string := string_of_list_ascii (ascii_of_N <$> [226; 128; 166]%N).

Definition key_hint (key : string) : string :=
  ELLIPSIS +:+ String.concat "" (reverse (take 6 (reverse (chars key)))).

Section Accounts.
Context (sha256 : string -> B256).

(** ** Authentication *)

Definition admits (hash : B256) (now : Timestamp) (a : Account.t) : bool :=
  negb (is_some (Account.disabled_at a))
  && (bool_decide (Account.api_key_hash a = Some hash)
      || (bool_decide (Account.previous_api_key_hash a = Some hash)
          && match Account.previous_api_key_expires_at a with Some t => now <? t | None => false end)).

(** The account a key opens; the statement has no ORDER BY, so which of several
    it would return is the table's business. *)
Definition authenticate (key : string) (now : Timestamp) (d : Directory.t) : option Uuid :=
  fst <$> head (List.filter (fun kv => admits (sha256 key) now (snd kv)) (map_to_list (Directory.accounts d))).

(** ** Identities *)

Definition find_by_identity (issuer subject : string) (d : Directory.t) : option Uuid :=
  Directory.identities d !! (issuer, subject).

(** The row of [account_identities JOIN accounts]. *)
Definition identity_row (issuer subject : string) (d : Directory.t) : option (Uuid * Account.t) :=
  account ← Directory.identities d !! (issuer, subject);
  row ← Directory.accounts d !! account;
  Some (account, row).

(** ** Keys *)

Definition coalesce_email (new old : option string) : option string := match new with Some e => Some e | None => old end.

(** The row after a rotation at [now]. *)
Definition rotated (key : string) (verified_email : option string) (now : Timestamp) (a : Account.t) : Account.t :=
  {| a with
     Account.previous_api_key_hash := Account.api_key_hash a;
     Account.previous_api_key_expires_at :=
       if is_some (Account.api_key_hash a) then Some (now + API_KEY_GRACE_HOURS * HOUR) else None;
     Account.api_key_hash := Some (sha256 key);
     Account.api_key_hint := Some (key_hint key);
     Account.key_created_at := now;
     Account.api_key_generation := Account.api_key_generation a + 1;
     Account.key_rotated_at := if is_some (Account.api_key_hash a) then Some now else Account.key_rotated_at a;
     Account.key_revoked_at := None;
     Account.email := coalesce_email verified_email (Account.email a) |}.

(** A row of the defaults. *)
Definition new_account (hash : option B256) (hint email wallet : option string) (now : Timestamp) : Account.t :=
  Account.mk hash hint 1 now None None now None None None email wallet.

Definition db_failed {A} (r : result DbError A) : result IssueApiKeyError A :=
  match r with Ok a => Ok a | Err e => Err (IssueDatabase e) end.

(** One use of an authentication event. *)
Definition use_event (account : Uuid) (event : string) (d : Directory.t) : result IssueApiKeyError Directory.t :=
  let! '(fresh, d') := db_failed (insert_event account event d) in
  if fresh then Ok d' else Err AuthenticationEventAlreadyUsed.

(** [issue_api_key_inner], one transaction under the identity's lock; [id] is
    the identifier of an account that it may create. *)
Definition issue_api_key_inner (id : Uuid) (issuer subject : string) (expected_generation : option Z)
    (authentication_event_id key : string) (verified_email : option string) (now : Timestamp) (d : Directory.t)
  : result IssueApiKeyError (IssuedApiKey.t * Directory.t) :=
  match identity_row issuer subject d with
  | Some (account, row) =>
      if is_some (Account.disabled_at row) then Err IssueAccountDisabled
      else if negb (bool_decide (expected_generation = Some (Account.api_key_generation row))) then Err GenerationConflict
      else
        let! d1 := use_event account authentication_event_id d in
        if 2 ^ 63 - 1 <? Account.api_key_generation row + 1 then Err (IssueDatabase NumericOutOfRange)
        else
          let row' := rotated key verified_email now row in
          let! d2 := db_failed (write_account account row' d1) in
          Ok (IssuedApiKey.mk account (Account.api_key_generation row') (is_some (Account.previous_api_key_expires_at row')), d2)
  | None =>
      if is_some expected_generation then Err GenerationConflict
      else
        let! d1 := db_failed (insert_account id (new_account (Some (sha256 key)) (Some (key_hint key)) verified_email None now) d) in
        let! d2 := db_failed (insert_identity issuer subject id d1) in
        let! '(fresh, d3) := db_failed (insert_event id authentication_event_id d2) in
        if fresh then Ok (IssuedApiKey.mk id 1 false, d3)
        else Err (IssueDatabase (Constraint "account_key_authentication_events_pkey"))
  end.

Definition revoked (now : Timestamp) (a : Account.t) : Account.t :=
  {| a with
     Account.api_key_hash := None;
     Account.api_key_hint := None;
     Account.previous_api_key_hash := None;
     Account.previous_api_key_expires_at := None;
     Account.key_revoked_at := Some now |}.

Definition revoke_api_key (issuer subject : string) (expected_generation : Z) (authentication_event_id : string)
    (now : Timestamp) (d : Directory.t) : result IssueApiKeyError (Uuid * Directory.t) :=
  match identity_row issuer subject d with
  | None => Err GenerationConflict
  | Some (account, row) =>
      if is_some (Account.disabled_at row) then Err IssueAccountDisabled
      else if negb (Account.api_key_generation row =? expected_generation) then Err GenerationConflict
      else
        let! d1 := use_event account authentication_event_id d in
        let! d2 := db_failed (write_account account (revoked now row) d1) in
        Ok (account, d2)
  end.

(** ** Accounts of identities *)

Definition identity_account (issuer subject : string) (d : Directory.t) : option (result ProvisionAccountError Uuid) :=
  (fun r : Uuid * Account.t =>
     if is_some (Account.disabled_at (snd r)) then Err ProvisionAccountDisabled else Ok (fst r))
  <$> identity_row issuer subject d.

Definition provision_failed {A} (r : result DbError A) : result ProvisionAccountError A :=
  match r with Ok a => Ok a | Err e => Err (ProvisionDatabase e) end.

(** The transaction of [find_or_provision_by_identity], under the identity's
    lock: the account, and whether it was there. *)
Definition provision (id : Uuid) (issuer subject verified_email : string) (wallet : option string) (now : Timestamp)
    (d : Directory.t) : result ProvisionAccountError ((Uuid * bool) * Directory.t) :=
  match identity_account issuer subject d with
  | Some existing => let! account := existing in Ok ((account, true), d)
  | None =>
      let! d1 := provision_failed (insert_account id (new_account None None (Some verified_email) wallet now) d) in
      let! d2 := provision_failed (insert_identity issuer subject id d1) in
      Ok ((id, false), d2)
  end.

(** An UPDATE of the columns of one account that may not be there. *)
Definition update_account (account : Uuid) (f : Account.t -> Account.t) (d : Directory.t) : result DbError Directory.t :=
  match Directory.accounts d !! account with
  | Some row => write_account account (f row) d
  | None => Ok d
  end.

Definition adopt_wallet (account : Uuid) (wallet : option string) (d : Directory.t) : result DbError Directory.t :=
  match wallet with
  | None => Ok d
  | Some w => update_account account (fun row => {| row with Account.wallet_address := Some w |}) d
  end.

Definition adopt_email (account : Uuid) (verified_email : string) (d : Directory.t) : result DbError Directory.t :=
  update_account account (fun row => {| row with Account.email := Some verified_email |}) d.

Definition metadata (account : Uuid) (d : Directory.t) : result DbError ApiKeyMetadata.t :=
  let! a := ok_or (Directory.accounts d !! account) RowNotFound in
  Ok (ApiKeyMetadata.mk account (Account.api_key_hint a) (Account.api_key_generation a) (Account.key_created_at a)
        (Account.key_rotated_at a) (Account.previous_api_key_expires_at a) (Account.key_revoked_at a) (Account.email a)
        (Account.wallet_address a)).

End Accounts.
