(* ===== verification/AccountTheorems.v ===== *)
(** * Properties of accounts

    Over every history of issued and revoked keys, sign-ins and operators'
    decisions: a key opens the account it was issued to and no other, until it is
    revoked or a day after it was replaced ([keys_open_as_issued]); rotations of an
    account are serial, and an identity owns one account of its own for good. *)

From stdpp Require Import sorting.
From S2P Require Import Prelude Text Core Contracts Bus Tables Accounts.

(** ** What was done with keys *)

Inductive KeyEntry :=
| KeyIssued (account : Uuid) (hash : B256) (event : string) (generation : Z) (issued_at : Timestamp)
| KeyRevoked (account : Uuid) (event : string) (generation : Z) (revoked_at : Timestamp).

Definition entry_account (e : KeyEntry) : Uuid := match e with KeyIssued a _ _ _ _ | KeyRevoked a _ _ _ => a end.
Definition entry_event (e : KeyEntry) : string := match e with KeyIssued _ _ v _ _ | KeyRevoked _ v _ _ => v end.
Definition entry_generation (e : KeyEntry) : Z := match e with KeyIssued _ _ _ g _ | KeyRevoked _ _ g _ => g end.

(** Nothing of [a] is among the entries. *)
Definition quiet (a : Uuid) (log : list KeyEntry) : Prop := Forall (fun e => entry_account e <> a) log.

(** The key with this hash opens [a] at [now]: it was issued to [a], and since
    then [a]'s key was neither revoked nor replaced, or replaced once, less than
    24 hours ago. *)
Definition opens (a : Uuid) (h : B256) (now : Timestamp) (log : list KeyEntry) : Prop :=
  exists before event g t rest, log = before ++ KeyIssued a h event g t :: rest /\
    (quiet a rest \/
     exists m h' event' g' t' after, rest = m ++ KeyIssued a h' event' g' t' :: after /\
       quiet a m /\ quiet a after /\ now < t' + API_KEY_GRACE_HOURS * HOUR).

Section Accounts.
Context (sha256 : string -> B256).

(** ** Histories of the directory *)

Inductive account_step (d : Directory.t) : list KeyEntry -> Directory.t -> Prop :=
| account_issue id issuer subject expected event key email now r d' :
    issue_api_key_inner sha256 id issuer subject expected event key email now d = Ok (r, d') ->
    account_step d [KeyIssued (IssuedApiKey.account_id r) (sha256 key) event (IssuedApiKey.generation r) now] d'
| account_revoke issuer subject expected event now a d' :
    revoke_api_key issuer subject expected event now d = Ok (a, d') -> account_step d [KeyRevoked a event expected now] d'
| account_provision id issuer subject email wallet now r d' :
    provision id issuer subject email wallet now d = Ok (r, d') -> account_step d [] d'
| account_wallet a wallet d' : adopt_wallet a wallet d = Ok d' -> account_step d [] d'
| account_email a email d' : adopt_email a email d = Ok d' -> account_step d [] d'
(* an operator disables an account, or enables it again *)
| account_disable a row t : Directory.accounts d !! a = Some row ->
    account_step d []
      {| d with Directory.accounts := <[a := {| row with Account.disabled_at := t |}]> (Directory.accounts d) |}.

Inductive history : list KeyEntry -> Directory.t -> Prop :=
| history_start : history [] Directory.empty
| history_step log d es d' : history log d -> account_step d es d' -> history (log ++ es) d'.

(** ** The keys a log leaves *)

Definition after (a : Uuid) (s : option B256 * option (B256 * Timestamp)) (e : KeyEntry) : option B256 * option (B256 * Timestamp) :=
  if entry_account e =? a then
    match e with
    | KeyIssued _ h _ _ t => (Some h, (fun h0 => (h0, t + API_KEY_GRACE_HOURS * HOUR)) <$> fst s)
    | KeyRevoked _ _ _ _ => (None, None)
    end
  else s.

Definition keys_of (a : Uuid) (log : list KeyEntry) : option B256 * option (B256 * Timestamp) :=
  foldl (after a) (None, None) log.

Lemma keys_of_snoc a log e : keys_of a (log ++ [e]) = after a (keys_of a log) e.
Proof. unfold keys_of. by rewrite foldl_app. Qed.

Lemma keys_of_quiet a log l : quiet a l -> keys_of a (log ++ l) = keys_of a log.
Proof.
  intros Hq. induction l as [|e l IH] using rev_ind; [by rewrite app_nil_r|].
  apply list.Forall_app in Hq as [Hq [He _]%list.Forall_cons]. rewrite app_assoc, keys_of_snoc, IH by done.
  unfold after. by destruct (Z.eqb_spec (entry_account e) a).
Qed.

Lemma current_key a log h : fst (keys_of a log) = Some h <->
  exists before event g t rest, log = before ++ KeyIssued a h event g t :: rest /\ quiet a rest.
Proof.
  split.
  - induction log as [|e log IH] using rev_ind; [done|]. rewrite keys_of_snoc. unfold after.
    destruct (Z.eqb_spec (entry_account e) a) as [<-|Hne].
    + destruct e as [a h0 v g t|]; cbn; [|done]. intros [= ->]. exists log, v, g, t, []. split; [done|constructor].
    + intros H. destruct (IH H) as (b & v & g & t & r & -> & Hq). exists b, v, g, t, (r ++ [e]).
      rewrite <- app_assoc. split; [done|]. apply list.Forall_app. split; [done|]. by repeat constructor.
  - intros (b & v & g & t & r & -> & Hq). replace (b ++ _) with ((b ++ [KeyIssued a h v g t]) ++ r) by by rewrite <- app_assoc.
    rewrite keys_of_quiet, keys_of_snoc by done. unfold after. cbn. by rewrite Z.eqb_refl.
Qed.

Lemma previous_key a log h x : snd (keys_of a log) = Some (h, x) <->
  exists before event g t m h' event' g' t' after_,
    log = before ++ KeyIssued a h event g t :: m ++ KeyIssued a h' event' g' t' :: after_ /\ quiet a m /\ quiet a after_ /\
    x = t' + API_KEY_GRACE_HOURS * HOUR.
Proof.
  split.
  - induction log as [|e log IH] using rev_ind; [done|]. rewrite keys_of_snoc. unfold after.
    destruct (Z.eqb_spec (entry_account e) a) as [<-|Hne].
    + destruct e as [a h0 v g t|]; cbn; [|done]. intros (c & Hc & [= -> ->])%fmap_Some.
      apply current_key in Hc as (b & v1 & g1 & t1 & r & -> & Hq).
      exists b, v1, g1, t1, r, h0, v, g, t, []. rewrite <- app_assoc. split_and!; [done|done|constructor|done].
    + intros H. destruct (IH H) as (b & v & g & t & m & h' & v' & g' & t' & r & -> & Hm & Hr & ->).
      exists b, v, g, t, m, h', v', g', t', (r ++ [e]). split_and!; [|done| |done].
      * rewrite <- app_assoc. cbn. by rewrite <- app_assoc.
      * apply list.Forall_app. split; [done|]. by repeat constructor.
  - intros (b & v & g & t & m & h' & v' & g' & t' & r & -> & Hm & Hr & ->).
    replace (b ++ _) with ((((b ++ [KeyIssued a h v g t]) ++ m) ++ [KeyIssued a h' v' g' t']) ++ r)
      by by rewrite <- !app_assoc.
    rewrite keys_of_quiet, keys_of_snoc, keys_of_quiet, keys_of_snoc by done. unfold after. cbn. by rewrite Z.eqb_refl.
Qed.

(** ** What each transaction writes *)

Lemma write_account_ok id a d d' : write_account id a d = Ok d' ->
  account_allowed a = true /\ d' = {| d with Directory.accounts := <[id := a]> (Directory.accounts d) |}.
Proof.
  unfold write_account. destruct (account_allowed a); [|done]. cbn [negb].
  destruct (clashes Account.api_key_hash _ _ _); [done|]. destruct (clashes Account.previous_api_key_hash _ _ _); [done|]. by intros [= <-].
Qed.

Lemma insert_account_ok id a d d' : insert_account id a d = Ok d' ->
  Directory.accounts d !! id = None /\ d' = {| d with Directory.accounts := <[id := a]> (Directory.accounts d) |}.
Proof.
  unfold insert_account. destruct (Directory.accounts d !! id) eqn:Hid; [done|]. intros [_ ->]%write_account_ok. done.
Qed.

Lemma insert_identity_ok issuer subject a d d' : insert_identity issuer subject a d = Ok d' ->
  Directory.identities d !! (issuer, subject) = None /\
  d' = {| d with Directory.identities := <[(issuer, subject) := a]> (Directory.identities d) |}.
Proof.
  unfold insert_identity. destruct (negb _); [done|]. destruct (Directory.identities d !! _) eqn:Hid; [done|]. by intros [= <-].
Qed.

Lemma insert_event_ok a event d d' : insert_event a event d = Ok (true, d') ->
  (a, event) ∉ Directory.events d /\ d' = {| d with Directory.events := {[(a, event)]} ∪ Directory.events d |}.
Proof. unfold insert_event. destruct (negb _); [done|]. case_bool_decide; [done|]. by intros [= <-]. Qed.

Lemma use_event_ok a event d d' : use_event a event d = Ok d' ->
  (a, event) ∉ Directory.events d /\ d' = {| d with Directory.events := {[(a, event)]} ∪ Directory.events d |}.
Proof.
  unfold use_event. intros ([fresh d1] & H1 & H2)%rbind_ok. destruct fresh; [|done]. injection H2 as <-.
  apply insert_event_ok. destruct (insert_event a event d) as [[]|]; [|done]. cbn in H1. congruence.
Qed.

Lemma db_failed_ok {A} (r : result DbError A) a : db_failed r = Ok a -> r = Ok a.
Proof. destruct r; [|done]. by intros [= ->]. Qed.

Lemma provision_failed_ok {A} (r : result DbError A) a : provision_failed r = Ok a -> r = Ok a.
Proof. destruct r; [|done]. by intros [= ->]. Qed.

Lemma identity_row_some issuer subject d a row : identity_row issuer subject d = Some (a, row) ->
  Directory.identities d !! (issuer, subject) = Some a /\ Directory.accounts d !! a = Some row.
Proof.
  unfold identity_row. intros (a' & Hi & (row' & Hr & [= -> ->])%bind_Some)%bind_Some. done.
Qed.

(** A key is issued to an account that is there and enabled, at its generation,
    or with a new account for an identity that had none. *)
Lemma issue_effect id issuer subject expected event key email now d r d' :
  issue_api_key_inner sha256 id issuer subject expected event key email now d = Ok (r, d') ->
  let a := IssuedApiKey.account_id r in
  (a, event) ∉ Directory.events d /\ Directory.events d' = {[(a, event)]} ∪ Directory.events d /\
  ((exists row, Directory.accounts d !! a = Some row /\ IssuedApiKey.generation r = Account.api_key_generation row + 1 /\
      Directory.accounts d' = <[a := rotated sha256 key email now row]> (Directory.accounts d) /\
      Directory.identities d' = Directory.identities d) \/
   (Directory.accounts d !! a = None /\ IssuedApiKey.generation r = 1 /\
    Directory.identities d !! (issuer, subject) = None /\
    Directory.accounts d' = <[a := new_account (Some (sha256 key)) (Some (key_hint key)) email None now]> (Directory.accounts d) /\
    Directory.identities d' = <[(issuer, subject) := a]> (Directory.identities d))).
Proof.
  unfold issue_api_key_inner. destruct (identity_row issuer subject d) as [[a row]|] eqn:Hrow.
  - apply identity_row_some in Hrow as [Hi Ha]. destruct (is_some _); [done|]. destruct (negb _); [done|].
    intros (d1 & [Hev ->]%use_event_ok & H)%rbind_ok. destruct (_ <? _); [done|].
    apply rbind_ok in H as (d2 & [_ ->]%db_failed_ok%write_account_ok & [= <- <-]). cbn.
    split_and!; [done|done|]. left. exists row. done.
  - destruct (is_some expected); [done|].
    intros (d1 & [Hid ->]%db_failed_ok%insert_account_ok & H)%rbind_ok.
    apply rbind_ok in H as (d2 & [Hi ->]%db_failed_ok%insert_identity_ok & H).
    apply rbind_ok in H as ([fresh d3] & Hev%db_failed_ok & H). destruct fresh; [|done]. injection H as <- <-.
    apply insert_event_ok in Hev as [Hev ->]. cbn in *. split_and!; [done|done|]. by right.
Qed.

Lemma revoke_effect issuer subject expected event now d a d' :
  revoke_api_key issuer subject expected event now d = Ok (a, d') ->
  (a, event) ∉ Directory.events d /\
  exists row, Directory.accounts d !! a = Some row /\ Account.api_key_generation row = expected /\
    d' = Directory.mk (<[a := revoked now row]> (Directory.accounts d)) (Directory.identities d)
           ({[(a, event)]} ∪ Directory.events d).
Proof.
  unfold revoke_api_key. destruct (identity_row issuer subject d) as [[a' row]|] eqn:Hrow; [|done].
  apply identity_row_some in Hrow as [Hi Ha]. destruct (is_some _); [done|]. destruct (Z.eqb_spec (Account.api_key_generation row) expected); [|done].
  intros (d1 & [Hev ->]%use_event_ok & H)%rbind_ok. apply rbind_ok in H as (d2 & [_ ->]%db_failed_ok%write_account_ok & [= <- <-]).
  split; [done|]. by exists row.
Qed.


(** The key columns of a row, and its generation. *)
Definition row_keys (a : Account.t) : option B256 * option (B256 * Timestamp) :=
  (Account.api_key_hash a,
   h ← Account.previous_api_key_hash a; t ← Account.previous_api_key_expires_at a; Some (h, t)).

Definition keyed_alike (a a' : Account.t) : Prop :=
  row_keys a' = row_keys a /\ Account.api_key_generation a' = Account.api_key_generation a.

(** Every other step keeps the keys there are; the account it may add has none,
    and belongs to an identity that had none. *)
Definition keeps_keys (d d' : Directory.t) : Prop :=
  Directory.events d' = Directory.events d /\
  ((exists a row row', Directory.accounts d !! a = Some row /\ keyed_alike row row' /\
      Directory.accounts d' = <[a := row']> (Directory.accounts d) /\ Directory.identities d' = Directory.identities d) \/
   d' = d \/
   (exists a row k, Directory.accounts d !! a = None /\ row_keys row = (None, None) /\ Directory.identities d !! k = None /\
      Directory.accounts d' = <[a := row]> (Directory.accounts d) /\ Directory.identities d' = <[k := a]> (Directory.identities d))).

Lemma update_account_keeps a f d d' : (forall row, keyed_alike row (f row)) -> update_account a f d = Ok d' -> keeps_keys d d'.
Proof.
  intros Hf. unfold update_account. destruct (Directory.accounts d !! a) as [row|] eqn:Ha.
  - intros [_ ->]%write_account_ok. split; [done|]. left. exists a, row, (f row). done.
  - intros [= <-]. split; [done|]. by right; left.
Qed.

Lemma provision_keeps id issuer subject email wallet now d r d' :
  provision id issuer subject email wallet now d = Ok (r, d') -> keeps_keys d d'.
Proof.
  unfold provision. destruct (identity_account issuer subject d) as [existing|].
  - intros (a & _ & [= _ <-])%rbind_ok. split; [done|]. by right; left.
  - intros (d1 & [Hid ->]%provision_failed_ok%insert_account_ok & H)%rbind_ok.
    apply rbind_ok in H as (d2 & [Hi ->]%provision_failed_ok%insert_identity_ok & [= _ <-]). split; [done|]. right; right.
    by exists id, (new_account None None (Some email) wallet now), (issuer, subject).
Qed.

Lemma silent_step_keeps d es d' : account_step d es d' -> es = [] -> keeps_keys d d'.
Proof.
  intros [] E; try done.
  - by eapply provision_keeps.
  - unfold adopt_wallet in *. destruct wallet as [w|]; [eapply update_account_keeps; [|done]; by split|]. inv_ok. split; [done|]. by right; left.
  - eapply update_account_keeps; [|done]. by split.
  - split; [done|]. left. by exists a, row, {| row with Account.disabled_at := t |}.
Qed.

(** ** The invariant *)

(** Later entries of an account are under other events, and a key that is issued
    is of a later generation. *)
Definition follows (x y : KeyEntry) : Prop :=
  entry_account x = entry_account y -> entry_event x <> entry_event y /\
    entry_generation x <= entry_generation y /\
    match y with KeyIssued _ _ _ _ _ => entry_generation x < entry_generation y | KeyRevoked _ _ _ _ => True end.

Record log_ok (log : list KeyEntry) (d : Directory.t) : Prop := {
  lg_keys a : match Directory.accounts d !! a with
              | Some row => row_keys row = keys_of a log
              | None => quiet a log
              end;
  lg_entries : Forall (fun e => (entry_account e, entry_event e) ∈ Directory.events d /\
    exists row, Directory.accounts d !! entry_account e = Some row /\
      entry_generation e <= Account.api_key_generation row) log;
  lg_serial : StronglySorted follows log;
  lg_identity k a : Directory.identities d !! k = Some a -> is_Some (Directory.accounts d !! a);
  lg_owner k k' a : Directory.identities d !! k = Some a -> Directory.identities d !! k' = Some a -> k = k';
}.

Lemma keys_of_nothing a log : quiet a log -> keys_of a log = (None, None).
Proof. intros Hq. exact (keys_of_quiet a [] log Hq). Qed.

(** Writing the row of one account, with or without an entry about it. *)
Lemma log_ok_row log es d d' a row' :
  log_ok log d -> Directory.accounts d' = <[a := row']> (Directory.accounts d) ->
  Directory.events d ⊆ Directory.events d' ->
  row_keys row' = keys_of a (log ++ es) ->
  (forall row, Directory.accounts d !! a = Some row -> Account.api_key_generation row <= Account.api_key_generation row') ->
  Forall (fun e => entry_account e = a /\ entry_generation e <= Account.api_key_generation row' /\
    (a, entry_event e) ∈ Directory.events d' /\ Forall (fun x => follows x e) log) es -> (length es <= 1)%nat ->
  (Directory.identities d' = Directory.identities d \/
   exists k, Directory.accounts d !! a = None /\ Directory.identities d' = <[k := a]> (Directory.identities d)) ->
  log_ok (log ++ es) d'.
Proof.
  intros [Lk Le Ls Li Lo] Ea Ev Hk Hg Hes Hlen Hid. split.
  - intros b. rewrite Ea. destruct (decide (b = a)) as [->|Hne]; [by rewrite lookup_insert_eq|]. rewrite lookup_insert_ne by done.
    assert (quiet b es) as Hq by (eapply list.Forall_impl; [exact Hes|]; by intros e [-> _]).
    specialize (Lk b). destruct (Directory.accounts d !! b); [by rewrite keys_of_quiet|by apply list.Forall_app].
  - apply list.Forall_app. split.
    + eapply list.Forall_impl; [exact Le|]. intros e [He (row & Hrow & Hge)]. split; [by apply Ev|]. rewrite Ea.
      destruct (decide (entry_account e = a)) as [E|Hne]; [|rewrite lookup_insert_ne by done; eauto].
      rewrite E in *. rewrite lookup_insert_eq. exists row'. split; [done|]. specialize (Hg row Hrow). lia.
    + eapply list.Forall_impl; [exact Hes|]. intros e (-> & Hge & Hev & _). split; [done|]. rewrite Ea, lookup_insert_eq. eauto.
  - destruct es as [|e [|]]; [by rewrite app_nil_r| |cbn in Hlen; lia]. apply list.Forall_cons in Hes as [(_ & _ & _ & Hf) _].
    clear -Ls Hf. induction Ls as [|x l Hs IH Hx]; [by repeat constructor|]. apply list.Forall_cons in Hf as [H1 H2]. cbn.
    constructor; [by apply IH|]. apply list.Forall_app. split; [done|]. by constructor.
  - intros k b Hb. rewrite Ea. destruct (decide (b = a)) as [->|Hne]; [by rewrite lookup_insert_eq|]. rewrite lookup_insert_ne by done.
    destruct Hid as [E|(k' & _ & E)]; rewrite E in Hb; [by eapply Li|]. apply lookup_insert_Some in Hb as [[_ <-]|[_ Hb]]; [done|by eapply Li].
  - intros k k' b Hb Hb'. destruct Hid as [E|(j & Hn & E)]; rewrite E in Hb, Hb'; [by eapply Lo|].
    assert (forall k, Directory.identities d !! k = Some a -> False) as Hno
      by (intros k0 Hk0%Li; rewrite Hn in Hk0; by destruct Hk0).
    apply lookup_insert_Some in Hb as [[-> <-]|[_ Hb]], Hb' as [[-> E']|[_ Hb']]; subst; try done;
      try (exfalso; by eapply Hno); by eapply Lo.
Qed.

(** A new entry follows all there are. *)
Lemma entry_follows log d a event e :
  log_ok log d -> (a, event) ∉ Directory.events d -> entry_account e = a -> entry_event e = event ->
  (forall row, Directory.accounts d !! a = Some row -> Account.api_key_generation row <= entry_generation e /\
     match e with KeyIssued _ _ _ _ _ => Account.api_key_generation row < entry_generation e | KeyRevoked _ _ _ _ => True end) ->
  Forall (fun x => follows x e) log.
Proof.
  intros L Hev Ea Ee Hg. eapply list.Forall_impl; [exact (lg_entries _ _ L)|]. intros x [Hx (row & Hrow & Hgx)] E.
  rewrite E, Ea in *. destruct (Hg row Hrow) as [H1 H2]. split; [intros E'; apply Hev; by rewrite <- Ee, <- E'|].
  destruct e; lia.
Qed.

Lemma account_step_ok log d es d' : account_step d es d' -> log_ok log d -> log_ok (log ++ es) d'.
Proof.
  intros Hs L. destruct (decide (es = [])) as [->|Hne].
  - apply silent_step_keeps in Hs as [Hev [(a & row & row' & Ha & [K G] & Ea & Ei)|[->|(a & row & k & Ha & K & Hk & Ea & Ei)]]]; [| | |done].
    + eapply log_ok_row; [exact L|exact Ea|by rewrite Hev| | |constructor|cbn; lia|by left].
      * rewrite app_nil_r, K. pose proof (lg_keys _ _ L a) as Hl. by rewrite Ha in Hl.
      * intros r Hr. rewrite Ha in Hr. injection Hr as <-. lia.
    + by rewrite app_nil_r.
    + eapply log_ok_row; [exact L|exact Ea|by rewrite Hev| | |constructor|cbn; lia|].
      * rewrite app_nil_r, K. pose proof (lg_keys _ _ L a) as Hl. rewrite Ha in Hl. by rewrite keys_of_nothing.
      * intros r Hr. congruence.
      * right. by exists k.
  - destruct Hs as [id issuer subject expected event key email now r d' H|issuer subject expected event now a d' H| | | |]; [| |done..].
    + apply issue_effect in H as (Hev & Ev & [(row & Ha & Hg & Ea & Ei)|(Ha & Hg & Hi & Ea & Ei)]); pose proof (lg_keys _ _ L (IssuedApiKey.account_id r)) as Hl;
        rewrite Ha in Hl; (eapply log_ok_row; [exact L|exact Ea|set_solver| | | |done|]).
      * rewrite keys_of_snoc, <- Hl. unfold after, row_keys, rotated. cbn. rewrite Z.eqb_refl. by destruct (Account.api_key_hash row).
      * intros r' Hr. rewrite Ha in Hr. injection Hr as <-. cbn. lia.
      * repeat constructor; cbn; [lia|set_solver|]. eapply entry_follows; try done. cbn. intros r' Hr. rewrite Ha in Hr. injection Hr as <-. lia.
      * by left.
      * rewrite keys_of_snoc, keys_of_nothing by done. unfold after. cbn. by rewrite Z.eqb_refl.
      * intros r' Hr. congruence.
      * repeat constructor; cbn; [lia|set_solver|]. eapply entry_follows; try done. cbn. intros r' Hr. congruence.
      * right. by exists (issuer, subject).
    + apply revoke_effect in H as (Hev & row & Ha & Hg & ->). pose proof (lg_keys _ _ L a) as Hl. rewrite Ha in Hl.
      eapply log_ok_row; [exact L|done|set_solver| | | |done|by left].
      * rewrite keys_of_snoc. unfold after. cbn. by rewrite Z.eqb_refl.
      * intros r' Hr. rewrite Ha in Hr. injection Hr as <-. cbn. lia.
      * repeat constructor; cbn; [lia|set_solver|]. eapply entry_follows; try done. cbn. intros r' Hr. rewrite Ha in Hr. injection Hr as <-. lia.
Qed.

Lemma history_ok log d : history log d -> log_ok log d.
Proof.
  induction 1 as [|log d es d' _ IH Hs]; [|by eapply account_step_ok].
  split; [intros a; by apply list.Forall_nil|constructor|constructor|done|done].
Qed.

(** ** Who a key opens *)

Definition enabled (a : Uuid) (d : Directory.t) : Prop :=
  exists row, Directory.accounts d !! a = Some row /\ Account.disabled_at row = None.

Lemma admits_spec h now row : admits h now row = true <->
  Account.disabled_at row = None /\
  (fst (row_keys row) = Some h \/ exists t, snd (row_keys row) = Some (h, t) /\ now < t).
Proof.
  unfold admits, row_keys. cbn. destruct (Account.disabled_at row); cbn; [split; [done|by intros [? _]]|].
  rewrite orb_true_iff, andb_true_iff, !bool_decide_eq_true. split.
  - intros [H|[H1 H2]]; split; try done; [by left|]. right. rewrite H1. cbn. destruct (Account.previous_api_key_expires_at row) as [t|]; [|done].
    exists t. split; [done|lia].
  - intros [_ [H|(t & H & Hlt)]]; [by left|]. right. apply bind_Some in H as (h' & -> & (t' & -> & [= -> ->])%bind_Some).
    split; [done|lia].
Qed.

Lemma admits_opens log d a row h now : log_ok log d -> Directory.accounts d !! a = Some row ->
  (admits h now row = true <-> Account.disabled_at row = None /\ opens a h now log).
Proof.
  intros L Ha. rewrite admits_spec. pose proof (lg_keys _ _ L a) as Hl. rewrite Ha in Hl. rewrite Hl, current_key.
  split; intros [Hd H]; (split; [done|]).
  - destruct H as [(b & v & g & t & r & -> & Hq)|(t & Hp & Hlt)]; [exists b, v, g, t, r; eauto|].
    apply previous_key in Hp as (b & v & g & t1 & m & h' & v' & g' & t' & r & -> & Hm & Hr & ->).
    exists b, v, g, t1, (m ++ KeyIssued a h' v' g' t' :: r). split; [done|]. right. by exists m, h', v', g', t', r.
  - destruct H as (b & v & g & t & r & -> & [Hq|(m & h' & v' & g' & t' & r' & -> & Hm & Hr & Hlt)]).
    + left. by exists b, v, g, t, r.
    + right. exists (t' + API_KEY_GRACE_HOURS * HOUR). split; [|done]. apply previous_key.
      by exists b, v, g, t, m, h', v', g', t', r'.
Qed.

(** C13. An API key opens the account it was issued to, and only that: after
    every history of issued, rotated and revoked keys, sign-ins and operators'
    decisions, a key is answered with an enabled account exactly when it was
    issued to that account and since then the account's key was not revoked and
    not replaced, or replaced once, less than 24 hours ago; and a key is refused
    only when there is no such account. *)
Theorem keys_open_as_issued log d key now : history log d ->
  match authenticate sha256 key now d with
  | Some a => enabled a d /\ opens a (sha256 key) now log
  | None => forall a, enabled a d -> ~ opens a (sha256 key) now log
  end.
Proof.
  intros L%history_ok. unfold authenticate.
  destruct (List.filter _ (map_to_list (Directory.accounts d))) as [|[a row] l] eqn:Hf; cbn.
  - intros a (row & Ha & Hd) Ho. assert (In (a, row) []) as []. rewrite <- Hf. apply filter_In.
    split; [by apply list_elem_of_In, elem_of_map_to_list|]. by eapply admits_opens.
  - assert (In (a, row) ((a, row) :: l)) as Hin by by left. rewrite <- Hf in Hin. apply filter_In in Hin as [Hin Had].
    apply list_elem_of_In, elem_of_map_to_list in Hin. eapply admits_opens in Had as [Hd Ho]; [|done..]. split; [by exists row|done].
Qed.

(** Rotations are serial: after every history, the keys issued to an account
    are of increasing generations and no authentication event was used twice for
    it; and an identity has one account, which it shares with no other. *)
Theorem rotations_serial log d : history log d ->
  StronglySorted follows log /\
  forall k k' a, Directory.identities d !! k = Some a -> Directory.identities d !! k' = Some a -> k = k'.
Proof. intros L%history_ok. split; [by apply L|]. apply L. Qed.

End Accounts.

(** ** A merchant's first two keys *)
Module AccountExample.

Definition hash (s : string) : B256 := replicate 32 (Z.of_nat (String.length s)).

Definition first_key : string := "gum_live_one".
Definition second_key : string := "gum_live_second".

Definition ok_state {E A} (r : result E (A * Directory.t)) : Directory.t :=
  match r with Ok (_, d) => d | Err _ => Directory.empty end.

Definition issued_once : Directory.t :=
  ok_state (issue_api_key_inner hash 7 "privy.io" "did:privy:a" None "event-1" first_key (Some "a@gum.example") 1000 Directory.empty).
Definition issued_twice : Directory.t :=
  ok_state (issue_api_key_inner hash 8 "privy.io" "did:privy:a" (Some 1) "event-2" second_key (Some "a@gum.example") 2000 issued_once).

Definition log : list KeyEntry := [KeyIssued 7 (hash first_key) "event-1" 1 1000; KeyIssued 7 (hash second_key) "event-2" 2 2000].

Lemma log_history : history hash log issued_twice.
Proof.
  change log with (([] ++ [KeyIssued 7 (hash first_key) "event-1" 1 1000]) ++ [KeyIssued 7 (hash second_key) "event-2" 2 2000]).
  eapply history_step; [eapply history_step; [apply history_start|]|].
  - by apply (account_issue hash _ 7 "privy.io" "did:privy:a" None "event-1" first_key (Some "a@gum.example") 1000 (IssuedApiKey.mk 7 1 false)).
  - by apply (account_issue hash _ 8 "privy.io" "did:privy:a" (Some 1) "event-2" second_key (Some "a@gum.example") 2000 (IssuedApiKey.mk 7 2 true)).
Qed.

(** A day after the rotation the first key is refused, and both open the account
    before. *)
Lemma keys_open_as_issued_witness :
  opens 7 (hash first_key) 3000 log /\ ~ opens 7 (hash first_key) (2000 + 24 * HOUR) log.
Proof.
  split.
  - pose proof (keys_open_as_issued hash log issued_twice first_key 3000 log_history) as H.
    replace (authenticate hash first_key 3000 issued_twice) with (Some 7) in H by by vm_compute. apply H.
  - pose proof (keys_open_as_issued hash log issued_twice first_key (2000 + 24 * HOUR) log_history) as H.
    replace (authenticate hash first_key (2000 + 24 * HOUR) issued_twice) with (@None Uuid) in H by by vm_compute. apply H.
    eexists. split; [by vm_compute|reflexivity].
Defined.

End AccountExample.
