(* ===== verification/Auth.v ===== *)
(** * gum-server: who is calling

    Models [crates/gum-server/src/api/auth.rs] and [api/accounts.rs]: the cached
    key sets of the identity providers, the verification of a payer's token and of
    a merchant's session, the admission of a request as an account with its rate
    limit, and the routes that issue and revoke keys.

    A token is opened by jsonwebtoken, which is outside: [Jwt] is what it answers.
    Another request may use the cache, and any user the directory, between two
    steps ([Jwks.others], [Front.others]).  Instants are nanoseconds. *)

From Stdlib Require Import Ascii String.
From Stdlib Require Import SpecFloat.
From stdpp Require Import strings.
From S2P Require Import Prelude Text Core Contracts Ids Bus Tables Invoices Attribution Responses ApiError Effects.
From S2P Require Import PayerPolicy PayerIdentity Accounts.

Definition NANOS : Z := 10 ^ 9.

Definition JWKS_CACHE_TTL : Z := 5 * 60 * NANOS.
Definition JWKS_OUTAGE_GRACE : Z := 60 * 60 * NANOS.
Definition JWKS_RETRY_BACKOFF : Z := 30 * NANOS.
(* seconds *)
Definition AUTHENTICATION_MAX_AGE : Z := 5 * 60.
Definition CLOCK_SKEW : Z := 30.
Definition EMAIL_OTP_METHOD : string := "email_otp".
Definition PRIVY_ISSUER : string := "privy.io".
Definition PRIVY_SUBJECT_PREFIX : string := "did:privy:".

Inductive Algorithm := RS256 | ES256 | OtherAlgorithm.

Module Header.
Record t := mk { alg : Algorithm; kid : option string }.
End Header.

(** What [Validation] asks of a token. *)
Module Validation.
Record t := mk { algorithm : Algorithm; audience : string; issuer : string; required : list string; leeway : Z }.
End Validation.

(** The claims of a payer's token. *)
Module Claims.
Record t := mk {
  sub : string;
  azp : string;
  authentication_method : string;
  authentication_client_id : string;
  authenticated_at : Z;
  authentication_event_id : string;
  email : string;
}.
End Claims.

Module PrivyClaims.
Record t := mk { sub : string; iss : string; linked_accounts : option string }.
End PrivyClaims.

Module LinkedAccount.
Record t := mk { kind : string; address : option string; chain_type : option string; wallet_client_type : option string }.
End LinkedAccount.

Module MerchantIdentity.
Record t := mk { issuer : string; subject : string; email : string; wallet_address : option string }.
End MerchantIdentity.

(** [jsonwebtoken] and [serde_json]; a token is judged by the clock of the step. *)
Class Jwt (Key : Type) := {
  decode_header : string -> option Header.t;
  decode_claims : nat -> Validation.t -> Key -> string -> option Claims.t;
  decode_privy : nat -> Validation.t -> Key -> string -> option PrivyClaims.t;
  parse_linked : string -> option (list LinkedAccount.t);
}.

(** ** The cached key set *)

Module CachedKeys.
Record t {Key : Type} := mk { values : gmap string Key; refreshed_at : Z; last_attempt : Z }.
Arguments t : clear implicits.
Arguments mk {Key}.
End CachedKeys.

(** A provider's key set, the monotonic clock, and the other requests. *)
Module Jwks.
Record t {Key : Type} := mk {
  (* the keys of the document, those without an id or unusable as such *)
  get : nat -> result string (list (option string * option Key));
  clock : nat -> Z;
  others : nat -> CachedKeys.t Key -> CachedKeys.t Key;
}.
Arguments t : clear implicits.
Arguments mk {Key}.
End Jwks.

Module KeyWorld.
Record t {Key : Type} := mk { keys : CachedKeys.t Key; tick : nat }.
Arguments t : clear implicits.
Arguments mk {Key}.
End KeyWorld.

Section Keys.
Context {Key : Type} (j : Jwks.t Key).

Abbreviation cached := (eff ApiError.t (KeyWorld.t Key)) (only parsing).

Definition usable (keys : gmap string Key) (jwk : option string * option Key) : gmap string Key :=
  match jwk with (Some kid, Some key) => <[kid := key]> keys | _ => keys end.

Definition fetch_keys (n : nat) : result string (gmap string Key) :=
  let! set := Jwks.get j n in
  let keys := foldl usable ∅ set in
  if bool_decide (keys = ∅ :> gmap string Key) then Err "JWKS contains no usable keys"%string else Ok keys.

(** [JwksCache::fetch], at startup. *)
Definition first_cache (n : nat) : result string (CachedKeys.t Key) :=
  let! values := fetch_keys n in
  Ok (CachedKeys.mk values (Jwks.clock j (S n)) (Jwks.clock j (S (S n)) - JWKS_RETRY_BACKOFF)).

(** [Instant::elapsed] saturates. *)
Definition elapsed (since now : Z) : Z := Z.max 0 (now - since).

Definition cache_needs_refresh (now : Z) (c : CachedKeys.t Key) (kid : string) : bool :=
  (JWKS_CACHE_TTL <=? elapsed (CachedKeys.refreshed_at c) now) || negb (is_some (CachedKeys.values c !! kid)).

Definition refresh_is_due (now : Z) (c : CachedKeys.t Key) (kid : string) : bool :=
  cache_needs_refresh now c kid && (JWKS_RETRY_BACKOFF <=? elapsed (CachedKeys.last_attempt c) now).

(** Too long without a refresh. *)
Definition outage (now : Z) (c : CachedKeys.t Key) : bool := JWKS_OUTAGE_GRACE <? elapsed (CachedKeys.refreshed_at c) now.

(** Under the lock of the cache: what is there now, at this instant. *)
Definition access {A} (f : Z -> CachedKeys.t Key -> A * CachedKeys.t Key) : cached A := fun w =>
  let n := KeyWorld.tick w in
  let '(a, c) := f (Jwks.clock j n) (Jwks.others j n (KeyWorld.keys w)) in
  (Ok a, KeyWorld.mk c (S n)).

Definition inspect {A} (f : Z -> CachedKeys.t Key -> A) : cached A := access (fun now c => (f now c, c)).

Definition fetched : cached (result string (gmap string Key)) := fun w =>
  (Ok (fetch_keys (KeyWorld.tick w)), {| w with KeyWorld.tick := S (KeyWorld.tick w) |}).

Definition refresh_if_needed (kid : string) : cached unit :=
  let* needed := inspect (fun now c => cache_needs_refresh now c kid) in
  if negb needed then ret tt
  else
    let* due := inspect (fun now c => refresh_is_due now c kid) in
    if negb due then ret tt
    else
      let* _ := access (fun now c => (tt, {| c with CachedKeys.last_attempt := now |})) in
      let* keys := fetched in
      match keys with
      | Ok values => access (fun now c => (tt, {| c with CachedKeys.values := values; CachedKeys.refreshed_at := now |}))
      | Err _ =>
          let* gone := inspect (fun now c => outage now c) in
          if gone then throw ApiError.identity_unavailable else ret tt
      end.

(** The key a token names. *)
Definition key_of (kid : string) : cached Key :=
  let* _ := refresh_if_needed kid in
  let* '(gone, key) := inspect (fun now c => (outage now c, CachedKeys.values c !! kid)) in
  if (gone : bool) then throw ApiError.identity_unavailable
  else match key with Some k => ret k | None => throw ApiError.identity_unauthorized end.

(** ** Tokens *)

Context `{J : Jwt Key}.

Definition if_some {A} (o : option A) : cached A :=
  match o with Some a => ret a | None => throw ApiError.identity_unauthorized end.

(** The header, the key, and the claims that [open] finds under it. *)
Definition opened {A} (algorithm : Algorithm) (open : nat -> Key -> string -> option A) (token : string) : cached A :=
  let* header := if_some (decode_header token) in
  let* kid := if_some match Header.alg header, algorithm with
                      | RS256, RS256 | ES256, ES256 => Some (Header.kid header)
                      | _, _ => None
                      end in
  let* kid := if_some kid in
  let* key := key_of kid in
  fun w => if_some (open (KeyWorld.tick w) key token) w.

Definition payer_validation (audience issuer : string) : Validation.t :=
  Validation.mk RS256 audience issuer ["exp"; "iss"; "aud"; "sub"; "azp"]%string 30.

Definition email_otp_subject (c : Claims.t) : bool :=
  String.eqb (Claims.authentication_method c) EMAIL_OTP_METHOD && has_prefix "email|" (Claims.sub c)
  && valid_email (Claims.email c).

(** Everything [verify] asks of the claims, [now] in seconds. *)
Definition payer_claims_ok (client_id : string) (now : Z) (c : Claims.t) : bool :=
  String.eqb (Claims.azp c) client_id
  && String.eqb (Claims.authentication_client_id c) (Claims.azp c)
  && email_otp_subject c
  && negb (String.eqb (Claims.authentication_event_id c) "")
  && Nat.leb (String.length (Claims.authentication_event_id c)) 255
  && (Claims.authenticated_at c <=? now + CLOCK_SKEW)
  && (Z.max 0 (now - Claims.authenticated_at c) <=? AUTHENTICATION_MAX_AGE).

(** [Auth0Verifier::verify]; [unix_now] is the wall clock in seconds, nothing
    before the epoch. *)
Definition verify_payer (audience issuer client_id : string) (unix_now : nat -> option Z) (token : string) : cached Identity.t :=
  let* c := opened RS256 (fun n => decode_claims n (payer_validation audience issuer)) token in
  let* now := fun w => if_some (unix_now (KeyWorld.tick w)) w in
  if payer_claims_ok client_id now c
  then ret (Identity.mk (Claims.email c) (Claims.authentication_event_id c))
  else throw ApiError.identity_unauthorized.

Definition privy_validation (app_id : string) : Validation.t :=
  Validation.mk ES256 app_id PRIVY_ISSUER ["exp"; "iss"; "aud"; "sub"]%string 30.

End Keys.

Section Merchants.
Context {Key : Type} `{J : Jwt Key} `{P : Primitives} `{K : PayerKeys}.

Definition mailbox (l : list LinkedAccount.t) : option string :=
  List.find valid_email
    (normalize_email <$> omap LinkedAccount.address (List.filter (fun a => String.eqb (LinkedAccount.kind a) "email") l)).

Definition embedded (a : LinkedAccount.t) : bool :=
  String.eqb (LinkedAccount.kind a) "wallet"
  && bool_decide (LinkedAccount.chain_type a = Some "ethereum"%string)
  && bool_decide (LinkedAccount.wallet_client_type a = Some "privy"%string).

(** The first embedded wallet that parses, unless it is the zero address. *)
Definition embedded_wallet (l : list LinkedAccount.t) : option string :=
  address ← head (omap (fun a => parse_address (trim a)) (omap LinkedAccount.address (List.filter embedded l)));
  if is_zero_address address then None else Some (to_checksum address).

Definition merchant_from_claims (c : PrivyClaims.t) : result ApiError.t MerchantIdentity.t :=
  if negb (has_prefix PRIVY_SUBJECT_PREFIX (PrivyClaims.sub c)) || Nat.ltb 255 (String.length (PrivyClaims.sub c))
  then Err ApiError.identity_unauthorized
  else
    let l := default [] (PrivyClaims.linked_accounts c ≫= parse_linked) in
    let! email := ok_or (mailbox l) ApiError.identity_unauthorized in
    Ok (MerchantIdentity.mk (PrivyClaims.iss c) (PrivyClaims.sub c) email (embedded_wallet l)).

(** [PrivyVerifier::verify]. *)
Definition verify_merchant (j : Jwks.t Key) (app_id : string) (token : string) : eff ApiError.t (KeyWorld.t Key) MerchantIdentity.t :=
  let* c := opened j ES256 (fun n => decode_privy n (privy_validation app_id)) token in
  fun w => (merchant_from_claims c, w).

End Merchants.

Definition app_id_byte (c : ascii) : bool :=
  let n := byte_of c in
  ((48 <=? n) && (n <=? 57)) || ((65 <=? n) && (n <=? 90)) || ((97 <=? n) && (n <=? 122)) || (n =? 45) || (n =? 95).

Definition validate_app_id (app_id : string) : result string unit :=
  if String.eqb app_id "" || Nat.ltb 64 (String.length app_id) || negb (forallb app_id_byte (list_ascii_of_string app_id))
  then Err "GUM_PRIVY_APP_ID must be a Privy app id (letters, digits, - and _)"%string else Ok tt.

(** ** Credentials *)

Definition bearer_credential (value : string) : option string :=
  match split_ascii_whitespace value with
  | [scheme; credential] => if eq_ignore_ascii_case scheme "Bearer" then Some credential else None
  | _ => None
  end.

Definition looks_like_api_key (credential : string) : bool :=
  existsb (fun prefix => has_prefix prefix credential) ["gum_live_"; "gum_test_"]%string.

(** [require_admin]: [secret] is the environment's, [mac] the keyed hash the
    two are compared by; the reviewer is the environment's, or "operator". *)
Definition reviewer (value : option string) : string :=
  match trim <$> value with
  | Some v => if String.eqb v "" then "operator" else v
  | None => "operator"
  end.

Definition require_admin (mac_of : string -> bytes) (secret reviewer_id header : option string) : result ApiError.t string :=
  let! supplied := ok_or (header ≫= bearer_credential) ApiError.admin_unauthorized in
  let! expected := ok_or secret ApiError.admin_unauthorized in
  if Nat.ltb (String.length expected) 32 || negb (bool_decide (mac_of supplied = mac_of expected))
  then Err ApiError.admin_unauthorized else Ok (reviewer reviewer_id).

(** ** Rate limits *)

(** [f64], as IEEE 754 computes it. *)
Abbreviation f64 := spec_float (only parsing).

Definition f64_of_Z (n : Z) : f64 := binary_normalize 53 1024 n 0 false.
Definition f64_add : f64 -> f64 -> f64 := SFadd 53 1024.
Definition f64_sub : f64 -> f64 -> f64 := SFsub 53 1024.
Definition f64_mul : f64 -> f64 -> f64 := SFmul 53 1024.
Definition f64_div : f64 -> f64 -> f64 := SFdiv 53 1024.

(** [f64::min]: the other one when one is NaN. *)
Definition f64_min (a b : f64) : f64 :=
  match a, b with
  | S754_nan, _ => b
  | _, S754_nan => a
  | _, _ => if SFltb b a then b else a
  end.

(** [x.floor() as u64] and [x.ceil() as u64], which saturate. *)
Definition f64_to_u64 (round : Z -> Z -> Z) (x : f64) : Z :=
  match x with
  | S754_zero _ | S754_nan => 0
  | S754_infinity s => if s then 0 else u64_max
  | S754_finite s m e =>
      let n := if s then Z.neg m else Z.pos m in
      Z.max 0 (Z.min u64_max (if 0 <=? e then n * 2 ^ e else round n (2 ^ (- e))))
  end.
Definition f64_floor : f64 -> Z := f64_to_u64 Z.div.
Definition f64_ceil : f64 -> Z := f64_to_u64 (fun n d => - (- n / d)).

(** [Duration::as_secs_f64]. *)
Definition as_secs_f64 (nanos : Z) : f64 :=
  f64_add (f64_of_Z (nanos / NANOS)) (f64_div (f64_of_Z (nanos mod NANOS)) (f64_of_Z NANOS)).

Module Allowance.
Record t := mk { allowed : bool; remaining : Z; seconds_until_full : Z }.
End Allowance.

(** One request at [now]: the bucket refills, then gives a token if it has one. *)
Definition take_token (limit : f64) (now : Z) (bucket : option (f64 * Z)) : Allowance.t * (f64 * Z) :=
  let refill_per_second := f64_div limit (f64_of_Z 60) in
  let '(tokens, at_) := default (limit, now) bucket in
  let tokens := f64_min (f64_add tokens (f64_mul (as_secs_f64 (Z.max 0 (now - at_))) refill_per_second)) limit in
  let allowed := SFleb (f64_of_Z 1) tokens in
  let tokens := if allowed then f64_sub tokens (f64_of_Z 1) else tokens in
  (Allowance.mk allowed (f64_floor tokens) (f64_ceil (f64_div (f64_sub limit tokens) refill_per_second)), (tokens, now)).

(** ** Admission *)

(** The deployment: the merchants' key set, when it is configured, with its app;
    the directory's clock and other users, fresh identifiers and keys. *)
Module Front.
Record t {Key : Type} := mk {
  merchant_verifier : option (Jwks.t Key * string);
  clock : nat -> Z;
  database_now : nat -> Timestamp;
  others : nat -> Directory.t -> Directory.t;
  fresh : nat -> Uuid;
  (* [Uuid::now_v7().to_string()] *)
  fresh_event : nat -> string;
  (* 32 random bytes in base64url *)
  random_token : nat -> string;
  rate_limit_per_minute : f64;
  api_key_prefix : string;
}.
Arguments t : clear implicits.
End Front.

Module Desk.
Record t {Key : Type} := mk {
  directory : Directory.t;
  keys : CachedKeys.t Key;
  rates : gmap Uuid (f64 * Z);
  tick : nat;
}.
Arguments t : clear implicits.
Arguments mk {Key}.
End Desk.

Module Admission.
Record t := mk { account : Uuid; merchant : option MerchantIdentity.t; allowance : Allowance.t }.
End Admission.

(** The headers of every response to an admitted request, and [next] only runs
    when the allowance was not used up; [unix_now] is 0 before the epoch. *)
Module RateHeaders.
Record t := mk { limit : Z; remaining : Z; reset : Z; retry_after : option Z }.
End RateHeaders.

Definition rate_headers (limit : f64) (unix_now : Z) (a : Allowance.t) : RateHeaders.t :=
  RateHeaders.mk (f64_floor limit) (Allowance.remaining a) ((unix_now + Allowance.seconds_until_full a) mod 2 ^ 64)
    (if Allowance.allowed a then None else Some 1).

Definition rate_limited {A} (next : result ApiError.t A) (a : Admission.t) : result ApiError.t A :=
  if Allowance.allowed (Admission.allowance a) then next else Err ApiError.rate_limited.

Module KeyResponse.
Record t := mk { api_key : string; generation : Z; replaced_previous_key : bool }.
End KeyResponse.

Module AccountResponse.
Record t := mk {
  account_id : string;
  email : option string;
  wallet_address : option string;
  key_hint : option string;
  generation : Z;
  created_at : string;
  rotated_at : option string;
  previous_key_expires_at : option string;
  revoked_at : option string;
}.
End AccountResponse.

Section Admission.
Context {Key : Type} `{J : Jwt Key} `{P : Primitives} `{K : PayerKeys} (sha256 : string -> B256) (f : Front.t Key).

Definition desk (E A : Type) : Type := eff E (Desk.t Key) A.

(** A transaction on the directory; the other users run before it. *)
Definition on_directory {E A} (t : nat -> Directory.t -> result E (A * Directory.t)) : desk E A := fun w =>
  let n := Desk.tick w in
  let d := Front.others f n (Desk.directory w) in
  match t n d with
  | Ok (a, d') => (Ok a, {| w with Desk.directory := d'; Desk.tick := S n |})
  | Err e => (Err e, {| w with Desk.directory := d; Desk.tick := S n |})
  end.

(** A computation on the cached keys. *)
Definition on_keys {E A} (c : eff E (KeyWorld.t Key) A) : desk E A := fun w =>
  let '(r, k) := c (KeyWorld.mk (Desk.keys w) (Desk.tick w)) in
  (r, {| w with Desk.keys := KeyWorld.keys k; Desk.tick := KeyWorld.tick k |}).

Definition answered {E A} (r : result E A) : desk E A := fun w => (r, w).

(** [map_err]. *)
Definition convert {E F A} (g : E -> F) (c : desk E A) : desk F A := fun w =>
  match c w with (Ok a, w') => (Ok a, w') | (Err e, w') => (Err (g e), w') end.

Definition silently (r : result DbError Directory.t) : result ProvisionAccountError (unit * Directory.t) :=
  match r with Ok d => Ok (tt, d) | Err e => Err (ProvisionDatabase e) end.

(** The wallet and the mailbox a session carries are kept current. *)
Definition adopt (account : Uuid) (email : string) (wallet : option string) : desk ProvisionAccountError Uuid :=
  let* _ := on_directory (fun _ d => silently (adopt_wallet account wallet d)) in
  let* _ := on_directory (fun _ d => silently (adopt_email account email d)) in
  ret account.

Definition find_or_provision_by_identity (issuer subject verified_email : string) (wallet : option string)
  : desk ProvisionAccountError Uuid :=
  let* existing := on_directory (fun _ d => Ok (identity_account issuer subject d, d)) in
  match existing with
  | Some existing =>
      let* account := answered existing in
      adopt account verified_email wallet
  | None =>
      let* '(account, there) := on_directory (fun n d =>
        provision (Front.fresh f n) issuer subject verified_email wallet (Front.database_now f n) d) in
      if there then adopt account verified_email wallet else ret account
  end.

Definition provision_error (e : ProvisionAccountError) : ApiError.t :=
  match e with
  | ProvisionAccountDisabled => ApiError.account_disabled
  | ProvisionDatabase e => ApiError.of_db_error e
  end.

(** A key set that cannot be refreshed is told apart; every other failure is an
    invalid credential. *)
Definition session_error (e : ApiError.t) : ApiError.t := if ApiError.status e =? 503 then e else ApiError.unauthorized.

Definition session_account (token : string) : desk ApiError.t (Uuid * MerchantIdentity.t) :=
  match Front.merchant_verifier f with
  | None => throw ApiError.unauthorized
  | Some (j, app_id) =>
      let* merchant := convert session_error (on_keys (verify_merchant j app_id token)) in
      let* account := convert provision_error
        (find_or_provision_by_identity (MerchantIdentity.issuer merchant) (MerchantIdentity.subject merchant)
           (MerchantIdentity.email merchant) (MerchantIdentity.wallet_address merchant)) in
      ret (account, merchant)
  end.

Definition key_account (key : string) : desk ApiError.t Uuid :=
  let* account := on_directory (fun n d => Ok (authenticate sha256 key (Front.database_now f n) d, d)) in
  answered (ok_or account ApiError.unauthorized).

(** The bucket of the account, under its lock. *)
Definition meter (account : Uuid) : desk ApiError.t Allowance.t := fun w =>
  let '(allowance, bucket) := take_token (Front.rate_limit_per_minute f) (Front.clock f (Desk.tick w)) (Desk.rates w !! account) in
  (Ok allowance, {| w with Desk.rates := <[account := bucket]> (Desk.rates w); Desk.tick := S (Desk.tick w) |}).

(** [require_account]: whom the request runs as, unless it is [rate_limited]. *)
Definition require_account (header : option string) : desk ApiError.t Admission.t :=
  let* supplied := answered (ok_or (header ≫= bearer_credential) ApiError.unauthorized) in
  let* '(account, merchant) :=
    if looks_like_api_key supplied then
      let* account := key_account supplied in ret (account, None)
    else
      let* '(account, merchant) := session_account supplied in ret (account, Some merchant) in
  let* allowance := meter account in
  ret (Admission.mk account merchant allowance).

(** ** The routes about the account *)

(** The extractor [Session]. *)
Definition session (a : Admission.t) : result ApiError.t MerchantIdentity.t :=
  ok_or (Admission.merchant a) ApiError.identity_unauthorized.

Definition issue_error (e : IssueApiKeyError) : ApiError.t :=
  match e with
  | AuthenticationEventAlreadyUsed => ApiError.authentication_event_already_used
  | GenerationConflict => ApiError.api_key_generation_conflict
  | IssueAccountDisabled => ApiError.account_disabled
  | IssueDatabase e => ApiError.of_db_error e
  end.

Definition generate_api_key (n : nat) : string := Front.api_key_prefix f +:+ Front.random_token f n.

(** The answer, with its status. *)
Definition issue_key (a : Admission.t) (expected_generation : option Z) : desk ApiError.t (Z * KeyResponse.t) :=
  let* identity := answered (session a) in
  let* _ := answered (if match expected_generation with Some g => g <? 1 | None => false end
                      then Err (ApiError.invalid_request "expected_generation must be positive") else Ok tt) in
  let* key := fun w : Desk.t Key => (Ok (generate_api_key (Desk.tick w)), w) in
  let* issued := convert issue_error (on_directory (fun n d =>
    issue_api_key_inner sha256 (Front.fresh f n) (MerchantIdentity.issuer identity) (MerchantIdentity.subject identity)
      expected_generation (Front.fresh_event f n) key (Some (MerchantIdentity.email identity)) (Front.database_now f n) d)) in
  ret (if IssuedApiKey.replaced_previous_key issued then 200 else 201,
       KeyResponse.mk key (IssuedApiKey.generation issued) (IssuedApiKey.replaced_previous_key issued)).

Definition revoke_key (a : Admission.t) (expected_generation : Z) : desk ApiError.t unit :=
  let* identity := answered (session a) in
  let* _ := answered (if expected_generation <? 1
                      then Err (ApiError.invalid_request "expected_generation must be positive") else Ok tt) in
  let* _ := convert issue_error (on_directory (fun n d =>
    revoke_api_key (MerchantIdentity.issuer identity) (MerchantIdentity.subject identity) expected_generation
      (Front.fresh_event f n) (Front.database_now f n) d)) in
  ret tt.

Definition account_response `{U : UuidText} `{D : Dates} (m : ApiKeyMetadata.t) : AccountResponse.t :=
  AccountResponse.mk (id_display AccountId (ApiKeyMetadata.account_id m)) (ApiKeyMetadata.email m) (ApiKeyMetadata.wallet_address m)
    (ApiKeyMetadata.hint m) (ApiKeyMetadata.generation m) (rfc3339 (ApiKeyMetadata.created_at m))
    (rfc3339 <$> ApiKeyMetadata.rotated_at m) (rfc3339 <$> ApiKeyMetadata.previous_key_expires_at m)
    (rfc3339 <$> ApiKeyMetadata.revoked_at m).

Definition get_account `{U : UuidText} `{D : Dates} (account : Uuid) : desk ApiError.t AccountResponse.t :=
  let* m := convert ApiError.of_db_error (on_directory (fun _ d => let! m := metadata account d in Ok (m, d))) in
  ret (account_response m).

End Admission.

(** A burst at one instant: a limit of two requests a minute gives two tokens. *)
Example burst_of_two :
  let limit := f64_of_Z 2 in
  let '(a1, b1) := take_token limit 5 None in
  let '(a2, b2) := take_token limit 5 (Some b1) in
  let '(a3, b3) := take_token limit 5 (Some b2) in
  let '(a4, _) := take_token limit (5 + 31 * NANOS) (Some b3) in
  Allowance.allowed <$> [a1; a2; a3; a4] = [true; true; false; true] /\ Allowance.seconds_until_full a3 = 60.
Proof. vm_compute. done. Qed.
