(* ===== verification/AuthTheorems.v ===== *)
(** * Properties of authentication

    A token is opened only under a key its provider published, in a set that was
    refreshed within the hour ([key_of_recent]); and whoever a request is admitted
    as, its credential is a key that opens the account or a session of the
    identity that owns it ([admitted_as_account_holder]). *)

From Stdlib Require Import Ascii String.
From Stdlib Require Import SpecFloat.
From stdpp Require Import strings sorting.
From S2P Require Import Prelude Text Core Contracts Ids Bus Tables Invoices Attribution Responses ApiError Effects.
From S2P Require Import PayerPolicy PayerIdentity Accounts AccountTheorems ProofExample Auth.

(** ** The cached keys *)

Section Keys.
Context {Key : Type} (j : Jwks.t Key).

(** The set is one the provider answered before step [m], and was stored after
    the answer. *)
Definition from_provider (m : nat) (c : CachedKeys.t Key) : Prop :=
  exists n n', (n < n' <= m)%nat /\ fetch_keys j n = Ok (CachedKeys.values c) /\ CachedKeys.refreshed_at c = Jwks.clock j n'.

Lemma from_provider_later m m' c : (m <= m')%nat -> from_provider m c -> from_provider m' c.
Proof. intros Hm (n & n' & Hn & Hf & Hr). exists n, n'. split; [lia|done]. Qed.

(** Another request leaves a set of the provider. *)
Class HonestCache : Prop := others_honest n c : from_provider n c -> from_provider n (Jwks.others j n c).

(** So is the one a server starts with. *)
Lemma first_cache_honest n c : first_cache j n = Ok c -> from_provider (S n) c.
Proof.
  unfold first_cache. intros (values & Hv & [= <-])%rbind_ok. exists n, (S n). split; [lia|]. by split.
Qed.

(** A key of a set that the provider answered before step [m], stored no longer
    than an hour before it. *)
Definition published (kid : string) (k : Key) (m : nat) : Prop :=
  exists n n' values, (n < n' <= m)%nat /\ fetch_keys j n = Ok values /\ values !! kid = Some k /\
    Jwks.clock j m - Jwks.clock j n' <= JWKS_OUTAGE_GRACE.

Context {H : HonestCache} (first : nat).

(** From step [first] on, with a set of the provider. *)
Abbreviation honest := (fun w => (first <= KeyWorld.tick w)%nat /\ from_provider (KeyWorld.tick w) (KeyWorld.keys w)) (only parsing).

Lemma inspect_honest {A} (g : Z -> CachedKeys.t Key -> A) :
  triple honest (inspect j g) (fun a w => honest w /\ exists n, (first <= n)%nat /\ KeyWorld.tick w = S n /\
    from_provider n (KeyWorld.keys w) /\ a = g (Jwks.clock j n) (KeyWorld.keys w)) (fun _ => honest).
Proof.
  intros w [Hf Hw]. unfold inspect, access. cbn. pose proof (others_honest (KeyWorld.tick w) _ Hw) as Hc.
  split; [split; [lia|]|by eexists]. eapply from_provider_later; [|exact Hc]. lia.
Qed.

Lemma refresh_honest kid : triple honest (refresh_if_needed j kid) (fun _ => honest) (fun _ => honest).
Proof.
  unfold refresh_if_needed. eapply triple_bind; [apply inspect_honest|]. intros needed.
  destruct needed; cbn [negb]; [|apply triple_ret; by intros s [? _]].
  eapply (triple_weaken _ _ _ _ _ _ honest); [|by intros s [? _]|intros ? ? HQ; exact HQ|intros ? ? HQ; exact HQ].
  eapply triple_bind; [apply inspect_honest|]. intros due. destruct due; cbn [negb]; [|apply triple_ret; by intros s [? _]].
  intros w [[Hfirst Hw] _]. unfold bind, access, fetched. cbn. pose proof (others_honest (KeyWorld.tick w) _ Hw) as Hc.
  set (c0 := Jwks.others j (KeyWorld.tick w) (KeyWorld.keys w)) in *.
  set (c1 := {| c0 with CachedKeys.last_attempt := Jwks.clock j (KeyWorld.tick w) |}).
  assert (from_provider (KeyWorld.tick w) c1) as H1 by exact Hc. destruct (fetch_keys j (S (KeyWorld.tick w))) as [values|e] eqn:Hf; cbn.
  - split; [lia|]. exists (S (KeyWorld.tick w)), (S (S (KeyWorld.tick w))). split; [lia|]. done.
  - apply (from_provider_later _ (S (S (KeyWorld.tick w)))), others_honest in H1; [|lia].
    destruct (outage _ _); cbn; (split; [lia|]); (eapply from_provider_later; [|exact H1]); lia.
Qed.

Lemma key_of_recent kid :
  triple honest (key_of j kid)
    (fun k w => honest w /\ exists m, (first <= m)%nat /\ KeyWorld.tick w = S m /\ published kid k m) (fun _ => honest).
Proof.
  unfold key_of. eapply triple_bind; [apply refresh_honest|]. intros []. eapply triple_bind; [apply inspect_honest|].
  intros a w (Hw & m & Hfm & Hm & Hc & ->). cbn. destruct (outage _ _) eqn:Ho; [done|].
  destruct (CachedKeys.values (KeyWorld.keys w) !! kid) as [k|] eqn:Hk; [|done]. cbn. split; [done|]. exists m. split_and!; [done..|].
  destruct Hc as (n & n' & Hn & Hf & Hr). exists n, n', (CachedKeys.values (KeyWorld.keys w)). split_and!; [lia..|done|done|].
  unfold outage, elapsed in Ho. rewrite Hr in Ho. lia.
Qed.

Context `{J : Jwt Key}.

Lemma if_some_triple {A} (o : option A) : triple honest (if_some o) (fun a w => honest w /\ o = Some a) (fun _ => honest).
Proof. intros w Hw. destruct o; cbn; [by split|done]. Qed.

Lemma opened_recent {A} algorithm (open : nat -> Key -> string -> option A) token : algorithm <> OtherAlgorithm ->
  triple honest (opened j algorithm open token)
    (fun a w => honest w /\ exists kid k m, (first <= m)%nat /\ KeyWorld.tick w = S m /\
       decode_header token = Some (Header.mk algorithm (Some kid)) /\ published kid k m /\ open (S m) k token = Some a) (fun _ => honest).
Proof.
  intros Halg. unfold opened. eapply triple_bind; [apply if_some_triple|]. intros [alg okid] w [Hw Hh]. revert w Hw.
  eapply triple_bind; [apply if_some_triple|]. intros okid' w [Hw Ha]. revert w Hw.
  assert (alg = algorithm /\ okid = okid') as [-> ->] by (clear -Ha; destruct alg, algorithm; cbn in Ha; split; congruence).
  eapply triple_bind; [apply if_some_triple|]. intros kid w [Hw ->]. revert w Hw.
  eapply triple_bind; [apply key_of_recent|]. intros k w (Hw & m & Hf & Hm & Hp). rewrite Hm.
  destruct (open (S m) k token) as [a|] eqn:Ho; cbn; [|done]. split; [done|]. by exists kid, k, m.
Qed.

End Keys.

(** ** Runs of the directory *)

Section Runs.
Context (sha256 : string -> B256).

Inductive account_runs (d : Directory.t) : list KeyEntry -> Directory.t -> Prop :=
| runs_none : account_runs d [] d
| runs_more es d1 es' d2 : account_runs d es d1 -> account_step sha256 d1 es' d2 -> account_runs d (es ++ es') d2.

Lemma runs_one d es d' : account_step sha256 d es d' -> account_runs d es d'.
Proof. intros Hs. rewrite <- (app_nil_l es). eapply runs_more; [apply runs_none|done]. Qed.

Lemma runs_trans d es d1 es' d2 : account_runs d es d1 -> account_runs d1 es' d2 -> account_runs d (es ++ es') d2.
Proof.
  intros H1 H2. induction H2 as [|es' d2 es'' d3 _ IH Hs]; [by rewrite app_nil_r|]. rewrite app_assoc. by eapply runs_more.
Qed.

Lemma runs_history log d es d' : history sha256 log d -> account_runs d es d' -> history sha256 (log ++ es) d'.
Proof.
  intros Hd Hr. induction Hr as [|es d1 es' d2 _ IH Hs]; [by rewrite app_nil_r|]. rewrite app_assoc. by eapply history_step.
Qed.

(** An identity keeps its account. *)
Definition owns (k : string * string) (a : Uuid) (d : Directory.t) : Prop := Directory.identities d !! k = Some a.

Lemma step_keeps_owner k a d es d' : account_step sha256 d es d' -> owns k a d -> owns k a d'.
Proof.
  unfold owns. intros Hs Ho. assert (forall k' b, Directory.identities d !! k' = None ->
    Directory.identities d' = <[k' := b]> (Directory.identities d) -> Directory.identities d' !! k = Some a) as Hins.
  { intros k' b Hn E. rewrite E, lookup_insert_ne; [done|]. intros ->. congruence. }
  destruct (decide (es = [])) as [->|Hne].
  - apply silent_step_keeps in Hs as [_ [(b & row & row' & _ & _ & _ & E)|[->|(b & row & k' & _ & _ & Hn & _ & E)]]]; [| | |done].
    + by rewrite E.
    + done.
    + by eapply Hins.
  - destruct Hs as [? ? ? ? ? ? ? ? ? ? H|? ? ? ? ? ? ? H| | | |]; [| |done..].
    + apply issue_effect in H as (_ & _ & [(row & _ & _ & _ & E)|(_ & _ & Hn & _ & E)]); [by rewrite E|by eapply Hins].
    + by apply revoke_effect in H as (_ & row & _ & _ & ->).
Qed.

Lemma runs_keep (F : Directory.t -> Prop) d es d' :
  (forall d es d', account_step sha256 d es d' -> F d -> F d') -> account_runs d es d' -> F d -> F d'.
Proof. intros HF Hr Hd. induction Hr; eauto. Qed.

End Runs.

(** ** Admission *)

Section Admission.
Context {Key : Type} `{J : Jwt Key} `{P : Primitives} `{K : PayerKeys} (sha256 : string -> B256) (f : Front.t Key).

(** The other users of the directory make its steps, and other requests leave
    sets of the provider in the cache. *)
Class HonestFront : Prop := {
  others_run n d : exists es, account_runs sha256 d es (Front.others f n d);
  cache_honest j app_id : Front.merchant_verifier f = Some (j, app_id) -> HonestCache j;
}.

Context {H : HonestFront} (d0 : Directory.t).

Definition cache_ok (w : Desk.t Key) : Prop :=
  forall j app_id, Front.merchant_verifier f = Some (j, app_id) -> from_provider j (Desk.tick w) (Desk.keys w).

(** Somewhere in a run from [d0], knowing [F]. *)
Definition standing (F : Directory.t -> Prop) (w : Desk.t Key) : Prop :=
  (exists es, account_runs sha256 d0 es (Desk.directory w)) /\ F (Desk.directory w).

Abbreviation anywhere := (standing (fun _ => True)) (only parsing).

Definition lasting (F : Directory.t -> Prop) : Prop := forall d es d', account_step sha256 d es d' -> F d -> F d'.

Lemma directory_triple {E A} F (t : nat -> Directory.t -> result E (A * Directory.t)) : lasting F ->
  (forall n d a d', t n d = Ok (a, d') -> d' = d \/ exists es, account_step sha256 d es d') ->
  triple (standing F) (on_directory f t)
    (fun a w => standing F w /\ exists n d, t n d = Ok (a, Desk.directory w)) (fun _ => anywhere).
Proof.
  intros HF Ht w ((es & Hr) & HFw). unfold on_directory. destruct (others_run (Desk.tick w) (Desk.directory w)) as [es1 Hr1].
  set (d := Front.others f (Desk.tick w) (Desk.directory w)) in *.
  assert (account_runs sha256 d0 (es ++ es1) d) as Hd by (by eapply runs_trans).
  assert (F d) as HFd by exact (runs_keep sha256 F _ _ _ HF Hr1 HFw).
  destruct (t (Desk.tick w) d) as [[a d']|e] eqn:Hok; cbn; [|split; [by eexists|done]].
  split; [|by exists (Desk.tick w), d].
  destruct (Ht _ _ _ _ Hok) as [->|[es2 Hs]]; (split; [|by eauto]); [by eexists|].
  eexists. eapply runs_trans; [exact Hd|]. by apply runs_one.
Qed.

Lemma convert_ok {E F A} (g : E -> F) (c : desk (Key := Key) E A) w a w' : convert g c w = (Ok a, w') -> c w = (Ok a, w').
Proof. unfold convert. destruct (c w) as [[b|e] w1]; [by intros [= -> ->]|by intros [=]]. Qed.

Lemma silently_ok r u d : silently r = Ok (u, d) -> r = Ok d.
Proof. destruct r; cbn; [|done]. by intros [= _ ->]. Qed.

Lemma adopt_triple F account email wallet : lasting F ->
  triple (standing F) (adopt f account email wallet) (fun a w => standing F w /\ a = account) (fun _ => anywhere).
Proof.
  intros HF. unfold adopt. eapply triple_bind; [apply directory_triple; [done|]|].
  - intros n d a d' Hd%silently_ok. right. eexists. by eapply account_wallet.
  - intros [] w [Hw _]. revert w Hw. eapply triple_bind; [apply directory_triple; [done|]|].
    + intros n d a d' Hd%silently_ok. right. eexists. by eapply account_email.
    + intros [] w [Hw _]. by split.
Qed.

Lemma identity_account_ok issuer subject d a : identity_account issuer subject d = Some (Ok a) ->
  owns (issuer, subject) a d /\ enabled a d.
Proof.
  unfold identity_account. intros ([b row] & [Hi Ha]%identity_row_some & E)%fmap_Some. cbn in E.
  destruct (Account.disabled_at row) eqn:Hd; cbn in E; [done|]. injection E as ->. split; [done|]. by exists row.
Qed.

Lemma provision_owns id issuer subject email wallet now d a there d' :
  provision id issuer subject email wallet now d = Ok ((a, there), d') -> owns (issuer, subject) a d' /\ enabled a d'.
Proof.
  unfold provision. destruct (identity_account issuer subject d) as [[b|e]|] eqn:Hi; cbn; [|done|].
  - intros [= -> _ <-]. by apply identity_account_ok.
  - intros (d1 & [Hid ->]%provision_failed_ok%insert_account_ok & Hk)%rbind_ok.
    apply rbind_ok in Hk as (d2 & [Hn ->]%provision_failed_ok%insert_identity_ok & [= -> _ <-]). cbn. split; [apply lookup_insert_eq|].
    eexists. split; [apply lookup_insert_eq|done].
Qed.

(** The account of an identity is its own. *)
Lemma provision_triple issuer subject email wallet :
  triple anywhere (find_or_provision_by_identity f issuer subject email wallet)
    (fun a w => standing (owns (issuer, subject) a) w) (fun _ => anywhere).
Proof.
  assert (forall a, lasting (owns (issuer, subject) a)) as Hlast by (intros a ? ? ?; apply step_keeps_owner).
  assert (forall a, triple (standing (owns (issuer, subject) a)) (adopt f a email wallet)
    (fun b => standing (owns (issuer, subject) b)) (fun _ => anywhere)) as Hadopt.
  { intros a. eapply triple_weaken; [apply adopt_triple, Hlast|done|by intros b w [Hw ->]|done]. }
  unfold find_or_provision_by_identity. eapply triple_bind; [apply directory_triple; [done|]|].
  { intros n d a d' [= _ <-]. by left. }
  intros existing w ((Hr & _) & n & d & [= <- E]). destruct (identity_account issuer subject d) as [[a|e]|] eqn:Hi.
  - apply identity_account_ok in Hi as [Hi _]. apply (Hadopt a). split; [done|]. by rewrite <- E.
  - done.
  - revert w Hr E. intros w Hr _. assert (anywhere w) as Hw by done. revert w Hr Hw. intros w _.
    revert w. eapply triple_bind; [apply directory_triple; [done|]|].
    { intros n1 d1 a d' Hp. right. eexists. by eapply account_provision. }
    intros [a there] w ((Hr & _) & n1 & d1 & [Ho _]%provision_owns). destruct there; [by apply (Hadopt a)|by split].
Qed.

(** Whose account the identity [k] was given at step [n], from [d]: the one it
    already owned, enabled, or one opened for it under a fresh identifier after it
    was found to own none. *)
Definition given (d : Directory.t) (n : nat) (k : string * string) (a : Uuid) : Prop :=
  let d1 := Front.others f n d in let d2 := Front.others f (S n) d1 in
  (owns k a d1 /\ enabled a d1) \/
  (Directory.identities d1 !! k = None /\
   ((owns k a d2 /\ enabled a d2) \/
    (Directory.identities d2 !! k = None /\ Directory.accounts d2 !! a = None /\ a = Front.fresh f (S n)))).

Lemma provision_given id issuer subject email wallet now d a there d' :
  provision id issuer subject email wallet now d = Ok ((a, there), d') ->
  (owns (issuer, subject) a d /\ enabled a d) \/
  (Directory.identities d !! (issuer, subject) = None /\ Directory.accounts d !! a = None /\ a = id).
Proof.
  unfold provision. destruct (identity_account issuer subject d) as [[b|e]|] eqn:Hi; cbn; [|done|].
  - intros [= -> _ <-]. left. by apply identity_account_ok.
  - intros (d1 & [Hid ->]%provision_failed_ok%insert_account_ok & Hk)%rbind_ok.
    apply rbind_ok in Hk as (d2 & [Hn ->]%provision_failed_ok%insert_identity_ok & [= -> _ <-]). by right.
Qed.

Lemma on_directory_ok {E A} (t : nat -> Directory.t -> result E (A * Directory.t)) w a w' :
  on_directory f t w = (Ok a, w') ->
  t (Desk.tick w) (Front.others f (Desk.tick w) (Desk.directory w)) = Ok (a, Desk.directory w') /\ Desk.tick w' = S (Desk.tick w).
Proof. unfold on_directory. destruct (t _ _) as [[b d]|e]; [|done]. by intros [= -> <-]. Qed.

Lemma adopt_same account email wallet w a w' : adopt f account email wallet w = (Ok a, w') -> a = account.
Proof. unfold adopt. intros (? & ? & _ & (? & ? & _ & [= <- _])%bind_ok)%bind_ok. done. Qed.

Lemma no_identity log issuer subject d : history sha256 log d -> identity_account issuer subject d = None ->
  Directory.identities d !! (issuer, subject) = None.
Proof.
  intros L%history_ok. unfold identity_account, identity_row. destruct (Directory.identities d !! _) as [a|] eqn:Hi; [|done].
  destruct (lg_identity _ _ L _ _ Hi) as [row Hrow]. cbn. by rewrite Hrow.
Qed.

Lemma identity_given log issuer subject email wallet w a w' : history sha256 log (Desk.directory w) ->
  find_or_provision_by_identity f issuer subject email wallet w = (Ok a, w') ->
  given (Desk.directory w) (Desk.tick w) (issuer, subject) a.
Proof.
  intros Hlog. unfold find_or_provision_by_identity, given.
  destruct (others_run (Desk.tick w) (Desk.directory w)) as [es Hes]. pose proof (runs_history _ _ _ _ _ Hlog Hes) as Hd.
  intros (existing & w1 & [[= <- E] Ht]%on_directory_ok & Hk)%bind_ok.
  destruct (identity_account issuer subject _) as [[b|e]|] eqn:Hi.
  - apply bind_ok in Hk as (b' & w2 & [= -> <-] & ->%adopt_same). left. by apply identity_account_ok.
  - by apply bind_ok in Hk as (b' & w2 & [=] & _).
  - right. split; [by eapply no_identity|]. apply bind_ok in Hk as ([b there] & w2 & [Hp _]%on_directory_ok & Hk).
    rewrite Ht, <- E in Hp. apply provision_given in Hp. destruct there; [by apply adopt_same in Hk as ->|by injection Hk as <- _].
Qed.

(** The session is a token under a key that the provider published for it, and
    opens at step [S n] to the merchant [m]. *)
Definition vouched (j : Jwks.t Key) (app_id token : string) (n : nat) (m : MerchantIdentity.t) : Prop :=
  exists kid k claims, decode_header token = Some (Header.mk ES256 (Some kid)) /\ published j kid k n /\
    decode_privy (S n) (Validation.mk ES256 app_id "privy.io" ["exp"; "iss"; "aud"; "sub"]%string 30) k token = Some claims /\
    MerchantIdentity.issuer m = PrivyClaims.iss claims /\ MerchantIdentity.subject m = PrivyClaims.sub claims /\
    has_prefix "did:privy:" (PrivyClaims.sub claims) = true.

Lemma merchant_claims claims m : merchant_from_claims claims = Ok m ->
  MerchantIdentity.issuer m = PrivyClaims.iss claims /\ MerchantIdentity.subject m = PrivyClaims.sub claims /\
  has_prefix "did:privy:" (PrivyClaims.sub claims) = true.
Proof.
  unfold merchant_from_claims, PRIVY_SUBJECT_PREFIX. destruct (_ || _) eqn:Hb; [done|]. apply orb_false_iff in Hb as [Hb%negb_false_iff _].
  cbv zeta. by intros (e & _ & [= <-])%rbind_ok.
Qed.

(** The keys are read and refreshed, the directory is not. *)
Lemma verify_vouched j app_id token w m w' : Front.merchant_verifier f = Some (j, app_id) -> cache_ok w ->
  on_keys (E := ApiError.t) (verify_merchant j app_id token) w = (Ok m, w') ->
  Desk.directory w' = Desk.directory w /\ exists n, (Desk.tick w <= n)%nat /\ Desk.tick w' = S n /\ vouched j app_id token n m.
Proof.
  intros Hv Hc. unfold on_keys. destruct (verify_merchant j app_id token _) as [r k] eqn:E. intros [= -> <-]. cbn. split; [done|].
  unfold verify_merchant in E. apply bind_ok in E as (claims & k1 & Ho & [= Hm%merchant_claims ->]).
  pose proof (cache_honest j app_id Hv).
  pose proof (opened_recent j (Desk.tick w) ES256 (fun n => decode_privy n (privy_validation app_id)) token
    ltac:(done) (KeyWorld.mk (Desk.keys w) (Desk.tick w)) (conj (Nat.le_refl _) (Hc _ _ Hv))) as T.
  rewrite Ho in T. destruct T as (_ & kid & key & n & Hn & Ht & Hh & Hp & Hd). exists n. split_and!; [done..|].
  by exists kid, key, claims.
Qed.

Lemma authenticate_admits key now d a : authenticate sha256 key now d = Some a ->
  exists row, Directory.accounts d !! a = Some row /\ admits (sha256 key) now row = true.
Proof.
  unfold authenticate. intros ([b row] & Hh & ->)%fmap_Some. exists row.
  destruct (List.filter _ _) as [|x l] eqn:Hf; [done|]. injection Hh as ->.
  assert (In (b, row) ((b, row) :: l)) as Hin by by left. rewrite <- Hf in Hin. apply filter_In in Hin as [Hin Had].
  split; [by apply elem_of_map_to_list, list_elem_of_In|done].
Qed.

End Admission.

Section Holder.
Context {Key : Type} `{J : Jwt Key} `{P : Primitives} `{K : PayerKeys} (sha256 : string -> B256) (f : Front.t Key).

(** The credential is a key that opened the account when it was looked up: in
    the directory as the others had left it at the step of the request. *)
Definition by_key (log : list KeyEntry) (w : Desk.t Key) (credential : string) (a : Uuid) : Prop :=
  let d := Front.others f (Desk.tick w) (Desk.directory w) in
  exists es, account_runs sha256 (Desk.directory w) es d /\ enabled a d /\
    opens a (sha256 credential) (Front.database_now f (Desk.tick w)) (log ++ es).

(** The credential is a session of the merchant [m], vouched for by the
    provider, whose account it is. *)
Definition by_session (w : Desk.t Key) (credential : string) (a : Uuid) (m : MerchantIdentity.t) (after : Directory.t) : Prop :=
  let k := (MerchantIdentity.issuer m, MerchantIdentity.subject m) in
  exists j app_id n, Front.merchant_verifier f = Some (j, app_id) /\ (Desk.tick w <= n)%nat /\
    vouched j app_id credential n m /\ given f (Desk.directory w) (S n) k a /\ owns k a after.

(** Why [a] was admitted on [credential]. *)
Definition holder (log : list KeyEntry) (w : Desk.t Key) (credential : string) (a : Admission.t) (after : Directory.t) : Prop :=
  match Admission.merchant a with
  | None => looks_like_api_key credential = true /\ by_key log w credential (Admission.account a)
  | Some m => looks_like_api_key credential = false /\ by_session w credential (Admission.account a) m after
  end.

Context {H : HonestFront sha256 f}.

Lemma key_opens log key w a w' : history sha256 log (Desk.directory w) -> key_account sha256 f key w = (Ok a, w') -> by_key log w key a.
Proof.
  intros Hlog (o & w1 & [[= Ho _] _]%on_directory_ok & Hk)%bind_ok. injection Hk as Hk%ok_or_ok _. subst o.
  unfold by_key. destruct (others_run sha256 f (Desk.tick w) (Desk.directory w)) as [es Hes]. pose proof (runs_history _ _ _ _ _ Hlog Hes) as Hd.
  apply authenticate_admits in Hk as (row & Ha & Had). eapply admits_opens in Had as [Hen Ho]; [|by eapply history_ok|done].
  exists es. split_and!; [done|by exists row|done].
Qed.

Lemma session_opens log token w a m w' : history sha256 log (Desk.directory w) -> cache_ok f w ->
  session_account f token w = (Ok (a, m), w') -> by_session w token a m (Desk.directory w').
Proof.
  intros Hlog Hc. unfold session_account, by_session. destruct (Front.merchant_verifier f) as [[j app_id]|] eqn:Hv; [|done].
  intros (m' & w1 & Hm%convert_ok & Hk)%bind_ok. apply bind_ok in Hk as (b & w2 & Hp%convert_ok & [= -> -> <-]).
  destruct (verify_vouched sha256 f _ _ _ _ _ _ Hv Hc Hm) as (E & n & Hn & Ht & Hvouched). exists j, app_id, n. split_and!; [done..| |].
  - rewrite <- E, <- Ht. eapply (identity_given sha256 f); [by rewrite E|exact Hp].
  - pose proof (provision_triple sha256 f (Desk.directory w1) (MerchantIdentity.issuer m) (MerchantIdentity.subject m)
      (MerchantIdentity.email m) (MerchantIdentity.wallet_address m) w1) as T.
    rewrite Hp in T. apply T. split; [exists []; apply runs_none|done].
Qed.

(** C9. Whoever a request is admitted as holds the account: its header carries a
    bearer credential, which is one of two things.  It looks like a key, and the
    directory, as it stood when the key was looked up, has the account enabled and
    the log of its keys has this key issued to the account and since then neither
    revoked nor replaced, or replaced less than a day before.  Or it is a token
    whose header names a key that the provider published, in a set that was stored
    before that step and not more than an hour ago, and that opens it, for the
    configured app and issuer, to the identity the request is admitted with; the
    identity owns the account still, and when it was looked up it owned it and the
    account was enabled, or it owned none and the account was opened for it under a
    fresh identifier.  That holds whatever the other users of the directory and of
    the cache do in between. *)
Theorem admitted_as_account_holder log w header a w' :
  history sha256 log (Desk.directory w) -> cache_ok f w ->
  require_account sha256 f header w = (Ok a, w') ->
  exists credential, header ≫= bearer_credential = Some credential /\ holder log w credential a (Desk.directory w').
Proof.
  intros Hlog Hc. unfold require_account. intros (credential & w1 & Hcred & Hk)%bind_ok. injection Hcred as Hcred%ok_or_ok <-.
  exists credential. split; [done|]. apply bind_ok in Hk as ([b m] & w2 & Hs & Hk). apply bind_ok in Hk as (allowance & w3 & Hm & [= <- <-]).
  assert (Desk.directory w3 = Desk.directory w2) as ->.
  { unfold meter in Hm. destruct (take_token _ _ _). by injection Hm as _ <-. }
  unfold holder. destruct (looks_like_api_key credential) eqn:Hl.
  - apply bind_ok in Hs as (b' & w4 & Hkey & [= <- <- <-]). cbn. split; [done|]. by eapply key_opens.
  - apply bind_ok in Hs as ([b' m'] & w4 & Hses & [= <- <- <-]). cbn. split; [done|]. by eapply session_opens.
Qed.

End Holder.

(** ** A merchant signs in *)
Module AuthExample.

#[local] Instance primitives : Primitives := Toy.primitives Toy.no_attestation.

#[local] Existing Instance IdentityExample.keys.

(* a key opens the token that is its own text *)
#[local] Instance jwt : Jwt string := {|
  decode_header _ := Some (Header.mk ES256 (Some "k1"%string));
  decode_claims _ _ _ _ := None;
  decode_privy _ _ k token := if String.eqb k token then Some (PrivyClaims.mk "did:privy:a" PRIVY_ISSUER (Some "linked"%string)) else None;
  parse_linked _ := Some [LinkedAccount.mk "email" (Some "a@gum.example"%string) None None];
|}.

Definition jwks : Jwks.t string := Jwks.mk (fun _ => Ok [(Some "k1"%string, Some "token"%string); (None, None)]) Z.of_nat (fun _ c => c).

Definition front : Front.t string := {|
  Front.merchant_verifier := Some (jwks, "app"%string);
  Front.clock := Z.of_nat;
  Front.database_now _ := 3000;
  Front.others _ d := d;
  Front.fresh n := 100 + Z.of_nat n;
  Front.fresh_event _ := "event"%string;
  Front.random_token _ := "random"%string;
  Front.rate_limit_per_minute := f64_of_Z 60;
  Front.api_key_prefix := "gum_live_"%string;
|}.

Definition desk : Desk.t string :=
  Desk.mk AccountExample.issued_twice (CachedKeys.mk {["k1"%string := "token"%string]} 1 0) ∅ 5.

Lemma front_honest : HonestFront AccountExample.hash front.
Proof.
  split; [intros n d; exists []; apply runs_none|]. intros j app_id [= <- <-]. by intros n c.
Qed.

Lemma desk_cache : cache_ok front desk.
Proof. intros j app_id [= <- <-]. exists 0%nat, 1%nat. split; [cbn; lia|]. by vm_compute. Qed.

Definition admission_of (header : string) : option (Uuid * bool) :=
  match require_account AccountExample.hash front (Some header) desk with
  | (Ok a, _) => Some (Admission.account a, is_some (Admission.merchant a))
  | _ => None
  end.

(** The key that was rotated out an instant ago and the owner's session are
    admitted as account 7, another token is not. *)
Example admissions :
  admission_of "Bearer gum_live_one" = Some (7, false) /\ admission_of "bearer token" = Some (7, true) /\
  admission_of "Bearer other" = None /\ admission_of "Bearer gum_live_other-key" = None.
Proof. by vm_compute. Qed.

Lemma admitted_as_account_holder_witness :
  (exists a w', require_account AccountExample.hash front (Some "bearer token"%string) desk = (Ok a, w') /\
    exists credential, Some "bearer token"%string ≫= bearer_credential = Some credential /\
      holder AccountExample.hash front AccountExample.log desk credential a (Desk.directory w')) /\
  (exists a w', require_account AccountExample.hash front (Some "Bearer gum_live_one"%string) desk = (Ok a, w') /\
    exists credential, Some "Bearer gum_live_one"%string ≫= bearer_credential = Some credential /\
      holder AccountExample.hash front AccountExample.log desk credential a (Desk.directory w')).
Proof.
  split; eexists _, _; (split; [vm_compute; reflexivity|]);
    apply (admitted_as_account_holder AccountExample.hash front (H := front_honest) AccountExample.log desk _ _ _ AccountExample.log_history desk_cache);
    vm_compute; reflexivity.
Defined.

End AuthExample.
