(* ===== verification/NotificationTheorems.v ===== *)
(** * Properties of notifications

    The ledger only adds to the outbox, naming stored requests
    ([ledger_step_posts]).  Over every interleaving of the ledger, claims,
    deliveries and writes: a payer is written to only about a request that
    still stands ([payer_mail_only_while_open]), a notification is settled for
    good ([notice_settled_for_good]), an iteration attends to the earliest due
    row ([iteration_attends_earliest]).  Merchant-supplied text cannot add
    markup to the message ([html_markup_fixed]). *)

From stdpp Require Import sorting pretty.
From S2P Require Import Prelude Core Queues Contracts Bus Tables Attachments Invoices Range Sweeps.
From S2P Require Import RelayIntents Verifications LedgerExample LedgerInv LedgerNotes RangeInv LedgerRuns.
From S2P Require Import PayerEmail Notifications Dispatcher.

(** ** What the ledger queues *)

(** A queued row names a stored request; a payer's has an address. *)
Definition addressed (db : Db.t) (q : OutboxRow.t) : Prop :=
  is_Some (Db.invoices db !! OutboxRow.invoice_id q) /\
  (OutboxRow.recipient q = recipient_as_str Payer /\ is_Some (OutboxRow.email q) \/
   OutboxRow.recipient q = recipient_as_str Merchant).

Definition requests_kept (db db' : Db.t) : Prop :=
  forall id, is_Some (Db.invoices db !! id) -> is_Some (Db.invoices db' !! id).

Definition posts (db db' : Db.t) : Prop :=
  requests_kept db db' /\
  exists new, Db.notification_outbox db' = new ++ Db.notification_outbox db /\ Forall (addressed db') new.

Lemma addressed_kept db db' q : requests_kept db db' -> addressed db q -> addressed db' q.
Proof. intros H [Hi Hr]. split; [by apply H|done]. Qed.

#[local] Instance posts_preorder : PreOrder posts.
Proof.
  split.
  - intros db. split; [by intros id|]. by exists [].
  - intros a b c [K1 (n1 & E1 & F1)] [K2 (n2 & E2 & F2)]. split; [intros id H; by apply K2, K1|].
    exists (n2 ++ n1). rewrite E2, E1, app_assoc. split; [done|]. apply Forall_app. split; [done|].
    eapply list.Forall_impl; [exact F1|]. intros q. by apply addressed_kept.
Qed.

Lemma posts_quiet db db' :
  requests_kept db db' -> Db.notification_outbox db' = Db.notification_outbox db -> posts db db'.
Proof. intros K E. split; [done|]. by exists []. Qed.

Lemma lives_kept db db' : ledger_lives db db' -> requests_kept db db'.
Proof. intros [H _] id [row Hrow]. destruct (H id row Hrow) as (row' & -> & _). by eexists. Qed.

Lemma flag_posts id reason now db : posts db (snd (flag_attention_in id reason now db)).
Proof.
  pose proof (lives_kept _ _ (flag_lives id reason now db)) as K. unfold flag_attention_in in *.
  destruct (Db.invoices db !! id) as [row|] eqn:Hid; [|reflexivity]. destruct (is_some _); [reflexivity|].
  cbn [snd] in *. destruct (Db.accounts db !! _); [|by apply posts_quiet]. split; [done|].
  eexists [_]. split; [done|]. apply Forall_singleton. split; [|by right]. apply K. by exists row.
Qed.

Lemma drain_posts receipt row d now db db' :
  apply_drain receipt row d now db = Ok db' -> Db.invoices db !! DbInvoice.id row = Some row -> posts db db'.
Proof.
  unfold apply_drain. intros H Hid. destruct (negb (positions_allowed _ _)); [discriminate|].
  destruct (_ && negb (bool_decide _)); [discriminate|]. injection H as <-.
  match goal with |- posts db (match _ with Some _ => snd (flag_attention_in _ _ _ ?m) | _ => _ end) =>
    assert (posts db m) as L end.
  { apply posts_quiet; [|done]. intros id Hi. cbn. apply lookup_alter_is_Some. exact Hi. }
  destruct (Drain.attention d); [|exact L]. etrans; [exact L|apply flag_posts].
Qed.

Lemma requeue_posts id now db : posts db (requeue id now db).
Proof. apply posts_quiet; [|done]. intros i Hi. cbn. by apply lookup_alter_is_Some. Qed.

Lemma item_posts receipt policy now s item s' :
  apply_item receipt policy now s item = Ok s' -> ledger_ok (snd s) -> posts (snd s) (snd s').
Proof.
  destruct s as [applied db]. unfold apply_item. intros H Hok. simpl in *.
  apply rbind_ok in H as (row & Hid%ok_or_ok & H). destruct (negb _); [discriminate|].
  apply rbind_ok in H as ([applied' db'] & Hdec & [= <-]). simpl.
  pose proof (ro_id _ _ _ (lo_row _ Hok _ _ Hid)) as Hrid.
  trans db'; [|by apply posts_quiet; [intros ?|]]. destruct (decide_item _ _ _ _) as [d| |reason].
  - apply rbind_ok in Hdec as (db1 & Hdr & [= <- <-]). eapply drain_posts; [exact Hdr|by rewrite Hrid].
  - injection Hdec as <- <-. apply requeue_posts.
  - injection Hdec as <- <-. etrans; [apply requeue_posts|apply flag_posts].
Qed.

Lemma resolve_posts job res detail tx now db db' : resolve_job job res detail tx now db = Ok db' -> posts db db'.
Proof. unfold resolve_job. intros H. repeat case_match; inv_ok. by apply posts_quiet; [intros ?|]. Qed.

Lemma finalized_posts receipt policy now db r db' :
  apply_sweep_finalized receipt policy now db = Ok (r, db') -> ledger_ok db -> posts db db'.
Proof.
  unfold apply_sweep_finalized. intros H Hok. destruct (job_open _ db); [|discriminate]. simpl in H.
  apply rbind_ok in H as ([applied db1] & Hf & H). destruct (negb (_ =? 0)); [discriminate|].
  apply rbind_ok in H as (db2 & Hres%resolve_posts & [= <- <-]). etrans; [|exact Hres].
  change db1 with (snd (applied, db1)).
  assert (ledger_ok db1 /\ posts db db1) as [_ L]; [|exact L].
  change db1 with (snd (applied, db1)). eapply (try_fold_ind _ (fun s => ledger_ok (snd s) /\ posts db (snd s))); [| |exact Hf].
  - intros s x s' _ [Hs L] Hx. split; [by eapply apply_item_ok|]. etrans; [exact L|by eapply item_posts].
  - by split.
Qed.

(** The operations that queue nothing. *)
Definition quiet (db db' : Db.t) : Prop := Db.notification_outbox db' = Db.notification_outbox db.

Lemma store_quiet id row db db' : store_invoice id row db = Ok db' -> quiet db db'.
Proof. unfold store_invoice. intros H. repeat case_match; by inv_ok. Qed.

Lemma bind_quiet id session attempt b utc now db r db' :
  bind_payer_wallet id session attempt b utc now db = Ok (r, db') -> quiet db db'.
Proof.
  unfold bind_payer_wallet. intros H. apply rbind_ok in H as (row & _ & H).
  destruct (is_some _); [by inv_ok|]. destruct (_ || _ || _); [by inv_ok|].
  apply rbind_ok in H as (w & _ & H). apply rbind_ok in H as (db1 & Hst%store_quiet & H).
  destruct (negb _); [discriminate|]. destruct (is_some (Db.payer_verifications _ !! _)); [discriminate|].
  by injection H as <- <-.
Qed.

Lemma bind_network_quiet id b utc now db r db' : bind_network id b utc now db = Ok (r, db') -> quiet db db'.
Proof.
  unfold bind_network. intros H. apply rbind_ok in H as (row & _ & H).
  destruct (_ && _); [|destruct (is_some _); by inv_ok].
  by apply rbind_ok in H as (db1 & Hst%store_quiet & [= <- <-]).
Qed.

Lemma range_quiet chain expected block hash ts obs now db r db' :
  apply_finalized_range chain expected block hash ts obs now db = Ok (r, db') -> quiet db db'.
Proof.
  unfold apply_finalized_range. intros H. apply rbind_ok in H as (stored & _ & H).
  case_bool_decide; [|by inv_ok].
  unfold apply_range_body in H. apply rbind_ok in H as (credits0 & _ & H).
  apply rbind_ok in H as ([credits table] & _ & H).
  destruct (apply_credits now credits (Db.invoices db)) as [invoices fs].
  unfold expire_bound in H. apply rbind_ok in H as (db3 & Hc & [= <- <-]).
  unfold store_cursor in Hc. destruct (_ && _); [|discriminate]. by injection Hc as <-.
Qed.

Lemma schedule_quiet hash parse chain policy producer job corr msg now db r db' :
  schedule_sweep_job hash parse chain policy producer job corr msg now db = Ok (r, db') -> quiet db db'.
Proof.
  unfold schedule_sweep_job. intros H. destruct (halted _ db); [by inv_ok|]. destruct (is_some _); [discriminate|].
  apply rbind_ok in H as ([|r0 rows] & _ & H); [by inv_ok|]. apply rbind_ok in H as (items & _ & H).
  destruct (publish _ _ _ _ _ _ _ _) as [[? ?]|]; [|discriminate]. by injection H as <- <-.
Qed.

Lemma close_quiet job res detail tx now db n db' :
  close_without_effect job res detail tx now db = Ok (n, db') -> quiet db db'.
Proof.
  unfold close_without_effect. intros H. destruct (negb _); [discriminate|].
  apply rbind_ok in H as (db2 & Hres & [= <- <-]). unfold resolve_job in Hres. repeat case_match; by inv_ok.
Qed.

Lemma relay_quiet db db' : relay_step db db' -> quiet db db'.
Proof.
  intros []; unfold insert, mark_sent, defer, resolve_filled, resolve_failed, attribute_fill, unpark_unless_pending, set_intents in *;
    repeat case_match; simplify_eq; try done; inv_ok; done.
Qed.

Lemma complete_quiet id t s wanted now db : quiet db (snd (complete_invoice id t s wanted now db)).
Proof. unfold complete_invoice. by repeat case_match. Qed.

Lemma insert_session_quiet id s db db' : insert_session id s db = Ok db' -> quiet db db'.
Proof. unfold insert_session. intros H. repeat case_match; by inv_ok. Qed.

Lemma verification_quiet db db' : verification_step db db' -> quiet db db'.
Proof.
  intros [].
  - unfold create in *. inv_ok. by eapply insert_session_quiet.
  - unfold create_merchant_preview in *. inv_ok. by eapply insert_session_quiet.
  - unfold issue_wallet_challenge in *. repeat case_match; by inv_ok.
  - done.
  - done.
  - unfold begin_email_verification in *. repeat case_match; by inv_ok.
  - unfold approve_email in *. destruct (approved_before _ _) as [[? ?]|]; [by inv_ok|].
    destruct (negb _); [discriminate|]. inv_ok. destruct (_ <=? _); [discriminate|].
    match goal with H : (let '(_, _) := complete_invoice ?a ?b ?c ?d ?e ?f in _) = _ |- _ =>
      pose proof (complete_quiet a b c d e f) as Hc; destruct (complete_invoice a b c d e f) end.
    inv_ok. exact Hc.
  - unfold create_client_secret in *. repeat case_match; by inv_ok.
  - unfold exchange_client_secret in *. destruct (find_secret _ _ _ _) as [[? ?]|]; [|discriminate].
    destruct (is_some _); [discriminate|]. destruct (_ <=? _); [discriminate|]. inv_ok.
    destruct (_ <? _); [discriminate|]. destruct (is_some _); [discriminate|].
    match goal with H : (let '(_, _) := complete_invoice ?a ?b ?c ?d ?e ?f in _) = _ |- _ =>
      pose proof (complete_quiet a b c d e f) as Hc; destruct (complete_invoice a b c d e f) end.
    inv_ok. match goal with H : exchange_db ?r = Ok ?db1 |- _ => destruct r as [x'|] eqn:Hins; [|discriminate]; simpl in H; inv_ok end.
    apply insert_session_quiet in Hins. unfold quiet in *. cbn in *. congruence.
Qed.

Section Queued.
Context (payload_hash : Message -> B256) (parse_address : string -> option Address) (hex : bytes -> string).

Lemma issue_posts input a utc now db r db' :
  insert_issued hex input a utc now db = Ok (r, db') -> requests_kept db db' -> posts db db'.
Proof.
  intros H K. split; [done|]. unfold insert_issued in H.
  destruct (find_by_idempotency_key _ _ _); [inv_ok; by exists []|].
  repeat (match type of H with (if _ then Err _ else _) = _ => case_match; [discriminate|] end).
  apply rbind_ok in H as ([att db2] & Hatt & H).
  assert (Db.notification_outbox db2 = Db.notification_outbox db /\
    is_Some (Db.invoices db2 !! CreateInvoiceInput.id input)) as [E Hi].
  { destruct a; [|inv_ok; cbn; by rewrite lookup_insert_eq].
    destruct (Attachment.attach_in_transaction _ _ _ _ _) as [[? ?]|] eqn:Ea; [|discriminate].
    apply Attachment.attach_update in Ea. unfold Attachment.update_upload in Ea.
    repeat case_match; inv_ok; cbn; by rewrite lookup_insert_eq. }
  injection H as <- <-. destruct (CreateInvoiceInput.payer_notification_email input) as [email|]; [|by exists []].
  eexists [_]. cbn. rewrite E. split; [done|]. apply Forall_singleton. split; [done|]. left. split; [done|]. by eexists.
Qed.

(** The ledger only adds to what is queued, and every addition names a request
    that is stored. *)
Lemma ledger_step_posts db db' : ledger_step payload_hash parse_address hex db db' -> ledger_ok db -> posts db db'.
Proof.
  intros H Hok. pose proof (lives_kept _ _ (ledger_step_lives _ _ _ _ _ H Hok)) as K.
  assert (quiet db db' -> posts db db') as Q by (intros; by apply posts_quiet).
  destruct H; eauto using issue_posts, bind_quiet, bind_network_quiet, range_quiet, schedule_quiet, close_quiet,
    relay_quiet, verification_quiet, flag_posts, finalized_posts.
  all: apply Q; try done; try by eapply close_quiet.
  - unfold request_cancellation. by repeat case_match.
  - match goal with H : release_attention _ _ _ = _ |- _ => unfold release_attention in H end. repeat case_match; by inv_ok.
Qed.

End Queued.

(** ** One row *)

#[local] Instance notice_before_total : Total notice_before.
Proof. intros a b. unfold notice_before. lia. Qed.

#[local] Instance notice_before_transitive : Transitive notice_before.
Proof. intros a b c. unfold notice_before. lia. Qed.

Definition conclusion_id (c : Conclusion) : Uuid :=
  match c with Complete id | Abandon id _ | Retry id _ _ | ReportMissing id => id end.

(** The row a conclusion writes. *)
Definition row_concluded (c : Conclusion) (now : Timestamp) (r : NotificationRow.t) : NotificationRow.t :=
  match c with
  | Complete _ => delivered_row now r
  | Abandon _ error => abandoned_row error now r
  | Retry _ attempts error => deferred_row attempts error now r
  | ReportMissing _ => if is_some (NotificationRow.missing_email_reported_at r) then r else reported_row now r
  end.

Lemma update_lookup id f o i : update_notice id f o !! i = if decide (i = id) then f <$> o !! i else o !! i.
Proof.
  unfold update_notice. destruct (decide (i = id)) as [->|Hne]; destruct (o !! id) as [r|] eqn:Hr; rewrite ?Hr; try done.
  - by rewrite lookup_insert_eq.
  - by rewrite lookup_insert_ne.
Qed.

Lemma conclude_lookup c now o i :
  conclude c now o !! i = if decide (i = conclusion_id c) then row_concluded c now <$> o !! i else o !! i.
Proof.
  destruct c as [id|id e|id n e|id]; cbn; [apply update_lookup..|].
  unfold report_missing_email. destruct (decide (i = id)) as [->|Hne]; destruct (o !! id) as [r|] eqn:Hr; rewrite ?Hr; try done; cbn;
    destruct (is_some (NotificationRow.missing_email_reported_at r)); cbn; rewrite ?Hr; try done; by rewrite ?lookup_insert_eq, ?lookup_insert_ne.
Qed.

(** Across writes and leases a row keeps what was queued, the times recorded
    and, once it is settled, its number of attempts. *)
Record notice_lives (r r' : NotificationRow.t) : Prop := {
  nl_queued : NotificationRow.queued r' = NotificationRow.queued r;
  nl_delivered : forall t, NotificationRow.delivered_at r = Some t -> NotificationRow.delivered_at r' = Some t;
  nl_abandoned : forall t, NotificationRow.abandoned_at r = Some t -> NotificationRow.abandoned_at r' = Some t;
  nl_missing : forall t, NotificationRow.missing_email_reported_at r = Some t ->
    NotificationRow.missing_email_reported_at r' = Some t;
  nl_attempts : pending r = false -> NotificationRow.attempts r' = NotificationRow.attempts r;
}.

Lemma lives_settled r r' : notice_lives r r' -> pending r = false -> pending r' = false.
Proof.
  intros [Q D A M _]. unfold pending, NotificationRow.email. rewrite Q. intros H. apply andb_false_iff in H as [H|H].
  - destruct (NotificationRow.abandoned_at r) as [t|]; [|done]. by rewrite (A t eq_refl).
  - apply andb_false_iff. right. destruct (OutboxRow.email _).
    + destruct (NotificationRow.delivered_at r) as [t|]; [|done]. by rewrite (D t eq_refl).
    + destruct (NotificationRow.missing_email_reported_at r) as [t|]; [|done]. by rewrite (M t eq_refl).
Qed.

#[local] Instance notice_lives_preorder : PreOrder notice_lives.
Proof.
  split; [by split|]. intros a b c L1 L2. pose proof (lives_settled _ _ L1) as S.
  destruct L1 as [Q D A M N], L2 as [Q' D' A' M' N']. split; eauto; [congruence|].
  intros H. rewrite N' by auto. auto.
Qed.

Lemma concluded_lives c now r : notice_lives r (row_concluded c now r).
Proof.
  destruct c; cbn; [split; cbn; try done; by intros t ->..|].
  destruct (NotificationRow.missing_email_reported_at r) eqn:Hm; [reflexivity|]. split; cbn; try done. by rewrite Hm.
Qed.

Lemma leased_lives now r : pending r = true -> notice_lives r (notice_leased now r).
Proof. intros H. split; try done. congruence. Qed.

Lemma claim_notice_inv rs now db o res o' : claim_notice rs now db o = (res, o') ->
  (res = Ok None /\ o' = o /\ forall i r, o !! i = Some r -> notice_due rs now r = false) \/
  exists id r, o !! id = Some r /\ notice_due rs now r = true /\
    (forall i r', o !! i = Some r' -> notice_due rs now r' = true ->
       NotificationRow.next_attempt_at r <= NotificationRow.next_attempt_at r') /\
    o' = <[id := notice_leased now r]> o /\
    res = match Db.invoices db !! OutboxRow.invoice_id (NotificationRow.queued r) with
          | Some row => Ok (Some (event_of id (notice_leased now r) (Issuance.currency (DbInvoice.issuance row))))
          | None => Err (Decode "currency")
          end.
Proof.
  unfold claim_notice. destruct (next_notice rs now o) as [[id r]|] eqn:Hn.
  - intros [= <- <-]. right. exists id, r.
    destruct (first_row_some notice_before (notice_due rs now) o id r Hn) as (Hr & Hd & Hmin). split_and!; try done.
    intros i r' Hi Hdi. by destruct (Hmin i r' Hi Hdi) as [[= -> ->]|?].
  - intros [= <- <-]. left. split_and!; try done. exact (first_row_none notice_before (notice_due rs now) o Hn).
Qed.

(** ** Histories

    The ledger runs, dispatchers claim rows, deliver what they claimed (reading
    the request, and perhaps failing to) and write their conclusions, each at
    its own time and in any order. *)

Module NoticeWorld.
Record t := mk {
  db : Db.t;
  outbox : Outbox;
  claims : list NotificationEvent.t;
  sent : list (Mail * Timestamp);     (* with the time the request was checked *)
  writes : list Conclusion;
}.
Definition start (db : Db.t) : t := mk db ∅ [] [] [].
End NoticeWorld.

(** What a transaction queued, newest first. *)
Definition added (db db' : Db.t) : list OutboxRow.t :=
  take (length (Db.notification_outbox db') - length (Db.notification_outbox db)) (Db.notification_outbox db').

Definition mail_row (m : Mail) : Uuid := match m with PayerMail id _ _ _ _ _ | MerchantMail id _ _ _ => id end.

Definition claimed_event (r : result DbError (option NotificationEvent.t)) : list NotificationEvent.t :=
  match r with Ok (Some e) => [e] | _ => [] end.

Definition read_of (fault : option DbError) (db : Db.t) (id : Uuid) : result DbError (option DbInvoice.t) :=
  match fault with Some e => Err e | None => Ok (Db.invoices db !! id) end.

Section Histories.
Context (post : Post.t) (payload_hash : Message -> B256) (parse_address : string -> option Address)
  (hex : bytes -> string).

Inductive notice_step (w : NoticeWorld.t) : NoticeWorld.t -> Prop :=
| notice_ledger db' now : ledger_step payload_hash parse_address hex (NoticeWorld.db w) db' ->
    notice_step w {| w with NoticeWorld.db := db';
      NoticeWorld.outbox := foldr (fun q o => queue now o q) (NoticeWorld.outbox w) (added (NoticeWorld.db w) db') |}
| notice_claim now :
    let r := claim_notice (Post.recipients post) now (NoticeWorld.db w) (NoticeWorld.outbox w) in
    notice_step w {| w with NoticeWorld.outbox := snd r;
      NoticeWorld.claims := claimed_event (fst r) ++ NoticeWorld.claims w |}
| notice_deliver event fault now : event ∈ NoticeWorld.claims w ->
    let r := dispatch post parse_address (read_of fault (NoticeWorld.db w)) now event in
    notice_step w {| w with
      NoticeWorld.sent := match fst r with Some m => [(m, now)] | None => [] end ++ NoticeWorld.sent w;
      NoticeWorld.writes := option_list (snd r) ++ NoticeWorld.writes w |}
| notice_write c now : c ∈ NoticeWorld.writes w ->
    notice_step w {| w with NoticeWorld.outbox := conclude c now (NoticeWorld.outbox w) |}.

(** A message is for the row it was sent for; a payer's shows a request that
    was open when it was checked, with the terms the ledger still has. *)
Definition mail_ok (db : Db.t) (o : Outbox) (m : Mail) (at_ : Timestamp) : Prop :=
  match m with
  | PayerMail id to subj page body invoice => exists r row row',
      o !! id = Some r /\ NotificationRow.recipient r = recipient_as_str Payer /\ NotificationRow.email r = Some to /\
      invoice_try_from parse_address row = Ok invoice /\ superseded invoice at_ = None /\
      Db.invoices db !! OutboxRow.invoice_id (NotificationRow.queued r) = Some row' /\
      DbInvoice.issuance row' = DbInvoice.issuance row /\
      let email := compose_email post invoice in
      subj = subject email /\ page = html (Post.format_date post) email /\ body = text (Post.format_date post) email
  | MerchantMail id to _ invoice => exists r,
      o !! id = Some r /\ NotificationRow.recipient r = recipient_as_str Merchant /\ NotificationRow.email r = Some to /\
      OutboxRow.invoice_id (NotificationRow.queued r) = invoice
  end.

Definition event_ok (o : Outbox) (e : NotificationEvent.t) : Prop :=
  exists r, o !! NotificationEvent.id e = Some r /\
    NotificationEvent.recipient e = NotificationRow.recipient r /\ NotificationEvent.email e = NotificationRow.email r /\
    NotificationEvent.invoice_id e = OutboxRow.invoice_id (NotificationRow.queued r).

Definition rows_live (o o' : Outbox) : Prop := forall id r, o !! id = Some r -> exists r', o' !! id = Some r' /\ notice_lives r r'.

#[local] Instance rows_live_preorder : PreOrder rows_live.
Proof.
  split; [intros o id r H; by exists r|]. intros a b c H1 H2 id r Hr. destruct (H1 id r Hr) as (r1 & Hr1 & L1).
  destruct (H2 id r1 Hr1) as (r2 & Hr2 & L2). exists r2. split; [done|]. by etrans.
Qed.

Record notices_ok (w : NoticeWorld.t) : Prop := {
  no_ledger : ledger_ok (NoticeWorld.db w);
  no_queued : Forall (addressed (NoticeWorld.db w)) (Db.notification_outbox (NoticeWorld.db w));
  no_rows : forall id r, NoticeWorld.outbox w !! id = Some r ->
    NotificationRow.queued r ∈ Db.notification_outbox (NoticeWorld.db w);
  no_claims : Forall (event_ok (NoticeWorld.outbox w)) (NoticeWorld.claims w);
  no_sent : forall m t, (m, t) ∈ NoticeWorld.sent w -> mail_ok (NoticeWorld.db w) (NoticeWorld.outbox w) m t;
  no_writes : forall id, Complete id ∈ NoticeWorld.writes w -> exists m t, (m, t) ∈ NoticeWorld.sent w /\ mail_row m = id;
  no_delivered : forall id r, NoticeWorld.outbox w !! id = Some r -> is_Some (NotificationRow.delivered_at r) ->
    exists m t, (m, t) ∈ NoticeWorld.sent w /\ mail_row m = id;
}.

Lemma event_ok_live o o' e : rows_live o o' -> event_ok o e -> event_ok o' e.
Proof.
  intros H (r & Hr & E1 & E2 & E3). destruct (H _ _ Hr) as (r' & Hr' & L). exists r'. unfold NotificationRow.recipient, NotificationRow.email.
  by rewrite (nl_queued _ _ L).
Qed.

Lemma mail_ok_live db db' o o' m t : ledger_lives db db' -> rows_live o o' -> mail_ok db o m t -> mail_ok db' o' m t.
Proof.
  intros HL H. destruct m as [rid to s h b inv|rid to b inv]; cbn; unfold NotificationRow.recipient, NotificationRow.email.
  - intros (r & row & row' & Hr & E1 & E2 & E3 & E4 & Hrow & E5 & E6). destruct (H _ _ Hr) as (r' & Hr' & L).
    destruct (proj1 HL _ _ Hrow) as (row2 & Hrow2 & Hl). exists r', row, row2. rewrite (nl_queued _ _ L). split_and!; try done; [|apply E6..].
    destruct Hl as [-> _]. done.
  - intros (r & Hr & E1 & E2 & E3). destruct (H _ _ Hr) as (r' & Hr' & L). exists r'. by rewrite (nl_queued _ _ L).
Qed.

Lemma conclude_live c now o : rows_live o (conclude c now o).
Proof.
  intros id r Hr. rewrite conclude_lookup, Hr. destruct (decide _); [|by exists r].
  eexists. split; [done|]. apply concluded_lives.
Qed.

Lemma claim_live rs now db o : rows_live o (snd (claim_notice rs now db o)).
Proof.
  destruct (claim_notice rs now db o) as [res o'] eqn:H.
  destruct (claim_notice_inv _ _ _ _ _ _ H) as [(_ & -> & _)|(id & r & Hr & Hd & _ & -> & _)]; cbn; [reflexivity|].
  intros i r' Hi. destruct (decide (i = id)) as [->|Hne]; [|rewrite lookup_insert_ne by done; by exists r'].
  rewrite lookup_insert_eq. assert (r' = r) as -> by congruence. eexists. split; [done|]. apply leased_lives.
  unfold notice_due in Hd. by bools.
Qed.

Lemma queue_live now l o : rows_live o (foldr (fun q o => queue now o q) o l).
Proof.
  induction l as [|q l IH]; cbn; [reflexivity|]. etrans; [exact IH|]. intros id r Hr. unfold queue.
  rewrite lookup_insert_ne; [by exists r|]. intros <-. apply elem_of_dom_2 in Hr. by apply is_fresh in Hr.
Qed.

Lemma queue_rows now l o id r : foldr (fun q o => queue now o q) o l !! id = Some r ->
  o !! id = Some r \/ exists q, q ∈ l /\ r = NotificationRow.fresh_row q now.
Proof.
  induction l as [|q l IH]; cbn; [by left|]. unfold queue at 1. intros H. apply lookup_insert_Some in H as [[_ <-]|[_ H]].
  - right. exists q. split; [apply list_elem_of_here|done].
  - destruct (IH H) as [|(q' & Hq & ->)]; [by left|]. right. exists q'. split; [by apply list_elem_of_further|done].
Qed.

(** What a dispatch decides, by the row it was claimed for. *)
Lemma dispatch_sound db o event fault now m :
  Forall (addressed db) (Db.notification_outbox db) ->
  (forall id r, o !! id = Some r -> NotificationRow.queued r ∈ Db.notification_outbox db) ->
  event_ok o event -> fst (dispatch post parse_address (read_of fault db) now event) = Some m ->
  mail_ok db o m now /\ mail_row m = NotificationEvent.id event.
Proof.
  intros Hq Hrows (r & Hr & E1 & E2 & E3). unfold dispatch, deliver_payer, deliver_merchant, read_of. cbv zeta.
  assert (addressed db (NotificationRow.queued r)) as Ha by (eapply list.Forall_forall; [exact Hq|by eapply Hrows]).
  destruct (String.eqb_spec (NotificationEvent.recipient event) "payer") as [Hp|Hp].
  - destruct (Post.payer post) as [from|]; [|done]. destruct (NotificationEvent.email event) as [to|]; [|done].
    destruct fault; [done|]. rewrite E3. destruct (Db.invoices db !! _) as [row|] eqn:Hrow; [|done].
    destruct (invoice_try_from parse_address row) as [invoice|] eqn:Hdec; [|done].
    destruct (superseded invoice now) eqn:Hsup; [done|]. cbn. intros [= <-]. split; [|done].
    exists r, row, row. split_and!; try done. by rewrite <- E1.
  - destruct (Post.merchant post) as [from|]; [|done]. destruct (NotificationEvent.email event) as [to|]; [|done].
    destruct (guidance _ _) as [reason action]. cbn. intros [= <-]. split; [|done]. exists r. split_and!; try done.
    destruct Ha as [_ [[Hr' _]|Hr']]; [|exact Hr']. rewrite E1 in Hp. by unfold NotificationRow.recipient in Hp; rewrite Hr' in Hp.
Qed.

(** A delivery concludes the row it was claimed for, as delivered only when a
    message was sent. *)
Lemma dispatch_concludes db event fault now c :
  snd (dispatch post parse_address (read_of fault db) now event) = Some c ->
  conclusion_id c = NotificationEvent.id event /\
  ((exists id, c = Complete id) -> is_Some (fst (dispatch post parse_address (read_of fault db) now event))).
Proof.
  unfold dispatch, deliver_payer, deliver_merchant.
  destruct (String.eqb _ _); [destruct (Post.payer post)|destruct (Post.merchant post)]; try done.
  - repeat case_match; simplify_eq; cbn; intros [= <-]; (split; [done|]); intros [? ?]; simplify_eq; by eexists.
  - repeat case_match; simplify_eq; cbn; intros [= <-]; (split; [done|]); intros [? ?]; simplify_eq; by eexists.
Qed.

Lemma start_notices_ok db : no_requests db -> Db.notification_outbox db = [] -> notices_ok (NoticeWorld.start db).
Proof.
  intros H0 Hn. split; cbn; try done; [by apply no_requests_ok|by rewrite Hn| |]; by intros ? ? ?%list.elem_of_nil || by intros ? ?%list.elem_of_nil.
Qed.

Lemma notice_ledger_ok w db' now :
  ledger_step payload_hash parse_address hex (NoticeWorld.db w) db' -> notices_ok w ->
  notices_ok {| w with NoticeWorld.db := db';
    NoticeWorld.outbox := foldr (fun q o => queue now o q) (NoticeWorld.outbox w) (added (NoticeWorld.db w) db') |}.
Proof.
  intros Hs [L Q R C S W D]. pose proof (ledger_step_lives _ _ _ _ _ Hs L) as HL.
  destruct (ledger_step_posts _ _ _ _ _ Hs L) as [K (new & E & F)].
  assert (added (NoticeWorld.db w) db' = new) as Ea.
  { unfold added. rewrite E, length_app. replace (_ - _)%nat with (length new) by lia. apply take_app_length. }
  assert (forall m t, (m, t) ∈ NoticeWorld.sent w -> mail_ok db' _ m t) as S' by
    (intros m t Hm; eapply (mail_ok_live _ _ _ _ _ _ HL (queue_live now new (NoticeWorld.outbox w))); by apply S).
  rewrite Ea. split; cbn.
  - by eapply ledger_step_ok.
  - rewrite E. apply Forall_app. split; [done|]. eapply list.Forall_impl; [exact Q|]. intros q. by apply addressed_kept.
  - intros id r Hr. rewrite E. apply elem_of_app. apply queue_rows in Hr as [Hr|(q & Hq & ->)]; [right; by eapply R|by left].
  - eapply list.Forall_impl; [exact C|]. intros e. apply event_ok_live, queue_live.
  - exact S'.
  - exact W.
  - intros id r Hr Hd. apply queue_rows in Hr as [Hr|(q & _ & ->)]; [by eapply D|by destruct Hd].
Qed.

Lemma notice_claim_ok w now :
  let r := claim_notice (Post.recipients post) now (NoticeWorld.db w) (NoticeWorld.outbox w) in
  notices_ok w -> notices_ok {| w with NoticeWorld.outbox := snd r; NoticeWorld.claims := claimed_event (fst r) ++ NoticeWorld.claims w |}.
Proof.
  intros r [L Q R C S W D]. pose proof (claim_live (Post.recipients post) now (NoticeWorld.db w) (NoticeWorld.outbox w)) as Hl. fold r in Hl.
  assert (forall m t, (m, t) ∈ NoticeWorld.sent w -> mail_ok (NoticeWorld.db w) (snd r) m t) as S'
    by (intros m t Hm; eapply mail_ok_live; [by apply lives_same|exact Hl|by apply S]).
  assert (Forall (event_ok (snd r)) (NoticeWorld.claims w)) as C'
    by (eapply list.Forall_impl; [exact C|]; intros e; by apply event_ok_live).
  destruct r as [res o'] eqn:Er. unfold r in Er.
  destruct (claim_notice_inv _ _ _ _ _ _ Er) as [(-> & -> & _)|(id & x & Hx & _ & _ & -> & ->)]; cbn in *; [by split|].
  split; cbn; try done.
  - intros i y [[_ <-]|[_ Hy]]%lookup_insert_Some; [by apply (R _ _ Hx)|by eapply R].
  - destruct (Db.invoices _ !! _); cbn; [|done]. constructor; [|done]. eexists. by rewrite lookup_insert_eq.
  - intros i y [[<- <-]|[_ Hy]]%lookup_insert_Some Hd; [by eapply D|by eapply D].
Qed.

Lemma notice_write_ok w c now : c ∈ NoticeWorld.writes w -> notices_ok w ->
  notices_ok {| w with NoticeWorld.outbox := conclude c now (NoticeWorld.outbox w) |}.
Proof.
  intros Hc [L Q R C S W D]. pose proof (conclude_live c now (NoticeWorld.outbox w)) as Hl. split; cbn; try done.
  - intros id r. rewrite conclude_lookup. destruct (decide _); [|apply R]. destruct (_ !! id) as [x|] eqn:Hx; [|done].
    intros [= <-]. rewrite (nl_queued _ _ (concluded_lives c now x)). by eapply R.
  - eapply list.Forall_impl; [exact C|]. intros e. by apply event_ok_live.
  - intros m t Hm. eapply mail_ok_live; [by apply lives_same|exact Hl|by apply S].
  - intros id r. rewrite conclude_lookup. destruct (decide _) as [->|]; [|apply D].
    destruct (_ !! conclusion_id c) as [x|] eqn:Hx; [|done]. intros [= <-] Hd.
    destruct c as [i|i e|i n e|i]; cbn in *; [by apply W|by eapply D..|]. destruct (is_some _); by eapply D.
Qed.

Lemma notice_step_ok w w' : notice_step w w' -> notices_ok w -> notices_ok w'.
Proof.
  intros [db' now Hs|now r|event fault now He r|c now Hc]; [by apply notice_ledger_ok|apply notice_claim_ok| |by apply notice_write_ok].
  intros [L Q R C S W D]. assert (event_ok (NoticeWorld.outbox w) event) as Hev by (by eapply list.Forall_forall).
  pose proof (fun m => dispatch_sound _ _ event fault now m Q R Hev) as Hm. fold r in Hm.
  pose proof (fun c => dispatch_concludes (NoticeWorld.db w) event fault now c) as Hc. fold r in Hc.
  assert (forall id, (exists m t, (m, t) ∈ NoticeWorld.sent w /\ mail_row m = id) -> exists m t,
    (m, t) ∈ match fst r with Some m => [(m, now)] | None => [] end ++ NoticeWorld.sent w /\ mail_row m = id) as Hkeep.
  { intros id (m & t & Hin & Hid). exists m, t. split; [|done]. apply elem_of_app. by right. }
  split; cbn; try done.
  - intros m t [Hin|Hin]%elem_of_app; [|by apply S]. destruct (fst r) as [m'|]; [|by apply list.elem_of_nil in Hin].
    apply list_elem_of_singleton in Hin as [= -> ->]. by apply Hm.
  - intros id [Hin|Hin]%elem_of_app; [|by apply Hkeep, W]. destruct (snd r) as [c|] eqn:Hr; [|by apply list.elem_of_nil in Hin].
    apply list_elem_of_singleton in Hin as <-. destruct (Hc _ eq_refl) as [Hid Hsent]. destruct Hsent as [m Hfst]; [by eexists|].
    fold r in Hfst. exists m, now. rewrite Hfst. split; [apply list_elem_of_here|]. destruct (Hm m Hfst) as [_ ->]. by rewrite <- Hid.
  - intros id r' Hr' Hd. by apply Hkeep, (D id r').
Qed.

Lemma notice_steps_ok w w' : rtc notice_step w w' -> notices_ok w -> notices_ok w'.
Proof. induction 1; eauto using notice_step_ok. Qed.

Lemma notice_steps_live w w' : rtc notice_step w w' -> rows_live (NoticeWorld.outbox w) (NoticeWorld.outbox w').
Proof.
  induction 1 as [|a b c Hs _ IH]; [reflexivity|]. etrans; [|exact IH].
  destruct Hs; cbn; [apply queue_live|apply claim_live|reflexivity|apply conclude_live].
Qed.

(** ** Theorems *)

Lemma superseded_none invoice t : superseded invoice t = None <->
  Invoice.cancellation_requested_at invoice = None /\ Z.max (t / 10 ^ 6) 0 < Invoice.expiration_timestamp invoice /\
  Invoice.status invoice = Created.
Proof.
  unfold superseded. destruct (Invoice.cancellation_requested_at invoice); cbn; [split; [done|by intros (? & _)]|].
  destruct (Z.leb_spec (Invoice.expiration_timestamp invoice) (Z.max (t / 10 ^ 6) 0)); [split; [done|lia]|].
  case_bool_decide; cbn; [by split|]. split; [done|]. by intros (_ & _ & ?).
Qed.

Lemma decoded_columns row invoice : invoice_try_from parse_address row = Ok invoice ->
  Invoice.id invoice = DbInvoice.id row /\ Invoice.amount invoice = DbInvoice.amount row /\
  Invoice.expiration_timestamp invoice = as_u64 (DbInvoice.expiration_timestamp row) /\
  Invoice.issuance_snapshot invoice = Issuance.issuance_snapshot (DbInvoice.issuance row).
Proof.
  unfold invoice_try_from. cbv zeta. intros H. repeat (apply rbind_ok in H as (? & ? & H)). injection H as <-. cbn.
  split_and!; try done. match goal with H : units_from_col _ (Issuance.amount _) = Ok _ |- _ => unfold units_from_col, u256_of_numeral in H; revert H end.
  destruct (_ <=? _); cbn; [by intros [= <-]|done].
Qed.

(** C32. A payer is written to only about a request that still stands: whatever
    order the ledger, the claims, the deliveries and the writes take, a message
    to a payer went to the address the request was issued with and shows the
    terms of that request as the ledger still has them, and when it was checked
    the request was neither cancelled nor past its deadline nor funded. *)
Theorem payer_mail_only_while_open db0 w id to subj page body invoice t :
  no_requests db0 -> Db.notification_outbox db0 = [] -> rtc notice_step (NoticeWorld.start db0) w ->
  (PayerMail id to subj page body invoice, t) ∈ NoticeWorld.sent w ->
  exists q row, q ∈ Db.notification_outbox (NoticeWorld.db w) /\
    OutboxRow.recipient q = recipient_as_str Payer /\ OutboxRow.email q = Some to /\
    Db.invoices (NoticeWorld.db w) !! OutboxRow.invoice_id q = Some row /\
    Invoice.id invoice = OutboxRow.invoice_id q /\ Invoice.amount invoice = DbInvoice.amount row /\
    Invoice.issuance_snapshot invoice = Issuance.issuance_snapshot (DbInvoice.issuance row) /\
    Invoice.cancellation_requested_at invoice = None /\ Invoice.status invoice = Created /\
    t / 10 ^ 6 < as_u64 (DbInvoice.expiration_timestamp row) /\
    let email := compose_email post invoice in
    subj = subject email /\ page = html (Post.format_date post) email /\ body = text (Post.format_date post) email.
Proof.
  intros H0 Hn Hr Hm. pose proof (notice_steps_ok _ _ Hr (start_notices_ok _ H0 Hn)) as Hok.
  destruct (no_sent _ Hok _ _ Hm) as (r & row & row' & Hrow & E1 & E2 & Hdec & Hsup & Hinv & Hiss & Hmail).
  destruct (decoded_columns _ _ Hdec) as (D1 & D2 & D3 & D4). apply superseded_none in Hsup as (S1 & S2 & S3).
  pose proof (ro_id _ _ _ (lo_row _ (no_ledger _ Hok) _ _ Hinv)) as Hid.
  exists (NotificationRow.queued r), row'. unfold DbInvoice.id, DbInvoice.amount, DbInvoice.expiration_timestamp in *. rewrite Hiss in *.
  split_and!; try done; try apply Hmail; first [by eapply no_rows|congruence|lia].
Qed.

(** A notification that is over and done with: its message was accepted, it was
    abandoned, or it has no address and that was reported. *)
Definition settled (r : NotificationRow.t) : Prop :=
  is_Some (NotificationRow.delivered_at r) \/ is_Some (NotificationRow.abandoned_at r) \/
  (NotificationRow.email r = None /\ is_Some (NotificationRow.missing_email_reported_at r)).

Lemma settled_lives r r' : notice_lives r r' -> settled r -> settled r'.
Proof.
  intros [Q D A M _]. unfold settled, NotificationRow.email. rewrite Q.
  intros [[t Ht]|[[t Ht]|[He [t Ht]]]]; [left|right; left|right; right]; eauto.
Qed.

(** What was delivered has an address, so a settled row is not pending. *)
Lemma settled_not_pending w id r : notices_ok w -> NoticeWorld.outbox w !! id = Some r -> settled r -> pending r = false.
Proof.
  intros Hok Hr Hs. unfold pending. destruct Hs as [[t Ht]|[[t Ht]|[He [t Ht]]]]; [|by rewrite Ht|rewrite He, Ht; apply andb_false_r].
  destruct (no_delivered _ Hok id r Hr) as (m & t' & Hm & Hid); [by rewrite Ht|].
  assert (exists to, NotificationRow.email r = Some to) as [to ->]; [|rewrite Ht; apply andb_false_r].
  pose proof (no_sent _ Hok _ _ Hm) as Hmail. destruct m as [rid to s h b inv|rid to b inv]; cbn in Hid, Hmail; subst rid.
  - destruct Hmail as (r2 & row & row' & Hr2 & _ & He & _). exists to. congruence.
  - destruct Hmail as (r2 & Hr2 & _ & He & _). exists to. congruence.
Qed.


Lemma notice_delay_bounds n : 2 <= notice_delay n <= 900.
Proof.
  unfold notice_delay. assert (2 ^ 1 <= 2 ^ Z.max 1 (Z.min 10 n)) by (apply Z.pow_le_mono_r; lia). lia.
Qed.

(** The conclusion of a delivery settles or defers the row. *)
Lemma dispatch_settles read now event written r : NotificationRow.recipient r ∈ recipient_as_str <$> Post.recipients post ->
  NotificationEvent.recipient event = NotificationRow.recipient r -> NotificationEvent.email event = NotificationRow.email r ->
  exists c, snd (dispatch post parse_address read now event) = Some c /\ conclusion_id c = NotificationEvent.id event /\
    (pending (row_concluded c written r) = false \/
     exists n, NotificationRow.next_attempt_at (row_concluded c written r) = written + notice_delay n * MICROS /\
       NotificationRow.leased_until (row_concluded c written r) = None).
Proof.
  intros Hrec Er Ee. unfold dispatch, deliver_payer, deliver_merchant. rewrite Er, Ee.
  assert (forall e, NotificationRow.email r = Some e -> pending (delivered_row written r) = false) as Hdel.
  { intros e He. unfold pending, delivered_row, NotificationRow.email in *. cbn. rewrite He. by destruct (is_some _). }
  assert (forall e, pending (abandoned_row e written r) = false) as Hab by done.
  assert (NotificationRow.email r = None -> pending (row_concluded (ReportMissing 0) written r) = false) as Hmiss.
  { intros He. unfold row_concluded. destruct (NotificationRow.missing_email_reported_at r) eqn:Hm; cbn;
      unfold pending, reported_row, NotificationRow.email in *; cbn; rewrite He, ?Hm; by destruct (is_some _). }
  assert (String.eqb (NotificationRow.recipient r) "payer" = true /\ is_Some (Post.payer post) \/
          String.eqb (NotificationRow.recipient r) "payer" = false /\ is_Some (Post.merchant post)) as [[-> [from ->]]|[-> [from ->]]].
  { apply list.list_elem_of_fmap in Hrec as (x & -> & Hx). unfold Post.recipients in Hx.
    destruct x; [right|left]; (split; [done|]); destruct (Post.merchant post), (Post.payer post); cbn in Hx; eauto; set_solver. }
  - destruct (NotificationRow.email r) as [to|] eqn:He; [|eexists; repeat split; left; apply Hab].
    repeat case_match; simplify_eq; cbn; eexists; repeat split; cbn; eauto; right; by eexists.
  - destruct (NotificationRow.email r) as [to|] eqn:He; [|eexists; repeat split; left; by apply Hmiss].
    repeat case_match; simplify_eq; cbn; eexists; repeat split; cbn; eauto; right; by eexists.
Qed.

(** An uninterrupted iteration of the dispatcher attends to the earliest
    notification that is due: when one is, exactly its row changes, and it is
    settled or, its lease given up, due again after two seconds to fifteen
    minutes; a message is sent only for it; when none is due, nothing happens. *)
Theorem iteration_attends_earliest db0 w claimed read written :
  no_requests db0 -> Db.notification_outbox db0 = [] -> rtc notice_step (NoticeWorld.start db0) w ->
  let o := NoticeWorld.outbox w in
  let '(mail, o') := dispatch_iteration post parse_address (NoticeWorld.db w) claimed read written o in
  mail = None /\ o' = o /\ (forall id r, o !! id = Some r -> notice_due (Post.recipients post) claimed r = false) \/
  exists id r r', o !! id = Some r /\ notice_due (Post.recipients post) claimed r = true /\
    (forall i x, o !! i = Some x -> notice_due (Post.recipients post) claimed x = true ->
       NotificationRow.next_attempt_at r <= NotificationRow.next_attempt_at x) /\
    o' = <[id := r']> o /\ NotificationRow.queued r' = NotificationRow.queued r /\
    (forall m, mail = Some m -> mail_row m = id) /\
    (pending r' = false \/
     NotificationRow.leased_until r' = None /\
     written + 2 * MICROS <= NotificationRow.next_attempt_at r' <= written + 900 * MICROS).
Proof.
  intros H0 Hn Hr o. pose proof (notice_steps_ok _ _ Hr (start_notices_ok _ H0 Hn)) as Hok. unfold dispatch_iteration.
  destruct (claim_notice _ _ _ o) as [res o1] eqn:Hcl.
  destruct (claim_notice_inv _ _ _ _ _ _ Hcl) as [(-> & -> & Hnone)|(id & r & Hid & Hdue & Hmin & -> & ->)]; [by left|].
  pose proof (no_rows _ Hok _ _ Hid) as Hq. pose proof (no_queued _ Hok) as Hall. rewrite list.Forall_forall in Hall.
  destruct (Hall _ Hq) as [[row Hrow] _]. rewrite Hrow. set (event := event_of _ _ _).
  assert (NotificationRow.recipient r ∈ recipient_as_str <$> Post.recipients post) as Hrec by (unfold notice_due in Hdue; by bools).
  destruct (dispatch_settles (fun i => Ok (Db.invoices (NoticeWorld.db w) !! i)) read event written (notice_leased claimed r) Hrec eq_refl eq_refl)
    as (c & Hc & Hcid & Hset).
  pose proof (dispatch_sound (NoticeWorld.db w) (<[id := notice_leased claimed r]> o) event None read) as Hmail.
  change (read_of None (NoticeWorld.db w)) with (fun i : Uuid => Ok (A := option DbInvoice.t) (E := DbError) (Db.invoices (NoticeWorld.db w) !! i)) in Hmail.
  destruct (dispatch _ _ _ read event) as [mail c'] eqn:Hdis. cbn in Hc. subst c'.
  right. exists id, r, (row_concluded c written (notice_leased claimed r)). split_and!; try done.
  - apply map_eq. intros i. rewrite conclude_lookup, Hcid. cbn. destruct (decide (i = id)) as [->|]; [by rewrite !lookup_insert_eq|].
    by rewrite !lookup_insert_ne.
  - by rewrite (nl_queued _ _ (concluded_lives _ _ _)).
  - intros m ->. refine (proj2 (Hmail m (no_queued _ Hok) _ _ eq_refl)).
    + intros i x [[_ <-]|[_ Hx]]%lookup_insert_Some; [exact Hq|by eapply no_rows].
    + exists (notice_leased claimed r). by rewrite lookup_insert_eq.
  - destruct Hset as [Hset|(n & -> & Hl)]; [by left|]. right. split; [done|]. pose proof (notice_delay_bounds n). unfold MICROS. lia.
Qed.

End Histories.

(** ** The message *)

(** The characters that delimit tags and attributes. *)
Definition delimits (c : Ascii.ascii) : bool :=
  let n := Ascii.N_of_ascii c in ((n =? 60) || (n =? 62) || (n =? 34) || (n =? 39))%N.

Fixpoint markup (s : string) : string :=
  match s with
  | EmptyString => EmptyString
  | String c rest => if delimits c then String c (markup rest) else markup rest
  end.

Lemma markup_app s t : markup (s +:+ t) = markup s +:+ markup t.
Proof.
  induction s as [|c s IH]; [done|]. change (String c s +:+ t) with (String c (s +:+ t)). cbn [markup]. rewrite IH.
  by destruct (delimits c).
Qed.

Lemma markup_escape_char c : markup (escape_char c) = ""%string.
Proof. destruct c as [[] [] [] [] [] [] [] []]; vm_compute; reflexivity. Qed.

Lemma markup_escape s : markup (escape s) = ""%string.
Proof.
  induction s as [|c s IH]; [done|]. change (escape (String c s)) with (escape_char c +:+ escape s).
  by rewrite markup_app, markup_escape_char, IH.
Qed.

Lemma markup_row label v v' mono : markup v = markup v' -> markup (detail_row label v mono) = markup (detail_row label v' mono).
Proof. intros H. unfold detail_row. cbv zeta. by rewrite !markup_app, H. Qed.

Lemma markup_rows fd e e' : is_some (DepositRequestEmail.heading e) = is_some (DepositRequestEmail.heading e') ->
  is_some (DepositRequestEmail.reference e) = is_some (DepositRequestEmail.reference e') ->
  markup (detail_rows fd e) = markup (detail_rows fd e').
Proof.
  intros Hh Hr. unfold detail_rows. rewrite !markup_app. apply f_equal2; [|apply f_equal2; [|apply f_equal2]].
  - destruct (DepositRequestEmail.heading e), (DepositRequestEmail.heading e'); try discriminate; [|reflexivity].
    apply markup_row. by rewrite !markup_escape.
  - destruct (DepositRequestEmail.reference e), (DepositRequestEmail.reference e'); try discriminate; [|reflexivity].
    apply markup_row. by rewrite !markup_escape.
  - apply markup_row. by rewrite !markup_app, !markup_escape.
  - apply markup_row. by rewrite !markup_escape.
Qed.

(** Merchant-supplied text cannot add markup to a payer's email: two
    messages with the same optional lines have the same tag and attribute
    delimiters, whatever names, amounts, headings, references and links they
    carry. *)
Theorem html_markup_fixed fd e e' : is_some (DepositRequestEmail.heading e) = is_some (DepositRequestEmail.heading e') ->
  is_some (DepositRequestEmail.reference e) = is_some (DepositRequestEmail.reference e') ->
  markup (html fd e) = markup (html fd e').
Proof.
  intros Hh Hr. unfold html, page. rewrite !markup_app, !markup_escape, (markup_rows fd e e' Hh Hr). reflexivity.
Qed.

Definition mail_of (name : string) : DepositRequestEmail.t :=
  DepositRequestEmail.mk name "Payer" "12.5" "USDC" None (Some "R-1")%string 2000000000 "https://gum.money/pay/1".

Lemma html_markup_fixed_witness :
  markup (html (fun _ => "today") (mail_of "<script>")) = markup (html (fun _ => "today") (mail_of "Shop")).
Proof. apply (html_markup_fixed (fun _ => "today"%string) (mail_of "<script>") (mail_of "Shop")); reflexivity. Defined.

(** ** A concrete history: a request is issued, its payer is written to *)

Module NoticeExample.
Import LedgerExample.

Definition post : Post.t := Post.mk (Some "alerts@gum.money") (Some DEFAULT_FROM)
  (Mailer.mk (fun _ => Ok (200, "")) (fun _ => None) pretty) (fun _ _ _ => Ok tt) "https://gum.money"
  (fun n _ => pretty n) pretty pretty pretty (fun _ => "database") (fun _ => "row")%string.

Definition named : CreateInvoiceInput.t :=
  let base := input 1 "order-1" address in
  {| base with CreateInvoiceInput.payer_notification_email := Some "payer@example.com"%string |}.

Definition db1 : Db.t := Eval vm_compute in state_of (insert_issued hex named None 1000 1000 start).
Definition w0 : NoticeWorld.t := NoticeWorld.start start.
Definition w1 : NoticeWorld.t := Eval vm_compute in
  {| w0 with NoticeWorld.db := db1;
     NoticeWorld.outbox := foldr (fun q o => queue 1000 o q) (NoticeWorld.outbox w0) (added start db1) |}.
Definition claimed := claim_notice (Post.recipients post) 2000 db1 (NoticeWorld.outbox w1).
Definition w2 : NoticeWorld.t := Eval vm_compute in
  {| w1 with NoticeWorld.outbox := snd claimed; NoticeWorld.claims := claimed_event (fst claimed) |}.
Definition event : NotificationEvent.t.
Proof. let c := eval vm_compute in (head (NoticeWorld.claims w2)) in match c with Some ?e => exact e end. Defined.
Definition decided := dispatch post parse (read_of None db1) 3000 event.
Definition w3 : NoticeWorld.t := Eval vm_compute in
  {| w2 with NoticeWorld.sent := match fst decided with Some m => [(m, 3000)] | None => [] end;
     NoticeWorld.writes := option_list (snd decided) |}.
Definition w4 : NoticeWorld.t := Eval vm_compute in
  {| w3 with NoticeWorld.outbox := conclude (Complete (NotificationEvent.id event)) 4000 (NoticeWorld.outbox w3) |}.

Abbreviation run := (rtc (notice_step post hash parse hex)).

Lemma run_queued : run w0 w1.
Proof.
  apply rtc_once. apply (notice_ledger post hash parse hex w0 db1 1000).
  eapply (step_issue _ _ _ start named None 1000 1000). vm_compute. reflexivity.
Qed.

Lemma run_sent : run w0 w3.
Proof.
  eapply rtc_r; [eapply rtc_r; [exact run_queued|apply (notice_claim post hash parse hex w1 2000)]|].
  apply (notice_deliver post hash parse hex w2 event None 3000). vm_compute. constructor.
Qed.

Lemma run_written : run w0 w4.
Proof.
  eapply rtc_r; [exact run_sent|]. apply (notice_write post hash parse hex w3 (Complete (NotificationEvent.id event)) 4000).
  vm_compute. constructor.
Qed.

Definition sent_mail : Mail * Timestamp.
Proof. let c := eval vm_compute in (head (NoticeWorld.sent w3)) in match c with Some ?e => exact e end. Defined.

Lemma payer_mail_only_while_open_witness : exists q row,
  OutboxRow.email q = Some "payer@example.com"%string /\ Db.invoices (NoticeWorld.db w3) !! OutboxRow.invoice_id q = Some row.
Proof.
  destruct sent_mail as [m t] eqn:E. unfold sent_mail in E. injection E as <- <-.
  edestruct (payer_mail_only_while_open post hash parse hex start w3) as (q & row & _ & _ & He & Hr & _);
    [exact RunExample.fresh_start|reflexivity|exact run_sent|vm_compute; apply list_elem_of_here|].
  exists q, row. split; [exact He|exact Hr].
Defined.

Definition row4 : NotificationRow.t := Eval vm_compute in
  default (NotificationRow.fresh_row (OutboxRow.mk 0 0 "" "" None) 0) (NoticeWorld.outbox w4 !! NotificationEvent.id event).


Lemma iteration_attends_earliest_witness :
  is_some (fst (dispatch_iteration post parse (NoticeWorld.db w1) 2000 3000 4000 (NoticeWorld.outbox w1))) = true /\
  exists id r, NoticeWorld.outbox w1 !! id = Some r /\ notice_due (Post.recipients post) 2000 r = true.
Proof.
  split; [vm_compute; reflexivity|].
  pose proof (iteration_attends_earliest post hash parse hex start w1 2000 3000 4000 RunExample.fresh_start eq_refl run_queued) as H.
  destruct (dispatch_iteration post parse (NoticeWorld.db w1) 2000 3000 4000 (NoticeWorld.outbox w1)) as [m o'] eqn:E.
  destruct H as [(Hm & _)|(id & r & _ & Hid & Hd & _)]; [|exists id, r; split; assumption].
  discriminate Hm.
Defined.

End NoticeExample.
