(* ===== verification/WebhookWorker.v ===== *)
(** * gum-server: the webhook worker and the webhook routes

    Models [crates/gum-server/src/webhook_worker.rs]: which destinations are
    public, how a delivery is signed and sent, and one iteration of the worker;
    and [crates/gum-server/src/api/webhooks.rs]: the endpoints a merchant
    registers and the deliveries it is shown.
    URL parsing, name resolution, the cipher, HMAC, the JSON encoding and the
    HTTP client are the record [Net.t]; the payload the database rendered is
    [Net.render].  The routes run over the webhook tables, with the other users
    of them in between ([HookDesk.others]). *)

From stdpp Require Import pretty strings.
From S2P Require Import Prelude Core Contracts Ids Bus Tables Relay Webhooks Responses ApiError Effects.

(** ** Public addresses *)

Inductive IpAddr :=
| V4 (a b c d : Z)
| V6 (s0 s1 s2 s3 s4 s5 s6 s7 : Z).

Definition between (lo x hi : Z) : bool := (lo <=? x) && (x <=? hi).

(** The tests of [std::net::Ipv4Addr]. *)
Definition is_private (a b : Z) : bool :=
  (a =? 10) || ((a =? 172) && between 16 b 31) || ((a =? 192) && (b =? 168)).
Definition is_loopback (a : Z) : bool := a =? 127.
Definition is_link_local (a b : Z) : bool := (a =? 169) && (b =? 254).
Definition is_unspecified (a b c d : Z) : bool := (a =? 0) && (b =? 0) && (c =? 0) && (d =? 0).
Definition is_multicast (a : Z) : bool := between 224 a 239.
Definition is_broadcast (a b c d : Z) : bool := (a =? 255) && (b =? 255) && (c =? 255) && (d =? 255).

Definition public_v4 (a b c d : Z) : bool :=
  negb (is_private a b || is_loopback a || is_link_local a b || is_unspecified a b c d || is_multicast a
        || is_broadcast a b c d
        || (a =? 0) || (240 <=? a)
        || ((a =? 100) && between 64 b 127)
        || ((a =? 192) && (b =? 0) && ((c =? 0) || (c =? 2)))
        || ((a =? 192) && (b =? 31) && (c =? 196))
        || ((a =? 192) && (b =? 52) && (c =? 193))
        || ((a =? 192) && (b =? 88) && (c =? 99))
        || ((a =? 192) && (b =? 175) && (c =? 48))
        || ((a =? 198) && ((b =? 18) || (b =? 19)))
        || ((a =? 198) && (b =? 51) && (c =? 100))
        || ((a =? 203) && (b =? 0) && (c =? 113))).

(** [to_ipv4_mapped]. *)
Definition mapped (ip : IpAddr) : option (Z * Z * Z * Z) :=
  match ip with
  | V6 0 0 0 0 0 65535 s6 s7 => Some (s6 / 256, s6 mod 256, s7 / 256, s7 mod 256)
  | _ => None
  end.

Definition public_ip (ip : IpAddr) : bool :=
  match ip with
  | V4 a b c d => public_v4 a b c d
  | V6 s0 s1 _ _ _ _ _ _ =>
      match mapped ip with
      | Some (a, b, c, d) => public_v4 a b c d
      | None =>
          between 8192 s0 16383                                   (* 0x2000..=0x3fff *)
          && negb ((s0 =? 8193) && (s1 <=? 511))                  (* 0x2001, 0x01ff *)
          && negb ((s0 =? 8193) && (s1 =? 3512))                  (* 0x2001:0db8 *)
          && negb (s0 =? 8194)                                    (* 0x2002 *)
          && negb ((s0 =? 16383) && (s1 <=? 4095))                (* 0x3fff, 0x0fff *)
      end
  end.

(** ** Destinations *)

Module Url.
Record t := mk {
  scheme : string;
  username : string;
  password : option string;
  host : option string;
  port : Z;
}.
End Url.

Module Request.
Record t := mk {
  url : Url.t;
  (* what the client resolves names to, whatever DNS says by now *)
  overrides : gmap string IpAddr;
  event_id : Uuid;
  event_type : EventType;
  timestamp : Z;
  signature : string;
  body : bytes;
}.
End Request.

Module Net.
Record t := mk {
  parse_url : string -> option Url.t;
  parse_ip : string -> option IpAddr;
  (* [lookup_host] *)
  resolve : string -> Z -> result string (list IpAddr);
  (* [ClientBuilder::build], with these names overridden *)
  build : gmap string IpAddr -> result string unit;
  (* AES-256-GCM: key, nonce, ciphertext *)
  decrypt : bytes -> bytes -> bytes -> option bytes;
  (* the JSONB document of an event, and [serde_json::to_vec] *)
  render : DeliveryClaim.t -> Json.Value;
  to_vec : Json.Value -> result string bytes;
  hmac_sha256 : bytes -> bytes -> bytes;
  hex : bytes -> string;
  ascii : string -> bytes;
  parse_address : string -> option Address;
  to_checksum : Address -> string;
  (* [Client::send]: the HTTP status *)
  post : Request.t -> result string Z;
}.
End Net.

Section Worker.
Context (net : Net.t).

Definition validate_url (url : Url.t) : result string string :=
  match Url.host url with
  | Some host =>
      if negb (String.eqb (Url.scheme url) "https") || negb (String.eqb (Url.username url) "")
         || is_some (Url.password url)
      then Err "url must use HTTPS, have a host, and contain no credentials"
      else if is_some (Net.parse_ip net host) then Err "url must use a DNS hostname"
      else Ok host
  | None => Err "url must use HTTPS, have a host, and contain no credentials"
  end.

Definition resolve_public (url : Url.t) : result string (list IpAddr) :=
  let! host := validate_url url in
  let! addresses := match Net.resolve net host (Url.port url) with
                    | Ok l => Ok l
                    | Err e => Err ("DNS resolution failed: " +:+ e) end in
  if match addresses with [] => true | _ => false end || existsb (fun ip => negb (public_ip ip)) addresses
  then Err "webhook destination resolves to a non-public address"
  else Ok addresses.

(** [get_mut(key)] and a write through it. *)
Fixpoint update_field (key : string) (f : Json.Value -> Json.Value) (fields : list (string * Json.Value))
  : list (string * Json.Value) :=
  match fields with
  | [] => []
  | (k, v) :: rest => if String.eqb k key then (k, f v) :: rest else (k, v) :: update_field key f rest
  end.

Definition on_field (key : string) (f : Json.Value -> Json.Value) (v : Json.Value) : Json.Value :=
  match v with
  | Json.VObject fields => Json.VObject (update_field key f fields)
  | _ => v
  end.

Definition checksum_value (v : Json.Value) : Json.Value :=
  match v with
  | Json.VString s =>
      match Net.parse_address net s with Some a => Json.VString (Net.to_checksum net a) | None => v end
  | _ => v
  end.

Definition checksum_addresses (payload : Json.Value) : Json.Value :=
  on_field "data" (on_field "deposit_request"
    (fun d => on_field "address" checksum_value (on_field "payer_wallet" checksum_value d))) payload.

(** What the signature is over. *)
Definition signed_bytes (timestamp : Z) (body : bytes) : bytes :=
  Net.ascii net ("v1." +:+ pretty timestamp +:+ ".") ++ body.

(** [builder.resolve(&host, address)] for each address: each replaces the one
    before, so the client is left with the last. *)
Definition override_host (host : string) (addresses : list IpAddr) : gmap string IpAddr :=
  foldl (fun overrides address => <[host := address]> overrides) ∅ addresses.

(** [deliver]: the request that was sent, if any, and its outcome.  [clock] is
    the seconds since the epoch, or why they cannot be told. *)
Definition deliver (key : bytes) (clock : result string Z) (job : DeliveryClaim.t) : option Request.t * result string Z :=
  let prepared :=
    let! _ := if negb (DeliveryClaim.secret_cipher_version job =? 1)
                 || (length (DeliveryClaim.secret_ciphertext job) <? 13)%nat
              then Err "invalid encrypted secret" else Ok tt in
    let! url := ok_or (Net.parse_url net (DeliveryClaim.url job)) "invalid webhook URL" in
    let! addresses := resolve_public url in
    let overrides := override_host (default ""%string (Url.host url)) addresses in
    let! _ := Net.build net overrides in
    let cipher := DeliveryClaim.secret_ciphertext job in
    let! secret := ok_or (Net.decrypt net key (take 12 cipher) (drop 12 cipher)) "secret decryption failed" in
    let! body := Net.to_vec net (checksum_addresses (Net.render net job)) in
    let! timestamp := clock in
    Ok (Request.mk url overrides (DeliveryClaim.event_id job) (DeliveryClaim.event_type job) timestamp
          ("v1,t=" +:+ pretty timestamp +:+ ",sha256="
           +:+ Net.hex net (Net.hmac_sha256 net secret (signed_bytes timestamp body))) body) in
  match prepared with
  | Ok request => (Some request, Net.post net request)
  | Err e => (None, Err e)
  end.

(** ** The worker *)

(** How an outcome is recorded. *)
Definition outcome_of (r : result string Z) : option Z * option string :=
  match r with
  | Ok s => if succeeded (Some s) then (Some s, None) else (Some s, Some ("endpoint returned HTTP " +:+ pretty s))
  | Err e => (None, Some e)
  end.

(** One iteration of [run].  [timely] is whether the delivery ended within its
    fifteen seconds; the completion is retried until the database takes it. *)
Definition iteration (key : bytes) (token : Uuid) (timely : bool) (clock : result string Z) (claimed_at attempted_at duration completed_at : Z)
    (h : Hooks.t) : result CompleteError (option (DeliveryClaim.t * result string Z) * Hooks.t) :=
  match claim token claimed_at h with
  | (Some job, h1) =>
      let outcome := if timely then snd (deliver key clock job) else Err "webhook delivery timed out" in
      let '(status, error) := outcome_of outcome in
      let! h2 := complete job attempted_at duration status error completed_at h1 in
      Ok (Some (job, outcome), h2)
  | (None, h1) => Ok (None, h1)
  end.

End Worker.

(** ** The routes *)

Module EndpointResponse.
Record t := mk { id : string; url : string; created_at : string; disabled_at : option string; secret : option string }.
End EndpointResponse.

Module DeliveryAttemptResponse.
Record t := mk { number : Z; attempted_at : string; duration_ms : Z; status : option Z; error : option string }.
End DeliveryAttemptResponse.

Module DeliveryResponse.
Record t := mk {
  id : string;
  event_id : string;
  endpoint_id : string;
  state : string;
  attempt_count : Z;
  next_attempt_at : string;
  delivered_at : option string;
  created_at : string;
  attempts : list DeliveryAttemptResponse.t;
}.
End DeliveryResponse.

Module DeliveryPage.
Record t := mk { deliveries : list DeliveryResponse.t; next_cursor : option string }.
End DeliveryPage.

Module DeliveriesQuery.
Record t := mk { endpoint_id : option string; limit : option Z; starting_after : option string }.
End DeliveriesQuery.

(** The deployment: the network, the key the secrets are kept under, the cipher,
    random bytes, clocks, and the other users of the tables. *)
Module HookDesk.
Record t := mk {
  net : Net.t;
  webhook_encryption_key : option bytes;
  (* AES-256-GCM: key, nonce, plaintext *)
  encrypt : bytes -> bytes -> bytes -> option bytes;
  (* [Url::as_str] *)
  as_str : Url.t -> string;
  sha256 : bytes -> B256;
  secret_bytes : nat -> bytes;
  nonce : nat -> bytes;
  (* the account exists *)
  known : nat -> Uuid -> bool;
  others : nat -> Hooks.t -> Hooks.t;
  database_now : nat -> Timestamp;
  utc_now : nat -> Timestamp;
  fresh : nat -> nat -> Uuid;
}.
End HookDesk.

Module HookTables.
Record t := mk { hooks : Hooks.t; tick : nat }.
End HookTables.

Definition delivery_state_str (s : DeliveryState) : string :=
  match s with DPending => "pending" | DDelivered => "delivered" | DFailed => "failed" end.

Section Routes.
Context `{U : UuidText} `{D : Dates} (k : HookDesk.t).

Abbreviation hook_api := (eff ApiError.t HookTables.t) (only parsing).

(** A statement; the other users run before it. *)
Definition on_hooks {A} (f : nat -> Hooks.t -> result ApiError.t (A * Hooks.t)) : hook_api A := fun w =>
  let n := HookTables.tick w in
  let h := HookDesk.others k n (HookTables.hooks w) in
  match f n h with
  | Ok (a, h') => (Ok a, HookTables.mk h' (S n))
  | Err e => (Err e, HookTables.mk h (S n))
  end.

Definition hook_read {A} (f : Hooks.t -> A) : hook_api A := on_hooks (fun _ h => Ok (f h, h)).

Definition at_hand {A} (r : result ApiError.t A) : hook_api A := fun w => (r, w).

Definition endpoint (row : Uuid * WebhookEndpoint.t) (secret : option string) : EndpointResponse.t :=
  EndpointResponse.mk (id_display WebhookId (fst row)) (WebhookEndpoint.url (snd row))
    (rfc3339 (WebhookEndpoint.created_at (snd row))) (rfc3339 <$> WebhookEndpoint.disabled_at (snd row)) secret.

Definition attempt_shown (a : (Uuid * Z) * WebhookAttempt.t) : DeliveryAttemptResponse.t :=
  DeliveryAttemptResponse.mk (snd (fst a)) (rfc3339 (WebhookAttempt.attempted_at (snd a)))
    (WebhookAttempt.duration_ms (snd a)) (WebhookAttempt.status (snd a)) (WebhookAttempt.error (snd a)).

Definition delivery_shown (row : Uuid * WebhookDelivery.t) (attempts : list ((Uuid * Z) * WebhookAttempt.t)) : DeliveryResponse.t :=
  let d := snd row in
  DeliveryResponse.mk (id_display WebhookDeliveryId (fst row)) (id_display WebhookEventId (WebhookDelivery.event_id d))
    (id_display WebhookId (WebhookDelivery.endpoint_id d)) (delivery_state_str (WebhookDelivery.state d))
    (WebhookDelivery.attempt_count d) (rfc3339 (WebhookDelivery.next_attempt_at d)) (rfc3339 <$> WebhookDelivery.delivered_at d)
    (rfc3339 (WebhookDelivery.created_at d)) (attempt_shown <$> attempts).

Definition webhook_id (value : string) : result ApiError.t Uuid := ok_or (id_parse WebhookId value) ApiError.webhook_not_found.

(** The secret and what is kept of it. *)
Definition new_secret (n : nat) : string := "whsec_" +:+ Net.hex (HookDesk.net k) (HookDesk.secret_bytes k n).

Definition sealed (key : bytes) (secret : string) (n : nat) : result ApiError.t bytes :=
  let nonce := HookDesk.nonce k n in
  let! c := ok_or (HookDesk.encrypt k key nonce (Net.ascii (HookDesk.net k) secret)) (ApiError.internal "secret encryption failed") in
  Ok (nonce ++ c).

Definition add_endpoint (account : Uuid) (url : string) : hook_api (Z * EndpointResponse.t) :=
  let* key := at_hand (ok_or (HookDesk.webhook_encryption_key k) ApiError.webhooks_unavailable) in
  let* url := at_hand (ok_or (Net.parse_url (HookDesk.net k) url) (ApiError.invalid_request "url must be a valid HTTPS URL")) in
  let* _ := at_hand match resolve_public (HookDesk.net k) url with
                    | Ok l => Ok l
                    | Err e => Err (ApiError.invalid_request e)
                    end in
  let* secret := fun w => (Ok (new_secret (HookTables.tick w)), w) in
  let* encrypted := fun w => (sealed key secret (HookTables.tick w), w) in
  let* row := on_hooks (fun n h =>
    let id := HookDesk.fresh k n 0 in
    match add id account (HookDesk.known k n account) (HookDesk.as_str k url)
            (HookDesk.sha256 k (Net.ascii (HookDesk.net k) secret)) encrypted (HookDesk.database_now k n) h with
    | Ok (e, h') => Ok ((id, e), h')
    | Err e => Err (ApiError.of_db_error e)
    end) in
  ret (201, endpoint row (Some secret)).

Definition list_route (account : Uuid) : hook_api (list EndpointResponse.t) :=
  let* rows := hook_read (list_endpoints account) in
  ret ((fun row => endpoint row None) <$> rows).

Definition get_route (account : Uuid) (id : string) : hook_api EndpointResponse.t :=
  let* id := at_hand (webhook_id id) in
  let* row := hook_read (Webhooks.get account id) in
  let* row := at_hand (ok_or row ApiError.webhook_not_found) in
  ret (endpoint (id, row) None).

Definition test_route (account : Uuid) (id : string) : hook_api (Z * string) :=
  let* id := at_hand (webhook_id id) in
  let* delivery := on_hooks (fun n h =>
    match test_event account id (HookDesk.fresh k n 0) (HookDesk.fresh k n 1) (HookDesk.utc_now k n) (HookDesk.database_now k n) h with
    | Ok r => Ok r
    | Err e => Err (ApiError.of_db_error e)
    end) in
  let* delivery := at_hand (ok_or delivery ApiError.webhook_not_found) in
  ret (202, id_display WebhookDeliveryId delivery).

Definition remove_route (account : Uuid) (id : string) : hook_api Z :=
  let* id := at_hand (webhook_id id) in
  let* there := on_hooks (fun n h => Ok (disable account id (HookDesk.database_now k n) h)) in
  let* _ := at_hand (if there : bool then Ok tt else Err ApiError.webhook_not_found) in
  ret 204.

(** The attempts of each delivery: the vectors the map collects, in the order of
    the statement. *)
Definition history_of (attempts : list ((Uuid * Z) * WebhookAttempt.t)) (id : Uuid) : list ((Uuid * Z) * WebhookAttempt.t) :=
  List.filter (fun a => fst (fst a) =? id) attempts.

Definition page_limit (query : DeliveriesQuery.t) : result ApiError.t Z :=
  let limit := default 20 (DeliveriesQuery.limit query) in
  if (1 <=? limit) && (limit <=? 100) then Ok limit else Err (ApiError.invalid_request "limit must be between 1 and 100").

Definition wanted_endpoint (account : Uuid) (value : option string) : hook_api (option Uuid) :=
  match value with
  | Some value =>
      let* id := at_hand (webhook_id value) in
      let* row := hook_read (Webhooks.get account id) in
      let* _ := at_hand (ok_or row ApiError.webhook_not_found) in
      ret (Some id)
  | None => ret None
  end.

Definition NOT_YOURS : string := "starting_after does not identify one of your webhook deliveries".

Definition wanted_start (account : Uuid) (value : option string) : hook_api (option Uuid) :=
  match value with
  | Some value =>
      let* id := at_hand (ok_or (id_parse WebhookDeliveryId value) (ApiError.invalid_request NOT_YOURS)) in
      let* row := hook_read (delivery account id) in
      let* _ := at_hand (ok_or row (ApiError.invalid_request NOT_YOURS)) in
      ret (Some id)
  | None => ret None
  end.

Definition deliveries_route (account : Uuid) (query : DeliveriesQuery.t) : hook_api DeliveryPage.t :=
  let* limit := at_hand (page_limit query) in
  let* endpoint_id := wanted_endpoint account (DeliveriesQuery.endpoint_id query) in
  let* starting_after := wanted_start account (DeliveriesQuery.starting_after query) in
  let* rows := hook_read (deliveries account endpoint_id starting_after (Z.to_nat limit)) in
  let has_more := Nat.ltb (Z.to_nat limit) (length rows) in
  let rows := take (Z.to_nat limit) rows in
  let next_cursor := if has_more then (fun row => id_display WebhookDeliveryId (fst row)) <$> list.last rows else None in
  let* attempts := hook_read (attempts_for (fst <$> rows)) in
  ret (DeliveryPage.mk ((fun row => delivery_shown row (history_of attempts (fst row))) <$> rows) next_cursor).

End Routes.
