(* ===== verification/WorkerTheorems.v ===== *)
(** * Properties of the webhook worker

    A destination is public exactly when it lies in none of the special-purpose
    blocks ([public_exact]); whatever the worker posts goes to public
    addresses and is signed over its very bytes
    ([requests_public_and_signed]); and an iteration records the outcome of the
    delivery it claimed, in the terms of the histories of [WebhookTheorems]
    ([iteration_records_outcome]).  The secret a merchant is shown when it adds an
    endpoint is the one its deliveries are signed with ([shown_secret_signs]), and
    a page of deliveries holds the merchant's own, with their attempts
    ([pages_show_own_deliveries]). *)

From stdpp Require Import pretty sorting.
From S2P Require Import Prelude Core Contracts Ids Bus Tables Attachments Invoices Range Sweeps.
From S2P Require Import RelayIntents Verifications LedgerExample Relay Webhooks WebhookTheorems Responses ApiError Effects PayerApi WebhookWorker.

(** ** Special-purpose blocks *)

(** A block of addresses of [width] bits: a prefix and its length. *)
Definition in_block (width : Z) (addr : Z) (block : Z * Z) : bool :=
  let '(base, len) := block in addr / 2 ^ (width - len) =? base / 2 ^ (width - len).

Definition v4 (a b c d : Z) : Z := a * 2 ^ 24 + b * 2 ^ 16 + c * 2 ^ 8 + d.

Definition special_v4 : list (Z * Z) :=
  [(v4 0 0 0 0, 8); (v4 10 0 0 0, 8); (v4 100 64 0 0, 10); (v4 127 0 0 0, 8); (v4 169 254 0 0, 16);
   (v4 172 16 0 0, 12); (v4 192 0 0 0, 24); (v4 192 0 2 0, 24); (v4 192 31 196 0, 24); (v4 192 52 193 0, 24);
   (v4 192 88 99 0, 24); (v4 192 168 0 0, 16); (v4 192 175 48 0, 24); (v4 198 18 0 0, 15); (v4 198 51 100 0, 24);
   (v4 203 0 113 0, 24); (v4 224 0 0 0, 4); (v4 240 0 0 0, 4)].

(** The first two segments of a global unicast address, and the blocks of it
    that are not. *)
Definition v6 (s0 s1 : Z) : Z := s0 * 2 ^ 16 + s1.
Definition global_unicast : Z * Z := (v6 8192 0, 3).
Definition special_v6 : list (Z * Z) := [(v6 8193 0, 23); (v6 8193 3512, 32); (v6 8194 0, 16); (v6 16383 0, 20)].

Definition byte (x : Z) : Prop := 0 <= x < 256.
Definition word16 (x : Z) : Prop := 0 <= x < 65536.

Definition well_formed (ip : IpAddr) : Prop :=
  match ip with
  | V4 a b c d => byte a /\ byte b /\ byte c /\ byte d
  | V6 s0 s1 s2 s3 s4 s5 s6 s7 =>
      word16 s0 /\ word16 s1 /\ word16 s2 /\ word16 s3 /\ word16 s4 /\ word16 s5 /\ word16 s6 /\ word16 s7
  end.

(** The specification. *)
Definition public_v4_spec (a b c d : Z) : bool := negb (existsb (in_block 32 (v4 a b c d)) special_v4).

Definition public_spec (ip : IpAddr) : bool :=
  match ip with
  | V4 a b c d => public_v4_spec a b c d
  | V6 s0 s1 _ _ _ _ _ _ =>
      match mapped ip with
      | Some (a, b, c, d) => public_v4_spec a b c d
      | None => in_block 32 (v6 s0 s1) global_unicast && negb (existsb (in_block 32 (v6 s0 s1)) special_v6)
      end
  end.

Ltac decide_bool := apply eq_true_iff_eq; rewrite ?orb_true_iff, ?andb_true_iff, ?negb_true_iff, ?Z.eqb_eq, ?Z.leb_le, ?Z.leb_gt.

(** Prefixes as quotients of small numbers. *)
Ltac blocks := unfold in_block, v4, byte, between in *; cbn [Z.sub Z.opp Z.add Z.pos_sub Pos.pred_double];
  change (2 ^ 28) with 268435456; change (2 ^ 24) with 16777216; change (2 ^ 22) with 4194304; change (2 ^ 20) with 1048576;
  change (2 ^ 17) with 131072; change (2 ^ 16) with 65536; change (2 ^ 8) with 256; decide_bool.

Section V4.
Context (a b c d : Z) (Ha : byte a) (Hb : byte b) (Hc : byte c) (Hd : byte d).

Lemma slash8 x : in_block 32 (v4 a b c d) (v4 x 0 0 0, 8) = (a =? x).
Proof. blocks. split; intros H; [|subst x]; Z.div_mod_to_equations; lia. Qed.

Lemma slash16 x y : 0 <= y < 256 -> in_block 32 (v4 a b c d) (v4 x y 0 0, 16) = (a =? x) && (b =? y).
Proof. intros Hy. blocks. split; intros H; [|destruct H; subst x y]; Z.div_mod_to_equations; lia. Qed.

Lemma slash24 x y z : 0 <= y < 256 -> 0 <= z < 256 ->
  in_block 32 (v4 a b c d) (v4 x y z 0, 24) = (a =? x) && (b =? y) && (c =? z).
Proof. intros Hy Hz. blocks. split; intros H; [|destruct H as [[? ?] ?]; subst x y z]; Z.div_mod_to_equations; lia. Qed.

Lemma slash10 : in_block 32 (v4 a b c d) (v4 100 64 0 0, 10) = (a =? 100) && between 64 b 127.
Proof. blocks. split; intros H; Z.div_mod_to_equations; lia. Qed.

Lemma slash12 : in_block 32 (v4 a b c d) (v4 172 16 0 0, 12) = (a =? 172) && between 16 b 31.
Proof. blocks. split; intros H; Z.div_mod_to_equations; lia. Qed.

Lemma slash15 : in_block 32 (v4 a b c d) (v4 198 18 0 0, 15) = (a =? 198) && ((b =? 18) || (b =? 19)).
Proof. blocks. split; intros H; Z.div_mod_to_equations; lia. Qed.

Lemma slash4_multicast : in_block 32 (v4 a b c d) (v4 224 0 0 0, 4) = between 224 a 239.
Proof. blocks. split; intros H; Z.div_mod_to_equations; lia. Qed.

Lemma slash4_reserved : in_block 32 (v4 a b c d) (v4 240 0 0 0, 4) = (240 <=? a).
Proof. blocks. split; intros H; Z.div_mod_to_equations; lia. Qed.

Lemma public_v4_exact : public_v4 a b c d = public_v4_spec a b c d.
Proof.
  unfold public_v4, public_v4_spec, special_v4. f_equal. cbn [existsb].
  rewrite !slash8, slash10, slash12, slash15, slash4_multicast, slash4_reserved, !slash16, !slash24 by lia.
  unfold is_private, is_loopback, is_link_local, is_unspecified, is_multicast, is_broadcast.
  apply eq_true_iff_eq. rewrite !orb_true_iff, !andb_true_iff, !orb_true_iff.
  assert ((a =? 255) = true -> (240 <=? a) = true) as Hbr by (rewrite Z.eqb_eq, Z.leb_le; lia).
  assert (false <> true) as Hf by done. clear -Hbr Hf. tauto.
Qed.

End V4.

Lemma v6_global s0 s1 : word16 s0 -> word16 s1 ->
  in_block 32 (v6 s0 s1) global_unicast = between 8192 s0 16383 /\
  existsb (in_block 32 (v6 s0 s1)) special_v6 =
    ((s0 =? 8193) && (s1 <=? 511)) || ((s0 =? 8193) && (s1 =? 3512)) || (s0 =? 8194) || ((s0 =? 16383) && (s1 <=? 4095)).
Proof.
  intros H0 H1. unfold word16 in *. cbn [existsb special_v6]. rewrite orb_false_r, !orb_assoc.
  unfold in_block, global_unicast, v6. split; [|f_equal; [f_equal; [f_equal|]|]];
    cbn [Z.sub Z.opp Z.add Z.pos_sub Pos.pred_double]; change (2 ^ 29) with 536870912; change (2 ^ 16) with 65536;
    change (2 ^ 12) with 4096; change (2 ^ 9) with 512; change (2 ^ 0) with 1; unfold between; decide_bool;
    (split; intros H; Z.div_mod_to_equations; lia).
Qed.

Lemma mapped_bytes ip a b c d : well_formed ip -> mapped ip = Some (a, b, c, d) -> byte a /\ byte b /\ byte c /\ byte d.
Proof.
  unfold mapped, well_formed, word16, byte. intros Hw. repeat case_match; try done. intros [= <- <- <- <-].
  destruct Hw as (_ & _ & _ & _ & _ & _ & Hs6 & Hs7). split_and!; Z.div_mod_to_equations; lia.
Qed.

(** The worker calls an address public exactly when it is in none of the
    special-purpose blocks: for IPv4 the eighteen private, loopback, link-local,
    shared, documentation, benchmarking, relay, multicast and reserved ones,
    also when mapped into IPv6, and otherwise global unicast outside the
    protocol, documentation and 6to4 blocks. *)
Lemma public_exact ip : well_formed ip -> public_ip ip = public_spec ip.
Proof.
  intros Hw. destruct ip as [a b c d|s0 s1 s2 s3 s4 s5 s6 s7]; [by destruct Hw as (? & ? & ? & ?); apply public_v4_exact|].
  unfold public_ip, public_spec. destruct (mapped _) as [[[[a b] c] d]|] eqn:Hm.
  - destruct (mapped_bytes _ _ _ _ _ Hw Hm) as (? & ? & ? & ?). by apply public_v4_exact.
  - destruct Hw as (H0 & H1 & _). destruct (v6_global s0 s1 H0 H1) as [-> ->]. by rewrite !negb_orb, !andb_assoc.
Qed.

(** ** What is sent *)

Lemma resolve_public_ok net url addresses : resolve_public net url = Ok addresses ->
  exists host, Url.host url = Some host /\ Url.scheme url = "https"%string /\ Url.username url = ""%string /\
    Url.password url = None /\ Net.parse_ip net host = None /\ Net.resolve net host (Url.port url) = Ok addresses /\
    addresses <> [] /\ Forall (fun ip => public_ip ip = true) addresses.
Proof.
  unfold resolve_public, validate_url. destruct (Url.host url) as [host|]; [|done].
  destruct (String.eqb_spec (Url.scheme url) "https"); cbn; [|done].
  destruct (String.eqb_spec (Url.username url) ""); cbn; [|done].
  destruct (Url.password url); cbn; [done|]. destruct (Net.parse_ip net host) eqn:Hip; cbn; [done|].
  destruct (Net.resolve net host (Url.port url)) as [l|] eqn:Hres; cbn; [|done].
  destruct l as [|ip l]; cbn [orb]; [done|]. destruct (existsb _ (ip :: l)) eqn:Hex; [done|]. intros [= <-].
  exists host. split_and!; try done. apply list.Forall_forall. intros x Hx. destruct (public_ip x) eqn:Hp; [done|].
  exfalso. assert (existsb (fun ip => negb (public_ip ip)) (ip :: l) = true) as Ht; [|congruence].
  apply existsb_exists. exists x. split; [by apply list_elem_of_In|by rewrite Hp].
Qed.

(** The last of a list of addresses, and nothing else, overrides the name. *)
Lemma overridden host l : l <> [] -> exists ip, ip ∈ l /\ override_host host l = {[host := ip]}.
Proof.
  intros Hl. destruct l as [|ip l _] using rev_ind; [done|]. exists ip. split; [apply elem_of_app; right; by left|].
  unfold override_host. rewrite foldl_app. cbn.
  assert (forall m, (exists x, m = {[host := x]}) \/ m = ∅ -> (exists x, foldl (fun o a => <[host := a]> o) m l = {[host := x]}) \/
    foldl (fun o a => <[host := a]> o) m l = (∅ : gmap string IpAddr)) as H.
  { clear. induction l as [|y l IH]; intros m Hm; [done|]. cbn. apply IH. left. exists y.
    destruct Hm as [(x & ->)| ->]; [apply insert_singleton_eq|apply insert_empty]. }
  destruct (H ∅ (or_intror eq_refl)) as [(x & ->)| ->]; [apply insert_singleton_eq|apply insert_empty].
Qed.

(** *** The payload as it is posted *)

(** The same document, but for the field [key], where the two are related by [R]. *)
Definition differs_at (key : string) (R : Json.Value -> Json.Value -> Prop) (v v' : Json.Value) : Prop :=
  match v with
  | Json.VObject fields => exists fields', v' = Json.VObject fields' /\ fields'.*1 = fields.*1 /\
      (forall other, other <> key -> Json.get other v' = Json.get other v) /\ option_Forall2 R (Json.get key v) (Json.get key v')
  | _ => v' = v
  end.

(** An address in its mixed-case form; anything else as it was. *)
Definition shown_as (net : Net.t) (v v' : Json.Value) : Prop :=
  (exists s a, v = Json.VString s /\ Net.parse_address net s = Some a /\ v' = Json.VString (Net.to_checksum net a)) \/
  (v' = v /\ forall s a, v = Json.VString s -> Net.parse_address net s <> Some a).

(** The payload, with the wallet and the address of its deposit request so shown. *)
Definition checksummed (net : Net.t) : Json.Value -> Json.Value -> Prop :=
  differs_at "data" (differs_at "deposit_request" (fun d d' =>
    exists d1, differs_at "payer_wallet" (shown_as net) d d1 /\ differs_at "address" (shown_as net) d1 d')).

Lemma checksum_shown net v : shown_as net v (checksum_value net v).
Proof.
  unfold shown_as, checksum_value. destruct v; try (right; split; [done|]; by intros ? ? [=]).
  destruct (Net.parse_address net s) as [a|] eqn:Ha; [left; by exists s, a|]. right. split; [done|]. intros t a [= ->]. congruence.
Qed.

Lemma update_field_keys key f fields : (update_field key f fields).*1 = fields.*1.
Proof. induction fields as [|[k v] l IH]; cbn; [done|]. destruct (String.eqb k key); cbn; by rewrite ?IH. Qed.

Lemma on_field_differs key f (R : Json.Value -> Json.Value -> Prop) v : (forall x, R x (f x)) -> differs_at key R v (on_field key f v).
Proof.
  intros HR. destruct v as [| | | | |fields]; try done. cbn [on_field differs_at]. eexists. split; [done|].
  split; [apply update_field_keys|]. unfold Json.get. induction fields as [|[k x] l IH]; cbn; [split; [done|constructor]|].
  destruct IH as [IH1 IH2]. destruct (String.eqb_spec k key) as [->|Hk]; cbn.
  - split; [|rewrite String.eqb_refl; by constructor]. intros other Ho. destruct (String.eqb_spec key other); [congruence|done].
  - split; [|by rewrite (proj2 (String.eqb_neq k key) Hk)]. intros other Ho. destruct (String.eqb k other); [done|by apply IH1].
Qed.

Lemma checksum_addresses_shown net v : checksummed net v (checksum_addresses net v).
Proof.
  apply on_field_differs. intros data. apply on_field_differs. intros d. eexists.
  split; apply on_field_differs; apply checksum_shown.
Qed.

Lemma resolve_public_spec net url addresses :
  (forall host port l, Net.resolve net host port = Ok l -> Forall well_formed l) ->
  resolve_public net url = Ok addresses ->
  exists host, Url.host url = Some host /\ Url.scheme url = "https"%string /\ Url.username url = ""%string /\
    Url.password url = None /\ Net.parse_ip net host = None /\ Net.resolve net host (Url.port url) = Ok addresses /\
    addresses <> [] /\ Forall (fun ip => public_spec ip = true) addresses.
Proof.
  intros Hres (host & H1 & H2 & H3 & H4 & H5 & H6 & H7 & H8)%resolve_public_ok. exists host. split_and!; try done.
  pose proof (Hres _ _ _ H6) as Hw. rewrite list.Forall_forall in *. intros ip Hip. rewrite <- (public_exact ip); auto.
Qed.

(** C31. Whatever the worker posts goes where it may and is signed over its very
    bytes.  The endpoint's URL is HTTPS without credentials and names a host, not
    an address; every address that host resolved to lies outside the special-purpose
    blocks of IPv4 and IPv6, and the client resolves the name to one of them and
    overrides no other name.  The body is the event's payload, changed only in the
    wallet and the address of its deposit request, which are shown in their
    mixed-case form if they parse as addresses.  The signature header names the
    timestamp and the HMAC, under the endpoint's own secret, of the version, the
    timestamp and that body: of the bytes of [v1.<timestamp>.] followed by it. *)
Theorem requests_public_and_signed net key clock job request outcome :
  (forall host port l, Net.resolve net host port = Ok l -> Forall well_formed l) ->
  deliver net key clock job = (Some request, outcome) ->
  outcome = Net.post net request /\ Request.event_id request = DeliveryClaim.event_id job /\
  Net.parse_url net (DeliveryClaim.url job) = Some (Request.url request) /\
  (exists host addresses ip, Url.host (Request.url request) = Some host /\ Url.scheme (Request.url request) = "https"%string /\
     Url.username (Request.url request) = ""%string /\ Url.password (Request.url request) = None /\
     Net.parse_ip net host = None /\ Net.resolve net host (Url.port (Request.url request)) = Ok addresses /\
     Forall (fun ip => public_spec ip = true) addresses /\ ip ∈ addresses /\ Request.overrides request = {[host := ip]}) /\
  clock = Ok (Request.timestamp request) /\
  exists secret payload,
    Net.decrypt net key (take 12 (DeliveryClaim.secret_ciphertext job)) (drop 12 (DeliveryClaim.secret_ciphertext job)) = Some secret /\
    checksummed net (Net.render net job) payload /\ Net.to_vec net payload = Ok (Request.body request) /\
    Request.signature request = ("v1,t=" +:+ pretty (Request.timestamp request) +:+ ",sha256=" +:+
      Net.hex net (Net.hmac_sha256 net secret
        (Net.ascii net ("v1." +:+ pretty (Request.timestamp request) +:+ ".") ++ Request.body request)))%string.
Proof.
  intros Hres. unfold deliver. set (prepared := rbind _ _). destruct prepared as [r|e] eqn:Hp; [|done]. intros [= <- <-].
  unfold prepared in Hp. apply rbind_ok in Hp as (? & _ & Hp). apply rbind_ok in Hp as (url & Hurl%ok_or_ok & Hp).
  apply rbind_ok in Hp as (addresses & Ha%resolve_public_spec & Hp); [|done].
  destruct Ha as (host & H1 & H2 & H3 & H4 & H5 & H6 & H7 & H8). cbv zeta in Hp. rewrite H1 in Hp. change (default ""%string (Some host)) with host in Hp.
  destruct (overridden host addresses H7) as (ip & Hip & Ho). rewrite Ho in Hp.
  apply rbind_ok in Hp as (_ & _ & Hp). apply rbind_ok in Hp as (secret & Hs%ok_or_ok & Hp).
  apply rbind_ok in Hp as (body & Hb & Hp). apply rbind_ok in Hp as (timestamp & Ht & Hp). injection Hp as <-. cbn. split_and!; try done.
  - by exists host, addresses, ip.
  - eexists secret, _. split_and!; [done|apply checksum_addresses_shown|done|done].
Qed.

(** ** One iteration *)

(** The state an outcome leaves a delivery in. *)
Definition state_after (outcome : result string Z) (attempt : Z) : DeliveryState :=
  match outcome with
  | Ok s => if succeeded (Some s) then DDelivered else if MAX_ATTEMPTS <=? attempt then DFailed else DPending
  | Err _ => if MAX_ATTEMPTS <=? attempt then DFailed else DPending
  end.

Lemma outcome_succeeded outcome :
  succeeded (fst (outcome_of outcome)) = match outcome with Ok s => succeeded (Some s) | Err _ => false end.
Proof. destruct outcome as [s|e]; cbn; [|done]. by destruct (_ && _) eqn:H; cbn; rewrite H. Qed.

Lemma concluded_state outcome attempt now d :
  let success := succeeded (fst (outcome_of outcome)) in
  WebhookDelivery.state (concluded success (negb success && (MAX_ATTEMPTS <=? attempt)) now d) = state_after outcome attempt.
Proof.
  cbv zeta. rewrite outcome_succeeded. unfold concluded, state_after. cbn [WebhookDelivery.state].
  destruct outcome as [s|e]; [destruct (succeeded (Some s))|]; cbn; try done; by destruct (MAX_ATTEMPTS <=? attempt).
Qed.

(** The texts a record keeps in full, or up to five hundred bytes. *)
Definition recordable (outcome : result string Z) : Prop :=
  forall e, snd (outcome_of outcome) = Some e -> is_Some (truncated e).

Lemma complete_recorded job attempted duration outcome now h d :
  recordable outcome -> 0 <= duration -> Hooks.deliveries h !! DeliveryClaim.delivery_id job = Some d -> holds job d = true ->
  let status := fst (outcome_of outcome) in
  exists error h', complete job attempted duration status (snd (outcome_of outcome)) now h = Ok h' /\
    let h1 := record_attempt (DeliveryClaim.delivery_id job, DeliveryClaim.attempt_number job)
                (WebhookAttempt.mk attempted duration status error) h in
    h' = {| h1 with Hooks.deliveries := <[DeliveryClaim.delivery_id job :=
      concluded (succeeded status) (negb (succeeded status) && (MAX_ATTEMPTS <=? DeliveryClaim.attempt_number job)) now d]>
        (Hooks.deliveries h1) |}.
Proof.
  intros Hrec Hdur Hd Hh status. unfold complete. cbv zeta. unfold recordable in Hrec.
  destruct (Z.ltb_spec duration 0); [lia|]. rewrite Hd, Hh.
  destruct (snd (outcome_of outcome)) as [e|]; cbn.
  - destruct (Hrec e eq_refl) as [t ->]. cbn. by exists (Some t); eexists.
  - by exists None; eexists.
Qed.

(** An iteration of the worker records what became of the delivery it
    claimed: it finds none only when none is due; otherwise the attempt is
    logged under the next number, the delivery is delivered on a 2xx answer,
    failed from the twelfth attempt on and otherwise due again after at most an
    hour, its lease is given up, and the iteration is a claim and a completion
    of the histories above. *)
Theorem iteration_records_outcome net key w token (timely : bool) clock claimed_at attempted duration completed :
  rtc hook_step HookWorld.start w -> token ∉ (DeliveryClaim.lease_token <$> HookWorld.claims w) -> 0 <= duration ->
  (forall job : DeliveryClaim.t, recordable (if timely then snd (deliver net key clock job) else Err "webhook delivery timed out"%string)) ->
  let h := HookWorld.hooks w in
  exists r h', iteration net key token timely clock claimed_at attempted duration completed h = Ok (r, h') /\
    match r with
    | None => h' = h /\ forall i d, Hooks.deliveries h !! i = Some d -> claimable claimed_at h d = false
    | Some (job, outcome) => exists d d' a,
        Hooks.deliveries h !! DeliveryClaim.delivery_id job = Some d /\ claimable claimed_at h d = true /\
        Hooks.deliveries h' !! DeliveryClaim.delivery_id job = Some d' /\
        WebhookDelivery.attempt_count d' = WebhookDelivery.attempt_count d + 1 /\
        Hooks.attempts h' !! (DeliveryClaim.delivery_id job, WebhookDelivery.attempt_count d') = Some a /\
        WebhookAttempt.status a = fst (outcome_of outcome) /\
        WebhookDelivery.state d' = state_after outcome (WebhookDelivery.attempt_count d') /\
        WebhookDelivery.lease_token d' = None /\
        (WebhookDelivery.state d' = DPending -> WebhookDelivery.next_attempt_at d' <= completed + 3600 * SECOND) /\
        exists claims, rtc hook_step w (HookWorld.mk (HookWorld.rows w) h' claims)
    end.
Proof.
  intros Hr Htok Hdur Hrec h. pose proof (hook_runs_deliveries _ _ Hr no_deliveries_ok) as Hok. fold h in Hok.
  pose proof (claim_ok token claimed_at h (HookWorld.claims w) Htok Hok) as Hok1.
  pose proof (hook_claim w token claimed_at Htok) as Hstep. fold h in Hstep. unfold iteration.
  destruct (claim_inv token claimed_at h) as [E|(id & d & ep & ev & Hnd & Hep & Hev & E)]; rewrite E in *.
  - eexists None, h. split; [done|]. split; [done|]. apply next_due_none.
    unfold claim in E. destruct (next_due claimed_at h) as [[id d]|] eqn:Hnd; [|done].
    apply next_due_some in Hnd as (Hd & _ & _). destruct (dl_refs _ _ Hok _ _ Hd) as [[ev Hev] [ep Hep]].
    by rewrite Hep, Hev in E.
  - apply next_due_some in Hnd as (Hd & Hc & _). cbn [fst snd option_list app] in *. set (job := DeliveryClaim.mk _ _ _ _ _ _ _ _ _ _) in *.
    set (outcome := if timely then _ else _). specialize (Hrec job). fold outcome in Hrec.
    destruct (outcome_of outcome) as [status error] eqn:Ho.
    set (h1 := {| h with Hooks.deliveries := _ |}) in *.
    assert (Hooks.deliveries h1 !! id = Some (leased token claimed_at d)) as Hd1 by apply lookup_insert_eq.
    assert (holds job (leased token claimed_at d) = true) as Hh.
    { unfold holds. cbn. rewrite bool_decide_true by done. unfold claimable in Hc. bools. cbn. by apply bool_decide_true. }
    destruct (complete_recorded job attempted duration outcome completed h1 _ Hrec Hdur Hd1 Hh) as (error' & h2 & Hcm & E2).
    rewrite Ho in Hcm, E2. cbn [fst snd] in Hcm, E2. rewrite Hcm. cbn [rbind].
    exists (Some (job, outcome)), h2. split; [done|].
    assert (rtc hook_step w (HookWorld.mk (HookWorld.rows w) h2 (job :: HookWorld.claims w))) as Hrun.
    { eapply rtc_l; [exact Hstep|]. apply rtc_once.
      exact (hook_complete (HookWorld.mk (HookWorld.rows w) h1 (job :: HookWorld.claims w)) job attempted duration status error
        completed h2 (list_elem_of_here _ _) Hcm). }
    destruct (dl_claims _ _ Hok1 job (list_elem_of_here _ _)) as (x & Hx & _ & Hl). change (Hooks.deliveries h1 !! id = Some x) in Hx.
    rewrite Hd1 in Hx. injection Hx as <-.
    destruct (Hl eq_refl) as [_ Hnone]. cbn in Hnone.
    exists d, (concluded (succeeded status) (negb (succeeded status) && (MAX_ATTEMPTS <=? DeliveryClaim.attempt_number job)) completed (leased token claimed_at d)),
      (WebhookAttempt.mk attempted duration status error').
    rewrite E2 in *. clear E2. cbn [Hooks.deliveries Hooks.attempts]. rewrite lookup_insert_eq.
    split_and!; try done.
    + apply record_attempt_lookup. by right.
    + by rewrite Ho.
    + pose proof (concluded_state outcome (DeliveryClaim.attempt_number job) completed (leased token claimed_at d)) as Hst.
      rewrite Ho in Hst. exact Hst.
    + cbn. unfold retry_delay. destruct (succeeded status); cbn; [done|]. destruct (MAX_ATTEMPTS <=? _); cbn; [done|]. intros _.
      unfold SECOND. lia.
    + by eexists.
Qed.

(** ** The routes *)

Section Routes.
Context `{U : UuidText} `{D : Dates} (k : HookDesk.t).

(** What the cipher, its nonces and the URL parser are relied on for. *)
Class Sealing : Prop := {
  nonce_length n : length (HookDesk.nonce k n) = 12%nat;
  decrypt_encrypt key nonce p c : HookDesk.encrypt k key nonce p = Some c -> Net.decrypt (HookDesk.net k) key nonce c = Some p;
  as_str_parses s u : Net.parse_url (HookDesk.net k) s = Some u -> Net.parse_url (HookDesk.net k) (HookDesk.as_str k u) = Some u;
}.

Lemma sealed_opens {Hseal : Sealing} key secret n c : sealed k key secret n = Ok c ->
  Net.decrypt (HookDesk.net k) key (take 12 c) (drop 12 c) = Some (Net.ascii (HookDesk.net k) secret).
Proof.
  unfold sealed. intros (x & Hx%ok_or_ok & [= <-])%rbind_ok. rewrite <- (nonce_length n).
  rewrite list.take_app_length, list.drop_app_length. by apply decrypt_encrypt.
Qed.

Lemma sealed_secret_signs key secret clock job request outcome :
  Net.decrypt (HookDesk.net k) key (take 12 (DeliveryClaim.secret_ciphertext job)) (drop 12 (DeliveryClaim.secret_ciphertext job))
    = Some secret ->
  deliver (HookDesk.net k) key clock job = (Some request, outcome) ->
  Request.signature request = ("v1,t=" +:+ pretty (Request.timestamp request) +:+ ",sha256=" +:+ Net.hex (HookDesk.net k)
    (Net.hmac_sha256 (HookDesk.net k) secret (signed_bytes (HookDesk.net k) (Request.timestamp request) (Request.body request))))%string.
Proof.
  intros Hs. unfold deliver. set (prepared := rbind _ _). destruct prepared as [r|e] eqn:Hp; [|done]. intros [= <- _].
  unfold prepared in Hp. repeat (apply rbind_ok in Hp as (? & ? & Hp)). injection Hp as <-. cbn.
  match goal with H : ok_or (Net.decrypt _ _ _ _) _ = Ok _ |- _ => rewrite Hs in H; by injection H as <- end.
Qed.

(** The secret that a merchant is shown when it adds an endpoint, and never
    again, is the one its deliveries are signed with: an endpoint is answered as
    created only if its URL is a public HTTPS destination; then it is stored as the
    account's, active, under the identifier and the URL answered, and whatever the
    worker later posts for a delivery that carries the endpoint's stored secret is
    signed with the HMAC of that shown secret. *)
Theorem shown_secret_signs {Hseal : Sealing} account url w status r w' :
  add_endpoint k account url w = (Ok (status, r), w') ->
  exists key u addresses id e secret,
    HookDesk.webhook_encryption_key k = Some key /\ EndpointResponse.secret r = Some secret /\
    EndpointResponse.id r = id_display WebhookId id /\ EndpointResponse.url r = WebhookEndpoint.url e /\
    Net.parse_url (HookDesk.net k) (WebhookEndpoint.url e) = Some u /\ resolve_public (HookDesk.net k) u = Ok addresses /\
    Hooks.endpoints (HookTables.hooks w') !! id = Some e /\ WebhookEndpoint.account_id e = account /\ WebhookEndpoint.active e = true /\
    forall clock job request outcome, DeliveryClaim.secret_ciphertext job = WebhookEndpoint.secret_ciphertext e ->
      deliver (HookDesk.net k) key clock job = (Some request, outcome) ->
      Request.signature request = ("v1,t=" +:+ pretty (Request.timestamp request) +:+ ",sha256=" +:+ Net.hex (HookDesk.net k)
        (Net.hmac_sha256 (HookDesk.net k) (Net.ascii (HookDesk.net k) secret)
           (signed_bytes (HookDesk.net k) (Request.timestamp request) (Request.body request))))%string.
Proof.
  unfold add_endpoint. intros (key & w1 & [= Hk%ok_or_ok <-] & H)%bind_ok. apply bind_ok in H as (u & w2 & [= Hu%ok_or_ok <-] & H).
  apply bind_ok in H as (addresses & w3 & Ha & H). unfold at_hand in Ha.
  destruct (resolve_public (HookDesk.net k) u) as [l|] eqn:Hp; [|done]. injection Ha as <- <-.
  apply bind_ok in H as (secret & w4 & [= Hsec <-] & H). apply bind_ok in H as (c & w5 & [= Hc <-] & H).
  apply bind_ok in H as ([id e] & w6 & Hadd & [= <- <- <-]). unfold on_hooks in Hadd.
  destruct (add _ _ _ _ _ _ _ _) as [[e' h']|] eqn:Hrow; [|done]. injection Hadd as <- <- <-.
  unfold add in Hrow. destruct (is_some _); [done|]. destruct (negb _); [done|]. destruct (table_any _ _); [done|]. injection Hrow as He <-.
  exists key, u, l, (HookDesk.fresh k (HookTables.tick w) 0), e', secret. cbn. rewrite <- He. cbn. split_and!; try done.
  - by eapply as_str_parses.
  - apply lookup_insert_eq.
  - intros clock job request outcome Hjob. apply sealed_secret_signs. rewrite Hjob. by eapply sealed_opens.
Qed.

(** The tables after [m] statements that only read. *)
Fixpoint later (n m : nat) (h : Hooks.t) : Hooks.t :=
  match m with O => h | S m => HookDesk.others k (n + m) (later n m h) end.

Definition reading (w : HookTables.t) (m : nat) : HookTables.t :=
  HookTables.mk (later (HookTables.tick w) m (HookTables.hooks w)) (HookTables.tick w + m).

Lemma hook_read_later {A} (f : Hooks.t -> A) w m :
  hook_read k f (reading w m) = (Ok (f (later (HookTables.tick w) (S m) (HookTables.hooks w))), reading w (S m)).
Proof. unfold hook_read, on_hooks, reading. cbn. by rewrite Nat.add_succ_r. Qed.

Lemma wanted_endpoint_reads account v w m o w' : wanted_endpoint k account v (reading w m) = (Ok o, w') -> exists m', w' = reading w m'.
Proof.
  unfold wanted_endpoint. destruct v as [v|]; [|by intros [= _ <-]; exists m]. intros (id & w1 & [= _ <-] & H)%bind_ok.
  apply bind_ok in H as (row & w2 & Hr & H). rewrite hook_read_later in Hr. injection Hr as _ <-.
  apply bind_ok in H as (e & w3 & [= _ <-] & [= _ <-]). by exists (S m).
Qed.

Lemma wanted_start_reads account v w m o w' : wanted_start k account v (reading w m) = (Ok o, w') -> exists m', w' = reading w m'.
Proof.
  unfold wanted_start. destruct v as [v|]; [|by intros [= _ <-]; exists m]. intros (id & w1 & [= _ <-] & H)%bind_ok.
  apply bind_ok in H as (row & w2 & Hr & H). rewrite hook_read_later in Hr. injection Hr as _ <-.
  apply bind_ok in H as (e & w3 & [= _ <-] & [= _ <-]). by exists (S m).
Qed.

Lemma attempts_table_nodup (h : Hooks.t) p : NoDup (List.filter p (map_to_list (Hooks.attempts h))).
Proof. apply NoDup_ListNoDup, NoDup_filter, NoDup_ListNoDup, NoDup_map_to_list. Qed.

#[local] Instance by_delivery_total : Total by_delivery.
Proof. intros a b. unfold by_delivery. lia. Qed.
#[local] Instance by_delivery_trans : Transitive by_delivery.
Proof. intros a b c. unfold by_delivery. lia. Qed.
#[local] Instance by_number_total : Total by_number.
Proof. intros a b. unfold by_number. lia. Qed.
#[local] Instance by_number_trans : Transitive by_number.
Proof. intros a b c. unfold by_number. lia. Qed.

Lemma in_sorted {A} (R : relation A) `{!RelDecision R} l x : In x (merge_sort R l) <-> In x l.
Proof. rewrite <- !list_elem_of_In. by rewrite merge_sort_Permutation. Qed.

Lemma filter_sorted {A} (R R' : relation A) (p : A -> bool) l : (forall a b, p a = true -> p b = true -> R a b -> R' a b) ->
  StronglySorted R l -> StronglySorted R' (List.filter p l).
Proof.
  intros HR. induction 1 as [|x l Hs IH Hf]; cbn; [constructor|]. destruct (p x) eqn:Hp; [|done]. constructor; [done|].
  apply list.Forall_forall. intros y Hy%list_elem_of_In. apply filter_In in Hy as [Hy Hpy]. apply HR; [done..|].
  rewrite list.Forall_forall in Hf. by apply Hf, list_elem_of_In.
Qed.

(** The attempts a page shows of a delivery are its own, all of them, in order. *)
Lemma history_as_listed ids i h : i ∈ ids -> history_of (attempts_for ids h) i = attempts i h.
Proof.
  intros Hi. unfold history_of, attempts_for, attempts.
  assert (forall a b, a ∈ attempts i h -> b ∈ attempts i h -> by_number a b -> by_number b a -> a = b) as Hanti.
  { intros [[x n] a] [[y m] b] Ha Hb H1 H2. unfold attempts in Ha, Hb.
    rewrite list_elem_of_In, in_sorted, filter_In, <- list_elem_of_In, elem_of_map_to_list in Ha, Hb.
    cbn in *. destruct Ha as [Ha Hx], Hb as [Hb Hy]. unfold by_number in *. cbn in *. assert (x = y /\ n = m) as [-> ->] by lia. congruence. }
  assert (List.filter (fun a => fst (fst a) =? i) (merge_sort by_delivery (List.filter (fun kv => bool_decide (fst (fst kv) ∈ ids)) (map_to_list (Hooks.attempts h))))
    ≡ₚ attempts i h) as Hp.
  { apply NoDup_Permutation.
    - apply NoDup_ListNoDup, NoDup_filter, NoDup_ListNoDup. rewrite merge_sort_Permutation. apply attempts_table_nodup.
    - unfold attempts. rewrite merge_sort_Permutation. apply attempts_table_nodup.
    - intros y. unfold attempts. rewrite !list_elem_of_In, in_sorted, !filter_In, in_sorted, !filter_In, bool_decide_eq_true. split; [by intros [[? _] ?]|]. intros [Hy E]. split_and!; try done.
      apply Z.eqb_eq in E. by rewrite E. }
  apply (StronglySorted_unique_strong by_number).
  - intros a b Ha Hb. rewrite Hp in Ha. by apply Hanti.
  - eapply (filter_sorted by_delivery); [|apply Sorted_StronglySorted; [apply _|]; apply Sorted_merge_sort; apply _].
    intros a b Ha Hb. unfold by_delivery, by_number. lia.
  - apply Sorted_StronglySorted; [apply _|]. apply Sorted_merge_sort. apply _.
  - exact Hp.
Qed.

(** A page of deliveries holds the merchant's own: whatever the other users of
    the tables do in between, it is no longer than asked for, each delivery on it
    is one of an endpoint of the account in the state the page was read from, and
    is shown with all the attempts logged for it, and only those, by number. *)
Theorem pages_show_own_deliveries account query n h p w' :
  deliveries_route k account query (HookTables.mk h n) = (Ok p, w') ->
  exists limit m, page_limit query = Ok limit /\ (length (DeliveryPage.deliveries p) <= Z.to_nat limit)%nat /\
    Forall (fun r => exists i d, delivery account i (later n (S m) h) = Some d /\
      r = delivery_shown (i, d) (attempts i (later n (S (S m)) h))) (DeliveryPage.deliveries p).
Proof.
  unfold deliveries_route. intros (limit & w1 & [= Hl <-] & H)%bind_ok.
  assert (HookTables.mk h n = reading (HookTables.mk h n) 0) as E0 by (unfold reading; cbn; by rewrite Nat.add_0_r). rewrite E0 in H.
  apply bind_ok in H as (endpoint_id & w2 & [m1 ->]%wanted_endpoint_reads & H).
  apply bind_ok in H as (start & w3 & [m ->]%wanted_start_reads & H).
  apply bind_ok in H as (rows & w4 & Hr & H). rewrite hook_read_later in Hr. injection Hr as Hrows <-. cbv zeta in H.
  apply bind_ok in H as (logged & w5 & Ha & [= <- _]). rewrite hook_read_later in Ha. injection Ha as Hlog _. cbn [HookTables.tick HookTables.hooks] in *.
  exists limit, m. split; [done|]. cbn. rewrite length_fmap, length_take. split; [lia|].
  apply list.Forall_fmap, list.Forall_forall. intros [i d] Hin. cbn. exists i, d.
  assert (i ∈ (take (Z.to_nat limit) rows).*1) as Hi by (apply list_elem_of_fmap; by exists (i, d)).
  split; [|rewrite <- Hlog; f_equal; by apply history_as_listed].
  apply list_elem_of_In in Hin. assert (In (i, d) rows) as Hin' by (rewrite <- (take_drop (Z.to_nat limit) rows); apply in_or_app; by left).
  rewrite <- Hrows in Hin'. unfold deliveries in Hin'.
  assert (forall (l : list (Uuid * WebhookDelivery.t)) c, In (i, d) (take c l) -> In (i, d) l) as Htake
    by (intros l c Hc; rewrite <- (take_drop c l); apply in_or_app; by left).
  apply Htake in Hin'. rewrite in_sorted, filter_In, <- list_elem_of_In, elem_of_map_to_list in Hin'.
  destruct Hin' as [Hd [[Ho _]%andb_true_iff _]%andb_true_iff]. unfold delivery. rewrite Hd. cbn in *. by rewrite Ho.
Qed.

End Routes.

(** ** A concrete run *)

Module WorkerExample.

(** A network in which the merchant's host has one public address, secrets are
    their own ciphertexts and an authenticator is the length of what it covers. *)
Definition net : Net.t := {|
  Net.parse_url s := if String.eqb s "https://merchant.example/hooks"
                     then Some (Url.mk "https" "" None (Some "merchant.example") 443) else None;
  Net.parse_ip _ := None;
  Net.resolve _ _ := Ok [V4 93 184 216 34];
  Net.build _ := Ok tt;
  Net.decrypt _ _ cipher := Some cipher;
  Net.render _ := Json.VObject [];
  Net.to_vec _ := Ok [123; 125];
  Net.hmac_sha256 secret text := [Z.of_nat (length secret + length text)];
  Net.hex _ := "2a";
  Net.ascii s := Z.of_nat <$> seq 0 (String.length s);
  Net.parse_address _ := None;
  Net.to_checksum _ := "";
  Net.post _ := Ok 204;
|}%string.

(** The claim the worker of [HookExample] took. *)
Definition job : DeliveryClaim.t.
Proof. let c := eval vm_compute in (head (HookWorld.claims HookExample.w3)) in match c with Some ?j => exact j end. Defined.

Definition request : Request.t :=
  Request.mk (Url.mk "https" "" None (Some "merchant.example") 443)%string {["merchant.example"%string := V4 93 184 216 34]}
    (DeliveryClaim.event_id job) Ready 1700 "v1,t=1700,sha256=2a" [123; 125].

Lemma requests_public_and_signed_witness : exists host ip,
  Url.host (Request.url request) = Some host /\ Request.overrides request = {[host := ip]} /\ public_spec ip = true.
Proof.
  destruct (requests_public_and_signed net [] (Ok 1700) job request (Ok 204))
    as (_ & _ & _ & (host & l & ip & H1 & _ & _ & _ & _ & _ & H2 & H3 & H4) & _ & _).
  - intros host port l [= <-]. repeat constructor; unfold byte; lia.
  - vm_compute. reflexivity.
  - exists host, ip. split_and!; [exact H1|exact H4|]. rewrite list.Forall_forall in H2. by apply H2.
Defined.

Lemma iteration_records_outcome_witness : exists r h',
  iteration net [] 501 true (Ok 4) 4000 4100 20 4200 (HookWorld.hooks HookExample.w2) = Ok (r, h') /\ is_Some r.
Proof.
  destruct (iteration_records_outcome net [] HookExample.w2 501 true (Ok 4) 4000 4100 20 4200 HookExample.hook_run_expired)
    as (r & h' & Hit & Hr).
  - by intros ?%list.elem_of_nil.
  - lia.
  - intros c e. unfold deliver. destruct (rbind _ _) as [q|e'] eqn:Hq; cbn; [discriminate|].
    intros [= <-]. revert Hq. unfold resolve_public, validate_url. cbn.
    repeat case_match; cbn; intros [=]; subst; vm_compute; eauto; try discriminate.
  - exists r, h'. split; [exact Hit|]. destruct r as [?|]; [eauto|]. destruct Hr as [_ Hr].
    specialize (Hr HookExample.done_id). vm_compute in Hr. specialize (Hr _ eq_refl). discriminate.
Defined.

#[local] Existing Instance IdExample.binary.
#[local] Existing Instance GatewayExample.dates.

(** The same network, with secrets sealed by a nonce before them. *)
Definition desk : HookDesk.t := {|
  HookDesk.net := net;
  HookDesk.webhook_encryption_key := Some (replicate 32 9);
  HookDesk.encrypt _ _ secret := Some secret;
  HookDesk.as_str _ := "https://merchant.example/hooks"%string;
  HookDesk.sha256 b := replicate 32 (Z.of_nat (length b));
  HookDesk.secret_bytes n := replicate 32 (Z.of_nat n);
  HookDesk.nonce n := replicate 12 (Z.of_nat n);
  HookDesk.known _ account := account =? 7;
  HookDesk.others _ h := h;
  HookDesk.database_now _ := 5000;
  HookDesk.utc_now _ := 5000;
  HookDesk.fresh n i := 900 + Z.of_nat n * 10 + Z.of_nat i;
|}.

#[local] Instance desk_sealing : Sealing desk.
Proof.
  split; [intros n; apply length_replicate|by intros key nonce p c [= <-]|]. intros s u. cbn. by destruct (String.eqb s _).
Qed.

(** A first endpoint is added; a second active one for the same URL is not, nor is
    one of an account that does not exist. *)
Definition add_route (account : Uuid) (h : Hooks.t) := add_endpoint desk account "https://merchant.example/hooks" (HookTables.mk h 3).

Example adds : is_ok (fst (add_route 7 Hooks.empty)) = true /\ is_ok (fst (add_route 7 HookExample.hooks0)) = false /\
  is_ok (fst (add_route 8 Hooks.empty)) = false.
Proof. vm_compute. done. Qed.

Lemma shown_secret_signs_witness : exists r w' id e, add_route 7 Hooks.empty = (Ok (201, r), w') /\
  EndpointResponse.secret r = Some "whsec_2a"%string /\ Hooks.endpoints (HookTables.hooks w') !! id = Some e /\ WebhookEndpoint.account_id e = 7.
Proof.
  destruct (add_route 7 Hooks.empty) as [[[status r]|x] w'] eqn:E; [|vm_compute in E; discriminate].
  destruct (shown_secret_signs desk 7 "https://merchant.example/hooks" (HookTables.mk Hooks.empty 3) status r w' E)
    as (key & u & addresses & id & e & secret & _ & _ & _ & _ & _ & _ & He & Ha & _).
  exists r, w', id, e. split_and!; [vm_compute in E; by injection E as <- <- <-|vm_compute in E; by injection E as <- <- <-|exact He|exact Ha].
Defined.

Definition shown (account : Uuid) := deliveries_route desk account (DeliveriesQuery.mk None (Some 1) None) (HookTables.mk (HookWorld.hooks HookExample.w4) 0).

Example one_page : match fst (shown 7) with
                   | Ok p => (length (DeliveryPage.deliveries p), is_some (DeliveryPage.next_cursor p))
                   | Err _ => (0%nat, false) end = (1%nat, true).
Proof. vm_compute. done. Qed.

Lemma pages_show_own_deliveries_witness : exists p w', shown 7 = (Ok p, w') /\
  Forall (fun r => exists i d, delivery 7 i (HookWorld.hooks HookExample.w4) = Some d /\
    r = delivery_shown (i, d) (attempts i (HookWorld.hooks HookExample.w4))) (DeliveryPage.deliveries p).
Proof.
  destruct (shown 7) as [[p|x] w'] eqn:E; [|vm_compute in E; discriminate]. exists p, w'. split; [done|].
  destruct (pages_show_own_deliveries desk 7 _ 0 (HookWorld.hooks HookExample.w4) p w' E) as (limit & m & _ & _ & H).
  assert (forall m, later desk 0 m (HookWorld.hooks HookExample.w4) = HookWorld.hooks HookExample.w4) as Hl by (intros j; induction j; done).
  by rewrite !Hl in H.
Defined.

End WorkerExample.
