(* ===== verification/Evidence.v ===== *)
(** * gum-signers: evidence read from the chain

    Models [crates/gum-signers/src/step.rs] (has a withdrawal step already
    happened?) and [crates/gum-signers/src/sweep.rs] (what a finalized batch
    receipt proves about each payment address).

    The two searches over the chain's history are loops: they carry fuel and
    answer [None] without it; [search_settlement_ends] and
    [search_authorization_ends] show that the fuel given is always enough. *)

From S2P Require Import Prelude Core Contracts Registry Effects Chain.

Implicit Types (chain : Node.t) (n : nat).

(** ** Step preconditions ([step.rs]) *)

Inductive Precondition := Holds | Violated (tx_hash : option B256).

Fixpoint search_authorization (fuel : nat) (chain : Node.t) (token authorizer : Address) (nonce : B256)
    (from_block chunk upper : Z) : rpc (option (option B256)) :=
  match fuel with
  | O => ret None
  | S fuel =>
      let lower := Z.max (u64_saturating_sub upper (chunk - 1)) from_block in
      let* answer := call (fun n => Node.authorization_used_tx chain n token authorizer nonce lower upper) in
      match answer with
      | Some (tx_hash, receipt) =>
          if TransactionOutcome.succeeded receipt then ret (Some (Some tx_hash))
          else throw (Transient "AuthorizationUsed belongs to a reverted transaction")
      | None =>
          if lower <=? from_block then ret (Some None)
          else search_authorization fuel chain token authorizer nonce from_block chunk (lower - 1)
      end
  end.

Definition find_authorization_use (chain : Node.t) (token authorizer : Address) (nonce : B256)
    (from_block to_block log_range_size : Z) : rpc (option B256) :=
  let* found := search_authorization (Z.to_nat (to_block - from_block) + 1) chain token authorizer nonce
                  from_block (Z.max log_range_size 1) to_block in
  match found with
  | Some tx_hash => ret tx_hash
  | None => throw (Transient "search did not end")
  end.

Definition check (chain : Node.t) (log_range_size : Z) (precondition : StepPrecondition)
    (boundary : BlockHeader.t) : rpc Precondition :=
  match precondition with
  | AuthorizationUnused token authorizer nonce search_from_block =>
      let* used := call (fun n => Node.authorization_state chain n token authorizer nonce
                                    (BlockHeader.number boundary)) in
      if negb used then ret Holds
      else
        let* tx_hash := find_authorization_use chain token authorizer nonce search_from_block
                          (BlockHeader.number boundary) log_range_size in
        ret (Violated tx_hash)
  | MessageNonceUnused message_transmitter _ nonce =>
      let* used := call (fun n => Node.used_nonces chain n message_transmitter nonce) in
      ret (if used =? 0 then Holds else Violated None)
  end.

(** ** Batch receipts ([sweep.rs]) *)

Fixpoint search_settlement (fuel : nat) (chain : Node.t) (payment token : Address) (to_block : Z)
    (start chunk : Z) : rpc (option SettlementEvent.t) :=
  match fuel with
  | O => ret None
  | S fuel =>
      if start <=? to_block then
        let end_ := Z.min (u64_saturating_add start (chunk - 1)) to_block in
        let* answer := attempt (call (fun n => Node.payment_settlement_tx chain n payment token start end_)) in
        match answer with
        | Ok (Some event) => ret (Some event)
        | Ok None => search_settlement fuel chain payment token to_block (u64_saturating_add end_ 1) chunk
        | Err (LogRangeTooLarge message) =>
            if 1 <? chunk
            then search_settlement fuel chain payment token to_block start (Z.max (chunk / 2) 1)
            else throw (LogRangeTooLarge message)
        | Err error => throw error
        end
      else throw (Transient "payment is deployed but has no finalized settlement event")
  end.

Definition find_settlement (chain : Node.t) (payment token : Address) (from_block to_block log_range_size : Z)
  : rpc SettlementEvent.t :=
  let chunk := Z.max log_range_size 1 in
  let* found := search_settlement (Z.to_nat (to_block + 1 - from_block) + Z.to_nat chunk + 1) chain payment token
                  to_block from_block chunk in
  match found with
  | Some event => ret event
  | None => throw (Transient "search did not end")
  end.

Definition is_true (o : option bool) : bool := match o with Some b => b | None => false end.

Definition balance_is (p : Z -> bool) (probe : FailureProbe.t) : bool :=
  match FailureProbe.balance probe with Some balance => p balance | None => false end.

(** The chain of [if]s over the probe. *)
Definition failure_cause (item : SweepItem.t) (header : BlockHeader.t) (probe : FailureProbe.t)
  : SweepFailureCause :=
  let expired := SweepItem.expiration_timestamp item <? BlockHeader.timestamp header in
  let to_recovery := FailureProbe.code_present probe || expired in
  let touches_recovery := to_recovery || balance_is (fun b => SweepItem.amount item <? b) probe in
  if is_true (FailureProbe.paused probe) then TokenPaused
  else if is_true (FailureProbe.payment_blacklisted probe) then PaymentAddressBlacklisted
  else if touches_recovery && is_true (FailureProbe.recovery_blacklisted probe) then RecoveryBlacklisted
  else if negb to_recovery && is_true (FailureProbe.receiver_blacklisted probe) then BeneficiaryBlacklisted
  else if negb to_recovery && balance_is (fun b => b <? SweepItem.amount item) probe then BalanceBelowAmount
  else UnknownCause.

(** The settlement of a contract somebody else deployed, with its block's
    canonical header. *)
Definition discover_settlement (chain : Node.t) (config : ChainConfig.t) (item : SweepItem.t)
    (header : BlockHeader.t) : rpc SettlementEvidence.t :=
  let from_block := default (ChainConfig.start_block config) (SweepItem.first_observed_block item) in
  let* event := find_settlement chain (SweepItem.payment_address item) (SweepItem.token item) from_block
                  (BlockHeader.number header) (ChainConfig.log_range_size config) in
  let* event_header := call (fun n => Node.block_header chain n (SettlementEvent.block_number event)) in
  if bool_decide (BlockHeader.hash event_header = SettlementEvent.block_hash event) then
    ret (SettlementEvidence.mk (SettlementEvent.transaction_hash event) (SettlementEvent.block_number event)
           (SettlementEvent.transaction_index event) (BlockHeader.timestamp event_header)
           (SettlementEvent.settled event) (SettlementEvent.recovered event))
  else throw (Transient "settlement event block changed during classification").

Definition classify_item (chain : Node.t) (config : ChainConfig.t) (item : SweepItem.t)
    (outcome : SweepOutcome) (header : BlockHeader.t) : rpc SweepItemOutcome :=
  match outcome with
  | SoSettled _ recovered_amount => ret (Settled recovered_amount)
  | SoRecovered amount => ret (Returned amount)
  | SoCollected amount =>
      if SweepItem.settlement_recorded item then ret (LateCollected amount None)
      else
        let* evidence := discover_settlement chain config item header in
        ret (LateCollected amount (Some evidence))
  | SoFailed _ =>
      let* probe := call (fun n => Node.probe_failure chain n (SweepItem.currency item) (SweepItem.token item)
                       (SweepItem.payment_address item) (SweepItem.receiver item) (SweepItem.recovery item)
                       (BlockHeader.number header)) in
      ret (Failed (failure_cause item header probe))
  end.

Definition classify_items (chain : Node.t) (config : ChainConfig.t) (items : list SweepItem.t)
    (receipt : SweepReceipt.t) (header : BlockHeader.t) : rpc (list SweepItemResult.t) :=
  traverse (fun item =>
    match SweepReceipt.outcomes receipt !! SweepItem.payment_address item with
    | Some outcome =>
        let* outcome := classify_item chain config item outcome header in
        ret (SweepItemResult.mk (SweepItem.invoice_id item) outcome)
    | None => throw (Transient "receipt carries no outcome for payment address")
    end) items.

(** ** The searches end *)

Lemma search_authorization_ends fuel chain token authorizer nonce from chunk upper n :
  1 <= chunk -> 0 <= from -> (Z.to_nat (upper - from) < fuel)%nat ->
  fst (search_authorization fuel chain token authorizer nonce from chunk upper n) <> Ok None.
Proof.
  intros Hc Hf. revert upper n. induction fuel as [|fuel IH]; intros upper n Hfuel; [lia|].
  cbn [search_authorization]. unfold bind, call.
  destruct (Node.authorization_used_tx _ _ _ _ _ _ _) as [[[h r]|]|e]; simpl; [by destruct (TransactionOutcome.succeeded r)| |done].
  destruct (Z.leb_spec (Z.max (u64_saturating_sub upper (chunk - 1)) from) from) as [|Hlow]; [done|].
  apply IH. unfold u64_saturating_sub in *. lia.
Qed.

(** Whatever the node answers, the search for a foreign settlement ends:
    it scans every chunk of the range at most once and halves the chunk at
    most down to one block, so it never runs out of the steps it is given. *)
Lemma search_settlement_ends fuel chain payment token to_block start chunk n :
  1 <= chunk -> 0 <= start -> to_block < u64_max ->
  (Z.to_nat (to_block + 1 - start) + Z.to_nat chunk < fuel)%nat ->
  fst (search_settlement fuel chain payment token to_block start chunk n) <> Ok None.
Proof.
  intros Hc Hs Ht. revert start chunk n Hc Hs. induction fuel as [|fuel IH]; intros start chunk n Hc Hs Hfuel; [lia|].
  cbn [search_settlement]. destruct (Z.leb_spec start to_block) as [Hle|]; [|done].
  unfold bind, attempt, call.
  assert (start <= u64_saturating_add start (chunk - 1)) by (unfold u64_saturating_add; lia).
  destruct (Node.payment_settlement_tx _ _ _ _ _ _) as [[e|]|[]]; simpl; try done.
  - apply IH; [done| |]; unfold u64_saturating_add in *; lia.
  - destruct (Z.ltb_spec 1 chunk); [|done].
    assert (Z.max (chunk / 2) 1 < chunk) by (pose proof (Z.div_lt chunk 2); lia).
    apply IH; lia.
Qed.

(** ** What they find

    A node that answers truthfully about one authorization and one payment
    address of a fixed history; the provider refuses log ranges beyond a
    limit of its own. *)

Section Truthful.
Context (chain : Node.t).

Section Authorization.
Context (token authorizer : Address) (nonce : B256) (use : option (Z * B256)) (use_hash : B256).

Definition used_at (at_block : Z) : bool :=
  match use with Some (b, _) => b <=? at_block | None => false end.

Definition used_between (lower upper : Z) : option (B256 * TransactionOutcome.t) :=
  match use with
  | Some (b, h) => if (lower <=? b) && (b <=? upper)
                   then Some (h, TransactionOutcome.mk true b use_hash) else None
  | None => None
  end.

Hypothesis state_truthful : forall n at_block,
  Node.authorization_state chain n token authorizer nonce at_block = Ok (used_at at_block).
Hypothesis used_truthful : forall n lower upper,
  Node.authorization_used_tx chain n token authorizer nonce lower upper = Ok (used_between lower upper).

Lemma search_authorization_finds fuel from chunk upper b h n :
  use = Some (b, h) -> b <= upper -> 1 <= chunk -> 0 <= from -> (Z.to_nat (upper - from) < fuel)%nat ->
  fst (search_authorization fuel chain token authorizer nonce from chunk upper n) =
  Ok (Some (if from <=? b then Some h else None)).
Proof.
  intros Huse Hb Hc Hf. revert upper n Hb. induction fuel as [|fuel IH]; intros upper n Hb Hfuel; [lia|].
  cbn [search_authorization]. unfold bind, call. rewrite used_truthful. unfold used_between. rewrite Huse.
  set (lower := Z.max (u64_saturating_sub upper (chunk - 1)) from).
  assert (from <= lower) by (unfold lower; lia).
  destruct (Z.leb_spec lower b) as [Hl|Hl]; simpl.
  - rewrite (proj2 (Z.leb_le b upper)) by done. simpl.
    rewrite (proj2 (Z.leb_le from b)) by lia. done.
  - destruct (Z.leb_spec lower from) as [Hend|Hmore].
    + rewrite (proj2 (Z.leb_gt from b)) by lia. done.
    + apply IH; [lia|]. unfold lower, u64_saturating_sub in *. lia.
Qed.

(** Checking a step's authorization at the finality boundary is exact:
    the step is still to do exactly when no finalized transaction used the
    authorization, and otherwise the transaction that did is the one
    reported, unless it is older than the block the search starts at; the
    answer does not depend on the size of the log ranges. *)
Theorem authorization_check_exact from range boundary n :
  0 <= from ->
  fst (check chain range (AuthorizationUnused token authorizer nonce from) boundary n) =
  Ok (match use with
      | Some (b, h) => if b <=? BlockHeader.number boundary
                       then Violated (if from <=? b then Some h else None) else Holds
      | None => Holds
      end).
Proof.
  intros Hf. unfold check, bind, call. rewrite state_truthful. unfold used_at.
  destruct use as [[b h]|] eqn:Huse; [|done].
  destruct (Z.leb_spec b (BlockHeader.number boundary)) as [Hb|]; [|done]. simpl.
  unfold find_authorization_use, bind.
  pose proof (search_authorization_finds (Z.to_nat (BlockHeader.number boundary - from) + 1) from (Z.max range 1)
    (BlockHeader.number boundary) b h (S n) Huse Hb ltac:(lia) Hf ltac:(lia)) as Hs.
  destruct (search_authorization _ _ _ _ _ _ _ _ _) as [r n']. simpl in Hs. by rewrite Hs.
Qed.

End Authorization.

Section Settlement.
Context (payment token : Address) (settles : option SettlementEvent.t) (limit : Z) (refusal : string).

Definition settled_between (lower upper : Z) : option SettlementEvent.t :=
  match settles with
  | Some e => if (lower <=? SettlementEvent.block_number e) && (SettlementEvent.block_number e <=? upper)
              then Some e else None
  | None => None
  end.

Hypothesis limit_positive : 1 <= limit.
Hypothesis settlement_truthful : forall n lower upper,
  Node.payment_settlement_tx chain n payment token lower upper =
  if upper - lower + 1 <=? limit then Ok (settled_between lower upper) else Err (LogRangeTooLarge refusal).

Definition nothing_settled : ChainError :=
  Transient "payment is deployed but has no finalized settlement event".

Lemma settled_split lower mid upper :
  lower <= mid + 1 -> mid <= upper -> settled_between lower mid = None ->
  settled_between lower upper = settled_between (mid + 1) upper.
Proof.
  unfold settled_between. destruct settles as [e|]; [|done]. intros H1 H2.
  destruct (Z.leb_spec lower (SettlementEvent.block_number e)), (Z.leb_spec (SettlementEvent.block_number e) mid),
    (Z.leb_spec (SettlementEvent.block_number e) upper), (Z.leb_spec (mid + 1) (SettlementEvent.block_number e));
    simpl; intros; try done; lia.
Qed.

Lemma search_settlement_finds fuel to_block start chunk n :
  1 <= chunk -> 0 <= start -> to_block < u64_max ->
  (Z.to_nat (to_block + 1 - start) + Z.to_nat chunk < fuel)%nat ->
  fst (search_settlement fuel chain payment token to_block start chunk n) =
  match settled_between start to_block with Some e => Ok (Some e) | None => Err nothing_settled end.
Proof.
  intros Hc Hs Ht. revert start chunk n Hc Hs. induction fuel as [|fuel IH]; intros start chunk n Hc Hs Hfuel; [lia|].
  cbn [search_settlement]. destruct (Z.leb_spec start to_block) as [Hle|Hgt].
  2: { unfold settled_between. destruct settles as [e|]; [|done].
       destruct (Z.leb_spec start (SettlementEvent.block_number e)), (Z.leb_spec (SettlementEvent.block_number e) to_block);
         simpl; try done; lia. }
  unfold bind, attempt, call. rewrite settlement_truthful.
  set (end_ := Z.min (u64_saturating_add start (chunk - 1)) to_block).
  assert (start <= end_ <= to_block /\ end_ <= start + (chunk - 1)) as [[H1 H2] H3]
    by (unfold end_, u64_saturating_add; lia).
  destruct (Z.leb_spec (end_ - start + 1) limit) as [Hok|Hbig].
  - destruct (settled_between start end_) as [e|] eqn:Hsb.
    + simpl. unfold settled_between in *. destruct settles as [e'|]; [|done].
      destruct (Z.leb_spec start (SettlementEvent.block_number e')); [|done].
      destruct (Z.leb_spec (SettlementEvent.block_number e') end_); [|done].
      rewrite (proj2 (Z.leb_le (SettlementEvent.block_number e') to_block)) by lia. by simplify_eq/=.
    + assert (u64_saturating_add end_ 1 = end_ + 1) as Hnext by (unfold u64_saturating_add; lia).
      rewrite Hnext, IH by lia. by rewrite (settled_split start end_ to_block) by (done || lia).
  - destruct (Z.ltb_spec 1 chunk) as [Hch|]; [|lia].
    assert (Z.max (chunk / 2) 1 < chunk) by (pose proof (Z.div_lt chunk 2); lia).
    apply IH; lia.
Qed.

(** The search for a settlement somebody else made is exact for any
    provider limit: the event is returned when it lies in the searched
    blocks, however often the provider refuses a range as too large, and a
    transient error, which leaves the job open, when it does not. *)
Theorem settlement_search_exact from_block to_block range n :
  0 <= from_block -> to_block < u64_max ->
  fst (find_settlement chain payment token from_block to_block range n) =
  match settled_between from_block to_block with Some e => Ok e | None => Err nothing_settled end.
Proof.
  intros Hf Ht. unfold find_settlement, bind.
  pose proof (search_settlement_finds (Z.to_nat (to_block + 1 - from_block) + Z.to_nat (Z.max range 1) + 1) to_block
    from_block (Z.max range 1) n ltac:(lia) Hf Ht ltac:(lia)) as Hs.
  destruct (search_settlement _ _ _ _ _ _ _ _) as [r n']. simpl in Hs. rewrite Hs.
  by destruct (settled_between from_block to_block).
Qed.

End Settlement.
End Truthful.

(** ** What is reported is what was read *)

Section Reported.
Context (chain : Node.t) (config : ChainConfig.t).

Lemma search_settlement_read fuel payment token to_block start chunk n e n' :
  1 <= chunk -> 0 <= start -> to_block < u64_max ->
  search_settlement fuel chain payment token to_block start chunk n = (Ok (Some e), n') ->
  exists k lower upper, start <= lower /\ upper <= to_block /\
    Node.payment_settlement_tx chain k payment token lower upper = Ok (Some e).
Proof.
  intros Hc Hs Ht. revert start chunk n Hc Hs. induction fuel as [|fuel IH]; intros start chunk n Hc Hs; [done|].
  cbn [search_settlement]. destruct (Z.leb_spec start to_block) as [Hle|]; [|done].
  unfold bind, attempt, call.
  set (end_ := Z.min (u64_saturating_add start (chunk - 1)) to_block).
  assert (start <= end_ <= to_block) by (unfold end_, u64_saturating_add; lia).
  destruct (Node.payment_settlement_tx _ _ _ _ _ _) as [[ev|]|[]] eqn:Ha; try done.
  - intros [= <- <-]. exists n, start, end_. split_and!; [lia|lia|done].
  - intros (k & lo & hi & ? & ? & ?)%IH; [|lia|unfold u64_saturating_add; lia].
    exists k, lo, hi. split_and!; [|done..]. unfold u64_saturating_add in *. lia.
  - destruct (1 <? chunk); [|done]. intros (k & lo & hi & ? & ? & ?)%IH; [eauto 10|lia|lia].
Qed.

(** A settlement of the item's address in the searched blocks, on the
    canonical chain when its header was read. *)
Definition settlement_read (item : SweepItem.t) (header : BlockHeader.t) (ev : SettlementEvidence.t) : Prop :=
  exists k1 k2 lower upper event event_header,
    default (ChainConfig.start_block config) (SweepItem.first_observed_block item) <= lower /\
    upper <= BlockHeader.number header /\
    Node.payment_settlement_tx chain k1 (SweepItem.payment_address item) (SweepItem.token item) lower upper
      = Ok (Some event) /\
    Node.block_header chain k2 (SettlementEvent.block_number event) = Ok event_header /\
    BlockHeader.hash event_header = SettlementEvent.block_hash event /\
    ev = SettlementEvidence.mk (SettlementEvent.transaction_hash event) (SettlementEvent.block_number event)
           (SettlementEvent.transaction_index event) (BlockHeader.timestamp event_header)
           (SettlementEvent.settled event) (SettlementEvent.recovered event).

(** What the receipt says of an item, and what is reported of it. *)
Definition reports (item : SweepItem.t) (header : BlockHeader.t) (o : SweepOutcome) (r : SweepItemOutcome) : Prop :=
  match o, r with
  | SoSettled _ recovered, Settled overpayment => overpayment = recovered
  | SoRecovered amount, Returned returned => returned = amount
  | SoCollected amount, LateCollected collected None =>
      collected = amount /\ SweepItem.settlement_recorded item = true
  | SoCollected amount, LateCollected collected (Some ev) =>
      collected = amount /\ SweepItem.settlement_recorded item = false /\ settlement_read item header ev
  | SoFailed _, Failed cause =>
      exists k probe, Node.probe_failure chain k (SweepItem.currency item) (SweepItem.token item)
        (SweepItem.payment_address item) (SweepItem.receiver item) (SweepItem.recovery item)
        (BlockHeader.number header) = Ok probe /\ cause = failure_cause item header probe
  | _, _ => False
  end.

Definition block_numbers_ok (item : SweepItem.t) (header : BlockHeader.t) : Prop :=
  0 <= default (ChainConfig.start_block config) (SweepItem.first_observed_block item) /\
  BlockHeader.number header < u64_max.

Lemma discover_settlement_read item header n ev n' :
  block_numbers_ok item header ->
  discover_settlement chain config item header n = (Ok ev, n') -> settlement_read item header ev.
Proof.
  intros [Hf Ht]. unfold discover_settlement.
  intros (e & n1 & (o & n2 & Hs & Ho)%bind_ok & (hdr & n3 & Hh & Hr)%bind_ok)%bind_ok.
  destruct o as [e'|]; [|done]. injection Ho as -> ->.
  apply search_settlement_read in Hs as (k & lo & hi & ? & ? & ?); [|lia|done|done].
  unfold call in Hh. injection Hh as Hh <-.
  case_bool_decide as Heq; [|done]. injection Hr as <- <-.
  exists k, n1, lo, hi, e, hdr. done.
Qed.

Lemma classify_item_reports item o header n r n' :
  block_numbers_ok item header ->
  classify_item chain config item o header n = (Ok r, n') -> reports item header o r.
Proof.
  intros Hb. unfold classify_item. destruct o as [a rec|a|a|d].
  - by intros [= <- <-].
  - by intros [= <- <-].
  - destruct (SweepItem.settlement_recorded item) eqn:Hrec; [by intros [= <- <-]|].
    intros (ev & n1 & Hd & [= <- <-])%bind_ok. simpl. split_and!; [done..|].
    by eapply discover_settlement_read.
  - intros (probe & n1 & Hp & [= <- <-])%bind_ok. unfold call in Hp. injection Hp as Hp <-. simpl. eauto.
Qed.

(** A classified batch carries exactly one result per item of the
    command, in order and under the item's request; each says what the
    receipt says of the item's payment address, a failure is explained by a
    probe at the receipt's block, and a settlement is reported exactly when
    none was recorded, from an event of the searched blocks whose block was
    still canonical. *)
Theorem classification_reports_receipt items receipt header n results n' :
  (forall item, item ∈ items -> block_numbers_ok item header) ->
  classify_items chain config items receipt header n = (Ok results, n') ->
  Forall2 (fun item result =>
    SweepItemResult.invoice_id result = SweepItem.invoice_id item /\
    exists o, SweepReceipt.outcomes receipt !! SweepItem.payment_address item = Some o /\
      reports item header o (SweepItemResult.outcome result)) items results.
Proof.
  intros Hb. apply traverse_ok. intros item res s1 s2 Hin Hi.
  destruct (SweepReceipt.outcomes receipt !! SweepItem.payment_address item) as [o|]; [|done].
  apply bind_ok in Hi as (r & s3 & Hr & [= <- <-]). simpl. split; [done|]. exists o. split; [done|].
  eapply classify_item_reports; [by apply Hb|done].
Qed.

End Reported.

(** ** A chain where somebody else settled *)

Module EvidenceExample.

Definition wallet : Address := [7].
Definition usdc : Address := [8].
Definition payment : Address := [9].
Definition sweeper : Address := [5].
Definition hash_at (b : Z) : B256 := [b; 1].
Definition header_at (b : Z) : BlockHeader.t := BlockHeader.mk b (hash_at b) (1000 + b).

(** Deployed by a stranger at block 42; the provider serves eight blocks of
    logs at a time. *)
Definition deployment : SettlementEvent.t := SettlementEvent.mk [77] 42 (hash_at 42) 3 (Some 100) 5.

Definition node : Node.t := {|
  Node.latest_block_number n := Ok 60;
  Node.finalized_header n := Ok (header_at 50);
  Node.block_header n b := Ok (header_at b);
  Node.token_transfers n tokens lower upper recipients := Ok [];
  Node.token_payment_receipt n h t := Ok None;
  Node.sweep_receipt n h s := Ok None;
  Node.transaction_receipt n h := Ok None;
  Node.used_nonces n t nonce := Ok 0;
  Node.authorization_state n t a nonce b := Ok (used_at (Some (30, [66])) b);
  Node.authorization_used_tx n t a nonce lower upper := Ok (used_between (Some (30, [66])) [30; 1] lower upper);
  Node.payment_settlement_tx n p t lower upper :=
    if upper - lower + 1 <=? 8 then Ok (settled_between (Some deployment) lower upper)
    else Err (LogRangeTooLarge "block range");
  Node.probe_failure n c t p r v b := Ok (FailureProbe.mk false (Some false) None (Some true) None (Some 100));
  Node.signers := [wallet];
  Node.signer_nonce n s pending := Ok 0;
  Node.signer_balance n s := Ok 0;
  Node.estimate_fees n := Ok (FeeEstimate.mk 10 1);
  Node.prepare_sweep_batch n s b rs nonce gas fees := Err ReadOnly;
  Node.prepare_call n s t d nonce gas fees := Err ReadOnly;
  Node.broadcast_sweep_transaction n p := Ok tt;
|}.

Definition config : ChainConfig.t :=
  ChainConfig.mk 8453 [] [2] sweeper [] [] 10 FinalizedTag 0 2000 20 None None None None None None.

Definition item (id : Uuid) (address : Address) (recorded : bool) : SweepItem.t :=
  SweepItem.mk id address Usdc usdc 100 [3] 2000 [4] [id] Open recorded (Some 12).

Definition receipt : SweepReceipt.t :=
  SweepReceipt.mk true 50 (hash_at 50) 0 (<[payment := SoCollected 20]> (<[[10] := SoFailed []]> ∅)).

Definition log_settled : Log.t := Log.mk payment [[3]] [100].
Definition log_recovered : Log.t := Log.mk payment [[4]] [5].
Definition decode_pair (l : Log.t) : option (Address * Z) :=
  match Log.data l with [a; amount] => Some ([a], amount) | _ => None end.
Definition decode_failed (l : Log.t) : option (Address * bytes) :=
  match Log.data l with a :: revert_data => Some ([a], revert_data) | [] => None end.
Definition decode_amount (l : Log.t) : option Z := head (Log.data l).
Definition decode : list Log.t -> Address -> result ChainError (gmap Address SweepOutcome) :=
  decode_sweep_outcomes [1] [2] [3] [4] decode_failed decode_pair decode_amount decode_amount.

Lemma decode_order_independent_witness :
  decode [log_recovered; log_settled] sweeper = Ok {[payment := SoSettled 100 5]}.
Proof.
  apply (decode_order_independent [1] [2] [3] [4] decode_failed decode_pair decode_amount decode_amount
    [log_recovered; log_settled] [log_settled; log_recovered]).
  - apply perm_swap.
  - reflexivity.
Defined.

Lemma search_settlement_ends_witness :
  fst (search_settlement 60 node payment usdc 50 12 20 O) <> Ok None.
Proof. apply search_settlement_ends; vm_compute; done || lia. Defined.

Lemma authorization_check_exact_witness :
  fst (check node 4 (AuthorizationUnused usdc wallet [1] 11) (header_at 50) O) = Ok (Violated (Some [66])).
Proof. apply (authorization_check_exact node usdc wallet [1] (Some (30, [66])) [30; 1]); done. Defined.

Lemma settlement_search_exact_witness :
  fst (find_settlement node payment usdc 12 50 20 O) = Ok deployment.
Proof. apply (settlement_search_exact node payment usdc (Some deployment) 8 "block range"); done. Defined.

Definition results : list SweepItemResult.t :=
  [SweepItemResult.mk 1 (LateCollected 20 (Some (SettlementEvidence.mk [77] 42 3 1042 (Some 100) 5)));
   SweepItemResult.mk 2 (Failed BeneficiaryBlacklisted)].

Lemma classification_reports_receipt_witness :
  Forall2 (fun i result =>
    SweepItemResult.invoice_id result = SweepItem.invoice_id i /\
    exists o, SweepReceipt.outcomes receipt !! SweepItem.payment_address i = Some o /\
      reports node config i (header_at 50) o (SweepItemResult.outcome result))
    [item 1 payment false; item 2 [10] false] results.
Proof.
  eapply (classification_reports_receipt node config _ receipt (header_at 50) O results); [|vm_compute; reflexivity].
  intros i [->|[->|[]%not_elem_of_nil]%elem_of_cons]%elem_of_cons; vm_compute; split; done.
Defined.

End EvidenceExample.
