(* ===== verification/RelayPollerTheorems.v ===== *)
(** * Properties of the Relay poller

    A pass is a sequence of ledger transactions in which an intent is filled
    only on a receipt of its origin chain ([served_step]); so in every state
    the server reaches, a transfer that is attributed to a payer was paid by
    the payer's wallet on the origin chain.  And a pass leaves no due intent
    behind. *)

From stdpp Require Import sorting.
From S2P Require Import Prelude Core Contracts Bus Tables Registry Attachments Invoices Range Sweeps.
From S2P Require Import RelayIntents Verifications LedgerExample LedgerInv LedgerNotes RangeInv LedgerRuns.
From S2P Require Import RelayTheorems Effects Chain Relay RelayPoller Evidence.

Implicit Types (id : Uuid) (db : Db.t) (i : RelayIntent.t) (now : Timestamp) (w : World.t).

(** ** Histories in which every fill has its receipt *)

Section Histories.
Context (chains : Z -> option Node.t).
Context (payload_hash : Message -> B256) (parse_address : string -> option Address) (hex : B256 -> string).

Abbreviation step := (ledger_step payload_hash parse_address hex).

(** Some answer of the origin chain's node is a receipt of the transaction:
    it succeeded, the intent's wallet signed it, and it moved exactly the
    quoted amount of the quoted token out of that wallet. *)
Definition receipt_proves i (origin_tx : B256) : Prop :=
  exists origin n receipt transfer,
    chains (as_u64 (RelayIntent.origin_chain_id i)) = Some origin /\
    Node.token_payment_receipt origin n origin_tx (RelayIntent.origin_currency i) = Ok (Some receipt) /\
    TransactionOutcome.succeeded (TokenPaymentReceipt.outcome receipt) = true /\
    TokenPaymentReceipt.sender receipt = RelayIntent.payer_wallet i /\
    transfer ∈ TokenPaymentReceipt.transfers receipt /\
    TokenTransfer.sender transfer = RelayIntent.payer_wallet i /\
    TokenTransfer.amount transfer = RelayIntent.quoted_in_amount i.

Definition fills_nothing db db' : Prop :=
  forall id i', Db.relay_intents db' !! id = Some i' -> RelayIntent.status i' = Filled ->
    exists i, Db.relay_intents db !! id = Some i /\ RelayIntent.status i = Filled.

Inductive served_step db db' : Prop :=
| served_other : step db db' -> fills_nothing db db' -> served_step db db'
| served_fill id i fills origin_tx status now r :
    Db.relay_intents db !! id = Some i -> receipt_proves i origin_tx ->
    resolve_filled id fills origin_tx status now db = Ok (r, db') -> served_step db db'.

Lemma served_is_step db db' : served_step db db' -> step db db'.
Proof. intros [H _|]; [done|]. apply step_relay. by eapply rs_filled. Qed.

Lemma receipt_proves_terms i i' tx : terms i' = terms i -> receipt_proves i tx -> receipt_proves i' tx.
Proof.
  intros [= _ _ E1 _ E2 E3 E4 _ _ _] (origin & n & r & t & H). exists origin, n, r, t.
  by rewrite E1, E2, E3, E4.
Qed.

(** What filling writes to the table of intents, and why it may write
    nothing. *)
Lemma resolve_filled_intents id fills origin_tx status now db r db' :
  resolve_filled id fills origin_tx status now db = Ok (r, db') ->
  (Db.relay_intents db' = Db.relay_intents db /\
   (fills = [] \/ r = FrOriginTransactionClaimed \/
    forall i, Db.relay_intents db !! id = Some i -> is_unresolved (RelayIntent.status i) = false)) \/
  exists i, Db.relay_intents db !! id = Some i /\
    Db.relay_intents db' = <[id := filled fills origin_tx status now i]> (Db.relay_intents db).
Proof.
  unfold resolve_filled, lock_intent. intros H. destruct fills as [|f fs]; [inv_ok; auto|].
  destruct (Db.relay_intents db !! id) as [i|] eqn:Hi; [|inv_ok; left; split; [done|by right; right]].
  destruct (is_unresolved (RelayIntent.status i)) eqn:Hu; simpl in H.
  2: { inv_ok. left. split; [done|]. right; right. by intros j [= <-]. }
  destruct (origin_claimed _ _ _ _); [inv_ok; auto|].
  destruct (attribute_fill _ _ _ _) as [n db2] eqn:Ha. destruct (unpark_unless_pending _ _ _) as [m db3] eqn:Hp.
  inv_ok. right. exists i. split; [done|].
  change db' with (snd (m, db')). rewrite <- Hp, unpark_intents. change db2 with (snd (n, db2)). rewrite <- Ha.
  unfold attribute_fill. by case_match.
Qed.

Definition fills_proved db : Prop :=
  forall id i, Db.relay_intents db !! id = Some i -> RelayIntent.status i = Filled ->
    exists hash, RelayIntent.verified_origin_tx_hash i = Some hash /\ receipt_proves i hash.

Lemma served_proved db db' : served_step db db' -> fills_proved db -> fills_proved db'.
Proof.
  intros [Hs Hn|id i fills tx status now r Hi Hp Hr] Hall id' i' Hi' Hf.
  - destruct (Hn id' i' Hi' Hf) as (i & Hi & Hfi). destruct (Hall id' i Hi Hfi) as (h & Hh & Hp).
    destruct (proj1 (ledger_step_intents_live _ _ _ _ _ Hs) id' i Hi) as (i2 & Hi2 & L).
    assert (i2 = i') as -> by congruence. destruct (il_final _ _ L) as (_ & Hv & _); [by rewrite Hfi|].
    exists h. split; [congruence|]. eapply receipt_proves_terms; [exact (il_terms _ _ L)|done].
  - destruct (resolve_filled_intents _ _ _ _ _ _ _ _ Hr) as [[E _]|(j & Hj & E)]; rewrite E in Hi'; [by eapply Hall|].
    assert (j = i) as -> by congruence.
    apply lookup_insert_Some in Hi' as [[<- <-]|[_ Hi']]; [|by eapply Hall]. by exists tx.
Qed.

Lemma served_runs db db' : rtc served_step db db' -> rtc step db db'.
Proof. apply rtc_subrel. intros a b. apply served_is_step. Qed.

Lemma served_runs_proved db db' : rtc served_step db db' -> fills_proved db -> fills_proved db'.
Proof. induction 1; eauto using served_proved. Qed.

Lemma served_runs_live db db' : rtc served_step db db' -> intents_live db db'.
Proof.
  induction 1 as [db|a b c Hs _ IH]; [reflexivity|].
  etrans; [|exact IH]. eapply ledger_step_intents_live. by apply served_is_step.
Qed.

End Histories.

(** ** A pass is such a history *)

Section Pass.
Context (self : Poller.t).
Context (payload_hash : Message -> B256) (parse_address : string -> option Address) (hex : B256 -> string).

Abbreviation served := (served_step (Poller.chains self) payload_hash parse_address hex).

Context (others_served : forall n db, rtc served db (Poller.others self n db)).

(** The poller's own writes besides a fill. *)
Lemma relay_serves db db' : relay_step db db' -> fills_nothing db db' -> served db db'.
Proof. intros H Hn. apply served_other; [by apply step_relay|done]. Qed.

(** A write of one intent that leaves it unfilled. *)
Lemma fills_nothing_insert db db' id i i' :
  Db.relay_intents db !! id = Some i -> (RelayIntent.status i' = Filled -> RelayIntent.status i = Filled) ->
  Db.relay_intents db' = <[id := i']> (Db.relay_intents db) -> fills_nothing db db'.
Proof.
  intros Hi Hs E id' j Hj Hf. rewrite E in Hj. apply lookup_insert_Some in Hj as [[<- <-]|[_ Hj]]; eauto.
Qed.

Lemma fills_nothing_refl db : fills_nothing db db.
Proof. intros id i Hi Hf. eauto. Qed.

Lemma defer_fills_nothing id next status db : fills_nothing db (defer id next status db).
Proof.
  unfold defer. destruct (Db.relay_intents db !! id) as [i|] eqn:Hi; [|apply fills_nothing_refl].
  destruct (is_unresolved _); [|apply fills_nothing_refl].
  by apply (fills_nothing_insert db _ id i (deferred next status i)).
Qed.

Lemma expire_fills_nothing chain now db : fills_nothing db (snd (expire_quoted chain now db)).
Proof.
  intros id i' Hi' Hf. simpl in Hi'. rewrite lookup_update_where in Hi'.
  destruct (Db.relay_intents db !! id) as [i|]; [|done]. simpl in Hi'. injection Hi' as <-.
  destruct (quote_overdue _ _ i); [done|]. eauto.
Qed.

Lemma failed_fills_nothing id s status now db r db' :
  s = RelayFailed \/ s = Refunded -> resolve_failed id s status now db = Ok (r, db') -> fills_nothing db db'.
Proof.
  intros Hs H. unfold resolve_failed, lock_intent in H.
  destruct (Db.relay_intents db !! id) as [i|] eqn:Hi; [|inv_ok; apply fills_nothing_refl].
  destruct (negb (is_unresolved _)); [inv_ok; apply fills_nothing_refl|]. destruct (negb _); [discriminate|].
  destruct (unpark_unless_pending _ _ _) as [m db3] eqn:Hp. inv_ok.
  apply (fills_nothing_insert db _ id i (unfilled s status now i)); [done|by destruct Hs as [-> | ->]|].
  change db' with (snd (m, db')). rewrite <- Hp. apply unpark_intents.
Qed.

Lemma defer_serves id next status db : served db (defer id next status db).
Proof. apply relay_serves; [constructor|apply defer_fills_nothing]. Qed.

Lemma expire_serves chain now db : served db (snd (expire_quoted chain now db)).
Proof. apply relay_serves; [constructor|apply expire_fills_nothing]. Qed.

Lemma fail_serves id s status now db r db' :
  s = RelayFailed \/ s = Refunded -> resolve_failed id s status now db = Ok (r, db') -> served db db'.
Proof. intros Hs H. apply relay_serves; [by eapply rs_failed|by eapply failed_fills_nothing]. Qed.

(** ** What is kept while a list of intents is worked through: the history so
    far, and that each intent still has the terms it was read with. *)

Context (db0 : Db.t).

Record following (l : list (Uuid * RelayIntent.t)) db : Prop := {
  fo_history : rtc served db0 db;
  fo_terms : forall id i, (id, i) ∈ l ->
    exists i', Db.relay_intents db !! id = Some i' /\ terms i' = terms i;
}.

Lemma following_runs l db db' : rtc served db db' -> following l db -> following l db'.
Proof.
  intros Hr [H1 H2]. split; [by etrans|]. intros id i Hin. destruct (H2 id i Hin) as (i1 & Hi1 & E1).
  destruct (proj1 (served_runs_live _ _ _ _ _ _ Hr) id i1 Hi1) as (i2 & Hi2 & L). exists i2.
  split; [done|]. rewrite (il_terms _ _ L). done.
Qed.

Lemma following_others l n db : following l db -> following l (Poller.others self n db).
Proof. by apply following_runs. Qed.

Abbreviation poller := (eff PollError World.t) (only parsing).
Abbreviation follows l := (fun w => following l (World.db w)) (only parsing).

Lemma write_follows {A} l (f : Timestamp -> Db.t -> result DbError (A * Db.t)) :
  (forall now db a db', following l db -> f now db = Ok (a, db') -> served db db') ->
  triple (follows l) (write self f) (fun _ => follows l) (fun _ => follows l).
Proof.
  intros Hf. apply (triple_update PollDatabase _ _ (following l) (following_others l)).
  intros now db a db' HP H. eapply following_runs; [by eapply rtc_once, Hf|done].
Qed.

Lemma defer_until_follows l id next status :
  triple (follows l) (defer_until self id next status) (fun _ => follows l) (fun _ => follows l).
Proof. apply write_follows. intros now db a db' _ [= _ <-]. apply defer_serves. Qed.

Lemma defer_for_follows l id backoff status :
  triple (follows l) (defer_for self id backoff status) (fun _ => follows l) (fun _ => follows l).
Proof.
  eapply triple_bind; [apply (triple_clock (following l))|]. intros t w [HP _]. revert w HP.
  apply triple_drop, triple_try, defer_until_follows.
Qed.

Lemma fail_follows l id s status :
  s = RelayFailed \/ s = Refunded ->
  triple (follows l) (fail_intent self id s status) (fun _ => follows l) (fun _ => follows l).
Proof. intros Hs. apply write_follows. intros now db a db' _. by apply fail_serves. Qed.

(** A call's answer is some answer of the service, or the error it made. *)
Lemma relay_call_follows {A} l (f : nat -> result RelayError A) :
  triple (follows l) (relay_call f) (fun a w => following l (World.db w) /\ exists n, f n = Ok a) (fun _ => follows l).
Proof.
  eapply triple_bind; [apply (triple_outside (following l))|]. intros [a|e] w [HP [n Hn]]; [|done].
  split; [done|]. by exists n.
Qed.

Lemma chain_call_follows {A} l (f : nat -> result ChainError A) :
  triple (follows l) (chain_call f) (fun a w => following l (World.db w) /\ exists n, f n = Ok a) (fun _ => follows l).
Proof.
  eapply triple_bind; [apply (triple_outside (following l))|]. intros [a|e] w [HP [n Hn]]; [|done].
  split; [done|]. by exists n.
Qed.

(** A verified candidate has the receipt that verifies it. *)
Lemma examine_follows l origin currency wallet quoted_in candidates : forall successful foreign,
  triple (follows l) (examine origin currency wallet quoted_in candidates successful foreign)
    (fun v w => following l (World.db w) /\
       forall tx, v = Verified tx -> exists n receipt transfer,
         Node.token_payment_receipt origin n tx currency = Ok (Some receipt) /\
         TransactionOutcome.succeeded (TokenPaymentReceipt.outcome receipt) = true /\
         TokenPaymentReceipt.sender receipt = wallet /\ transfer ∈ TokenPaymentReceipt.transfers receipt /\
         TokenTransfer.sender transfer = wallet /\ TokenTransfer.amount transfer = quoted_in)
    (fun _ => follows l).
Proof.
  induction candidates as [|c rest IH]; intros successful foreign; simpl; [by apply triple_ret|].
  eapply triple_bind; [apply chain_call_follows|]. intros receipt w [HP [n Hn]]. revert w HP.
  destruct receipt as [r|]; [|by apply triple_ret]. destruct (TransactionOutcome.succeeded _) eqn:Hs; [|apply IH]. simpl.
  case_bool_decide as Hw; simpl; [|apply IH].
  destruct (existsb _ _) eqn:He; [|apply IH]. apply triple_ret. intros w HP. split; [done|]. intros tx [= <-].
  apply existsb_exists in He as (t & Ht%list_elem_of_In & Hd). unfold debits in Hd. bools.
  exists n, r, t. by split_and!.
Qed.

Lemma lift_follows {A} l (r : result PollError A) :
  triple (follows l) (lift r) (fun a w => following l (World.db w) /\ r = Ok a) (fun _ => follows l).
Proof. by apply (triple_lift (following l)). Qed.

Lemma resolve_follows l id i origin currency wallet quoted_in later raw record :
  (id, i) ∈ l -> Poller.chains self (as_u64 (RelayIntent.origin_chain_id i)) = Some origin ->
  RelayIntent.origin_currency i = currency -> RelayIntent.payer_wallet i = wallet ->
  RelayIntent.quoted_in_amount i = quoted_in ->
  triple (follows l) (resolve self id i origin currency wallet quoted_in later raw record)
    (fun _ => follows l) (fun _ => follows l).
Proof.
  intros Hin Hc <- <- <-. unfold resolve. destruct (_ || _ || _); [apply defer_until_follows|].
  eapply triple_bind; [apply examine_follows|]. intros v w [HP Hv]. revert w HP.
  destruct v as [|tx|successful foreign]; [apply defer_until_follows| |].
  - destruct (Hv tx eq_refl) as (n & r & t & Hproof). eapply triple_bind.
    + apply write_follows. intros now db a db' HP Hf. destruct (fo_terms _ _ HP id i Hin) as (i' & Hi' & E).
      eapply served_fill; [exact Hi'| |exact Hf]. apply (receipt_proves_terms _ i); [done|].
      by exists origin, n, r, t.
    + intros [res| |]; [by apply triple_ret|by apply triple_ret|].
      apply triple_drop, fail_follows. by left.
  - destruct (_ && _); [|apply defer_until_follows]. apply triple_drop, fail_follows. by left.
Qed.

Lemma fixed_bytes_some n b b' : fixed_bytes n b = Some b' -> b = b'.
Proof. unfold fixed_bytes. case_match; congruence. Qed.

Lemma u256_of_numeral_some n x : u256_of_numeral n = Some x -> n = x.
Proof. unfold u256_of_numeral. case_match; congruence. Qed.

Lemma poll_follows l relay x :
  x ∈ l -> triple (follows l) (poll self relay x) (fun _ => follows l) (fun _ => follows l).
Proof.
  intros Hin. destruct x as [id i]. unfold poll.
  eapply triple_bind; [apply lift_follows|]. intros request w [HP _]. revert w HP.
  eapply triple_bind; [apply lift_follows|]. intros wallet w [HP Hw%ok_or_ok%fixed_bytes_some]. revert w HP.
  eapply triple_bind; [apply lift_follows|]. intros currency w [HP Hcur%ok_or_ok%fixed_bytes_some]. revert w HP.
  eapply triple_bind; [apply lift_follows|]. intros quoted_in w [HP Hq%ok_or_ok%u256_of_numeral_some]. revert w HP.
  destruct (Poller.chains self _) as [origin|] eqn:Hc; [|apply defer_for_follows].
  eapply triple_bind; [apply relay_call_follows|]. intros status w [HP _]. revert w HP.
  eapply triple_bind; [apply (triple_clock (following l))|]. intros t w [HP _]. revert w HP.
  destruct (IntentStatus.state status).
  - apply defer_until_follows.
  - apply defer_until_follows.
  - eapply triple_bind; [apply relay_call_follows|]. intros [record|] w [HP _]; revert w HP.
    + by apply resolve_follows.
    + apply defer_until_follows.
  - apply triple_drop, fail_follows. by right.
  - apply triple_drop, fail_follows. by left.
Qed.

Lemma for_each_follows l (body : Uuid * RelayIntent.t -> poller unit) :
  (forall x, x ∈ l -> triple (follows l) (body x) (fun _ => follows l) (fun _ => follows l)) ->
  triple (follows l) (for_each body l) (fun _ => follows l) (fun _ => follows l).
Proof.
  intros Hb. assert (forall l', l' ⊆ l -> triple (follows l) (for_each body l') (fun _ => follows l) (fun _ => follows l)) as H;
    [|by apply H].
  induction l' as [|x l' IH]; intros Hsub; simpl; [by apply triple_ret|].
  eapply triple_bind; [apply Hb, Hsub; by left|]. intros u. apply IH. intros y Hy. apply Hsub. by right.
Qed.

(** Rows that were just read have the terms they were read with. *)
Lemma following_read l l' db :
  following l db -> (forall id i, (id, i) ∈ l' -> Db.relay_intents db !! id = Some i) -> following l' db.
Proof. intros [H1 _] Hl. split; [done|]. intros id i Hin. exists i. by split; [apply Hl|]. Qed.

Lemma select_follows {A} (f : Timestamp -> Db.t -> A) :
  triple (follows []) (select self f)
    (fun a w => following [] (World.db w) /\ exists now, a = f now (World.db w)) (fun _ => follows []).
Proof.
  eapply triple_weaken; [apply (triple_query PollDatabase _ (following []) (following_others []))|done| |done].
  intros a w [HP (n & db & _ & <- & [= <-])]. split; [done|]. by eexists.
Qed.

(** Read a list of rows and work through it. *)
Lemma listed_follows (f : Timestamp -> Db.t -> list (Uuid * RelayIntent.t))
    (body : Uuid * RelayIntent.t -> poller unit) :
  (forall now db id i, (id, i) ∈ f now db -> Db.relay_intents db !! id = Some i) ->
  (forall l x, x ∈ l -> triple (follows l) (body x) (fun _ => follows l) (fun _ => follows l)) ->
  triple (follows [])
    (work_through (select self f) body) (fun _ => follows []) (fun _ => follows []).
Proof.
  intros Hf Hb. unfold work_through. eapply triple_bind with
    (M := fun rows w => following (match rows with Ok l => l | Err _ => [] end) (World.db w)).
  - eapply triple_attempt; [apply select_follows| |done].
    intros a w [HP [now ->]]. eapply following_read; [exact HP|]. intros id i. apply Hf.
  - assert (forall l e, following l e -> following [] e) as Hdrop.
    { intros l e [H _]. split; [done|]. by intros ? ? ?%not_elem_of_nil. }
    intros [l|e]; [|by apply triple_ret].
    eapply triple_weaken; [apply for_each_follows, Hb|done|intros u w; apply Hdrop|intros e w; apply Hdrop].
Qed.

Lemma stale_rows chain cutoff now db id i :
  (id, i) ∈ stale_sent chain cutoff now db -> Db.relay_intents db !! id = Some i.
Proof. intros H. apply list_elem_of_In, filter_In in H as [H _]. by apply list_elem_of_In, elem_of_map_to_list in H. Qed.

Lemma due_rows chain limit now db id i :
  (id, i) ∈ due_for_poll chain limit now db ->
  Db.relay_intents db !! id = Some i /\ is_due (as_i64 chain) now db i = true.
Proof.
  unfold due_for_poll. intros H%subseteq_take.
  rewrite (merge_sort_Permutation due_before) in H. apply list_elem_of_In, filter_In in H as [H Hd].
  by apply list_elem_of_In, elem_of_map_to_list in H.
Qed.

Lemma pass_follows chain :
  triple (follows []) (RelayPoller.pass self chain) (fun _ => follows []) (fun _ => follows []).
Proof.
  unfold RelayPoller.pass. eapply triple_bind.
  - apply triple_try, write_follows. intros now db a db' _ [= <- <-]. apply expire_serves.
  - intros u. eapply triple_bind.
    + apply listed_follows; [intros now db id i; apply stale_rows|].
      intros l [id i] _. apply triple_drop, triple_try, fail_follows. by left.
    + intros u2. destruct (Poller.relay self) as [relay|]; [|by apply triple_ret].
      apply listed_follows; [by intros now db id i [H _]%due_rows|]. intros l x Hx.
      eapply triple_bind; [apply triple_try, poll_follows, Hx|].
      intros [v|e]; [by apply triple_ret|apply defer_for_follows].
Qed.

Lemma round_follows :
  triple (follows []) (RelayPoller.round self) (fun _ => follows []) (fun _ => follows []).
Proof.
  unfold RelayPoller.round. induction (ChainRegistry.chains (Poller.registry self)) as [|chain rest IH]; [by apply triple_ret|].
  eapply triple_bind; [apply pass_follows|]. intros u. exact IH.
Qed.

End Pass.

(** A round of the poller over every chain, however it ends and whatever Relay
    and the nodes answer, is a history of ledger transactions in which an intent
    is filled only on a receipt of its origin chain; Relay's own word fills
    nothing. *)
Lemma poller_refines_ledger self payload_hash parse_address hex w :
  (forall n db, rtc (served_step (Poller.chains self) payload_hash parse_address hex) db (Poller.others self n db)) ->
  rtc (served_step (Poller.chains self) payload_hash parse_address hex) (World.db w) (World.db (snd (RelayPoller.round self w))).
Proof.
  intros Hothers. pose proof (round_follows self payload_hash parse_address hex Hothers (World.db w) w) as H.
  destruct (RelayPoller.round self w) as [[u|e] w']; (destruct H; [|done]); split; try constructor;
    by intros ? ? ?%not_elem_of_nil.
Qed.

(** ** The server's histories: rounds of pollers among the other transactions *)

Section Serving.
Context (chains : Z -> option Node.t).
Context (payload_hash : Message -> B256) (parse_address : string -> option Address) (hex : B256 -> string).

Abbreviation step := (ledger_step payload_hash parse_address hex).
Abbreviation served := (served_step chains payload_hash parse_address hex).

Lemma same_intents_fill_nothing db db' : Db.relay_intents db' = Db.relay_intents db -> fills_nothing db db'.
Proof. intros E id i. rewrite E. eauto. Qed.

(** Reporting a payment fills nothing. *)
Lemma mark_sent_fills_nothing id invoice wallet hash now db r db' :
  mark_sent id invoice wallet hash now db = Ok (r, db') -> fills_nothing db db'.
Proof.
  unfold mark_sent. intros H. destruct (Db.relay_intents db !! id) as [i|] eqn:Hi; [|inv_ok; by apply same_intents_fill_nothing].
  destruct (negb _); [inv_ok; by apply same_intents_fill_nothing|].
  destruct (report_outcome hash i) as [outcome i1] eqn:Ho.
  assert (RelayIntent.status i1 = RelayIntent.status i) as E1 by (unfold report_outcome in Ho; repeat case_match; by simplify_eq).
  set (i2 := match RelayIntent.status i1 with Quoted | RelayExpired => _ | _ => _ end) in H.
  assert (RelayIntent.status i2 = Filled -> RelayIntent.status i = Filled) as E2
    by (unfold i2; rewrite E1; repeat case_match; cbn; congruence).
  destruct outcome, (verified_fill i2); inv_ok; try discriminate; try by apply same_intents_fill_nothing.
  all: by eapply fills_nothing_insert.
Qed.

(** [resolve_filled] is the only transaction of the ledger that fills an intent. *)
Lemma only_a_fill_fills db db' : step db db' ->
  fills_nothing db db' \/ exists id fills tx status now r, resolve_filled id fills tx status now db = Ok (r, db').
Proof.
  intros [H|[H|(?&?&?&?&?&?&?&?&H)]]%ledger_step_relay.
  - left. apply same_intents_fill_nothing, (rk_intents _ _ H).
  - destruct H as [new now r db' H| | | |id fills tx status now r db' H|id s status now r db' Hs H].
    + left. unfold insert in H. destruct (Db.relay_intents db !! NewRelayIntent.id new) eqn:Hn; [done|]. cbn in H.
      repeat case_match; inv_ok. intros id i Hi Hf. cbn in Hi. apply lookup_insert_Some in Hi as [[<- <-]|[_ Hi]]; [done|eauto].
    + left. by eapply mark_sent_fills_nothing.
    + left. apply defer_fills_nothing.
    + left. apply expire_fills_nothing.
    + right. eauto 10.
    + left. by eapply failed_fills_nothing.
  - left. by eapply same_intents_fill_nothing, range_intents.
Qed.

(** A transaction of the ledger that fills no intent, or a round of a poller
    that asks these nodes, with such transactions, and rounds of other pollers,
    between its statements. *)
Inductive serves : Db.t -> Db.t -> Prop :=
| serves_other db db' : step db db' -> fills_nothing db db' -> serves db db'
| serves_round self n db : Poller.chains self = chains -> (forall m d, rtc serves d (Poller.others self m d)) ->
    serves db (World.db (snd (RelayPoller.round self (World.mk db n)))).

Lemma round_served self n db : Poller.chains self = chains -> (forall m d, rtc served d (Poller.others self m d)) ->
  rtc served db (World.db (snd (RelayPoller.round self (World.mk db n)))).
Proof. intros <-. apply (poller_refines_ledger self payload_hash parse_address hex (World.mk db n)). Qed.

(** Every round proves its fills, so the histories do. *)
Lemma serves_served : forall db db', serves db db' -> rtc served db db'.
Proof.
  fix IH 3. intros db db' [d d' Hs Hn|self n d Hc Ho]; [by apply rtc_once, served_other|].
  apply (round_served self n d Hc). intros m e. generalize (Ho m e). generalize (Poller.others self m e). revert e. clear -IH.
  fix go 3. intros e e' [x|x y z Hxy Hyz]; [apply rtc_refl|]. exact (PreOrder_Transitive x y z (IH x y Hxy) (go y z Hyz)).
Qed.

Lemma all_served db db' : rtc serves db db' -> rtc served db db'.
Proof. induction 1 as [|a b c Hab _ IHr]; [apply rtc_refl|]. etrans; [by apply serves_served|done]. Qed.

(** C16. In every state the server reaches, a transfer that is attributed to a
    payer's relay payment was paid by the payer.  The server's histories are those
    of the ledger's other transactions, which fill no intent, and of rounds of the
    poller, with others between its statements, whatever Relay answers.  The
    transfer's intent is for the transfer's request and exact amount, and an answer
    of the node of the intent's origin chain is a receipt of a successful
    transaction, signed by the attested wallet, that moved exactly the quoted amount
    of the quoted token out of that wallet; no other intent claims that
    transaction. *)
Theorem attributed_transfers_paid db0 db k o id :
  no_relay db0 -> rtc serves db0 db ->
  Db.payment_observations db !! k = Some o -> Observation.relay_intent_id o = Some id ->
  exists i origin_tx, Db.relay_intents db !! id = Some i /\
    RelayIntent.invoice_id i = Observation.invoice_id o /\
    RelayIntent.quoted_out_amount i = Observation.amount o /\
    RelayIntent.verified_origin_tx_hash i = Some origin_tx /\ receipt_proves chains i origin_tx /\
    forall id' i', Db.relay_intents db !! id' = Some i' ->
      RelayIntent.origin_chain_id i' = RelayIntent.origin_chain_id i ->
      RelayIntent.verified_origin_tx_hash i' = Some origin_tx -> id' = id.
Proof.
  intros H0 Hr%all_served Hk Hid. pose proof (ledger_steps_relay_ok _ _ _ _ _ (served_runs _ _ _ _ _ _ Hr) (no_relay_ok _ H0)) as [R1 _ R3].
  destruct (or_attributed _ _ _ (R1 k o Hk) id Hid) as (_ & i & Hi & X1 & X2 & X3 & _).
  assert (fills_proved chains db0) as P0 by (intros ? ?; by rewrite (proj2 H0)).
  destruct (served_runs_proved _ _ _ _ _ _ Hr P0 id i Hi X1) as (tx & Hv & Hp).
  exists i, tx. split_and!; try done. intros id' i' Hi' Hc Hv'. by eapply R3.
Qed.

End Serving.

(** ** A pass leaves no due intent behind *)

Section Progress.
Context (self : Poller.t) (t0 : Timestamp).
Context (clock_from : forall n, t0 <= Poller.utc_now self n)
        (others_apart : forall n db, Db.relay_intents (Poller.others self n db) = Db.relay_intents db).

(** The intent is resolved, or will not be asked about for a poll interval. *)
Definition attended id db : Prop :=
  forall i, Db.relay_intents db !! id = Some i -> is_unresolved (RelayIntent.status i) = true ->
    exists t, RelayIntent.next_check_at i = Some t /\ t0 + RELAY_POLL <= t.

Definition all_attended (l : list Uuid) db : Prop := forall id, id ∈ l -> attended id db.

Abbreviation attends l := (fun w => all_attended l (World.db w)) (only parsing).

Lemma attended_others l n db : all_attended l db -> all_attended l (Poller.others self n db).
Proof. intros H id Hid i. rewrite others_apart. by apply H. Qed.

(** A write of one intent attends to it, when it resolves or defers it, and
    keeps the others as they are. *)
Lemma attended_insert l id i' db db' :
  Db.relay_intents db' = <[id := i']> (Db.relay_intents db) ->
  (is_unresolved (RelayIntent.status i') = true ->
     exists t, RelayIntent.next_check_at i' = Some t /\ t0 + RELAY_POLL <= t) ->
  all_attended l db -> all_attended (id :: l) db'.
Proof.
  intros E Hi H id' Hid i Hl. rewrite E in Hl. apply lookup_insert_Some in Hl as [[<- <-]|[Hne Hl]]; [done|].
  apply elem_of_cons in Hid as [->|Hid]; [done|]. by apply (H id').
Qed.

(** Nothing was written because there is nothing to attend to. *)
Lemma attended_same l id db :
  (forall i, Db.relay_intents db !! id = Some i -> is_unresolved (RelayIntent.status i) = false) ->
  all_attended l db -> all_attended (id :: l) db.
Proof.
  intros Hn H id' [->|Hid]%elem_of_cons; [|by apply H]. intros i Hi Hu. by rewrite (Hn i Hi) in Hu.
Qed.

Lemma attended_less l id db : all_attended (id :: l) db -> all_attended l db.
Proof. intros H id' Hid. apply H. by right. Qed.

Lemma defer_attends l id next status db :
  t0 + RELAY_POLL <= next -> all_attended l db -> all_attended (id :: l) (defer id next status db).
Proof.
  intros Hn H. unfold defer. destruct (Db.relay_intents db !! id) as [i|] eqn:Hi.
  - destruct (is_unresolved (RelayIntent.status i)) eqn:Hu.
    + apply (attended_insert l id (deferred next status i) db); [done|simpl; eauto|done].
    + apply attended_same; [|done]. intros j Hj. congruence.
  - apply attended_same; [|done]. intros j Hj. congruence.
Qed.

Lemma failed_attends l id s status now db r db' :
  s = RelayFailed \/ s = Refunded -> resolve_failed id s status now db = Ok (r, db') ->
  all_attended l db -> all_attended (id :: l) db'.
Proof.
  intros Hs H Hall. unfold resolve_failed, lock_intent in H.
  destruct (Db.relay_intents db !! id) as [i|] eqn:Hi; [|inv_ok; apply attended_same; [intros j Hj; congruence|done]].
  destruct (is_unresolved (RelayIntent.status i)) eqn:Hu; simpl in H;
    [|inv_ok; apply attended_same; [intros j Hj; congruence|done]].
  destruct (negb _); [discriminate|]. destruct (unpark_unless_pending _ _ _) as [m db3] eqn:Hp. inv_ok.
  apply (attended_insert l id (unfilled s status now i) db); [|by destruct Hs as [-> | ->]|done].
  change db' with (snd (m, db')). rewrite <- Hp. apply unpark_intents.
Qed.

(** Filling attends to the intent unless its transaction is claimed, and
    never neglects another. *)
Lemma filled_attends l id fills tx status now db r db' :
  fills <> [] -> resolve_filled id fills tx status now db = Ok (r, db') -> all_attended l db ->
  all_attended l db' /\ (r <> FrOriginTransactionClaimed -> all_attended (id :: l) db').
Proof.
  intros Hne H Hall. destruct (resolve_filled_intents _ _ _ _ _ _ _ _ H) as [[E Hw]|(i & Hi & E)].
  - assert (forall l', all_attended l' db -> all_attended l' db') as Hkeep.
    { intros l' Hl id' Hid i. rewrite E. by apply Hl. }
    split; [by apply Hkeep|]. intros Hr. apply Hkeep, attended_same; [|done].
    by destruct Hw as [?|[?|Hw]].
  - pose proof (attended_insert l id _ db db' E ltac:(done) Hall) as Hall'.
    split; [by eapply attended_less|done].
Qed.

(** A transaction of the poller: it keeps what is attended, and adds what its
    write attends to. *)
Lemma write_attends {A} l l' (f : Timestamp -> Db.t -> result DbError (A * Db.t)) (Q : A -> Prop) :
  (forall now db a db', all_attended l db -> f now db = Ok (a, db') ->
     all_attended l db' /\ (Q a -> all_attended l' db')) ->
  triple (attends l) (write self f)
    (fun a w => all_attended l (World.db w) /\ (Q a -> all_attended l' (World.db w))) (fun _ => attends l).
Proof.
  intros Hf. apply (triple_transact _ (all_attended l) (attended_others l)). intros n db a db' HP. unfold db_result.
  destruct (f _ db) as [[x d]|] eqn:Hr; [|discriminate]. intros [= -> ->]. simpl. by eapply Hf.
Qed.

Lemma defer_until_attends l id next status :
  t0 + RELAY_POLL <= next ->
  triple (attends l) (defer_until self id next status) (fun _ => attends (id :: l)) (fun _ => attends l).
Proof.
  intros Hn. eapply triple_weaken; [apply (write_attends l (id :: l) _ (fun _ => True))|done|naive_solver|done].
  intros now db a db' HP [= _ <-]. pose proof (defer_attends l id next status db Hn HP) as H.
  split; [by eapply attended_less|done].
Qed.

Lemma fail_attends l id s status :
  s = RelayFailed \/ s = Refunded ->
  triple (attends l) (let* _ := fail_intent self id s status in ret tt) (fun _ => attends (id :: l)) (fun _ => attends l).
Proof.
  intros Hs. eapply triple_bind; [apply (write_attends l (id :: l) _ (fun _ => True))|].
  - intros now db a db' HP Hr. pose proof (failed_attends l id s status now db a db' Hs Hr HP) as H.
    split; [by eapply attended_less|done].
  - intros a. apply triple_ret. naive_solver.
Qed.

Lemma defer_for_attends l id backoff status :
  RELAY_POLL <= backoff ->
  triple (attends l) (defer_for self id backoff status) (fun _ => attends (id :: l)) (fun _ => attends (id :: l)).
Proof.
  intros Hb w HP. unfold defer_for, bind at 1, clock.
  assert (t0 + RELAY_POLL <= Poller.utc_now self (World.tick w) + backoff) as Hn by (pose proof (clock_from (World.tick w)); lia).
  pose proof (defer_until_attends l id _ status Hn w HP) as H. revert H.
  unfold bind, attempt, defer_until, write, update, transact, db_result. done.
Qed.

Lemma call_attends {A} l (c : eff PollError World.t A) :
  (forall w, World.db (snd (c w)) = World.db w) ->
  triple (attends l) c (fun _ => attends l) (fun _ => attends l).
Proof. intros Hc w HP. specialize (Hc w). destruct (c w) as [[a|e] w']; simpl in Hc; by rewrite Hc. Qed.

Lemma relay_call_apart {A} (f : nat -> result RelayError A) w : World.db (snd (relay_call f w)) = World.db w.
Proof. unfold relay_call, bind, lift. simpl. by destruct (f (World.tick w)). Qed.

Lemma chain_call_apart {A} (f : nat -> result ChainError A) w : World.db (snd (chain_call f w)) = World.db w.
Proof. unfold chain_call, bind, lift. simpl. by destruct (f (World.tick w)). Qed.

Lemma examine_apart origin currency wallet quoted_in candidates : forall successful foreign w,
  World.db (snd (examine origin currency wallet quoted_in candidates successful foreign w)) = World.db w.
Proof.
  induction candidates as [|c rest IH]; intros successful foreign w; [done|]. simpl. unfold bind.
  pose proof (chain_call_apart (fun n => Node.token_payment_receipt origin n c currency) w) as E.
  destruct (chain_call _ w) as [[[r|]|e] w1]; simpl in *; [|done|done]. rewrite <- E. repeat case_match; by rewrite ?IH.
Qed.

Lemma resolve_attends l id i origin currency wallet quoted_in later raw record :
  t0 + RELAY_POLL <= later ->
  triple (attends l) (resolve self id i origin currency wallet quoted_in later raw record)
    (fun _ => attends (id :: l)) (fun _ => attends l).
Proof.
  intros Hn. unfold resolve. destruct (on_chain (as_u64 (RelayIntent.destination_chain_id i)) _) as [|f fs] eqn:Hf.
  { rewrite orb_true_r. simpl. by apply defer_until_attends. }
  destruct (_ || _); [by apply defer_until_attends|].
  eapply triple_bind; [apply call_attends, examine_apart|]. intros [|tx|successful foreign]; [by apply defer_until_attends| |].
  - eapply triple_bind; [apply (write_attends l (id :: l) _ (fun r => r <> FrOriginTransactionClaimed))|].
    + intros now db a db' HP Hr. by apply (filled_attends l id (f :: fs) tx raw now db a db').
    + intros [res| |].
      * apply triple_ret. naive_solver.
      * apply triple_ret. naive_solver.
      * intros w [HP _]. revert w HP. apply fail_attends. by left.
  - destruct (_ && _); [|by apply defer_until_attends]. apply fail_attends. by left.
Qed.

Lemma poll_attends l relay id i :
  triple (attends l) (poll self relay (id, i)) (fun _ => attends (id :: l)) (fun _ => attends l).
Proof.
  unfold poll. do 4 (eapply triple_bind; [apply call_attends; by intros w|intros ?]).
  destruct (Poller.chains self _) as [origin|].
  2: { eapply triple_weaken; [apply (defer_for_attends l); vm_compute; discriminate|done|done|]. intros e w. apply attended_less. }
  eapply triple_bind; [apply call_attends, relay_call_apart|]. intros status.
  eapply triple_bind; [apply (triple_clock (all_attended l))|]. intros t w [HP [n ->]]. revert w HP.
  assert (t0 + RELAY_POLL <= Poller.utc_now self n + RELAY_POLL) as Hn by (pose proof (clock_from n); lia).
  destruct (IntentStatus.state status); try by apply defer_until_attends.
  - eapply triple_bind; [apply call_attends, relay_call_apart|]. intros [record|].
    + by apply resolve_attends.
    + by apply defer_until_attends.
  - apply fail_attends. by right.
  - apply fail_attends. by left.
Qed.

Lemma poll_or_defer_attends l relay x (X : PollError -> World.t -> Prop) :
  triple (attends l) (poll_or_defer self relay x) (fun _ => attends (fst x :: l)) X.
Proof.
  destruct x as [id i]. unfold poll_or_defer.
  eapply triple_bind with (M := fun r w => match r with Ok _ => all_attended (id :: l) (World.db w)
                                                   | Err _ => all_attended l (World.db w) end).
  - by eapply triple_attempt; [apply poll_attends| |].
  - intros [u|e]; [by apply triple_ret|]. simpl. intros w HP.
    pose proof (defer_for_attends l id RELAY_ERROR_BACKOFF None ltac:(vm_compute; discriminate) w HP) as H.
    revert H. unfold defer_for, bind, clock, attempt. by destruct (defer_until _ _ _ _ _).
Qed.

Lemma for_each_attends relay rows : forall l (X : PollError -> World.t -> Prop),
  triple (attends l) (for_each (poll_or_defer self relay) rows)
    (fun _ w => all_attended (rev (fst <$> rows) ++ l) (World.db w)) X.
Proof.
  induction rows as [|x rows IH]; intros l X; simpl; [by apply triple_ret|].
  eapply triple_bind; [apply poll_or_defer_attends|]. intros u.
  eapply triple_weaken; [apply (IH (fst x :: l) X)|done| |done]. intros v w. by rewrite <- app_assoc.
Qed.

(** ** What housekeeping leaves of a sent intent *)

Context (chain : Z) (id0 : Uuid) (i0 : RelayIntent.t) (t1 : Timestamp) (ahead : list Uuid).
Context (sent0 : RelayIntent.status i0 = Sent) (there0 : RelayIntent.destination_chain_id i0 = as_i64 chain).

(** An intent a pass from [t1] on may take before [i0]: it heads for the chain, is
    sent, or a quote that ended less than a day ago, and is not checked later. *)
Definition goes_before id i : Prop :=
  id <> id0 /\ RelayIntent.destination_chain_id i = as_i64 chain /\
  match RelayIntent.status i with
  | Sent => True
  | Quoted | RelayExpired => t1 - DAY <= RelayIntent.expires_at i
  | _ => False
  end /\ due_before (id, i) (id0, i0).

Record still_there db : Prop := {
  st_intent : exists i, Db.relay_intents db !! id0 = Some i /\
    (i = i0 \/ is_unresolved (RelayIntent.status i) = false);
  st_ahead : forall id i, Db.relay_intents db !! id = Some i -> goes_before id i -> id ∈ ahead;
}.

Lemma still_there_others n db : still_there db -> still_there (Poller.others self n db).
Proof. intros [H1 H2]. split; by rewrite others_apart. Qed.

Lemma expire_still now db : still_there db -> still_there (snd (expire_quoted chain now db)).
Proof.
  intros [(i & Hi & Hc) H2]. split; simpl.
  - rewrite lookup_update_where, Hi. simpl. eexists. split; [done|]. unfold quote_overdue.
    destruct Hc as [->|Hu]; [rewrite sent0; rewrite bool_decide_false, andb_false_r by done; by left|].
    right. case_bool_decide as Hq; [by rewrite Hq in Hu|]. by rewrite andb_false_r.
  - intros id j. rewrite lookup_update_where. destruct (Db.relay_intents db !! id) as [k|] eqn:Hk; [|done].
    simpl. intros [= <-] (Hne & Hd & Hs & Hb). eapply (H2 id k); [done|].
    destruct (quote_overdue _ _ k) eqn:Hq; [|done]. unfold quote_overdue in Hq. bools.
    split_and!; [done..| |done]. by match goal with H : RelayIntent.status k = Quoted |- _ => rewrite H end.
Qed.

Lemma fail_still id s status now db r db' :
  s = RelayFailed \/ s = Refunded -> resolve_failed id s status now db = Ok (r, db') -> still_there db -> still_there db'.
Proof.
  intros Hs H [(i & Hi & Hc) H2]. unfold resolve_failed, lock_intent in H.
  destruct (Db.relay_intents db !! id) as [j|] eqn:Hj; [|inv_ok; split; eauto].
  destruct (negb (is_unresolved _)); [inv_ok; split; eauto|]. destruct (negb _); [discriminate|].
  destruct (unpark_unless_pending _ _ _) as [m db3] eqn:Hp. inv_ok.
  assert (Db.relay_intents db' = <[id := unfilled s status now j]> (Db.relay_intents db)) as E.
  { change db' with (snd (m, db')). rewrite <- Hp. apply unpark_intents. }
  split; rewrite E.
  - destruct (decide (id0 = id)) as [->|Hne]; [rewrite lookup_insert_eq|by rewrite lookup_insert_ne; eauto].
    eexists. split; [done|]. right. by destruct Hs as [-> | ->].
  - intros id' k [[<- <-]|[_ Hk]]%lookup_insert_Some; [|by apply H2].
    intros (_ & _ & Hst & _). by destruct Hs as [-> | ->].
Qed.

#[local] Instance due_before_trans : Transitive due_before.
Proof. intros a b c. unfold due_before. lia. Qed.

#[local] Instance due_before_total : Total due_before.
Proof. intros a b. unfold due_before. lia. Qed.

(** In a sorted list, what has fewer than [n] before it is among the first [n]. *)
Lemma taken_first {A K} (R : relation A) (key : A -> K) (l : list A) (x : A) (n : nat) (before : list K) :
  StronglySorted R l -> NoDup (key <$> l) -> x ∈ l -> (forall y, y ∈ l -> key y <> key x -> R y x -> key y ∈ before) ->
  (length before < n)%nat -> x ∈ take n l.
Proof.
  intros Hs Hnd (l1 & l2 & ->)%list_elem_of_split Hb Hn. rewrite fmap_app, fmap_cons in Hnd.
  apply list.NoDup_app in Hnd as (Hnd1 & Hsep & _).
  assert (length l1 <= length before)%nat as Hl.
  { rewrite <- (length_fmap key l1). apply NoDup_incl_length; [by apply NoDup_ListNoDup|]. intros k Hk%list_elem_of_In.
    apply list_elem_of_In. apply list_elem_of_fmap in Hk as (y & -> & Hy). apply Hb.
    - apply elem_of_app. by left.
    - intros E. apply (Hsep (key y)); [by apply list_elem_of_fmap_2|]. rewrite E. by left.
    - eapply StronglySorted_app_1_elem_of; [exact Hs|exact Hy|by left]. }
  replace n with (length l1 + S (n - length l1 - 1))%nat by lia. rewrite take_app_add. apply elem_of_app. right. by left.
Qed.

(** A read of the due intents does not leave it out. *)
Lemma due_listed now db :
  still_there db -> (length ahead < RELAY_POLL_BATCH)%nat -> check_at i0 <= now -> t1 <= now ->
  Db.relay_intents db !! id0 = Some i0 -> (id0, i0) ∈ due_for_poll chain RELAY_POLL_BATCH now db.
Proof.
  intros Hst Hlen Hnow Ht Hi. unfold due_for_poll. set (rows := List.filter _ _).
  apply (taken_first due_before fst _ _ _ ahead); [apply StronglySorted_merge_sort; apply _|..|done].
  - rewrite (merge_sort_Permutation due_before rows). apply NoDup_filter_key, NoDup_fst_map_to_list.
  - rewrite (merge_sort_Permutation due_before rows). apply list_elem_of_In, filter_In.
    split; [by apply list_elem_of_In, elem_of_map_to_list|]. unfold is_due. simpl.
    rewrite sent0, there0, Z.eqb_refl. simpl. rewrite andb_true_r. by apply Z.leb_le.
  - intros [id i] Hin Hne Hb. rewrite (merge_sort_Permutation due_before rows) in Hin.
    apply list_elem_of_In, filter_In in Hin as [Hr%list_elem_of_In%elem_of_map_to_list Hd]. unfold is_due in Hd. simpl in *. bools.
    apply (st_ahead _ Hst id i Hr). split_and!; [done|done| |done].
    destruct (RelayIntent.status i); bools; try done; lia.
Qed.

Abbreviation stays := (fun w => still_there (World.db w)) (only parsing).
Abbreviation never := (fun (_ : PollError) (_ : World.t) => False) (only parsing).

Lemma expire_stays :
  triple stays (attempt (write self (fun now db => Ok (expire_quoted chain now db)))) (fun _ => stays) never.
Proof.
  apply triple_try, (triple_update PollDatabase _ _ still_there still_there_others).
  intros now db a db' HP [= <- <-]. by apply expire_still.
Qed.

Lemma stale_stays read :
  triple stays read (fun _ => stays) (fun _ => stays) ->
  triple stays (work_through read (fail_stale self)) (fun _ => stays) never.
Proof.
  intros Hread. eapply triple_bind; [apply triple_try, Hread|]. intros [rows|e]; [|by apply triple_ret].
  induction rows as [|x rows IH]; simpl; [by apply triple_ret|]. eapply triple_bind; [|intros u; exact IH].
  apply triple_drop, triple_try, (triple_update PollDatabase _ _ still_there still_there_others).
  intros now db a db' HP Hr. eapply fail_still; [|exact Hr|exact HP]. by left.
Qed.

Lemma due_attends relay :
  (length ahead < RELAY_POLL_BATCH)%nat -> check_at i0 <= t1 -> (forall n, t1 <= Poller.database_now self n) ->
  triple stays (work_through (select self (due_for_poll chain RELAY_POLL_BATCH)) (poll_or_defer self relay))
    (fun _ w => attended id0 (World.db w)) never.
Proof.
  intros Hlen Hdue Hnow. unfold work_through. eapply triple_bind with (M := fun rows w =>
    exists l, rows = Ok l /\ (id0 ∈ fst <$> l \/ attended id0 (World.db w))).
  - intros w HP. unfold attempt, select, query, transact, db_result. simpl. eexists. split; [done|].
    apply (still_there_others (World.tick w)) in HP. destruct (st_intent _ HP) as (i & Hi & [->|Hu]).
    + left. pose proof (due_listed _ _ HP Hlen (Z.le_trans _ _ _ Hdue (Hnow (World.tick w))) (Hnow (World.tick w)) Hi) as H. by apply (list_elem_of_fmap_2 fst) in H.
    + right. intros j Hj Hu'. simpl in *. congruence.
  - intros rows w (l & -> & Hcase).
    assert (exists l0, all_attended l0 (World.db w) /\ id0 ∈ rev (fst <$> l) ++ l0) as (l0 & Hall & Hin).
    { destruct Hcase as [Hin|Ha]; [exists []|exists [id0]]; split.
      - by intros ? ?%not_elem_of_nil.
      - apply elem_of_app. left. apply list_elem_of_In. rewrite <- in_rev. by apply list_elem_of_In.
      - by intros ? ->%list_elem_of_singleton.
      - apply elem_of_app. right. by left. }
    pose proof (for_each_attends relay l l0 never w Hall) as H.
    assert (match for_each (poll_or_defer self relay) l w with
            | (Ok _, w') => attended id0 (World.db w') | (Err _, _) => False end) as Hgoal; [|exact Hgoal].
    destruct (for_each _ l w) as [[u|e] w']; [by apply H|done].
Qed.

End Progress.

(** C36. A pass never fails and neglects no payment whose turn it is.  Take a
    server with Relay configured and a sent intent for the chain that was due when
    the pass began, with fewer than twenty intents before it in the order of their
    check times (sent ones for the chain, and quotes for it that ended less than a
    day ago), and nobody else writing intents while the pass runs.  Then the intent
    is resolved when the pass ends, or it will not be asked about again for a poll
    interval, whatever Relay and the nodes answer for it or for the others. *)
Theorem due_intents_attended self relay t0 t1 chain w id i ahead :
  Poller.relay self = Some relay ->
  (forall n, t0 <= Poller.utc_now self n) -> (forall n, t1 <= Poller.database_now self n) ->
  (forall n db, Db.relay_intents (Poller.others self n db) = Db.relay_intents db) ->
  Db.relay_intents (World.db w) !! id = Some i -> RelayIntent.status i = Sent ->
  RelayIntent.destination_chain_id i = as_i64 chain -> check_at i <= t1 ->
  (forall id' i', Db.relay_intents (World.db w) !! id' = Some i' -> goes_before chain id i t1 id' i' -> id' ∈ ahead) ->
  (length ahead < 20)%nat ->
  fst (RelayPoller.pass self chain w) = Ok tt /\
  attended t0 id (World.db (snd (RelayPoller.pass self chain w))).
Proof.
  intros Hrelay Hutc Hdb Hothers Hi Hs Hd Hdue Hh Hlen.
  assert (triple (fun w => still_there chain id i t1 ahead (World.db w)) (RelayPoller.pass self chain)
    (fun _ w => attended t0 id (World.db w)) (fun _ _ => False)) as H.
  2: { specialize (H w ltac:(split; eauto)). by destruct (RelayPoller.pass self chain w) as [[[]|e] w']. }
  unfold RelayPoller.pass. rewrite Hrelay.
  eapply triple_bind; [by apply expire_stays|]. intros r.
  eapply triple_bind; [apply stale_stays; [done|]|intros u; by apply due_attends].
  eapply triple_weaken; [apply (triple_query PollDatabase _ (still_there chain id i t1 ahead))|done|by intros a w' [? _]|done].
  by apply still_there_others.
Qed.

(** ** An example: the payment of [RelayExample], followed by the poller *)

Module PollerExample.
Import LedgerExample RelayExample.

Definition receipt : TokenPaymentReceipt.t :=
  TokenPaymentReceipt.mk origin_tx wallet (TransactionOutcome.mk true 7 (replicate 32 8))
    [TokenTransfer.mk 0 wallet solver 61].

Definition origin_node : Node.t :=
  {| Evidence.EvidenceExample.node with
     Node.token_payment_receipt n tx currency :=
       if bool_decide (tx = origin_tx) then Ok (Some receipt) else Ok None |}.

Definition relay_api : RelayApi.t :=
  RelayApi.mk (fun _ => Ok []) (fun _ _ => Err (RelayTransport "no quotes"))
    (fun _ _ => Ok (IntentStatus.mk IntentSuccess "success" [origin_tx] [fill_tx]))
    (fun _ _ => Ok (Some (RelayRequest.mk "success" [(10, origin_tx)] [(chain, fill_tx)]))).

Definition poller : Poller.t :=
  Poller.mk (Some relay_api) (fun c => if c =? 10 then Some origin_node else None)
    (ChainRegistry.mk [ChainConfig.mk chain [] [] [3] [4] [5] 100 Latest 20 2000 100 None None None None None None])
    (fun _ db => db) (fun _ => 2100) (fun _ => 2100).

Definition passed : result PollError unit * World.t := RelayPoller.pass poller chain (World.mk parked 0).

Example poller_fills : World.db (snd (RelayPoller.round poller (World.mk parked 0))) = filled_state.
Proof. vm_compute. reflexivity. Qed.

#[local] Abbreviation serving := (serves (Poller.chains poller) hash parse hex).

Definition none_filled (db : Db.t) : bool :=
  forallb (fun kv => negb (bool_decide (RelayIntent.status (snd kv) = Filled))) (map_to_list (Db.relay_intents db)).

Lemma none_filled_nothing db db' : none_filled db' = true -> fills_nothing db db'.
Proof.
  intros H id i Hi Hf. unfold none_filled in H. rewrite forallb_forall in H.
  specialize (H (id, i) (proj1 (list_elem_of_In _ _) (proj2 (elem_of_map_to_list _ _ _) Hi))).
  simpl in H. by rewrite bool_decide_true in H.
Qed.

(** The history of [RelayExample.run_parked]: nothing is filled on the way. *)
Lemma served_parked : rtc serving start parked.
Proof.
  eapply rtc_l; [apply serves_other; [eapply (step_issue _ _ _ start attested None 1000 1000); vm_compute; reflexivity|]|].
  { by apply none_filled_nothing. }
  eapply rtc_l; [apply serves_other; [apply step_verification; eapply (vs_create _ token_hash 30 "token" 2 PAYER_SESSION_TTL 1100); vm_compute; reflexivity|]|].
  { by apply none_filled_nothing. }
  eapply rtc_l; [apply serves_other; [eapply (step_bind_wallet _ _ _ _ 2 30 31 binding 1200 1200); vm_compute; reflexivity|]|].
  { by apply none_filled_nothing. }
  eapply rtc_l; [apply serves_other; [apply step_relay; eapply (rs_insert _ quote 1300); vm_compute; reflexivity|]|].
  { by apply none_filled_nothing. }
  eapply rtc_l; [apply serves_other; [apply step_relay; eapply (rs_mark_sent _ 40 2 wallet origin_tx 1400); vm_compute; reflexivity|]|].
  { by apply none_filled_nothing. }
  eapply rtc_once, serves_other; [eapply (step_range _ _ _ _ chain None 110 block_hash 1900000000
    [solver_pays fill_tx 100; solver_pays [17] 102; solver_pays [18] 101] 2000);
    [by repeat constructor|vm_compute; reflexivity]|by apply none_filled_nothing].
Qed.

Lemma served_filled : rtc serving start filled_state.
Proof.
  eapply rtc_r; [exact served_parked|]. rewrite <- poller_fills. by apply (serves_round _ _ _ _ poller 0).
Qed.

Lemma attributed_transfers_paid_witness :
  exists i tx, Db.relay_intents filled_state !! 40 = Some i /\ RelayIntent.quoted_out_amount i = 60 /\
    receipt_proves (Poller.chains poller) i tx.
Proof.
  destruct (attributed_transfers_paid (Poller.chains poller) hash parse hex start filled_state fill_key (observation_at fill_key filled_state) 40
    start_fresh served_filled ltac:(vm_compute; reflexivity) ltac:(vm_compute; reflexivity))
    as (i & tx & Hi & _ & Ha & _ & Hp & _).
  exists i, tx. split; [exact Hi|]. split; [exact Ha|exact Hp].
Defined.

Lemma due_intents_attended_witness : attended 2100 40 (World.db (snd passed)).
Proof.
  apply (due_intents_attended poller relay_api 2100 2100 chain (World.mk parked 0) 40 (intent_in parked) []);
    try (vm_compute; reflexivity); try (intros n; vm_compute; discriminate); try (vm_compute; discriminate).
  - intros id i Hi (Hne & _). apply elem_of_map_to_list in Hi. vm_compute in Hi. apply elem_of_cons in Hi as [[= -> _]|Hi];
      [done|by apply not_elem_of_nil in Hi].
  - vm_compute. lia.
Defined.

End PollerExample.
