(* ===== verification/InternalRpc.v ===== *)
(** * The indexer's RPC: the server's handlers and the client's retries

    Models [crates/gum-server/src/internal_rpc.rs], the handlers that apply
    what the indexer observes to the ledger, and [HttpLedger::call] of
    [crates/gum-indexer/src/ledger.rs], which retries a request whose response
    it never saw.

    A handler is a function of the database; what it commits before it fails
    stays. The network between client and server is a parameter: it may lose a
    request before the server saw it, or the response after the server
    committed, and other users of the database run between any two calls. *)

From stdpp Require Import pretty.
From S2P Require Import Prelude Core Contracts Bus Tables Registry Attachments Invoices Range Sweeps.
From S2P Require Import ChainFaults Effects.

Implicit Types (db : Db.t) (now : Timestamp).

(** ** Requests and answers ([gum-contracts], [rpc.rs]) *)

Module WatchListQuery.
Record t := mk { recent_since : Timestamp; known_fingerprint : option string }.
End WatchListQuery.

Module WatchList.
Record t := mk { fingerprint : string; addresses : option (list Address) }.
End WatchList.

Module FinalizedHeadReport.
Record t := mk { block : Z; block_hash : B256; block_timestamp : Z }.
End FinalizedHeadReport.

Module RecordFinalizedRange.
Record t := mk {
  expected_cursor : option IndexerCursor.t;
  end_block : Z;
  end_block_hash : B256;
  end_block_timestamp : Z;
  observations : list PaymentObservation.t;
}.
End RecordFinalizedRange.

Module ChainFaultReport.
Record t := mk { reason : string; block : option Z }.
End ChainFaultReport.

(** ** Authentication *)

(** The fold of [acc | (x ^ y)] over two byte strings of one length. *)
Definition constant_time_eq (a b : bytes) : bool :=
  if negb (Nat.eqb (length a) (length b)) then false
  else foldl (fun acc xy => Z.lor acc (Z.lxor (fst xy) (snd xy))) 0 (zip a b) =? 0.

(** ** The handlers

    An RPC error is its code; the message is for the log. *)

Section Handlers.
Context (payload_hash : Message -> B256).

Definition rejected {A} (r : result DbError A) : result RpcErrorCode A :=
  match r with Ok a => Ok a | Err _ => Err Unavailable end.

Definition known_chain (networks : ChainRegistry.t) (chain_id : Z) : result RpcErrorCode unit :=
  if is_some (ChainRegistry.get networks chain_id) then Ok tt else Err UnknownChain.

Context (networks : ChainRegistry.t).

Definition cursor (chain_id : Z) : eff RpcErrorCode Db.t (option IndexerCursor.t) :=
  fun db => (let! _ := known_chain networks chain_id in rejected (get_cursor chain_id db), db).

Definition fingerprint_text (fp : Z * option Timestamp) : string :=
  pretty (fst fp) +:+ ":" +:+ match snd fp with Some newest => pretty newest | None => "" end.

Definition watch_list (chain_id : Z) (query : WatchListQuery.t) : eff RpcErrorCode Db.t WatchList.t :=
  fun db =>
    (let! _ := known_chain networks chain_id in
     let since := WatchListQuery.recent_since query in
     let fingerprint := fingerprint_text (watch_fingerprint chain_id since db) in
     if bool_decide (WatchListQuery.known_fingerprint query = Some fingerprint)
     then Ok (WatchList.mk fingerprint None)
     else Ok (WatchList.mk fingerprint (Some (watch_addresses chain_id since db))), db).

(** Two committed statements: the chain's clock, then the expiry. *)
Definition finalized_head (chain_id : Z) (report : FinalizedHeadReport.t) (now : Timestamp)
  : eff RpcErrorCode Db.t unit :=
  fun db =>
    match known_chain networks chain_id with
    | Err e => (Err e, db)
    | Ok _ =>
        match record_finalized_head chain_id (FinalizedHeadReport.block report)
                (FinalizedHeadReport.block_hash report) (FinalizedHeadReport.block_timestamp report) db with
        | Err _ => (Err Unavailable, db)
        | Ok db1 => (Ok tt, snd (expire_unbound (FinalizedHeadReport.block_timestamp report) now db1))
        end
    end.

Definition finalized_range (chain_id : Z) (range : RecordFinalizedRange.t) (now : Timestamp)
  : eff RpcErrorCode Db.t RangeApplied :=
  transaction (fun db =>
    let! _ := known_chain networks chain_id in
    rejected (apply_finalized_range chain_id (RecordFinalizedRange.expected_cursor range)
      (RecordFinalizedRange.end_block range) (RecordFinalizedRange.end_block_hash range)
      (RecordFinalizedRange.end_block_timestamp range) (RecordFinalizedRange.observations range) now db)).

Definition fault (chain_id : Z) (report : ChainFaultReport.t) (correlation_id fault_id message_id : Uuid)
    (now : Timestamp) : eff RpcErrorCode Db.t unit :=
  transaction (fun db =>
    let! _ := known_chain networks chain_id in
    match raise payload_hash chain_id (ChainFaultReport.reason report) (ChainFaultReport.block report)
            correlation_id "gum-server" fault_id message_id now db with
    | Ok (_, db') => Ok (tt, db')
    | Err _ => Err Unavailable
    end).

End Handlers.

(** ** The client *)

Inductive LedgerError := LedgerTransport | LedgerRpc (code : RpcErrorCode).

Definition ledger_error_is_retryable (e : LedgerError) : bool :=
  match e with LedgerTransport => true | LedgerRpc code => rpc_is_retryable code end.

(** What becomes of one HTTP exchange. *)
Inductive Delivery := Delivered | RequestLost | ResponseLost.

(** The parameters that stand for the network, the clocks, the generators of
    identifiers and the other users of the database. *)
Module Wire.
Record t := mk {
  payload_hash : Message -> B256;
  networks : ChainRegistry.t;
  delivery : nat -> Delivery;
  others : nat -> Db.t -> Db.t;
  database_now : nat -> Timestamp;
  utc_now : nat -> Timestamp;
  fresh : nat -> Uuid;
}.
End Wire.

Section Client.
Context (wire : Wire.t).

Abbreviation client := (eff LedgerError World.t) (only parsing).

(** One exchange: [request.send()] and the decoding of its response. *)
Definition exchange {A} (handler : nat -> eff RpcErrorCode Db.t A) : client A :=
  fun w =>
    let n := World.tick w in
    let db0 := Wire.others wire n (World.db w) in
    let '(r, db1) := handler n db0 in
    match Wire.delivery wire n with
    | RequestLost => (Err LedgerTransport, World.mk db0 (S n))
    | ResponseLost => (Err LedgerTransport, World.mk db1 (S n))
    | Delivered =>
        (match r with Ok a => Ok a | Err code => Err (LedgerRpc code) end, World.mk db1 (S n))
    end.

(** The loop [for attempt in 1..=4]; [left] counts the attempts after this
    one. *)
Fixpoint call_loop {A} (left : nat) (handler : nat -> eff RpcErrorCode Db.t A) : client A :=
  let* r := attempt (exchange handler) in
  match r with
  | Ok a => ret a
  | Err e =>
      match left with
      | O => throw e
      | S left' => if ledger_error_is_retryable e then call_loop left' handler else throw e
      end
  end.

Definition http_call {A} (handler : nat -> eff RpcErrorCode Db.t A) : client A := call_loop 3 handler.

(** The methods of [IndexerLedger]. *)

Definition ledger_cursor (chain_id : Z) : client (option IndexerCursor.t) :=
  http_call (fun _ => cursor (Wire.networks wire) chain_id).

Definition ledger_watch_list (chain_id : Z) (query : WatchListQuery.t) : client WatchList.t :=
  http_call (fun _ => watch_list (Wire.networks wire) chain_id query).

Definition report_finalized_head (chain_id : Z) (report : FinalizedHeadReport.t) : client unit :=
  http_call (fun n => finalized_head (Wire.networks wire) chain_id report (Wire.database_now wire n)).

Definition record_finalized_range (chain_id : Z) (range : RecordFinalizedRange.t) : client RangeApplied :=
  http_call (fun n => finalized_range (Wire.networks wire) chain_id range (Wire.database_now wire n)).

Definition report_fault (chain_id : Z) (report : ChainFaultReport.t) : client unit :=
  http_call (fun n => fault (Wire.payload_hash wire) (Wire.networks wire) chain_id report
    (Wire.fresh wire (3 * n)) (Wire.fresh wire (3 * n + 1)) (Wire.fresh wire (3 * n + 2))
    (Wire.database_now wire n)).

End Client.

(** ** Properties *)

Lemma fold_lor_zero l acc :
  foldl (fun acc xy => Z.lor acc (Z.lxor (fst xy) (snd xy))) acc l = 0 <->
  acc = 0 /\ Forall (fun xy => fst xy = snd xy) l.
Proof.
  revert acc. induction l as [|[x y] l IH]; intros acc; simpl.
  - split; [by split|by intros [? _]].
  - rewrite IH, Z.lor_eq_0_iff, Z.lxor_eq_0_iff, list.Forall_cons. simpl. tauto.
Qed.

Lemma zip_equal (a b : bytes) :
  length a = length b -> Forall (fun xy => fst xy = snd xy) (zip a b) <-> a = b.
Proof.
  revert b. induction a as [|x a IH]; intros [|y b]; simpl; try discriminate; [done|].
  intros [= Hl]. rewrite list.Forall_cons, (IH b Hl). simpl. naive_solver.
Qed.

(** The comparison decides equality. *)
Lemma constant_time_eq_spec a b : constant_time_eq a b = true <-> a = b.
Proof.
  unfold constant_time_eq. destruct (Nat.eqb_spec (length a) (length b)) as [Hl|Hl]; simpl.
  - rewrite Z.eqb_eq, fold_lor_zero, zip_equal by done. tauto.
  - split; [done|]. by intros ->.
Qed.

(** A watch list the server sends holds exactly the payment addresses
    of the chain's watched requests, and it is withheld only from a caller
    that holds the current fingerprint. *)
Theorem watch_list_exact networks chain_id query db answer db' :
  watch_list networks chain_id query db = (Ok answer, db') ->
  db' = db /\
  match WatchList.addresses answer with
  | Some addresses => forall a, a ∈ addresses <->
      exists id row, Db.invoices db !! id = Some row /\
        watched chain_id (WatchListQuery.recent_since query) row = true /\ DbInvoice.payment_address row = Some a
  | None => WatchListQuery.known_fingerprint query =
      Some (fingerprint_text (watch_fingerprint chain_id (WatchListQuery.recent_since query) db))
  end.
Proof.
  unfold watch_list. intros [= H <-]. split; [done|]. apply rbind_ok in H as (u & _ & H).
  case_bool_decide as Hk; injection H as <-; simpl; [done|].
  intros a. unfold watch_addresses. rewrite sorting.merge_sort_Permutation, list_elem_of_omap. split.
  - intros (row & [Hin Hw]%list_elem_of_In%filter_In & Ha). apply list_elem_of_In, list_elem_of_fmap in Hin
      as ([id r] & -> & Hr%elem_of_map_to_list). eauto 10.
  - intros (id & row & Hr & Hw & Ha). exists row. split; [|done].
    apply list_elem_of_In, filter_In. split; [|done]. apply list_elem_of_In, list_elem_of_fmap.
    exists (id, row). split; [done|]. by apply elem_of_map_to_list.
Qed.
