(* ===== verification/Indexer.v ===== *)
(** * gum-indexer: one chain's observer

    Models [crates/gum-indexer/src/indexer.rs]: a pass, which reads the
    ledger's cursor, checks that the chain still holds it, reports the finality
    boundary, refreshes the watch list and reports the finalized blocks range
    by range; and the decision how long to wait after it.

    The ledger is reached through the RPC client of file InternalRpc, the
    chain through [Node.t]. The scan retries a range whose end block changed
    while it was read, so its loop takes fuel; [Unfinished] is the fuel running
    out. *)

From stdpp Require Import pretty.
From S2P Require Import Prelude Core Contracts Backoff Bus Tables Registry Attachments Invoices Range Sweeps.
From S2P Require Import ChainFaults Effects Chain InternalRpc.

(** ** Data *)

Module Cadence.
Record t := mk { poll : Z; reconcile : Z; idle : Z; failure_backoff : BackoffPolicy.t }.
End Cadence.

Module WatchCache.
Record t := mk { fingerprint : option string; addresses : list Address }.
Definition default : t := mk None [].
End WatchCache.

Inductive Pass := Scanned (ranges observations : Z) | PassRestart | PassHalted.

Inductive PassError := PassChain (e : ChainError) | PassLedger (e : LedgerError) | Unfinished.

Definition pass_error_retryable (e : PassError) : bool :=
  match e with
  | PassChain e => chain_error_is_retryable e
  | PassLedger e => ledger_error_is_retryable e
  | Unfinished => false
  end.

(** The worker's own state besides the world's: the cached watch list. *)
Module Worker.
Record t := mk { world : World.t; cache : WatchCache.t }.
Definition db (s : t) : Db.t := World.db (world s).
End Worker.

Definition observation_of (transfer : WatchedTransfer.t) : PaymentObservation.t :=
  PaymentObservation.mk
    (WatchedTransfer.token transfer) (WatchedTransfer.block_number transfer)
    (WatchedTransfer.block_hash transfer) (WatchedTransfer.block_timestamp transfer)
    (WatchedTransfer.transaction_hash transfer) (WatchedTransfer.transaction_index transfer)
    (WatchedTransfer.log_index transfer) (WatchedTransfer.sender transfer)
    (WatchedTransfer.recipient transfer) (WatchedTransfer.amount transfer).

(** [chrono::Duration::from_std(d).unwrap_or_default()], from nanoseconds to microseconds. *)
Definition chrono_or_default (d : Z) : Z := if d <=? (2 ^ 63 - 1) * 10 ^ 6 then d / 1000 else 0.

Section Indexer.
Context (wire : Wire.t) (chain : Node.t) (config : ChainConfig.t) (hex : bytes -> string).
(* [late_watch] in nanoseconds *)
Context (late_watch max_ranges : Z) (cadence : Cadence.t).

Abbreviation work := (eff PassError Worker.t) (only parsing).

Definition chain_id : Z := ChainConfig.chain_id config.

Definition on_chain {A} (c : eff ChainError nat A) : work A :=
  fun s =>
    let '(r, n) := c (World.tick (Worker.world s)) in
    (match r with Ok a => Ok a | Err e => Err (PassChain e) end,
     {| s with Worker.world := World.mk (Worker.db s) n |}).

Definition on_ledger {A} (c : eff LedgerError World.t A) : work A :=
  fun s =>
    let '(r, w) := c (Worker.world s) in
    (match r with Ok a => Ok a | Err e => Err (PassLedger e) end, {| s with Worker.world := w |}).

Definition header (block : Z) : work BlockHeader.t :=
  on_chain (call (fun n => Node.block_header chain n block)).

Definition set_cache (c : WatchCache.t) : work unit :=
  fun s => (Ok tt, {| s with Worker.cache := c |}).

Definition refresh_watch_list : work unit :=
  let* s := get in
  let cache := Worker.cache s in
  let recent_since := Wire.utc_now wire (World.tick (Worker.world s)) - chrono_or_default late_watch in
  let* list := on_ledger (ledger_watch_list wire chain_id
    (WatchListQuery.mk recent_since (WatchCache.fingerprint cache))) in
  set_cache (WatchCache.mk (Some (WatchList.fingerprint list))
    (default (WatchCache.addresses cache) (WatchList.addresses list))).

Definition apply (expected : option IndexerCursor.t) (end_block : Z) (end_block_hash : B256)
    (end_block_timestamp : Z) (observations : list PaymentObservation.t) : work Pass :=
  let* applied := on_ledger (record_finalized_range wire chain_id
    (RecordFinalizedRange.mk expected end_block end_block_hash end_block_timestamp observations)) in
  match applied with
  | Applied _ _ _ | AlreadyApplied _ => ret (Scanned 1 0)
  | CursorMismatch _ => ret PassRestart
  end.

Definition report (reason : string) (block : Z) : work Pass :=
  let* _ := on_ledger (report_fault wire chain_id (ChainFaultReport.mk reason (Some block))) in
  ret PassHalted.

(** The continuity check inside a range's window: [Some PassHalted] when the
    cursor's block changed. *)
Definition preceding_changed (cursor : option IndexerCursor.t) : work (option Pass) :=
  match cursor with
  | None => ret None
  | Some expected =>
      let* preceding := header (IndexerCursor.block expected) in
      if bool_decide (BlockHeader.hash preceding = IndexerCursor.block_hash expected) then ret None
      else
        let* halted := report ("finalized block " +:+ pretty (IndexerCursor.block expected)
                               +:+ " changed while scanning") (IndexerCursor.block expected) in
        ret (Some halted)
  end.

(** The [while] loop. *)
Fixpoint scan (fuel : nat) (boundary : BlockHeader.t) (cursor : option IndexerCursor.t)
    (from range_size ranges observed : Z) : work Pass :=
  match fuel with
  | O => throw Unfinished
  | S fuel' =>
      if negb ((from <=? BlockHeader.number boundary) && (ranges <? max_ranges))
      then ret (Scanned ranges observed)
      else
        let to := Z.min (BlockHeader.number boundary) (u64_saturating_add from (range_size - 1)) in
        let* before := header to in
        let* stop := preceding_changed cursor in
        match stop with
        | Some outcome => ret outcome
        | None =>
            let* s := get in
            let* fetched := attempt (on_chain (call (fun n => Node.token_transfers chain n
              (ChainConfig.token_addresses config) from to (WatchCache.addresses (Worker.cache s))))) in
            match fetched with
            | Err (PassChain (LogRangeTooLarge m)) =>
                if 1 <? range_size
                then scan fuel' boundary cursor from (Z.max (range_size / 2) 1) ranges observed
                else throw (PassChain (LogRangeTooLarge m))
            | Err e => throw e
            | Ok transfers =>
                let* after := header to in
                if negb (bool_decide (BlockHeader.hash before = BlockHeader.hash after))
                then scan fuel' boundary cursor from range_size ranges observed
                else
                  let observations := observation_of <$> transfers in
                  let* applied := apply cursor to (BlockHeader.hash after) (BlockHeader.timestamp after)
                                    observations in
                  match applied with
                  | PassRestart => ret PassRestart
                  | _ =>
                      scan fuel' boundary
                        (Some (IndexerCursor.mk to (BlockHeader.hash after)
                                 (Some (BlockHeader.timestamp after))))
                        (to + 1) range_size (ranges + 1) (observed + Z.of_nat (length observations))
                  end
            end
        end
  end.

(** The check of the stored cursor at the start of a pass. *)
Definition cursor_changed (cursor : option IndexerCursor.t) : work (option Pass) :=
  match cursor with
  | None => ret None
  | Some stored =>
      let* h := header (IndexerCursor.block stored) in
      if bool_decide (BlockHeader.hash h = IndexerCursor.block_hash stored) then ret None
      else
        let* halted := report ("finalized block " +:+ pretty (IndexerCursor.block stored)
          +:+ " changed hash from " +:+ hex (IndexerCursor.block_hash stored)
          +:+ " to " +:+ hex (BlockHeader.hash h)) (IndexerCursor.block stored) in
        ret (Some halted)
  end.

Definition start_of (cursor : option IndexerCursor.t) : Z :=
  match cursor with
  | None => ChainConfig.start_block config
  | Some c => u64_saturating_add (IndexerCursor.block c) 1
  end.

(** Nothing watched: the whole span is one empty range. *)
Definition fast_forward (cursor : option IndexerCursor.t) (boundary : BlockHeader.t) : work Pass :=
  let* applied := apply cursor (BlockHeader.number boundary) (BlockHeader.hash boundary)
                    (BlockHeader.timestamp boundary) [] in
  match applied with
  | PassRestart => ret PassRestart
  | _ => ret (Scanned 1 0)
  end.

Definition pass (fuel : nat) : work Pass :=
  let* cursor := on_ledger (ledger_cursor wire chain_id) in
  let* boundary := on_chain (finality_boundary chain (ChainConfig.finality_source config)
                               (ChainConfig.finality_confirmations config)) in
  let* stop := cursor_changed cursor in
  match stop with
  | Some outcome => ret outcome
  | None =>
      let* _ := on_ledger (report_finalized_head wire chain_id
        (FinalizedHeadReport.mk (BlockHeader.number boundary) (BlockHeader.hash boundary)
           (BlockHeader.timestamp boundary))) in
      let* _ := refresh_watch_list in
      let start := start_of cursor in
      if BlockHeader.number boundary <? start then ret (Scanned 0 0)
      else
        let* s := get in
        match WatchCache.addresses (Worker.cache s) with
        | [] => fast_forward cursor boundary
        | _ :: _ => scan fuel boundary cursor start (Z.max (ChainConfig.log_range_size config) 1) 0 0
        end
  end.

(** ** The wait after a pass

    [draw] is the jitter of the backoff, [connected] the state of the
    WebSocket signal. *)

Inductive Next := GoOn | WaitFor (nanoseconds : Z).

Definition cadence_for (connected : bool) (cache : WatchCache.t) : Z :=
  match WatchCache.addresses cache with
  | [] => Cadence.idle cadence
  | _ :: _ => if connected then Cadence.reconcile cadence else Cadence.poll cadence
  end.

Definition after_pass (outcome : result PassError Pass) (failures : Z) (signal_target : option Z)
    (connected : bool) (draw : Z) : eff PassError Worker.t (Next * Z * option Z) :=
  match outcome with
  | Ok PassRestart => ret (GoOn, 0, signal_target)
  | Ok (Scanned ranges _) =>
      if max_ranges <=? ranges then ret (GoOn, 0, signal_target)
      else
        match signal_target with
        | None =>
            let* s := get in
            ret (WaitFor (cadence_for connected (Worker.cache s)), 0, None)
        | Some target =>
            let* s := get in
            let* progress := attempt (on_ledger (ledger_cursor wire chain_id)) in
            match progress with
            | Ok (Some c) =>
                if target <=? IndexerCursor.block c
                then ret (WaitFor (cadence_for connected (Worker.cache s)), 0, None)
                else ret (WaitFor (Z.max (ChainConfig.block_time_ms config) 1 * 10 ^ 6), 0, Some target)
            | Ok None => ret (WaitFor (Z.max (ChainConfig.block_time_ms config) 1 * 10 ^ 6), 0, Some target)
            | Err _ => ret (WaitFor (delay (Cadence.failure_backoff cadence) 1 draw), 0, Some target)
            end
        end
  | Ok PassHalted => ret (WaitFor (Cadence.idle cadence), 0, signal_target)
  | Err _ =>
      let failures' := u32_saturating_add failures 1 in
      ret (WaitFor (delay (Cadence.failure_backoff cadence) failures' draw), failures', signal_target)
  end.

(** A signal that woke the worker: the furthest target is followed up. *)
Definition follow_up (signal_target target : option Z) : option Z :=
  match target with
  | None => signal_target
  | Some t => Some (match signal_target with None => t | Some pending => Z.max pending t end)
  end.

End Indexer.
