(* ===== verification/IndexerTheorems.v ===== *)
(** * gum-indexer: a pass misses no deposit

    Whatever the network between the indexer and the server loses, and
    however a pass ends, the ledger's cursor stands at a block up to which
    every transfer to a watched request is recorded; a chain whose finalized
    block changed is halted instead; and a pass ends. *)

From S2P Require Import Prelude Core Contracts Backoff Bus Tables Registry Attachments Invoices Range Sweeps.
From S2P Require Import RelayIntents Verifications LedgerExample LedgerInv LedgerNotes RangeInv LedgerRuns.
From S2P Require Import RangeTheorems ChainFaults Effects Chain Evidence InternalRpc Indexer.

Implicit Types (id : Uuid) (row : DbInvoice.t) (db : Db.t) (now : Timestamp) (o : PaymentObservation.t).

(** ** What a range records *)

(** The request that an address and a token of a chain belong to. *)
Definition bound_to (chain : Z) (a tok : Address) (row : DbInvoice.t) : Prop :=
  DbInvoice.chain_id row = Some (as_i64 chain) /\ DbInvoice.payment_address row = Some a /\
  DbInvoice.token_address row = Some tok.

(** Payment addresses are derived from the request's salt: no two requests of
    a chain share one. *)
Definition addresses_distinct (chain : Z) (db : Db.t) : Prop :=
  forall id1 id2 r1 r2 a, Db.invoices db !! id1 = Some r1 -> Db.invoices db !! id2 = Some r2 ->
    DbInvoice.chain_id r1 = Some (as_i64 chain) -> DbInvoice.chain_id r2 = Some (as_i64 chain) ->
    DbInvoice.payment_address r1 = Some a -> DbInvoice.payment_address r2 = Some a -> id1 = id2.

Lemma watched_rows_elem chain l db row :
  row ∈ watched_rows chain l db <->
  exists id, Db.invoices db !! id = Some row /\ DbInvoice.chain_id row = Some chain /\
    exists a, DbInvoice.payment_address row = Some a /\ a ∈ l.
Proof.
  unfold watched_rows. rewrite list_elem_of_In, filter_In, <- list_elem_of_In, list_elem_of_fmap,
    andb_true_iff, bool_decide_eq_true. split.
  - intros [([id r] & -> & Hin%elem_of_map_to_list) [Hc Ha]]. exists id. simpl in *.
    destruct (DbInvoice.payment_address r); [|done]. apply bool_decide_eq_true in Ha. eauto 10.
  - intros (id & Hr & Hc & a & Ha & Hin). split.
    + exists (id, row). split; [done|]. by apply elem_of_map_to_list.
    + rewrite Ha. split; [done|]. by apply bool_decide_eq_true.
Qed.

Lemma load_credits_has chain l db credits id row a tok :
  load_credits (as_i64 chain) l db = Ok credits -> addresses_distinct chain db ->
  Db.invoices db !! id = Some row -> bound_to chain a tok row ->
  a ∈ (PaymentObservation.recipient <$> l) ->
  exists c, credits !! a = Some c /\ InvoiceCredit.token_address c = tok.
Proof.
  intros H Hd Hrow (Hc & Ha & Ht) Hin. unfold load_credits in H.
  eapply (try_fold_establishes _ (fun credits => exists c, credits !! a = Some c /\
    InvoiceCredit.token_address c = tok) _ row); [| | |exact H].
  - intros cs r cs' Hr (c & Hcs & Htok) Hload. unfold load_credit in Hload.
    apply rbind_ok in Hload as (? & _ & Hload). apply rbind_ok in Hload as (? & _ & Hload).
    destruct (DbInvoice.payment_address r) as [b|] eqn:Hb; [|injection Hload as <-; eauto].
    destruct (DbInvoice.token_address r) as [tk|] eqn:Htk; injection Hload as <-; [|eauto].
    destruct (decide (b = a)) as [->|Hne]; [|rewrite lookup_insert_ne by done; eauto].
    rewrite lookup_insert_eq. eexists. split; [done|]. simpl.
    apply watched_rows_elem in Hr as (id' & Hr & Hc' & _).
    assert (id' = id) as -> by (by eapply Hd). congruence.
  - apply watched_rows_elem. eauto 10.
  - intros cs cs' Hload. unfold load_credit in Hload. rewrite Ha, Ht in Hload.
    apply rbind_ok in Hload as (? & _ & Hload). apply rbind_ok in Hload as (? & _ & Hload).
    injection Hload as <-. rewrite lookup_insert_eq. by eexists.
Qed.

Lemma credit_observation_token c o c' :
  credit_observation c o = Ok c' -> InvoiceCredit.token_address c' = InvoiceCredit.token_address c.
Proof.
  unfold credit_observation. intros H. apply rbind_ok in H as (u & _ & H).
  destruct (fst (classify c o)); [|by injection H as <-|by injection H as <-].
  apply rbind_ok in H as (r & _ & H). by injection H as <-.
Qed.

(** One step keeps the credits' tokens and inserts at most its own key. *)
Lemma step_observation_spec chain now s o s' :
  step_observation chain now s o = Ok s' ->
  (forall a c, fst s !! a = Some c ->
     exists c', fst s' !! a = Some c' /\ InvoiceCredit.token_address c' = InvoiceCredit.token_address c) /\
  (forall k, is_Some (snd s' !! k) <-> is_Some (snd s !! k) \/
     k = observation_key chain o /\ exists c, fst s !! PaymentObservation.recipient o = Some c /\
       InvoiceCredit.token_address c = PaymentObservation.token o).
Proof.
  destruct s as [credits table]. unfold step_observation. cbn [fst snd].
  destruct (credits !! PaymentObservation.recipient o) as [c|] eqn:Hc.
  2: { intros [= <-]. simpl. split; [eauto|]. naive_solver. }
  case_bool_decide as Ht; simpl.
  2: { intros [= <-]. simpl. split; [eauto|]. naive_solver. }
  destruct (observation_allowed o); simpl; [|discriminate].
  destruct (table !! observation_key chain o) as [x|] eqn:Hk; simpl.
  { intros [= <-]. simpl. split; [eauto|]. intros k. split; [by left|]. intros [?|[-> _]]; [done|by eexists]. }
  set (table' := <[_ := _]> table). assert (forall k, is_Some (table' !! k) <->
    is_Some (table !! k) \/ k = observation_key chain o) as Htab.
  { intros k. unfold table'. rewrite lookup_insert_is_Some. destruct (decide (observation_key chain o = k)); naive_solver. }
  destruct (is_zero o).
  - intros [= <-]. simpl. split; [eauto|]. intros k. rewrite Htab. naive_solver.
  - intros (c' & Hc' & [= <-])%rbind_ok. simpl. split.
    + intros a d Hd. destruct (decide (PaymentObservation.recipient o = a)) as [<-|].
      * rewrite lookup_insert_eq. exists c'. split; [done|]. rewrite (credit_observation_token _ _ _ Hc'). congruence.
      * rewrite lookup_insert_ne by done. eauto.
    + intros k. rewrite Htab. naive_solver.
Qed.

Lemma fold_observations_records chain now l s s' :
  try_fold (step_observation chain now) s l = Ok s' ->
  (forall k, is_Some (snd s !! k) -> is_Some (snd s' !! k)) /\
  (forall k, is_Some (snd s' !! k) -> is_Some (snd s !! k) \/ exists o, o ∈ l /\ k = observation_key chain o) /\
  (forall o c, o ∈ l -> fst s !! PaymentObservation.recipient o = Some c ->
     InvoiceCredit.token_address c = PaymentObservation.token o -> is_Some (snd s' !! observation_key chain o)).
Proof.
  revert s. induction l as [|x l IH]; intros s; simpl.
  - intros [= <-]. split_and!; [done|by left|]. intros o c Ho. by apply not_elem_of_nil in Ho.
  - intros (s1 & Hx & Hl)%rbind_ok. destruct (step_observation_spec _ _ _ _ _ Hx) as [Htok Hkeys].
    destruct (IH _ Hl) as (I1 & I2 & I3). split_and!.
    + intros k Hk. apply I1, Hkeys. by left.
    + intros k [Hk|(o & Ho & ->)]%I2.
      * apply Hkeys in Hk as [Hk|[-> _]]; [by left|]. right. exists x. split; [by left|done].
      * right. exists o. split; [by right|done].
    + intros o c [->|Ho]%elem_of_cons Hc Ht.
      * apply I1, Hkeys. right. eauto.
      * destruct (Htok _ _ Hc) as (c' & Hc' & E). eapply I3; [done|exact Hc'|congruence].
Qed.

(** A row keeps its terms and binding. *)
Definition same_terms (r r' : DbInvoice.t) : Prop :=
  DbInvoice.issuance r' = DbInvoice.issuance r /\ DbInvoice.binding r' = DbInvoice.binding r.

#[local] Instance same_terms_preorder : PreOrder same_terms.
Proof. split; [by split|]. intros a b c [H1 H2] [K1 K2]. split; congruence. Qed.

(** Row by row: no row appears or disappears, each keeps its terms. *)
Definition rows_kept (m m' : gmap Uuid DbInvoice.t) : Prop :=
  forall id, option_Forall2 same_terms (m !! id) (m' !! id).

#[local] Instance rows_kept_preorder : PreOrder rows_kept.
Proof.
  split.
  - intros m id. apply option_Forall2_refl_of; apply _.
  - intros a b c H1 H2 id. eapply option_Forall2_trans_of; [apply _|apply H1|apply H2].
Qed.

Lemma rows_kept_insert (m : gmap Uuid DbInvoice.t) id row row' :
  m !! id = Some row -> same_terms row row' -> rows_kept m (<[id := row']> m).
Proof.
  intros Hm Ht id'. destruct (decide (id' = id)) as [->|].
  - rewrite Hm, lookup_insert_eq. by constructor.
  - rewrite lookup_insert_ne by done. apply option_Forall2_refl_of; apply _.
Qed.

Lemma rows_kept_where p f (m : gmap Uuid DbInvoice.t) :
  (forall row, same_terms row (f row)) -> rows_kept m (update_where p f m).
Proof.
  intros Hf id. rewrite lookup_update_where. destruct (m !! id) as [row|]; simpl; constructor.
  destruct (p row); [done|reflexivity].
Qed.

Lemma apply_credits_kept now credits m : rows_kept m (fst (apply_credits now credits m)).
Proof.
  unfold apply_credits. induction (map_to_list credits).*2 as [|c cs IH]; simpl; [reflexivity|].
  destruct (foldr _ _ cs) as [m' f']. cbn [fst] in IH. etrans; [exact IH|].
  unfold apply_credit. destruct (negb _); [reflexivity|].
  destruct (m' !! InvoiceCredit.id c) as [row|] eqn:Hr; simpl; [|reflexivity].
  destruct (credited_row now c row) as [row'|] eqn:Hcr; simpl; [|reflexivity].
  eapply rows_kept_insert; [exact Hr|]. unfold credited_row in Hcr.
  repeat case_match; try discriminate; by injection Hcr as <-.
Qed.

Section RangeRecords.
Context (chain : Z).

(** A committed range stores its end as the cursor, keeps every row's terms,
    and records the transfers it carries to requests of the chain, and no
    others. *)
Lemma applied_records expected block hash ts l now db r db' :
  apply_finalized_range chain expected block hash ts l now db = Ok (r, db') ->
  get_cursor chain db = Ok expected -> length hash = 32%nat -> 0 <= block <= u64_max -> 0 <= ts <= u64_max ->
  (exists funded expired, r = Applied funded expired (IndexerCursor.mk block hash (Some ts))) /\
  get_cursor chain db' = Ok (Some (IndexerCursor.mk block hash (Some ts))) /\
  block < 2 ^ 63 /\
  rows_kept (Db.invoices db) (Db.invoices db') /\
  (forall k, is_Some (Db.payment_observations db !! k) -> is_Some (Db.payment_observations db' !! k)) /\
  (forall k, is_Some (Db.payment_observations db' !! k) ->
     is_Some (Db.payment_observations db !! k) \/ exists o, o ∈ l /\ k = observation_key (as_i64 chain) o) /\
  (addresses_distinct chain db -> forall o id row, o ∈ l -> Db.invoices db !! id = Some row ->
     bound_to chain (PaymentObservation.recipient o) (PaymentObservation.token o) row ->
     is_Some (Db.payment_observations db' !! observation_key (as_i64 chain) o)).
Proof.
  intros H Hcur Hlen Hb Ht. unfold apply_finalized_range in H. rewrite Hcur in H. simpl in H.
  rewrite bool_decide_eq_true_2 in H by done. unfold apply_range_body in H.
  apply rbind_ok in H as (credits0 & Hload & H). apply rbind_ok in H as ([credits table] & Hfold & H).
  pose proof (apply_credits_kept now credits (Db.invoices db)) as Hk.
  destruct (apply_credits now credits (Db.invoices db)) as [m fs]. simpl in Hk.
  destruct (expire_bound _ _ _ _) as [es db2] eqn:He. apply rbind_ok in H as (db3 & Hst & [= <- <-]).
  destruct (fold_observations_records _ _ _ _ _ Hfold) as (F1 & F2 & F3). cbn [fst snd] in *.
  assert (Db.invoices db3 = Db.invoices db2 /\ Db.payment_observations db3 = table /\ block < 2 ^ 63) as (Ei & Eo & Hb63).
  { unfold store_cursor in Hst. unfold expire_bound in He. injection He as <- <-.
    destruct (_ && _) eqn:E; [|discriminate]. injection Hst as <-. bools.
    pose proof (as_i64_nonneg block Hb). split_and!; [done|done|lia]. }
  split_and!; [by eauto| |done| | | |].
  - by eapply store_cursor_get.
  - rewrite Ei. etrans; [exact Hk|]. unfold expire_bound in He. injection He as _ <-. simpl.
    by apply rows_kept_where.
  - intros k Hks. rewrite Eo. auto.
  - intros k. rewrite Eo. auto.
  - intros Hd o id row Ho Hrow Hbound. rewrite Eo.
    destruct (load_credits_has _ _ _ _ _ _ _ _ Hload Hd Hrow Hbound) as (c & Hc & Htok).
    { by apply list_elem_of_fmap_2. }
    by eapply F3.
Qed.

(** ** Steps that leave the scan alone *)

(** The cursor, the observations and every binding are as they were. *)
Record calm (db db' : Db.t) : Prop := {
  calm_cursor : get_cursor chain db' = get_cursor chain db;
  calm_observations : forall k, is_Some (Db.payment_observations db' !! k) <->
                                is_Some (Db.payment_observations db !! k);
  calm_bound : forall id row, Db.invoices db !! id = Some row ->
    is_Some (DbInvoice.payment_address row) ->
    exists row', Db.invoices db' !! id = Some row' /\ DbInvoice.binding row' = DbInvoice.binding row;
  calm_distinct : addresses_distinct chain db -> addresses_distinct chain db';
}.

#[global] Instance calm_preorder : PreOrder calm.
Proof.
  split; [split; eauto|]. intros a b c [A1 A2 A3 A4] [B1 B2 B3 B4]. split; [congruence| | |auto].
  - intros k. by rewrite B2, A2.
  - intros id row Hr Hp. destruct (A3 _ _ Hr Hp) as (r1 & Hr1 & E1).
    destruct (B3 id r1 Hr1) as (r2 & Hr2 & E2); [unfold DbInvoice.payment_address; by rewrite E1|].
    exists r2. split; [done|congruence].
Qed.

Lemma rows_kept_distinct db db' :
  rows_kept (Db.invoices db) (Db.invoices db') -> addresses_distinct chain db -> addresses_distinct chain db'.
Proof.
  intros Hk Hd id1 id2 r1 r2 a H1 H2. pose proof (Hk id1) as K1. pose proof (Hk id2) as K2.
  rewrite H1 in K1. rewrite H2 in K2. inversion K1 as [x1 ? [_ E1] X1|]. inversion K2 as [x2 ? [_ E2] X2|].
  subst. unfold DbInvoice.chain_id, DbInvoice.payment_address. rewrite E1, E2. intros. by eapply Hd.
Qed.

Lemma rows_kept_bound db db' id row :
  rows_kept (Db.invoices db) (Db.invoices db') -> Db.invoices db !! id = Some row ->
  exists row', Db.invoices db' !! id = Some row' /\ DbInvoice.binding row' = DbInvoice.binding row.
Proof. intros Hk Hr. specialize (Hk id). rewrite Hr in Hk. inversion Hk as [? row' [_ E]|]. eauto. Qed.

Lemma calm_kept db db' :
  rows_kept (Db.invoices db) (Db.invoices db') -> Db.indexer_cursor db' = Db.indexer_cursor db ->
  Db.payment_observations db' = Db.payment_observations db -> calm db db'.
Proof.
  intros Hk Hc Ho. split.
  - unfold get_cursor. by rewrite Hc.
  - intros k. by rewrite Ho.
  - intros id row Hr _. by eapply rows_kept_bound.
  - by apply rows_kept_distinct.
Qed.

End RangeRecords.

(** ** The client *)

Section Client.
Context (wire : Wire.t) (R : Db.t -> Db.t -> Prop) `{!PreOrder R}.
Hypothesis others_R : forall n db, R db (Wire.others wire n db).

Definition world_R (w w' : World.t) : Prop := R (World.db w) (World.db w').

#[local] Instance world_R_preorder : PreOrder world_R.
Proof. split; [intros w; unfold world_R; reflexivity|]. intros a b c. unfold world_R. by etrans. Qed.

Lemma exchange_moves {A} (h : nat -> eff RpcErrorCode Db.t A) :
  (forall n, moves R (h n)) -> moves world_R (exchange wire h).
Proof.
  intros Hh w. unfold exchange, world_R. pose proof (Hh (World.tick w) (Wire.others wire (World.tick w) (World.db w))) as H.
  destruct (h _ _) as [r db1]. simpl in H.
  destruct (Wire.delivery wire (World.tick w)); simpl; [|apply others_R|]; (etrans; [apply others_R|exact H]).
Qed.

Lemma call_moves {A} (h : nat -> eff RpcErrorCode Db.t A) :
  (forall n, moves R (h n)) -> moves world_R (http_call wire h).
Proof.
  intros Hh. unfold http_call. generalize 3%nat as left. intros left. revert h Hh.
  induction left as [|left IH]; intros h Hh; simpl;
    (apply moves_bind; [apply _|apply moves_attempt, exchange_moves, Hh|]); intros [a|e];
    try (apply moves_ret; apply _); try (apply moves_throw; apply _).
  destruct (ledger_error_is_retryable e); [by apply IH|apply moves_throw; apply _].
Qed.

End Client.

(** What the last exchange of a successful call returned, and from where. *)
Lemma call_ok {A} wire left (h : nat -> eff RpcErrorCode Db.t A) w a w' :
  call_loop wire left h w = (Ok a, w') ->
  exists n db, h n db = (Ok a, World.db w').
Proof.
  revert w. induction left as [|left IH]; intros w; simpl; intros (r & w1 & Hx & Hk)%bind_ok;
    unfold attempt in Hx; destruct (exchange wire h w) as [r0 w0] eqn:He; injection Hx as <- <-.
  - destruct r0 as [b|e]; [|discriminate]. injection Hk as <- <-. unfold exchange in He.
    destruct (h _ _) as [r db1] eqn:Hh. repeat case_match; simplify_eq. simpl. eauto.
  - destruct r0 as [b|e].
    + injection Hk as <- <-. unfold exchange in He.
      destruct (h _ _) as [r db1] eqn:Hh. repeat case_match; simplify_eq. simpl. eauto.
    + destruct (ledger_error_is_retryable e); [by eapply IH|discriminate].
Qed.

(** ** A pass *)

Section Pass.
Context (wire : Wire.t) (chain : Node.t) (config : ChainConfig.t) (hex : bytes -> string).
Context (late_watch max_ranges : Z).

Abbreviation cid := (ChainConfig.chain_id config) (only parsing).
Abbreviation networks := (Wire.networks wire) (only parsing).

Definition worker_R (R : Db.t -> Db.t -> Prop) (s s' : Worker.t) : Prop := R (Worker.db s) (Worker.db s').

#[local] Instance worker_R_preorder (R : Db.t -> Db.t -> Prop) `{!PreOrder R} : PreOrder (worker_R R).
Proof. split; [intros s; unfold worker_R; reflexivity|]. intros a b c. unfold worker_R. by etrans. Qed.

Lemma on_chain_moves (R : Db.t -> Db.t -> Prop) `{!PreOrder R} {A} (c : eff ChainError nat A) :
  moves (worker_R R) (on_chain c).
Proof. intros s. unfold on_chain, worker_R, Worker.db. destruct (c _) as [r n]. simpl. reflexivity. Qed.

Lemma on_ledger_moves (R : Db.t -> Db.t -> Prop) {A} (c : eff LedgerError World.t A) :
  moves (world_R R) c -> moves (worker_R R) (on_ledger c).
Proof.
  intros Hc s. specialize (Hc (Worker.world s)). unfold on_ledger, worker_R, Worker.db.
  destruct (c _) as [r w]. exact Hc.
Qed.

(** Only a refresh changes the cache. *)
Definition same_cache (s s' : Worker.t) : Prop := Worker.cache s' = Worker.cache s.

#[local] Instance same_cache_preorder : PreOrder same_cache.
Proof. split; [by intros s|]. intros a b c. unfold same_cache. congruence. Qed.

Lemma on_chain_cache {A} (c : eff ChainError nat A) : moves same_cache (on_chain c).
Proof. intros s. unfold on_chain. by destruct (c _). Qed.

Lemma on_ledger_cache {A} (c : eff LedgerError World.t A) : moves same_cache (on_ledger c).
Proof. intros s. unfold on_ledger. by destruct (c _). Qed.

Lemma report_cache reason block : moves same_cache (report wire config reason block).
Proof. apply moves_bind; [apply _|apply on_ledger_cache|intros; apply moves_ret, _]. Qed.

Lemma preceding_cache c : moves same_cache (preceding_changed wire chain config c).
Proof.
  destruct c as [e|]; simpl; [|apply moves_ret, _]. apply moves_bind; [apply _|apply on_chain_cache|].
  intros h. case_bool_decide; [apply moves_ret, _|].
  apply moves_bind; [apply _|apply report_cache|intros; apply moves_ret, _].
Qed.

Lemma report_value reason block s r s' : report wire config reason block s = (Ok r, s') -> r = PassHalted.
Proof. unfold report. intros (u & s1 & _ & [= <- <-])%bind_ok. done. Qed.

Lemma preceding_value c s r s' :
  preceding_changed wire chain config c s = (Ok (Some r), s') -> r = PassHalted.
Proof.
  destruct c as [e|]; simpl; [|discriminate]. intros (h & s1 & _ & H)%bind_ok.
  case_bool_decide; [discriminate|]. apply bind_ok in H as (p & s2 & Hp & [= <- <-]). by eapply report_value.
Qed.

Lemma cursor_changed_value c s r s' :
  cursor_changed wire chain config hex c s = (Ok (Some r), s') -> r = PassHalted.
Proof.
  destruct c as [e|]; simpl; [|discriminate]. intros (h & s1 & _ & H)%bind_ok.
  case_bool_decide; [discriminate|]. apply bind_ok in H as (p & s2 & Hp & [= <- <-]). by eapply report_value.
Qed.

Section Reads.
Context (R : Db.t -> Db.t -> Prop) `{!PreOrder R}.
Hypothesis others_R : forall n db, R db (Wire.others wire n db).

Lemma ledger_cursor_moves : moves (worker_R R) (on_ledger (ledger_cursor wire cid)).
Proof. apply on_ledger_moves, call_moves; [done|done|]. intros n db. simpl. reflexivity. Qed.

Lemma set_cache_moves c : moves (worker_R R) (set_cache c).
Proof. intros s. unfold set_cache, worker_R, Worker.db. simpl. reflexivity. Qed.

Lemma refresh_moves : moves (worker_R R) (refresh_watch_list wire config late_watch).
Proof.
  unfold refresh_watch_list. apply moves_bind; [apply _|apply moves_get, _|]. intros s.
  apply moves_bind; [apply _| |intros; apply set_cache_moves].
  apply on_ledger_moves, call_moves; [done|done|]. intros n db. simpl. reflexivity.
Qed.

Hypothesis head_R : forall b h t now db r db',
  finalized_head networks cid (FinalizedHeadReport.mk b h t) now db = (r, db') -> R db db'.
Hypothesis fault_R : forall rep c1 c2 c3 now db r db',
  fault (Wire.payload_hash wire) networks cid rep c1 c2 c3 now db = (r, db') -> R db db'.

Lemma head_moves b h t :
  moves (worker_R R) (on_ledger (report_finalized_head wire cid (FinalizedHeadReport.mk b h t))).
Proof.
  apply on_ledger_moves, call_moves; [done|done|]. intros n db.
  destruct (finalized_head _ _ _ _ _) as [r db'] eqn:E. eauto.
Qed.

Lemma report_moves reason block : moves (worker_R R) (report wire config reason block).
Proof.
  unfold report. apply moves_bind; [apply _| |intros; apply moves_ret, _].
  apply on_ledger_moves, call_moves; [done|done|]. intros n db.
  destruct (fault _ _ _ _ _ _ _ _ _) as [r db'] eqn:E. eauto.
Qed.

Lemma preceding_moves c : moves (worker_R R) (preceding_changed wire chain config c).
Proof.
  destruct c as [e|]; simpl; [|apply moves_ret, _]. apply moves_bind; [apply _|apply on_chain_moves, _|].
  intros h. case_bool_decide; [apply moves_ret, _|].
  apply moves_bind; [apply _|apply report_moves|intros; apply moves_ret, _].
Qed.

Lemma cursor_changed_moves c : moves (worker_R R) (cursor_changed wire chain config hex c).
Proof.
  destruct c as [e|]; simpl; [|apply moves_ret, _]. apply moves_bind; [apply _|apply on_chain_moves, _|].
  intros h. case_bool_decide; [apply moves_ret, _|].
  apply moves_bind; [apply _|apply report_moves|intros; apply moves_ret, _].
Qed.

End Reads.
End Pass.

(** ** The scan *)

Definition header_typed (h : BlockHeader.t) : Prop :=
  length (BlockHeader.hash h) = 32%nat /\ 0 <= BlockHeader.number h <= u64_max /\
  0 <= BlockHeader.timestamp h <= u64_max.

(** A node that answers from one finalized history, as the trait documents:
    [canonical] are its Transfer logs. *)
Record faithful (chain : Node.t) (config : ChainConfig.t) (canonical : WatchedTransfer.t -> Prop) : Prop := {
  fn_header : forall n b h, Node.block_header chain n b = Ok h -> header_typed h;
  fn_finalized : forall n h, Node.finalized_header chain n = Ok h -> header_typed h;
  fn_complete : forall n lower upper watched l t,
    Node.token_transfers chain n (ChainConfig.token_addresses config) lower upper watched = Ok l ->
    canonical t -> WatchedTransfer.token t ∈ ChainConfig.token_addresses config ->
    WatchedTransfer.recipient t ∈ watched -> lower <= WatchedTransfer.block_number t <= upper -> t ∈ l;
  fn_sound : forall n lower upper watched l t,
    Node.token_transfers chain n (ChainConfig.token_addresses config) lower upper watched = Ok l ->
    t ∈ l -> canonical t /\ lower <= WatchedTransfer.block_number t <= upper;
}.

Definition transfer_key (chain : Z) (t : WatchedTransfer.t) : ObservationKey :=
  observation_key (as_i64 chain) (observation_of t).

(** The transfers a scan from [first] up to before [next] has to record:
    those of a served token to a watched address whose request was bound. *)
Definition due_transfer (config : ChainConfig.t) (canonical : WatchedTransfer.t -> Prop) (db : Db.t)
    (addresses : list Address) (first next : Z) (t : WatchedTransfer.t) : Prop :=
  canonical t /\ WatchedTransfer.token t ∈ ChainConfig.token_addresses config /\
  WatchedTransfer.recipient t ∈ addresses /\ first <= WatchedTransfer.block_number t < next /\
  exists id row, Db.invoices db !! id = Some row /\
    bound_to (ChainConfig.chain_id config) (WatchedTransfer.recipient t) (WatchedTransfer.token t) row.

Section Exactness.
Context (wire : Wire.t) (chain : Node.t) (config : ChainConfig.t) (hex : bytes -> string).
Context (late_watch max_ranges : Z) (canonical : WatchedTransfer.t -> Prop) (db0 : Db.t)
  (c0 : option IndexerCursor.t).

Abbreviation cid := (ChainConfig.chain_id config) (only parsing).
Abbreviation next := (start_of config) (only parsing).

Hypothesis node_ok : faithful chain config canonical.
Hypothesis others_calm : forall n db, calm cid db (Wire.others wire n db).
Hypothesis start_typed : 0 <= ChainConfig.start_block config <= u64_max.
Hypothesis cursor_typed : forall c, c0 = Some c -> 0 <= IndexerCursor.block c < 2 ^ 63.

(** The ledger stands at cursor [c], and the scan up to it is exact. *)
Record progress (addresses : list Address) (db : Db.t) (c : option IndexerCursor.t) : Prop := {
  pg_cursor : get_cursor cid db = Ok c;
  pg_typed : forall x, c = Some x -> 0 <= IndexerCursor.block x < 2 ^ 63;
  pg_next : next c0 <= next c;
  pg_complete : forall t, due_transfer config canonical db0 addresses (next c0) (next c) t ->
    is_Some (Db.payment_observations db !! transfer_key cid t);
  pg_sound : forall k, is_Some (Db.payment_observations db !! k) ->
    is_Some (Db.payment_observations db0 !! k) \/
    exists t, canonical t /\ k = transfer_key cid t /\ next c0 <= WatchedTransfer.block_number t < next c;
  pg_kept : forall k, is_Some (Db.payment_observations db0 !! k) -> is_Some (Db.payment_observations db !! k);
  pg_bound : forall id row, Db.invoices db0 !! id = Some row -> is_Some (DbInvoice.payment_address row) ->
    exists row', Db.invoices db !! id = Some row' /\ DbInvoice.binding row' = DbInvoice.binding row;
  pg_distinct : addresses_distinct cid db;
}.

Lemma next_some x : 0 <= IndexerCursor.block x < 2 ^ 63 -> next (Some x) = IndexerCursor.block x + 1.
Proof. unfold start_of, u64_saturating_add, u64_max. lia. Qed.

Lemma progress_calm addresses db db' c :
  calm cid db db' -> progress addresses db c -> progress addresses db' c.
Proof.
  intros [C1 C2 C3 C4] [P1 P2 P3 P4 P5 P6 P7 P8]. split; [congruence|done|done| | | | |auto].
  - intros t Ht. apply C2. auto.
  - intros k Hk%C2. auto.
  - intros k Hk. apply C2. auto.
  - intros id row Hr Hp. destruct (P7 _ _ Hr Hp) as (r1 & Hr1 & E1).
    destruct (C3 _ _ Hr1) as (r2 & Hr2 & E2); [unfold DbInvoice.payment_address; by rewrite E1|].
    exists r2. split; [done|congruence].
Qed.

Lemma progress_start addresses db :
  get_cursor cid db0 = Ok c0 -> addresses_distinct cid db0 -> calm cid db0 db -> progress addresses db c0.
Proof.
  intros Hc Hd Hcalm. eapply progress_calm; [exact Hcalm|]. split; try done; try lia.
  - intros t (_ & _ & _ & ? & _). lia.
  - by left.
  - eauto.
Qed.

(** A range from the next block on, with all its transfers, extends it. *)
Lemma progress_applied addresses db c block hash ts transfers now r db' :
  progress addresses db c -> next c <= block <= u64_max -> length hash = 32%nat -> 0 <= ts <= u64_max ->
  (forall t, canonical t -> WatchedTransfer.token t ∈ ChainConfig.token_addresses config ->
     WatchedTransfer.recipient t ∈ addresses -> next c <= WatchedTransfer.block_number t <= block ->
     t ∈ transfers) ->
  (forall t, t ∈ transfers -> canonical t /\ next c <= WatchedTransfer.block_number t <= block) ->
  apply_finalized_range cid c block hash ts (observation_of <$> transfers) now db = Ok (r, db') ->
  (exists funded expired, r = Applied funded expired (IndexerCursor.mk block hash (Some ts))) /\
  progress addresses db' (Some (IndexerCursor.mk block hash (Some ts))).
Proof.
  intros [P1 P2 P3 P4 P5 P6 P7 P8] Hb Hlen Hts Hcomplete Hsound H.
  assert (0 <= next c) as Hn0.
  { destruct c as [x|]; [specialize (P2 x eq_refl); rewrite next_some; lia|]. simpl. lia. }
  destruct (applied_records _ _ _ _ _ _ _ _ _ _ H P1 Hlen) as (Hr & Hcur & H63 & Hrows & Hkeep & Hnew & Hrec);
    [lia|done|]. split; [done|].
  assert (next (Some (IndexerCursor.mk block hash (Some ts))) = block + 1) as Enext
    by (apply next_some; simpl; lia).
  split.
  - done.
  - intros x [= <-]. simpl. lia.
  - rewrite Enext. lia.
  - rewrite Enext. intros t (Hcan & Htok & Haddr & Hblk & id & row & Hrow & Hbound).
    destruct (Z_lt_le_dec (WatchedTransfer.block_number t) (next c)) as [Hlt|Hge].
    { apply Hkeep, P4. split_and!; eauto; lia. }
    assert (t ∈ transfers) as Hin by (apply Hcomplete; auto; lia).
    destruct (P7 _ _ Hrow) as (row' & Hrow' & E); [destruct Hbound as (_ & -> & _); by eexists|].
    apply (Hrec P8 (observation_of t) id row'); [by apply list_elem_of_fmap_2|done|].
    unfold bound_to, DbInvoice.chain_id, DbInvoice.payment_address, DbInvoice.token_address in *.
    by rewrite E.
  - rewrite Enext. intros k Hk. apply Hnew in Hk as [Hk|(o & (t & -> & Ht)%list_elem_of_fmap & ->)].
    + destruct (P5 _ Hk) as [?|(t & ? & ? & ?)]; [by left|]. right. exists t. split_and!; auto; lia.
    + destruct (Hsound t Ht). right. exists t. split_and!; auto; lia.
  - auto.
  - intros id row Hrow Hp. destruct (P7 _ _ Hrow Hp) as (r1 & Hr1 & E1).
    destruct (rows_kept_bound _ _ _ _ Hrows Hr1) as (r2 & Hr2 & E2). exists r2. split; [done|congruence].
  - by eapply rows_kept_distinct.
Qed.

(** Reporting a range, however often its request or response is lost. *)
Section Apply.
Context (addresses : list Address) (c : option IndexerCursor.t) (block : Z) (hash : B256) (ts : Z)
  (transfers : list WatchedTransfer.t).

Abbreviation new := (IndexerCursor.mk block hash (Some ts)) (only parsing).

Hypothesis block_typed : next c <= block <= u64_max.
Hypothesis hash_typed : length hash = 32%nat.
Hypothesis ts_typed : 0 <= ts <= u64_max.
Hypothesis complete : forall t, canonical t -> WatchedTransfer.token t ∈ ChainConfig.token_addresses config ->
  WatchedTransfer.recipient t ∈ addresses -> next c <= WatchedTransfer.block_number t <= block -> t ∈ transfers.
Hypothesis sound : forall t, t ∈ transfers -> canonical t /\ next c <= WatchedTransfer.block_number t <= block.

(** Before the range is committed, or after. *)
Definition pending_or_applied (db : Db.t) : Prop := progress addresses db c \/ progress addresses db (Some new).

Lemma pending_or_applied_calm db db' : calm cid db db' -> pending_or_applied db -> pending_or_applied db'.
Proof. intros Hc [H|H]; [left|right]; by eapply progress_calm. Qed.

Lemma range_handler_triple n :
  triple pending_or_applied
    (finalized_range (Wire.networks wire) cid
       (RecordFinalizedRange.mk c block hash ts (observation_of <$> transfers)) n)
    (fun r db => (forall m, r <> CursorMismatch m) /\ progress addresses db (Some new))
    (fun _ => pending_or_applied).
Proof.
  intros db HP. unfold finalized_range, transaction. simpl.
  destruct (known_chain _ _); simpl; [|done].
  destruct (apply_finalized_range cid c block hash ts _ n db) as [[r db']|e] eqn:H; simpl; [|done].
  destruct HP as [HP|HP].
  - destruct (progress_applied _ _ _ _ _ _ _ _ _ _ HP block_typed hash_typed ts_typed complete sound H)
      as [(fs & es & ->) Hnew]. done.
  - unfold apply_finalized_range in H. rewrite (pg_cursor _ _ _ HP) in H. simpl in H.
    rewrite bool_decide_eq_false_2, Z.leb_refl in H; [by injection H as <- <-|].
    intros <-. rewrite next_some in block_typed by (by apply (pg_typed _ _ _ HP)). simpl in block_typed. lia.
Qed.

Lemma record_range_triple :
  triple (fun w => pending_or_applied (World.db w))
    (record_finalized_range wire cid (RecordFinalizedRange.mk c block hash ts (observation_of <$> transfers)))
    (fun r w => (forall m, r <> CursorMismatch m) /\ progress addresses (World.db w) (Some new))
    (fun _ w => pending_or_applied (World.db w)).
Proof.
  unfold record_finalized_range, http_call. set (h := fun n => finalized_range _ _ _ _).
  assert (triple (fun w => pending_or_applied (World.db w)) (exchange wire h)
    (fun r w => (forall m, r <> CursorMismatch m) /\ progress addresses (World.db w) (Some new))
    (fun _ w => pending_or_applied (World.db w))) as Hx.
  { intros w HP. unfold exchange. set (db1 := Wire.others _ _ _).
    assert (pending_or_applied db1) as H1 by (eapply pending_or_applied_calm; [apply others_calm|done]).
    pose proof (range_handler_triple (Wire.database_now wire (World.tick w)) db1 H1) as Hh.
    unfold h. destruct (finalized_range _ _ _ _ db1) as [[r|e] db2];
      destruct (Wire.delivery wire (World.tick w)); simpl; try done.
    right. by destruct Hh. }
  generalize 3%nat as left. intros left. induction left as [|left IH]; simpl;
    (eapply triple_bind; [eapply triple_attempt with (Q := fun r w => match r with
       | Ok r => (forall m, r <> CursorMismatch m) /\ progress addresses (World.db w) (Some new)
       | Err _ => pending_or_applied (World.db w) end); [exact Hx|done|done]|]);
    intros [r|e]; try (by apply triple_ret); try (by apply triple_throw).
  destruct (ledger_error_is_retryable e); [exact IH|by apply triple_throw].
Qed.

Lemma apply_triple k :
  triple (fun s => Worker.cache s = k /\ progress addresses (Worker.db s) c)
    (apply wire config c block hash ts (observation_of <$> transfers))
    (fun r s => r <> PassRestart /\ Worker.cache s = k /\ progress addresses (Worker.db s) (Some new))
    (fun _ s => Worker.cache s = k /\ pending_or_applied (Worker.db s)).
Proof.
  unfold apply. eapply triple_bind with (M := fun r s => (forall m, r <> CursorMismatch m) /\
    Worker.cache s = k /\ progress addresses (Worker.db s) (Some new)).
  - intros s [Hk HP]. unfold on_ledger, chain_id.
    pose proof (record_range_triple (Worker.world s) (or_introl HP)) as H.
    destruct (record_finalized_range _ _ _ _) as [[r|e] w]; simpl; [|done].
    destruct H as [H1 H2]. done.
  - intros [f e cu|cu|m]; apply triple_ret; naive_solver.
Qed.

End Apply.

Lemma on_chain_triple {A} (f : nat -> result ChainError A) (P : Worker.t -> Prop) :
  (forall s n, P s -> P {| s with Worker.world := World.mk (Worker.db s) n |}) ->
  triple P (on_chain (call f)) (fun a s => P s /\ exists n, f n = Ok a) (fun _ => P).
Proof.
  intros HP s Hs. unfold on_chain, call. destruct (f (World.tick (Worker.world s))) as [a|e] eqn:E; simpl; [|auto].
  split; [auto|eauto].
Qed.

(** Where a pass may stop. *)
Definition stands (s : Worker.t) : Prop :=
  exists c, progress (WatchCache.addresses (Worker.cache s)) (Worker.db s) c.

Definition reached (boundary : BlockHeader.t) (r : Pass) (s : Worker.t) : Prop :=
  exists c, progress (WatchCache.addresses (Worker.cache s)) (Worker.db s) c /\
    (forall ranges observed, r = Scanned ranges observed -> ranges < max_ranges ->
       BlockHeader.number boundary < next c).

Lemma calm_of_same db db' :
  Db.invoices db' = Db.invoices db -> Db.indexer_cursor db' = Db.indexer_cursor db ->
  Db.payment_observations db' = Db.payment_observations db -> calm cid db db'.
Proof. intros Hi Hc Ho. apply calm_kept; [rewrite Hi; reflexivity|done|done]. Qed.

Lemma fault_calm rep c1 c2 c3 now db r db' :
  fault (Wire.payload_hash wire) (Wire.networks wire) cid rep c1 c2 c3 now db = (r, db') -> calm cid db db'.
Proof.
  unfold fault, transaction, raise. destruct (known_chain _ _); simpl; [|intros [= <- <-]; reflexivity].
  destruct (open_fault _ db) as [[]|]; [intros [= <- <-]; reflexivity|].
  destruct (is_some _); [intros [= <- <-]; reflexivity|].
  destruct (publish _ _ _ _ _ _ _ _) as [[]|]; intros [= <- <-]; by apply calm_of_same.
Qed.

Lemma head_calm b h t now db r db' :
  finalized_head (Wire.networks wire) cid (FinalizedHeadReport.mk b h t) now db = (r, db') -> calm cid db db'.
Proof.
  unfold finalized_head, record_finalized_head. destruct (known_chain _ _); [|intros [= <- <-]; reflexivity].
  destruct (_ && _); [|intros [= <- <-]; reflexivity]. intros [= <- <-].
  apply calm_kept; [|done|done]. by apply rows_kept_where.
Qed.

(** The continuity check leaves the scan alone. *)
Lemma preceding_triple c addresses k :
  triple (fun s => Worker.cache s = k /\ progress addresses (Worker.db s) c) (preceding_changed wire chain config c)
    (fun stop s => (Worker.cache s = k /\ progress addresses (Worker.db s) c) /\ (stop = None \/ stop = Some PassHalted))
    (fun _ s => Worker.cache s = k /\ progress addresses (Worker.db s) c).
Proof.
  intros s [Hk HP].
  pose proof (preceding_cache wire chain config c s) as H1.
  pose proof (preceding_moves wire chain config (calm cid) others_calm fault_calm c s) as H2.
  destruct (preceding_changed wire chain config c s) as [[[r|]|e] s'] eqn:E; unfold same_cache, worker_R in *; simpl in *.
  - apply preceding_value in E as ->. split; [|by right]. split; [congruence|by eapply progress_calm].
  - split; [|by left]. split; [congruence|by eapply progress_calm].
  - split; [congruence|by eapply progress_calm].
Qed.

Lemma scan_triple fuel : forall boundary c range_size ranges observed k,
  0 <= BlockHeader.number boundary <= u64_max -> 1 <= range_size ->
  triple (fun s => Worker.cache s = k /\ progress (WatchCache.addresses k) (Worker.db s) c)
    (scan wire chain config max_ranges fuel boundary c (next c) range_size ranges observed)
    (reached boundary) (fun _ => stands).
Proof.
  induction fuel as [|fuel IH]; intros boundary c range_size ranges observed k Hb Hsize; simpl.
  { apply triple_throw. intros s [<- Hi]. by exists c. }
  destruct ((next c <=? BlockHeader.number boundary) && (ranges <? max_ranges)) eqn:Hgo; simpl.
  2: { apply triple_ret. intros s [<- Hi]. exists c. split; [done|]. intros r o [= -> ->] Hr.
       apply andb_false_iff in Hgo. bools. destruct Hgo; bools; lia. }
  bools. set (to := Z.min _ _).
  assert (next c <= to <= u64_max) as Hto.
  { unfold to, u64_saturating_add, u64_max in *. lia. }
  set (I := fun s => Worker.cache s = k /\ progress (WatchCache.addresses k) (Worker.db s) c).
  assert (forall (e : PassError) s, I s -> stands s) as Hstands by (intros e s [<- Hi]; by exists c).
  assert (forall s n, I s -> I {| s with Worker.world := World.mk (Worker.db s) n |}) as HI by done.
  assert (forall b, triple I (Indexer.header chain b) (fun h s => I s /\ header_typed h) (fun _ => stands)) as Hheader.
  { intros b. eapply triple_weaken; [by apply on_chain_triple|done| |exact Hstands].
    intros h s [Hi [n Hn]]. split; [done|]. by eapply fn_header. }
  eapply triple_bind; [apply Hheader|]. intros before.
  eapply triple_bind.
  { eapply triple_weaken; [apply (preceding_triple c (WatchCache.addresses k) k)|by intros s [Hi _]|
      intros stop s Hi; exact Hi|exact Hstands]. }
  intros [outcome|].
  { apply triple_ret. intros s [[<- Hi] [|[= ->]]]; [done|]. by exists c. }
  eapply triple_bind with (M := fun s0 s => I s /\ Worker.cache s0 = k).
  { apply triple_get. intros s [Hi _]. split; [done|by destruct Hi]. }
  intros s0. eapply triple_bind with (M := fun r s => I s /\ (forall l, r = Ok l ->
    exists n, Node.token_transfers chain n (ChainConfig.token_addresses config) (next c) to (WatchCache.addresses k) = Ok l)).
  { eapply triple_attempt.
    - eapply triple_weaken; [apply (on_chain_triple _ (fun s => I s /\ Worker.cache s0 = k)); naive_solver|done|intros l s Hi; exact Hi|intros e s Hi; exact Hi].
    - intros l s [[Hi <-] [n Hn]]. split; [done|]. intros l' [= <-]. eauto.
    - intros e s [Hi _]. split; [done|]. intros l' [=]. }
  intros [transfers|e].
  2: { destruct e as [[]| |]; try (apply triple_throw; intros s [Hi _]; by eapply (Hstands Unfinished)).
       destruct (Z.ltb_spec 1 range_size); [|apply triple_throw; intros s [Hi _]; by eapply (Hstands Unfinished)].
       eapply triple_weaken; [apply (IH boundary c (Z.max (range_size / 2) 1) ranges observed k)|by intros s [Hi _]|done|done]; lia. }
  eapply triple_bind with (M := fun h s => (I s /\ header_typed h) /\ exists n, Node.token_transfers chain n
    (ChainConfig.token_addresses config) (next c) to (WatchCache.addresses k) = Ok transfers).
  { intros s [Hi Hl]. specialize (Hl _ eq_refl). specialize (Hheader to s Hi). by destruct (Indexer.header chain to s) as [[]]. }
  intros after. case_bool_decide; simpl.
  2: { eapply triple_weaken; [apply (IH boundary c range_size ranges observed k)|by intros s [[Hi _] _]|done|done]; lia. }
  intros s [[HIs (Hlen & _ & Hts)] [n Hn]]. revert s HIs.
  eapply triple_bind with (M := fun r s => r <> PassRestart /\ Worker.cache s = k /\
    progress (WatchCache.addresses k) (Worker.db s)
      (Some (IndexerCursor.mk to (BlockHeader.hash after) (Some (BlockHeader.timestamp after))))).
  { eapply triple_weaken; [apply (apply_triple (WatchCache.addresses k) c to (BlockHeader.hash after)
      (BlockHeader.timestamp after) transfers Hto Hlen Hts)|done|done|].
    - intros t Hcan Htok Hr Hblk. by eapply fn_complete.
    - intros t Ht. by eapply fn_sound.
    - intros e s [<- [Hp|Hp]]; by eexists. }
  intros applied.
  intros s (Hne & Hk & Hp). assert (to + 1 = next (Some (IndexerCursor.mk to (BlockHeader.hash after)
    (Some (BlockHeader.timestamp after))))) as Eto.
  { symmetry. apply next_some. by apply (pg_typed _ _ _ Hp). }
  destruct applied; [| by destruct Hne |].
  all: rewrite Eto; eapply IH; [done|done|]; by split.
Qed.

Lemma boundary_typed n b n' :
  finality_boundary chain (ChainConfig.finality_source config) (ChainConfig.finality_confirmations config) n =
    (Ok b, n') -> header_typed b.
Proof.
  unfold finality_boundary, call. destruct (ChainConfig.finality_source config).
  - intros (anchor & n1 & [= H1 <-] & H)%bind_ok. destruct (_ =? 0).
    + injection H as <- <-. by eapply fn_finalized.
    + injection H as H <-. by eapply fn_header.
  - intros (latest & n1 & [= H1 <-] & [= H <-])%bind_ok. by eapply fn_header.
Qed.

(** The pass before its scan: only steps that leave the scan alone. *)
Definition untouched (s : Worker.t) : Prop := calm cid db0 (Worker.db s).

Lemma untouched_moves {A} (c : eff PassError Worker.t A) :
  moves (worker_R (calm cid)) c -> triple untouched c (fun _ => untouched) (fun _ => untouched).
Proof. intros Hc. eapply triple_moves; [exact Hc|]. intros s s' Hs H. unfold untouched in *. by etrans. Qed.

Hypothesis cursor_stored : get_cursor cid db0 = Ok c0.
Hypothesis distinct : addresses_distinct cid db0.

Lemma untouched_progress addresses s : untouched s -> progress addresses (Worker.db s) c0.
Proof. by apply progress_start. Qed.

Lemma read_cursor_triple :
  triple untouched (on_ledger (ledger_cursor wire cid)) (fun c s => untouched s /\ c = c0) (fun _ => untouched).
Proof.
  intros s Hs. pose proof (ledger_cursor_moves wire config (calm cid) others_calm s) as Hm.
  destruct (on_ledger (ledger_cursor wire cid) s) as [[c|e] s'] eqn:E; unfold worker_R in Hm; simpl in Hm;
    [|unfold untouched in *; by etrans].
  assert (untouched s') as Hs' by (unfold untouched in *; by etrans). split; [done|].
  unfold on_ledger in E. destruct (ledger_cursor wire cid (Worker.world s)) as [[c'|] w] eqn:El; [|discriminate].
  injection E as <- <-. unfold ledger_cursor, http_call in El.
  apply call_ok in El as (n & db & H). unfold cursor in H. injection H as H Hdb.
  apply rbind_ok in H as (u & _ & H). unfold Worker.db, untouched in Hs'. simpl in Hs'.
  pose proof (calm_cursor _ _ _ Hs') as Hcur. unfold Worker.db in Hcur. simpl in Hcur.
  rewrite Hdb in H. rewrite Hcur, cursor_stored in H. by injection H as <-.
Qed.

Definition reached_some (r : Pass) (s : Worker.t) : Prop :=
  exists n b n', finality_boundary chain (ChainConfig.finality_source config)
    (ChainConfig.finality_confirmations config) n = (Ok b, n') /\ reached b r s.

Lemma fast_forward_triple b k :
  header_typed b -> next c0 <= BlockHeader.number b -> WatchCache.addresses k = [] ->
  triple (fun s => Worker.cache s = k /\ untouched s) (fast_forward wire config c0 b) (reached b) (fun _ => stands).
Proof.
  intros (Hlen & Hn & Hts) Hstart Hempty. unfold fast_forward.
  eapply triple_bind with (M := fun r s => r <> PassRestart /\ Worker.cache s = k /\ progress [] (Worker.db s)
    (Some (IndexerCursor.mk (BlockHeader.number b) (BlockHeader.hash b) (Some (BlockHeader.timestamp b))))).
  { eapply triple_weaken; [refine (apply_triple [] c0 (BlockHeader.number b) (BlockHeader.hash b)
      (BlockHeader.timestamp b) [] _ Hlen Hts _ _ k)| |done|].
    - lia.
    - intros t _ _ Ht. by apply not_elem_of_nil in Ht.
    - intros t Ht. by apply not_elem_of_nil in Ht.
    - intros s [Hk Hu]. split; [exact Hk|by apply untouched_progress].
    - intros e s [<- [H|H]]; rewrite <- Hempty in H; by eexists. }
  intros r s (Hne & <- & Hp). destruct r; [|by destruct Hne|]; eexists; rewrite Hempty;
    (split; [exact Hp|]); intros r o _ _; rewrite next_some by (by apply (pg_typed _ _ _ Hp)); simpl; lia.
Qed.

Lemma pass_triple fuel :
  triple untouched (pass wire chain config hex late_watch max_ranges fuel) reached_some (fun _ => stands).
Proof.
  assert (forall s, untouched s -> stands s) as Hst by (intros s Hs; exists c0; by apply untouched_progress).
  assert (forall (e : PassError) s, untouched s -> stands s) as Hst' by auto.
  unfold pass, chain_id. eapply triple_bind; [eapply triple_weaken; [apply read_cursor_triple|done|done|exact Hst']|].
  intros c. eapply triple_bind with (M := fun b s => (untouched s /\ c = c0) /\ exists n n',
    finality_boundary chain (ChainConfig.finality_source config) (ChainConfig.finality_confirmations config) n = (Ok b, n')).
  { intros s [Hu ->]. unfold on_chain. destruct (finality_boundary _ _ _ _) as [[b|e] n'] eqn:E; [|by apply Hst].
    split; [done|]. eauto. }
  intros b s [[Hu ->] (n & n' & Hb)]. pose proof (boundary_typed _ _ _ Hb) as Htyped. revert s Hu.
  assert (forall c r s, progress (WatchCache.addresses (Worker.cache s)) (Worker.db s) c ->
    (forall ranges observed, r = Scanned ranges observed -> BlockHeader.number b < next c) -> reached_some r s) as Hreach.
  { intros c r s Hp Hr. exists n, b, n'. split; [done|]. exists c. split; [done|]. eauto. }
  eapply triple_bind with (M := fun stop s => untouched s /\ (stop = None \/ stop = Some PassHalted)).
  { intros s Hu. pose proof (untouched_moves _ (cursor_changed_moves wire chain config hex (calm cid) others_calm fault_calm c0) s Hu) as H.
    destruct (cursor_changed _ _ _ _ _ s) as [[[r|]|e] s'] eqn:E; [|by split; [|left]|by apply Hst].
    apply cursor_changed_value in E as ->. by split; [|right]. }
  intros [outcome|].
  { apply triple_ret. intros s [Hu [|[= ->]]]; [done|]. eapply Hreach; [by apply untouched_progress|done]. }
  eapply triple_bind with (M := fun _ => untouched).
  { eapply triple_weaken; [apply untouched_moves, (head_moves wire config (calm cid) others_calm head_calm)|by intros s [? _]|done|exact Hst']. }
  intros _. eapply triple_bind with (M := fun _ => untouched).
  { eapply triple_weaken; [apply untouched_moves, (refresh_moves wire config late_watch (calm cid) others_calm)|done|done|exact Hst']. }
  intros _. destruct (Z.ltb_spec (BlockHeader.number b) (next c0)) as [Hlt|Hge].
  { apply triple_ret. intros s Hu. eapply Hreach; [by apply untouched_progress|done]. }
  eapply triple_bind with (M := fun s0 s => Worker.cache s = Worker.cache s0 /\ untouched s).
  { by apply triple_get. }
  intros s0. destruct (WatchCache.addresses (Worker.cache s0)) eqn:Ea.
  - eapply triple_weaken; [by apply (fast_forward_triple b (Worker.cache s0))|done| |done].
    intros r s H. by exists n, b, n'.
  - eapply triple_weaken; [apply (scan_triple fuel b c0 _ 0 0 (Worker.cache s0))| | |done].
    + by destruct Htyped as (_ & ? & _).
    + lia.
    + intros s [Hk Hu]. split; [done|by apply untouched_progress].
    + intros r s H. by exists n, b, n'.
Qed.

End Exactness.

(** C3. However a pass ends and whatever the network loses, the cursor it
    leaves is exact: every transfer of a served token between the old and the
    new cursor, to a watched address of a request that was bound when the pass
    began, is recorded; only transfers of those blocks were recorded; and a
    pass that scanned fewer ranges than it may has passed the finality
    boundary. *)
Theorem pass_misses_nothing wire chain config hex late_watch max_ranges canonical fuel s c0 r s' :
  faithful chain config canonical ->
  (forall n db, calm (ChainConfig.chain_id config) db (Wire.others wire n db)) ->
  0 <= ChainConfig.start_block config <= u64_max ->
  get_cursor (ChainConfig.chain_id config) (Worker.db s) = Ok c0 ->
  (forall c, c0 = Some c -> 0 <= IndexerCursor.block c < 2 ^ 63) ->
  addresses_distinct (ChainConfig.chain_id config) (Worker.db s) ->
  pass wire chain config hex late_watch max_ranges fuel s = (r, s') ->
  exists c, get_cursor (ChainConfig.chain_id config) (Worker.db s') = Ok c /\
    start_of config c0 <= start_of config c /\
    (forall t, due_transfer config canonical (Worker.db s) (WatchCache.addresses (Worker.cache s'))
                 (start_of config c0) (start_of config c) t ->
       is_Some (Db.payment_observations (Worker.db s') !! transfer_key (ChainConfig.chain_id config) t)) /\
    (forall k, is_Some (Db.payment_observations (Worker.db s) !! k) ->
       is_Some (Db.payment_observations (Worker.db s') !! k)) /\
    (forall k, is_Some (Db.payment_observations (Worker.db s') !! k) ->
       is_Some (Db.payment_observations (Worker.db s) !! k) \/
       exists t, canonical t /\ k = transfer_key (ChainConfig.chain_id config) t /\
         start_of config c0 <= WatchedTransfer.block_number t < start_of config c) /\
    (forall ranges observed, r = Ok (Scanned ranges observed) -> ranges < max_ranges ->
       exists n b n', finality_boundary chain (ChainConfig.finality_source config)
         (ChainConfig.finality_confirmations config) n = (Ok b, n') /\
         BlockHeader.number b < start_of config c).
Proof.
  intros Hnode Hothers Hstart Hcur Htyped Hdist Hpass.
  pose proof (pass_triple wire chain config hex late_watch max_ranges canonical (Worker.db s) c0
    Hnode Hothers Hstart Htyped Hcur Hdist fuel s (reflexivity _)) as H.
  rewrite Hpass in H.
  assert (exists c, progress config canonical (Worker.db s) c0 (WatchCache.addresses (Worker.cache s'))
    (Worker.db s') c /\ forall ranges observed, r = Ok (Scanned ranges observed) -> ranges < max_ranges ->
       exists n b n', finality_boundary chain (ChainConfig.finality_source config)
         (ChainConfig.finality_confirmations config) n = (Ok b, n') /\ BlockHeader.number b < start_of config c)
    as (c & [P1 P2 P3 P4 P5 P6 _ _] & Hr).
  { destruct r as [p|e].
    - destruct H as (n & b & n' & Hb & c & Hp & Hr). exists c. split; [done|].
      intros ranges observed [= ->] Hlt. exists n, b, n'. eauto.
    - destruct H as (c & Hp). by exists c. }
  exists c. by split_and!.
Qed.

(** ** Finality violations *)

Lemma raise_halts hash chain reason block corr producer fault msg now db out db' :
  raise hash chain reason block corr producer fault msg now db = Ok (out, db') -> halted (as_i64 chain) db' = true.
Proof.
  unfold raise. rewrite open_fault_halted. destruct (open_fault (as_i64 chain) db) as [[id f]|] eqn:Ho.
  - intros [= <- <-]. by rewrite Ho.
  - destruct (is_some _); [discriminate|]. destruct (publish _ _ _ _ _ _ _ _) as [[m bus]|]; [|discriminate].
    intros [= <- <-]. match goal with |- is_some ?x = true => destruct x eqn:E; [done|] end.
    rewrite open_fault_none in E. specialize (E fault). simpl in E. rewrite lookup_insert_eq in E.
    specialize (E _ eq_refl). unfold ChainFault.is_open_on in E. simpl in E. by rewrite Z.eqb_refl in E.
Qed.

Lemma report_halts wire config reason block s p s' :
  report wire config reason block s = (Ok p, s') ->
  p = PassHalted /\ halted (as_i64 (ChainConfig.chain_id config)) (Worker.db s') = true.
Proof.
  intros Hr. split; [by eapply report_value|]. unfold report in Hr.
  apply bind_ok in Hr as (u & s1 & H & [= _ <-]). unfold on_ledger in H.
  destruct (report_fault _ _ _ _) as [[x|] w] eqn:E; [|discriminate]. injection H as _ <-.
  unfold report_fault, http_call in E. apply call_ok in E as (n & db & E).
  unfold fault, transaction in E. destruct (known_chain _ _); simpl in E; [|discriminate].
  destruct (raise _ _ _ _ _ _ _ _ _ _) as [[o db']|] eqn:Hraise; [|discriminate].
  injection E as _ E. unfold Worker.db. simpl. rewrite <- E. by eapply raise_halts.
Qed.

(** When the chain no longer holds the block the ledger's cursor
    stands at, a pass scans nothing: the cursor, the observations and the
    bindings stay as they were, and a pass that does not fail has halted the
    chain, so that no sweep job is scheduled on it. *)
Theorem finality_violation_halts wire chain config hex late_watch max_ranges fuel s c r s' :
  (forall n db, calm (ChainConfig.chain_id config) db (Wire.others wire n db)) ->
  get_cursor (ChainConfig.chain_id config) (Worker.db s) = Ok (Some c) ->
  (forall n h, Node.block_header chain n (IndexerCursor.block c) = Ok h ->
     BlockHeader.hash h <> IndexerCursor.block_hash c) ->
  pass wire chain config hex late_watch max_ranges fuel s = (r, s') ->
  calm (ChainConfig.chain_id config) (Worker.db s) (Worker.db s') /\
  (forall p, r = Ok p -> p = PassHalted /\
     halted (as_i64 (ChainConfig.chain_id config)) (Worker.db s') = true /\
     forall hash parse policy producer job corr msg now,
       schedule_sweep_job hash parse (ChainConfig.chain_id config) policy producer job corr msg now (Worker.db s') =
         Ok (None, Worker.db s')).
Proof.
  intros Hothers Hcur Hchanged Hpass.
  pose proof (read_cursor_triple wire config (Worker.db s) (Some c) Hothers Hcur s (reflexivity _)) as H0.
  unfold pass, bind at 1, chain_id in Hpass.
  destruct (on_ledger (ledger_cursor wire (ChainConfig.chain_id config)) s) as [[c'|e] s1];
    [destruct H0 as [H0 ->]|by injection Hpass as <- <-]. unfold untouched in H0.
  unfold bind at 1 in Hpass. pose proof (on_chain_moves (calm (ChainConfig.chain_id config))
    (finality_boundary chain (ChainConfig.finality_source config) (ChainConfig.finality_confirmations config)) s1) as H1.
  destruct (on_chain _ s1) as [[b|e] s2]; unfold worker_R in H1; simpl in H1;
    [|injection Hpass as <- <-; split; [by etrans|done]].
  unfold bind at 1 in Hpass. pose proof (cursor_changed_moves wire chain config hex (calm (ChainConfig.chain_id config))
    Hothers (fault_calm wire config) (Some c) s2) as H2.
  destruct (cursor_changed wire chain config hex (Some c) s2) as [[stop|e] s3] eqn:E; unfold worker_R in H2; simpl in H2.
  2: { injection Hpass as <- <-. split; [by do 2 (etrans; [eassumption|])|done]. }
  assert (calm (ChainConfig.chain_id config) (Worker.db s) (Worker.db s3)) as Hcalm by (do 2 (etrans; [eassumption|]); done).
  simpl in E. apply bind_ok in E as (h & s4 & Hh & E). unfold Indexer.header, on_chain, call in Hh.
  destruct (Node.block_header chain _ _) as [h'|] eqn:Hn; [|discriminate]. injection Hh as <- <-.
  rewrite bool_decide_eq_false_2 in E by (by eapply Hchanged).
  apply bind_ok in E as (p & s5 & Hp & [= <- <-]). apply report_halts in Hp as [-> Hhalt].
  injection Hpass as <- <-. split; [done|]. intros p [= <-]. split_and!; [done|done|].
  intros. unfold schedule_sweep_job. by rewrite Hhalt.
Qed.

(** ** Termination *)

(** Two computations agree at a state, and their fuel suffices. *)
Definition agrees {A} (c1 c2 : eff PassError Worker.t A) (s : Worker.t) : Prop :=
  c1 s = c2 s /\ fst (c1 s) <> Err Unfinished.

Lemma agrees_same {A} (c : eff PassError Worker.t A) s : fst (c s) <> Err Unfinished -> agrees c c s.
Proof. by split. Qed.

Lemma agrees_bind {A B} (c : eff PassError Worker.t A) (k1 k2 : A -> eff PassError Worker.t B) s :
  fst (c s) <> Err Unfinished -> (forall a s', c s = (Ok a, s') -> agrees (k1 a) (k2 a) s') ->
  agrees (bind c k1) (bind c k2) s.
Proof.
  intros Hc Hk. unfold agrees, bind. destruct (c s) as [[a|e] s'] eqn:E; simpl in *.
  - by apply Hk.
  - split; [done|]. intros [= ->]. by apply Hc.
Qed.

Lemma bind_finished {A B} (c : eff PassError Worker.t A) (k : A -> eff PassError Worker.t B) s :
  fst (c s) <> Err Unfinished -> (forall a s', fst (k a s') <> Err Unfinished) -> fst (bind c k s) <> Err Unfinished.
Proof.
  intros Hc Hk. unfold bind. destruct (c s) as [[a|e] s']; simpl in *; [by apply Hk|].
  intros [= ->]. by apply Hc.
Qed.

Lemma on_chain_finished {A} (c : eff ChainError nat A) s : fst (on_chain c s) <> Err Unfinished.
Proof. unfold on_chain. by destruct (c _) as [[] ?]. Qed.

Lemma on_ledger_finished {A} (c : eff LedgerError World.t A) s : fst (on_ledger c s) <> Err Unfinished.
Proof. unfold on_ledger. by destruct (c _) as [[] ?]. Qed.

Section Termination.
Context (wire : Wire.t) (chain : Node.t) (config : ChainConfig.t) (hex : bytes -> string).
Context (late_watch max_ranges : Z).

(** No block changes its hash while the pass runs. *)
Hypothesis stable : forall n m b h h', Node.block_header chain n b = Ok h -> Node.block_header chain m b = Ok h' ->
  BlockHeader.hash h = BlockHeader.hash h'.

Lemma report_finished reason block s : fst (report wire config reason block s) <> Err Unfinished.
Proof. apply bind_finished; [apply on_ledger_finished|done]. Qed.

Lemma preceding_finished c s : fst (preceding_changed wire chain config c s) <> Err Unfinished.
Proof.
  destruct c as [e|]; simpl; [|done]. apply bind_finished; [apply on_chain_finished|]. intros h s1.
  case_bool_decide; [done|]. apply bind_finished; [apply report_finished|done].
Qed.

Lemma cursor_changed_finished c s : fst (cursor_changed wire chain config hex c s) <> Err Unfinished.
Proof.
  destruct c as [e|]; simpl; [|done]. apply bind_finished; [apply on_chain_finished|]. intros h s1.
  case_bool_decide; [done|]. apply bind_finished; [apply report_finished|done].
Qed.

Lemma apply_finished c b h t l s : fst (apply wire config c b h t l s) <> Err Unfinished.
Proof. apply bind_finished; [apply on_ledger_finished|]. by intros []. Qed.

Lemma header_answer b s h s' : Indexer.header chain b s = (Ok h, s') -> exists n, Node.block_header chain n b = Ok h.
Proof.
  unfold Indexer.header, on_chain, call. destruct (Node.block_header _ _ _) eqn:E; [|discriminate].
  intros [= <- <-]. eauto.
Qed.

(** One iteration for each range left and one for each halving of the range. *)
Definition iterations (range_size ranges : Z) : nat :=
  (Z.to_nat (max_ranges - ranges) + Z.to_nat (Z.log2 range_size) + 1)%nat.

Lemma iterations_halved size ranges :
  1 < size -> (iterations (Z.max (size / 2) 1) ranges < iterations size ranges)%nat.
Proof.
  intros H. unfold iterations. rewrite Z.max_l by (apply Z.div_le_lower_bound; lia).
  assert (Z.log2 (size / 2) = Z.log2 size - 1) as ->.
  { change 2 with (2 ^ 1) at 1. rewrite <- Z.shiftr_div_pow2, Z.log2_shiftr by lia.
    pose proof (Z.log2_le_mono 2 size ltac:(lia)) as Hl. change (Z.log2 2) with 1 in Hl. lia. }
  pose proof (Z.log2_le_mono 2 size ltac:(lia)) as Hl. change (Z.log2 2) with 1 in Hl. lia.
Qed.

Lemma scan_enough f1 : forall f2 boundary c from size ranges observed s,
  (iterations size ranges <= f1)%nat -> (iterations size ranges <= f2)%nat ->
  agrees (scan wire chain config max_ranges f1 boundary c from size ranges observed)
         (scan wire chain config max_ranges f2 boundary c from size ranges observed) s.
Proof.
  induction f1 as [|f1 IH]; intros [|f2] boundary c from size ranges observed s H1 H2;
    try (unfold iterations in *; lia). cbn [scan].
  destruct (negb _) eqn:Hgo; [by apply agrees_same|]. apply negb_false_iff in Hgo. bools.
  apply agrees_bind; [apply on_chain_finished|]. intros before s1 Hbefore.
  apply agrees_bind; [apply preceding_finished|]. intros [outcome|] s2 _; [by apply agrees_same|].
  apply agrees_bind; [done|]. intros s3 s4 _. apply agrees_bind; [unfold attempt; by destruct (on_chain _ _)|].
  intros [transfers|e] s5 Hf.
  - apply agrees_bind; [apply on_chain_finished|]. intros after s6 Hafter.
    destruct (header_answer _ _ _ _ Hbefore) as [n Hn], (header_answer _ _ _ _ Hafter) as [m Hm].
    rewrite bool_decide_eq_true_2 by (by eapply stable). simpl.
    apply agrees_bind; [apply apply_finished|]. intros r s7 _.
    assert (iterations size (ranges + 1) < iterations size ranges)%nat by (unfold iterations; lia).
    destruct r; [|by apply agrees_same|]; apply IH; lia.
  - assert (e <> Unfinished) as He.
    { unfold attempt in Hf. match type of Hf with context [on_chain ?c] =>
        pose proof (on_chain_finished c s4) as Hu end.
      destruct (on_chain _ s4) as [r s']. injection Hf as -> _. simpl in Hu. congruence. }
    assert (agrees (throw e : eff PassError Worker.t Pass) (throw e) s5) by (apply agrees_same; simpl; congruence).
    destruct e as [[]| |]; try done. destruct (Z.ltb_spec 1 size); [|done].
    pose proof (iterations_halved size ranges). apply IH; lia.
Qed.

(** C35. A pass ends: when no block changes its hash while it runs, its
    loop makes at most one iteration per range it may scan and one per halving
    of the configured log range, however often the provider refuses a range;
    more fuel changes nothing. *)
Theorem pass_terminates fuel s :
  let enough := (Z.to_nat max_ranges + Z.to_nat (Z.log2 (Z.max (ChainConfig.log_range_size config) 1)) + 1)%nat in
  (enough <= fuel)%nat ->
  fst (pass wire chain config hex late_watch max_ranges fuel s) <> Err Unfinished /\
  pass wire chain config hex late_watch max_ranges fuel s = pass wire chain config hex late_watch max_ranges enough s.
Proof.
  intros enough Hfuel. cut (agrees (pass wire chain config hex late_watch max_ranges fuel)
    (pass wire chain config hex late_watch max_ranges enough) s); [by intros [-> ?]|].
  unfold pass. apply agrees_bind; [apply on_ledger_finished|]. intros c s1 _.
  apply agrees_bind; [apply on_chain_finished|]. intros b s2 _.
  apply agrees_bind; [apply cursor_changed_finished|]. intros [r|] s3 _; [by apply agrees_same|].
  apply agrees_bind; [apply on_ledger_finished|]. intros _ s4 _.
  apply agrees_bind; [|intros _ s5 _].
  { unfold refresh_watch_list. apply bind_finished; [done|]. intros s0 s5.
    apply bind_finished; [apply on_ledger_finished|done]. }
  destruct (_ <? _); [by apply agrees_same|]. apply agrees_bind; [done|]. intros s6 s7 _.
  destruct (WatchCache.addresses (Worker.cache s6)).
  - apply agrees_same. unfold fast_forward. apply bind_finished; [apply apply_finished|]. by intros [].
  - apply scan_enough; unfold iterations, enough in *; lia.
Qed.

End Termination.

(** ** A pass is a sequence of ledger transactions *)

Section Refinement.
Context (wire : Wire.t) (chain : Node.t) (config : ChainConfig.t) (hex : bytes -> string).
Context (late_watch max_ranges : Z) (parse_address : string -> option Address) (ledger_hex : bytes -> string).

(** What any user of the server's database commits: a ledger transaction, a
    chain's clock, a fault raised or cleared. *)
Inductive server_step (db : Db.t) : Db.t -> Prop :=
| srv_ledger db' : ledger_step (Wire.payload_hash wire) parse_address ledger_hex db db' -> server_step db db'
| srv_head id block hash ts db' : record_finalized_head id block hash ts db = Ok db' -> server_step db db'
| srv_fault db' : fault_step (Wire.payload_hash wire) db db' -> server_step db db'.

Abbreviation steps := (rtc server_step) (only parsing).

Hypothesis others_step : forall n db, steps db (Wire.others wire n db).
Hypothesis amounts : forall n tokens lower upper watched l t,
  Node.token_transfers chain n tokens lower upper watched = Ok l -> t ∈ l -> 0 <= WatchedTransfer.amount t.

Lemma fault_steps rep c1 c2 c3 now db r db' :
  fault (Wire.payload_hash wire) (Wire.networks wire) (ChainConfig.chain_id config) rep c1 c2 c3 now db = (r, db') ->
  steps db db'.
Proof.
  unfold fault, transaction. destruct (known_chain _ _); simpl; [|intros [= <- <-]; constructor].
  destruct (raise _ _ _ _ _ _ _ _ _ _) as [[out db1]|] eqn:E; intros [= <- <-]; [|constructor].
  apply rtc_once, srv_fault. by eapply fault_raise.
Qed.

Lemma head_steps b h t now db r db' :
  finalized_head (Wire.networks wire) (ChainConfig.chain_id config) (FinalizedHeadReport.mk b h t) now db = (r, db') ->
  steps db db'.
Proof.
  unfold finalized_head. destruct (known_chain _ _); simpl; [|intros [= <- <-]; constructor].
  destruct (record_finalized_head _ _ _ _ db) as [db1|] eqn:E; intros [= <- <-]; [|constructor].
  eapply rtc_l; [by eapply srv_head|]. apply rtc_once, srv_ledger, step_expire_unbound.
Qed.

Lemma range_steps range now :
  Forall (fun o => 0 <= PaymentObservation.amount o) (RecordFinalizedRange.observations range) ->
  moves steps (finalized_range (Wire.networks wire) (ChainConfig.chain_id config) range now).
Proof.
  intros Hobs. apply moves_transaction; [apply _|]. intros db r db' H. apply rbind_ok in H as (u & _ & H).
  destruct (apply_finalized_range _ _ _ _ _ _ _ _) as [[r' db1]|] eqn:E; simpl in H; [|discriminate].
  injection H as <- <-. apply rtc_once, srv_ledger. by eapply step_range.
Qed.

Lemma apply_steps c b h t l :
  Forall (fun o => 0 <= PaymentObservation.amount o) l -> moves (worker_R steps) (apply wire config c b h t l).
Proof.
  intros Hl. unfold apply. apply moves_bind; [apply (worker_R_preorder steps)| |].
  - apply on_ledger_moves, call_moves; [apply _|done|]. intros n. by apply range_steps.
  - intros []; apply moves_ret, (worker_R_preorder steps).
Qed.

Context (db0 : Db.t).
Definition from_db0 (s : Worker.t) : Prop := steps db0 (Worker.db s).

Lemma from_db0_moves {A} (c : eff PassError Worker.t A) :
  moves (worker_R steps) c -> triple from_db0 c (fun _ => from_db0) (fun _ => from_db0).
Proof.
  intros Hc. eapply triple_moves; [exact Hc|]. intros s s' Hs H. unfold from_db0 in *. by etrans.
Qed.

Lemma transfers_triple tokens lower upper watched :
  triple from_db0 (on_chain (call (fun n => Node.token_transfers chain n tokens lower upper watched)))
    (fun l s => from_db0 s /\ Forall (fun o => 0 <= PaymentObservation.amount o) (observation_of <$> l))
    (fun _ => from_db0).
Proof.
  eapply triple_weaken; [by apply (on_chain_triple _ from_db0)|done| |done]. intros l s [Hs [n Hn]]. split; [done|].
  rewrite list.Forall_forall. intros o (t & -> & Ht)%list_elem_of_fmap. simpl. by eapply amounts.
Qed.

Lemma scan_steps fuel : forall boundary c from size ranges observed,
  triple from_db0 (scan wire chain config max_ranges fuel boundary c from size ranges observed)
    (fun _ => from_db0) (fun _ => from_db0).
Proof.
  induction fuel as [|fuel IH]; intros boundary c from size ranges observed; simpl; [by apply triple_throw|].
  destruct (negb _); [by apply triple_ret|].
  eapply triple_bind; [apply from_db0_moves, (on_chain_moves steps)|]. intros before.
  eapply triple_bind; [apply from_db0_moves, (preceding_moves wire chain config steps others_step fault_steps)|].
  intros [outcome|]; [by apply triple_ret|]. eapply triple_bind with (M := fun _ => from_db0); [by apply triple_get|].
  intros s0. eapply triple_bind with (M := fun r s => from_db0 s /\ forall l, r = Ok l ->
    Forall (fun o => 0 <= PaymentObservation.amount o) (observation_of <$> l)).
  { eapply triple_attempt; [apply transfers_triple|naive_solver|naive_solver]. }
  intros [l|e].
  2: { destruct e as [[]| |]; try (apply triple_throw; naive_solver). destruct (1 <? size).
       - eapply triple_weaken; [apply IH|naive_solver|done|done].
       - apply triple_throw; naive_solver. }
  intros s [Hs Hl]. specialize (Hl l eq_refl). revert s Hs.
  eapply triple_bind; [apply from_db0_moves, (on_chain_moves steps)|]. intros after.
  destruct (negb _); [apply IH|].
  eapply triple_bind; [apply from_db0_moves; by apply apply_steps|]. intros [r ob| |]; [apply IH|by apply triple_ret|apply IH].
Qed.

End Refinement.

(** A pass, however it ends and whatever the node answers and the
    network loses, is a sequence of the transactions the server's database
    knows, as are those of the users running beside it; so everything that
    holds in every state the ledger reaches holds while passes run. *)
Theorem pass_refines_ledger wire chain config hex late_watch max_ranges parse_address ledger_hex fuel s :
  (forall n db, rtc (server_step wire parse_address ledger_hex) db (Wire.others wire n db)) ->
  (forall n tokens lower upper watched l t,
     Node.token_transfers chain n tokens lower upper watched = Ok l -> t ∈ l -> 0 <= WatchedTransfer.amount t) ->
  rtc (server_step wire parse_address ledger_hex) (Worker.db s)
    (Worker.db (snd (pass wire chain config hex late_watch max_ranges fuel s))).
Proof.
  intros Ho Ha. set (R := rtc (server_step wire parse_address ledger_hex)).
  set (P := from_db0 wire parse_address ledger_hex (Worker.db s)).
  cut (triple P (pass wire chain config hex late_watch max_ranges fuel) (fun _ => P) (fun _ => P)).
  { intros H. specialize (H s (reflexivity _)). by destruct (pass _ _ _ _ _ _ _ s) as [[]]. }
  assert (forall A (c : eff PassError Worker.t A), moves (worker_R R) c -> triple P c (fun _ => P) (fun _ => P)) as Hm
    by (intros A c; apply from_db0_moves).
  pose proof (fault_steps wire config parse_address ledger_hex) as Hf.
  pose proof (head_steps wire config parse_address ledger_hex) as Hh.
  unfold pass. eapply triple_bind; [apply Hm, (ledger_cursor_moves wire config R Ho)|]. intros c.
  eapply triple_bind; [apply Hm, (on_chain_moves R)|]. intros b.
  eapply triple_bind; [apply Hm, (cursor_changed_moves wire chain config hex R Ho Hf)|]. intros [r|]; [by apply triple_ret|].
  eapply triple_bind; [apply Hm, (head_moves wire config R Ho Hh)|]. intros u.
  eapply triple_bind; [apply Hm, (refresh_moves wire config late_watch R Ho)|]. intros u'.
  destruct (_ <? _); [by apply triple_ret|]. eapply triple_bind with (M := fun _ => P); [by apply triple_get|].
  intros s0. destruct (WatchCache.addresses (Worker.cache s0)).
  - unfold fast_forward. eapply triple_bind; [apply Hm, (apply_steps wire config parse_address ledger_hex Ho); constructor|].
    intros []; by apply triple_ret.
  - by apply scan_steps.
Qed.

(** ** Signals *)

(** A signalled block is followed up until the ledger has indexed it: the
    target is dropped only when the stored cursor stands at it or past it. *)
Lemma signal_followed_up wire config max_ranges cadence outcome failures target connected draw s next failures' t s' :
  after_pass wire config max_ranges cadence outcome failures (Some target) connected draw s =
    (Ok (next, failures', t), s') ->
  (t = None -> exists c, get_cursor (ChainConfig.chain_id config) (Worker.db s') = Ok (Some c) /\
     target <= IndexerCursor.block c) /\
  (t <> None -> t = Some target).
Proof.
  unfold after_pass. destruct outcome as [[ranges obs| |]|e]; try (by intros [= <- <- <- <-]).
  destruct (max_ranges <=? ranges); [by intros [= <- <- <- <-]|].
  intros (s0 & s1 & [= <- <-] & H)%bind_ok. apply bind_ok in H as (r & s2 & Hr & H).
  unfold attempt in Hr. destruct (on_ledger _ s) as [r0 s3] eqn:El. injection Hr as <- <-.
  destruct r0 as [[c|]|e]; try (by injection H as <- <- <- <-).
  destruct (Z.leb_spec target (IndexerCursor.block c)); injection H as <- <- <- <-; [|by split].
  split; [|done]. intros _. exists c. split; [|done].
  unfold on_ledger in El. destruct (ledger_cursor _ _ _) as [[x|] w] eqn:E; [|discriminate].
  injection El as -> <-. unfold ledger_cursor, http_call in E. apply call_ok in E as (n & db & E).
  injection E as E Hdb. unfold Worker.db. simpl. rewrite <- Hdb.
  apply rbind_ok in E as (u & _ & E). unfold chain_id in E.
  destruct (get_cursor _ db); simpl in E; [|discriminate]. by injection E as ->.
Qed.

(** ** A pass, evaluated

    A request is bound on a chain whose provider serves twenty blocks of logs
    at a time; two transfers pay it. The first request to the server is lost,
    and so is the response to the second range. *)

Module IndexerExample.
Import LedgerExample.

Definition config : ChainConfig.t :=
  ChainConfig.mk chain [TokenConfig.mk Usdc token] [2] [3] [] [] 100 FinalizedTag 0 2000 50 None None None None None
    None.

Definition wire : Wire.t := {|
  Wire.payload_hash := hash;
  Wire.networks := ChainRegistry.mk [config];
  Wire.delivery n := if Nat.eqb n 0 then RequestLost else if Nat.eqb n 17 then ResponseLost else Delivered;
  Wire.others n db := db;
  Wire.database_now n := 2000 + Z.of_nat n;
  Wire.utc_now n := 2000;
  Wire.fresh n := 900 + Z.of_nat n;
|}.

Definition transfer_at (block amount : Z) : WatchedTransfer.t :=
  WatchedTransfer.mk token block block_hash (1700000000 + block) [3; block] 4 0 (replicate 20 8) address amount.

Definition history : list WatchedTransfer.t := [transfer_at 105 60; transfer_at 130 50].

Definition in_window (lower upper : Z) (watched : list Address) (t : WatchedTransfer.t) : bool :=
  bool_decide (WatchedTransfer.recipient t ∈ watched) && (lower <=? WatchedTransfer.block_number t)
  && (WatchedTransfer.block_number t <=? upper).

Definition header_of (b : Z) : BlockHeader.t := BlockHeader.mk b (replicate 32 (b mod 11)) (1700000000 + b).

Definition node : Node.t :=
  {| Evidence.EvidenceExample.node with
     Node.finalized_header n := Ok (header_of 140);
     Node.block_header n b := if (0 <=? b) && (b <=? 1000) then Ok (header_of b) else Err ReadOnly;
     Node.token_transfers n tokens lower upper watched :=
       if upper - lower + 1 <=? 20 then Ok (List.filter (in_window lower upper watched) history)
       else Err (LogRangeTooLarge "block range") |}.

Definition at_start : Worker.t := Worker.mk (World.mk issued 0) WatchCache.default.

Definition run_pass : result PassError Pass * Worker.t :=
  pass wire node config hex 0 10 20 at_start.

Example example_pass :
  (fst run_pass, get_cursor chain (Worker.db (snd run_pass)), WatchCache.addresses (Worker.cache (snd run_pass))) =
  (Ok (Scanned 4 2), Ok (Some (IndexerCursor.mk 140 (replicate 32 8) (Some 1700000140))), [address]).
Proof. vm_compute. reflexivity. Qed.

Lemma window_elem lower upper watched t :
  t ∈ List.filter (in_window lower upper watched) history <->
  t ∈ history /\ WatchedTransfer.recipient t ∈ watched /\ lower <= WatchedTransfer.block_number t <= upper.
Proof.
  rewrite list_elem_of_In, filter_In, <- list_elem_of_In. unfold in_window.
  rewrite !andb_true_iff, bool_decide_eq_true, !Z.leb_le. tauto.
Qed.

Lemma node_transfers n tokens lower upper watched l :
  Node.token_transfers node n tokens lower upper watched = Ok l ->
  l = List.filter (in_window lower upper watched) history.
Proof. cbn -[history List.filter]. destruct (_ <=? 20); [|discriminate]. by intros [= <-]. Qed.

Lemma node_faithful : faithful node config (fun t => t ∈ history).
Proof.
  assert (forall b, (0 <=? b) && (b <=? 1000) = true -> header_typed (header_of b)) as Hh.
  { intros b Hb. bools. unfold header_typed, header_of, u64_max. simpl. split_and!; [done|lia..]. }
  split.
  - intros n b h. simpl. destruct (_ && _) eqn:E; [|discriminate]. intros [= <-]. by apply Hh.
  - intros n h [= <-]. by apply Hh.
  - intros n lower upper watched l t ->%node_transfers. rewrite window_elem. tauto.
  - intros n lower upper watched l t ->%node_transfers. rewrite window_elem. tauto.
Qed.

Lemma one_address : addresses_distinct chain (Worker.db at_start).
Proof.
  intros id1 id2 r1 r2 a H1 H2 _ _ _ _.
  assert (forall (id : Uuid) r, Db.invoices issued !! id = Some r -> id = 1) as Hone.
  { intros id r Hr. apply elem_of_map_to_list in Hr. vm_compute in Hr.
    apply elem_of_cons in Hr as [[= -> _]|Hr]; [done|by apply not_elem_of_nil in Hr]. }
  by rewrite (Hone _ _ H1), (Hone _ _ H2).
Qed.

Lemma pass_misses_nothing_witness :
  exists c, get_cursor chain (Worker.db (snd run_pass)) = Ok c /\ start_of config None <= start_of config c /\
    forall t, due_transfer config (fun t => t ∈ history) issued
        (WatchCache.addresses (Worker.cache (snd run_pass))) 100 (start_of config c) t ->
      is_Some (Db.payment_observations (Worker.db (snd run_pass)) !! transfer_key chain t).
Proof.
  destruct (pass_misses_nothing wire node config hex 0 10 (fun t => t ∈ history) 20 at_start None
    (fst run_pass) (snd run_pass)) as (c & H1 & H2 & H3 & _).
  - exact node_faithful.
  - intros n db. reflexivity.
  - unfold u64_max. simpl. lia.
  - vm_compute. reflexivity.
  - discriminate.
  - exact one_address.
  - unfold run_pass. apply surjective_pairing.
  - exists c. split_and!; [exact H1|exact H2|exact H3].
Defined.

(** The chain replaced block 110 after the ledger counted it final. *)
Definition reorged : Worker.t :=
  Worker.mk (World.mk (state_of pay) 1) WatchCache.default.

Definition halted_pass : result PassError Pass * Worker.t := pass wire node config hex 0 10 20 reorged.

Lemma finality_violation_halts_witness :
  fst halted_pass = Ok PassHalted /\
  halted (as_i64 chain) (Worker.db (snd halted_pass)) = true.
Proof.
  assert (fst halted_pass = Ok PassHalted) as Hp by (vm_compute; reflexivity).
  split; [exact Hp|].
  refine (proj1 (proj2 (proj2 (finality_violation_halts wire node config hex 0 10 20 reorged
    (IndexerCursor.mk 110 block_hash (Some 1900000000)) _ _ _ _ _ (surjective_pairing _)) PassHalted Hp))).
  - intros n db. reflexivity.
  - vm_compute. reflexivity.
  - intros n h [= <-] Heq. vm_compute in Heq. discriminate.
Defined.

Lemma pass_terminates_witness :
  fst (pass wire node config hex 0 10 40 at_start) <> Err Unfinished.
Proof.
  refine (proj1 (pass_terminates wire node config hex 0 10 _ 40 at_start _)).
  - intros n m b h h'. simpl. destruct (_ && _); congruence.
  - vm_compute. lia.
Defined.

Lemma pass_refines_ledger_witness :
  rtc (server_step wire parse hex) (Worker.db at_start) (Worker.db (snd run_pass)).
Proof.
  apply (pass_refines_ledger wire node config hex 0 10 parse hex 20 at_start).
  - intros n db. constructor.
  - intros n tokens lower upper watched l t ->%node_transfers [Hin _]%window_elem.
    apply list_elem_of_In in Hin as [<-|[<-|[]]]; simpl; lia.
Defined.

(** ** The fingerprint is not the list

    Request 1 settled at 4000 and request 2 was issued at 5000; the statement
    that issues request 3 began at 4500 and commits last. Between two polls
    request 1 leaves the watch list and request 3 joins it: the count is 2 and
    the newest change is 5000 both times. *)

Definition at_ (n : Z) : Address := replicate 20 n.
Definition issue_at (id : Uuid) (key : string) (now : Timestamp) (db : Db.t) :=
  insert_issued hex (input id key (at_ id)) None now now db.
Definition with_second : Db.t := Eval vm_compute in state_of (issue_at 20 "order-2" 5000 swept).
Definition with_third : Db.t := Eval vm_compute in state_of (issue_at 30 "order-3" 4500 with_second).

Definition poll (since : Timestamp) (known : option string) (db : Db.t) : result RpcErrorCode WatchList.t :=
  fst (watch_list (ChainRegistry.mk [config]) chain (WatchListQuery.mk since known) db).

Lemma fingerprint_withholds_change :
  is_ok (issue_at 30 "order-3" 4500 with_second) = true /\
  poll 3500 None with_second = Ok (WatchList.mk "2:5000" (Some [address; at_ 20])) /\
  poll 4200 (Some "2:5000") with_third = Ok (WatchList.mk "2:5000" None) /\
  poll 4200 None with_third = Ok (WatchList.mk "2:5000" (Some [at_ 20; at_ 30])).
Proof. vm_compute. auto. Qed.

Lemma watch_list_exact_witness :
  address ∈ [address; at_ 20] <->
  exists id row, Db.invoices with_second !! id = Some row /\ watched chain 3500 row = true /\
    DbInvoice.payment_address row = Some address.
Proof.
  refine (proj2 (watch_list_exact (ChainRegistry.mk [config]) chain (WatchListQuery.mk 3500 None) with_second
    (WatchList.mk "2:5000" (Some [address; at_ 20])) with_second _) address).
  vm_compute. reflexivity.
Defined.

End IndexerExample.
