(* ===== verification/Authorizations.v ===== *)
(** * gum-core: the merchant's withdrawal authorization

    Models [crates/gum-core/src/withdrawal_authorization.rs]: the EIP-3009
    message a merchant signs for one leg, its digest under the token's domain,
    the document a wallet is shown, and the verification of the signature.  The
    struct hashes, the domain separator, the ABI encoding and the curve are the
    class [AuthorizationHashes]; Keccak, hexadecimal and address texts are those
    of [Attribution.Primitives]. *)

From stdpp Require Import pretty.
From S2P Require Import Prelude Core Contracts Bus Tables Registry Invoices Attribution.

Definition TRANSFER_WITH_AUTHORIZATION_PRIMARY_TYPE : string := "TransferWithAuthorization".
Definition RECEIVE_WITH_AUTHORIZATION_PRIMARY_TYPE : string := "ReceiveWithAuthorization".

Module TokenDomain.
Record t := mk { name : string; version : string; chain_id : Z; token : Address }.
End TokenDomain.

Inductive AuthorizationKind := AuthTransfer | AuthReceive.

#[export] Instance AuthorizationKind_eq_dec : EqDecision AuthorizationKind.
Proof. solve_decision. Defined.

Definition primary_type (k : AuthorizationKind) : string :=
  match k with
  | AuthTransfer => TRANSFER_WITH_AUTHORIZATION_PRIMARY_TYPE
  | AuthReceive => RECEIVE_WITH_AUTHORIZATION_PRIMARY_TYPE
  end.

Definition kind_as_str (k : AuthorizationKind) : string :=
  match k with AuthTransfer => "transfer" | AuthReceive => "receive" end.

Definition kind_parse (value : string) : option AuthorizationKind :=
  if String.eqb value "transfer" then Some AuthTransfer
  else if String.eqb value "receive" then Some AuthReceive
  else None.

Module WithdrawalAuthorization.
Record t := mk {
  kind : AuthorizationKind;
  from : Address;
  to : Address;
  value : Z;
  valid_before : Z;
  nonce : B256;
}.
End WithdrawalAuthorization.

(** The fields of the two EIP-712 structs, in their order: from, to, value,
    validAfter, validBefore, nonce. *)
Class AuthorizationHashes := {
  domain_separator : TokenDomain.t -> B256;
  hash_transfer : Address -> Address -> Z -> Z -> Z -> B256 -> B256;
  hash_receive : Address -> Address -> Z -> Z -> Z -> B256 -> B256;
  abi_encode_destination : Z -> B256 -> B256 -> bytes;
  (* [Signature::from_raw], as the bytes [as_bytes] gives back *)
  signature_from_raw : bytes -> option bytes;
  (* [recover_address_from_prehash] *)
  recover_prehash : bytes -> B256 -> option Address;
}.

(** ** The document a wallet signs *)

Module TypedDataField.
Record t := mk { name : string; type_ : string }.
End TypedDataField.

#[export] Instance TypedDataField_eq_dec : EqDecision TypedDataField.t.
Proof. solve_decision. Defined.

Module AuthorizationTypes.
Record t := mk { primary_type : string }.

Definition domain_fields : list TypedDataField.t :=
  [TypedDataField.mk "name" "string"; TypedDataField.mk "version" "string"; TypedDataField.mk "chainId" "uint256";
   TypedDataField.mk "verifyingContract" "address"].

Definition message_fields : list TypedDataField.t :=
  [TypedDataField.mk "from" "address"; TypedDataField.mk "to" "address"; TypedDataField.mk "value" "uint256";
   TypedDataField.mk "validAfter" "uint256"; TypedDataField.mk "validBefore" "uint256";
   TypedDataField.mk "nonce" "bytes32"].

(** The entries [serialize] writes, and the map [deserialize] reads. *)
Definition serialize (ty : t) : list (string * list TypedDataField.t) :=
  [("EIP712Domain", domain_fields); (primary_type ty, message_fields)].

Definition deserialize (entries : gmap string (list TypedDataField.t)) : result string t :=
  if negb (bool_decide (entries !! "EIP712Domain" = Some domain_fields))
  then Err "types.EIP712Domain is not the standard domain"
  else match map_to_list (delete "EIP712Domain" entries) with
       | [(name, fields)] =>
           if bool_decide (fields = message_fields) then Ok (mk name)
           else Err ("types." +:+ name +:+ " is not the EIP-3009 authorization type")
       | _ => Err "types must name exactly one message type"
       end.
End AuthorizationTypes.

Module AuthorizationMessage.
Record t := mk { from : string; to : string; value : string; valid_after : string; valid_before : string; nonce : string }.
End AuthorizationMessage.

Module TypedDomain.
Record t := mk { name : string; version : string; chain_id : Z; verifying_contract : string }.
End TypedDomain.

Module AuthorizationTypedData.
Record t := mk {
  domain : TypedDomain.t;
  primary_type : string;
  types : AuthorizationTypes.t;
  message : AuthorizationMessage.t;
}.
End AuthorizationTypedData.

Inductive AuthorizationError := SignatureMalformed | SignatureInvalid | SignerMismatch.

Definition authorization_error_text (e : AuthorizationError) : string :=
  match e with
  | SignatureMalformed => "signature must be 0x-prefixed hex of 65 bytes (r || s || v)"
  | SignatureInvalid => "signature is invalid"
  | SignerMismatch => "signature was not made by the wallet the authorization names"
  end.

Definition ZERO_ADDRESS : Address := replicate 20 0.

Section Authorization.
Context `{P : Primitives} `{H : AuthorizationHashes}.

(** What a bridge leg's nonce commits to. *)
Definition bridge_nonce (destination_domain : Z) (mint_recipient : Address) (salt : B256) : B256 :=
  keccak256 (abi_encode_destination destination_domain (into_word mint_recipient) salt).

Definition struct_hash (a : WithdrawalAuthorization.t) : B256 :=
  (match WithdrawalAuthorization.kind a with AuthTransfer => hash_transfer | AuthReceive => hash_receive end)
    (WithdrawalAuthorization.from a) (WithdrawalAuthorization.to a) (WithdrawalAuthorization.value a) 0
    (WithdrawalAuthorization.valid_before a) (WithdrawalAuthorization.nonce a).

Definition authorization_digest (a : WithdrawalAuthorization.t) (domain : TokenDomain.t) : B256 :=
  keccak256 ([25; 1] ++ domain_separator domain ++ struct_hash a).

Definition typed_data (a : WithdrawalAuthorization.t) (domain : TokenDomain.t) : AuthorizationTypedData.t :=
  let ty := primary_type (WithdrawalAuthorization.kind a) in
  AuthorizationTypedData.mk
    (TypedDomain.mk (TokenDomain.name domain) (TokenDomain.version domain) (TokenDomain.chain_id domain)
       (to_checksum (TokenDomain.token domain)))
    ty (AuthorizationTypes.mk ty)
    (AuthorizationMessage.mk (to_checksum (WithdrawalAuthorization.from a)) (to_checksum (WithdrawalAuthorization.to a))
       (pretty (WithdrawalAuthorization.value a)) "0" (pretty (WithdrawalAuthorization.valid_before a))
       (word_string (WithdrawalAuthorization.nonce a))).

Definition verify_authorization (a : WithdrawalAuthorization.t) (domain : TokenDomain.t) (signature : string)
  : result AuthorizationError bytes :=
  let! bytes := ok_or (hex_decode signature) SignatureMalformed in
  let! _ := if negb (Nat.eqb (length bytes) 65) then Err SignatureMalformed else Ok tt in
  let! signature := ok_or (signature_from_raw bytes) SignatureMalformed in
  let! recovered := ok_or (recover_prehash signature (authorization_digest a domain)) SignatureInvalid in
  if bool_decide (recovered = ZERO_ADDRESS) || negb (bool_decide (recovered = WithdrawalAuthorization.from a))
  then Err SignerMismatch
  else Ok signature.

(** What an accepted signature shows. *)
Definition signed_by (a : WithdrawalAuthorization.t) (domain : TokenDomain.t) (signature : bytes) : Prop :=
  recover_prehash signature (authorization_digest a domain) = Some (WithdrawalAuthorization.from a) /\
  WithdrawalAuthorization.from a <> ZERO_ADDRESS.

Lemma verified_signed a domain text signature :
  verify_authorization a domain text = Ok signature -> signed_by a domain signature.
Proof.
  unfold verify_authorization. intros (b & _ & Hr)%rbind_ok. apply rbind_ok in Hr as ([] & _ & Hr).
  apply rbind_ok in Hr as (s & _ & Hr). apply rbind_ok in Hr as (r & Hrec%ok_or_ok & Hr).
  destruct (bool_decide (r = ZERO_ADDRESS)) eqn:Hz; [discriminate|].
  destruct (bool_decide (r = WithdrawalAuthorization.from a)) eqn:Hf; [|discriminate]. injection Hr as <-.
  apply bool_decide_eq_true in Hf as ->. apply bool_decide_eq_false in Hz. by split.
Qed.

(** A payee, a signer: two signatures by the same wallet over one digest. *)
Lemma types_roundtrip ty : AuthorizationTypes.primary_type ty <> "EIP712Domain"%string ->
  AuthorizationTypes.deserialize (list_to_map (AuthorizationTypes.serialize ty)) = Ok ty.
Proof.
  intros Hne. destruct ty as [name]. cbn in Hne. unfold AuthorizationTypes.deserialize, AuthorizationTypes.serialize. cbn.
  rewrite lookup_insert_eq, bool_decide_true by done. cbn [negb].
  rewrite delete_insert_id; [|by rewrite lookup_insert_ne, lookup_empty].
  rewrite insert_empty, map_to_list_singleton. by rewrite bool_decide_true.
Qed.

End Authorization.
