(* ===== verification/WithdrawalApi.v ===== *)
(** * gum-server: the withdrawals API

    Models [crates/gum-server/src/api/withdrawals.rs]: planning a withdrawal's
    legs from the wallet's balances, creating it, taking the merchant's
    signatures, cancelling, and the answers.  A handler is a computation over
    the shared database ([Effects]): the other users run between any two of its
    statements.  Parameters: the chains' readers, the account's wallet as the
    accounts table has it, clocks, randomness, and the rendering of dates,
    decimals and parse errors. *)

From stdpp Require Import sorting pretty.
From S2P Require Import Prelude Text Core Contracts Ids Bus Tables Registry Invoices Attribution Withdrawals.
From S2P Require Import PayerEmail Notifications Dispatcher Amounts Responses.
From S2P Require Import ApiError Effects Api Authorizations.

Import Withdrawal.

Definition AUTHORIZATION_TTL : Z := 24 * 3600.
Definition MAX_IDEMPOTENCY_KEY_BYTES : nat := 255.

(** ** Requests and answers *)

Module CreateWithdrawalRequest.
Record t := mk { currency : option string; chain_id : string; address : string }.
End CreateWithdrawalRequest.

Module LegAuthorization.
Record t := mk { leg_id : Uuid; signature : string }.
End LegAuthorization.

Module NoncePreimage.
Record t := mk { destination_domain : Z; mint_recipient : string; salt : string }.
End NoncePreimage.

Module AuthorizationResponse.
Record t := mk {
  primary_type : string;
  typed_data : AuthorizationTypedData.t;
  expires_at : string;
  forwarder : option string;
  nonce_preimage : option NoncePreimage.t;
}.
End AuthorizationResponse.

Module LegResponse.
Record t := mk {
  id : Uuid;
  kind : string;
  source_chain : ChainDto.t;
  token : TokenDto.t;
  amount : string;
  amount_base_units : string;
  state : string;
  authorization : option AuthorizationResponse.t;
  transfer_tx_hash : option string;
  burn_tx_hash : option string;
  mint_tx_hash : option string;
  failure_reason : option string;
}.
End LegResponse.

Module WithdrawalResponse.
Record t := mk {
  id : Uuid;
  status : string;
  wallet_address : string;
  currency : string;
  destination_chain : ChainDto.t;
  destination_address : string;
  legs : list LegResponse.t;
  created_at : string;
  completed_at : option string;
  cancelled_at : option string;
  failed_at : option string;
}.
End WithdrawalResponse.

Module WithdrawalPage.
Record t := mk { withdrawals : list WithdrawalResponse.t; next_cursor : option Uuid }.
End WithdrawalPage.

(** ** The environment *)

(** The trait [ChainReads]. *)
Module ChainReads.
Record t := mk {
  balance : Z -> Address -> Address -> result string Z;
  domain : Z -> Address -> option TokenDomain.t;
}.
End ChainReads.

Module ApiEnv.
Record t := mk {
  networks : ChainRegistry.t;
  chain_reader : option (nat -> ChainReads.t);
  (* the [wallet_address] of the account's metadata *)
  wallet_address : nat -> Uuid -> result DbError (option string);
  others : nat -> Db.t -> Db.t;
  database_now : nat -> Timestamp;
  unix_now : nat -> Z;
  (* identifiers and random words, by step and number *)
  fresh : nat -> nat -> Uuid;
  random : nat -> nat -> B256;
  address_error : string -> string;
  rfc3339 : Timestamp -> string;
  format_units : Z -> Z -> option string;
}.
End ApiEnv.

(** ** Reads of the repository *)

Definition find_withdrawal_by_key (account : Uuid) (key : string) (db : Db.t) : option (Uuid * DbWithdrawal.t) :=
  List.find (fun kv => (DbWithdrawal.account_id (snd kv) =? account)
                       && String.eqb (DbWithdrawal.idempotency_key (snd kv)) key)
    (map_to_list (Db.withdrawals db)).

Definition get_withdrawal (account id : Uuid) (db : Db.t) : option DbWithdrawal.t :=
  match Db.withdrawals db !! id with
  | Some w => if DbWithdrawal.account_id w =? account then Some w else None
  | None => None
  end.

(** [ORDER BY created_at DESC, id DESC]. *)
Definition newer (a b : Uuid * DbWithdrawal.t) : Prop :=
  DbWithdrawal.created_at (snd b) < DbWithdrawal.created_at (snd a) \/
  DbWithdrawal.created_at (snd b) = DbWithdrawal.created_at (snd a) /\ fst b <= fst a.

#[export] Instance newer_dec : RelDecision newer.
Proof. intros a b. unfold newer. apply _. Defined.

(** [(candidate.created_at, candidate.id) < (cursor.created_at, cursor.id)]. *)
Definition precedes (cursor candidate : Uuid * DbWithdrawal.t) : bool :=
  (DbWithdrawal.created_at (snd candidate) <? DbWithdrawal.created_at (snd cursor))
  || ((DbWithdrawal.created_at (snd candidate) =? DbWithdrawal.created_at (snd cursor)) && (fst candidate <? fst cursor)).

Definition list_withdrawals (account : Uuid) (limit : nat) (starting_after : option Uuid) (db : Db.t)
  : list (Uuid * DbWithdrawal.t) :=
  take (S limit) (merge_sort newer
    (List.filter (fun kv =>
         (DbWithdrawal.account_id (snd kv) =? account)
         && match starting_after with
            | None => true
            | Some id => match get_withdrawal account id db with
                         | Some w => precedes (id, w) kv
                         | None => false
                         end
            end)
       (map_to_list (Db.withdrawals db)))).

(** [ORDER BY withdrawal_id, position]. *)
Definition leg_before (a b : Uuid * Leg.t) : Prop :=
  Leg.withdrawal_id (snd a) < Leg.withdrawal_id (snd b) \/
  Leg.withdrawal_id (snd a) = Leg.withdrawal_id (snd b) /\
  LegTerms.position (Leg.terms (snd a)) <= LegTerms.position (Leg.terms (snd b)).

#[export] Instance leg_before_dec : RelDecision leg_before.
Proof. intros a b. unfold leg_before. apply _. Defined.

Fixpoint decode_rows (rows : list (Uuid * Leg.t)) : result DbError (list (Uuid * Leg.t)) :=
  match rows with
  | [] => Ok []
  | (id, row) :: rest =>
      let! leg := leg_try_from row in
      let! legs := decode_rows rest in
      Ok ((id, leg) :: legs)
  end.

Definition legs_for (ids : list Uuid) (db : Db.t) : result DbError (list (Uuid * Leg.t)) :=
  decode_rows (merge_sort leg_before
    (List.filter (fun kv => bool_decide (Leg.withdrawal_id (snd kv) ∈ ids)) (map_to_list (Db.withdrawal_legs db)))).

Section Handlers.
Context `{P : Primitives} `{H : AuthorizationHashes} `{U : UuidText} (env : ApiEnv.t).

Abbreviation fetch := (Api.fetch (ApiEnv.others env)) (only parsing).

(** ** Planning *)

Definition read_balance (r : ChainReads.t) (currency : Currency) (wallet : Address) (c : ChainConfig.t)
  : option (result string (Z * Address * Z)) :=
  token ← ChainConfig.token c currency;
  let address := TokenConfig.address token in
  Some (let! b := ChainReads.balance r (ChainConfig.chain_id c) address wallet in
        Ok (ChainConfig.chain_id c, address, b)).

(** [try_join_all], and the answers that are there of [join_all]. *)
Fixpoint all_reads {A} (l : list (result string A)) : result string (list A) :=
  match l with
  | [] => Ok []
  | r :: rest => let! a := r in let! l := all_reads rest in Ok (a :: l)
  end.

Definition good_reads {A} (l : list (result string A)) : list A :=
  omap (fun r => match r with Ok a => Some a | Err _ => None end) l.

Definition unavailable {A} (r : result string A) : result ApiError.t A :=
  match r with
  | Ok a => Ok a
  | Err e => Err (ApiError.withdrawals_unavailable ("Could not read the wallet's balance: " +:+ e))
  end.

Definition balances (r : ChainReads.t) (currency : Currency) (wallet : Address) (destination_chain_id : Z)
  : result ApiError.t (list (Z * Address * Z)) :=
  let networks := ApiEnv.networks env in
  let read := read_balance r currency wallet in
  if is_some (Currency.cross_chain_settlement currency) then
    unavailable (all_reads (omap read (ChainRegistry.chains networks)))
  else
    let! destination := ok_or (c ← ChainRegistry.get networks destination_chain_id; read c)
                          (ApiError.internal "destination chain does not serve the currency") in
    let! destination := unavailable destination in
    if negb (snd destination =? 0) then Ok [destination]
    else
      let elsewhere := List.filter (fun c => negb (ChainConfig.chain_id c =? destination_chain_id))
                         (ChainRegistry.chains networks) in
      Ok (destination :: List.filter (fun b => negb (snd b =? 0)) (good_reads (omap read elsewhere))).

(** The leg of one balance; [n] legs come before it. *)
Definition plan_leg (r : ChainReads.t) (tick : nat) (currency : Currency) (valid_before destination_chain_id : Z)
    (destination : Address) (n : nat) (chain_id : Z) (token : Address) (balance : Z) : result ApiError.t NewLeg.t :=
  let networks := ApiEnv.networks env in
  let! domain := ok_or (ChainReads.domain r chain_id token)
                   (ApiError.withdrawals_unavailable (chain_name chain_id +:+ " is not readable on this deployment")) in
  let! '(kind, authorization_to, nonce, salt) :=
    if chain_id =? destination_chain_id then
      Ok (LegTransfer, to_checksum destination, ApiEnv.random env tick n, None)
    else
      let! source := ok_or (ChainRegistry.cctp networks chain_id)
        (ApiError.withdrawals_unavailable ("Bridging from " +:+ chain_name chain_id +:+
           " is not available on this deployment; withdraw to an address on " +:+ chain_name chain_id +:+ " instead")) in
      let! target := ok_or (ChainRegistry.cctp networks destination_chain_id)
        (ApiError.withdrawals_unavailable ("Bridging to " +:+ chain_name destination_chain_id +:+
           " is not available on this deployment")) in
      if MAX_CCTP_BURN_PER_MESSAGE <? balance then
        Err (ApiError.withdrawal_exceeds_bridge_limit (chain_name chain_id)
               (default (pretty balance) (ApiEnv.format_units env balance (Currency.decimals currency))))
      else
        let salt := ApiEnv.random env tick n in
        Ok (LegBridge, to_checksum (CctpConfig.forwarder source),
            bridge_nonce (CctpConfig.domain target) destination salt, Some salt) in
  Ok (NewLeg.mk (ApiEnv.fresh env tick n) (Z.of_nat n) kind chain_id balance (to_checksum (TokenDomain.token domain))
        (TokenDomain.name domain) (TokenDomain.version domain) authorization_to nonce salt valid_before).

Definition plan_legs (r : ChainReads.t) (tick : nat) (currency : Currency) (balances : list (Z * Address * Z))
    (destination_chain_id : Z) (destination : Address) : result ApiError.t (list NewLeg.t) :=
  let valid_before := ApiEnv.unix_now env tick + AUTHORIZATION_TTL in
  let bridges := is_some (Currency.cross_chain_settlement currency) in
  try_fold (fun legs '(chain_id, token, balance) =>
      if (balance =? 0) || (negb (chain_id =? destination_chain_id) && negb bridges) then Ok legs
      else
        let! leg := plan_leg r tick currency valid_before destination_chain_id destination (length legs)
                      chain_id token balance in
        Ok (legs ++ [leg]))
    [] balances.

(** ** Shaping *)

(** What a stored leg asks the wallet to sign, and under which domain. *)
Definition leg_authorization (leg : Leg.t) (wallet : Address)
  : result ApiError.t (WithdrawalAuthorization.t * TokenDomain.t) :=
  let terms := Leg.terms leg in
  let malformed field := ApiError.internal ("stored leg " +:+ field +:+ " is malformed") in
  let! to := ok_or (parse_address (LegTerms.authorization_to terms)) (malformed "payee") in
  let! token := ok_or (parse_address (LegTerms.token_address terms)) (malformed "token") in
  Ok (WithdrawalAuthorization.mk
        (match LegTerms.kind terms with LegTransfer => AuthTransfer | LegBridge => AuthReceive end)
        wallet to (LegTerms.amount terms) (as_u64 (LegTerms.valid_before terms)) (LegTerms.nonce terms),
      TokenDomain.mk (LegTerms.domain_name terms) (LegTerms.domain_version terms)
        (as_u64 (LegTerms.source_chain_id terms)) token).

Definition chain_dto (chain_id : Z) : ChainDto.t :=
  ChainDto.mk (pretty chain_id) (chain_name chain_id) (native_symbol chain_id).

Definition leg_kind_str (k : LegKind) : string := match k with LegTransfer => "transfer" | LegBridge => "bridge" end.

Definition leg_response (currency : Currency) (wallet destination : Address) (destination_domain : option Z)
    (kv : Uuid * Leg.t) : LegResponse.t :=
  let '(id, leg) := kv in
  let terms := Leg.terms leg in
  let source := as_u64 (LegTerms.source_chain_id terms) in
  let authorization :=
    match Leg.state leg with
    | AwaitingSignature =>
        match leg_authorization leg wallet with
        | Ok (a, domain) =>
            Some (AuthorizationResponse.mk (primary_type (WithdrawalAuthorization.kind a)) (typed_data a domain)
                    (ApiEnv.rfc3339 env (as_u64 (LegTerms.valid_before terms) * 10 ^ 6))
                    (match LegTerms.kind terms with LegBridge => Some (LegTerms.authorization_to terms) | LegTransfer => None end)
                    (match LegTerms.kind terms, LegTerms.salt terms, destination_domain with
                     | LegBridge, Some salt, Some domain =>
                         Some (NoncePreimage.mk domain (to_checksum destination) (word_string salt))
                     | _, _, _ => None
                     end))
        | Err _ => None
        end
    | _ => None
    end in
  LegResponse.mk id (leg_kind_str (LegTerms.kind terms)) (chain_dto source)
    (TokenDto.mk (Currency.symbol_on currency source) (LegTerms.token_address terms) (Currency.decimals currency))
    (default ""%string (ApiEnv.format_units env (LegTerms.amount terms) (Currency.decimals currency)))
    (pretty (LegTerms.amount terms)) (state_as_str (Leg.state leg)) authorization
    (hex_encode_prefixed <$> Leg.transfer_tx_hash leg) (hex_encode_prefixed <$> Leg.burn_tx_hash leg)
    (hex_encode_prefixed <$> Leg.mint_tx_hash leg) (Leg.failure_reason leg).

Definition withdrawal_status (row : DbWithdrawal.t) (legs : list (Uuid * Leg.t)) : string :=
  if is_some (DbWithdrawal.cancelled_at row) then "cancelled"
  else if is_some (DbWithdrawal.completed_at row) then "completed"
  else if is_some (DbWithdrawal.failed_at row) then "failed"
  else if existsb (fun kv => bool_decide (Leg.state (snd kv) = AwaitingSignature)) legs then "awaiting_signature"
  else "in_progress".

Definition response (id : Uuid) (row : DbWithdrawal.t) (legs : list (Uuid * Leg.t)) : WithdrawalResponse.t :=
  let currency := match Currency.from_str (DbWithdrawal.currency row) with Ok c => c | Err _ => Usdc end in
  let wallet := default ZERO_ADDRESS (parse_address (DbWithdrawal.wallet_address row)) in
  let destination := default ZERO_ADDRESS (parse_address (DbWithdrawal.destination_address row)) in
  let chain := as_u64 (DbWithdrawal.destination_chain_id row) in
  let domain := CctpConfig.domain <$> ChainRegistry.cctp (ApiEnv.networks env) chain in
  let date := ApiEnv.rfc3339 env in
  WithdrawalResponse.mk id (withdrawal_status row legs) (DbWithdrawal.wallet_address row) (Currency.code currency)
    (chain_dto chain) (DbWithdrawal.destination_address row)
    (leg_response currency wallet destination domain <$> legs)
    (date (DbWithdrawal.created_at row)) (date <$> DbWithdrawal.completed_at row)
    (date <$> DbWithdrawal.cancelled_at row) (date <$> DbWithdrawal.failed_at row).

Definition withdrawal_id (value : string) : api Uuid :=
  refuse_unless (id_parse WithdrawalId value) ApiError.withdrawal_not_found.

(** [get], then [legs]: the answer most handlers end with. *)
Definition present (account id : Uuid) (missing : ApiError.t) : api WithdrawalResponse.t :=
  let* row := fetch (fun _ db => Ok (get_withdrawal account id db)) in
  let* row := refuse_unless row missing in
  let* legs := fetch (fun _ db => legs_for [id] db) in
  ret (response id row legs).

(** ** Handlers *)

(** The status, whether the answer is a replay, and the body. *)
Definition replay_withdrawal (id : Uuid) (existing : DbWithdrawal.t) (currency : Currency) (destination_chain_id : Z)
    (destination_address : string) : api (Z * bool * WithdrawalResponse.t) :=
  let* _ := guarded (negb (String.eqb (DbWithdrawal.currency existing) (Currency.code currency))
                     || negb (as_u64 (DbWithdrawal.destination_chain_id existing) =? destination_chain_id)
                     || negb (String.eqb (DbWithdrawal.destination_address existing) destination_address))
              ApiError.idempotency_conflict in
  let* legs := fetch (fun _ db => legs_for [id] db) in
  ret (200, true, response id existing legs).

Definition requested_currency (currency : option string) : result ApiError.t Currency :=
  match trim <$> currency with
  | None => Ok Usdc
  | Some code =>
      if String.eqb code "" then Ok Usdc
      else match Currency.from_str code with
           | Ok c => Ok c
           | Err _ => Err (ApiError.invalid_request "currency must be USDC or USDT")
           end
  end.

Definition requested_chain (currency : Currency) (chain_id : string) : result ApiError.t Z :=
  let! id := ok_or (id ← parse_u64 (trim chain_id);
                    if is_some (ChainRegistry.get (ApiEnv.networks env) id) then Some id else None)
               (ApiError.invalid_request "destination.chain_id must be one of this deployment's networks") in
  if negb (is_some (ChainRegistry.token (ApiEnv.networks env) id currency)) then
    Err (ApiError.invalid_request ("destination.chain_id must be a network serving " +:+ Currency.code currency +:+ "; "
           +:+ chain_name id +:+ " does not"))
  else Ok id.

Definition requested_destination (address : string) : result ApiError.t Address :=
  let! a := ok_or (parse_address (trim address))
              (ApiError.invalid_request ("invalid destination.address: " +:+ ApiEnv.address_error env address)) in
  if bool_decide (a = ZERO_ADDRESS) then Err (ApiError.invalid_request "destination.address must not be the zero address")
  else Ok a.

Definition requested_key (header : option string) : result ApiError.t string :=
  let! key := ok_or header ApiError.missing_idempotency_key in
  if Nat.eqb (String.length key) 0 || Nat.ltb MAX_IDEMPOTENCY_KEY_BYTES (String.length key) then
    Err (ApiError.invalid_request ("Idempotency-Key must be 1 to " +:+ pretty (Z.of_nat MAX_IDEMPOTENCY_KEY_BYTES) +:+ " bytes"))
  else Ok key.

(** The legs, or why there is nothing to withdraw. *)
Definition planned_legs (r : ChainReads.t) (tick : nat) (currency : Currency) (wallet : Address)
    (destination_chain_id : Z) (destination : Address) : result ApiError.t (list NewLeg.t) :=
  let! bs := balances r currency wallet destination_chain_id in
  let! legs := plan_legs r tick currency bs destination_chain_id destination in
  match legs with
  | [] => Err (ApiError.nothing_to_withdraw currency
            ((fun b => chain_name (fst (fst b))) <$>
             List.filter (fun b => negb (snd b =? 0) && negb (fst (fst b) =? destination_chain_id)) bs))
  | _ => Ok legs
  end.

Definition create_withdrawal (account : Uuid) (header : option string) (request : CreateWithdrawalRequest.t)
  : api (Z * bool * WithdrawalResponse.t) :=
  let* key := lift (requested_key header) in
  let* currency := lift (requested_currency (CreateWithdrawalRequest.currency request)) in
  let* _ := guarded (match ChainRegistry.networks (ApiEnv.networks env) currency with [] => true | _ => false end)
              (ApiError.unsupported_currency currency) in
  let* chain := lift (requested_chain currency (CreateWithdrawalRequest.chain_id request)) in
  let* destination := lift (requested_destination (CreateWithdrawalRequest.address request)) in
  let destination_address := to_checksum destination in
  let* metadata := fetch (fun n _ => ApiEnv.wallet_address env n account) in
  let* wallet := refuse_unless (metadata ≫= parse_address) ApiError.wallet_not_ready in
  let* existing := fetch (fun _ db => Ok (find_withdrawal_by_key account key db)) in
  match existing with
  | Some (id, row) => replay_withdrawal id row currency chain destination_address
  | None =>
      let* reader := refuse_unless (ApiEnv.chain_reader env)
        (ApiError.withdrawals_unavailable "Withdrawals are not available on this deployment") in
      let* planned := ask (fun n =>
        let! legs := planned_legs (reader n) n currency wallet chain destination in
        Ok (NewWithdrawal.mk (ApiEnv.fresh env n (length legs)) account key (to_checksum wallet) (Currency.code currency)
              chain destination_address legs)) in
      let* created := transact (ApiEnv.others env) (fun n db =>
        match create planned (ApiEnv.database_now env n) db with
        | Ok db' => Ok (true, db')
        | Err IdempotencyKeyReused => Ok (false, db)
        | Err InProgress => Err ApiError.withdrawal_in_progress
        | Err (CreateDatabase e) => Err (ApiError.of_db_error e)
        end) in
      if created then
        let* r := present account (NewWithdrawal.id planned) (ApiError.internal "withdrawal vanished after creation") in
        ret (201, false, r)
      else
        let* existing := fetch (fun _ db => Ok (find_withdrawal_by_key account key db)) in
        let* '(id, row) := refuse_unless existing (ApiError.internal "withdrawal vanished after conflict") in
        replay_withdrawal id row currency chain destination_address
  end.

Definition get_handler (account : Uuid) (path : string) : api WithdrawalResponse.t :=
  let* id := withdrawal_id path in
  present account id ApiError.withdrawal_not_found.

Definition list_handler (account : Uuid) (limit : option Z) (starting_after : option Uuid) : api WithdrawalPage.t :=
  let limit := default 20 limit in
  let* _ := guarded (negb ((1 <=? limit) && (limit <=? 100))) (ApiError.invalid_request "limit must be between 1 and 100") in
  let* _ := match starting_after with
            | Some cursor =>
                let* row := fetch (fun _ db => Ok (get_withdrawal account cursor db)) in
                guarded (negb (is_some row))
                  (ApiError.invalid_request "starting_after does not identify one of your withdrawals")
            | None => ret tt
            end in
  let* rows := fetch (fun _ db => Ok (list_withdrawals account (Z.to_nat limit) starting_after db)) in
  let has_more := Nat.ltb (Z.to_nat limit) (length rows) in
  let rows := take (Z.to_nat limit) rows in
  let next_cursor := if has_more then option_map fst (list.last rows) else None in
  let* legs := fetch (fun _ db => legs_for (List.map fst rows) db) in
  ret (WithdrawalPage.mk
         (List.map (fun kv : Uuid * DbWithdrawal.t => response (fst kv) (snd kv)
              (List.filter (fun l : Uuid * Leg.t => Leg.withdrawal_id (snd l) =? fst kv) legs)) rows) next_cursor).

(** The signatures of the body, each verified; those already on file are
    dropped. *)
Definition verify_items (wallet : Address) (legs : list (Uuid * Leg.t)) (items : list LegAuthorization.t)
  : result ApiError.t (list (Uuid * string * bytes)) :=
  try_fold (fun verified item =>
      let leg_id := LegAuthorization.leg_id item in
      let leg_name := id_display WithdrawalLegId leg_id in
      let! '(_, leg) := ok_or (List.find (fun kv => fst kv =? leg_id) legs) (ApiError.withdrawal_leg_not_found leg_name) in
      let! '(a, domain) := leg_authorization leg wallet in
      let! signature :=
        match verify_authorization a domain (trim (LegAuthorization.signature item)) with
        | Ok s => Ok s
        | Err e => Err (ApiError.withdrawal_signature_invalid leg_name (authorization_error_text e))
        end in
      if bool_decide (Leg.signature leg = Some signature) then Ok verified
      else Ok (verified ++ [(leg_id, leg_name, signature)]))
    [] items.

Definition check_signable (now : Z) (legs : list (Uuid * Leg.t)) (item : Uuid * string * bytes) : result ApiError.t unit :=
  let '(leg_id, leg_name, _) := item in
  let! '(_, leg) := ok_or (List.find (fun kv => fst kv =? leg_id) legs) (ApiError.withdrawal_leg_not_found leg_name) in
  match Leg.state leg with
  | AwaitingSignature | Authorized =>
      if as_u64 (LegTerms.valid_before (Leg.terms leg)) <=? now
      then Err (ApiError.withdrawal_authorization_expired leg_name)
      else match Leg.state leg with
           | Authorized => Err (ApiError.withdrawal_leg_not_signable leg_name)
           | _ => Ok tt
           end
  | _ => Err (ApiError.withdrawal_leg_not_signable leg_name)
  end.

(** The [for] loop that records the signatures, one transaction each. *)
Fixpoint record_all (account id : Uuid) (verified : list (Uuid * string * bytes)) : api unit :=
  match verified with
  | [] => ret tt
  | (leg_id, leg_name, signature) :: rest =>
      let* outcome := update ApiError.of_db_error (ApiEnv.others env) (ApiEnv.database_now env)
                        (authorize account id leg_id signature) in
      let* _ := lift match outcome with
                     | OutAuthorized | Unchanged => Ok tt
                     | NotAwaitingSignature => Err (ApiError.withdrawal_leg_not_signable leg_name)
                     | AuthorizeNotFound => Err ApiError.withdrawal_not_found
                     end in
      record_all account id rest
  end.

Definition authorize_handler (account : Uuid) (path : string) (items : list LegAuthorization.t) : api WithdrawalResponse.t :=
  let* id := withdrawal_id path in
  let* _ := guarded (match items with [] => true | _ => false end)
              (ApiError.invalid_request "authorizations must name at least one leg") in
  let* row := fetch (fun _ db => Ok (get_withdrawal account id db)) in
  let* row := refuse_unless row ApiError.withdrawal_not_found in
  let* wallet := refuse_unless (parse_address (DbWithdrawal.wallet_address row))
                   (ApiError.internal "stored wallet address is malformed") in
  let* legs := fetch (fun _ db => legs_for [id] db) in
  let* now := outside (ApiEnv.unix_now env) in
  let* verified := lift (verify_items wallet legs items) in
  match verified with
  | [] => ret (response id row legs)
  | _ =>
      let* _ := guarded (negb (is_open row)) ApiError.withdrawal_finished in
      let* _ := lift (try_fold (fun _ item => check_signable now legs item) tt verified) in
      let* _ := record_all account id verified in
      present account id ApiError.withdrawal_not_found
  end.

Definition cancel_handler (account : Uuid) (path : string) : api WithdrawalResponse.t :=
  let* id := withdrawal_id path in
  let* outcome := update ApiError.of_db_error (ApiEnv.others env) (ApiEnv.database_now env) (cancel account id) in
  let* _ := lift match outcome with
                 | OutCancelled | AlreadyCancelled => Ok tt
                 | Finished => Err ApiError.withdrawal_finished
                 | CancelInProgress => Err ApiError.withdrawal_not_cancellable
                 | CancelNotFound => Err ApiError.withdrawal_not_found
                 end in
  present account id ApiError.withdrawal_not_found.

End Handlers.
