(* ===== verification/WithdrawalApiTheorems.v ===== *)
(** * Properties of the withdrawals API

    A leg that left the merchant's hands carries their wallet's signature over
    exactly its stored terms, and those terms pay the destination they named
    ([relayed_only_as_signed]); the handlers, whatever runs between their
    statements, make only such transactions ([handlers_refine_withdrawals]). *)

From stdpp Require Import sorting pretty.
From S2P Require Import Prelude Text Core Contracts Ids Bus Tables Registry Invoices Attribution ProofExample Withdrawals.
From S2P Require Import WithdrawalTheorems.
From S2P Require Import ApiError Effects Api Authorizations WithdrawalApi.

Import Withdrawal.

(** ** What a leg's terms say *)

Section Api.
Context `{P : Primitives} `{!Lawful P} `{H : AuthorizationHashes} `{U : UuidText} (env : ApiEnv.t).
Context (describe_abandon : AbandonReason -> string).

Abbreviation nets := (ApiEnv.networks env) (only parsing).
Abbreviation wd_step := (wd_step describe_abandon) (only parsing).

(** The leg pays the withdrawal's destination: directly, or through the source
    chain's forwarder under a nonce that commits to it. *)
Definition directed (w : DbWithdrawal.t) (t : LegTerms.t) : Prop :=
  LegTerms.destination_chain_id t = DbWithdrawal.destination_chain_id w /\
  exists destination, parse_address (DbWithdrawal.destination_address w) = Some destination /\
    match LegTerms.kind t with
    | LegTransfer => parse_address (LegTerms.authorization_to t) = Some destination
    | LegBridge => exists chain target_chain source target salt,
        LegTerms.source_chain_id t = as_i64 chain /\ DbWithdrawal.destination_chain_id w = as_i64 target_chain /\
        ChainRegistry.cctp nets chain = Some source /\ ChainRegistry.cctp nets target_chain = Some target /\
        LegTerms.authorization_to t = to_checksum (CctpConfig.forwarder source) /\ LegTerms.salt t = Some salt /\
        LegTerms.nonce t = bridge_nonce (CctpConfig.domain target) destination salt /\
        LegTerms.amount t <= MAX_CCTP_BURN_PER_MESSAGE
    end.

(** The signature is the wallet's, over what the leg asks it to sign. *)
Definition signed (w : DbWithdrawal.t) (l : Leg.t) (s : bytes) : Prop :=
  exists wallet a domain, parse_address (DbWithdrawal.wallet_address w) = Some wallet /\
    leg_authorization l wallet = Ok (a, domain) /\ WithdrawalAuthorization.from a = wallet /\ signed_by a domain s.

Lemma signed_order w w' l l' s :
  order_of w' = order_of w -> Leg.terms l' = Leg.terms l -> signed w l s -> signed w' l' s.
Proof.
  intros Ho Ht (wallet & a & d & Hw & Ha & Hf & Hs). exists wallet, a, d. injection Ho as _ Hwa _ _ _. rewrite Hwa.
  unfold leg_authorization in *. by rewrite Ht.
Qed.

Lemma directed_order w w' t : order_of w' = order_of w -> directed w t -> directed w' t.
Proof. intros Ho. unfold directed. injection Ho as _ _ _ Hc Hd. by rewrite Hc, Hd. Qed.

(** ** Histories *)

(** A withdrawal as the handler plans it. *)
Definition planned (input : NewWithdrawal.t) : Prop :=
  exists r tick currency wallet chain destination account key id legs,
    planned_legs env r tick currency wallet chain destination = Ok legs /\ octets 20 destination /\
    input = NewWithdrawal.mk id account key (to_checksum wallet) (Currency.code currency) chain (to_checksum destination) legs.

(** A signature that stands for the leg as it is stored. *)
Definition vouched (db : Db.t) (leg : Uuid) (s : bytes) : Prop :=
  exists l w, Db.withdrawal_legs db !! leg = Some l /\ Db.withdrawals db !! Leg.withdrawal_id l = Some w /\ signed w l s.

(** Every leg of the new state was there, with its terms and signature. *)
Definition signs_nothing (db db' : Db.t) : Prop :=
  forall k l', Db.withdrawal_legs db' !! k = Some l' ->
    exists l, Db.withdrawal_legs db !! k = Some l /\ Leg.terms l' = Leg.terms l /\ Leg.signature l' = Leg.signature l.

(** The API alone creates legs and records signatures. *)
Inductive api_step (db : Db.t) : Db.t -> Prop :=
| api_create input now db' : planned input -> create input now db = Ok db' -> api_step db db'
| api_authorize account wid leg s now o db' :
    authorize account wid leg s now db = Ok (o, db') -> vouched db leg s -> api_step db db'
| api_rest db' : wd_step db db' -> signs_nothing db db' -> api_step db db'.

Lemma api_step_wd db db' : api_step db db' -> wd_step db db'.
Proof. intros [input now db1 _ Hc|account wid leg s now o db1 Ha _|db1 Hs _]; [by eapply wd_create|by eapply wd_authorize|done]. Qed.

Record api_ok (db : Db.t) : Prop := {
  ao_wd : wd_ok db;
  ao_leg : forall k l, Db.withdrawal_legs db !! k = Some l ->
    exists w, Db.withdrawals db !! Leg.withdrawal_id l = Some w /\ directed w (Leg.terms l) /\
      (forall s, Leg.signature l = Some s -> signed w l s);
}.

(** A planned leg pays the destination. *)
Lemma plan_leg_directed r tick currency before chain destination n source token balance leg w now :
  plan_leg env r tick currency before chain destination n source token balance = Ok leg -> octets 20 destination ->
  NewWithdrawal.destination_address w = to_checksum destination -> NewWithdrawal.destination_chain_id w = chain ->
  forall row, DbWithdrawal.destination_address row = NewWithdrawal.destination_address w ->
    DbWithdrawal.destination_chain_id row = as_i64 (NewWithdrawal.destination_chain_id w) ->
    directed row (Leg.terms (new_leg w now leg)).
Proof.
  unfold plan_leg. intros Hp Hd Ea Ec row Er1 Er2. apply rbind_ok in Hp as (domain & _ & Hp).
  apply rbind_ok in Hp as ([[[kind to] nonce] salt] & Hk & [= <-]). split; [by rewrite Er2|].
  exists destination. rewrite Er1, Ea, (address_roundtrip _ Hd). split; [done|]. cbn.
  destruct (source =? chain).
  - injection Hk as <- <- <- <-. cbn. by apply address_roundtrip.
  - apply rbind_ok in Hk as (src & Hs%ok_or_ok & Hk). apply rbind_ok in Hk as (tgt & Ht%ok_or_ok & Hk).
    destruct (Z.ltb_spec MAX_CCTP_BURN_PER_MESSAGE balance); [discriminate|]. injection Hk as <- <- <- <-.
    exists source, chain, src, tgt, (ApiEnv.random env tick n). rewrite Er2, Ec. by split_and!.
Qed.

Lemma plan_legs_each r tick currency bs chain destination legs :
  plan_legs env r tick currency bs chain destination = Ok legs ->
  Forall (fun leg => exists before n source token balance,
    plan_leg env r tick currency before chain destination n source token balance = Ok leg) legs.
Proof.
  unfold plan_legs. apply (try_fold_ind _ (Forall _)); [|constructor].
  intros ls [[source token] balance] ls' _ Hls Hs. destruct (_ || _); [by injection Hs as <-|].
  apply rbind_ok in Hs as (leg & Hl & [= <-]). apply Forall_app. split; [done|]. apply Forall_singleton. by do 5 eexists.
Qed.

Lemma planned_directed input now : planned input ->
  forall n row, n ∈ NewWithdrawal.legs input -> DbWithdrawal.destination_address row = NewWithdrawal.destination_address input ->
    DbWithdrawal.destination_chain_id row = as_i64 (NewWithdrawal.destination_chain_id input) ->
    directed row (Leg.terms (new_leg input now n)).
Proof.
  intros (r & tick & currency & wallet & chain & destination & account & key & id & legs & Hp & Hd & ->) n row Hn E1 E2. cbn [NewWithdrawal.legs] in Hn.
  apply rbind_ok in Hp as (bs & _ & Hp). apply rbind_ok in Hp as (ls & Hl & Hp).
  assert (ls = legs) as -> by (destruct ls; [discriminate|by injection Hp as ->]).
  apply plan_legs_each in Hl. rewrite list.Forall_forall in Hl. destruct (Hl _ Hn) as (before & m & source & token & balance & Hm).
  eapply plan_leg_directed; [exact Hm|exact Hd|reflexivity|reflexivity|exact E1|exact E2].
Qed.

(** ** Every transaction keeps what was signed *)

Lemma create_parts input now db db' : create input now db = Ok db' ->
  exists row, order_of row = (NewWithdrawal.account_id input, NewWithdrawal.wallet_address input, NewWithdrawal.currency input,
      as_i64 (NewWithdrawal.destination_chain_id input), NewWithdrawal.destination_address input) /\
    Db.withdrawals db !! NewWithdrawal.id input = None /\
    Db.withdrawals db' = <[NewWithdrawal.id input := row]> (Db.withdrawals db) /\
    forall k l, Db.withdrawal_legs db' !! k = Some l ->
      Db.withdrawal_legs db !! k = Some l \/ exists n, n ∈ NewWithdrawal.legs input /\ l = new_leg input now n.
Proof.
  unfold create. intros Hc. destruct (negb _); [discriminate|].
  destruct (Db.withdrawals db !! NewWithdrawal.id input) eqn:Hnone; [discriminate|]. simpl in Hc.
  destruct (find_by_idempotency_key _ _ _); [discriminate|]. destruct (find_open _ _); [discriminate|].
  destruct (negb _); [discriminate|]. set (row := DbWithdrawal.mk _ _ _ _ _ _ _ _ _ _) in Hc.
  exists row. split; [done|]. split; [done|]. revert Hc.
  apply (try_fold_ind _ (fun s => Db.withdrawals s = <[NewWithdrawal.id input := row]> (Db.withdrawals db) /\
    forall k l, Db.withdrawal_legs s !! k = Some l ->
      Db.withdrawal_legs db !! k = Some l \/ exists n, n ∈ NewWithdrawal.legs input /\ l = new_leg input now n)); [|by split; [|left]].
  intros s n s' Hn [S1 S2] Hs. unfold insert_leg in Hs. repeat case_match; try discriminate. injection Hs as <-. split; [exact S1|].
  cbn [Db.withdrawal_legs]. intros k l [[_ <-]|[_ Hk]]%lookup_insert_Some; [right; by exists n|by apply S2].
Qed.

Lemma authorize_parts account wid leg s now db o db' : authorize account wid leg s now db = Ok (o, db') ->
  db' = db \/
  exists l l', Db.withdrawal_legs db !! leg = Some l /\ Leg.terms l' = Leg.terms l /\ Leg.signature l' = Some s /\
    Db.withdrawal_legs db' = <[leg := l']> (Db.withdrawal_legs db) /\ Db.withdrawals db' = Db.withdrawals db.
Proof.
  unfold authorize. destruct (Db.withdrawal_legs db !! leg) as [l|] eqn:Hl; [|by intros [= _ <-]; left].
  destruct (Db.withdrawals db !! wid) as [w|]; [|by intros [= _ <-]; left]. destruct (negb _); [by intros [= _ <-]; left|].
  destruct (Leg.state l); try (destruct (bool_decide _); by intros [= _ <-]; left).
  intros (db1 & Hst & [= _ <-])%rbind_ok. apply store_leg_parts in Hst as (_ & E1 & E2). right.
  exists l. eexists. split; [done|]. split; [|split; [|split; [exact E1|exact E2]]]; done.
Qed.

Lemma api_step_ok db db' : api_step db db' -> api_ok db -> api_ok db'.
Proof.
  intros Hs [W L]. destruct (wd_step_good _ _ _ (api_step_wd _ _ Hs) W) as [W' [_ Mw]]. split; [done|].
  intros k l' Hk.
  assert (forall l, Db.withdrawal_legs db !! k = Some l -> Leg.terms l' = Leg.terms l -> 
    (forall s, Leg.signature l' = Some s -> Leg.signature l = Some s \/ vouched db k s) ->
    exists w, Db.withdrawals db' !! Leg.withdrawal_id l' = Some w /\ directed w (Leg.terms l') /\
      (forall s, Leg.signature l' = Some s -> signed w l' s)) as Hkept.
  { intros l Hl Ht Hsig. destruct (L k l Hl) as (w & Hw & Hd & Hsg). destruct (Mw _ _ Hw) as (w' & Hw' & Ho & _).
    exists w'. unfold Leg.withdrawal_id in *. rewrite Ht. split; [done|]. split; [by eapply directed_order|]. intros s Hs'.
    eapply signed_order; [exact Ho|exact Ht|]. destruct (Hsig s Hs') as [Hold|(l0 & w0 & Hl0 & Hw0 & Hsi)]; [by apply Hsg|].
    rewrite Hl in Hl0. injection Hl0 as <-. unfold Leg.withdrawal_id in Hw0. rewrite Hw in Hw0. by injection Hw0 as <-. }
  destruct Hs as [input now db1 Hp Hc|account wid leg s now o db1 Ha Hv|db1 Hs Hn].
  - destruct (create_parts _ _ _ _ Hc) as (row & Ho & Hnone & Ew & El). destruct (El _ _ Hk) as [Hl|(n & Hn & ->)].
    + eapply Hkept; [exact Hl|done|auto].
    + exists row. cbn. rewrite Ew, lookup_insert_eq. split; [done|]. split; [|done]. injection Ho as _ _ _ E1 E2.
      by apply planned_directed.
  - destruct (authorize_parts _ _ _ _ _ _ _ _ Ha) as [->|(l & l1 & Hl & Et & Es & E1 & E2)]; [eapply Hkept; [exact Hk|done|auto]|].
    rewrite E1 in Hk. apply lookup_insert_Some in Hk as [[<- <-]|[Hne Hk]]; [|eapply Hkept; [exact Hk|done|auto]].
    eapply Hkept; [exact Hl|exact Et|]. rewrite Es. intros s' [= <-]. by right.
  - destruct (Hn _ _ Hk) as (l & Hl & Et & Es). eapply Hkept; [exact Hl|exact Et|]. rewrite Es. auto.
Qed.

Lemma api_steps_ok db db' : rtc api_step db db' -> api_ok db -> api_ok db'.
Proof. induction 1; eauto using api_step_ok. Qed.

Lemma no_withdrawals_api db : no_withdrawals db -> api_ok db.
Proof. intros H0. split; [by apply no_withdrawals_ok|]. intros k l. destruct H0 as [_ ->]. by rewrite lookup_empty. Qed.

(** C7. Money leaves only as the merchant signed: in every state the API, the
    orchestrator and the executor's results reach, a leg that is authorized or
    further carries a signature of the withdrawal's wallet over exactly its
    stored terms, and those terms pay the destination of the withdrawal, or the
    forwarder of the source chain under a nonce that commits to it. *)
Theorem relayed_only_as_signed db0 db k l :
  no_withdrawals db0 -> rtc api_step db0 db -> Db.withdrawal_legs db !! k = Some l ->
  (match Leg.state l with AwaitingSignature | LegExpired | Cancelled => false | _ => true end) = true ->
  exists w s wallet a domain, Db.withdrawals db !! Leg.withdrawal_id l = Some w /\ Leg.signature l = Some s /\
    parse_address (DbWithdrawal.wallet_address w) = Some wallet /\ leg_authorization l wallet = Ok (a, domain) /\
    recover_prehash s (authorization_digest a domain) = Some wallet /\ directed w (Leg.terms l).
Proof.
  intros H0 Hr Hk Hst. destruct (api_steps_ok _ _ Hr (no_withdrawals_api _ H0)) as [W L].
  destruct (L _ _ Hk) as (w & Hw & Hd & Hs). destruct (wd_leg _ _ W _ _ Hk) as [Hlk _].
  assert (is_some (Leg.signature l) = true) as Hsome by (destruct (lk_signed _ Hlk) as [E|[E|[E|E]]]; [rewrite E in Hst..|done]; done).
  destruct (Leg.signature l) as [s|]; [|done]. destruct (Hs s eq_refl) as (wallet & a & domain & Hp & Ha & Hf & Hsb & _).
  exists w, s, wallet, a, domain. rewrite Hf in Hsb. by split_and!.
Qed.

(** ** The handlers *)

(** What is known of the rows a handler read, however long ago. *)
Definition row_known (id : Uuid) (row : DbWithdrawal.t) (db : Db.t) : Prop :=
  exists w, Db.withdrawals db !! id = Some w /\ order_of w = order_of row.

Definition leg_known (id : Uuid) (kv : Uuid * Leg.t) (db : Db.t) : Prop :=
  Leg.withdrawal_id (snd kv) = id /\
  exists l, Db.withdrawal_legs db !! fst kv = Some l /\ Leg.terms l = Leg.terms (snd kv).

Abbreviation stable := (Api.stable api_step api_ok) (only parsing).

Lemma row_known_stable id row : stable (row_known id row).
Proof.
  intros db db' Hs [W _] (w & Hw & Ho). destruct (wd_step_good _ _ _ (api_step_wd _ _ Hs) W) as [_ [_ Mw]].
  destruct (Mw _ _ Hw) as (w' & Hw' & Ho' & _). exists w'. split; [done|congruence].
Qed.

Lemma leg_known_stable id kv : stable (leg_known id kv).
Proof.
  intros db db' Hs [W _] [Hid (l & Hl & Ht)]. destruct (wd_step_good _ _ _ (api_step_wd _ _ Hs) W) as [_ [Ml _]].
  split; [done|]. destruct (Ml _ _ Hl) as (l' & Hl' & [->|(Ht' & _)]); [by exists l|]. exists l'. split; [done|congruence].
Qed.

Lemma vouched_stable leg s : stable (fun db => vouched db leg s).
Proof.
  intros db db' Hs [W _] (l & w & Hl & Hw & Hsg). destruct (wd_step_good _ _ _ (api_step_wd _ _ Hs) W) as [_ [Ml Mw]].
  destruct (Mw _ _ Hw) as (w' & Hw' & Ho & _). destruct (Ml _ _ Hl) as (l' & Hl' & Hst).
  assert (Leg.terms l' = Leg.terms l) as Ht by (by destruct Hst as [->|(? & _)]).
  exists l', w'. unfold Leg.withdrawal_id in *. rewrite Ht. split_and!; [done|done|by eapply signed_order].
Qed.

Hint Resolve row_known_stable leg_known_stable vouched_stable stable_and stable_forall stable_true : api.

Lemma interference db0 : api_ok db0 -> (forall n db, rtc api_step db (ApiEnv.others env n db)) ->
  Interference (ApiEnv.others env) api_step api_ok db0.
Proof. intros Hok Ho. split; [exact api_step_ok|exact Hok|exact Ho]. Qed.

Section Refinement.
Context {db0 : Db.t} {Hi : Interference (ApiEnv.others env) api_step api_ok db0}.

Abbreviation ready := (Api.ready api_step db0) (only parsing).
Abbreviation at_ F := (fun w => ready F (World.db w)) (only parsing).

Lemma present_triple F account id missing : stable F ->
  triple (at_ F) (present env account id missing) (fun _ => at_ F) (fun _ => at_ (fun _ => True)).
Proof.
  intros HF. unfold present. eapply (learn_triple _ _ (fun _ => F)); [exact HF|done|]. intros row.
  eapply then_triple; [apply refuse_triple|]. intros row' _.
  eapply (learn_triple _ _ (fun _ => F)); [exact HF|done|]. intros legs. by apply triple_ret.
Qed.

Lemma record_all_triple account id verified F : stable F ->
  (forall db, F db -> Forall (fun v => vouched db (fst (fst v)) (snd v)) verified) ->
  triple (at_ F) (record_all env account id verified) (fun _ => at_ F) (fun _ => at_ (fun _ => True)).
Proof.
  induction verified as [|[[leg name] s] rest IH]; intros HF Hv; cbn [record_all]; [by apply triple_ret|].
  eapply triple_bind.
  - eapply (transact_triple (ok := api_ok) (ApiEnv.others env) F); [done|]. intros n db a db' _ Hfd Hf. unfold db_result in Hf.
    destruct (authorize _ _ _ _ _ _) as [[o d]|] eqn:Ha; [|discriminate]. injection Hf as -> ->. apply rtc_once.
    eapply api_authorize; [exact Ha|]. apply Hv in Hfd. by apply list.Forall_cons in Hfd as [? _].
  - intros outcome. eapply then_triple; [apply lift_triple|]. intros [] _. apply IH; [done|]. intros db Hfd. apply Hv in Hfd.
    by apply list.Forall_cons in Hfd as [_ ?].
Qed.

(** The verified signatures of a body, for legs of one withdrawal. *)
Lemma verify_items_sound wallet legs items verified : verify_items wallet legs items = Ok verified ->
  Forall (fun v => exists leg a domain, (fst (fst v), leg) ∈ legs /\ leg_authorization leg wallet = Ok (a, domain) /\
    WithdrawalAuthorization.from a = wallet /\ signed_by a domain (snd v)) verified.
Proof.
  unfold verify_items. apply (try_fold_ind _ (Forall _)); [|constructor].
  intros vs item vs' _ Hvs Hs. apply rbind_ok in Hs as ([k leg] & Hf%ok_or_ok & Hs).
  apply rbind_ok in Hs as ([a domain] & Ha & Hs). apply rbind_ok in Hs as (sg & Hv & Hs).
  destruct (verify_authorization _ _ _) as [sg'|] eqn:Hver; [|discriminate]. injection Hv as ->.
  destruct (bool_decide _); injection Hs as <-; [done|]. apply Forall_app. split; [done|]. apply Forall_singleton. cbn.
  apply List.find_some in Hf as [Hin Hk]. cbn in Hk. apply Z.eqb_eq in Hk as ->. exists leg, a, domain.
  split; [by apply list_elem_of_In|]. split; [done|]. split; [|by eapply verified_signed].
  unfold leg_authorization in Ha. apply rbind_ok in Ha as (? & _ & Ha). by apply rbind_ok in Ha as (? & _ & [= <- <-]).
Qed.

Lemma decode_rows_same rows legs : decode_rows rows = Ok legs -> legs = rows.
Proof.
  revert legs. induction rows as [|[id l] rows IH]; intros legs; cbn; [by intros [= <-]|].
  intros (l' & Hl & (rest & Hr & [= <-])%rbind_ok)%rbind_ok. rewrite (IH _ Hr). unfold leg_try_from in Hl.
  apply rbind_ok in Hl as (? & _ & Hl). destruct (_ && _); [|discriminate]. by injection Hl as <-.
Qed.

Lemma legs_for_known id db legs : legs_for [id] db = Ok legs -> Forall (fun kv => leg_known id kv db) legs.
Proof.
  unfold legs_for. intros ->%decode_rows_same. apply list.Forall_forall. intros [k l] Hin.
  rewrite merge_sort_Permutation, list_elem_of_In, filter_In, <- list_elem_of_In, elem_of_map_to_list in Hin. destruct Hin as [Hl Hid].
  apply bool_decide_eq_true in Hid. apply list_elem_of_singleton in Hid. split; [done|]. by exists l.
Qed.

Lemma known_vouched id row wallet legs db leg s l a domain :
  row_known id row db -> Forall (fun kv => leg_known id kv db) legs -> parse_address (DbWithdrawal.wallet_address row) = Some wallet ->
  (leg, l) ∈ legs -> leg_authorization l wallet = Ok (a, domain) -> WithdrawalAuthorization.from a = wallet ->
  signed_by a domain s -> vouched db leg s.
Proof.
  intros (w & Hw & Ho) Hlegs Hwal Hin Ha Hf Hs. rewrite list.Forall_forall in Hlegs. destruct (Hlegs _ Hin) as [Hid (l' & Hl' & Ht)].
  cbn in *. exists l', w. unfold Leg.withdrawal_id in *. rewrite Ht, Hid. split; [done|]. split; [done|].
  exists wallet, a, domain. injection Ho as _ Hwa _ _ _. rewrite Hwa. split; [done|]. split; [|done].
  unfold leg_authorization in *. by rewrite Ht.
Qed.

Abbreviation keeps c := (triple (at_ (fun _ => True)) c (fun _ => at_ (fun _ => True)) (fun _ => at_ (fun _ => True))) (only parsing).

Lemma authorize_triple account path items : keeps (authorize_handler env account path items).
Proof.
  unfold authorize_handler, withdrawal_id. eapply then_triple; [apply refuse_triple|]. intros id _.
  eapply then_triple; [apply guarded_triple|]. intros [] _.
  eapply (learn_triple _ _ (fun o db => forall row, o = Some row -> row_known id row db)); [apply stable_true| |].
  { intros n db o _ [= <-] row. unfold get_withdrawal. destruct (Db.withdrawals db !! id) as [w|] eqn:Hw; [|done].
    destruct (_ =? account); [|done]. intros [= <-]. by exists w. }
  intros o. eapply triple_bind; [apply refuse_triple|]. intros row w [[HR Hrow] Ho]. specialize (Hrow row Ho). clear Ho.
  revert w HR Hrow. enough (triple (at_ (row_known id row)) _ (fun _ => at_ (fun _ => True)) (fun _ => at_ (fun _ => True))) as T
    by (intros w HR Hrow; by apply T).
  eapply then_triple; [apply refuse_triple|]. intros wallet Hwal.
  eapply (learn_triple _ _ (fun legs db => row_known id row db /\ Forall (fun kv => leg_known id kv db) legs)); [auto with api| |].
  { intros n db legs Hrow Hl. split; [done|by apply legs_for_known]. }
  intros legs. set (F := fun db => row_known id row db /\ Forall (fun kv => leg_known id kv db) legs).
  assert (stable F) as HF by (unfold F; auto with api).
  eapply then_triple; [apply outside_triple|].
  intros now _. eapply then_triple; [apply lift_triple|]. intros verified Hver%verify_items_sound.
  assert (forall db, F db -> Forall (fun v => vouched db (fst (fst v)) (snd v)) verified) as Hv.
  { intros db [Hrow Hlegs]. eapply list.Forall_impl; [exact Hver|]. intros v (l & a & d & Hin & Ha & Hf & Hs). 
    eapply known_vouched; [exact Hrow|exact Hlegs|exact Hwal|exact Hin|exact Ha|exact Hf|exact Hs]. }
  destruct verified as [|v0 vs]; [eapply (forget_triple F _ (fun _ => F)), triple_ret; done|].
  eapply then_triple; [apply guarded_triple|]. intros [] _. eapply then_triple; [apply lift_triple|]. intros [] _.
  eapply triple_bind; [by apply record_all_triple|]. intros []. by eapply (forget_triple F _ (fun _ => F)), present_triple.
Qed.

Lemma cancel_signs_nothing account id now db o db' : cancel account id now db = Ok (o, db') -> signs_nothing db db'.
Proof.
  unfold cancel. destruct (Db.withdrawals db !! id) as [w|]; [|intros [= _ <-] k l' Hl; by exists l'].
  repeat (match goal with |- (if ?b then Ok _ else _) = _ -> _ => destruct b; [intros [= _ <-] k l' Hl; by exists l'|] end).
  intros (db1 & Hu & [= _ <-])%rbind_ok k l' Hl. cbn in Hl. unfold update_legs in Hu. destruct (forallb _ _); [|discriminate].
  injection Hu as <-. cbn in Hl. rewrite lookup_update_where in Hl. destruct (Db.withdrawal_legs db !! k) as [l|]; [|done].
  injection Hl as <-. exists l. split; [done|]. by destruct (_ && _).
Qed.

Lemma cancel_triple account path : keeps (cancel_handler env account path).
Proof.
  unfold cancel_handler, withdrawal_id. eapply then_triple; [apply refuse_triple|]. intros id _.
  eapply triple_bind.
  - eapply (transact_triple (ok := api_ok) (ApiEnv.others env) (fun _ => True)); [apply stable_true|]. intros n db a db' _ _ Hf. unfold db_result in Hf.
    destruct (cancel _ _ _ _) as [[o d]|] eqn:Hc; [|discriminate]. injection Hf as -> ->. apply rtc_once.
    apply api_rest; [by eapply wd_cancel|by eapply cancel_signs_nothing].
  - intros outcome. eapply then_triple; [apply lift_triple|]. intros [] _. apply present_triple, stable_true.
Qed.

Lemma replay_triple id row currency chain address : keeps (replay_withdrawal env id row currency chain address).
Proof.
  unfold replay_withdrawal. eapply then_triple; [apply guarded_triple|]. intros [] _.
  eapply (learn_triple _ _ (fun _ _ => True)); [apply stable_true|done|]. intros legs. by apply triple_ret.
Qed.

Lemma create_triple account header request : keeps (create_withdrawal env account header request).
Proof.
  unfold create_withdrawal. eapply then_triple; [apply lift_triple|]. intros key _.
  eapply then_triple; [apply lift_triple|]. intros currency _. eapply then_triple; [apply guarded_triple|]. intros [] _.
  eapply then_triple; [apply lift_triple|]. intros chain _. eapply then_triple; [apply lift_triple|]. intros destination Hdest.
  assert (octets 20 destination) as Hoct.
  { unfold requested_destination in Hdest. apply rbind_ok in Hdest as (a & Ha%ok_or_ok & Hdest).
    destruct (bool_decide _); [discriminate|]. injection Hdest as <-. by eapply parse_address_octets. }
  eapply (learn_triple _ _ (fun _ _ => True)); [apply stable_true|done|]. intros metadata.
  eapply then_triple; [apply refuse_triple|]. intros wallet _.
  eapply (learn_triple _ _ (fun _ _ => True)); [apply stable_true|done|]. intros [[id row]|]; [apply replay_triple|].
  eapply then_triple; [apply refuse_triple|]. intros reader _.
  eapply then_triple; [apply ask_triple|]. intros input (tick & (legs & Hl & [= <-])%rbind_ok).
  match goal with |- context[present env account (NewWithdrawal.id ?i)] => set (input := i) end.
  assert (planned input) as Hplan by by do 10 eexists. eapply triple_bind.
  - eapply (transact_triple (ok := api_ok) (ApiEnv.others env) (fun _ => True)); [apply stable_true|]. intros n db a db' _ _ Hf.
    destruct (create _ _ _) as [d|[]] eqn:Hc; try discriminate; injection Hf as _ <-; [|reflexivity].
    apply rtc_once. by eapply api_create.
  - intros [].
    + eapply triple_bind; [apply present_triple, stable_true|]. intros r. by apply triple_ret.
    + eapply (learn_triple _ _ (fun _ _ => True)); [apply stable_true|done|]. intros existing.
      eapply then_triple; [apply refuse_triple|]. intros [id row] _. apply replay_triple.
Qed.

End Refinement.

(** C22. The handlers of the withdrawals API, whatever runs between their
    statements and however they end, only make the transactions of those
    histories: a withdrawal is created as it was planned, a signature is
    recorded only for a leg it vouches for, though the leg was read and the
    signature verified before the write, and a cancellation signs nothing. *)
Theorem handlers_refine_withdrawals w account header request path items :
  (forall n db, rtc api_step db (ApiEnv.others env n db)) -> api_ok (World.db w) ->
  rtc api_step (World.db w) (World.db (snd (create_withdrawal env account header request w))) /\
  rtc api_step (World.db w) (World.db (snd (authorize_handler env account path items w))) /\
  rtc api_step (World.db w) (World.db (snd (cancel_handler env account path w))).
Proof.
  intros Hothers Hok. assert (ready api_step (World.db w) (fun _ => True) (World.db w)) as H0 by by split.
  pose proof (interference (World.db w) Hok Hothers) as Hi.
  pose proof (create_triple account header request w H0) as T1.
  pose proof (authorize_triple account path items w H0) as T2. pose proof (cancel_triple account path w H0) as T3.
  destruct (create_withdrawal env account header request w) as [[?|?] w1], (authorize_handler env account path items w) as [[?|?] w2],
    (cancel_handler env account path w) as [[?|?] w3]; cbn; split_and!; (apply T1 || apply T2 || apply T3).
Qed.

End Api.

(** ** A concrete withdrawal: two chains, one of them bridged *)

Module WithdrawalApiExample.
Import IdExample.

Definition nibble (n : Z) : Ascii.ascii := Ascii.ascii_of_N (Z.to_N (if n <? 10 then 48 + n else 87 + n)).

Definition nibble_value (c : Ascii.ascii) : option Z :=
  let n := byte_of c in
  if (48 <=? n) && (n <=? 57) then Some (n - 48) else if (97 <=? n) && (n <=? 102) then Some (n - 87) else None.

Fixpoint hex_text (b : bytes) : string :=
  match b with [] => EmptyString | x :: b' => String (nibble (x / 16)) (String (nibble (x mod 16)) (hex_text b')) end.

Fixpoint unhex (s : string) : option bytes :=
  match s with
  | EmptyString => Some []
  | String c (String d rest) =>
      match nibble_value c, nibble_value d, unhex rest with
      | Some x, Some y, Some b => Some (16 * x + y :: b)
      | _, _, _ => None
      end
  | _ => None
  end.

Definition hex_address (a : Address) : string := "0x" +:+ hex_text a.

Definition read_address (s : string) : option Address :=
  digits ← strip_prefix "0x" s;
  b ← unhex digits;
  if Nat.eqb (length b) 20 then Some b else None.

Lemma nibble_roundtrip n : 0 <= n < 16 -> nibble_value (nibble n) = Some n.
Proof.
  revert n. by apply (check_below 16 (fun n => nibble_value (nibble n) = Some n) _).
Qed.

Lemma nibble_range c x : nibble_value c = Some x -> 0 <= x < 16.
Proof. unfold nibble_value. repeat case_match; intros [= <-]; bools; lia. Qed.

Lemma unhex_text b : Forall (fun x => 0 <= x < 256) b -> unhex (hex_text b) = Some b.
Proof.
  induction 1 as [|x b Hx _ IH]; cbn; [done|]. pose proof (Z.mod_pos_bound x 16 ltac:(lia)) as Hm.
  assert (0 <= x / 16 < 16) as Hd by (split; [apply Z.div_pos|apply Z.div_lt_upper_bound]; lia).
  rewrite (nibble_roundtrip _ Hd), (nibble_roundtrip _ Hm), IH. do 2 f_equal. pose proof (Z.div_mod x 16 ltac:(lia)). lia.
Qed.

Lemma unhex_range s b : unhex s = Some b -> Forall (fun x => 0 <= x < 256) b.
Proof.
  revert b. induction s as [s IH] using (Wf_nat.induction_ltof1 _ String.length).
  intros b. destruct s as [|c [|d rest]]; cbn; [by intros [= <-]|done|].
  destruct (nibble_value c) as [x|] eqn:Hx; [|done]. destruct (nibble_value d) as [y|] eqn:Hy; [|done].
  destruct (unhex rest) as [b'|] eqn:Hb; [|done]. intros [= <-]. apply nibble_range in Hx, Hy. constructor; [lia|].
  eapply IH; [|exact Hb]. unfold Wf_nat.ltof. cbn. lia.
Qed.

#[local] Instance primitives : Primitives :=
  let base := Toy.primitives Toy.no_attestation in {| base with parse_address := read_address; to_checksum := hex_address |}.

Lemma read_hex a : octets 20 a -> read_address (hex_address a) = Some a.
Proof.
  intros [Hl Ha]. unfold read_address. apply bind_Some. exists (hex_text a). split; [reflexivity|].
  apply bind_Some. exists a. split; [by apply unhex_text|]. by rewrite Hl.
Qed.

Lemma example_lawful : Lawful primitives.
Proof.
  destruct (Toy.lawful Toy.no_attestation) as [L1 L2 _ L4 L5 L6 _ L8 L9]. split; try assumption.
  - exact read_hex.
  - intros s a. change (parse_address s) with (read_address s). unfold read_address. intros (d & _ & (b & Hb%unhex_range & Hl)%bind_Some)%bind_Some.
    destruct (Nat.eqb_spec (length b) 20); [|done]. injection Hl as <-. by split.
Qed.

#[local] Instance lawful_primitives : Lawful primitives := example_lawful.

#[local] Instance hashes : AuthorizationHashes := {|
  domain_separator d := Toy.checksum (TokenDomain.token d ++ [TokenDomain.chain_id d]);
  hash_transfer from to value after before nonce := Toy.checksum (from ++ to ++ [value; after; before] ++ nonce);
  hash_receive from to value after before nonce := Toy.checksum ([1] ++ from ++ to ++ [value; after; before] ++ nonce);
  abi_encode_destination domain recipient salt := [domain] ++ recipient ++ salt;
  signature_from_raw b := if Nat.eqb (length b) 65 then Some b else None;
  recover_prehash s _ := Some (take 20 s);
|}.

Definition wallet : Address := replicate 20 33.
Definition forwarder : Address := replicate 20 34.
Definition usdc : Address := replicate 20 10.
Definition destination : string := "0x1111111111111111111111111111111111111111".

Definition chain (id domain : Z) : ChainConfig.t :=
  ChainConfig.mk id [TokenConfig.mk Usdc usdc] [2] [3] [4] [5] 100 Latest 20 2000 100 None None
    (Some (CctpConfig.mk domain [20] [21] forwarder [23])) None None None.

Definition env : ApiEnv.t := ApiEnv.mk (ChainRegistry.mk [chain 8453 6; chain 143 15])
  (Some (fun _ => ChainReads.mk (fun id _ _ => Ok (if id =? 143 then 500 else 1000))
                    (fun id token => Some (TokenDomain.mk "USDC" "2" id token))))
  (fun _ _ => Ok (Some (hex_address wallet))) (fun _ db => db) (fun n => 1000 + Z.of_nat n) (fun _ => 1700000000)
  (fun n i => 100 + Z.of_nat (n * 10 + i)) (fun n i => replicate 32 (Z.of_nat (n + i))) (fun _ => "bad address")
  pretty (fun n _ => Some (pretty n)).

Definition before : World.t := World.mk WithdrawalExample.start 0.
Definition creating := create_withdrawal env 7 (Some "payout-1") (CreateWithdrawalRequest.mk None "8453" destination) before.
Definition after_create : World.t := Eval vm_compute in snd creating.
Definition body : option WithdrawalResponse.t := match fst creating with Ok (_, _, r) => Some r | Err _ => None end.
Definition legs : list Uuid := Eval vm_compute in
  match body with Some r => LegResponse.id <$> WithdrawalResponse.legs r | None => [] end.
Definition path : string := Eval vm_compute in
  match body with Some r => id_display WithdrawalId (WithdrawalResponse.id r) | None => "" end.
Definition signature : string := Toy.text (replicate 65 33).
Definition signing := authorize_handler env 7 path ((fun id => LegAuthorization.mk id signature) <$> legs) after_create.
Definition after_sign : World.t := Eval vm_compute in snd signing.

Example example_created : (fun '(status, replayed, r) => (status, replayed, WithdrawalResponse.status r,
  LegResponse.kind <$> WithdrawalResponse.legs r)) <$> match fst creating with Ok x => Some x | Err _ => None end =
  Some (201, false, "awaiting_signature", ["transfer"; "bridge"])%string.
Proof. vm_compute. reflexivity. Qed.

Example example_signed : WithdrawalResponse.status <$> match fst signing with Ok x => Some x | Err _ => None end = Some "in_progress"%string.
Proof. vm_compute. reflexivity. Qed.

Abbreviation step := (api_step env WithdrawalExample.describe) (only parsing).

Lemma others_idle n db : rtc step db (ApiEnv.others env n db).
Proof. reflexivity. Qed.

Lemma start_api_ok : api_ok env (World.db before).
Proof. apply no_withdrawals_api, WithdrawalExample.fresh_withdrawals. Qed.

#[local] Instance alone : Interference (ApiEnv.others env) step (api_ok env) (World.db before).
Proof. apply interference; [exact start_api_ok|exact others_idle]. Qed.

Lemma run_created : rtc step (World.db before) (World.db after_create).
Proof.
  assert (ready step (World.db before) (fun _ => True) (World.db before)) as H0 by by split.
  pose proof (create_triple env WithdrawalExample.describe 7 (Some "payout-1"%string)
    (CreateWithdrawalRequest.mk None "8453" destination) before H0) as T.
  fold creating in T. change after_create with (snd creating). destruct creating as [[?|?] ?]; apply T.
Qed.

Lemma run_authorized : rtc step (World.db before) (World.db after_sign).
Proof.
  assert (ready step (World.db before) (fun _ => True) (World.db after_create)) as H0
    by (split; [exact run_created|done]).
  pose proof (authorize_triple env WithdrawalExample.describe 7 path
    ((fun id => LegAuthorization.mk id signature) <$> legs) after_create H0) as T.
  fold signing in T. change after_sign with (snd signing). destruct signing as [[?|?] ?]; apply T.
Qed.

Lemma handlers_refine_withdrawals_witness :
  rtc step (World.db before) (World.db after_create) /\ Leg.state <$> (Db.withdrawal_legs (World.db after_create) !! 120) = Some AwaitingSignature.
Proof.
  destruct (handlers_refine_withdrawals env WithdrawalExample.describe before 7 (Some "payout-1"%string)
    (CreateWithdrawalRequest.mk None "8453" destination) path [] others_idle start_api_ok) as [H _].
  split; [exact H|reflexivity].
Defined.

Lemma relayed_only_as_signed_witness :
  exists l w, Db.withdrawal_legs (World.db after_sign) !! 120 = Some l /\ Leg.state l = Authorized /\
    Db.withdrawals (World.db after_sign) !! Leg.withdrawal_id l = Some w /\ directed env w (Leg.terms l).
Proof.
  assert (exists l, Db.withdrawal_legs (World.db after_sign) !! 120 = Some l /\ Leg.state l = Authorized) as (l & Hl & Hs)
    by (eexists; split; reflexivity).
  destruct (relayed_only_as_signed env WithdrawalExample.describe (World.db before) (World.db after_sign) 120 l
    WithdrawalExample.fresh_withdrawals run_authorized Hl ltac:(by rewrite Hs)) as (w & _ & _ & _ & _ & Hw & _ & _ & _ & _ & Hd).
  by exists l, w.
Defined.

End WithdrawalApiExample.
