(* ===== verification/Orchestrator.v ===== *)
(** * gum-server: the withdrawal orchestrator

    Models [crates/gum-server/src/withdrawal_orchestrator.rs]: the pass that
    polls Circle for the attestations of burned legs and opens the next step of
    every leg that is due, publishing its command in the same transaction; and
    the reading of the attestation service's answers in
    [crates/gum-server/src/iris.rs].

    Parameters: the chains' nodes, the attestation service, the ABI encoding of
    the three calls, the parsing of an address, clocks and identifiers, and the
    other users of the database, which run between any two of its statements. *)

From stdpp Require Import pretty.
From S2P Require Import Prelude Core Contracts Bus Tables Registry Withdrawals Effects Chain.

Import Withdrawal.

(** ** Circle's answers ([iris.rs]) *)

Inductive AttestationStatus := NotIndexed | AttPending | AttComplete (messages : list (bytes * bytes)).

Inductive IrisError :=
| IrisTransport (message : string)
| IrisStatus (status : Z) (body : string)
| IrisMalformed (message : string).

Module IrisMessage.
Record t := mk {
  status : string;
  message : option string;
  attestation : option string;
  cctp_version : option Z;
}.
End IrisMessage.

Section Iris.
(* [hex::decode] *)
Context (hex_decode : string -> option bytes).

Definition decode_field (field : string) (value : option string) : result IrisError bytes :=
  match value with
  | Some v =>
      if String.eqb v "" || String.eqb v "PENDING" || String.eqb v "0x"
      then Err (IrisMalformed ("complete message without " +:+ field))
      else ok_or (hex_decode v) (IrisMalformed (field +:+ " is not hex"))
  | None => Err (IrisMalformed ("complete message without " +:+ field))
  end.

Definition add_complete (complete : list (bytes * bytes)) (m : IrisMessage.t)
  : result IrisError (list (bytes * bytes)) :=
  if negb (String.eqb (IrisMessage.status m) "complete") then Ok complete
  else
    let! message := decode_field "message" (IrisMessage.message m) in
    let! attestation := decode_field "attestation" (IrisMessage.attestation m) in
    Ok (complete ++ [(message, attestation)]).

(** [parse_messages] after the JSON decoding. *)
Definition parse_messages (messages : list IrisMessage.t) : result IrisError AttestationStatus :=
  let v2 := List.filter (fun m => default 2 (IrisMessage.cctp_version m) =? 2) messages in
  match v2 with
  | [] => Ok NotIndexed
  | _ :: _ =>
      let! complete := try_fold add_complete [] v2 in
      match complete with
      | [] => Ok AttPending
      | _ :: _ => Ok (AttComplete complete)
      end
  end.

End Iris.

(** ** Constants *)

(* durations in microseconds *)
Definition MIN_AUTHORIZATION_VALIDITY : Z := 10 * 60 * 10 ^ 6.
Definition NOT_AFTER_MARGIN : Z := 60.
Definition STEPS_PER_PASS : nat := 8.
Definition TRANSFER_GAS : Z := 120000.
Definition BRIDGE_GAS : Z := 350000.
Definition MINT_GAS : Z := 350000.

Definition MESSAGE_NONCE_OFFSET : nat := 12.
Definition MESSAGE_SENDER_OFFSET : nat := 44.
Definition DESTINATION_CALLER_OFFSET : nat := 108.
Definition BURN_TOKEN_OFFSET : nat := 152.
Definition MINT_RECIPIENT_OFFSET : nat := 184.
Definition AMOUNT_OFFSET : nat := 216.
Definition BODY_MESSAGE_SENDER_OFFSET : nat := 248.
Definition MAX_FEE_OFFSET : nat := 280.
Definition MIN_BURN_MESSAGE_LEN : nat := 376.

(** ** Reading a burn message *)

(** [message[at..at + n]], of a message long enough. *)
Definition slice (at_ n : nat) (message : bytes) : bytes := take n (drop at_ message).

(** [from_be_bytes]. *)
Definition be_value (b : bytes) : Z := foldl (fun acc x => acc * 256 + x) 0 b.

Definition is_zero_word (b : bytes) : bool := forallb (fun x => x =? 0) b.

Section Message.
Context (parse_address : string -> option Address).

Definition require (ok : bool) (e : string) : result string unit := if ok then Ok tt else Err e.

Definition message_describes_burn (leg : Leg.t) (withdrawal : DbWithdrawal.t) (cctp : CctpConfig.t)
    (registry : ChainRegistry.t) (message : bytes) : result string unit :=
  let terms := Leg.terms leg in
  let domain at_ := be_value (slice at_ 4 message) in
  let word at_ := slice at_ 32 message in
  let! destination := ok_or (ChainRegistry.cctp registry (as_u64 (LegTerms.destination_chain_id terms)))
                        "the destination chain has no CCTP configured" in
  let! _ := require (negb (length message <? MIN_BURN_MESSAGE_LEN)%nat)
              "the message is shorter than a CCTP V2 burn message" in
  let! _ := require (domain 4%nat =? CctpConfig.domain cctp) "the message left another source domain" in
  let! _ := require (domain 8%nat =? CctpConfig.domain destination)
              "the message heads for another destination domain" in
  let! _ := require (negb (is_zero_word (word MESSAGE_NONCE_OFFSET)))
              "the message's nonce is zero, which no transmitter can consume" in
  let! _ := require (bool_decide (word MESSAGE_SENDER_OFFSET = into_word (CctpConfig.token_messenger cctp)))
              "the message was not sent by this chain's token messenger" in
  let! _ := require (is_zero_word (word DESTINATION_CALLER_OFFSET))
              "the message names a designated destination caller Gum cannot satisfy" in
  let! token := ok_or (parse_address (LegTerms.token_address terms)) "the leg's token address is malformed" in
  let! _ := require (bool_decide (word BURN_TOKEN_OFFSET = into_word token)) "the message burns another token" in
  let! recipient := ok_or (parse_address (DbWithdrawal.destination_address withdrawal))
                      "the withdrawal's destination address is malformed" in
  let! _ := require (bool_decide (word MINT_RECIPIENT_OFFSET = into_word recipient))
              "the message mints to another recipient" in
  let! _ := require (be_value (word AMOUNT_OFFSET) =? LegTerms.amount terms) "the message carries another amount" in
  let! _ := require (bool_decide (word BODY_MESSAGE_SENDER_OFFSET = into_word (CctpConfig.forwarder cctp)))
              "the message was not deposited by this chain's forwarder" in
  require (is_zero_word (word MAX_FEE_OFFSET)) "the message carries a fee the forwarder never pays".

End Message.

(** ** The pass *)

Module PassReport.
Record t := mk { attested : Z; deferred : Z; steps_opened : Z; failed : Z }.
Definition default : t := mk 0 0 0 0.
End PassReport.

Inductive OrchestratorError := OrchDatabase (e : DbError) | OrchBus (e : BusError) | OrchUnknownChain (chain_id : Z).

Module Env.
Record t := mk {
  payload_hash : Message -> B256;
  registry : ChainRegistry.t;
  chains : Z -> option Node.t;
  attestations : nat -> Z -> B256 -> result IrisError AttestationStatus;
  policy : StepPolicy.t;
  parse_address : string -> option Address;
  encode_transfer : Address -> Address -> Z -> Z -> Z -> B256 -> bytes -> bytes;
  encode_bridge : Address -> Address -> Z -> Z -> B256 -> B256 -> Z -> bytes -> bytes;
  encode_receive : bytes -> bytes -> bytes;
  others : nat -> Db.t -> Db.t;
  database_now : nat -> Timestamp;
  utc_now : nat -> Timestamp;
  fresh : nat -> Uuid;
}.
End Env.

Section Orchestrator.
Context (env : Env.t).

Abbreviation orch := (eff OrchestratorError World.t) (only parsing).

Definition commit {A} (f : nat -> Db.t -> result OrchestratorError (A * Db.t)) : orch A :=
  transact (Env.others env) f.

Definition select {A} (f : nat -> Db.t -> result DbError A) : orch A :=
  query OrchDatabase (Env.others env) f.

Definition write {A} (f : Timestamp -> Db.t -> result DbError (A * Db.t)) : orch A :=
  update OrchDatabase (Env.others env) (Env.database_now env) f.

(** [fetch_all(..).map(DbWithdrawalLeg::try_from).collect()]. *)
Fixpoint decode_legs (rows : list (Uuid * Leg.t)) : result DbError (list (Uuid * Leg.t)) :=
  match rows with
  | [] => Ok []
  | (id, row) :: rest =>
      let! leg := leg_try_from row in
      let! legs := decode_legs rest in
      Ok ((id, leg) :: legs)
  end.

Definition by_id (id : Uuid) : orch (option DbWithdrawal.t) :=
  select (fun _ db => Ok (Db.withdrawals db !! id)).

Definition now : orch Timestamp := clock (Env.utc_now env).

(** The [for] loops of the pass, over the report. *)
Fixpoint for_legs (body : Uuid * Leg.t -> PassReport.t -> orch PassReport.t) (legs : list (Uuid * Leg.t))
    (report : PassReport.t) : orch PassReport.t :=
  match legs with
  | [] => ret report
  | leg :: rest => let* report' := body leg report in for_legs body rest report'
  end.

Definition deferred_one (r : PassReport.t) : PassReport.t :=
  {| r with PassReport.deferred := PassReport.deferred r + 1 |}.
Definition attested_one (r : PassReport.t) : PassReport.t :=
  {| r with PassReport.attested := PassReport.attested r + 1 |}.
Definition failed_one (r : PassReport.t) : PassReport.t :=
  {| r with PassReport.failed := PassReport.failed r + 1 |}.
Definition opened_one (r : PassReport.t) : PassReport.t :=
  {| r with PassReport.steps_opened := PassReport.steps_opened r + 1 |}.

Definition defer (leg_id : Uuid) (next_check : Timestamp) (report : PassReport.t) : orch PassReport.t :=
  let* _ := write (defer_attestation leg_id next_check) in
  ret (deferred_one report).

(** One burned leg. *)
Definition poll_one (cctp : CctpConfig.t) (leg : Uuid * Leg.t) (report : PassReport.t) : orch PassReport.t :=
  let '(leg_id, row) := leg in
  match Leg.burn_tx_hash row with
  | None =>
      let* _ := write (fail_leg leg_id "burned leg has no burn transaction hash") in
      ret (failed_one report)
  | Some burn_tx_hash =>
      let* t := now in
      let next_check := t + StepPolicy.attestation_poll (Env.policy env) in
      let* answer := outside (fun n => Env.attestations env n (CctpConfig.domain cctp) burn_tx_hash) in
      match answer with
      | Ok (AttComplete messages) =>
          let* found := by_id (Leg.withdrawal_id row) in
          match found with
          | None => ret report
          | Some withdrawal =>
              match List.find (fun ma => is_ok (message_describes_burn (Env.parse_address env) row withdrawal cctp
                                                   (Env.registry env) (fst ma))) messages with
              | Some (message, attestation) =>
                  let* _ := write (record_attestation leg_id message attestation) in
                  ret (attested_one report)
              | None => defer leg_id next_check report
              end
          end
      | Ok _ => defer leg_id next_check report
      | Err _ => defer leg_id next_check report
      end
  end.

Definition poll_attestations (chain_id : Z) (cctp : CctpConfig.t) (report : PassReport.t) : orch PassReport.t :=
  let* legs := select (fun n db => decode_legs (legs_awaiting_attestation chain_id (Env.database_now env n) db)) in
  for_legs (poll_one cctp) legs report.

(** [Duration] of a difference of instants, in milliseconds. *)
Definition elapsed_millis (since until : Timestamp) : Z := Z.max (until - since) 0 / 1000.

Definition search_from (config : ChainConfig.t) (finalized : Z) (created_at t : Timestamp) : Z :=
  let blocks_since :=
    Z.min (elapsed_millis created_at t / Z.max (ChainConfig.block_time_ms config) 1 + 120) u64_max in
  Z.max (u64_saturating_sub finalized blocks_since) (ChainConfig.start_block config).

Definition search_start (config : ChainConfig.t) (leg : Leg.t) : orch Z :=
  let* finalized :=
    match Env.chains env (ChainConfig.chain_id config) with
    | Some chain =>
        outside (fun n => match Node.finalized_header chain n with
                          | Ok header => BlockHeader.number header
                          | Err _ => ChainConfig.start_block config
                          end)
    | None => ret (ChainConfig.start_block config)
    end in
  let* t := now in
  ret (search_from config finalized (LegTerms.created_at (Leg.terms leg)) t).

Definition no_cctp (prefix : string) (chain_id : Z) : string :=
  prefix +:+ pretty chain_id +:+ " which has no CCTP configured".

(** What a step calls: the target, the calldata, the gas, and the nonce its
    precondition watches. *)
Definition transfer_call (leg : Leg.t) (from : Address) : result string (Address * bytes) :=
  let terms := Leg.terms leg in
  let! to := ok_or (Env.parse_address env (LegTerms.authorization_to terms)) "the leg's payee is malformed" in
  let! signature := ok_or (Leg.signature leg) "the leg is unsigned" in
  Ok (to, Env.encode_transfer env from to (LegTerms.amount terms) 0 (as_u64 (LegTerms.valid_before terms))
            (LegTerms.nonce terms) signature).

Definition bridge_call (leg : Leg.t) (withdrawal : DbWithdrawal.t) (from token : Address)
  : result string (Address * bytes) :=
  let terms := Leg.terms leg in
  let! forwarder := ok_or (Env.parse_address env (LegTerms.authorization_to terms)) "the leg's forwarder is malformed" in
  let! destination := ok_or (Env.parse_address env (DbWithdrawal.destination_address withdrawal))
                        "the withdrawal's destination address is malformed" in
  let destination_chain := as_u64 (LegTerms.destination_chain_id terms) in
  let! cctp := ok_or (ChainRegistry.cctp (Env.registry env) destination_chain)
                 (no_cctp "the leg bridges to chain " destination_chain) in
  let! salt := ok_or (LegTerms.salt terms) "the bridge leg has no salt" in
  let! signature := ok_or (Leg.signature leg) "the leg is unsigned" in
  Ok (forwarder, Env.encode_bridge env token from (LegTerms.amount terms) (CctpConfig.domain cctp)
                   (into_word destination) salt (as_u64 (LegTerms.valid_before terms)) signature).

Definition mint_call (config : ChainConfig.t) (leg : Leg.t) : result string (Address * bytes * StepPrecondition) :=
  let! cctp := ok_or (ChainConfig.cctp config)
                 ("chain " +:+ pretty (ChainConfig.chain_id config) +:+ " mints but has no CCTP configured") in
  let source_chain := as_u64 (LegTerms.source_chain_id (Leg.terms leg)) in
  let! source := ok_or (ChainRegistry.cctp (Env.registry env) source_chain)
                   (no_cctp "the leg burned on chain " source_chain) in
  let! message := ok_or (Leg.attestation_message leg) "the attested leg has no message" in
  let! attestation := ok_or (Leg.attestation leg) "the attested leg has no attestation" in
  let! _ := require (negb (length message <? MESSAGE_NONCE_OFFSET + 32)%nat)
              "the attestation message is too short" in
  Ok (CctpConfig.message_transmitter cctp, Env.encode_receive env message attestation,
      MessageNonceUnused (CctpConfig.message_transmitter cctp) (CctpConfig.domain source)
        (slice MESSAGE_NONCE_OFFSET 32 message)).

(** [command]: the step a leg's state calls for; [Err] names what makes the
    leg unexecutable. *)
Definition command (config : ChainConfig.t) (leg_id : Uuid) (leg : Leg.t) (withdrawal : DbWithdrawal.t)
  : orch (result string WithdrawalStepCommand.t) :=
  let terms := Leg.terms leg in
  let chain_id := ChainConfig.chain_id config in
  let not_after := Some (u64_saturating_sub (as_u64 (LegTerms.valid_before terms)) NOT_AFTER_MARGIN) in
  let finish step to calldata gas precondition not_after : orch (result string WithdrawalStepCommand.t) :=
    let* job_id := outside (Env.fresh env) in
    ret (Ok (WithdrawalStepCommand.mk job_id leg_id chain_id step to calldata gas (Some precondition) not_after)) in
  let authorized step target call gas token from :=
    match call with
    | Err reason => ret (Err reason)
    | Ok (to, calldata) =>
        let* start := search_start config leg in
        finish step (target to) calldata gas (AuthorizationUnused token from (LegTerms.nonce terms) start) not_after
    end in
  match step_kind leg with
  | None => ret (Err ("leg in state " +:+ state_as_str (Leg.state leg) +:+ " has no step to run"))
  | Some step =>
      match Env.parse_address env (DbWithdrawal.wallet_address withdrawal) with
      | None => ret (Err "the withdrawal's wallet address is malformed")
      | Some from =>
          match Env.parse_address env (LegTerms.token_address terms) with
          | None => ret (Err "the leg's token address is malformed")
          | Some token =>
              match step with
              | Transfer => authorized Transfer (fun _ => token) (transfer_call leg from) TRANSFER_GAS token from
              | Burn => authorized Burn (fun forwarder => forwarder) (bridge_call leg withdrawal from token)
                          BRIDGE_GAS token from
              | Mint =>
                  match mint_call config leg with
                  | Err reason => ret (Err reason)
                  | Ok (to, calldata, precondition) => finish Mint to calldata MINT_GAS precondition None
                  end
              end
          end
      end
  end.

(** The transaction that opens a step: [None] is the rollback. *)
Definition open_step (leg_id : Uuid) (cmd : WithdrawalStepCommand.t) (correlation_id message_id : Uuid)
    (now : Timestamp) (db : Db.t) : result OrchestratorError (bool * Db.t) :=
  let! '(opened, db1) := db_result OrchDatabase (begin_step leg_id (WithdrawalStepCommand.job_id cmd)
                                  (WithdrawalStepCommand.chain_id cmd) now db) in
  if negb opened then Ok (false, db)
  else
    match publish (Env.payload_hash env) "gum-server" (WithdrawalStep cmd) correlation_id None message_id now
            (Db.bus db1) with
    | Err e => Err (OrchBus e)
    | Ok (_, bus) => Ok (true, {| db1 with Db.bus := bus |})
    end.

(** One leg that is due. *)
Definition open_one (config : ChainConfig.t) (leg : Uuid * Leg.t) (report : PassReport.t) : orch PassReport.t :=
  let '(leg_id, row) := leg in
  let* found := by_id (Leg.withdrawal_id row) in
  match found with
  | None => ret report
  | Some withdrawal =>
      let* built := command config leg_id row withdrawal in
      match built with
      | Err reason =>
          let* _ := write (fail_leg leg_id reason) in
          ret (failed_one report)
      | Ok cmd =>
          let* opened := commit (fun n => open_step leg_id cmd (Leg.withdrawal_id row) (Env.fresh env n)
                                   (Env.database_now env n)) in
          ret (if (opened : bool) then opened_one report else report)
      end
  end.

Definition open_steps (config : ChainConfig.t) (report : PassReport.t) : orch PassReport.t :=
  let* legs := select (fun n db => decode_legs (relayable (ChainConfig.chain_id config) MIN_AUTHORIZATION_VALIDITY
                                       STEPS_PER_PASS (Env.database_now env n) db)) in
  for_legs (open_one config) legs report.

Definition pass (chain_id : Z) : orch PassReport.t :=
  match ChainRegistry.get (Env.registry env) chain_id with
  | None => throw (OrchUnknownChain chain_id)
  | Some config =>
      let* report :=
        match ChainConfig.cctp config with
        | Some cctp => poll_attestations chain_id cctp PassReport.default
        | None => ret PassReport.default
        end in
      open_steps config report
  end.

(** One round of [run]: expiry, then a pass over every chain, whose errors
    are logged and left for the next round. *)
Fixpoint passes (chains : list ChainConfig.t) : orch unit :=
  match chains with
  | [] => ret tt
  | c :: rest => let* _ := attempt (pass (ChainConfig.chain_id c)) in passes rest
  end.

Definition round : orch unit :=
  let* _ := attempt (write (expire_stale MIN_AUTHORIZATION_VALIDITY)) in
  passes (ChainRegistry.chains (Env.registry env)).

End Orchestrator.
