(* ===== verification/OrchestratorTheorems.v ===== *)
(** * gum-server: what the withdrawal orchestrator promises

    A step never runs without its command on the bus, and only the command
    its leg's state calls for is published; a pass is a sequence of the
    ledger's withdrawal transactions; and the check of an attested message is
    exact on the messages of Circle's layout. *)

From S2P Require Import Prelude Core Contracts Bus Tables Registry Withdrawals WithdrawalTheorems.
From S2P Require Import Effects Chain Orchestrator.

Import Withdrawal.

(** ** The layout of a burn message

    The CCTP V2 envelope and body, field by field, as the table in
    [withdrawal_orchestrator.rs] gives it. *)

Module BurnMessage.
Record t := mk {
  version : Z;
  source_domain : Z;
  destination_domain : Z;
  nonce : bytes;
  sender : bytes;
  recipient : bytes;
  destination_caller : bytes;
  min_finality : Z;
  finality_executed : Z;
  body_version : Z;
  burn_token : bytes;
  mint_recipient : bytes;
  amount : Z;
  message_sender : bytes;
  max_fee : Z;
  fee_executed : Z;
  expiration : Z;
  hook_data : bytes;
}.
End BurnMessage.

(** Big-endian, [n] bytes. *)
Fixpoint be_bytes (n : nat) (v : Z) : bytes :=
  match n with
  | O => []
  | S n' => be_bytes n' (v / 256) ++ [v mod 256]
  end.

Lemma be_bytes_length n v : length (be_bytes n v) = n.
Proof. revert v. induction n as [|n IH]; intros v; simpl; [done|]. rewrite length_app, IH. simpl. lia. Qed.

Lemma be_value_snoc b x : be_value (b ++ [x]) = be_value b * 256 + x.
Proof. unfold be_value. by rewrite foldl_app. Qed.

Lemma be_roundtrip n v : 0 <= v < 256 ^ Z.of_nat n -> be_value (be_bytes n v) = v.
Proof.
  revert v. induction n as [|n IH]; intros v Hv; simpl.
  - change (256 ^ Z.of_nat 0) with 1 in Hv. unfold be_value. simpl. lia.
  - rewrite be_value_snoc, IH; [pose proof (Z.div_mod v 256); lia|].
    rewrite Nat2Z.inj_succ, Z.pow_succ_r in Hv by lia. split; [apply Z.div_pos; lia|].
    apply Z.div_lt_upper_bound; lia.
Qed.

Lemma be_zero n v : 0 <= v < 256 ^ Z.of_nat n -> is_zero_word (be_bytes n v) = true <-> v = 0.
Proof.
  intros Hv. split.
  - intros Hz. rewrite <- (be_roundtrip n v Hv). clear Hv. unfold is_zero_word in Hz.
    induction (be_bytes n v) as [|x l IH] using rev_ind; [done|].
    rewrite be_value_snoc. rewrite forallb_app in Hz. bools. simpl in *. bools. rewrite IH by done. lia.
  - intros ->. clear Hv. unfold is_zero_word. induction n as [|n IH]; simpl; [done|].
    by rewrite forallb_app, Z.div_0_l, IH by lia.
Qed.

(** The fields, as the chunks of the encoding. *)
Definition chunks (m : BurnMessage.t) : list bytes :=
  [be_bytes 4 (BurnMessage.version m); be_bytes 4 (BurnMessage.source_domain m);
   be_bytes 4 (BurnMessage.destination_domain m); BurnMessage.nonce m; BurnMessage.sender m;
   BurnMessage.recipient m; BurnMessage.destination_caller m; be_bytes 4 (BurnMessage.min_finality m);
   be_bytes 4 (BurnMessage.finality_executed m); be_bytes 4 (BurnMessage.body_version m);
   BurnMessage.burn_token m; BurnMessage.mint_recipient m; be_bytes 32 (BurnMessage.amount m);
   BurnMessage.message_sender m; be_bytes 32 (BurnMessage.max_fee m); be_bytes 32 (BurnMessage.fee_executed m);
   be_bytes 32 (BurnMessage.expiration m); BurnMessage.hook_data m].

Definition encode (m : BurnMessage.t) : bytes := concat (chunks m).

(** Every field has its width. *)
Record message_typed (m : BurnMessage.t) : Prop := {
  mt_source : 0 <= BurnMessage.source_domain m < 256 ^ 4;
  mt_destination : 0 <= BurnMessage.destination_domain m < 256 ^ 4;
  mt_nonce : length (BurnMessage.nonce m) = 32%nat;
  mt_sender : length (BurnMessage.sender m) = 32%nat;
  mt_recipient : length (BurnMessage.recipient m) = 32%nat;
  mt_caller : length (BurnMessage.destination_caller m) = 32%nat;
  mt_token : length (BurnMessage.burn_token m) = 32%nat;
  mt_mint : length (BurnMessage.mint_recipient m) = 32%nat;
  mt_amount : 0 <= BurnMessage.amount m < 256 ^ 32;
  mt_depositor : length (BurnMessage.message_sender m) = 32%nat;
  mt_fee : 0 <= BurnMessage.max_fee m < 256 ^ 32;
}.

Section Layout.
Context (m : BurnMessage.t) (typed : message_typed m).

Lemma slice_chunk i c at_ n :
  chunks m !! i = Some c -> at_ = length (concat (take i (chunks m))) -> n = length c ->
  slice at_ n (encode m) = c.
Proof.
  intros Hi -> ->. unfold slice, encode. rewrite <- (take_drop_middle _ _ _ Hi) at 2.
  rewrite concat_app. simpl. by rewrite drop_app_length, take_app_length.
Qed.

Ltac lengths := rewrite ?length_app, ?be_bytes_length, ?(mt_nonce _ typed), ?(mt_sender _ typed),
  ?(mt_recipient _ typed), ?(mt_caller _ typed), ?(mt_token _ typed), ?(mt_mint _ typed), ?(mt_depositor _ typed).
Ltac chunk i := apply (slice_chunk i); [reflexivity|cbn [take chunks concat]; lengths; reflexivity|by lengths].

Lemma encode_length : (length (encode m) <? MIN_BURN_MESSAGE_LEN)%nat = false.
Proof.
  apply Nat.ltb_ge. unfold encode, chunks, MIN_BURN_MESSAGE_LEN. cbn [concat]. lengths. simpl. lia.
Qed.

Lemma read_source : be_value (slice 4 4 (encode m)) = BurnMessage.source_domain m.
Proof. rewrite <- (be_roundtrip 4 _ (mt_source _ typed)). apply (f_equal be_value). chunk 1%nat. Qed.
Lemma read_destination : be_value (slice 8 4 (encode m)) = BurnMessage.destination_domain m.
Proof. rewrite <- (be_roundtrip 4 _ (mt_destination _ typed)). apply (f_equal be_value). chunk 2%nat. Qed.
Lemma read_nonce : slice MESSAGE_NONCE_OFFSET 32 (encode m) = BurnMessage.nonce m.
Proof. chunk 3%nat. Qed.
Lemma read_sender : slice MESSAGE_SENDER_OFFSET 32 (encode m) = BurnMessage.sender m.
Proof. chunk 4%nat. Qed.
Lemma read_caller : slice DESTINATION_CALLER_OFFSET 32 (encode m) = BurnMessage.destination_caller m.
Proof. chunk 6%nat. Qed.
Lemma read_token : slice BURN_TOKEN_OFFSET 32 (encode m) = BurnMessage.burn_token m.
Proof. chunk 10%nat. Qed.
Lemma read_mint : slice MINT_RECIPIENT_OFFSET 32 (encode m) = BurnMessage.mint_recipient m.
Proof. chunk 11%nat. Qed.
Lemma read_amount : be_value (slice AMOUNT_OFFSET 32 (encode m)) = BurnMessage.amount m.
Proof. rewrite <- (be_roundtrip 32 _ (mt_amount _ typed)). apply (f_equal be_value). chunk 12%nat. Qed.
Lemma read_depositor : slice BODY_MESSAGE_SENDER_OFFSET 32 (encode m) = BurnMessage.message_sender m.
Proof. chunk 13%nat. Qed.
Lemma read_fee : slice MAX_FEE_OFFSET 32 (encode m) = be_bytes 32 (BurnMessage.max_fee m).
Proof. chunk 14%nat. Qed.

End Layout.

Lemma require_ok b e : require b e = Ok tt <-> b = true.
Proof. unfold require. by destruct b. Qed.

Lemma rbind_require {B} (r : result string unit) (k : unit -> result string B) b :
  rbind r k = Ok b <-> r = Ok tt /\ k tt = Ok b.
Proof. destruct r as [[]|e]; simpl; naive_solver. Qed.

Lemma rbind_ok_or {A B} (o : option A) e (k : A -> result string B) b :
  rbind (ok_or o e) k = Ok b <-> exists a, o = Some a /\ k a = Ok b.
Proof. destruct o; simpl; naive_solver. Qed.

(** C21. The check of an attested message is exact: of the messages of
    Circle's layout it accepts exactly those that left this chain's domain for
    the leg's destination domain with a usable nonce, sent by the chain's token
    messenger to no designated caller, and that burn the leg's token and
    amount for the withdrawal's recipient, deposited by the forwarder, without
    a fee. *)
Theorem burn_message_exact parse leg withdrawal cctp registry m :
  message_typed m ->
  message_describes_burn parse leg withdrawal cctp registry (encode m) = Ok tt <->
  exists destination token recipient,
    ChainRegistry.cctp registry (as_u64 (LegTerms.destination_chain_id (Leg.terms leg))) = Some destination /\
    parse (LegTerms.token_address (Leg.terms leg)) = Some token /\
    parse (DbWithdrawal.destination_address withdrawal) = Some recipient /\
    BurnMessage.source_domain m = CctpConfig.domain cctp /\
    BurnMessage.destination_domain m = CctpConfig.domain destination /\
    is_zero_word (BurnMessage.nonce m) = false /\
    BurnMessage.sender m = into_word (CctpConfig.token_messenger cctp) /\
    is_zero_word (BurnMessage.destination_caller m) = true /\
    BurnMessage.burn_token m = into_word token /\
    BurnMessage.mint_recipient m = into_word recipient /\
    BurnMessage.amount m = LegTerms.amount (Leg.terms leg) /\
    BurnMessage.message_sender m = into_word (CctpConfig.forwarder cctp) /\
    BurnMessage.max_fee m = 0.
Proof.
  intros Ht. unfold message_describes_burn.
  rewrite (read_source m Ht), (read_destination m Ht), (read_nonce m Ht), (read_sender m Ht), (read_caller m Ht),
    (read_token m Ht), (read_mint m Ht), (read_amount m Ht), (read_depositor m Ht), (read_fee m Ht).
  rewrite (encode_length m Ht). repeat setoid_rewrite rbind_ok_or. repeat setoid_rewrite rbind_require.
  repeat setoid_rewrite rbind_ok_or. repeat setoid_rewrite rbind_require. repeat setoid_rewrite rbind_ok_or.
  repeat setoid_rewrite rbind_require. setoid_rewrite require_ok. setoid_rewrite negb_true_iff.
  setoid_rewrite bool_decide_eq_true. setoid_rewrite Z.eqb_eq.
  setoid_rewrite (be_zero 32 _ (mt_fee _ Ht)). naive_solver.
Qed.

(** ** Histories around the orchestrator *)

Section Histories.
Context (env : Env.t) (describe_abandon : AbandonReason -> string).

Abbreviation wd_step := (wd_step describe_abandon) (only parsing).
Abbreviation payload_hash := (Env.payload_hash env) (only parsing).

(** Every step that is open now was open before. *)
Definition begins_nothing (db db' : Db.t) : Prop :=
  forall k l', Db.withdrawal_legs db' !! k = Some l' -> is_some (Leg.step_job_id l') = true ->
    exists l, Db.withdrawal_legs db !! k = Some l /\ Leg.step_job_id l = Leg.step_job_id l' /\
      Leg.step_chain_id l = Leg.step_chain_id l'.

(** What may happen besides the opening of a step: a withdrawal transaction
    that begins none, or a transaction of the bus. *)
Inductive quiet_step (db : Db.t) : Db.t -> Prop :=
| quiet_wd db' : wd_step db db' -> begins_nothing db db' -> Db.bus db' = Db.bus db -> quiet_step db db'
| quiet_bus bus' : bus_step payload_hash (Db.bus db) bus' -> quiet_step db {| db with Db.bus := bus' |}.

(** The orchestrator is the only one to begin steps, each with its command. *)
Inductive orch_step (db : Db.t) : Db.t -> Prop :=
| orch_quiet db' : quiet_step db db' -> orch_step db db'
| orch_open leg l cmd corr msg now db' :
    Db.withdrawal_legs db !! leg = Some l -> step_kind l = Some (WithdrawalStepCommand.step cmd) ->
    WithdrawalStepCommand.leg_id cmd = leg ->
    open_step env leg cmd corr msg now db = Ok (true, db') -> orch_step db db'.

(** The state the histories keep. *)
Record system_ok (db : Db.t) : Prop := {
  so_wd : wd_ok db;
  so_bus : bus_wf (Db.bus db);
  so_hashes : forall k m, Bus.messages (Db.bus db) !! k = Some m ->
    RawMessage.payload_hash m = payload_hash (RawMessage.payload m);
}.

Lemma bus_step_hashes bus bus' :
  bus_step payload_hash bus bus' ->
  (forall k m, Bus.messages bus !! k = Some m -> RawMessage.payload_hash m = payload_hash (RawMessage.payload m)) ->
  forall k m, Bus.messages bus' !! k = Some m -> RawMessage.payload_hash m = payload_hash (RawMessage.payload m).
Proof.
  intros Hstep Hh. destruct Hstep as [M BM producer message corr cause id now o bus' Hp| | | | ].
  - destruct (publish_published _ _ _ _ _ _ _ _ _ _ Hp) as [(? & ? & _ & -> & _)|(_ & _ & _ & Hm & _)]; [done|].
    intros k m. rewrite Hm. intros [[_ <-]|[_ ?]]%lookup_insert_Some; [done|by eapply Hh].
  - destruct (claim_moves c tokens now bus) as [E _]. rewrite E. exact Hh.
  - destruct (ack_moves _ _ _ _ _ H) as [E _]. rewrite E. exact Hh.
  - destruct (fail_moves c d error k now bus) as [E _]. rewrite E. exact Hh.
  - destruct (retry_dead_moves c id now bus) as [E _]. rewrite E. exact Hh.
Qed.

Lemma open_step_parts leg cmd corr msg now db db' :
  open_step env leg cmd corr msg now db = Ok (true, db') ->
  exists db1 out bus', begin_step leg (WithdrawalStepCommand.job_id cmd) (WithdrawalStepCommand.chain_id cmd) now db =
      Ok (true, db1) /\
    publish payload_hash "gum-server" (WithdrawalStep cmd) corr None msg now (Db.bus db1) = Ok (out, bus') /\
    db' = {| db1 with Db.bus := bus' |}.
Proof.
  unfold open_step, db_result. intros H. apply rbind_ok in H as ([opened db1] & Hb & H).
  destruct (begin_step _ _ _ _ _) as [[o d]|] eqn:E; [|discriminate]. injection Hb as -> ->.
  destruct opened; simpl in H; [|discriminate].
  destruct (publish _ _ _ _ _ _ _ _) as [[out bus']|] eqn:Hp; [|discriminate]. injection H as <-. eauto 10.
Qed.

(** What beginning a step does to the leg, and to the rest. *)
Lemma begin_step_spec leg job chain now db db' :
  begin_step leg job chain now db = Ok (true, db') ->
  exists l l', Db.withdrawal_legs db !! leg = Some l /\ Leg.step_job_id l = None /\
    (Leg.state l = Authorized \/ Leg.state l = Attested) /\ step_kind l' = step_kind l /\
    Leg.step_job_id l' = Some job /\ Leg.step_chain_id l' = Some (as_i64 chain) /\
    Db.withdrawal_legs db' = <[leg := l']> (Db.withdrawal_legs db) /\ Db.bus db' = Db.bus db.
Proof.
  unfold begin_step. destruct (Db.withdrawal_legs db !! leg) as [l|] eqn:Hl; [|discriminate].
  destruct (Db.withdrawals db !! _) as [w|]; [|discriminate].
  destruct (is_some (DbWithdrawal.cancelled_at w)); [discriminate|].
  destruct (Leg.step_job_id l) as [j|] eqn:Hj; [discriminate|]. simpl.
  assert (forall l1 db1, store_leg leg l1 db = Ok db1 -> Db.bus db1 = Db.bus db) as Hbus.
  { intros l1 db1. unfold store_leg. repeat case_match; intros [= <-]; done. }
  destruct (Leg.state l) eqn:Hs; try discriminate; intros (db1 & Hst & [= <-])%rbind_ok;
    (pose proof (store_leg_parts _ _ _ _ Hst) as (_ & El & _)); exists l; eexists;
    (split_and!; [| | | | | |exact El|]; [done|done|by auto| |done|done|by eapply Hbus]);
    unfold step_kind, Leg.kind; simpl; by rewrite Hs.
Qed.

Lemma bus_only_wd db bus' X : wd_ok_but X db -> wd_ok_but X {| db with Db.bus := bus' |}.
Proof. apply wd_ok_same; done. Qed.

Lemma quiet_ok db db' : quiet_step db db' -> system_ok db -> system_ok db'.
Proof.
  intros [db1 Hs Hn Hb|bus' Hb] [H1 H2 H3].
  - destruct (wd_step_good _ _ _ Hs H1) as [H1' _]. split; [done|by rewrite Hb|by rewrite Hb].
  - destruct (bus_step_kept _ _ _ Hb H2) as (H2' & _ & _). split; simpl; [by apply bus_only_wd|done|].
    by eapply bus_step_hashes.
Qed.

Lemma orch_step_ok db db' : orch_step db db' -> system_ok db -> system_ok db'.
Proof.
  intros [db1 Hq|leg l cmd corr msg now db1 Hl Hk Hid Ho]; [by apply quiet_ok|]. intros [H1 H2 H3].
  apply open_step_parts in Ho as (db2 & out & bus' & Hb & Hp & ->).
  destruct (good_begin _ _ _ _ _ _ _ H1 Hb) as [H1' _].
  destruct (begin_step_spec _ _ _ _ _ _ Hb) as (? & ? & _ & _ & _ & _ & _ & _ & _ & Ebus). rewrite Ebus in Hp.
  split; simpl; [by apply bus_only_wd| |].
  - by destruct (publish_wf _ _ _ _ _ _ _ _ _ _ Hp H2).
  - eapply bus_step_hashes; [|exact H3]. eapply (step_publish _ _ ExecutionCommand), Hp.
Qed.

Lemma orch_steps_ok db db' : rtc orch_step db db' -> system_ok db -> system_ok db'.
Proof. induction 1; eauto using orch_step_ok. Qed.

(** The command of a running step, on the bus; the bus knows a message by
    the hash of its payload. *)
Definition commanded (db : Db.t) (k : Uuid) (l : Leg.t) (job : Uuid) : Prop :=
  exists mid m cmd, Bus.messages (Db.bus db) !! mid = Some m /\
    RawMessage.topic m = EXECUTION_COMMANDS_TOPIC /\
    payload_hash (RawMessage.payload m) = payload_hash (MCommand (WithdrawalStep cmd)) /\
    WithdrawalStepCommand.job_id cmd = job /\ WithdrawalStepCommand.leg_id cmd = k /\
    step_kind l = Some (WithdrawalStepCommand.step cmd) /\
    Leg.step_chain_id l = Some (as_i64 (WithdrawalStepCommand.chain_id cmd)).

Definition all_commanded (db : Db.t) : Prop :=
  forall k l job, Db.withdrawal_legs db !! k = Some l -> Leg.step_job_id l = Some job -> commanded db k l job.

Lemma commanded_grows db db' k l l' job :
  Bus.messages (Db.bus db) ⊆ Bus.messages (Db.bus db') -> step_kind l' = step_kind l ->
  Leg.step_chain_id l' = Leg.step_chain_id l -> commanded db k l job -> commanded db' k l' job.
Proof.
  intros Hsub Hk Hc (mid & m & cmd & Hm & Hrest). exists mid, m, cmd. rewrite Hk, Hc.
  split; [by eapply lookup_weaken|done].
Qed.

(** A running leg whose step stays open has not changed its state. *)
Lemma running_same l l' :
  leg_step l l' -> leg_ok l -> leg_ok l' -> is_some (Leg.step_job_id l) = true ->
  Leg.step_job_id l = Leg.step_job_id l' -> step_kind l' = step_kind l.
Proof.
  intros [->|(Ht & Hs & _)] [S1 _ _ _] [S2 _ _ _] Hr Hj; [done|]. rewrite <- Hj, S1 in S2. rewrite S1 in Hr.
  unfold step_kind, Leg.kind. rewrite Ht.
  destruct Hs as [[-> _]|He]; [done|]. by destruct (Leg.state l), (Leg.state l').
Qed.

Lemma quiet_commanded db db' : quiet_step db db' -> system_ok db -> all_commanded db -> all_commanded db'.
Proof.
  intros Hq Hok Hall k l' job Hl Hj. pose proof (quiet_ok _ _ Hq Hok) as Hok'.
  destruct Hq as [db1 Hs Hn Hb|bus' Hb].
  - destruct (Hn k l' Hl) as (l & Hl0 & Ej & Ec); [by rewrite Hj|].
    destruct (wd_step_good _ _ _ Hs (so_wd _ Hok)) as [_ [Hmv _]].
    destruct (Hmv k l Hl0) as (l'' & Hl'' & Hstep). assert (l'' = l') as -> by congruence.
    eapply (commanded_grows db); [by rewrite Hb| |exact (eq_sym Ec)|apply (Hall k l job Hl0); congruence].
    apply running_same; [done|by apply (wd_leg _ _ (so_wd _ Hok) k)|by apply (wd_leg _ _ (so_wd _ Hok') k)|by rewrite Ej, Hj|done].
  - destruct (bus_step_kept _ _ _ Hb (so_bus _ Hok)) as (_ & Hsub & _).
    eapply commanded_grows; [exact Hsub|done|done|by apply (Hall k l' job)].
Qed.

Lemma published_on_bus cmd corr msg now bus out bus' :
  publish payload_hash "gum-server" (WithdrawalStep cmd) corr None msg now bus = Ok (out, bus') ->
  (forall k m, Bus.messages bus !! k = Some m -> RawMessage.payload_hash m = payload_hash (RawMessage.payload m)) ->
  exists mid m, Bus.messages bus' !! mid = Some m /\ RawMessage.topic m = EXECUTION_COMMANDS_TOPIC /\
    payload_hash (RawMessage.payload m) = payload_hash (MCommand (WithdrawalStep cmd)).
Proof.
  unfold publish. intros Hp Hh. destruct (find_message _ _ _) as [m|] eqn:Hf.
  - apply find_message_some in Hf as ([k Hk] & Ht & _). case_bool_decide as Hq; [|discriminate]. injection Hp as _ <-.
    exists k, m. split_and!; [done|done|]. rewrite <- (Hh k m Hk). exact Hq.
  - destruct (is_some _); [discriminate|]. injection Hp as _ <-. exists msg. simpl. rewrite lookup_insert_eq. by eexists.
Qed.

Lemma open_commanded leg l cmd corr msg now db db' :
  Db.withdrawal_legs db !! leg = Some l -> step_kind l = Some (WithdrawalStepCommand.step cmd) ->
  WithdrawalStepCommand.leg_id cmd = leg -> open_step env leg cmd corr msg now db = Ok (true, db') ->
  system_ok db -> all_commanded db -> all_commanded db'.
Proof.
  intros Hl Hk Hid Ho Hok Hall k lk job Hlk Hj.
  apply open_step_parts in Ho as (db1 & out & bus' & Hb & Hp & ->).
  destruct (begin_step_spec _ _ _ _ _ _ Hb) as (x & l' & Hx & _ & _ & Ek & Ej & Ec & El & Ebus).
  rewrite Ebus in Hp. assert (x = l) as -> by congruence. simpl in Hlk. rewrite El in Hlk.
  apply lookup_insert_Some in Hlk as [[<- <-]|[Hne Hlk]].
  - destruct (published_on_bus _ _ _ _ _ _ _ Hp (so_hashes _ Hok)) as (mid & m & Hm & Ht & Hpay).
    exists mid, m, cmd. split_and!; [exact Hm|exact Ht|exact Hpay|congruence|done|by rewrite Ek|done].
  - destruct (publish_wf _ _ _ _ _ _ _ _ _ _ Hp (so_bus _ Hok)) as (_ & Hsub & _).
    eapply (commanded_grows db); [exact Hsub|done|done|by apply Hall].
Qed.

Lemma histories_commanded db db' :
  rtc orch_step db db' -> system_ok db -> all_commanded db -> all_commanded db'.
Proof.
  induction 1 as [|db1 db2 db3 Hs _ IH]; [done|]. intros Hok Hall.
  apply IH; [by eapply orch_step_ok|]. destruct Hs; [by eapply quiet_commanded|by eapply open_commanded].
Qed.

End Histories.

(** ** A pass is such a history *)

(** Writes that begin no step. *)
Lemma store_begins_nothing id l l' db db' :
  Db.withdrawal_legs db !! id = Some l -> store_leg id l' db = Ok db' ->
  Leg.step_job_id l' = None \/
    Leg.step_job_id l' = Leg.step_job_id l /\ Leg.step_chain_id l' = Leg.step_chain_id l ->
  begins_nothing db db' /\ Db.bus db' = Db.bus db.
Proof.
  intros Hl Hst Hstep. split.
  - apply store_leg_parts in Hst as (_ & El & _). intros k x Hx Hrun. rewrite El in Hx.
    apply lookup_insert_Some in Hx as [[<- <-]|[_ Hx]]; [|by exists x].
    destruct Hstep as [E|[E1 E2]]; [by rewrite E in Hrun|]. by exists l.
  - unfold store_leg in Hst. repeat case_match; try discriminate. by injection Hst as <-.
Qed.

Lemma settle_begins_nothing id now db db' :
  begins_nothing db db' /\ Db.bus db' = Db.bus db ->
  begins_nothing db (settle_in id now db') /\ Db.bus (settle_in id now db') = Db.bus db.
Proof.
  intros [Hn Hb]. split.
  - intros k l'. rewrite settle_in_legs. apply Hn.
  - rewrite <- Hb. unfold settle_in. destruct (Db.withdrawals db' !! id); [|done]. by destruct (_ && _).
Qed.

Section Refinement.
Context (env : Env.t) (describe_abandon : AbandonReason -> string) (db0 : Db.t).

Abbreviation quiet := (quiet_step env describe_abandon) (only parsing).
Abbreviation orch_steps := (rtc (orch_step env describe_abandon)) (only parsing).

Hypothesis others_quiet : forall n db, rtc quiet db (Env.others env n db).

Lemma fail_leg_quiet leg reason now db b db' : fail_leg leg reason now db = Ok (b, db') -> rtc quiet db db'.
Proof.
  intros H. pose proof (wd_fail_leg describe_abandon db _ _ _ _ _ H) as Hwd. unfold fail_leg in H.
  destruct (Db.withdrawal_legs db !! leg) as [l|] eqn:Hl; [|injection H as <- <-; constructor].
  destruct (is_terminal _); [injection H as <- <-; constructor|]. apply rbind_ok in H as (db1 & Hst & [= <- <-]).
  destruct (settle_begins_nothing (Leg.withdrawal_id l) now db db1) as [Hn Hb].
  { eapply store_begins_nothing; [exact Hl|exact Hst|by left]. }
  by apply rtc_once, quiet_wd.
Qed.

Lemma attest_quiet leg m a now db b db' : record_attestation leg m a now db = Ok (b, db') -> rtc quiet db db'.
Proof.
  intros H. pose proof (wd_attest describe_abandon db _ _ _ _ _ _ H) as Hwd. unfold record_attestation in H.
  destruct (Db.withdrawal_legs db !! leg) as [l|] eqn:Hl; [|injection H as <- <-; constructor].
  case_bool_decide; [|injection H as <- <-; constructor]. apply rbind_ok in H as (db1 & Hst & [= <- <-]).
  destruct (store_begins_nothing _ _ _ _ _ Hl Hst) as [Hn Hb]; [by right|]. by apply rtc_once, quiet_wd.
Qed.

Lemma defer_quiet leg next now db b db' : defer_attestation leg next now db = Ok (b, db') -> rtc quiet db db'.
Proof.
  intros H. pose proof (wd_defer describe_abandon db _ _ _ _ _ H) as Hwd. unfold defer_attestation in H.
  destruct (Db.withdrawal_legs db !! leg) as [l|] eqn:Hl; [|injection H as <- <-; constructor].
  case_bool_decide; [|injection H as <- <-; constructor]. apply rbind_ok in H as (db1 & Hst & [= <- <-]).
  destruct (store_begins_nothing _ _ _ _ _ Hl Hst) as [Hn Hb]; [by right|]. by apply rtc_once, quiet_wd.
Qed.

(** A leg that was read ready to run is as it was read, or has ended. *)
Definition candidate (row : Leg.t) : Prop :=
  (Leg.state row = Authorized \/ Leg.state row = Attested) /\ Leg.step_job_id row = None.

Definition row_fresh (db : Db.t) (id : Uuid) (row : Leg.t) : Prop :=
  exists l, Db.withdrawal_legs db !! id = Some l /\ (l = row \/ is_terminal (Leg.state l) = true).

Lemma terminal_stays l l' : leg_step l l' -> is_terminal (Leg.state l) = true -> is_terminal (Leg.state l') = true.
Proof.
  intros [->|(_ & [[_ Hs]|He] & _)] Ht; [done|by rewrite Hs in Ht|]. by destruct (Leg.state l).
Qed.

Lemma quiet_fresh db db' id row :
  quiet db db' -> system_ok env db -> candidate row -> row_fresh db id row -> row_fresh db' id row.
Proof.
  intros Hq Hok [Hst Hnone] (l & Hl & Hf). pose proof (quiet_ok _ _ _ _ Hq Hok) as Hok'.
  destruct Hq as [db1 Hs Hn _|bus' _]; [|by exists l].
  destruct (wd_step_good _ _ _ Hs (so_wd _ _ Hok)) as [_ [Hmv _]]. destruct (Hmv id l Hl) as (l' & Hl' & Hstep).
  exists l'. split; [done|]. destruct Hf as [->|Hf]; [|right; by eapply terminal_stays].
  destruct Hstep as [->|(_ & [[_ Hb]|He] & _)]; [by left|destruct Hst as [Hst|Hst]; by rewrite Hst in Hb|].
  right. destruct (wd_leg _ _ (so_wd _ _ Hok') id l' Hl') as [Hlk _]. pose proof (lk_step _ Hlk) as Hstep.
  destruct (in_flight (Leg.state l')) eqn:Hfl.
  - destruct (Hn id l' Hl') as (x & Hx & Ej & _); [by rewrite Hstep|].
    assert (x = row) as -> by congruence. rewrite <- Ej, Hnone in Hstep. done.
  - destruct Hst as [Hst|Hst]; rewrite Hst in He; destruct (Leg.state l'); done.
Qed.

(** ** The invariant of the loops *)

Record ready (legs : list (Uuid * Leg.t)) (db : Db.t) : Prop := {
  rd_run : orch_steps db0 db;
  rd_ok : system_ok env db;
  rd_ids : NoDup legs.*1;
  rd_rows : Forall (fun x => candidate (snd x) /\ row_fresh db (fst x) (snd x)) legs;
}.

Lemma ready_quiet legs db db' : rtc quiet db db' -> ready legs db -> ready legs db'.
Proof.
  induction 1 as [|db1 db2 db3 Hq _ IH]; [done|]. intros [R1 R2 R3 R4]. apply IH. split; [| |done|].
  - eapply rtc_r; [exact R1|by apply orch_quiet].
  - by eapply quiet_ok.
  - eapply list.Forall_impl; [exact R4|]. intros [id row] [Hc Hf]. split; [done|]. by eapply quiet_fresh.
Qed.

Lemma ready_tail x legs db : ready (x :: legs) db -> ready legs db.
Proof.
  intros [R1 R2 R3 R4]. split; [done|done| |].
  - by apply list.NoDup_cons in R3 as [_ ?].
  - by apply list.Forall_cons in R4 as [_ ?].
Qed.

Abbreviation orch := (eff OrchestratorError World.t) (only parsing).

(** A statement that only reads, or writes quietly. *)
Lemma commit_quiet {A} legs (f : nat -> Db.t -> result OrchestratorError (A * Db.t)) :
  (forall n db a db', f n db = Ok (a, db') -> rtc quiet db db') ->
  triple (fun w => ready legs (World.db w)) (commit env f)
    (fun a w => ready legs (World.db w)) (fun _ w => ready legs (World.db w)).
Proof.
  intros Hf w HP. unfold commit, transact. pose proof (ready_quiet _ _ _ (others_quiet (World.tick w) (World.db w)) HP) as H1.
  destruct (f _ _) as [[a db']|e] eqn:E; simpl; [|done]. eapply ready_quiet; [|exact H1]. by eapply Hf.
Qed.

Lemma select_quiet {A} legs (f : nat -> Db.t -> result DbError A) :
  triple (fun w => ready legs (World.db w)) (select env f)
    (fun a w => ready legs (World.db w)) (fun _ w => ready legs (World.db w)).
Proof.
  apply commit_quiet. intros n db a db' (x & _ & [= _ <-])%rbind_ok. constructor.
Qed.

Lemma write_quiet {A} legs (f : Timestamp -> Db.t -> result DbError (A * Db.t)) :
  (forall now db a db', f now db = Ok (a, db') -> rtc quiet db db') ->
  triple (fun w => ready legs (World.db w)) (write env f)
    (fun a w => ready legs (World.db w)) (fun _ w => ready legs (World.db w)).
Proof.
  intros Hf. apply commit_quiet. intros n db a db' H. unfold db_result in H.
  destruct (f _ db) as [[x d]|] eqn:E; [|discriminate]. injection H as <- <-. by eapply Hf.
Qed.

Lemma outside_ready {A} legs (f : nat -> A) :
  triple (fun w => ready legs (World.db w)) (outside f : orch A)
    (fun a w => ready legs (World.db w)) (fun _ w => ready legs (World.db w)).
Proof. intros w HP. exact HP. Qed.

(** What the built command says, and that building it leaves the database
    alone. *)
Lemma command_spec config leg_id row withdrawal w built w' :
  command env config leg_id row withdrawal w = (Ok built, w') ->
  World.db w' = World.db w /\
  forall cmd, built = Ok cmd ->
    WithdrawalStepCommand.leg_id cmd = leg_id /\ step_kind row = Some (WithdrawalStepCommand.step cmd).
Proof.
  unfold command. destruct (step_kind row) as [step|]; [|intros [= <- <-]; by split].
  destruct (Env.parse_address env (DbWithdrawal.wallet_address withdrawal)) as [from|]; [|intros [= <- <-]; by split].
  destruct (Env.parse_address env (LegTerms.token_address (Leg.terms row))) as [token|]; [|intros [= <- <-]; by split].
  assert (forall w start w', search_start env config row w = (Ok start, w') -> World.db w' = World.db w) as Hs.
  { intros v start v' (fin & v1 & Hf & (t & v2 & [= <- <-] & [= _ <-])%bind_ok)%bind_ok.
    destruct (Env.chains env _); injection Hf as <- <-; done. }
  destruct step;
    [destruct (transfer_call env row from) as [[to calldata]|e]
    |destruct (bridge_call env row withdrawal from token) as [[to calldata]|e]
    |destruct (mint_call env config row) as [[[to calldata] pre]|e]]; try (intros [= <- <-]; by split).
  - intros (start & w1 & H1%Hs & (job & w2 & [= <- <-] & [= <- <-])%bind_ok)%bind_ok. split; [done|]. by intros cmd [= <-].
  - intros (start & w1 & H1%Hs & (job & w2 & [= <- <-] & [= <- <-])%bind_ok)%bind_ok. split; [done|]. by intros cmd [= <-].
  - intros (job & w2 & [= <- <-] & [= <- <-])%bind_ok. split; [done|]. by intros cmd [= <-].
Qed.

Lemma command_total config leg_id row withdrawal w : exists built w',
  command env config leg_id row withdrawal w = (Ok built, w').
Proof.
  unfold command, search_start, bind, outside, now, ret. destruct (step_kind row) as [step|]; [|eauto].
  destruct (Env.parse_address env (DbWithdrawal.wallet_address withdrawal)); [|eauto].
  destruct (Env.parse_address env (LegTerms.token_address (Leg.terms row))); [|eauto].
  destruct step;
    [destruct (transfer_call _ _ _) as [[]|]|destruct (bridge_call _ _ _ _ _) as [[]|]
    |destruct (mint_call _ _ _) as [[[]]|]]; try eauto; destruct (Env.chains env _); eauto.
Qed.

(** Opening the step of a leg that was read ready to run. *)
Lemma open_ready id row legs cmd corr w :
  ready ((id, row) :: legs) (World.db w) -> step_kind row = Some (WithdrawalStepCommand.step cmd) ->
  WithdrawalStepCommand.leg_id cmd = id ->
  match commit env (fun n => open_step env id cmd corr (Env.fresh env n) (Env.database_now env n)) w with
  | (_, w') => ready legs (World.db w')
  end.
Proof.
  intros HP Hk Hid. unfold commit, transact.
  pose proof (ready_quiet _ _ _ (others_quiet (World.tick w) (World.db w)) HP) as H1.
  set (db := Env.others _ _ _) in *.
  destruct (open_step _ _ _ _ _ _ db) as [[opened db']|e] eqn:E; simpl; [|by eapply ready_tail].
  destruct opened.
  2: { unfold open_step, db_result in E. apply rbind_ok in E as ([o d] & _ & E). destruct o; simpl in E.
       - destruct (publish _ _ _ _ _ _ _ _) as [[]|]; discriminate.
       - injection E as <-. by eapply ready_tail. }
  pose proof (open_step_parts _ _ _ _ _ _ _ _ E) as (db1 & out & bus' & Hb & Hp & Edb).
  destruct (begin_step_spec _ _ _ _ _ _ Hb) as (x & l' & Hx & _ & Hs & _ & _ & _ & El & _).
  destruct H1 as [R1 R2 R3 R4]. apply list.Forall_cons in R4 as [[Hc (l & Hl & Hf)] R4]. simpl in *.
  assert (x = row) as ->.
  { assert (x = l) as -> by congruence. destruct Hf as [|Ht]; [done|]. destruct Hs as [Hs|Hs]; by rewrite Hs in Ht. }
  assert (orch_step env describe_abandon db db') as Hstep by (by eapply orch_open).
  apply list.NoDup_cons in R3 as [Hni R3]. split; [by eapply rtc_r|by eapply orch_step_ok|done|].
  rewrite list.Forall_forall in R4 |- *. intros [id' row'] Hin. destruct (R4 _ Hin) as [Hc' (l2 & Hl2 & Hf2)].
  split; [done|]. exists l2. split; [|done]. subst db'. simpl in *. rewrite El, lookup_insert_ne; [done|].
  intros <-. apply Hni. by apply (list_elem_of_fmap_2 fst legs (id, row')).
Qed.

Abbreviation holds legs := (fun w => ready legs (World.db w)) (only parsing).

Lemma open_one_triple config x legs report :
  triple (holds (x :: legs)) (open_one env config x report) (fun _ => holds legs) (fun _ => holds legs).
Proof.
  destruct x as [id row]. unfold open_one. eapply triple_bind.
  { eapply triple_weaken; [apply (select_quiet ((id, row) :: legs))|done|intros a w H; exact H|].
    intros e w H. exact (ready_tail _ _ _ H). }
  intros [withdrawal|]; [|apply triple_ret; intros w H; exact (ready_tail _ _ _ H)].
  intros w HP. destruct (command_total config id row withdrawal w) as (built & w1 & Hc).
  destruct (command_spec _ _ _ _ _ _ _ Hc) as [Hdb Hcmd]. unfold bind at 1. rewrite Hc. rewrite <- Hdb in HP.
  revert w1 HP Hc Hdb. destruct built as [cmd|reason]; intros w1 HP _ _.
  - destruct (Hcmd cmd eq_refl) as [Hid Hk]. pose proof (open_ready id row legs cmd (Leg.withdrawal_id row) w1 HP Hk Hid) as H.
    unfold bind. destruct (commit env _ w1) as [[opened|e] w2]; done.
  - revert w1 HP. eapply triple_bind.
    + eapply triple_weaken; [apply (write_quiet ((id, row) :: legs))|done|intros a w' H; exact H|].
      * intros now db a db'. apply fail_leg_quiet.
      * intros e w' H. exact (ready_tail _ _ _ H).
    + intros b. apply triple_ret. intros w' H. exact (ready_tail _ _ _ H).
Qed.

Lemma for_legs_triple (body : Uuid * Leg.t -> PassReport.t -> orch PassReport.t) legs : forall report,
  (forall x rest report, triple (holds (x :: rest)) (body x report) (fun _ => holds rest) (fun _ => holds [])) ->
  triple (holds legs) (for_legs body legs report) (fun _ => holds []) (fun _ => holds []).
Proof.
  induction legs as [|x legs IH]; intros report Hbody; simpl; [by apply triple_ret|].
  eapply triple_bind; [apply Hbody|]. intros report'. by apply IH.
Qed.

Lemma ready_none legs db : ready legs db -> ready [] db.
Proof. intros [R1 R2 _ _]. split; [done|done|constructor|constructor]. Qed.

Lemma decode_legs_same rows legs : decode_legs rows = Ok legs -> legs = rows.
Proof.
  revert legs. induction rows as [|[id row] rows IH]; intros legs; simpl; [by intros [= <-]|].
  intros (leg & ->%try_from_same & (rest & Hr & [= <-])%rbind_ok)%rbind_ok. by rewrite (IH _ Hr).
Qed.

(** The legs the ledger offers are ready to run. *)
Lemma relayable_ready chain validity limit now db :
  ready [] db -> ready (relayable chain validity limit now db) db.
Proof.
  intros [R1 R2 _ _]. split; [done|done| |].
  - unfold relayable. rewrite fmap_take. eapply sublist_NoDup; [|apply sublist_take].
    rewrite sorting.merge_sort_Permutation. apply NoDup_filter_key, NoDup_fst_map_to_list.
  - rewrite list.Forall_forall. intros [id row] Hin. unfold relayable in Hin.
    apply elem_of_take in Hin as (i & Hi & _). apply list_elem_of_lookup_2 in Hi.
    rewrite sorting.merge_sort_Permutation in Hi. apply list_elem_of_In, filter_In in Hi as [Hi Hrel].
    apply list_elem_of_In, elem_of_map_to_list in Hi. simpl in *. unfold is_relayable in Hrel.
    destruct (Db.withdrawals db !! Leg.withdrawal_id row); [|done]. bools. split.
    + split; [destruct (Leg.state row); try done; auto|by destruct (Leg.step_job_id row)].
    + exists row. auto.
Qed.

Lemma open_steps_triple config report :
  triple (holds []) (open_steps env config report) (fun _ => holds []) (fun _ => holds []).
Proof.
  unfold open_steps. eapply triple_bind with (M := fun legs => holds legs).
  - intros w HP. unfold select, query, transact.
    pose proof (ready_quiet _ _ _ (others_quiet (World.tick w) (World.db w)) HP) as H1.
    set (db := Env.others _ _ _) in *. unfold db_result.
    destruct (decode_legs _) as [legs|e] eqn:E; simpl; [|done]. apply decode_legs_same in E as ->.
    by apply relayable_ready.
  - intros legs. apply for_legs_triple. intros x rest r.
    eapply triple_weaken; [apply (open_one_triple config x rest r)|done|done|]. intros e w H. exact (ready_none _ _ H).
Qed.

Lemma poll_one_triple cctp x report :
  triple (holds []) (poll_one env cctp x report) (fun _ => holds []) (fun _ => holds []).
Proof.
  destruct x as [id row]. unfold poll_one.
  assert (forall next r, triple (holds []) (defer env id next r) (fun _ => holds []) (fun _ => holds [])) as Hd.
  { intros next r. unfold defer. eapply triple_bind; [apply write_quiet|intros b; by apply triple_ret].
    intros now db a db'. apply defer_quiet. }
  destruct (Leg.burn_tx_hash row) as [hash|].
  2: { eapply triple_bind; [apply write_quiet|intros b; by apply triple_ret]. intros now db a db'. apply fail_leg_quiet. }
  eapply triple_bind with (M := fun _ => holds []); [intros w H; exact H|]. intros t.
  eapply triple_bind; [apply outside_ready|]. intros [[| |messages]|e]; try apply Hd.
  eapply triple_bind; [apply select_quiet|]. intros [withdrawal|]; [|by apply triple_ret].
  destruct (List.find _ messages) as [[message attestation]|]; [|apply Hd].
  eapply triple_bind; [apply write_quiet|intros b; by apply triple_ret]. intros now db a db'. apply attest_quiet.
Qed.

Lemma poll_triple chain_id cctp report :
  triple (holds []) (poll_attestations env chain_id cctp report) (fun _ => holds []) (fun _ => holds []).
Proof.
  unfold poll_attestations. eapply triple_bind; [apply select_quiet|]. intros legs. revert report.
  induction legs as [|x legs IH]; intros report; simpl; [by apply triple_ret|].
  eapply triple_bind; [apply poll_one_triple|]. intros r. apply IH.
Qed.

Lemma orch_pass_triple chain_id : triple (holds []) (pass env chain_id) (fun _ => holds []) (fun _ => holds []).
Proof.
  unfold pass. destruct (ChainRegistry.get (Env.registry env) chain_id) as [config|]; [|by apply triple_throw].
  eapply triple_bind; [|intros report; apply open_steps_triple].
  destruct (ChainConfig.cctp config); [apply poll_triple|by apply triple_ret].
Qed.

Lemma expire_quiet margin now db n db' : expire_stale margin now db = Ok (n, db') -> rtc quiet db db'.
Proof.
  intros H. pose proof (wd_expire describe_abandon db _ _ _ _ H) as Hwd. unfold expire_stale in H.
  apply rbind_ok in H as (db1 & Hu & [= _ <-]). apply rtc_once.
  assert (begins_nothing db db1 /\ Db.bus db1 = Db.bus db) as H1.
  { unfold update_legs in Hu. destruct (forallb _ _); [|discriminate]. injection Hu as <-. split; [|done].
    intros k l'. simpl. rewrite lookup_update_where. intros (l & Hl & Hf)%fmap_Some Hrun.
    exists l. destruct (is_stale margin now l); subst l'; done. }
  cut (forall ids db2, begins_nothing db db2 /\ Db.bus db2 = Db.bus db ->
    begins_nothing db (foldl (fun s id => settle_in id now s) db2 ids) /\
    Db.bus (foldl (fun s id => settle_in id now s) db2 ids) = Db.bus db).
  { intros Hf. destruct (Hf (stale_withdrawals margin now db) db1 H1) as [Hn Hb]. by apply quiet_wd. }
  induction ids as [|id ids IH]; intros db2 H2; simpl; [done|]. by apply IH, settle_begins_nothing.
Qed.

Lemma round_triple : triple (holds []) (round env) (fun _ => holds []) (fun _ => holds []).
Proof.
  unfold round. eapply triple_bind with (M := fun _ => holds []).
  - eapply triple_attempt; [apply write_quiet|done|done]. intros now db a db'. apply expire_quiet.
  - intros _. induction (ChainRegistry.chains (Env.registry env)) as [|c rest IH]; simpl; [by apply triple_ret|].
    eapply triple_bind with (M := fun _ => holds []); [|by intros _].
    eapply triple_attempt; [apply orch_pass_triple|done|done].
Qed.

End Refinement.

(** C11. A round of the orchestrator, the expiry and a pass over every chain,
    however each ends and whatever the nodes and the attestation service
    answer, is a history in which every step is begun in the transaction that
    publishes the command its leg's state calls for; the withdrawals it leaves
    are well-formed. *)
Theorem orchestrator_refines_withdrawals env describe_abandon w :
  (forall n db, rtc (quiet_step env describe_abandon) db (Env.others env n db)) ->
  system_ok env (World.db w) ->
  rtc (orch_step env describe_abandon) (World.db w) (World.db (snd (round env w))) /\
  wd_ok (World.db (snd (round env w))).
Proof.
  intros Hothers Hok.
  pose proof (round_triple env describe_abandon (World.db w) Hothers w) as H.
  assert (ready env describe_abandon (World.db w) [] (World.db w)) as H0 by (split; [reflexivity|exact Hok|constructor|constructor]).
  specialize (H H0). destruct (round env w) as [[r|e] w']; destruct H as [R1 R2 _ _];
    (split; [exact R1|exact (so_wd _ _ R2)]).
Qed.

(** A step never runs without its command: in every state the server
    reaches, a leg that runs a job has on the bus a command under that job
    that names the leg, the leg's next step and the chain it runs on. *)
Theorem running_steps_commanded env describe_abandon db0 db k l job :
  no_withdrawals db0 -> Db.bus db0 = Bus.empty -> rtc (orch_step env describe_abandon) db0 db ->
  Db.withdrawal_legs db !! k = Some l -> Leg.step_job_id l = Some job -> commanded env db k l job.
Proof.
  intros H0 Hbus Hrun Hl Hj. assert (system_ok env db0) as Hok.
  { split; [by apply no_withdrawals_ok|rewrite Hbus; apply bus_wf_empty|].
    intros i m. rewrite Hbus. simpl. by rewrite lookup_empty. }
  eapply (histories_commanded env describe_abandon db0 db Hrun Hok); [|exact Hl|exact Hj].
  intros i x j Hx. destruct H0 as [_ E]. by rewrite E, lookup_empty in Hx.
Qed.

(** ** A withdrawal's first steps, evaluated *)

Module OrchestratorExample.
Import WithdrawalTheorems.WithdrawalExample.

Definition parse (s : string) : option Address :=
  if String.eqb s wallet then Some (replicate 20 17) else Some (replicate 20 34).

Definition chain_with (id domain : Z) : ChainConfig.t :=
  ChainConfig.mk id [TokenConfig.mk Usdc [1]] [2] [3] [] [] 100 FinalizedTag 0 2000 50 None None
    (Some (CctpConfig.mk domain (replicate 20 5) (replicate 20 4) (replicate 20 3) [])) None None None.

Definition env : Env.t := {|
  Env.payload_hash m := [];
  Env.registry := ChainRegistry.mk [chain_with 8453 6; chain_with 42161 3];
  Env.chains c := None;
  Env.attestations n d h := Ok AttPending;
  Env.policy := StepPolicy.default;
  Env.parse_address := parse;
  Env.encode_transfer from to value after before nonce signature := [1; value];
  Env.encode_bridge token from value domain recipient salt before signature := [2; value];
  Env.encode_receive message attestation := [3];
  Env.others n db := db;
  Env.database_now n := 1000 + Z.of_nat n;
  Env.utc_now n := 1000;
  Env.fresh n := 500 + Z.of_nat n;
|}.

Definition before : World.t := World.mk signed 0.
Definition after : World.t := snd (round env before).

Lemma no_others n db : rtc (quiet_step env describe) db (Env.others env n db).
Proof. constructor. Qed.

Lemma signed_ok : system_ok env signed.
Proof.
  split.
  - exact (wd_runs_ok _ _ _ fresh_withdrawals run_signed).
  - exact bus_wf_empty.
  - intros k m. vm_compute. discriminate.
Qed.

Lemma orchestrator_refines_withdrawals_witness : wd_ok (World.db after).
Proof. exact (proj2 (orchestrator_refines_withdrawals env describe before no_others signed_ok)). Defined.

Example example_round_pass : fst (pass env 8453 before) = Ok (PassReport.mk 0 0 1 0).
Proof. vm_compute. reflexivity. Qed.

(** The command the pass builds for the signed transfer. *)
Definition cmd : WithdrawalStepCommand.t := Eval vm_compute in
  match command env (chain_with 8453 6) 11 (leg_in 11 signed) (withdrawal_in signed) before with
  | (Ok (Ok c), _) => c
  | _ => WithdrawalStepCommand.mk 0 0 0 Transfer [] [] 0 None None
  end.

Definition opened : Db.t := Eval vm_compute in
  match open_step env 11 cmd 1 700 1200 signed with Ok (_, db) => db | Err _ => signed end.

Lemma nothing_runs (db db' : Db.t) :
  forallb (fun kv => negb (is_some (Leg.step_job_id (snd kv)))) (map_to_list (Db.withdrawal_legs db')) = true ->
  begins_nothing db db'.
Proof.
  intros H k l Hl Hrun. rewrite forallb_forall in H. specialize (H (k, l)). simpl in H. rewrite Hrun in H.
  discriminate H. by apply list_elem_of_In, elem_of_map_to_list.
Qed.

Lemma opened_run : rtc (orch_step env describe) start opened.
Proof.
  eapply rtc_l; [apply orch_quiet, quiet_wd; [exact step_created|apply nothing_runs; reflexivity|reflexivity]|].
  eapply rtc_l; [apply orch_quiet, quiet_wd; [exact step_signed|apply nothing_runs; reflexivity|reflexivity]|].
  apply rtc_once. eapply (orch_open env describe signed 11 (leg_in 11 signed) cmd 1 700 1200);
    vm_compute; reflexivity.
Qed.

Lemma running_steps_commanded_witness : commanded env opened 11 (leg_in 11 opened) (WithdrawalStepCommand.job_id cmd).
Proof.
  apply (running_steps_commanded env describe start opened 11 (leg_in 11 opened)).
  - exact fresh_withdrawals.
  - reflexivity.
  - exact opened_run.
  - vm_compute. reflexivity.
  - vm_compute. reflexivity.
Defined.

(** The bridge leg's burn on Monad, as the forwarder makes it. *)
Definition source : CctpConfig.t := CctpConfig.mk 15 (replicate 20 5) (replicate 20 4) (replicate 20 3) [].

Definition burn : BurnMessage.t :=
  BurnMessage.mk 1 15 6 (replicate 32 9) (into_word (replicate 20 5)) (replicate 32 8) (replicate 32 0) 2000 2000 1
    (into_word (replicate 20 17)) (into_word (replicate 20 17)) 5000000 (into_word (replicate 20 3)) 0 0 0 [].

Lemma burn_message_exact_witness :
  message_describes_burn parse (leg_in 12 signed) (withdrawal_in signed) source (Env.registry env) (encode burn) = Ok tt.
Proof.
  apply (burn_message_exact parse (leg_in 12 signed) (withdrawal_in signed) source (Env.registry env) burn).
  - split; simpl; try reflexivity; lia.
  - exists (CctpConfig.mk 6 (replicate 20 5) (replicate 20 4) (replicate 20 3) []), (replicate 20 17), (replicate 20 17).
    split_and!; vm_compute; reflexivity.
Defined.

End OrchestratorExample.
