(* ===== verification/Execution.v ===== *)
(** * gum-signers: the execution store and its bus handlers

    Models [crates/gum-signers/src/store.rs] and [handlers.rs] over the
    [execution] schema of [crates/gum-schema/migrations/0003_execution.sql]:
    jobs accepted from the bus, one transaction slot per (signer, nonce) with
    its signed attempts, and the halts mirrored from chain control.

    A store function that runs in its caller's transaction takes the state and
    returns the new one, or an error that rolls the transaction back.  The
    columns [mined_*] are set and cleared together (a CHECK of the table), so
    they are one optional record. *)

From stdpp Require Import sorting pretty.
From S2P Require Import Prelude Core Contracts Backoff Bus Tables.

Implicit Types (now : Timestamp).

(** ** Rows and views *)

Inductive JobState := Queued | Executing | JobFinalized | JobAbandoned | JobRejected.

#[export] Instance JobState_eq_dec : EqDecision JobState.
Proof. solve_decision. Defined.

Module JobState.

Definition as_str (s : JobState) : string :=
  match s with
  | Queued => "queued"
  | Executing => "executing"
  | JobFinalized => "finalized"
  | JobAbandoned => "abandoned"
  | JobRejected => "rejected"
  end.

Definition parse (value : string) : option JobState :=
  List.find (fun s => String.eqb (as_str s) value) [Queued; Executing; JobFinalized; JobAbandoned; JobRejected].

Definition is_open (s : JobState) : bool :=
  match s with Queued | Executing => true | _ => false end.

Lemma job_state_round_trip s : parse (as_str s) = Some s.
Proof. by destruct s. Qed.

End JobState.

Inductive TxState := TxPrepared | TxBroadcast | TxMined | TxFinalized | TxReverted | TxAbandoned.

#[export] Instance TxState_eq_dec : EqDecision TxState.
Proof. solve_decision. Defined.

Module TxState.

Definition as_str (s : TxState) : string :=
  match s with
  | TxPrepared => "prepared"
  | TxBroadcast => "broadcast"
  | TxMined => "mined"
  | TxFinalized => "finalized"
  | TxReverted => "reverted"
  | TxAbandoned => "abandoned"
  end.

Definition parse (value : string) : option TxState :=
  List.find (fun s => String.eqb (as_str s) value)
    [TxPrepared; TxBroadcast; TxMined; TxFinalized; TxReverted; TxAbandoned].

Definition is_open (s : TxState) : bool :=
  match s with TxPrepared | TxBroadcast | TxMined => true | _ => false end.

Lemma tx_state_round_trip s : parse (as_str s) = Some s.
Proof. by destruct s. Qed.

End TxState.

Module Mined.
Record t := mk { tx_hash : B256; block : Z; block_hash : B256; transaction_index : Z; succeeded : bool }.
End Mined.

#[export] Instance Mined_eq_dec : EqDecision Mined.t.
Proof. solve_decision. Defined.

(** A row of [execution.jobs]; its [kind] is its command's. *)
Module JobRow.
Record t := mk {
  chain_id : Z;
  correlation_id : Uuid;
  command_message_id : option Uuid;
  command : ExecutionCommand;
  state : JobState;
  attempts : Z;
  next_attempt_at : Timestamp;
  last_error : option string;
  accepted_at : Timestamp;
  resolved_at : option Timestamp;
  resolution : option ExecutionEvent;
}.
End JobRow.

(** A row of [execution.transactions]. *)
Module TxRow.
Record t := mk {
  job_id : Uuid;
  chain_id : Z;
  signer : Address;
  nonce : Z;
  target : Address;
  calldata : bytes;
  gas_limit : Z;
  state : TxState;
  created_at : Timestamp;
  submitted_at : Timestamp;
  broadcast_at : option Timestamp;
  mined : option Mined.t;
  stall_reported_at : option Timestamp;
  resolved_at : option Timestamp;
}.
Definition is_open (row : t) : bool := negb (is_some (resolved_at row)).
End TxRow.

(** [Attempt], also a row of [execution.transaction_attempts]. *)
Module Attempt.
Record t := mk {
  replacement_number : Z;
  tx_hash : B256;
  raw_transaction : bytes;
  max_fee_per_gas : Z;
  max_priority_fee_per_gas : Z;
  broadcast_at : option Timestamp;
}.
End Attempt.

(** A row of [execution.chain_halts]. *)
Module HaltRow.
Record t := mk {
  chain_id : Z;
  reason : option string;
  halted_at : option Timestamp;
  resumed_at : option Timestamp;
}.
End HaltRow.

Module SignerStatus.
Record t := mk { balance_wei : option Z; low_balance : bool; error : option string; observed_at : Timestamp }.
End SignerStatus.

Module ExecutorStatus.
Record t := mk { state : string; detail : option string; heartbeat_at : Timestamp }.
End ExecutorStatus.

Module Exec.
Record t := mk {
  jobs : gmap Uuid JobRow.t;
  transactions : gmap Uuid TxRow.t;
  attempts : gmap (Uuid * Z) Attempt.t;
  chain_halts : gmap Uuid HaltRow.t;
  executor_status : gmap Z ExecutorStatus.t;
  signer_status : gmap (Z * Address) SignerStatus.t;
  bus : Bus.t;
}.
Definition empty : t := mk ∅ ∅ ∅ ∅ ∅ ∅ Bus.empty.
End Exec.

#[export] Instance HasBus_Exec : HasBus Exec.t.
Proof.
  refine {| bus_of := Exec.bus; set_bus b s := {| s with Exec.bus := b |} |}; [done|by intros []].
Defined.

Implicit Types (s : Exec.t).

(** The structs the executor works on. *)
Module Job.
Record t := mk {
  id : Uuid;
  chain_id : Z;
  correlation_id : Uuid;
  command_message_id : option Uuid;
  command : ExecutionCommand;
  state : JobState;
  attempts : Z;
}.
End Job.

Module OpenTransaction.
Record t := mk {
  id : Uuid;
  job : Job.t;
  signer : Address;
  nonce : Z;
  target : Address;
  calldata : bytes;
  gas_limit : Z;
  state : TxState;
  submitted_at : Timestamp;
  mined : option Mined.t;
  stall_reported_at : option Timestamp;
  attempts : list Attempt.t;
}.
(** [newest_attempt]; the code expects every slot to have one. *)
Definition newest_attempt (t : t) : option Attempt.t := list.last (attempts t).
End OpenTransaction.

Module NewTransaction.
Record t := mk {
  job_id : Uuid;
  chain_id : Z;
  signer : Address;
  nonce : Z;
  target : Address;
  calldata : bytes;
  gas_limit : Z;
  attempt : Attempt.t;
}.
End NewTransaction.

Definition decode_error (message : string) : DbError := Decode message.

Definition unsigned (value : Z) : result DbError Z :=
  if value <? 0 then Err (decode_error "value is negative") else Ok value.

(** [x as i32] on a [u32]; [u32::try_from(i32).unwrap_or(0)]. *)
Definition as_i32 (x : Z) : Z := if x <? 2 ^ 31 then x else x - 2 ^ 32.
Definition u32_of_i32 (x : Z) : Z := if x <? 0 then 0 else x.

(** ** Jobs *)

Definition insert_job (command : ExecutionCommand) (correlation_id command_message_id : Uuid) (state : JobState)
    (resolution : option ExecutionEvent) (now : Timestamp) (s : Exec.t) : bool * Exec.t :=
  let resolved_at := if JobState.is_open state then None else Some now in
  let id := Command.job_id command in
  if is_some (Exec.jobs s !! id) then (false, s)
  else
    let row := JobRow.mk (as_i64 (Command.chain_id command)) correlation_id (Some command_message_id) command
                 state 0 now None now resolved_at resolution in
    (true, {| s with Exec.jobs := <[id := row]> (Exec.jobs s) |}).

Definition job_from_row (id : Uuid) (row : JobRow.t) : result DbError Job.t :=
  let! chain_id := unsigned (JobRow.chain_id row) in
  Ok (Job.mk id chain_id (JobRow.correlation_id row) (JobRow.command_message_id row) (JobRow.command row)
        (JobRow.state row) (u32_of_i32 (JobRow.attempts row))).

Definition collect {E A B} (f : A -> result E B) (l : list A) : result E (list B) :=
  foldr (fun x acc => let! b := f x in let! bs := acc in Ok (b :: bs)) (Ok []) l.

Definition by_key {A} (key : A -> Z) (x y : A) : Prop := key x <= key y.

#[export] Instance by_key_dec {A} (key : A -> Z) x y : Decision (by_key key x y).
Proof. unfold by_key. apply _. Defined.

(** [SELECT .. WHERE .. ORDER BY ..]. *)
Definition select `{Countable K} {V} (p : K * V -> bool) (key : K * V -> Z) (m : gmap K V) : list (K * V) :=
  merge_sort (by_key key) (List.filter p (map_to_list m)).

Definition queued_jobs (chain_id : Z) (now : Timestamp) (s : Exec.t) : result DbError (list Job.t) :=
  collect (fun '(id, row) => job_from_row id row)
    (select (fun '(_, row) => (JobRow.chain_id row =? as_i64 chain_id)
                              && bool_decide (JobRow.state row = Queued)
                              && (JobRow.next_attempt_at row <=? now))
       (fun '(_, row) => JobRow.accepted_at row) (Exec.jobs s)).

Definition job (job_id : Uuid) (s : Exec.t) : result DbError (option Job.t) :=
  match Exec.jobs s !! job_id with
  | None => Ok None
  | Some row => let! j := job_from_row job_id row in Ok (Some j)
  end.

Definition defer_job (job_id : Uuid) (next_attempt_at : Timestamp) (error : string) (s : Exec.t)
  : result DbError (Z * Exec.t) :=
  match Exec.jobs s !! job_id with
  | Some row =>
      if bool_decide (JobRow.state row = Queued) then
        let attempts := JobRow.attempts row + 1 in
        if 2 ^ 31 <=? attempts then Err NumericOutOfRange
        else
          let row' := {| row with
            JobRow.attempts := attempts;
            JobRow.next_attempt_at := next_attempt_at;
            JobRow.last_error := Some error |} in
          Ok (u32_of_i32 attempts, {| s with Exec.jobs := <[job_id := row']> (Exec.jobs s) |})
      else Err RowNotFound
  | None => Err RowNotFound
  end.

(** [true] when the job was open and is now closed; the table's CHECK
    refuses to resolve a job into an open state. *)
Definition resolve_job (job_id : Uuid) (state : JobState) (resolution : ExecutionEvent) (now : Timestamp)
    (s : Exec.t) : result DbError (bool * Exec.t) :=
  match Exec.jobs s !! job_id with
  | Some row =>
      if is_some (JobRow.resolved_at row) then Ok (false, s)
      else if JobState.is_open state then Err (Constraint "execution_jobs_resolved")
      else
        let row' := {| row with
          JobRow.state := state;
          JobRow.resolved_at := Some now;
          JobRow.resolution := Some resolution |} in
        Ok (true, {| s with Exec.jobs := <[job_id := row']> (Exec.jobs s) |})
  | None => Ok (false, s)
  end.

(** ** Transactions and attempts *)

(** [UPDATE .. WHERE id = ..]. *)
Definition update_tx (id : Uuid) (f : TxRow.t -> TxRow.t) (s : Exec.t) : Exec.t :=
  {| s with Exec.transactions := alter f id (Exec.transactions s) |}.

Definition submitted (now : Timestamp) (row : TxRow.t) : TxRow.t := {| row with TxRow.submitted_at := now |}.

Definition insert_attempt (transaction_id : Uuid) (attempt : Attempt.t) (now : Timestamp) (s : Exec.t)
  : result DbError Exec.t :=
  let key := (transaction_id, as_i32 (Attempt.replacement_number attempt)) in
  if negb (is_some (Exec.transactions s !! transaction_id))
  then Err (Constraint "transaction_attempts_transaction_id_fkey")
  else if is_some (Exec.attempts s !! key) then Err (Constraint "transaction_attempts_pkey")
  else if List.existsb (fun kv => bool_decide (Attempt.tx_hash (snd kv) = Attempt.tx_hash attempt))
            (map_to_list (Exec.attempts s))
  then Err (Constraint "execution_transaction_attempts_hash_unique")
  else
    let row := {| attempt with Attempt.broadcast_at := None |} in
    Ok (update_tx transaction_id (submitted now) {| s with Exec.attempts := <[key := row]> (Exec.attempts s) |}).

(** The two unique indexes on [execution.transactions]. *)
Definition same_nonce (chain : Z) (signer : Address) (nonce : Z) (row : TxRow.t) : bool :=
  (TxRow.chain_id row =? chain) && bool_decide (TxRow.signer row = signer) && (TxRow.nonce row =? nonce).
Definition same_lane (chain : Z) (signer : Address) (row : TxRow.t) : bool :=
  TxRow.is_open row && (TxRow.chain_id row =? chain) && bool_decide (TxRow.signer row = signer).

Definition any_tx (p : TxRow.t -> bool) (s : Exec.t) : bool :=
  List.existsb (fun kv => p (snd kv)) (map_to_list (Exec.transactions s)).

Definition insert_transaction (id : Uuid) (new : NewTransaction.t) (now : Timestamp) (s : Exec.t)
  : result DbError Exec.t :=
  let chain := as_i64 (NewTransaction.chain_id new) in
  let signer := NewTransaction.signer new in
  let nonce := as_i64 (NewTransaction.nonce new) in
  let gas_limit := as_i64 (NewTransaction.gas_limit new) in
  if is_some (Exec.transactions s !! id) then Err (Constraint "transactions_pkey")
  else if negb (is_some (Exec.jobs s !! NewTransaction.job_id new))
  then Err (Constraint "transactions_job_id_fkey")
  else if nonce <? 0 then Err (Constraint "execution_transactions_nonce_non_negative")
  else if gas_limit <=? 0 then Err (Constraint "execution_transactions_gas_limit_positive")
  else if any_tx (same_nonce chain signer nonce) s then Err (Constraint "execution_transactions_nonce_once")
  else if any_tx (same_lane chain signer) s then Err (Constraint "execution_transactions_open_lane")
  else
    let row := TxRow.mk (NewTransaction.job_id new) chain signer nonce (NewTransaction.target new)
                 (NewTransaction.calldata new) gas_limit TxPrepared now now None None None None in
    Ok {| s with Exec.transactions := <[id := row]> (Exec.transactions s) |}.

Definition executing (row : JobRow.t) : JobRow.t :=
  if bool_decide (JobRow.state row = Queued) then {| row with JobRow.state := Executing |} else row.

Definition begin_transaction (id : Uuid) (new : NewTransaction.t) (now : Timestamp) (s : Exec.t)
  : result DbError Exec.t :=
  let! s1 := insert_transaction id new now s in
  let! s2 := insert_attempt id (NewTransaction.attempt new) now s1 in
  Ok {| s2 with Exec.jobs := alter executing (NewTransaction.job_id new) (Exec.jobs s2) |}.

Definition mark_broadcast (transaction_id : Uuid) (replacement_number : Z) (now : Timestamp) (s : Exec.t) : Exec.t :=
  let s1 := {| s with Exec.attempts :=
    alter (fun a => {| a with Attempt.broadcast_at := coalesce (Attempt.broadcast_at a) (Some now) |})
      (transaction_id, as_i32 replacement_number) (Exec.attempts s) |} in
  update_tx transaction_id (fun row =>
    {| row with
       TxRow.broadcast_at := coalesce (TxRow.broadcast_at row) (Some now);
       TxRow.submitted_at := now;
       TxRow.state := if bool_decide (TxRow.state row = TxPrepared) then TxBroadcast else TxRow.state row |}) s1.

Definition if_open (f : TxRow.t -> TxRow.t) (row : TxRow.t) : TxRow.t :=
  if TxRow.is_open row then f row else row.

Definition mined_column (m : Mined.t) : Mined.t :=
  {| m with Mined.block := as_i64 (Mined.block m); Mined.transaction_index := as_i64 (Mined.transaction_index m) |}.

Definition record_mined (transaction_id : Uuid) (mined : Mined.t) (s : Exec.t) : Exec.t :=
  update_tx transaction_id (if_open (fun row =>
    {| row with TxRow.state := TxMined; TxRow.mined := Some (mined_column mined) |})) s.

Definition clear_mined (transaction_id : Uuid) (s : Exec.t) : Exec.t :=
  update_tx transaction_id (if_open (fun row =>
    {| row with TxRow.state := TxBroadcast; TxRow.mined := None |})) s.

Definition mark_stall_reported (transaction_id : Uuid) (now : Timestamp) (s : Exec.t) : Exec.t :=
  update_tx transaction_id (fun row => {| row with TxRow.stall_reported_at := Some now |}) s.

Definition resolve_transaction (transaction_id : Uuid) (state : TxState) (now : Timestamp) (s : Exec.t)
  : result DbError Exec.t :=
  match Exec.transactions s !! transaction_id with
  | Some row =>
      if TxRow.is_open row && TxState.is_open state then Err (Constraint "execution_transactions_resolved")
      else Ok (update_tx transaction_id (if_open (fun row =>
             {| row with TxRow.state := state; TxRow.resolved_at := Some now |})) s)
  | None => Ok s
  end.

(** [attempts]: the slot's attempts, oldest first. *)
Definition attempts (transaction_id : Uuid) (s : Exec.t) : list Attempt.t :=
  (fun '((_, number), a) => {| a with Attempt.replacement_number := u32_of_i32 number |}) <$>
    select (fun '((id, _), _) => id =? transaction_id) (fun '((_, number), _) => number) (Exec.attempts s).

Definition mined_from_row (m : option Mined.t) : result DbError (option Mined.t) :=
  match m with
  | None => Ok None
  | Some m =>
      let! block := unsigned (Mined.block m) in
      let! transaction_index := unsigned (Mined.transaction_index m) in
      Ok (Some {| m with Mined.block := block; Mined.transaction_index := transaction_index |})
  end.

(** A slot whose job row is missing is dropped by the JOIN; the foreign key
    rules that out. *)
Definition open_transaction (s : Exec.t) (id : Uuid) (row : TxRow.t) : result DbError (option OpenTransaction.t) :=
  match Exec.jobs s !! TxRow.job_id row with
  | None => Ok None
  | Some job_row =>
      let! j := job_from_row (TxRow.job_id row) job_row in
      let! mined := mined_from_row (TxRow.mined row) in
      let! nonce := unsigned (TxRow.nonce row) in
      let! gas_limit := unsigned (TxRow.gas_limit row) in
      Ok (Some (OpenTransaction.mk id j (TxRow.signer row) nonce (TxRow.target row) (TxRow.calldata row)
                  gas_limit (TxRow.state row) (TxRow.submitted_at row) mined (TxRow.stall_reported_at row)
                  (attempts id s)))
  end.

Definition open_transactions (chain_id : Z) (s : Exec.t) : result DbError (list OpenTransaction.t) :=
  let! rows := collect (fun '(id, row) => open_transaction s id row)
    (select (fun '(_, row) => (TxRow.chain_id row =? as_i64 chain_id) && TxRow.is_open row)
       (fun '(_, row) => TxRow.created_at row) (Exec.transactions s)) in
  Ok (omap id rows).

Definition busy_signers (chain_id : Z) (s : Exec.t) : list Address :=
  (fun kv => TxRow.signer (snd kv)) <$>
    List.filter (fun kv => (TxRow.chain_id (snd kv) =? as_i64 chain_id) && TxRow.is_open (snd kv))
      (map_to_list (Exec.transactions s)).

(** ** Chain control and status *)

Definition apply_chain_control (control : ChainControl) (now : Timestamp) (s : Exec.t) : Exec.t :=
  match control with
  | Halted fault_id chain_id reason =>
      let row := match Exec.chain_halts s !! fault_id with
                 | None => HaltRow.mk (as_i64 chain_id) (Some reason) (Some now) None
                 | Some row => {| row with
                     HaltRow.chain_id := as_i64 chain_id;
                     HaltRow.reason := Some reason;
                     HaltRow.halted_at := coalesce (HaltRow.halted_at row) (Some now) |}
                 end in
      {| s with Exec.chain_halts := <[fault_id := row]> (Exec.chain_halts s) |}
  | Resumed fault_id chain_id =>
      let row := match Exec.chain_halts s !! fault_id with
                 | None => HaltRow.mk (as_i64 chain_id) None None (Some now)
                 | Some row => {| row with
                     HaltRow.resumed_at := coalesce (HaltRow.resumed_at row) (Some now) |}
                 end in
      {| s with Exec.chain_halts := <[fault_id := row]> (Exec.chain_halts s) |}
  end.

Definition halt_open (chain : Z) (row : HaltRow.t) : bool :=
  (HaltRow.chain_id row =? chain) && is_some (HaltRow.halted_at row) && negb (is_some (HaltRow.resumed_at row)).

Definition is_halted (chain_id : Z) (s : Exec.t) : bool :=
  List.existsb (fun kv => halt_open (as_i64 chain_id) (snd kv)) (map_to_list (Exec.chain_halts s)).

Definition upsert_executor_status (chain_id : Z) (state : string) (detail : option string) (now : Timestamp)
    (s : Exec.t) : result DbError Exec.t :=
  if bool_decide (state = "running" \/ state = "halted" \/ state = "failing")
  then Ok {| s with Exec.executor_status :=
         <[as_i64 chain_id := ExecutorStatus.mk state detail now]> (Exec.executor_status s) |}
  else Err (Constraint "execution_executor_status_state").

Definition upsert_signer_status (chain_id : Z) (signer : Address) (balance : result string (Z * bool))
    (now : Timestamp) (s : Exec.t) : Exec.t :=
  let key := (as_i64 chain_id, signer) in
  let '(balance_wei, low_balance, error) :=
    match balance with
    | Ok (balance, low) => (Some balance, low, None)
    | Err error => (None, false, Some error)
    end in
  let known := Exec.signer_status s !! key ≫= SignerStatus.balance_wei in
  {| s with Exec.signer_status :=
     <[key := SignerStatus.mk (coalesce balance_wei known) low_balance error now]> (Exec.signer_status s) |}.

(** ** The bus handlers ([handlers.rs]) *)

Definition handler_error_of_db (e : DbError) : HandlerError := Retryable "database error".

Section Handlers.
Context (payload_hash : Message -> B256).

Definition SIGNERS : string := "gum-signers".

(** [CommandHandler::handle]; waking the chain's worker has no effect on the
    state. [message_id] is the identifier of the event it may publish. *)
Definition handle_command (chains : list Z) (message_id : Uuid) (now : Timestamp)
    (d : Delivery.t ExecutionCommand) (s : Exec.t) : result HandlerError Exec.t :=
  let command := Delivery.message d in
  let chain_id := Command.chain_id command in
  let rejection :=
    if bool_decide (chain_id ∈ chains) then None
    else Some (ExecutionRejected (Command.job_id command) chain_id ("chain " +:+ pretty chain_id +:+ " is not served by this executor")) in
  let state := if is_some rejection then JobRejected else Queued in
  let '(inserted, s1) := insert_job command (Delivery.correlation_id d) (Delivery.message_id d) state rejection now s in
  if negb inserted then Ok s1
  else
    match rejection with
    | None => Ok s1
    | Some event =>
        match publish payload_hash SIGNERS event (Delivery.correlation_id d) (Some (Delivery.message_id d))
                message_id now (Exec.bus s1) with
        | Ok (_, bus) => Ok {| s1 with Exec.bus := bus |}
        | Err e => Err (handler_error_of_bus e)
        end
    end.

(** [ChainControlHandler::handle]. *)
Definition handle_control (now : Timestamp) (d : Delivery.t ChainControl) (s : Exec.t)
  : result HandlerError Exec.t :=
  Ok (apply_chain_control (Delivery.message d) now s).

End Handlers.
