(* ===== verification/Executor.v ===== *)
(** * gum-signers: one chain's executor

    Models [crates/gum-signers/src/executor.rs]: reconciling open slots with
    the chain, replacing unconfirmed transactions, starting queued jobs and
    concluding them with an event.

    A function of the executor is a computation over [World.t]: the execution
    store, the pass's cached fee estimate, the free signers of the start in
    progress, and a counter that numbers node calls and database transactions.
    The node, the clock, the fresh identifiers, the backoff's jitter and the
    rendering of an error are parameters that depend on that counter, so
    nothing is assumed about how they change from one step to the next. *)

From S2P Require Import Prelude Core Contracts Backoff Bus Tables Registry Effects Chain Evidence Execution.

Module Policy.
(** Durations in microseconds, the backoff's in nanoseconds. *)
Record t := mk {
  pending_timeout : Z;
  max_submissions : Z;
  max_attempts : Z;
  retry_backoff : BackoffPolicy.t;
  low_balance_wei : Z;
}.
End Policy.

Inductive ExecutorError :=
| ExChain (e : ChainError)
| ExDatabase (e : DbError)
| ExBus (e : BusError)
| ExRejected (reason : string).

Definition executor_error_is_retryable (e : ExecutorError) : bool :=
  match e with
  | ExChain error => chain_error_is_retryable error
  | ExDatabase _ | ExBus _ => true
  | ExRejected _ => false
  end.

Module PassReport.
Record t := mk { reconciled : Z; started : Z; resolved : Z; errors : list string }.
Definition default : t := mk 0 0 0 [].
End PassReport.

Inductive Started := StartedTransaction | StartedResolved | StartedDeferred | StartedNoSigner.

Inductive Receipt := SweepR (receipt : SweepReceipt.t) | StepR (outcome : TransactionOutcome.t).

Definition receipt_outcome (r : Receipt) : TransactionOutcome.t :=
  match r with
  | SweepR receipt => TransactionOutcome.mk (SweepReceipt.succeeded receipt) (SweepReceipt.block receipt)
                        (SweepReceipt.block_hash receipt)
  | StepR outcome => outcome
  end.

Definition receipt_transaction_index (r : Receipt) : Z :=
  match r with SweepR receipt => SweepReceipt.transaction_index receipt | StepR _ => 0 end.

Definition sweep_requests (command : SweepBatchCommand.t) (chain_id : Z) : list SweepRequest.t :=
  (fun item => SweepRequest.mk (SweepItem.token item) (SweepItem.amount item) (SweepItem.receiver item)
     (SweepItem.expiration_timestamp item) (SweepItem.recovery item) (SweepItem.salt item) chain_id)
    <$> SweepBatchCommand.items command.

Module World.
Record t := mk {
  store : Exec.t;
  fees : option FeeEstimate.t;
  lane : list Address;
  tick : nat;
}.
End World.

Abbreviation exec := (eff ExecutorError World.t) (only parsing).

(** ** Transactions of the executor *)

Section Transactions.
Context (payload_hash : Message -> B256) (config : ChainConfig.t).

Definition chain_id : Z := ChainConfig.chain_id config.

Definition db {A} (r : result DbError A) : result ExecutorError A :=
  match r with Ok a => Ok a | Err e => Err (ExDatabase e) end.

Definition publish_event (j : Job.t) (event : ExecutionEvent) (now : Timestamp) (id : Uuid) (s : Exec.t)
  : result ExecutorError Exec.t :=
  match publish payload_hash SIGNERS event (Job.correlation_id j) (Job.command_message_id j) id now (Exec.bus s) with
  | Ok (_, bus) => Ok {| s with Exec.bus := bus |}
  | Err e => Err (ExBus e)
  end.

Definition conclude_tx (j : Job.t) (state : JobState) (event : ExecutionEvent) (now : Timestamp) (id : Uuid)
    (s : Exec.t) : result ExecutorError (unit * Exec.t) :=
  let! '(closed, s1) := db (resolve_job (Job.id j) state event now s) in
  if closed then
    let! s2 := publish_event j event now id s1 in
    Ok (tt, s2)
  else Ok (tt, s1).

Definition resolve_tx (t : OpenTransaction.t) (job_state : JobState) (tx_state : TxState) (event : ExecutionEvent)
    (now : Timestamp) (id : Uuid) (s : Exec.t) : result ExecutorError (unit * Exec.t) :=
  let! s1 := db (resolve_transaction (OpenTransaction.id t) tx_state now s) in
  conclude_tx (OpenTransaction.job t) job_state event now id s1.

(** The event of a job that ends without its effect. *)
Definition abandon_event (j : Job.t) (reason : AbandonReason) : ExecutionEvent :=
  match Job.command j with
  | SweepBatch _ => SweepAbandoned (Job.id j) chain_id reason
  | WithdrawalStep command =>
      WithdrawalStepFinalized (Job.id j) (WithdrawalStepCommand.leg_id command) chain_id
        (WithdrawalStepCommand.step command) (StepAbandoned reason)
  end.

Definition step_event (j : Job.t) (command : WithdrawalStepCommand.t) (r : StepResult) : ExecutionEvent :=
  WithdrawalStepFinalized (Job.id j) (WithdrawalStepCommand.leg_id command) chain_id
    (WithdrawalStepCommand.step command) r.

Definition stall_event (t : OpenTransaction.t) : ExecutionEvent :=
  ExecutionStalled (Job.id (OpenTransaction.job t)) chain_id (OpenTransaction.signer t)
    (Z.of_nat (length (OpenTransaction.attempts t)) mod 2 ^ 32).

Definition stall_tx (t : OpenTransaction.t) (now : Timestamp) (id : Uuid) (s : Exec.t)
  : result ExecutorError (unit * Exec.t) :=
  let! s1 := publish_event (OpenTransaction.job t) (stall_event t) now id s in
  Ok (tt, mark_stall_reported (OpenTransaction.id t) now s1).

Definition submitted_event (t : OpenTransaction.t) (a : Attempt.t) : option ExecutionEvent :=
  match Job.command (OpenTransaction.job t) with
  | SweepBatch _ =>
      Some (SweepSubmitted (Job.id (OpenTransaction.job t)) chain_id (OpenTransaction.signer t)
              (OpenTransaction.nonce t) (Attempt.tx_hash a) (Attempt.replacement_number a))
  | WithdrawalStep _ => None
  end.

Definition broadcast_tx (t : OpenTransaction.t) (a : Attempt.t) (now : Timestamp) (id : Uuid) (s : Exec.t)
  : result ExecutorError (unit * Exec.t) :=
  let s1 := mark_broadcast (OpenTransaction.id t) (Attempt.replacement_number a) now s in
  match Attempt.broadcast_at a, submitted_event t a with
  | None, Some event =>
      let! s2 := publish_event (OpenTransaction.job t) event now id s1 in
      Ok (tt, s2)
  | _, _ => Ok (tt, s1)
  end.

Definition attempt_tx (t : OpenTransaction.t) (a : Attempt.t) (now : Timestamp) (id : Uuid) (s : Exec.t)
  : result ExecutorError (unit * Exec.t) :=
  let! s1 := db (insert_attempt (OpenTransaction.id t) a now s) in
  Ok (tt, s1).

Definition new_slot (j : Job.t) (signer : Address) (nonce gas_limit : Z) (a : Attempt.t) : NewTransaction.t :=
  match Job.command j with
  | SweepBatch _ =>
      NewTransaction.mk (Job.id j) chain_id signer nonce (ChainConfig.batch_sweeper config) [] gas_limit a
  | WithdrawalStep c =>
      NewTransaction.mk (Job.id j) chain_id signer nonce (WithdrawalStepCommand.to c)
        (WithdrawalStepCommand.calldata c) gas_limit a
  end.

Definition begin_tx (new : NewTransaction.t) (now : Timestamp) (id : Uuid) (s : Exec.t)
  : result ExecutorError (Uuid * Exec.t) :=
  let! s1 := db (begin_transaction id new now s) in
  Ok (id, s1).

Definition defer_tx (j : Job.t) (next : Timestamp) (error : string) (now : Timestamp) (id : Uuid) (s : Exec.t)
  : result ExecutorError (unit * Exec.t) :=
  let! '(_, s1) := db (defer_job (Job.id j) next error s) in
  Ok (tt, s1).

End Transactions.

(** What surrounds the executor: the hash of a payload, the node, the chain's
    configuration and policy; at each numbered step the time, a fresh
    identifier, a jitter draw, which concurrent start finishes next and what the
    store's other users (handlers, other chains' executors) commit before it; and
    the rendering of an error. *)
Module Env.
Record t := mk {
  payload_hash : Message -> B256;
  chain : Node.t;
  config : ChainConfig.t;
  policy : Policy.t;
  clock : nat -> Timestamp;
  fresh : nat -> Uuid;
  jitter : nat -> Z;
  next_done : nat -> nat;
  others : nat -> Exec.t -> Exec.t;
  describe : ExecutorError -> string;
}.
End Env.

Section Executor.
Context (env : Env.t).

#[local] Abbreviation payload_hash := (Env.payload_hash env).
#[local] Abbreviation chain := (Env.chain env).
#[local] Abbreviation config := (Env.config env).
#[local] Abbreviation policy := (Env.policy env).
#[local] Abbreviation clock := (Env.clock env).
#[local] Abbreviation fresh := (Env.fresh env).
#[local] Abbreviation jitter := (Env.jitter env).
#[local] Abbreviation next_done := (Env.next_done env).
#[local] Abbreviation describe := (Env.describe env).

(** ** Primitive steps *)

Definition ask {A} (c : rpc A) : exec A :=
  fun w => let '(r, n) := c (World.tick w) in
           (match r with Ok a => Ok a | Err e => Err (ExChain e) end, {| w with World.tick := n |}).

(** A database transaction, with its time and the identifier it draws; the
    other users of the store run before it. *)
Definition commit {A} (f : Timestamp -> Uuid -> Exec.t -> result ExecutorError (A * Exec.t)) : exec A :=
  fun w => let s := Env.others env (World.tick w) (World.store w) in
           match f (clock (World.tick w)) (fresh (World.tick w)) s with
           | Ok (a, s') => (Ok a, {| w with World.store := s'; World.tick := S (World.tick w) |})
           | Err e => (Err e, {| w with World.store := s; World.tick := S (World.tick w) |})
           end.

Definition utc_now : exec Timestamp :=
  fun w => (Ok (clock (World.tick w)), {| w with World.tick := S (World.tick w) |}).

Definition set_lane (lane : list Address) : exec unit :=
  fun w => (Ok tt, {| w with World.lane := lane |}).

Definition get_fees : exec FeeEstimate.t :=
  fun w => match World.fees w with
           | Some f => (Ok f, w)
           | None =>
               match Node.estimate_fees chain (World.tick w) with
               | Ok f => (Ok f, {| w with World.fees := Some f; World.tick := S (World.tick w) |})
               | Err e => (Err (ExChain e), {| w with World.tick := S (World.tick w) |})
               end
           end.

Definition boundary : exec BlockHeader.t :=
  ask (finality_boundary chain (ChainConfig.finality_source config) (ChainConfig.finality_confirmations config)).

Definition check_precondition (p : StepPrecondition) (b : BlockHeader.t) : exec Precondition :=
  ask (check chain (ChainConfig.log_range_size config) p b).

(** ** Conclusions: the job closed and its event published, atomically *)

Definition resolve (t : OpenTransaction.t) (job_state : JobState) (tx_state : TxState) (event : ExecutionEvent)
  : exec unit := commit (resolve_tx payload_hash t job_state tx_state event).

Definition abandon (t : OpenTransaction.t) (reason : AbandonReason) : exec unit :=
  resolve t JobAbandoned TxAbandoned (abandon_event config (OpenTransaction.job t) reason).

Definition reject_job (j : Job.t) (reason : AbandonReason) : exec unit :=
  commit (conclude_tx payload_hash j JobAbandoned (abandon_event config j reason)).

Definition conclude_step (j : Job.t) (command : WithdrawalStepCommand.t) (r : StepResult) : exec unit :=
  commit (conclude_tx payload_hash j JobFinalized (step_event config j command r)).

Definition report_stall (t : OpenTransaction.t) : exec bool :=
  if is_some (OpenTransaction.stall_reported_at t) then ret false
  else
    let* _ := commit (stall_tx payload_hash config t) in
    ret true.

(** ** Broadcasting and replacing *)

Definition broadcast (t : OpenTransaction.t) (a : Attempt.t) : exec unit :=
  let prepared := Prepared.mk (Attempt.tx_hash a) (Attempt.raw_transaction a) in
  let* _ := ask (call (fun n => Node.broadcast_sweep_transaction chain n prepared)) in
  commit (broadcast_tx payload_hash config t a).

Definition replacement_fees (previous : Attempt.t) (estimate : FeeEstimate.t) : FeeEstimate.t :=
  FeeEstimate.max estimate
    (FeeEstimate.bumped (FeeEstimate.mk (Attempt.max_fee_per_gas previous) (Attempt.max_priority_fee_per_gas previous))).

Definition attempt_of (number : Z) (p : Prepared.t) (fees : FeeEstimate.t) : Attempt.t :=
  Attempt.mk number (Prepared.hash p) (Prepared.raw p) (FeeEstimate.max_fee_per_gas fees)
    (FeeEstimate.max_priority_fee_per_gas fees) None.

(** Sign the job's call at a nonce: the sweep batch, or the step's own call. *)
Definition prepare (command : ExecutionCommand) (signer : Address) (nonce gas_limit : Z) (fees : FeeEstimate.t)
  : exec Prepared.t :=
  match command with
  | SweepBatch c =>
      ask (call (fun n => Node.prepare_sweep_batch chain n signer (ChainConfig.batch_sweeper config)
                            (sweep_requests c (chain_id config)) nonce gas_limit fees))
  | WithdrawalStep c =>
      ask (call (fun n => Node.prepare_call chain n signer (WithdrawalStepCommand.to c)
                            (WithdrawalStepCommand.calldata c) nonce gas_limit fees))
  end.

(** [previous.replacement_number + 1] is a [u32] addition. *)
Definition replace (t : OpenTransaction.t) (previous : Attempt.t) : exec unit :=
  let* estimate := get_fees in
  let fees := replacement_fees previous estimate in
  let* prepared := prepare (Job.command (OpenTransaction.job t)) (OpenTransaction.signer t) (OpenTransaction.nonce t)
                     (OpenTransaction.gas_limit t) fees in
  let a := attempt_of ((Attempt.replacement_number previous + 1) mod 2 ^ 32) prepared fees in
  let* _ := commit (attempt_tx t a) in
  broadcast t a.

(** ** Reconciling an open slot *)

Definition receipt (t : OpenTransaction.t) (tx_hash : B256) : exec (option Receipt) :=
  match Job.command (OpenTransaction.job t) with
  | SweepBatch _ =>
      let* r := ask (call (fun n => Node.sweep_receipt chain n tx_hash (ChainConfig.batch_sweeper config))) in
      ret (SweepR <$> r)
  | WithdrawalStep _ =>
      let* r := ask (call (fun n => Node.transaction_receipt chain n tx_hash)) in
      ret (StepR <$> r)
  end.

(** A receipt of any attempt, newest first. *)
Definition find_receipt (t : OpenTransaction.t) : exec (option (B256 * Receipt)) :=
  find_first (fun a =>
    let* r := receipt t (Attempt.tx_hash a) in
    ret ((fun r => (Attempt.tx_hash a, r)) <$> r)) (reverse (OpenTransaction.attempts t)).

Definition clear_mined_step (t : OpenTransaction.t) : exec bool :=
  let* _ := commit (fun _ _ s => Ok (tt, clear_mined (OpenTransaction.id t) s)) in
  ret false.

Definition finalize_sweep (t : OpenTransaction.t) (command : SweepBatchCommand.t) (tx_hash : B256)
    (r : SweepReceipt.t) (header : BlockHeader.t) : exec bool :=
  if negb (SweepReceipt.succeeded r) then
    let event := SweepAbandoned (Job.id (OpenTransaction.job t)) (chain_id config) (AbandonReverted tx_hash) in
    let* _ := resolve t JobAbandoned TxReverted event in
    ret true
  else
    let* items := ask (classify_items chain config (SweepBatchCommand.items command) r header) in
    let* again := ask (call (fun n => Node.block_header chain n (SweepReceipt.block r))) in
    if negb (bool_decide (BlockHeader.hash again = SweepReceipt.block_hash r)) then clear_mined_step t
    else
      let event := SweepFinalized (Job.id (OpenTransaction.job t)) (chain_id config) tx_hash (SweepReceipt.block r)
                     (SweepReceipt.block_hash r) (BlockHeader.timestamp header) (SweepReceipt.transaction_index r) items in
      let* _ := resolve t JobFinalized TxFinalized event in
      ret true.

Definition finalize_step (t : OpenTransaction.t) (command : WithdrawalStepCommand.t) (tx_hash : B256)
    (outcome : TransactionOutcome.t) (b : BlockHeader.t) : exec bool :=
  let* '(r, tx_state) :=
    (if TransactionOutcome.succeeded outcome then
       ret (Succeeded tx_hash (TransactionOutcome.block outcome) (TransactionOutcome.block_hash outcome), TxFinalized)
     else
       let* executed_elsewhere :=
         match WithdrawalStepCommand.precondition command with
         | Some precondition => check_precondition precondition b
         | None => ret Holds
         end in
       match executed_elsewhere with
       | Violated other => ret (ExecutedElsewhere other, TxReverted)
       | Holds => ret (StepReverted tx_hash, TxReverted)
       end) in
  let* _ := resolve t JobFinalized tx_state (step_event config (OpenTransaction.job t) command r) in
  ret true.

(** The last case is the code's [unreachable!]. *)
Definition on_mined (t : OpenTransaction.t) (tx_hash : B256) (r : Receipt) : exec bool :=
  let outcome := receipt_outcome r in
  let mined := Mined.mk tx_hash (TransactionOutcome.block outcome) (TransactionOutcome.block_hash outcome)
                 (receipt_transaction_index r) (TransactionOutcome.succeeded outcome) in
  let* _ := (if bool_decide (OpenTransaction.mined t = Some mined) then ret tt
             else commit (fun _ _ s => Ok (tt, record_mined (OpenTransaction.id t) mined s))) in
  let* b := boundary in
  if BlockHeader.number b <? TransactionOutcome.block outcome then ret false
  else
    let* header := ask (call (fun n => Node.block_header chain n (TransactionOutcome.block outcome))) in
    if negb (bool_decide (BlockHeader.hash header = TransactionOutcome.block_hash outcome)) then clear_mined_step t
    else
      match Job.command (OpenTransaction.job t), r with
      | SweepBatch command, SweepR receipt => finalize_sweep t command tx_hash receipt header
      | WithdrawalStep command, StepR outcome => finalize_step t command tx_hash outcome b
      | _, _ => throw (ExRejected "receipt kind follows the command kind")
      end.

(** The mined nonce passed ours without a receipt: a sweep is abandoned, a
    step is concluded only by its precondition. *)
Definition nonce_consumed (t : OpenTransaction.t) : exec bool :=
  match Job.command (OpenTransaction.job t) with
  | WithdrawalStep command =>
      let* b := boundary in
      let* violated :=
        match WithdrawalStepCommand.precondition command with
        | Some precondition => check_precondition precondition b
        | None => ret Holds
        end in
      match violated with
      | Violated tx_hash =>
          let* _ := resolve t JobFinalized TxFinalized
                      (step_event config (OpenTransaction.job t) command (ExecutedElsewhere tx_hash)) in
          ret true
      | Holds =>
          let* _ := report_stall t in
          ret false
      end
  | SweepBatch _ =>
      let* _ := abandon t (NonceConsumed (OpenTransaction.signer t) (OpenTransaction.nonce t)) in
      ret true
  end.

(** A slot without an attempt makes the code panic: [expect]. *)
Definition reconcile (t : OpenTransaction.t) : exec bool :=
  let* found := find_receipt t in
  match found with
  | Some (tx_hash, r) => on_mined t tx_hash r
  | None =>
      match OpenTransaction.newest_attempt t with
      | None => throw (ExRejected "a transaction has at least one attempt")
      | Some newest =>
          if negb (is_some (Attempt.broadcast_at newest)) then
            let* _ := broadcast t newest in
            ret false
          else
            let* now := utc_now in
            let age := Z.max (now - OpenTransaction.submitted_at t) 0 in
            if age <? Policy.pending_timeout policy then ret false
            else
              let* mined_count := ask (call (fun n => Node.signer_nonce chain n (OpenTransaction.signer t) false)) in
              if OpenTransaction.nonce t <? mined_count then
                let* found := find_receipt t in
                match found with
                | Some (tx_hash, r) => on_mined t tx_hash r
                | None => nonce_consumed t
                end
              else if Policy.max_submissions policy <=? Z.of_nat (length (OpenTransaction.attempts t)) mod 2 ^ 32 then
                let* _ := report_stall t in
                let* _ := broadcast t newest in
                ret false
              else
                let* _ := replace t newest in
                ret false
      end
  end.

(** ** Starting queued jobs *)

Definition opened (id : Uuid) (j : Job.t) (new : NewTransaction.t) (now : Timestamp) : OpenTransaction.t :=
  OpenTransaction.mk id j (NewTransaction.signer new) (NewTransaction.nonce new) (NewTransaction.target new)
    (NewTransaction.calldata new) (NewTransaction.gas_limit new) TxPrepared now None None [NewTransaction.attempt new].

(** Conclusions that need no signer: [Some] when the step was concluded. *)
Definition conclude_without_signer (j : Job.t) : exec bool :=
  match Job.command j with
  | SweepBatch _ => ret false
  | WithdrawalStep command =>
      let* violated :=
        match WithdrawalStepCommand.precondition command with
        | Some precondition =>
            let* b := boundary in
            check_precondition precondition b
        | None => ret Holds
        end in
      match violated with
      | Violated tx_hash =>
          let* _ := conclude_step j command (ExecutedElsewhere tx_hash) in
          ret true
      | Holds =>
          let* now := utc_now in
          let seconds := Z.max (now / 1000000) 0 in
          match WithdrawalStepCommand.not_after command with
          | Some deadline =>
              if deadline <=? seconds then
                let* _ := conclude_step j command StepExpired in
                ret true
              else ret false
          | None => ret false
          end
      end
  end.

(** Sign, persist, then broadcast on one signer's lane. *)
Definition start_on (j : Job.t) (signer : Address) (rest : list Address) (nonce : Z) : exec Started :=
  let* fees := get_fees in
  let* gas_limit :=
    match Job.command j with
    | SweepBatch c =>
        match SweepBatchCommand.items c with
        | [] => throw (ExRejected "sweep batch has no items")
        | items => ret (sweep_batch_gas_limit (Z.of_nat (length items)))
        end
    | WithdrawalStep c => ret (WithdrawalStepCommand.gas_limit c)
    end in
  let* prepared := prepare (Job.command j) signer nonce gas_limit fees in
  let new := new_slot config j signer nonce gas_limit (attempt_of 0 prepared fees) in
  let* id := commit (begin_tx new) in
  let* _ := set_lane rest in
  let* now := utc_now in
  let* _ := attempt (broadcast (opened id j new now) (NewTransaction.attempt new)) in
  ret StartedTransaction.

(** [free] is the lane; a signer with a foreign transaction in flight leaves it. *)
Fixpoint try_start (j : Job.t) (free : list Address) : exec Started :=
  let* concluded := conclude_without_signer j in
  if concluded then ret StartedResolved
  else
    match free with
    | [] => ret StartedNoSigner
    | signer :: rest =>
        let* mined := ask (call (fun n => Node.signer_nonce chain n signer false)) in
        let* pending := ask (call (fun n => Node.signer_nonce chain n signer true)) in
        if mined <? pending then
          let* _ := set_lane rest in
          match rest with
          | [] => ret StartedNoSigner
          | _ :: _ => try_start j rest
          end
        else start_on j signer rest mined
    end.

(** [chrono::Duration::from_std(delay).unwrap_or_default()], in microseconds. *)
Definition chrono_delay (delay : Z) : Z :=
  if delay <=? (2 ^ 63 - 1) * 10 ^ 6 then interval delay else 0.

Definition start (j : Job.t) (free : list Address) : exec Started :=
  let* _ := set_lane free in
  let* tried := attempt (try_start j free) in
  match tried with
  | Ok started => ret started
  | Err error =>
      if executor_error_is_retryable error then
        let attempts := Job.attempts j + 1 in
        if Policy.max_attempts policy <=? attempts then
          let* _ := reject_job j (AbandonRejected (describe error)) in
          ret StartedResolved
        else
          let* w := get in
          let* now := utc_now in
          let wait := delay (Policy.retry_backoff policy) attempts (jitter (World.tick w)) in
          let* _ := commit (defer_tx j (now + chrono_delay wait) (describe error)) in
          ret StartedDeferred
      else
        let* _ := reject_job j (AbandonRejected (describe error)) in
        ret StartedResolved
  end.

(** ** One pass *)

(** [ranked.sort_by_key(Reverse(balance))]: stable, richest first. *)
Fixpoint insert_ranked (x : Z * Address) (l : list (Z * Address)) : list (Z * Address) :=
  match l with
  | [] => [x]
  | y :: l' => if fst y <? fst x then x :: l else y :: insert_ranked x l'
  end.

Definition rank (l : list (Z * Address)) : list Address :=
  snd <$> foldl (fun acc x => insert_ranked x acc) [] l.

(** A failed status write is only logged: it never fails. *)
Definition free_signers (busy : list Address) : exec (list Address) :=
  let* ranked := traverse (fun signer =>
    let* balance := attempt (ask (call (fun n => Node.signer_balance chain n signer))) in
    let status := match balance with
                  | Ok b => Ok (b, b <? Policy.low_balance_wei policy)
                  | Err e => Err (describe e)
                  end in
    let* _ := commit (fun now _ s => Ok (tt, upsert_signer_status (chain_id config) signer status now s)) in
    if bool_decide (signer ∈ busy) then ret None
    else ret (Some (match balance with Ok b => b | Err _ => 0 end, signer))) (Node.signers chain) in
  ret (rank (omap id ranked)).

Definition count_reconciled (outcome : result ExecutorError bool) (r : PassReport.t) : PassReport.t :=
  match outcome with
  | Ok resolved => PassReport.mk (PassReport.reconciled r + 1) (PassReport.started r)
                     (PassReport.resolved r + (if resolved then 1 else 0)) (PassReport.errors r)
  | Err e => PassReport.mk (PassReport.reconciled r + 1) (PassReport.started r) (PassReport.resolved r)
               (PassReport.errors r ++ [describe e])
  end.

Definition count_start (outcome : result ExecutorError Started) (r : PassReport.t) : PassReport.t :=
  match outcome with
  | Ok StartedTransaction => {| r with PassReport.started := PassReport.started r + 1 |}
  | Ok StartedResolved => {| r with PassReport.resolved := PassReport.resolved r + 1 |}
  | Ok _ => r
  | Err e => {| r with PassReport.errors := PassReport.errors r ++ [describe e] |}
  end.

Definition pass_error (e : ExecutorError) (r : PassReport.t) : PassReport.t :=
  {| r with PassReport.errors := PassReport.errors r ++ [describe e] |}.

Fixpoint reconcile_all (open : list OpenTransaction.t) (r : PassReport.t) : exec PassReport.t :=
  match open with
  | [] => ret r
  | t :: open' =>
      let* outcome := attempt (reconcile t) in
      reconcile_all open' (count_reconciled outcome r)
  end.

(** Fill every idle lane: oldest job to richest free signer. *)
Fixpoint fill (pending : list Job.t) (free : list Address) (starts : list (Job.t * Address))
  : list Job.t * list Address * list (Job.t * Address) :=
  match pending, free with
  | j :: pending', signer :: free' => fill pending' free' (starts ++ [(j, signer)])
  | _, _ => (pending, free, starts)
  end.

(** The coordinator. Starts run concurrently; which of those in flight
    finishes next is the scheduler's choice, a parameter. *)
Fixpoint coordinate (fuel : nat) (pending : list Job.t) (free : list Address) (starts : list (Job.t * Address))
    (r : PassReport.t) : exec (option (list Job.t * PassReport.t)) :=
  match fuel with
  | O => ret None
  | S fuel =>
      let '(pending, free, starts) := fill pending free starts in
      let* w := get in
      let i := (next_done (World.tick w) mod length starts)%nat in
      match starts !! i with
      | None => ret (Some (pending, r))
      | Some (j, signer) =>
          let starts := delete i starts in
          let* outcome := attempt (start j [signer]) in
          let* w := get in
          let r := count_start outcome r in
          match outcome with
          | Ok StartedResolved | Ok StartedDeferred => coordinate fuel pending (free ++ World.lane w) starts r
          | Ok StartedNoSigner => coordinate fuel (j :: pending) free starts r
          | Ok StartedTransaction | Err _ => coordinate fuel pending free starts r
          end
      end
  end.

(** Jobs left without a lane may still conclude without a signer. *)
Fixpoint start_laneless (pending : list Job.t) (r : PassReport.t) : exec PassReport.t :=
  match pending with
  | [] => ret r
  | j :: pending' =>
      let* outcome := attempt (start j []) in
      start_laneless pending' (match outcome with
                               | Ok StartedResolved | Err _ => count_start outcome r
                               | Ok _ => r
                               end)
  end.

Definition read {A} (f : Timestamp -> Exec.t -> result DbError A) : exec A :=
  commit (fun now _ s => let! a := db (f now s) in Ok (a, s)).

Definition start_queued (r : PassReport.t) : exec PassReport.t :=
  let* queued := attempt (read (queued_jobs (chain_id config))) in
  match queued with
  | Err e => ret (pass_error e r)
  | Ok [] => ret r
  | Ok queued =>
      let* busy := read (fun _ s => Ok (busy_signers (chain_id config) s)) in
      let* free := free_signers busy in
      let* done := coordinate (length queued + length free + 1) queued free [] r in
      match done with
      | Some (pending, r) => start_laneless pending r
      | None => throw (ExRejected "coordinator did not end")
      end
  end.

Definition reset_fees : exec unit := fun w => (Ok tt, {| w with World.fees := None |}).

(** Reconcile every open slot, then start queued jobs unless the chain is
    halted. *)
Definition reconcile_and_start : exec PassReport.t :=
  let* open := attempt (read (fun _ => open_transactions (chain_id config))) in
  match open with
  | Err e => ret (pass_error e PassReport.default)
  | Ok open =>
      let* r := reconcile_all open PassReport.default in
      let* halted := read (fun _ s => Ok (is_halted (chain_id config) s)) in
      if halted then ret r else start_queued r
  end.

(** A pass begins with an empty fee cache. *)
Definition pass : exec PassReport.t :=
  let* _ := reset_fees in
  reconcile_and_start.

End Executor.
