(* ===== verification/ExecutionInv.v ===== *)
(** * The signers' store under every interleaving

    [exec_step] is one committed transaction on the execution schema: a bus
    handler's, one of the executor's, or what other processes do to the bus.
    [lanes_ok] and [told_ok] are its invariants: one open slot per signer and
    a nonce spent once; a job's conclusion on the bus exactly when the job is
    resolved. *)

From S2P Require Import Prelude Core Contracts Backoff Bus Tables Registry Effects Chain Evidence.
From S2P Require Import Execution Executor.

Implicit Types (s : Exec.t) (now : Timestamp) (j : Job.t) (event : ExecutionEvent).

(** Events that end a job, as opposed to progress reports. *)
Definition conclusive (e : ExecutionEvent) : bool :=
  match e with SweepSubmitted _ _ _ _ _ _ | ExecutionStalled _ _ _ _ => false | _ => true end.

Lemma conclusive_kind e1 e2 : Event.kind e1 = Event.kind e2 -> conclusive e1 = conclusive e2.
Proof. by destruct e1, e2. Qed.

Section Steps.
Context (payload_hash : Message -> B256) (config : ChainConfig.t).

(** What the other users of the bus do to it: anything but publish
    execution events, which is the signers' alone. *)
Definition foreign_step (bus bus' : Bus.t) : Prop :=
  bus_step payload_hash bus bus' /\
  forall id m, Bus.messages bus' !! id = Some m -> RawMessage.topic m = EXECUTION_EVENTS_TOPIC ->
    Bus.messages bus !! id = Some m.

Inductive exec_step (s : Exec.t) : Exec.t -> Prop :=
| ex_command chains id now d s' : handle_command payload_hash chains id now d s = Ok s' -> exec_step s s'
| ex_control now d s' : handle_control now d s = Ok s' -> exec_step s s'
| ex_bus bus' : foreign_step (Exec.bus s) bus' -> exec_step s {| s with Exec.bus := bus' |}
| ex_conclude j state event now id a s' :
    Event.job_id event = Job.id j -> conclusive event = true ->
    conclude_tx payload_hash j state event now id s = Ok (a, s') -> exec_step s s'
| ex_resolve t job_state tx_state event now id a s' :
    Event.job_id event = Job.id (OpenTransaction.job t) -> conclusive event = true ->
    resolve_tx payload_hash t job_state tx_state event now id s = Ok (a, s') -> exec_step s s'
| ex_stall t now id a s' : stall_tx payload_hash config t now id s = Ok (a, s') -> exec_step s s'
| ex_broadcast t att now id a s' : broadcast_tx payload_hash config t att now id s = Ok (a, s') -> exec_step s s'
| ex_attempt t att now id a s' : attempt_tx t att now id s = Ok (a, s') -> exec_step s s'
| ex_begin new now id a s' : begin_tx new now id s = Ok (a, s') -> exec_step s s'
| ex_defer j next error now id a s' : defer_tx j next error now id s = Ok (a, s') -> exec_step s s'
| ex_mined id mined : exec_step s (record_mined id mined s)
| ex_clear id : exec_step s (clear_mined id s)
| ex_signer_status chain signer balance now : exec_step s (upsert_signer_status chain signer balance now s)
| ex_executor_status chain state detail now s' :
    upsert_executor_status chain state detail now s = Ok s' -> exec_step s s'.

End Steps.

(** ** Slots: lanes, nonces and signed attempts *)

Definition tx_coherent (row : TxRow.t) : Prop :=
  TxRow.resolved_at row = None <-> TxState.is_open (TxRow.state row) = true.

Record lanes_ok (jobs : gmap Uuid JobRow.t) (txs : gmap Uuid TxRow.t) (atts : gmap (Uuid * Z) Attempt.t) : Prop := {
  lanes_tx : forall id row, txs !! id = Some row ->
    tx_coherent row /\ 0 <= TxRow.nonce row /\ is_Some (jobs !! TxRow.job_id row) /\
    exists n a, atts !! (id, n) = Some a;
  lanes_nonce : forall id1 id2 r1 r2, txs !! id1 = Some r1 -> txs !! id2 = Some r2 ->
    TxRow.chain_id r1 = TxRow.chain_id r2 -> TxRow.signer r1 = TxRow.signer r2 ->
    TxRow.nonce r1 = TxRow.nonce r2 -> id1 = id2;
  lanes_open : forall id1 id2 r1 r2, txs !! id1 = Some r1 -> txs !! id2 = Some r2 ->
    TxRow.is_open r1 = true -> TxRow.is_open r2 = true ->
    TxRow.chain_id r1 = TxRow.chain_id r2 -> TxRow.signer r1 = TxRow.signer r2 -> id1 = id2;
  lanes_attempt : forall id n a, atts !! (id, n) = Some a -> is_Some (txs !! id);
  lanes_hash : forall k1 k2 a1 a2, atts !! k1 = Some a1 -> atts !! k2 = Some a2 ->
    Attempt.tx_hash a1 = Attempt.tx_hash a2 -> k1 = k2;
}.

Abbreviation store_lanes_ok s := (lanes_ok (Exec.jobs s) (Exec.transactions s) (Exec.attempts s)).

(** A change to a slot that keeps its identity and opens nothing. *)
Definition keeps_slot (f : TxRow.t -> TxRow.t) : Prop := forall row,
  (tx_coherent row -> tx_coherent (f row)) /\
  (TxRow.is_open (f row) = true -> TxRow.is_open row = true) /\
  TxRow.job_id (f row) = TxRow.job_id row /\ TxRow.chain_id (f row) = TxRow.chain_id row /\
  TxRow.signer (f row) = TxRow.signer row /\ TxRow.nonce (f row) = TxRow.nonce row.

Lemma lanes_alter jobs txs atts f id :
  keeps_slot f -> lanes_ok jobs txs atts -> lanes_ok jobs (alter f id txs) atts.
Proof.
  intros Hf [Htx Hn Ho Ha Hh].
  assert (forall k row, alter f id txs !! k = Some row -> exists row0, txs !! k = Some row0 /\
    (tx_coherent row0 -> tx_coherent row) /\ (TxRow.is_open row = true -> TxRow.is_open row0 = true) /\
    TxRow.job_id row = TxRow.job_id row0 /\ TxRow.chain_id row = TxRow.chain_id row0 /\
    TxRow.signer row = TxRow.signer row0 /\ TxRow.nonce row = TxRow.nonce row0) as Hback.
  { intros k row. destruct (decide (id = k)) as [<-|Hne].
    - rewrite lookup_alter_eq, fmap_Some. intros (row0 & Hr & ->). exists row0. split; [done|apply Hf].
    - rewrite lookup_alter_ne by done. intros Hr. exists row. done. }
  split.
  - intros k row (r0 & Hr & Hc & _ & -> & _ & _ & ->)%Hback. destruct (Htx _ _ Hr) as (? & ? & ? & ?). auto.
  - intros k1 k2 r1 r2 (x1 & H1 & _ & _ & _ & -> & -> & ->)%Hback (x2 & H2 & _ & _ & _ & -> & -> & ->)%Hback. eauto.
  - intros k1 k2 r1 r2 (x1 & H1 & _ & O1 & _ & -> & -> & _)%Hback (x2 & H2 & _ & O2 & _ & -> & -> & _)%Hback. eauto.
  - intros k n a Hka. apply Ha in Hka as [row Hrow].
    destruct (decide (id = k)) as [<-|]; [rewrite lookup_alter_eq, Hrow|rewrite lookup_alter_ne by done]; eauto.
  - done.
Qed.

Lemma lanes_attempt_alter jobs txs atts (f : Attempt.t -> Attempt.t) k :
  (forall a, Attempt.tx_hash (f a) = Attempt.tx_hash a) ->
  lanes_ok jobs txs atts -> lanes_ok jobs txs (alter f k atts).
Proof.
  intros Hf [Htx Hn Ho Ha Hh].
  assert (forall k' a, alter f k atts !! k' = Some a -> exists a0, atts !! k' = Some a0 /\ Attempt.tx_hash a = Attempt.tx_hash a0) as Hback.
  { intros k' a. destruct (decide (k = k')) as [<-|]; [rewrite lookup_alter_eq|rewrite lookup_alter_ne by done; eauto].
    rewrite fmap_Some. intros (a0 & ? & ->). eauto. }
  split; [|done|done| |].
  - intros id row Hr. destruct (Htx _ _ Hr) as (? & ? & ? & n & a & Hna). split_and!; [done..|]. exists n.
    destruct (decide (k = (id, n))) as [->|]; [rewrite lookup_alter_eq, Hna|rewrite lookup_alter_ne by done]; eauto.
  - intros id n a (a0 & ? & _)%Hback. eauto.
  - intros k1 k2 a1 a2 (x1 & ? & ->)%Hback (x2 & ? & ->)%Hback. eauto.
Qed.

Lemma lanes_jobs jobs jobs' txs atts :
  (forall id, is_Some (jobs !! id) -> is_Some (jobs' !! id)) ->
  lanes_ok jobs txs atts -> lanes_ok jobs' txs atts.
Proof.
  intros Hj [Htx Hn Ho Ha Hh]. split; [|done..]. intros id row Hr.
  destruct (Htx _ _ Hr) as (? & ? & ? & ?). auto.
Qed.

Lemma is_some_false {A} (o : option A) : is_some o = false -> o = None.
Proof. by destruct o. Qed.
Lemma is_some_true {A} (o : option A) : is_some o = true -> is_Some o.
Proof. destruct o; [eauto|done]. Qed.

Lemma existsb_none {K V} `{Countable K} (p : V -> bool) (m : gmap K V) :
  List.existsb (fun kv => p (snd kv)) (map_to_list m) = false ->
  forall k v, m !! k = Some v -> p v = false.
Proof.
  intros Hn k v Hk. destruct (p v) eqn:Hp; [|done]. exfalso. apply not_true_iff_false in Hn. apply Hn.
  apply List.existsb_exists. exists (k, v). split; [by apply list_elem_of_In, elem_of_map_to_list|done].
Qed.

Lemma lanes_insert jobs txs atts id row n a :
  txs !! id = None -> tx_coherent row -> 0 <= TxRow.nonce row -> is_Some (jobs !! TxRow.job_id row) ->
  (forall k r, txs !! k = Some r -> same_nonce (TxRow.chain_id row) (TxRow.signer row) (TxRow.nonce row) r = false) ->
  (forall k r, txs !! k = Some r -> same_lane (TxRow.chain_id row) (TxRow.signer row) r = false) ->
  (forall k x, atts !! k = Some x -> Attempt.tx_hash x <> Attempt.tx_hash a) ->
  lanes_ok jobs txs atts -> lanes_ok jobs (<[id := row]> txs) (<[(id, n) := a]> atts).
Proof.
  intros Hid Hc Hn0 Hj Hfn Hfl Hfh [Htx Hn Ho Ha Hh].
  assert (forall k r, txs !! k = Some r -> TxRow.chain_id r = TxRow.chain_id row ->
    TxRow.signer r = TxRow.signer row -> TxRow.nonce r <> TxRow.nonce row /\ TxRow.is_open r = false) as Hno.
  { intros k r Hk E1 E2. specialize (Hfn k r Hk). specialize (Hfl k r Hk). unfold same_nonce, same_lane in *.
    rewrite E1, E2, Z.eqb_refl, bool_decide_eq_true_2 in * by done. simpl in *.
    rewrite !andb_true_r in Hfl. split; [by apply Z.eqb_neq|done]. }
  assert (forall m x, atts !! (id, m) = Some x -> False) as Hna.
  { intros m x Hx. apply Ha in Hx. rewrite Hid in Hx. by destruct Hx. }
  split.
  - intros k r [[<- <-]|[Hne Hk]]%lookup_insert_Some.
    + split_and!; [done..|]. exists n, a. apply lookup_insert_eq.
    + destruct (Htx _ _ Hk) as (? & ? & ? & m & x & Hx). split_and!; [done..|]. exists m, x.
      rewrite lookup_insert_ne; [done|congruence].
  - intros k1 k2 r1 r2 [[<- <-]|[_ H1]]%lookup_insert_Some [[<- <-]|[_ H2]]%lookup_insert_Some E1 E2 E3;
      [done| | |by eapply Hn]; exfalso.
    + destruct (Hno _ _ H2 (eq_sym E1) (eq_sym E2)) as [? _]. congruence.
    + destruct (Hno _ _ H1 E1 E2) as [? _]. congruence.
  - intros k1 k2 r1 r2 [[<- <-]|[_ H1]]%lookup_insert_Some [[<- <-]|[_ H2]]%lookup_insert_Some O1 O2 E1 E2;
      [done| | |by eapply Ho]; exfalso.
    + destruct (Hno _ _ H2 (eq_sym E1) (eq_sym E2)) as [_ ?]. congruence.
    + destruct (Hno _ _ H1 E1 E2) as [_ ?]. congruence.
  - intros k m x [[[= <- <-] <-]|[_ Hx]]%lookup_insert_Some; [rewrite lookup_insert_eq; eauto|].
    destruct (decide (id = k)) as [<-|]; [rewrite lookup_insert_eq; eauto|]. rewrite lookup_insert_ne by done. eauto.
  - intros k1 k2 a1 a2 [[<- <-]|[_ H1]]%lookup_insert_Some [[<- <-]|[_ H2]]%lookup_insert_Some E;
      [done| | |by eapply Hh]; exfalso; [by eapply Hfh|by eapply Hfh].
Qed.

(** ** The store's operations on slots *)

Lemma insert_attempt_ok id att now s s' :
  insert_attempt id att now s = Ok s' ->
  exists row, let key := (id, as_i32 (Attempt.replacement_number att)) in
    is_Some (Exec.transactions s !! id) /\ Exec.attempts s !! key = None /\
    (forall k x, Exec.attempts s !! k = Some x -> Attempt.tx_hash x <> Attempt.tx_hash row) /\
    Attempt.tx_hash row = Attempt.tx_hash att /\
    s' = update_tx id (submitted now) {| s with Exec.attempts := <[key := row]> (Exec.attempts s) |}.
Proof.
  unfold insert_attempt. destruct (is_some (Exec.transactions s !! id)) eqn:Ht; simpl; [|done].
  destruct (is_some (Exec.attempts s !! _)) eqn:Hk; [done|].
  destruct (List.existsb _ _) eqn:Hh; [done|]. intros [= <-].
  exists {| att with Attempt.broadcast_at := None |}. cbv zeta. split_and!; [by apply is_some_true|by apply is_some_false| |done|done].
  intros k x Hx. pose proof (existsb_none (fun y => bool_decide (Attempt.tx_hash y = Attempt.tx_hash att)) _ Hh k x Hx) as Hb.
  by apply bool_decide_eq_false in Hb.
Qed.

Lemma insert_attempt_keeps id att now s s' :
  insert_attempt id att now s = Ok s' -> Exec.jobs s' = Exec.jobs s /\ Exec.bus s' = Exec.bus s.
Proof. intros (row & _ & _ & _ & _ & ->)%insert_attempt_ok. done. Qed.

Lemma keeps_slot_submitted now : keeps_slot (submitted now).
Proof. intros row. done. Qed.

Lemma is_open_iff row : TxRow.is_open row = true <-> TxRow.resolved_at row = None.
Proof. unfold TxRow.is_open. by destruct (TxRow.resolved_at row). Qed.

Lemma keeps_slot_if_open f :
  (forall row, TxRow.is_open row = true ->
     tx_coherent (f row) /\
     TxRow.job_id (f row) = TxRow.job_id row /\ TxRow.chain_id (f row) = TxRow.chain_id row /\
     TxRow.signer (f row) = TxRow.signer row /\ TxRow.nonce (f row) = TxRow.nonce row) ->
  keeps_slot (if_open f).
Proof.
  intros Hf row. unfold if_open. destruct (TxRow.is_open row) eqn:E; [|split_and!; auto; congruence].
  destruct (Hf row E) as (? & ? & ? & ? & ?). by split_and!; auto.
Qed.

Lemma lanes_attempt_insert id att now s s' :
  insert_attempt id att now s = Ok s' -> store_lanes_ok s -> store_lanes_ok s'.
Proof.
  intros (row & Ht & Hk & Hh & _ & ->)%insert_attempt_ok [Htx Hn Ho Ha Hu].
  apply lanes_alter; [apply keeps_slot_submitted|]. simpl. split; [|done|done| |].
  - intros k r Hr. destruct (Htx _ _ Hr) as (? & ? & ? & m & x & Hx). split_and!; [done..|]. exists m, x.
    rewrite lookup_insert_ne; [done|congruence].
  - intros k m x [[[= <- <-] <-]|[_ Hx]]%lookup_insert_Some; eauto.
  - intros k1 k2 a1 a2 [[<- <-]|[_ H1]]%lookup_insert_Some [[<- <-]|[_ H2]]%lookup_insert_Some E;
      [done| | |by eapply Hu]; exfalso; [by eapply Hh|by eapply Hh].
Qed.

Lemma lanes_begin id new now s s' :
  begin_transaction id new now s = Ok s' -> store_lanes_ok s -> store_lanes_ok s'.
Proof.
  intros (s1 & H1 & (s2 & H2 & [= <-])%rbind_ok)%rbind_ok Hok.
  unfold insert_transaction in H1.
  destruct (is_some (Exec.transactions s !! id)) eqn:Hid; [done|].
  destruct (is_some (Exec.jobs s !! _)) eqn:Hj; simpl in H1; [|done].
  destruct (as_i64 (NewTransaction.nonce new) <? 0) eqn:Hn; [done|].
  destruct (as_i64 (NewTransaction.gas_limit new) <=? 0); [done|].
  destruct (any_tx (same_nonce _ _ _) s) eqn:Hsn; [done|].
  destruct (any_tx (same_lane _ _) s) eqn:Hsl; [done|]. injection H1 as <-.
  apply insert_attempt_ok in H2 as (row & _ & _ & Hh & _ & ->). simpl in *.
  apply lanes_alter; [apply keeps_slot_submitted|]. simpl.
  eapply lanes_jobs; [|eapply lanes_insert; try exact Hok]; try done.
  - intros k [r Hr]. destruct (decide (NewTransaction.job_id new = k)) as [<-|].
    + rewrite lookup_alter_eq, Hr. eauto.
    + rewrite lookup_alter_ne by done. eauto.
  - by apply is_some_false.
  - simpl. by apply Z.ltb_ge.
  - simpl. by apply is_some_true.
  - intros k r Hr. by apply (existsb_none _ _ Hsn k r Hr).
  - intros k r Hr. by apply (existsb_none _ _ Hsl k r Hr).
Qed.

Lemma publish_event_ok hash j event now id s s' :
  publish_event hash j event now id s = Ok s' ->
  exists o bus, publish hash SIGNERS event (Job.correlation_id j) (Job.command_message_id j) id now (Exec.bus s)
                  = Ok (o, bus) /\ s' = {| s with Exec.bus := bus |}.
Proof.
  unfold publish_event. destruct (publish _ _ _ _ _ _ _ _) as [[o bus]|e]; [|done]. intros [= <-]. eauto.
Qed.

(** The row of a job that a conclusion closed. *)
Definition closed_row (state : JobState) (event : ExecutionEvent) (now : Timestamp) (row : JobRow.t) : JobRow.t :=
  {| row with JobRow.state := state; JobRow.resolved_at := Some now; JobRow.resolution := Some event |}.

(** A conclusion either finds the job resolved (or unknown) and changes
    nothing, or closes it and publishes. *)
Lemma conclude_tx_ok hash j state event now id s a s' :
  conclude_tx hash j state event now id s = Ok (a, s') ->
  (s' = s /\ forall row, Exec.jobs s !! Job.id j = Some row -> JobRow.resolved_at row <> None) \/
  exists row o bus, Exec.jobs s !! Job.id j = Some row /\ JobRow.resolved_at row = None /\
    JobState.is_open state = false /\
    publish hash SIGNERS event (Job.correlation_id j) (Job.command_message_id j) id now (Exec.bus s) = Ok (o, bus) /\
    s' = {| s with Exec.jobs := <[Job.id j := closed_row state event now row]> (Exec.jobs s); Exec.bus := bus |}.
Proof.
  unfold conclude_tx, resolve_job. destruct (Exec.jobs s !! Job.id j) as [row|] eqn:Hj; simpl.
  2: { intros [= _ <-]. by left. }
  destruct (JobRow.resolved_at row) as [at_|] eqn:Hr; simpl.
  { intros [= _ <-]. left. split; [done|]. intros row' [= <-]. by rewrite Hr. }
  destruct (JobState.is_open state) eqn:Ho; simpl; [done|].
  intros (s2 & (o & bus & Hp & ->)%publish_event_ok & [= _ <-])%rbind_ok. right.
  exists row, o, bus. done.
Qed.

Lemma conclude_tx_keeps hash j state event now id s a s' :
  conclude_tx hash j state event now id s = Ok (a, s') ->
  Exec.transactions s' = Exec.transactions s /\ Exec.attempts s' = Exec.attempts s /\
  (forall k, is_Some (Exec.jobs s !! k) -> is_Some (Exec.jobs s' !! k)).
Proof.
  intros [[-> _]|(row & o & bus & Hj & _ & _ & _ & ->)]%conclude_tx_ok; [done|]. simpl. split_and!; [done..|].
  intros k Hk. destruct (decide (Job.id j = k)) as [<-|]; [rewrite lookup_insert_eq; eauto|by rewrite lookup_insert_ne].
Qed.

Lemma update_tx_id id f s :
  (forall row, Exec.transactions s !! id = Some row -> f row = row) -> update_tx id f s = s.
Proof. intros Hf. unfold update_tx. rewrite alter_id by done. by destruct s. Qed.

Lemma resolve_transaction_ok id state now s s' :
  resolve_transaction id state now s = Ok s' ->
  s' = s \/ exists f, keeps_slot f /\ s' = update_tx id f s.
Proof.
  unfold resolve_transaction. destruct (Exec.transactions s !! id) as [row|] eqn:Hrow; [|intros [= <-]; by left].
  destruct (TxRow.is_open row) eqn:Hopen; simpl.
  - destruct (TxState.is_open state) eqn:Hst; [done|]. intros [= <-]. right. eexists. split; [|done].
    apply keeps_slot_if_open. intros r Hr. split_and!; try done.
    unfold tx_coherent. simpl. by rewrite Hst.
  - intros [= <-]. left. apply update_tx_id. intros r Hr. unfold if_open.
    rewrite Hrow in Hr. injection Hr as <-. by rewrite Hopen.
Qed.

Lemma resolve_transaction_keeps id state now s s' :
  resolve_transaction id state now s = Ok s' ->
  Exec.jobs s' = Exec.jobs s /\ Exec.bus s' = Exec.bus s /\
  (store_lanes_ok s -> store_lanes_ok s').
Proof.
  intros [->|(f & Hf & ->)]%resolve_transaction_ok; [done|]. split_and!; [done..|]. by apply lanes_alter.
Qed.

Lemma mark_broadcast_lanes id n now s : store_lanes_ok s -> store_lanes_ok (mark_broadcast id n now s).
Proof.
  intros Hok. unfold mark_broadcast. apply lanes_alter; [|by apply lanes_attempt_alter].
  intros row. split_and!; try done. unfold tx_coherent. simpl. case_bool_decide as Hp; [|done]. by rewrite Hp.
Qed.

Lemma handle_command_ok hash chains id now d s s' :
  handle_command hash chains id now d s = Ok s' ->
  (is_Some (Exec.jobs s !! Command.job_id (Delivery.message d)) /\ s' = s) \/
  (Exec.jobs s !! Command.job_id (Delivery.message d) = None /\
   (Command.chain_id (Delivery.message d) ∈ chains) /\
   s' = snd (insert_job (Delivery.message d) (Delivery.correlation_id d) (Delivery.message_id d) Queued None now s)) \/
  (Exec.jobs s !! Command.job_id (Delivery.message d) = None /\
   (Command.chain_id (Delivery.message d) ∉ chains) /\
   exists event o bus, Event.job_id event = Command.job_id (Delivery.message d) /\ conclusive event = true /\
     publish hash SIGNERS event (Delivery.correlation_id d) (Some (Delivery.message_id d)) id now (Exec.bus s)
       = Ok (o, bus) /\
     let s1 := snd (insert_job (Delivery.message d) (Delivery.correlation_id d) (Delivery.message_id d) JobRejected
                      (Some event) now s) in
     s' = {| s1 with Exec.bus := bus |}).
Proof.
  unfold handle_command, insert_job. destruct (Exec.jobs s !! _) as [row|] eqn:Hj; simpl.
  { intros [= <-]. left. eauto. }
  case_bool_decide as Hc; simpl.
  { intros [= <-]. right; left. done. }
  destruct (publish _ _ _ _ _ _ _ _) as [[o bus]|e] eqn:Hp; [|done]. intros [= <-].
  right; right. split_and!; [done..|]. eexists _, o, bus. split_and!; [| |exact Hp|]; done.
Qed.

(** *** What each transaction of the executor does *)

Lemma db_ok {A} (r : result DbError A) a : db r = Ok a -> r = Ok a.
Proof. destruct r; simpl; [by intros [= ->]|done]. Qed.

Lemma resolve_tx_ok hash t js ts event now id s a s' :
  resolve_tx hash t js ts event now id s = Ok (a, s') ->
  exists s1, resolve_transaction (OpenTransaction.id t) ts now s = Ok s1 /\
    conclude_tx hash (OpenTransaction.job t) js event now id s1 = Ok (a, s').
Proof. intros (s1 & H1%db_ok & H2)%rbind_ok. eauto. Qed.

Lemma stall_tx_ok hash config t now id s a s' :
  stall_tx hash config t now id s = Ok (a, s') ->
  exists o bus, publish hash SIGNERS (stall_event config t) (Job.correlation_id (OpenTransaction.job t))
      (Job.command_message_id (OpenTransaction.job t)) id now (Exec.bus s) = Ok (o, bus) /\
    s' = mark_stall_reported (OpenTransaction.id t) now {| s with Exec.bus := bus |}.
Proof. intros (s1 & (o & bus & Hp & ->)%publish_event_ok & [= _ <-])%rbind_ok. eauto. Qed.

Lemma broadcast_tx_ok hash config t att now id s a s' :
  broadcast_tx hash config t att now id s = Ok (a, s') ->
  let s1 := mark_broadcast (OpenTransaction.id t) (Attempt.replacement_number att) now s in
  s' = s1 \/
  exists event o bus, conclusive event = false /\
    publish hash SIGNERS event (Job.correlation_id (OpenTransaction.job t))
      (Job.command_message_id (OpenTransaction.job t)) id now (Exec.bus s) = Ok (o, bus) /\
    s' = {| s1 with Exec.bus := bus |}.
Proof.
  unfold broadcast_tx. destruct (Attempt.broadcast_at att); [intros [= _ <-]; by left|].
  destruct (submitted_event config t att) as [event|] eqn:He; [|intros [= _ <-]; by left].
  intros (s1 & (o & bus & Hp & ->)%publish_event_ok & [= _ <-])%rbind_ok. right.
  exists event, o, bus. split_and!; [|exact Hp|done].
  unfold submitted_event in He. destruct (Job.command _); [by injection He as <-|done].
Qed.

Lemma attempt_tx_ok t att now id s a s' :
  attempt_tx t att now id s = Ok (a, s') -> insert_attempt (OpenTransaction.id t) att now s = Ok s'.
Proof. by intros (s1 & H1%db_ok & [= _ <-])%rbind_ok. Qed.

Lemma begin_tx_ok new now id s a s' :
  begin_tx new now id s = Ok (a, s') -> begin_transaction id new now s = Ok s'.
Proof. by intros (s1 & H1%db_ok & [= _ <-])%rbind_ok. Qed.

Lemma begin_transaction_jobs id new now s s' :
  begin_transaction id new now s = Ok s' ->
  Exec.jobs s' = alter executing (NewTransaction.job_id new) (Exec.jobs s) /\ Exec.bus s' = Exec.bus s.
Proof.
  intros (s1 & H1 & (s2 & [E1 E2]%insert_attempt_keeps & [= <-])%rbind_ok)%rbind_ok. simpl. rewrite E1, E2.
  unfold insert_transaction in H1. repeat (case_match; [done|]). by injection H1 as <-.
Qed.

(** A deferred job was queued, and stays unresolved. *)
Lemma defer_tx_ok j next error now id s a s' :
  defer_tx j next error now id s = Ok (a, s') ->
  exists row row', Exec.jobs s !! Job.id j = Some row /\ JobRow.state row = Queued /\
    JobRow.state row' = Queued /\ JobRow.resolved_at row' = JobRow.resolved_at row /\
    JobRow.resolution row' = JobRow.resolution row /\
    s' = {| s with Exec.jobs := <[Job.id j := row']> (Exec.jobs s) |}.
Proof.
  intros ([n s1] & H1%db_ok & [= _ <-])%rbind_ok. unfold defer_job in H1.
  destruct (Exec.jobs s !! Job.id j) as [row|] eqn:Hj; [|done].
  case_bool_decide; [|done]. destruct (_ <=? _); [done|]. injection H1 as _ <-.
  eexists row, _. split_and!; [| | | | |reflexivity]; done.
Qed.

Lemma executor_status_ok chain state detail now s s' :
  upsert_executor_status chain state detail now s = Ok s' ->
  exists m, s' = {| s with Exec.executor_status := m |}.
Proof. unfold upsert_executor_status. case_bool_decide; [|done]. intros [= <-]. eauto. Qed.

Lemma signer_status_ok chain signer balance now s :
  exists m, upsert_signer_status chain signer balance now s = {| s with Exec.signer_status := m |}.
Proof. unfold upsert_signer_status. destruct balance as [[? ?]|]; eauto. Qed.

Lemma chain_control_ok control now s :
  exists m, apply_chain_control control now s = {| s with Exec.chain_halts := m |}.
Proof. destruct control; simpl; eauto. Qed.

(** *** One open slot per signer, whatever happens *)

Lemma lanes_job_insert id row s :
  store_lanes_ok s -> lanes_ok (<[id := row]> (Exec.jobs s)) (Exec.transactions s) (Exec.attempts s).
Proof.
  intros Hok. eapply lanes_jobs; [|exact Hok]. intros k Hk.
  destruct (decide (id = k)) as [<-|]; [rewrite lookup_insert_eq; eauto|by rewrite lookup_insert_ne].
Qed.

Lemma insert_job_lanes command corr mid state resolution now s :
  store_lanes_ok s -> store_lanes_ok (snd (insert_job command corr mid state resolution now s)).
Proof.
  intros Hok. unfold insert_job. destruct (is_some (Exec.jobs s !! _)); [done|]. simpl. by apply lanes_job_insert.
Qed.

Lemma exec_step_lanes hash config s s' :
  exec_step hash config s s' -> store_lanes_ok s -> store_lanes_ok s'.
Proof.
  intros [chains id now d s1 H|now d s1 H|bus' _|j state event now id a s1 _ _ H|t js ts event now id a s1 _ _ H
         |t now id a s1 H|t att now id a s1 H|t att now id a s1 H|new now id a s1 H|j next error now id a s1 H
         |id mined|id|chain signer balance now|chain state detail now s1 H] Hok.
  - apply handle_command_ok in H as [[_ ->]|[(_ & _ & ->)|(_ & _ & e & o & bus & _ & _ & _ & ->)]]; [done|..];
      by apply insert_job_lanes.
  - injection H as <-. by destruct (chain_control_ok (Delivery.message d) now s) as [m ->].
  - done.
  - apply conclude_tx_keeps in H as (-> & -> & Hj). by eapply lanes_jobs.
  - apply resolve_tx_ok in H as (s2 & (_ & _ & Hl)%resolve_transaction_keeps & (-> & -> & Hj)%conclude_tx_keeps).
    eapply lanes_jobs; eauto.
  - apply stall_tx_ok in H as (o & bus & _ & ->). by apply lanes_alter.
  - apply broadcast_tx_ok in H as [->|(e & o & bus & _ & _ & ->)]; by apply mark_broadcast_lanes.
  - apply attempt_tx_ok in H. by eapply lanes_attempt_insert.
  - apply begin_tx_ok in H. by eapply lanes_begin.
  - apply defer_tx_ok in H as (row & row' & _ & _ & _ & _ & _ & ->). simpl. by apply lanes_job_insert.
  - apply lanes_alter; [|done]. apply keeps_slot_if_open. intros row Ho%is_open_iff. by split_and!.
  - apply lanes_alter; [|done]. apply keeps_slot_if_open. intros row Ho%is_open_iff. by split_and!.
  - by destruct (signer_status_ok chain signer balance now s) as [m ->].
  - by apply executor_status_ok in H as [m ->].
Qed.

(** ** Conclusions on the bus *)

(** Message [mid] of the bus carries the event [e]. *)
Definition carries (bus : Bus.t) (mid : Uuid) (e : ExecutionEvent) : Prop :=
  exists m, Bus.messages bus !! mid = Some m /\ RawMessage.topic m = EXECUTION_EVENTS_TOPIC /\
    RawMessage.payload m = MEvent e /\ RawMessage.deduplication_key m = Event.deduplication_key e.

Definition job_coherent (bus : Bus.t) (id : Uuid) (row : JobRow.t) : Prop :=
  (JobRow.resolved_at row = None <-> JobState.is_open (JobRow.state row) = true) /\
  match JobRow.resolved_at row with
  | None => JobRow.resolution row = None
  | Some _ => exists e mid, JobRow.resolution row = Some e /\ Event.job_id e = id /\ conclusive e = true /\ carries bus mid e
  end.

Record told_ok (jobs : gmap Uuid JobRow.t) (bus : Bus.t) : Prop := {
  told_bus : bus_wf bus;
  told_events : forall mid m, Bus.messages bus !! mid = Some m -> RawMessage.topic m = EXECUTION_EVENTS_TOPIC ->
    exists e, carries bus mid e;
  told_jobs : forall id row, jobs !! id = Some row -> job_coherent bus id row;
  told_once : forall mid e, carries bus mid e -> conclusive e = true ->
    exists row, jobs !! Event.job_id e = Some row /\ JobRow.resolution row = Some e;
}.

Lemma carries_fun bus mid e1 e2 : carries bus mid e1 -> carries bus mid e2 -> e1 = e2.
Proof. intros (m1 & H1 & _ & P1 & _) (m2 & H2 & _ & P2 & _). congruence. Qed.

Lemma carries_mono bus bus' mid e :
  Bus.messages bus ⊆ Bus.messages bus' -> carries bus mid e -> carries bus' mid e.
Proof. intros Hsub (m & Hm & ?). exists m. split; [by eapply lookup_weaken|done]. Qed.

Lemma carries_key bus mid1 mid2 e :
  bus_wf bus -> carries bus mid1 e -> carries bus mid2 e -> mid1 = mid2.
Proof.
  intros Hwf (m1 & H1 & T1 & P1 & K1) (m2 & H2 & T2 & P2 & K2). eapply (wf_key _ Hwf); [done..| |]; congruence.
Qed.

Lemma job_coherent_mono bus bus' id row :
  Bus.messages bus ⊆ Bus.messages bus' -> job_coherent bus id row -> job_coherent bus' id row.
Proof.
  intros Hsub [Hs Hr]. split; [done|]. destruct (JobRow.resolved_at row); [|done].
  destruct Hr as (e & mid & ? & ? & ? & ?). exists e, mid. eauto using carries_mono.
Qed.

(** Publishing an event: on the bus afterwards, and the only new one. *)
Lemma publish_carries hash j_corr cause event id now bus o bus' :
  publish hash SIGNERS event j_corr cause id now bus = Ok (o, bus') -> bus_wf bus ->
  bus_wf bus' /\ Bus.messages bus ⊆ Bus.messages bus' /\
  ((exists mid m, bus' = bus /\ Bus.messages bus !! mid = Some m /\
      RawMessage.topic m = EXECUTION_EVENTS_TOPIC /\
      RawMessage.deduplication_key m = Event.deduplication_key event) \/
   (carries bus' id event /\ Bus.messages bus !! id = None /\
    forall mid, mid <> id -> Bus.messages bus' !! mid = Bus.messages bus !! mid)).
Proof.
  intros Hp Hwf. destruct (publish_wf _ _ _ _ _ _ _ _ _ _ Hp Hwf) as (? & ? & _). split_and!; [done..|].
  destruct (publish_published _ _ _ _ _ _ _ _ _ _ Hp) as [(k & m & -> & -> & ? & ? & ?)|(-> & Hid & _ & Hm & _)].
  - left. exists k, m. done.
  - right. split_and!; [|done|].
    + unfold carries. rewrite Hm. eexists. split; [apply lookup_insert_eq|done].
    + intros mid Hne. by rewrite Hm, lookup_insert_ne.
Qed.

Lemma carries_back bus bus' id event mid e :
  (forall k, k <> id -> Bus.messages bus' !! k = Bus.messages bus !! k) -> carries bus' id event ->
  carries bus' mid e -> (mid = id /\ e = event) \/ carries bus mid e.
Proof.
  intros Hother Hnew Hmid. destruct (decide (mid = id)) as [->|Hne].
  - left. split; [done|]. by eapply carries_fun.
  - right. destruct Hmid as (m & Hm & ?). rewrite Hother in Hm by done. by exists m.
Qed.

Lemma told_events_back jobs bus bus' id event :
  told_ok jobs bus -> (forall k, k <> id -> Bus.messages bus' !! k = Bus.messages bus !! k) ->
  Bus.messages bus ⊆ Bus.messages bus' -> carries bus' id event ->
  forall mid m, Bus.messages bus' !! mid = Some m -> RawMessage.topic m = EXECUTION_EVENTS_TOPIC ->
    exists e, carries bus' mid e.
Proof.
  intros Hok Hother Hsub Hc mid m Hm Ht. destruct (decide (mid = id)) as [->|Hne]; [eauto|].
  rewrite Hother in Hm by done. destruct (told_events _ _ Hok _ _ Hm Ht) as (e & He). eauto using carries_mono.
Qed.

(** A progress report leaves the conclusions alone. *)
Lemma told_report jobs hash corr cause event id now bus o bus' :
  conclusive event = false -> publish hash SIGNERS event corr cause id now bus = Ok (o, bus') ->
  told_ok jobs bus -> told_ok jobs bus'.
Proof.
  intros Hnc Hp Hok. destruct (publish_carries _ _ _ _ _ _ _ _ _ Hp (told_bus _ _ Hok)) as (Hwf & Hsub & [(mid & m & -> & _)|(Hc & Hid & Hother)]); [done|].
  split; [done|by eapply told_events_back| |].
  - intros k row Hk. eapply job_coherent_mono; [done|]. by apply (told_jobs _ _ Hok).
  - intros mid e Hm He. destruct (carries_back _ _ _ _ _ _ Hother Hc Hm) as [[-> ->]|Hm']; [congruence|].
    by eapply told_once.
Qed.

(** The first conclusion of a job: published, and recorded in its row. *)
Lemma told_conclusion jobs hash corr cause event id now bus o bus' row :
  conclusive event = true -> publish hash SIGNERS event corr cause id now bus = Ok (o, bus') ->
  (forall row0, jobs !! Event.job_id event = Some row0 -> JobRow.resolution row0 = None) ->
  JobRow.resolution row = Some event -> is_Some (JobRow.resolved_at row) -> JobState.is_open (JobRow.state row) = false ->
  told_ok jobs bus -> told_ok (<[Event.job_id event := row]> jobs) bus'.
Proof.
  intros Hcon Hp Hnone Hres [at_ Hat] Hst Hok.
  destruct (publish_carries _ _ _ _ _ _ _ _ _ Hp (told_bus _ _ Hok)) as (Hwf & Hsub & [(mid & m & -> & Hm & Ht & Hkey)|(Hc & Hid & Hother)]).
  { exfalso. destruct (told_events _ _ Hok _ _ Hm Ht) as (e & Hce).
    assert (Event.deduplication_key e = Event.deduplication_key event) as (Hj & Hk & _)%event_key_inj.
    { destruct Hce as (m' & Hm' & _ & _ & <-). congruence. }
    destruct (told_once _ _ Hok _ _ Hce) as (row0 & Hrow0 & Hr0); [by rewrite (conclusive_kind _ _ Hk)|].
    rewrite Hj in Hrow0. rewrite (Hnone _ Hrow0) in Hr0. done. }
  split; [done|by eapply told_events_back| |].
  - intros k r [[<- <-]|[Hne Hk]]%lookup_insert_Some.
    + split; [rewrite Hat, Hst; done|]. rewrite Hat. exists event, id. done.
    + eapply job_coherent_mono; [done|]. by apply (told_jobs _ _ Hok).
  - intros mid e Hm He. destruct (carries_back _ _ _ _ _ _ Hother Hc Hm) as [[-> ->]|Hm'].
    + exists row. by rewrite lookup_insert_eq.
    + destruct (told_once _ _ Hok _ _ Hm' He) as (r & Hr & Hre).
      destruct (decide (Event.job_id event = Event.job_id e)) as [Heq|Hne].
      * rewrite <- Heq in Hr. rewrite (Hnone _ Hr) in Hre. done.
      * exists r. by rewrite lookup_insert_ne.
Qed.

(** An unresolved job may be inserted or rewritten, as long as it stays so. *)
Lemma told_open_row jobs bus id row :
  (forall row0, jobs !! id = Some row0 -> JobRow.resolution row0 = None) ->
  JobRow.resolved_at row = None -> JobState.is_open (JobRow.state row) = true -> JobRow.resolution row = None ->
  told_ok jobs bus -> told_ok (<[id := row]> jobs) bus.
Proof.
  intros Hnone Hat Hst Hres Hok. split; [apply Hok|apply Hok| |].
  - intros k r [[<- <-]|[_ Hk]]%lookup_insert_Some; [|by apply (told_jobs _ _ Hok)].
    split; [by rewrite Hat, Hst|by rewrite Hat].
  - intros mid e Hm He. destruct (told_once _ _ Hok _ _ Hm He) as (r & Hr & Hre).
    destruct (decide (id = Event.job_id e)) as [->|Hne]; [|exists r; by rewrite lookup_insert_ne].
    rewrite (Hnone _ Hr) in Hre. done.
Qed.

Lemma unresolved_row jobs bus id row :
  told_ok jobs bus -> jobs !! id = Some row ->
  JobRow.resolved_at row = None <-> JobState.is_open (JobRow.state row) = true.
Proof. intros Hok Hrow. apply (told_jobs _ _ Hok _ _ Hrow). Qed.

Lemma unresolved_resolution jobs bus id row :
  told_ok jobs bus -> jobs !! id = Some row -> JobRow.resolved_at row = None -> JobRow.resolution row = None.
Proof. intros Hok Hrow Hat. destruct (told_jobs _ _ Hok _ _ Hrow) as [_ Hr]. by rewrite Hat in Hr. Qed.

Lemma told_conclude hash j state event now id s a s' :
  Event.job_id event = Job.id j -> conclusive event = true ->
  conclude_tx hash j state event now id s = Ok (a, s') ->
  told_ok (Exec.jobs s) (Exec.bus s) -> told_ok (Exec.jobs s') (Exec.bus s').
Proof.
  intros Hid Hcon [[-> _]|(row & o & bus & Hrow & Hat & Hst & Hp & ->)]%conclude_tx_ok Hok; [done|]. simpl.
  rewrite <- Hid. eapply told_conclusion; [done|exact Hp| |done|by eexists|done|done].
  rewrite Hid. intros row0 Hrow0. rewrite Hrow in Hrow0. injection Hrow0 as <-. by eapply unresolved_resolution.
Qed.

Lemma told_executing jobs bus id : told_ok jobs bus -> told_ok (alter executing id jobs) bus.
Proof.
  intros Hok. destruct (jobs !! id) as [row|] eqn:Hrow.
  2: { rewrite alter_id; [done|]. intros r Hr. congruence. }
  assert (alter executing id jobs = <[id := executing row]> jobs) as ->.
  { apply map_eq. intros k. destruct (decide (id = k)) as [<-|];
      [by rewrite lookup_alter_eq, lookup_insert_eq, Hrow|by rewrite lookup_alter_ne, lookup_insert_ne]. }
  unfold executing. case_bool_decide as Hq; [|by rewrite insert_id].
  assert (JobRow.resolved_at row = None) as Hat by (eapply unresolved_row; [done..|by rewrite Hq]).
  pose proof (unresolved_resolution _ _ _ _ Hok Hrow Hat) as Hres.
  apply told_open_row; try done. intros row0 Hr0. by simplify_eq.
Qed.

Lemma told_command hash chains id now d s s' :
  handle_command hash chains id now d s = Ok s' ->
  told_ok (Exec.jobs s) (Exec.bus s) -> told_ok (Exec.jobs s') (Exec.bus s').
Proof.
  intros [[_ ->]|[(Hj & _ & ->)|(Hj & _ & e & o & bus & He & Hc & Hp & ->)]]%handle_command_ok Hok; [done|..];
    unfold insert_job; rewrite Hj; simpl.
  - apply told_open_row; try done. intros row0 Hr0. congruence.
  - rewrite <- He. eapply told_conclusion; [done|exact Hp| |done|by eexists|done|done].
    rewrite He. intros row0 Hr0. congruence.
Qed.

Lemma told_foreign hash jobs bus bus' : foreign_step hash bus bus' -> told_ok jobs bus -> told_ok jobs bus'.
Proof.
  intros [Hstep Hback] Hok. destruct (bus_step_kept _ _ _ Hstep (told_bus _ _ Hok)) as (Hwf & Hsub & _).
  assert (forall mid e, carries bus' mid e -> carries bus mid e) as Hcb.
  { intros mid e (m & Hm & Ht & ?). exists m. auto. }
  split; [done| | |].
  - intros mid m Hm Ht. destruct (told_events _ _ Hok mid m) as (e & He); [by apply Hback|done|]. eauto using carries_mono.
  - intros k row Hk. eapply job_coherent_mono; [done|]. by apply (told_jobs _ _ Hok).
  - intros mid e Hm. eapply (told_once _ _ Hok). by apply Hcb.
Qed.

Lemma exec_step_told hash config s s' :
  exec_step hash config s s' -> told_ok (Exec.jobs s) (Exec.bus s) -> told_ok (Exec.jobs s') (Exec.bus s').
Proof.
  intros [chains id now d s1 H|now d s1 H|bus' Hb|j state event now id a s1 Hid Hc H|t js ts event now id a s1 Hid Hc H
         |t now id a s1 H|t att now id a s1 H|t att now id a s1 H|new now id a s1 H|j next error now id a s1 H
         |id mined|id|chain signer balance now|chain state detail now s1 H] Hok.
  - by eapply told_command.
  - injection H as <-. by destruct (chain_control_ok (Delivery.message d) now s) as [m ->].
  - simpl. by eapply told_foreign.
  - by eapply told_conclude.
  - apply resolve_tx_ok in H as (s2 & (Ej & Eb & _)%resolve_transaction_keeps & H).
    eapply told_conclude; [exact Hid|done|exact H|]. by rewrite Ej, Eb.
  - apply stall_tx_ok in H as (o & bus & Hp & ->). simpl. eapply told_report; [|exact Hp|done]; done.
  - apply broadcast_tx_ok in H as [->|(e & o & bus & Hn & Hp & ->)]; [done|]. simpl. eapply told_report; [|exact Hp|done]; done.
  - apply attempt_tx_ok, insert_attempt_keeps in H as [-> ->]. done.
  - apply begin_tx_ok, begin_transaction_jobs in H as [-> ->]. by apply told_executing.
  - apply defer_tx_ok in H as (row & row' & Hrow & Hq & Hq' & Hat & Hres & ->). simpl.
    assert (JobRow.resolved_at row = None) as Hn by (eapply unresolved_row; [done..|by rewrite Hq]).
    pose proof (unresolved_resolution _ _ _ _ Hok Hrow Hn) as Hr.
    apply told_open_row; [|congruence|by rewrite Hq'|congruence|done]. intros row0 Hr0. by simplify_eq.
  - done.
  - done.
  - by destruct (signer_status_ok chain signer balance now s) as [m ->].
  - by apply executor_status_ok in H as [m ->].
Qed.
