(* ===== verification/ExecutionTheorems.v ===== *)
(** * The signers' store: its promises

    What holds of the execution schema after any sequence of committed
    transactions ([exec_step]): one open slot per signer and a nonce spent
    once, one conclusion per job, commands accepted once, halts that do not
    depend on the order of their notices. *)

From S2P Require Import Prelude Core Contracts Backoff Bus Tables Registry Effects Chain Evidence.
From S2P Require Import Execution Executor ExecutionInv.

Implicit Types (s : Exec.t) (now : Timestamp).

Lemma lanes_empty : store_lanes_ok Exec.empty.
Proof. split; simpl; intros *; rewrite lookup_empty; done. Qed.

Lemma told_empty : told_ok (Exec.jobs Exec.empty) (Exec.bus Exec.empty).
Proof.
  split; simpl; [apply bus_wf_empty| | |].
  - intros mid m. by rewrite lookup_empty.
  - intros id row. by rewrite lookup_empty.
  - intros mid e (m & Hm & _). simpl in Hm. by rewrite lookup_empty in Hm.
Qed.

Section Reachable.
Context (payload_hash : Message -> B256) (config : ChainConfig.t).

Abbreviation run := (rtc (exec_step payload_hash config)).

Lemma run_lanes s s' : run s s' -> store_lanes_ok s -> store_lanes_ok s'.
Proof. induction 1; eauto using exec_step_lanes. Qed.

Lemma run_told s s' : run s s' -> told_ok (Exec.jobs s) (Exec.bus s) -> told_ok (Exec.jobs s') (Exec.bus s').
Proof. induction 1; eauto using exec_step_told. Qed.

(** ** Views *)

Lemma select_in `{Countable K} {V} (p : K * V -> bool) key (m : gmap K V) kv :
  kv ∈ select p key m <-> p kv = true /\ m !! fst kv = Some (snd kv).
Proof.
  unfold select. rewrite sorting.merge_sort_Permutation, list_elem_of_In, List.filter_In, <- list_elem_of_In.
  destruct kv as [k v]. rewrite elem_of_map_to_list. naive_solver.
Qed.

Lemma collect_ok {E A B} (f : A -> result E B) l bs :
  collect f l = Ok bs -> forall b, b ∈ bs -> exists x, x ∈ l /\ f x = Ok b.
Proof.
  revert bs. induction l as [|x l IH]; intros bs; simpl.
  - intros [= <-] b []%not_elem_of_nil.
  - intros (b0 & Hf & (bs' & Hc & [= <-])%rbind_ok)%rbind_ok b [->|Hb]%elem_of_cons.
    + exists x. split; [by left|done].
    + destruct (IH _ Hc _ Hb) as (y & ? & ?). exists y. split; [by right|done].
Qed.

Lemma attempts_nonempty id s n a : Exec.attempts s !! (id, n) = Some a -> attempts id s <> [].
Proof.
  intros Ha Hnil. apply fmap_nil_inv in Hnil.
  assert (((id, n), a) ∈ select (fun '((id', _), _) => id' =? id) (fun '((_, number), _) => number) (Exec.attempts s)) as Hin.
  { apply select_in. split; [apply Z.eqb_refl|done]. }
  rewrite Hnil in Hin. by apply not_elem_of_nil in Hin.
Qed.

(** C24. Whatever handlers, passes and other processes do, in any order, a
    signer never has two open slots on a chain and never spends a nonce
    twice; and every open slot the executor loads carries a signed attempt,
    so taking its newest one cannot panic. *)
Theorem one_open_slot_per_signer s :
  run Exec.empty s ->
  (forall id1 id2 r1 r2, Exec.transactions s !! id1 = Some r1 -> Exec.transactions s !! id2 = Some r2 ->
     TxRow.chain_id r1 = TxRow.chain_id r2 -> TxRow.signer r1 = TxRow.signer r2 ->
     (TxRow.is_open r1 = true /\ TxRow.is_open r2 = true) \/ TxRow.nonce r1 = TxRow.nonce r2 -> id1 = id2) /\
  (forall chain open, open_transactions chain s = Ok open ->
     forall t, t ∈ open -> is_Some (OpenTransaction.newest_attempt t)).
Proof.
  intros Hrun. pose proof (run_lanes _ _ Hrun lanes_empty) as Hok. split.
  - intros id1 id2 r1 r2 H1 H2 E1 E2 [[O1 O2]|E3]; [by eapply (lanes_open _ _ _ Hok)|by eapply (lanes_nonce _ _ _ Hok)].
  - intros chain open (rows & Hc & [= <-])%rbind_ok t Ht.
    apply list_elem_of_omap in Ht as (o & Ho & Hid). simpl in Hid. subst o.
    destruct (collect_ok _ _ _ Hc _ Ho) as ([id row] & [_ Hrow]%select_in & Hopen). simpl in Hrow.
    unfold open_transaction in Hopen. destruct (Exec.jobs s !! _) as [jrow|]; [|done].
    apply rbind_ok in Hopen as (j & _ & (m & _ & (n & _ & (g & _ & [= <-])%rbind_ok)%rbind_ok)%rbind_ok).
    destruct (lanes_tx _ _ _ Hok _ _ Hrow) as (_ & _ & _ & k & a & Ha).
    unfold OpenTransaction.newest_attempt. simpl. apply last_is_Some. by eapply attempts_nonempty.
Qed.

(** ** Conclusions *)

Lemma executing_resolved row : JobState.is_open (JobRow.state row) = false -> executing row = row.
Proof. unfold executing. by destruct (JobRow.state row). Qed.

Lemma conclude_frozen hash j state event now id s a s' k row :
  conclude_tx hash j state event now id s = Ok (a, s') ->
  Exec.jobs s !! k = Some row -> is_Some (JobRow.resolved_at row) -> Exec.jobs s' !! k = Some row.
Proof.
  intros [[-> _]|(r & o & bus & Hr & Hat & _ & _ & ->)]%conclude_tx_ok Hk [at_ Hres]; [done|]. simpl.
  rewrite lookup_insert_ne; [done|]. intros <-. simplify_eq.
Qed.

Lemma command_frozen hash chains id now d s s' k row :
  handle_command hash chains id now d s = Ok s' -> Exec.jobs s !! k = Some row -> Exec.jobs s' !! k = Some row.
Proof.
  intros [[_ ->]|[(Hj & _ & ->)|(Hj & _ & e & o & bus & He & Hc & Hp & ->)]]%handle_command_ok Hk; [done|..];
    unfold insert_job; rewrite Hj; simpl; (rewrite lookup_insert_ne; [done|congruence]).
Qed.

Lemma exec_step_frozen s s' id row :
  exec_step payload_hash config s s' -> told_ok (Exec.jobs s) (Exec.bus s) ->
  Exec.jobs s !! id = Some row -> is_Some (JobRow.resolved_at row) -> Exec.jobs s' !! id = Some row.
Proof.
  intros Hstep Hok Hk Hres.
  assert (JobState.is_open (JobRow.state row) = false) as Hclosed.
  { apply not_true_iff_false. rewrite <- (unresolved_row _ _ _ _ Hok Hk). destruct Hres as [? ->]. done. }
  destruct Hstep as [chains mid now d s1 H|now d s1 H|bus' Hb|j state event now mid a s1 _ _ H|t js ts event now mid a s1 _ _ H
         |t now mid a s1 H|t att now mid a s1 H|t att now mid a s1 H|new now mid a s1 H|j next error now mid a s1 H
         |tid mined|tid|chain signer balance now|chain state detail now s1 H]; try done.
  - by eapply command_frozen.
  - injection H as <-. by destruct (chain_control_ok (Delivery.message d) now s) as [m ->].
  - by eapply conclude_frozen.
  - apply resolve_tx_ok in H as (s2 & (Ej & _)%resolve_transaction_keeps & H).
    eapply conclude_frozen; [exact H| |done]. by rewrite Ej.
  - by apply stall_tx_ok in H as (o & bus & _ & ->).
  - by apply broadcast_tx_ok in H as [->|(e & o & bus & _ & _ & ->)].
  - by apply attempt_tx_ok, insert_attempt_keeps in H as [-> _].
  - apply begin_tx_ok, begin_transaction_jobs in H as [-> _].
    destruct (decide (NewTransaction.job_id new = id)) as [<-|]; [|by rewrite lookup_alter_ne].
    by rewrite lookup_alter_eq, Hk; simpl; rewrite executing_resolved.
  - apply defer_tx_ok in H as (r & r' & Hr & Hq & _ & _ & _ & ->). simpl.
    rewrite lookup_insert_ne; [done|]. intros <-. simplify_eq. rewrite Hq in Hclosed. done.
  - by destruct (signer_status_ok chain signer balance now s) as [m ->].
  - by apply executor_status_ok in H as [m ->].
Qed.

Lemma run_frozen s s' id row :
  run s s' -> told_ok (Exec.jobs s) (Exec.bus s) ->
  Exec.jobs s !! id = Some row -> is_Some (JobRow.resolved_at row) -> Exec.jobs s' !! id = Some row.
Proof. induction 1; eauto using exec_step_frozen, exec_step_told. Qed.

Lemma publish_messages hash (event : ExecutionEvent) corr cause id now bus o bus' :
  publish hash SIGNERS event corr cause id now bus = Ok (o, bus') -> bus_wf bus ->
  Bus.messages bus ⊆ Bus.messages bus'.
Proof. intros Hp Hwf. by destruct (publish_wf _ _ _ _ _ _ _ _ _ _ Hp Hwf) as (_ & ? & _). Qed.

Lemma conclude_messages hash j state event now id s a s' :
  conclude_tx hash j state event now id s = Ok (a, s') -> bus_wf (Exec.bus s) ->
  Bus.messages (Exec.bus s) ⊆ Bus.messages (Exec.bus s').
Proof.
  intros [[-> _]|(r & o & bus & _ & _ & _ & Hp & ->)]%conclude_tx_ok Hwf; [done|]. eapply publish_messages; [exact Hp|done].
Qed.

Lemma exec_step_messages s s' :
  exec_step payload_hash config s s' -> bus_wf (Exec.bus s) ->
  Bus.messages (Exec.bus s) ⊆ Bus.messages (Exec.bus s').
Proof.
  intros [chains mid now d s1 H|now d s1 H|bus' [Hb _]|j state event now mid a s1 _ _ H|t js ts event now mid a s1 _ _ H
         |t now mid a s1 H|t att now mid a s1 H|t att now mid a s1 H|new now mid a s1 H|j next error now mid a s1 H
         |tid mined|tid|chain signer balance now|chain state detail now s1 H] Hwf; try done.
  - apply handle_command_ok in H as [[_ ->]|[(Hj & _ & ->)|(Hj & _ & e & o & bus & He & Hc & Hp & ->)]]; [done|..].
    + unfold insert_job. by rewrite Hj.
    + eapply publish_messages; [exact Hp|done].
  - injection H as <-. by destruct (chain_control_ok (Delivery.message d) now s) as [m ->].
  - by destruct (bus_step_kept _ _ _ Hb Hwf) as (_ & ? & _).
  - by eapply conclude_messages.
  - apply resolve_tx_ok in H as (s2 & (_ & Eb & _)%resolve_transaction_keeps & H).
    rewrite <- Eb. eapply conclude_messages; [exact H|]. by rewrite Eb.
  - apply stall_tx_ok in H as (o & bus & Hp & ->). eapply publish_messages; [exact Hp|done].
  - apply broadcast_tx_ok in H as [->|(e & o & bus & _ & Hp & ->)]; [done|]. eapply publish_messages; [exact Hp|done].
  - by apply attempt_tx_ok, insert_attempt_keeps in H as [_ ->].
  - by apply begin_tx_ok, begin_transaction_jobs in H as [_ ->].
  - by apply defer_tx_ok in H as (r & r' & _ & _ & _ & _ & _ & ->).
  - by destruct (signer_status_ok chain signer balance now s) as [m ->].
  - by apply executor_status_ok in H as [m ->].
Qed.

Lemma run_messages s s' :
  run s s' -> told_ok (Exec.jobs s) (Exec.bus s) -> Bus.messages (Exec.bus s) ⊆ Bus.messages (Exec.bus s').
Proof.
  induction 1 as [|s1 s2 s3 Hs Hr IH]; intros Hok; [done|].
  etrans; [eapply exec_step_messages; [done|apply Hok]|]. apply IH. by eapply exec_step_told.
Qed.

(** C12. Every job the signers accepted is concluded to the server exactly
    once: while it is open no concluding event about it is on the bus, and
    once it is resolved exactly one message is, carrying the event recorded
    in its row, which no later transaction changes. *)
Theorem job_concluded_once s s' id row :
  run Exec.empty s -> run s s' -> Exec.jobs s !! id = Some row ->
  match JobRow.resolved_at row with
  | None => forall mid e, carries (Exec.bus s) mid e -> conclusive e = true -> Event.job_id e <> id
  | Some _ => exists e mid, JobRow.resolution row = Some e /\ Event.job_id e = id /\ carries (Exec.bus s) mid e /\
      Exec.jobs s' !! id = Some row /\
      forall mid' e', carries (Exec.bus s') mid' e' -> conclusive e' = true -> Event.job_id e' = id ->
        mid' = mid /\ e' = e
  end.
Proof.
  intros Hrun Hrun' Hrow. pose proof (run_told _ _ Hrun told_empty) as Hok.
  destruct (told_jobs _ _ Hok _ _ Hrow) as [_ Hr]. destruct (JobRow.resolved_at row) as [at_|] eqn:Hat.
  - destruct Hr as (e & mid & Hres & Hid & Hcon & Hc).
    pose proof (run_frozen _ _ _ _ Hrun' Hok Hrow ltac:(by rewrite Hat; eauto)) as Hrow'.
    pose proof (run_told _ _ Hrun' Hok) as Hok'.
    exists e, mid. split_and!; try done. intros mid' e' Hc' Hcon' Hid'.
    destruct (told_once _ _ Hok' _ _ Hc' Hcon') as (r & Hr & Hre). rewrite Hid' in Hr.
    assert (e' = e) as -> by congruence. split; [|done].
    eapply carries_key; [apply Hok'|done|]. eapply carries_mono; [|done]. by eapply run_messages.
  - intros mid e Hc Hcon <-. destruct (told_once _ _ Hok _ _ Hc Hcon) as (r & Hr' & Hre). congruence.
Qed.

(** ** Commands *)

(** A command is accepted once: delivering it again, at any later time
    and under any delivery, leaves the store as it is; the first delivery
    queues a job that holds the command, or, for a chain the process does not
    serve, records the job as rejected and tells the server in the same
    transaction. *)
Theorem command_accepted_once chains id now d s s' :
  handle_command payload_hash chains id now d s = Ok s' ->
  (forall chains' id' now' d', Delivery.message d' = Delivery.message d ->
     handle_command payload_hash chains' id' now' d' s' = Ok s') /\
  (Exec.jobs s !! Command.job_id (Delivery.message d) = None -> bus_wf (Exec.bus s) ->
   exists row, Exec.jobs s' = <[Command.job_id (Delivery.message d) := row]> (Exec.jobs s) /\
     JobRow.command row = Delivery.message d /\ JobRow.correlation_id row = Delivery.correlation_id d /\
     if bool_decide (Command.chain_id (Delivery.message d) ∈ chains)
     then JobRow.state row = Queued /\ JobRow.resolved_at row = None /\ Exec.bus s' = Exec.bus s
     else JobRow.state row = JobRejected /\ exists e, JobRow.resolution row = Some e /\
       exists mid m, Bus.messages (Exec.bus s') !! mid = Some m /\
         RawMessage.deduplication_key m = Event.deduplication_key e).
Proof.
  intros H. split.
  - assert (is_Some (Exec.jobs s' !! Command.job_id (Delivery.message d))) as Hj.
    { apply handle_command_ok in H as [[? ->]|[(Hj & _ & ->)|(Hj & _ & e & o & bus & _ & _ & _ & ->)]]; [done|..];
        unfold insert_job; rewrite Hj; simpl; rewrite lookup_insert_eq; eauto. }
    intros chains' id' now' d' Hd. unfold handle_command, insert_job. rewrite Hd. by destruct Hj as [row ->].
  - intros Hnone Hwf.
    apply handle_command_ok in H as [[[? ?] _]|[(Hj & Hc & ->)|(Hj & Hc & e & o & bus & He & _ & Hp & ->)]]; [congruence|..];
      unfold insert_job; rewrite Hj; simpl; eexists; (split; [reflexivity|]); split_and!; try done.
    + by rewrite bool_decide_eq_true_2.
    + rewrite bool_decide_eq_false_2 by done. split; [done|]. exists e. split; [done|].
      destruct (publish_carries _ _ _ _ _ _ _ _ _ Hp Hwf) as (_ & _ & [(mid & m & -> & Hm & _ & Hk)|((m & Hm & _ & _ & Hk) & _)]); eauto.
Qed.

End Reachable.

(** ** Halts *)

Definition fault_of (c : ChainControl) : Uuid := match c with Halted f _ _ | Resumed f _ => f end.
Definition chain_of (c : ChainControl) : Z := match c with Halted _ c _ | Resumed _ c => c end.

(** The notices in the order they were handled, each at its time. *)
Definition apply_notices (notices : list (ChainControl * Timestamp)) (s : Exec.t) : Exec.t :=
  foldl (fun s '(control, now) => apply_chain_control control now s) s notices.

Definition halted_in (notices : list (ChainControl * Timestamp)) (f : Uuid) : Prop :=
  exists now chain reason, (Halted f chain reason, now) ∈ notices.
Definition resumed_in (notices : list (ChainControl * Timestamp)) (f : Uuid) : Prop :=
  exists now chain, (Resumed f chain, now) ∈ notices.

Definition halt_summary (notices : list (ChainControl * Timestamp)) (f : Uuid) (o : option HaltRow.t) : Prop :=
  match o with
  | None => forall c now, (c, now) ∈ notices -> fault_of c <> f
  | Some row =>
      (exists c now, (c, now) ∈ notices /\ fault_of c = f /\ HaltRow.chain_id row = as_i64 (chain_of c)) /\
      (is_some (HaltRow.halted_at row) = true <-> halted_in notices f) /\
      (is_some (HaltRow.resumed_at row) = true <-> resumed_in notices f)
  end.

Lemma is_some_coalesce {A} (o : option A) x : is_some (coalesce o (Some x)) = true.
Proof. by destruct o. Qed.

Lemma halted_in_snoc notices c now f :
  halted_in (notices ++ [(c, now)]) f <-> halted_in notices f \/ exists chain reason, c = Halted f chain reason.
Proof. unfold halted_in. setoid_rewrite elem_of_app. setoid_rewrite list_elem_of_singleton. naive_solver. Qed.

Lemma resumed_in_snoc notices c now f :
  resumed_in (notices ++ [(c, now)]) f <-> resumed_in notices f \/ exists chain, c = Resumed f chain.
Proof. unfold resumed_in. setoid_rewrite elem_of_app. setoid_rewrite list_elem_of_singleton. naive_solver. Qed.

Lemma halt_summary_other notices c now f o :
  fault_of c <> f -> halt_summary notices f o -> halt_summary (notices ++ [(c, now)]) f o.
Proof.
  intros Hne. destruct o as [row|]; simpl.
  - rewrite halted_in_snoc, resumed_in_snoc. intros ((c0 & n0 & Hin & ?) & -> & ->). split_and!.
    + exists c0, n0. split; [apply elem_of_app; by left|done].
    + split; [by left|]. intros [?|(? & ? & ->)]; done.
    + split; [by left|]. intros [?|(? & ->)]; done.
  - intros Ho c0 n0 [?|[= -> ->]%list_elem_of_singleton]%elem_of_app; eauto.
Qed.

Lemma notices_summary notices f :
  halt_summary notices f (Exec.chain_halts (apply_notices notices Exec.empty) !! f).
Proof.
  induction notices as [|[c now] notices IH] using rev_ind.
  { simpl. rewrite lookup_empty. intros c now []%not_elem_of_nil. }
  unfold apply_notices. rewrite foldl_snoc. fold (apply_notices notices Exec.empty).
  set (s := apply_notices notices Exec.empty) in *.
  destruct (decide (fault_of c = f)) as [Hf|Hne].
  2: { assert (Exec.chain_halts (apply_chain_control c now s) !! f = Exec.chain_halts s !! f) as ->
         by (destruct c; simpl in *; by rewrite lookup_insert_ne).
       by apply halt_summary_other. }
  destruct c as [f' chain reason|f' chain]; simpl in Hf; subst f'; simpl; rewrite lookup_insert_eq;
    unfold halt_summary; rewrite halted_in_snoc, resumed_in_snoc;
    destruct (Exec.chain_halts s !! f) as [row|]; simpl in *; rewrite ?is_some_coalesce.
  - destruct IH as (_ & Hh & Hr). split_and!; [eexists _, now; split; [apply elem_of_app; right; by left|done]|naive_solver..].
  - split_and!; [eexists _, now; split; [apply elem_of_app; right; by left|done]|naive_solver|].
    split; [done|]. intros [(n & ch & Hin)|(? & [=])]. by destruct (IH _ _ Hin).
  - destruct IH as ((c0 & n0 & Hin & ? & ?) & Hh & Hr).
    split_and!; [exists c0, n0; split; [apply elem_of_app; by left|done]|naive_solver..].
  - split_and!; [eexists _, now; split; [apply elem_of_app; right; by left|done]| |naive_solver].
    split; [done|]. intros [(n & ch & r & Hin)|(? & ? & [=])]. by destruct (IH _ _ Hin).
Qed.

(** Whether a chain is halted depends only on which notices arrived, not
    on their order, their times or how often each was delivered: it is halted
    exactly when some fault of the chain was announced and not resumed, so a
    halt that arrives after its own resume never stops the chain. *)
Theorem halts_follow_notices notices chain :
  (forall c1 c2 n1 n2, (c1, n1) ∈ notices -> (c2, n2) ∈ notices -> fault_of c1 = fault_of c2 -> chain_of c1 = chain_of c2) ->
  is_halted chain (apply_notices notices Exec.empty) = true <->
  exists f now chain' reason, (Halted f chain' reason, now) ∈ notices /\ as_i64 chain' = as_i64 chain /\
    ~ resumed_in notices f.
Proof.
  intros Hsame. unfold is_halted. rewrite List.existsb_exists. split.
  - intros ([f row] & Hin & Ho). apply list_elem_of_In, elem_of_map_to_list in Hin.
    pose proof (notices_summary notices f) as Hs. rewrite Hin in Hs. destruct Hs as ((c & n & Hc & Hf & Hch) & Hh & Hr).
    unfold halt_open in Ho. simpl in Ho. bools.
    destruct (proj1 Hh) as (now & ch & reason & Hn); [done|].
    exists f, now, ch, reason. split_and!; [done| |].
    + specialize (Hsame _ _ _ _ Hn Hc (eq_sym Hf)). simpl in Hsame. congruence.
    + rewrite <- Hr. congruence.
  - intros (f & now & ch & reason & Hn & Hch & Hnr). pose proof (notices_summary notices f) as Hs.
    destruct (Exec.chain_halts _ !! f) as [row|] eqn:Hrow.
    2: { by destruct (Hs _ _ Hn). }
    exists (f, row). split; [by apply list_elem_of_In, elem_of_map_to_list|].
    destruct Hs as ((c & n & Hc & Hf & Hrc) & Hh & Hr). unfold halt_open. simpl.
    rewrite !andb_true_iff, Z.eqb_eq, negb_true_iff, Hrc. split_and!.
    + specialize (Hsame _ _ _ _ Hc Hn Hf). simpl in Hsame. congruence.
    + apply Hh. by exists now, ch, reason.
    + apply not_true_iff_false. by rewrite Hr.
Qed.
