(* ===== verification/ExecutorTheorems.v ===== *)
(** * What the executor does to the store

    Between the transactions of a pass the store's other users commit theirs.
    [pass_refines_store] says, guard by guard, what a pass may do in between:
    which slots it touches and on what evidence, and which jobs it starts, on
    which signer and nonce; each of those is a transaction of [exec_step], so what
    is proved of these holds while passes, handlers and other processes
    interleave ([runs_pass]).  A job is concluded only on final, canonical evidence
    ([reconcile_concludes_on_evidence]), a pass always ends, and a transaction is
    replaced only with fees a node accepts. *)

From S2P Require Import Prelude Core Contracts Backoff Bus Tables Registry Effects Chain Evidence.
From S2P Require Import Execution Executor ExecutionInv ExecutionTheorems.

(** Walk through a computation: binds, branches, and the primitive steps
    that [prim] knows. *)
Ltac walk_with prim :=
  repeat first
    [ simple apply moves_ret; apply _ | simple apply moves_throw; apply _ | simple apply moves_get; apply _
    | prim ()
    | simple apply moves_bind; [apply _| |intros] | simple apply moves_attempt
    | simple apply moves_find_first; [apply _|intros] | simple apply moves_traverse; [apply _|intros]
    | case_match ].

(** ** What a lookup, a read and a transaction leave behind *)

Section Reading.
Context (env : Env.t).

#[local] Abbreviation chain := (Env.chain env).
#[local] Abbreviation config := (Env.config env).

Lemma ask_ok {A} (c : rpc A) w a w' :
  ask c w = (Ok a, w') -> exists n, c (World.tick w) = (Ok a, n) /\ w' = {| w with World.tick := n |}.
Proof. unfold ask. destruct (c (World.tick w)) as [[x|e] n]; [|done]. intros [= -> <-]. eauto. Qed.

Lemma ask_call_ok {A} (f : nat -> result ChainError A) w a w' :
  ask (call f) w = (Ok a, w') -> f (World.tick w) = Ok a /\ w' = {| w with World.tick := S (World.tick w) |}.
Proof. intros (n & Hc & ->)%ask_ok. unfold call in Hc. by injection Hc as -> <-. Qed.

Lemma ask_store {A} (c : rpc A) w : World.store (snd (ask c w)) = World.store w.
Proof. unfold ask. by destruct (c (World.tick w)). Qed.

Lemma commit_ok {A} (f : Timestamp -> Uuid -> Exec.t -> result ExecutorError (A * Exec.t)) w a w' :
  commit env f w = (Ok a, w') ->
  f (Env.clock env (World.tick w)) (Env.fresh env (World.tick w)) (Env.others env (World.tick w) (World.store w)) =
    Ok (a, World.store w') /\ World.tick w' = S (World.tick w).
Proof. unfold commit. destruct (f _ _ _) as [[x s]|e] eqn:Hf; [|done]. by intros [= -> <-]. Qed.

(** The node answered that it has this receipt, or none, at step [n]. *)
Definition receipt_at (t : OpenTransaction.t) (tx_hash : B256) (r : Receipt) (n : nat) : Prop :=
  match Job.command (OpenTransaction.job t), r with
  | SweepBatch _, SweepR receipt =>
      Node.sweep_receipt chain n tx_hash (ChainConfig.batch_sweeper config) = Ok (Some receipt)
  | WithdrawalStep _, StepR outcome => Node.transaction_receipt chain n tx_hash = Ok (Some outcome)
  | _, _ => False
  end.

Definition no_receipt_at (t : OpenTransaction.t) (tx_hash : B256) (n : nat) : Prop :=
  match Job.command (OpenTransaction.job t) with
  | SweepBatch _ => Node.sweep_receipt chain n tx_hash (ChainConfig.batch_sweeper config) = Ok None
  | WithdrawalStep _ => Node.transaction_receipt chain n tx_hash = Ok None
  end.

Definition signed (t : OpenTransaction.t) (tx_hash : B256) : Prop :=
  exists a, a ∈ OpenTransaction.attempts t /\ Attempt.tx_hash a = tx_hash.

Lemma receipt_ok t tx_hash w o w' :
  receipt env t tx_hash w = (Ok o, w') ->
  w' = {| w with World.tick := S (World.tick w) |} /\
  match o with Some r => receipt_at t tx_hash r (World.tick w) | None => no_receipt_at t tx_hash (World.tick w) end.
Proof.
  unfold receipt, receipt_at, no_receipt_at. destruct (Job.command _);
    intros (r & w1 & [Hc ->]%ask_call_ok & [= <- <-])%bind_ok; (split; [done|]); by destruct r.
Qed.

Lemma receipt_store t tx_hash w : World.store (snd (receipt env t tx_hash w)) = World.store w.
Proof.
  unfold receipt. destruct (Job.command _); unfold bind;
    match goal with |- context [ask ?c ?w] => pose proof (ask_store c w) as E; destruct (ask c w) as [[r|e] w1] end; done.
Qed.

(** A lookup looks at every attempt, from the step it begins at. *)
Lemma lookup_ok t l w o w' :
  find_first (fun a => let* r := receipt env t (Attempt.tx_hash a) in ret ((fun r => (Attempt.tx_hash a, r)) <$> r)) l w = (Ok o, w') ->
  World.store w' = World.store w /\ (World.tick w <= World.tick w')%nat /\
  match o with
  | Some (tx_hash, r) => exists a n, a ∈ l /\ Attempt.tx_hash a = tx_hash /\ (World.tick w <= n < World.tick w')%nat /\ receipt_at t tx_hash r n
  | None => forall a, a ∈ l -> exists n, (World.tick w <= n)%nat /\ no_receipt_at t (Attempt.tx_hash a) n
  end.
Proof.
  revert w. induction l as [|a l IH]; intros w; cbn [find_first].
  { intros [= <- <-]. split_and!; [done..|]. by intros a ?%not_elem_of_nil. }
  intros (o1 & w1 & (r & w2 & [-> Hr]%receipt_ok & [= <- <-])%bind_ok & Hk)%bind_ok. destruct r as [r|]; cbn in Hk.
  - injection Hk as <- <-. cbn. split_and!; [done|lia|]. exists a, (World.tick w). split_and!; [by left|done|lia|lia|done].
  - apply IH in Hk as (Hs & Ht & Hk). cbn in Hs, Ht, Hk. split_and!; [done|lia|]. destruct o as [[h r]|].
    + destruct Hk as (b & n & Hb & Hh & Hn & Hat). exists b, n. split_and!; [by right|done|lia|lia|done].
    + intros b [->|Hb]%elem_of_cons; [by exists (World.tick w)|]. destruct (Hk b Hb) as (n & Hn & Hno). exists n. split; [lia|done].
Qed.

Lemma find_receipt_ok t w o w' :
  find_receipt env t w = (Ok o, w') ->
  World.store w' = World.store w /\ (World.tick w <= World.tick w')%nat /\
  match o with
  | Some (tx_hash, r) => signed t tx_hash /\ exists n, (n < World.tick w')%nat /\ receipt_at t tx_hash r n
  | None => forall a, a ∈ OpenTransaction.attempts t -> exists n, (World.tick w <= n)%nat /\ no_receipt_at t (Attempt.tx_hash a) n
  end.
Proof.
  intros (Hs & Ht & H)%lookup_ok. split_and!; [done..|]. destruct o as [[h r]|].
  - destruct H as (a & n & Ha & Hh & [_ Hn] & Hat). rewrite elem_of_reverse in Ha. split; [by exists a|by exists n].
  - intros a Ha. apply H. by rewrite elem_of_reverse.
Qed.

Lemma find_receipt_store t w : World.store (snd (find_receipt env t w)) = World.store w.
Proof.
  unfold find_receipt. generalize (reverse (OpenTransaction.attempts t)). intros l. revert w.
  induction l as [|a l IH]; intros w; [done|]. cbn [find_first]. unfold bind.
  pose proof (receipt_store t (Attempt.tx_hash a) w) as E. destruct (receipt env t (Attempt.tx_hash a) w) as [[[r|]|e] w1]; cbn in *;
    [done|by rewrite IH|done].
Qed.

(** ** Conclusions rest on evidence *)

(** After step [since] a block was read at or below the finality boundary, under
    this hash. *)
Definition final_block (since : nat) (block : Z) (hash : B256) : Prop :=
  exists n b n' header, (since < n)%nat /\
    finality_boundary chain (ChainConfig.finality_source config) (ChainConfig.finality_confirmations config) n = (Ok b, n') /\
    block <= BlockHeader.number b /\
    Node.block_header chain n' block = Ok header /\ BlockHeader.hash header = hash.

(** The mined count passed the slot's nonce, and after that was read a receipt
    was looked for and not found for every attempt. *)
Definition nonce_lost (t : OpenTransaction.t) : Prop :=
  exists n mined, Node.signer_nonce chain n (OpenTransaction.signer t) false = Ok mined /\ OpenTransaction.nonce t < mined /\
    forall a, a ∈ OpenTransaction.attempts t -> exists m, (n < m)%nat /\ no_receipt_at t (Attempt.tx_hash a) m.

(** The step's precondition was seen violated at a finality boundary. *)
Definition happened_elsewhere (command : WithdrawalStepCommand.t) (tx_hash : option B256) : Prop :=
  exists p n b n' k k', WithdrawalStepCommand.precondition command = Some p /\
    finality_boundary chain (ChainConfig.finality_source config) (ChainConfig.finality_confirmations config) n = (Ok b, n') /\
    (n' <= k)%nat /\ check chain (ChainConfig.log_range_size config) p b k = (Ok (Violated tx_hash), k').

Inductive grounds (t : OpenTransaction.t) : ExecutionEvent -> Prop :=
| sweep_finalized command tx_hash n r header k items k' again :
    Job.command (OpenTransaction.job t) = SweepBatch command -> signed t tx_hash ->
    Node.sweep_receipt chain n tx_hash (ChainConfig.batch_sweeper config) = Ok (Some r) ->
    SweepReceipt.succeeded r = true -> final_block n (SweepReceipt.block r) (SweepReceipt.block_hash r) ->
    BlockHeader.hash header = SweepReceipt.block_hash r ->
    classify_items chain config (SweepBatchCommand.items command) r header k = (Ok items, k') ->
    Node.block_header chain k' (SweepReceipt.block r) = Ok again -> BlockHeader.hash again = SweepReceipt.block_hash r ->
    grounds t (SweepFinalized (Job.id (OpenTransaction.job t)) (chain_id config) tx_hash (SweepReceipt.block r)
      (SweepReceipt.block_hash r) (BlockHeader.timestamp header) (SweepReceipt.transaction_index r) items)
| sweep_reverted command tx_hash n r :
    Job.command (OpenTransaction.job t) = SweepBatch command -> signed t tx_hash ->
    Node.sweep_receipt chain n tx_hash (ChainConfig.batch_sweeper config) = Ok (Some r) ->
    SweepReceipt.succeeded r = false -> final_block n (SweepReceipt.block r) (SweepReceipt.block_hash r) ->
    grounds t (SweepAbandoned (Job.id (OpenTransaction.job t)) (chain_id config) (AbandonReverted tx_hash))
| sweep_lost command :
    Job.command (OpenTransaction.job t) = SweepBatch command -> nonce_lost t ->
    grounds t (SweepAbandoned (Job.id (OpenTransaction.job t)) (chain_id config)
      (NonceConsumed (OpenTransaction.signer t) (OpenTransaction.nonce t)))
| step_mined command tx_hash n outcome r :
    Job.command (OpenTransaction.job t) = WithdrawalStep command -> signed t tx_hash ->
    Node.transaction_receipt chain n tx_hash = Ok (Some outcome) ->
    final_block n (TransactionOutcome.block outcome) (TransactionOutcome.block_hash outcome) ->
    r = (if TransactionOutcome.succeeded outcome
         then Succeeded tx_hash (TransactionOutcome.block outcome) (TransactionOutcome.block_hash outcome)
         else StepReverted tx_hash) \/
    (TransactionOutcome.succeeded outcome = false /\ exists other, r = ExecutedElsewhere other /\ happened_elsewhere command other) ->
    grounds t (step_event config (OpenTransaction.job t) command r)
| step_lost command other :
    Job.command (OpenTransaction.job t) = WithdrawalStep command -> nonce_lost t -> happened_elsewhere command other ->
    grounds t (step_event config (OpenTransaction.job t) command (ExecutedElsewhere other)).

Lemma grounds_conclude t event : grounds t event ->
  Event.job_id event = Job.id (OpenTransaction.job t) /\ conclusive event = true.
Proof. by intros []. Qed.

(** ** What a pass may do to the store *)

(** From [w] the computation makes steps of [R] only, however it ends. *)
Definition steps_by (R : relation Exec.t) {A} (c : eff ExecutorError World.t A) (w : World.t) : Prop :=
  rtc R (World.store w) (World.store (snd (c w))).

Section Steps.
Context (R : relation Exec.t).

Lemma steps_ret {A} (a : A) w : steps_by R (ret a) w.
Proof. apply rtc_refl. Qed.
Lemma steps_throw {A} e w : steps_by R (throw e : eff ExecutorError World.t A) w.
Proof. apply rtc_refl. Qed.
Lemma steps_get w : steps_by R get w.
Proof. apply rtc_refl. Qed.
Lemma steps_utc_now w : steps_by R (utc_now env) w.
Proof. apply rtc_refl. Qed.
Lemma steps_set_lane l w : steps_by R (set_lane l) w.
Proof. apply rtc_refl. Qed.
Lemma steps_get_fees w : steps_by R (get_fees env) w.
Proof. unfold steps_by, get_fees. repeat case_match; apply rtc_refl. Qed.
Lemma steps_ask {A} (c : rpc A) w : steps_by R (ask c) w.
Proof. unfold steps_by. rewrite ask_store. apply rtc_refl. Qed.
Lemma steps_find_receipt t w : steps_by R (find_receipt env t) w.
Proof. unfold steps_by. rewrite find_receipt_store. apply rtc_refl. Qed.

Lemma steps_bind {A B} (c : eff ExecutorError World.t A) (k : A -> eff ExecutorError World.t B) w :
  steps_by R c w -> (forall a w', c w = (Ok a, w') -> steps_by R (k a) w') -> steps_by R (bind c k) w.
Proof.
  unfold steps_by. intros Hc Hk. unfold bind. destruct (c w) as [[a|e] w1]; [|done]. etrans; [exact Hc|by apply Hk].
Qed.

Lemma steps_attempt {A} (c : eff ExecutorError World.t A) w : steps_by R c w -> steps_by R (attempt c) w.
Proof. unfold steps_by, attempt. by destruct (c w). Qed.

Lemma steps_traverse {A B} (f : A -> eff ExecutorError World.t B) l :
  (forall x w, x ∈ l -> steps_by R (f x) w) -> forall w, steps_by R (traverse f l) w.
Proof.
  induction l as [|x l IH]; intros Hf w; cbn; [apply steps_ret|]. apply steps_bind; [apply Hf; by left|].
  intros b w1 _. apply steps_bind; [apply IH; intros y w2 Hy; apply Hf; by right|]. intros bs w2 _. apply steps_ret.
Qed.

Context (others_step : forall n s, R s (Env.others env n s)).

Lemma steps_commit {A} (f : Timestamp -> Uuid -> Exec.t -> result ExecutorError (A * Exec.t)) w :
  (forall now id s a s', f now id s = Ok (a, s') -> rtc R s s') -> steps_by R (commit env f) w.
Proof.
  intros Hf. unfold steps_by, commit. destruct (f _ _ _) as [[a s']|e] eqn:E; cbn.
  - eapply rtc_l; [apply others_step|by eapply Hf].
  - apply rtc_once, others_step.
Qed.

Lemma steps_commit_one {A} (f : Timestamp -> Uuid -> Exec.t -> result ExecutorError (A * Exec.t)) w :
  (forall now id s a s', f now id s = Ok (a, s') -> R s s') -> steps_by R (commit env f) w.
Proof. intros Hf. apply steps_commit. eauto using rtc_once. Qed.

Lemma steps_read {A} (f : Timestamp -> Exec.t -> result DbError A) w : steps_by R (read env f) w.
Proof. apply steps_commit. intros now id s a s' (x & _ & [= _ <-])%rbind_ok. apply rtc_refl. Qed.

End Steps.

(** *** Reconciling a slot *)

(** The slot has waited its time out and its nonce is still to be mined. *)
Definition overdue (t : OpenTransaction.t) : Prop :=
  (exists n, Policy.pending_timeout (Env.policy env) <= Z.max (Env.clock env n - OpenTransaction.submitted_at t) 0) /\
  exists n mined, Node.signer_nonce chain n (OpenTransaction.signer t) false = Ok mined /\ mined <= OpenTransaction.nonce t.

Definition submissions (t : OpenTransaction.t) : Z := Z.of_nat (length (OpenTransaction.attempts t)) mod 2 ^ 32.

(** The job's call was signed for this signer, nonce and gas limit at these fees. *)
Definition signs (command : ExecutionCommand) (signer : Address) (nonce gas_limit : Z) (a : Attempt.t) : Prop :=
  let fees := FeeEstimate.mk (Attempt.max_fee_per_gas a) (Attempt.max_priority_fee_per_gas a) in
  exists n, match command with
            | SweepBatch c => Node.prepare_sweep_batch chain n signer (ChainConfig.batch_sweeper config)
                                (sweep_requests c (chain_id config)) nonce gas_limit fees
            | WithdrawalStep c => Node.prepare_call chain n signer (WithdrawalStepCommand.to c)
                                    (WithdrawalStepCommand.calldata c) nonce gas_limit fees
            end = Ok (Prepared.mk (Attempt.tx_hash a) (Attempt.raw_transaction a)).

(** [a] may replace the slot's newest attempt: the slot is overdue, has a
    submission left, and [a] is the same call at the same nonce for more. *)
Definition replaces (t : OpenTransaction.t) (a : Attempt.t) : Prop :=
  overdue t /\ submissions t < Policy.max_submissions (Env.policy env) /\
  exists previous, OpenTransaction.newest_attempt t = Some previous /\
    Attempt.replacement_number a = (Attempt.replacement_number previous + 1) mod 2 ^ 32 /\
    FeeEstimate.bump (Attempt.max_fee_per_gas previous) <= Attempt.max_fee_per_gas a /\
    FeeEstimate.bump (Attempt.max_priority_fee_per_gas previous) <= Attempt.max_priority_fee_per_gas a /\
    Attempt.broadcast_at a = None /\
    signs (Job.command (OpenTransaction.job t)) (OpenTransaction.signer t) (OpenTransaction.nonce t) (OpenTransaction.gas_limit t) a.

(** Nothing more can be done for the slot but wait. *)
Definition stuck (t : OpenTransaction.t) : Prop :=
  (overdue t /\ Policy.max_submissions (Env.policy env) <= submissions t) \/
  (nonce_lost t /\ exists command, Job.command (OpenTransaction.job t) = WithdrawalStep command).

(** The node took the attempt's bytes. *)
Definition sent (a : Attempt.t) : Prop :=
  exists n u, Node.broadcast_sweep_transaction chain n (Prepared.mk (Attempt.tx_hash a) (Attempt.raw_transaction a)) = Ok u.

Inductive reconciling (t : OpenTransaction.t) (s : Exec.t) : Exec.t -> Prop :=
| re_others n : reconciling t s (Env.others env n s)
| re_mined tx_hash r n :
    signed t tx_hash -> receipt_at t tx_hash r n ->
    reconciling t s (record_mined (OpenTransaction.id t)
      (Mined.mk tx_hash (TransactionOutcome.block (receipt_outcome r)) (TransactionOutcome.block_hash (receipt_outcome r))
         (receipt_transaction_index r) (TransactionOutcome.succeeded (receipt_outcome r))) s)
| re_cleared tx_hash r n k header :
    signed t tx_hash -> receipt_at t tx_hash r n ->
    Node.block_header chain k (TransactionOutcome.block (receipt_outcome r)) = Ok header ->
    BlockHeader.hash header <> TransactionOutcome.block_hash (receipt_outcome r) ->
    reconciling t s (clear_mined (OpenTransaction.id t) s)
| re_concluded js ts event now id s' :
    grounds t event -> resolve_tx (Env.payload_hash env) t js ts event now id s = Ok (tt, s') -> reconciling t s s'
| re_stalled now id s' :
    stuck t -> OpenTransaction.stall_reported_at t = None ->
    stall_tx (Env.payload_hash env) config t now id s = Ok (tt, s') -> reconciling t s s'
| re_replaced a now id s' :
    replaces t a -> attempt_tx t a now id s = Ok (tt, s') -> reconciling t s s'
| re_sent a now id s' :
    sent a -> OpenTransaction.newest_attempt t = Some a \/ replaces t a ->
    broadcast_tx (Env.payload_hash env) config t a now id s = Ok (tt, s') -> reconciling t s s'.

(** *** Starting a queued job *)

(** Why a job is concluded before it has a signer. *)
Inductive start_grounds (j : Job.t) : JobState -> ExecutionEvent -> Prop :=
| start_elsewhere command other :
    Job.command j = WithdrawalStep command -> happened_elsewhere command other ->
    start_grounds j JobFinalized (step_event config j command (ExecutedElsewhere other))
| start_expired command deadline n :
    Job.command j = WithdrawalStep command -> WithdrawalStepCommand.not_after command = Some deadline ->
    deadline <= Z.max (Env.clock env n / 1000000) 0 ->
    start_grounds j JobFinalized (step_event config j command StepExpired)
| start_rejected e free w w' :
    try_start env j free w = (Err e, w') ->
    executor_error_is_retryable e = false \/ Policy.max_attempts (Env.policy env) <= Job.attempts j + 1 ->
    start_grounds j JobAbandoned (abandon_event config j (AbandonRejected (Env.describe env e))).

(** The slot is the job's own call, on a signer none of whose transactions is in
    flight, at the signer's next nonce. *)
Definition fresh_slot (j : Job.t) (signer : Address) (new : NewTransaction.t) : Prop :=
  exists n nonce pending gas_limit a,
    Node.signer_nonce chain n signer false = Ok nonce /\ Node.signer_nonce chain (S n) signer true = Ok pending /\
    pending <= nonce /\ Attempt.replacement_number a = 0 /\ Attempt.broadcast_at a = None /\
    match Job.command j with
    | SweepBatch c => SweepBatchCommand.items c <> [] /\
        gas_limit = sweep_batch_gas_limit (Z.of_nat (length (SweepBatchCommand.items c))) /\
        new = NewTransaction.mk (Job.id j) (chain_id config) signer nonce (ChainConfig.batch_sweeper config) [] gas_limit a
    | WithdrawalStep c => gas_limit = WithdrawalStepCommand.gas_limit c /\
        new = NewTransaction.mk (Job.id j) (chain_id config) signer nonce (WithdrawalStepCommand.to c)
                (WithdrawalStepCommand.calldata c) gas_limit a
    end /\
    signs (Job.command j) signer nonce gas_limit a.

(** [queued] are the jobs and [free] the signers of the pass. *)
Inductive starting (queued : list Job.t) (free : list Address) (s : Exec.t) : Exec.t -> Prop :=
| st_others n : starting queued free s (Env.others env n s)
| st_balance signer status now : starting queued free s (upsert_signer_status (chain_id config) signer status now s)
| st_concluded j js event now id s' :
    j ∈ queued -> start_grounds j js event ->
    conclude_tx (Env.payload_hash env) j js event now id s = Ok (tt, s') -> starting queued free s s'
| st_begun j signer new now id s' :
    j ∈ queued -> signer ∈ free -> fresh_slot j signer new ->
    begin_tx new now id s = Ok (id, s') -> starting queued free s s'
| st_sent j signer new opened_at slot now id s' :
    j ∈ queued -> signer ∈ free -> fresh_slot j signer new -> sent (NewTransaction.attempt new) ->
    broadcast_tx (Env.payload_hash env) config (opened slot j new opened_at) (NewTransaction.attempt new) now id s = Ok (tt, s') ->
    starting queued free s s'
| st_deferred j e free' w w' next now id s' :
    j ∈ queued -> try_start env j free' w = (Err e, w') -> executor_error_is_retryable e = true ->
    Job.attempts j + 1 < Policy.max_attempts (Env.policy env) ->
    defer_tx j next (Env.describe env e) now id s = Ok (tt, s') -> starting queued free s s'.

(** Before a slot is concluded at most its receipt is recorded. *)
Inductive noting (t : OpenTransaction.t) (s : Exec.t) : Exec.t -> Prop :=
| note_others n : noting t s (Env.others env n s)
| note_mined tx_hash r n :
    signed t tx_hash -> receipt_at t tx_hash r n ->
    noting t s (record_mined (OpenTransaction.id t)
      (Mined.mk tx_hash (TransactionOutcome.block (receipt_outcome r)) (TransactionOutcome.block_hash (receipt_outcome r))
         (receipt_transaction_index r) (TransactionOutcome.succeeded (receipt_outcome r))) s).

Lemma noting_reconciling t s s' : rtc (noting t) s s' -> rtc (reconciling t) s s'.
Proof. apply rtc_subrel. intros a b [n|h r n Hs Hr]; [apply re_others|by eapply re_mined]. Qed.

(** From [s] the slot was concluded, with a grounded event. *)
Definition concluded (t : OpenTransaction.t) (s s' : Exec.t) : Prop :=
  exists s1 js ts event now id, rtc (noting t) s s1 /\ grounds t event /\
    resolve_tx (Env.payload_hash env) t js ts event now id s1 = Ok (tt, s').

Lemma concluded_reconciling t s s' : concluded t s s' -> rtc (reconciling t) s s'.
Proof.
  intros (s1 & js & ts & event & now & id & Hn & Hg & Hr). eapply rtc_r; [by apply noting_reconciling|by eapply re_concluded].
Qed.

(** [true] says that the slot was concluded. *)
Definition settles (t : OpenTransaction.t) (c : eff ExecutorError World.t bool) (w : World.t) : Prop :=
  match c w with
  | (Ok true, w') => concluded t (World.store w) (World.store w')
  | (_, w') => rtc (reconciling t) (World.store w) (World.store w')
  end.

Lemma settles_steps t c w : settles t c w -> steps_by (reconciling t) c w.
Proof. unfold settles, steps_by. destruct (c w) as [[[]|e] w']; cbn; [apply concluded_reconciling|done..]. Qed.

Lemma settles_bind t {A} (c : eff ExecutorError World.t A) k w :
  steps_by (noting t) c w -> (forall a w', c w = (Ok a, w') -> settles t (k a) w') -> settles t (bind c k) w.
Proof.
  unfold steps_by, settles, bind. intros Hc Hk. destruct (c w) as [[a|e] w1]; cbn in Hc; [|by apply noting_reconciling].
  specialize (Hk a w1 eq_refl). destruct (k a w1) as [[[]|e] w2].
  - destruct Hk as (s1 & js & ts & event & now & id & Hn & H). exists s1, js, ts, event, now, id. split; [by etrans|done].
  - etrans; [by apply noting_reconciling|done].
  - etrans; [by apply noting_reconciling|done].
Qed.

Lemma settles_false t c w : steps_by (reconciling t) c w -> settles t (bind c (fun _ : unit => ret false)) w.
Proof. unfold settles, steps_by, bind. by destruct (c w) as [[[]|e] w1]. Qed.

Lemma settles_unless t c w : steps_by (reconciling t) c w -> (forall w', c w <> (Ok true, w')) -> settles t c w.
Proof. unfold settles, steps_by. destruct (c w) as [[[]|e] w1]; [intros _ H; by destruct (H w1)|done..]. Qed.

Lemma settles_ret_false t w : settles t (ret false) w.
Proof. apply rtc_refl. Qed.

Lemma settles_throw t e w : settles t (throw e) w.
Proof. apply rtc_refl. Qed.

Lemma resolve_settles t js ts event w : grounds t event ->
  settles t (bind (resolve env t js ts event) (fun _ : unit => ret true)) w.
Proof.
  intros Hg. unfold settles, bind. destruct (resolve env t js ts event w) as [[[]|e] w1] eqn:E; cbn.
  - apply commit_ok in E as [Hr _]. eexists _, js, ts, event, _, _. split; [|split; [exact Hg|exact Hr]]. apply rtc_once, note_others.
  - unfold resolve, commit in E. destruct (resolve_tx _ _ _ _ _ _ _ _) as [[x s]|e']; [done|]. injection E as _ <-. apply rtc_once, re_others.
Qed.

Lemma clear_settles t tx_hash r n k header w :
  signed t tx_hash -> receipt_at t tx_hash r n ->
  Node.block_header chain k (TransactionOutcome.block (receipt_outcome r)) = Ok header ->
  BlockHeader.hash header <> TransactionOutcome.block_hash (receipt_outcome r) -> settles t (clear_mined_step env t) w.
Proof.
  intros. apply settles_false, steps_commit_one; [intros; apply re_others|]. intros now id s a s' [= _ <-]. by eapply re_cleared.
Qed.

Lemma finalize_sweep_settles t command tx_hash r n header w :
  Job.command (OpenTransaction.job t) = SweepBatch command -> signed t tx_hash ->
  Node.sweep_receipt chain n tx_hash (ChainConfig.batch_sweeper config) = Ok (Some r) ->
  final_block n (SweepReceipt.block r) (SweepReceipt.block_hash r) ->
  BlockHeader.hash header = SweepReceipt.block_hash r ->
  settles t (finalize_sweep env t command tx_hash r header) w.
Proof.
  intros Hcmd Hsig Hseen Hfin Hhdr. unfold finalize_sweep. destruct (SweepReceipt.succeeded r) eqn:Hs; cbn [negb].
  - apply settles_bind; [apply steps_ask|]. intros items w1 (k' & Hitems & ->)%ask_ok.
    apply settles_bind; [apply steps_ask|]. intros again w2 [Hagain ->]%ask_call_ok. cbn in Hagain. case_bool_decide as Heq; cbn [negb].
    + apply resolve_settles. by eapply sweep_finalized.
    + apply (clear_settles t tx_hash (SweepR r) n k' again); try done. unfold receipt_at. by rewrite Hcmd.
  - apply resolve_settles. by eapply sweep_reverted.
Qed.

Lemma check_step (o : option StepPrecondition) b w p w' :
  match o with Some precondition => check_precondition env precondition b | None => ret Holds end w = (Ok p, w') ->
  World.store w' = World.store w /\
  forall tx, p = Violated tx -> exists pre k', o = Some pre /\
    check chain (ChainConfig.log_range_size config) pre b (World.tick w) = (Ok (Violated tx), k').
Proof.
  destruct o as [pre|]; [|by intros [= <- <-]]. intros (k' & Hp & ->)%ask_ok. split; [done|]. intros tx ->. by exists pre, k'.
Qed.

Lemma steps_check R (o : option StepPrecondition) b w :
  steps_by R (match o with Some precondition => check_precondition env precondition b | None => ret Holds end) w.
Proof. destruct o; [apply steps_ask|apply steps_ret]. Qed.

Lemma finalize_step_settles t command tx_hash outcome m n b n' w :
  Job.command (OpenTransaction.job t) = WithdrawalStep command -> signed t tx_hash ->
  Node.transaction_receipt chain m tx_hash = Ok (Some outcome) ->
  final_block m (TransactionOutcome.block outcome) (TransactionOutcome.block_hash outcome) ->
  finality_boundary chain (ChainConfig.finality_source config) (ChainConfig.finality_confirmations config) n = (Ok b, n') ->
  (n' <= World.tick w)%nat -> settles t (finalize_step env t command tx_hash outcome b) w.
Proof.
  intros Hcmd Hsig Hm Hfin Hb Hn. unfold finalize_step.
  assert (forall r, r = (if TransactionOutcome.succeeded outcome
      then Succeeded tx_hash (TransactionOutcome.block outcome) (TransactionOutcome.block_hash outcome) else StepReverted tx_hash) \/
      (TransactionOutcome.succeeded outcome = false /\ exists other, r = ExecutedElsewhere other /\ happened_elsewhere command other) ->
    grounds t (step_event config (OpenTransaction.job t) command r)) as Hg by (intros r Hr; by eapply step_mined).
  destruct (TransactionOutcome.succeeded outcome) eqn:Hs.
  { apply settles_bind; [apply steps_ret|]. intros [r ts] w1 [= <- <- <-]. apply resolve_settles, Hg. by left. }
  apply settles_bind.
  - apply steps_bind; [apply steps_check|]. intros [|o] w1 _; apply steps_ret.
  - intros [r ts] w1 (p & w2 & [_ Hp]%check_step & Hk)%bind_ok. destruct p as [|other]; injection Hk as <- <- <-.
    + apply resolve_settles, Hg. by left.
    + apply resolve_settles, Hg. right. split; [done|]. exists other. split; [done|].
      destruct (Hp other eq_refl) as (pre & k' & Hpre & Hc). by exists pre, n, b, n', (World.tick w), k'.
Qed.

Lemma on_mined_settles t tx_hash r n w :
  signed t tx_hash -> receipt_at t tx_hash r n -> (n < World.tick w)%nat -> settles t (on_mined env t tx_hash r) w.
Proof.
  intros Hsig Hseen Hn. unfold on_mined. apply settles_bind.
  { case_bool_decide; [apply steps_ret|]. apply steps_commit_one; [intros; apply note_others|].
    intros now id s a s' [= _ <-]. by eapply note_mined. }
  intros [] w1 Hw1. assert (n < World.tick w1)%nat as Hn1.
  { case_bool_decide; [by injection Hw1 as <-|]. apply commit_ok in Hw1 as [_ ->]. lia. }
  clear Hw1. apply settles_bind; [apply steps_ask|]. intros b w2 (n' & Hb & ->)%ask_ok. cbn.
  destruct (Z.ltb_spec (BlockHeader.number b) (TransactionOutcome.block (receipt_outcome r))) as [|Hle]; [apply settles_ret_false|].
  apply settles_bind; [apply steps_ask|]. intros header w3 [Hhdr ->]%ask_call_ok. cbn in Hhdr.
  case_bool_decide as Heq; cbn [negb]; [|by eapply clear_settles].
  assert (final_block n (TransactionOutcome.block (receipt_outcome r)) (TransactionOutcome.block_hash (receipt_outcome r))) as Hfin.
  { by exists (World.tick w1), b, n', header. }
  unfold receipt_at in Hseen.
  destruct (Job.command (OpenTransaction.job t)) as [command|command] eqn:Hcmd, r as [receipt|outcome]; try done.
  - by apply (finalize_sweep_settles t command tx_hash receipt n header).
  - apply (finalize_step_settles t command tx_hash outcome n (World.tick w1) b n'); try done. cbn. lia.
Qed.

Lemma broadcast_steps t a w : OpenTransaction.newest_attempt t = Some a \/ replaces t a ->
  steps_by (reconciling t) (broadcast env t a) w.
Proof.
  intros Ha. apply steps_bind; [apply steps_ask|]. intros u w1 [Hu ->]%ask_call_ok.
  apply steps_commit_one; [intros; apply re_others|]. intros now id s [] s' Hs. eapply re_sent; [by eexists _, _|done|exact Hs].
Qed.

Lemma stall_steps t w : stuck t -> steps_by (reconciling t) (report_stall env t) w.
Proof.
  intros Hs. unfold report_stall. destruct (OpenTransaction.stall_reported_at t) eqn:Ht; cbn [is_some]; [apply steps_ret|].
  apply steps_bind; [|intros; apply steps_ret]. apply steps_commit_one; [intros; apply re_others|].
  intros now id s [] s' Hr. by eapply re_stalled.
Qed.

Lemma nonce_consumed_settles t w : nonce_lost t -> settles t (nonce_consumed env t) w.
Proof.
  intros Hlost. unfold nonce_consumed. destruct (Job.command (OpenTransaction.job t)) as [c|command] eqn:Hcmd.
  { unfold abandon. apply resolve_settles. unfold abandon_event. rewrite Hcmd. by eapply sweep_lost. }
  apply settles_bind; [apply steps_ask|]. intros b w1 (n' & Hb & ->)%ask_ok.
  apply settles_bind; [apply steps_check|]. intros p w2 [_ Hp]%check_step. destruct p as [|other].
  - apply settles_unless; [|by intros w3 (r & w4 & _ & [=])%bind_ok].
    apply steps_bind; [apply stall_steps; right; eauto|intros; apply steps_ret].
  - apply resolve_settles. destruct (Hp other eq_refl) as (pre & k' & Hpre & Hc).
    eapply step_lost; [done..|]. by exists pre, (World.tick w), b, n', n', k'.
Qed.

Lemma prepare_signs command signer nonce gas_limit fees w p w' :
  prepare env command signer nonce gas_limit fees w = (Ok p, w') ->
  forall number, signs command signer nonce gas_limit (attempt_of number p fees).
Proof.
  intros Hp number. unfold signs. exists (World.tick w). unfold prepare in Hp. destruct p as [h raw], fees.
  destruct command; apply ask_call_ok in Hp as [Hp _]; exact Hp.
Qed.

Lemma prepare_steps R command signer nonce gas_limit fees w : steps_by R (prepare env command signer nonce gas_limit fees) w.
Proof. unfold prepare. destruct command; apply steps_ask. Qed.

Lemma replace_steps t previous w : overdue t -> submissions t < Policy.max_submissions (Env.policy env) ->
  OpenTransaction.newest_attempt t = Some previous -> steps_by (reconciling t) (replace env t previous) w.
Proof.
  intros Hov Hmax Hnew. unfold replace. apply steps_bind; [apply steps_get_fees|]. intros estimate w1 _.
  apply steps_bind; [apply prepare_steps|]. intros p w2 Hp. cbv zeta. set (a := attempt_of _ p _).
  assert (replaces t a) as Ha.
  { split; [done|]. split; [done|]. exists previous. split_and!; try done; [cbn; lia|cbn; lia|]. by eapply prepare_signs. }
  apply steps_bind; [|intros; apply broadcast_steps; by right].
  apply steps_commit_one; [intros; apply re_others|]. intros now id s [] s' Hs. by eapply re_replaced.
Qed.

Lemma reconcile_settles t w : settles t (reconcile env t) w.
Proof.
  unfold reconcile. apply settles_bind; [apply steps_find_receipt|]. intros o w1 (_ & _ & Ho)%find_receipt_ok.
  destruct o as [[h r]|]; [destruct Ho as (Hsig & n & Hn & Hr); by eapply on_mined_settles|]. clear Ho.
  destruct (OpenTransaction.newest_attempt t) as [newest|] eqn:Hnew; [|apply settles_throw].
  destruct (is_some (Attempt.broadcast_at newest)); cbn [negb]; [|apply settles_false, broadcast_steps; by left].
  apply settles_bind; [apply steps_utc_now|]. intros now w2 [= <- <-]. cbv zeta.
  destruct (Z.ltb_spec (Z.max (Env.clock env (World.tick w1) - OpenTransaction.submitted_at t) 0) (Policy.pending_timeout (Env.policy env)))
    as [|Hage]; [apply settles_ret_false|].
  apply settles_bind; [apply steps_ask|]. intros mined w3 [Hm ->]%ask_call_ok. cbn in Hm.
  destruct (Z.ltb_spec (OpenTransaction.nonce t) mined) as [Hlt|Hle].
  - apply settles_bind; [apply steps_find_receipt|]. intros o w4 (_ & _ & Ho)%find_receipt_ok. cbn in Ho.
    destruct o as [[h r]|]; [destruct Ho as (Hsig & n & Hn & Hr); by eapply on_mined_settles|].
    apply nonce_consumed_settles. exists (S (World.tick w1)), mined. split_and!; [done..|]. intros a Ha.
    destruct (Ho a Ha) as (n & Hn & Hno). exists n. split; [lia|done].
  - assert (overdue t) as Hov by (split; eauto).
    destruct (Z.leb_spec (Policy.max_submissions (Env.policy env)) (Z.of_nat (length (OpenTransaction.attempts t)) mod 2 ^ 32)).
    + apply settles_unless; [|by intros w4 (r & w5 & _ & (u & w6 & _ & [=])%bind_ok)%bind_ok].
      apply steps_bind; [apply stall_steps; left; by split|]. intros r w4 _.
      apply steps_bind; [apply broadcast_steps; by left|intros; apply steps_ret].
    + by apply settles_false, replace_steps.
Qed.

(** *** A start hands back at most the signer it was given *)

Section Lanes.
Context (a : Address).

Definition lane_of (w : World.t) : Prop := World.lane w = [] \/ World.lane w = [a].
Definition hands_back (w w' : World.t) : Prop := lane_of w -> lane_of w'.

#[local] Instance hands_back_preorder : PreOrder hands_back.
Proof. split; [intros w; unfold hands_back; auto|]. intros w1 w2 w3. unfold hands_back. auto. Qed.

Lemma lane_same w w' : World.lane w' = World.lane w -> hands_back w w'.
Proof. intros E. unfold hands_back, lane_of. by rewrite E. Qed.

Lemma lane_ask {A} (c : rpc A) : moves hands_back (ask c).
Proof. intros w. apply lane_same. unfold ask. by destruct (c (World.tick w)). Qed.
Lemma lane_commit {A} (f : Timestamp -> Uuid -> Exec.t -> result ExecutorError (A * Exec.t)) : moves hands_back (commit env f).
Proof. intros w. apply lane_same. unfold commit. by destruct (f _ _ _) as [[x s]|e]. Qed.
Lemma lane_utc_now : moves hands_back (utc_now env).
Proof. intros w. by apply lane_same. Qed.
Lemma lane_get_fees : moves hands_back (get_fees env).
Proof. intros w. apply lane_same. unfold get_fees. by repeat case_match. Qed.
Lemma lane_set_empty : moves hands_back (set_lane []).
Proof. intros w _. by left. Qed.

Ltac lane_step _ := first
  [ simple apply lane_ask | simple apply lane_commit | simple apply lane_utc_now | simple apply lane_get_fees
  | simple apply lane_set_empty ].

Lemma lane_conclude j : moves hands_back (conclude_without_signer env j).
Proof. unfold conclude_without_signer, boundary, check_precondition, conclude_step. walk_with lane_step. Qed.

Lemma lane_start_on j n : moves hands_back (start_on env j a [] n).
Proof. unfold start_on, broadcast, prepare. walk_with lane_step. Qed.

Lemma start_lane j w : lane_of (snd (start env j [a] w)).
Proof.
  unfold start. unfold bind at 1. simpl.
  match goal with |- context [bind ?c ?k ?w0] => assert (moves hands_back (bind c k)) as Hs end.
  { unfold reject_job. walk_with lane_step; auto using lane_conclude, lane_start_on. }
  apply Hs. by right.
Qed.

End Lanes.

(** *** Starts *)

Section Starts.
Context (queued : list Job.t) (free : list Address).

#[local] Abbreviation by_start c w := (steps_by (starting queued free) c w) (only parsing).

Lemma conclude_start j js event w : j ∈ queued -> start_grounds j js event ->
  by_start (commit env (conclude_tx (Env.payload_hash env) j js event)) w.
Proof.
  intros Hj Hg. apply steps_commit_one; [intros; apply st_others|]. intros now id s [] s' Hs. by eapply st_concluded.
Qed.

Lemma unsigned_start j w : j ∈ queued -> by_start (conclude_without_signer env j) w.
Proof.
  intros Hj. unfold conclude_without_signer. destruct (Job.command j) as [c|command] eqn:Hc; [apply steps_ret|].
  apply steps_bind.
  { destruct (WithdrawalStepCommand.precondition command); [|apply steps_ret].
    apply steps_bind; [apply steps_ask|intros; apply steps_ask]. }
  intros p w1 Hp. destruct p as [|other].
  - apply steps_bind; [apply steps_utc_now|]. intros now w2 [= <- <-]. cbv zeta.
    destruct (WithdrawalStepCommand.not_after command) as [deadline|] eqn:Hd; [|apply steps_ret].
    destruct (Z.leb_spec deadline (Z.max (Env.clock env (World.tick w1) / 1000000) 0)); [|apply steps_ret].
    apply steps_bind; [|intros; apply steps_ret]. apply conclude_start; [done|]. by eapply start_expired.
  - apply steps_bind; [|intros; apply steps_ret]. apply conclude_start; [done|]. eapply start_elsewhere; [done|].
    destruct (WithdrawalStepCommand.precondition command) as [pre|] eqn:Hpre; [|done].
    apply bind_ok in Hp as (b & w2 & (n' & Hb & ->)%ask_ok & (k' & Hk & _)%ask_ok). cbn in Hk.
    by exists pre, (World.tick w), b, n', n', k'.
Qed.

Lemma signer_start j signer rest nonce pending n w : j ∈ queued -> signer ∈ free ->
  Node.signer_nonce chain n signer false = Ok nonce -> Node.signer_nonce chain (S n) signer true = Ok pending -> pending <= nonce ->
  by_start (start_on env j signer rest nonce) w.
Proof.
  intros Hj Hs Hn Hp Hle. unfold start_on. apply steps_bind; [apply steps_get_fees|]. intros fees w1 _.
  apply steps_bind; [repeat case_match; first [apply steps_ret|apply steps_throw]|]. intros gas w2 Hgas.
  apply steps_bind; [apply prepare_steps|]. intros p w3 Hprep. cbv zeta. set (new := new_slot config j signer nonce gas _).
  assert (fresh_slot j signer new) as Hnew.
  { exists n, nonce, pending, gas, (attempt_of 0 p fees). split_and!; try done; [|by eapply prepare_signs].
    unfold new, new_slot. destruct (Job.command j) as [c|c]; [|by injection Hgas as <- _].
    destruct (SweepBatchCommand.items c); [done|]. by injection Hgas as <- _. }
  apply steps_bind.
  { apply steps_commit_one; [intros; apply st_others|]. intros now id s a s' (s1 & Hb & [= <- <-])%rbind_ok.
    eapply st_begun; [done..|]. unfold begin_tx. by rewrite Hb. }
  intros slot w4 _. apply steps_bind; [apply steps_set_lane|]. intros _ w5 _. apply steps_bind; [apply steps_utc_now|]. intros now w6 _.
  apply steps_bind; [|intros; apply steps_ret]. apply steps_attempt.
  apply steps_bind; [apply steps_ask|]. intros u w7 [Hu ->]%ask_call_ok.
  apply steps_commit_one; [intros; apply st_others|]. intros now' id s [] s' Hb. eapply st_sent; [done..| |exact Hb]. by eexists _, _.
Qed.

Lemma try_start_steps j l w : j ∈ queued -> (forall a, a ∈ l -> a ∈ free) -> by_start (try_start env j l) w.
Proof.
  intros Hj. revert w. induction l as [|signer rest IH]; intros w Hl; cbn [try_start];
    (apply steps_bind; [by apply unsigned_start|]); intros [] w1 _; try apply steps_ret.
  apply steps_bind; [apply steps_ask|]. intros mined w2 [Hm ->]%ask_call_ok.
  apply steps_bind; [apply steps_ask|]. intros pending w3 [Hp ->]%ask_call_ok. cbn in Hp.
  destruct (Z.ltb_spec mined pending) as [|Hle].
  - apply steps_bind; [apply steps_set_lane|]. intros _ w4 _. destruct rest as [|b rest]; [apply steps_ret|].
    apply IH. intros a Ha. apply Hl. by right.
  - eapply signer_start; [done|apply Hl; by left|exact Hm|exact Hp|done].
Qed.

Lemma start_steps j l w : j ∈ queued -> (forall a, a ∈ l -> a ∈ free) -> by_start (start env j l) w.
Proof.
  intros Hj Hl. unfold start. apply steps_bind; [apply steps_set_lane|]. intros _ w1 _.
  apply steps_bind; [by apply steps_attempt, try_start_steps|]. intros tried w2 Ht. destruct tried as [started|e]; [apply steps_ret|].
  assert (exists w3, try_start env j l w1 = (Err e, w3)) as [w3 He].
  { unfold attempt in Ht. destruct (try_start env j l w1) as [r w3]. injection Ht as -> <-. by exists w3. }
  destruct (executor_error_is_retryable e) eqn:Hr.
  - cbv zeta. destruct (Z.leb_spec (Policy.max_attempts (Env.policy env)) (Job.attempts j + 1)) as [Hmax|Hmax].
    + apply steps_bind; [|intros; apply steps_ret]. apply conclude_start; [done|]. eapply start_rejected; [exact He|by right].
    + apply steps_bind; [apply steps_get|]. intros w4 w5 _. apply steps_bind; [apply steps_utc_now|]. intros now w6 _.
      apply steps_bind; [|intros; apply steps_ret]. apply steps_commit_one; [intros; apply st_others|].
      intros now' id s [] s' Hs. eapply st_deferred; [exact Hj|exact He|done|done|exact Hs].
  - apply steps_bind; [|intros; apply steps_ret]. apply conclude_start; [done|]. eapply start_rejected; [exact He|by left].
Qed.

(** The coordinator's lists hold nothing but the pass's jobs and free signers. *)
Definition of_pass (pending : list Job.t) (lanes : list Address) (starts : list (Job.t * Address)) : Prop :=
  (forall j, j ∈ pending -> j ∈ queued) /\ (forall a, a ∈ lanes -> a ∈ free) /\
  (forall j a, (j, a) ∈ starts -> j ∈ queued /\ a ∈ free).

Lemma fill_of_pass pending lanes starts pending' lanes' starts' :
  fill pending lanes starts = (pending', lanes', starts') -> of_pass pending lanes starts -> of_pass pending' lanes' starts'.
Proof.
  revert lanes starts. induction pending as [|j pending IH]; intros [|a lanes] starts; cbn [fill];
    try by intros [= <- <- <-]. intros Hf (H1 & H2 & H3). eapply IH; [exact Hf|]. split_and!.
  - intros k Hk. apply H1. by right.
  - intros b Hb. apply H2. by right.
  - intros k b [Hk|[= -> ->]%list_elem_of_singleton]%elem_of_app; [by apply H3|]. split; [apply H1; by left|apply H2; by left].
Qed.

Lemma coordinate_steps fuel : forall pending lanes starts r w, of_pass pending lanes starts ->
  by_start (coordinate env fuel pending lanes starts r) w /\
  forall left r' w', coordinate env fuel pending lanes starts r w = (Ok (Some (left, r')), w') -> forall j, j ∈ left -> j ∈ queued.
Proof.
  induction fuel as [|fuel IH]; intros pending lanes starts r w Hp; cbn [coordinate]; [by split; [apply steps_ret|]|].
  destruct (fill pending lanes starts) as [[p f] st] eqn:Hfill. pose proof (fill_of_pass _ _ _ _ _ _ Hfill Hp) as (H1 & H2 & H3).
  unfold steps_by, bind, get. cbv beta iota zeta. set (i := (Env.next_done env (World.tick w) mod length st)%nat).
  destruct (st !! i) as [[j a]|] eqn:Hst; [|split; [apply rtc_refl|by intros left r' w' [= <- _ _]]].
  destruct (H3 j a (list_elem_of_lookup_2 _ _ _ Hst)) as [Hj Ha].
  assert (forall k b, (k, b) ∈ delete i st -> k ∈ queued /\ b ∈ free) as H3'.
  { intros k b Hk. apply H3. rewrite (delete_Permutation _ _ _ Hst). by right. }
  pose proof (start_steps j [a] w Hj ltac:(by intros b ->%list_elem_of_singleton)) as Hs. pose proof (start_lane a j w) as Hlane.
  unfold steps_by, attempt in *. destruct (start env j [a] w) as [o w1]. cbn in Hs, Hlane.
  assert (forall pending' lanes' r1, of_pass pending' lanes' (delete i st) ->
    rtc (starting queued free) (World.store w) (World.store (snd (coordinate env fuel pending' lanes' (delete i st) r1 w1))) /\
    forall left r' w', coordinate env fuel pending' lanes' (delete i st) r1 w1 = (Ok (Some (left, r')), w') ->
      forall j, j ∈ left -> j ∈ queued) as Hnext.
  { intros pending' lanes' r1 Hof. destruct (IH pending' lanes' _ r1 w1 Hof) as [Hrun Hl]. split; [by etrans|exact Hl]. }
  assert (forall b, b ∈ World.lane w1 -> b ∈ free) as Hback.
  { destruct Hlane as [-> | ->]; [by intros b ?%not_elem_of_nil|by intros b ->%list_elem_of_singleton]. }
  assert (forall b, b ∈ f ++ World.lane w1 -> b ∈ free) as H2' by (intros b [?|?]%elem_of_app; eauto).
  assert (forall k, k ∈ j :: p -> k ∈ queued) as H1' by (intros k [->|?]%elem_of_cons; eauto).
  destruct o as [[]|e]; apply Hnext; by try split_and!.
Qed.

Lemma laneless_steps pending : forall r w, (forall j, j ∈ pending -> j ∈ queued) -> by_start (start_laneless env pending r) w.
Proof.
  induction pending as [|j pending IH]; intros r w Hp; cbn [start_laneless]; [apply steps_ret|].
  apply steps_bind; [apply steps_attempt, start_steps; [apply Hp; by left|by intros a ?%not_elem_of_nil]|].
  intros o w1 _. apply IH. intros k Hk. apply Hp. by right.
Qed.

Lemma free_signers_steps busy w : by_start (free_signers env busy) w.
Proof.
  unfold free_signers. apply steps_bind; [|intros; apply steps_ret]. apply steps_traverse. intros signer w1 _.
  apply steps_bind; [apply steps_attempt, steps_ask|]. intros balance w2 _. apply steps_bind; [|intros u w3 _; destruct (bool_decide _); apply steps_ret].
  apply steps_commit_one; [intros; apply st_others|]. intros now id s a s' [= _ <-]. apply st_balance.
Qed.

End Starts.

(** The signers without an open slot. *)
Definition idle (busy : list Address) : list Address := List.filter (fun a => negb (bool_decide (a ∈ busy))) (Node.signers chain).

Lemma insert_ranked_elem (x y : Z * Address) l : y ∈ insert_ranked x l -> y = x \/ y ∈ l.
Proof.
  induction l as [|z l IH]; cbn; [by intros ->%list_elem_of_singleton; left|]. destruct (_ <? _).
  - intros [->|?]%elem_of_cons; auto.
  - intros [->|Hy]%elem_of_cons; [right; by left|]. destruct (IH Hy); [by left|right; by right].
Qed.

Lemma rank_elem a l : a ∈ rank l -> a ∈ l.*2.
Proof.
  unfold rank. intros (y & -> & Hy)%list_elem_of_fmap. apply list_elem_of_fmap_2.
  assert (forall acc, y ∈ foldl (fun acc x => insert_ranked x acc) acc l -> y ∈ acc \/ y ∈ l) as H.
  { clear Hy. induction l as [|x l IH]; intros acc; cbn; [by left|]. intros [H|H]%IH; [|right; by right].
    apply insert_ranked_elem in H as [->|H]; [right; by left|by left]. }
  destruct (H [] Hy) as [?%not_elem_of_nil|]; done.
Qed.

Lemma free_signers_idle busy w l w' : free_signers env busy w = (Ok l, w') -> forall a, a ∈ l -> a ∈ idle busy.
Proof.
  intros (ranked & w1 & Ht & [= <- _])%bind_ok a Ha%rank_elem.
  apply list_elem_of_fmap in Ha as ([b a'] & -> & Ha). apply list_elem_of_omap in Ha as (o & Ho & Heq). unfold id in Heq. subst o. cbn in *.
  eapply (traverse_ok (fun signer o => forall b a, o = Some (b, a) -> a ∈ idle busy)) in Ht.
  - apply list_elem_of_lookup in Ho as [i Hi]. destruct (Forall2_lookup_r _ _ _ _ _ Ht Hi) as (x & _ & Hx). by eapply Hx.
  - intros signer o s1 s2 Hin Hs b0 a0 ->. apply bind_ok in Hs as (bal & w2 & _ & Hs). apply bind_ok in Hs as (u & w3 & _ & Hs).
    case_bool_decide as Hb; [done|]. injection Hs as _ <- _. apply list_elem_of_In, filter_In.
    split; [by apply list_elem_of_In|]. by rewrite bool_decide_false.
Qed.

Lemma read_run {A} (f : Timestamp -> Exec.t -> result DbError A) w :
  read env f w = (db (f (Env.clock env (World.tick w)) (Env.others env (World.tick w) (World.store w))),
    {| w with World.store := Env.others env (World.tick w) (World.store w); World.tick := S (World.tick w) |}).
Proof. unfold read, commit. by destruct (f _ _). Qed.

Lemma bind_read {A B} (f : Timestamp -> Exec.t -> result DbError A) (k : A -> eff ExecutorError World.t B) w :
  bind (read env f) k w =
    let s := Env.others env (World.tick w) (World.store w) in
    let w' := {| w with World.store := s; World.tick := S (World.tick w) |} in
    match db (f (Env.clock env (World.tick w)) s) with Ok a => k a w' | Err e => (Err e, w') end.
Proof. unfold bind. rewrite read_run. by destruct (f _ _). Qed.

(** From the start of the jobs, at step [n]: the queue is read, and if it holds
    jobs the signers' lanes are. *)
Definition starts_from (n : nat) (s s' : Exec.t) : Prop :=
  let s1 := Env.others env n s in
  match queued_jobs (chain_id config) (Env.clock env n) s1 with
  | Err _ | Ok [] => s' = s1
  | Ok queued =>
      let s2 := Env.others env (S n) s1 in
      rtc (starting queued (idle (busy_signers (chain_id config) s2))) s2 s'
  end.

Lemma start_queued_starts r w : starts_from (World.tick w) (World.store w) (World.store (snd (start_queued env r w))).
Proof.
  unfold start_queued, bind at 1, attempt at 1. rewrite read_run. unfold starts_from, db.
  destruct (queued_jobs _ _ _) as [[|j queued]|e] eqn:Hq; [done| |done].
  rewrite bind_read. cbn [db]. set (busy := busy_signers _ _).
  match goal with |- rtc _ ?s (World.store (snd (_ ?w1))) => change s with (World.store w1) end.
  apply (steps_bind (starting (j :: queued) (idle busy))); [apply free_signers_steps|]. intros free w2 Hf.
  assert (of_pass (j :: queued) (idle busy) (j :: queued) free []) as Hof.
  { split_and!; [done|by eapply free_signers_idle|by intros ? ? ?%not_elem_of_nil]. }
  destruct (coordinate_steps _ _ (length (j :: queued) + length free + 1) _ _ _ r w2 Hof) as [Hc Hl].
  apply steps_bind; [exact Hc|]. intros [[left r']|] w3 Hd; [|apply steps_throw]. apply laneless_steps. by eapply Hl.
Qed.

(** What a pass that begins at step [n] may make of the store [s]: it reads the
    open slots and reconciles those; then it reads the chain's halts, and starts
    jobs only when there is none. *)
Definition pass_makes (n : nat) (s s' : Exec.t) : Prop :=
  let s0 := Env.others env n s in
  match open_transactions (chain_id config) s0 with
  | Err _ => s' = s0
  | Ok open => exists m sr, rtc (fun a b => exists t, t ∈ open /\ reconciling t a b) s0 sr /\
      let s1 := Env.others env m sr in
      if is_halted (chain_id config) s1 then s' = s1 else starts_from (S m) s1 s'
  end.

Lemma reconcile_all_steps (open : list OpenTransaction.t) : forall l r w, (forall t, t ∈ l -> t ∈ open) ->
  steps_by (fun a b => exists t, t ∈ open /\ reconciling t a b) (reconcile_all env l r) w.
Proof.
  induction l as [|t l IH]; intros r w Hl; cbn [reconcile_all]; [apply steps_ret|].
  apply steps_bind; [apply steps_attempt|intros o w1 _; apply IH; intros x Hx; apply Hl; by right].
  unfold steps_by. pose proof (settles_steps _ _ _ (reconcile_settles t w)) as H. unfold steps_by in H.
  eapply rtc_subrel; [|exact H]. intros a b Hab. exists t. split; [apply Hl; by left|done].
Qed.

End Reading.

(** ** The pass ends *)

Section Ends.
Context (env : Env.t).

(** A computation that always answers. *)
Definition total {A} (c : eff ExecutorError World.t A) : Prop := forall w, exists a, fst (c w) = Ok a.

Lemma total_ret {A} (a : A) : total (ret a).
Proof. intros w. by exists a. Qed.

Lemma total_attempt {A} (c : eff ExecutorError World.t A) : total (attempt c).
Proof. intros w. unfold attempt. destruct (c w) as [r w']. by exists r. Qed.

Lemma total_bind {A B} (c : eff ExecutorError World.t A) (k : A -> eff ExecutorError World.t B) :
  total c -> (forall a, total (k a)) -> total (bind c k).
Proof.
  intros Hc Hk w. destruct (Hc w) as [a Ha]. unfold bind. destruct (c w) as [r w']. simpl in Ha. subst r. apply Hk.
Qed.

Lemma total_traverse {A B} (f : A -> eff ExecutorError World.t B) l : (forall x, total (f x)) -> total (traverse f l).
Proof.
  intros Hf. induction l as [|x l IH]; simpl; [apply total_ret|].
  apply total_bind; [done|]. intros b. apply total_bind; [done|]. intros bs. apply total_ret.
Qed.

Lemma total_commit {A} (f : Timestamp -> Uuid -> Exec.t -> A * Exec.t) :
  total (commit env (fun now id s => Ok (f now id s))).
Proof. intros w. unfold commit. destruct (f _ _ _) as [a s]. by exists a. Qed.

Lemma total_reconcile_all open r : total (reconcile_all env open r).
Proof.
  revert r. induction open as [|t open IH]; intros r; cbn [reconcile_all]; [apply total_ret|].
  apply total_bind; [apply total_attempt|done].
Qed.

Lemma total_start_laneless pending r : total (start_laneless env pending r).
Proof.
  revert r. induction pending as [|j pending IH]; intros r; cbn [start_laneless]; [apply total_ret|].
  apply total_bind; [apply total_attempt|]. intros o. apply IH.
Qed.

Lemma total_free_signers busy : total (free_signers env busy).
Proof.
  unfold free_signers. apply total_bind; [|intros; apply total_ret]. apply total_traverse. intros signer.
  apply total_bind; [apply total_attempt|]. intros balance.
  apply total_bind; [exact (total_commit (fun now id s => (tt, _)))|].
  intros _. case_bool_decide; apply total_ret.
Qed.

(** *** The coordinator *)

Lemma fill_measure pending free starts pending' free' starts' :
  fill pending free starts = (pending', free', starts') ->
  (length pending' + length free' + 2 * length starts' = length pending + length free + 2 * length starts)%nat.
Proof.
  revert free starts. induction pending as [|j pending IH]; intros [|a free] starts; simpl;
    try by intros [= <- <- <-]. intros Hf%IH. rewrite length_app in Hf. simpl in Hf. lia.
Qed.

Lemma total_coordinate fuel pending free starts r w :
  (length pending + length free + 2 * length starts < fuel)%nat ->
  exists left r', fst (coordinate env fuel pending free starts r w) = Ok (Some (left, r')).
Proof.
  revert pending free starts r w. induction fuel as [|fuel IH]; intros pending free starts r w Hfuel; [lia|].
  cbn [coordinate]. destruct (fill pending free starts) as [[p f] st] eqn:Hfill. apply fill_measure in Hfill.
  unfold bind at 1, get at 1. simpl.
  destruct (st !! _) as [[j a]|] eqn:Hst; [|by exists p, r].
  pose proof (length_delete st _ (ex_intro _ _ Hst)) as Hdel. apply lookup_lt_Some in Hst.
  unfold bind at 1, attempt. assert (length (World.lane (snd (start env j [a] w))) <= 1)%nat as Hlane by (destruct (start_lane env a j w) as [-> | ->]; cbn; lia).
  destruct (start env j [a] w) as [o w1]. simpl in Hlane.
  unfold bind, get. simpl.
  destruct o as [[]|e]; apply IH; rewrite ?length_app; simpl; lia.
Qed.

(** A pass always ends with a report: its coordinator of concurrent
    starts stops whatever order they finish in, because every start consumes
    a job or a signer, and an error of one slot or job never stops the rest. *)
Theorem pass_always_reports w : exists r, fst (pass env w) = Ok r.
Proof.
  revert w. change (total (pass env)). unfold pass, reconcile_and_start.
  apply total_bind; [by intros w; exists tt|]. intros _. apply total_bind; [apply total_attempt|]. intros [open|e]; [|apply total_ret].
  apply total_bind; [apply total_reconcile_all|]. intros r.
  apply total_bind; [exact (total_commit (fun _ _ s => (is_halted (chain_id (Env.config env)) s, s)))|].
  intros []; [apply total_ret|]. unfold start_queued.
  apply total_bind; [apply total_attempt|]. intros [[|j queued]|e]; [apply total_ret| |apply total_ret].
  apply total_bind; [exact (total_commit (fun _ _ s => (busy_signers (chain_id (Env.config env)) s, s)))|]. intros busy.
  apply total_bind; [apply total_free_signers|]. intros free w.
  destruct (total_coordinate (length (j :: queued) + length free + 1) (j :: queued) free [] r w) as (left & r' & Hc); [simpl; lia|].
  unfold bind. destruct (coordinate _ _ _ _ _ _ _) as [o w']. simpl in Hc. rewrite Hc. apply total_start_laneless.
Qed.

End Ends.

(** ** The pass as a whole *)

Lemma pass_effect env w : pass_makes env (World.tick w) (World.store w) (World.store (snd (pass env w))).
Proof.
  unfold pass, bind at 1, reset_fees. set (w0 := World.mk _ _ _ _).
  change (World.tick w) with (World.tick w0). change (World.store w) with (World.store w0). generalize w0. clear w0. intros w0.
  remember (World.store (snd (reconcile_and_start env w0))) as s' eqn:Hs. unfold reconcile_and_start, bind at 1, attempt in Hs.
  rewrite read_run in Hs. unfold pass_makes. unfold db in Hs. destruct (open_transactions _ _) as [open|e] eqn:Ho; [|done].
  set (w1 := World.mk _ _ _ _) in Hs. pose proof (reconcile_all_steps env open open PassReport.default w1 ltac:(done)) as Hr. unfold steps_by in Hr.
  destruct (total_reconcile_all env open PassReport.default w1) as [r Hok]. unfold bind at 1 in Hs.
  destruct (reconcile_all env open PassReport.default w1) as [o w2]. cbn in Hok, Hr. subst o.
  exists (World.tick w2), (World.store w2). split; [exact Hr|]. rewrite bind_read in Hs. cbn [db] in Hs.
  destruct (is_halted _ _); [done|]. subst s'.
  match goal with |- context [start_queued env r ?w3] => exact (start_queued_starts env r w3) end.
Qed.

(** C25. What a pass of the executor may do to the store, whatever the node
    answers, whoever else commits between its transactions and however it ends.  It
    reads the chain's open slots and touches no others: a slot's receipt is
    recorded when the node gave one for a signed attempt, and cleared when the
    receipt's block is no longer canonical; the slot is concluded only on the
    evidence of [grounds]; another attempt is added only when the slot waited its
    timeout out, its nonce was not mined and it has a submission left, and it is the
    same call at the same nonce for a higher fee; bytes are marked sent after the
    node took them.  Then it reads the halts of the chain and starts nothing when
    there is one.  Otherwise it works through the jobs queued at that time: a slot
    is opened for the job's own call, on a signer of the deployment that had no open
    slot and whose mined and pending counts agreed, at that count as its nonce; a
    job is concluded without a slot only when its step happened elsewhere or its
    deadline passed, or when starting it failed for good or too often, and deferred
    only when that failure may pass and attempts are left. *)
Theorem pass_refines_store env w : pass_makes env (World.tick w) (World.store w) (World.store (snd (pass env w))).
Proof. apply pass_effect. Qed.

(** C23. Reconciling a slot concludes its job only on evidence: a receipt of a
    signed attempt whose block was read, after the receipt, at or below the finality
    boundary and canonical (and, for a sweep, is still canonical after its items
    were classified), or a mined count past the slot's nonce, after which a receipt
    was looked for and not found for every attempt; that abandons a sweep but
    concludes a withdrawal step only when its precondition shows that it happened.
    Before that it records at most the receipt, and others' transactions come in
    between. *)
Theorem reconcile_concludes_on_evidence env t w w' :
  reconcile env t w = (Ok true, w') ->
  exists s js ts event now id, rtc (noting env t) (World.store w) s /\ grounds env t event /\
    resolve_tx (Env.payload_hash env) t js ts event now id s = Ok (tt, World.store w').
Proof. intros H. pose proof (reconcile_settles env t w) as Hs. unfold settles in Hs. by rewrite H in Hs. Qed.

(** *** These are transactions of the store *)

Section Refinement.
Context (env : Env.t) (others_run : forall n s, rtc (exec_step (Env.payload_hash env) (Env.config env)) s (Env.others env n s)).

#[local] Abbreviation run := (rtc (exec_step (Env.payload_hash env) (Env.config env))).

Lemma reconciling_run t s s' : reconciling env t s s' -> run s s'.
Proof.
  intros [n|h r n _ _|h r n k header _ _ _ _|js ts event now id d Hg Hr|now id d _ _ Hr|a now id d _ Hr|a now id d _ _ Hr].
  - apply others_run.
  - apply rtc_once, ex_mined.
  - apply rtc_once, ex_clear.
  - apply grounds_conclude in Hg as [H1 H2]. by eapply rtc_once, ex_resolve.
  - by eapply rtc_once, ex_stall.
  - by eapply rtc_once, ex_attempt.
  - by eapply rtc_once, ex_broadcast.
Qed.

Lemma abandon_event_id config j reason :
  Event.job_id (abandon_event config j reason) = Job.id j /\ conclusive (abandon_event config j reason) = true.
Proof. unfold abandon_event. by destruct (Job.command j). Qed.

Lemma starting_run queued free s s' : starting env queued free s s' -> run s s'.
Proof.
  intros [n|signer status now|j js event now id d _ Hg Hr|j signer new now id d _ _ _ Hr|j signer new at_ slot now id d _ _ _ _ Hr
    |j e l w w' next now id d _ _ _ _ Hr].
  - apply others_run.
  - apply rtc_once, ex_signer_status.
  - assert (Event.job_id event = Job.id j /\ conclusive event = true) as [H1 H2] by (destruct Hg; try done; apply abandon_event_id).
    by eapply rtc_once, ex_conclude.
  - by eapply rtc_once, ex_begin.
  - by eapply rtc_once, ex_broadcast.
  - by eapply rtc_once, ex_defer.
Qed.

Lemma run_of (R : relation Exec.t) s s' : (forall a b, R a b -> run a b) -> rtc R s s' -> run s s'.
Proof. intros HR. induction 1 as [|a b c Hab _ IH]; [apply rtc_refl|]. etrans; [by apply HR|exact IH]. Qed.

Lemma runs_pass w : run (World.store w) (World.store (snd (pass env w))).
Proof.
  pose proof (pass_effect env w) as H. unfold pass_makes in H. revert H. generalize (World.store (snd (pass env w))). intros s'.
  destruct (open_transactions _ _) as [open|e]; [|intros ->; apply others_run]. intros (m & sr & Hr & H).
  eapply rtc_trans; [apply others_run|]. eapply rtc_trans; [eapply run_of; [|exact Hr]; by intros a b (t & _ & Hab%reconciling_run)|].
  eapply rtc_trans; [apply (others_run m)|]. destruct (is_halted _ _); [subst; apply rtc_refl|]. unfold starts_from in H.
  eapply rtc_trans; [apply (others_run (S m))|].
  destruct (queued_jobs _ _ _) as [[|j queued]|e]; [subst; apply rtc_refl| |subst; apply rtc_refl].
  eapply rtc_trans; [apply (others_run (S (S m)))|]. eapply run_of; [|exact H]. intros a b. apply starting_run.
Qed.

End Refinement.

(** ** Replacement fees *)

Lemma bump_raises fee : 0 <= fee < 2 ^ 127 -> 8 * FeeEstimate.bump fee > 9 * fee /\ fee < FeeEstimate.bump fee.
Proof.
  intros Hfee. unfold FeeEstimate.bump.
  change (2 ^ 127) with 170141183460469231731687303715884105728 in Hfee.
  change (2 ^ 128) with 340282366920938463463374607431768211456.
  pose proof (Z.div_mod fee 8). pose proof (Z.mod_pos_bound fee 8).
  rewrite Z.mod_small by lia. lia.
Qed.

(** A replacement bids more than 12.5% above the attempt it replaces in
    both fees, whatever the node estimates, and never less than the
    estimate: more than the 10% a node asks of a same-nonce replacement. *)
Lemma replacement_raises_fees previous estimate :
  0 <= Attempt.max_fee_per_gas previous < 2 ^ 127 -> 0 <= Attempt.max_priority_fee_per_gas previous < 2 ^ 127 ->
  let fees := replacement_fees previous estimate in
  8 * FeeEstimate.max_fee_per_gas fees > 9 * Attempt.max_fee_per_gas previous /\
  8 * FeeEstimate.max_priority_fee_per_gas fees > 9 * Attempt.max_priority_fee_per_gas previous /\
  FeeEstimate.max_fee_per_gas estimate <= FeeEstimate.max_fee_per_gas fees /\
  FeeEstimate.max_priority_fee_per_gas estimate <= FeeEstimate.max_priority_fee_per_gas fees.
Proof.
  intros H1 H2. apply bump_raises in H1, H2. simpl. lia.
Qed.

(** ** A sweep from its command to its conclusion *)

Module ExecutorExample.
Import EvidenceExample.

(** The batch's receipt appears at call 100 and later. *)
Definition batch_receipt : SweepReceipt.t :=
  SweepReceipt.mk true 45 (hash_at 45) 2 {[payment := SoSettled 100 0]}.

Definition busy_node : Node.t :=
  {| node with
     Node.sweep_receipt n h b := Ok (if (n <? 100)%nat then None else Some batch_receipt);
     Node.prepare_sweep_batch n signer b rs nonce gas fees := Ok (Prepared.mk [nonce; 55] [1; 2; 3]) |}.

Definition env : Env.t := {|
  Env.payload_hash m := [];
  Env.chain := busy_node;
  Env.config := config;
  Env.policy := Policy.mk 60000000 3 5 (BackoffPolicy.mk (10 ^ 9) (60 * 10 ^ 9)) 1000;
  Env.clock n := 1000000 * Z.of_nat n;
  Env.fresh n := 1000 + Z.of_nat n;
  Env.jitter n := 0;
  Env.next_done n := n;
  Env.others n s := s;
  Env.describe e := "error";
|}.

Definition command : ExecutionCommand := SweepBatch (SweepBatchCommand.mk 11 8453 [item 1 payment false]).
Definition delivery : Delivery.t ExecutionCommand := Delivery.mk 500 command "sweep_batch" 9 None 0 1 501.

Definition ok_state (r : result HandlerError Exec.t) : Exec.t := match r with Ok s => s | Err _ => Exec.empty end.

Definition accepted : Exec.t := ok_state (handle_command (Env.payload_hash env) [8453] 900 5 delivery Exec.empty).
Definition started : World.t := snd (pass env (World.mk accepted None [] 0)).
Definition later : World.t := World.mk (World.store started) None [] 100.
Definition finished : World.t := snd (pass env later).

Abbreviation run := (rtc (exec_step (Env.payload_hash env) (Env.config env))).

Lemma run_accepted : run Exec.empty accepted.
Proof. eapply rtc_once, (ex_command _ _ _ [8453] 900 5 delivery). vm_compute. reflexivity. Qed.

Lemma run_started : run Exec.empty (World.store started).
Proof. eapply rtc_trans; [exact run_accepted|]. exact (runs_pass env (fun _ _ => rtc_refl _ _) (World.mk accepted None [] 0)). Qed.

Lemma run_finished : run Exec.empty (World.store finished).
Proof.
  apply (rtc_trans _ (World.store later)); [unfold later; cbn [World.store]; exact run_started|].
  unfold finished. exact (runs_pass env (fun _ _ => rtc_refl _ _) later).
Qed.

Lemma one_open_slot_per_signer_witness :
  exists t, open_transactions 8453 (World.store started) = Ok [t] /\ is_Some (OpenTransaction.newest_attempt t).
Proof.
  eexists. split; [vm_compute; reflexivity|].
  eapply (proj2 (one_open_slot_per_signer (Env.payload_hash env) (Env.config env) _ run_started) 8453);
    [vm_compute; reflexivity|by left].
Defined.

Lemma job_concluded_once_witness : exists row e mid,
  Exec.jobs (World.store finished) !! 11 = Some row /\ JobRow.state row = JobFinalized /\
  JobRow.resolution row = Some e /\ carries (Exec.bus (World.store finished)) mid e.
Proof.
  assert (exists row at_, Exec.jobs (World.store finished) !! 11 = Some row /\ JobRow.state row = JobFinalized /\
    JobRow.resolved_at row = Some at_) as (row & at_ & Hrow & Hs & Ha)
    by (eexists _, _; split_and!; [vm_compute; reflexivity|reflexivity|reflexivity]).
  pose proof (job_concluded_once (Env.payload_hash env) (Env.config env) _ _ 11 row run_finished (rtc_refl _ _) Hrow) as H.
  rewrite Ha in H. destruct H as (e & mid & H1 & _ & H2 & _).
  exists row, e, mid. split_and!; [exact Hrow|exact Hs|exact H1|exact H2].
Defined.

Lemma command_accepted_once_witness :
  handle_command (Env.payload_hash env) [] 901 77 (Delivery.mk 500 command "sweep_batch" 9 None 0 2 502) accepted = Ok accepted.
Proof.
  apply (proj1 (command_accepted_once (Env.payload_hash env) [8453] 900 5 delivery Exec.empty accepted eq_refl)).
  reflexivity.
Defined.

(** A stale halt after its resume, and a current one. *)
Definition notices : list (ChainControl * Timestamp) :=
  [(Resumed 1 8453, 1); (Halted 1 8453 "old fault", 2); (Halted 2 8453 "current fault", 3)].

Lemma halts_follow_notices_witness :
  is_halted 8453 (apply_notices notices Exec.empty) = true /\
  exists f now chain' reason, (Halted f chain' reason, now) ∈ notices /\ as_i64 chain' = as_i64 8453 /\
    ~ resumed_in notices f.
Proof.
  split; [reflexivity|]. apply (halts_follow_notices notices 8453); [|reflexivity].
  intros c1 c2 n1 n2 H1 H2 _. unfold notices in *.
  repeat (apply elem_of_cons in H1 as [[= -> ->]|H1]); try by apply not_elem_of_nil in H1.
  all: repeat (apply elem_of_cons in H2 as [[= -> ->]|H2]); first [by apply not_elem_of_nil in H2|reflexivity].
Defined.

Definition open_slot : OpenTransaction.t :=
  match open_transactions 8453 (World.store started) with
  | Ok (t :: _) => t
  | _ => OpenTransaction.mk 0 (Job.mk 0 0 0 None command Queued 0) [] 0 [] [] 0 TxPrepared 0 None None []
  end.

Lemma reconcile_concludes_on_evidence_witness :
  exists s js ts event now id, rtc (noting env open_slot) (World.store later) s /\ grounds env open_slot event /\
    resolve_tx (Env.payload_hash env) open_slot js ts event now id s = Ok (tt, World.store (snd (reconcile env open_slot later))).
Proof. apply (reconcile_concludes_on_evidence env open_slot later). vm_compute. reflexivity. Defined.

(** The first pass opens a slot for the queued job; on a halted chain it makes
    none. *)
Definition halted : World.t :=
  World.mk (apply_chain_control (Halted 2 8453 "fault") 3 accepted) None [] 0.

Lemma pass_refines_store_witness :
  pass_makes env 0 accepted (World.store started) /\ size (Exec.transactions (World.store started)) = 1%nat /\
  pass_makes env 0 (World.store halted) (World.store (snd (pass env halted))) /\
  size (Exec.transactions (World.store (snd (pass env halted)))) = 0%nat.
Proof.
  split; [exact (pass_refines_store env (World.mk accepted None [] 0))|]. split; [vm_compute; reflexivity|].
  split; [exact (pass_refines_store env halted)|vm_compute; reflexivity].
Defined.

Lemma replacement_raises_fees_witness :
  8 * FeeEstimate.max_fee_per_gas (replacement_fees (Attempt.mk 0 [] [] 100 8 None) (FeeEstimate.mk 90 20)) > 9 * 100.
Proof. apply (replacement_raises_fees (Attempt.mk 0 [] [] 100 8 None) (FeeEstimate.mk 90 20)); simpl; lia. Defined.

End ExecutorExample.
