(* ===== verification/ServerEvents.v ===== *)
(** * gum-server: applying execution events, scheduling sweeps

    Models [crates/gum-server/src/execution_events.rs], the consumer that
    turns the signers' evidence into ledger transitions, and
    [crates/gum-server/src/sweep_scheduler.rs], which fits the sweep batch to a
    chain's gas budget and drains the sweep queue. *)

From S2P Require Import Prelude Core Contracts Backoff Bus Tables Attachments Invoices Range Sweeps.
From S2P Require Import LedgerExample LedgerInv RangeInv LedgerRuns SweepTheorems.
From S2P Require Import Withdrawals WithdrawalTheorems Registry Effects Chain.
Import Withdrawal.

Implicit Types (db : Db.t) (now : Timestamp).

(** ** Execution events *)

Definition retryable_db (e : DbError) : HandlerError := Retryable "database error".

(** [sweep_outcome]: the ledger's verdict on sweep evidence, for the bus. *)
Definition sweep_outcome {A} (db : Db.t) (r : result SweepError (A * Db.t)) : result HandlerError Db.t :=
  match r with
  | Ok (_, db') => Ok db'
  | Err (NotOpen _) => Ok db
  | Err (SweepDatabase e) => Err (retryable_db e)
  | Err (SweepBus e) => Err (handler_error_of_bus e)
  | Err (ForeignItem _ _) => Err (Permanent "sweep evidence for a request that is not in the job")
  | Err (MissingOutcomes _ _) => Err (Permanent "sweep evidence misses requests of the job")
  | Err (Unbound _) => Err (Permanent "request is not bound")
  | Err (SweepDecode _ _) => Err (Permanent "request does not decode")
  end.

Section Events.
Context (describe_abandon : AbandonReason -> string).
Context (sweep_policy : SweepPolicy.t) (step_policy : StepPolicy.t).
(** The process's clock, from which the next attestation check is set. *)
Context (utc_now : Timestamp).

(** [ExecutionEventHandler::handle]. *)
Definition handle_event (now : Timestamp) (d : Delivery.t ExecutionEvent) (db : Db.t) : result HandlerError Db.t :=
  match Delivery.message d with
  | SweepSubmitted job_id _ _ _ tx_hash _ => Ok (record_sweep_submission job_id tx_hash now db)
  | SweepFinalized job_id _ tx_hash block block_hash block_timestamp transaction_index items =>
      let receipt := FinalizedSweep.mk job_id tx_hash block block_hash block_timestamp transaction_index items in
      sweep_outcome db (apply_sweep_finalized receipt sweep_policy now db)
  | SweepAbandoned job_id _ reason => sweep_outcome db (apply_sweep_abandoned job_id reason now db)
  | WithdrawalStepFinalized job_id _ _ step r =>
      match apply_step_result describe_abandon job_id step r step_policy utc_now now db with
      | Ok (_, db') => Ok db'
      | Err (StepNotOpen _) => Ok db
      | Err (StepDatabase e) => Err (retryable_db e)
      | Err (Mismatch _ _ _) => Err (Permanent "step result names the wrong step")
      end
  | ExecutionStalled _ _ _ _ => Ok db
  | ExecutionRejected job_id _ reason =>
      match apply_sweep_rejected job_id reason now db with
      | Ok (_, db') => Ok db'
      | Err (NotOpen _) =>
          match reject_step job_id reason now db with
          | Ok (_, db') => Ok db'
          | Err (StepDatabase e) => Err (retryable_db e)
          | Err _ => Err (Permanent "unreachable: a rejection reports only database errors")
          end
      | Err e => sweep_outcome (A := Z) db (Err e)
      end
  end.

End Events.

(** ** The sweep scheduler *)

Definition SCHEDULER : string := "gum-server".
Definition MAX_BATCHES_PER_PASS : nat := 16.

Inductive SweepPolicyError := PolicyError (chain_id : Z) (problem : string).

Definition u32_try_from (x : Z) : option Z := if x <=? u32_max then Some x else None.

(** [resolve_sweep_policy]: the chain's batch size from its gas budget. *)
Definition resolve_sweep_policy (chain_id : Z) (chain : ChainConfig.t) (base : SweepPolicy.t)
  : result SweepPolicyError SweepPolicy.t :=
  let problem what := PolicyError chain_id what in
  if negb (is_some (ChainConfig.block_gas_limit chain))
     && (is_some (ChainConfig.sweep_batch_size chain) || is_some (ChainConfig.transaction_gas_limit chain))
  then Err (problem "sweep_batch_size or transaction_gas_limit set without block_gas_limit")
  else
    let! batch_size :=
      match ChainConfig.sweep_batch_size chain, ChainConfig.block_gas_limit chain with
      | None, None => Ok (SweepPolicy.batch_size base)
      | explicit, Some block_gas_limit =>
          let budget := Z.min (block_gas_limit / 2) (default u64_max (ChainConfig.transaction_gas_limit chain)) in
          let capacity := sweep_batch_capacity budget in
          if capacity =? 0 then Err (problem "gas budget cannot carry even one sweep batch item")
          else
            let! capacity := ok_or (u32_try_from capacity) (problem "derived sweep batch size overflows u32") in
            match explicit with
            | Some explicit =>
                if capacity <? explicit then Err (problem "sweep_batch_size exceeds the gas budget's capacity")
                else Ok explicit
            | None => Ok capacity
            end
      | Some explicit, None => Ok explicit
      end in
    Ok {| base with SweepPolicy.batch_size := batch_size |}.

(** The policies of a scheduler, resolved once for every configured chain. *)
Fixpoint resolve_policies (base : SweepPolicy.t) (chains : list ChainConfig.t)
  : result SweepPolicyError (list (Z * SweepPolicy.t)) :=
  match chains with
  | [] => Ok []
  | chain :: chains' =>
      let! policy := resolve_sweep_policy (ChainConfig.chain_id chain) chain base in
      let! policies := resolve_policies base chains' in
      Ok ((ChainConfig.chain_id chain, policy) :: policies)
  end.

Module SchedulerReport.
Record t := mk { jobs : list Uuid; deposit_requests : Z }.
Definition default : t := mk [] 0.
End SchedulerReport.

Section Scheduler.
Context (payload_hash : Message -> B256) (parse_address : string -> option Address).
(** The identifiers and the time of each batch of the pass. *)
Context (job_id correlation_id message_id : nat -> Uuid) (clock : nat -> Timestamp).

(** The batches of a pass: each commits on its own, so an error keeps what
    was scheduled before it. *)
Fixpoint schedule_batches (batches : nat) (chain_id : Z) (policy : SweepPolicy.t) (report : SchedulerReport.t)
  : eff SweepError Db.t SchedulerReport.t :=
  match batches with
  | O => ret report
  | S batches =>
      let* scheduled := transaction (schedule_sweep_job payload_hash parse_address chain_id policy SCHEDULER
                          (job_id batches) (correlation_id batches) (message_id batches) (clock batches)) in
      match scheduled with
      | None => ret report
      | Some job =>
          schedule_batches batches chain_id policy
            (SchedulerReport.mk (SchedulerReport.jobs report ++ [ScheduledSweepJob.job_id job])
               (SchedulerReport.deposit_requests report + Z.of_nat (length (ScheduledSweepJob.invoice_ids job))))
      end
  end.

(** [SweepScheduler::pass]; the report of stuck jobs only logs. *)
Definition scheduler_pass (chain_id : Z) (policy : SweepPolicy.t) : eff SweepError Db.t SchedulerReport.t :=
  schedule_batches MAX_BATCHES_PER_PASS chain_id policy SchedulerReport.default.

End Scheduler.

(** ** Batches fit their gas budget *)

Lemma capacity_inverse n budget :
  1 <= n -> 0 <= budget < u64_max -> sweep_batch_gas_limit n <= budget <-> n <= sweep_batch_capacity budget.
Proof.
  unfold sweep_batch_gas_limit, sweep_batch_capacity, u64_saturating_add, u64_saturating_mul, u64_saturating_sub,
    SWEEP_BATCH_BASE_GAS, SWEEP_GAS_PER_ITEM, u64_max. change (2 ^ 64) with 18446744073709551616.
  intros Hn Hb. pose proof (Z.div_mod (Z.max (budget - 100000) 0) 400000).
  pose proof (Z.mod_pos_bound (Z.max (budget - 100000) 0) 400000). lia.
Qed.

Lemma base_gas_fits budget : 0 < sweep_batch_capacity budget -> sweep_batch_gas_limit 0 <= budget.
Proof.
  unfold sweep_batch_capacity, u64_saturating_sub, SWEEP_BATCH_BASE_GAS, SWEEP_GAS_PER_ITEM. intros H.
  change (sweep_batch_gas_limit 0) with 100000.
  destruct (Z.le_gt_cases 100000 budget); [done|]. rewrite Z.max_r in H by lia. done.
Qed.

(** A chain with a gas configuration never gets a sweep batch that its
    budget cannot carry: the gas of a full batch is at most half the block
    limit and at most the transaction limit, and a batch size derived from
    the budget is the largest such one. *)
Theorem batch_fits_gas_budget chain_id chain base policy limit :
  resolve_sweep_policy chain_id chain base = Ok policy ->
  ChainConfig.block_gas_limit chain = Some limit -> 0 <= limit < u64_max ->
  (forall t, ChainConfig.transaction_gas_limit chain = Some t -> 0 <= t < u64_max) ->
  (forall b, ChainConfig.sweep_batch_size chain = Some b -> 0 <= b) ->
  let budget := Z.min (limit / 2) (default u64_max (ChainConfig.transaction_gas_limit chain)) in
  sweep_batch_gas_limit (SweepPolicy.batch_size policy) <= budget /\
  (ChainConfig.sweep_batch_size chain = None ->
     forall n, SweepPolicy.batch_size policy < n -> budget < sweep_batch_gas_limit n).
Proof.
  intros H Hl Hlim Htx Hexp budget. unfold resolve_sweep_policy in H. rewrite Hl in H. simpl in H.
  apply rbind_ok in H as (size & Hsize & [= <-]). simpl.
  assert (0 <= budget < u64_max) as Hb.
  { unfold budget. pose proof (Z.div_pos limit 2). pose proof (Z.div_le_upper_bound limit 2 limit).
    destruct (ChainConfig.transaction_gas_limit chain) as [t|]; simpl; [pose proof (Htx t eq_refl)|]; lia. }
  fold budget in Hsize. destruct (Z.eqb_spec (sweep_batch_capacity budget) 0) as [|Hne]; [by destruct (ChainConfig.sweep_batch_size chain)|].
  assert (0 < sweep_batch_capacity budget) as Hpos.
  { assert (0 <= sweep_batch_capacity budget); [|lia]. apply Z.div_pos; unfold u64_saturating_sub, SWEEP_GAS_PER_ITEM; lia. }
  assert (forall b, 0 <= b <= sweep_batch_capacity budget -> sweep_batch_gas_limit b <= budget) as Hfit.
  { intros b Hb1. destruct (Z.eq_dec b 0) as [->|]; [by apply base_gas_fits|]. apply capacity_inverse; lia. }
  destruct (ChainConfig.sweep_batch_size chain) as [b|]; apply rbind_ok in Hsize as (cap & Hcap%ok_or_ok & Hsize);
    unfold u32_try_from in Hcap; (destruct (_ <=? u32_max); [|done]); injection Hcap as <-.
  - destruct (Z.ltb_spec (sweep_batch_capacity budget) b); [done|]. injection Hsize as <-. split; [|done].
    apply Hfit. pose proof (Hexp b eq_refl). lia.
  - injection Hsize as <-. split; [apply Hfit; lia|]. intros _ n Hn. apply Z.nle_gt. rewrite capacity_inverse by lia. lia.
Qed.

(** ** A scheduler pass *)

Section SchedulerRuns.
Context (payload_hash : Message -> B256) (parse_address : string -> option Address).
Context (job_id correlation_id message_id : nat -> Uuid) (clock : nat -> Timestamp).

Lemma schedule_none_same chain policy producer j corr m now db db' :
  schedule_sweep_job payload_hash parse_address chain policy producer j corr m now db = Ok (None, db') -> db' = db.
Proof.
  unfold schedule_sweep_job. destruct (halted _ db); [by intros [= <-]|]. destruct (is_some _); [done|].
  intros (rows & _ & H)%rbind_ok. destruct rows; [by injection H as <-|].
  apply rbind_ok in H as (items & _ & H). by destruct (publish _ _ _ _ _ _ _ _) as [[? ?]|].
Qed.

(** A pass of the scheduler opens at most sixteen jobs, and one that opens
    fewer has emptied the chain's queue: scheduling once more finds nothing
    and changes nothing. *)
Lemma scheduler_pass_drains chain policy db r db' :
  scheduler_pass payload_hash parse_address job_id correlation_id message_id clock chain policy db = (Ok r, db') ->
  (length (SchedulerReport.jobs r) <= MAX_BATCHES_PER_PASS)%nat /\
  ((length (SchedulerReport.jobs r) < MAX_BATCHES_PER_PASS)%nat ->
   exists n, schedule_sweep_job payload_hash parse_address chain policy SCHEDULER (job_id n) (correlation_id n)
     (message_id n) (clock n) db' = Ok (None, db')).
Proof.
  unfold scheduler_pass.
  assert (forall n report db, schedule_batches payload_hash parse_address job_id correlation_id message_id clock n chain
      policy report db = (Ok r, db') ->
    (length (SchedulerReport.jobs r) <= length (SchedulerReport.jobs report) + n)%nat /\
    ((length (SchedulerReport.jobs r) < length (SchedulerReport.jobs report) + n)%nat ->
     exists k, schedule_sweep_job payload_hash parse_address chain policy SCHEDULER (job_id k) (correlation_id k)
       (message_id k) (clock k) db' = Ok (None, db'))) as Hloop.
  2: { intros H. apply Hloop in H. exact H. }
  induction n as [|n IH]; intros report db1; cbn [schedule_batches].
  - intros [= <- <-]. lia.
  - intros (o & db2 & Ht & Hk)%bind_ok. unfold transaction in Ht.
    destruct (schedule_sweep_job _ _ _ _ _ _ _ _ _ db1) as [[o' db3]|e] eqn:Hs; [|done]. injection Ht as -> ->.
    destruct o as [job|].
    + apply IH in Hk. simpl in Hk. rewrite length_app in Hk. simpl in Hk. destruct Hk as [? Hlt]. split; [lia|].
      intros ?. apply Hlt. lia.
    + injection Hk as <- <-. split; [lia|]. intros _. exists n.
      pose proof (schedule_none_same _ _ _ _ _ _ _ _ _ Hs) as ->. exact Hs.
Qed.

End SchedulerRuns.

(** ** Redelivery *)

(** Events that end a job, as opposed to progress reports. *)
Definition ends_job (e : ExecutionEvent) : bool :=
  match e with SweepSubmitted _ _ _ _ _ _ | ExecutionStalled _ _ _ _ => false | _ => true end.

(** The identifiers of sweep jobs and of withdrawal steps are fresh: no leg
    runs a sweep job. *)
Definition jobs_apart (db : Db.t) : Prop :=
  forall job, is_Some (Db.sweep_jobs db !! job) -> leg_of_job job db = None.

Definition sweep_job_closed (job : Uuid) (db : Db.t) : Prop :=
  exists j, Db.sweep_jobs db !! job = Some j /\ SweepJob.is_open j = false.

Lemma finalized_closes receipt policy now db a db' :
  apply_sweep_finalized receipt policy now db = Ok (a, db') -> sweep_job_closed (FinalizedSweep.job_id receipt) db'.
Proof.
  intros (db1 & _ & _ & _ & Hres)%finalized_parts.
  apply resolve_job_parts in Hres as (j & j' & _ & _ & Hc & _ & E & _). exists j'. by rewrite E, lookup_insert_eq.
Qed.

Lemma resolve_job_legs job res detail tx now db db' :
  resolve_job job res detail tx now db = Ok db' ->
  Db.withdrawal_legs db' = Db.withdrawal_legs db /\ Db.withdrawals db' = Db.withdrawals db.
Proof. unfold resolve_job. repeat case_match; intros; inv_ok; done. Qed.

Lemma without_effect_closes job res detail tx now db n db' :
  close_without_effect job res detail tx now db = Ok (n, db') ->
  sweep_job_closed job db' /\ is_Some (Db.sweep_jobs db !! job) /\
  Db.withdrawal_legs db' = Db.withdrawal_legs db /\ Db.withdrawals db' = Db.withdrawals db.
Proof.
  unfold close_without_effect. destruct (job_open job db); [|done]. simpl.
  intros (db2 & Hres & [= _ <-])%rbind_ok. destruct (resolve_job_legs _ _ _ _ _ _ _ Hres) as [El Ew].
  apply resolve_job_parts in Hres as (j & j' & Hj & _ & Hc & _ & E & _). simpl in Hj. split_and!; [|by eauto|done|done].
  exists j'. by rewrite E, lookup_insert_eq.
Qed.

Lemma leg_of_job_same job db db' :
  Db.withdrawal_legs db' = Db.withdrawal_legs db -> Db.withdrawals db' = Db.withdrawals db ->
  leg_of_job job db' = leg_of_job job db.
Proof. intros El Ew. unfold leg_of_job. by rewrite El, Ew. Qed.

Lemma job_open_closed job db : job_open job db = true -> exists j, Db.sweep_jobs db !! job = Some j /\ SweepJob.is_open j = true.
Proof. unfold job_open. destruct (Db.sweep_jobs db !! job); [eauto|done]. Qed.

Lemma resolve_open job res detail tx now db e :
  job_open job db = true -> resolve_job job res detail tx now db <> Err e.
Proof. intros (j & Hj & Ho)%job_open_closed. unfold resolve_job. by rewrite Hj, Ho. Qed.

Lemma apply_item_not_open receipt policy now s item j : apply_item receipt policy now s item <> Err (NotOpen j).
Proof.
  unfold apply_item. destruct s as [applied db]. destruct (Db.invoices db !! _) as [row|]; simpl; [|done].
  destruct (negb _); [done|]. destruct (decide_item _ _ _ _) as [d| |reason]; simpl; [|done|done].
  unfold apply_drain. by repeat case_match.
Qed.

Lemma finalized_not_open receipt policy now db j :
  apply_sweep_finalized receipt policy now db = Err (NotOpen j) -> job_open (FinalizedSweep.job_id receipt) db = false.
Proof.
  unfold apply_sweep_finalized. destruct (job_open _ db) eqn:Ho; [|done]. simpl. intros H. exfalso.
  destruct (try_fold _ _ _) as [[applied db1]|e] eqn:Hf; simpl in H.
  - destruct (negb _); [done|].
    assert (job_open (FinalizedSweep.job_id receipt) db1 = true) as Ho1.
    { unfold job_open in *. apply apply_items_jobs in Hf. simpl in Hf. by rewrite Hf. }
    destruct (resolve_job _ _ _ _ _ _) as [db2|e] eqn:Hr; [done|]. by apply (resolve_open _ _ _ _ _ _ _ Ho1) in Hr.
  - injection H as ->. revert Hf. generalize (AppliedSweep.empty, db).
    induction (FinalizedSweep.items receipt) as [|item items IH]; intros s; simpl; [done|].
    destruct (apply_item receipt policy now s item) as [s1|e] eqn:Hi; simpl; [apply IH|].
    intros [= ->]. by apply apply_item_not_open in Hi.
Qed.

Lemma without_effect_not_open job res detail tx now db j :
  close_without_effect job res detail tx now db = Err (NotOpen j) -> job_open job db = false.
Proof.
  unfold close_without_effect. destruct (job_open job db) eqn:Ho; [|done]. simpl. intros H. exfalso.
  destruct (resolve_job _ _ _ _ _ _) as [db2|e] eqn:Hr; [done|].
  eapply (resolve_open job); [|exact Hr]. exact Ho.
Qed.

Lemma closed_refuses job db :
  sweep_job_closed job db ->
  (forall receipt policy now, FinalizedSweep.job_id receipt = job ->
     apply_sweep_finalized receipt policy now db = Err (NotOpen job)) /\
  (forall reason now, apply_sweep_abandoned job reason now db = Err (NotOpen job)) /\
  (forall reason now, apply_sweep_rejected job reason now db = Err (NotOpen job)).
Proof. intros (j & Hj & Hc). by eapply closed_rejects. Qed.

Lemma fail_leg_parts id row reason now db a db' :
  fail id row reason now db = Ok (a, db') ->
  Db.sweep_jobs db' = Db.sweep_jobs db /\
  exists l, Db.withdrawal_legs db' = <[id := l]> (Db.withdrawal_legs db) /\ Leg.step_job_id l = None.
Proof.
  unfold fail. intros (db1 & Hst%step_db_ok & [= _ <-])%rbind_ok.
  assert (Db.sweep_jobs (settle_in (Leg.withdrawal_id row) now db1) = Db.sweep_jobs db1) as ->
    by (unfold settle_in; by repeat case_match).
  rewrite settle_in_legs. unfold store_leg in Hst. repeat case_match; inv_ok. split; [done|]. by eexists.
Qed.

(** A leg whose step was taken from it no longer answers for the job. *)
Lemma leg_freed job db db' id l l' :
  rows_ok db -> wd_ok db' -> leg_of_job job db = Some (id, l) ->
  Db.withdrawal_legs db' = <[id := l']> (Db.withdrawal_legs db) -> Leg.step_job_id l' = None ->
  leg_of_job job db' = None.
Proof.
  intros Hrows Hok' [Hl Hj]%leg_of_job_some El Hn. apply (leg_of_job_none job db' Hok'). intros k x. rewrite El.
  intros [[<- <-]|[Hne Hk]]%lookup_insert_Some; [congruence|]. intros Hx. apply Hne. by eapply (row_job _ Hrows id k l x job).
Qed.

Section Redelivery.
Context (describe_abandon : AbandonReason -> string).
Context (sweep_policy : SweepPolicy.t) (step_policy : StepPolicy.t).

(** A result for a step that no leg runs is refused whatever its time. *)
Lemma step_not_open job step r utc now utc' now' db j :
  apply_step_result describe_abandon job step r step_policy utc now db = Err (StepNotOpen j) ->
  apply_step_result describe_abandon job step r step_policy utc' now' db = Err (StepNotOpen job).
Proof.
  unfold apply_step_result. destruct (leg_of_job job db) as [[k l]|]; simpl; [|done].
  destruct (leg_try_from l) as [row|e]; simpl; [|done]. destruct (step_kind row) as [expected|]; simpl; [|done].
  destruct (negb _); [done|]. intros H. exfalso. revert H.
  unfold advance, retry_or_fail, fail, store_leg. repeat (case_match; simpl; try done).
Qed.

Lemma rejected_again job reason now now' db db' j b :
  wd_ok db -> rows_ok db ->
  apply_sweep_rejected job reason now db = Err (NotOpen j) -> reject_step job reason now db = Ok (b, db') ->
  apply_sweep_rejected job reason now' db' = Err (NotOpen job) /\ leg_of_job job db' = None.
Proof.
  intros Hok Hrows Hno Hr. pose proof (good_reject _ _ _ _ _ _ Hok Hr) as [Hok' _].
  apply without_effect_not_open in Hno as Ho.
  assert (Db.sweep_jobs db' = Db.sweep_jobs db /\ leg_of_job job db' = None) as [Ej Hn].
  { unfold reject_step in Hr. destruct (leg_of_job job db) as [[id l]|] eqn:Hl; [|by injection Hr as _ <-].
    apply rbind_ok in Hr as (row & ->%step_db_ok%try_from_same & Hr). apply rbind_ok in Hr as ([a d] & Hf & [= _ <-]).
    apply fail_leg_parts in Hf as (Ej & l' & El & Hn). split; [done|]. by eapply leg_freed. }
  split; [|done]. unfold apply_sweep_rejected, close_without_effect, job_open in *. by rewrite Ej, Ho.
Qed.

Lemma step_again job step r utc utc' now now' db db' :
  wd_ok db -> rows_ok db ->
  match apply_step_result describe_abandon job step r step_policy utc now db with
  | Ok (_, db') => Ok db' | Err (StepNotOpen _) => Ok db | Err (StepDatabase e) => Err (retryable_db e)
  | Err (Mismatch _ _ _) => Err (Permanent "step result names the wrong step")
  end = Ok db' ->
  match apply_step_result describe_abandon job step r step_policy utc' now' db' with
  | Ok (_, db') => Ok db' | Err (StepNotOpen _) => Ok db' | Err (StepDatabase e) => Err (retryable_db e)
  | Err (Mismatch _ _ _) => Err (Permanent "step result names the wrong step")
  end = Ok db'.
Proof.
  intros Hok Hrows. destruct (apply_step_result describe_abandon job step r step_policy utc now db) as [[a db1]|[]] eqn:Ha; try done.
  - intros [= <-]. pose proof (good_result _ _ _ _ _ _ _ _ _ _ Hok Ha) as [Hok' _].
    apply result_clears_step in Ha as (k & l & l' & Hl & El & Hn).
    unfold apply_step_result. by rewrite (leg_freed _ _ _ _ _ _ Hrows Hok' Hl El Hn).
  - intros [= <-]. by rewrite (step_not_open _ _ _ _ _ utc' now' _ _ Ha).
Qed.

(** Handling a concluding event is idempotent: the bus may deliver it
    again, in a new delivery and at any later time, and the second handling
    is acknowledged and changes nothing in the ledger. *)
Theorem event_redelivery_changes_nothing utc utc' now now' d d' db db' :
  wd_ok db -> rows_ok db -> jobs_apart db ->
  ends_job (Delivery.message d) = true -> Delivery.message d' = Delivery.message d ->
  handle_event describe_abandon sweep_policy step_policy utc now d db = Ok db' ->
  handle_event describe_abandon sweep_policy step_policy utc' now' d' db' = Ok db'.
Proof.
  intros Hok Hrows Hapart Hend Hd. unfold handle_event. rewrite Hd.
  destruct (Delivery.message d) as [| job ch h b bh bt ti items | job ch reason | job leg ch step r | | job ch reason]; try done.
  - set (receipt := FinalizedSweep.mk job h b bh bt ti items).
    destruct (apply_sweep_finalized receipt sweep_policy now db) as [[a db1]|[]] eqn:Ha; simpl; try done.
    + intros [= <-]. apply finalized_closes, closed_refuses in Ha as (Hf & _). by rewrite (Hf receipt sweep_policy now' eq_refl).
    + intros [= <-]. apply finalized_not_open in Ha. unfold apply_sweep_finalized. by rewrite Ha.
  - destruct (apply_sweep_abandoned job reason now db) as [[a db1]|[]] eqn:Ha; simpl; try done.
    + intros [= <-]. apply without_effect_closes in Ha as (Hc%closed_refuses & _). by rewrite (proj1 (proj2 Hc)).
    + intros [= <-]. apply without_effect_not_open in Ha. unfold apply_sweep_abandoned, close_without_effect. by rewrite Ha.
  - by eapply step_again.
  - destruct (apply_sweep_rejected job reason now db) as [[a db1]|[]] eqn:Ha; simpl; try done.
    + intros [= <-]. apply without_effect_closes in Ha as (Hc%closed_refuses & Hj & El & Ew). rewrite (proj2 (proj2 Hc)).
      unfold reject_step. by rewrite (leg_of_job_same _ _ _ El Ew), (Hapart _ Hj).
    + destruct (reject_step job reason now db) as [[x db1]|[]] eqn:Hr; try done. intros [= <-].
      destruct (rejected_again _ _ _ now' _ _ _ _ Hok Hrows Ha Hr) as [Ha' Hn].
      unfold reject_step. by rewrite Ha', Hn.
Qed.

(** Evidence that no retry can make the ledger accept. *)
Definition unusable (e : SweepError) : bool :=
  match e with
  | ForeignItem _ _ | MissingOutcomes _ _ | Unbound _ | SweepDecode _ _ => true
  | NotOpen _ | SweepDatabase _ | SweepBus _ => false
  end.

(** Evidence the ledger cannot make sense of (a request that is not in the
    job, a request the evidence leaves out, a request that does not decode)
    changes nothing but its own delivery, which is parked as dead for an
    operator instead of being retried. *)
Theorem unusable_evidence_parked c d k utc now db row job ch h b bh bt ti items e :
  Delivery.message d = SweepFinalized job ch h b bh bt ti items ->
  apply_sweep_finalized (FinalizedSweep.mk job h b bh bt ti items) sweep_policy now db = Err e -> unusable e = true ->
  Bus.deliveries (Db.bus db) !! (Delivery.message_id d, Consumer.name c) = Some row ->
  holds_lease (Delivery.lease_token d) row = true ->
  exists what bus' row',
    handle_one c (handle_event describe_abandon sweep_policy step_policy utc) d k now db =
      (HandledFailed (Delivery.message_id d) what DispositionDead, {| db with Db.bus := bus' |}) /\
    Bus.messages bus' = Bus.messages (Db.bus db) /\
    Bus.deliveries bus' !! (Delivery.message_id d, Consumer.name c) = Some row' /\ DeliveryRow.state row' = Dead.
Proof.
  intros Hm Ha Hu Hrow Hl.
  assert (exists what, handle_event describe_abandon sweep_policy step_policy utc now d db = Err (Permanent what)) as (what & He).
  { unfold handle_event. rewrite Hm, Ha. destruct e; simpl in *; eauto; done. }
  destruct (fail_row c d (Permanent what) k now (Db.bus db) row Hrow Hl) as (Hd & row' & Hr' & Hs & _). simpl in Hd, Hs.
  destruct (fail_moves c d (Permanent what) k now (Db.bus db)) as [Hmsg _].
  unfold handle_one, handle_and_ack. rewrite He. simpl.
  exists what, (snd (Bus.fail c d (Permanent what) k now (Db.bus db))), row'. done.
Qed.

End Redelivery.

(** ** The receipt of the example, delivered twice; and a foreign one *)

Module ServerExample.
Import LedgerExample.

Definition describe (r : AbandonReason) : string := "abandoned".
Definition event : ExecutionEvent :=
  SweepFinalized 50 chain sweep_tx 200 block_hash 1900000100 3 [SweepItemResult.mk 1 (Settled 10)].
Definition delivery (attempt : Z) : Delivery.t ExecutionEvent :=
  Delivery.mk 700 event "sweep_finalized" 51 (Some 52) 3500 attempt (701 + attempt).

Lemma scheduled_quiet : no_withdrawals scheduled.
Proof. split; reflexivity. Qed.

Lemma scheduled_apart : jobs_apart scheduled.
Proof. intros job _. reflexivity. Qed.

Lemma event_redelivery_changes_nothing_witness :
  handle_event describe SweepPolicy.default StepPolicy.default 4000 4000 (delivery 1) scheduled = Ok swept /\
  handle_event describe SweepPolicy.default StepPolicy.default 9000 9000 (delivery 2) swept = Ok swept.
Proof.
  assert (handle_event describe SweepPolicy.default StepPolicy.default 4000 4000 (delivery 1) scheduled = Ok swept) as H
    by (vm_compute; reflexivity).
  split; [exact H|].
  apply (event_redelivery_changes_nothing describe SweepPolicy.default StepPolicy.default 4000 9000 4000 9000 (delivery 1)
    (delivery 2) scheduled swept); [| | |reflexivity|reflexivity|exact H].
  - exact (wd_runs_ok describe scheduled scheduled scheduled_quiet (rtc_refl _ _)).
  - exact (wd_runs_rows describe scheduled scheduled scheduled_quiet (rtc_refl _ _)).
  - exact scheduled_apart.
Defined.

Definition foreign : ExecutionEvent :=
  SweepFinalized 50 chain sweep_tx 200 block_hash 1900000100 3 [SweepItemResult.mk 2 (Settled 10)].
Definition server : Consumer.t := Consumer.mk "gum-server" ConsumerOptions.default.
Definition foreign_delivery : Delivery.t ExecutionEvent :=
  Delivery.mk 710 foreign "sweep_finalized" 51 None 3500 1 711.
Definition leased_row : DeliveryRow.t := DeliveryRow.mk Pending 1 3500 (Some 711) (Some 90000000) None (Some 3600) None.
Definition delivered : Db.t :=
  {| scheduled with Db.bus := Bus.mk (Bus.messages (Db.bus scheduled)) {[ (710, "gum-server") := leased_row ]} |}.

Lemma unusable_evidence_parked_witness :
  exists what bus' row',
    handle_one server (handle_event describe SweepPolicy.default StepPolicy.default 4000) foreign_delivery 0 4000 delivered =
      (HandledFailed 710 what DispositionDead, {| delivered with Db.bus := bus' |}) /\
    Bus.messages bus' = Bus.messages (Db.bus delivered) /\
    Bus.deliveries bus' !! (710, "gum-server") = Some row' /\ DeliveryRow.state row' = Dead.
Proof.
  apply (unusable_evidence_parked describe SweepPolicy.default StepPolicy.default server foreign_delivery 0 4000 4000
    delivered leased_row 50 chain sweep_tx 200 block_hash 1900000100 3 [SweepItemResult.mk 2 (Settled 10)] (ForeignItem 50 2));
    vm_compute; reflexivity.
Defined.

(** Monad's profile of the tests: 150M gas a block, 30M a transaction. *)
Definition monad : ChainConfig.t :=
  ChainConfig.mk 143 [] [2] [3] [] [] 0 FinalizedTag 0 400 100 None None None (Some 150000000) (Some 30000000) None.

Lemma batch_fits_gas_budget_witness :
  sweep_batch_gas_limit 74 <= 30000000 /\ 30000000 < sweep_batch_gas_limit 75.
Proof.
  destruct (batch_fits_gas_budget 143 monad SweepPolicy.default (SweepPolicy.mk 74 30 3600 5) 150000000) as [H1 H2];
    [reflexivity|reflexivity|vm_compute; split; [discriminate|reflexivity]
    |intros t [= <-]; vm_compute; split; [discriminate|reflexivity]|discriminate|].
  split; [exact H1|exact (H2 eq_refl 75 eq_refl)].
Defined.

End ServerExample.
